(* ===== verification/_CoqProject ===== *)
-Q . S2P
Prelude.v
GoStrings.v
GoPath.v
GoNet.v
IPText.v
EgressRule.v
Wire.v
Spans.v
Rules.v
DstSyntax.v
Conflicts.v
Canonical.v
Removal.v
RuleStore.v
Mappings.v
Checks.v
Generator.v
Routes.v
CoreDNS.v
HttpRoutes.v
EnvoyTree.v
EnvoyLayers.v
EnvoyInv.v
HostProxy.v
HostServer.v
HostServerSpec.v
EnvoyPolicy.v
EnvoyReach.v
YamlNode.v
YamlMerge.v
Discover.v
LayeredStore.v
YamlPortable.v
StoreSpec.v
StoreMigrate.v
PubSub.v
AgentIdentity.v
AgentRegistry.v
DockerFeeder.v
AgentStore.v
SessionProto.v
Executor.v
Dialer.v
DialerSpec.v
Supervisor.v
DaemonSession.v
OneShot.v
Whail.v
ActionQueue.v
EbpfApi.v
Ebpf.v
Resolver.v
Bpf.v
BpfSpec.v
NetLogger.v
NetLoggerSpec.v
Enforcement.v
Handler.v
Stack.v
StackSpec.v
Lockstep.v
BundleNames.v
BundleFS.v
Bundle.v
BundleResolver.v
BundleSwap.v
BundleStage.v
BundleGC.v
BundleListing.v
Bridge.v
BridgeSpec.v
