(* ===== verification/Prelude.v ===== *)
(** * clawker: egress firewall, configuration store and control plane

    A verification library for the parts of clawker that carry its own logic:
    the firewall that decides and enforces where an agent container may connect
    (rule store, its projection into Envoy, CoreDNS and eBPF configuration,
    kernel-map manager, handler, action queue, the containers of Envoy and
    CoreDNS, and the host proxy's own check of URLs); the server of the host
    proxy; the layered configuration store; the control plane's event topics,
    Docker event feed, agent identity, registration, worldview and sessions;
    the daemon at the other end of those sessions, in the agent's container;
    the label jail around the Docker API; the cache of fetched bundles from
    which harnesses, stacks and monitoring extensions are resolved; and the
    bridge that brings the host's ssh and gpg agents into a container.

    ** How the program works

    A rule (internal/config/schema.go) names a destination, a protocol, ports
    and an action.  Rules arrive over gRPC (api/admin/v1), are validated,
    normalized and merged into the stored set (controlplane/firewall/handler.go
    and rules_store.go), and every reader first takes the canonical form of
    that set, [NormalizeAndDedup]: duplicates dropped, and for the opaque
    protocols tcp, ssh and udp the denied ports carved out of the allowed ones.
    From the canonical rules three artifacts are generated in lockstep: Envoy's
    listeners and chains (envoy_config.go, envoy_types.go), CoreDNS's zones
    (coredns_config.go), and the routes of the kernel's route map
    (RoutesFromRules, written by ebpf/manager.go).  In the kernel, BPF programs on
    the container's cgroup (ebpf/bpf) move every connect and send to CoreDNS, to
    Envoy's port of the route, or to Envoy's egress port, and refuse the rest; they
    report each decision through a ring buffer, which the egress logger
    (ebpf/netlogger) turns into log records.  Envoy and CoreDNS
    run in two containers that the stack (stack.go, network.go) creates, starts,
    reloads, probes and stops.  CoreDNS answers names of the rules
    only, and a plugin in it (internal/dnsbpf) tells the kernel which name an
    address was the answer for.  The handler serializes everything that touches the stack through one action queue (queue.go) and
    keeps dead-man timers for bypassed containers.  The host proxy
    (internal/hostproxy/egress_check.go) reads the same rules file and decides
    by itself whether a URL may be opened in the host's browser; its server
    (server.go, session.go, callback.go, git_credential.go) opens such URLs, holds
    the one-shot sessions through which a login callback reaches a container, and
    passes git credential requests on; its daemon (daemon.go) leaves when no
    container is left.

    Every configuration file, the rules file among them, belongs to a layered
    store (internal/storage): the files found by walking up from the working
    directory and by probing fixed directories, and a layer of defaults, are
    YAML trees merged by priority; a change is made in the merged tree and
    flushed to the file that owns it.

    The control plane learns about containers from Docker's event stream
    (controlplane/dockerevents), which it republishes on a topic
    (controlplane/pubsub).  An agent in a container registers over mutual TLS:
    the interceptor finds the container behind the peer's address and compares
    its labels with the certificate, the handler binds the certificate to the
    container in the registry (controlplane/agent).  Subscribers evict rows of
    destroyed containers, project what happened to each agent into a worldview,
    and shut the control plane down when no agent is left.  For each running
    agent the control plane holds a session with the daemon of its container
    (dialer.go): it dials until it is answered, classifies the certificate it
    met, asks an unknown agent to register, runs the init and boot plans step by
    step (exec.go) as the daemon's HelloAck says, and reconnects when the stream
    breaks.  The daemon (clawkerd) runs the commands it is sent as pipelines,
    streams their output, starts the user's command once, reaps it and the
    orphans it leaves, and exits with its status.  All Docker calls of
    the program go through an engine (pkg/whail) that acts only on objects that
    carry its label.

    What an agent's image is built from are components (internal/bundle): those
    shipped in the binary, those in loose directories of the user and the project,
    and those of bundles, which are declared by source.  A declared repository is
    cloned, copied without the links that leave the tree, given a receipt and
    swapped into a cache slot keyed by a digest of the declared value (install.go);
    a sweep puts back what an interrupted swap left aside and collects what no
    declaration of any project addresses (gc.go); a bare name resolves in the
    nearest tier that has it, a qualified one in its bundle (resolver.go), and
    declared sources are refetched when their tip has moved (update.go).

    The host's ssh and gpg agents are forwarded over the pipes of a [docker exec]
    (internal/socketbridge/bridge.go): a server in the container
    (internal/hostproxy/internals/cmd/clawker-socket-server) listens on sockets of
    its own, gives each connection a stream, and exchanges open, data and close
    messages with a daemon on the host, which connects to the agent; a manager
    (manager.go) keeps one daemon per container by its PID file.

    ** Files

    - [Prelude]: results of fallible calls, tactics, list lemmas.
    - [GoStrings], [GoPath], [GoNet], [IPText]: what the code uses of the Go
      packages strings, strconv, filepath and net, as executable functions on
      ASCII strings and byte lists; printed addresses are read back.
    - [EgressRule]: rules, path rules and port specs (schema.go, egress_port.go).
    - [Wire]: rules on the wire and gRPC statuses (conversion.go, errors.go).
    - [Spans]: merging, subtracting, comparing and printing port spans, with
      the set of ports as their abstract meaning (rules_store.go,
      lowestSpanOverlap of envoy_config.go).
    - [Rules], [DstSyntax]: validation, normalization, keys and merging of
      rules; the grammar of destinations that the scanner accepts.
    - [Conflicts], [Canonical]: NormalizeAndDedup, resolveOpaquePortConflicts
      and rulesCanonicalEqual, and what the canonical set means.
    - [Removal], [RuleStore]: the store's transactions, the rule RPCs, and the
      healing transaction of stack.go.
    - [Mappings], [Checks], [Generator]: listener layout, the generator's
      admission checks, and which layer chains it derives from which rule.
    - [Routes]: the projection into kernel routes and DNS seeds.
    - [CoreDNS]: the Corefile, down to its text, and its zones.
    - [HttpRoutes]: Envoy's HTTP routes for a rule (httpRoutes, pathSpecifier
      of envoy_http.go).
    - [EnvoyTree], [EnvoyLayers]: the accumulator of listeners, chains and
      clusters (envoy_types.go); every layer method (envoy_tcp.go, envoy_tls.go,
      envoy_udp.go, envoy_upstream.go, envoy_http.go), the commit of a
      permutation and GenerateEnvoyConfig (envoy_config.go).
    - [EnvoyInv]: the invariant of the accumulator: where every chain, virtual
      host and datagram proxy comes from and leads to.
    - [EnvoyPolicy], [EnvoyReach]: Envoy as an interface of operations and one of
      laws, the egress policy over connections and requests, and both directions
      of its enforcement.
    - [HostProxy]: the egress check of the host proxy, from the parsed URL to
      the verdict.
    - [HostServer], [HostServerSpec]: the server of the host proxy: sessions,
      callback channels, the HTTP handlers, git credentials, the daemon and its
      watcher (internal/hostproxy).
    - [YamlNode], [YamlMerge]: YAML trees with their comments and the operations
      on them, with equality up to style and comments as a setoid (node.go);
      the merge of layers with provenance (node.go, merge.go).
    - [Discover]: discovery of files and write targets over a file system
      (discover.go, targets.go, options.go).
    - [LayeredStore]: the store itself: construction, mutation, routing, writing,
      migration, with file-system faults (store.go, write.go, load.go).
    - [YamlPortable]: the trees that survive being written and read again, and the
      laws of the YAML library on them ([YamlLaws]).
    - [StoreSpec], [StoreMigrate]: what the store promises, against these laws.
    - [PubSub]: topics as interleaved actions of publishers, drain goroutines,
      subscribers and [Close] (controlplane/pubsub/engine.go).
    - [AgentIdentity]: names, certificate SANs, the container behind an address
      and the identity interceptor (internal/auth, controlplane/agent).
    - [AgentRegistry]: the registry interface as a class of operations and one of
      laws, its in-memory and sqlite instances, the Register handler against
      the interface, and the reaping of orphans.
    - [DockerFeeder]: dispatch, reconciliation and reconnection of the event feed.
    - [AgentStore]: the projected worldview, the reactions to Docker events and
      the drain-to-zero watcher.
    - [SessionProto], [Executor]: the frames of a session and the control plane's
      end of a stream; steps, plans and their execution (exec.go, init_steps.go,
      boot_steps.go, utils.go).
    - [Dialer], [DialerSpec]: one dial from resolution to reconnection, the map
      of dials, and what they publish (dialer.go, start.go).
    - [Supervisor]: the user's command: arguments, environment, single spawn, the
      two phases of the reaper (clawkerd/spawn.go, spawn_unix.go).
    - [DaemonSession]: the daemon's end of a session: receiver, command workers,
      the writers of initial inputs, sender and [Stop] as interleaved steps, none of
      which panics (clawkerd/session.go).
    - [OneShot]: the two ends together, through an interface the daemon's
      handlers implement.
    - [Whail]: labels, filters and every operation of the Docker engine wrapper.
    - [ActionQueue]: the queue as a step relation over submissions, takes,
      executions, deliveries and shutdown.
    - [EbpfApi]: container configurations, kernel faults, and the interface
      the handler uses, as a class of operations and a class of laws.
    - [Ebpf]: the manager's operations on the kernel maps, and the proof that
      it satisfies the interface.
    - [Bpf], [BpfSpec]: the nine cgroup programs of clawker.c and the helpers of
      common.h on the same maps; confinement at the socket layer, the way back of
      redirected datagrams, the budget of the event channel.
    - [Resolver]: the resolver's plugin, from an answer to the kernel's name cache.
    - [NetLogger], [NetLoggerSpec]: the egress logger (ebpf/netlogger): records and
      their decoding, the label cache, the queue, the circuit breaker; what a
      log record says of the decision it reports.
    - [Enforcement]: resolver, kernel, routes and Envoy of one rule set together.
    - [Handler]: enable, disable, bypass, init, remove and reconcile, and the
      interleavings of bypass timers with them.
    - [Stack], [StackSpec]: the two containers on a model of Docker's containers,
      networks and images, reached through the engine of [Whail]: bring-up, reload,
      stop, drift, health (stack.go, network.go).
    - [Lockstep]: the handler's reconcile over the stack and the kernel maps.
    - [BundleNames]: names, addresses, identities, sources and their keys, the
      suggestion for a mistyped directory (internal/consts/name.go, address.go,
      component.go, source.go, warnings.go).
    - [BundleFS]: a file system of directories, files and symbolic links; programs
      over its calls, whose calls may fail with part of their effect and which may
      be cut off after any of them; the logic for both ([chl]).
    - [Bundle]: loading, receipts, the cache, install, garbage collection and
      the manager (bundle.go, receipt.go, installed.go, install.go, gc.go,
      manager.go).
    - [BundleResolver], [BundleListing]: tiers, resolution, listing, statuses and
      updates (resolver.go, loose.go, floor.go, inventory.go, status.go, update.go),
      and the agreement of listing and resolution.
    - [BundleSwap], [BundleStage], [BundleGC]: the swap with crashes and sweep, the
      staged tree and its links, the collection.
    - [Bridge], [BridgeSpec]: messages and their bytes, both ends of the socket
      bridge as interleaved steps ([step], [run]), their start-up ([Start], [serve])
      and the manager of the daemons; the invariant of the two ends and their pipes.

    Definitions keep the names of the source; a Go loop is a fold or a
    structural recursion over its list, a Go error is the [Err] of a [result]
    (or [option], or a value of an error type), a Go panic is [GoPanic].  Maps
    are [gmap]s and sets [gset]s; a map iterated in the source is iterated in
    [map_to_list] order, and the theorems do not depend on that order.  Integers
    are [Z] with the casts ([uint16], [uint32], [int64]) written out.  Two loops
    are not structural and take fuel: the walk up the directories, whose fuel is
    the number of segments of the path ([walk_fuel]; [walkUp_bounded] shows it
    ends at the anchor before the fuel does), and the retry loop of a publisher
    alone on a queue ([enqueue]; two rounds are enough since one eviction makes
    room, part of [publish_newest_wins]).

    ** What the theorems show

    - Meaning of a rule set ([Canonical], [Checks]): denied ports are exactly
      the ports the input denies; allowed ports exactly those allowed and not
      denied, except the contradictory single-port clash, which the generator
      rejects; canonicalization is idempotent and its keys unique.
    - Store ([RuleStore]): what an add or a removal changes for readers, that
      it writes exactly when the canonical set moves, and that a batch is
      all-or-nothing on validation.
    - Generators ([Mappings], [Checks], [Generator], [Routes], [CoreDNS]):
      deny rules never reach an upstream; each dedicated listener has a port of
      its own that the routes lead to; routes and zones are exactly the
      projection of the policy.
    - End to end ([BpfSpec], [Enforcement]): whatever a process of an enforced
      container connects or sends to is refused, stays on the host, or goes to
      CoreDNS or to Envoy, where it is forwarded only as a rule grants; a stream to
      an address the resolver answered for a host of an opaque rule arrives at the
      listener of exactly that host and port; replies are reported from where the process had aimed; a container
      puts no more events in the ring buffer than its bucket holds and refills, and
      a bounded number for every time another CPU interferes with its bucket.
    - Egress log ([NetLoggerSpec]): a decision of the kernel is decoded to the
      verdict, flow and container it was about; the label cache refines the map
      from cgroups to their latest container; every record is emitted, counted as
      lost, or still queued; the breaker opens after its threshold and stays open.
    - Proxy ([EnvoyPolicy], [EnvoyReach]): whatever a generated
      configuration forwards is granted by a rule that does not deny, and the
      egress log says so; a host denied on an opaque port is not reached, except
      through a wildcard that asks for it by name; every opaque port a rule names
      has a listener where the kernel's route leads, and it forwards to exactly
      that host and port.
    - Host proxy ([HostProxy]): which rule decides among exact, wildcard and
      IP matches; on the rules both enforcement points understand, its path
      verdict is the verdict of Envoy's routes; a canonical path has no
      dot segment to escape with.
    - Kernel maps ([Ebpf]): a sync makes the route map equal to the routes; the
      sweep evicts only what expired, never the seed of a live rule, in any
      interleaving; startup leaves no stale bypass.
    - Firewall control ([ActionQueue], [Handler]): the queue answers every
      submission exactly once, in order, and drains on shutdown; a bypass is
      always covered by a timer that clears it; enable, init and reconcile put
      enforcement and routes in force, or report an error.
    - Stack ([StackSpec], [Lockstep]): after a bring-up that reports no error both
      containers run with the configuration, image and labels of the current
      rules, and containers that match are kept; of the containers, reload and stop
      touch these two only; after a reconcile the rules, the files and processes of
      Envoy and CoreDNS, and the kernel's routes all belong to the same rule set
      (on an engine where no other container's name contains theirs).
    - Host proxy server ([HostServerSpec]): a callback is captured at most once and
      read back as it arrived, by the session it was registered for; the lines
      handed to git are exactly the fields of the request, with none smuggled in;
      a URL is opened only when the egress check grants it; the watcher ends the
      daemon when the containers are gone.
    - Configuration ([YamlMerge], [Discover], [StoreSpec], [StoreMigrate]): the
      merged value of a path is that of the highest-priority layer that has it,
      and provenance names that layer; discovery stays between the working
      directory and its anchor, and a file written to a target is discovered
      again; readers see a snapshot of the current tree through any sequence of
      calls and faults; a write that meets no fault brings every staged change to its
      file and nothing else, where the trees are portable, keeping the file's own
      comments; migrations leave each file untouched, rewritten, or reported.
    - Events ([PubSub], [DockerFeeder]): queues are bounded, in order, and every
      loss is counted; a lone publisher keeps the newest events; [Close] drains;
      only managed objects reach the topic.
    - Agents ([AgentIdentity], [AgentRegistry], [AgentStore]): a welcome binds the
      certificate to the container it was issued for, and no later call can take
      the binding over; reaping removes exactly the rows of missing containers;
      the worldview is well formed and is the fold of each container's events
      since it was last destroyed; the watcher fires exactly when the agents are
      gone.
    - Sessions ([Executor], [DialerSpec], [DaemonSession], [OneShot]): a plan sends
      the commands of a step only after the step before was acknowledged, stops
      at the first failure, and its events project to how it ended; a dial ends
      with its failure published or its context cancelled, after which it publishes
      no session event; what is sent does not
      depend on the certificate presented; a container has one dial at a time;
      in every interleaving responses are written in the order they were queued and
      a worker queues nothing after what it ends with; the daemon is asked to exit
      only after the session was stopped, with the fatal exit code on the stream when
      the sender could flush the queue; the init plan, once completed, is never sent
      again.
    - Supervisor ([Supervisor]): whoever asks and however often, and as long as the
      spawn does not panic, one child is
      forked and everyone learns its outcome; the exit status is the child's,
      through whatever the orphans do; the orphan drain ends.
    - Docker ([Whail]): whatever operation of the wrapper is asked for, the calls that reach Docker are on
      objects with the managed label, create objects with it, or are filtered
      by it, up to the gaps [jail_gaps] states.
    - Bundles ([BundleNames], [BundleSwap], [BundleStage], [BundleGC],
      [BundleListing]): an address is what its printing parses to, and keys tell
      plain sources apart; whichever calls of an install fail and wherever it is
      cut off, after the next sweep, where no older copy is left to restore, the slot holds the old content or the new one,
      and the one the install reported; whatever a repository ships, no link of the
      published tree leaves it or reaches the receipt; a collection whose
      contest read every receipt leaves every declared value the entry and the content
      it had; without links, what is listed for a bare name is what it resolves to.
    - Socket bridge ([BridgeSpec]): a message reads back as it was written; in every
      interleaving and with any failure, a stream joins one client to the agent of
      its socket and each receives a prefix of what the other sent, all of it while
      the stream and its reader live; start-up succeeds, fails or waits at both ends
      alike; a running bridge is kept, and a stopped one is signalled and forgotten.
    - Where code and comments disagree ([addRulesToStore_reapply_opens_port],
      [FirewallEnable_strands_bypass], [bare_tcp_rule_duplicates_listener],
      [carve_out_denies_the_name], [EgressRule_proto_roundtrip],
      [path_default_deny_ignored], [blank_path_action_diverges],
      [methods_ignored], [nested_remove_not_persisted], [remove_then_set_lost],
      [exec_incoherent], [network_create_published], [mem_overwrites],
      [jail_gaps], [timeout_lost], [io_error_not_terminal], [panic_masks_spawn], [restart_loses_session], [kill_event_cancels],
      [match_keeps_distrust], [boot_after_failed_init], [sanitized_names_clash],
      [vhost_name_clash], [apex_port_lost], [host_not_pinned_by_sni],
      [websocket_order], [udp_listener_overwritten], [range_spellings_clash],
      [gateway_let_through], [quic_reply_misattributed], [rebind_drops_label],
      [stop_abandons_queue], [stale_envoy_misroutes], [shadowing_agent_removed],
      [coredns_image_kept], [envoy_image_pulled], [duplicate_register_closes],
      [callback_ttl_spec], [second_daemon_erases_pid], [canonical_collides],
      [purged_entry_returns], [older_copy_restored], [live_twin_collected],
      [linked_component_unlisted], [unspellable_component_listed],
      [mismatched_gpg_waits], [large_keyring_refused], [payload_limit],
      [stale_pid_confirms], [old_daemon_erases]), the theorem states what the code does.

    ** Parameters and what is left out

    Envoy is a parameter: which chain a connection gets, which virtual host an
    authority, which route a request, with the laws of its documentation
    ([EnvoyLaws]); so is its bootstrap schema, against which the marshalled tree
    is checked.  Regular-expression compilation and matching are parameters of rule
    validation and of the path checks; the YAML library, the decoding of a tree
    into the schema's type and the schema's merge tags are parameters of the
    configuration store; SHA-256 is one of the registration, and x509 parsing and
    verification and the texts of the shell scripts are parameters of a dial.  What Docker, the
    containers, the file system, the database and the kernel answer during a
    call are inputs ([Env], [kfaults], [faults], [io], [reg_faults], [Docker],
    [attempt], [cycle], [recv_env], [kernel], [wait4]); the peer of a stream is a
    state with a reaction to each command, and the context of a dial a countdown
    of the checks made of it.
    YAML aliases are leaves and are not followed.  A mutex makes the code under
    it one step; goroutines are interleavings of such steps.  Logging, metrics
    and message texts are dropped, and so are the fields of Envoy's tree that never
    vary, certificate generation and program loading.  A BPF program is one step,
    its helpers' answers are inputs ([task]), and the maps it counts in have room.
    The digest of a source, the manifest and receipt formats and the deep check of a
    component are parameters of the bundle manager ([Deps]); the declarations of
    this and of other projects ([Manager]), the shipped tree and the loose
    directories ([Setup]), and for each call of its programs the fault, the remote
    repository, the clock and the age of a staging tree ([env]) are inputs.  An
    advisory lock is a call that creates the lock file: a program runs alone, and
    what another process does meanwhile shows as a failing call.
    What gpg and gpgconf print, whether an agent's socket answers, the bytes that
    arrive on a connection and the writes that fail ([HostEnv], [Forwarder], the
    arguments of an [action]) are inputs of the bridge, as are the PIDs of spawned
    daemons; keyring files, socket permissions and the watch for the container's
    death are not modelled.
    Strings are ASCII: case folding of other letters is not modelled.
    The addresses in kernel maps are those of a little-endian CPU.

    ** Not modelled

    Certificate generation (certs.go) and the git client (internal/bundle/fetch)
    are calls into crypto and git libraries.  The reflection over struct tags
    (internal/storage/field.go) yields the tag registry, which is a parameter.
    The daemon's listener and registration client are set-up of gRPC and TLS
    around the session that is modelled.  The assembly of container options from
    flags and configuration (internal/cmd/container, internal/docker), the
    Dockerfile templates (internal/bundler), the command tree, the terminal UI
    and the monitoring stack translate, render or forward; they decide little
    and keep no state of their own. *)

From stdpp Require Export base tactics option list list_numbers gmap strings sorting.
From Stdlib Require Export ZArith Lia Ascii.

#[global] Open Scope Z_scope.

(** ** Results of fallible Go functions *)

(** A Go function returning [(T, error)] is a [result]: exactly one of the
    value and the error is meaningful. *)
Inductive result (E A : Type) : Type :=
  | Ok (a : A)
  | Err (e : E).
Arguments Ok {E A} a.
Arguments Err {E A} e.

Definition is_ok {E A} (r : result E A) : bool :=
  match r with Ok _ => true | Err _ => false end.

Definition result_bind {E A B} (r : result E A) (k : A -> result E B) : result E B :=
  match r with Ok a => k a | Err e => Err e end.

Declare Scope go_scope.
Delimit Scope go_scope with go.
Notation "'let?' x ':=' r 'in' k" :=
  (result_bind r (fun x => k))
    (at level 10, x pattern, r at level 100, k at level 200) : go_scope.
Notation "'check' r 'then' k" :=
  (result_bind r (fun _ => k))
    (at level 10, r at level 100, k at level 200) : go_scope.
#[global] Open Scope go_scope.

Lemma result_bind_ok {E A B} (r : result E A) (k : A -> result E B) b :
  result_bind r k = Ok b <-> exists a, r = Ok a /\ k a = Ok b.
Proof. destruct r; simpl; naive_solver. Qed.

(** ** Development tactics *)

(** Case analysis on the head [match]/[if] scrutinee of the goal or of a
    hypothesis, keeping the equation. *)
Ltac split_match :=
  match goal with
  | |- context [ if ?b then _ else _ ] => destruct b eqn:?
  | |- context [ match ?x with _ => _ end ] => destruct x eqn:?
  end.

Ltac split_match_in H :=
  match type of H with
  | context [ if ?b then _ else _ ] => destruct b eqn:?
  | context [ match ?x with _ => _ end ] => destruct x eqn:?
  end.

(** Turn boolean tests on integers and booleans into propositions. *)
Ltac bool_to_prop :=
  repeat match goal with
  | H : (_ && _)%bool = true |- _ => apply andb_true_iff in H as [? ?]
  | H : (_ && _)%bool = false |- _ => apply andb_false_iff in H
  | H : (_ || _)%bool = true |- _ => apply orb_true_iff in H
  | H : (_ || _)%bool = false |- _ => apply orb_false_iff in H as [? ?]
  | H : negb _ = true |- _ => apply negb_true_iff in H
  | H : negb _ = false |- _ => apply negb_false_iff in H
  | H : (_ <? _) = true |- _ => apply Z.ltb_lt in H
  | H : (_ <? _) = false |- _ => apply Z.ltb_ge in H
  | H : (_ <=? _) = true |- _ => apply Z.leb_le in H
  | H : (_ <=? _) = false |- _ => apply Z.leb_gt in H
  | H : (_ =? _) = true |- _ => apply Z.eqb_eq in H
  | H : (_ =? _) = false |- _ => apply Z.eqb_neq in H
  | H : bool_decide _ = true |- _ => apply bool_decide_eq_true in H
  | H : bool_decide _ = false |- _ => apply bool_decide_eq_false in H
  end.

(** Linear arithmetic with [/] and [mod] by constants. *)
Ltac div_lia := Z.to_euclidean_division_equations; lia.

Create HintDb clawker.

(** ** Lists *)

Lemma StronglySorted_weaken {A} (R S : relation A) l :
  (forall a b, R a b -> S a b) -> StronglySorted R l -> StronglySorted S l.
Proof.
  intros HRS. induction 1 as [|a l _ IH Hl]; constructor; [done|].
  eapply Forall_impl; [exact Hl|]. auto.
Qed.

Lemma StronglySorted_weaken_in {A} (R S : relation A) l :
  (forall a b, a ∈ l -> b ∈ l -> R a b -> S a b) -> StronglySorted R l -> StronglySorted S l.
Proof.
  intros HRS Hl. induction Hl as [|a l _ IH Hl]; constructor.
  - apply IH. intros. apply HRS; [by right..|done].
  - apply Forall_forall. intros b Hb. rewrite Forall_forall in Hl.
    apply HRS; [by left|by right|by apply Hl].
Qed.

Lemma StronglySorted_bind {A B} (R : relation B) (f : A -> list B) (S : relation A) (l : list A) :
  StronglySorted S l ->
  (forall a, a ∈ l -> StronglySorted R (f a)) ->
  (forall a b x y, S a b -> x ∈ f a -> y ∈ f b -> R x y) ->
  StronglySorted R (l ≫= f).
Proof.
  intros Hl Hf HS. induction Hl as [|a l Hl IH Ha]; simpl; [constructor|].
  apply StronglySorted_app_2.
  - intros x y Hx Hy. apply list_elem_of_bind in Hy as (b & Hy & Hb).
    rewrite Forall_forall in Ha. eapply HS; eauto.
  - apply Hf. by left.
  - apply IH. intros b Hb. apply Hf. by right.
Qed.

Lemma list_bind_ext_in {A B} (f g : A -> list B) l :
  (forall x, x ∈ l -> f x = g x) -> l ≫= f = l ≫= g.
Proof.
  induction l as [|a l IH]; intros H; simpl; [done|].
  rewrite H by (by left). f_equal. apply IH. intros x Hx. apply H. by right.
Qed.

(** Keys of a concatenation are distinct when they are within and across the
    parts. *)
Lemma NoDup_fmap_bind {A B K} (g : B -> K) (f : A -> list B) l :
  NoDup l -> (forall x, x ∈ l -> NoDup (g <$> f x)) ->
  (forall x y a b, x ∈ l -> y ∈ l -> x <> y -> a ∈ f x -> b ∈ f y -> g a <> g b) ->
  NoDup (g <$> (l ≫= f)).
Proof.
  induction 1 as [|x l Hx Hl IH]; intros Hin Hout; cbn [mbind list_bind fmap list_fmap]; [constructor|].
  rewrite fmap_app. apply NoDup_app. split; [apply Hin; by left|]. split.
  - intros k Ha Hb. apply list_elem_of_fmap in Ha as (a & -> & Ha), Hb as (b & E & Hb).
    apply list_elem_of_bind in Hb as (y & Hb & Hy).
    refine (Hout x y a b _ _ _ Ha Hb E); [by left|by right|]. by intros ->.
  - apply IH; [intros y Hy; apply Hin; by right|]. intros y z a b Hy Hz. apply Hout; by right.
Qed.

Lemma NoDup_fmap_inj_in {A K} (g : A -> K) l x y :
  NoDup (g <$> l) -> x ∈ l -> y ∈ l -> g x = g y -> x = y.
Proof.
  intros Hn Hx Hy E. apply list_elem_of_lookup in Hx as (i & Hi), Hy as (j & Hj).
  assert (i = j) as ->; [|congruence]. rewrite NoDup_alt in Hn.
  apply (Hn i j (g x)); rewrite list_lookup_fmap; [by rewrite Hi|by rewrite Hj, E].
Qed.

Lemma NoDup_fmap_elim {A K} (g : A -> K) l : NoDup (g <$> l) -> NoDup l.
Proof.
  induction l as [|a l IH]; [by constructor|]. cbn. intros [Ha Hl]%NoDup_cons.
  constructor; [|by apply IH]. intros Hin. apply Ha. by apply list_elem_of_fmap_2.
Qed.

Lemma list_bind_fmap_l {A B C} (g : B -> C) (f : A -> list B) l :
  g <$> (l ≫= f) = l ≫= (fun x => g <$> f x).
Proof. induction l as [|a l IH]; [done|]. cbn [mbind list_bind]. by rewrite fmap_app, <- IH. Qed.

Lemma existsb_elem {A} (f : A -> bool) l : existsb f l = true <-> exists x, x ∈ l /\ f x = true.
Proof. rewrite existsb_exists. by setoid_rewrite list_elem_of_In. Qed.

Lemma list_filter_all {A} (P : A -> Prop) `{forall x, Decision (P x)} l : Forall P l -> filter P l = l.
Proof. induction 1; [done|]. rewrite filter_cons_True by done. by f_equal. Qed.
