(* ===== verification/GoStrings.v ===== *)
(** * Go's [strings] and [strconv] functions, as the modelled code uses them

    A Go string is a byte sequence, modelled by Rocq's [string].  The case
    folding functions are the ASCII part of Go's ([strings.ToLower],
    [strings.ToUpper], [strings.EqualFold]): bytes outside ASCII are left as
    they are, so statements about them speak of ASCII input. *)

From S2P Require Import Prelude.

Module Go.

(** ** Prefixes and suffixes *)

Fixpoint strip_prefix (p s : string) : option string :=
  match p, s with
  | EmptyString, _ => Some s
  | String a p', String b s' => if Ascii.eqb a b then strip_prefix p' s' else None
  | String _ _, EmptyString => None
  end.

Definition HasPrefix (s p : string) : bool := bool_decide (is_Some (strip_prefix p s)).
Definition TrimPrefix (s p : string) : string := default s (strip_prefix p s).

Definition strip_suffix (p s : string) : option string :=
  String.rev <$> strip_prefix (String.rev p) (String.rev s).

Definition HasSuffix (s p : string) : bool := bool_decide (is_Some (strip_suffix p s)).
Definition TrimSuffix (s p : string) : string := default s (strip_suffix p s).

(** [strings.Cut]: the parts around the first occurrence of [sep]. *)
Fixpoint Cut (sep s : string) : option (string * string) :=
  match strip_prefix sep s with
  | Some r => Some (EmptyString, r)
  | None =>
      match s with
      | EmptyString => None
      | String c s' =>
          match Cut sep s' with
          | Some (a, b) => Some (String c a, b)
          | None => None
          end
      end
  end.

Definition Contains (s sub : string) : bool := bool_decide (is_Some (Cut sub s)).

(** ** Characters *)

Definition code (c : ascii) : Z := Z.of_N (N_of_ascii c).
Definition is_lower (c : ascii) : bool := (97 <=? code c) && (code c <=? 122).
Definition is_upper (c : ascii) : bool := (65 <=? code c) && (code c <=? 90).
Definition is_digit (c : ascii) : bool := (48 <=? code c) && (code c <=? 57).
Definition is_letter (c : ascii) : bool := is_lower c || is_upper c.
(** ASCII white space of [unicode.IsSpace]: \t \n \v \f \r and the blank. *)
Definition is_space (c : ascii) : bool :=
  ((9 <=? code c) && (code c <=? 13)) || (code c =? 32).

Definition to_lower (c : ascii) : ascii :=
  if is_upper c then ascii_of_N (N_of_ascii c + 32) else c.
Definition to_upper (c : ascii) : ascii :=
  if is_lower c then ascii_of_N (N_of_ascii c - 32) else c.

Fixpoint map_string (f : ascii -> ascii) (s : string) : string :=
  match s with EmptyString => EmptyString | String c s' => String (f c) (map_string f s') end.

Definition ToLower : string -> string := map_string to_lower.
Definition ToUpper : string -> string := map_string to_upper.
Definition EqualFold (s t : string) : bool := String.eqb (ToLower s) (ToLower t).

Fixpoint all_chars (p : ascii -> bool) (s : string) : bool :=
  match s with EmptyString => true | String c s' => p c && all_chars p s' end.

(** ** Trimming *)

Fixpoint trim_left (p : ascii -> bool) (s : string) : string :=
  match s with
  | String c s' => if p c then trim_left p s' else s
  | EmptyString => EmptyString
  end.

Definition trim_right (p : ascii -> bool) (s : string) : string :=
  String.rev (trim_left p (String.rev s)).

Definition TrimSpace (s : string) : string := trim_right is_space (trim_left is_space s).

(** [strings.ReplaceAll] for a one-byte pattern. *)
Fixpoint ReplaceChar (c : ascii) (by_ : string) (s : string) : string :=
  match s with
  | EmptyString => EmptyString
  | String d s' => if Ascii.eqb c d then by_ +:+ ReplaceChar c by_ s' else String d (ReplaceChar c by_ s')
  end.

Fixpoint Join (l : list string) (sep : string) : string :=
  match l with
  | [] => EmptyString
  | [x] => x
  | x :: l' => x +:+ sep +:+ Join l' sep
  end.

(** ** Decimal integers *)

Definition digit_char (d : Z) : ascii := ascii_of_N (Z.to_N (48 + d)).

(** [fuel] bounds the number of digits; an [int] has at most 19. *)
Fixpoint itoa_go (fuel : nat) (n : Z) (acc : string) : string :=
  match fuel with
  | O => acc
  | S f =>
      let acc' := String (digit_char (n mod 10)) acc in
      if n <? 10 then acc' else itoa_go f (n / 10) acc'
  end.

Definition Itoa (n : Z) : string :=
  if n <? 0 then String "-" (itoa_go 20 (- n) EmptyString) else itoa_go 20 n EmptyString.

Fixpoint digits_value (acc : Z) (s : string) : option Z :=
  match s with
  | EmptyString => Some acc
  | String c s' => if is_digit c then digits_value (acc * 10 + (code c - 48)) s' else None
  end.

Definition min_int : Z := - 2 ^ 63.
Definition max_int : Z := 2 ^ 63 - 1.

(** [strconv.Atoi]: an optional sign, at least one digit, and the range of
    [int]; [None] is the error. *)
Definition Atoi (s : string) : option Z :=
  let '(neg, ds) :=
    match s with
    | String c s' =>
        if Ascii.eqb c "-" then (true, s') else if Ascii.eqb c "+" then (false, s') else (false, s)
    | EmptyString => (false, EmptyString)
    end in
  match ds with
  | EmptyString => None
  | _ =>
      v ← digits_value 0 ds;
      let v := if (neg : bool) then - v else v in
      if (min_int <=? v) && (v <=? max_int) then Some v else None
  end.

(** ** Concatenation and reversal *)

Lemma append_nil_r s : s +:+ "" = s.
Proof. induction s; simpl; [done|]. unfold String.app in *. simpl. by rewrite IHs. Qed.

Lemma append_assoc s t u : s +:+ (t +:+ u) = (s +:+ t) +:+ u.
Proof. induction s; [done|]. unfold String.app in *. simpl. by rewrite IHs. Qed.

Lemma rev_app_spec s t : String.rev_app s t = String.rev s +:+ t.
Proof.
  unfold String.rev. revert t. induction s as [|c s IH]; intros t; [done|].
  simpl. rewrite IH, (IH (String c "")), <- append_assoc. done.
Qed.

Lemma rev_cons c s : String.rev (String c s) = String.rev s +:+ String c "".
Proof. unfold String.rev at 1. simpl. apply rev_app_spec. Qed.

Lemma rev_append s t : String.rev (s +:+ t) = String.rev t +:+ String.rev s.
Proof.
  induction s as [|c s IH]; [by rewrite append_nil_r|].
  change (String c s +:+ t) with (String c (s +:+ t)).
  by rewrite !rev_cons, IH, append_assoc.
Qed.

Lemma rev_involutive s : String.rev (String.rev s) = s.
Proof. induction s; [done|]. by rewrite rev_cons, rev_append, IHs. Qed.

Lemma strip_prefix_spec p s r : strip_prefix p s = Some r <-> s = p +:+ r.
Proof.
  revert s r. induction p as [|a p IH]; intros s r; simpl.
  - unfold String.app. simpl. naive_solver.
  - destruct s as [|b s]; [split; [done|unfold String.app; simpl; done]|].
    change (String a p +:+ r) with (String a (p +:+ r)).
    destruct (Ascii.eqb_spec a b) as [->|Hne].
    + rewrite IH. naive_solver.
    + naive_solver.
Qed.

Lemma strip_suffix_spec p s r : strip_suffix p s = Some r <-> s = r +:+ p.
Proof.
  unfold strip_suffix. rewrite fmap_Some. split.
  - intros (x & Hx & ->). apply strip_prefix_spec in Hx.
    rewrite <- (rev_involutive s), Hx, rev_append, rev_involutive. done.
  - intros ->. exists (String.rev r). split; [|by rewrite rev_involutive].
    apply strip_prefix_spec. apply rev_append.
Qed.

Lemma HasPrefix_spec s p : HasPrefix s p = true <-> exists r, s = p +:+ r.
Proof.
  unfold HasPrefix. rewrite bool_decide_eq_true. unfold is_Some.
  by setoid_rewrite strip_prefix_spec.
Qed.

Lemma HasSuffix_spec s p : HasSuffix s p = true <-> exists r, s = r +:+ p.
Proof.
  unfold HasSuffix. rewrite bool_decide_eq_true. unfold is_Some.
  by setoid_rewrite strip_suffix_spec.
Qed.

(** ** Character classes *)

Lemma all_chars_append p s t : all_chars p (s +:+ t) = all_chars p s && all_chars p t.
Proof.
  induction s as [|c s IH]; [done|].
  change (String c s +:+ t) with (String c (s +:+ t)). simpl. by rewrite IH, andb_assoc.
Qed.

Lemma all_chars_rev p s : all_chars p (String.rev s) = all_chars p s.
Proof.
  induction s as [|c s IH]; [done|].
  rewrite rev_cons, all_chars_append, IH. simpl. by rewrite andb_true_r, andb_comm.
Qed.

Lemma all_chars_impl (p q : ascii -> bool) s :
  (forall c, p c = true -> q c = true) -> all_chars p s = true -> all_chars q s = true.
Proof. intros Hpq. induction s; simpl; [done|]. rewrite !andb_true_iff. naive_solver. Qed.

Lemma trim_left_id p s : all_chars (fun c => negb (p c)) s = true -> trim_left p s = s.
Proof. destruct s; simpl; [done|]. by intros [->%negb_true_iff _]%andb_true_iff. Qed.

Lemma TrimSpace_id s : all_chars (fun c => negb (is_space c)) s = true -> TrimSpace s = s.
Proof.
  intros H. unfold TrimSpace, trim_right. rewrite (trim_left_id _ s) by done.
  rewrite trim_left_id by (by rewrite all_chars_rev). apply rev_involutive.
Qed.

Lemma to_lower_idemp c : to_lower (to_lower c) = to_lower c.
Proof. destruct c as [[][][][][][][][]]; reflexivity. Qed.

Lemma ToLower_idemp s : ToLower (ToLower s) = ToLower s.
Proof. unfold ToLower. induction s; simpl; [done|]. by rewrite to_lower_idemp, IHs. Qed.

Lemma to_upper_idemp c : to_upper (to_upper c) = to_upper c.
Proof. destruct c as [[][][][][][][][]]; reflexivity. Qed.

Lemma ToUpper_idemp s : ToUpper (ToUpper s) = ToUpper s.
Proof. unfold ToUpper. induction s; simpl; [done|]. by rewrite to_upper_idemp, IHs. Qed.

Lemma map_string_append f s t : map_string f (s +:+ t) = map_string f s +:+ map_string f t.
Proof.
  induction s as [|c s IH]; [done|].
  change (String c s +:+ t) with (String c (s +:+ t)). simpl. by rewrite IH.
Qed.

Lemma map_string_rev f s : map_string f (String.rev s) = String.rev (map_string f s).
Proof. induction s; [done|]. simpl. rewrite !rev_cons, map_string_append, IHs. done. Qed.

Lemma trim_left_map p f s :
  (forall c, p (f c) = p c) -> trim_left p (map_string f s) = map_string f (trim_left p s).
Proof. intros Hp. induction s as [|c s IH]; [done|]. simpl. rewrite Hp. by destruct (p c). Qed.

Lemma TrimSpace_ToUpper s : TrimSpace (ToUpper s) = ToUpper (TrimSpace s).
Proof.
  unfold TrimSpace, trim_right, ToUpper.
  assert (H : forall c, is_space (to_upper c) = is_space c).
  { intros [[][][][][][][][]]; reflexivity. }
  by rewrite trim_left_map, <- map_string_rev, trim_left_map, <- map_string_rev by done.
Qed.

Lemma trim_left_idemp p s : trim_left p (trim_left p s) = trim_left p s.
Proof. induction s as [|c s IH]; [done|]. simpl. destruct (p c) eqn:E; [done|]. simpl. by rewrite E. Qed.

Lemma trim_left_suffix p s : exists t, s = t +:+ trim_left p s.
Proof.
  induction s as [|c s [t IH]]; [by exists ""|]. simpl. destruct (p c); [|by exists ""].
  exists (String c t). change (String c t +:+ trim_left p s) with (String c (t +:+ trim_left p s)).
  by rewrite <- IH.
Qed.

Lemma trim_right_prefix p s : exists t, s = trim_right p s +:+ t.
Proof.
  unfold trim_right. destruct (trim_left_suffix p (String.rev s)) as [t Ht].
  exists (String.rev t). by rewrite <- rev_append, <- Ht, rev_involutive.
Qed.

Lemma TrimSpace_idemp s : TrimSpace (TrimSpace s) = TrimSpace s.
Proof.
  unfold TrimSpace. set (u := trim_left is_space s).
  assert (Hl : trim_left is_space (trim_right is_space u) = trim_right is_space u).
  { destruct (trim_right_prefix is_space u) as [t Ht].
    pose proof (trim_left_idemp is_space s) as Hi. fold u in Hi. rewrite Ht in Hi.
    destruct (trim_right is_space u) as [|c v]; [done|].
    change (String c v +:+ t) with (String c (v +:+ t)) in Hi. simpl in Hi |- *.
    destruct (is_space c); [|done]. exfalso.
    assert (Hlen : forall w, (String.length (trim_left is_space w) <= String.length w)%nat).
    { intros w. induction w as [|d w IH]; simpl; [lia|]. destruct (is_space d); simpl; lia. }
    specialize (Hlen (v +:+ t)). rewrite Hi in Hlen. simpl in Hlen. lia. }
  rewrite Hl. unfold trim_right. by rewrite rev_involutive, trim_left_idemp.
Qed.

(** ** Decimal round trip *)

Lemma digit_char_code d : 0 <= d < 10 -> code (digit_char d) = 48 + d.
Proof.
  intros H. unfold code, digit_char. rewrite N_ascii_embedding by lia. lia.
Qed.

Lemma digit_char_digit d : 0 <= d < 10 -> is_digit (digit_char d) = true.
Proof.
  intros H. unfold is_digit. rewrite digit_char_code by done.
  apply andb_true_iff. split; apply Z.leb_le; lia.
Qed.

Lemma itoa_go_value fuel n acc :
  0 <= n < 10 ^ Z.of_nat fuel -> digits_value 0 (itoa_go fuel n acc) = digits_value n acc.
Proof.
  revert n acc. induction fuel as [|f IH]; intros n acc Hn.
  - simpl in *. f_equal. lia.
  - simpl. destruct (n <? 10) eqn:E; bool_to_prop.
    + cbn [digits_value]. rewrite digit_char_digit, digit_char_code by div_lia.
      rewrite Z.mod_small by lia. f_equal. lia.
    + rewrite IH.
      * cbn [digits_value]. rewrite digit_char_digit, digit_char_code by div_lia. f_equal. div_lia.
      * rewrite Nat2Z.inj_succ, Z.pow_succ_r in Hn by lia.
        split; [div_lia|]. apply Z.div_lt_upper_bound; lia.
Qed.

Lemma itoa_go_digits fuel n acc :
  0 <= n -> all_chars is_digit acc = true -> all_chars is_digit (itoa_go fuel n acc) = true.
Proof.
  revert n acc. induction fuel as [|f IH]; intros n acc Hn Ha; simpl; [done|].
  assert (all_chars is_digit (String (digit_char (n mod 10)) acc) = true).
  { simpl. rewrite digit_char_digit by div_lia. done. }
  destruct (n <? 10); [done|]. apply IH; [div_lia|done].
Qed.

Lemma itoa_go_nonempty fuel n acc : acc <> "" \/ fuel <> O -> itoa_go fuel n acc <> "".
Proof.
  revert n acc. induction fuel as [|f IH]; intros n acc H; simpl; [naive_solver|].
  destruct (n <? 10); [done|]. apply IH. by left.
Qed.

Lemma Itoa_digits n : 0 <= n -> all_chars is_digit (Itoa n) = true.
Proof.
  intros H. unfold Itoa. destruct (n <? 0) eqn:E; bool_to_prop; [lia|].
  by apply itoa_go_digits.
Qed.

Lemma Itoa_nonempty n : 0 <= n -> Itoa n <> "".
Proof.
  intros H. unfold Itoa. destruct (n <? 0) eqn:E; bool_to_prop; [lia|].
  apply itoa_go_nonempty. by right.
Qed.

Lemma is_digit_sign c : is_digit c = true -> Ascii.eqb c "-" = false /\ Ascii.eqb c "+" = false.
Proof. destruct c as [[][][][][][][][]]; vm_compute; naive_solver. Qed.

Lemma Atoi_digits s :
  all_chars is_digit s = true -> s <> "" ->
  Atoi s = v ← digits_value 0 s; if (min_int <=? v) && (v <=? max_int) then Some v else None.
Proof.
  destruct s as [|c s]; [done|]. simpl all_chars. intros [Hc Hs]%andb_true_iff _.
  destruct (is_digit_sign c Hc) as [H1 H2]. unfold Atoi. by rewrite H1, H2.
Qed.

(** [strconv.Atoi] inverts [strconv.Itoa] on the non-negative [int]s. *)
Lemma Atoi_Itoa n : 0 <= n <= max_int -> Atoi (Itoa n) = Some n.
Proof.
  intros H. rewrite Atoi_digits by (auto using Itoa_digits, Itoa_nonempty with lia).
  unfold Itoa. destruct (n <? 0) eqn:E; bool_to_prop; [lia|].
  rewrite itoa_go_value.
  - simpl. assert (min_int <= 0) by (by vm_compute).
    destruct (_ && _) eqn:E2; [done|]. bool_to_prop. destruct E2; bool_to_prop; lia.
  - assert (max_int < 10 ^ Z.of_nat 20) by (by vm_compute). lia.
Qed.

Lemma Itoa_inj a b : 0 <= a <= max_int -> 0 <= b <= max_int -> Itoa a = Itoa b -> a = b.
Proof.
  intros Ha Hb E. apply (f_equal Atoi) in E. rewrite !Atoi_Itoa in E by done. congruence.
Qed.

Lemma is_digit_not_space c : is_digit c = true -> negb (is_space c) = true.
Proof. destruct c as [[][][][][][][][]]; vm_compute; naive_solver. Qed.

Lemma Cut_char c s t :
  all_chars (fun d => negb (Ascii.eqb c d)) s = true ->
  Cut (String c "") (s +:+ String c t) = Some (s, t).
Proof.
  induction s as [|d s IH]; intros H.
  - simpl. rewrite Ascii.eqb_refl. done.
  - simpl in H. apply andb_true_iff in H as [Hd%negb_true_iff Hs].
    change (String d s +:+ String c t) with (String d (s +:+ String c t)).
    simpl. rewrite Hd. by rewrite IH.
Qed.

Lemma Cut_char_None c s :
  all_chars (fun d => negb (Ascii.eqb c d)) s = true -> Cut (String c "") s = None.
Proof.
  induction s as [|d s IH]; intros H; [done|].
  simpl in H. apply andb_true_iff in H as [Hd%negb_true_iff Hs].
  simpl. rewrite Hd. by rewrite IH.
Qed.

Lemma Cut_spec sep s a b : Cut sep s = Some (a, b) -> s = a +:+ sep +:+ b.
Proof.
  revert a b. induction s as [|c s IH]; intros a b; cbn [Cut];
    destruct (strip_prefix sep _) as [r|] eqn:E; try done.
  - intros [= <- <-]. by apply strip_prefix_spec in E.
  - intros [= <- <-]. by apply strip_prefix_spec in E.
  - destruct (Cut sep s) as [[a' b']|]; [|done]. intros [= <- <-]. simpl. by rewrite (IH a' b').
Qed.

(** ** Characters of trimmed and parsed strings *)

Lemma all_chars_trim_left (p q : ascii -> bool) s :
  (forall c, p c = true -> q c = true) -> all_chars q (trim_left p s) = true -> all_chars q s = true.
Proof.
  intros Hpq. induction s as [|c s IH]; [done|]. simpl. destruct (p c) eqn:E; [|done].
  intros H. by rewrite (Hpq c E), (IH H).
Qed.

Lemma all_chars_TrimSpace q s :
  (forall c, is_space c = true -> q c = true) -> all_chars q (TrimSpace s) = true -> all_chars q s = true.
Proof.
  intros Hq H. apply (all_chars_trim_left is_space); [done|]. unfold TrimSpace, trim_right in H.
  rewrite all_chars_rev in H. apply all_chars_trim_left in H; [|done]. by rewrite all_chars_rev in H.
Qed.

Lemma digits_value_digits s acc v : digits_value acc s = Some v -> all_chars is_digit s = true.
Proof.
  revert acc. induction s as [|c s IH]; intros acc; [done|]. simpl. destruct (is_digit c); [|done]. apply IH.
Qed.

Lemma Atoi_chars q s v :
  (forall c, is_digit c = true -> q c = true) -> q "-"%char = true -> q "+"%char = true ->
  Atoi s = Some v -> all_chars q s = true.
Proof.
  intros Hd Hm Hp. unfold Atoi. destruct s as [|c s]; [done|].
  assert (Hgo : forall ds k, (match ds with EmptyString => None | _ => v ← digits_value 0 ds; k v end) = Some v ->
                all_chars q ds = true).
  { intros [|d ds] k H; [done|]. destruct (digits_value 0 (String d ds)) eqn:E; [|done].
    apply digits_value_digits in E. by eapply all_chars_impl. }
  destruct (Ascii.eqb_spec c "-") as [->|]; [intros H%Hgo; simpl; by rewrite Hm, H|].
  destruct (Ascii.eqb_spec c "+") as [->|]; [intros H%Hgo; simpl; by rewrite Hp, H|].
  apply (Hgo (String c s)).
Qed.

(** A string splits in one way at its last [c]. *)
Lemma last_sep_inj c s1 t1 s2 t2 :
  all_chars (fun d => negb (Ascii.eqb c d)) t1 = true ->
  all_chars (fun d => negb (Ascii.eqb c d)) t2 = true ->
  s1 +:+ String c t1 = s2 +:+ String c t2 -> s1 = s2 /\ t1 = t2.
Proof.
  intros H1 H2. revert s2. induction s1 as [|a s1 IH]; intros [|b s2] E; simpl in E.
  - by simplify_eq.
  - injection E as -> ->. rewrite all_chars_append in H1. simpl in H1.
    rewrite Ascii.eqb_refl, andb_false_r in H1. done.
  - injection E as -> <-. rewrite all_chars_append in H2. simpl in H2.
    rewrite Ascii.eqb_refl, andb_false_r in H2. done.
  - injection E as -> E. destruct (IH _ E) as [-> ->]. done.
Qed.

(** Strings with equally long tails agree piecewise. *)
Lemma append_inj_tail s1 t1 s2 t2 :
  String.length t1 = String.length t2 -> s1 +:+ t1 = s2 +:+ t2 -> s1 = s2 /\ t1 = t2.
Proof.
  intros Hl. assert (Hlen : forall s t, String.length (s +:+ t) = (String.length s + String.length t)%nat).
  { clear. induction s as [|c s IH]; intros t; [done|]. simpl. by rewrite IH. }
  revert s2. induction s1 as [|a s1 IH]; intros [|b s2] E.
  - done.
  - apply (f_equal String.length) in E. rewrite !Hlen in E. simpl in E. lia.
  - apply (f_equal String.length) in E. rewrite !Hlen in E. simpl in E. lia.
  - injection E as -> E. destruct (IH _ E) as [-> ->]. done.
Qed.

End Go.
