(* ===== verification/GoPath.v ===== *)
(** * Splitting strings and slash-separated paths

    [strings.Split] on a one-byte separator, and the functions of Go's [path]
    and [path/filepath] the code uses (on Unix, where the two agree). *)

From S2P Require Import Prelude GoStrings.
Import Go.

Module GoPath.

Fixpoint Split (sep : ascii) (s : string) : list string :=
  match s with
  | EmptyString => [""]
  | String c s' =>
      if Ascii.eqb c sep then "" :: Split sep s'
      else match Split sep s' with l :: ls => String c l :: ls | [] => [String c ""] end
  end.

(** [path.Clean] on segments: [out] is the stack of the segments kept, last
    first; empty and dot segments go, a dot-dot pops, and one that has nothing
    to pop is kept only in a relative path. *)
Definition clean_step (rooted : bool) (out : list string) (seg : string) : list string :=
  if String.eqb seg "" || String.eqb seg "." then out
  else if String.eqb seg ".." then
    match out with
    | top :: rest => if String.eqb top ".." then ".." :: out else rest
    | [] => if rooted then [] else [".."]
    end
  else seg :: out.

Definition Clean (p : string) : string :=
  if String.eqb p "" then "."
  else
    let rooted := HasPrefix p "/" in
    let body := Join (rev (foldl (clean_step rooted) [] (Split "/" p))) "/" in
    if rooted then "/" +:+ body else if String.eqb body "" then "." else body.

(** [filepath.Join] ignores empty elements. *)
Definition FileJoin (elems : list string) : string :=
  match filter (fun e => e <> "") elems with [] => "" | l => Clean (Join l "/") end.

(** Everything up to the last slash, the slash included. *)
Definition dir_prefix (p : string) : string :=
  match removelast (Split "/" p) with [] => "" | l => Join l "/" +:+ "/" end.
Definition Dir (p : string) : string := Clean (dir_prefix p).

Definition Base (p : string) : string :=
  if String.eqb p "" then "."
  else
    let p := trim_right (fun c => Ascii.eqb c "/") p in
    if String.eqb p "" then "/" else default "" (last (Split "/" p)).

Definition IsAbs (p : string) : bool := HasPrefix p "/".

Definition elements (p : string) : list string := filter (fun e => e <> "") (Split "/" p).

Fixpoint strip_common (b t : list string) : list string * list string :=
  match b, t with
  | x :: b', y :: t' => if String.eqb x y then strip_common b' t' else (b, t)
  | _, _ => (b, t)
  end.

(** [filepath.Rel] for an absolute target; [None] is its error. *)
Definition Rel (base targ : string) : option string :=
  let base := Clean base in
  let targ := Clean targ in
  if String.eqb targ base then Some "."
  else
    let base := if String.eqb base "." then "" else base in
    if negb (Bool.eqb (IsAbs base) (IsAbs targ)) then None
    else
      let '(bs, ts) := strip_common (elements base) (elements targ) in
      match bs with
      | [] => Some (Join ts "/")
      | b :: _ => if String.eqb b ".." then None else Some (Join (replicate (length bs) ".." ++ ts) "/")
      end.

(** ** Splitting *)

Definition free_of (sep : ascii) (c : ascii) : bool := negb (Ascii.eqb c sep).
Definition one (c : ascii) : string := String c "".

Lemma Split_cons sep s : exists l ls, Split sep s = l :: ls.
Proof. induction s as [|c s (l & ls & IH)]; cbn; [eauto|]. destruct (Ascii.eqb c sep); [eauto|]. rewrite IH. eauto. Qed.

Lemma Split_app sep a b : Split sep (a +:+ one sep +:+ b) = Split sep a ++ Split sep b.
Proof.
  induction a as [|c a IH].
  - change ("" +:+ one sep +:+ b) with (String sep b). cbn [Split]. by rewrite Ascii.eqb_refl.
  - change ((String c a) +:+ one sep +:+ b) with (String c (a +:+ one sep +:+ b)). cbn [Split].
    destruct (Ascii.eqb c sep); rewrite IH; [done|]. by destruct (Split_cons sep a) as (l & ls & ->).
Qed.

Lemma Split_free sep s : all_chars (free_of sep) s = true -> Split sep s = [s].
Proof.
  induction s as [|c s IH]; [done|]. cbn [all_chars Split]. intros [Hc Hs]%andb_true_iff. unfold free_of in Hc.
  apply negb_true_iff in Hc. by rewrite Hc, (IH Hs).
Qed.

Lemma Join_cons x y l sep : Join (x :: y :: l) sep = x +:+ sep +:+ Join (y :: l) sep.
Proof. done. Qed.

Lemma Split_Join sep l :
  l <> [] -> Forall (fun x => all_chars (free_of sep) x = true) l -> Split sep (Join l (one sep)) = l.
Proof.
  intros Hne Hl. induction Hl as [|x l Hx Hl IH]; [done|]. destruct l as [|y l]; [by apply Split_free|].
  by rewrite Join_cons, Split_app, (Split_free sep x Hx), IH.
Qed.

Lemma Join_Split sep s : Join (Split sep s) (one sep) = s.
Proof.
  induction s as [|c s IH]; [done|]. cbn [Split]. destruct (Split_cons sep s) as (l & ls & E). rewrite E in *.
  destruct (Ascii.eqb_spec c sep) as [->|]; [by rewrite Join_cons, IH|].
  destruct ls as [|l' ls]; [by simpl in *; subst|]. rewrite Join_cons in *. by rewrite <- IH.
Qed.

(** Every part keeps the characters of the string and is free of the
    separator. *)
Lemma Split_chars sep p s : all_chars p s = true ->
  Forall (fun x => all_chars p x = true /\ all_chars (free_of sep) x = true) (Split sep s).
Proof.
  induction s as [|c s IH]; cbn [all_chars Split]; [by repeat constructor|]. intros [Hc Hs]%andb_true_iff. specialize (IH Hs).
  destruct (Ascii.eqb c sep) eqn:He; [by constructor|]. destruct (Split_cons sep s) as (l & ls & Heq). rewrite Heq in *.
  apply Forall_cons in IH as [[H1 H2] IH]. constructor; [|done]. cbn. unfold free_of at 1. by rewrite Hc, He, H1, H2.
Qed.

Lemma Join_chars p sep l :
  all_chars p sep = true -> Forall (fun x => all_chars p x = true) l -> all_chars p (Join l sep) = true.
Proof.
  intros Hp. induction 1 as [|x l Hx Hl IH]; [done|]. destruct l as [|y l]; [done|].
  by rewrite Join_cons, !all_chars_append, Hx, IH, Hp.
Qed.

Lemma Join_inj sep l l' :
  l <> [] -> l' <> [] -> Forall (fun x => all_chars (free_of sep) x = true) l ->
  Forall (fun x => all_chars (free_of sep) x = true) l' -> Join l (one sep) = Join l' (one sep) -> l = l'.
Proof. intros Hl Hl' F F' E. rewrite <- (Split_Join sep l), <- (Split_Join sep l') by done. by rewrite E. Qed.

(** ** Absolute clean paths *)

(** An element of a clean path. *)
Definition seg_ok (x : string) : Prop :=
  x <> "" /\ x <> "." /\ x <> ".." /\ all_chars (free_of "/") x = true.

Definition abs (segs : list string) : string := "/" +:+ Join segs "/".

Lemma clean_segments rooted segs out : Forall seg_ok segs -> foldl (clean_step rooted) out segs = rev segs ++ out.
Proof.
  intros Hs. revert out. induction Hs as [|x segs (H1 & H2 & H3 & _) _ IH]; intros out; [done|]. cbn [foldl].
  assert (clean_step rooted out x = x :: out) as ->.
  { unfold clean_step. by rewrite (proj2 (String.eqb_neq _ _) H1), (proj2 (String.eqb_neq _ _) H2), (proj2 (String.eqb_neq _ _) H3). }
  rewrite IH. cbn. by rewrite <- app_assoc.
Qed.

Lemma seg_ok_free segs : Forall seg_ok segs -> Forall (fun x => all_chars (free_of "/") x = true) segs.
Proof. intros H. eapply Forall_impl; [done|]. by intros x (_ & _ & _ & ?). Qed.

Lemma Split_Join_slash segs : segs <> [] -> Forall seg_ok segs -> Split "/" (Join segs "/") = segs.
Proof. intros Hne Hs. exact (Split_Join "/" segs Hne (seg_ok_free segs Hs)). Qed.

Lemma Split_slash a b : Split "/" (a +:+ "/" +:+ b) = Split "/" a ++ Split "/" b.
Proof. exact (Split_app "/" a b). Qed.

Lemma Split_abs segs : segs <> [] -> Forall seg_ok segs -> Split "/" (abs segs) = "" :: segs.
Proof.
  intros Hne Hs. etransitivity; [exact (Split_app "/" "" (Join segs "/"))|]. by rewrite Split_Join_slash.
Qed.

Lemma IsAbs_abs segs : IsAbs (abs segs) = true.
Proof. apply HasPrefix_spec. by eexists. Qed.

Lemma Clean_abs segs : Forall seg_ok segs -> Clean (abs segs) = abs segs.
Proof.
  intros Hs. unfold Clean. destruct (String.eqb_spec (abs segs) "") as [|_]; [done|].
  change (HasPrefix (abs segs) "/") with (IsAbs (abs segs)). rewrite IsAbs_abs.
  destruct (decide (segs = [])) as [->|Hne]; [done|]. rewrite Split_abs by done.
  cbn [foldl]. change (clean_step true [] "") with (@nil string).
  by rewrite clean_segments, app_nil_r, List.rev_involutive by done.
Qed.

Lemma Dir_abs segs x : Forall seg_ok segs -> seg_ok x -> Dir (abs (segs ++ [x])) = abs segs.
Proof.
  intros Hs Hx. unfold Dir, dir_prefix.
  assert (segs ++ [x] <> []) by (by destruct segs). assert (Forall seg_ok (segs ++ [x])) by (by apply Forall_app; split; [|apply Forall_singleton]).
  rewrite Split_abs by done.
  rewrite app_comm_cons, removelast_last. cbn [app].
  destruct (decide (segs = [])) as [->|Hne]; [done|].
  assert (Join ("" :: segs) "/" +:+ "/" = "" +:+ "/" +:+ (Join segs "/" +:+ "/" +:+ "")) as ->.
  { destruct segs; [done|]. rewrite Join_cons. by rewrite !append_assoc, !append_nil_r. }
  unfold Clean. change (HasPrefix _ "/") with true. cbn [String.eqb]. 
  rewrite (Split_slash ""), (Split_slash (Join segs "/")), (Split_Join_slash segs Hne Hs).
  cbn [Split app foldl]. change (clean_step true [] "") with (@nil string). rewrite foldl_app, (clean_segments true segs) by done.
  cbn [foldl]. unfold clean_step. cbn [String.eqb orb]. by rewrite app_nil_r, List.rev_involutive.
Qed.

Lemma Dir_root : Dir (abs []) = abs [].
Proof. done. Qed.

Lemma abs_inj l l' : Forall seg_ok l -> Forall seg_ok l' -> abs l = abs l' -> l = l'.
Proof.
  intros Hl Hl' E. unfold abs in E. injection E as E.
  assert (forall k, Forall seg_ok k -> Join k "/" = "" -> k = []) as He.
  { intros [|x k] Hk Ek; [done|]. apply Forall_cons in Hk as [(Hx & _) _]. destruct k; [done|]. rewrite Join_cons in Ek. by destruct x. }
  destruct (decide (l = [])) as [->|Hn]; [symmetry; by apply He|]. destruct (decide (l' = [])) as [->|Hn']; [by apply He|].
  apply (Join_inj "/"); [done..|by apply seg_ok_free|by apply seg_ok_free|done].
Qed.

Lemma elements_abs segs : Forall seg_ok segs -> elements (abs segs) = segs.
Proof.
  intros Hs. unfold elements. destruct (decide (segs = [])) as [->|Hne]; [done|]. rewrite Split_abs by done.
  rewrite filter_cons_False by (by intros ?). apply list_filter_all. eapply Forall_impl; [done|]. by intros x [? _].
Qed.

Lemma strip_common_prefix b t : strip_common b (b ++ t) = ([], t).
Proof. induction b as [|x b IH]; [by destruct t|]. simpl. by rewrite String.eqb_refl. Qed.

Lemma strip_common_spec b t : let '(bs, ts) := strip_common b t in
  exists c, b = c ++ bs /\ t = c ++ ts.
Proof.
  revert t. induction b as [|x b IH]; intros t; [by exists []|]. destruct t as [|y t]; [by exists []|]. cbn [strip_common].
  destruct (String.eqb_spec x y) as [->|]; [|by exists []]. specialize (IH t). destruct (strip_common b t) as [bs ts].
  destruct IH as (c & -> & ->). by exists (y :: c).
Qed.

End GoPath.
