(* ===== verification/GoNet.v ===== *)
(** * Go's textual IP addresses and prefixes

    The parts of [net] and [net/netip] the firewall and the host proxy call:
    [netip.ParseAddr], [netip.ParsePrefix], [Prefix.Contains], [net.ParseIP],
    [net.ParseCIDR] and [IP.To4].  An address is its bytes, most significant
    first; an IPv6 address also carries its zone. *)

From S2P Require Import Prelude GoStrings.
Import Go.

Module GoNet.

Inductive Addr :=
  | Addr4 (bytes : list Z)
  | Addr6 (bytes : list Z) (zone : string).

#[global] Instance Addr_eq_dec : EqDecision Addr.
Proof. solve_decision. Defined.

Definition BitLen (a : Addr) : Z := match a with Addr4 _ => 32 | Addr6 _ _ => 128 end.
Definition Zone (a : Addr) : string := match a with Addr4 _ => "" | Addr6 _ z => z end.

(** ** IPv4 *)

(** The loop of [parseIPv4Fields]: [prev_dot] says whether the previous byte
    was a dot (or there was none), [digLen] and [val] describe the octet being
    read and [fields] the finished ones. *)
Fixpoint parseIPv4Fields (s : string) (prev_dot : bool) (digLen val : Z) (fields : list Z)
    : option (list Z) :=
  match s with
  | EmptyString => if (length fields <? 3)%nat then None else Some (fields ++ [val])
  | String c s' =>
      if is_digit c then
        if (digLen =? 1) && (val =? 0) then None
        else
          let val := val * 10 + (code c - 48) in
          if 255 <? val then None else parseIPv4Fields s' false (digLen + 1) val fields
      else if Ascii.eqb c "." then
        if prev_dot || bool_decide (s' = "") then None
        else if (length fields =? 3)%nat then None
        else parseIPv4Fields s' true 0 0 (fields ++ [val])
      else None
  end.

Definition parseIPv4 (s : string) : option (list Z) := parseIPv4Fields s true 0 0 [].

(** ** IPv6 *)

Definition hex_digit (c : ascii) : option Z :=
  let n := code c in
  if is_digit c then Some (n - 48)
  else if (97 <=? n) && (n <=? 102) then Some (n - 97 + 10)
  else if (65 <=? n) && (n <=? 70) then Some (n - 65 + 10)
  else None.

(** The leading run of hexadecimal digits: its value, its length, the rest. *)
Fixpoint hex_run (acc : Z) (s : string) : Z * nat * string :=
  match s with
  | String c s' =>
      match hex_digit c with
      | Some d => let '(v, n, r) := hex_run (acc * 16 + d) s' in (v, S n, r)
      | None => (acc, O, s)
      end
  | EmptyString => (acc, O, EmptyString)
  end.

(** The main loop of [parseIPv6]; [groups] is the number of 16-bit groups the
    address still has room for, [bytes] what is read so far and [ell] the
    position of the "::". *)
Fixpoint parse_groups (groups : nat) (s : string) (bytes : list Z) (ell : option nat)
    : option (list Z * option nat * string) :=
  match groups with
  | O => Some (bytes, ell, s)
  | S groups' =>
      let '(v, off, rest) := hex_run 0 s in
      if (off =? 0)%nat || (4 <? off)%nat then None
      else
        match rest with
        | String "." _ =>
            if bool_decide (ell = None) && negb (length bytes =? 12)%nat then None
            else if (16 <? length bytes + 4)%nat then None
            else fields ← parseIPv4 s; Some (bytes ++ fields, ell, "")
        | _ =>
            let bytes := bytes ++ [v / 256; v mod 256] in
            match rest with
            | EmptyString => Some (bytes, ell, "")
            | String ":" EmptyString => None
            | String ":" (String ":" r) =>
                match ell with
                | Some _ => None
                | None =>
                    let ell := Some (length bytes) in
                    match r with
                    | EmptyString => Some (bytes, ell, "")
                    | _ => parse_groups groups' r bytes ell
                    end
                end
            | String ":" r => parse_groups groups' r bytes ell
            | _ => None
            end
        end
  end.

Definition expand_ellipsis (bytes : list Z) (e : nat) : list Z :=
  take e bytes ++ replicate (16 - length bytes) 0 ++ drop e bytes.

Definition parseIPv6 (in_ : string) : option Addr :=
  let '(s, zone, has_zone) :=
    match Cut "%" in_ with Some (a, z) => (a, z, true) | None => (in_, "", false) end in
  if has_zone && bool_decide (zone = "") then None
  else
    let '(s, ell) :=
      match strip_prefix "::" s with Some r => (r, Some O) | None => (s, None) end in
    if bool_decide (ell = Some O) && bool_decide (s = "") then Some (Addr6 (replicate 16 0) zone)
    else
      '(bytes, ell, rest) ← parse_groups 8 s [] ell;
      if negb (bool_decide (rest = "")) then None
      else if (length bytes <? 16)%nat then
        e ← ell; Some (Addr6 (expand_ellipsis bytes e) zone)
      else match ell with Some _ => None | None => Some (Addr6 bytes zone) end.

(** ** Addresses and prefixes *)

Fixpoint first_separator (s : string) : option ascii :=
  match s with
  | EmptyString => None
  | String c s' =>
      if Ascii.eqb c "." || Ascii.eqb c ":" || Ascii.eqb c "%" then Some c
      else first_separator s'
  end.

(** [netip.ParseAddr]. *)
Definition ParseAddr (s : string) : option Addr :=
  match first_separator s with
  | Some "."%char => Addr4 <$> parseIPv4 s
  | Some ":"%char => parseIPv6 s
  | _ => None
  end.

(** [net.ParseIP]: no zone. *)
Definition ParseIP (s : string) : option Addr :=
  a ← ParseAddr s; if bool_decide (Zone a = "") then Some a else None.

(** [IP.To4], which also recognises IPv4-mapped IPv6 addresses. *)
Definition To4 (a : Addr) : option (list Z) :=
  match a with
  | Addr4 b => Some b
  | Addr6 b _ =>
      if bool_decide (take 12 b = replicate 10 0 ++ [255; 255]) then Some (drop 12 b) else None
  end.

(** [dtoi] on the whole string: decimal digits only, below 0xFFFFFF. *)
Definition dtoi (s : string) : option Z :=
  if bool_decide (s = "") then None
  else v ← digits_value 0 s; if v <? 16777215 then Some v else None.

Record Prefix := { pfx_addr : Addr; pfx_bits : Z }.

(** [net.ParseCIDR], the address with its prefix length. *)
Definition ParseCIDR (s : string) : option Prefix :=
  '(addr, mask) ← Cut "/" s;
  a ← ParseIP addr;
  n ← dtoi mask;
  if BitLen a <? n then None else Some {| pfx_addr := a; pfx_bits := n |}.

(** [netip.ParsePrefix]. *)
Definition ParsePrefix (s : string) : option Prefix :=
  '(rbits, raddr) ← Cut "/" (String.rev s);
  let bitsStr := String.rev rbits in
  a ← ParseIP (String.rev raddr);
  let leading_ok :=
    match bitsStr with
    | String c (String _ _) => (49 <=? code c) && (code c <=? 57)
    | _ => true
    end in
  if negb leading_ok then None
  else
    bits ← Atoi bitsStr;
    if (bits <? 0) || (BitLen a <? bits) then None
    else Some {| pfx_addr := a; pfx_bits := bits |}.

Fixpoint bytes_value (acc : Z) (b : list Z) : Z :=
  match b with [] => acc | x :: b' => bytes_value (acc * 256 + x) b' end.

Definition addr_value (a : Addr) : Z :=
  match a with Addr4 b => bytes_value 0 b | Addr6 b _ => bytes_value 0 b end.

(** [Prefix.Contains]. *)
Definition Contains (p : Prefix) (a : Addr) : bool :=
  bool_decide (Zone a = "") && (BitLen (pfx_addr p) =? BitLen a) &&
  (Z.shiftr (Z.lxor (addr_value a) (addr_value (pfx_addr p))) (BitLen a - pfx_bits p) =? 0).

(** ** Printing *)

Definition hex_lower (n : Z) : ascii := ascii_of_N (Z.to_N (if n <? 10 then 48 + n else 87 + n)).
Fixpoint groups16 (b : list Z) : list Z := match b with x :: y :: b => x * 256 + y :: groups16 b | _ => [] end.
Fixpoint hex_go (fuel : nat) (n : Z) (acc : string) : string :=
  match fuel with
  | O => acc
  | S f => let acc := String (hex_lower (n mod 16)) acc in if n <? 16 then acc else hex_go f (n / 16) acc
  end.
Fixpoint zero_run (l : list Z) : nat := match l with 0 :: l => S (zero_run l) | _ => O end.
Fixpoint longest_run (i : nat) (l : list Z) : nat * nat :=
  match l with
  | [] => (0, 0)%nat
  | _ :: l' => let '(j, n) := longest_run (S i) l' in if (n <=? zero_run l)%nat then (i, zero_run l) else (j, n)
  end.
Definition hex_groups (l : list Z) : string := Join ((fun n => hex_go 4 n "") <$> l) ":".

(** [net.IP.String]: dotted decimal, also for an IPv4-mapped address, or groups
    of four hexadecimal digits with the first longest run of at least two zero
    groups written [::]. *)
Definition IP_String (a : Addr) : string :=
  match To4 a, a with
  | Some b, _ | None, Addr4 b => Join (Itoa <$> b) "."
  | None, Addr6 b _ =>
      let g := groups16 b in
      let '(i, n) := longest_run 0 g in
      if (2 <=? n)%nat then hex_groups (take i g) +:+ "::" +:+ hex_groups (drop (i + n) g) else hex_groups g
  end.

(** [IP.Mask] with the mask of a prefix length. *)
Definition mask_byte (n : Z) : Z := if n <=? 0 then 0 else if 8 <=? n then 255 else 256 - 2 ^ (8 - n).
Fixpoint mask_bytes (n : Z) (b : list Z) : list Z :=
  match b with [] => [] | x :: b => Z.land x (mask_byte n) :: mask_bytes (n - 8) b end.
Definition Mask (a : Addr) (n : Z) : Addr :=
  match a with Addr4 b => Addr4 (mask_bytes n b) | Addr6 b z => Addr6 (mask_bytes n b) z end.

Example print_v6 : IP_String <$> ParseIP "fe80:0:0:0::1:2" = Some "fe80::1:2".
Proof. vm_compute. reflexivity. Qed.
Example mask_v4 : (fun a => IP_String (Mask a 20)) <$> ParseIP "10.1.255.7" = Some "10.1.240.0".
Proof. vm_compute. reflexivity. Qed.

Example parse_v4 : ParseIP "10.0.0.7" = Some (Addr4 [10; 0; 0; 7]).
Proof. vm_compute. reflexivity. Qed.
Example parse_v4_leading_zero : ParseIP "10.0.0.07" = None.
Proof. vm_compute. reflexivity. Qed.
Example parse_v6 :
  ParseIP "fe80::1:2" = Some (Addr6 [254;128;0;0;0;0;0;0;0;0;0;0;0;1;0;2] "").
Proof. vm_compute. reflexivity. Qed.
Example parse_v6_mapped : (ParseIP "::ffff:1.2.3.4" ≫= To4) = Some [1; 2; 3; 4].
Proof. vm_compute. reflexivity. Qed.
Example parse_cidr : pfx_bits <$> ParseCIDR "10.0.0.0/24" = Some 24.
Proof. vm_compute. reflexivity. Qed.
Example parse_domain : ParseIP "github.com" = None.
Proof. vm_compute. reflexivity. Qed.
Example contains_24 :
  (p ← ParsePrefix "10.0.0.0/24"; a ← ParseAddr "10.0.0.200"; Some (Contains p a)) = Some true.
Proof. vm_compute. reflexivity. Qed.

End GoNet.
