(* ===== verification/IPText.v ===== *)
(** * Printed addresses are read back

    Facts about [net]'s text form of IPv4 addresses and about masks, which the
    firewall relies on when it hands a network to Envoy as text. *)

From S2P Require Import Prelude GoStrings GoNet.
Import Go GoNet.

Module IPText.

Definition octet (x : Z) : Prop := 0 <= x < 256.

(** The octet loop on the digits of one octet. *)
Fixpoint octet_run (s : string) (digLen val : Z) : option (Z * Z) :=
  match s with
  | EmptyString => Some (digLen, val)
  | String c s' =>
      if is_digit c then
        if (digLen =? 1) && (val =? 0) then None
        else let val := val * 10 + (code c - 48) in if 255 <? val then None else octet_run s' (digLen + 1) val
      else None
  end.
Lemma octet_run_fields s t pd dl v dl' v' fields :
  s <> "" -> octet_run s dl v = Some (dl', v') -> parseIPv4Fields (s +:+ t) pd dl v fields = parseIPv4Fields t false dl' v' fields.
Proof.
  revert pd dl v. induction s as [|c s IH]; intros pd dl v Hne; [done|]. change (String c s +:+ t) with (String c (s +:+ t)). cbn [parseIPv4Fields octet_run]. destruct (is_digit c); [|done]. destruct (_ && _); [done|]. destruct (255 <? _); [done|].
  intros H. destruct s as [|c' s']; [by injection H as <- <-|]. by apply IH.
Qed.
Lemma octet_run_Itoa x : 0 <= x < 256 -> exists n, octet_run (Itoa x) 0 0 = Some (n, x).
Proof.
  intros Hx. assert (forallb (fun x => bool_decide (snd <$> octet_run (Itoa x) 0 0 = Some x)) (seqZ 0 256) = true) as H by (by vm_compute).
  rewrite forallb_forall in H. specialize (H x). rewrite <- list_elem_of_In, elem_of_seqZ in H. specialize (H Hx). apply bool_decide_eq_true_1 in H.
  destruct (octet_run _ _ _) as [[n y]|]; [|done]. cbn in H. injection H as ->. by exists n.
Qed.
Lemma fields_octet x t pd fields : 0 <= x < 256 -> exists n, parseIPv4Fields (Itoa x +:+ t) pd 0 0 fields = parseIPv4Fields t false n x fields.
Proof. intros Hx. destruct (octet_run_Itoa x Hx) as (n & Hn). exists n. apply octet_run_fields; [|done]. apply Itoa_nonempty. lia. Qed.
Lemma parse_dotted a b c d : 0 <= a < 256 -> 0 <= b < 256 -> 0 <= c < 256 -> 0 <= d < 256 ->
  ParseIP (IP_String (Addr4 [a; b; c; d])) = Some (Addr4 [a; b; c; d]).
Proof.
  intros Ha Hb Hc Hd.
  assert (parseIPv4 (IP_String (Addr4 [a; b; c; d])) = Some [a; b; c; d]) as Hp.
  { unfold parseIPv4. cbn -[Itoa parseIPv4Fields String.app].
    destruct (fields_octet a ("." +:+ Itoa b +:+ "." +:+ Itoa c +:+ "." +:+ Itoa d) true [] Ha) as (n1 & ->).
    assert (forall x u, 0 <= x < 256 -> (Itoa x +:+ u = "" <-> False)) as Hne.
    { intros x u Hx. split; [|done]. intros E. destruct (Itoa x) eqn:Ei; [|done]. by apply (Itoa_nonempty x) in Ei; [|lia]. }
    assert (forall x t n fields, 0 <= x < 256 -> (length fields < 3)%nat -> forall y, parseIPv4Fields ("." +:+ Itoa x +:+ t) false n y fields = parseIPv4Fields (Itoa x +:+ t) true 0 0 (fields ++ [y])) as Hdot.
    { intros x t n fields Hx Hl y. change ("." +:+ Itoa x +:+ t) with (String "." (Itoa x +:+ t)). cbn -[Itoa String.app]. rewrite bool_decide_eq_false_2 by (rewrite Hne by done; tauto).
      cbn [orb]. by rewrite (proj2 (Nat.eqb_neq _ _)) by lia. }
    rewrite Hdot by (cbn; lia||done). destruct (fields_octet b ("." +:+ Itoa c +:+ "." +:+ Itoa d) true ([] ++ [a]) Hb) as (n2 & ->).
    rewrite Hdot by (cbn; lia||done). destruct (fields_octet c ("." +:+ Itoa d) true (([] ++ [a]) ++ [b]) Hc) as (n3 & ->).
    rewrite <- (append_nil_r (Itoa d)).
    rewrite Hdot by (cbn; lia||done). destruct (fields_octet d "" true ((([] ++ [a]) ++ [b]) ++ [c]) Hd) as (n4 & ->). done. }
  unfold ParseIP, ParseAddr.
  assert (first_separator (IP_String (Addr4 [a; b; c; d])) = Some "."%char) as ->.
  { cbn -[Itoa String.app]. pose proof (Itoa_digits a ltac:(lia)) as Hdg. induction (Itoa a) as [|ch s IH]; [done|]. cbn in Hdg. apply andb_true_iff in Hdg as [Hc1 Hs].
    change (String ch s +:+ ?t) with (String ch (s +:+ t)). cbn -[String.app]. 
    destruct ch as [[][][][][][][][]]; try done; by apply IH. }
  by rewrite Hp.
Qed.

(** Masking an octet clears its low bits. *)
Lemma mask_byte_spec x n : 0 <= x < 256 -> Z.land x (mask_byte n) = x / 2 ^ (8 - Z.max 0 (Z.min 8 n)) * 2 ^ (8 - Z.max 0 (Z.min 8 n)).
Proof.
  intros Hx. assert (mask_byte n = mask_byte (Z.max 0 (Z.min 8 n))) as ->.
  { unfold mask_byte. repeat case_match; bool_to_prop; try lia. by replace (Z.max 0 (Z.min 8 n)) with n by lia. }
  set (k := Z.max 0 (Z.min 8 n)). assert (0 <= k < 9) as Hk by lia. clearbody k.
  assert (forallb (fun x => forallb (fun k => Z.land x (mask_byte k) =? x / 2 ^ (8 - k) * 2 ^ (8 - k)) (seqZ 0 9)) (seqZ 0 256) = true) as H by (by vm_compute).
  rewrite forallb_forall in H. specialize (H x). rewrite <- list_elem_of_In, elem_of_seqZ in H. specialize (H Hx).
  rewrite forallb_forall in H. specialize (H k). rewrite <- list_elem_of_In, elem_of_seqZ in H. by apply Z.eqb_eq, H.
Qed.
Lemma byte_masked x n : 0 <= x < 256 -> 0 <= Z.land x (mask_byte n) < 256.
Proof. intros Hx. rewrite mask_byte_spec by done. set (m := 2 ^ _). assert (0 < m) by (apply Z.pow_pos_nonneg; lia). pose proof (Z.mul_div_le x m ltac:(done)). pose proof (Z.div_pos x m ltac:(lia) ltac:(done)). nia. Qed.

Lemma bytes_value_split bs : Forall octet bs -> exists v, 0 <= v < 256 ^ Z.of_nat (length bs) /\ forall acc, bytes_value acc bs = acc * 256 ^ Z.of_nat (length bs) + v.
Proof.
  induction 1 as [|x bs Hx _ (v & Hv & IH)]; [exists 0; split; [done|]; intros acc; cbn; lia|]. unfold octet in Hx.
  cbn [length bytes_value]. rewrite Nat2Z.inj_succ, Z.pow_succ_r by lia. exists (x * 256 ^ Z.of_nat (length bs) + v).
  set (m := 256 ^ Z.of_nat (length bs)) in *. split; [nia|]. intros acc. rewrite IH. lia.
Qed.
Lemma mask_bytes_zero n bs acc : n <= 0 -> bytes_value acc (mask_bytes n bs) = acc * 256 ^ Z.of_nat (length bs).
Proof.
  revert n acc. induction bs as [|x bs IH]; intros n acc Hn; [cbn; lia|]. cbn [mask_bytes bytes_value length]. rewrite IH by lia.
  unfold mask_byte. rewrite (proj2 (Z.leb_le _ _)), Z.land_0_r, Nat2Z.inj_succ, Z.pow_succ_r by lia. lia.
Qed.
(** Masking changes nothing above the prefix. *)
Lemma mask_value n bs acc : Forall octet bs -> 0 <= n <= 8 * Z.of_nat (length bs) ->
  bytes_value acc (mask_bytes n bs) / 2 ^ (8 * Z.of_nat (length bs) - n) = bytes_value acc bs / 2 ^ (8 * Z.of_nat (length bs) - n).
Proof.
  intros Hb. revert n acc. induction Hb as [|x bs Hx Hb IH]; intros n acc Hn; [done|]. cbn [mask_bytes bytes_value length] in *. rewrite mask_byte_spec by done.
  destruct (decide (8 <= n)) as [H8|H8].
  - replace (Z.max 0 (Z.min 8 n)) with 8 by lia. change (2 ^ (8 - 8)) with 1. rewrite Z.div_1_r, Z.mul_1_r.
    replace (8 * Z.of_nat (S (length bs)) - n) with (8 * Z.of_nat (length bs) - (n - 8)) by lia. apply IH. lia.
  - rewrite mask_bytes_zero by lia. destruct (bytes_value_split bs Hb) as (v & Hv & ->). replace (Z.max 0 (Z.min 8 n)) with n by lia.
    replace (8 * Z.of_nat (S (length bs)) - n) with (8 * Z.of_nat (length bs) + (8 - n)) by lia. rewrite Z.pow_add_r, Z.pow_mul_r by lia. change (2 ^ 8) with 256.
    set (m := 256 ^ Z.of_nat (length bs)) in *. set (k := 2 ^ (8 - n)). assert (0 < m) by lia. assert (0 < k) by (apply Z.pow_pos_nonneg; lia).
    rewrite <- !Z.div_div by lia. rewrite Z.div_mul, Z.div_add_l, (Z.div_small v m), Z.add_0_r by lia.
    assert (256 = 2 ^ n * k) as -> by (unfold k; rewrite <- Z.pow_add_r by lia; by replace (n + (8 - n)) with 8 by lia).
    rewrite Z.mul_assoc, !Z.div_add_l, Z.div_mul by lia. done.
Qed.
Lemma mask_bytes_byte n bs : Forall octet bs -> Forall octet (mask_bytes n bs).
Proof. intros Hb. revert n. induction Hb as [|x bs Hx _ IH]; intros n; cbn; constructor; [by apply byte_masked|apply IH]. Qed.
Lemma mask_bytes_length n bs : length (mask_bytes n bs) = length bs.
Proof. revert n. induction bs as [|x bs IH]; intros n; cbn; [done|]. by rewrite IH. Qed.

Lemma parseIPv4Fields_byte s pd dl v fields out : parseIPv4Fields s pd dl v fields = Some out -> Forall octet fields -> octet v -> (length fields < 4)%nat ->
  Forall octet out /\ length out = 4%nat.
Proof.
  revert pd dl v fields. induction s as [|c s IH]; intros pd dl v fields; cbn [parseIPv4Fields].
  - destruct (Nat.ltb_spec (length fields) 3); [done|]. intros [= <-] Hf Hv Hl. split; [apply Forall_app; split; [done|by constructor]|rewrite length_app; cbn; lia].
  - destruct (is_digit c) eqn:Ed.
    + destruct (_ && _); [done|]. destruct (255 <? _) eqn:E; bool_to_prop; [done|]. intros H Hf Hv Hl. eapply IH; [exact H|done| |done].
      unfold is_digit in Ed. bool_to_prop. unfold octet in *. lia.
    + destruct (Ascii.eqb c "."); [|done]. destruct (_ || _); [done|]. destruct (length fields =? 3)%nat eqn:E; [done|]. apply Nat.eqb_neq in E. intros H Hf Hv Hl.
      eapply IH; [exact H|apply Forall_app; split; [done|by constructor]|unfold octet; lia|rewrite length_app; cbn; lia].
Qed.
Lemma digits_value_nonneg s acc v : 0 <= acc -> digits_value acc s = Some v -> 0 <= v.
Proof.
  revert acc. induction s as [|c s IH]; intros acc Ha; cbn; [by intros [= <-]|]. destruct (is_digit c) eqn:E; [|done]. apply IH. unfold is_digit in E. bool_to_prop. lia.
Qed.
Lemma parseIPv6_v6 s a : parseIPv6 s = Some a -> exists b z, a = Addr6 b z.
Proof.
  unfold parseIPv6. intros H. destruct (match Cut "%" s with Some (x, z) => _ | None => _ end) as [[t z] hz]. destruct (_ && _); [done|].
  destruct (match strip_prefix "::" t with Some r => _ | None => _ end) as [u ell]. destruct (_ && _); [injection H as <-; eauto|].
  destruct (parse_groups 8 u [] ell) as [[[bs e] rest]|]; [|done]. cbn in H. destruct (negb _); [done|]. destruct (_ <=? _)%nat; [|destruct e; [done|injection H as <-; eauto]].
  destruct e; [|done]. cbn in H. injection H as <-. eauto.
Qed.
Lemma ParseIP_v4 s b : ParseIP s = Some (Addr4 b) -> exists x y z w, b = [x; y; z; w] /\ Forall octet b.
Proof.
  unfold ParseIP, ParseAddr. intros H. assert (parseIPv4 s = Some b) as Hp.
  { destruct (first_separator s) as [c|]; [|done]. destruct c as [[][][][][][][][]]; try done; cbn in H; [destruct (parseIPv4 s) as [b'|]; [|done]; cbn in H; by injection H as ->|].
    destruct (parseIPv6 s) as [a'|] eqn:E; [|done]. apply parseIPv6_v6 in E as (b' & z & ->). cbn in H. by destruct (bool_decide _). }
  unfold parseIPv4 in Hp. apply parseIPv4Fields_byte in Hp as [Hb Hl]; [|constructor|unfold octet; lia|cbn; lia].
  destruct b as [|x [|y [|z [|w [|]]]]]; try done. by exists x, y, z, w.
Qed.
(** The printed network of an IPv4 prefix is read back, and holds the same
    addresses. *)
Lemma masked_prefix s p b n d : ParseCIDR s = Some p -> pfx_addr p = Addr4 b -> pfx_bits p = n ->
  ParseIP (IP_String (Mask (pfx_addr p) n)) = Some (Mask (pfx_addr p) n) /\ 0 <= n <= 32 /\
  Contains {| pfx_addr := Mask (pfx_addr p) n; pfx_bits := n |} d = Contains p d.
Proof.
  unfold ParseCIDR. destruct (Cut "/" s) as [[addr mask]|]; [|done]. cbn. destruct (ParseIP addr) as [a|] eqn:Ea; [|done]. cbn.
  destruct (dtoi mask) as [k|] eqn:Ek; [|done]. cbn. destruct (BitLen a <? k) eqn:El; [done|]. bool_to_prop. intros [= <-]. cbn. intros -> <-.
  destruct (ParseIP_v4 _ _ Ea) as (x & y & z & w & -> & Hb). cbn in El.
  assert (0 <= k) as Hk. { unfold dtoi in Ek. case_bool_decide; [done|]. destruct (digits_value 0 mask) as [v|] eqn:Ev; [|done]. cbn in Ek. destruct (v <? _); [|done]. injection Ek as <-. by apply (digits_value_nonneg mask 0). }
  pose proof (mask_bytes_byte k _ Hb) as Hm. cbn [Mask mask_bytes] in *. rewrite !Forall_cons in Hm. destruct Hm as (? & ? & ? & ? & _). split; [by apply parse_dotted|]. split; [lia|].
  unfold Contains. cbn [pfx_addr pfx_bits BitLen Zone addr_value]. destruct d as [db|db dz]; [|by destruct (bool_decide _)]. f_equal. cbn [BitLen addr_value]. rewrite !Z.shiftr_lxor, !Z.shiftr_div_pow2 by lia.
  pose proof (mask_value k [x; y; z; w] 0 Hb ltac:(cbn; lia)) as Hv. change (8 * Z.of_nat (length [x; y; z; w])) with 32 in Hv. cbn [mask_bytes] in Hv. by rewrite Hv.
Qed.

End IPText.
