(* ===== verification/EgressRule.v ===== *)
(** * Egress rules and their port specifications

    The rule records of internal/config/schema.go and the port-spec parser of
    internal/config/egress_port.go, the single boundary between the string a
    user writes and the integers the firewall layers consume. *)

From S2P Require Import Prelude GoStrings.
Import Go.

Module Rule.

(** ** Data (internal/config/schema.go) *)

Record PathRule := mkPathRule {
  Path : string;
  PathAction : string;
  Methods : list string;
}.

Record EgressRule := mkRule {
  Dst : string;
  Proto : string;
  Port : string;
  Action : string;
  PathRules : list PathRule;
  PathDefault : string;
  InsecureSkipTLSVerify : bool;
}.

#[global] Instance PathRule_eq_dec : EqDecision PathRule.
Proof. solve_decision. Defined.
#[global] Instance EgressRule_eq_dec : EqDecision EgressRule.
Proof. solve_decision. Defined.

Definition set_Proto (r : EgressRule) (p : string) : EgressRule :=
  mkRule (Dst r) p (Port r) (Action r) (PathRules r) (PathDefault r) (InsecureSkipTLSVerify r).
Definition set_Port (r : EgressRule) (p : string) : EgressRule :=
  mkRule (Dst r) (Proto r) p (Action r) (PathRules r) (PathDefault r) (InsecureSkipTLSVerify r).
Definition set_Action (r : EgressRule) (a : string) : EgressRule :=
  mkRule (Dst r) (Proto r) (Port r) a (PathRules r) (PathDefault r) (InsecureSkipTLSVerify r).
Definition set_PathRules (r : EgressRule) (l : list PathRule) : EgressRule :=
  mkRule (Dst r) (Proto r) (Port r) (Action r) l (PathDefault r) (InsecureSkipTLSVerify r).
Definition set_PathDefault (r : EgressRule) (d : string) : EgressRule :=
  mkRule (Dst r) (Proto r) (Port r) (Action r) (PathRules r) d (InsecureSkipTLSVerify r).
Definition set_Methods (p : PathRule) (ms : list string) : PathRule :=
  mkPathRule (Path p) (PathAction p) ms.

(** ** Port specifications (internal/config/egress_port.go) *)

Definition maxPort : Z := 65535.

Inductive PortNumberError := ExpectedLoHi | NotANumber | OutOfRange.
Inductive PortSpecError :=
  | BadLowPort (e : PortNumberError)
  | BadHighPort (e : PortNumberError)
  | ReversedRange (lo hi : Z)
  | BadPort (e : PortNumberError).

Definition parsePortNumber (s : string) : result PortNumberError Z :=
  if bool_decide (s = "") then Err ExpectedLoHi
  else
    match Atoi s with
    | None => Err NotANumber
    | Some p => if (p <? 1) || (maxPort <? p) then Err OutOfRange else Ok p
    end.

(** The results [lo], [hi], [set] of the source are an optional span: [None]
    when the spec is empty ([set = false]). *)
Definition ParsePortSpec (s : string) : result PortSpecError (option (Z * Z)) :=
  let s := TrimSpace s in
  if bool_decide (s = "") then Ok None
  else
    match Cut "-" s with
    | Some (lpart, rpart) =>
        match parsePortNumber (TrimSpace lpart) with
        | Err e => Err (BadLowPort e)
        | Ok lo =>
            match parsePortNumber (TrimSpace rpart) with
            | Err e => Err (BadHighPort e)
            | Ok hi => if hi <? lo then Err (ReversedRange lo hi) else Ok (Some (lo, hi))
            end
        end
    | None =>
        match parsePortNumber s with
        | Err e => Err (BadPort e)
        | Ok p => Ok (Some (p, p))
        end
    end.

Definition ValidatePortSpec (r : EgressRule) : result PortSpecError unit :=
  let? _ := ParsePortSpec (Port r) in Ok tt.

Definition PortSpan (r : EgressRule) : option (Z * Z) :=
  match ParsePortSpec (Port r) with Ok sp => sp | Err _ => None end.

Definition SinglePort (r : EgressRule) : option Z :=
  match PortSpan r with
  | Some (lo, hi) => if lo =? hi then Some lo else None
  | None => None
  end.

(** ** Facts about the parser *)

Lemma parsePortNumber_ok s p : parsePortNumber s = Ok p -> 1 <= p <= maxPort.
Proof.
  unfold parsePortNumber. repeat case_match; intros; simplify_eq; bool_to_prop; lia.
Qed.

Lemma ParsePortSpec_span_bounds s lo hi :
  ParsePortSpec s = Ok (Some (lo, hi)) -> 1 <= lo <= hi /\ hi <= maxPort.
Proof.
  unfold ParsePortSpec. repeat case_match; intros; simplify_eq; bool_to_prop;
    repeat match goal with H : parsePortNumber _ = Ok _ |- _ => apply parsePortNumber_ok in H end;
    lia.
Qed.

Lemma PortSpan_bounds r lo hi : PortSpan r = Some (lo, hi) -> 1 <= lo <= hi /\ hi <= maxPort.
Proof.
  unfold PortSpan. destruct (ParsePortSpec (Port r)) as [sp|e] eqn:E; [|done].
  intros ->. by eapply ParsePortSpec_span_bounds.
Qed.

Lemma SinglePort_span r p : SinglePort r = Some p <-> PortSpan r = Some (p, p).
Proof.
  unfold SinglePort. destruct (PortSpan r) as [[lo hi]|]; [|naive_solver].
  destruct (Z.eqb_spec lo hi) as [->|Hne]; naive_solver.
Qed.

Lemma parsePortNumber_Itoa p : 1 <= p <= maxPort -> parsePortNumber (Itoa p) = Ok p.
Proof.
  intros H. assert (maxPort <= max_int) by (by vm_compute). unfold parsePortNumber.
  rewrite bool_decide_eq_false_2 by (apply Itoa_nonempty; lia).
  rewrite Atoi_Itoa by lia. case_match eqn:E; [|done].
  apply orb_true_iff in E as [?|?]; bool_to_prop; lia.
Qed.

Lemma Itoa_not p (q : ascii -> bool) :
  (forall c, is_digit c = true -> q c = true) -> 0 <= p -> all_chars q (Itoa p) = true.
Proof. intros Hq Hp. by eapply all_chars_impl, Itoa_digits. Qed.

Lemma is_digit_not_dash c : is_digit c = true -> negb (Ascii.eqb "-" c) = true.
Proof. destruct c as [[][][][][][][][]]; vm_compute; naive_solver. Qed.

Lemma is_digit_not_colon c : is_digit c = true -> negb (Ascii.eqb ":" c) = true.
Proof. destruct c as [[][][][][][][][]]; vm_compute; naive_solver. Qed.

Lemma TrimSpace_Itoa p : 0 <= p -> TrimSpace (Itoa p) = Itoa p.
Proof. intros H. apply TrimSpace_id, Itoa_not; [apply is_digit_not_space|done]. Qed.

Lemma ParsePortSpec_Itoa p : 1 <= p <= maxPort -> ParsePortSpec (Itoa p) = Ok (Some (p, p)).
Proof.
  intros H. unfold ParsePortSpec. rewrite TrimSpace_Itoa by lia.
  rewrite bool_decide_eq_false_2 by (apply Itoa_nonempty; lia).
  rewrite Cut_char_None by (apply Itoa_not; [apply is_digit_not_dash|lia]).
  by rewrite parsePortNumber_Itoa.
Qed.

Lemma ParsePortSpec_range lo hi :
  1 <= lo <= hi -> hi <= maxPort ->
  ParsePortSpec (Itoa lo +:+ String "-" (Itoa hi)) = Ok (Some (lo, hi)).
Proof.
  intros H1 H2. unfold ParsePortSpec. rewrite TrimSpace_id.
  2: { rewrite all_chars_append. cbn [all_chars].
       rewrite !(Itoa_not _ (fun c => negb (is_space c))) by (apply is_digit_not_space || lia). done. }
  rewrite bool_decide_eq_false_2.
  2: { intros E. pose proof (Itoa_nonempty lo ltac:(lia)) as Hne.
       destruct (Itoa lo); [done|]. discriminate E. }
  rewrite Cut_char by (apply Itoa_not; [apply is_digit_not_dash|lia]).
  rewrite !TrimSpace_Itoa, !parsePortNumber_Itoa by lia.
  case_match eqn:E; [bool_to_prop; lia|done].
Qed.

(** ** Characters of an accepted port specification *)

Definition port_char (c : ascii) : bool :=
  is_digit c || is_space c || Ascii.eqb c "-" || Ascii.eqb c "+".

Lemma port_char_digit c : is_digit c = true -> port_char c = true.
Proof. unfold port_char. by intros ->. Qed.
Lemma port_char_space c : is_space c = true -> port_char c = true.
Proof. unfold port_char. intros ->. by rewrite orb_true_r. Qed.

Lemma parsePortNumber_chars s p : parsePortNumber s = Ok p -> all_chars port_char s = true.
Proof.
  unfold parsePortNumber. case_match; [done|]. destruct (Atoi s) eqn:E; [|done]. intros _.
  by eapply Atoi_chars in E; [exact E|apply port_char_digit|..].
Qed.

Lemma ParsePortSpec_chars s sp : ParsePortSpec s = Ok sp -> all_chars port_char s = true.
Proof.
  unfold ParsePortSpec. intros H. apply all_chars_TrimSpace; [apply port_char_space|].
  case_bool_decide as E; [by rewrite E|]. destruct (Cut "-" (TrimSpace s)) as [[l r]|] eqn:Ec.
  - apply Cut_spec in Ec. rewrite Ec, !all_chars_append.
    destruct (parsePortNumber (TrimSpace l)) eqn:El; [|done].
    destruct (parsePortNumber (TrimSpace r)) eqn:Er; [|done].
    apply parsePortNumber_chars, all_chars_TrimSpace in El; [|apply port_char_space].
    apply parsePortNumber_chars, all_chars_TrimSpace in Er; [|apply port_char_space].
    by rewrite El, Er.
  - destruct (parsePortNumber (TrimSpace s)) eqn:El; [|done]. by apply parsePortNumber_chars in El.
Qed.

End Rule.
