(* ===== verification/Wire.v ===== *)
(** * Rules and errors on the wire

    The conversions between configuration rules and protobuf rules of
    api/admin/v1/conversion.go, and the translation of firewall sentinels into
    gRPC statuses of controlplane/firewall/errors.go. *)

From S2P Require Import Prelude GoStrings EgressRule.
Import Go Rule.

Module Wire.

(** ** Rules *)

(** The messages PathRule and EgressRule of admin.proto. *)
Record PbPathRule := mkPbPathRule {
  pb_path : string;
  pb_path_action : string;
  pb_methods : list string;
}.

Record PbEgressRule := mkPbRule {
  pb_dst : string;
  pb_proto : string;
  pb_port : string;
  pb_action : string;
  pb_path_rules : list PbPathRule;
  pb_path_default : string;
}.

Definition EgressRuleToProto (r : EgressRule) : PbEgressRule :=
  mkPbRule (Dst r) (Proto r) (Port r) (Action r)
    ((fun p => mkPbPathRule (Path p) (PathAction p) (Methods p)) <$> PathRules r) (PathDefault r).

Definition EgressRuleFromProto (r : PbEgressRule) : EgressRule :=
  mkRule (pb_dst r) (pb_proto r) (pb_port r) (pb_action r)
    ((fun p => mkPathRule (pb_path p) (pb_path_action p) (pb_methods p)) <$> pb_path_rules r)
    (pb_path_default r) false.

Definition EgressRulesToProto (l : list EgressRule) : list PbEgressRule := EgressRuleToProto <$> l.
Definition EgressRulesFromProto (l : list PbEgressRule) : list EgressRule := EgressRuleFromProto <$> l.

(** ** Errors *)

Inductive sentinel :=
  | ErrCPNotRunning | ErrQueueClosed
  | ErrFirewallNotInitialized | ErrContainerGone | ErrRuleInvalid | ErrRuleStoreWrite | ErrCertRegen
  | ErrStackProbe | ErrConfigRegen | ErrEnvoyRestart | ErrCoreDNSRestart | ErrStackUnhealthy | ErrRouteSync.

#[global] Instance sentinel_eq_dec : EqDecision sentinel.
Proof. solve_decision. Defined.

Inductive code := Unavailable | FailedPrecondition | InvalidArgument | Internal.

#[global] Instance code_eq_dec : EqDecision code.
Proof. solve_decision. Defined.

Definition sentinelDispatch : list (sentinel * code * string) :=
  [(ErrCPNotRunning, Unavailable, "CP_NOT_RUNNING");
   (ErrQueueClosed, Unavailable, "QUEUE_CLOSED");
   (ErrFirewallNotInitialized, FailedPrecondition, "FIREWALL_NOT_INITIALIZED");
   (ErrContainerGone, FailedPrecondition, "CONTAINER_GONE");
   (ErrRuleInvalid, InvalidArgument, "RULE_INVALID");
   (ErrRuleStoreWrite, Internal, "RULE_STORE_WRITE");
   (ErrCertRegen, Internal, "CERT_REGEN");
   (ErrStackProbe, Unavailable, "STACK_PROBE");
   (ErrConfigRegen, Internal, "CONFIG_REGEN");
   (ErrEnvoyRestart, Internal, "ENVOY_RESTART");
   (ErrCoreDNSRestart, Internal, "COREDNS_RESTART");
   (ErrStackUnhealthy, Unavailable, "STACK_UNHEALTHY");
   (ErrRouteSync, Internal, "ROUTE_SYNC")].

(** An error is the list of sentinels its chain matches under [errors.Is]. *)
Definition error := list sentinel.

(** The loop over [sentinelDispatch]: the primary code and the details. *)
Definition toStatus_step (err : error) (st : code * list string) (d : sentinel * code * string)
    : code * list string :=
  let '(primaryCode, details) := st in
  let '(s, c, reason) := d in
  if bool_decide (s ∈ err)
  then (if bool_decide (details = []) then c else primaryCode, details ++ [reason])
  else st.

(** [None] is the nil error; attaching details is taken to succeed. *)
Definition toStatus (err : option error) : option (code * list string) :=
  err ← err; Some (foldl (toStatus_step err) (Internal, []) sentinelDispatch).

(** The entries of the dispatch table an error matches, in table order. *)
Definition matching (err : error) : list (sentinel * code * string) :=
  filter (fun d => d.1.1 ∈ err) sentinelDispatch.

Lemma toStatus_fold err l primary details :
  let m := filter (fun d : sentinel * code * string => d.1.1 ∈ err) l in
  foldl (toStatus_step err) (primary, details) l =
    (match m with d :: _ => if bool_decide (details = []) then d.1.2 else primary | [] => primary end,
     details ++ (snd <$> m)).
Proof.
  revert primary details. induction l as [|[[s c] reason] l IH]; intros primary details; cbn [foldl].
  - by rewrite app_nil_r.
  - unfold toStatus_step at 2. rewrite filter_cons. simpl. case_bool_decide as Hs.
    + rewrite decide_True by done. simpl. rewrite IH, <- app_assoc. f_equal.
      case_match; [done|]. rewrite bool_decide_eq_false_2; [done|]. by destruct details.
    + rewrite decide_False by done. apply IH.
Qed.

Definition wire_rule : EgressRule :=
  mkRule "api.example.com" "https" "443" "allow"
    [mkPathRule "/v1" "allow" ["GET"]] "deny" false.

(** A rule survives the trip to protobuf and back exactly when it does
    not set insecure_skip_tls_verify: every other field, path rules and
    methods included, is preserved, and that flag is always cleared. *)
Theorem EgressRule_proto_roundtrip r :
  EgressRuleFromProto (EgressRuleToProto r) = r <-> InsecureSkipTLSVerify r = false.
Proof.
  destruct r as [d pr po ac prs pd sk]. unfold EgressRuleFromProto, EgressRuleToProto. simpl.
  rewrite <- list_fmap_compose.
  assert ((fun p => mkPathRule (Path p) (PathAction p) (Methods p)) <$> prs = prs) as Hid.
  { rewrite <- (list_fmap_id prs) at 2. apply list_fmap_ext. by intros i []. }
  unfold compose. simpl. rewrite Hid. naive_solver.
Qed.

(** An error's gRPC status carries one reason per matched sentinel, in
    dispatch order (dial, pre-Submit, queued-closure), and its code is the code
    of the earliest-layer match; an error that matches none is Internal without
    details; no error gives no status. *)
Theorem toStatus_spec err :
  toStatus err =
    match err with
    | None => None
    | Some err => Some (match matching err with d :: _ => d.1.2 | [] => Internal end, snd <$> matching err)
    end.
Proof.
  destruct err as [err|]; [|done]. unfold toStatus. simpl.
  f_equal. apply (toStatus_fold err sentinelDispatch Internal []).
Qed.

End Wire.
