(* ===== verification/Spans.v ===== *)
(** * Port-span arithmetic

    The interval routines of controlplane/firewall/rules_store.go and
    controlplane/firewall/envoy_config.go that resolve overlapping port
    ranges: merging, carving, intersection and rendering.  A span is an
    inclusive pair [(lo, hi)]; a list of spans denotes a set of ports, and
    every routine is specified by the set it computes. *)

From S2P Require Import Prelude GoStrings EgressRule.
Import Go Rule.

Module Spans.

Abbreviation span := (Z * Z)%type.

(** ** Operations *)

(** The comparison both [sort.Slice] calls use; it separates any two
    different spans, so sorting has one possible result. *)
Definition span_le (a b : span) : Prop := a.1 < b.1 \/ (a.1 = b.1 /\ a.2 <= b.2).
#[global] Instance span_le_dec : RelDecision span_le.
Proof. intros a b. unfold span_le. apply _. Defined.

Definition sort_spans (l : list span) : list span := merge_sort span_le l.

Fixpoint merge_loop (last : span) (rest : list span) : list span :=
  match rest with
  | [] => [last]
  | s :: rest' =>
      if s.1 <=? last.2
      then merge_loop (last.1, if last.2 <? s.2 then s.2 else last.2) rest'
      else last :: merge_loop s rest'
  end.

Definition mergeOverlappingSpans (spans : list span) : list span :=
  if (length spans <=? 1)%nat then spans
  else match sort_spans spans with [] => [] | s :: rest => merge_loop s rest end.

(** The inner loop of [subtractSpans] for one allow span ending at [ahi]: the
    pieces emitted and the final cursor. *)
Fixpoint carve (lo ahi : Z) (deny : list span) : list span * Z :=
  match deny with
  | [] => ([], lo)
  | d :: deny' =>
      if (d.2 <? lo) || (ahi <? d.1) then carve lo ahi deny'
      else
        let piece := if lo <? d.1 then [(lo, d.1 - 1)] else [] in
        let lo := if lo <? d.2 + 1 then d.2 + 1 else lo in
        if ahi <? lo then (piece, lo)
        else let '(out, lo) := carve lo ahi deny' in (piece ++ out, lo)
  end.

Definition carve_span (deny : list span) (a : span) : list span :=
  let '(out, lo) := carve a.1 a.2 deny in
  if lo <=? a.2 then out ++ [(lo, a.2)] else out.

Definition subtractSpans (allow deny : list span) : list span :=
  match deny with
  | [] => allow
  | _ => allow ≫= carve_span (sort_spans deny)
  end.

Definition mergedSpansChanged (in_ merged : list span) : bool := (length merged <? length in_)%nat.

Definition spansEqual (a b : list span) : bool := bool_decide (a = b).

Definition formatSpan (sp : span) : string :=
  if sp.1 =? sp.2 then Itoa sp.1 else Itoa sp.1 +:+ String "-" (Itoa sp.2).

Definition formatSpans (spans : list span) : string := Join (formatSpan <$> spans) ",".

(** [lowestSpanOverlap]; [best] is the accumulator, [-1] for none. *)
Definition overlap_step (sa : span) (best : Z) (sb : span) : Z :=
  let lo := if sa.1 <? sb.1 then sb.1 else sa.1 in
  let hi := if sb.2 <? sa.2 then sb.2 else sa.2 in
  if (lo <=? hi) && ((best =? -1) || (lo <? best)) then lo else best.

Definition lowestSpanOverlap (a b : list span) : option Z :=
  let best := foldl (fun best sa => foldl (overlap_step sa) best b) (-1) a in
  if best =? -1 then None else Some best.

(** ** The set a span list denotes *)

Definition covers_span (s : span) (p : Z) : Prop := s.1 <= p <= s.2.
Definition covers (l : list span) (p : Z) : Prop := Exists (fun s => covers_span s p) l.

Definition wf_span (s : span) : Prop := s.1 <= s.2.
Definition before (a b : span) : Prop := a.2 < b.1.
(** Well-formed, ascending and pairwise disjoint. *)
Definition separated (l : list span) : Prop := Forall wf_span l /\ StronglySorted before l.

Lemma covers_nil p : covers [] p <-> False.
Proof. unfold covers. by rewrite Exists_nil. Qed.
Lemma covers_cons s l p : covers (s :: l) p <-> covers_span s p \/ covers l p.
Proof. unfold covers. by rewrite Exists_cons. Qed.
Lemma covers_app l k p : covers (l ++ k) p <-> covers l p \/ covers k p.
Proof. unfold covers. by rewrite Exists_app. Qed.
Lemma covers_in l p : covers l p <-> exists s, s ∈ l /\ covers_span s p.
Proof. unfold covers. by rewrite Exists_exists. Qed.

#[global] Instance covers_perm : Proper ((≡ₚ) ==> eq ==> iff) covers.
Proof. intros l k H p ? <-. unfold covers. by rewrite H. Qed.

#[global] Instance span_le_total : Total span_le.
Proof. intros [a b] [c d]. unfold span_le. simpl. lia. Qed.
#[global] Instance span_le_trans : Transitive span_le.
Proof. intros [a b] [c d] [e f]. unfold span_le. simpl. lia. Qed.
#[global] Instance span_le_anti : AntiSymm (=) span_le.
Proof. intros [a b] [c d]. unfold span_le. simpl. intros. f_equal; lia. Qed.

Lemma sort_spans_perm l : sort_spans l ≡ₚ l.
Proof. apply merge_sort_Permutation. Qed.
Lemma sort_spans_sorted l : StronglySorted span_le (sort_spans l).
Proof. apply StronglySorted_merge_sort; apply _. Qed.

Lemma sort_spans_id l : StronglySorted span_le l -> sort_spans l = l.
Proof.
  intros H. apply (StronglySorted_unique span_le); [apply sort_spans_sorted|done|apply sort_spans_perm].
Qed.

(** ** Merging *)

Definition lo_le (a b : span) : Prop := a.1 <= b.1.

Lemma sort_spans_lo l : StronglySorted lo_le (sort_spans l).
Proof.
  eapply StronglySorted_weaken; [|apply sort_spans_sorted].
  intros a b. unfold span_le, lo_le. lia.
Qed.

(** The state [merge_loop] is called with: well-formed spans ordered by
    their low port. *)
Definition merge_ready (l : list span) : Prop := Forall wf_span l /\ StronglySorted lo_le l.

Lemma merge_ready_step last s rest :
  merge_ready (last :: s :: rest) ->
  merge_ready (s :: rest) /\ merge_ready ((last.1, if last.2 <? s.2 then s.2 else last.2) :: rest).
Proof.
  intros [Hw Hs]. decompose_Forall_hyps.
  apply StronglySorted_inv in Hs as [Hs Hl]. split; [by split; [constructor|]|].
  apply StronglySorted_inv in Hs as [Hs _]. apply Forall_cons in Hl as [_ Hl].
  split; constructor; try done. unfold wf_span in *. simpl.
  destruct (last.2 <? s.2) eqn:E; bool_to_prop; lia.
Qed.

Lemma merge_ready_lo last s rest : merge_ready (last :: s :: rest) -> last.1 <= s.1.
Proof. intros [_ Hs]. by apply StronglySorted_inv in Hs as [_ [H _]%Forall_cons]. Qed.

(** [m] is exactly tiled by overlapping members of [l]: any two consecutive
    ports of [m] lie in a common span of [l]. *)
Definition glued (l : list span) (m : span) : Prop :=
  forall q, m.1 < q <= m.2 -> exists s, s ∈ l /\ covers_span s (q - 1) /\ covers_span s q.

Definition included (s m : span) : Prop := m.1 <= s.1 /\ s.2 <= m.2.

Lemma merge_loop_lo last rest :
  merge_ready (last :: rest) -> Forall (fun m => last.1 <= m.1) (merge_loop last rest).
Proof.
  revert last. induction rest as [|s rest IH]; intros last Hr; simpl; [by constructor|].
  pose proof (merge_ready_step _ _ _ Hr) as [H1 H2].
  destruct (s.1 <=? last.2); [by apply (IH _ H2)|].
  constructor; [done|]. pose proof (merge_ready_lo _ _ _ Hr).
  eapply Forall_impl; [by apply IH|]. simpl. lia.
Qed.

Lemma merge_loop_separated last rest :
  merge_ready (last :: rest) -> separated (merge_loop last rest).
Proof.
  revert last. induction rest as [|s rest IH]; intros last Hr; simpl.
  - destruct Hr as [Hw _]. split; [done|]. repeat constructor.
  - pose proof (merge_ready_step _ _ _ Hr) as [H1 H2].
    destruct (s.1 <=? last.2) eqn:E; [by apply IH|]. bool_to_prop.
    destruct (IH _ H1) as [Hw Hs]. destruct Hr as [Hwr _]. decompose_Forall_hyps.
    split; constructor; try done.
    eapply Forall_impl; [by apply merge_loop_lo|]. unfold before. simpl. lia.
Qed.

Lemma merge_loop_included last rest s :
  merge_ready (last :: rest) -> s ∈ last :: rest ->
  exists m, m ∈ merge_loop last rest /\ included s m.
Proof.
  revert last s. induction rest as [|t rest IH]; intros last s Hr Hs; simpl.
  - apply list_elem_of_singleton in Hs as ->. exists last. split; [by left|]. split; lia.
  - pose proof (merge_ready_step _ _ _ Hr) as [H1 H2]. pose proof (merge_ready_lo _ _ _ Hr) as Hlo.
    destruct (t.1 <=? last.2) eqn:E; bool_to_prop.
    + assert (Hin : exists s', s' ∈ (last.1, if last.2 <? t.2 then t.2 else last.2) :: rest /\ included s s').
      { apply elem_of_cons in Hs as [->|[->|Hs]%elem_of_cons].
        1,2: eexists; split; [by left|]; unfold included; simpl;
             destruct (last.2 <? t.2) eqn:E2; bool_to_prop; lia.
        exists s. split; [by right|]. split; lia. }
      destruct Hin as (s' & Hin & Hi). destruct (IH _ _ H2 Hin) as (m & Hm & Hi2).
      exists m. split; [done|]. unfold included in *. lia.
    + apply elem_of_cons in Hs as [->|Hs].
      * exists last. split; [by left|]. split; lia.
      * destruct (IH _ _ H1 Hs) as (m & ? & ?). exists m. split; [by right|done].
Qed.

Lemma glued_merge last s rest m :
  last.1 <= s.1 <= last.2 -> wf_span last ->
  glued ((last.1, if last.2 <? s.2 then s.2 else last.2) :: rest) m ->
  glued (last :: s :: rest) m.
Proof.
  intros Hlo Hw Hg q Hq. destruct (Hg q Hq) as (x & Hx & Hc1 & Hc2).
  apply elem_of_cons in Hx as [->|Hx]; [|exists x; set_solver].
  unfold covers_span in *. simpl in *.
  destruct (last.2 <? s.2) eqn:E; bool_to_prop.
  - destruct (decide (q <= last.2)).
    + exists last. split; [set_solver|lia].
    + exists s. split; [set_solver|lia].
  - exists last. split; [set_solver|lia].
Qed.

Lemma merge_loop_glued last rest m :
  merge_ready (last :: rest) -> m ∈ merge_loop last rest -> glued (last :: rest) m.
Proof.
  revert last. induction rest as [|s rest IH]; intros last Hr Hm; simpl in Hm.
  - apply list_elem_of_singleton in Hm as ->. intros q Hq.
    exists last. split; [by left|]. unfold covers_span. lia.
  - pose proof (merge_ready_step _ _ _ Hr) as [H1 H2]. pose proof (merge_ready_lo _ _ _ Hr).
    destruct Hr as [Hw _]. apply Forall_cons in Hw as [Hw _].
    destruct (s.1 <=? last.2) eqn:E; bool_to_prop.
    + apply glued_merge; [lia|done|]. by apply IH.
    + apply elem_of_cons in Hm as [->|Hm].
      * intros q Hq. exists last. split; [by left|]. unfold covers_span. lia.
      * intros q Hq. destruct (IH _ H1 Hm q Hq) as (x & ? & ?). exists x. set_solver.
Qed.

Lemma merge_loop_covers_only last rest p :
  merge_ready (last :: rest) -> covers (merge_loop last rest) p -> covers (last :: rest) p.
Proof.
  revert last. induction rest as [|s rest IH]; intros last Hr Hc; simpl in Hc; [done|].
  pose proof (merge_ready_step _ _ _ Hr) as [H1 H2]. pose proof (merge_ready_lo _ _ _ Hr).
  destruct (s.1 <=? last.2) eqn:E; bool_to_prop.
  - apply (IH _ H2) in Hc. rewrite !covers_cons in *. unfold covers_span in *. simpl in *.
    destruct (last.2 <? s.2) eqn:E2; bool_to_prop; intuition lia.
  - rewrite covers_cons in *. destruct Hc as [Hc|Hc]; [by left|]. right. by apply IH.
Qed.

Lemma merge_as_loop l :
  Forall wf_span l -> l <> [] ->
  exists s rest, mergeOverlappingSpans l = merge_loop s rest /\ merge_ready (s :: rest) /\ s :: rest ≡ₚ l.
Proof.
  intros Hw Hne. unfold mergeOverlappingSpans. destruct (length l <=? 1)%nat eqn:E.
  - apply Nat.leb_le in E. destruct l as [|s [|t l]]; simpl in *; [done| |lia].
    exists s, []. split; [done|]. split; [|done]. split; [done|]. repeat constructor.
  - destruct (sort_spans l) as [|s rest] eqn:Es.
    + pose proof (sort_spans_perm l) as Hp. rewrite Es in Hp. by apply Permutation_nil_l in Hp.
    + exists s, rest. split; [done|]. rewrite <- Es. split; [|apply sort_spans_perm].
      split; [by rewrite sort_spans_perm|apply sort_spans_lo].
Qed.

Lemma merge_nil : mergeOverlappingSpans [] = [].
Proof. done. Qed.

Lemma merge_separated l : Forall wf_span l -> separated (mergeOverlappingSpans l).
Proof.
  intros Hw. destruct (decide (l = [])) as [->|Hne]; [by repeat constructor|].
  destruct (merge_as_loop l Hw Hne) as (s & rest & -> & Hr & _). by apply merge_loop_separated.
Qed.

Lemma merge_included l s :
  Forall wf_span l -> s ∈ l -> exists m, m ∈ mergeOverlappingSpans l /\ included s m.
Proof.
  intros Hw Hs. destruct (merge_as_loop l Hw) as (s0 & rest & -> & Hr & Hp);
    [by intros ->; apply elem_of_nil in Hs|].
  apply merge_loop_included; [done|]. by rewrite Hp.
Qed.

Lemma merge_glued l m : Forall wf_span l -> m ∈ mergeOverlappingSpans l -> glued l m.
Proof.
  intros Hw Hm. destruct (decide (l = [])) as [->|Hne]; [by apply elem_of_nil in Hm|].
  destruct (merge_as_loop l Hw Hne) as (s0 & rest & E & Hr & Hp). rewrite E in Hm.
  intros q Hq. destruct (merge_loop_glued _ _ _ Hr Hm q Hq) as (s & Hs & ?).
  exists s. by rewrite <- Hp.
Qed.

(** Merging preserves the set of ports. *)
Lemma merge_covers l p : Forall wf_span l -> covers (mergeOverlappingSpans l) p <-> covers l p.
Proof.
  intros Hw. destruct (decide (l = [])) as [->|Hne]; [done|].
  destruct (merge_as_loop l Hw Hne) as (s0 & rest & -> & Hr & Hp). split.
  - intros H. rewrite <- Hp. by apply merge_loop_covers_only.
  - rewrite <- Hp, !covers_in. intros (s & Hs & Hc).
    destruct (merge_loop_included _ _ _ Hr Hs) as (m & ? & Hi). exists m. split; [done|].
    unfold included, covers_span in *. lia.
Qed.

Lemma separated_lo_sorted l : separated l -> StronglySorted lo_le l.
Proof.
  intros [Hw Hs]. induction Hs as [|a l Hs IH Ha]; constructor.
  - by apply IH; decompose_Forall_hyps.
  - apply Forall_cons in Hw as [Hw1 Hw2]. rewrite Forall_forall in *. intros x Hx.
    specialize (Ha x Hx). unfold before, lo_le, wf_span in *. lia.
Qed.

Lemma merge_loop_id s l : separated (s :: l) -> merge_loop s l = s :: l.
Proof.
  revert s. induction l as [|t l IH]; intros s [Hw Hs]; simpl; [done|].
  apply StronglySorted_inv in Hs as [Hs' Hb]. apply Forall_cons in Hb as [Hb _].
  unfold before in Hb. destruct (t.1 <=? s.2) eqn:E; bool_to_prop; [lia|].
  rewrite IH; [done|]. decompose_Forall_hyps. by split; [constructor|].
Qed.

(** Merging leaves an already separated list alone. *)
Lemma merge_id l : separated l -> mergeOverlappingSpans l = l.
Proof.
  intros Hs. unfold mergeOverlappingSpans. destruct (length l <=? 1)%nat; [done|].
  rewrite sort_spans_id.
  - destruct l; [done|]. by apply merge_loop_id.
  - destruct Hs as [Hw Hs]. eapply StronglySorted_weaken_in; [|exact Hs].
    intros a b Ha Hb. rewrite Forall_forall in Hw. pose proof (Hw a Ha).
    unfold before, span_le, wf_span in *. lia.
Qed.

(** [p] is claimed by [l], and only by the single-port span [p]. *)
Definition only_single (l : list span) (p : Z) : Prop :=
  covers l p /\ forall s, s ∈ l -> covers_span s p -> s = (p, p).

Lemma separated_unique l a b p :
  separated l -> a ∈ l -> b ∈ l -> covers_span a p -> covers_span b p -> a = b.
Proof.
  intros [_ Hs]. induction Hs as [|x l Hs IH Hx]; intros Ha Hb Hpa Hpb; [by apply elem_of_nil in Ha|].
  rewrite Forall_forall in Hx. unfold before, covers_span in *.
  apply elem_of_cons in Ha as [->|Ha]; apply elem_of_cons in Hb as [->|Hb];
    [done|specialize (Hx b Hb); lia|specialize (Hx a Ha); lia|by apply IH].
Qed.

(** A single-port span survives merging exactly when nothing wider claims
    its port. *)
Lemma merge_single l p :
  Forall wf_span l -> (p, p) ∈ mergeOverlappingSpans l <-> only_single l p.
Proof.
  intros Hw. pose proof (merge_separated l Hw) as Hsep. split.
  - intros Hm. split.
    + apply merge_covers; [done|]. apply covers_in. exists (p, p). split; [done|].
      unfold covers_span. simpl. lia.
    + intros s Hs Hc. destruct (merge_included l s Hw Hs) as (m & Hm' & Hi).
      assert (m = (p, p)) as ->.
      { eapply (separated_unique _ _ _ p Hsep); [done..| |]; unfold covers_span, included in *; simpl in *; lia. }
      rewrite Forall_forall in Hw. specialize (Hw s Hs). destruct s as [a b].
      unfold included, covers_span, wf_span in *. simpl in *. f_equal; lia.
  - intros [Hc Ho]. apply (merge_covers l p Hw) in Hc. apply covers_in in Hc as (m & Hm & Hc).
    pose proof (merge_glued l m Hw Hm) as Hg. destruct m as [a b]. unfold covers_span in Hc. simpl in Hc.
    assert (Hno : forall q, (p = q - 1 \/ p = q) -> ~ a < q <= b).
    { intros q Hq Hr. destruct (Hg q Hr) as (s & Hs & Hc1 & Hc2).
      assert (s = (p, p)) as -> by (apply Ho; [done|]; destruct Hq; subst; done).
      unfold covers_span in *. simpl in *. lia. }
    pose proof (Hno p (or_intror eq_refl)). pose proof (Hno (p + 1) ltac:(lia)).
    assert (a = p) as -> by lia. assert (b = p) as -> by lia. done.
Qed.

(** ** Carving *)

(** [carve_span] as one recursion over the deny spans. *)
Definition carve_from (lo ahi : Z) (deny : list span) : list span :=
  let '(out, lo) := carve lo ahi deny in if lo <=? ahi then out ++ [(lo, ahi)] else out.

Lemma carve_from_cons lo ahi d deny :
  carve_from lo ahi (d :: deny) =
    if (d.2 <? lo) || (ahi <? d.1) then carve_from lo ahi deny
    else (if lo <? d.1 then [(lo, d.1 - 1)] else []) ++
         (if ahi <? (if lo <? d.2 + 1 then d.2 + 1 else lo) then []
          else carve_from (if lo <? d.2 + 1 then d.2 + 1 else lo) ahi deny).
Proof.
  unfold carve_from. cbn [carve]. destruct ((d.2 <? lo) || (ahi <? d.1)); [done|].
  set (lo' := if lo <? d.2 + 1 then d.2 + 1 else lo).
  destruct (ahi <? lo') eqn:E; bool_to_prop.
  - destruct (lo' <=? ahi) eqn:E2; bool_to_prop; [lia|]. by rewrite app_nil_r.
  - destruct (carve lo' ahi deny) as [out lo'']. destruct (lo'' <=? ahi); [|done].
    by rewrite app_assoc.
Qed.

Lemma carve_from_nil lo ahi : carve_from lo ahi [] = if lo <=? ahi then [(lo, ahi)] else [].
Proof. done. Qed.

Lemma carve_from_covers lo ahi deny p :
  StronglySorted lo_le deny ->
  covers (carve_from lo ahi deny) p <-> lo <= p <= ahi /\ ~ covers deny p.
Proof.
  intros Hs. revert lo. induction Hs as [|d deny Hs IH Hd]; intros lo.
  - rewrite carve_from_nil. rewrite covers_nil. destruct (lo <=? ahi) eqn:E; bool_to_prop.
    + rewrite covers_cons, covers_nil. unfold covers_span. simpl. intuition lia.
    + rewrite covers_nil. intuition lia.
  - rewrite carve_from_cons, covers_cons.
    destruct ((d.2 <? lo) || (ahi <? d.1)) eqn:E.
    + rewrite IH. apply orb_true_iff in E. unfold covers_span.
      split; [intros [? ?]; split; [done|]; intros [?|?]; [|done]|intuition].
      destruct E; bool_to_prop; lia.
    + bool_to_prop. rewrite covers_app.
      assert (Hlow : p < d.1 -> ~ covers deny p).
      { intros Hp Hc. apply covers_in in Hc as (s & Hin & Hcs). rewrite Forall_forall in Hd.
        specialize (Hd s Hin). unfold lo_le, covers_span in *. lia. }
      set (lo' := if lo <? d.2 + 1 then d.2 + 1 else lo).
      assert (Hlo' : lo' = Z.max lo (d.2 + 1)).
      { unfold lo'. destruct (lo <? d.2 + 1) eqn:?; bool_to_prop; lia. }
      assert (Hrest : covers (if ahi <? lo' then [] else carve_from lo' ahi deny) p
                      <-> lo' <= p <= ahi /\ ~ covers deny p).
      { destruct (ahi <? lo') eqn:?; bool_to_prop; [|apply IH]. rewrite covers_nil. intuition lia. }
      rewrite Hrest. unfold covers_span.
      destruct (lo <? d.1) eqn:?; bool_to_prop; rewrite ?covers_cons, ?covers_nil;
        unfold covers_span; simpl; destruct (decide (p < d.1)); intuition lia.
Qed.

(** The carve-out is set difference: a denied port never survives and
    nothing else is lost. *)
Lemma subtract_covers allow deny p :
  covers (subtractSpans allow deny) p <-> covers allow p /\ ~ covers deny p.
Proof.
  unfold subtractSpans. destruct deny as [|d0 deny0]; [rewrite covers_nil; tauto|].
  set (deny := d0 :: deny0). rewrite <- (sort_spans_perm deny) at 2.
  pose proof (sort_spans_lo deny) as Hs. revert Hs. generalize (sort_spans deny) as k.
  clear. intros k Hs. induction allow as [|a allow IH]; simpl; [rewrite covers_nil; tauto|].
  rewrite covers_app, covers_cons, IH. change (carve_span k a) with (carve_from a.1 a.2 k).
  rewrite carve_from_covers by done. unfold covers_span. tauto.
Qed.

Lemma carve_from_separated lo ahi deny :
  Forall wf_span deny ->
  separated (carve_from lo ahi deny) /\
  Forall (fun s => lo <= s.1 /\ s.2 <= ahi) (carve_from lo ahi deny).
Proof.
  intros Hw. revert lo. induction Hw as [|d deny Hd Hw IH]; intros lo.
  - rewrite carve_from_nil. destruct (lo <=? ahi) eqn:E; bool_to_prop;
      (split; [split|]); repeat constructor; unfold wf_span; simpl; lia.
  - rewrite carve_from_cons. destruct (_ || _) eqn:E; [apply IH|]. bool_to_prop.
    set (lo' := if lo <? d.2 + 1 then d.2 + 1 else lo).
    assert (Hlo' : lo <= lo' /\ d.2 < lo').
    { unfold lo'. destruct (lo <? d.2 + 1) eqn:?; bool_to_prop; lia. }
    unfold wf_span in Hd. destruct (IH lo') as [[Hwf Hst] Hb].
    assert (Hb' : Forall (fun s => lo <= s.1 /\ s.2 <= ahi) (carve_from lo' ahi deny)).
    { eapply Forall_impl; [exact Hb|]. simpl. lia. }
    destruct (ahi <? lo'), (lo <? d.1) eqn:?; bool_to_prop; simpl;
      (split; [split|]); repeat constructor; unfold wf_span; simpl; try done; try lia.
    eapply Forall_impl; [exact Hb|]. unfold before. simpl. lia.
Qed.

Lemma subtract_separated allow deny :
  separated allow -> Forall wf_span deny -> separated (subtractSpans allow deny).
Proof.
  intros [Hwa Hsa] Hwd. unfold subtractSpans. destruct deny as [|d0 deny0]; [by split|].
  set (deny := d0 :: deny0). assert (Hwk : Forall wf_span (sort_spans deny)) by (by rewrite sort_spans_perm).
  revert Hwk. generalize (sort_spans deny) as k. intros k Hwk.
  assert (Hc : forall a, separated (carve_span k a) /\ Forall (fun s => a.1 <= s.1 /\ s.2 <= a.2) (carve_span k a)).
  { intros a. by apply carve_from_separated. }
  split.
  - apply Forall_bind, Forall_forall. intros a Ha. apply (Hc a).
  - apply (StronglySorted_bind before (carve_span k) before); [done| |].
    + intros a _. apply (Hc a).
    + intros a b x y Hab Hx Hy. destruct (Hc a) as [_ Ha], (Hc b) as [_ Hb].
      rewrite Forall_forall in Ha, Hb. specialize (Ha x Hx). specialize (Hb y Hy).
      unfold before in *. simpl in *. lia.
Qed.

Lemma carve_from_id lo ahi deny :
  lo <= ahi -> Forall (fun d => d.2 < lo \/ ahi < d.1) deny -> carve_from lo ahi deny = [(lo, ahi)].
Proof.
  intros Hle. induction 1 as [|d deny Hd _ IH].
  - rewrite carve_from_nil. destruct (lo <=? ahi) eqn:?; bool_to_prop; [done|lia].
  - rewrite carve_from_cons. destruct (_ || _) eqn:E; [done|]. bool_to_prop. lia.
Qed.

(** Carving with a deny set that shares no port is the identity. *)
Lemma subtract_id allow deny :
  Forall wf_span allow -> Forall wf_span deny -> (forall p, covers allow p -> ~ covers deny p) ->
  subtractSpans allow deny = allow.
Proof.
  intros Hwa Hwd Hdis. unfold subtractSpans. destruct deny as [|d0 deny0]; [done|].
  set (deny := d0 :: deny0) in *.
  assert (Hd : forall a d, a ∈ allow -> d ∈ sort_spans deny -> d.2 < a.1 \/ a.2 < d.1).
  { intros a d Ha Hd. rewrite (sort_spans_perm deny) in Hd.
    rewrite Forall_forall in Hwa, Hwd. pose proof (Hwa a Ha). pose proof (Hwd d Hd).
    destruct (decide (d.2 < a.1 \/ a.2 < d.1)) as [|Hn]; [done|]. exfalso.
    apply (Hdis (Z.max a.1 d.1)); apply covers_in; [exists a|exists d]; (split; [done|]);
      unfold covers_span, wf_span in *; lia. }
  clear Hdis. induction allow as [|a allow IH]; [done|].
  apply Forall_cons in Hwa as [Hwa1 Hwa2]. cbn [mbind list_bind].
  change (carve_span (sort_spans deny) a) with (carve_from a.1 a.2 (sort_spans deny)).
  rewrite carve_from_id; [|done|].
  - simpl. destruct a. f_equal. apply IH; [done|]. intros. apply Hd; [by right|done].
  - apply Forall_forall. intros d Hin. apply Hd; [by left|done].
Qed.

(** ** Rendering *)

Definition valid_span (s : span) : Prop := 1 <= s.1 <= s.2 /\ s.2 <= maxPort.

Lemma valid_span_wf s : valid_span s -> wf_span s.
Proof. unfold valid_span, wf_span. lia. Qed.

Lemma formatSpan_parses s : valid_span s -> ParsePortSpec (formatSpan s) = Ok (Some s).
Proof.
  destruct s as [lo hi]. unfold valid_span, formatSpan. simpl. intros [H1 H2].
  destruct (Z.eqb_spec lo hi) as [->|]; [apply ParsePortSpec_Itoa; lia|].
  apply ParsePortSpec_range; lia.
Qed.

Lemma formatSpan_inj s t : valid_span s -> valid_span t -> formatSpan s = formatSpan t -> s = t.
Proof.
  intros Hs Ht E. apply (f_equal ParsePortSpec) in E.
  rewrite !formatSpan_parses in E by done. congruence.
Qed.

Lemma formatSpan_chars (q : ascii -> bool) s :
  (forall c, is_digit c = true -> q c = true) -> q "-"%char = true -> valid_span s ->
  all_chars q (formatSpan s) = true.
Proof.
  intros Hq Hd [H1 H2]. unfold formatSpan. case_match.
  - apply Itoa_not; [done|lia].
  - rewrite all_chars_append. simpl. rewrite !(Itoa_not _ q) by (done || lia). by rewrite Hd.
Qed.

(** ** Intersection *)

(** [best] is the least element of [S], or [-1] when [S] is empty. *)
Definition least (S : Z -> Prop) (best : Z) : Prop :=
  (best = -1 /\ forall q, ~ S q) \/ (0 <= best /\ S best /\ forall q, S q -> best <= q).

Lemma overlap_step_least (S T : Z -> Prop) sa sb best :
  0 <= sa.1 -> least S best ->
  (forall q, T q <-> S q \/ (covers_span sa q /\ covers_span sb q)) ->
  least T (overlap_step sa best sb).
Proof.
  intros H0 Hl HT. unfold overlap_step, least, covers_span in *.
  set (lo := if sa.1 <? sb.1 then sb.1 else sa.1).
  set (hi := if sb.2 <? sa.2 then sb.2 else sa.2).
  assert (Hlo : lo = Z.max sa.1 sb.1) by (unfold lo; case_match; bool_to_prop; lia).
  assert (Hhi : hi = Z.min sa.2 sb.2) by (unfold hi; case_match; bool_to_prop; lia).
  clearbody lo hi.
  assert (HT' : forall q, T q <-> S q \/ lo <= q <= hi) by (intros q; rewrite HT; intuition lia).
  clear HT. setoid_rewrite HT'.
  destruct ((lo <=? hi) && ((best =? -1) || (lo <? best))) eqn:E; bool_to_prop.
  - right. split; [lia|]. split; [right; lia|]. intros q [Hq|Hq]; [|lia].
    destruct Hl as [[_ Hl]|(? & ? & Hl)]; [by destruct (Hl q)|].
    specialize (Hl q Hq). destruct H1; bool_to_prop; lia.
  - destruct Hl as [[-> Hn]|(Hb & HSb & Hmin)].
    + left. split; [done|]. intros q [Hq|Hq]; [by apply (Hn q)|].
      destruct E as [E|E]; bool_to_prop; [lia|]. simpl in *. done.
    + right. split; [done|]. split; [by left|]. intros q [Hq|Hq]; [auto|].
      destruct E as [E|E]; bool_to_prop; lia.
Qed.

Lemma overlap_inner_least (S T : Z -> Prop) sa b best :
  0 <= sa.1 -> least S best ->
  (forall q, T q <-> S q \/ (covers_span sa q /\ covers b q)) ->
  least T (foldl (overlap_step sa) best b).
Proof.
  intros H0. revert S best. induction b as [|sb b IH]; intros S best Hl HT; simpl.
  - unfold least in *. setoid_rewrite HT. setoid_rewrite covers_nil. naive_solver.
  - eapply IH.
    + apply (overlap_step_least S (fun q => S q \/ (covers_span sa q /\ covers_span sb q))); done.
    + intros q. rewrite HT, covers_cons. simpl. tauto.
Qed.

Lemma overlap_least a b :
  Forall (fun s => 0 <= s.1) a ->
  least (fun q => covers a q /\ covers b q)
        (foldl (fun best sa => foldl (overlap_step sa) best b) (-1) a).
Proof.
  intros Ha.
  assert (G : forall S best, least S best ->
    least (fun q => S q \/ (covers a q /\ covers b q))
          (foldl (fun best sa => foldl (overlap_step sa) best b) best a)).
  { induction Ha as [|sa a H0 Ha IH]; intros S best Hl; simpl.
    - unfold least in *. setoid_rewrite covers_nil. naive_solver.
    - specialize (IH (fun q => S q \/ (covers_span sa q /\ covers b q)) (foldl (overlap_step sa) best b)).
      assert (Hst : least (fun q => S q \/ (covers_span sa q /\ covers b q)) (foldl (overlap_step sa) best b)).
      { by apply (overlap_inner_least S). }
      specialize (IH Hst). unfold least in *. setoid_rewrite covers_cons.
      destruct IH as [[? IH]|(? & IH & IH2)]; [left|right]; (split; [done|]).
      + intros q Hq. apply (IH q). tauto.
      + split; [tauto|]. intros q Hq. apply IH2. tauto. }
  specialize (G (fun _ => False) (-1)).
  destruct G as [[? G]|(? & G & G2)]; [left; split; [done|by intros q []]|left|right]; (split; [done|]).
  - intros q Hq. apply (G q). by right.
  - split; [tauto|]. intros q Hq. apply G2. by right.
Qed.

(** [lowestSpanOverlap] finds the lowest common port, and misses none. *)
Lemma lowestSpanOverlap_spec a b :
  Forall (fun s => 0 <= s.1) a ->
  match lowestSpanOverlap a b with
  | Some p => covers a p /\ covers b p /\ forall q, covers a q -> covers b q -> p <= q
  | None => forall q, covers a q -> ~ covers b q
  end.
Proof.
  intros Ha. pose proof (overlap_least a b Ha) as Hl. unfold lowestSpanOverlap. revert Hl.
  generalize (foldl (fun best sa => foldl (overlap_step sa) best b) (-1) a) as best.
  intros best [[-> H]|(H0 & [H1 H2] & H3)].
  - simpl. intros q H1 H2. by apply (H q).
  - destruct (Z.eqb_spec best (-1)); [lia|]. split; [done|]. split; [done|]. auto.
Qed.

End Spans.
