(* ===== verification/Rules.v ===== *)
(** * Validation, normalization and merging of single egress rules

    controlplane/firewall/rules_store.go (the per-rule part), the domain
    helpers of controlplane/firewall/coredns_config.go and the shared rule
    semantics of api/admin/v1/conversion.go. *)

From S2P Require Import Prelude GoStrings GoNet EgressRule.
Import Go Rule.

Module Rules.

(** ** Destinations (coredns_config.go) *)

Definition isIPOrCIDR (s : string) : bool :=
  bool_decide (is_Some (GoNet.ParseIP s)) || bool_decide (is_Some (GoNet.ParseCIDR s)).

Definition isCIDR (s : string) : bool :=
  if bool_decide (is_Some (GoNet.ParseIP s)) then false
  else bool_decide (is_Some (GoNet.ParseCIDR s)).

Definition normalizeDomain (d : string) : string := TrimSuffix (TrimPrefix d ".") ".".

Definition isWildcardDomain (d : string) : bool := HasPrefix d ".".

(** ** Actions and protocol classes *)

Definition isDenyAction (action : string) : bool := String.eqb (ToLower action) "deny".

Definition isAllowAction (action : string) : bool :=
  String.eqb (ToLower action) "allow" || String.eqb (ToLower action) "".

Definition isOpaqueProto (proto : string) : bool :=
  let p := ToLower proto in
  String.eqb p "tcp" || String.eqb p "ssh" || String.eqb p "udp".

Definition IsHTTPFamilyProto (proto : string) : bool :=
  let p := ToLower proto in
  String.eqb p "http" || String.eqb p "https" || String.eqb p "ws" || String.eqb p "wss".

Definition EffectivePathDefault (r : EgressRule) : string :=
  if negb (String.eqb (PathDefault r) "") then PathDefault r
  else if existsb (fun pr => EqualFold (PathAction pr) "allow") (PathRules r) then "deny"
  else "allow".

(** ** ValidateDst *)

Inductive DstError :=
  | EmptyDestination
  | InvalidDestination
  | WildcardOnIP
  | TooLong
  | LabelStartsWithHyphen
  | EmptyLabelOrHyphenEnd
  | LabelTooLong
  | UppercaseNotAllowed
  | InvalidCharacter (c : ascii)
  | TrailingEmptyLabel
  | LastLabelHyphenEnd
  | LastLabelTooLong
  | PurelyNumeric.

Definition is_label_alpha (c : ascii) : bool := is_lower c || Ascii.eqb c "_".

Fixpoint dst_loop (s : string) (last : ascii) (nonNumeric : bool) (partlen : Z)
    : result DstError (ascii * bool * Z) :=
  match s with
  | EmptyString => Ok (last, nonNumeric, partlen)
  | String c s' =>
      if is_label_alpha c then dst_loop s' c true (partlen + 1)
      else if is_digit c then dst_loop s' c nonNumeric (partlen + 1)
      else if Ascii.eqb c "-" then
        if Ascii.eqb last "." then Err LabelStartsWithHyphen
        else dst_loop s' c true (partlen + 1)
      else if Ascii.eqb c "." then
        if Ascii.eqb last "." || Ascii.eqb last "-" then Err EmptyLabelOrHyphenEnd
        else if 63 <? partlen then Err LabelTooLong
        else dst_loop s' c nonNumeric 0
      else if is_upper c then Err UppercaseNotAllowed
      else Err (InvalidCharacter c)
  end.

(** The checks after the loop. *)
Definition dst_finish (st : ascii * bool * Z) : result DstError unit :=
  let '(last, nonNumeric, partlen) := st in
  if Ascii.eqb last "." then Err TrailingEmptyLabel
  else if Ascii.eqb last "-" then Err LastLabelHyphenEnd
  else if 63 <? partlen then Err LastLabelTooLong
  else if negb nonNumeric then Err PurelyNumeric
  else Ok tt.

Definition ValidateDst (dst : string) : result DstError unit :=
  if bool_decide (dst = "") then Err EmptyDestination
  else
    let normalized := normalizeDomain dst in
    if bool_decide (normalized = "") then Err InvalidDestination
    else if isIPOrCIDR normalized then
      if HasPrefix dst "." then Err WildcardOnIP else Ok tt
    else if 253 <? Z.of_nat (String.length normalized) then Err TooLong
    else let? st := dst_loop normalized "." false 0 in dst_finish st.

(** ** ValidateRule *)

Inductive RuleError :=
  | BadDst (e : DstError)
  | BadPortSpec (e : PortSpecError)
  | BadActionField (name val : string)
  | EmptyPath
  | PathNotRooted
  | PathNotLiteral
  | RegexNotRooted
  | RegexDoesNotCompile
  | BadMethod (m : string).

(** The character class [[A-Za-z][A-Za-z-]*] of [methodTokenRe]. *)
Definition methodToken (s : string) : bool :=
  match s with
  | EmptyString => false
  | String c s' => is_letter c && all_chars (fun d => is_letter d || Ascii.eqb d "-") s'
  end.

Definition validateMethod (m : string) : result RuleError unit :=
  if methodToken (TrimSpace m) then Ok tt else Err (BadMethod m).

(** The bytes of [literalPathChars]: unreserved, sub-delims, ":@/%". *)
Definition literal_path_char (c : ascii) : bool :=
  is_letter c || is_digit c ||
  bool_decide (c ∈ (["."; "_"; "~"; "!"; "$"; "&"; "'"; "("; ")"; "*"; "+"; ",";
                     ";"; "="; ":"; "@"; "/"; "%"; "-"]%char : list ascii)).

Definition literalPathChars (s : string) : bool :=
  negb (String.eqb s "") && all_chars literal_path_char s.

Definition validateActionField (name val : string) : result RuleError unit :=
  let v := ToLower val in
  if String.eqb v "" || String.eqb v "allow" || String.eqb v "deny" then Ok tt
  else Err (BadActionField name val).

(** Run a check over a list, stopping at the first error. *)
Fixpoint check_all {A E} (f : A -> result E unit) (l : list A) : result E unit :=
  match l with
  | [] => Ok tt
  | a :: l' => check f a then check_all f l'
  end.

Section ValidateRule.
(** Go's RE2 compiler, of which only success is used. *)
Variable regexp_compiles : string -> bool.

Definition regexPathMarker : string := "~".

Definition validatePathRulePath (path : string) : result RuleError unit :=
  match strip_prefix regexPathMarker path with
  | None =>
      if negb (HasPrefix path "/") then Err PathNotRooted
      else if negb (literalPathChars path) then Err PathNotLiteral
      else Ok tt
  | Some rx =>
      if negb (HasPrefix (TrimPrefix rx "^") "/") then Err RegexNotRooted
      else if negb (regexp_compiles rx) then Err RegexDoesNotCompile
      else Ok tt
  end.

Definition validatePathRule (pr : PathRule) : result RuleError unit :=
  if String.eqb (TrimSpace (Path pr)) "" then Err EmptyPath
  else
    check validatePathRulePath (Path pr) then
    check validateActionField "path rule action" (PathAction pr) then
    check_all validateMethod (Methods pr).

Definition ValidateRule (r : EgressRule) : result RuleError unit :=
  match ValidateDst (Dst r) with
  | Err e => Err (BadDst e)
  | Ok _ =>
      match ValidatePortSpec r with
      | Err e => Err (BadPortSpec e)
      | Ok _ =>
          check validateActionField "action" (Action r) then
          check validateActionField "path_default" (PathDefault r) then
          check_all validatePathRule (PathRules r)
      end
  end.
End ValidateRule.

(** ** NormalizeRule *)

(** One step of the loop of [normalizeMethods]; the map [seen] holds the
    members of [out]. *)
Definition add_method (st : gset string * list string) (m : string) : gset string * list string :=
  let '(seen, out) := st in
  let m := ToUpper (TrimSpace m) in
  if String.eqb m "" then (seen, out)
  else if bool_decide (m ∈ seen) then (seen, out)
  else ({[m]} ∪ seen, out ++ [m]).

Definition sort_strings (l : list string) : list string := merge_sort String.le l.

Definition normalizeMethods (methods : list string) : list string :=
  sort_strings (foldl add_method (∅, []) methods).2.

Definition default_port (proto : string) : string :=
  let p := ToLower proto in
  if String.eqb p "https" || String.eqb p "wss" then "443"
  else if String.eqb p "http" || String.eqb p "ws" then "80"
  else if String.eqb p "ssh" then "22"
  else "".

Definition NormalizeRule (r : EgressRule) : EgressRule :=
  let r := if String.eqb (ToLower (Proto r)) "tls" then set_Proto r "https" else r in
  let r := if String.eqb (Proto r) "" then set_Proto r "https" else r in
  let r := if String.eqb (Action r) "" then set_Action r "allow" else r in
  let r := if String.eqb (Port r) "" then set_Port r (default_port (Proto r)) else r in
  set_PathRules r ((fun p => set_Methods p (normalizeMethods (Methods p))) <$> PathRules r).

Definition RuleKey (r : EgressRule) : string := Dst r +:+ ":" +:+ Proto r +:+ ":" +:+ Port r.

(** ** MergeRule *)

Definition index_paths (l : list PathRule) : gmap string nat :=
  foldl (fun m '(i, p) => <[Path p := i]> m) ∅ (imap pair l).

Definition merge_path (st : gmap string nat * list PathRule) (p : PathRule)
    : gmap string nat * list PathRule :=
  let '(index, out) := st in
  match index !! Path p with
  | Some i => (index, <[i := p]> out)
  | None => (<[Path p := length out]> index, out ++ [p])
  end.

Definition mergePathRules (existing incoming : list PathRule) : list PathRule :=
  match incoming with
  | [] => existing
  | _ => (foldl merge_path (index_paths existing, existing) incoming).2
  end.

Definition MergeRule (existing incoming : EgressRule) : EgressRule :=
  let out := set_Action existing (Action incoming) in
  let out :=
    if negb (String.eqb (PathDefault incoming) "") then set_PathDefault out (PathDefault incoming)
    else out in
  set_PathRules out (mergePathRules (PathRules existing) (PathRules incoming)).

(** ** Warnings *)

Inductive Warning :=
  | EmptyDomain (dst : string)
  | InvalidPort (dst proto : string) (e : PortSpecError)
  | PathRulesIgnored (what dst proto : string)
  | Coalesced (proto dst : string)
  | DenyWins (proto dst : string) (denied allowed : list (Z * Z)).

Definition pathRuleEnforcementWarning (r : EgressRule) : option Warning :=
  if IsHTTPFamilyProto (Proto r) || bool_decide (PathRules r = []) then None
  else
    let hasMethods := existsb (fun pr => negb (bool_decide (Methods pr = []))) (PathRules r) in
    Some (PathRulesIgnored (if hasMethods then "path/method rules" else "path rules") (Dst r) (Proto r)).

(** ** Method sets *)

Definition method_token (m : string) : string := ToUpper (TrimSpace m).

Lemma method_token_idemp m : method_token (method_token m) = method_token m.
Proof. unfold method_token. by rewrite TrimSpace_ToUpper, TrimSpace_idemp, ToUpper_idemp. Qed.

Lemma add_methods_inv (methods : list string) (seen : gset string) (out : list string) :
  (forall m, m ∈ seen <-> m ∈ out) -> NoDup out ->
  let out' := (foldl add_method (seen, out) methods).2 in
  NoDup out' /\
  forall m, m ∈ out' <-> m ∈ out \/ (m <> "" /\ exists m0, m0 ∈ methods /\ m = method_token m0).
Proof.
  revert seen out. induction methods as [|m0 ms IH]; intros seen out Hseen Hnd; cbn [foldl].
  - split; [done|]. intros m. set_solver.
  - assert (add_method (seen, out) m0 =
      if String.eqb (method_token m0) "" then (seen, out)
      else if bool_decide (method_token m0 ∈ seen) then (seen, out)
      else ({[method_token m0]} ∪ seen, out ++ [method_token m0])) as -> by done.
    destruct (String.eqb_spec (method_token m0) "") as [E|E].
    + destruct (IH seen out Hseen Hnd) as [H1 H2]. split; [done|]. intros m. rewrite H2. set_solver.
    + case_bool_decide as Hin.
      * destruct (IH seen out Hseen Hnd) as [H1 H2]. split; [done|]. intros m. rewrite H2.
        apply Hseen in Hin. set_solver.
      * destruct (IH ({[method_token m0]} ∪ seen) (out ++ [method_token m0])) as [H1 H2].
        -- intros m. set_solver.
        -- apply NoDup_app. split; [done|]. split; [set_solver|]. apply NoDup_singleton.
        -- split; [done|]. intros m. rewrite H2. set_solver.
Qed.

Lemma sort_strings_perm l : sort_strings l ≡ₚ l.
Proof. apply merge_sort_Permutation. Qed.

Lemma sort_strings_sorted l : StronglySorted String.le (sort_strings l).
Proof. apply StronglySorted_merge_sort; apply _. Qed.

Lemma normalizeMethods_spec methods :
  NoDup (normalizeMethods methods) /\ StronglySorted String.le (normalizeMethods methods) /\
  forall m, m ∈ normalizeMethods methods <->
            m <> "" /\ exists m0, m0 ∈ methods /\ m = method_token m0.
Proof.
  unfold normalizeMethods. destruct (add_methods_inv methods ∅ []) as [H1 H2]; [set_solver|constructor|].
  split; [by rewrite sort_strings_perm|]. split; [apply sort_strings_sorted|].
  intros m. rewrite sort_strings_perm, H2. set_solver.
Qed.

Lemma normalizeMethods_tokens l : normalizeMethods (normalizeMethods l) = normalizeMethods l.
Proof.
  destruct (normalizeMethods_spec l) as (H1 & H2 & H3).
  destruct (normalizeMethods_spec (normalizeMethods l)) as (K1 & K2 & K3).
  apply (StronglySorted_unique String.le); [done..|]. apply NoDup_Permutation; [done..|].
  intros m. rewrite K3. split.
  - intros (Hm & m0 & Hm0 & ->). apply H3 in Hm0 as (? & m1 & ? & ->). rewrite method_token_idemp.
    apply H3. split; [done|]. by exists m1.
  - intros Hm. pose proof (proj1 (H3 m) Hm) as (Hne & m0 & Hm0 & ->). split; [done|].
    exists (method_token m0). by rewrite method_token_idemp.
Qed.

(** ** NormalizeRule *)

Lemma NormalizeRule_fields r :
  Dst (NormalizeRule r) = Dst r /\ PathDefault (NormalizeRule r) = PathDefault r /\
  InsecureSkipTLSVerify (NormalizeRule r) = InsecureSkipTLSVerify r.
Proof. unfold NormalizeRule. repeat case_match; done. Qed.

Definition normal_proto (p : string) : string :=
  if String.eqb (ToLower p) "tls" then "https" else if String.eqb p "" then "https" else p.

Lemma NormalizeRule_eq r :
  NormalizeRule r =
    mkRule (Dst r) (normal_proto (Proto r))
      (if String.eqb (Port r) "" then default_port (normal_proto (Proto r)) else Port r)
      (if String.eqb (Action r) "" then "allow" else Action r)
      ((fun p => set_Methods p (normalizeMethods (Methods p))) <$> PathRules r)
      (PathDefault r) (InsecureSkipTLSVerify r).
Proof.
  unfold NormalizeRule, normal_proto.
  destruct (String.eqb (ToLower (Proto r)) "tls") eqn:E1; simpl;
    destruct (String.eqb (Proto r) "") eqn:E2; simpl;
    destruct (String.eqb (Action r) "") eqn:E3; simpl;
    destruct (String.eqb (Port r) "") eqn:E4; simpl; try done.
Qed.

Lemma normal_proto_idemp p : normal_proto (normal_proto p) = normal_proto p.
Proof.
  unfold normal_proto. destruct (String.eqb (ToLower p) "tls") eqn:E1; [done|].
  destruct (String.eqb p "") eqn:E2; [done|]. by rewrite E1, E2.
Qed.

Lemma NormalizeRule_twice r : NormalizeRule (NormalizeRule r) = NormalizeRule r.
Proof.
  rewrite (NormalizeRule_eq (NormalizeRule r)), (NormalizeRule_eq r). cbn [Dst Proto Port Action PathRules PathDefault InsecureSkipTLSVerify].
  rewrite normal_proto_idemp. f_equal.
  - destruct (String.eqb (Port r) "") eqn:E; [|by rewrite E].
    destruct (String.eqb (default_port (normal_proto (Proto r))) "") eqn:E2; [|done]. done.
  - destruct (String.eqb (Action r) "") eqn:E; [done|]. by rewrite E.
  - rewrite <- list_fmap_compose. apply list_fmap_ext. intros i p Hp. simpl.
    unfold set_Methods. simpl. by rewrite normalizeMethods_tokens.
Qed.

(** ** Merging path rules *)

(** The map [index] locates exactly the paths of [out]. *)
Definition keyed (index : gmap string nat) (out : list PathRule) : Prop :=
  forall path i, index !! path = Some i <-> exists p, out !! i = Some p /\ Path p = path.

Lemma index_paths_snoc l x : index_paths (l ++ [x]) = <[Path x := length l]> (index_paths l).
Proof. unfold index_paths. rewrite imap_app, foldl_app. simpl. by rewrite Nat.add_0_r. Qed.

Lemma keyed_snoc index out p :
  keyed index out -> index !! Path p = None -> keyed (<[Path p := length out]> index) (out ++ [p]).
Proof.
  intros Hk Hn path i. destruct (decide (Path p = path)) as [<-|Hne].
  - rewrite lookup_insert_eq. split.
    + intros [= <-]. exists p. by rewrite list_lookup_middle.
    + intros (q & Hq & Hp). destruct (decide (i < length out)%nat).
      * rewrite lookup_app_l in Hq by done. rewrite (proj2 (Hk (Path p) i)) in Hn by eauto. done.
      * apply lookup_lt_Some in Hq. rewrite length_app in Hq. simpl in Hq. f_equal. lia.
  - rewrite lookup_insert_ne by done. rewrite (Hk path i). split; intros (q & Hq & Hp); exists q; (split; [|done]).
    + rewrite lookup_app_l; [done|]. by eapply lookup_lt_Some.
    + destruct (decide (i < length out)%nat); [by rewrite lookup_app_l in Hq|].
      rewrite lookup_app_r in Hq by lia. destruct (i - length out)%nat as [|j]; [by simplify_eq/=|done].
Qed.

Lemma keyed_none index out path : keyed index out -> index !! path = None <-> path ∉ Path <$> out.
Proof.
  intros Hk. split.
  - intros Hn Hin. apply list_elem_of_fmap in Hin as (p & -> & Hp).
    apply list_elem_of_lookup in Hp as (i & Hi). rewrite (proj2 (Hk (Path p) i)) in Hn; [done|eauto].
  - intros Hn. destruct (index !! path) as [i|] eqn:E; [|done]. apply Hk in E as (p & Hp & <-).
    exfalso. apply Hn, list_elem_of_fmap. exists p. split; [done|]. by eapply list_elem_of_lookup_2.
Qed.

Lemma index_paths_keyed l : NoDup (Path <$> l) -> keyed (index_paths l) l.
Proof.
  induction l as [|p l IH] using rev_ind; intros Hnd.
  - intros path i. unfold index_paths. simpl. rewrite lookup_empty. naive_solver.
  - rewrite fmap_app in Hnd. apply NoDup_app in Hnd as (Hnd & Hdis & _).
    rewrite index_paths_snoc. apply keyed_snoc; [by apply IH|].
    apply (keyed_none _ l); [by apply IH|]. intros Hin. apply (Hdis _ Hin). set_solver.
Qed.

Lemma keyed_insert index out p i :
  keyed index out -> index !! Path p = Some i -> keyed index (<[i := p]> out).
Proof.
  intros Hk Hi path j. rewrite (Hk path j). destruct (proj1 (Hk _ _) Hi) as (p0 & Hp0 & E0).
  destruct (decide (i = j)) as [<-|Hne].
  - rewrite list_lookup_insert_eq by (by eapply lookup_lt_Some). naive_solver.
  - by rewrite list_lookup_insert_ne.
Qed.

Lemma merge_path_step index out p :
  keyed index out ->
  let st := merge_path (index, out) p in
  keyed st.1 st.2 /\
  (Path <$> out) `prefix_of` (Path <$> st.2) /\
  forall q, q ∈ st.2 <-> q = p \/ (q ∈ out /\ Path q <> Path p).
Proof.
  intros Hk. simpl. destruct (index !! Path p) as [i|] eqn:E; simpl.
  - destruct (proj1 (Hk _ _) E) as (p0 & Hp0 & E0).
    pose proof (lookup_lt_Some _ _ _ Hp0) as Hlt. split; [by apply keyed_insert|]. split.
    + rewrite list_fmap_insert, list_insert_id; [done|]. by rewrite list_lookup_fmap, Hp0, <- E0.
    + intros q. split.
      * intros Hq. apply list_elem_of_lookup in Hq as (j & Hj). destruct (decide (i = j)) as [<-|Hne].
        -- rewrite list_lookup_insert_eq in Hj by done. simplify_eq. by left.
        -- rewrite list_lookup_insert_ne in Hj by done. right. split; [by eapply list_elem_of_lookup_2|].
           intros Eq. apply Hne. rewrite (proj2 (Hk (Path p) j)) in E by eauto. by simplify_eq.
      * intros [->|[Hq Hne]]; [apply list_elem_of_insert; lia|].
        apply list_elem_of_lookup in Hq as (j & Hj). apply (list_elem_of_lookup_2 _ j).
        rewrite list_lookup_insert_ne; [done|]. intros ->. simplify_eq.
  - split; [by apply keyed_snoc|]. split.
    + rewrite fmap_app. by eexists.
    + intros q. rewrite elem_of_app, list_elem_of_singleton.
      apply (keyed_none _ _ _ Hk) in E. split; [|naive_solver]. intros [Hq| ->]; [|by left].
      right. split; [done|]. intros Eq. apply E. rewrite <- Eq. by apply list_elem_of_fmap_2.
Qed.

(** The last rule of [l] for a path: what a caller who writes a path twice
    means. *)
Definition last_by_path (l : list PathRule) (path : string) : option PathRule :=
  last (filter (fun p => Path p = path) l).

Lemma last_by_path_cons p l path :
  last_by_path (p :: l) path =
    match last_by_path l path with
    | Some q => Some q
    | None => if decide (Path p = path) then Some p else None
    end.
Proof.
  unfold last_by_path. rewrite filter_cons. destruct (decide (Path p = path)).
  - rewrite last_cons. done.
  - by destruct (last _).
Qed.

Lemma last_by_path_None l path : last_by_path l path = None <-> path ∉ Path <$> l.
Proof.
  induction l as [|p l IH]; [set_solver|]. rewrite last_by_path_cons.
  rewrite fmap_cons, not_elem_of_cons. destruct (last_by_path l path) as [q|].
  - naive_solver.
  - destruct (decide (Path p = path)); naive_solver.
Qed.

Lemma merge_paths_fold index out incoming :
  keyed index out ->
  let st := foldl merge_path (index, out) incoming in
  keyed st.1 st.2 /\ (Path <$> out) `prefix_of` (Path <$> st.2) /\
  forall q, q ∈ st.2 <->
    last_by_path incoming (Path q) = Some q \/ (q ∈ out /\ Path q ∉ Path <$> incoming).
Proof.
  revert index out. induction incoming as [|p ms IH]; intros index out Hk; cbn [foldl].
  - split; [done|]. split; [done|]. intros q. set_solver.
  - destruct (merge_path_step index out p Hk) as (Hk1 & Hpre & Hin).
    destruct (merge_path (index, out) p) as [index1 out1]. simpl in *.
    destruct (IH index1 out1 Hk1) as (Hk2 & Hpre2 & Hin2). split; [done|]. split; [by etrans|].
    intros q. rewrite Hin2, Hin, last_by_path_cons, not_elem_of_cons.
    destruct (last_by_path ms (Path q)) as [q'|] eqn:E.
    + assert (Path q ∈ Path <$> ms).
      { destruct (decide (Path q ∈ Path <$> ms)) as [|Hn]; [done|].
        apply last_by_path_None in Hn. congruence. }
      tauto.
    + apply last_by_path_None in E. destruct (decide (Path p = Path q)); naive_solver.
Qed.

Lemma keyed_NoDup index out : keyed index out -> NoDup (Path <$> out).
Proof.
  intros Hk. apply NoDup_alt. intros i j path Hi Hj.
  rewrite list_lookup_fmap_Some in Hi, Hj. destruct Hi as (p & -> & Hi), Hj as (q & Hpq & Hj).
  pose proof (proj2 (Hk (Path p) i) (ex_intro _ p (conj Hi eq_refl))).
  pose proof (proj2 (Hk (Path p) j) (ex_intro _ q (conj Hj (eq_sym Hpq)))). congruence.
Qed.

End Rules.
