(* ===== verification/DstSyntax.v ===== *)
(** * What a valid destination is

    A declarative grammar of destination names and the proof that the
    single-pass scanner [ValidateDst] (controlplane/firewall/rules_store.go)
    accepts exactly that grammar. *)

From S2P Require Import Prelude GoStrings GoNet EgressRule Rules.
Import Go Rule Rules.

Module DstSyntax.

(** ** The grammar *)

(** The labels of a dotted name. *)
Fixpoint split_dots (s : string) : list string :=
  match s with
  | EmptyString => [""]
  | String c s' =>
      if Ascii.eqb c "." then "" :: split_dots s'
      else match split_dots s' with
           | l :: ls => String c l :: ls
           | [] => [String c ""]
           end
  end.

Definition label_char (c : ascii) : bool := is_label_alpha c || is_digit c || Ascii.eqb c "-".

Definition first_char (s : string) : option ascii :=
  match s with String c _ => Some c | EmptyString => None end.
Definition last_char (s : string) : option ascii := first_char (String.rev s).

(** One to 63 lowercase letters, digits, underscores or hyphens, with no
    hyphen at either end. *)
Record valid_label (l : string) : Prop := {
  label_nonempty : l <> "";
  label_short : Z.of_nat (String.length l) <= 63;
  label_chars : all_chars label_char l = true;
  label_first : first_char l <> Some "-"%char;
  label_last : last_char l <> Some "-"%char;
}.

Definition non_numeric (c : ascii) : bool := is_label_alpha c || Ascii.eqb c "-".
Fixpoint has_char (p : ascii -> bool) (s : string) : bool :=
  match s with EmptyString => false | String c s' => p c || has_char p s' end.

Definition valid_domain (n : string) : Prop :=
  Z.of_nat (String.length n) <= 253 /\ Forall valid_label (split_dots n) /\
  has_char non_numeric n = true.

(** ** The scanner state *)

Definition prepend (cur : string) (ls : list string) : list string :=
  match ls with l :: ls' => (cur +:+ l) :: ls' | [] => [cur] end.

(** [cur] is the part of the current label already read and [last] the byte
    before the cursor. *)
Definition scanning (cur : string) (last : ascii) : Prop :=
  (cur = "" /\ last = "."%char) \/
  (last_char cur = Some last /\ all_chars label_char cur = true /\ first_char cur <> Some "-"%char).

Lemma split_dots_cons s : exists l ls, split_dots s = l :: ls.
Proof. destruct s as [|c s]; simpl; [eauto|]. destruct (Ascii.eqb c "."); [eauto|]. destruct (split_dots s); eauto. Qed.

Lemma length_append s t : String.length (s +:+ t) = (String.length s + String.length t)%nat.
Proof.
  induction s as [|c s IH]; [done|]. change (String c s +:+ t) with (String c (s +:+ t)).
  simpl. by rewrite IH.
Qed.

Lemma last_char_snoc s c : last_char (s +:+ String c "") = Some c.
Proof. unfold last_char. by rewrite rev_append. Qed.

Lemma first_char_append s t : s <> "" -> first_char (s +:+ t) = first_char s.
Proof. by destruct s. Qed.

Lemma append_cons s c t : s +:+ String c t = (s +:+ String c "") +:+ t.
Proof. by rewrite <- append_assoc. Qed.

Lemma label_char_not_dot c : label_char c = true -> Ascii.eqb c "." = false.
Proof. destruct c as [[][][][][][][][]]; vm_compute; naive_solver. Qed.

Lemma scanning_snoc cur last c :
  scanning cur last -> label_char c = true -> (cur = "" -> c <> "-"%char) ->
  scanning (cur +:+ String c "") c.
Proof.
  intros Hs Hc Hh. right. split; [apply last_char_snoc|]. split.
  - rewrite all_chars_append. cbn [all_chars]. rewrite Hc. destruct Hs as [[-> _]|(_ & -> & _)]; done.
  - destruct (decide (cur = "")) as [->|Hne].
    + unfold String.app. simpl. intros [= ->]. by apply Hh.
    + rewrite first_char_append by done. destruct Hs as [[? _]|(_ & _ & ?)]; done.
Qed.

Lemma scanning_last_dot cur last : scanning cur last -> Ascii.eqb last "." = true <-> cur = "".
Proof.
  intros [[-> ->]|(Hl & Hc & _)]; [done|]. split; [|by intros ->].
  intros E. exfalso. destruct cur as [|d cur _] using (fun P => string_ind P); [done|].
  assert (label_char last = true); [|by rewrite (label_char_not_dot last) in E].
  unfold last_char in Hl. destruct (String.rev (String d cur)) as [|e u] eqn:Er; [done|].
  simpl in Hl. simplify_eq. rewrite <- all_chars_rev, Er in Hc. simpl in Hc. by apply andb_true_iff in Hc as [? _].
Qed.

(** A label [cur ++ rest] with a bad head cannot be valid. *)
Lemma bad_head (ls : list string) (nn : Prop) l :
  ~ valid_label l -> ~ (Forall valid_label (l :: ls) /\ nn).
Proof. intros Hb [H _]. by apply Forall_cons in H as [? _]. Qed.

Lemma label_finish cur last :
  scanning cur last ->
  valid_label cur <->
  Ascii.eqb last "." = false /\ Ascii.eqb last "-" = false /\ Z.of_nat (String.length cur) <= 63.
Proof.
  intros Hs. pose proof (scanning_last_dot cur last Hs) as Hdot. split.
  - intros [Hne Hlen Hch Hf Hl]. destruct Hs as [[? _]|(Hlast & _ & _)]; [done|].
    split; [by destruct (Ascii.eqb last "."); [exfalso; by apply Hne, Hdot|]|].
    split; [|done]. destruct (Ascii.eqb_spec last "-") as [->|]; [|done]. by rewrite Hlast in Hl.
  - intros (H1 & H2 & H3). destruct Hs as [[_ ->]|(Hlast & Hch & Hf)]; [done|].
    split; [|done..|].
    + intros ->. by rewrite (proj2 Hdot eq_refl) in H1.
    + rewrite Hlast. intros [= ->]. done.
Qed.

(** What is left to show for a character [c] that belongs to the label. *)
Lemma bad_char cur c l : label_char c = false -> ~ valid_label (cur +:+ String c l).
Proof.
  intros Hc [_ _ Hch _ _]. rewrite all_chars_append in Hch. cbn [all_chars] in Hch. by rewrite Hc, andb_false_r in Hch.
Qed.

Lemma length_snoc cur c : Z.of_nat (String.length cur) + 1 = Z.of_nat (String.length (cur +:+ String c "")).
Proof. rewrite length_append. simpl. lia. Qed.

Lemma scan_correct s cur last nn :
  scanning cur last ->
  (let? st := dst_loop s last nn (Z.of_nat (String.length cur)) in dst_finish st) = Ok tt <->
  Forall valid_label (prepend cur (split_dots s)) /\ (nn || has_char non_numeric s) = true.
Proof.
  revert cur last nn. induction s as [|c s IH]; intros cur last nn Hs.
  - simpl. rewrite append_nil_r, Forall_singleton, orb_false_r, (label_finish cur last Hs).
    destruct (Ascii.eqb last "."), (Ascii.eqb last "-"); simpl; try naive_solver.
    destruct (63 <? _) eqn:E; bool_to_prop; [split; [done|]; intros; lia|].
    destruct nn; simpl; naive_solver.
  - cbn [dst_loop split_dots has_char].
    destruct (split_dots_cons s) as (l & ls & Hsp).
    assert (Hgo : forall nn', label_char c = true -> (cur = "" -> c <> "-"%char) ->
      (let? st := dst_loop s c nn' (Z.of_nat (String.length cur) + 1) in dst_finish st) = Ok tt <->
      Forall valid_label ((cur +:+ String c l) :: ls) /\ (nn' || has_char non_numeric s) = true).
    { intros nn' Hc Hh. rewrite (length_snoc cur c), IH by (by eapply scanning_snoc). by rewrite Hsp, (append_cons cur c l). }
    unfold non_numeric at 1.
    destruct (is_label_alpha c) eqn:Ea.
    { rewrite (label_char_not_dot c) by (unfold label_char; by rewrite Ea). rewrite Hsp.
      rewrite Hgo; [|unfold label_char; by rewrite Ea|intros _ ->; done].
      simpl. by rewrite orb_true_r. }
    destruct (is_digit c) eqn:Ed.
    { rewrite (label_char_not_dot c) by (unfold label_char; by rewrite Ed, orb_true_r). rewrite Hsp.
      rewrite Hgo; [|unfold label_char; by rewrite Ed, orb_true_r|intros _ ->; done].
      destruct (Ascii.eqb_spec c "-") as [->|]; [done|]. done. }
    destruct (Ascii.eqb_spec c "-") as [->|Hnd].
    { cbn [Ascii.eqb Bool.eqb]. rewrite Hsp. cbn [prepend].
      destruct (Ascii.eqb last ".") eqn:El.
      - split; [done|]. intros H. exfalso. revert H. apply bad_head. intros [_ _ _ Hf _].
        apply (scanning_last_dot cur last Hs) in El. subst cur. done.
      - rewrite Hgo; [by rewrite orb_true_r|done|]. intros ->.
        by rewrite (proj2 (scanning_last_dot "" last Hs) eq_refl) in El. }
    destruct (Ascii.eqb_spec c ".") as [->|Hnp].
    { cbn [prepend]. rewrite append_nil_r, Forall_cons, (label_finish cur last Hs).
      destruct (Ascii.eqb last ".") eqn:El; simpl; [naive_solver|].
      destruct (Ascii.eqb last "-") eqn:Eh; simpl; [naive_solver|].
      destruct (63 <? _) eqn:E63; bool_to_prop; [split; [done|]; intros; lia|].
      change 0 with (Z.of_nat (String.length "")). rewrite IH by (by left).
      rewrite Hsp. simpl. unfold String.app at 1. simpl. naive_solver. }
    rewrite Hsp. cbn [prepend].
    assert (label_char c = false) as Hc.
    { unfold label_char. rewrite Ea, Ed. destruct (Ascii.eqb_spec c "-"); done. }
    destruct (is_upper c); (split; [done|]; intros H; exfalso; revert H; by apply bad_head, bad_char).
Qed.

Lemma scan_domain n :
  (let? st := dst_loop n "." false 0 in dst_finish st) = Ok tt <->
  Forall valid_label (split_dots n) /\ has_char non_numeric n = true.
Proof.
  rewrite (scan_correct n "" "." false) by (by left).
  destruct (split_dots_cons n) as (l & ls & ->). done.
Qed.

(** The single-pass validator accepts exactly two kinds of destination:
    an IP address or range written without the wildcard dot, and a domain name
    (one wildcard or trailing dot aside) of at most 253 characters whose labels
    are one to 63 lowercase letters, digits, underscores or inner hyphens and
    which is not purely numeric. *)
Theorem ValidateDst_spec dst :
  ValidateDst dst = Ok tt <->
  if isIPOrCIDR (normalizeDomain dst) then HasPrefix dst "." = false else valid_domain (normalizeDomain dst).
Proof.
  unfold ValidateDst, valid_domain. case_bool_decide as H1.
  { subst dst. split; [done|]. by intros (_ & [[Hne _ _ _ _] _]%Forall_cons & _). }
  cbn zeta. case_bool_decide as H2.
  { rewrite H2. split; [done|]. by intros (_ & [[Hne _ _ _ _] _]%Forall_cons & _). }
  destruct (isIPOrCIDR (normalizeDomain dst)); [by destruct (HasPrefix dst ".")|].
  destruct (253 <? _) eqn:E; bool_to_prop; [split; [done|]; intros (? & _); lia|].
  rewrite scan_domain. naive_solver.
Qed.

End DstSyntax.
