(* ===== verification/Conflicts.v ===== *)
(** * Resolving a rule set: dedup, coalescing and deny-wins carving

    [NormalizeAndDedup], [resolveOpaquePortConflicts] and
    [rulesCanonicalEqual] of controlplane/firewall/rules_store.go: every
    reader of the rules store canonicalizes through them. *)

From S2P Require Import Prelude GoStrings GoNet EgressRule Spans Rules.
Import Go Rule Spans Rules.

Module Conflicts.

(** ** resolveOpaquePortConflicts *)

Record group := mkGroup {
  allowTmpl : option EgressRule;
  denyTmpl : option EgressRule;
  allowSpans : list span;
  denySpans : list span;
}.

Definition empty_group : group := mkGroup None None [] [].

(** An emission slot: a rule passed through, or the place of a group. *)
Inductive slot :=
  | VerbatimSlot (r : EgressRule)
  | GroupSlot (key : string).

#[global] Instance slot_eq_dec : EqDecision slot.
Proof. solve_decision. Defined.

Definition nul : string := String "000" "".

Definition group_key (r : EgressRule) : string :=
  normalizeDomain (Dst r) +:+ nul +:+ ToLower (Proto r).

(** The span of a rule that takes part in conflict resolution. *)
Definition opaque_span (r : EgressRule) : option span :=
  if isOpaqueProto (Proto r) then PortSpan r else None.

Definition first_tmpl (t : option EgressRule) (r : EgressRule) : option EgressRule :=
  match t with Some _ => t | None => Some r end.

Definition add_to_group (g : group) (r : EgressRule) (sp : span) : group :=
  if isDenyAction (Action r)
  then mkGroup (allowTmpl g) (first_tmpl (denyTmpl g) r) (allowSpans g) (denySpans g ++ [sp])
  else mkGroup (first_tmpl (allowTmpl g) r) (denyTmpl g) (allowSpans g ++ [sp]) (denySpans g).

Definition collect_step (st : gmap string group * list slot) (r : EgressRule)
    : gmap string group * list slot :=
  let '(groups, order) := st in
  match opaque_span r with
  | None => (groups, order ++ [VerbatimSlot r])
  | Some sp =>
      let key := group_key r in
      match groups !! key with
      | Some g => (<[key := add_to_group g r sp]> groups, order)
      | None => (<[key := add_to_group empty_group r sp]> groups, order ++ [GroupSlot key])
      end
  end.

Definition collect (rules : list EgressRule) : gmap string group * list slot :=
  foldl collect_step (∅, []) rules.

(** The ports of the single-port spans. *)
Definition allowSingles (mergedAllow : list span) : gset Z :=
  list_to_set (fst <$> filter (fun sp => sp.1 = sp.2) mergedAllow).

(** The deny spans that carve: all but the all-single clashes, which are
    left for the generator to reject. *)
Definition carveDeny (mergedAllow mergedDeny : list span) : list span :=
  filter (fun sp => ~ (sp.1 = sp.2 /\ sp.1 ∈ allowSingles mergedAllow)) mergedDeny.

Definition allowOut (mergedAllow mergedDeny : list span) : list span :=
  subtractSpans mergedAllow (carveDeny mergedAllow mergedDeny).

(** Rules for [spans] on a template.  A group with spans has a template, see
    [collect_templates]. *)
Definition stamp (tmpl : option EgressRule) (spans : list span) : list EgressRule :=
  match tmpl with
  | Some t => (fun sp => set_Port t (formatSpan sp)) <$> spans
  | None => []
  end.

Definition emit_group (g : group) : list EgressRule :=
  let mergedDeny := mergeOverlappingSpans (denySpans g) in
  let mergedAllow := mergeOverlappingSpans (allowSpans g) in
  stamp (denyTmpl g) mergedDeny ++ stamp (allowTmpl g) (allowOut mergedAllow mergedDeny).

Definition group_warnings (g : group) : list Warning :=
  let mergedDeny := mergeOverlappingSpans (denySpans g) in
  let mergedAllow := mergeOverlappingSpans (allowSpans g) in
  let out := allowOut mergedAllow mergedDeny in
  let '(dst, proto) :=
    match denyTmpl g, allowTmpl g with
    | Some t, _ => (Dst t, ToLower (Proto t))
    | None, Some t => (Dst t, ToLower (Proto t))
    | None, None => ("", "")
    end in
  (if mergedSpansChanged (allowSpans g) mergedAllow || mergedSpansChanged (denySpans g) mergedDeny
   then [Coalesced proto dst] else []) ++
  (if negb (bool_decide (mergedDeny = [])) && negb (spansEqual mergedAllow out)
   then [DenyWins proto dst mergedDeny out] else []).

Definition emit_slot (groups : gmap string group) (s : slot) : list EgressRule :=
  match s with
  | VerbatimSlot r => [r]
  | GroupSlot key => from_option emit_group [] (groups !! key)
  end.

Definition slot_warnings (groups : gmap string group) (s : slot) : list Warning :=
  match s with
  | VerbatimSlot _ => []
  | GroupSlot key => from_option group_warnings [] (groups !! key)
  end.

Definition resolveOpaquePortConflicts (rules : list EgressRule) : list EgressRule * list Warning :=
  let '(groups, order) := collect rules in
  (order ≫= emit_slot groups, order ≫= slot_warnings groups).

(** ** NormalizeAndDedup *)

Definition ActionKey (r : EgressRule) : string :=
  RuleKey r +:+ nul +:+ (if isDenyAction (Action r) then "deny" else "allow").

Record dedup_state := mkDedup {
  dd_seen : gset string;
  dd_out : list EgressRule;
  dd_warnings : list Warning;
}.

Definition dedup_step (st : dedup_state) (r : EgressRule) : dedup_state :=
  let r := NormalizeRule r in
  if String.eqb (normalizeDomain (Dst r)) "" then
    mkDedup (dd_seen st) (dd_out st) (dd_warnings st ++ [EmptyDomain (Dst r)])
  else
    match ValidatePortSpec r with
    | Err e => mkDedup (dd_seen st) (dd_out st) (dd_warnings st ++ [InvalidPort (Dst r) (Proto r) e])
    | Ok _ =>
        let warnings := dd_warnings st ++ option_list (pathRuleEnforcementWarning r) in
        let key := ActionKey r in
        if bool_decide (key ∈ dd_seen st) then mkDedup (dd_seen st) (dd_out st) warnings
        else mkDedup ({[key]} ∪ dd_seen st) (dd_out st ++ [r]) warnings
    end.

Definition dedup (rules : list EgressRule) : dedup_state :=
  foldl dedup_step (mkDedup ∅ [] []) rules.

Definition NormalizeAndDedup (rules : list EgressRule) : list EgressRule * list Warning :=
  let st := dedup rules in
  let '(out, resolveWarnings) := resolveOpaquePortConflicts (dd_out st) in
  (out, dd_warnings st ++ resolveWarnings).

(** The canonical form every reader of the store works with. *)
Definition canonical (rules : list EgressRule) : list EgressRule := (NormalizeAndDedup rules).1.

(** ** rulesCanonicalEqual *)

Definition key_le (a b : EgressRule) : Prop := String.le (ActionKey a) (ActionKey b).
#[global] Instance key_le_dec : RelDecision key_le.
Proof. intros a b. unfold key_le. apply _. Defined.

(** [sort.Slice] on the action key; canonical rule sets have no equal keys,
    where the order of [sort.Slice] would be unspecified. *)
Definition sort_rules (l : list EgressRule) : list EgressRule := merge_sort key_le l.

Definition rulesCanonicalEqual (a b : list EgressRule) : bool :=
  if negb (length a =? length b)%nat then false else bool_decide (sort_rules a = sort_rules b).

(** ** Span-level meaning of a group *)

Lemma elem_allowSingles l p : p ∈ allowSingles l <-> (p, p) ∈ l.
Proof.
  unfold allowSingles. rewrite elem_of_list_to_set, list_elem_of_fmap. split.
  - intros ([a b] & -> & Hin). apply list_elem_of_filter in Hin as [E Hin]. simpl in *. by subst.
  - intros H. exists (p, p). split; [done|]. by apply list_elem_of_filter.
Qed.

Lemma carveDeny_covers allow deny p :
  separated deny ->
  covers (carveDeny allow deny) p <-> covers deny p /\ ~ ((p, p) ∈ deny /\ (p, p) ∈ allow).
Proof.
  intros Hsep. rewrite !covers_in. unfold carveDeny. split.
  - intros (d & Hd & Hc). apply list_elem_of_filter in Hd as [Hn Hd]. split; [by exists d|].
    intros [Hpd Hpa]. apply Hn. assert (d = (p, p)) as ->.
    { eapply separated_unique; [done..|]. unfold covers_span. simpl. lia. }
    split; [done|]. by apply elem_allowSingles.
  - intros [(d & Hd & Hc) Hn]. exists d. split; [|done]. apply list_elem_of_filter. split; [|done].
    intros [E Hs]. apply elem_allowSingles in Hs. destruct d as [a b]. simpl in *.
    assert (a = p) as -> by (unfold covers_span in Hc; simpl in Hc; lia). subst b. tauto.
Qed.

Lemma allowOut_covers allow deny p :
  Forall wf_span allow -> Forall wf_span deny ->
  covers (allowOut (mergeOverlappingSpans allow) (mergeOverlappingSpans deny)) p <->
  covers allow p /\ (~ covers deny p \/ (only_single allow p /\ only_single deny p)).
Proof.
  intros Ha Hd. unfold allowOut. rewrite subtract_covers, carveDeny_covers by (by apply merge_separated).
  rewrite !merge_covers, !merge_single by done.
  assert (Hdec : Decision (only_single allow p /\ only_single deny p)).
  { destruct (decide ((p, p) ∈ mergeOverlappingSpans allow)) as [H1|H1];
    destruct (decide ((p, p) ∈ mergeOverlappingSpans deny)) as [H2|H2];
      rewrite merge_single in H1, H2 by done; [left|right..]; tauto. }
  destruct Hdec; unfold only_single in *; tauto.
Qed.

Lemma carveDeny_wf allow deny : Forall wf_span deny -> Forall wf_span (carveDeny allow deny).
Proof.
  rewrite !Forall_forall. unfold carveDeny. intros H d Hd. apply list_elem_of_filter in Hd as [_ Hd]. auto.
Qed.

Lemma allowOut_separated allow deny : separated allow -> Forall wf_span deny -> separated (allowOut allow deny).
Proof. intros Ha Hd. apply subtract_separated; [done|]. by apply carveDeny_wf. Qed.

(** A clashing single port is carried through the carve. *)
Lemma allowOut_single allow deny p :
  Forall wf_span deny -> (p, p) ∈ allow -> ~ covers (carveDeny allow deny) p -> (p, p) ∈ allowOut allow deny.
Proof.
  intros Hw Hin Hn. unfold allowOut, subtractSpans. pose proof (carveDeny_wf allow deny Hw) as Hw'.
  destruct (carveDeny allow deny) as [|d0 k0] eqn:E; [done|]. rewrite <- E in *. clear E d0 k0.
  apply list_elem_of_bind. exists (p, p). split; [|done].
  change (carve_span ?k (p, p)) with (carve_from p p k). rewrite carve_from_id; [by left|lia|].
  apply Forall_forall. intros d Hd. rewrite (sort_spans_perm _) in Hd.
  destruct (decide (d.2 < p \/ p < d.1)); [done|]. exfalso. apply Hn, covers_in. exists d.
  split; [done|]. unfold covers_span. lia.
Qed.

(** Resolving resolved spans changes nothing. *)
Lemma allowOut_idemp allow deny :
  separated allow -> separated deny ->
  allowOut (allowOut allow deny) deny = allowOut allow deny.
Proof.
  intros Ha Hd. pose proof (allowOut_separated allow deny Ha (proj1 Hd)) as Hs.
  unfold allowOut at 1. apply subtract_id; [apply Hs|apply carveDeny_wf, Hd|].
  intros p Hp Hc. apply carveDeny_covers in Hc as [Hcd Hn]; [|done]. apply Hn.
  unfold allowOut in Hp. apply subtract_covers in Hp as [Hpa Hnc].
  assert (Hclash : (p, p) ∈ deny /\ (p, p) ∈ allow).
  { rewrite carveDeny_covers in Hnc by done.
    destruct (decide ((p, p) ∈ deny)), (decide ((p, p) ∈ allow)); tauto. }
  split; [apply Hclash|]. apply allowOut_single; [apply Hd|apply Hclash|done].
Qed.

(** ** What the collecting loop computes *)

Definition in_group (k : string) (r : EgressRule) : Prop :=
  is_Some (opaque_span r) /\ group_key r = k.
#[global] Instance in_group_dec k r : Decision (in_group k r).
Proof. unfold in_group. apply _. Defined.

Definition members (k : string) (rules : list EgressRule) : list EgressRule :=
  filter (in_group k) rules.

Definition with_action (deny : bool) (ms : list EgressRule) : list EgressRule :=
  filter (fun r => isDenyAction (Action r) = deny) ms.

Definition spans_of (deny : bool) (ms : list EgressRule) : list span :=
  omap opaque_span (with_action deny ms).

(** The group the loop builds for a list of member rules. *)
Definition group_of (ms : list EgressRule) : group :=
  mkGroup (head (with_action false ms)) (head (with_action true ms))
          (spans_of false ms) (spans_of true ms).

(** The emission order, in one pass. *)
Fixpoint order_of (seen : gset string) (rules : list EgressRule) : list slot :=
  match rules with
  | [] => []
  | r :: rs =>
      match opaque_span r with
      | None => VerbatimSlot r :: order_of seen rs
      | Some _ =>
          if bool_decide (group_key r ∈ seen) then order_of seen rs
          else GroupSlot (group_key r) :: order_of ({[group_key r]} ∪ seen) rs
      end
  end.

Definition keys_of (rules : list EgressRule) : gset string :=
  list_to_set (group_key <$> filter (fun r => is_Some (opaque_span r)) rules).

Lemma members_app k l1 l2 : members k (l1 ++ l2) = members k l1 ++ members k l2.
Proof. apply filter_app. Qed.
Lemma with_action_app b l1 l2 : with_action b (l1 ++ l2) = with_action b l1 ++ with_action b l2.
Proof. apply filter_app. Qed.
Lemma spans_of_app b l1 l2 : spans_of b (l1 ++ l2) = spans_of b l1 ++ spans_of b l2.
Proof. unfold spans_of. by rewrite with_action_app, omap_app. Qed.

Lemma elem_members k rules r : r ∈ members k rules <-> in_group k r /\ r ∈ rules.
Proof. apply list_elem_of_filter. Qed.

Lemma members_keys k rules : members k rules = [] <-> k ∉ keys_of rules.
Proof.
  unfold keys_of. rewrite elem_of_list_to_set. split.
  - intros E Hk. apply list_elem_of_fmap in Hk as (r & -> & [Hs Hr]%list_elem_of_filter).
    assert (r ∈ members (group_key r) rules) as H by (by apply elem_members).
    rewrite E in H. by apply elem_of_nil in H.
  - intros Hk. destruct (members k rules) as [|r ms] eqn:E; [done|]. exfalso. apply Hk.
    assert (r ∈ members k rules) as [[Hs <-] Hr]%elem_members by (rewrite E; by left).
    apply list_elem_of_fmap. exists r. split; [done|]. by apply list_elem_of_filter.
Qed.

Lemma head_app_first (l1 l2 : list EgressRule) r : first_tmpl (head l1) r = head (l1 ++ [r]).
Proof. by destruct l1. Qed.

Lemma group_of_snoc ms r sp :
  opaque_span r = Some sp -> group_of (ms ++ [r]) = add_to_group (group_of ms) r sp.
Proof.
  intros Hs. unfold group_of, add_to_group. rewrite !spans_of_app, !with_action_app.
  assert (Hsp : forall b, spans_of b [r] = if bool_decide (isDenyAction (Action r) = b) then [sp] else []).
  { intros b. unfold spans_of, with_action. rewrite filter_cons, filter_nil, decide_bool_decide.
    case_bool_decide; [|done]. simpl. by rewrite Hs. }
  assert (Hwa : forall b, with_action b [r] = if bool_decide (isDenyAction (Action r) = b) then [r] else []).
  { intros b. unfold with_action. rewrite filter_cons, filter_nil, decide_bool_decide. by case_bool_decide. }
  rewrite !Hsp, !Hwa. destruct (isDenyAction (Action r)); simpl;
    rewrite ?app_nil_r, (head_app_first _ []); done.
Qed.

Lemma order_of_snoc seen rules r :
  order_of seen (rules ++ [r]) =
    order_of seen rules ++
    match opaque_span r with
    | None => [VerbatimSlot r]
    | Some _ => if bool_decide (group_key r ∈ seen ∪ keys_of rules) then [] else [GroupSlot (group_key r)]
    end.
Proof.
  revert seen. induction rules as [|r0 rs IH]; intros seen; cbn [order_of app].
  - unfold keys_of. cbn. destruct (opaque_span r); [|done]. rewrite union_empty_r_L. done.
  - unfold keys_of. rewrite filter_cons. destruct (opaque_span r0) as [sp|] eqn:E.
    + rewrite decide_True by done. cbn [fmap list_fmap list_to_set].
      fold (keys_of rs). case_bool_decide as Hs; rewrite IH; [|rewrite <- app_comm_cons]; destruct (opaque_span r); try done.
      * clear IH; repeat case_bool_decide; try done; exfalso;
          rewrite !elem_of_union, elem_of_singleton in *; intuition congruence.
      * clear IH; repeat case_bool_decide; try done; exfalso;
          rewrite !elem_of_union, elem_of_singleton in *; intuition congruence.
    + rewrite decide_False by (by intros [? ?]). by rewrite IH.
Qed.

(** The loop's map holds, for each key, the group of that key's members. *)
Lemma collect_spec rules :
  (forall k, (collect rules).1 !! k =
     match members k rules with [] => None | _ => Some (group_of (members k rules)) end) /\
  (collect rules).2 = order_of ∅ rules.
Proof.
  induction rules as [|r rules [IHg IHo]] using rev_ind; [done|].
  unfold collect in *. rewrite foldl_snoc.
  destruct (foldl collect_step (∅, []) rules) as [groups order]. simpl in *. subst order.
  unfold collect_step. rewrite order_of_snoc, union_empty_l_L.
  destruct (opaque_span r) as [sp|] eqn:Hs.
  2:{ split; [|done]. intros k. simpl. rewrite IHg, members_app.
      assert (members k [r] = []) as ->.
      { unfold members. rewrite filter_cons_False; [done|]. intros [[? ?] _]. congruence. }
      by rewrite app_nil_r. }
  assert (Hm : forall k, members k (rules ++ [r]) =
                 members k rules ++ (if bool_decide (group_key r = k) then [r] else [])).
  { intros k. rewrite members_app. f_equal. unfold members. rewrite filter_cons, filter_nil, decide_bool_decide.
    repeat case_bool_decide; unfold in_group in *; naive_solver. }
  rewrite IHg. pose proof (members_keys (group_key r) rules) as Hmk.
  destruct (members (group_key r) rules) as [|m ms] eqn:E; simpl.
  - rewrite bool_decide_eq_false_2 by tauto. split; [|done]. intros k. rewrite Hm.
    destruct (decide (group_key r = k)) as [<-|Hne].
    + rewrite lookup_insert_eq, E, bool_decide_eq_true_2 by done. simpl.
      f_equal. symmetry. by apply (group_of_snoc []).
    + by rewrite lookup_insert_ne, bool_decide_eq_false_2, app_nil_r.
  - rewrite bool_decide_eq_true_2, app_nil_r.
    2:{ destruct (decide (group_key r ∈ keys_of rules)) as [|Hn]; [done|]. by apply Hmk in Hn. }
    split; [|done]. intros k. rewrite Hm. destruct (decide (group_key r = k)) as [<-|Hne].
    + rewrite lookup_insert_eq, E, bool_decide_eq_true_2 by done. cbn [app].
      f_equal. rewrite app_comm_cons. symmetry. by apply group_of_snoc.
    + by rewrite lookup_insert_ne, bool_decide_eq_false_2, app_nil_r.
Qed.

(** The rules a group key is resolved to. *)
Definition block (k : string) (rules : list EgressRule) : list EgressRule :=
  emit_group (group_of (members k rules)).

Definition expand (rules : list EgressRule) (s : slot) : list EgressRule :=
  match s with VerbatimSlot r => [r] | GroupSlot k => block k rules end.

Lemma resolve_expand rules :
  (resolveOpaquePortConflicts rules).1 = order_of ∅ rules ≫= expand rules.
Proof.
  unfold resolveOpaquePortConflicts. destruct (collect rules) as [groups order] eqn:E.
  destruct (collect_spec rules) as [Hg Ho]. rewrite E in Hg, Ho. simpl in *. subst order.
  apply list_bind_ext; [|done]. intros [r|k]; [done|]. simpl. rewrite Hg. unfold block.
  by destruct (members k rules).
Qed.

(** ** The spans of a resolved group *)

Definition deny_out (ms : list EgressRule) : list span := mergeOverlappingSpans (spans_of true ms).
Definition allow_out (ms : list EgressRule) : list span :=
  allowOut (mergeOverlappingSpans (spans_of false ms)) (deny_out ms).
Definition spans_out (deny : bool) (ms : list EgressRule) : list span :=
  if deny then deny_out ms else allow_out ms.

Lemma opaque_span_valid r sp : opaque_span r = Some sp -> valid_span sp.
Proof.
  unfold opaque_span. destruct (isOpaqueProto (Proto r)); [|done]. destruct sp as [lo hi].
  apply PortSpan_bounds.
Qed.

Lemma spans_of_valid b ms : Forall valid_span (spans_of b ms).
Proof.
  apply Forall_forall. intros sp Hsp. apply list_elem_of_omap in Hsp as (r & _ & Hr).
  by eapply opaque_span_valid.
Qed.

Lemma spans_of_wf b ms : Forall wf_span (spans_of b ms).
Proof. eapply Forall_impl; [apply spans_of_valid|apply valid_span_wf]. Qed.
#[local] Hint Resolve spans_of_wf : clawker.

(** A separated list whose ports all lie in a valid list is valid. *)
Lemma valid_by_cover l k :
  Forall wf_span l -> Forall valid_span k -> (forall p, covers l p -> covers k p) -> Forall valid_span l.
Proof.
  rewrite !Forall_forall. intros Hw Hv Hc sp Hsp. pose proof (Hw sp Hsp) as Hwf. unfold wf_span in Hwf.
  assert (Hend : forall p, sp.1 <= p <= sp.2 -> 1 <= p <= maxPort).
  { intros p Hp. assert (covers l p) as H%Hc by (apply covers_in; by exists sp).
    apply covers_in in H as (t & Ht & Hct). specialize (Hv t Ht). unfold valid_span, covers_span in *. lia. }
  pose proof (Hend sp.1). pose proof (Hend sp.2). unfold valid_span. lia.
Qed.

Lemma spans_out_separated b ms : separated (spans_out b ms).
Proof.
  destruct b; simpl; [apply merge_separated; auto with clawker|].
  apply allowOut_separated; apply merge_separated; auto with clawker.
Qed.

Lemma spans_out_covers b ms p :
  covers (spans_out b ms) p <->
  covers (spans_of b ms) p /\
  (b = true \/ ~ covers (spans_of true ms) p \/
   (only_single (spans_of false ms) p /\ only_single (spans_of true ms) p)).
Proof.
  destruct b; simpl.
  - unfold deny_out. rewrite merge_covers by auto with clawker. tauto.
  - unfold allow_out, deny_out. rewrite allowOut_covers by auto with clawker. naive_solver.
Qed.

Lemma spans_out_valid b ms : Forall valid_span (spans_out b ms).
Proof.
  eapply (valid_by_cover _ (spans_of b ms)); [apply spans_out_separated|apply spans_of_valid|].
  intros p Hp. by apply spans_out_covers in Hp as [? _].
Qed.

(** ** The rules of a resolved group *)

Definition all_in_group (k : string) (ms : list EgressRule) : Prop := Forall (in_group k) ms.

Lemma members_in_group k rules : all_in_group k (members k rules).
Proof. apply Forall_forall. intros r Hr. by apply elem_members in Hr as [? _]. Qed.

Lemma restamp_span t sp :
  isOpaqueProto (Proto t) = true -> valid_span sp -> opaque_span (set_Port t (formatSpan sp)) = Some sp.
Proof.
  intros Ho Hv. unfold opaque_span, PortSpan. cbn [Proto Port set_Port].
  by rewrite Ho, formatSpan_parses.
Qed.

Lemma in_group_opaque k r : in_group k r -> isOpaqueProto (Proto r) = true.
Proof. intros [[sp Hs] _]. unfold opaque_span in Hs. by destruct (isOpaqueProto (Proto r)). Qed.

(** A stamped block: membership, action, and the spans it denotes. *)
Lemma stamp_block k b t l :
  in_group k t -> isDenyAction (Action t) = b -> Forall valid_span l ->
  let out := (fun sp => set_Port t (formatSpan sp)) <$> l in
  all_in_group k out /\ with_action b out = out /\ with_action (negb b) out = [] /\
  omap opaque_span out = l.
Proof.
  intros Ht Hb Hl. pose proof (in_group_opaque _ _ Ht) as Ho.
  induction Hl as [|sp l Hv Hl (IH1 & IH2 & IH3 & IH4)]; [repeat constructor|]. cbn [fmap list_fmap] in *.
  pose proof (restamp_span t sp Ho Hv) as Hs. split; [|split; [|split]].
  - constructor; [|done]. split; [by rewrite Hs|]. apply Ht.
  - unfold with_action in *. rewrite filter_cons_True by done. by rewrite IH2.
  - unfold with_action in *. rewrite filter_cons_False; [done|]. simpl. rewrite Hb. by destruct b.
  - cbn [omap list_omap]. by rewrite Hs, IH4.
Qed.

(** The template of an action exists when the group claims a port with it. *)
Lemma template_in k b ms :
  all_in_group k ms ->
  match head (with_action b ms) with
  | Some t => in_group k t /\ isDenyAction (Action t) = b /\ t ∈ ms
  | None => spans_of b ms = []
  end.
Proof.
  intros Hg. unfold spans_of. destruct (with_action b ms) as [|t l] eqn:E; [done|]. simpl.
  assert (t ∈ with_action b ms) as [Ha Ht]%list_elem_of_filter by (rewrite E; by left).
  unfold all_in_group in Hg. rewrite Forall_forall in Hg. auto.
Qed.

Definition stamped (b : bool) (ms : list EgressRule) : list EgressRule :=
  stamp (head (with_action b ms)) (spans_out b ms).

Lemma emit_group_stamped ms : emit_group (group_of ms) = stamped true ms ++ stamped false ms.
Proof. done. Qed.

Lemma spans_out_nil b ms : spans_of b ms = [] -> spans_out b ms = [].
Proof.
  intros E. pose proof (spans_out_separated b ms) as [Hw _].
  destruct (spans_out b ms) as [|sp l] eqn:Eo; [done|]. exfalso.
  apply Forall_cons in Hw as [Hw _]. unfold wf_span in Hw.
  assert (covers (spans_out b ms) sp.1) as H.
  { rewrite Eo. apply covers_cons. left. unfold covers_span. lia. }
  apply spans_out_covers in H as [H _]. rewrite E in H. by apply covers_nil in H.
Qed.

Lemma stamped_spec k b ms :
  all_in_group k ms ->
  all_in_group k (stamped b ms) /\ with_action b (stamped b ms) = stamped b ms /\
  with_action (negb b) (stamped b ms) = [] /\ omap opaque_span (stamped b ms) = spans_out b ms.
Proof.
  intros Hg. unfold stamped. pose proof (template_in k b ms Hg) as Ht.
  destruct (head (with_action b ms)) as [t|] eqn:E.
  - destruct Ht as (Hk & Ha & _). apply stamp_block; [done..|apply spans_out_valid].
  - rewrite (spans_out_nil _ _ Ht). repeat constructor.
Qed.

Lemma emitted_spec k ms :
  all_in_group k ms ->
  all_in_group k (emit_group (group_of ms)) /\
  forall b, with_action b (emit_group (group_of ms)) = stamped b ms /\
            spans_of b (emit_group (group_of ms)) = spans_out b ms.
Proof.
  intros Hg. rewrite emit_group_stamped.
  destruct (stamped_spec k true ms Hg) as (T1 & T2 & T3 & T4).
  destruct (stamped_spec k false ms Hg) as (F1 & F2 & F3 & F4). simpl in *.
  split; [by apply Forall_app|]. intros b.
  assert (Ha : with_action b (stamped true ms ++ stamped false ms) = stamped b ms).
  { rewrite with_action_app. destruct b; [by rewrite T2, F3, app_nil_r|by rewrite T3, F2]. }
  split; [done|]. unfold spans_of. rewrite Ha. by destruct b.
Qed.

(** ** Resolving twice *)

Lemma spans_out_emitted k b ms :
  all_in_group k ms -> spans_out b (emit_group (group_of ms)) = spans_out b ms.
Proof.
  intros Hg. destruct (emitted_spec k ms Hg) as [_ H].
  pose proof (proj2 (H true)) as Ht. pose proof (proj2 (H false)) as Hf. simpl in *.
  pose proof (spans_out_separated true ms) as St. pose proof (spans_out_separated false ms) as Sf. simpl in *.
  assert (Hd : deny_out (emit_group (group_of ms)) = deny_out ms).
  { unfold deny_out at 1. by rewrite Ht, merge_id. }
  destruct b; simpl; [done|]. unfold allow_out at 1. rewrite Hd, Hf, merge_id by done.
  apply allowOut_idemp; [|done]. apply merge_separated; auto with clawker.
Qed.

Lemma stamp_stamped (t : option EgressRule) l : stamp (head (stamp t l)) l = stamp t l.
Proof. destruct t as [t|]; [|by destruct l]. by destruct l. Qed.

Lemma emit_twice k ms :
  all_in_group k ms ->
  emit_group (group_of (emit_group (group_of ms))) = emit_group (group_of ms).
Proof.
  intros Hg. rewrite (emit_group_stamped (emit_group _)). destruct (emitted_spec k ms Hg) as [_ H].
  unfold stamped. rewrite !(proj1 (H _)), !(spans_out_emitted k) by done.
  unfold stamped. by rewrite !stamp_stamped.
Qed.

Lemma emit_nonempty k ms : all_in_group k ms -> ms <> [] -> emit_group (group_of ms) <> [].
Proof.
  intros Hg Hne Hemp. destruct (emitted_spec k ms Hg) as [_ H]. rewrite Hemp in H.
  destruct ms as [|r ms]; [done|]. pose proof Hg as [[[sp Hs] _] _]%Forall_cons.
  pose proof (valid_span_wf _ (opaque_span_valid _ _ Hs)) as Hw. unfold wf_span in Hw.
  assert (Hin : covers (spans_of (isDenyAction (Action r)) (r :: ms)) sp.1).
  { apply covers_in. exists sp. split; [|unfold covers_span; lia].
    apply list_elem_of_omap. exists r. split; [|done]. apply list_elem_of_filter. split; [done|by left]. }
  assert (Hno : forall b p, ~ covers (spans_out b (r :: ms)) p).
  { intros b p Hp. rewrite <- (proj2 (H b)) in Hp. by apply covers_nil in Hp. }
  assert (Hd : forall p, ~ covers (spans_of true (r :: ms)) p).
  { intros p Hp. apply (Hno true p), spans_out_covers. auto. }
  apply (Hno (isDenyAction (Action r)) sp.1), spans_out_covers. split; [done|].
  right. left. apply Hd.
Qed.

(** An order whose groups are distinct, unseen and known to [rules]. *)
Fixpoint fresh_order (rules : list EgressRule) (seen : gset string) (o : list slot) : Prop :=
  match o with
  | [] => True
  | VerbatimSlot r :: o' => opaque_span r = None /\ fresh_order rules seen o'
  | GroupSlot k :: o' => (k ∉ seen) /\ members k rules <> [] /\ fresh_order rules ({[k]} ∪ seen) o'
  end.

Lemma order_of_fresh all rules seen :
  (forall k, k ∈ keys_of rules -> k ∈ keys_of all) -> fresh_order all seen (order_of seen rules).
Proof.
  revert seen. induction rules as [|r rs IH]; intros seen Hk; [done|]. simpl.
  unfold keys_of in Hk. rewrite filter_cons in Hk. destruct (opaque_span r) as [sp|] eqn:E.
  - rewrite decide_True in Hk by done. cbn [fmap list_fmap list_to_set] in Hk.
    fold (keys_of rs) in Hk. fold (keys_of all) in Hk.
    assert (forall k, k ∈ keys_of rs -> k ∈ keys_of all) as Hrs.
    { intros k Hin. apply Hk. apply elem_of_union. by right. }
    case_bool_decide as Hs; [by apply IH|]. simpl. split; [done|]. split; [|by apply IH].
    rewrite members_keys. intros Hn. apply Hn, Hk. apply elem_of_union. left. by apply elem_of_singleton.
  - rewrite decide_False in Hk by (by intros [? ?]). by split; [|apply IH].
Qed.

Lemma order_of_seen seen l rest k :
  all_in_group k l -> k ∈ seen -> order_of seen (l ++ rest) = order_of seen rest.
Proof.
  intros Hg Hk. induction Hg as [|r l [[sp Hs] <-] Hg IH]; [done|]. simpl.
  rewrite Hs, bool_decide_eq_true_2 by done. by apply IH.
Qed.

Lemma order_of_expand rules seen o :
  fresh_order rules seen o -> order_of seen (o ≫= expand rules) = o.
Proof.
  revert seen. induction o as [|[r|k] o IH]; intros seen; [done|..]; cbn [fresh_order mbind list_bind expand].
  - intros [Hr Ho]. simpl. rewrite Hr. f_equal. by apply IH.
  - intros (Hk & Hm & Ho). unfold block.
    pose proof (members_in_group k rules) as Hg. destruct (emitted_spec k _ Hg) as [Hin _].
    pose proof (emit_nonempty k _ Hg Hm) as Hne.
    destruct (emit_group (group_of (members k rules))) as [|r l] eqn:E; [done|].
    apply Forall_cons in Hin as [[[sp Hs] Hkey] Hin]. simpl. rewrite Hs, Hkey.
    rewrite bool_decide_eq_false_2 by done. f_equal.
    rewrite (order_of_seen _ _ _ k); [by apply IH|done|]. apply elem_of_union. left. by apply elem_of_singleton.
Qed.

Lemma members_all k l : all_in_group k l -> members k l = l.
Proof. intros H. unfold members. induction H; [done|]. rewrite filter_cons_True by done. by f_equal. Qed.
Lemma members_other k k' l : all_in_group k' l -> k <> k' -> members k l = [].
Proof.
  intros H Hne. unfold members. induction H as [|r l [_ Hr]]; [done|].
  rewrite filter_cons_False; [done|]. intros [_ ?]. congruence.
Qed.

(** The members of a group after resolution are its block. *)
Lemma members_expand rules k seen o :
  fresh_order rules seen o ->
  members k (o ≫= expand rules) = if bool_decide (GroupSlot k ∈ o) then block k rules else [].
Proof.
  assert (Hseen : forall o seen, fresh_order rules seen o -> k ∈ seen -> GroupSlot k ∉ o).
  { clear. induction o as [|[r|k'] o IH]; intros seen Hf Hk; cbn in Hf; [apply not_elem_of_nil|destruct Hf as [_ Hf]|].
    - rewrite not_elem_of_cons. split; [done|]. by apply (IH seen).
    - rewrite not_elem_of_cons. destruct Hf as (Hn & _ & Hf). split; [congruence|].
      apply (IH _ Hf). apply elem_of_union. by right. }
  revert seen. induction o as [|[r|k'] o IH]; intros seen Hf; [done|..];
    cbn [mbind list_bind expand]; rewrite members_app; cbn in Hf.
  - destruct Hf as [Hr Hf]. rewrite (IH _ Hf).
    assert (members k [r] = []) as ->.
    { unfold members. rewrite filter_cons_False; [done|]. intros [[? ?] _]. congruence. }
    simpl. erewrite bool_decide_ext; [done|]. rewrite elem_of_cons. naive_solver.
  - destruct Hf as (Hn & Hm & Hf). rewrite (IH _ Hf).
    destruct (emitted_spec k' _ (members_in_group k' rules)) as [Hin _]. unfold block at 1.
    destruct (decide (k = k')) as [->|Hne].
    + rewrite members_all by done. rewrite bool_decide_eq_false_2.
      2:{ apply (Hseen _ _ Hf). apply elem_of_union. left. by apply elem_of_singleton. }
      rewrite app_nil_r, bool_decide_eq_true_2 by (by left). done.
    + rewrite (members_other _ k') by done. simpl. erewrite bool_decide_ext; [done|].
      rewrite elem_of_cons. naive_solver.
Qed.

Lemma order_has_group rules k seen :
  GroupSlot k ∈ order_of seen rules <-> k ∈ keys_of rules /\ k ∉ seen.
Proof.
  revert seen. induction rules as [|r rs IH]; intros seen; simpl.
  - unfold keys_of. simpl. rewrite elem_of_nil, elem_of_empty. tauto.
  - unfold keys_of. rewrite filter_cons. destruct (opaque_span r) as [sp|] eqn:E.
    + rewrite decide_True by done. cbn [fmap list_fmap list_to_set]. fold (keys_of rs).
      rewrite elem_of_union, elem_of_singleton. case_bool_decide as Hs.
      * rewrite IH. split; [tauto|]. intros [[->|?] ?]; [done|tauto].
      * rewrite elem_of_cons, IH, elem_of_union, elem_of_singleton.
        destruct (decide (k = group_key r)) as [->|]; naive_solver.
    + rewrite decide_False by (by intros [? ?]). fold (keys_of rs).
      rewrite elem_of_cons, IH. naive_solver.
Qed.

Lemma members_resolve k rules :
  members k (resolveOpaquePortConflicts rules).1 =
    if bool_decide (members k rules = []) then [] else block k rules.
Proof.
  rewrite resolve_expand, (members_expand _ _ ∅) by (by apply order_of_fresh).
  assert (GroupSlot k ∈ order_of ∅ rules <-> ~ members k rules = []) as Hk.
  { rewrite order_has_group, members_keys. pose proof (not_elem_of_empty (C:=gset string) k).
    destruct (decide (k ∈ keys_of rules)); tauto. }
  repeat case_bool_decide; tauto.
Qed.

Lemma resolve_twice rules :
  (resolveOpaquePortConflicts (resolveOpaquePortConflicts rules).1).1 = (resolveOpaquePortConflicts rules).1.
Proof.
  rewrite (resolve_expand (resolveOpaquePortConflicts rules).1).
  assert (Ho : order_of ∅ (resolveOpaquePortConflicts rules).1 = order_of ∅ rules).
  { rewrite resolve_expand. apply order_of_expand. by apply order_of_fresh. }
  rewrite Ho. transitivity (order_of ∅ rules ≫= expand rules); [|by rewrite resolve_expand].
  apply list_bind_ext_in. intros [r|k] Hin; [done|]. simpl.
  apply order_has_group in Hin as [Hk _]. unfold block at 1. rewrite members_resolve.
  rewrite bool_decide_eq_false_2 by (rewrite members_keys; tauto).
  apply (emit_twice k), members_in_group.
Qed.

End Conflicts.
