(* ===== verification/Canonical.v ===== *)
(** * The canonical rule set

    What [NormalizeAndDedup] and [rulesCanonicalEqual] (rules_store.go)
    guarantee to the readers of the store: the ports each destination allows
    and denies after resolution, uniqueness of the store key, stability under
    re-application, and equality up to order. *)

From S2P Require Import Prelude GoStrings EgressRule Spans Rules Conflicts.
Import Go Rule Spans Rules Conflicts.

Module Canonical.

(** ** Which ports a rule set claims *)

(** Some rule of [rules] allows ([deny = false]) or denies the span [sp] of
    an opaque protocol on [host]. *)
Definition claim (deny : bool) (host proto : string) (rules : list EgressRule) (sp : span) : Prop :=
  exists r, r ∈ rules /\ opaque_span r = Some sp /\ isDenyAction (Action r) = deny /\
            normalizeDomain (Dst r) = host /\ ToLower (Proto r) = proto.

Definition claims (deny : bool) (host proto : string) (rules : list EgressRule) (p : Z) : Prop :=
  exists sp, claim deny host proto rules sp /\ covers_span sp p.

(** [p] is claimed, and only by rules naming exactly [p]. *)
Definition singly_claimed (deny : bool) (host proto : string) (rules : list EgressRule) (p : Z) : Prop :=
  claims deny host proto rules p /\
  forall sp, claim deny host proto rules sp -> covers_span sp p -> sp = (p, p).

Definition opaque_names : list string := ["tcp"; "ssh"; "udp"].

Lemma isOpaqueProto_names s : isOpaqueProto s = true <-> ToLower s ∈ opaque_names.
Proof.
  unfold isOpaqueProto, opaque_names. rewrite !orb_true_iff, !String.eqb_eq, !elem_of_cons, elem_of_nil. tauto.
Qed.

Lemma opaque_names_length s : s ∈ opaque_names -> String.length s = 3%nat.
Proof. unfold opaque_names. rewrite !elem_of_cons, elem_of_nil. naive_solver. Qed.

Lemma opaque_span_names r sp : opaque_span r = Some sp -> ToLower (Proto r) ∈ opaque_names.
Proof.
  unfold opaque_span. destruct (isOpaqueProto (Proto r)) eqn:E; [|done]. intros _. by apply isOpaqueProto_names.
Qed.

Lemma claim_names deny host proto rules sp : claim deny host proto rules sp -> proto ∈ opaque_names.
Proof. intros (r & _ & Hs & _ & _ & <-). by eapply opaque_span_names. Qed.

(** A group key separates host and protocol. *)
Lemma group_key_spec r sp host proto :
  opaque_span r = Some sp -> proto ∈ opaque_names ->
  group_key r = host +:+ nul +:+ proto <-> normalizeDomain (Dst r) = host /\ ToLower (Proto r) = proto.
Proof.
  intros Hs Hp. unfold group_key. split; [|by intros [-> ->]]. rewrite !append_assoc. intros E.
  apply append_inj_tail in E as [E ->].
  - by apply append_inj_tail in E as [-> _].
  - by rewrite !opaque_names_length by eauto using opaque_span_names.
Qed.

Lemma elem_spans_of b host proto rules sp :
  proto ∈ opaque_names ->
  sp ∈ spans_of b (members (host +:+ nul +:+ proto) rules) <-> claim b host proto rules sp.
Proof.
  intros Hp. unfold spans_of, with_action. rewrite list_elem_of_omap. split.
  - intros (r & [Hb [[_ Hk] Hr]%elem_members]%list_elem_of_filter & Hs).
    apply (group_key_spec r sp) in Hk as [Hh Hpr]; [|done..]. by exists r.
  - intros (r & Hr & Hs & Hb & Hh & Hpr). exists r. split; [|done].
    apply list_elem_of_filter. split; [done|]. apply elem_members. split; [|done].
    split; [by rewrite Hs|]. by apply (group_key_spec r sp).
Qed.

Lemma covers_spans_of b host proto rules p :
  proto ∈ opaque_names ->
  covers (spans_of b (members (host +:+ nul +:+ proto) rules)) p <-> claims b host proto rules p.
Proof. intros Hp. rewrite covers_in. unfold claims. by setoid_rewrite elem_spans_of. Qed.

Lemma only_single_spans_of b host proto rules p :
  proto ∈ opaque_names ->
  only_single (spans_of b (members (host +:+ nul +:+ proto) rules)) p <-> singly_claimed b host proto rules p.
Proof.
  intros Hp. unfold only_single, singly_claimed. rewrite covers_spans_of by done.
  by setoid_rewrite elem_spans_of.
Qed.

Lemma members_resolve_spans k b rules :
  spans_of b (members k (resolveOpaquePortConflicts rules).1) = spans_out b (members k rules).
Proof.
  rewrite members_resolve. case_bool_decide as E.
  - rewrite E. symmetry. by apply (spans_out_nil b []).
  - by apply (emitted_spec k _ (members_in_group k rules)).
Qed.

(** The ports claimed after conflict resolution. *)
Lemma resolve_claims b host proto rules p :
  claims b host proto (resolveOpaquePortConflicts rules).1 p <->
  claims b host proto rules p /\
  (b = true \/ ~ claims true host proto rules p \/
   (singly_claimed false host proto rules p /\ singly_claimed true host proto rules p)).
Proof.
  destruct (decide (proto ∈ opaque_names)) as [Hp|Hp].
  2:{ split; [intros (sp & H%claim_names & _)|intros ((sp & H%claim_names & _) & _)]; done. }
  rewrite <- !covers_spans_of, <- !only_single_spans_of by done.
  rewrite members_resolve_spans. apply spans_out_covers.
Qed.

(** ** The store key *)

Definition no_colon (c : ascii) : bool := negb (Ascii.eqb ":" c).
Definition no_nul (c : ascii) : bool := negb (Ascii.eqb "000" c).

(** Protocol names contain no [":"]. *)
Definition plain_proto (r : EgressRule) : Prop := all_chars no_colon (Proto r) = true.
Definition plain_port (r : EgressRule) : Prop := all_chars no_colon (Port r) = true.

Lemma port_char_no_colon c : port_char c = true -> no_colon c = true.
Proof. destruct c as [[][][][][][][][]]; vm_compute; naive_solver. Qed.

Lemma port_ok_plain r : ValidatePortSpec r = Ok tt -> plain_port r.
Proof.
  unfold ValidatePortSpec. intros (sp & H & _)%result_bind_ok. apply ParsePortSpec_chars in H.
  eapply all_chars_impl; [apply port_char_no_colon|done].
Qed.

Lemma action_no_nul (b : bool) : all_chars no_nul (if b then "deny" else "allow") = true.
Proof. by destruct b. Qed.

Lemma RuleKey_split r : RuleKey r = (Dst r +:+ String ":" (Proto r)) +:+ String ":" (Port r).
Proof. unfold RuleKey. by rewrite <- append_assoc. Qed.

Lemma ActionKey_inj r r' :
  plain_proto r -> plain_proto r' -> plain_port r -> plain_port r' ->
  ActionKey r = ActionKey r' ->
  Dst r = Dst r' /\ Proto r = Proto r' /\ Port r = Port r' /\
  isDenyAction (Action r) = isDenyAction (Action r').
Proof.
  intros P P' Q Q' E. unfold ActionKey, nul in E. apply last_sep_inj in E as [E Ea]; [|apply action_no_nul..].
  rewrite !RuleKey_split in E. apply (last_sep_inj ":") in E as [E Ep]; [|done..].
  apply (last_sep_inj ":") in E as [Ed Epr]; [|done..].
  split; [done|]. split; [done|]. split; [done|].
  by destruct (isDenyAction (Action r)), (isDenyAction (Action r')).
Qed.

(** ** What deduplication keeps *)

(** A rule in the form [NormalizeAndDedup] keeps. *)
Definition clean (r : EgressRule) : Prop :=
  NormalizeRule r = r /\ normalizeDomain (Dst r) <> "" /\ ValidatePortSpec r = Ok tt.

Definition accepted (r : EgressRule) : bool :=
  negb (String.eqb (normalizeDomain (Dst (NormalizeRule r))) "") && is_ok (ValidatePortSpec (NormalizeRule r)).

Lemma accepted_clean r : accepted r = true <-> clean (NormalizeRule r).
Proof.
  unfold accepted, clean. rewrite andb_true_iff, negb_true_iff, String.eqb_neq, NormalizeRule_twice.
  destruct (ValidatePortSpec (NormalizeRule r)) as [[]|]; naive_solver.
Qed.

Record dedup_ok (rules : list EgressRule) (st : dedup_state) : Prop := {
  ok_seen : forall k, k ∈ dd_seen st <-> k ∈ ActionKey <$> dd_out st;
  ok_NoDup : NoDup (ActionKey <$> dd_out st);
  ok_from : forall r, r ∈ dd_out st -> clean r /\ exists r0, r0 ∈ rules /\ r = NormalizeRule r0;
  ok_keep : forall r, r ∈ rules -> accepted r = true -> ActionKey (NormalizeRule r) ∈ ActionKey <$> dd_out st;
}.

Lemma dedup_step_out st r :
  dd_out (dedup_step st r) =
    dd_out st ++ (if accepted r && negb (bool_decide (ActionKey (NormalizeRule r) ∈ dd_seen st))
                  then [NormalizeRule r] else []) /\
  dd_seen (dedup_step st r) =
    (if accepted r then {[ActionKey (NormalizeRule r)]} else ∅) ∪ dd_seen st.
Proof.
  unfold dedup_step, accepted. destruct (String.eqb _ ""); simpl; [by rewrite app_nil_r, union_empty_l_L|].
  destruct (ValidatePortSpec (NormalizeRule r)); simpl; [|by rewrite app_nil_r, union_empty_l_L].
  case_bool_decide; simpl; [|done]. rewrite app_nil_r. split; [done|]. set_solver.
Qed.

Lemma dedup_spec rules : dedup_ok rules (dedup rules).
Proof.
  unfold dedup. induction rules as [|r rules [I1 I2 I3 I4]] using rev_ind.
  - constructor; simpl; [set_solver|constructor|set_solver|set_solver].
  - rewrite foldl_snoc. set (st := foldl dedup_step _ rules) in *.
    destruct (dedup_step_out st r) as [Ho Hs].
    assert (Hin : forall k, k ∈ ActionKey <$> dd_out (dedup_step st r) <->
                       k ∈ ActionKey <$> dd_out st \/ (accepted r = true /\ k = ActionKey (NormalizeRule r))).
    { intros k. rewrite Ho, fmap_app, elem_of_app. destruct (accepted r); simpl; [|set_solver].
      case_bool_decide as Hk; simpl; [apply I1 in Hk; set_solver|set_solver]. }
    constructor.
    + intros k. rewrite Hin, Hs, elem_of_union, I1. destruct (accepted r); set_solver.
    + rewrite Ho, fmap_app. destruct (accepted r) eqn:E; simpl; [|by rewrite app_nil_r].
      case_bool_decide as Hk; simpl; [by rewrite app_nil_r|]. rewrite I1 in Hk.
      apply NoDup_app. split; [done|]. split; [set_solver|apply NoDup_singleton].
    + rewrite Ho. intros r' [Hr|Hr]%elem_of_app.
      * destruct (I3 r' Hr) as (? & r0 & ? & ?). split; [done|]. exists r0. set_solver.
      * destruct (accepted r) eqn:E; [|by apply elem_of_nil in Hr]. case_bool_decide; [by apply elem_of_nil in Hr|].
        apply list_elem_of_singleton in Hr as ->. split; [by apply accepted_clean|]. exists r. set_solver.
    + intros r' [Hr| ->%list_elem_of_singleton]%elem_of_app Ha; apply Hin; [left; by apply I4|by right].
Qed.

(** Deduplication is the identity on clean rules with distinct keys. *)
Lemma dedup_id l : Forall clean l -> NoDup (ActionKey <$> l) -> dd_out (dedup l) = l.
Proof.
  intros Hc Hn. induction l as [|r l IH] using rev_ind; [done|].
  rewrite fmap_app in Hn. apply NoDup_app in Hn as (Hn & Hd & _). apply Forall_app in Hc as [Hc Hr].
  rewrite Forall_singleton in Hr. specialize (IH Hc Hn). unfold dedup in *. rewrite foldl_snoc.
  set (st := foldl dedup_step _ l) in *. destruct (dedup_step_out st r) as [-> _].
  assert (accepted r = true) as -> by (apply accepted_clean; by rewrite (proj1 Hr)).
  rewrite (proj1 Hr), bool_decide_eq_false_2; [by rewrite IH|].
  pose proof (ok_seen _ _ (dedup_spec l)) as Hs. unfold dedup in Hs. fold st in Hs.
  rewrite Hs, IH. intros Hin. apply (Hd _ Hin). set_solver.
Qed.

(** ** What resolution emits *)

Lemma order_has_verbatim rules x seen :
  VerbatimSlot x ∈ order_of seen rules <-> x ∈ rules /\ opaque_span x = None.
Proof.
  revert seen. induction rules as [|r0 rs IH]; intros seen; simpl; [set_solver|].
  rewrite elem_of_cons. destruct (opaque_span r0) eqn:E.
  - case_bool_decide; [|rewrite elem_of_cons]; rewrite IH; naive_solver.
  - rewrite elem_of_cons, IH. naive_solver.
Qed.

Lemma resolve_elem rules r :
  r ∈ (resolveOpaquePortConflicts rules).1 <->
  (r ∈ rules /\ opaque_span r = None) \/ exists k, k ∈ keys_of rules /\ r ∈ block k rules.
Proof.
  rewrite resolve_expand, list_elem_of_bind.
  split.
  - intros ([x|k] & Hr & Ho); simpl in Hr.
    + apply list_elem_of_singleton in Hr as ->. left. by apply order_has_verbatim in Ho.
    + right. exists k. split; [|done]. by apply order_has_group in Ho as [? _].
  - intros [[Hr Hs]|(k & Hk & Hr)].
    + exists (VerbatimSlot r). split; [by left|]. by apply order_has_verbatim.
    + exists (GroupSlot k). split; [done|]. apply order_has_group. split; [done|apply not_elem_of_empty].
Qed.

(** A rule of a block is a member of its group with another port. *)
Lemma block_elem k rules r :
  r ∈ block k rules ->
  in_group k r /\ exists t sp, t ∈ members k rules /\ isDenyAction (Action t) = isDenyAction (Action r) /\
    valid_span sp /\ r = set_Port t (formatSpan sp).
Proof.
  intros Hr. pose proof (members_in_group k rules) as Hg. destruct (emitted_spec k _ Hg) as [Hin _].
  unfold all_in_group in Hin. rewrite Forall_forall in Hin. split; [by apply Hin|].
  unfold block in Hr. rewrite emit_group_stamped in Hr.
  assert (exists b, r ∈ stamped b (members k rules)) as [b Hb].
  { apply elem_of_app in Hr as [?|?]; eauto. }
  unfold stamped in Hb. pose proof (template_in k b _ Hg) as Ht.
  destruct (head _) as [t|]; [|by apply elem_of_nil in Hb]. destruct Ht as (Hk & Ha & Ht).
  apply list_elem_of_fmap in Hb as (sp & -> & Hsp). exists t, sp.
  split; [done|]. split; [done|]. split; [|done].
  pose proof (spans_out_valid b (members k rules)) as Hv. rewrite Forall_forall in Hv. auto.
Qed.

Lemma formatSpan_nonempty sp : valid_span sp -> formatSpan sp <> "".
Proof. intros Hv E. apply formatSpan_parses in Hv. rewrite E in Hv. by vm_compute in Hv. Qed.

Lemma clean_set_Port t sp : clean t -> valid_span sp -> clean (set_Port t (formatSpan sp)).
Proof.
  intros (Hn & Hd & _) Hv. split; [|split; [done|]].
  - rewrite NormalizeRule_eq in Hn |- *. destruct t as [d pr po ac prs pd sk]. cbn [Dst Proto Port Action PathRules PathDefault InsecureSkipTLSVerify set_Port] in *.
    injection Hn as E1 _ E2 E3. rewrite E1, E2, E3.
    destruct (String.eqb_spec (formatSpan sp) "") as [E|]; [|done]. by apply formatSpan_nonempty in Hv.
  - unfold ValidatePortSpec. cbn [Port set_Port]. by rewrite formatSpan_parses.
Qed.

Lemma resolve_Forall (P : EgressRule -> Prop) rules :
  (forall t sp, P t -> valid_span sp -> P (set_Port t (formatSpan sp))) ->
  Forall P rules -> Forall P (resolveOpaquePortConflicts rules).1.
Proof.
  intros HP. rewrite !Forall_forall. intros H r [[Hr _]|(k & _ & Hr)]%resolve_elem; [auto|].
  apply block_elem in Hr as (_ & t & sp & [_ Ht]%elem_members & _ & Hv & ->). auto.
Qed.

Lemma opaque_span_format r : forall t sp, r = set_Port t (formatSpan sp) -> valid_span sp ->
  is_Some (opaque_span r) -> opaque_span r = Some sp.
Proof.
  intros t sp -> Hv [x Hx]. unfold opaque_span, PortSpan in *. cbn [Proto Port set_Port] in *.
  rewrite formatSpan_parses in Hx |- * by done. by destruct (isOpaqueProto _).
Qed.

(** Keys are distinct within a block... *)
Lemma stamped_keys k b ms :
  all_in_group k ms -> Forall plain_proto ms -> NoDup (ActionKey <$> stamped b ms).
Proof.
  intros Hg Hp. unfold stamped. pose proof (template_in k b ms Hg) as Ht.
  destruct (head _) as [t|]; [|constructor]. destruct Ht as (Hk & _ & Ht). simpl.
  rewrite Forall_forall in Hp. specialize (Hp t Ht). rewrite <- list_fmap_compose.
  pose proof (spans_out_valid b ms) as Hv. rewrite Forall_forall in Hv.
  assert (Hnd : NoDup (spans_out b ms)).
  { destruct (spans_out_separated b ms) as [Hw Hs]. clear Hv.
    induction Hs as [|a l Hs IH Ha]; [constructor|]. apply Forall_cons in Hw as [Hw1 Hw2].
    constructor; [|by apply IH]. intros Hin. rewrite Forall_forall in Ha. specialize (Ha a Hin).
    unfold before, wf_span in *. lia. }
  assert (Hpl : forall sp, valid_span sp -> plain_port (set_Port t (formatSpan sp))).
  { intros sp Hsp. apply port_ok_plain. unfold ValidatePortSpec. cbn [Port set_Port]. by rewrite formatSpan_parses. }
  revert Hnd Hv. generalize (spans_out b ms) as l. induction l as [|sp l IH]; intros Hnd Hv; [constructor|].
  apply NoDup_cons in Hnd as [Hn Hnd]. cbn [fmap list_fmap]. constructor; [|apply IH; [done|set_solver]].
  intros Hin. apply list_elem_of_fmap in Hin as (sp' & E & Hin). simpl in E.
  apply ActionKey_inj in E as (_ & _ & E & _); [|done|done|apply Hpl, Hv; set_solver..].
  apply formatSpan_inj in E as ->; [done|apply Hv; set_solver..].
Qed.

Lemma block_keys k rules : Forall plain_proto rules -> NoDup (ActionKey <$> block k rules).
Proof.
  intros Hp. unfold block. pose proof (members_in_group k rules) as Hg.
  assert (Hm : Forall plain_proto (members k rules)).
  { rewrite Forall_forall in *. intros r [_ Hr]%elem_members. auto. }
  rewrite emit_group_stamped, fmap_app. apply NoDup_app.
  split; [by apply (stamped_keys k)|]. split; [|by apply (stamped_keys k)].
  intros key Ht Hf. apply list_elem_of_fmap in Ht as (r & -> & Hr), Hf as (r' & E & Hr').
  destruct (stamped_spec k true _ Hg) as (_ & T & _ & _), (stamped_spec k false _ Hg) as (_ & F & _ & _).
  rewrite <- T in Hr. rewrite <- F in Hr'. apply list_elem_of_filter in Hr as [Ha _], Hr' as [Ha' _].
  unfold ActionKey in E. rewrite Ha, Ha' in E. apply last_sep_inj in E as [_ E]; done.
Qed.

Lemma order_of_NoDup rules seen : NoDup rules -> NoDup (order_of seen rules).
Proof.
  intros Hn. revert seen. induction Hn as [|r rs Hr Hn IH]; intros seen; simpl; [constructor|].
  destruct (opaque_span r); [case_bool_decide; [done|]|]; constructor; try done.
  - rewrite order_has_group. intros [_ Hs]. apply Hs, elem_of_union. left. by apply elem_of_singleton.
  - by intros [? _]%order_has_verbatim.
Qed.

(** ...and across blocks and passed-through rules. *)
Lemma resolve_keys rules :
  Forall plain_proto rules -> Forall clean rules -> NoDup (ActionKey <$> rules) ->
  NoDup (ActionKey <$> (resolveOpaquePortConflicts rules).1).
Proof.
  intros Hp Hc Hn.
  assert (Hall : forall r, r ∈ (resolveOpaquePortConflicts rules).1 -> plain_proto r /\ plain_port r).
  { intros r Hr. split.
    - pose proof (resolve_Forall plain_proto rules ltac:(done) Hp) as H. rewrite Forall_forall in H. auto.
    - pose proof (resolve_Forall clean rules clean_set_Port Hc) as H. rewrite Forall_forall in H.
      apply port_ok_plain. by apply H. }
  rewrite resolve_expand in Hall |- *. apply NoDup_fmap_bind.
  - by eapply order_of_NoDup, NoDup_fmap_elim.
  - intros [r|k] _; simpl; [apply NoDup_singleton|by apply block_keys].
  - intros x y a b Hx Hy Hne Ha Hb E.
    assert (Hpa : plain_proto a /\ plain_port a) by (apply Hall, list_elem_of_bind; eauto).
    assert (Hpb : plain_proto b /\ plain_port b) by (apply Hall, list_elem_of_bind; eauto).
    pose proof E as (E1 & E2 & E3 & _)%ActionKey_inj; [|tauto..]. apply Hne. clear Hall.
    assert (Hsp : opaque_span a = opaque_span b) by (unfold opaque_span, PortSpan; by rewrite E2, E3).
    assert (Hslot : forall s c, s ∈ order_of ∅ rules -> c ∈ expand rules s ->
      match s with
      | VerbatimSlot r => r = c /\ r ∈ rules /\ opaque_span c = None
      | GroupSlot k => group_key c = k /\ is_Some (opaque_span c)
      end).
    { intros [r|k] c Hs Hc'; simpl in Hc'.
      - apply list_elem_of_singleton in Hc' as ->. split; [done|].
        by apply order_has_verbatim in Hs.
      - by apply block_elem in Hc' as [[? ?] _]. }
    pose proof (Hslot x a Hx Ha). pose proof (Hslot y b Hy Hb).
    destruct x as [r|k], y as [r'|k']; destruct_and?.
    + f_equal. eapply NoDup_fmap_inj_in; [exact Hn|..]; try done. congruence.
    + destruct (opaque_span b) as [?|] eqn:?; [congruence|by destruct (is_Some_None (A:=span))].
    + destruct (opaque_span a) as [?|] eqn:?; [congruence|by destruct (is_Some_None (A:=span))].
    + f_equal. subst. unfold group_key. by rewrite E1, E2.
Qed.

(** ** The canonical set as a whole *)

Lemma canonical_resolve rules : canonical rules = (resolveOpaquePortConflicts (dd_out (dedup rules))).1.
Proof. unfold canonical, NormalizeAndDedup. by destruct (resolveOpaquePortConflicts _). Qed.

Lemma plain_proto_Normalize r : plain_proto r -> plain_proto (NormalizeRule r).
Proof.
  unfold plain_proto. rewrite NormalizeRule_eq. cbn [Proto]. unfold normal_proto.
  by destruct (String.eqb (ToLower (Proto r)) "tls"), (String.eqb (Proto r) "").
Qed.

Lemma dedup_plain rules : Forall plain_proto rules -> Forall plain_proto (dd_out (dedup rules)).
Proof.
  rewrite !Forall_forall. intros H r Hr. destruct (ok_from _ _ (dedup_spec rules) r Hr) as (_ & r0 & H0 & ->).
  by apply plain_proto_Normalize, H.
Qed.

Lemma dedup_clean rules : Forall clean (dd_out (dedup rules)).
Proof. apply Forall_forall. intros r Hr. by apply (ok_from _ _ (dedup_spec rules)) in Hr as [? _]. Qed.

Lemma dedup_claim b host proto rules sp :
  Forall plain_proto rules -> host <> "" ->
  claim b host proto (dd_out (dedup rules)) sp <-> claim b host proto (NormalizeRule <$> rules) sp.
Proof.
  intros Hp Hh. pose proof (dedup_spec rules) as D. split.
  - intros (r & Hr & H). apply (ok_from _ _ D) in Hr as (_ & r0 & H0 & ->).
    exists (NormalizeRule r0). split; [by apply list_elem_of_fmap_2|done].
  - intros (r & Hr & Hs & Hb & Hd & Hpr). apply list_elem_of_fmap in Hr as (r0 & -> & H0).
    assert (Hc : clean (NormalizeRule r0)).
    { split; [apply NormalizeRule_twice|]. split; [congruence|]. unfold opaque_span, PortSpan in Hs.
      unfold ValidatePortSpec. destruct (isOpaqueProto _); [|done]. by destruct (ParsePortSpec _). }
    pose proof (proj2 (accepted_clean r0) Hc) as Ha. apply (ok_keep _ _ D _ H0) in Ha.
    apply list_elem_of_fmap in Ha as (r & E & Hr). pose proof (dedup_plain rules Hp) as Hpl.
    pose proof (dedup_clean rules) as Hcl. rewrite Forall_forall in Hp, Hpl, Hcl.
    apply ActionKey_inj in E as (E1 & E2 & E3 & E4);
      [|by apply plain_proto_Normalize, Hp|by apply Hpl|apply port_ok_plain, Hc|apply port_ok_plain, Hcl, Hr].
    exists r. split; [done|]. rewrite <- E1, <- E2, <- E4. split; [|done].
    rewrite <- Hs. unfold opaque_span, PortSpan. by rewrite E2, E3.
Qed.

Lemma canonical_claims b host proto rules p :
  Forall plain_proto rules -> host <> "" ->
  let input := NormalizeRule <$> rules in
  claims b host proto (canonical rules) p <->
  claims b host proto input p /\
  (b = true \/ ~ claims true host proto input p \/
   (singly_claimed false host proto input p /\ singly_claimed true host proto input p)).
Proof.
  intros Hp Hh input. subst input. rewrite canonical_resolve, resolve_claims. unfold singly_claimed, claims.
  by setoid_rewrite dedup_claim.
Qed.

Lemma canonical_clean rules : Forall clean (canonical rules).
Proof. rewrite canonical_resolve. apply resolve_Forall; [apply clean_set_Port|apply dedup_clean]. Qed.

Lemma canonical_keys rules :
  Forall plain_proto rules -> NoDup (ActionKey <$> canonical rules).
Proof.
  intros Hp. rewrite canonical_resolve.
  apply resolve_keys; [by apply dedup_plain|apply dedup_clean|apply (ok_NoDup _ _ (dedup_spec rules))].
Qed.

Lemma canonical_twice rules : Forall plain_proto rules -> canonical (canonical rules) = canonical rules.
Proof.
  intros Hp. rewrite (canonical_resolve (canonical rules)), dedup_id.
  - rewrite canonical_resolve. apply resolve_twice.
  - apply canonical_clean.
  - by apply canonical_keys.
Qed.

(** ** Equality up to order *)

#[global] Instance key_le_trans : Transitive key_le.
Proof. intros a b c. unfold key_le. by transitivity (ActionKey b). Qed.
#[global] Instance key_le_total : Total key_le.
Proof. intros a b. unfold key_le. apply (total String.le). Qed.

Lemma sort_rules_perm l : sort_rules l ≡ₚ l.
Proof. apply merge_sort_Permutation. Qed.

Lemma sort_rules_eq a b : NoDup (ActionKey <$> a) -> a ≡ₚ b -> sort_rules a = sort_rules b.
Proof.
  intros Hn Hp. assert (Ha : sort_rules a ≡ₚ sort_rules b) by (by rewrite !sort_rules_perm).
  assert (Sa : StronglySorted key_le (sort_rules a)) by (apply StronglySorted_merge_sort; apply _).
  assert (Sb : StronglySorted key_le (sort_rules b)) by (apply StronglySorted_merge_sort; apply _).
  assert (Hna : NoDup (ActionKey <$> sort_rules a)) by (by rewrite sort_rules_perm).
  revert Ha Sa Sb Hna. generalize (sort_rules a) as l, (sort_rules b) as k. clear.
  induction l as [|x l IH]; intros [|y k] Hp Sa Sb Hn.
  - done.
  - by apply Permutation_nil_l in Hp.
  - by apply Permutation_nil_r in Hp.
  - apply StronglySorted_inv in Sa as [Sa Hx], Sb as [Sb Hy]. rewrite Forall_forall in Hx, Hy.
    assert (Hyl : y ∈ x :: l) by (rewrite Hp; by left).
    assert (Hxk : x ∈ y :: k) by (rewrite <- Hp; by left).
    assert (x = y) as ->.
    { apply elem_of_cons in Hyl as [->|Hyl]; [done|]. apply elem_of_cons in Hxk as [->|Hxk]; [done|].
      eapply NoDup_fmap_inj_in; [exact Hn|by left|by right|].
      apply (anti_symm String.le); [by apply Hx|by apply Hy]. }
    f_equal. apply Permutation_cons_inv in Hp. cbn in Hn. apply NoDup_cons in Hn as [_ Hn]. by apply IH.
Qed.

Lemma rulesCanonicalEqual_perm a b :
  NoDup (ActionKey <$> a) -> rulesCanonicalEqual a b = true <-> a ≡ₚ b.
Proof.
  intros Hn. unfold rulesCanonicalEqual. destruct (Nat.eqb_spec (length a) (length b)) as [E|E]; simpl.
  - rewrite bool_decide_eq_true. split; [|by apply sort_rules_eq].
    intros Hs. by rewrite <- (sort_rules_perm a), Hs, sort_rules_perm.
  - split; [done|]. intros Hp. by rewrite Hp in E.
Qed.

(** ** Theorems *)

Definition demo_rule (dst proto port action : string) : EgressRule :=
  mkRule dst proto port action [] "" false.

(** The rule set of the source's own example: tcp 45-50 allowed, 47 denied. *)
Definition demo_rules : list EgressRule :=
  [demo_rule "db.example.com" "tcp" "45-50" "allow"; demo_rule "db.example.com" "tcp" "47" "deny";
   demo_rule "api.example.com" "" "" ""].

Example demo_canonical :
  canonical demo_rules =
    [demo_rule "db.example.com" "tcp" "47" "deny"; demo_rule "db.example.com" "tcp" "45-46" "allow";
     demo_rule "db.example.com" "tcp" "48-50" "allow"; demo_rule "api.example.com" "https" "443" "allow"].
Proof. by vm_compute. Qed.

Lemma demo_plain : Forall plain_proto demo_rules.
Proof. repeat constructor. Qed.

Lemma demo_denied : claims true "db.example.com" "tcp" (NormalizeRule <$> demo_rules) 47.
Proof.
  exists (47, 47). split; [|unfold covers_span; simpl; lia].
  exists (NormalizeRule (demo_rule "db.example.com" "tcp" "47" "deny")).
  split; [right; left|]. by vm_compute.
Qed.

Lemma demo_allowed : claims false "db.example.com" "tcp" (NormalizeRule <$> demo_rules) 47.
Proof.
  exists (45, 50). split; [|unfold covers_span; simpl; lia].
  exists (NormalizeRule (demo_rule "db.example.com" "tcp" "45-50" "allow")).
  split; [left|]. by vm_compute.
Qed.

(** C7: Deny always persists.  For every destination and opaque protocol
    (tcp, ssh, udp) the canonical rule set denies exactly the ports that the
    input rules deny after normalization: no denied port is lost to
    deduplication, coalescing or carving, and none is added. *)
Theorem NormalizeAndDedup_denied rules host proto p :
  Forall plain_proto rules -> host <> "" ->
  claims true host proto (canonical rules) p <->
  claims true host proto (NormalizeRule <$> rules) p.
Proof. intros Hp Hh. rewrite canonical_claims by done. tauto. Qed.

Lemma NormalizeAndDedup_denied_witness :
  claims true "db.example.com" "tcp" (canonical demo_rules) 47.
Proof.
  apply (NormalizeAndDedup_denied demo_rules); [apply demo_plain|done|apply demo_denied].
Defined.

(** C8: Deny always wins.  A port of an opaque protocol is allowed by the
    canonical rule set exactly when the input allows it and does not deny it,
    or when both sides name only that single port: the contradictory
    all-single clash, which is deliberately left in for the generator to
    reject.  So an allow range never re-opens a denied port, and carving
    removes no port that was not denied. *)
Theorem NormalizeAndDedup_allowed rules host proto p :
  Forall plain_proto rules -> host <> "" ->
  let input := NormalizeRule <$> rules in
  claims false host proto (canonical rules) p <->
  claims false host proto input p /\
  (~ claims true host proto input p \/
   (singly_claimed false host proto input p /\ singly_claimed true host proto input p)).
Proof. intros Hp Hh. simpl. rewrite canonical_claims by done. naive_solver. Qed.

Lemma NormalizeAndDedup_allowed_witness : ~ claims false "db.example.com" "tcp" (canonical demo_rules) 47.
Proof.
  intros H. apply (NormalizeAndDedup_allowed demo_rules) in H as [_ [H|[[_ H] _]]];
    [apply H, demo_denied| |apply demo_plain|done].
  assert ((45, 50) = (47, 47)) as E; [|by simplify_eq].
  apply H; [|unfold covers_span; simpl; lia].
  exists (NormalizeRule (demo_rule "db.example.com" "tcp" "45-50" "allow")). split; [left|]. by vm_compute.
Defined.

(** Canonicalization is idempotent: re-normalizing, deduplicating and
    resolving a canonical rule set returns it unchanged, rule for rule and in
    the same order, so every reader of the store sees the same rules. *)
Theorem NormalizeAndDedup_idempotent rules :
  Forall plain_proto rules -> canonical (canonical rules) = canonical rules.
Proof. apply canonical_twice. Qed.

Lemma NormalizeAndDedup_idempotent_witness : canonical (canonical demo_rules) = canonical demo_rules.
Proof. apply (NormalizeAndDedup_idempotent demo_rules), demo_plain. Defined.

(** Within a canonical set each (rule key, action) pair occurs once, as
    [rulesCanonicalEqual] relies on. *)
Theorem canonical_keys_unique rules :
  Forall plain_proto rules -> NoDup (ActionKey <$> canonical rules).
Proof. apply canonical_keys. Qed.

Lemma canonical_keys_unique_witness : NoDup (ActionKey <$> canonical demo_rules).
Proof. apply (canonical_keys_unique demo_rules), demo_plain. Defined.

(** [rulesCanonicalEqual] decides equality of canonical rule sets up to
    the order of the rules: it holds exactly when one is a permutation of the
    other. *)
Theorem rulesCanonicalEqual_permutation rules b :
  Forall plain_proto rules -> rulesCanonicalEqual (canonical rules) b = true <-> canonical rules ≡ₚ b.
Proof. intros Hp. by apply rulesCanonicalEqual_perm, canonical_keys. Qed.

Lemma rulesCanonicalEqual_permutation_witness :
  rulesCanonicalEqual (canonical demo_rules) (reverse (canonical demo_rules)) = true.
Proof.
  apply (rulesCanonicalEqual_permutation demo_rules); [apply demo_plain|]. by rewrite reverse_Permutation.
Defined.

End Canonical.
