(* ===== verification/Removal.v ===== *)
(** * Removing rules from a canonical set

    Deleting rules from the output of [resolveOpaquePortConflicts] leaves a set
    that resolution does not touch again: the lemmas behind rule removal. *)

From S2P Require Import Prelude GoStrings EgressRule Spans Rules Conflicts Canonical.
Import Go Rule Spans Rules Conflicts Canonical.

Module Removal.

Lemma separated_sublist l k : l `sublist_of` k -> separated k -> separated l.
Proof.
  intros Hs [Hw Hst]. split.
  - rewrite Forall_forall in *. intros x Hx. apply Hw. by eapply elem_of_sublist.
  - clear Hw. induction Hs as [|x l k Hs IH|x l k Hs IH]; [constructor|..].
    + apply StronglySorted_inv in Hst as [Hst Hx]. constructor; [by apply IH|].
      rewrite Forall_forall in *. intros y Hy. apply Hx. by eapply elem_of_sublist.
    + apply StronglySorted_inv in Hst as [Hst _]. by apply IH.
Qed.

(** Sub-lists of resolved spans are resolved. *)
Lemma allowOut_sub allow deny a d :
  separated allow -> separated deny -> a `sublist_of` allowOut allow deny -> d `sublist_of` deny ->
  allowOut a d = a.
Proof.
  intros Ha Hd Sa Sd. pose proof (allowOut_separated allow deny Ha (proj1 Hd)) as Hs.
  assert (Hsa : separated a) by (by eapply separated_sublist).
  assert (Hsd : separated d) by (by eapply separated_sublist).
  unfold allowOut at 1. apply subtract_id; [apply Hsa|apply carveDeny_wf, Hsd|].
  intros p Hp Hc. apply carveDeny_covers in Hc as [Hcd Hn]; [|done]. apply Hn.
  apply covers_in in Hp as (sa & Hsa1 & Hsa2), Hcd as (sd & Hsd1 & Hsd2).
  assert (Hin : sa ∈ allowOut allow deny) by (by eapply elem_of_sublist).
  assert (Hind : sd ∈ deny) by (by eapply elem_of_sublist).
  assert (Hclash : (p, p) ∈ deny /\ (p, p) ∈ allow).
  { assert (Hcov : covers (allowOut allow deny) p) by (apply covers_in; by exists sa).
    apply subtract_covers in Hcov as [_ Hnc]. rewrite carveDeny_covers in Hnc by done.
    assert (covers deny p) by (apply covers_in; by exists sd).
    destruct (decide ((p, p) ∈ deny)), (decide ((p, p) ∈ allow)); tauto. }
  assert (Hpp : forall t, covers_span (p, p) t <-> t = p) by (intros; unfold covers_span; simpl; lia).
  assert (Hsingle : (p, p) ∈ allowOut allow deny).
  { apply allowOut_single; [apply Hd|apply Hclash|]. rewrite carveDeny_covers by done. tauto. }
  assert (sa = (p, p)) as -> by (eapply separated_unique; [exact Hs|..]; try done; by apply Hpp).
  assert (sd = (p, p)) as -> by (eapply separated_unique; [exact Hd|..]; try done; try tauto; by apply Hpp).
  done.
Qed.

Lemma fresh_order_mono rules s1 s2 o :
  (forall k, k ∈ s1 -> k ∈ s2) -> fresh_order rules s2 o -> fresh_order rules s1 o.
Proof.
  revert s1 s2. induction o as [|[r|k] o IH]; intros s1 s2 Hs; [done|..]; cbn [fresh_order].
  - intros [Hr Ho]. split; [done|]. by apply (IH s1 s2).
  - intros (Hk & Hm & Ho). split; [naive_solver|]. split; [done|]. eapply IH; [|exact Ho].
    intros x. rewrite !elem_of_union. naive_solver.
Qed.

Section Filter.
Context (P : EgressRule -> Prop) `{forall r, Decision (P r)}.

Definition kept (rules : list EgressRule) (s : slot) : list EgressRule := filter P (expand rules s).

Lemma filter_bind {A} (f : A -> list EgressRule) l : filter P (l ≫= f) = l ≫= (fun x => filter P (f x)).
Proof. induction l as [|x l IH]; [done|]. cbn [mbind list_bind]. by rewrite filter_app, <- IH. Qed.

Lemma filter_in_group k l : all_in_group k l -> all_in_group k (filter P l).
Proof.
  unfold all_in_group. rewrite !Forall_forall. intros Hl r Hr.
  apply list_elem_of_filter in Hr as [_ Hr]. auto.
Qed.

Lemma omap_filter_sublist (l : list EgressRule) :
  omap opaque_span (filter P l) `sublist_of` omap opaque_span l.
Proof.
  induction l as [|r l IH]; [done|]. rewrite filter_cons. cbn [omap list_omap].
  case_decide; cbn [omap list_omap]; destruct (opaque_span r); [by apply sublist_skip|done|by apply sublist_cons|done].
Qed.

Lemma with_action_filter b l : with_action b (filter P l) = filter P (with_action b l).
Proof.
  unfold with_action. rewrite !list_filter_filter. apply list_filter_iff. intros r. tauto.
Qed.

Lemma spans_of_kept k b ms :
  all_in_group k ms -> spans_of b (filter P (emit_group (group_of ms))) `sublist_of` spans_out b ms.
Proof.
  intros Hg. destruct (emitted_spec k ms Hg) as [_ He]. destruct (He b) as [_ <-].
  unfold spans_of. rewrite with_action_filter. apply omap_filter_sublist.
Qed.

(** The resolved form of what is left of a block is what is left. *)
Lemma emit_kept k ms :
  all_in_group k ms ->
  emit_group (group_of (filter P (emit_group (group_of ms)))) = filter P (emit_group (group_of ms)).
Proof.
  intros Hg. set (l := filter P (emit_group (group_of ms))). rewrite emit_group_stamped.
  assert (Hsub : forall b, spans_of b l `sublist_of` spans_out b ms) by (intros b; by apply (spans_of_kept k)).
  assert (Hsep : forall b, separated (spans_of b l)).
  { intros b. eapply separated_sublist; [apply Hsub|apply spans_out_separated]. }
  assert (Hout : forall b, spans_out b l = spans_of b l).
  { assert (Hd : deny_out l = spans_of true l) by (unfold deny_out; by apply merge_id).
    intros []; [done|]. simpl. unfold allow_out. rewrite Hd, merge_id by done.
    apply (allowOut_sub (mergeOverlappingSpans (spans_of false ms)) (deny_out ms));
      [apply merge_separated, spans_of_wf|apply (spans_out_separated true)|apply Hsub|apply Hsub]. }
  destruct (emitted_spec k ms Hg) as [_ He].
  assert (Hst : forall b, stamped b l = filter P (stamped b ms)).
  { intros b. unfold stamped at 1. rewrite Hout. unfold spans_of, l. rewrite with_action_filter.
    rewrite (proj1 (He b)). unfold stamped. pose proof (template_in k b ms Hg) as Ht.
    destruct (head (with_action b ms)) as [t|]; [|done]. destruct Ht as (Hk & _ & _). simpl.
    pose proof (spans_out_valid b ms) as Hv. pose proof (in_group_opaque _ _ Hk) as Ho.
    assert (Hgen : forall l0, Forall valid_span l0 ->
      (fun sp => set_Port t (formatSpan sp)) <$> omap opaque_span (filter P ((fun sp => set_Port t (formatSpan sp)) <$> l0))
      = filter P ((fun sp => set_Port t (formatSpan sp)) <$> l0)).
    { induction 1 as [|sp l0 Hsp _ IH]; [done|]. cbn [fmap list_fmap]. rewrite filter_cons.
      case_decide; [|done]. cbn [omap list_omap]. rewrite restamp_span by done. cbn [fmap list_fmap]. by rewrite IH. }
    specialize (Hgen _ Hv).
    destruct (filter P ((fun sp => set_Port t (formatSpan sp)) <$> spans_out b ms)) as [|r0 l0] eqn:E; [done|]. simpl.
    assert (r0 ∈ filter P ((fun sp => set_Port t (formatSpan sp)) <$> spans_out b ms)) as Hr0 by (rewrite E; by left).
    apply list_elem_of_filter in Hr0 as [_ Hr0]. apply list_elem_of_fmap in Hr0 as (sp0 & -> & _). exact Hgen. }
  rewrite !Hst, <- filter_app, <- emit_group_stamped. done.
Qed.

Lemma kept_verbatim rules r : kept rules (VerbatimSlot r) = if decide (P r) then [r] else [].
Proof. unfold kept. cbn [expand]. by rewrite filter_cons, filter_nil. Qed.

Lemma order_of_kept rules seen o :
  fresh_order rules seen o -> order_of seen (o ≫= kept rules) = filter (fun s => kept rules s <> []) o.
Proof.
  revert seen. induction o as [|[r|k] o IH]; intros seen Hf; [done|..]; cbn [mbind list_bind]; rewrite filter_cons.
  - destruct Hf as [Hr Hf]. pose proof (kept_verbatim rules r) as E. destruct (decide (P r)).
    + rewrite decide_True, E by (by rewrite E). simpl. rewrite Hr. f_equal. by apply IH.
    + rewrite decide_False, E by (by intros []). by apply IH.
  - destruct Hf as (Hk & Hm & Hf).
    destruct (emitted_spec k _ (members_in_group k rules)) as [Hin _]. apply filter_in_group in Hin.
    change (filter P _) with (kept rules (GroupSlot k)) in Hin.
    destruct (kept rules (GroupSlot k)) as [|r0 l0] eqn:E.
    + rewrite decide_False by (by intros []). apply IH. eapply fresh_order_mono; [|exact Hf].
      intros x Hx. apply elem_of_union. by right.
    + rewrite decide_True by done. apply Forall_cons in Hin as [[[sp Hs] Hkey] Hin]. simpl.
      rewrite Hs, Hkey, bool_decide_eq_false_2 by done. f_equal.
      rewrite (order_of_seen _ _ _ k); [by apply IH|done|]. apply elem_of_union. left. by apply elem_of_singleton.
Qed.

Lemma members_kept k rules seen o :
  fresh_order rules seen o ->
  members k (o ≫= kept rules) = if bool_decide (GroupSlot k ∈ o) then filter P (block k rules) else [].
Proof.
  intros Hf. unfold kept. rewrite <- filter_bind.
  assert (Hcomm : forall l, members k (filter P l) = filter P (members k l)).
  { intros l. unfold members. rewrite !list_filter_filter. apply list_filter_iff. intros r. tauto. }
  rewrite Hcomm, (members_expand rules k seen) by done. by case_bool_decide.
Qed.

Lemma resolve_filter rules :
  let out := filter P (resolveOpaquePortConflicts rules).1 in
  (resolveOpaquePortConflicts out).1 = out.
Proof.
  intros out. assert (Eo : out = order_of ∅ rules ≫= kept rules).
  { subst out. by rewrite resolve_expand, filter_bind. }
  assert (Hf : fresh_order rules ∅ (order_of ∅ rules)) by (by apply order_of_fresh).
  assert (Hmem : forall k, GroupSlot k ∈ order_of ∅ rules -> block k out = filter P (block k rules)).
  { intros k Hk. unfold block at 1. rewrite Eo, (members_kept k rules ∅), bool_decide_eq_true_2 by done.
    apply (emit_kept k), members_in_group. }
  rewrite resolve_expand. replace (order_of ∅ out) with (filter (fun s => kept rules s <> []) (order_of ∅ rules))
    by (by rewrite Eo, order_of_kept).
  transitivity (order_of ∅ rules ≫= kept rules); [|done]. clearbody out. clear Eo Hf.
  revert Hmem. generalize (order_of ∅ rules) as o. intros o Hmem.
  induction o as [|s o IH]; [done|]. rewrite filter_cons. cbn [mbind list_bind].
  assert (Hs : kept rules s <> [] -> expand out s = kept rules s).
  { destruct s as [r|k]; simpl; intros Hne; [|apply Hmem; by left].
    rewrite kept_verbatim in Hne |- *. by destruct (decide (P r)). }
  case_decide as Hd.
  - cbn [mbind list_bind]. rewrite Hs by done. f_equal. apply IH. intros k Hk. apply Hmem. by right.
  - rewrite Hd. apply IH. intros k Hk. apply Hmem. by right.
Qed.

(** Removing rules from a canonical set leaves a canonical set. *)
Lemma canonical_filter rules :
  Forall plain_proto rules -> canonical (filter P (canonical rules)) = filter P (canonical rules).
Proof.
  intros Hp. rewrite (canonical_resolve (filter P _)), dedup_id.
  - rewrite canonical_resolve. apply resolve_filter.
  - pose proof (canonical_clean rules) as Hc. rewrite Forall_forall in *.
    intros r [_ Hr]%list_elem_of_filter. auto.
  - eapply sublist_NoDup; [by apply (canonical_keys rules)|]. apply fmap_sublist, sublist_filter.
Qed.

End Filter.

End Removal.
