(* ===== verification/RuleStore.v ===== *)
(** * The egress rules store and the rule RPCs

    The read-modify-write transactions of controlplane/firewall/handler.go
    ([addRulesToStore], [removeRuleFromStore], [removePathRuleFromStore]), the
    outcomes of rule_status.go, the RPCs [FirewallAddRules] and
    [FirewallRemoveRule] around them, and the healing transaction of stack.go. *)

From S2P Require Import Prelude GoStrings EgressRule Wire Spans Rules Conflicts Canonical Removal.
Import Go Rule Wire Spans Rules Conflicts Canonical Removal.

Module RuleStore.

(** ** Outcomes (rule_status.go) *)

Inductive addStatus := addStatusUnspecified | addStatusAdded | addStatusModified | addStatusUnchanged.
Inductive removeStatus :=
  removeStatusUnspecified | removeStatusRemoved | removeStatusPathRemoved | removeStatusNotFound.

#[global] Instance addStatus_eq_dec : EqDecision addStatus.
Proof. solve_decision. Defined.

(** The protobuf enumerations are isomorphic; their values are these. *)
Inductive AddRuleStatus := ADD_UNSPECIFIED | ADD_ADDED | ADD_MODIFIED | ADD_UNCHANGED.
Inductive RemoveRuleStatus := REMOVE_UNSPECIFIED | REMOVE_REMOVED | REMOVE_PATH_REMOVED | REMOVE_NOT_FOUND.

Definition toProtoAddStatus (s : addStatus) : AddRuleStatus :=
  match s with
  | addStatusAdded => ADD_ADDED
  | addStatusModified => ADD_MODIFIED
  | addStatusUnchanged => ADD_UNCHANGED
  | addStatusUnspecified => ADD_UNSPECIFIED
  end.

Definition toProtoRemoveStatus (s : removeStatus) : RemoveRuleStatus :=
  match s with
  | removeStatusRemoved => REMOVE_REMOVED
  | removeStatusPathRemoved => REMOVE_PATH_REMOVED
  | removeStatusNotFound => REMOVE_NOT_FOUND
  | removeStatusUnspecified => REMOVE_UNSPECIFIED
  end.

Definition anyAddChange (statuses : list addStatus) : bool :=
  existsb (fun s => bool_decide (s = addStatusAdded \/ s = addStatusModified)) statuses.

(** ** The store *)

(** The rules held by the in-memory tree and the ones last flushed. *)
Record store := mkStore { mem : list EgressRule; disk : list EgressRule }.

(** Which storage operations fail in a transaction. *)
Record faults := mkFaults { get_fails : bool; set_fails : bool; write_fails : bool }.
Definition no_faults : faults := mkFaults false false false.

Inductive StoreError := ReadingRules | UpdatingRules | WritingRules.

Definition getRules (f : faults) (s : store) : result StoreError (list EgressRule) :=
  if get_fails f then Err ReadingRules else Ok (mem s).

(** [tx.Set] stages the rules in memory, [tx.Write] flushes them. *)
Definition writeRules (f : faults) (s : store) (rules : list EgressRule) : result StoreError unit * store :=
  if set_fails f then (Err UpdatingRules, s)
  else
    let s := mkStore rules (disk s) in
    if write_fails f then (Err WritingRules, s) else (Ok tt, mkStore (mem s) (mem s)).

(** ** addRulesToStore *)

Definition index_rules (existing : list EgressRule) : gmap string nat :=
  foldl (fun m '(i, r) => <[RuleKey r := i]> m) ∅ (imap pair existing).

(** The merge loop: the index, the rules, and the statuses so far. *)
Record merging := mkMerging {
  mg_index : gmap string nat;
  mg_existing : list EgressRule;
  mg_statuses : list addStatus;
}.

(** The index only holds positions of the list (see [index_ok]); the last
    branch is not reached. *)
Definition merge_step (st : merging) (r : EgressRule) : merging :=
  let key := RuleKey r in
  match mg_index st !! key with
  | Some j =>
      match mg_existing st !! j with
      | Some e =>
          let merged := MergeRule e r in
          if bool_decide (e = merged)
          then mkMerging (mg_index st) (mg_existing st) (mg_statuses st ++ [addStatusUnchanged])
          else mkMerging (mg_index st) (<[j := merged]> (mg_existing st)) (mg_statuses st ++ [addStatusModified])
      | None => st
      end
  | None =>
      mkMerging (<[key := length (mg_existing st)]> (mg_index st)) (mg_existing st ++ [r])
                (mg_statuses st ++ [addStatusAdded])
  end.

Definition merge_batch (existing rules : list EgressRule) : merging :=
  foldl merge_step (mkMerging (index_rules existing) existing []) (NormalizeRule <$> rules).

Definition addRulesToStore (f : faults) (s : store) (rules : list EgressRule)
    : result StoreError (list addStatus) * store :=
  match getRules f s with
  | Err e => (Err e, s)
  | Ok stored =>
      let existing := canonical stored in
      let before := existing in
      let st := merge_batch existing rules in
      let after := canonical (mg_existing st) in
      if rulesCanonicalEqual before after
      then (Ok ((fun _ => addStatusUnchanged) <$> mg_statuses st), s)
      else
        match writeRules f s after with
        | (Err e, s') => (Err e, s')
        | (Ok _, s') => (Ok (mg_statuses st), s')
        end
  end.

(** ** Removal *)

Definition removeRuleFromStore (f : faults) (s : store) (toRemove : EgressRule)
    : result StoreError bool * store :=
  let targetKey := RuleKey (NormalizeRule toRemove) in
  match getRules f s with
  | Err e => (Err e, s)
  | Ok stored =>
      let normalized := canonical stored in
      let matched := existsb (fun r => String.eqb (RuleKey r) targetKey) normalized in
      let filtered := filter (fun r => RuleKey r <> targetKey) normalized in
      if negb matched then (Ok false, s)
      else
        match writeRules f s filtered with
        | (Err e, s') => (Err e, s')
        | (Ok _, s') => (Ok true, s')
        end
  end.

Definition removePathRuleFromStore (f : faults) (s : store) (toRemove : EgressRule) (path : string)
    : result StoreError bool * store :=
  let targetKey := RuleKey (NormalizeRule toRemove) in
  match getRules f s with
  | Err e => (Err e, s)
  | Ok stored =>
      let normalized := canonical stored in
      match list_find (fun r => RuleKey r = targetKey) normalized with
      | None => (Ok false, s)
      | Some (idx, r) =>
          let matched := existsb (fun p => String.eqb (Path p) path) (PathRules r) in
          let filtered := filter (fun p => Path p <> path) (PathRules r) in
          if negb matched then (Ok false, s)
          else
            match writeRules f s (<[idx := set_PathRules r filtered]> normalized) with
            | (Err e, s') => (Err e, s')
            | (Ok _, s') => (Ok true, s')
            end
      end
  end.

(** ** Healing (stack.go, ensureConfigs) *)

(** Whether a stored rule and the canonical rule at its position differ in a
    healed field. *)
Definition heal_differs (r n : EgressRule) : bool :=
  negb (String.eqb (Proto r) (Proto n)) || negb (String.eqb (Action r) (Action n))
  || negb (String.eqb (Port r) (Port n)).

(** The transaction of [ensureConfigs]: the canonical rules, re-saved when
    their number or one of the compared fields differs from what is stored. *)
Definition heal (f : faults) (s : store) : result StoreError (list EgressRule) * store :=
  match getRules f s with
  | Err e => (Err e, s)
  | Ok stored =>
      let rules := canonical stored in
      let healed :=
        if negb (Nat.eqb (length rules) (length stored)) then true
        else existsb (fun '(r, n) => heal_differs r n) (combine stored rules) in
      if healed then
        match writeRules f s rules with
        | (Err e, s') => (Err e, s')
        | (Ok _, s') => (Ok rules, s')
        end
      else (Ok rules, s)
  end.

(** ** RPCs *)

Record AddRulesResult := mkAddResult { ar_statuses : list AddRuleStatus; ar_restarted : bool }.
Record RemoveRuleResult := mkRemoveResult { rr_status : RemoveRuleStatus; rr_restarted : bool }.

Section RPC.
Variable regexp_compiles : string -> bool.
(** What [submit(ActionReconcile, reconcileStackClosure)] returns: an error,
    or whether the stack was restarted. *)
Variable reconcile : result error bool.

(** An RPC returns its reply or a gRPC status, the store, and the number of
    reconciles it submitted. *)
Definition rpc (A : Type) : Type := result (option (code * list string)) A * store * nat.

Definition FirewallAddRules (f : faults) (s : store) (req : list PbEgressRule) : rpc AddRulesResult :=
  let rules := EgressRulesFromProto req in
  if negb (forallb (fun r => is_ok (ValidateRule regexp_compiles r)) rules)
  then (Err (toStatus (Some [ErrRuleInvalid])), s, 0%nat)
  else
    match addRulesToStore f s rules with
    | (Err _, s') => (Err (toStatus (Some [ErrRuleStoreWrite])), s', 0%nat)
    | (Ok statuses, s') =>
        if negb (anyAddChange statuses)
        then (Ok (mkAddResult (toProtoAddStatus <$> statuses) false), s', 0%nat)
        else
          match reconcile with
          | Err e => (Err (toStatus (Some e)), s', 1%nat)
          | Ok restarted => (Ok (mkAddResult (toProtoAddStatus <$> statuses) restarted), s', 1%nat)
          end
    end.

Definition FirewallRemoveRule (f : faults) (s : store) (dst proto port path : string) : rpc RemoveRuleResult :=
  let rule := mkRule dst proto port "" [] "" false in
  let pathMode := negb (String.eqb path "") in
  let '(res, s') :=
    if pathMode then removePathRuleFromStore f s rule path else removeRuleFromStore f s rule in
  match res with
  | Err _ => (Err (toStatus (Some [ErrRuleStoreWrite])), s', 0%nat)
  | Ok false => (Ok (mkRemoveResult (toProtoRemoveStatus removeStatusNotFound) false), s', 0%nat)
  | Ok true =>
      match reconcile with
      | Err e => (Err (toStatus (Some e)), s', 1%nat)
      | Ok restarted =>
          (Ok (mkRemoveResult
                 (toProtoRemoveStatus (if pathMode then removeStatusPathRemoved else removeStatusRemoved))
                 restarted), s', 1%nat)
      end
  end.
End RPC.

(** ** The merge loop *)

(** The index locates rules by their key. *)
Definition index_ok (st : merging) : Prop :=
  forall k j, mg_index st !! k = Some j -> exists e, mg_existing st !! j = Some e /\ RuleKey e = k.

Lemma index_rules_snoc l r : index_rules (l ++ [r]) = <[RuleKey r := length l]> (index_rules l).
Proof. unfold index_rules. rewrite imap_app, foldl_app. simpl. by rewrite Nat.add_0_r. Qed.

Lemma index_rules_ok l : index_ok (mkMerging (index_rules l) l []).
Proof.
  unfold index_ok. simpl. induction l as [|r l IH] using rev_ind; intros k j; [done|].
  rewrite index_rules_snoc. intros [[<- <-]|[Hne Hj]]%lookup_insert_Some.
  - exists r. split; [|done]. by rewrite list_lookup_middle.
  - destruct (IH k j Hj) as (e & He & Hk). exists e. split; [|done]. by apply lookup_app_l_Some.
Qed.

Lemma MergeRule_ident e r :
  Dst (MergeRule e r) = Dst e /\ Proto (MergeRule e r) = Proto e /\ Port (MergeRule e r) = Port e /\
  Action (MergeRule e r) = Action r /\ RuleKey (MergeRule e r) = RuleKey e.
Proof. unfold MergeRule. by case_match. Qed.

(** One step: the index stays right, the rule's key is then located at a rule
    with the caller's action, and every other entry is untouched. *)
Lemma merge_step_spec st r :
  index_ok st ->
  let st' := merge_step st r in
  index_ok st' /\
  (exists j e, mg_index st' !! RuleKey r = Some j /\ mg_existing st' !! j = Some e /\ Action e = Action r) /\
  (forall k j e, k <> RuleKey r -> mg_index st !! k = Some j -> mg_existing st !! j = Some e ->
     mg_index st' !! k = Some j /\ mg_existing st' !! j = Some e) /\
  (exists x, mg_statuses st' = mg_statuses st ++ [x] /\
     (x = addStatusUnchanged -> mg_existing st' = mg_existing st) /\
     (x <> addStatusUnchanged -> x = addStatusAdded \/ x = addStatusModified)).
Proof.
  intros Hi. unfold merge_step. destruct (mg_index st !! RuleKey r) as [j|] eqn:Ej.
  - destruct (Hi _ _ Ej) as (e & He & Hk). rewrite He.
    destruct (MergeRule_ident e r) as (_ & _ & _ & Ha & Hkey).
    case_bool_decide as Heq; simpl.
    + split; [done|]. split; [exists j, e; split_and!; [done..|congruence]|]. split; [done|]. by eexists.
    + pose proof (lookup_lt_Some _ _ _ He) as Hlt. split; [|split; [|split]].
      * intros k j' Hj'. simpl in *. destruct (decide (j = j')) as [<-|Hne].
        -- exists (MergeRule e r). rewrite list_lookup_insert_eq by done. split; [done|].
           destruct (Hi _ _ Hj') as (e' & ? & ?). congruence.
        -- rewrite list_lookup_insert_ne by done. by apply Hi.
      * exists j, (MergeRule e r). by rewrite list_lookup_insert_eq.
      * intros k j' e' Hne Hj' He'. split; [done|]. destruct (decide (j = j')) as [<-|?].
        -- exfalso. apply Hne. destruct (Hi _ _ Hj') as (? & ? & ?). congruence.
        -- by rewrite list_lookup_insert_ne.
      * eexists. split; [done|]. split; [done|]. auto.
  - split; [|split; [|split]]; simpl.
    + intros k j Hkj. simpl in *. apply lookup_insert_Some in Hkj as [[<- <-]|[Hne Hj]].
      * exists r. by rewrite list_lookup_middle.
      * destruct (Hi k j Hj) as (e & He & Hk). exists e. split; [|done]. by apply lookup_app_l_Some.
    + exists (length (mg_existing st)), r. by rewrite lookup_insert_eq, list_lookup_middle.
    + intros k j e Hne Hj He. rewrite lookup_insert_ne by done. split; [done|]. by apply lookup_app_l_Some.
    + eexists. split; [done|]. split; [done|]. auto.
Qed.

(** The last rule of a batch for a key. *)
Definition last_for (k : string) (l : list EgressRule) : option EgressRule :=
  last (filter (fun r => RuleKey r = k) l).

Lemma last_for_snoc k l r :
  last_for k (l ++ [r]) = if decide (RuleKey r = k) then Some r else last_for k l.
Proof.
  unfold last_for. rewrite filter_app, filter_cons, filter_nil. case_decide; [apply last_snoc|by rewrite app_nil_r].
Qed.

Record merged_ok (existing batch : list EgressRule) (st : merging) : Prop := {
  mo_index : index_ok st;
  mo_last : forall k r, last_for k batch = Some r ->
    exists j e, mg_index st !! k = Some j /\ mg_existing st !! j = Some e /\ Action e = Action r;
  mo_length : length (mg_statuses st) = length batch;
  mo_quiet : Forall (fun x => x = addStatusUnchanged) (mg_statuses st) -> mg_existing st = existing;
  mo_loud : anyAddChange (mg_statuses st) = true \/ Forall (fun x => x = addStatusUnchanged) (mg_statuses st);
}.

Lemma anyAddChange_app a b : anyAddChange (a ++ b) = anyAddChange a || anyAddChange b.
Proof. apply existsb_app. Qed.

Lemma merge_batch_ok existing batch :
  merged_ok existing batch (foldl merge_step (mkMerging (index_rules existing) existing []) batch).
Proof.
  induction batch as [|r batch [I1 I2 I3 I4 I5]] using rev_ind.
  - constructor; simpl; [apply index_rules_ok|done|done|done|]. right. constructor.
  - rewrite foldl_snoc. set (st := foldl merge_step _ batch) in *.
    destruct (merge_step_spec st r I1) as (Hi & (j & e & Hj & He & Ha) & Hother & (x & Hx & Hu & Hc)).
    constructor; [done|..].
    + intros k r0. rewrite last_for_snoc. case_decide as Hk.
      * intros [= <-]. subst k. by exists j, e.
      * intros Hl. destruct (I2 k r0 Hl) as (j0 & e0 & Hj0 & He0 & Ha0).
        destruct (Hother k j0 e0) as [? ?]; [congruence|done..|]. by exists j0, e0.
    + rewrite Hx, !length_app, I3. done.
    + rewrite Hx. intros [Hf Hf2]%Forall_app. rewrite Forall_singleton in Hf2. by rewrite (Hu Hf2), (I4 Hf).
    + rewrite Hx, anyAddChange_app. destruct I5 as [->|Hf]; [by left|].
      destruct (decide (x = addStatusUnchanged)) as [->|Hne].
      * right. apply Forall_app. by rewrite Forall_singleton.
      * left. destruct (Hc Hne) as [->| ->]; by rewrite orb_true_r.
Qed.

Lemma all_unchanged_quiet l : Forall (fun x => x = addStatusUnchanged) l -> anyAddChange l = false.
Proof. induction 1 as [|x l ->]; [done|]. by simpl. Qed.

Lemma fmap_unchanged (l : list addStatus) : Forall (fun x => x = addStatusUnchanged) ((fun _ => addStatusUnchanged) <$> l).
Proof. by apply Forall_fmap, Forall_true. Qed.

(** What a fault-free add does to the store. *)
Lemma addRulesToStore_eq s rules :
  let merged := mg_existing (merge_batch (canonical (mem s)) rules) in
  exists statuses,
    addRulesToStore no_faults s rules =
      (Ok statuses, if rulesCanonicalEqual (canonical (mem s)) (canonical merged) then s
                    else mkStore (canonical merged) (canonical merged)) /\
    length statuses = length rules /\
    (Forall plain_proto (mem s) ->
     anyAddChange statuses = negb (rulesCanonicalEqual (canonical (mem s)) (canonical merged))).
Proof.
  intros merged. unfold addRulesToStore. simpl. fold merged.
  pose proof (merge_batch_ok (canonical (mem s)) (NormalizeRule <$> rules)) as M.
  fold (merge_batch (canonical (mem s)) rules) in M.
  assert (Hlen : length (mg_statuses (merge_batch (canonical (mem s)) rules)) = length rules).
  { rewrite (mo_length _ _ _ M). apply length_fmap. }
  destruct (rulesCanonicalEqual (canonical (mem s)) (canonical merged)) eqn:E.
  - eexists. split; [done|]. split; [by rewrite length_fmap|]. intros _.
    apply all_unchanged_quiet, fmap_unchanged.
  - eexists. split; [done|]. split; [done|]. intros Hp. simpl.
    destruct (mo_loud _ _ _ M) as [->|Hq]; [done|]. exfalso.
    apply (mo_quiet _ _ _ M) in Hq. subst merged. rewrite Hq, canonical_twice in E by done.
    assert (rulesCanonicalEqual (canonical (mem s)) (canonical (mem s)) = true) as E2.
    { apply rulesCanonicalEqual_perm; [by apply canonical_keys|done]. }
    congruence.
Qed.

(** ** Rules in force *)

(** [e] names the same destination, protocol and port as a clean rule. *)
Definition clean_ident (e : EgressRule) : Prop :=
  exists c, clean c /\ Dst e = Dst c /\ Proto e = Proto c /\ Port e = Port c.

Lemma clean_ident_Normalize e :
  clean_ident e -> accepted e = true /\ ActionKey (NormalizeRule e) = ActionKey e /\ Proto (NormalizeRule e) = Proto e.
Proof.
  intros (c & (Hn & Hd & Hv) & E1 & E2 & E3).
  assert (Hf : Proto (NormalizeRule e) = Proto e /\ Port (NormalizeRule e) = Port e).
  { rewrite NormalizeRule_eq in Hn. rewrite NormalizeRule_eq. cbn [Proto Port].
    apply (f_equal Proto) in Hn as Hp. apply (f_equal Port) in Hn as Hpo. cbn [Proto Port] in Hp, Hpo.
    by rewrite E2, E3, Hp, <- Hp, Hpo. }
  destruct Hf as [Hf1 Hf2]. destruct (NormalizeRule_fields e) as (Hf3 & _ & _).
  assert (Ha : isDenyAction (Action (NormalizeRule e)) = isDenyAction (Action e)).
  { rewrite NormalizeRule_eq. cbn [Action]. destruct (String.eqb_spec (Action e) "") as [->|]; done. }
  split; [|split; [|done]].
  - unfold accepted. rewrite Hf3, E1. unfold ValidatePortSpec in *. rewrite Hf2, E3, Hv.
    by destruct (String.eqb_spec (normalizeDomain (Dst c)) "").
  - unfold ActionKey, RuleKey. by rewrite Hf1, Hf2, Hf3, Ha.
Qed.

Lemma merged_clean_ident existing rules :
  Forall clean existing -> Forall (fun r => accepted r = true) rules ->
  Forall clean_ident (mg_existing (merge_batch existing rules)).
Proof.
  intros He Hr. unfold merge_batch.
  assert (Hb : Forall clean (NormalizeRule <$> rules)).
  { apply Forall_fmap. eapply Forall_impl; [exact Hr|]. intros r Ha. by apply accepted_clean. }
  clear Hr. revert Hb. generalize (NormalizeRule <$> rules) as batch. intros batch Hb.
  induction batch as [|r batch IH] using rev_ind.
  - simpl. eapply Forall_impl; [exact He|]. intros e Hc. by exists e.
  - apply Forall_app in Hb as [Hb Hr]. rewrite Forall_singleton in Hr. specialize (IH Hb).
    rewrite foldl_snoc. set (st := foldl merge_step _ batch) in *. unfold merge_step.
    destruct (mg_index st !! RuleKey r) as [j|] eqn:Ej.
    + destruct (mg_existing st !! j) as [e|] eqn:E; [|done]. case_bool_decide; [done|]. simpl.
      apply Forall_insert; [done|]. rewrite Forall_lookup in IH. destruct (IH j e E) as (c & Hc & ? & ? & ?).
      exists c. destruct (MergeRule_ident e r) as (-> & -> & -> & _). done.
    + simpl. apply Forall_app. split; [done|]. rewrite Forall_singleton. by exists r.
Qed.

(** A non-opaque rule of a list is in force in its canonical form. *)
Lemma canonical_in_force l e :
  Forall plain_proto l -> e ∈ l -> clean_ident e -> isOpaqueProto (Proto e) = false ->
  exists r, r ∈ canonical l /\ ActionKey r = ActionKey e.
Proof.
  intros Hp He Hc Ho. destruct (clean_ident_Normalize e Hc) as (Ha & Hk & Hpr).
  pose proof (dedup_spec l) as D. apply (ok_keep _ _ D e He) in Ha. rewrite Hk in Ha.
  apply list_elem_of_fmap in Ha as (r & E & Hr). exists r. split; [|done].
  rewrite canonical_resolve. apply resolve_elem. left. split; [done|].
  destruct Hc as (c & Hc & _ & E2 & E3). pose proof (dedup_plain l Hp) as Hpl. pose proof (dedup_clean l) as Hcl.
  rewrite Forall_forall in Hp, Hpl, Hcl. apply ActionKey_inj in E as (_ & Epr & _).
  - unfold opaque_span. by rewrite <- Epr, Ho.
  - by apply Hp.
  - by apply Hpl.
  - unfold plain_port. rewrite E3. apply port_ok_plain, Hc.
  - apply port_ok_plain, Hcl, Hr.
Qed.

Lemma merged_plain existing rules :
  Forall plain_proto existing -> Forall plain_proto rules ->
  Forall plain_proto (mg_existing (merge_batch existing rules)).
Proof.
  intros He Hr. unfold merge_batch.
  assert (Hb : Forall plain_proto (NormalizeRule <$> rules)).
  { apply Forall_fmap. eapply Forall_impl; [exact Hr|]. intros r. apply plain_proto_Normalize. }
  clear Hr. revert Hb. generalize (NormalizeRule <$> rules) as batch. intros batch Hb.
  induction batch as [|r batch IH] using rev_ind; [done|].
  apply Forall_app in Hb as [Hb Hr]. rewrite Forall_singleton in Hr. specialize (IH Hb).
  rewrite foldl_snoc. set (st := foldl merge_step _ batch) in *. unfold merge_step.
  destruct (mg_index st !! RuleKey r) as [j|] eqn:Ej.
  - destruct (mg_existing st !! j) as [e|] eqn:E; [|done]. case_bool_decide; [done|]. simpl.
    apply Forall_insert; [done|]. rewrite Forall_lookup in IH. unfold plain_proto.
    destruct (MergeRule_ident e r) as (_ & -> & _). by apply (IH j e E).
  - simpl. apply Forall_app. by rewrite Forall_singleton.
Qed.

Lemma canonical_plain rules : Forall plain_proto rules -> Forall plain_proto (canonical rules).
Proof. intros Hp. rewrite canonical_resolve. apply resolve_Forall; [done|by apply dedup_plain]. Qed.

Lemma canonical_perm_in l k r : rulesCanonicalEqual (canonical l) k = true -> Forall plain_proto l -> r ∈ k -> r ∈ canonical l.
Proof. intros E Hp Hr. apply rulesCanonicalEqual_perm in E; [|by apply canonical_keys]. by rewrite E. Qed.

(** ** Removing a path *)

(** Replace the path rules of the rules with a given key. *)
Definition repath (k : string) (f : EgressRule -> list PathRule) (r : EgressRule) : EgressRule :=
  if decide (ActionKey r = k) then set_PathRules r (f r) else r.

Lemma repath_ident k f r :
  opaque_span (repath k f r) = opaque_span r /\ group_key (repath k f r) = group_key r /\
  ActionKey (repath k f r) = ActionKey r /\ Action (repath k f r) = Action r.
Proof. unfold repath. by case_decide. Qed.

Definition map_slot (g : EgressRule -> EgressRule) (s : slot) : slot :=
  match s with VerbatimSlot r => VerbatimSlot (g r) | GroupSlot k => GroupSlot k end.

Lemma order_of_repath k f seen rules :
  order_of seen (repath k f <$> rules) = map_slot (repath k f) <$> order_of seen rules.
Proof.
  revert seen. induction rules as [|r rs IH]; intros seen; [done|]. cbn [fmap list_fmap order_of].
  destruct (repath_ident k f r) as (-> & -> & _). destruct (opaque_span r); [|cbn; by f_equal].
  case_bool_decide; cbn; [done|by f_equal].
Qed.

(** When only passed-through rules are rewritten, resolution commutes with the
    rewriting. *)
Lemma resolve_repath k f rules :
  (forall r, r ∈ rules -> is_Some (opaque_span r) -> repath k f r = r) ->
  (resolveOpaquePortConflicts (repath k f <$> rules)).1 =
  order_of ∅ rules ≫= (fun s => match s with VerbatimSlot r => [repath k f r] | GroupSlot k => block k rules end).
Proof.
  intros Hid. rewrite resolve_expand, order_of_repath, list_fmap_bind. apply list_bind_ext_in.
  intros [r|k'] _; simpl; [done|]. unfold block. do 2 f_equal. clear -Hid. unfold members.
  induction rules as [|r rs IH]; [done|]. cbn [fmap list_fmap]. rewrite !filter_cons.
  specialize (IH (fun x Hx => Hid x (list_elem_of_further _ _ _ Hx))). destruct (repath_ident k f r) as (E1 & E2 & _).
  destruct (decide (in_group k' r)) as [Hg|Hg].
  - rewrite (Hid r) by (first [by left|apply Hg]). rewrite decide_True by done. by f_equal.
  - rewrite decide_False; [done|]. unfold in_group. by rewrite E1, E2.
Qed.

Lemma clean_set_PathRules t (P : PathRule -> Prop) `{forall p, Decision (P p)} :
  clean t -> clean (set_PathRules t (filter P (PathRules t))).
Proof.
  intros (Hn & Hd & Hv). split; [|done]. rewrite NormalizeRule_eq in Hn |- *.
  destruct t as [d pr po ac prs pd sk].
  cbn [Dst Proto Port Action PathRules PathDefault InsecureSkipTLSVerify set_PathRules] in *.
  injection Hn as E1 E2 E3 E4. rewrite E1, E3. rewrite E1 in E2. rewrite E2.
  assert (Hf : (fun p => set_Methods p (normalizeMethods (Methods p))) <$> filter P prs = filter P prs); [|by rewrite Hf].
  clear -E4. induction prs as [|p prs IH]; [done|]. cbn [fmap list_fmap] in E4. injection E4 as Ep Eps.
  rewrite filter_cons. case_decide; [|by apply IH]. cbn [fmap list_fmap]. by rewrite Ep, IH.
Qed.

Lemma insert_as_repath (l : list EgressRule) idx t f :
  NoDup (ActionKey <$> l) -> l !! idx = Some t ->
  <[idx := set_PathRules t (f t)]> l = repath (ActionKey t) f <$> l.
Proof.
  intros Hn Ht. apply list_eq. intros i. rewrite list_lookup_fmap. destruct (decide (i = idx)) as [->|Hne].
  - rewrite list_lookup_insert_eq by (by eapply lookup_lt_Some). rewrite Ht. simpl. unfold repath. by rewrite decide_True.
  - rewrite list_lookup_insert_ne by done. destruct (l !! i) as [r|] eqn:Er; [|done]. simpl. unfold repath.
    rewrite decide_False; [done|]. intros E. apply Hne. rewrite NoDup_alt in Hn.
    apply (Hn i idx (ActionKey r)); rewrite list_lookup_fmap; [by rewrite Er|by rewrite Ht, E].
Qed.

Lemma canonical_set_path rules idx t (P : PathRule -> Prop) `{forall p, Decision (P p)} :
  Forall plain_proto rules -> canonical rules !! idx = Some t -> isOpaqueProto (Proto t) = false ->
  let new := <[idx := set_PathRules t (filter P (PathRules t))]> (canonical rules) in
  canonical new = new.
Proof.
  intros Hp Ht Ho new. set (f := fun r => filter P (PathRules r)).
  pose proof (canonical_keys rules Hp) as Hn. pose proof (canonical_clean rules) as Hc.
  assert (Hres : (resolveOpaquePortConflicts (canonical rules)).1 = canonical rules).
  { rewrite canonical_resolve. apply resolve_twice. }
  assert (Enew : new = repath (ActionKey t) f <$> canonical rules) by (by apply (insert_as_repath _ _ _ f)).
  assert (Hid : forall r, r ∈ canonical rules -> is_Some (opaque_span r) -> repath (ActionKey t) f r = r).
  { intros r Hr [sp Hs]. unfold repath. case_decide as E; [|done]. exfalso.
    assert (r = t) as -> by (eapply NoDup_fmap_inj_in; [exact Hn|done|by eapply list_elem_of_lookup_2|done]).
    unfold opaque_span in Hs. by rewrite Ho in Hs. }
  rewrite (canonical_resolve new), dedup_id.
  - rewrite Enew, (resolve_repath _ _ _ Hid). 
    transitivity (repath (ActionKey t) f <$> (resolveOpaquePortConflicts (canonical rules)).1); [|by rewrite Hres].
    rewrite (resolve_expand (canonical rules)), list_bind_fmap_l.
    apply list_bind_ext_in. intros [r|k] Hin; [done|]. simpl.
    assert (Hb : forall r, r ∈ block k (canonical rules) -> repath (ActionKey t) f r = r).
    { intros r Hr. apply Hid.
      - rewrite <- Hres. apply resolve_elem. right. exists k. split; [|done]. by apply order_has_group in Hin as [? _].
      - by apply block_elem in Hr as [[? _] _]. }
    rewrite <- (list_fmap_id (block k (canonical rules))) at 1. symmetry. apply list_fmap_ext.
    intros i r Hi. apply Hb. by eapply list_elem_of_lookup_2.
  - apply Forall_insert; [done|]. apply clean_set_PathRules. rewrite Forall_lookup in Hc. by apply (Hc idx).
  - rewrite Enew, <- list_fmap_compose.
    assert (ActionKey ∘ repath (ActionKey t) f <$> canonical rules = ActionKey <$> canonical rules) as ->; [|done].
    apply list_fmap_ext. intros i r _. apply (repath_ident (ActionKey t) f r).
Qed.

(** ** Theorems *)

Definition demo_store : store := mkStore demo_rules demo_rules.

Lemma demo_store_plain : Forall plain_proto (mem demo_store).
Proof. apply demo_plain. Qed.

(** Healing under any storage fault leaves every reader's rules unchanged;
    without a fault it returns those rules, and running it again neither fails
    nor writes anything more. *)
Theorem heal_preserves_readers f s :
  Forall plain_proto (mem s) ->
  canonical (mem (heal f s).2) = canonical (mem s) /\
  (f = no_faults -> (heal f s).1 = Ok (canonical (mem s)) /\
                    heal f (heal f s).2 = (Ok (canonical (mem s)), (heal f s).2)).
Proof.
  intros Hp.
  assert (Hid : heal no_faults (mkStore (canonical (mem s)) (canonical (mem s))) =
                (Ok (canonical (mem s)), mkStore (canonical (mem s)) (canonical (mem s)))).
  { unfold heal. simpl. rewrite canonical_twice, Nat.eqb_refl by done. simpl.
    assert (existsb (fun '(r, n) => heal_differs r n) (combine (canonical (mem s)) (canonical (mem s))) = false) as ->; [|done].
    generalize (canonical (mem s)). intros l. induction l as [|r l IH]; [done|]. simpl.
    unfold heal_differs at 1. by rewrite !String.eqb_refl. }
  split.
  - unfold heal, getRules, writeRules. repeat case_match; simplify_eq/=; try done; by apply canonical_twice.
  - intros ->. destruct (heal no_faults s) as [res s'] eqn:E. pose proof E as E'. unfold heal in E. simpl in E.
    destruct (if negb _ then true else _); simplify_eq/=; done.
Qed.

(** The write gate of [addRulesToStore].  Without storage faults it
    reports one status per rule; it reports a change exactly when the canonical
    rule set moves (as a set); when nothing moves the store is untouched, and
    otherwise the canonical form of the merged rules is both held in memory and
    flushed.  So a reconcile is submitted exactly for the batches that changed
    what readers see. *)
Theorem addRulesToStore_gate s rules :
  Forall plain_proto (mem s) ->
  let after := canonical (mg_existing (merge_batch (canonical (mem s)) rules)) in
  exists statuses s', addRulesToStore no_faults s rules = (Ok statuses, s') /\
    length statuses = length rules /\
    (anyAddChange statuses = true <-> ~ canonical (mem s) ≡ₚ after) /\
    (anyAddChange statuses = false -> s' = s) /\
    (anyAddChange statuses = true -> s' = mkStore after after).
Proof.
  intros Hp after. destruct (addRulesToStore_eq s rules) as (statuses & E & Hlen & Hany).
  specialize (Hany Hp). fold after in E, Hany. rewrite E.
  eexists statuses, _. split; [done|]. split; [done|]. rewrite Hany.
  pose proof (rulesCanonicalEqual_perm (canonical (mem s)) after (canonical_keys _ Hp)) as Hperm.
  destruct (rulesCanonicalEqual (canonical (mem s)) after); simpl; split_and!; naive_solver.
Qed.

Lemma addRulesToStore_gate_witness :
  exists statuses s', addRulesToStore no_faults demo_store [demo_rule "db.example.com" "tcp" "45-50" "allow"]
                      = (Ok statuses, s') /\ anyAddChange statuses = false /\ s' = demo_store.
Proof.
  destruct (addRulesToStore_gate demo_store [demo_rule "db.example.com" "tcp" "45-50" "allow"] demo_store_plain)
    as (st & s' & E & _ & Hc & Hs & _).
  exists st, s'. split; [done|]. assert (anyAddChange st = false) as Hf.
  { apply not_true_iff_false. rewrite Hc. intros Hn. apply Hn. by vm_compute. }
  split; [done|]. by apply Hs.
Defined.

(** C20: After a fault-free add of valid rules, the caller's verdict is in
    force for every rule of a non-opaque protocol: the store's canonical set
    has a rule with the same destination, protocol and port that denies or
    allows as the last rule of the batch for that key does. *)
Theorem addRulesToStore_in_force s rules k r :
  Forall plain_proto (mem s) -> Forall plain_proto rules -> Forall (fun r => accepted r = true) rules ->
  last_for k (NormalizeRule <$> rules) = Some r -> isOpaqueProto (Proto r) = false ->
  exists r', r' ∈ canonical (mem (addRulesToStore no_faults s rules).2) /\
             RuleKey r' = k /\ isDenyAction (Action r') = isDenyAction (Action r).
Proof.
  intros Hps Hpr Hacc Hlast Ho. destruct (addRulesToStore_eq s rules) as (statuses & E & _ & _). rewrite E. clear E.
  set (merged := mg_existing (merge_batch (canonical (mem s)) rules)).
  assert (Hpm : Forall plain_proto merged) by (by apply merged_plain; [apply canonical_plain|]).
  pose proof (merged_clean_ident _ rules (canonical_clean (mem s)) Hacc) as Hci. fold merged in Hci.
  pose proof (merge_batch_ok (canonical (mem s)) (NormalizeRule <$> rules)) as M.
  fold (merge_batch (canonical (mem s)) rules) in M.
  destruct (mo_last _ _ _ M k r Hlast) as (j & e & Hj & He & Ha).
  destruct (mo_index _ _ _ M k j Hj) as (e' & He' & Hk). assert (e' = e) as -> by congruence.
  assert (Hin : e ∈ merged) by (by eapply list_elem_of_lookup_2).
  assert (Hkr : RuleKey r = k /\ r ∈ NormalizeRule <$> rules).
  { apply last_Some_elem_of in Hlast. by apply list_elem_of_filter in Hlast. }
  destruct Hkr as [Hkr Hr]. apply list_elem_of_fmap in Hr as (r0 & -> & Hr0).
  rewrite Forall_forall in Hci. pose proof (Hci e Hin) as Hce.
  assert (Hpro : Proto e = Proto (NormalizeRule r0)).
  { rewrite Forall_forall in Hacc, Hpm, Hpr. assert (Hc0 : clean (NormalizeRule r0)) by (by apply accepted_clean, Hacc).
    destruct Hce as (c & Hc & _ & _ & Ec).
    assert (ActionKey e = ActionKey (NormalizeRule r0)) as Eak by (unfold ActionKey; by rewrite Hk, Ha, Hkr).
    apply ActionKey_inj in Eak as (_ & ? & _); [done|by apply Hpm|by apply plain_proto_Normalize, Hpr| |apply port_ok_plain, Hc0].
    unfold plain_port. rewrite Ec. apply port_ok_plain, Hc. }
  destruct (canonical_in_force merged e Hpm Hin Hce) as (r' & Hr' & Ek); [by rewrite Hpro|].
  exists r'. split; [|unfold ActionKey, nul in Ek; apply last_sep_inj in Ek as [Ek Ed]; [|apply action_no_nul..]].
  - destruct (rulesCanonicalEqual _ _) eqn:Eq; simpl; [by eapply canonical_perm_in|]. by rewrite canonical_twice.
  - split; [congruence|]. rewrite <- Ha. by destruct (isDenyAction (Action r')), (isDenyAction (Action e)).
Qed.

Lemma addRulesToStore_in_force_witness :
  exists r', r' ∈ canonical (mem (addRulesToStore no_faults demo_store [demo_rule "api.example.com" "" "" "deny"]).2) /\
             RuleKey r' = "api.example.com:https:443" /\ isDenyAction (Action r') = true.
Proof.
  apply (addRulesToStore_in_force demo_store [demo_rule "api.example.com" "" "" "deny"] "api.example.com:https:443"
           (demo_rule "api.example.com" "https" "443" "deny"));
    [apply demo_store_plain|by repeat constructor|by repeat constructor|by vm_compute|by vm_compute].
Defined.

(** [removeRuleFromStore] without storage faults removes from the
    canonical rule set exactly the rules with the target's key, and nothing
    else changes for any reader; it reports a match exactly when there was one,
    and a miss leaves the store as it was. *)
Theorem removeRuleFromStore_spec s toRemove :
  Forall plain_proto (mem s) ->
  let k := RuleKey (NormalizeRule toRemove) in
  exists matched s', removeRuleFromStore no_faults s toRemove = (Ok matched, s') /\
    canonical (mem s') = filter (fun r => RuleKey r <> k) (canonical (mem s)) /\
    (matched = true <-> k ∈ RuleKey <$> canonical (mem s)) /\
    (matched = false -> s' = s).
Proof.
  intros Hp k. unfold removeRuleFromStore. simpl. fold k.
  assert (Hm : existsb (fun r => String.eqb (RuleKey r) k) (canonical (mem s)) = true <-> k ∈ RuleKey <$> canonical (mem s)).
  { rewrite existsb_elem. setoid_rewrite String.eqb_eq.
    rewrite list_elem_of_fmap. naive_solver. }
  destruct (existsb _ _) eqn:E; simpl.
  - eexists _, _. split; [done|]. split; [simpl; by apply canonical_filter|]. split; [done|]. done.
  - eexists _, _. split; [done|]. split; [|done]. symmetry. apply list_filter_all. apply Forall_forall.
    intros r Hr Hk. enough (false = true) by done. apply Hm. rewrite <- Hk. by apply list_elem_of_fmap_2.
Qed.

Lemma removeRuleFromStore_spec_witness :
  exists s', removeRuleFromStore no_faults demo_store (demo_rule "api.example.com" "" "" "") = (Ok true, s') /\
    RuleKey <$> canonical (mem s') =
      ["db.example.com:tcp:47"; "db.example.com:tcp:45-46"; "db.example.com:tcp:48-50"].
Proof.
  destruct (removeRuleFromStore_spec demo_store (demo_rule "api.example.com" "" "" "") demo_store_plain)
    as (m & s' & E & Hc & Hm & _).
  exists s'. rewrite E, Hc. split; [|by vm_compute].
  f_equal. f_equal. apply Hm. vm_compute. repeat (first [by left|right]).
Defined.

(** [removePathRuleFromStore] without storage faults, on a rule of a
    non-opaque protocol: exactly the entries for that path disappear from the
    first rule with the target's key, every other rule and path stays, and the
    result is already canonical; an unknown rule or path leaves the canonical
    set as it was and reports no match. *)
Theorem removePathRuleFromStore_spec s toRemove path :
  Forall plain_proto (mem s) ->
  let found := list_find (fun r => RuleKey r = RuleKey (NormalizeRule toRemove)) (canonical (mem s)) in
  let '(res, s') := removePathRuleFromStore no_faults s toRemove path in
  match found with
  | None => res = Ok false /\ s' = s
  | Some (idx, t) =>
      isOpaqueProto (Proto t) = false ->
      canonical (mem s') =
        <[idx := set_PathRules t (filter (fun p => Path p <> path) (PathRules t))]> (canonical (mem s)) /\
      (res = Ok true <-> path ∈ Path <$> PathRules t) /\ (res = Ok false \/ res = Ok true)
  end.
Proof.
  intros Hp found. unfold removePathRuleFromStore. simpl. fold found.
  destruct found as [[idx t]|] eqn:Ef; [|done]. subst found. apply list_find_Some in Ef as (Ht & _ & _).
  assert (Hm : existsb (fun p => String.eqb (Path p) path) (PathRules t) = true <-> path ∈ Path <$> PathRules t).
  { rewrite existsb_elem. setoid_rewrite String.eqb_eq.
    rewrite list_elem_of_fmap. naive_solver. }
  destruct (existsb _ _) eqn:E; simpl; intros Ho.
  - split; [by apply canonical_set_path|]. split; [naive_solver|by right].
  - split; [|split; [naive_solver|by left]].
    assert (filter (fun p => Path p <> path) (PathRules t) = PathRules t) as ->.
    { apply list_filter_all. apply Forall_forall. intros p Hpin Hk. enough (false = true) by done.
      apply Hm. rewrite <- Hk. by apply list_elem_of_fmap_2. }
    assert (set_PathRules t (PathRules t) = t) as -> by (by destruct t). by rewrite list_insert_id.
Qed.

Definition path_store : store :=
  let l := [mkRule "api.example.com" "https" "443" "allow"
              [mkPathRule "/v1" "allow" []; mkPathRule "/v2" "deny" []] "" false] in
  mkStore l l.

Lemma removePathRuleFromStore_spec_witness :
  let '(res, s') := removePathRuleFromStore no_faults path_store (demo_rule "api.example.com" "https" "443" "") "/v2" in
  res = Ok true /\
  canonical (mem s') = [mkRule "api.example.com" "https" "443" "allow" [mkPathRule "/v1" "allow" []] "" false].
Proof.
  assert (Hp : Forall plain_proto (mem path_store)) by (by repeat constructor).
  pose proof (removePathRuleFromStore_spec path_store (demo_rule "api.example.com" "https" "443" "") "/v2" Hp) as H.
  cbv zeta in H. destruct (removePathRuleFromStore _ _ _ _) as [res s'].
  assert (E : list_find (fun r => RuleKey r = RuleKey (NormalizeRule (demo_rule "api.example.com" "https" "443" "")))
                (canonical (mem path_store)) =
              Some (0%nat, mkRule "api.example.com" "https" "443" "allow"
                [mkPathRule "/v1" "allow" []; mkPathRule "/v2" "deny" []] "" false)) by (by vm_compute).
  rewrite E in H. destruct H as (Hc & Hm & _); [by vm_compute|]. split; [|rewrite Hc; by vm_compute].
  apply Hm. vm_compute. right. left.
Defined.

(** Re-applying a batch is not always a no-op: a batch whose allow
    range is swallowed by merged deny spans finds those merged spans under its
    own key when it is applied again, and turns the deny into an allow.  Here a
    store denying tcp 40-42 receives a deny of 41-44 and an allow of 40-44
    twice: port 40 is denied after the first time and allowed after the
    second. *)
Theorem addRulesToStore_reapply_opens_port :
  let s := mkStore [demo_rule "h.example" "tcp" "40-42" "deny"] [] in
  let batch := [demo_rule "h.example" "tcp" "41-44" "deny"; demo_rule "h.example" "tcp" "40-44" "allow"] in
  let once := (addRulesToStore no_faults s batch).2 in
  let twice := (addRulesToStore no_faults once batch).2 in
  canonical (mem once) = [demo_rule "h.example" "tcp" "40-44" "deny"] /\
  canonical (mem twice) = [demo_rule "h.example" "tcp" "41-44" "deny"; demo_rule "h.example" "tcp" "40" "allow"].
Proof. split; by vm_compute. Qed.

(** [FirewallAddRules] is all-or-nothing on validation: one invalid rule
    rejects the batch with InvalidArgument, touching neither the store nor the
    stack.  A valid batch without storage faults submits exactly one reconcile
    when the canonical rule set moved and none otherwise. *)
Theorem FirewallAddRules_spec regexp_compiles reconcile s req :
  Forall plain_proto (mem s) -> Forall plain_proto (EgressRulesFromProto req) ->
  let '(res, s', reconciles) := FirewallAddRules regexp_compiles reconcile no_faults s req in
  if forallb (fun r => is_ok (ValidateRule regexp_compiles r)) (EgressRulesFromProto req)
  then reconciles = (if bool_decide (canonical (mem s) ≡ₚ canonical (mem s')) then 0 else 1)%nat /\
       (canonical (mem s) ≡ₚ canonical (mem s') -> s' = s)
  else res = Err (Some (InvalidArgument, ["RULE_INVALID"])) /\ s' = s /\ reconciles = 0%nat.
Proof.
  intros Hp Hr. unfold FirewallAddRules. destruct (forallb _ _); simpl; [|done].
  destruct (addRulesToStore_eq s (EgressRulesFromProto req)) as (statuses & -> & _ & Hany). rewrite (Hany Hp).
  set (after := canonical (mg_existing _)).
  assert (Ha : canonical after = after).
  { apply canonical_twice, merged_plain; [by apply canonical_plain|done]. }
  pose proof (rulesCanonicalEqual_perm (canonical (mem s)) after (canonical_keys _ Hp)) as Hperm.
  destruct (rulesCanonicalEqual (canonical (mem s)) after) eqn:E; simpl.
  - by rewrite bool_decide_eq_true_2.
  - assert (~ canonical (mem s) ≡ₚ canonical after) by (rewrite Ha; naive_solver).
    destruct reconcile; simpl; by rewrite bool_decide_eq_false_2.
Qed.

Lemma FirewallAddRules_spec_witness :
  (FirewallAddRules (fun _ => true) (Ok true) no_faults demo_store
     [EgressRuleToProto (demo_rule "bad_.example.com-" "https" "" "")]).1.1
  = Err (Some (InvalidArgument, ["RULE_INVALID"])).
Proof.
  pose proof (FirewallAddRules_spec (fun _ => true) (Ok true) demo_store
     [EgressRuleToProto (demo_rule "bad_.example.com-" "https" "" "")] demo_store_plain
     ltac:(by repeat constructor)) as H.
  destruct (FirewallAddRules _ _ _ _ _) as [[res s'] n].
  assert (forallb (fun r => is_ok (ValidateRule (fun _ => true) r))
    (EgressRulesFromProto [EgressRuleToProto (demo_rule "bad_.example.com-" "https" "" "")]) = false) as E
    by (by vm_compute).
  rewrite E in H. apply H.
Defined.

End RuleStore.
