(* ===== verification/Mappings.v ===== *)
(** * Dedicated listener ports

    The port layout of the Envoy proxy: [EnvoyPorts], the dedicated-listener
    assignment shared by the generator and the eBPF routes (envoy_types.go,
    envoy_udp.go) and the layout check that guards it (envoy_config.go). *)

From S2P Require Import Prelude GoStrings EgressRule Spans Rules.
Import Go Rule Spans Rules.

Module Mappings.

Definition envoyAdminPort : Z := 9901.
Definition defaultDestPort : Z := 443.
Definition sshDefaultPort : Z := 22.
Definition defaultHTTPPort : Z := 80.

Record EnvoyPorts := mkPorts {
  EgressPort : Z;
  TCPPortBase : Z;
  UDPPortBase : Z;
  HealthPort : Z;
}.

Inductive PortsError :=
  | PortOutOfRange (name : string) (port : Z)
  | PortClash (prev name : string) (port : Z).

Definition named_ports (p : EnvoyPorts) : list (string * Z) :=
  [("EgressPort", EgressPort p); ("TCPPortBase", TCPPortBase p);
   ("UDPPortBase", UDPPortBase p); ("HealthPort", HealthPort p)].

Fixpoint check_ranges (l : list (string * Z)) : result PortsError unit :=
  match l with
  | [] => Ok tt
  | (name, port) :: l' =>
      if (port <=? 0) || (65535 <? port) then Err (PortOutOfRange name port) else check_ranges l'
  end.

Fixpoint check_distinct (seen : gmap Z string) (l : list (string * Z)) : result PortsError unit :=
  match l with
  | [] => Ok tt
  | (name, port) :: l' =>
      match seen !! port with
      | Some prev => Err (PortClash prev name port)
      | None => check_distinct (<[port := name]> seen) l'
      end
  end.

Definition Validate (p : EnvoyPorts) : result PortsError unit :=
  check check_ranges (named_ports p) then check_distinct ∅ (named_ports p).

(** ** Mappings *)

Record TCPMapping := mkMapping { m_Dst : string; m_DstPort : Z; m_EnvoyPort : Z }.

Definition tcpDefaultPort (r : EgressRule) : Z :=
  match SinglePort r with
  | Some p => p
  | None => if EqualFold (Proto r) "ssh" then sshDefaultPort else defaultDestPort
  end.

Definition udpDefaultPort (r : EgressRule) : Z := default defaultDestPort (SinglePort r).

Definition dedicatedPorts (r : EgressRule) (portFn : EgressRule -> Z) : list Z :=
  match PortSpan r with
  | Some (lo, hi) => seqZ lo (hi - lo + 1)
  | None => [portFn r]
  end.

(** The loop of [dedicatedMappings], with the running index. *)
Fixpoint dedicated_loop (base idx : Z) (protoMatch : string -> bool) (portFn : EgressRule -> Z)
    (skipDst : string -> bool) (rules : list EgressRule) : list TCPMapping :=
  match rules with
  | [] => []
  | r :: rs =>
      if skipDst (Dst r) then dedicated_loop base idx protoMatch portFn skipDst rs
      else if negb (protoMatch (ToLower (Proto r))) then dedicated_loop base idx protoMatch portFn skipDst rs
      else
        let ports := dedicatedPorts r portFn in
        imap (fun i port => mkMapping (normalizeDomain (Dst r)) port (base + (idx + Z.of_nat i))) ports ++
        dedicated_loop base (idx + Z.of_nat (length ports)) protoMatch portFn skipDst rs
  end.

Definition dedicatedMappings (rules : list EgressRule) (base : Z) (protoMatch : string -> bool)
    (portFn : EgressRule -> Z) (skipDst : string -> bool) : list TCPMapping :=
  dedicated_loop base 0 protoMatch portFn skipDst rules.

Definition is_tcp_class (p : string) : bool := String.eqb p "ssh" || String.eqb p "tcp".
Definition is_udp_class (p : string) : bool := String.eqb p "udp".

Definition TCPMappings (rules : list EgressRule) (ports : EnvoyPorts) : list TCPMapping :=
  dedicatedMappings rules (TCPPortBase ports) is_tcp_class tcpDefaultPort isCIDR.

Definition UDPMappings (rules : list EgressRule) (ports : EnvoyPorts) : list TCPMapping :=
  dedicatedMappings rules (UDPPortBase ports) is_udp_class udpDefaultPort isCIDR.

(** ** validateDedicatedLayout *)

Inductive LayoutError :=
  | BandOverflow (name : string) (n base : Z)
  | BandHitsInfra (name infra : string) (port : Z)
  | BandsOverlap (tLo tHi uLo uHi : Z).

Fixpoint first_err {A E} (f : A -> option E) (l : list A) : option E :=
  match l with
  | [] => None
  | a :: l' => match f a with Some e => Some e | None => first_err f l' end
  end.

Definition band_overflow (b : string * Z * Z) : option LayoutError :=
  let '(name, base, n) := b in
  if (0 <? n) && (65535 <? base + n - 1) then Some (BandOverflow name n base) else None.

Definition infra_ports (ports : EnvoyPorts) : list (string * Z) :=
  [("EgressPort", EgressPort ports); ("HealthPort", HealthPort ports); ("admin", envoyAdminPort)].

Definition band_infra (ports : EnvoyPorts) (b : string * Z * Z) : option LayoutError :=
  let '(name, base, n) := b in
  if n =? 0 then None
  else first_err (fun '(infra, port) =>
         if (base <=? port) && (port <=? base + n - 1) then Some (BandHitsInfra name infra port) else None)
       (infra_ports ports).

Definition validateDedicatedLayout (rules : list EgressRule) (ports : EnvoyPorts) : option LayoutError :=
  let nt := Z.of_nat (length (TCPMappings rules ports)) in
  let nu := Z.of_nat (length (UDPMappings rules ports)) in
  let bands := [("tcp/ssh", TCPPortBase ports, nt); ("raw udp", UDPPortBase ports, nu)] in
  match first_err band_overflow bands with
  | Some e => Some e
  | None =>
      match first_err (band_infra ports) bands with
      | Some e => Some e
      | None =>
          if (0 <? nt) && (0 <? nu) then
            let '(tLo, tHi) := (TCPPortBase ports, TCPPortBase ports + nt - 1) in
            let '(uLo, uHi) := (UDPPortBase ports, UDPPortBase ports + nu - 1) in
            if (tLo <=? uHi) && (uLo <=? tHi) then Some (BandsOverlap tLo tHi uLo uHi) else None
          else None
      end
  end.

(** ** Facts *)

Lemma Validate_ok p :
  Validate p = Ok tt -> Forall (fun q => 1 <= q.2 <= 65535) (named_ports p) /\ NoDup (snd <$> named_ports p).
Proof.
  unfold Validate. intros (? & Hr & Hd)%result_bind_ok. destruct x. split.
  - clear Hd. revert Hr. generalize (named_ports p). induction l as [|[n q] l IH]; [constructor|]. simpl.
    case_match eqn:E; [done|]. intros Hl. bool_to_prop. constructor; [simpl; lia|by apply IH].
  - clear Hr.
    assert (G : forall l (seen : gmap Z string), check_distinct seen l = Ok tt ->
      NoDup (snd <$> l) /\ forall q, q ∈ snd <$> l -> seen !! q = None).
    { clear. induction l as [|[n q] l IH]; intros seen H; simpl in H.
      - split; [constructor|set_solver].
      - destruct (seen !! q) eqn:E; [done|]. destruct (IH _ H) as [H1 H2]. simpl. split.
        + constructor; [|done]. intros Hin. specialize (H2 _ Hin). by rewrite lookup_insert_eq in H2.
        + intros q' [->|Hin]%elem_of_cons; [done|]. specialize (H2 _ Hin).
          destruct (decide (q = q')) as [->|]; [done|]. by rewrite lookup_insert_ne in H2. }
    apply (G _ ∅ Hd).
Qed.

(** Envoy ports are handed out consecutively from [base + idx]. *)
Lemma dedicated_loop_ports base idx pm pf skip rules :
  m_EnvoyPort <$> dedicated_loop base idx pm pf skip rules =
  seqZ (base + idx) (Z.of_nat (length (dedicated_loop base idx pm pf skip rules))).
Proof.
  revert idx. induction rules as [|r rs IH]; intros idx; [done|]. simpl.
  destruct (skip (Dst r)); [done|]. destruct (pm (ToLower (Proto r))); simpl; [|done].
  rewrite fmap_app, IH, length_app, length_imap, Nat2Z.inj_add, seqZ_app by lia.
  f_equal; [|f_equal; lia].
  generalize (dedicatedPorts r pf) as ports. intros ports. apply list_eq. intros i.
  rewrite list_lookup_fmap, list_lookup_imap. destruct (ports !! i) as [q|] eqn:E; simpl.
  - apply lookup_lt_Some in E. rewrite lookup_seqZ_lt by lia. f_equal. lia.
  - apply lookup_ge_None in E. by rewrite lookup_seqZ_ge by lia.
Qed.

Lemma dedicated_ports base pm pf skip rules :
  let l := dedicatedMappings rules base pm pf skip in
  m_EnvoyPort <$> l = seqZ base (Z.of_nat (length l)).
Proof. simpl. unfold dedicatedMappings. rewrite dedicated_loop_ports. f_equal; lia. Qed.

Lemma elem_of_envoy_ports base pm pf skip rules q :
  let l := dedicatedMappings rules base pm pf skip in
  q ∈ m_EnvoyPort <$> l <-> base <= q < base + Z.of_nat (length l).
Proof. simpl. rewrite dedicated_ports, elem_of_seqZ. lia. Qed.

(** A mapping comes from a rule of the class, for one of its ports. *)
Lemma dedicated_loop_elem base idx pm pf skip rules dst port :
  (exists e, mkMapping dst port e ∈ dedicated_loop base idx pm pf skip rules) <->
  exists r, r ∈ rules /\ skip (Dst r) = false /\ pm (ToLower (Proto r)) = true /\
            dst = normalizeDomain (Dst r) /\ port ∈ dedicatedPorts r pf.
Proof.
  revert idx. induction rules as [|r rs IH]; intros idx; simpl.
  - split; [intros [e H]|intros (r & H & _)]; by apply elem_of_nil in H.
  - destruct (skip (Dst r)) eqn:Es; [|destruct (pm (ToLower (Proto r))) eqn:Ep; simpl].
    + rewrite IH. split; intros (r' & H); exists r'; [set_solver|].
      destruct H as ([->|?]%elem_of_cons & ? & ?); [congruence|done].
    + split.
      * intros [e He]. apply elem_of_app in He as [He|He].
        -- apply elem_of_lookup_imap in He as (i & q & E & Hq). injection E as -> -> _.
           exists r. split; [by left|]. split_and!; [done..|]. by eapply list_elem_of_lookup_2.
        -- destruct (proj1 (IH _) (ex_intro _ e He)) as (r' & ? & ?). exists r'. split; [by right|done].
      * intros (r' & [->|Hr]%elem_of_cons & H2 & H3 & H4 & H5).
        -- apply list_elem_of_lookup in H5 as (i & Hi). eexists. apply elem_of_app. left.
           apply elem_of_lookup_imap. exists i, port. by rewrite H4.
        -- destruct (proj2 (IH (idx + Z.of_nat (length (dedicatedPorts r pf))))) as [e He]; [by exists r'|].
           exists e. apply elem_of_app. by right.
    + rewrite IH. split; intros (r' & H); exists r'; [set_solver|].
      destruct H as ([->|?]%elem_of_cons & ? & ? & ?); [congruence|done].
Qed.

Lemma first_err_None {A E} (f : A -> option E) l : first_err f l = None <-> Forall (fun a => f a = None) l.
Proof.
  induction l as [|a l IH]; simpl; [by split|]. rewrite Forall_cons.
  destruct (f a); [naive_solver|]. rewrite IH. tauto.
Qed.

Lemma NoDup_seqZ m n : NoDup (seqZ m n).
Proof. unfold seqZ. apply NoDup_fmap; [intros ???; lia|]. apply NoDup_seq. Qed.

(** ** Theorems *)

Definition demo_ports : EnvoyPorts := mkPorts 10000 10100 10300 10900.

Definition demo_opaque : list EgressRule :=
  [mkRule "db.example.com" "tcp" "5432-5434" "allow" [] "" false;
   mkRule "203.0.113.7" "ssh" "22" "allow" [] "" false;
   mkRule "dns.example.com" "udp" "53" "deny" [] "" false].

(** A layout that passes [EnvoyPorts.Validate] and
    [validateDedicatedLayout] gives every dedicated listener (tcp/ssh and raw
    udp, port ranges fanned out) its own bind port, inside 1-65535 so that the
    uint16 casts lose nothing, and different from the egress, health and admin
    ports. *)
Theorem validateDedicatedLayout_sound rules ports :
  Validate ports = Ok tt -> validateDedicatedLayout rules ports = None ->
  let dedicated := m_EnvoyPort <$> (TCPMappings rules ports ++ UDPMappings rules ports) in
  NoDup dedicated /\
  Forall (fun q => 1 <= q <= 65535 /\ q mod 2 ^ 16 = q /\
                   q <> EgressPort ports /\ q <> HealthPort ports /\ q <> envoyAdminPort) dedicated.
Proof.
  intros [Hr _]%Validate_ok Hl dedicated. subst dedicated. unfold validateDedicatedLayout in Hl.
  set (nt := Z.of_nat (length (TCPMappings rules ports))) in *.
  set (nu := Z.of_nat (length (UDPMappings rules ports))) in *.
  destruct (first_err band_overflow _) eqn:E1; [done|]. destruct (first_err (band_infra ports) _) eqn:E2; [done|].
  rewrite first_err_None, !Forall_cons in E1, E2. destruct E1 as (Ot & Ou & _), E2 as (It & Iu & _).
  unfold named_ports in Hr. rewrite !Forall_cons in Hr. destruct Hr as (_ & Hbt & Hbu & _). cbn [snd] in Hbt, Hbu.
  assert (Ht : forall q, q ∈ m_EnvoyPort <$> TCPMappings rules ports <-> TCPPortBase ports <= q < TCPPortBase ports + nt)
    by apply elem_of_envoy_ports.
  assert (Hu : forall q, q ∈ m_EnvoyPort <$> UDPMappings rules ports <-> UDPPortBase ports <= q < UDPPortBase ports + nu)
    by apply elem_of_envoy_ports.
  assert (Hover : 0 < nt -> 0 < nu -> TCPPortBase ports + nt <= UDPPortBase ports \/ UDPPortBase ports + nu <= TCPPortBase ports).
  { intros. destruct ((0 <? nt) && (0 <? nu)) eqn:?; bool_to_prop; [|lia].
    destruct ((TCPPortBase ports <=? _) && _) eqn:?; [done|]. bool_to_prop.
    match goal with H : _ \/ _ |- _ => destruct H end; bool_to_prop; lia. }
  assert (Hband : forall name base n, band_overflow (name, base, n) = None -> band_infra ports (name, base, n) = None ->
            1 <= base -> forall q, base <= q < base + n ->
            1 <= q <= 65535 /\ q <> EgressPort ports /\ q <> HealthPort ports /\ q <> envoyAdminPort).
  { clear. unfold band_overflow, band_infra. intros name base n Ho Hi Hb q Hq.
    destruct ((0 <? n) && _) eqn:E in Ho; [done|]. bool_to_prop.
    destruct (n =? 0) eqn:E0 in Hi; bool_to_prop; [lia|]. apply first_err_None in Hi.
    unfold infra_ports in Hi. decompose_Forall_hyps.
    repeat match goal with H : (if ?b then _ else _) = None |- _ => destruct b eqn:?; [done|]; clear H end.
    bool_to_prop. repeat match goal with H : _ \/ _ |- _ => destruct H end; bool_to_prop; lia. }
  rewrite fmap_app. split.
  - apply NoDup_app. split; [unfold TCPMappings; rewrite dedicated_ports; apply NoDup_seqZ|].
    split; [|unfold UDPMappings; rewrite dedicated_ports; apply NoDup_seqZ].
    intros q Hq1%Ht Hq2%Hu. destruct Hover; lia.
  - apply Forall_forall. intros q [Hq%Ht|Hq%Hu]%elem_of_app.
    all: assert (1 <= q <= 65535 /\ q <> EgressPort ports /\ q <> HealthPort ports /\ q <> envoyAdminPort)
           as (? & ? & ? & ?) by (first [apply (Hband _ _ _ Ot It); lia|apply (Hband _ _ _ Ou Iu); lia]).
    all: split_and!; try lia; apply Z.mod_small; lia.
Qed.

Lemma validateDedicatedLayout_sound_witness :
  NoDup (m_EnvoyPort <$> (TCPMappings demo_opaque demo_ports ++ UDPMappings demo_opaque demo_ports)).
Proof. apply (validateDedicatedLayout_sound demo_opaque demo_ports); by vm_compute. Defined.

(** The dedicated listeners are exactly the (host, port) pairs that the
    rules of the class name, allow and deny alike: every port of an accepted
    range gets its own listener on the normalized host, a rule without a port
    gets the class default, and a CIDR destination gets none. *)
Theorem TCPMappings_complete rules ports dst port :
  (exists e, mkMapping dst port e ∈ TCPMappings rules ports) <->
  exists r, r ∈ rules /\ isCIDR (Dst r) = false /\ is_tcp_class (ToLower (Proto r)) = true /\
            dst = normalizeDomain (Dst r) /\
            match PortSpan r with
            | Some (lo, hi) => lo <= port <= hi
            | None => port = tcpDefaultPort r
            end.
Proof.
  unfold TCPMappings, dedicatedMappings. rewrite dedicated_loop_elem.
  assert (Hp : forall r, port ∈ dedicatedPorts r tcpDefaultPort <->
    match PortSpan r with Some (lo, hi) => lo <= port <= hi | None => port = tcpDefaultPort r end).
  { intros r. unfold dedicatedPorts. destruct (PortSpan r) as [[lo hi]|]; [rewrite elem_of_seqZ; lia|].
    by rewrite list_elem_of_singleton. }
  by setoid_rewrite Hp.
Qed.

End Mappings.
