(* ===== verification/Checks.v ===== *)
(** * Fail-closed checks of the Envoy generator

    [checkProtoCollisions], [checkOpaquePortActionConflicts] and
    [validateProtoDstSupport] of controlplane/firewall/envoy_config.go, with the
    protocol helpers they share with the deriver.  Go iterates its maps in
    sorted key order here; the maps are [gmap]s and the sorted key lists are
    computed. *)

From S2P Require Import Prelude GoStrings EgressRule Spans Rules Conflicts Canonical Mappings.
Import Go Rule Spans Rules Conflicts Canonical Mappings.

Module Checks.

(** ** Protocol helpers *)

Definition effectiveDstPort (r : EgressRule) : Z :=
  match SinglePort r with
  | Some p => p
  | None =>
      let p := ToLower (Proto r) in
      if String.eqb p "http" || String.eqb p "ws" then defaultHTTPPort
      else if String.eqb p "ssh" then sshDefaultPort
      else defaultDestPort
  end.

Definition canonicalProto (p : string) : string :=
  let p := ToLower p in
  if String.eqb p "" || String.eqb p "tls" then "https"
  else if String.eqb p "ws" then "http"
  else if String.eqb p "wss" then "https"
  else p.

Definition baseProto (p : string) : string :=
  let p := ToLower p in
  if String.eqb p "ws" then "http" else if String.eqb p "wss" then "https" else p.

Definition originKey (r : EgressRule) : string := Dst r +:+ ":" +:+ Itoa (effectiveDstPort r).

(** ** checkProtoCollisions *)

(** A rule that builds a network stack. *)
Definition builds_stack (r : EgressRule) : bool :=
  negb (isDenyAction (Action r) && negb (isOpaqueProto (Proto r))).

Definition stack_span (r : EgressRule) : span :=
  match PortSpan r with Some sp => sp | None => let p := effectiveDstPort r in (p, p) end.

Definition by_host_step (m : gmap string (gmap string (list span))) (r : EgressRule)
    : gmap string (gmap string (list span)) :=
  if negb (builds_stack r) then m
  else
    let host := normalizeDomain (Dst r) in
    let cp := canonicalProto (Proto r) in
    let inner := default ∅ (m !! host) in
    <[host := <[cp := default [] (inner !! cp) ++ [stack_span r]]> inner]> m.

Definition byHost (rules : list EgressRule) : gmap string (gmap string (list span)) :=
  foldl by_host_step ∅ rules.

Definition sorted_keys {A} (m : gmap string A) : list string := sort_strings (map_to_list m).*1.

Inductive ProtoCollision := mkCollision (host : string) (port : Z) (p1 p2 : string).

Definition pair_collision (host : string) (protoSpans : gmap string (list span)) (p1 p2 : string)
    : option ProtoCollision :=
  port ← lowestSpanOverlap (default [] (protoSpans !! p1)) (default [] (protoSpans !! p2));
  Some (mkCollision host port p1 p2).

Fixpoint check_pairs (f : string -> string -> option ProtoCollision) (l : list string)
    : option ProtoCollision :=
  match l with
  | [] => None
  | p :: l' => match first_err (f p) l' with Some e => Some e | None => check_pairs f l' end
  end.

Definition checkProtoCollisions (rules : list EgressRule) : option ProtoCollision :=
  first_err (fun host =>
    let protoSpans := default ∅ (byHost rules !! host) in
    check_pairs (pair_collision host protoSpans) (sorted_keys protoSpans))
  (sorted_keys (byHost rules)).

(** ** checkOpaquePortActionConflicts *)

Abbreviation hp := (string * string)%type.

Definition hp_le (a b : hp) : Prop :=
  (a.1 <> b.1 /\ String.le a.1 b.1) \/ (a.1 = b.1 /\ String.le a.2 b.2).
#[global] Instance hp_le_dec : RelDecision hp_le.
Proof. intros a b. unfold hp_le. apply _. Defined.

Definition spans_by_action (deny : bool) (rules : list EgressRule) : gmap hp (list span) :=
  foldl (fun m r =>
    match opaque_span r with
    | None => m
    | Some sp =>
        if Bool.eqb (isDenyAction (Action r)) deny then
          let k := (normalizeDomain (Dst r), ToLower (Proto r)) in
          <[k := default [] (m !! k) ++ [sp]]> m
        else m
    end) ∅ rules.

Inductive ActionConflict := mkConflict (proto host : string) (port : Z).

Definition checkOpaquePortActionConflicts (rules : list EgressRule) : option ActionConflict :=
  let allow := spans_by_action false rules in
  let deny := spans_by_action true rules in
  let keys := merge_sort hp_le (filter (fun k => is_Some (allow !! k)) (map_to_list deny).*1) in
  first_err (fun k : hp =>
    port ← lowestSpanOverlap (default [] (allow !! k)) (default [] (deny !! k));
    Some (mkConflict k.2 k.1 port)) keys.

(** ** validateProtoDstSupport *)

Definition validateProtoDstSupport (rules : list EgressRule) : option string :=
  first_err (fun r =>
    if negb (isAllowAction (Action r)) then None
    else if String.eqb (ToLower (Proto r)) "udp" && isCIDR (Dst r) then Some (Dst r) else None) rules.

(** ** Grouping loops *)

Section Group.
Context {K : Type} `{Countable K} (key : EgressRule -> option K) (val : EgressRule -> span).

Definition group_step (m : gmap K (list span)) (r : EgressRule) : gmap K (list span) :=
  match key r with None => m | Some k => <[k := default [] (m !! k) ++ [val r]]> m end.

Definition of_key (k : K) (rules : list EgressRule) : list span :=
  val <$> filter (fun r => key r = Some k) rules.

Lemma group_spec rules k :
  foldl group_step ∅ rules !! k = match of_key k rules with [] => None | l => Some l end.
Proof.
  unfold of_key. induction rules as [|r rules IH] using rev_ind; [done|].
  rewrite foldl_snoc, filter_app, fmap_app. unfold group_step at 1. rewrite filter_cons, filter_nil.
  destruct (key r) as [k'|] eqn:E.
  - destruct (decide (k' = k)) as [->|Hne].
    + rewrite decide_True, lookup_insert_eq, IH by done. cbn [fmap list_fmap].
      by destruct (val <$> filter _ rules).
    + rewrite decide_False, lookup_insert_ne, IH by congruence. by rewrite app_nil_r.
  - rewrite decide_False by congruence. by rewrite app_nil_r.
Qed.

Lemma elem_of_key k rules sp : sp ∈ of_key k rules <-> exists r, r ∈ rules /\ key r = Some k /\ val r = sp.
Proof. unfold of_key. rewrite list_elem_of_fmap. setoid_rewrite list_elem_of_filter. naive_solver. Qed.
End Group.

Lemma foldl_ext_fun {A B} (f g : A -> B -> A) a l : (forall x y, f x y = g x y) -> foldl f a l = foldl g a l.
Proof. intros E. revert a. induction l as [|b l IH]; intros a; [done|]. simpl. by rewrite E, IH. Qed.

(** ** The overlap test *)

Lemma lowestSpanOverlap_None a b :
  Forall (fun s => 0 <= s.1) a -> lowestSpanOverlap a b = None <-> forall q, covers a q -> ~ covers b q.
Proof.
  intros Ha. pose proof (lowestSpanOverlap_spec a b Ha) as Hs.
  destruct (lowestSpanOverlap a b) as [p|]; [|done]. split; [done|]. intros Hn.
  destruct Hs as (Hpa & Hpb & _). by destruct (Hn p Hpa).
Qed.

(** *** Opaque allow/deny conflicts *)

Definition action_key (deny : bool) (r : EgressRule) : option hp :=
  match opaque_span r with
  | Some _ => if Bool.eqb (isDenyAction (Action r)) deny then Some (normalizeDomain (Dst r), ToLower (Proto r)) else None
  | None => None
  end.
Definition span_or_zero (r : EgressRule) : span := default (0, 0) (opaque_span r).

Lemma spans_by_action_spec deny rules k :
  spans_by_action deny rules !! k =
    match of_key (action_key deny) span_or_zero k rules with [] => None | l => Some l end.
Proof.
  rewrite <- group_spec. f_equal. unfold spans_by_action. apply foldl_ext_fun. intros m r.
  unfold group_step, action_key, span_or_zero. destruct (opaque_span r); [|done]. by destruct (Bool.eqb _ _).
Qed.

Lemma elem_spans_by_action deny rules host proto sp :
  sp ∈ default [] (spans_by_action deny rules !! (host, proto)) <-> claim deny host proto rules sp.
Proof.
  rewrite spans_by_action_spec.
  assert (default [] (match of_key (action_key deny) span_or_zero (host, proto) rules with [] => None | l => Some l end)
          = of_key (action_key deny) span_or_zero (host, proto) rules) as -> by (by destruct (of_key _ _ _ _)).
  rewrite elem_of_key. unfold claim, action_key, span_or_zero. split.
  - intros (r & Hr & Hk & Hv). exists r. destruct (opaque_span r) as [x|]; [|done].
    destruct (Bool.eqb (isDenyAction (Action r)) deny) eqn:E; [|done]. apply eqb_prop in E.
    injection Hk as -> ->. simpl in Hv. by subst.
  - intros (r & Hr & Hs & Ha & Hh & Hp). exists r. rewrite Hs, Ha, eqb_reflx, Hh, Hp. done.
Qed.

Lemma spans_by_action_nonneg deny rules k :
  Forall (fun s => 0 <= s.1) (default [] (spans_by_action deny rules !! k)).
Proof.
  apply Forall_forall. intros sp Hsp. destruct k as [host proto].
  apply elem_spans_by_action in Hsp as (r & _ & Hs & _). apply opaque_span_valid in Hs. unfold valid_span in Hs. lia.
Qed.

Lemma covers_by_action deny rules host proto p :
  covers (default [] (spans_by_action deny rules !! (host, proto))) p <-> claims deny host proto rules p.
Proof. rewrite covers_in. unfold claims. by setoid_rewrite elem_spans_by_action. Qed.

Lemma conflicts_none rules :
  checkOpaquePortActionConflicts rules = None <->
  forall host proto p, claims false host proto rules p -> ~ claims true host proto rules p.
Proof.
  unfold checkOpaquePortActionConflicts. rewrite first_err_None, Forall_forall. split.
  - intros H host proto p Ha Hd. pose proof Ha as Ha'. pose proof Hd as Hd'.
    rewrite <- covers_by_action in Ha', Hd'.
    destruct (spans_by_action true rules !! (host, proto)) as [ld|] eqn:Ed; [|by apply covers_nil in Hd'].
    destruct (spans_by_action false rules !! (host, proto)) as [la|] eqn:Ea; [|by apply covers_nil in Ha'].
    specialize (H (host, proto)). rewrite Ed, Ea in H. simpl in *.
    assert (lowestSpanOverlap la ld = None) as Hn.
    { destruct (lowestSpanOverlap la ld); [|done]. discriminate H.
      rewrite merge_sort_Permutation. apply list_elem_of_filter. split; [by rewrite Ea|].
      apply list_elem_of_fmap. exists ((host, proto), ld). split; [done|]. by apply elem_of_map_to_list. }
    pose proof (spans_by_action_nonneg false rules (host, proto)) as Hnn. rewrite Ea in Hnn.
    by apply (proj1 (lowestSpanOverlap_None _ _ Hnn) Hn p).
  - intros H [host proto] _. rewrite (proj2 (lowestSpanOverlap_None _ _ (spans_by_action_nonneg _ _ _))); [done|].
    intros q. rewrite !covers_by_action. apply H.
Qed.

(** *** Protocol collisions *)

Definition stack_key (r : EgressRule) : option hp :=
  if builds_stack r then Some (normalizeDomain (Dst r), canonicalProto (Proto r)) else None.

Definition spans_at (m : gmap string (gmap string (list span))) (host proto : string) : option (list span) :=
  inner ← m !! host; inner !! proto.

Lemma byHost_spec rules host proto :
  spans_at (byHost rules) host proto =
    match of_key stack_key stack_span (host, proto) rules with [] => None | l => Some l end.
Proof.
  unfold of_key, byHost. induction rules as [|r rules IH] using rev_ind; [done|].
  rewrite foldl_snoc, filter_app, fmap_app, filter_cons, filter_nil.
  set (m := foldl by_host_step ∅ rules) in *. unfold by_host_step.
  destruct (decide (stack_key r = Some (host, proto))) as [E|Hne]; unfold stack_key in *;
    destruct (builds_stack r); simpl; try done.
  - injection E as -> ->. unfold spans_at in IH |- *. rewrite lookup_insert_eq. simpl. rewrite lookup_insert_eq.
    assert (default ∅ (m !! host) !! proto = m !! host ≫= (fun inner => inner !! proto)) as -> by (by destruct (m !! host)).
    rewrite IH. by destruct (stack_span <$> filter _ rules).
  - rewrite app_nil_r, <- IH. unfold spans_at. destruct (decide (normalizeDomain (Dst r) = host)) as [<-|Hh].
    + rewrite lookup_insert_eq. simpl. rewrite lookup_insert_ne by congruence. by destruct (m !! _).
    + by rewrite lookup_insert_ne.
  - by rewrite app_nil_r.
Qed.

Lemma stack_span_nonneg r : 0 <= (stack_span r).1.
Proof.
  unfold stack_span. destruct (PortSpan r) as [[lo hi]|] eqn:E; [apply PortSpan_bounds in E; simpl; lia|].
  simpl. unfold effectiveDstPort, SinglePort. rewrite E.
  unfold defaultHTTPPort, sshDefaultPort, defaultDestPort. repeat case_match; lia.
Qed.

Lemma check_pairs_None f l :
  check_pairs f l = None <-> ForallOrdPairs (fun p q => f p q = None) l.
Proof.
  induction l as [|p l IH]; simpl; [by split; [constructor|]|]. split.
  - destruct (first_err (f p) l) eqn:E; [done|]. intros H. apply first_err_None in E.
    constructor; [|by apply IH]. by rewrite Forall_forall in E |- *.
  - intros H. inversion H as [|? ? Hp Hl]; subst. rewrite (proj2 (first_err_None (f p) l)) by done. by apply IH.
Qed.

Lemma elem_sorted_keys {A} (m : gmap string A) k : k ∈ sorted_keys m <-> is_Some (m !! k).
Proof.
  unfold sorted_keys. rewrite sort_strings_perm, list_elem_of_fmap. split.
  - intros ([k' a] & -> & Hin). apply elem_of_map_to_list in Hin. by exists a.
  - intros [a Ha]. exists (k, a). split; [done|]. by apply elem_of_map_to_list.
Qed.

Lemma pair_collision_None host m p q :
  Forall (fun s => 0 <= s.1) (default [] (m !! p)) ->
  pair_collision host m p q = None <->
  forall port, covers (default [] (m !! p)) port -> ~ covers (default [] (m !! q)) port.
Proof.
  intros Hn. rewrite <- lowestSpanOverlap_None by done. unfold pair_collision.
  by destruct (lowestSpanOverlap _ _).
Qed.

(** Two rules claim one (host, port) for different stacks. *)
Definition stacks_collide (r1 r2 : EgressRule) : Prop :=
  builds_stack r1 = true /\ builds_stack r2 = true /\
  normalizeDomain (Dst r1) = normalizeDomain (Dst r2) /\
  canonicalProto (Proto r1) <> canonicalProto (Proto r2) /\
  exists port, covers_span (stack_span r1) port /\ covers_span (stack_span r2) port.

Lemma covers_at rules host proto port :
  covers (default [] (default ∅ (byHost rules !! host) !! proto)) port <->
  exists r, r ∈ rules /\ builds_stack r = true /\ normalizeDomain (Dst r) = host /\
            canonicalProto (Proto r) = proto /\ covers_span (stack_span r) port.
Proof.
  assert (default [] (default ∅ (byHost rules !! host) !! proto) = of_key stack_key stack_span (host, proto) rules) as ->.
  { pose proof (byHost_spec rules host proto) as H. unfold spans_at in H.
    destruct (byHost rules !! host) as [inner|]; simpl in *; [rewrite H|rewrite lookup_empty];
      by destruct (of_key _ _ _ _). }
  rewrite covers_in. setoid_rewrite elem_of_key. unfold stack_key. split.
  - intros (sp & (r & Hr & Hk & <-) & Hc). exists r. destruct (builds_stack r); [|done]. by simplify_eq.
  - intros (r & Hr & Hb & Hh & Hp & Hc). exists (stack_span r). split; [|done]. exists r. by rewrite Hb, Hh, Hp.
Qed.

Lemma collisions_none rules :
  checkProtoCollisions rules = None <->
  forall r1 r2, r1 ∈ rules -> r2 ∈ rules -> ~ stacks_collide r1 r2.
Proof.
  unfold checkProtoCollisions. rewrite first_err_None, Forall_forall.
  assert (Hnn : forall host p, Forall (fun s => 0 <= s.1) (default [] (default ∅ (byHost rules !! host) !! p))).
  { intros host p. apply Forall_forall. intros sp Hsp.
    pose proof (byHost_spec rules host p) as H. unfold spans_at in H.
    assert (sp ∈ of_key stack_key stack_span (host, p) rules) as (r & _ & _ & <-)%elem_of_key.
    { destruct (byHost rules !! host); simpl in *; [|by apply elem_of_nil in Hsp]. rewrite H in Hsp.
      by destruct (of_key _ _ _ _). }
    apply stack_span_nonneg. }
  split.
  - intros H r1 r2 H1 H2 (B1 & B2 & Hh & Hp & port & C1 & C2).
    set (host := normalizeDomain (Dst r1)) in *. set (m := default ∅ (byHost rules !! host)) in *.
    assert (Cov1 : covers (default [] (m !! canonicalProto (Proto r1))) port).
    { apply covers_at. by exists r1. }
    assert (Cov2 : covers (default [] (m !! canonicalProto (Proto r2))) port).
    { apply covers_at. by exists r2. }
    assert (K1 : canonicalProto (Proto r1) ∈ sorted_keys m).
    { apply elem_sorted_keys. destruct (m !! canonicalProto (Proto r1)); [done|]. by apply covers_nil in Cov1. }
    assert (K2 : canonicalProto (Proto r2) ∈ sorted_keys m).
    { apply elem_sorted_keys. destruct (m !! canonicalProto (Proto r2)); [done|]. by apply covers_nil in Cov2. }
    assert (Hh' : host ∈ sorted_keys (byHost rules)).
    { apply elem_sorted_keys. subst m. destruct (byHost rules !! host); [done|]. by apply covers_nil in Cov1. }
    apply H in Hh'. fold m in Hh'. apply check_pairs_None in Hh'.
    rewrite list_elem_of_In in K1, K2.
    destruct (ForallOrdPairs_In Hh' _ _ K1 K2) as [E|[E|E]]; [by rewrite E in Hp|..].
    + by apply (proj1 (pair_collision_None host m _ _ (Hnn _ _)) E port).
    + by apply (proj1 (pair_collision_None host m _ _ (Hnn _ _)) E port).
  - intros H host _. apply check_pairs_None.
    assert (Hnd : NoDup (sorted_keys (default ∅ (byHost rules !! host)))).
    { unfold sorted_keys. rewrite sort_strings_perm. apply NoDup_fst_map_to_list. }
    induction Hnd as [|p l Hp Hl IH]; [constructor|]. constructor; [|done].
    apply Forall_forall. intros q Hq. apply pair_collision_None; [apply Hnn|].
    intros port (r1 & Hr1 & B1 & Hh1 & Hp1 & C1)%covers_at (r2 & Hr2 & B2 & Hh2 & Hp2 & C2)%covers_at.
    apply (H r1 r2 Hr1 Hr2). split_and!; [done..|congruence| |by exists port].
    rewrite Hp1, Hp2. by intros ->.
Qed.

(** ** One listener per (host, port) *)

Lemma separated_NoDup l : separated l -> NoDup l.
Proof.
  intros [Hw Hs]. induction Hs as [|a l Hs IH Ha]; [constructor|]. apply Forall_cons in Hw as [Hw1 Hw2].
  constructor; [|by apply IH]. intros Hin. rewrite Forall_forall in Ha. specialize (Ha a Hin).
  unfold before, wf_span in *. lia.
Qed.

Lemma omap_span_inj l r1 r2 sp :
  NoDup (omap opaque_span l) -> r1 ∈ l -> r2 ∈ l ->
  opaque_span r1 = Some sp -> opaque_span r2 = Some sp -> r1 = r2.
Proof.
  intros Hn H1 H2 E1 E2. induction l as [|r l IH]; [by apply elem_of_nil in H1|].
  assert (Hmem : forall x, x ∈ l -> opaque_span x = Some sp -> sp ∈ omap opaque_span l).
  { intros x Hx Ex. apply list_elem_of_omap. by exists x. }
  cbn [omap list_omap] in Hn. apply elem_of_cons in H1 as [->|H1], H2 as [->|H2]; [done|..].
  - rewrite E1 in Hn. apply NoDup_cons in Hn as [Hn _]. by destruct Hn; eapply Hmem.
  - rewrite E2 in Hn. apply NoDup_cons in Hn as [Hn _]. by destruct Hn; eapply Hmem.
  - apply IH; [|done..]. destruct (opaque_span r); [by apply NoDup_cons in Hn as [_ Hn]|done].
Qed.

(** In a canonical set, two rules of one destination, protocol and action that
    share a port are the same rule. *)
Lemma canonical_same_action rules r1 r2 sp1 sp2 p :
  r1 ∈ canonical rules -> r2 ∈ canonical rules ->
  opaque_span r1 = Some sp1 -> opaque_span r2 = Some sp2 -> group_key r1 = group_key r2 ->
  isDenyAction (Action r1) = isDenyAction (Action r2) -> covers_span sp1 p -> covers_span sp2 p -> r1 = r2.
Proof.
  intros H1 H2 S1 S2 Hk Ha C1 C2. set (k := group_key r1) in *. set (b := isDenyAction (Action r1)) in *.
  set (l := with_action b (members k (canonical rules))).
  assert (Hsep : separated (omap opaque_span l)).
  { change (omap opaque_span l) with (spans_of b (members k (canonical rules))).
    rewrite canonical_resolve, members_resolve_spans. apply spans_out_separated. }
  assert (L1 : r1 ∈ l).
  { apply list_elem_of_filter. split; [done|]. apply elem_members. by unfold in_group; rewrite S1. }
  assert (L2 : r2 ∈ l).
  { apply list_elem_of_filter. split; [done|]. apply elem_members. by unfold in_group; rewrite S2. }
  assert (sp1 = sp2) as <-.
  { eapply separated_unique; [exact Hsep| | |exact C1|exact C2]; apply list_elem_of_omap; eauto. }
  eapply omap_span_inj; [by apply separated_NoDup|exact L1|exact L2|done|done].
Qed.

Lemma dedicated_pairs base idx pm pf skip rules :
  (fun m => (m_Dst m, m_DstPort m)) <$> dedicated_loop base idx pm pf skip rules =
  filter (fun r => skip (Dst r) = false /\ pm (ToLower (Proto r)) = true) rules
    ≫= (fun r => pair (normalizeDomain (Dst r)) <$> dedicatedPorts r pf).
Proof.
  revert idx. induction rules as [|r rs IH]; intros idx; [done|]. cbn [dedicated_loop]. rewrite filter_cons.
  destruct (decide _) as [[-> ->]|Hn].
  2:{ destruct (skip (Dst r)); [apply IH|]. destruct (pm (ToLower (Proto r))); [tauto|apply IH]. }
  cbn [mbind list_bind negb]. rewrite fmap_app, IH. f_equal.
  apply list_eq. intros i. rewrite !list_lookup_fmap, list_lookup_imap. by destruct (dedicatedPorts r pf !! i).
Qed.

(** What [NormalizeAndDedup] hands to the generator when it passes the checks;
    every opaque rule names its ports. *)
Definition generable (rules : list EgressRule) : Prop :=
  checkProtoCollisions rules = None /\ checkOpaquePortActionConflicts rules = None /\
  Forall (fun r => isOpaqueProto (Proto r) = true -> is_Some (PortSpan r)) rules.

Lemma generable_disjoint rules r1 r2 p :
  let out := canonical rules in
  generable out -> r1 ∈ out -> r2 ∈ out ->
  isOpaqueProto (Proto r1) = true -> isOpaqueProto (Proto r2) = true ->
  normalizeDomain (Dst r1) = normalizeDomain (Dst r2) ->
  covers_span (stack_span r1) p -> covers_span (stack_span r2) p -> r1 = r2.
Proof.
  intros out (Hcol & Hact & Hspan) H1 H2 O1 O2 Hh C1 C2.
  rewrite Forall_forall in Hspan. destruct (Hspan r1 H1 O1) as [sp1 S1], (Hspan r2 H2 O2) as [sp2 S2].
  unfold stack_span in C1, C2. rewrite S1 in C1. rewrite S2 in C2.
  assert (Q1 : opaque_span r1 = Some sp1) by (unfold opaque_span; by rewrite O1).
  assert (Q2 : opaque_span r2 = Some sp2) by (unfold opaque_span; by rewrite O2).
  assert (Hproto : ToLower (Proto r1) = ToLower (Proto r2)).
  { destruct (decide (canonicalProto (Proto r1) = canonicalProto (Proto r2))) as [E|Hne].
    - apply isOpaqueProto_names in O1, O2. unfold opaque_names in O1, O2. unfold canonicalProto in E.
      rewrite !elem_of_cons, elem_of_nil in O1, O2.
      destruct O1 as [E1|[E1|[E1|[]]]], O2 as [E2|[E2|[E2|[]]]]; rewrite E1, E2 in *; done.
    - exfalso. apply (proj1 (collisions_none out) Hcol r1 r2 H1 H2).
      unfold stacks_collide, builds_stack, stack_span. rewrite O1, O2, S1, S2, !andb_false_r.
      split_and!; try done. by exists p. }
  apply (canonical_same_action rules r1 r2 sp1 sp2 p); try done.
  - unfold group_key. by rewrite Hh, Hproto.
  - assert (Hcl : forall r sp, r ∈ out -> opaque_span r = Some sp -> covers_span sp p ->
              normalizeDomain (Dst r) = normalizeDomain (Dst r2) -> ToLower (Proto r) = ToLower (Proto r2) ->
              claims (isDenyAction (Action r)) (normalizeDomain (Dst r2)) (ToLower (Proto r2)) out p).
    { intros r sp Hr Hs Hc Hd Hp. exists sp. split; [|done]. exists r. by rewrite Hd, Hp. }
    pose proof (Hcl r1 sp1 H1 Q1 C1 Hh Hproto) as K1. pose proof (Hcl r2 sp2 H2 Q2 C2 eq_refl eq_refl) as K2.
    pose proof (proj1 (conflicts_none out) Hact (normalizeDomain (Dst r2)) (ToLower (Proto r2)) p) as Hno.
    destruct (isDenyAction (Action r1)), (isDenyAction (Action r2)); try done; exfalso; by apply Hno.
Qed.

Lemma dedicatedPorts_NoDup r pf : NoDup (dedicatedPorts r pf).
Proof. unfold dedicatedPorts. destruct (PortSpan r) as [[lo hi]|]; [apply NoDup_seqZ|apply NoDup_singleton]. Qed.

Lemma dedicatedPorts_span r pf p :
  is_Some (PortSpan r) -> p ∈ dedicatedPorts r pf -> covers_span (stack_span r) p.
Proof.
  unfold dedicatedPorts, stack_span, covers_span. intros [[lo hi] ->]. rewrite elem_of_seqZ. simpl. lia.
Qed.

Lemma listeners_unique rules base pm pf :
  (forall q, pm q = true -> q ∈ opaque_names) -> Forall plain_proto rules -> generable (canonical rules) ->
  NoDup ((fun m => (m_Dst m, m_DstPort m)) <$> dedicatedMappings (canonical rules) base pm pf isCIDR).
Proof.
  intros Hpm Hp Hg. unfold dedicatedMappings. rewrite dedicated_pairs.
  pose proof (NoDup_fmap_elim _ _ (canonical_keys rules Hp)) as Hnd.
  rewrite <- (list_fmap_id (_ ≫= _)). apply NoDup_fmap_bind; [by apply NoDup_filter|..].
  - intros r _. rewrite list_fmap_id. apply NoDup_fmap; [by intros ?? [= ->]|apply dedicatedPorts_NoDup].
  - intros r1 r2 [h1 p1] [h2 p2] Hr1 Hr2 Hne E1 E2 E. injection E as -> ->.
    apply list_elem_of_filter in Hr1 as [[_ M1] Hr1], Hr2 as [[_ M2] Hr2].
    apply list_elem_of_fmap in E1 as (q1 & [= -> ->] & Q1), E2 as (q2 & [= Eh ->] & Q2).
    apply Hpm in M1, M2. apply Hne.
    assert (Hs : forall r, r ∈ canonical rules -> ToLower (Proto r) ∈ opaque_names ->
              isOpaqueProto (Proto r) = true /\ is_Some (PortSpan r)).
    { intros r Hr Hm. apply isOpaqueProto_names in Hm. split; [done|]. destruct Hg as (_ & _ & Hsp).
      rewrite Forall_forall in Hsp. by apply Hsp. }
    destruct (Hs r1 Hr1 M1) as [O1 S1], (Hs r2 Hr2 M2) as [O2 S2].
    apply (generable_disjoint rules r1 r2 q2 Hg Hr1 Hr2 O1 O2 Eh); by eapply dedicatedPorts_span.
Qed.

(** ** Theorems *)

(** [checkProtoCollisions] accepts exactly the rule sets in which no two
    stack-building rules (allow rules, and deny rules of opaque protocols)
    claim a common port on one host for different protocols; http/ws and
    https/wss/tls count as one protocol each. *)
Theorem checkProtoCollisions_spec rules :
  checkProtoCollisions rules = None <->
  forall r1 r2, r1 ∈ rules -> r2 ∈ rules -> ~ stacks_collide r1 r2.
Proof. apply collisions_none. Qed.

(** [checkOpaquePortActionConflicts] accepts exactly the rule sets in
    which no port of an opaque protocol is both allowed and denied on one
    host. *)
Theorem checkOpaquePortActionConflicts_spec rules :
  checkOpaquePortActionConflicts rules = None <->
  forall host proto p, claims false host proto rules p -> ~ claims true host proto rules p.
Proof. apply conflicts_none. Qed.

(** Deny wins end to end.  For a rule set whose canonical form passes the
    generator's conflict check, a port of an opaque protocol is allowed by the
    generated configuration exactly when some input rule allows it and no input
    rule denies it. *)
Theorem canonical_deny_wins rules host proto p :
  Forall plain_proto rules -> host <> "" -> checkOpaquePortActionConflicts (canonical rules) = None ->
  claims false host proto (canonical rules) p <->
  claims false host proto (NormalizeRule <$> rules) p /\ ~ claims true host proto (NormalizeRule <$> rules) p.
Proof.
  intros Hp Hh Hc. pose proof (proj1 (conflicts_none _) Hc host proto p) as Hno.
  rewrite !canonical_claims in * by done. intuition congruence.
Qed.

Lemma canonical_deny_wins_witness : claims false "db.example.com" "tcp" (canonical demo_rules) 48.
Proof.
  apply (canonical_deny_wins demo_rules); [apply demo_plain|done|by vm_compute|]. split.
  - exists (45, 50). split; [|unfold covers_span; simpl; lia].
    exists (NormalizeRule (demo_rule "db.example.com" "tcp" "45-50" "allow")). split; [left|]. by vm_compute.
  - intros (sp & (r & Hr & Hs & Hd & _) & Hc). cbn in Hr. rewrite !elem_of_cons, elem_of_nil in Hr.
    destruct Hr as [->|[->|[->|[]]]]; vm_compute in Hd; try done.
    vm_compute in Hs. injection Hs as <-. unfold covers_span in Hc. simpl in Hc. lia.
Defined.

(** One dedicated listener per (host, port).  When the canonical rules
    pass the generator's checks and every opaque rule names its ports, no two
    tcp/ssh mappings share a host and destination port, so each port is served
    by one listener, either pinned or blackholed. *)
Theorem TCPMappings_unique rules ports :
  Forall plain_proto rules -> generable (canonical rules) ->
  NoDup ((fun m => (m_Dst m, m_DstPort m)) <$> TCPMappings (canonical rules) ports).
Proof.
  apply listeners_unique. intros q. unfold is_tcp_class, opaque_names. rewrite orb_true_iff, !String.eqb_eq.
  rewrite !elem_of_cons. tauto.
Qed.

Lemma demo_generable : generable (canonical demo_rules).
Proof.
  split; [by vm_compute|]. split; [by vm_compute|]. rewrite demo_canonical.
  repeat (apply Forall_cons; split; [intros H; try (by vm_compute in H); vm_compute; by eexists|]). constructor.
Qed.

Lemma TCPMappings_unique_witness :
  NoDup ((fun m => (m_Dst m, m_DstPort m)) <$> TCPMappings (canonical demo_rules) demo_ports).
Proof. apply (TCPMappings_unique demo_rules); [apply demo_plain|apply demo_generable]. Defined.

(** The port requirement is needed.  A tcp rule without a port passes
    through conflict resolution and defaults to 443 only when listeners are
    laid out, so next to an explicit 443 rule it passes every check and still
    asks for the same (host, port) listener twice. *)
Theorem bare_tcp_rule_duplicates_listener :
  let rules := [demo_rule "h.example" "tcp" "" "allow"; demo_rule "h.example" "tcp" "443" "deny"] in
  canonical rules = rules /\ checkProtoCollisions rules = None /\ checkOpaquePortActionConflicts rules = None /\
  ((fun m => (m_Dst m, m_DstPort m)) <$> TCPMappings rules demo_ports) = [("h.example", 443); ("h.example", 443)].
Proof. split_and!; by vm_compute. Qed.

End Checks.
