(* ===== verification/Generator.v ===== *)
(** * The deriver of the Envoy generator

    [derive], [deriveGenFacts] and [layersFor] of
    controlplane/firewall/envoy_config.go: from a rule set to the permutations
    (a rule with the ordered list of layer methods to run).  A layer method is
    named by a constructor; what it writes is in [EnvoyLayers]. *)

From S2P Require Import Prelude GoStrings EgressRule Spans Rules Conflicts Canonical Mappings Checks.
Import Go Rule Spans Rules Conflicts Canonical Mappings Checks.

Module Generator.

Record appDFP := mkDFP { dfp_active : bool; dfp_cache : string }.
Definition no_dfp : appDFP := mkDFP false "".

Inductive layer :=
  | wsEnrichLayer
  | tcpEgressLayer
  | prefixRangeTransportLayer (port : Z)
  | tlsSNIChainLayer (exact : gset string)
  | quicSNIChainLayer (exact : gset string)
  | tcpDedicatedListenerLayer (envoyPort port : Z)
  | udpDedicatedListenerLayer (envoyPort port : Z)
  | httpOriginalDstUpstreamLayer
  | httpWildcardUpstreamLayer
  | httpExactUpstreamLayer
  | httpsOriginalDstUpstreamLayer
  | httpsWildcardUpstreamLayer
  | httpsExactUpstreamLayer
  | opaqueCIDRUpstreamLayer
  | tcpPinnedUpstreamLayer
  | udpPinnedUpstreamLayer
  | httpAppLayer (dfp : appDFP)
  | tcpProxyTerminalLayer (l7 : string)
  | udpProxyTerminalLayer
  | tcpDenyTerminalLayer (l7 : string)
  | udpDenyTerminalLayer.

Record permutation := mkPerm { p_rule : EgressRule; p_layers : list layer; p_key : string }.

(** ** Generation-wide facts *)

Record genFacts := mkFacts {
  httpDFPActive : bool;
  httpsExactDomains : gset string;
  wsOrigins : gset string;
  explicitBaseOrigins : gset string;
  tcpListenerPorts : gmap string Z;
  udpListenerPorts : gmap string Z;
}.

Definition dedicatedPortKey (host : string) (port : Z) : string := host +:+ ":" +:+ Itoa port.

Definition facts_step (g : genFacts) (r : EgressRule) : genFacts :=
  if negb (isAllowAction (Action r)) then g
  else
    let proto := ToLower (Proto r) in
    let base := baseProto proto in
    mkFacts
      (httpDFPActive g || (String.eqb base "http" && isWildcardDomain (Dst r)))
      (if String.eqb base "https" && negb (isWildcardDomain (Dst r))
       then {[normalizeDomain (Dst r)]} ∪ httpsExactDomains g else httpsExactDomains g)
      (if String.eqb proto "ws" || String.eqb proto "wss"
       then {[originKey r]} ∪ wsOrigins g else wsOrigins g)
      (if String.eqb proto "http" || String.eqb proto "https"
       then {[originKey r]} ∪ explicitBaseOrigins g else explicitBaseOrigins g)
      (tcpListenerPorts g) (udpListenerPorts g).

Definition listener_ports (ms : list TCPMapping) : gmap string Z :=
  foldl (fun acc m => <[dedicatedPortKey (m_Dst m) (m_DstPort m) := m_EnvoyPort m]> acc) ∅ ms.

Definition deriveGenFacts (rules : list EgressRule) (ports : EnvoyPorts) : genFacts :=
  let g := foldl facts_step (mkFacts false ∅ ∅ ∅ ∅ ∅) rules in
  mkFacts (httpDFPActive g) (httpsExactDomains g) (wsOrigins g) (explicitBaseOrigins g)
    (listener_ports (TCPMappings rules ports)) (listener_ports (UDPMappings rules ports)).

(** ** layersFor *)

Definition httpDFPCacheName : string := "http_dfp_cache".
Definition httpsDFPCacheName : string := "https_dfp_cache".

Definition httpPort (r : EgressRule) : Z := default defaultHTTPPort (SinglePort r).

(** The empty list is the nil slice of the source. *)
Definition layersFor (r : EgressRule) (gen : genFacts) : list (list layer) :=
  let ws := bool_decide (originKey r ∈ wsOrigins gen) in
  let withWS ls := if ws then wsEnrichLayer :: ls else ls in
  let proto := ToLower (Proto r) in
  if String.eqb proto "http" then
    if isCIDR (Dst r)
    then [withWS [prefixRangeTransportLayer (httpPort r); httpOriginalDstUpstreamLayer; httpAppLayer no_dfp]]
    else
      let app := httpAppLayer (mkDFP (httpDFPActive gen) httpDFPCacheName) in
      if isWildcardDomain (Dst r) then [withWS [tcpEgressLayer; httpWildcardUpstreamLayer; app]]
      else [withWS [tcpEgressLayer; httpExactUpstreamLayer; app]]
  else if String.eqb proto "https" then
    let tcpTransport := tlsSNIChainLayer (httpsExactDomains gen) in
    let quicTransport := quicSNIChainLayer (httpsExactDomains gen) in
    if isCIDR (Dst r)
    then [withWS [tcpTransport; httpsOriginalDstUpstreamLayer; httpAppLayer no_dfp]]
    else if isWildcardDomain (Dst r) then
      let dfp := mkDFP true httpsDFPCacheName in
      [withWS [tcpTransport; httpsWildcardUpstreamLayer; httpAppLayer dfp];
       withWS [quicTransport; httpsWildcardUpstreamLayer; httpAppLayer dfp]]
    else if isIPOrCIDR (Dst r)
    then [withWS [tcpTransport; httpsExactUpstreamLayer; httpAppLayer no_dfp]]
    else
      [withWS [tcpTransport; httpsExactUpstreamLayer; httpAppLayer no_dfp];
       withWS [quicTransport; httpsExactUpstreamLayer; httpAppLayer no_dfp]]
  else if is_tcp_class proto then
    let deny := isDenyAction (Action r) in
    if isCIDR (Dst r) then
      (fun port =>
         if deny then [prefixRangeTransportLayer port; tcpDenyTerminalLayer proto]
         else [prefixRangeTransportLayer port; opaqueCIDRUpstreamLayer; tcpProxyTerminalLayer proto])
      <$> dedicatedPorts r tcpDefaultPort
    else
      let host := normalizeDomain (Dst r) in
      omap (fun port =>
        envoyPort ← tcpListenerPorts gen !! dedicatedPortKey host port;
        Some (if deny then [tcpDedicatedListenerLayer envoyPort port; tcpDenyTerminalLayer proto]
              else [tcpDedicatedListenerLayer envoyPort port; tcpPinnedUpstreamLayer; tcpProxyTerminalLayer proto]))
      (dedicatedPorts r tcpDefaultPort)
  else if is_udp_class proto then
    let deny := isDenyAction (Action r) in
    let host := normalizeDomain (Dst r) in
    omap (fun port =>
      envoyPort ← udpListenerPorts gen !! dedicatedPortKey host port;
      Some (if deny then [udpDedicatedListenerLayer envoyPort port; udpDenyTerminalLayer]
            else [udpDedicatedListenerLayer envoyPort port; udpPinnedUpstreamLayer; udpProxyTerminalLayer]))
    (dedicatedPorts r udpDefaultPort)
  else [].

(** ** derive *)

Inductive GenWarning :=
  | ProtoNotSupported (proto dst : string)
  | HTTPSToCIDR (dst : string).

Definition perm_key (r : EgressRule) (i : nat) : string :=
  Dst r +:+ ":" +:+ Port r +:+ ":" +:+ ToLower (Action r) +:+ ":" +:+ ToLower (Proto r) +:+ "#" +:+
  Itoa (Z.of_nat i).

Record derive_state := mkDerive {
  dv_perms : list permutation;
  dv_warnings : list GenWarning;
  dv_promoted : gset string;
}.

(** The part of the loop body after ws/wss promotion. *)
Definition derive_rule (gen : genFacts) (st : derive_state) (r : EgressRule) : derive_state :=
  let lists := layersFor r gen in
  if bool_decide (lists = [])
  then mkDerive (dv_perms st) (dv_warnings st ++ [ProtoNotSupported (Proto r) (Dst r)]) (dv_promoted st)
  else
    let warn :=
      if isCIDR (Dst r) && String.eqb (baseProto (ToLower (Proto r))) "https" && negb (InsecureSkipTLSVerify r)
      then [HTTPSToCIDR (Dst r)] else [] in
    mkDerive (dv_perms st ++ imap (fun i ls => mkPerm r ls (perm_key r i)) lists)
             (dv_warnings st ++ warn) (dv_promoted st).

Definition derive_step (gen : genFacts) (st : derive_state) (r : EgressRule) : derive_state :=
  if isDenyAction (Action r) && negb (isOpaqueProto (Proto r)) then st
  else
    let proto := ToLower (Proto r) in
    if String.eqb proto "ws" || String.eqb proto "wss" then
      let key := originKey r in
      if bool_decide (key ∈ explicitBaseOrigins gen) || bool_decide (key ∈ dv_promoted st) then st
      else derive_rule gen (mkDerive (dv_perms st) (dv_warnings st) ({[key]} ∪ dv_promoted st))
                       (set_Proto r (baseProto proto))
    else derive_rule gen st r.

Definition derive (rules : list EgressRule) (ports : EnvoyPorts) : list permutation * list GenWarning :=
  let gen := deriveGenFacts rules ports in
  let st := foldl (derive_step gen) (mkDerive [] [] ∅) rules in
  (dv_perms st, dv_warnings st).

(** ** Preconditions of GenerateEnvoyConfig *)

Inductive GenError :=
  | BadPorts (e : PortsError)
  | Collision (e : ProtoCollision)
  | Conflict (e : ActionConflict)
  | Layout (e : LayoutError)
  | UDPToCIDR (dst : string).

Definition opt_check {E A} (e : option E) (wrap : E -> GenError) (k : result GenError A) : result GenError A :=
  match e with Some e => Err (wrap e) | None => k end.

(** The fail-closed checks in order, then the permutations, each key claimed
    once. *)
Definition claim_perms (perms : list permutation) : list permutation :=
  (foldl (fun '(seen, out) p =>
     if bool_decide (p_key p ∈ seen) then (seen, out) else ({[p_key p]} ∪ seen, out ++ [p]))
   (∅ : gset string, []) perms).2.

Definition GeneratePlan (rules : list EgressRule) (ports : EnvoyPorts) : result GenError (list permutation) :=
  match Validate ports with
  | Err e => Err (BadPorts e)
  | Ok _ =>
      opt_check (checkProtoCollisions rules) Collision (
      opt_check (checkOpaquePortActionConflicts rules) Conflict (
      opt_check (validateDedicatedLayout rules ports) Layout (
      opt_check (validateProtoDstSupport rules) UDPToCIDR (
      Ok (claim_perms (derive rules ports).1)))))
  end.

(** ** Facts about the facts *)

Definition is_ws (r : EgressRule) : bool :=
  let proto := ToLower (Proto r) in String.eqb proto "ws" || String.eqb proto "wss".
Definition is_base (r : EgressRule) : bool :=
  let proto := ToLower (Proto r) in String.eqb proto "http" || String.eqb proto "https".

Lemma facts_fold rules g k :
  let g' := foldl facts_step g rules in
  (k ∈ wsOrigins g' <-> k ∈ wsOrigins g \/
     exists r, r ∈ rules /\ isAllowAction (Action r) = true /\ is_ws r = true /\ originKey r = k) /\
  (k ∈ explicitBaseOrigins g' <-> k ∈ explicitBaseOrigins g \/
     exists r, r ∈ rules /\ isAllowAction (Action r) = true /\ is_base r = true /\ originKey r = k).
Proof.
  revert g. induction rules as [|r rs IH]; intros g; cbn [foldl].
  - split; (split; [by left|]); intros [?|(r & Hr & _)]; try done; by apply elem_of_nil in Hr.
  - destruct (IH (facts_step g r)) as [-> ->]. unfold facts_step.
    destruct (isAllowAction (Action r)) eqn:E; simpl; split; unfold is_ws, is_base in *; simpl;
      setoid_rewrite elem_of_cons; repeat case_match; rewrite ?elem_of_union, ?elem_of_singleton; naive_solver congruence.
Qed.

Lemma wsOrigins_spec rules ports k :
  k ∈ wsOrigins (deriveGenFacts rules ports) <->
  exists r, r ∈ rules /\ isAllowAction (Action r) = true /\ is_ws r = true /\ originKey r = k.
Proof.
  destruct (facts_fold rules (mkFacts false ∅ ∅ ∅ ∅ ∅) k) as [H _]. unfold deriveGenFacts. cbn [wsOrigins] in *.
  rewrite H. pose proof (not_elem_of_empty (C := gset string) k). tauto.
Qed.

Lemma explicitBase_spec rules ports k :
  k ∈ explicitBaseOrigins (deriveGenFacts rules ports) <->
  exists r, r ∈ rules /\ isAllowAction (Action r) = true /\ is_base r = true /\ originKey r = k.
Proof.
  destruct (facts_fold rules (mkFacts false ∅ ∅ ∅ ∅ ∅) k) as [_ H]. unfold deriveGenFacts. cbn [explicitBaseOrigins] in *.
  rewrite H. pose proof (not_elem_of_empty (C := gset string) k). tauto.
Qed.

Lemma dedicatedPortKey_inj h1 p1 h2 p2 :
  0 <= p1 <= max_int -> 0 <= p2 <= max_int -> dedicatedPortKey h1 p1 = dedicatedPortKey h2 p2 -> h1 = h2 /\ p1 = p2.
Proof.
  intros H1 H2 E. unfold dedicatedPortKey in E.
  apply (last_sep_inj ":") in E as [-> E]; [|by apply Itoa_not; [apply is_digit_not_colon|lia]..].
  split; [done|]. by apply Itoa_inj.
Qed.

Lemma listener_ports_sound ms k e :
  listener_ports ms !! k = Some e -> exists m, m ∈ ms /\ dedicatedPortKey (m_Dst m) (m_DstPort m) = k /\ m_EnvoyPort m = e.
Proof.
  unfold listener_ports. induction ms as [|m ms IH] using rev_ind; [done|]. rewrite foldl_snoc.
  intros [[Hk <-]|[_ Hl]]%lookup_insert_Some.
  - exists m. set_solver.
  - destruct (IH Hl) as (m' & ? & ?). exists m'. set_solver.
Qed.

Lemma listener_ports_complete ms m :
  m ∈ ms -> is_Some (listener_ports ms !! dedicatedPortKey (m_Dst m) (m_DstPort m)).
Proof.
  unfold listener_ports. induction ms as [|m' ms IH] using rev_ind; [by intros ?%elem_of_nil|].
  rewrite foldl_snoc. intros [Hm| ->%list_elem_of_singleton]%elem_of_app.
  - rewrite lookup_insert_is_Some. destruct (decide (dedicatedPortKey (m_Dst m') (m_DstPort m') = dedicatedPortKey (m_Dst m) (m_DstPort m)));
      [by left|right; auto].
  - by rewrite lookup_insert_eq.
Qed.

(** ** Where a permutation comes from *)

(** The rule the deriver hands to [layersFor]. *)
Definition promoted_rule (r : EgressRule) : EgressRule :=
  if is_ws r then set_Proto r (baseProto (ToLower (Proto r))) else r.

Lemma derive_rule_perms gen st r p :
  p ∈ dv_perms (derive_rule gen st r) <->
  p ∈ dv_perms st \/ (p_rule p = r /\ exists i, layersFor r gen !! i = Some (p_layers p) /\ p_key p = perm_key r i).
Proof.
  unfold derive_rule. case_bool_decide as E; simpl.
  - split; [by left|]. intros [?|(_ & i & Hi & _)]; [done|]. rewrite E in Hi. done.
  - rewrite elem_of_app, elem_of_lookup_imap. split; intros [?|H]; [by left|right|by left|right].
    + destruct H as (i & ls & -> & Hi). split; [done|]. by exists i.
    + destruct H as (<- & i & Hi & Hk). exists i, (p_layers p). rewrite <- Hk. split; [by destruct p|done].
Qed.

Lemma derive_sound_fold gen rules st p :
  p ∈ dv_perms (foldl (derive_step gen) st rules) ->
  p ∈ dv_perms st \/
  exists r, r ∈ rules /\ builds_stack r = true /\ p_rule p = promoted_rule r /\ p_layers p ∈ layersFor (p_rule p) gen.
Proof.
  revert st. induction rules as [|r rs IH]; intros st Hp; [by left|]. cbn [foldl] in Hp.
  apply IH in Hp as [Hp|(r' & Hr & H)]; [|right; exists r'; split; [by right|done]].
  unfold derive_step in Hp. destruct (isDenyAction (Action r) && negb (isOpaqueProto (Proto r))) eqn:Ed; [by left|].
  assert (Hb : builds_stack r = true) by (unfold builds_stack; by rewrite Ed).
  fold (is_ws r) in Hp. destruct (is_ws r) eqn:Ew.
  - destruct (_ || _); [by left|]. apply derive_rule_perms in Hp as [Hp|(Hr & i & Hi & _)]; [by left|].
    right. exists r. split; [by left|]. split; [done|]. unfold promoted_rule. rewrite Ew.
    split; [done|]. rewrite Hr. by eapply list_elem_of_lookup_2.
  - apply derive_rule_perms in Hp as [Hp|(Hr & i & Hi & _)]; [by left|]. right. exists r. split; [by left|].
    split; [done|]. unfold promoted_rule. rewrite Ew. split; [done|]. rewrite Hr. by eapply list_elem_of_lookup_2.
Qed.

Lemma derive_sound rules ports p :
  p ∈ (derive rules ports).1 ->
  exists r, r ∈ rules /\ builds_stack r = true /\ p_rule p = promoted_rule r /\
            p_layers p ∈ layersFor (p_rule p) (deriveGenFacts rules ports).
Proof.
  unfold derive. simpl. intros Hp. apply derive_sound_fold in Hp as [Hp|?]; [by apply elem_of_nil in Hp|done].
Qed.

Lemma derive_mono gen rules st p : p ∈ dv_perms st -> p ∈ dv_perms (foldl (derive_step gen) st rules).
Proof.
  revert st. induction rules as [|r rs IH]; intros st Hp; [done|]. cbn [foldl]. apply IH.
  unfold derive_step. repeat case_match; try done; apply derive_rule_perms; by left.
Qed.

(** A rule that is not ws/wss contributes all its layer lists. *)
Lemma derive_complete rules ports r ls :
  r ∈ rules -> builds_stack r = true -> is_ws r = false -> ls ∈ layersFor r (deriveGenFacts rules ports) ->
  exists p, p ∈ (derive rules ports).1 /\ p_rule p = r /\ p_layers p = ls.
Proof.
  intros Hr Hb Hw Hls. unfold derive. simpl. set (gen := deriveGenFacts rules ports) in *. clearbody gen.
  generalize (mkDerive [] [] ∅) as st. induction rules as [|r0 rs IH]; intros st; [by apply elem_of_nil in Hr|].
  cbn [foldl]. apply elem_of_cons in Hr as [->|Hr]; [|by apply IH].
  apply list_elem_of_lookup in Hls as (i & Hi). exists (mkPerm r0 ls (perm_key r0 i)). split; [|done].
  apply derive_mono. unfold derive_step. unfold builds_stack in Hb. apply negb_true_iff in Hb. rewrite Hb.
  fold (is_ws r0). rewrite Hw. apply derive_rule_perms. right. split; [done|]. by exists i.
Qed.

(** ** Shapes of layer lists *)

Definition is_deny_terminal (l : layer) : bool :=
  match l with tcpDenyTerminalLayer _ | udpDenyTerminalLayer => true | _ => false end.

Definition is_upstream (l : layer) : bool :=
  match l with
  | httpOriginalDstUpstreamLayer | httpWildcardUpstreamLayer | httpExactUpstreamLayer
  | httpsOriginalDstUpstreamLayer | httpsWildcardUpstreamLayer | httpsExactUpstreamLayer
  | opaqueCIDRUpstreamLayer | tcpPinnedUpstreamLayer | udpPinnedUpstreamLayer => true
  | _ => false
  end.

(** A chain reaches an upstream and no blackhole, or the other way round. *)
Definition forwards (ls : list layer) : bool := existsb is_upstream ls && negb (existsb is_deny_terminal ls).
Definition blackholes (ls : list layer) : bool := existsb is_deny_terminal ls && negb (existsb is_upstream ls).

Ltac in_cases H :=
  rewrite ?elem_of_cons, ?elem_of_nil in H;
  repeat match type of H with _ \/ _ => destruct H as [H|H] end; try done.

Lemma layersFor_shape r gen ls :
  ls ∈ layersFor r gen ->
  if isDenyAction (Action r) && isOpaqueProto (Proto r) then blackholes ls = true else forwards ls = true.
Proof.
  unfold layersFor, isOpaqueProto. intros H.
  destruct (String.eqb_spec (ToLower (Proto r)) "http") as [E|_].
  { rewrite E, andb_false_r. repeat case_match; in_cases H; by subst ls. }
  destruct (String.eqb_spec (ToLower (Proto r)) "https") as [E|_].
  { rewrite E, andb_false_r. repeat case_match; in_cases H; by subst ls. }
  unfold is_tcp_class, is_udp_class in H.
  destruct (String.eqb (ToLower (Proto r)) "ssh"), (String.eqb (ToLower (Proto r)) "tcp"); simpl in *;
    rewrite ?andb_true_r, ?andb_false_r;
    try (destruct (isCIDR (Dst r)); [apply list_elem_of_fmap in H as (port & -> & _)|
           apply list_elem_of_omap in H as (port & _ & H); destruct (tcpListenerPorts gen !! _); [|done]; simpl in H;
           injection H as <-]; by destruct (isDenyAction (Action r))).
  destruct (String.eqb (ToLower (Proto r)) "udp"); [|by apply elem_of_nil in H].
  rewrite andb_true_r. apply list_elem_of_omap in H as (port & _ & H). destruct (udpListenerPorts gen !! _); [|done].
  simpl in H. injection H as <-. by destruct (isDenyAction (Action r)).
Qed.

Lemma promoted_fields r :
  Dst (promoted_rule r) = Dst r /\ Port (promoted_rule r) = Port r /\ Action (promoted_rule r) = Action r.
Proof. unfold promoted_rule. by destruct (is_ws r). Qed.

Lemma opaque_not_ws r : isOpaqueProto (Proto r) = true -> is_ws r = false.
Proof.
  unfold isOpaqueProto, is_ws. rewrite !orb_true_iff, !String.eqb_eq. by intros [[-> | ->]| ->].
Qed.

(** The dedicated listeners of a rule are looked up in the layout. *)
Lemma layersFor_dedicated r gen ls e port :
  ls ∈ layersFor r gen -> tcpDedicatedListenerLayer e port ∈ ls ->
  tcpListenerPorts gen !! dedicatedPortKey (normalizeDomain (Dst r)) port = Some e /\
  isCIDR (Dst r) = false /\ is_tcp_class (ToLower (Proto r)) = true /\ port ∈ dedicatedPorts r tcpDefaultPort.
Proof.
  unfold layersFor. intros H Hl.
  destruct (String.eqb (ToLower (Proto r)) "http"); [repeat case_match; in_cases H; subst ls; in_cases Hl|].
  destruct (String.eqb (ToLower (Proto r)) "https"); [repeat case_match; in_cases H; subst ls; in_cases Hl|].
  destruct (is_tcp_class (ToLower (Proto r))).
  - destruct (isCIDR (Dst r)).
    + apply list_elem_of_fmap in H as (q & -> & _). destruct (isDenyAction (Action r)); in_cases Hl.
    + apply list_elem_of_omap in H as (q & Hq & H). destruct (tcpListenerPorts gen !! _) as [e'|] eqn:E; [|done].
      simpl in H. injection H as <-. destruct (isDenyAction (Action r)); in_cases Hl; by injection Hl as -> ->.
  - destruct (is_udp_class _); [|by apply elem_of_nil in H].
    apply list_elem_of_omap in H as (q & _ & H). destruct (udpListenerPorts gen !! _); [|done].
    simpl in H. injection H as <-. destruct (isDenyAction (Action r)); in_cases Hl.
Qed.

Lemma dedicated_port_bounds r pf p :
  0 <= pf r <= 65535 -> p ∈ dedicatedPorts r pf -> 0 <= p <= max_int.
Proof.
  intros Hpf. assert (65535 <= max_int) by (by vm_compute). unfold dedicatedPorts.
  destruct (PortSpan r) as [[lo hi]|] eqn:E.
  - apply PortSpan_bounds in E. unfold maxPort in E. rewrite elem_of_seqZ. lia.
  - intros ->%list_elem_of_singleton. lia.
Qed.

Lemma tcpDefaultPort_bounds r : 0 <= tcpDefaultPort r <= 65535.
Proof.
  unfold tcpDefaultPort, sshDefaultPort, defaultDestPort. destruct (SinglePort r) as [p|] eqn:E.
  - apply SinglePort_span, PortSpan_bounds in E. unfold maxPort in E. lia.
  - case_match; lia.
Qed.

Lemma mapping_key_inj rules ports host port m :
  m ∈ TCPMappings rules ports -> 0 <= port <= max_int ->
  dedicatedPortKey (m_Dst m) (m_DstPort m) = dedicatedPortKey host port -> m_Dst m = host /\ m_DstPort m = port.
Proof.
  intros Hm Hp E. apply dedicatedPortKey_inj; [|done|done]. destruct m as [d q e]. simpl in *.
  destruct (proj1 (dedicated_loop_elem (TCPPortBase ports) 0 is_tcp_class tcpDefaultPort isCIDR rules d q)
              (ex_intro _ e Hm)) as (r & _ & _ & _ & _ & Hq).
  eapply dedicated_port_bounds; [apply (tcpDefaultPort_bounds r)|done].
Qed.

Lemma layersFor_ws r gen ls :
  is_base r = true -> ls ∈ layersFor r gen -> wsEnrichLayer ∈ ls <-> originKey r ∈ wsOrigins gen.
Proof.
  unfold is_base, layersFor. intros Hb H. case_bool_decide as Hw; split; try done; intros Hl;
    destruct (String.eqb (ToLower (Proto r)) "http"), (String.eqb (ToLower (Proto r)) "https"); try done;
    repeat case_match; in_cases H; subst ls; first [by left|in_cases Hl].
Qed.

Lemma originKey_promote r : is_ws r = true -> originKey (promoted_rule r) = originKey r.
Proof.
  intros Hw. unfold originKey. destruct (promoted_fields r) as (-> & _ & _).
  assert (effectiveDstPort (promoted_rule r) = effectiveDstPort r) as ->; [|done].
  { unfold effectiveDstPort, SinglePort, PortSpan. destruct (promoted_fields r) as (_ & -> & _).
    destruct (match ParsePortSpec (Port r) with Ok sp => sp | Err _ => None end) as [[lo hi]|];
      [destruct (lo =? hi); [done|]|]; unfold promoted_rule; rewrite Hw; cbn [Proto set_Proto];
      unfold is_ws in Hw; apply orb_true_iff in Hw as [Hw|Hw]; apply String.eqb_eq in Hw; by rewrite Hw. }
Qed.

Lemma is_base_promote r : is_ws r = true -> is_base (promoted_rule r) = true.
Proof.
  intros Hw. unfold is_base, promoted_rule. rewrite Hw. cbn [Proto set_Proto].
  unfold is_ws in Hw. apply orb_true_iff in Hw as [Hw|Hw]; apply String.eqb_eq in Hw; by rewrite Hw.
Qed.

Lemma layersFor_base_nonempty r gen : is_base r = true -> exists ls, ls ∈ layersFor r gen.
Proof.
  unfold is_base, layersFor. intros Hb.
  destruct (String.eqb (ToLower (Proto r)) "http"); [repeat case_match; by eexists; left|].
  destruct (String.eqb (ToLower (Proto r)) "https"); [repeat case_match; by eexists; left|done].
Qed.

(** A ws/wss rule's origin gets a base stack: promoted, or an explicit one. *)
Lemma promoted_fold gen rules st r :
  (forall k, k ∈ dv_promoted st -> exists p, p ∈ dv_perms st /\ is_base (p_rule p) = true /\ originKey (p_rule p) = k /\
     p_layers p ∈ layersFor (p_rule p) gen) ->
  r ∈ rules -> is_ws r = true -> builds_stack r = true -> originKey r ∉ explicitBaseOrigins gen ->
  exists p, p ∈ dv_perms (foldl (derive_step gen) st rules) /\ is_base (p_rule p) = true /\
            originKey (p_rule p) = originKey r /\ p_layers p ∈ layersFor (p_rule p) gen.
Proof.
  intros Hst Hr Hw Hb Hn. revert st Hst. induction rules as [|r0 rs IH]; intros st Hst; [by apply elem_of_nil in Hr|].
  cbn [foldl].
  assert (Hder : forall x, is_ws x = true -> is_base (promoted_rule x) = true ->
     exists p, p ∈ dv_perms (derive_rule gen (mkDerive (dv_perms st) (dv_warnings st) ({[originKey x]} ∪ dv_promoted st)) (promoted_rule x))
       /\ is_base (p_rule p) = true /\ originKey (p_rule p) = originKey x /\ p_layers p ∈ layersFor (p_rule p) gen).
  { intros x Hx Hbx. destruct (layersFor_base_nonempty (promoted_rule x) gen Hbx) as (ls & Hls).
    pose proof Hls as Hls'. apply list_elem_of_lookup in Hls as (i & Hi).
    exists (mkPerm (promoted_rule x) ls (perm_key (promoted_rule x) i)). split; [|split_and!; try done; by apply originKey_promote].
    apply derive_rule_perms. right. split; [done|]. by exists i. }
  apply elem_of_cons in Hr as [->|Hr].
  - assert (exists p, p ∈ dv_perms (derive_step gen st r0) /\ is_base (p_rule p) = true /\
              originKey (p_rule p) = originKey r0 /\ p_layers p ∈ layersFor (p_rule p) gen) as (p & Hp & Hrest).
    { unfold derive_step. unfold builds_stack in Hb. apply negb_true_iff in Hb. rewrite Hb. fold (is_ws r0). rewrite Hw.
      rewrite (bool_decide_eq_false_2 _ Hn). simpl. case_bool_decide as Hpr; [by apply Hst|].
      pose proof (Hder r0 Hw (is_base_promote r0 Hw)) as Hd. unfold promoted_rule in Hd. by rewrite Hw in Hd. }
    exists p. split; [by apply derive_mono|done].
  - apply IH; [done|]. intros k. unfold derive_step.
    destruct (isDenyAction (Action r0) && negb (isOpaqueProto (Proto r0))); [apply Hst|].
    assert (Hkeep : forall st' x, dv_perms st' = dv_perms st -> forall k, k ∈ dv_promoted st ->
       exists p, p ∈ dv_perms (derive_rule gen st' x) /\ is_base (p_rule p) = true /\ originKey (p_rule p) = k /\
                 p_layers p ∈ layersFor (p_rule p) gen).
    { intros st' x E k0 Hk0. destruct (Hst k0 Hk0) as (p & Hp & ?). exists p. split; [|done].
      apply derive_rule_perms. left. by rewrite E. }
    assert (Hprom : forall st' x, dv_promoted (derive_rule gen st' x) = dv_promoted st').
    { intros st' x. unfold derive_rule. by case_bool_decide. }
    fold (is_ws r0). destruct (is_ws r0) eqn:Ew.
    + destruct (_ || _); [apply Hst|]. rewrite Hprom. cbn [dv_promoted].
      intros [->%elem_of_singleton|Hk]%elem_of_union; [|by apply Hkeep].
      pose proof (Hder r0 Ew (is_base_promote r0 Ew)) as Hd. unfold promoted_rule in Hd. by rewrite Ew in Hd.
    + rewrite Hprom. by apply Hkeep.
Qed.

(** ** Theorems *)

(** Deny rules never forward.  Every permutation the deriver emits stems
    from a rule of the input; if that rule denies, it is of an opaque protocol
    and its chain ends in a blackhole and reaches no upstream; if it allows,
    its chain reaches an upstream and no blackhole.  Deny rules of http-family
    protocols emit nothing: they are enforced by absence. *)
Theorem derive_deny_blackholes rules ports p :
  p ∈ (derive rules ports).1 ->
  exists r, r ∈ rules /\ Action r = Action (p_rule p) /\ Dst r = Dst (p_rule p) /\
    if isDenyAction (Action r) then isOpaqueProto (Proto r) = true /\ blackholes (p_layers p) = true
    else forwards (p_layers p) = true.
Proof.
  intros (r & Hr & Hb & Hpr & Hls)%derive_sound. exists r. rewrite Hpr.
  destruct (promoted_fields r) as (-> & _ & ->). split; [done|]. split; [done|]. split; [done|].
  apply layersFor_shape in Hls. rewrite Hpr in Hls. destruct (promoted_fields r) as (_ & _ & E). rewrite E in Hls.
  destruct (isDenyAction (Action r)) eqn:Ed; [|done]. unfold builds_stack in Hb. rewrite Ed in Hb.
  apply negb_true_iff, negb_false_iff in Hb. split; [done|].
  unfold promoted_rule in Hls. rewrite (opaque_not_ws r Hb), Hb in Hls. done.
Qed.

Lemma derive_deny_blackholes_witness :
  exists p, p ∈ (derive demo_opaque demo_ports).1 /\ blackholes (p_layers p) = true.
Proof.
  set (perms := (derive demo_opaque demo_ports).1).
  assert (exists p, perms !! 4%nat = Some p) as [p Hp] by (by eexists; vm_compute).
  assert (Hin : p ∈ perms) by (by eapply list_elem_of_lookup_2). exists p. split; [done|].
  destruct (derive_deny_blackholes demo_opaque demo_ports p Hin) as (r & _ & Ha & _ & Hif).
  assert (Hd : isDenyAction (Action r) = true).
  { rewrite Ha. vm_compute in Hp. injection Hp as <-. by vm_compute. }
  rewrite Hd in Hif. apply Hif.
Defined.

(** Generator and routes agree on listener ports.  Whenever a permutation
    uses a dedicated tcp listener for a port, the layout shared with the eBPF
    routes maps that rule's host and port to that very listener. *)
Theorem derive_listener_lockstep rules ports p e port :
  p ∈ (derive rules ports).1 -> tcpDedicatedListenerLayer e port ∈ p_layers p ->
  mkMapping (normalizeDomain (Dst (p_rule p))) port e ∈ TCPMappings rules ports.
Proof.
  intros (r & Hr & _ & _ & Hls)%derive_sound Hl.
  destruct (layersFor_dedicated _ _ _ _ _ Hls Hl) as (Hk & _ & _ & Hport).
  apply listener_ports_sound in Hk as (m & Hm & Hkey & <-).
  apply (mapping_key_inj rules ports) in Hkey as [Ed Ep]; [|done|].
  - rewrite <- Ed, <- Ep. by destruct m.
  - eapply dedicated_port_bounds; [apply (tcpDefaultPort_bounds (p_rule p))|done].
Qed.

Lemma derive_listener_lockstep_witness :
  exists e, mkMapping "db.example.com" 5433 e ∈ TCPMappings demo_opaque demo_ports.
Proof.
  exists 10101.
  set (p := mkPerm (mkRule "db.example.com" "tcp" "5432-5434" "allow" [] "" false)
              [tcpDedicatedListenerLayer 10101 5433; tcpPinnedUpstreamLayer; tcpProxyTerminalLayer "tcp"]
              "db.example.com:5432-5434:allow:tcp#1").
  apply (derive_listener_lockstep demo_opaque demo_ports p).
  - apply (list_elem_of_lookup_2 _ 1%nat). by vm_compute.
  - by left.
Defined.

(** No opaque tcp/ssh port is dropped: for every such rule on a host or
    single IP and every port it names, a permutation of that rule binds a
    dedicated listener for that port. *)
Theorem derive_opaque_complete rules ports r port :
  r ∈ rules -> is_tcp_class (ToLower (Proto r)) = true -> isCIDR (Dst r) = false ->
  port ∈ dedicatedPorts r tcpDefaultPort ->
  exists p e, p ∈ (derive rules ports).1 /\ p_rule p = r /\ tcpDedicatedListenerLayer e port ∈ p_layers p.
Proof.
  intros Hr Hc Hd Hp.
  assert (Hop : isOpaqueProto (Proto r) = true).
  { unfold is_tcp_class in Hc. unfold isOpaqueProto. rewrite orb_true_iff, !String.eqb_eq in Hc.
    destruct Hc as [-> | ->]; done. }
  destruct (proj2 (dedicated_loop_elem (TCPPortBase ports) 0 is_tcp_class tcpDefaultPort isCIDR rules (normalizeDomain (Dst r)) port))
    as (e0 & Hm); [by exists r|].
  destruct (listener_ports_complete _ _ Hm) as (e & He). cbn [m_Dst m_DstPort] in He.
  set (ls := if isDenyAction (Action r)
             then [tcpDedicatedListenerLayer e port; tcpDenyTerminalLayer (ToLower (Proto r))]
             else [tcpDedicatedListenerLayer e port; tcpPinnedUpstreamLayer; tcpProxyTerminalLayer (ToLower (Proto r))]).
  destruct (derive_complete rules ports r ls) as (p & H1 & H2 & H3); [done|..].
  - unfold builds_stack. by rewrite Hop, andb_false_r.
  - by apply opaque_not_ws.
  - unfold layersFor. unfold is_tcp_class in Hc. rewrite orb_true_iff, !String.eqb_eq in Hc.
    destruct Hc as [E|E]; rewrite E; simpl; rewrite Hd; apply list_elem_of_omap; exists port; (split; [done|]);
      cbn [tcpListenerPorts deriveGenFacts]; unfold TCPMappings, dedicatedMappings; rewrite He; simpl;
      unfold ls; rewrite E; by destruct (isDenyAction (Action r)).
  - exists p, e. split; [done|]. split; [done|]. rewrite H3. unfold ls. destruct (isDenyAction (Action r)); by left.
Qed.

Lemma derive_opaque_complete_witness :
  exists p e, p ∈ (derive demo_opaque demo_ports).1 /\ tcpDedicatedListenerLayer e 5434 ∈ p_layers p.
Proof.
  destruct (derive_opaque_complete demo_opaque demo_ports (mkRule "db.example.com" "tcp" "5432-5434" "allow" [] "" false) 5434)
    as (p & e & H1 & _ & H2); [by left|by vm_compute|by vm_compute|vm_compute; repeat (first [by left|right])|].
  by exists p, e.
Defined.

(** Websocket rules enrich, never duplicate.  An http/https permutation
    carries the websocket enrichment exactly when an allowed ws/wss rule names
    its origin, and the origin of every allowed ws/wss rule has an http/https
    permutation that carries it. *)
Theorem derive_websocket rules ports :
  (forall p, p ∈ (derive rules ports).1 -> is_base (p_rule p) = true ->
     wsEnrichLayer ∈ p_layers p <->
     exists r, r ∈ rules /\ isAllowAction (Action r) = true /\ is_ws r = true /\ originKey r = originKey (p_rule p)) /\
  (forall r, r ∈ rules -> isAllowAction (Action r) = true -> is_ws r = true ->
     exists p, p ∈ (derive rules ports).1 /\ is_base (p_rule p) = true /\ originKey (p_rule p) = originKey r /\
               wsEnrichLayer ∈ p_layers p).
Proof.
  assert (Hws : forall p, p ∈ (derive rules ports).1 -> is_base (p_rule p) = true ->
     wsEnrichLayer ∈ p_layers p <-> originKey (p_rule p) ∈ wsOrigins (deriveGenFacts rules ports)).
  { intros p (r & _ & _ & _ & Hls)%derive_sound Hb. by apply layersFor_ws. }
  split.
  - intros p Hp Hb. rewrite Hws by done. apply wsOrigins_spec.
  - intros r Hr Ha Hw. set (gen := deriveGenFacts rules ports) in *.
    assert (Hallow : forall x, isAllowAction (Action x) = true -> builds_stack x = true).
    { intros x Hx. unfold builds_stack. unfold isAllowAction in Hx. unfold isDenyAction.
      rewrite orb_true_iff, !String.eqb_eq in Hx. by destruct Hx as [-> | ->]. }
    assert (exists p, p ∈ (derive rules ports).1 /\ is_base (p_rule p) = true /\ originKey (p_rule p) = originKey r) as (p & Hp & Hb & Ho).
    { destruct (decide (originKey r ∈ explicitBaseOrigins gen)) as [He|He].
      - apply explicitBase_spec in He as (r' & Hr' & Ha' & Hb' & Ho').
        destruct (layersFor_base_nonempty r' gen Hb') as (ls & Hls).
        destruct (derive_complete rules ports r' ls) as (p & ? & Hpr & ?); [done|by apply Hallow| |done|].
        + unfold is_base in Hb'. unfold is_ws. rewrite orb_true_iff, !String.eqb_eq in Hb'. by destruct Hb' as [-> | ->].
        + exists p. by rewrite Hpr.
      - destruct (promoted_fold gen rules (mkDerive [] [] ∅) r) as (p & ? & ? & ? & _); try done; try (by apply Hallow). by exists p. }
    exists p. split_and!; try done. apply Hws; [done|done|]. rewrite Ho. apply wsOrigins_spec. by exists r.
Qed.

End Generator.
