(* ===== verification/Routes.v ===== *)
(** * eBPF routes

    [RoutesFromRules] and [SeedDomainsFromRules] of
    controlplane/firewall/rules_store.go with the address and hash helpers of
    controlplane/firewall/ebpf/types.go: the projection of a rule set into the
    kernel's route map, in lockstep with the listener layout. *)

From S2P Require Import Prelude GoStrings GoNet EgressRule Spans Rules Conflicts Mappings Checks Generator.
Import Go Rule Spans Rules Conflicts Mappings Checks Generator.

Module Routes.

Definition uint16 (n : Z) : Z := n mod 2 ^ 16.
Definition uint32 (n : Z) : Z := n mod 2 ^ 32.

(** ** Hashes and addresses (ebpf/types.go) *)

(** FNV-1a, 32 bits. *)
Definition fnv_offset : Z := 2166136261.
Definition fnv_prime : Z := 16777619.

Fixpoint fnv1a (h : Z) (s : string) : Z :=
  match s with
  | EmptyString => h
  | String c s' => fnv1a (uint32 (Z.lxor h (code c) * fnv_prime)) s'
  end.

Definition DomainHash (domain : string) : Z := fnv1a fnv_offset (ToLower domain).

(** The four bytes as the (little-endian) CPU loads them. *)
Definition le_value (bytes : list Z) : Z :=
  foldr (fun b acc => b + 256 * acc) 0 bytes.

Definition IPToUint32 (a : GoNet.Addr) : Z :=
  match GoNet.To4 a with Some bytes => le_value bytes | None => 0 end.

Definition Uint32ToIP (n : Z) : list Z :=
  [n mod 256; (n / 256) mod 256; (n / 65536) mod 256; (n / 16777216) mod 256].

(** ** Routes *)

Definition L4ProtoTCP : Z := 1.
Definition L4ProtoUDP : Z := 2.

Record Route := mkRoute {
  rt_DomainHash : Z;
  rt_DstPort : Z;
  rt_EnvoyPort : Z;
  rt_L4Proto : Z;
  rt_SeedIP : Z;
}.

#[global] Instance Route_eq_dec : EqDecision Route.
Proof. solve_decision. Defined.

(** [net.ParseIP(dst).To4()]. *)
Definition parse_v4 (dst : string) : option (list Z) := a ← GoNet.ParseIP dst; GoNet.To4 a.

Definition mappingRoute (m : TCPMapping) (proto : Z) : Route :=
  mkRoute (DomainHash (m_Dst m)) (uint16 (m_DstPort m)) (uint16 (m_EnvoyPort m)) proto
    (match parse_v4 (m_Dst m) with Some v4 => le_value v4 | None => 0 end).

Definition mapping_routes (ms : list TCPMapping) (proto : Z) : list Route :=
  (fun m => mappingRoute m proto) <$> filter (fun m => m_Dst m <> "") ms.

Definition egress_route (ports : EnvoyPorts) (dst : string) (port proto : Z) : Route :=
  mkRoute (DomainHash dst) (uint16 port) (uint16 (EgressPort ports)) proto 0.

(** The rules the TLS/HTTP pass projects: the normalized host and the port. *)
Definition tls_target (r : EgressRule) : option (string * Z) :=
  if negb (isAllowAction (Action r)) then None
  else
    let proto := ToLower (Proto r) in
    if String.eqb proto "ssh" || String.eqb proto "tcp" then None
    else if String.eqb proto "udp" then None
    else if isIPOrCIDR (Dst r) then None
    else
      let dst := normalizeDomain (Dst r) in
      if String.eqb dst "" then None
      else port ← SinglePort r; Some (dst, port).

Definition has_h3 (r : EgressRule) : bool :=
  let proto := ToLower (Proto r) in String.eqb proto "https" || String.eqb proto "wss".

Record tls_state := mkTls { ts_seen : gset string; ts_udpSeen : gset string; ts_out : list Route }.

Definition tls_step (ports : EnvoyPorts) (st : tls_state) (r : EgressRule) : tls_state :=
  match tls_target r with
  | None => st
  | Some (dst, port) =>
      let key := dedicatedPortKey dst port in
      if bool_decide (key ∈ ts_seen st) then st
      else
        let seen := {[key]} ∪ ts_seen st in
        let out := ts_out st ++ [egress_route ports dst port L4ProtoTCP] in
        if has_h3 r && negb (bool_decide (key ∈ ts_udpSeen st))
        then mkTls seen ({[key]} ∪ ts_udpSeen st) (out ++ [egress_route ports dst port L4ProtoUDP])
        else mkTls seen (ts_udpSeen st) out
  end.

Definition udp_seen (ms : list TCPMapping) : gset string :=
  list_to_set ((fun m => dedicatedPortKey (m_Dst m) (m_DstPort m)) <$> filter (fun m => m_Dst m <> "") ms).

Definition RoutesFromRules (rules : list EgressRule) (ports : EnvoyPorts) : list Route :=
  let tcp := TCPMappings rules ports in
  let udp := UDPMappings rules ports in
  let st := foldl (tls_step ports)
              (mkTls ∅ (udp_seen udp) (mapping_routes tcp L4ProtoTCP ++ mapping_routes udp L4ProtoUDP)) rules in
  ts_out st.

(** ** Seeded destinations *)

Definition seed_step (st : gset string * list string) (m : TCPMapping) : gset string * list string :=
  let '(seen, out) := st in
  match parse_v4 (m_Dst m) with
  | None => st
  | Some _ => if bool_decide (m_Dst m ∈ seen) then st else ({[m_Dst m]} ∪ seen, out ++ [m_Dst m])
  end.

Definition SeedDomainsFromRules (rules : list EgressRule) (ports : EnvoyPorts) : list string :=
  (foldl seed_step (∅, []) (TCPMappings rules ports ++ UDPMappings rules ports)).2.

(** ** Facts *)

Lemma fnv1a_range h s : 0 <= h < 2 ^ 32 -> 0 <= fnv1a h s < 2 ^ 32.
Proof.
  revert h. induction s as [|c s IH]; intros h Hh; [done|]. simpl. apply IH.
  unfold uint32. apply Z.mod_pos_bound. lia.
Qed.

Lemma tls_target_spec r dst port :
  tls_target r = Some (dst, port) <->
  isAllowAction (Action r) = true /\ isOpaqueProto (Proto r) = false /\ isIPOrCIDR (Dst r) = false /\
  dst = normalizeDomain (Dst r) /\ dst <> "" /\ SinglePort r = Some port.
Proof.
  unfold tls_target, isOpaqueProto.
  destruct (isAllowAction (Action r)); simpl; [|naive_solver].
  destruct (String.eqb (ToLower (Proto r)) "ssh"), (String.eqb (ToLower (Proto r)) "tcp"),
    (String.eqb (ToLower (Proto r)) "udp"); simpl; try naive_solver.
  destruct (isIPOrCIDR (Dst r)); [naive_solver|].
  destruct (String.eqb_spec (normalizeDomain (Dst r)) "") as [E|E]; [naive_solver|].
  destruct (SinglePort r); simpl; naive_solver.
Qed.

Lemma tls_target_port r dst port : tls_target r = Some (dst, port) -> 1 <= port <= 65535.
Proof.
  intros (_ & _ & _ & _ & _ & Hp)%tls_target_spec. apply SinglePort_span, PortSpan_bounds in Hp.
  unfold maxPort in Hp. lia.
Qed.

(** [rt] is a route the TLS pass emits for one of [rules]. *)
Definition tls_emits (ports : EnvoyPorts) (st0 : tls_state) (rules : list EgressRule) (rt : Route) : Prop :=
  exists r dst port, r ∈ rules /\ tls_target r = Some (dst, port) /\
    (rt = egress_route ports dst port L4ProtoTCP \/
     (rt = egress_route ports dst port L4ProtoUDP /\ has_h3 r = true /\ dedicatedPortKey dst port ∉ ts_udpSeen st0)).

(** What the TLS pass has emitted after [rules]. *)
Record tls_ok (ports : EnvoyPorts) (st0 : tls_state) (rules : list EgressRule) (st : tls_state) : Prop := {
  to_seen : forall dst port, 1 <= port <= 65535 ->
    dedicatedPortKey dst port ∈ ts_seen st <-> exists r, r ∈ rules /\ tls_target r = Some (dst, port);
  to_tcp : forall dst port, (exists r, r ∈ rules /\ tls_target r = Some (dst, port)) ->
    egress_route ports dst port L4ProtoTCP ∈ ts_out st;
  to_sound : forall rt, rt ∈ ts_out st -> rt ∈ ts_out st0 \/ tls_emits ports st0 rules rt;
  to_keep : forall rt, rt ∈ ts_out st0 -> rt ∈ ts_out st;
  to_udp : forall k, k ∈ ts_udpSeen st0 -> k ∈ ts_udpSeen st;
}.

Lemma port_key_inj d1 p1 d2 p2 :
  1 <= p1 <= 65535 -> 1 <= p2 <= 65535 -> dedicatedPortKey d1 p1 = dedicatedPortKey d2 p2 -> d1 = d2 /\ p1 = p2.
Proof.
  intros H1 H2. assert (65535 <= max_int) by (by vm_compute). apply dedicatedPortKey_inj; lia.
Qed.

Lemma exists_snoc (P : EgressRule -> Prop) rules r :
  (exists x, x ∈ rules ++ [r] /\ P x) <-> (exists x, x ∈ rules /\ P x) \/ P r.
Proof. setoid_rewrite elem_of_app. setoid_rewrite list_elem_of_singleton. naive_solver. Qed.

Lemma tls_emits_snoc ports st0 rules r rt : tls_emits ports st0 rules rt -> tls_emits ports st0 (rules ++ [r]) rt.
Proof. intros (r0 & d & p & Hr & Hx). exists r0, d, p. split; [apply elem_of_app; by left|done]. Qed.

(** A rule that adds nothing: no target, or one already seen. *)
Lemma tls_ok_skip ports st0 rules r st :
  tls_ok ports st0 rules st ->
  (forall dst port, tls_target r = Some (dst, port) -> exists x, x ∈ rules /\ tls_target x = Some (dst, port)) ->
  tls_ok ports st0 (rules ++ [r]) st.
Proof.
  intros [I1 I2 I3 I4 I5] Hr. constructor; try done.
  - intros d p Hp. rewrite exists_snoc, I1 by done. naive_solver.
  - intros d p [Hx|Hx]%exists_snoc; apply I2; [done|by apply Hr].
  - intros rt [?|?]%I3; [by left|right; by apply tls_emits_snoc].
Qed.

(** A new target: the tcp route, and possibly the h3 sibling. *)
Lemma tls_ok_emit ports st0 rules r st dst port extra udp :
  tls_ok ports st0 rules st -> tls_target r = Some (dst, port) -> 1 <= port <= 65535 ->
  (forall rt, rt ∈ extra -> rt = egress_route ports dst port L4ProtoUDP /\ has_h3 r = true /\
     dedicatedPortKey dst port ∉ ts_udpSeen st0) ->
  (forall k, k ∈ ts_udpSeen st0 -> k ∈ udp) ->
  tls_ok ports st0 (rules ++ [r]) (mkTls ({[dedicatedPortKey dst port]} ∪ ts_seen st) udp
    ((ts_out st ++ [egress_route ports dst port L4ProtoTCP]) ++ extra)).
Proof.
  intros [I1 I2 I3 I4 I5] Et Hport Hx Hu.
  assert (Hr : r ∈ rules ++ [r]) by (apply elem_of_app; right; by left). constructor; simpl; try done.
  - intros d p Hp. rewrite elem_of_union, elem_of_singleton, I1, exists_snoc, Et by done. split.
    + intros [E|?]; [right|by left]. apply port_key_inj in E as [-> ->]; done.
    + intros [?|[= <- <-]]; [by right|by left].
  - intros d p [Hd|Hd]%exists_snoc; rewrite !elem_of_app, list_elem_of_singleton; left; [left; by apply I2|].
    right. rewrite Et in Hd. by injection Hd as -> ->.
  - intros rt [[Hrt| ->%list_elem_of_singleton]%elem_of_app|Hrt]%elem_of_app.
    + apply I3 in Hrt as [?|?]; [by left|right; by apply tls_emits_snoc].
    + right. exists r, dst, port. split; [done|]. split; [done|by left].
    + right. exists r, dst, port. split; [done|]. split; [done|]. right. by apply Hx.
  - intros rt Hrt. rewrite !elem_of_app. left. left. by apply I4.
Qed.

Lemma tls_fold ports st0 rules :
  ts_seen st0 = ∅ -> tls_ok ports st0 rules (foldl (tls_step ports) st0 rules).
Proof.
  intros H0. induction rules as [|r rules IH] using rev_ind.
  - constructor; simpl; try done.
    + intros dst port _. rewrite H0. split; [by intros ?%not_elem_of_empty|].
      intros (r & Hr & _). by apply elem_of_nil in Hr.
    + intros dst port (r & Hr & _). by apply elem_of_nil in Hr.
    + intros rt Hrt. by left.
  - rewrite foldl_snoc. set (st := foldl (tls_step ports) st0 rules) in *. unfold tls_step.
    destruct (tls_target r) as [[dst port]|] eqn:Et; [|apply tls_ok_skip; [done|intros; congruence]].
    pose proof (tls_target_port _ _ _ Et) as Hport. case_bool_decide as Hs.
    { apply (to_seen _ _ _ _ IH) in Hs; [|done]. apply tls_ok_skip; [done|]. intros d p Hd. rewrite Et in Hd. by injection Hd as <- <-. }
    destruct (has_h3 r && negb (bool_decide (dedicatedPortKey dst port ∈ ts_udpSeen st))) eqn:E; bool_to_prop.
    + apply tls_ok_emit; [done..| |intros k Hk; apply elem_of_union; right; by apply (to_udp _ _ _ _ IH)].
      intros rt ->%list_elem_of_singleton. split_and!; [done..|]. intros Hk. by apply (to_udp _ _ _ _ IH) in Hk.
    + rewrite <- (app_nil_r (ts_out st ++ _)). apply tls_ok_emit; [done..|by intros rt ?%elem_of_nil|]. apply (to_udp _ _ _ _ IH).
Qed.

Lemma elem_mapping_routes ms proto rt :
  rt ∈ mapping_routes ms proto <-> exists m, m ∈ ms /\ m_Dst m <> "" /\ rt = mappingRoute m proto.
Proof. unfold mapping_routes. rewrite list_elem_of_fmap. setoid_rewrite list_elem_of_filter. naive_solver. Qed.

Lemma elem_udp_seen ms k :
  k ∈ udp_seen ms <-> exists m, m ∈ ms /\ m_Dst m <> "" /\ dedicatedPortKey (m_Dst m) (m_DstPort m) = k.
Proof.
  unfold udp_seen. rewrite elem_of_list_to_set, list_elem_of_fmap. setoid_rewrite list_elem_of_filter. naive_solver.
Qed.

Lemma routes_ok rules ports :
  tls_ok ports
    (mkTls ∅ (udp_seen (UDPMappings rules ports))
       (mapping_routes (TCPMappings rules ports) L4ProtoTCP ++ mapping_routes (UDPMappings rules ports) L4ProtoUDP))
    rules
    (foldl (tls_step ports)
       (mkTls ∅ (udp_seen (UDPMappings rules ports))
          (mapping_routes (TCPMappings rules ports) L4ProtoTCP ++ mapping_routes (UDPMappings rules ports) L4ProtoUDP)) rules).
Proof. by apply tls_fold. Qed.

(** Every route has one of four origins. *)
Lemma routes_sound rules ports rt :
  rt ∈ RoutesFromRules rules ports ->
  (exists m, m ∈ TCPMappings rules ports /\ m_Dst m <> "" /\ rt = mappingRoute m L4ProtoTCP) \/
  (exists m, m ∈ UDPMappings rules ports /\ m_Dst m <> "" /\ rt = mappingRoute m L4ProtoUDP) \/
  (exists r dst port, r ∈ rules /\ tls_target r = Some (dst, port) /\ rt = egress_route ports dst port L4ProtoTCP) \/
  (exists r dst port, r ∈ rules /\ tls_target r = Some (dst, port) /\ rt = egress_route ports dst port L4ProtoUDP /\
     has_h3 r = true /\ ~ exists m, m ∈ UDPMappings rules ports /\ m_Dst m = dst /\ m_DstPort m = port).
Proof.
  intros Hrt. apply (to_sound _ _ _ _ (routes_ok rules ports)) in Hrt as [Hrt|(r & dst & port & Hr & Ht & Hc)].
  - simpl in Hrt. rewrite elem_of_app, !elem_mapping_routes in Hrt. tauto.
  - right. right. destruct Hc as [->|(-> & Hh & Hn)]; [left|right]; exists r, dst, port; split_and!; try done.
    intros (m & Hm & Hd & Hp). apply Hn. simpl. apply elem_udp_seen. exists m. split; [done|].
    apply tls_target_spec in Ht as (_ & _ & _ & _ & Hne & _). split; congruence.
Qed.

Lemma mapping_dst_port base pm pf rules m :
  (forall r, 1 <= pf r <= 65535) -> m ∈ dedicatedMappings rules base pm pf isCIDR -> 1 <= m_DstPort m <= 65535.
Proof.
  intros Hpf Hm. destruct m as [d q e].
  destruct (proj1 (dedicated_loop_elem base 0 pm pf isCIDR rules d q) (ex_intro _ e Hm)) as (r & _ & _ & _ & _ & Hq).
  simpl. unfold dedicatedPorts in Hq. destruct (PortSpan r) as [[lo hi]|] eqn:E.
  - apply PortSpan_bounds in E. unfold maxPort in E. rewrite elem_of_seqZ in Hq. lia.
  - apply list_elem_of_singleton in Hq as ->. apply Hpf.
Qed.

Lemma tcpDefaultPort_pos r : 1 <= tcpDefaultPort r <= 65535.
Proof.
  unfold tcpDefaultPort, sshDefaultPort, defaultDestPort. destruct (SinglePort r) as [p|] eqn:E.
  - apply SinglePort_span, PortSpan_bounds in E. unfold maxPort in E. lia.
  - case_match; lia.
Qed.

Lemma udpDefaultPort_pos r : 1 <= udpDefaultPort r <= 65535.
Proof.
  unfold udpDefaultPort, defaultDestPort. destruct (SinglePort r) as [p|] eqn:E; simpl; [|lia].
  apply SinglePort_span, PortSpan_bounds in E. unfold maxPort in E. lia.
Qed.

Lemma uint16_id n : 0 <= n <= 65535 -> uint16 n = n.
Proof. intros H. apply Z.mod_small. lia. Qed.

Lemma layout_envoy_port rules ports m :
  Validate ports = Ok tt -> validateDedicatedLayout rules ports = None ->
  m ∈ TCPMappings rules ports ++ UDPMappings rules ports -> uint16 (m_EnvoyPort m) = m_EnvoyPort m.
Proof.
  intros Hv Hl Hm. apply uint16_id.
  pose proof (Validate_ok _ Hv) as [Hr _]. unfold named_ports in Hr. rewrite !Forall_cons in Hr.
  destruct Hr as (_ & Hbt & Hbu & _). cbn [snd] in *.
  unfold validateDedicatedLayout in Hl.
  destruct (first_err band_overflow _) eqn:E1; [done|]. rewrite first_err_None, !Forall_cons in E1.
  destruct E1 as (Ot & Ou & _).
  assert (Hband : forall name base n q, band_overflow (name, base, n) = None -> base <= q < base + n -> q <= 65535).
  { unfold band_overflow. intros name base n q Hb Hq. destruct (_ && _) eqn:E in Hb; [done|].
    apply andb_false_iff in E as [?|?]; bool_to_prop; lia. }
  assert (Hq : m_EnvoyPort m ∈ m_EnvoyPort <$> TCPMappings rules ports \/ m_EnvoyPort m ∈ m_EnvoyPort <$> UDPMappings rules ports).
  { apply elem_of_app in Hm as [Hm|Hm]; [left|right]; by apply list_elem_of_fmap_2. }
  destruct Hq as [Hq|Hq]; apply elem_of_envoy_ports in Hq; split; try lia.
  - by eapply Hband; [exact Ot|].
  - by eapply Hband; [exact Ou|].
Qed.

Lemma seed_fold ms seen out :
  (forall d, d ∈ seen <-> d ∈ out) -> NoDup out ->
  let st := foldl seed_step (seen, out) ms in
  NoDup st.2 /\ forall d, d ∈ st.2 <-> d ∈ out \/ exists m, m ∈ ms /\ m_Dst m = d /\ is_Some (parse_v4 d).
Proof.
  revert seen out. induction ms as [|m ms IH]; intros seen out Hs Hn; cbn [foldl].
  - split; [done|]. intros d. simpl. split; [by left|]. intros [?|(m & Hm & _)]; [done|by apply elem_of_nil in Hm].
  - unfold seed_step at 2 4. destruct (parse_v4 (m_Dst m)) as [v4|] eqn:E.
    + case_bool_decide as Hin.
      * destruct (IH seen out Hs Hn) as [H1 H2]. split; [done|]. intros d. rewrite H2.
        apply Hs in Hin. setoid_rewrite elem_of_cons. naive_solver.
      * destruct (IH ({[m_Dst m]} ∪ seen) (out ++ [m_Dst m])) as [H1 H2].
        -- intros d. rewrite elem_of_union, elem_of_singleton, Hs, elem_of_app, list_elem_of_singleton. tauto.
        -- apply NoDup_app. split; [done|]. split; [|apply NoDup_singleton].
           intros d Hd ->%list_elem_of_singleton. apply Hin. by apply Hs.
        -- split; [done|]. intros d. rewrite H2, elem_of_app, list_elem_of_singleton. setoid_rewrite elem_of_cons. naive_solver.
    + destruct (IH seen out Hs Hn) as [H1 H2]. split; [done|]. intros d. rewrite H2. setoid_rewrite elem_of_cons.
      split; [naive_solver|]. intros [?|(m' & [->|?] & <- & Hv)]; [by left| |naive_solver].
      rewrite E in Hv. by destruct (is_Some_None (A := list Z)).
Qed.

(** ** Theorems *)

(** The tcp routes are exactly the projection of the policy: one per
    dedicated tcp/ssh listener mapping, to that listener, and one to the shared
    egress listener per (host, port) that an allowed rule of another protocol
    names by domain and single port.  Deny rules of those protocols, CIDR and
    IP destinations and port ranges add none. *)
Theorem RoutesFromRules_tcp rules ports rt :
  rt_L4Proto rt = L4ProtoTCP ->
  rt ∈ RoutesFromRules rules ports <->
  (exists m, m ∈ TCPMappings rules ports /\ m_Dst m <> "" /\ rt = mappingRoute m L4ProtoTCP) \/
  (exists r port, r ∈ rules /\ isAllowAction (Action r) = true /\ isOpaqueProto (Proto r) = false /\
     isIPOrCIDR (Dst r) = false /\ normalizeDomain (Dst r) <> "" /\ SinglePort r = Some port /\
     rt = egress_route ports (normalizeDomain (Dst r)) port L4ProtoTCP).
Proof.
  intros Hl. split.
  - intros [?|[(m & _ & _ & ->)|[(r & dst & port & Hr & Ht & ->)|(r & dst & port & _ & _ & -> & _)]]]%routes_sound;
      [by left|done| |done].
    right. apply tls_target_spec in Ht as (? & ? & ? & -> & ? & ?). by exists r, port.
  - pose proof (routes_ok rules ports) as K. intros [Hm|(r & port & Hr & H1 & H2 & H3 & H4 & H5 & ->)].
    + apply (to_keep _ _ _ _ K). simpl. apply elem_of_app. left. by apply elem_mapping_routes.
    + apply (to_tcp _ _ _ _ K). exists r. split; [done|]. by apply tls_target_spec.
Qed.

Lemma RoutesFromRules_tcp_witness :
  mkRoute (DomainHash "203.0.113.7") 22 10103 L4ProtoTCP (le_value [203; 0; 113; 7])
    ∈ RoutesFromRules demo_opaque demo_ports.
Proof.
  apply (RoutesFromRules_tcp demo_opaque demo_ports); [done|]. left. exists (mkMapping "203.0.113.7" 22 10103).
  split; [apply (list_elem_of_lookup_2 _ 3%nat); by vm_compute|]. split; [done|by vm_compute].
Defined.

(** A udp route is either the route of a raw-udp mapping, or the h3
    sibling of an allowed https/wss rule on a (host, port) that no raw-udp rule
    claims: raw udp is authoritative, and plaintext http/ws get none. *)
Theorem RoutesFromRules_udp rules ports rt :
  rt ∈ RoutesFromRules rules ports -> rt_L4Proto rt = L4ProtoUDP ->
  (exists m, m ∈ UDPMappings rules ports /\ m_Dst m <> "" /\ rt = mappingRoute m L4ProtoUDP) \/
  (exists r port, r ∈ rules /\ isAllowAction (Action r) = true /\ has_h3 r = true /\ SinglePort r = Some port /\
     rt = egress_route ports (normalizeDomain (Dst r)) port L4ProtoUDP /\
     ~ exists m, m ∈ UDPMappings rules ports /\ m_Dst m = normalizeDomain (Dst r) /\ m_DstPort m = port).
Proof.
  intros Hrt Hl. apply routes_sound in Hrt
    as [(m & _ & _ & ->)|[?|[(r & dst & port & _ & _ & ->)|(r & dst & port & Hr & Ht & -> & Hh & Hn)]]];
    [done|by left|done|].
  right. apply tls_target_spec in Ht as (? & ? & ? & -> & ? & ?). by exists r, port.
Qed.

Lemma RoutesFromRules_udp_witness :
  exists m, m ∈ UDPMappings demo_opaque demo_ports /\
    mkRoute (DomainHash "dns.example.com") 53 10300 L4ProtoUDP 0 = mappingRoute m L4ProtoUDP.
Proof.
  destruct (RoutesFromRules_udp demo_opaque demo_ports (mkRoute (DomainHash "dns.example.com") 53 10300 L4ProtoUDP 0))
    as [(m & Hm & _ & E)|(r & port & Hr & Ha & Hh & _)].
  - apply (list_elem_of_lookup_2 _ 4%nat). by vm_compute.
  - done.
  - by exists m.
  - exfalso. unfold demo_opaque in Hr. rewrite !elem_of_cons, elem_of_nil in Hr.
    destruct Hr as [->|[->|[->|[]]]]; by vm_compute in Hh.
Defined.

(** No route leads nowhere.  Under a layout that passes the generator's
    checks, every route points at the egress listener or at the dedicated
    listener of a mapping with the same domain hash and destination port; the
    uint16 casts on the way lose nothing. *)
Theorem RoutesFromRules_targets rules ports rt :
  Validate ports = Ok tt -> validateDedicatedLayout rules ports = None ->
  rt ∈ RoutesFromRules rules ports ->
  rt_EnvoyPort rt = EgressPort ports \/
  exists m, m ∈ TCPMappings rules ports ++ UDPMappings rules ports /\
    rt_EnvoyPort rt = m_EnvoyPort m /\ rt_DomainHash rt = DomainHash (m_Dst m) /\ rt_DstPort rt = m_DstPort m.
Proof.
  intros Hv Hl Hrt.
  assert (Heg : uint16 (EgressPort ports) = EgressPort ports).
  { apply Validate_ok in Hv as [Hr _]. unfold named_ports in Hr. rewrite !Forall_cons in Hr.
    destruct Hr as (H & _). cbn [snd] in H. apply uint16_id. lia. }
  apply routes_sound in Hrt as [(m & Hm & _ & ->)|[(m & Hm & _ & ->)|[(r & d & p & _ & _ & ->)|(r & d & p & _ & _ & -> & _)]]];
    [right; exists m..|by left|by left].
  - assert (Hin : m ∈ TCPMappings rules ports ++ UDPMappings rules ports) by (apply elem_of_app; by left).
    split; [done|]. split; [by apply (layout_envoy_port rules ports)|]. split; [done|]. apply uint16_id.
    apply mapping_dst_port in Hm; [lia|apply tcpDefaultPort_pos].
  - assert (Hin : m ∈ TCPMappings rules ports ++ UDPMappings rules ports) by (apply elem_of_app; by right).
    split; [done|]. split; [by apply (layout_envoy_port rules ports)|]. split; [done|]. apply uint16_id.
    apply mapping_dst_port in Hm; [lia|apply udpDefaultPort_pos].
Qed.

Lemma RoutesFromRules_targets_witness :
  exists m, m ∈ TCPMappings demo_opaque demo_ports ++ UDPMappings demo_opaque demo_ports /\ 10103 = m_EnvoyPort m.
Proof.
  destruct (RoutesFromRules_targets demo_opaque demo_ports
    (mkRoute (DomainHash "203.0.113.7") 22 10103 L4ProtoTCP (le_value [203; 0; 113; 7]))) as [H|(m & Hm & He & _)];
    [by vm_compute|by vm_compute|apply (list_elem_of_lookup_2 _ 3%nat); by vm_compute|by vm_compute in H|].
  exists m. split; [done|exact He].
Defined.

(** [SeedDomainsFromRules] lists, once each, exactly the IPv4-literal
    destinations of the dedicated mappings; so every route that seeds the DNS
    cache carries the hash of a listed destination. *)
Theorem SeedDomainsFromRules_spec rules ports :
  NoDup (SeedDomainsFromRules rules ports) /\
  (forall d, d ∈ SeedDomainsFromRules rules ports <->
     exists m, m ∈ TCPMappings rules ports ++ UDPMappings rules ports /\ m_Dst m = d /\ is_Some (parse_v4 d)) /\
  (forall rt, rt ∈ RoutesFromRules rules ports -> rt_SeedIP rt <> 0 ->
     exists d, d ∈ SeedDomainsFromRules rules ports /\ rt_DomainHash rt = DomainHash d).
Proof.
  destruct (seed_fold (TCPMappings rules ports ++ UDPMappings rules ports) ∅ []) as [H1 H2]; [set_solver|constructor|].
  fold (SeedDomainsFromRules rules ports) in H1, H2.
  assert (H3 : forall d, d ∈ SeedDomainsFromRules rules ports <->
     exists m, m ∈ TCPMappings rules ports ++ UDPMappings rules ports /\ m_Dst m = d /\ is_Some (parse_v4 d)).
  { intros d. rewrite H2, elem_of_nil. tauto. }
  split; [done|]. split; [done|].
  intros rt Hrt Hs. apply routes_sound in Hrt
    as [(m & Hm & _ & ->)|[(m & Hm & _ & ->)|[(r & d & p & _ & _ & ->)|(r & d & p & _ & _ & -> & _)]]]; try done;
    exists (m_Dst m); (split; [|done]); apply H3; exists m; rewrite elem_of_app; (split; [tauto|]); (split; [done|]);
    unfold mappingRoute in Hs; cbn [rt_SeedIP] in Hs; by destruct (parse_v4 (m_Dst m)).
Qed.

(** Converting an IPv4 address to the kernel's uint32 and back is the
    identity on its four bytes. *)
Theorem Uint32ToIP_IPToUint32 a b c d :
  0 <= a < 256 -> 0 <= b < 256 -> 0 <= c < 256 -> 0 <= d < 256 ->
  Uint32ToIP (IPToUint32 (GoNet.Addr4 [a; b; c; d])) = [a; b; c; d] /\
  0 <= IPToUint32 (GoNet.Addr4 [a; b; c; d]) < 2 ^ 32.
Proof.
  intros Ha Hb Hc Hd. unfold IPToUint32, Uint32ToIP. simpl. split; [|lia]. repeat f_equal; div_lia.
Qed.

Lemma Uint32ToIP_IPToUint32_witness :
  Uint32ToIP (IPToUint32 (GoNet.Addr4 [10; 0; 113; 7])) = [10; 0; 113; 7].
Proof. apply (Uint32ToIP_IPToUint32 10 0 113 7); lia. Defined.

End Routes.
