(* ===== verification/CoreDNS.v ===== *)
(** * The CoreDNS configuration

    [GenerateCorefile] of controlplane/firewall/coredns_config.go and the
    reverse-DNS domain sets of controlplane/firewall/handler.go.  The zones are
    a list; [write_zone] renders one as the source writes it. *)

From S2P Require Import Prelude GoStrings EgressRule Spans Rules Conflicts Canonical Mappings Routes.
Import Go Rule Spans Rules Conflicts Canonical Mappings Routes.

Module CoreDNS.

Definition MonitoringServiceHostnames : list string := ["otel-collector"; "prometheus"].
Definition internalHosts : list string := "docker.internal" :: MonitoringServiceHostnames.
Definition upstreamDNS : list string := ["1.1.1.2"; "1.0.0.2"].
Definition dockerDNS : list string := ["127.0.0.11"].

Definition isAllowDomain (r : EgressRule) : bool := isAllowAction (Action r) && negb (isIPOrCIDR (Dst r)).
Definition isDenyRule (r : EgressRule) : bool := EqualFold (Action r) "deny" && negb (isIPOrCIDR (Dst r)).

Inductive zone :=
  | AllowZone (domain : string) (upstreams : list string) (exactOnly : bool)
  | DenyZone (domain : string)
  | CatchAll (healthPort : Z).

Definition zone_name (z : zone) : string :=
  match z with AllowZone d _ _ => d | DenyZone d => d | CatchAll _ => "." end.

(** ** The two passes *)

Record pass1 := mkPass1 { p1_wildcard : gset string; p1_denySeen : gset string; p1_deny : list string }.

Definition pass1_step (reserved : gset string) (st : pass1) (r : EgressRule) : pass1 :=
  if isIPOrCIDR (Dst r) then st
  else
    let domain := normalizeDomain (Dst r) in
    if bool_decide (domain ∈ reserved) then st
    else if isDenyRule r then
      if bool_decide (domain ∈ p1_denySeen st) then st
      else mkPass1 (p1_wildcard st) ({[domain]} ∪ p1_denySeen st) (p1_deny st ++ [domain])
    else if isAllowDomain r && isWildcardDomain (Dst r)
    then mkPass1 ({[domain]} ∪ p1_wildcard st) (p1_denySeen st) (p1_deny st)
    else st.

Definition pass2_step (reserved denySeen : gset string) (st : gset string * list string) (r : EgressRule)
    : gset string * list string :=
  let '(emitted, out) := st in
  if negb (isAllowDomain r) then st
  else
    let domain := normalizeDomain (Dst r) in
    if bool_decide (domain ∈ reserved) || bool_decide (domain ∈ emitted) || bool_decide (domain ∈ denySeen) then st
    else ({[domain]} ∪ emitted, out ++ [domain]).

Definition reserved : gset string := list_to_set internalHosts.

Definition first_pass (rules : list EgressRule) : pass1 :=
  foldl (pass1_step reserved) (mkPass1 ∅ ∅ []) rules.

Definition allowDomains (rules : list EgressRule) : list string :=
  (foldl (pass2_step reserved (p1_denySeen (first_pass rules))) (∅, []) rules).2.

Definition zones (rules : list EgressRule) (healthPort : Z) : list zone :=
  let p1 := first_pass rules in
  ((fun d => AllowZone d upstreamDNS (negb (bool_decide (d ∈ p1_wildcard p1)))) <$> allowDomains rules) ++
  (DenyZone <$> p1_deny p1) ++
  ((fun h => AllowZone h dockerDNS false) <$> internalHosts) ++ [CatchAll healthPort].

(** ** Rendering *)

Definition nl : string := String "010" "".
Definition quoted (s : string) : string := String (ascii_of_nat 34) "" +:+ s +:+ String (ascii_of_nat 34) "".
Definition line (s : string) : string := s +:+ nl.
Definition corefileLogFormat : string :=
  "source=coredns client_ip={remote} domain={name} qtype={type} rcode={rcode} duration={duration}".

Definition subdomainRegex (domain : string) : string := "[.]" +:+ ReplaceChar "." "[.]" domain +:+ "[.]$".

Definition writeAllowZone (domain : string) (upstreams : list string) (exactOnly : bool) : string :=
  line (domain +:+ " {") +:+ line "    otel" +:+ line ("    log . " +:+ quoted corefileLogFormat) +:+
  (if exactOnly then
     line "    template IN ANY . {" +:+ line ("        match " +:+ quoted (subdomainRegex domain)) +:+
     line "        rcode NXDOMAIN" +:+ line "        fallthrough" +:+ line "    }"
   else "") +:+
  line "    template IN AAAA . {" +:+ line "        rcode NOERROR" +:+ line "    }" +:+
  line "    dnsbpf" +:+ line ("    forward . " +:+ Join upstreams " ") +:+ line "}" +:+ nl.

Definition writeDenyZone (domain : string) : string :=
  line (domain +:+ " {") +:+ line "    otel" +:+ line ("    log . " +:+ quoted corefileLogFormat) +:+
  line "    template IN ANY . {" +:+ line "        rcode NXDOMAIN" +:+ line "    }" +:+ line "}" +:+ nl.

Definition writeCatchAll (healthPort : Z) : string :=
  line ". {" +:+ line "    otel" +:+ line ("    log . " +:+ quoted corefileLogFormat) +:+
  line "    template IN ANY . {" +:+ line "        rcode NXDOMAIN" +:+ line "    }" +:+
  line ("    health :" +:+ Itoa healthPort) +:+ line "    reload 2s" +:+ line "}".

Definition write_zone (z : zone) : string :=
  match z with
  | AllowZone d ups exact => writeAllowZone d ups exact
  | DenyZone d => writeDenyZone d
  | CatchAll p => writeCatchAll p
  end.

Definition GenerateCorefile (rules : list EgressRule) (healthPort : Z) : string :=
  foldr (fun z acc => write_zone z +:+ acc) "" (zones rules healthPort).

(** ** Reverse DNS (handler.go) *)

Definition resolvable_step (st : gset string * list string) (r : EgressRule) : gset string * list string :=
  let '(seen, out) := st in
  if negb (isAllowDomain r) then st
  else
    let domain := normalizeDomain (Dst r) in
    if bool_decide (domain ∈ seen) then st else ({[domain]} ∪ seen, out ++ [domain]).

Definition resolvableDomains (rules : list EgressRule) : list string :=
  (foldl resolvable_step (list_to_set internalHosts, internalHosts) rules).2.

Definition AllResolvableDomains (stored : list EgressRule) : list string :=
  resolvableDomains (canonical stored).

Definition ReverseDNSDomains (stored : list EgressRule) (ports : EnvoyPorts) : list string :=
  let rules := canonical stored in
  resolvableDomains rules ++ SeedDomainsFromRules rules ports.

(** ** What the passes collect *)

(** Some rule allows, denies, or wildcard-allows the domain [d] by name. *)
Definition allows_name (rules : list EgressRule) (d : string) : Prop :=
  exists r, r ∈ rules /\ isAllowDomain r = true /\ normalizeDomain (Dst r) = d.
Definition denies_name (rules : list EgressRule) (d : string) : Prop :=
  exists r, r ∈ rules /\ isDenyRule r = true /\ normalizeDomain (Dst r) = d.
Definition wildcards_name (rules : list EgressRule) (d : string) : Prop :=
  exists r, r ∈ rules /\ isAllowDomain r = true /\ isWildcardDomain (Dst r) = true /\ normalizeDomain (Dst r) = d.

Lemma deny_not_allow r : isDenyRule r = true -> isAllowDomain r = false.
Proof.
  unfold isDenyRule, isAllowDomain, EqualFold, isAllowAction. intros [H _]%andb_true_iff.
  apply String.eqb_eq in H. by rewrite H.
Qed.

Lemma isDenyRule_ip r : isIPOrCIDR (Dst r) = true -> isDenyRule r = false /\ isAllowDomain r = false.
Proof. unfold isDenyRule, isAllowDomain. intros ->. by rewrite !andb_false_r. Qed.

Lemma first_pass_spec rules :
  let p := first_pass rules in
  (forall d, d ∈ p1_denySeen p <-> d ∈ p1_deny p) /\ NoDup (p1_deny p) /\
  (forall d, d ∈ p1_deny p <-> (d ∉ reserved) /\ denies_name rules d) /\
  (forall d, d ∈ p1_wildcard p <-> (d ∉ reserved) /\ wildcards_name rules d).
Proof.
  unfold first_pass, denies_name, wildcards_name. induction rules as [|r rules (I1 & I2 & I3 & I4)] using rev_ind.
  - split_and!; simpl; [set_solver|constructor|set_solver|set_solver].
  - rewrite foldl_snoc. set (st := foldl (pass1_step reserved) _ rules) in *.
    assert (Hex : forall P : EgressRule -> Prop, (exists x, x ∈ rules ++ [r] /\ P x) <-> (exists x, x ∈ rules /\ P x) \/ P r).
    { intros P. setoid_rewrite elem_of_app. setoid_rewrite list_elem_of_singleton. naive_solver. }
    unfold pass1_step. destruct (isIPOrCIDR (Dst r)) eqn:Eip.
    { destruct (isDenyRule_ip r Eip) as [Hd Ha]. split_and!; try done; intros d; rewrite Hex, ?Hd, ?Ha; naive_solver. }
    case_bool_decide as Hres.
    { split_and!; try done; intros d; rewrite Hex; [rewrite I3|rewrite I4]; naive_solver. }
    destruct (isDenyRule r) eqn:Hd.
    + pose proof (deny_not_allow r Hd) as Ha. case_bool_decide as Hs; simpl.
      * split_and!; try done; intros d; rewrite Hex; [rewrite I3|rewrite I4, Ha; naive_solver].
        apply I1, I3 in Hs. naive_solver.
      * split_and!; simpl.
        -- intros d. rewrite elem_of_union, elem_of_singleton, elem_of_app, list_elem_of_singleton, I1. tauto.
        -- apply NoDup_app. split; [done|]. split; [|apply NoDup_singleton].
           intros d Hin ->%list_elem_of_singleton. apply Hs. by apply I1.
        -- intros d. rewrite elem_of_app, list_elem_of_singleton, I3, Hex, Hd. naive_solver.
        -- intros d. rewrite Hex, I4, Ha. naive_solver.
    + destruct (isAllowDomain r && isWildcardDomain (Dst r)) eqn:Ew; simpl; bool_to_prop.
      * split_and!; try done; intros d; rewrite Hex; [rewrite I3, Hd; naive_solver|].
        rewrite elem_of_union, elem_of_singleton, I4. naive_solver.
      * split_and!; try done; intros d; rewrite Hex; [rewrite I3, Hd; naive_solver|].
        rewrite I4. destruct Ew as [E|E]; rewrite E; naive_solver.
Qed.

Lemma allowDomains_spec rules :
  NoDup (allowDomains rules) /\
  forall d, d ∈ allowDomains rules <-> (d ∉ reserved) /\ ~ denies_name rules d /\ allows_name rules d.
Proof.
  unfold allowDomains. destruct (first_pass_spec rules) as (D1 & _ & D3 & _).
  set (deny := p1_denySeen (first_pass rules)) in *.
  assert (Hdeny : forall d, d ∉ reserved -> d ∈ deny <-> denies_name rules d).
  { intros d Hr. rewrite D1, D3. tauto. }
  assert (G : forall l, let st := foldl (pass2_step reserved deny) (∅, []) l in
     (forall d, d ∈ st.1 <-> d ∈ st.2) /\ NoDup st.2 /\
     forall d, d ∈ st.2 <-> (d ∉ reserved) /\ (d ∉ deny) /\ allows_name l d).
  { unfold allows_name. induction l as [|r l (I1 & I2 & I3)] using rev_ind.
    - simpl. split_and!; [set_solver|constructor|set_solver].
    - rewrite foldl_snoc. destruct (foldl _ _ l) as [emitted out]. simpl in *.
      assert (Hex : forall P : EgressRule -> Prop, (exists x, x ∈ l ++ [r] /\ P x) <-> (exists x, x ∈ l /\ P x) \/ P r).
      { intros P. setoid_rewrite elem_of_app. setoid_rewrite list_elem_of_singleton. naive_solver. }
      destruct (isAllowDomain r) eqn:Ea; simpl.
      2:{ split_and!; try done. intros d. rewrite Hex, I3, Ea. naive_solver. }
      set (d0 := normalizeDomain (Dst r)) in *.
      destruct (bool_decide (d0 ∈ reserved) || bool_decide (d0 ∈ emitted) || bool_decide (d0 ∈ deny)) eqn:E; simpl.
      + split_and!; [done..|]. intros d. rewrite Hex, I3. split; [tauto|]. intros (Hr & Hd & [?|[_ <-]]); [tauto|].
        rewrite !orb_true_iff, !bool_decide_eq_true in E. destruct E as [[?|He]|?]; [done| |done]. by apply I1, I3 in He.
      + rewrite !orb_false_iff, !bool_decide_eq_false in E. destruct E as [[E1 E2] E3]. split_and!.
        * intros d. rewrite elem_of_union, elem_of_singleton, elem_of_app, list_elem_of_singleton, I1. tauto.
        * apply NoDup_app. split; [done|]. split; [|apply NoDup_singleton].
          intros d Hin ->%list_elem_of_singleton. by apply I1 in Hin.
        * intros d. rewrite elem_of_app, list_elem_of_singleton, I3, Hex. split.
          -- intros [?| ->]; [tauto|]. split_and!; try done. by right.
          -- intros (Hr & Hd & [?|[_ <-]]); [by left|by right]. }
  destruct (G rules) as (_ & Hn & Hin). split; [done|]. intros d. rewrite Hin.
  split; intros (Hr & Hd & Ha); (split; [done|]); rewrite (Hdeny d Hr) in *; done.
Qed.

Lemma reserved_spec d : d ∈ reserved <-> d ∈ internalHosts.
Proof. unfold reserved. apply elem_of_list_to_set. Qed.

Lemma resolvable_spec rules :
  NoDup (resolvableDomains rules) /\
  forall d, d ∈ resolvableDomains rules <-> d ∈ internalHosts \/ allows_name rules d.
Proof.
  unfold resolvableDomains.
  assert (G : forall l, let st := foldl resolvable_step (list_to_set internalHosts, internalHosts) l in
     (forall d, d ∈ st.1 <-> d ∈ st.2) /\ NoDup st.2 /\ forall d, d ∈ st.2 <-> d ∈ internalHosts \/ allows_name l d).
  { unfold allows_name. induction l as [|r l (I1 & I2 & I3)] using rev_ind.
    - split; [|split].
      + intros d. apply elem_of_list_to_set.
      + apply (bool_decide_unpack _). by vm_compute.
      + intros d. cbn [foldl snd]. split; [by left|]. intros [?|(r & Hr & _)]; [done|by apply elem_of_nil in Hr].
    - rewrite foldl_snoc. destruct (foldl _ _ l) as [seen out]. cbn [fst snd] in *. unfold resolvable_step.
      assert (Hex : forall P : EgressRule -> Prop, (exists x, x ∈ l ++ [r] /\ P x) <-> (exists x, x ∈ l /\ P x) \/ P r).
      { intros P. setoid_rewrite elem_of_app. setoid_rewrite list_elem_of_singleton. naive_solver. }
      destruct (isAllowDomain r) eqn:Ea; cbn [negb].
      2:{ cbn [fst snd]. split_and!; [done..|]. intros d. rewrite Hex, I3, Ea. intuition congruence. }
      case_bool_decide as Hs; cbn [fst snd].
      + split_and!; [done..|]. intros d. rewrite Hex, I3. apply I1, I3 in Hs. split; [tauto|].
        intros [?|[?|[_ <-]]]; tauto.
      + split_and!.
        * intros d. rewrite elem_of_union, elem_of_singleton, elem_of_app, list_elem_of_singleton, I1. tauto.
        * apply NoDup_app. split; [done|]. split; [|apply NoDup_singleton].
          intros d Hin ->%list_elem_of_singleton. by apply I1 in Hin.
        * intros d. rewrite elem_of_app, list_elem_of_singleton, I3, Hex. split; [|intuition].
          intros [?| ->]; tauto. }
  destruct (G rules) as (_ & H1 & H2). done.
Qed.

(** ** Theorems *)

Definition dns_rules : list EgressRule :=
  [demo_rule "example.com" "https" "443" "allow"; demo_rule ".datadoghq.com" "https" "443" "allow";
   demo_rule "ads.datadoghq.com" "https" "443" "deny"; demo_rule "docker.internal" "https" "443" "allow"].

Example dns_zones :
  zone_name <$> zones dns_rules 8080 =
    ["example.com"; "datadoghq.com"; "ads.datadoghq.com"; "docker.internal"; "otel-collector"; "prometheus"; "."].
Proof. by vm_compute. Qed.

(** No zone is defined twice, which CoreDNS would refuse to load, as long
    as no destination normalizes to the root domain. *)
Theorem GenerateCorefile_zones_unique rules healthPort :
  Forall (fun r => normalizeDomain (Dst r) <> ".") rules ->
  NoDup (zone_name <$> zones rules healthPort).
Proof.
  intros Hroot. destruct (first_pass_spec rules) as (_ & D2 & D3 & _), (allowDomains_spec rules) as (A1 & A2).
  unfold zones. rewrite !fmap_app, <- !list_fmap_compose.
  assert (E1 : zone_name ∘ (fun d => AllowZone d upstreamDNS (negb (bool_decide (d ∈ p1_wildcard (first_pass rules))))) <$>
               allowDomains rules = allowDomains rules) by (rewrite <- (list_fmap_id (allowDomains rules)) at 2; done).
  assert (E2 : zone_name ∘ DenyZone <$> p1_deny (first_pass rules) = p1_deny (first_pass rules))
    by (rewrite <- (list_fmap_id (p1_deny _)) at 2; done).
  assert (E3 : zone_name ∘ (fun h => AllowZone h dockerDNS false) <$> internalHosts = internalHosts) by done.
  rewrite E1, E2, E3. cbn [fmap list_fmap zone_name].
  assert (Hdot : forall d, (allows_name rules d \/ denies_name rules d) -> d <> ".").
  { rewrite Forall_forall in Hroot. intros d [(r & Hr & _ & <-)|(r & Hr & _ & <-)]; by apply Hroot. }
  apply NoDup_app. split; [done|]. split.
  { intros d (Hr & Hd & Ha)%A2 [Hin|[Hin|Hin]%elem_of_app]%elem_of_app.
    - apply D3 in Hin as [_ ?]. done.
    - by apply Hr, reserved_spec.
    - apply list_elem_of_singleton in Hin. apply (Hdot d); [by left|done]. }
  apply NoDup_app. split; [done|]. split.
  { intros d (Hr & Hd)%D3 [Hin|Hin]%elem_of_app.
    - by apply Hr, reserved_spec.
    - apply list_elem_of_singleton in Hin. apply (Hdot d); [by right|done]. }
  apply (bool_decide_unpack _). by vm_compute.
Qed.

Lemma GenerateCorefile_zones_unique_witness : NoDup (zone_name <$> zones dns_rules 8080).
Proof.
  apply (GenerateCorefile_zones_unique dns_rules). repeat (apply Forall_cons; split; [by vm_compute|]). constructor.
Defined.

(** What CoreDNS forwards.  A domain outside the reserved names gets a
    forwarding zone exactly when an allow rule names it and no deny rule does;
    the zone forwards the whole subtree exactly when a wildcard allow rule names
    the domain, and only the apex otherwise.  A domain gets an NXDOMAIN zone
    exactly when a deny rule names it: deny beats allow on the same name. *)
Theorem GenerateCorefile_zones rules healthPort d exactOnly :
  d ∉ internalHosts ->
  (AllowZone d upstreamDNS exactOnly ∈ zones rules healthPort <->
     allows_name rules d /\ ~ denies_name rules d /\ (exactOnly = true <-> ~ wildcards_name rules d)) /\
  (DenyZone d ∈ zones rules healthPort <-> denies_name rules d).
Proof.
  intros Hi. assert (Hr : d ∉ reserved) by (by rewrite reserved_spec).
  destruct (first_pass_spec rules) as (_ & _ & D3 & D4), (allowDomains_spec rules) as (_ & A2).
  unfold zones. split.
  - rewrite !elem_of_app, !list_elem_of_fmap. split.
    + intros [(d' & [= -> ->] & H)|[(d' & ? & _)|[(h & [= -> _] & _)|H]]]; try done.
      * apply A2 in H as (_ & ? & ?). split; [done|]. split; [done|].
        rewrite negb_true_iff, bool_decide_eq_false, D4. tauto.
      * by apply list_elem_of_singleton in H.
    + intros (Ha & Hd & He). left. exists d. split; [|by apply A2]. f_equal.
      destruct exactOnly.
      * symmetry. apply negb_true_iff, bool_decide_eq_false. rewrite D4. tauto.
      * symmetry. apply negb_false_iff, bool_decide_eq_true. rewrite D4. split; [done|].
        destruct (decide (d ∈ p1_wildcard (first_pass rules))) as [Hw|Hw]; [by apply D4|].
        rewrite D4 in Hw. exfalso. assert (false = true) by (apply He; tauto). done.
  - rewrite !elem_of_app, !list_elem_of_fmap. split.
    + intros [(d' & ? & _)|[(d' & [= ->] & H)|[(h & ? & _)|H]]]; try done; [by apply D3|by apply list_elem_of_singleton in H].
    + intros Hd. right. left. exists d. split; [done|]. by apply D3.
Qed.

Lemma GenerateCorefile_zones_witness :
  AllowZone "datadoghq.com" upstreamDNS false ∈ zones dns_rules 8080 /\ DenyZone "ads.datadoghq.com" ∈ zones dns_rules 8080.
Proof.
  split.
  - apply (GenerateCorefile_zones dns_rules 8080); [apply (bool_decide_unpack _); by vm_compute|].
    split; [|split].
    + exists (demo_rule ".datadoghq.com" "https" "443" "allow"). split; [right; left|by vm_compute].
    + intros (r & Hr & Hd & Hn). unfold dns_rules in Hr. rewrite !elem_of_cons, elem_of_nil in Hr.
      destruct Hr as [->|[->|[->|[->|[]]]]]; vm_compute in Hd; try done; by vm_compute in Hn.
    + split; [done|]. intros Hw. exfalso. apply Hw. exists (demo_rule ".datadoghq.com" "https" "443" "allow").
      split; [right; left|by vm_compute].
  - apply (GenerateCorefile_zones dns_rules 8080 _ true); [apply (bool_decide_unpack _); by vm_compute|].
    exists (demo_rule "ads.datadoghq.com" "https" "443" "deny"). split; [right; right; left|by vm_compute].
Defined.

(** The domains offered for reverse attribution are the reserved hosts,
    every name an allow rule mentions and the seeded IP literals, each name
    once; they include every forwarding zone, and exceed the Corefile's by
    exactly the names that are also denied. *)
Theorem ReverseDNSDomains_spec stored ports healthPort :
  let rules := canonical stored in
  NoDup (resolvableDomains rules) /\
  (forall d, d ∈ ReverseDNSDomains stored ports <->
     d ∈ internalHosts \/ allows_name rules d \/ d ∈ SeedDomainsFromRules rules ports) /\
  (forall d, d ∉ internalHosts ->
     d ∈ resolvableDomains rules /\ ~ (exists e, AllowZone d upstreamDNS e ∈ zones rules healthPort) <->
     allows_name rules d /\ denies_name rules d).
Proof.
  intros rules. destruct (resolvable_spec rules) as [R1 R2]. split; [done|]. split.
  - intros d. unfold ReverseDNSDomains. fold rules. rewrite elem_of_app, R2. tauto.
  - intros d Hi. rewrite R2. assert (Hr : d ∉ reserved) by (by rewrite reserved_spec).
    destruct (allowDomains_spec rules) as (_ & A2).
    assert (Hz : (exists e, AllowZone d upstreamDNS e ∈ zones rules healthPort) <-> d ∈ allowDomains rules).
    { unfold zones. setoid_rewrite elem_of_app. setoid_rewrite elem_of_app. setoid_rewrite elem_of_app.
      setoid_rewrite list_elem_of_fmap. split.
      - intros [e [(d' & [= -> _] & H)|[(d' & ? & _)|[(h & [= -> _] & _)|H]]]]; try done.
        by apply list_elem_of_singleton in H.
      - intros H. eexists. left. by exists d. }
    rewrite Hz, A2. destruct (first_pass_spec rules) as (D1 & _ & D3 & _). split; [|tauto].
    intros [[?|Ha] Hn]; [done|]. split; [done|].
    destruct (decide (d ∈ p1_deny (first_pass rules))) as [Hd|Hd]; [by apply D3 in Hd as [_ ?]|].
    exfalso. apply Hn. split; [done|]. split; [|done]. intros Hd'. apply Hd, D3. done.
Qed.

(** Carving a port blinds the whole name.  For the documented carve-out
    (tcp 45-50 allowed, 47 denied) the canonical rules still allow 45-46 and
    48-50, but the Corefile answers NXDOMAIN for the host and has no forwarding
    zone for it. *)
Theorem carve_out_denies_the_name healthPort :
  claims false "db.example.com" "tcp" (canonical demo_rules) 45 /\
  DenyZone "db.example.com" ∈ zones (canonical demo_rules) healthPort /\
  forall ups e, AllowZone "db.example.com" ups e ∉ zones (canonical demo_rules) healthPort.
Proof.
  rewrite demo_canonical. split; [|split].
  - exists (45, 46). split; [|unfold covers_span; simpl; lia].
    exists (demo_rule "db.example.com" "tcp" "45-46" "allow"). split; [right; left|by vm_compute].
  - unfold zones. rewrite !elem_of_app, !list_elem_of_fmap. right. left. exists "db.example.com". split; [done|].
    vm_compute. left.
  - intros ups e. unfold zones. rewrite !elem_of_app, !list_elem_of_fmap.
    intros [(d & [= <- _ _] & H)|[(d & ? & _)|[(h & [= <- _ _] & H)|H]]]; try done.
    + vm_compute in H. by apply list_elem_of_singleton in H.
    + unfold internalHosts, MonitoringServiceHostnames in H. rewrite !elem_of_cons, elem_of_nil in H. naive_solver.
    + by apply list_elem_of_singleton in H.
Qed.

End CoreDNS.
