(* ===== verification/HttpRoutes.v ===== *)
(** * HTTP routes of a rule

    controlplane/firewall/envoy_http.go: the virtual-host domains and the
    ordered routes that a rule's path rules become.  Envoy itself is not
    modelled here: clients state what they rely on. *)

From S2P Require Import Prelude GoStrings EgressRule Rules.
Import Go Rule Rules.

Module HttpRoutes.

(** ** Routes *)

Inductive pathSpec := Prefix (p : string) | SafeRegex (rx : string).
Inductive methodSpec := AnyMethod | ExactMethod (m : string) | RegexMethod (rx : string).
(** A forward to a cluster, with or without the websocket upgrade, or a 403. *)
Inductive routeAction := Forward (cluster : string) (websocket : bool) | DirectResponse403.

(** The filter metadata of a route: keys and values by name space. *)
Definition metadata : Type := list (string * list (string * string)).
Definition VerdictAllowed : string := "allowed".
Definition VerdictDenied : string := "denied".
Definition clawkerActionMetadata (action : string) : metadata := [("clawker", [("action", action)])].

Record httpRoute := mkHttpRoute { hr_path : pathSpec; hr_method : methodSpec; hr_metadata : metadata; hr_action : routeAction }.

(** [strings.CutPrefix(path, regexPathMarker)]. *)
Definition pathSpecifier (path : string) : pathSpec :=
  match strip_prefix regexPathMarker path with Some rx => SafeRegex rx | None => Prefix path end.

Definition methodHeaderMatch (methods : list string) : methodSpec :=
  match methods with
  | [] => AnyMethod
  | [m] => ExactMethod m
  | _ => RegexMethod (Join methods "|")
  end.

Definition httpAllowRoute (path cluster : string) (websocket : bool) (methods : list string) : httpRoute :=
  mkHttpRoute (pathSpecifier path) (methodHeaderMatch methods) (clawkerActionMetadata VerdictAllowed) (Forward cluster websocket).

Definition httpDenyRoute (path : string) (methods : list string) : httpRoute :=
  mkHttpRoute (pathSpecifier path) (methodHeaderMatch methods) (clawkerActionMetadata VerdictDenied) DirectResponse403.

(** [sort.SliceStable] by descending path length: an element goes before the
    equally long ones that follow it. *)
Fixpoint insert_path (pr : PathRule) (l : list PathRule) : list PathRule :=
  match l with
  | [] => [pr]
  | x :: l' => if (String.length (Path x) <=? String.length (Path pr))%nat then pr :: l else x :: insert_path pr l'
  end.

Definition sort_paths (l : list PathRule) : list PathRule := foldr insert_path [] l.

Definition path_route (cluster : string) (websocket : bool) (pr : PathRule) : httpRoute :=
  if EqualFold (PathAction pr) "allow" then httpAllowRoute (Path pr) cluster websocket (Methods pr)
  else httpDenyRoute (Path pr) (Methods pr).

Definition httpRoutes (r : EgressRule) (cluster : string) (websocket : bool) : list httpRoute :=
  let default_route :=
    if EqualFold (EffectivePathDefault r) "deny" then httpDenyRoute "/" []
    else httpAllowRoute "/" cluster websocket [] in
  match PathRules r with
  | [] => [default_route]
  | prs => (path_route cluster websocket <$> sort_paths prs) ++ [default_route]
  end.

(** ** Virtual hosts *)

Definition httpDomains (dst : string) (port barePort : Z) : list string :=
  let domain := normalizeDomain dst in
  let p := Itoa port in
  let bare := port =? barePort in
  if isWildcardDomain dst then
    (if bare then ["*." +:+ domain] else []) ++ ["*." +:+ domain +:+ ":" +:+ p] ++
    (if bare then [domain] else []) ++ [domain +:+ ":" +:+ p]
  else (if bare then [domain] else []) ++ [domain +:+ ":" +:+ p].

(** ** The sort *)

Lemma insert_path_perm pr l : insert_path pr l ≡ₚ pr :: l.
Proof.
  induction l as [|x l IH]; simpl; [done|]. destruct (_ <=? _)%nat; [done|]. rewrite IH. apply Permutation_swap.
Qed.

Lemma sort_paths_perm l : sort_paths l ≡ₚ l.
Proof. induction l as [|pr l IH]; simpl; [done|]. by rewrite insert_path_perm, IH. Qed.

Definition longer (a b : PathRule) : Prop := (String.length (Path b) <= String.length (Path a))%nat.

Lemma insert_path_sorted pr l : StronglySorted longer l -> StronglySorted longer (insert_path pr l).
Proof.
  induction 1 as [|x l Hl IH Hx]; simpl; [by repeat constructor|]. destruct (Nat.leb_spec (String.length (Path x)) (String.length (Path pr))).
  - constructor; [by constructor|]. constructor; [done|]. eapply Forall_impl; [exact Hx|]. unfold longer. intros y Hy. lia.
  - constructor; [done|]. rewrite insert_path_perm. constructor; [unfold longer; lia|done].
Qed.

Lemma sort_paths_sorted l : StronglySorted longer (sort_paths l).
Proof. induction l as [|pr l IH]; simpl; [constructor|by apply insert_path_sorted]. Qed.

(** The first longest element that satisfies [P]. *)
Definition pick (P : PathRule -> bool) (l : list PathRule) : option PathRule :=
  foldr (fun pr acc =>
    if P pr then
      match acc with
      | Some best => if (String.length (Path best) <=? String.length (Path pr))%nat then Some pr else Some best
      | None => Some pr
      end
    else acc) None l.

Lemma head_filter_insert P pr l :
  StronglySorted longer l ->
  head (filter (fun x => P x = true) (insert_path pr l)) =
  if P pr then
    match head (filter (fun x => P x = true) l) with
    | Some best => if (String.length (Path best) <=? String.length (Path pr))%nat then Some pr else Some best
    | None => Some pr
    end
  else head (filter (fun x => P x = true) l).
Proof.
  induction 1 as [|x l Hl IH Hx]; cbn [insert_path].
  - rewrite filter_cons, filter_nil. by destruct (P pr).
  - destruct (Nat.leb_spec (String.length (Path x)) (String.length (Path pr))) as [Hle|Hlt].
    + rewrite filter_cons. destruct (P pr) eqn:HP; [|by rewrite decide_False]. rewrite decide_True by done. cbn [head].
      destruct (filter _ (x :: l)) as [|y l'] eqn:Hf; [done|]. cbn [head].
      assert (Hy : y ∈ x :: l).
      { eapply list_elem_of_filter. rewrite Hf. by left. }
      assert (longer x y) by (apply elem_of_cons in Hy as [-> |Hy]; [unfold longer; lia|by eapply Forall_forall in Hx]).
      unfold longer in *. by rewrite (proj2 (Nat.leb_le _ _)) by lia.
    + rewrite !(filter_cons _ x). destruct (P x) eqn:HPx; [rewrite !decide_True by done|rewrite !decide_False by done; exact IH].
      cbn [head]. destruct (P pr); [|done]. by rewrite (proj2 (Nat.leb_gt _ _)) by lia.
Qed.

(** First match in the sorted routes is the first of the longest matches. *)
Lemma sort_paths_first P l : head (filter (fun x => P x = true) (sort_paths l)) = pick P l.
Proof.
  induction l as [|pr l IH]; [done|]. cbn [sort_paths foldr pick]. fold (sort_paths l) (pick P l).
  rewrite (head_filter_insert P pr (sort_paths l) (sort_paths_sorted l)), IH. done.
Qed.

End HttpRoutes.
