(* ===== verification/EnvoyTree.v ===== *)
(** * The Envoy configuration and its accumulator

    The [EnvoyConfig] of controlplane/firewall/envoy_types.go: listeners with
    their filter chains, clusters, and the operations that upsert into them and
    fail closed on a conflict.  The source keeps trees of [map[string]any]; here
    the fields that vary are typed and the constant ones (type URLs, timeouts,
    hardening, log formats) are implied by the constructor. *)

From S2P Require Import Prelude GoStrings GoNet EgressRule Rules HttpRoutes.
Import Go Rule Rules HttpRoutes.

Module EnvoyTree.

(** ** Clusters *)

(** How a cluster finds its endpoint. *)
Inductive discovery :=
  | Static (host : string) (port : Z)
  | LogicalDNS (host : string) (port : Z)
  | OriginalDst
  | DynamicForwardProxy (cache : string)
  | NoEndpoints
  | StrictDNS (host : string) (port : Z).
(** The TLS context towards the endpoint. *)
Inductive upstreamTLS := Reencrypt (insecureSkipTLSVerify http11Only : bool) | CollectorMTLS.
Record cluster := mkCluster { cl_name : string; cl_discovery : discovery; cl_tls : option upstreamTLS }.

#[global] Instance discovery_eq_dec : EqDecision discovery.
Proof. solve_decision. Defined.
#[global] Instance upstreamTLS_eq_dec : EqDecision upstreamTLS.
Proof. solve_decision. Defined.
#[global] Instance cluster_eq_dec : EqDecision cluster.
Proof. solve_decision. Defined.

(** ** Filter chains *)

(** An address prefix is text. *)
Record chainMatch := mkMatch {
  transport_protocol : option string; server_names : list string; prefix_ranges : option (string * Z); destination_port : option Z;
}.
#[global] Instance chainMatch_eq_dec : EqDecision chainMatch.
Proof. solve_decision. Defined.

(** The transport socket of a chain, with the base name of its certificate. *)
Inductive socket := TLSSocket (cert : string) | QUICSocket (cert : string).

(** An access log: transport, protocol name, server address, verdict, and whether the
    collector gets it too.  A text in percent signs is an operator of Envoy, which
    fills it in for each record. *)
Record accessLog := mkLog { al_transport : string; al_l7 : string; al_server : string; al_action : string; al_otel : bool }.

Inductive httpFilter := DFPFilter (cache : string) | RouterFilter.

(** [vh_alt_svc] is the advertised h3 port, [vh_no_dfp] says that the forward
    proxy is disabled for the host. *)
Record vhost := mkVHost { vh_name : string; vh_domains : list string; vh_routes : list httpRoute; vh_alt_svc : option Z; vh_no_dfp : bool }.

(** The connection manager: codec, whether TLS was terminated, filters, access log,
    hosts, and whether extended CONNECT is allowed. *)
Record hcm := mkHCM {
  hcm_codec : string; hcm_tls : bool; hcm_filters : list httpFilter; hcm_log : accessLog; hcm_vhosts : list vhost; hcm_websocket : bool;
}.
Inductive networkFilter := HCM (h : hcm) | TcpProxy (stat_prefix cluster : string) (log : accessLog).

Record chain := mkChain { ch_filters : list networkFilter; ch_match : option chainMatch; ch_socket : option socket }.

(** ** Listeners *)

Inductive listenerFilter := TlsInspector | UdpProxy (stat_prefix cluster : string) (log : accessLog).
(** A TCP listener, a QUIC one, a plain UDP one, and the complete listener of the
    health check. *)
Inductive listenerKind := KindTCP | KindQUIC | KindUDP | KindHealth.
(** The base of a listener. *)
Record base := mkBase {
  lb_kind : listenerKind; lb_name : string; lb_address : string; lb_port : Z; lb_filters : option listenerFilter; lb_original_dst : bool;
}.
Record envoyListener := mkListener { l_base : base; l_chains : list chain; l_default : option chain }.

#[global] Instance accessLog_eq_dec : EqDecision accessLog.
Proof. solve_decision. Defined.
#[global] Instance listenerFilter_eq_dec : EqDecision listenerFilter.
Proof. solve_decision. Defined.
#[global] Instance listenerKind_eq_dec : EqDecision listenerKind.
Proof. solve_decision. Defined.
#[global] Instance base_eq_dec : EqDecision base.
Proof. solve_decision. Defined.

Record EnvoyConfig := mkConfig { admin : option (string * Z); listeners : gmap string envoyListener; clusters : gmap string cluster }.
Definition NewEnvoyConfig : EnvoyConfig := mkConfig None ∅ ∅.
Definition SetAdmin (c : EnvoyConfig) (a : string * Z) : EnvoyConfig := mkConfig (Some a) (listeners c) (clusters c).
Definition set_listener (c : EnvoyConfig) (name : string) (l : envoyListener) : EnvoyConfig := mkConfig (admin c) (<[name := l]> (listeners c)) (clusters c).
Definition HasListener (c : EnvoyConfig) (name : string) : bool := bool_decide (is_Some (listeners c !! name)).

Inductive TreeError :=
  | UnknownListener (name : string)
  | EmptyName
  | ConflictingCluster (name : string)
  | ConflictingListener (name : string)
  | DuplicateMatch (listener : string).

(** The first call wins. *)
Definition ensure (kind : listenerKind) (c : EnvoyConfig) (name address : string) (port : Z) : EnvoyConfig :=
  match listeners c !! name with
  | Some _ => c
  | None => set_listener c name (mkListener (mkBase kind name address port None false) [] None)
  end.
Definition EnsureListener : EnvoyConfig -> string -> string -> Z -> EnvoyConfig := ensure KindTCP.
Definition EnsureQUICListener : EnvoyConfig -> string -> string -> Z -> EnvoyConfig := ensure KindQUIC.
Definition EnsureRawUDPListener : EnvoyConfig -> string -> string -> Z -> EnvoyConfig := ensure KindUDP.

(** The two fields the layers set. *)
Inductive listenerField := listener_filters (f : listenerFilter) | use_original_dst.
Definition set_field (b : base) (f : listenerField) : base :=
  match f with
  | listener_filters x => mkBase (lb_kind b) (lb_name b) (lb_address b) (lb_port b) (Some x) (lb_original_dst b)
  | use_original_dst => mkBase (lb_kind b) (lb_name b) (lb_address b) (lb_port b) (lb_filters b) true
  end.
Definition SetListenerField (c : EnvoyConfig) (listener : string) (f : listenerField) : result TreeError EnvoyConfig :=
  match listeners c !! listener with
  | None => Err (UnknownListener listener)
  | Some l => Ok (set_listener c listener (mkListener (set_field (l_base l) f) (l_chains l) (l_default l)))
  end.

(** ** Chains *)

Definition hcmVHosts (ch : chain) : option (list vhost) := match ch_filters ch with [HCM h] => Some (hcm_vhosts h) | _ => None end.
Definition setHCMVHosts (ch : chain) (vs : list vhost) : chain :=
  match ch_filters ch with
  | [HCM h] => mkChain [HCM (mkHCM (hcm_codec h) (hcm_tls h) (hcm_filters h) (hcm_log h) vs (hcm_websocket h))] (ch_match ch) (ch_socket ch)
  | _ => ch
  end.

(** The first of each name. *)
Fixpoint union_vhosts (seen : gset string) (vs : list vhost) : list vhost :=
  match vs with
  | [] => []
  | v :: vs => if bool_decide (vh_name v ∈ seen) then union_vhosts seen vs else v :: union_vhosts ({[vh_name v]} ∪ seen) vs
  end.
Definition mergeHCMVHosts (existing incoming : chain) : option chain :=
  ev ← hcmVHosts existing; iv ← hcmVHosts incoming; Some (setHCMVHosts existing (union_vhosts ∅ (ev ++ iv))).

(** A chain is merged into the one with the same match, if there is one. *)
Fixpoint upsert_chain (chains : list chain) (ch : chain) : option (list chain) :=
  match chains with
  | [] => Some [ch]
  | x :: chains =>
      if bool_decide (ch_match x = ch_match ch) then (fun y => y :: chains) <$> mergeHCMVHosts x ch
      else (fun l => x :: l) <$> upsert_chain chains ch
  end.
Definition addChain (c : EnvoyConfig) (listener : string) (ch : chain) : result TreeError EnvoyConfig :=
  match listeners c !! listener with
  | None => Err (UnknownListener listener)
  | Some l =>
      match upsert_chain (l_chains l) ch with
      | None => Err (DuplicateMatch listener)
      | Some chains => Ok (set_listener c listener (mkListener (l_base l) chains (l_default l)))
      end
  end.

(** ** Clusters, whole listeners, the floor *)

Definition AddCluster (c : EnvoyConfig) (cl : cluster) : result TreeError EnvoyConfig :=
  if String.eqb (cl_name cl) "" then Err EmptyName
  else
    match clusters c !! cl_name cl with
    | Some existing => if bool_decide (existing = cl) then Ok c else Err (ConflictingCluster (cl_name cl))
    | None => Ok (mkConfig (admin c) (listeners c) (<[cl_name cl := cl]> (clusters c)))
    end.
Definition AddListener (c : EnvoyConfig) (b : base) : result TreeError EnvoyConfig :=
  if String.eqb (lb_name b) "" then Err EmptyName
  else
    match listeners c !! lb_name b with
    | Some existing =>
        if bool_decide (l_base existing = b) && bool_decide (l_chains existing = []) then Ok c else Err (ConflictingListener (lb_name b))
    | None => Ok (set_listener c (lb_name b) (mkListener b [] None))
    end.
Definition SetUnmatchedDeny (c : EnvoyConfig) (listener : string) (ch : chain) : result TreeError EnvoyConfig :=
  match listeners c !! listener with
  | None => Err (UnknownListener listener)
  | Some l => Ok (set_listener c listener (mkListener (l_base l) (l_chains l) (Some ch)))
  end.

(** ** What is marshalled: listeners and clusters in the order of their names *)

Definition in_name_order {A} (m : gmap string A) : list A := omap (fun n => m !! n) (sort_strings (map_to_list m).*1).
Definition listenerList (c : EnvoyConfig) : list envoyListener := in_name_order (listeners c).
Definition clusterList (c : EnvoyConfig) : list cluster := in_name_order (clusters c).

Lemma in_name_order_elem {A} (m : gmap string A) x : x ∈ in_name_order m <-> exists n, m !! n = Some x.
Proof.
  unfold in_name_order, sort_strings. rewrite list_elem_of_omap. split; [intros (n & _ & Hn); eauto|]. intros (n & Hn). exists n. split; [|done].
  rewrite merge_sort_Permutation. apply list_elem_of_fmap. exists (n, x). split; [done|]. by apply elem_of_map_to_list.
Qed.

End EnvoyTree.
