(* ===== verification/EnvoyLayers.v ===== *)
(** * The layers of the Envoy generator

    What each layer method of controlplane/firewall (envoy_tcp.go, envoy_tls.go,
    envoy_udp.go, envoy_upstream.go, envoy_http.go) writes, the commit of a
    permutation, and [GenerateEnvoyConfig] (envoy_config.go) up to the
    marshalling of the tree. *)

From S2P Require Import Prelude GoStrings GoNet EgressRule Rules Mappings Checks HttpRoutes EnvoyTree Generator.
Import Go Rule Rules Mappings Checks HttpRoutes EnvoyTree Generator.

Module EnvoyLayers.

Definition egressListenerName : string := "egress".
Definition egressQUICListenerName : string := "egress_quic".
Definition healthListenerName : string := "health_check".
Definition defaultBindAddress : string := "0.0.0.0".
Definition otelCollectorALSClusterName : string := "otel_collector_als".
Definition httpDFPClusterName : string := "http_dfp".
Definition httpsDFPClusterName : string := "https_dfp".
Definition wssDFPClusterName : string := "wss_dfp".
Definition denyClusterName : string := "deny_cluster".
Definition MonitoringServiceOtelCollector : string := "otel-collector".

Record ALSConfig := mkALS { als_Port : Z; als_MTLS : bool }.

(** [strings.NewReplacer] of four characters. *)
Definition sanitize_char (c : ascii) : ascii :=
  if Ascii.eqb c "." || Ascii.eqb c "-" || Ascii.eqb c ":" || Ascii.eqb c "/" then "_"%char else c.
Definition sanitizeName (s : string) : string := map_string sanitize_char s.
(** [strings.ReplaceAll(normalizeDomain(dst), "/", "_")]. *)
Definition certBasename (dst : string) : string := map_string (fun c => if Ascii.eqb c "/" then "_"%char else c) (normalizeDomain dst).

(** ** Names *)

Definition named (pre host : string) (port : Z) : string := pre +:+ sanitizeName host +:+ "_" +:+ Itoa port.
Definition httpClusterName : string -> Z -> string := named "http_".
Definition tlsExactClusterName : string -> Z -> string := named "tls_".
Definition tcpPinnedName : string -> Z -> string := named "tcp_".
Definition udpPinnedName : string -> Z -> string := named "udp_".
Definition tcpOriginalDstName : string -> Z -> string := named "tcp_origdst_".
Definition httpOriginalDstName : string -> Z -> string := named "http_origdst_".
Definition tlsOriginalDstName : string -> Z -> string := named "tls_origdst_".
Definition virtualHostName (dst : string) (port : Z) : string :=
  (if isWildcardDomain dst then "wildcard_" else "") +:+ sanitizeName (normalizeDomain dst) +:+ "_" +:+ Itoa port.

(** ** Clusters *)

Definition pinnedCluster (name host : string) (port : Z) : cluster :=
  mkCluster name (if isIPOrCIDR host then Static host port else LogicalDNS host port) None.
Definition originalDstCluster (name : string) : cluster := mkCluster name OriginalDst None.
Definition decorateReencrypt (c : cluster) (insecure http11 : bool) : cluster := mkCluster (cl_name c) (cl_discovery c) (Some (Reencrypt insecure http11)).
Definition buildHTTPDNSCluster (host : string) (port : Z) : cluster := pinnedCluster (httpClusterName host port) host port.
Definition buildTLSDNSCluster (host : string) (port : Z) (insecure http11 : bool) : cluster :=
  decorateReencrypt (pinnedCluster (tlsExactClusterName host port) host port) insecure http11.
Definition buildHTTPDFPCluster : cluster := mkCluster httpDFPClusterName (DynamicForwardProxy httpDFPCacheName) None.
Definition buildHTTPSDFPCluster (name : string) (insecure http11 : bool) : cluster :=
  mkCluster name (DynamicForwardProxy httpsDFPCacheName) (Some (Reencrypt insecure http11)).
Definition buildDenyCluster : cluster := mkCluster denyClusterName NoEndpoints None.
Definition buildOtelALSCluster (als : ALSConfig) : cluster :=
  mkCluster otelCollectorALSClusterName (StrictDNS MonitoringServiceOtelCollector (als_Port als)) (Some CollectorMTLS).

(** ** Matches *)

Definition httpsPort (r : EgressRule) : Z := default defaultDestPort (SinglePort r).

Definition serverNames (dst : string) (exactDomains : gset string) : list string :=
  let domain := normalizeDomain dst in
  if isWildcardDomain dst then if bool_decide (domain ∈ exactDomains) then ["*." +:+ domain] else ["*." +:+ domain; domain]
  else [domain].

Definition ipPrefixRange (dst : string) : string * Z :=
  match GoNet.ParseCIDR dst with
  | Some p => (GoNet.IP_String (GoNet.Mask (GoNet.pfx_addr p) (GoNet.pfx_bits p)), GoNet.pfx_bits p)
  | None => (dst, match GoNet.ParseIP dst with Some a => match GoNet.To4 a with None => 128 | Some _ => 32 end | None => 32 end)
  end.

(** The match, and whether the listener needs the inspector and the original
    destination. *)
Definition downstreamCryptoMatch (rule : EgressRule) (exactDomains : gset string) (tcpChain : bool) : chainMatch * bool * bool :=
  if isIPOrCIDR (Dst rule) then (mkMatch None [] (Some (ipPrefixRange (Dst rule))) (Some (httpsPort rule)), false, true)
  else (mkMatch (if tcpChain then Some "tls" else None) (serverNames (Dst rule) exactDomains) None None, tcpChain, false).

(** ** The context of a permutation *)

Record genCtx := mkCtx {
  x_rule : EgressRule; x_ports : EnvoyPorts; x_als : ALSConfig; x_cfg : EnvoyConfig;
  x_listener : string; x_match : option chainMatch; x_socket : option socket; x_filters : list networkFilter; x_clusters : list cluster;
  x_port : Z; x_bareHostPort : Z; x_hcmCodec : string; x_advertiseH3 : bool; x_tlsTerminated : bool; x_upstreamCluster : string;
  x_upstreamFollowsHost : bool; x_httpFilters : list httpFilter; x_websocket : bool;
}.
Definition new_ctx (r : EgressRule) (ports : EnvoyPorts) (als : ALSConfig) (cfg : EnvoyConfig) : genCtx :=
  mkCtx r ports als cfg "" None None [] [] 0 0 "" false false "" false [] false.

(** The writes of a transport: configuration, listener, match, socket, ports,
    codec, h3 and TLS. *)
Definition set_transport (x : genCtx) (cfg : EnvoyConfig) (listener : string) (m : option chainMatch) (sock : option socket) (port bare : Z) (codec : string)
    (h3 tls : bool) : genCtx :=
  mkCtx (x_rule x) (x_ports x) (x_als x) cfg listener m sock (x_filters x) (x_clusters x) port bare codec h3 tls (x_upstreamCluster x)
    (x_upstreamFollowsHost x) (x_httpFilters x) (x_websocket x).
(** Those of an upstream block. *)
Definition set_upstream (x : genCtx) (cl : cluster) (name : string) (follows : bool) : genCtx :=
  mkCtx (x_rule x) (x_ports x) (x_als x) (x_cfg x) (x_listener x) (x_match x) (x_socket x) (x_filters x) (x_clusters x ++ [cl]) (x_port x) (x_bareHostPort x)
    (x_hcmCodec x) (x_advertiseH3 x) (x_tlsTerminated x) name follows (x_httpFilters x) (x_websocket x).
(** Those of a terminal: configuration, filters and clusters. *)
Definition set_terminal (x : genCtx) (cfg : EnvoyConfig) (fs : list networkFilter) (cls : list cluster) : genCtx :=
  mkCtx (x_rule x) (x_ports x) (x_als x) cfg (x_listener x) (x_match x) (x_socket x) fs cls (x_port x) (x_bareHostPort x)
    (x_hcmCodec x) (x_advertiseH3 x) (x_tlsTerminated x) (x_upstreamCluster x) (x_upstreamFollowsHost x) (x_httpFilters x) (x_websocket x).
Definition set_websocket (x : genCtx) : genCtx :=
  mkCtx (x_rule x) (x_ports x) (x_als x) (x_cfg x) (x_listener x) (x_match x) (x_socket x) (x_filters x) (x_clusters x) (x_port x) (x_bareHostPort x)
    (x_hcmCodec x) (x_advertiseH3 x) (x_tlsTerminated x) (x_upstreamCluster x) (x_upstreamFollowsHost x) (x_httpFilters x) true.

(** Preconditions of layers, the tree's conflicts, the checks before and after. *)
Inductive EnvoyError :=
  | NoTransport | NoUpstream | NoProxyCluster (dst : string) | QuicNeedsSNI (dst : string)
  | Tree (e : TreeError) | Precheck (e : GenError) | MissingHealth | Rejected.
Definition tree {A} (r : result TreeError A) : result EnvoyError A := match r with Ok a => Ok a | Err e => Err (Tree e) end.

(** ** Transports *)

(** A field of the context no transport writes keeps what it had. *)
Definition run_tcpEgress (x : genCtx) : genCtx :=
  set_transport x (EnsureListener (x_cfg x) egressListenerName defaultBindAddress (EgressPort (x_ports x))) egressListenerName
    (Some (mkMatch (Some "raw_buffer") [] None None)) (x_socket x) (httpPort (x_rule x)) defaultHTTPPort (x_hcmCodec x) (x_advertiseH3 x) false.

Definition run_tcpDedicated (envoyPort dstPort : Z) (x : genCtx) : genCtx :=
  let name := tcpPinnedName (normalizeDomain (Dst (x_rule x))) dstPort in
  set_transport x (EnsureListener (x_cfg x) name defaultBindAddress envoyPort) name None (x_socket x) dstPort (x_bareHostPort x) (x_hcmCodec x) (x_advertiseH3 x) false.

Definition run_prefixRange (dstPort : Z) (x : genCtx) : result EnvoyError genCtx :=
  let? cfg := tree (SetListenerField (EnsureListener (x_cfg x) egressListenerName defaultBindAddress (EgressPort (x_ports x))) egressListenerName use_original_dst) in
  Ok (set_transport x cfg egressListenerName (Some (mkMatch (Some "raw_buffer") [] (Some (ipPrefixRange (Dst (x_rule x)))) (Some dstPort)))
        (x_socket x) dstPort (x_bareHostPort x) (x_hcmCodec x) (x_advertiseH3 x) false).

Definition run_tlsSNI (exact : gset string) (x : genCtx) : result EnvoyError genCtx :=
  let '(m, needInspector, needOriginalDst) := downstreamCryptoMatch (x_rule x) exact true in
  let cfg := EnsureListener (x_cfg x) egressListenerName defaultBindAddress (EgressPort (x_ports x)) in
  let? cfg := (if needInspector then tree (SetListenerField cfg egressListenerName (listener_filters TlsInspector)) else Ok cfg) in
  let? cfg := (if needOriginalDst then tree (SetListenerField cfg egressListenerName use_original_dst) else Ok cfg) in
  Ok (set_transport x cfg egressListenerName (Some m) (Some (TLSSocket (certBasename (Dst (x_rule x))))) (httpsPort (x_rule x)) defaultDestPort (x_hcmCodec x)
        (negb needOriginalDst) true).

Definition run_quicSNI (exact : gset string) (x : genCtx) : result EnvoyError genCtx :=
  let '(m, _, needOriginalDst) := downstreamCryptoMatch (x_rule x) exact false in
  if needOriginalDst then Err (QuicNeedsSNI (Dst (x_rule x)))
  else
    Ok (set_transport x (EnsureQUICListener (x_cfg x) egressQUICListenerName defaultBindAddress (EgressPort (x_ports x))) egressQUICListenerName (Some m)
          (Some (QUICSocket (certBasename (Dst (x_rule x))))) (httpsPort (x_rule x)) defaultDestPort "HTTP3" (x_advertiseH3 x) true).

Definition run_udpDedicated (envoyPort dstPort : Z) (x : genCtx) : genCtx :=
  let name := udpPinnedName (normalizeDomain (Dst (x_rule x))) dstPort in
  set_transport x (EnsureRawUDPListener (x_cfg x) name defaultBindAddress envoyPort) name None (x_socket x) dstPort (x_bareHostPort x) (x_hcmCodec x) (x_advertiseH3 x) false.

(** ** Terminals *)

Definition buildTCPAccessLog (transport l7 server action : string) (als : ALSConfig) : accessLog := mkLog transport l7 server action (als_MTLS als).

Definition run_tcpProxy (l7 : string) (x : genCtx) : result EnvoyError genCtx :=
  if String.eqb (x_upstreamCluster x) "" then Err (NoProxyCluster (Dst (x_rule x)))
  else
    let log := buildTCPAccessLog "tcp" l7 (normalizeDomain (Dst (x_rule x))) VerdictAllowed (x_als x) in
    Ok (set_terminal x (x_cfg x) (x_filters x ++ [TcpProxy (x_upstreamCluster x) (x_upstreamCluster x) log]) (x_clusters x)).
Definition run_tcpDeny (l7 : string) (x : genCtx) : genCtx :=
  let log := buildTCPAccessLog "tcp" l7 (normalizeDomain (Dst (x_rule x))) VerdictDenied (x_als x) in
  set_terminal x (x_cfg x) (x_filters x ++ [TcpProxy denyClusterName denyClusterName log]) (x_clusters x ++ [buildDenyCluster]).
Definition run_udpProxy (x : genCtx) : result EnvoyError genCtx :=
  if String.eqb (x_upstreamCluster x) "" then Err (NoProxyCluster (Dst (x_rule x)))
  else
    let log := buildTCPAccessLog "udp" "udp" (normalizeDomain (Dst (x_rule x))) VerdictAllowed (x_als x) in
    let? cfg := tree (SetListenerField (x_cfg x) (x_listener x) (listener_filters (UdpProxy (x_upstreamCluster x) (x_upstreamCluster x) log))) in
    Ok (set_terminal x cfg (x_filters x) (x_clusters x)).
Definition run_udpDeny (x : genCtx) : result EnvoyError genCtx :=
  let log := buildTCPAccessLog "udp" "udp" (normalizeDomain (Dst (x_rule x))) VerdictDenied (x_als x) in
  let? cfg := tree (SetListenerField (x_cfg x) (x_listener x) (listener_filters (UdpProxy denyClusterName denyClusterName log))) in
  Ok (set_terminal x cfg (x_filters x) (x_clusters x ++ [buildDenyCluster])).

(** ** The HTTP application *)

Definition denyAllVHost (no_dfp : bool) : vhost := mkVHost "deny_all" ["*"] [httpDenyRoute "/" []] None no_dfp.
Definition httpFilterChain (x : genCtx) (dfp : appDFP) : list httpFilter :=
  x_httpFilters x ++ (if dfp_active dfp then [DFPFilter (dfp_cache dfp)] else []) ++ [RouterFilter].
Definition buildHTTPAccessLog (tls : bool) (transport action : string) (als : ALSConfig) : accessLog :=
  mkLog transport "http" (if tls then "%REQUESTED_SERVER_NAME%" else "%REQ(Host)%") action (als_MTLS als).
Definition routeActionOperator : string := "%METADATA(ROUTE:clawker:action)%".
Definition httpHCM (codec : string) (tls : bool) (fs : list httpFilter) (als : ALSConfig) (vs : list vhost) (websocket : bool) : hcm :=
  mkHCM (if String.eqb codec "HTTP3" then "HTTP3" else "AUTO") tls fs (buildHTTPAccessLog tls (if String.eqb codec "HTTP3" then "quic" else "tcp") routeActionOperator als) vs websocket.

Definition run_httpApp (dfp : appDFP) (x : genCtx) : result EnvoyError genCtx :=
  if String.eqb (x_listener x) "" then Err NoTransport
  else if String.eqb (x_upstreamCluster x) "" then Err NoUpstream
  else
    let r := x_rule x in
    let routes := httpRoutes r (x_upstreamCluster x) (x_websocket x) in
    let '(vs, fs) :=
      if isCIDR (Dst r) then ([mkVHost (virtualHostName (Dst r) (x_port x)) ["*"] routes None false], httpFilterChain x no_dfp)
      else
        ([mkVHost (virtualHostName (Dst r) (x_port x)) (httpDomains (Dst r) (x_port x) (x_bareHostPort x)) routes
            (if x_advertiseH3 x then Some (x_port x) else None) (dfp_active dfp && negb (x_upstreamFollowsHost x));
          denyAllVHost (dfp_active dfp)], httpFilterChain x dfp) in
    Ok (set_terminal x (x_cfg x) [HCM (httpHCM (x_hcmCodec x) (x_tlsTerminated x) fs (x_als x) vs (x_websocket x))] (x_clusters x)).

(** ** Upstream blocks *)

Definition run_httpExactUpstream (x : genCtx) : genCtx :=
  let host := normalizeDomain (Dst (x_rule x)) in let port := httpPort (x_rule x) in
  set_upstream x (buildHTTPDNSCluster host port) (httpClusterName host port) false.
Definition run_httpWildcardUpstream (x : genCtx) : genCtx := set_upstream x buildHTTPDFPCluster httpDFPClusterName true.
Definition run_httpsExactUpstream (x : genCtx) : genCtx :=
  let host := normalizeDomain (Dst (x_rule x)) in let port := httpsPort (x_rule x) in
  set_upstream x (buildTLSDNSCluster host port (InsecureSkipTLSVerify (x_rule x)) (x_websocket x)) (tlsExactClusterName host port) false.
Definition run_httpsWildcardUpstream (x : genCtx) : genCtx :=
  let n := if x_websocket x then wssDFPClusterName else httpsDFPClusterName in
  set_upstream x (buildHTTPSDFPCluster n (InsecureSkipTLSVerify (x_rule x)) (x_websocket x)) n true.
Definition run_tcpPinnedUpstream (x : genCtx) : genCtx :=
  let host := normalizeDomain (Dst (x_rule x)) in let n := tcpPinnedName host (x_port x) in set_upstream x (pinnedCluster n host (x_port x)) n false.
Definition run_opaqueCIDRUpstream (x : genCtx) : genCtx :=
  let n := tcpOriginalDstName (normalizeDomain (Dst (x_rule x))) (x_port x) in set_upstream x (originalDstCluster n) n false.
Definition run_httpOriginalDstUpstream (x : genCtx) : genCtx :=
  let n := httpOriginalDstName (normalizeDomain (Dst (x_rule x))) (httpPort (x_rule x)) in set_upstream x (originalDstCluster n) n false.
Definition run_httpsOriginalDstUpstream (x : genCtx) : genCtx :=
  let n := tlsOriginalDstName (normalizeDomain (Dst (x_rule x))) (httpsPort (x_rule x)) in
  set_upstream x (decorateReencrypt (originalDstCluster n) (InsecureSkipTLSVerify (x_rule x)) (x_websocket x)) n false.
Definition run_udpPinnedUpstream (x : genCtx) : genCtx :=
  let host := normalizeDomain (Dst (x_rule x)) in let n := udpPinnedName host (x_port x) in set_upstream x (pinnedCluster n host (x_port x)) n false.

(** ** Every layer *)

Definition run_layer (l : layer) (x : genCtx) : result EnvoyError genCtx :=
  match l with
  | wsEnrichLayer => Ok (set_websocket x)
  | tcpEgressLayer => Ok (run_tcpEgress x)
  | prefixRangeTransportLayer port => run_prefixRange port x
  | tlsSNIChainLayer exact => run_tlsSNI exact x
  | quicSNIChainLayer exact => run_quicSNI exact x
  | tcpDedicatedListenerLayer e port => Ok (run_tcpDedicated e port x)
  | udpDedicatedListenerLayer e port => Ok (run_udpDedicated e port x)
  | httpOriginalDstUpstreamLayer => Ok (run_httpOriginalDstUpstream x)
  | httpWildcardUpstreamLayer => Ok (run_httpWildcardUpstream x)
  | httpExactUpstreamLayer => Ok (run_httpExactUpstream x)
  | httpsOriginalDstUpstreamLayer => Ok (run_httpsOriginalDstUpstream x)
  | httpsWildcardUpstreamLayer => Ok (run_httpsWildcardUpstream x)
  | httpsExactUpstreamLayer => Ok (run_httpsExactUpstream x)
  | opaqueCIDRUpstreamLayer => Ok (run_opaqueCIDRUpstream x)
  | tcpPinnedUpstreamLayer => Ok (run_tcpPinnedUpstream x)
  | udpPinnedUpstreamLayer => Ok (run_udpPinnedUpstream x)
  | httpAppLayer dfp => run_httpApp dfp x
  | tcpProxyTerminalLayer l7 => run_tcpProxy l7 x
  | udpProxyTerminalLayer => run_udpProxy x
  | tcpDenyTerminalLayer l7 => Ok (run_tcpDeny l7 x)
  | udpDenyTerminalLayer => run_udpDeny x
  end.

Fixpoint run_layers (ls : list layer) (x : genCtx) : result EnvoyError genCtx :=
  match ls with [] => Ok x | l :: ls => let? x := run_layer l x in run_layers ls x end.

(** ** Commit *)

Fixpoint add_clusters (cls : list cluster) (cfg : EnvoyConfig) : result EnvoyError EnvoyConfig :=
  match cls with [] => Ok cfg | cl :: cls => let? cfg := tree (AddCluster cfg cl) in add_clusters cls cfg end.
Definition commit (x : genCtx) : result EnvoyError EnvoyConfig :=
  let? cfg := add_clusters (x_clusters x) (x_cfg x) in
  match x_filters x with
  | [] => Ok cfg
  | fs => tree (addChain cfg (x_listener x) (mkChain fs (x_match x) (x_socket x)))
  end.

(** ** GenerateEnvoyConfig *)

Definition denyDefaultFilterChain (als : ALSConfig) : chain :=
  mkChain [TcpProxy "egress_deny" denyClusterName (buildTCPAccessLog "tcp" "" "%REQUESTED_SERVER_NAME%" VerdictDenied als)] None None.
Definition installEgressDenyFloor (cfg : EnvoyConfig) (als : ALSConfig) : result EnvoyError EnvoyConfig :=
  if negb (HasListener cfg egressListenerName) then Ok cfg
  else let? cfg := tree (AddCluster cfg buildDenyCluster) in tree (SetUnmatchedDeny cfg egressListenerName (denyDefaultFilterChain als)).
Definition installOtelALSCluster (cfg : EnvoyConfig) (als : ALSConfig) : result EnvoyError EnvoyConfig :=
  if negb (als_MTLS als) then Ok cfg else tree (AddCluster cfg (buildOtelALSCluster als)).
Definition buildHealthListener (port : Z) : base := mkBase KindHealth healthListenerName defaultBindAddress port None false.
Definition installHealthListener (cfg : EnvoyConfig) (ports : EnvoyPorts) : result EnvoyError EnvoyConfig :=
  if HealthPort ports <=? 0 then Ok cfg else tree (AddListener cfg (buildHealthListener (HealthPort ports))).
Definition envoyAdmin : string * Z := ("127.0.0.1", envoyAdminPort).

Definition run_perm (ports : EnvoyPorts) (als : ALSConfig) (cfg : EnvoyConfig) (p : permutation) : result EnvoyError EnvoyConfig :=
  let? x := run_layers (p_layers p) (new_ctx (p_rule p) ports als cfg) in commit x.
Fixpoint run_perms (ports : EnvoyPorts) (als : ALSConfig) (perms : list permutation) (cfg : EnvoyConfig) : result EnvoyError EnvoyConfig :=
  match perms with [] => Ok cfg | p :: perms => let? cfg := run_perm ports als cfg p in run_perms ports als perms cfg end.

(** [validateBootstrap] parses the marshalled tree with Envoy's own schema. *)
Definition GenerateEnvoyConfig (validateBootstrap : EnvoyConfig -> bool) (rules : list EgressRule) (ports : EnvoyPorts) (als : ALSConfig)
    : result EnvoyError EnvoyConfig :=
  match GeneratePlan rules ports with
  | Err e => Err (Precheck e)
  | Ok perms =>
      let? cfg := run_perms ports als perms (SetAdmin NewEnvoyConfig envoyAdmin) in
      let? cfg := installEgressDenyFloor cfg als in
      let? cfg := installOtelALSCluster cfg als in
      let? cfg := installHealthListener cfg ports in
      if (0 <? HealthPort ports) && negb (HasListener cfg healthListenerName) then Err MissingHealth
      else if validateBootstrap cfg then Ok cfg else Err Rejected
  end.

End EnvoyLayers.
