(* ===== verification/EnvoyInv.v ===== *)
(** * Where everything in a generated configuration comes from

    An invariant of the accumulator: every filter chain, virtual host and
    datagram proxy was written for one rule, and the cluster it leads to is the
    one written for that rule. *)

From S2P Require Import Prelude GoStrings GoNet EgressRule Rules Mappings Checks HttpRoutes EnvoyTree Generator EnvoyLayers.
Import Go Rule Rules Mappings Checks HttpRoutes EnvoyTree Generator EnvoyLayers.

Module EnvoyInv.

Section Origins.
(** The rules permutations are built for. *)
Context (served : EgressRule -> Prop).

(** ** What a rule may lead to *)

Definition family (r : EgressRule) : string := ToLower (Proto r).
(** The port and the default port of the scheme of an http or https rule. *)
Definition web_port (r : EgressRule) : Z := if String.eqb (family r) "http" then httpPort r else httpsPort r.
Definition bare_port (r : EgressRule) : Z := if String.eqb (family r) "http" then defaultHTTPPort else defaultDestPort.
Definition is_web (r : EgressRule) : Prop := family r = "http" \/ family r = "https".
Definition allowed (r : EgressRule) : Prop := served r /\ isDenyAction (Action r) = false.

Definition pinned_to (cl : cluster) (host : string) (port : Z) : Prop := cl_discovery cl = Static host port \/ cl_discovery cl = LogicalDNS host port.
(** A chain that only the range of a rule reaches. *)
Definition gated (m : option chainMatch) (r : EgressRule) (port : Z) : Prop :=
  exists mm, m = Some mm /\ prefix_ranges mm = Some (ipPrefixRange (Dst r)) /\ destination_port mm = Some port.

(** The three ways a virtual host of an allowed rule leads to its cluster. *)
Inductive web_target (m : option chainMatch) (r : EgressRule) (domains : list string) (cl : cluster) : Prop :=
  | web_range : isCIDR (Dst r) = true -> cl_discovery cl = OriginalDst -> gated m r (web_port r) -> web_target m r domains cl
  | web_pinned : isCIDR (Dst r) = false -> pinned_to cl (normalizeDomain (Dst r)) (web_port r) -> isWildcardDomain (Dst r) = false ->
      domains = httpDomains (Dst r) (web_port r) (bare_port r) -> web_target m r domains cl
  | web_wildcard cache : isCIDR (Dst r) = false -> cl_discovery cl = DynamicForwardProxy cache -> isWildcardDomain (Dst r) = true ->
      (cl_tls cl = None <-> family r = "http") -> domains = httpDomains (Dst r) (web_port r) (bare_port r) -> web_target m r domains cl.

Definition vhost_ok (cls : gmap string cluster) (m : option chainMatch) (v : vhost) : Prop :=
  vh_routes v = [httpDenyRoute "/" []] \/
  exists r n ws cl, allowed r /\ is_web r /\ vh_routes v = httpRoutes r n ws /\ cls !! n = Some cl /\ web_target m r (vh_domains v) cl.

Definition blackholed (cls : gmap string cluster) (n : string) (log : accessLog) : Prop :=
  al_action log = VerdictDenied /\ exists cl, cls !! n = Some cl /\ cl_discovery cl = NoEndpoints.
Definition tcp_ok (cls : gmap string cluster) (m : option chainMatch) (n : string) (log : accessLog) : Prop :=
  blackholed cls n log \/
  exists r port cl, allowed r /\ is_tcp_class (family r) = true /\ port ∈ dedicatedPorts r tcpDefaultPort /\ al_action log = VerdictAllowed /\ cls !! n = Some cl /\
    ((isCIDR (Dst r) = false /\ pinned_to cl (normalizeDomain (Dst r)) port) \/ (isCIDR (Dst r) = true /\ cl_discovery cl = OriginalDst /\ gated m r port)).
Definition udp_ok (cls : gmap string cluster) (n : string) (log : accessLog) : Prop :=
  blackholed cls n log \/
  exists r port cl, allowed r /\ is_udp_class (family r) = true /\ port ∈ dedicatedPorts r udpDefaultPort /\ al_action log = VerdictAllowed /\ cls !! n = Some cl /\
    pinned_to cl (normalizeDomain (Dst r)) port.

Definition chain_ok (cls : gmap string cluster) (ch : chain) : Prop :=
  match ch_filters ch with
  | [HCM h] => al_action (hcm_log h) = routeActionOperator /\ Forall (vhost_ok cls (ch_match ch)) (hcm_vhosts h)
  | [TcpProxy _ n log] => tcp_ok cls (ch_match ch) n log
  | _ => False
  end.
Record listener_ok (cls : gmap string cluster) (l : envoyListener) : Prop := {
  lo_chains : Forall (chain_ok cls) (l_chains l);
  lo_default : forall ch, l_default l = Some ch -> ch_match ch = None /\ chain_ok cls ch;
  lo_udp : forall sp n log, lb_filters (l_base l) = Some (UdpProxy sp n log) -> udp_ok cls n log;
}.
Definition tree_ok (cls : gmap string cluster) (ls : gmap string envoyListener) : Prop := map_Forall (fun _ => listener_ok cls) ls.

(** ** More clusters *)

Lemma vhost_ok_mono cls cls' m v : cls ⊆ cls' -> vhost_ok cls m v -> vhost_ok cls' m v.
Proof. intros Hs [?|(r & n & ws & cl & ? & ? & ? & ? & ?)]; [by left|]. right. exists r, n, ws, cl. split_and!; try done. by eapply lookup_weaken. Qed.
Lemma blackholed_mono cls cls' n log : cls ⊆ cls' -> blackholed cls n log -> blackholed cls' n log.
Proof. intros Hs (? & cl & ? & ?). split; [done|]. exists cl. split; [by eapply lookup_weaken|done]. Qed.
Lemma tcp_ok_mono cls cls' m n log : cls ⊆ cls' -> tcp_ok cls m n log -> tcp_ok cls' m n log.
Proof.
  intros Hs [?|(r & port & cl & ? & ? & ? & ? & ? & ?)]; [left; by eapply blackholed_mono|]. right. exists r, port, cl. split_and!; try done. by eapply lookup_weaken.
Qed.
Lemma udp_ok_mono cls cls' n log : cls ⊆ cls' -> udp_ok cls n log -> udp_ok cls' n log.
Proof.
  intros Hs [?|(r & port & cl & ? & ? & ? & ? & ? & ?)]; [left; by eapply blackholed_mono|]. right. exists r, port, cl. split_and!; try done. by eapply lookup_weaken.
Qed.
Lemma chain_ok_mono cls cls' ch : cls ⊆ cls' -> chain_ok cls ch -> chain_ok cls' ch.
Proof.
  intros Hs. unfold chain_ok. destruct (ch_filters ch) as [|[h|sp n log] [|]]; try done; [|by apply tcp_ok_mono].
  intros [Hl H]. split; [done|]. eapply Forall_impl; [exact H|]. intros v. by apply vhost_ok_mono.
Qed.
Lemma tree_ok_mono cls cls' ls : cls ⊆ cls' -> tree_ok cls ls -> tree_ok cls' ls.
Proof.
  intros Hs Ht name l Hl. destruct (Ht name l Hl) as [H1 H2 H3]. split.
  - eapply Forall_impl; [exact H1|]. intros ch. by apply chain_ok_mono.
  - intros ch Hch. destruct (H2 ch Hch). split; [done|]. by eapply chain_ok_mono.
  - intros sp n log Hf. eapply udp_ok_mono; eauto.
Qed.

(** ** The accumulator's operations *)

Lemma set_listener_ok cls cfg name l : tree_ok cls (listeners cfg) -> listener_ok cls l -> tree_ok cls (listeners (set_listener cfg name l)).
Proof. intros Ht Hl. by apply map_Forall_insert_2. Qed.
Lemma ensure_ok cls kind cfg name addr port : tree_ok cls (listeners cfg) -> tree_ok cls (listeners (ensure kind cfg name addr port)).
Proof. intros Ht. unfold ensure. destruct (listeners cfg !! name); [done|]. apply set_listener_ok; [done|]. by split. Qed.
Lemma set_field_ok cls cfg name f cfg' :
  SetListenerField cfg name f = Ok cfg' -> tree_ok cls (listeners cfg) ->
  match f with listener_filters (UdpProxy _ n log) => udp_ok cls n log | _ => True end -> tree_ok cls (listeners cfg') /\ clusters cfg' = clusters cfg.
Proof.
  unfold SetListenerField. destruct (listeners cfg !! name) as [l|] eqn:El; [|done]. intros [= <-] Ht Hf. split; [|done].
  apply set_listener_ok; [done|]. destruct (Ht name l El) as [H1 H2 H3]. split; cbn; [done|done|]. intros sp n log. destruct f as [[|sp' n' log']|]; cbn; [done| |apply H3].
  by intros [= <- <- <-].
Qed.

Lemma union_vhosts_elem seen vs v : v ∈ union_vhosts seen vs -> v ∈ vs.
Proof. revert seen. induction vs as [|x vs IH]; intros seen; cbn; [done|]. case_bool_decide; [intros ?%IH; by right|]. intros [->|?%IH]%elem_of_cons; [by left|by right]. Qed.

Lemma upsert_ok cls chains ch chains' : upsert_chain chains ch = Some chains' -> Forall (chain_ok cls) chains -> chain_ok cls ch -> Forall (chain_ok cls) chains'.
Proof.
  revert chains'. induction chains as [|x chains IH]; intros chains'; cbn; [intros [= <-] _ ?; by repeat constructor|]. case_bool_decide as Em.
  - intros (y & Hy & ->)%fmap_Some Hall Hch. apply Forall_cons in Hall as [Hx Hall]. constructor; [|done].
    unfold mergeHCMVHosts, hcmVHosts in Hy. unfold chain_ok in Hx, Hch. destruct (ch_filters x) as [|[h|? ? ?] [|]] eqn:Ex; try done.
    destruct (ch_filters ch) as [|[h'|? ? ?] [|]] eqn:Ec; try done. cbn in Hy. injection Hy as <-. unfold setHCMVHosts, chain_ok. rewrite Ex. cbn.
    split; [apply Hx|]. destruct Hx as [_ Hx], Hch as [_ Hch]. apply Forall_forall. intros v [Hv|Hv]%union_vhosts_elem%elem_of_app; [rewrite Forall_forall in Hx; auto|rewrite Forall_forall in Hch; rewrite Em; auto].
  - intros (l & Hl & ->)%fmap_Some [Hx Hall]%Forall_cons Hch. constructor; [done|]. by apply IH.
Qed.

Lemma addChain_ok cls cfg name ch cfg' :
  addChain cfg name ch = Ok cfg' -> tree_ok cls (listeners cfg) -> chain_ok cls ch -> tree_ok cls (listeners cfg') /\ clusters cfg' = clusters cfg.
Proof.
  unfold addChain. destruct (listeners cfg !! name) as [l|] eqn:El; [|done]. destruct (upsert_chain _ _) as [chains|] eqn:Eu; [|done]. intros [= <-] Ht Hch. split; [|done].
  apply set_listener_ok; [done|]. destruct (Ht name l El) as [H1 H2 H3]. split; cbn; [by eapply upsert_ok|done|done].
Qed.

Lemma AddCluster_spec cfg cl cfg' :
  AddCluster cfg cl = Ok cfg' -> listeners cfg' = listeners cfg /\ clusters cfg ⊆ clusters cfg' /\ clusters cfg' !! cl_name cl = Some cl.
Proof.
  unfold AddCluster. destruct (String.eqb _ _); [done|]. destruct (clusters cfg !! cl_name cl) as [x|] eqn:E.
  - case_bool_decide as Ex; [|done]. intros [= <-]. by subst x.
  - intros [= <-]. cbn. split_and!; [done|by apply insert_subseteq|apply lookup_insert_eq].
Qed.

Lemma add_clusters_spec cls cfg cfg' :
  add_clusters cls cfg = Ok cfg' -> listeners cfg' = listeners cfg /\ clusters cfg ⊆ clusters cfg' /\ Forall (fun cl => clusters cfg' !! cl_name cl = Some cl) cls.
Proof.
  revert cfg. induction cls as [|cl cls IH]; intros cfg; cbn; [by intros [= <-]|]. intros (c1 & H1 & H2)%result_bind_ok.
  destruct (AddCluster cfg cl) as [c2|] eqn:E; [|done]. injection H1 as <-. apply AddCluster_spec in E as (El & Es & Ec). apply IH in H2 as (El' & Es' & Ec').
  split_and!; [congruence|by etrans|]. constructor; [by eapply lookup_weaken|done].
Qed.

Lemma tree_ok_result {A} (r : result TreeError A) (a : A) : tree r = Ok a -> r = Ok a.
Proof. destruct r; [|done]. by intros [= ->]. Qed.

(** A permutation: the clusters it adds are there afterwards, and its chain joins
    the tree. *)
Lemma commit_ok x cfg' :
  commit x = Ok cfg' ->
  let cls := clusters cfg' in
  clusters (x_cfg x) ⊆ cls /\ Forall (fun cl => cls !! cl_name cl = Some cl) (x_clusters x) /\
  (tree_ok cls (listeners (x_cfg x)) -> x_filters x = [] \/ chain_ok cls (mkChain (x_filters x) (x_match x) (x_socket x)) -> tree_ok cls (listeners cfg')).
Proof.
  unfold commit. intros (c1 & H1 & H2)%result_bind_ok. apply add_clusters_spec in H1 as (El & Es & Ec).
  destruct (x_filters x) as [|f fs] eqn:Ef.
  - injection H2 as <-. cbn. rewrite El. auto.
  - apply tree_ok_result in H2. cbn.
    assert (clusters cfg' = clusters c1) as Ecl.
    { unfold addChain in H2. destruct (listeners c1 !! _); [|done]. destruct (upsert_chain _ _); [|done]. by injection H2 as <-. }
    rewrite Ecl. split_and!; [done|done|]. intros Ht [?|Hch]; [done|]. rewrite <- El in Ht. by eapply addChain_ok in H2 as [??].
Qed.

(** ** The shapes of a permutation *)

Inductive core (r : EgressRule) : list layer -> Prop :=
  | core_http_range : family r = "http" -> isCIDR (Dst r) = true ->
      core r [prefixRangeTransportLayer (httpPort r); httpOriginalDstUpstreamLayer; httpAppLayer no_dfp]
  | core_http dfp : family r = "http" -> isCIDR (Dst r) = false ->
      core r [tcpEgressLayer; if isWildcardDomain (Dst r) then httpWildcardUpstreamLayer else httpExactUpstreamLayer; httpAppLayer dfp]
  | core_https_range exact : family r = "https" -> isCIDR (Dst r) = true ->
      core r [tlsSNIChainLayer exact; httpsOriginalDstUpstreamLayer; httpAppLayer no_dfp]
  | core_https tr exact dfp : family r = "https" -> isCIDR (Dst r) = false -> tr = tlsSNIChainLayer exact \/ tr = quicSNIChainLayer exact ->
      core r [tr; if isWildcardDomain (Dst r) then httpsWildcardUpstreamLayer else httpsExactUpstreamLayer; httpAppLayer dfp]
  | core_tcp_range port : is_tcp_class (family r) = true -> isCIDR (Dst r) = true -> port ∈ dedicatedPorts r tcpDefaultPort ->
      core r (prefixRangeTransportLayer port ::
        if isDenyAction (Action r) then [tcpDenyTerminalLayer (family r)] else [opaqueCIDRUpstreamLayer; tcpProxyTerminalLayer (family r)])
  | core_tcp e port : is_tcp_class (family r) = true -> isCIDR (Dst r) = false -> port ∈ dedicatedPorts r tcpDefaultPort ->
      core r (tcpDedicatedListenerLayer e port ::
        if isDenyAction (Action r) then [tcpDenyTerminalLayer (family r)] else [tcpPinnedUpstreamLayer; tcpProxyTerminalLayer (family r)])
  | core_udp e port : is_udp_class (family r) = true -> port ∈ dedicatedPorts r udpDefaultPort ->
      core r (udpDedicatedListenerLayer e port :: if isDenyAction (Action r) then [udpDenyTerminalLayer] else [udpPinnedUpstreamLayer; udpProxyTerminalLayer]).

Lemma layersFor_core r gen ls : ls ∈ layersFor r gen -> exists ws c, ls = (if ws : bool then [wsEnrichLayer] else []) ++ c /\ core r c.
Proof.
  unfold layersFor. fold (family r). set (ws := bool_decide _). intros H.
  assert (forall c, core r c -> forall l, l = (if ws then wsEnrichLayer :: c else c) -> exists ws c, l = (if ws : bool then [wsEnrichLayer] else []) ++ c /\ core r c) as Hw.
  { intros c Hc l ->. exists ws, c. by destruct ws. }
  assert (forall c, core r c -> exists ws c', c = (if ws : bool then [wsEnrichLayer] else []) ++ c' /\ core r c') as Hn by (intros c Hc; by exists false, c).
  destruct (String.eqb_spec (family r) "http") as [Ef|_].
  { destruct (isCIDR (Dst r)) eqn:Ec; [apply list_elem_of_singleton in H; eapply Hw; [|exact H]; by constructor|].
    pose proof (core_http r (mkDFP (httpDFPActive gen) httpDFPCacheName) Ef Ec) as Hc.
    destruct (isWildcardDomain (Dst r)); apply list_elem_of_singleton in H; eapply Hw; eauto. }
  destruct (String.eqb_spec (family r) "https") as [Ef|_].
  { destruct (isCIDR (Dst r)) eqn:Ec; [apply list_elem_of_singleton in H; eapply Hw; [|exact H]; by constructor|].
    pose proof (fun tr dfp => core_https r tr (httpsExactDomains gen) dfp Ef Ec) as Hc.
    destruct (isWildcardDomain (Dst r)); [|destruct (isIPOrCIDR (Dst r))]; in_cases H; (eapply Hw; [|exact H]); apply Hc; auto. }
  destruct (is_tcp_class (family r)) eqn:Et.
  { destruct (isCIDR (Dst r)) eqn:Ec.
    - apply list_elem_of_fmap in H as (port & -> & Hp). pose proof (core_tcp_range r port Et Ec Hp) as Hc. destruct (isDenyAction (Action r)); by apply Hn.
    - apply list_elem_of_omap in H as (port & Hp & H). destruct (tcpListenerPorts gen !! _) as [e|]; [|done]. cbn in H. injection H as <-.
      pose proof (core_tcp r e port Et Ec Hp) as Hc. destruct (isDenyAction (Action r)); by apply Hn. }
  destruct (is_udp_class (family r)) eqn:Eu; [|by apply elem_of_nil in H].
  apply list_elem_of_omap in H as (port & Hp & H). destruct (udpListenerPorts gen !! _) as [e|]; [|done]. cbn in H. injection H as <-.
  pose proof (core_udp r e port Eu Hp) as Hc. destruct (isDenyAction (Action r)); by apply Hn.
Qed.

(** ** A permutation keeps the invariant *)

Definition start (r : EgressRule) (ports : EnvoyPorts) (als : ALSConfig) (cfg : EnvoyConfig) (ws : bool) : genCtx :=
  mkCtx r ports als cfg "" None None [] [] 0 0 "" false false "" false [] ws.
Lemma run_start ws c r ports als cfg :
  run_layers ((if ws : bool then [wsEnrichLayer] else []) ++ c) (new_ctx r ports als cfg) = run_layers c (start r ports als cfg ws).
Proof. by destruct ws. Qed.

Lemma deny_vhost_ok cls m b : vhost_ok cls m (denyAllVHost b).
Proof. by left. Qed.
Lemma pinned_pinned n host port : pinned_to (pinnedCluster n host port) host port.
Proof. unfold pinnedCluster, pinned_to. destruct (isIPOrCIDR host); cbn; auto. Qed.

(** The host of a rule leads to its cluster. *)
Lemma web_vhosts_ok cls r m ws n cl domains name alt nd rest :
  allowed r -> is_web r -> cls !! n = Some cl -> web_target m r domains cl -> Forall (vhost_ok cls m) rest ->
  Forall (vhost_ok cls m) (mkVHost name domains (httpRoutes r n ws) alt nd :: rest).
Proof. intros Ha Hw Hn Ht Hr. constructor; [|done]. right. exists r, n, ws, cl. done. Qed.

Lemma set_field_step cfg name f cfg' : tree (SetListenerField cfg name f) = Ok cfg' ->
  match f with listener_filters (UdpProxy _ _ _) => False | _ => True end -> clusters cfg' = clusters cfg /\ forall cls, tree_ok cls (listeners cfg) -> tree_ok cls (listeners cfg').
Proof.
  intros H%tree_ok_result Hf. split.
  - unfold SetListenerField in H. destruct (listeners cfg !! name); [|done]. by injection H as <-.
  - intros cls Ht. eapply set_field_ok; [exact H|done|]. by destruct f as [[]|].
Qed.
Lemma ensure_clusters kind cfg name addr port : clusters (ensure kind cfg name addr port) = clusters cfg.
Proof. unfold ensure. by destruct (listeners cfg !! name). Qed.

(** The transports: what they leave in the context, and the tree they leave. *)
Lemma prefixRange_spec port x x' :
  run_prefixRange port x = Ok x' ->
  exists cfg, x' = set_transport x cfg egressListenerName (Some (mkMatch (Some "raw_buffer") [] (Some (ipPrefixRange (Dst (x_rule x)))) (Some port))) (x_socket x) port
      (x_bareHostPort x) (x_hcmCodec x) (x_advertiseH3 x) false /\
    clusters cfg = clusters (x_cfg x) /\ forall cls, tree_ok cls (listeners (x_cfg x)) -> tree_ok cls (listeners cfg).
Proof.
  unfold run_prefixRange. intros (cfg & H & [= <-])%result_bind_ok. exists cfg. split; [done|]. apply set_field_step in H as [Hc Ht]; [|done].
  unfold EnsureListener in Hc. rewrite ensure_clusters in Hc. split; [done|]. intros cls H. by apply Ht, ensure_ok.
Qed.
Lemma tlsSNI_spec exact x x' :
  run_tlsSNI exact x = Ok x' ->
  exists cfg h3, x' = set_transport x cfg egressListenerName (Some (downstreamCryptoMatch (x_rule x) exact true).1.1) (Some (TLSSocket (certBasename (Dst (x_rule x)))))
      (httpsPort (x_rule x)) defaultDestPort (x_hcmCodec x) h3 true /\
    clusters cfg = clusters (x_cfg x) /\ forall cls, tree_ok cls (listeners (x_cfg x)) -> tree_ok cls (listeners cfg).
Proof.
  unfold run_tlsSNI. destruct (downstreamCryptoMatch (x_rule x) exact true) as [[m ni] no]. intros (c1 & H1 & H)%result_bind_ok.
  apply result_bind_ok in H as (c2 & H2 & [= <-]). exists c2, (negb no). split; [done|].
  assert (forall (b : bool) f c c', match f with listener_filters (UdpProxy _ _ _) => False | _ => True end ->
    (if b then tree (SetListenerField c egressListenerName f) else Ok c) = Ok c' -> clusters c' = clusters c /\ forall cls, tree_ok cls (listeners c) -> tree_ok cls (listeners c')) as Hf.
  { intros b f c c' Hf. destruct b; [intros H; by eapply set_field_step|by intros [= <-]]. }
  apply Hf in H1 as [Hc1 Ht1]; [|done]. apply Hf in H2 as [Hc2 Ht2]; [|done]. rewrite Hc2, Hc1. unfold EnsureListener. rewrite ensure_clusters. split; [done|].
  intros cls H. by apply Ht2, Ht1, ensure_ok.
Qed.
Lemma quicSNI_spec exact x x' :
  run_quicSNI exact x = Ok x' ->
  exists cfg, x' = set_transport x cfg egressQUICListenerName (Some (downstreamCryptoMatch (x_rule x) exact false).1.1) (Some (QUICSocket (certBasename (Dst (x_rule x)))))
      (httpsPort (x_rule x)) defaultDestPort "HTTP3" (x_advertiseH3 x) true /\
    clusters cfg = clusters (x_cfg x) /\ forall cls, tree_ok cls (listeners (x_cfg x)) -> tree_ok cls (listeners cfg).
Proof.
  unfold run_quicSNI. destruct (downstreamCryptoMatch (x_rule x) exact false) as [[m ni] no]. destruct no; [done|]. intros [= <-]. eexists. split; [done|].
  unfold EnsureQUICListener. rewrite ensure_clusters. split; [done|]. intros cls. apply ensure_ok.
Qed.

(** The HTTP application on top of a transport and an upstream block. *)
Lemma httpApp_spec dfp x x' :
  run_httpApp dfp x = Ok x' ->
  exists fs alt nd rest, let r := x_rule x in
    x' = set_terminal x (x_cfg x) [HCM (httpHCM (x_hcmCodec x) (x_tlsTerminated x) fs (x_als x)
           (mkVHost (virtualHostName (Dst r) (x_port x)) (if isCIDR (Dst r) then ["*"] else httpDomains (Dst r) (x_port x) (x_bareHostPort x))
              (httpRoutes r (x_upstreamCluster x) (x_websocket x)) alt nd :: rest) (x_websocket x))] (x_clusters x) /\
    (rest = [] \/ exists b, rest = [denyAllVHost b]).
Proof.
  unfold run_httpApp. destruct (String.eqb (x_listener x) ""); [done|]. destruct (String.eqb (x_upstreamCluster x) ""); [done|].
  destruct (isCIDR (Dst (x_rule x))); intros [= <-]; eexists _, _, _, _; (split; [reflexivity|]); eauto.
Qed.

(** A permutation that serves a web rule: any transport that left the tree alone,
    the upstream block and the application. *)
Lemma web_perm_ok r x cl n follows dfp cfg0 cfg' :
  allowed r -> is_web r -> cl_name cl = n -> web_target (x_match x) r (if isCIDR (Dst r) then ["*"] else httpDomains (Dst r) (x_port x) (x_bareHostPort x)) cl ->
  x_rule x = r -> clusters (x_cfg x) = clusters cfg0 -> (forall cls, tree_ok cls (listeners cfg0) -> tree_ok cls (listeners (x_cfg x))) ->
  (let? x' := run_httpApp dfp (set_upstream x cl n follows) in commit x') = Ok cfg' ->
  tree_ok (clusters cfg0) (listeners cfg0) -> tree_ok (clusters cfg') (listeners cfg').
Proof.
  intros Ha Hw Hn Ht Hr Hc Htree (x' & Hx & Hcm)%result_bind_ok H0. apply httpApp_spec in Hx as (fs & alt & nd & rest & -> & Hrest). cbn in Hcm.
  apply commit_ok in Hcm as (Hs & Hcl & Hfin). cbn in Hs, Hcl, Hfin. rewrite Hr, Hc in *. apply Hfin.
  - apply Htree. by eapply tree_ok_mono.
  - right. split; [done|]. eapply web_vhosts_ok; [exact Ha|exact Hw| |exact Ht|].
    + apply Forall_app in Hcl as [_ Hcl]. rewrite Forall_singleton in Hcl. by rewrite Hn in Hcl.
    + destruct Hrest as [->|(b & ->)]; [constructor|]. constructor; [apply deny_vhost_ok|constructor].
Qed.

Lemma layers_commit c x : (let? x' := run_layers c x in commit x') = match c with [] => commit x | l :: c => let? x1 := run_layer l x in let? x' := run_layers c x1 in commit x' end.
Proof. destruct c as [|l c]; [done|]. cbn. by destruct (run_layer l x). Qed.
(** The first layer of a permutation. *)
Lemma first_layer l c x cfg' : (let? x' := run_layers (l :: c) x in commit x') = Ok cfg' -> exists x1, run_layer l x = Ok x1 /\ (let? x' := run_layers c x1 in commit x') = Ok cfg'.
Proof. rewrite layers_commit. apply result_bind_ok. Qed.

Lemma web_layers_ok r x up cl n follows dfp cfg0 cfg' :
  (let? x' := run_layers [up; httpAppLayer dfp] x in commit x') = Ok cfg' -> run_layer up x = Ok (set_upstream x cl n follows) ->
  allowed r -> is_web r -> cl_name cl = n -> web_target (x_match x) r (if isCIDR (Dst r) then ["*"] else httpDomains (Dst r) (x_port x) (x_bareHostPort x)) cl ->
  x_rule x = r -> clusters (x_cfg x) = clusters cfg0 -> (forall cls, tree_ok cls (listeners cfg0) -> tree_ok cls (listeners (x_cfg x))) ->
  tree_ok (clusters cfg0) (listeners cfg0) -> tree_ok (clusters cfg') (listeners cfg').
Proof.
  intros (x1 & H1 & H)%first_layer Hup. rewrite Hup in H1. injection H1 as <-. apply first_layer in H as (x2 & H2 & H). rewrite layers_commit in H.
  intros. eapply web_perm_ok; eauto. change (run_layer (httpAppLayer dfp)) with (run_httpApp dfp) in H2. by rewrite H2.
Qed.

(** An opaque permutation that forwards, and one that only logs the denial. *)
Lemma tcp_layers_ok r x up cl n l7 port cfg0 cfg' :
  (let? x' := run_layers [up; tcpProxyTerminalLayer l7] x in commit x') = Ok cfg' -> run_layer up x = Ok (set_upstream x cl n false) ->
  allowed r -> is_tcp_class (family r) = true -> port ∈ dedicatedPorts r tcpDefaultPort -> cl_name cl = n -> x_filters x = [] ->
  (isCIDR (Dst r) = false /\ pinned_to cl (normalizeDomain (Dst r)) port) \/ (isCIDR (Dst r) = true /\ cl_discovery cl = OriginalDst /\ gated (x_match x) r port) ->
  clusters (x_cfg x) = clusters cfg0 -> (forall cls, tree_ok cls (listeners cfg0) -> tree_ok cls (listeners (x_cfg x))) ->
  tree_ok (clusters cfg0) (listeners cfg0) -> tree_ok (clusters cfg') (listeners cfg').
Proof.
  intros (x1 & H1 & H)%first_layer Hup Ha Hf Hp Hn Hfs Hcl Hc Htree H0. rewrite Hup in H1. injection H1 as <-. apply first_layer in H as (x2 & H2 & H).
  rewrite layers_commit in H. cbn [run_layer] in H2. unfold run_tcpProxy in H2. destruct (String.eqb _ _); [done|]. injection H2 as <-. cbn in H. rewrite Hfs in H.
  apply commit_ok in H as (Hs & Hcls & Hfin). cbn in Hs, Hcls, Hfin. rewrite Hc in Hs. apply Hfin; [apply Htree; by eapply tree_ok_mono|]. right. right.
  exists r, port, cl. apply Forall_app in Hcls as [_ Hcls]. rewrite Forall_singleton in Hcls. rewrite Hn in Hcls. by split_and!.
Qed.
Lemma tcp_deny_ok x l7 cfg0 cfg' :
  (let? x' := run_layers [tcpDenyTerminalLayer l7] x in commit x') = Ok cfg' -> x_filters x = [] ->
  clusters (x_cfg x) = clusters cfg0 -> (forall cls, tree_ok cls (listeners cfg0) -> tree_ok cls (listeners (x_cfg x))) ->
  tree_ok (clusters cfg0) (listeners cfg0) -> tree_ok (clusters cfg') (listeners cfg').
Proof.
  intros (x1 & [= <-] & H)%first_layer Hfs Hc Htree H0. rewrite layers_commit in H. unfold run_tcpDeny in H. rewrite Hfs in H.
  apply commit_ok in H as (Hs & Hcls & Hfin). cbn in Hs, Hcls, Hfin. rewrite Hc in Hs. apply Hfin; [apply Htree; by eapply tree_ok_mono|]. right. left.
  apply Forall_app in Hcls as [_ Hcls]. rewrite Forall_singleton in Hcls. by split; [|exists buildDenyCluster].
Qed.

(** A datagram permutation: the listener's proxy is set before its cluster is
    added, so the tree is judged with the clusters of the end. *)
Lemma udp_commit_ok x cfg0 cfg1 cfg' sp n log fs :
  SetListenerField cfg1 (x_listener x) (listener_filters (UdpProxy sp n log)) = Ok fs ->
  commit (set_terminal x fs [] (x_clusters x)) = Ok cfg' -> clusters cfg1 = clusters cfg0 -> (forall cls, tree_ok cls (listeners cfg0) -> tree_ok cls (listeners cfg1)) ->
  (forall cls, Forall (fun cl => cls !! cl_name cl = Some cl) (x_clusters x) -> udp_ok cls n log) ->
  tree_ok (clusters cfg0) (listeners cfg0) -> tree_ok (clusters cfg') (listeners cfg').
Proof.
  intros Hset Hcm Hc Htree Hudp H0. apply commit_ok in Hcm as (Hs & Hcls & Hfin). cbn in Hs, Hcls, Hfin.
  assert (clusters fs = clusters cfg1) as Hfs. { unfold SetListenerField in Hset. destruct (listeners cfg1 !! _); [|done]. by injection Hset as <-. }
  apply Hfin; [|by left]. eapply set_field_ok; [exact Hset| |by apply Hudp]. apply Htree. eapply tree_ok_mono; [|exact H0]. by rewrite <- Hc, <- Hfs.
Qed.
Lemma udp_layers_ok r x cfg0 cfg' :
  (let? x' := run_layers [udpPinnedUpstreamLayer; udpProxyTerminalLayer] x in commit x') = Ok cfg' -> x_rule x = r ->
  allowed r -> is_udp_class (family r) = true -> x_port x ∈ dedicatedPorts r udpDefaultPort -> x_filters x = [] -> x_clusters x = [] ->
  clusters (x_cfg x) = clusters cfg0 -> (forall cls, tree_ok cls (listeners cfg0) -> tree_ok cls (listeners (x_cfg x))) ->
  tree_ok (clusters cfg0) (listeners cfg0) -> tree_ok (clusters cfg') (listeners cfg').
Proof.
  intros (x1 & [= <-] & H)%first_layer Hr Ha Hf Hp Hfs Hxc Hc Htree H0. apply first_layer in H as (x2 & H2 & H). rewrite layers_commit in H.
  cbn [run_layer] in H2. unfold run_udpProxy in H2. destruct (String.eqb _ _); [done|]. apply result_bind_ok in H2 as (c & H2 & [= <-]). apply tree_ok_result in H2.
  match type of H with context [x_filters ?y] => change (x_filters y) with (x_filters x) in H end. rewrite Hfs in H. eapply udp_commit_ok; [exact H2|exact H|exact Hc|exact Htree| |exact H0].
  unfold run_udpPinnedUpstream. cbn [set_upstream x_clusters]. rewrite Hxc, Hr. intros cls Hcls. cbn [app] in Hcls. rewrite Forall_singleton in Hcls. right. eexists r, (x_port x), _.
  split_and!; [done|done|done|done|exact Hcls|apply pinned_pinned].
Qed.
Lemma udp_deny_ok x cfg0 cfg' :
  (let? x' := run_layers [udpDenyTerminalLayer] x in commit x') = Ok cfg' -> x_filters x = [] -> x_clusters x = [] ->
  clusters (x_cfg x) = clusters cfg0 -> (forall cls, tree_ok cls (listeners cfg0) -> tree_ok cls (listeners (x_cfg x))) ->
  tree_ok (clusters cfg0) (listeners cfg0) -> tree_ok (clusters cfg') (listeners cfg').
Proof.
  intros (x1 & H1 & H)%first_layer Hfs Hxc Hc Htree H0. rewrite layers_commit in H. cbn [run_layer] in H1. unfold run_udpDeny in H1.
  apply result_bind_ok in H1 as (c & H1 & [= <-]). apply tree_ok_result in H1. rewrite Hfs, Hxc in H. cbn [app] in H.
  eapply (udp_commit_ok (set_terminal x (x_cfg x) [] [buildDenyCluster])); [exact H1|exact H|exact Hc|exact Htree| |exact H0].
  cbn [set_terminal x_clusters]. intros cls Hcls. rewrite Forall_singleton in Hcls. left. by split; [|exists buildDenyCluster].
Qed.

(** Every shape. *)
Lemma http_web r : family r = "http" -> is_web r /\ web_port r = httpPort r /\ bare_port r = defaultHTTPPort.
Proof. intros H. unfold is_web, web_port, bare_port. rewrite H. auto. Qed.
Lemma https_web r : family r = "https" -> is_web r /\ web_port r = httpsPort r /\ bare_port r = defaultDestPort.
Proof. intros H. unfold is_web, web_port, bare_port. rewrite H. auto. Qed.
Lemma cidr_ip dst : isCIDR dst = true -> isIPOrCIDR dst = true.
Proof. unfold isCIDR, isIPOrCIDR. case_bool_decide; [done|]. by intros ->. Qed.

Lemma core_perm_ok r c ports als cfg ws cfg' :
  core r c -> served r -> (isDenyAction (Action r) = true -> isOpaqueProto (Proto r) = true) ->
  (let? x := run_layers c (start r ports als cfg ws) in commit x) = Ok cfg' -> tree_ok (clusters cfg) (listeners cfg) -> tree_ok (clusters cfg') (listeners cfg').
Proof.
  intros Hc Hsv Hdeny Hrun Ht.
  assert (is_web r -> allowed r) as Hal.
  { intros Hw. split; [done|]. destruct (isDenyAction (Action r)); [|done]. specialize (Hdeny eq_refl). unfold isOpaqueProto in Hdeny. unfold is_web, family in Hw.
    destruct Hw as [Hw|Hw]; by rewrite Hw in Hdeny. }
  destruct Hc as [Hf Hd|dfp Hf Hd|exact Hf Hd|tr exact dfp Hf Hd Htr|port Hf Hd Hp|e port Hf Hd Hp|e port Hf Hp].
  - apply first_layer in Hrun as (x1 & H1 & Hrun). apply prefixRange_spec in H1 as (c1 & -> & Hc1 & Ht1). destruct (http_web r Hf) as (Hw & Hwp & _).
    eapply (web_layers_ok r); [exact Hrun|reflexivity|by apply Hal|done|reflexivity| |reflexivity|exact Hc1|exact Ht1|exact Ht].
    apply web_range; [done|done|]. rewrite Hwp. by eexists.
  - apply first_layer in Hrun as (x1 & [= <-] & Hrun). destruct (http_web r Hf) as (Hw & Hwp & Hbp). destruct (isWildcardDomain (Dst r)) eqn:Ew;
      (eapply (web_layers_ok r); [exact Hrun|reflexivity|by apply Hal|done|reflexivity| |reflexivity|apply ensure_clusters|intros cls; apply ensure_ok|exact Ht]); rewrite Hd.
    + eapply web_wildcard; [done|reflexivity|done|done|]. by rewrite Hwp, Hbp.
    + apply web_pinned; [done| |done|by rewrite Hwp, Hbp]. rewrite Hwp. apply pinned_pinned.
  - apply first_layer in Hrun as (x1 & H1 & Hrun). apply tlsSNI_spec in H1 as (c1 & h3 & -> & Hc1 & Ht1). destruct (https_web r Hf) as (Hw & Hwp & _).
    eapply (web_layers_ok r); [exact Hrun|reflexivity|by apply Hal|done|reflexivity| |reflexivity|exact Hc1|exact Ht1|exact Ht].
    apply web_range; [done|done|]. rewrite Hwp. unfold downstreamCryptoMatch. cbn [start x_rule set_transport x_match]. rewrite (cidr_ip _ Hd). by eexists.
  - apply first_layer in Hrun as (x1 & H1 & Hrun). destruct (https_web r Hf) as (Hw & Hwp & Hbp).
    assert (exists lis c1 m s codec h3, x1 = set_transport (start r ports als cfg ws) c1 lis m s (httpsPort r) defaultDestPort codec h3 true /\
      clusters c1 = clusters cfg /\ forall cls, tree_ok cls (listeners cfg) -> tree_ok cls (listeners c1)) as (lis & c1 & m & s & codec & h3 & -> & Hc1 & Ht1).
    { destruct Htr as [->| ->]; [apply tlsSNI_spec in H1 as (c1 & h3 & -> & ? & ?)|apply quicSNI_spec in H1 as (c1 & -> & ? & ?)]; by eexists _, c1, _, _, _, _. }
    destruct (isWildcardDomain (Dst r)) eqn:Ew;
      (eapply (web_layers_ok r); [exact Hrun|reflexivity|by apply Hal|done|reflexivity| |reflexivity|exact Hc1|exact Ht1|exact Ht]); rewrite Hd.
    + eapply web_wildcard; [done|reflexivity|done| |by rewrite Hwp, Hbp]. cbn. rewrite Hf. by split.
    + apply web_pinned; [done| |done|by rewrite Hwp, Hbp]. rewrite Hwp. apply (pinned_pinned (tlsExactClusterName _ _)).
  - apply first_layer in Hrun as (x1 & H1 & Hrun). apply prefixRange_spec in H1 as (c1 & -> & Hc1 & Ht1). destruct (isDenyAction (Action r)) eqn:Ea.
    + eapply tcp_deny_ok; [exact Hrun|reflexivity|exact Hc1|exact Ht1|exact Ht].
    + eapply (tcp_layers_ok r); [exact Hrun|reflexivity|by split|done|exact Hp|reflexivity|reflexivity| |exact Hc1|exact Ht1|exact Ht].
      right. split_and!; [done|done|]. by eexists.
  - apply first_layer in Hrun as (x1 & [= <-] & Hrun). destruct (isDenyAction (Action r)) eqn:Ea.
    + eapply tcp_deny_ok; [exact Hrun|reflexivity|apply ensure_clusters|intros cls; apply ensure_ok|exact Ht].
    + eapply (tcp_layers_ok r); [exact Hrun|reflexivity|by split|done|exact Hp|reflexivity|reflexivity| |apply ensure_clusters|intros cls; apply ensure_ok|exact Ht].
      left. split; [done|]. apply pinned_pinned.
  - apply first_layer in Hrun as (x1 & [= <-] & Hrun). destruct (isDenyAction (Action r)) eqn:Ea.
    + eapply udp_deny_ok; [exact Hrun|reflexivity|reflexivity|apply ensure_clusters|intros cls; apply ensure_ok|exact Ht].
    + eapply udp_layers_ok; [exact Hrun|reflexivity|by split|done|exact Hp|reflexivity|reflexivity|apply ensure_clusters|intros cls; apply ensure_ok|exact Ht].
Qed.

Lemma run_perm_ok ports als gen p cfg cfg' :
  served (p_rule p) -> (isDenyAction (Action (p_rule p)) = true -> isOpaqueProto (Proto (p_rule p)) = true) -> p_layers p ∈ layersFor (p_rule p) gen ->
  run_perm ports als cfg p = Ok cfg' -> tree_ok (clusters cfg) (listeners cfg) -> tree_ok (clusters cfg') (listeners cfg').
Proof.
  intros Hs Hd (ws & c & El & Hc)%layersFor_core H. unfold run_perm in H. rewrite El, run_start in H. by eapply core_perm_ok.
Qed.
Lemma run_perms_ok ports als gen perms cfg cfg' :
  Forall (fun p => served (p_rule p) /\ (isDenyAction (Action (p_rule p)) = true -> isOpaqueProto (Proto (p_rule p)) = true) /\ p_layers p ∈ layersFor (p_rule p) gen) perms ->
  run_perms ports als perms cfg = Ok cfg' -> tree_ok (clusters cfg) (listeners cfg) -> tree_ok (clusters cfg') (listeners cfg').
Proof.
  intros Hall. revert cfg. induction Hall as [|p perms (Hs & Hd & Hl) _ IH]; intros cfg; cbn; [by intros [= <-]|].
  intros (c & H & Hrest)%result_bind_ok Ht. eapply IH; [done|]. by eapply run_perm_ok.
Qed.

(** ** The floor, the collector and the health check *)

Lemma floor_ok als cfg cfg' : installEgressDenyFloor cfg als = Ok cfg' -> tree_ok (clusters cfg) (listeners cfg) -> tree_ok (clusters cfg') (listeners cfg').
Proof.
  unfold installEgressDenyFloor. destruct (HasListener cfg egressListenerName); [|by intros [= <-]]. cbn [negb].
  intros (c & H%tree_ok_result & H2%tree_ok_result)%result_bind_ok Ht. apply AddCluster_spec in H as (El & Es & Ec). unfold SetUnmatchedDeny in H2.
  destruct (listeners c !! _) as [l|] eqn:Hl; [|done]. injection H2 as <-. cbn. rewrite El in *. apply (tree_ok_mono _ _ _ Es) in Ht.
  apply map_Forall_insert_2; [|done]. destruct (Ht _ _ Hl) as [H1 H2 H3]. split; cbn; [done| |done]. intros ch [= <-]. split; [done|]. left. split; [done|]. by exists buildDenyCluster.
Qed.
Lemma otel_ok als cfg cfg' : installOtelALSCluster cfg als = Ok cfg' -> tree_ok (clusters cfg) (listeners cfg) -> tree_ok (clusters cfg') (listeners cfg').
Proof.
  unfold installOtelALSCluster. destruct (als_MTLS als); [|by intros [= <-]]. cbn [negb]. intros H%tree_ok_result Ht. apply AddCluster_spec in H as (-> & Es & _).
  by eapply tree_ok_mono.
Qed.
Lemma health_ok ports cfg cfg' : installHealthListener cfg ports = Ok cfg' -> tree_ok (clusters cfg) (listeners cfg) -> tree_ok (clusters cfg') (listeners cfg').
Proof.
  unfold installHealthListener. destruct (_ <=? 0); [by intros [= <-]|]. intros H%tree_ok_result Ht. unfold AddListener in H. destruct (String.eqb _ _); [done|].
  destruct (listeners cfg !! _).
  - destruct (_ && _); [|done]. by injection H as <-.
  - injection H as <-. apply map_Forall_insert_2; [|done]. by split.
Qed.

End Origins.

(** ** The whole generator *)

Lemma claim_perms_elem perms p : p ∈ claim_perms perms -> p ∈ perms.
Proof.
  unfold claim_perms. assert (forall acc, p ∈ (foldl (fun '(seen, out) p => if bool_decide (p_key p ∈ seen) then (seen, out) else ({[p_key p]} ∪ seen, out ++ [p]))
    (acc : gset string * list permutation) perms).2 -> p ∈ acc.2 \/ p ∈ perms) as H; [|intros Hp; by destruct (H _ Hp) as [?%elem_of_nil|?]].
  induction perms as [|q perms IH]; intros [seen out]; cbn [foldl]; [by left|]. intros [H|H]%IH; [|right; by right]. case_bool_decide; cbn in *; [by left|].
  apply elem_of_app in H as [?| ->%list_elem_of_singleton]; [by left|right; by left].
Qed.
Lemma GeneratePlan_perms rules ports perms : GeneratePlan rules ports = Ok perms -> perms = claim_perms (derive rules ports).1.
Proof. unfold GeneratePlan, opt_check. repeat case_match; try done. by intros [= <-]. Qed.

(** The rules a generation works with, after ws and wss have become http and
    https. *)
Definition origin (rules : list EgressRule) (r : EgressRule) : Prop := exists r0, r0 ∈ rules /\ builds_stack r0 = true /\ r = promoted_rule r0.

Lemma origin_deny rules r : origin rules r -> isDenyAction (Action r) = true -> isOpaqueProto (Proto r) = true.
Proof.
  intros (r0 & _ & Hb & ->). destruct (promoted_fields r0) as (_ & _ & ->). intros Hd. unfold builds_stack in Hb. rewrite Hd in Hb.
  apply negb_true_iff, negb_false_iff in Hb. unfold promoted_rule. by rewrite (opaque_not_ws r0 Hb).
Qed.

Lemma generated_ok validate rules ports als cfg :
  GenerateEnvoyConfig validate rules ports als = Ok cfg -> tree_ok (origin rules) (clusters cfg) (listeners cfg).
Proof.
  unfold GenerateEnvoyConfig. destruct (GeneratePlan rules ports) as [perms|] eqn:Ep; [|done]. apply GeneratePlan_perms in Ep as ->.
  intros (c1 & H1 & H)%result_bind_ok. apply result_bind_ok in H as (c2 & H2 & H). apply result_bind_ok in H as (c3 & H3 & H). apply result_bind_ok in H as (c4 & H4 & H).
  destruct (_ && _); [done|]. destruct (validate c4); [|done]. injection H as <-.
  eapply health_ok, otel_ok, floor_ok, run_perms_ok; [exact H4|exact H3|exact H2| |exact H1|apply map_Forall_empty].
  apply Forall_forall. intros p (r0 & Hr & Hb & Hp & Hl)%claim_perms_elem%derive_sound. assert (origin rules (p_rule p)) as Ho by (by exists r0).
  split; [done|]. split; [by eapply origin_deny|exact Hl].
Qed.

End EnvoyInv.
