(* ===== verification/HostProxy.v ===== *)
(** * The host proxy's egress check

    internal/hostproxy/egress_check.go: the second enforcement point, which
    decides from the same rules file whether the host browser may open a URL
    for an agent, and how its verdict compares with Envoy's routes
    ([HttpRoutes]).  URLs come parsed as net/url parses them and the rules file
    as YAML decodes it; the regexp engine is a parameter. *)

From S2P Require Import Prelude GoStrings GoPath GoNet EgressRule Rules HttpRoutes.
Import Go GoPath Rule Rules HttpRoutes.

Module HostProxy.

(** ** The local mirrors of the rule types *)

Record pathRule := mkHPath { hp_Path : string; hp_PathAction : string }.
Record egressRule := mkHRule {
  hp_Dst : string; hp_Proto : string; hp_Port : string; hp_Action : string;
  hp_PathRules : list pathRule; hp_PathDefault : string;
}.

(** What the mirror keeps of a stored rule. *)
Definition mirror_path (pr : PathRule) : pathRule := mkHPath (Path pr) (PathAction pr).
Definition mirror (r : EgressRule) : egressRule :=
  mkHRule (Dst r) (Proto r) (Port r) (Action r) (mirror_path <$> PathRules r) (PathDefault r).

(** ** Ports *)

Definition hostParsePortNumber (s : string) : option Z :=
  n ← Atoi (TrimSpace s); if (n <? 1) || (65535 <? n) then None else Some n.

Definition parsePortSpec (spec : string) : option (Z * Z) :=
  let spec := TrimSpace spec in
  if bool_decide (spec = "") then None
  else
    match Cut "-" spec with
    | Some (lpart, rpart) =>
        l ← hostParsePortNumber lpart;
        h ← hostParsePortNumber rpart;
        if h <? l then None else Some (l, h)
    | None => n ← hostParsePortNumber spec; Some (n, n)
    end.

Definition portSpecMatches (spec : string) (p : Z) : bool :=
  match parsePortSpec spec with Some (lo, hi) => (lo <=? p) && (p <=? hi) | None => false end.

(** ** Normalization and destinations *)

Definition set_hp (r : egressRule) (proto port action : string) : egressRule :=
  mkHRule (hp_Dst r) proto port action (hp_PathRules r) (hp_PathDefault r).

Definition normalizeEgressRule (r : egressRule) : egressRule :=
  let proto := if EqualFold (hp_Proto r) "tls" then "https" else hp_Proto r in
  let proto := if String.eqb proto "" then "https" else proto in
  let action := if String.eqb (hp_Action r) "" then "allow" else hp_Action r in
  let port :=
    if String.eqb (hp_Port r) "" then
      let p := ToLower proto in
      if String.eqb p "https" then "443" else if String.eqb p "http" then "80" else if String.eqb p "ssh" then "22" else ""
    else hp_Port r in
  set_hp r proto port action.

Inductive matchKind := matchNone | matchWildcard | matchExact.

#[global] Instance matchKind_eq_dec : EqDecision matchKind.
Proof. solve_decision. Defined.

Definition domainMatchType (dst host : string) : matchKind :=
  let dst := ToLower (TrimSuffix dst ".") in
  let host := ToLower (TrimSuffix host ".") in
  match strip_prefix "." dst with
  | None => if String.eqb dst host then matchExact else matchNone
  | Some bare => if HasSuffix host dst then matchWildcard else if String.eqb host bare then matchWildcard else matchNone
  end.

Definition dstMatchType (dst host : string) : matchKind :=
  if Contains dst "/" then
    match GoNet.ParsePrefix dst, GoNet.ParseAddr host with
    | Some p, Some ip => if GoNet.Contains p ip then matchExact else matchNone
    | _, _ => matchNone
    end
  else
    match GoNet.ParseAddr dst with
    | Some dstIP => if bool_decide (GoNet.ParseAddr host = Some dstIP) then matchExact else matchNone
    | None => domainMatchType dst host
    end.

(** ** Paths *)

Definition endsInDirectory (p : string) : bool := HasSuffix p "/" || HasSuffix p "/." || HasSuffix p "/..".

Definition backslash : ascii := ascii_of_N 92.

Definition canonicalizePath (p : string) : string :=
  if String.eqb p "" then "/"
  else
    let p := ReplaceChar backslash "/" p in
    let cleaned := Clean p in
    if endsInDirectory p && negb (HasSuffix cleaned "/") then cleaned +:+ "/" else cleaned.

(** ** Path rules *)

Section Regexp.
(** [regexp.Compile] succeeds, and [MatchString] of the compiled pattern. *)
Variable compiles : string -> bool.
Variable match_string : string -> string -> bool.

(** The anchored pattern of a marked path. *)
Definition anchored (rx : string) : string := "^(?:" +:+ TrimPrefix rx "^" +:+ ")$".

(** [None]: a literal; [Some None]: does not compile. *)
Definition compilePathRegex (rulePath : string) : option (option string) :=
  rx ← strip_prefix regexPathMarker rulePath;
  Some (if compiles (anchored rx) then Some (anchored rx) else None).

Definition pathRuleMatches (rulePath urlPath : string) : bool :=
  match compilePathRegex rulePath with
  | None => HasPrefix urlPath rulePath
  | Some None => false
  | Some (Some re) => match_string re urlPath
  end.

Definition effectivePathDefault (rules : list pathRule) (pathDefault : string) : string :=
  if negb (String.eqb pathDefault "") then pathDefault
  else if existsb (fun pr => EqualFold (hp_PathAction pr) "allow") rules then "deny" else "allow".

Definition path_step (urlPath : string) (st : Z * string) (pr : pathRule) : Z * string :=
  let '(bestLen, action) := st in
  if String.eqb (hp_Path pr) "" then st
  else if pathRuleMatches (hp_Path pr) urlPath && (bestLen <? Z.of_nat (String.length (hp_Path pr)))
  then (Z.of_nat (String.length (hp_Path pr)), hp_PathAction pr) else st.

Definition checkPathRules (rules : list pathRule) (pathDefault urlPath : string) : bool :=
  let '(_, action) := foldl (path_step urlPath) (-1, "") rules in
  let action := if String.eqb action "" then effectivePathDefault rules pathDefault else action in
  EqualFold action "allow".

(** Whether a rule lets the path through. *)
Definition evaluateRule (r : egressRule) (path : string) : bool :=
  if negb (EqualFold (hp_Action r) "allow") then false
  else match hp_PathRules r with [] => true | prs => checkPathRules prs (hp_PathDefault r) path end.

(** ** Rules *)

Record tiers := mkTiers { exactAllow : option egressRule; exactDeny : bool; wildcardAllow : option egressRule; wildcardDeny : bool }.

Definition or_first (o : option egressRule) (r : egressRule) : option egressRule := match o with Some x => Some x | None => Some r end.

Definition match_step (host proto : string) (port : Z) (t : tiers) (r : egressRule) : tiers :=
  let r := normalizeEgressRule r in
  if negb (EqualFold (hp_Proto r) proto) || negb (portSpecMatches (hp_Port r) port) then t
  else
    match dstMatchType (hp_Dst r) host with
    | matchExact =>
        if EqualFold (hp_Action r) "allow"
        then mkTiers (or_first (exactAllow t) r) (exactDeny t) (wildcardAllow t) (wildcardDeny t)
        else mkTiers (exactAllow t) true (wildcardAllow t) (wildcardDeny t)
    | matchWildcard =>
        if EqualFold (hp_Action r) "allow"
        then mkTiers (exactAllow t) (exactDeny t) (or_first (wildcardAllow t) r) (wildcardDeny t)
        else mkTiers (exactAllow t) (exactDeny t) (wildcardAllow t) true
    | matchNone => t
    end.

Definition matchRules (rules : list egressRule) (host proto : string) (port : Z) (path : string) : bool :=
  let t := foldl (match_step host proto port) (mkTiers None false None false) rules in
  if exactDeny t then false
  else
    match exactAllow t with
    | Some r => evaluateRule r path
    | None =>
        if wildcardDeny t then false
        else match wildcardAllow t with Some r => evaluateRule r path | None => false end
    end.

(** ** The URL check *)

(** A URL as [url.Parse] returns it. *)
Record URL := mkURL { u_Scheme : string; u_hasUser : bool; u_Opaque : string; u_Hostname : string; u_Port : string; u_Path : string }.

Inductive check_error :=
  | InvalidURL | UnsupportedScheme | UserInfo | OpaqueURL | NoHost | InvalidPort | RulesInvalid | Denied.

Definition schemeToProto (scheme : string) : option (string * Z) :=
  let s := ToLower scheme in
  if String.eqb s "https" then Some ("https", 443) else if String.eqb s "http" then Some ("http", 80) else None.

(** [file] is the decoded rules file; [None] when it cannot be read or
    decoded. *)
Definition readEgressRules (file : option (list egressRule)) : option (list egressRule) :=
  rules ← file;
  if forallb (fun r => forallb (fun pr => bool_decide (compilePathRegex (hp_Path pr) <> Some None)) (hp_PathRules r)) rules
  then Some rules else None.

Definition CheckURLAgainstEgressRules (target : option URL) (file : option (list egressRule)) : result check_error unit :=
  match target with
  | None => Err InvalidURL
  | Some u =>
      match schemeToProto (u_Scheme u) with
      | None => Err UnsupportedScheme
      | Some (proto, defaultPort) =>
          if u_hasUser u then Err UserInfo
          else if negb (String.eqb (u_Opaque u) "") then Err OpaqueURL
          else if String.eqb (u_Hostname u) "" then Err NoHost
          else
            match (if String.eqb (u_Port u) "" then Some defaultPort else Atoi (u_Port u)) with
            | None => Err InvalidPort
            | Some port =>
                match readEgressRules file with
                | None => Err RulesInvalid
                | Some rules =>
                    if matchRules rules (u_Hostname u) proto port (canonicalizePath (u_Path u)) then Ok tt else Err Denied
                end
            end
      end
  end.

(** ** matchRules *)

(** The rules that apply to a request, by how they match the host. *)
Definition hits (rules : list egressRule) (host proto : string) (port : Z) (k : matchKind) : list egressRule :=
  filter (fun r => (EqualFold (hp_Proto r) proto && portSpecMatches (hp_Port r) port) = true /\ dstMatchType (hp_Dst r) host = k)
    (normalizeEgressRule <$> rules).

Definition denies (r : egressRule) : bool := negb (EqualFold (hp_Action r) "allow").

(** The verdict of one tier: none when no rule of it applies, deny when one of
    them denies, else what the first says of the path. *)
Definition verdict (tier : list egressRule) (path : string) : option bool :=
  match tier with
  | [] => None
  | r :: _ => Some (if existsb denies tier then false else evaluateRule r path)
  end.

Lemma hits_snoc rules r host proto port k :
  hits (rules ++ [r]) host proto port k =
  hits rules host proto port k ++
  (let r := normalizeEgressRule r in
   if EqualFold (hp_Proto r) proto && portSpecMatches (hp_Port r) port && bool_decide (dstMatchType (hp_Dst r) host = k) then [r] else []).
Proof.
  unfold hits. rewrite fmap_app, filter_app. f_equal. cbn zeta. rewrite fmap_cons, fmap_nil, filter_cons, filter_nil.
  destruct (EqualFold _ _ && portSpecMatches _ _); cbn [andb].
  - case_bool_decide; [by rewrite decide_True|by rewrite decide_False by naive_solver].
  - by rewrite decide_False by naive_solver.
Qed.

(** The first rule of a tier that allows. *)
Definition first_allow (tier : list egressRule) : option egressRule := head (filter (fun r => denies r = false) tier).

Lemma first_allow_snoc tier r :
  first_allow (tier ++ [r]) = if denies r then first_allow tier else or_first (first_allow tier) r.
Proof.
  unfold first_allow. rewrite filter_app, filter_cons, filter_nil. destruct (denies r).
  - by rewrite decide_False, app_nil_r by done.
  - rewrite decide_True by done. by destruct (filter _ tier).
Qed.

Lemma first_allow_none tier : existsb denies tier = false -> first_allow tier = head tier.
Proof.
  unfold first_allow. destruct tier as [|r tier]; [done|]. cbn [existsb]. intros [Hr _]%orb_false_iff.
  by rewrite filter_cons, decide_True.
Qed.

(** What the loop has collected. *)
Lemma match_fold rules host proto port :
  let tier := hits rules host proto port in
  foldl (match_step host proto port) (mkTiers None false None false) rules =
  mkTiers (first_allow (tier matchExact)) (existsb denies (tier matchExact))
    (first_allow (tier matchWildcard)) (existsb denies (tier matchWildcard)).
Proof.
  cbn zeta. induction rules as [|r rules IH] using rev_ind; [done|]. rewrite foldl_app, IH. cbn [foldl]. unfold match_step.
  rewrite !hits_snoc. cbn zeta. set (n := normalizeEgressRule r).
  destruct (EqualFold (hp_Proto n) proto && portSpecMatches (hp_Port n) port) eqn:Hp.
  - apply andb_true_iff in Hp as [-> ->]. cbn [negb orb andb].
    assert (Hd : EqualFold (hp_Action n) "allow" = negb (denies n)) by (unfold denies; by rewrite negb_involutive).
    rewrite Hd. destruct (dstMatchType (hp_Dst n) host); simpl; rewrite ?app_nil_r, ?first_allow_snoc, ?existsb_app;
      cbn [existsb]; destruct (denies n); cbn [negb orb]; by rewrite ?orb_false_r, ?orb_true_r.
  - rewrite <- negb_andb, Hp. cbn [negb andb]. by rewrite !app_nil_r.
Qed.

(** Which rules decide a request.  Only rules of the request's protocol
    whose ports include the request's count.  Those that name the host exactly
    (or its address or range) decide before wildcards, whatever their order;
    within the deciding tier one deny denies, and otherwise the first rule's
    path rules decide; a host no rule matches is denied. *)
Theorem matchRules_spec (rules : list egressRule) (host proto : string) (port : Z) (path : string) :
  let tier := hits rules host proto port in
  matchRules rules host proto port path =
  match verdict (tier matchExact) path with
  | Some v => v
  | None => default false (verdict (tier matchWildcard) path)
  end.
Proof.
  cbn zeta. unfold matchRules. rewrite match_fold. cbn [exactDeny exactAllow wildcardDeny wildcardAllow].
  generalize (hits rules host proto port matchExact), (hits rules host proto port matchWildcard). intros e w.
  assert (Ht : forall t (other : bool), (if existsb denies t then false else
      match first_allow t with Some r => evaluateRule r path | None => other end) =
      match verdict t path with Some v => v | None => other end).
  { intros t other. unfold verdict. destruct (existsb denies t) eqn:Hd; [by destruct t|].
    rewrite (first_allow_none t Hd). by destruct t. }
  rewrite Ht. destruct (verdict e path); [done|]. rewrite Ht. by destruct (verdict w path).
Qed.

(** ** Path rules and Envoy's routes *)

Definition pick_state (st : Z * string) (o : option PathRule) : Z * string :=
  match o with
  | Some pr => if st.1 <? Z.of_nat (String.length (Path pr)) then (Z.of_nat (String.length (Path pr)), PathAction pr) else st
  | None => st
  end.

(** The loop keeps the first of the longest matches. *)
Lemma path_fold urlPath l st :
  Forall (fun pr => Path pr <> "") l ->
  foldl (path_step urlPath) st (mirror_path <$> l) = pick_state st (pick (fun pr => pathRuleMatches (Path pr) urlPath) l).
Proof.
  intros Hne. revert st. induction Hne as [|pr l Hp _ IH]; intros st; [done|]. rewrite fmap_cons. cbn [foldl pick foldr].
  fold (pick (fun pr => pathRuleMatches (Path pr) urlPath) l). rewrite IH. unfold path_step. destruct st as [b a].
  cbn [hp_Path hp_PathAction mirror_path]. rewrite (proj2 (String.eqb_neq _ _) Hp).
  destruct (pathRuleMatches (Path pr) urlPath); cbn [andb]; [|done].
  destruct (pick _ l) as [best|]; cbn [pick_state fst]; [|by destruct (b <? _)].
  destruct (Z.ltb_spec b (Z.of_nat (String.length (Path pr)))), (Nat.leb_spec (String.length (Path best)) (String.length (Path pr)));
    cbn [pick_state fst]; repeat (case_match; bool_to_prop); try done; lia.
Qed.

Lemma pick_elem P l pr : pick P l = Some pr -> pr ∈ l /\ P pr = true.
Proof.
  revert pr. induction l as [|x l IH]; intros pr; [done|]. cbn [pick foldr]. fold (pick P l).
  destruct (P x) eqn:HP; [|intros [? ?]%IH; split; [by right|done]].
  destruct (pick P l) as [best|]; [|intros [= <-]; split; [by left|done]].
  destruct (_ <=? _)%nat; intros [= <-]; [split; [by left|done]|].
  destruct (IH best eq_refl). split; [by right|done].
Qed.

Lemma head_filter_fmap {A B} (f : A -> B) (P : B -> bool) l :
  head (filter (fun b => P b = true) (f <$> l)) = f <$> head (filter (fun a => P (f a) = true) l).
Proof.
  induction l as [|x l IH]; [done|]. rewrite fmap_cons, !filter_cons. destruct (P (f x)); [by rewrite !decide_True|by rewrite !decide_False].
Qed.

Lemma filter_ext_in {A} (P Q : A -> bool) (l : list A) :
  (forall x, x ∈ l -> P x = Q x) -> filter (fun x => P x = true) l = filter (fun x => Q x = true) l.
Proof.
  induction l as [|x l IH]; intros Hx; [done|]. rewrite !filter_cons, (Hx x (list_elem_of_here _ _)), IH; [done|].
  intros y Hy. apply Hx. by right.
Qed.

Lemma head_filter_app {A} (P : A -> bool) (l : list A) x :
  P x = true -> head (filter (fun b => P b = true) (l ++ [x])) = Some (default x (head (filter (fun b => P b = true) l))).
Proof.
  intros Hx. rewrite filter_app, filter_cons, decide_True by done. by destruct (filter _ l).
Qed.

(** Envoy, as its documentation describes the routes of a virtual host: the
    first route that matches decides; a prefix matches the start of the path, a
    safe regex the whole of it, and a method matcher the request's method. *)
Section Envoy.
Variable full_match : string -> string -> bool.
Variable envoy : list httpRoute -> string -> string -> option routeAction.

Definition route_matches (method path : string) (rt : httpRoute) : bool :=
  match hr_path rt with Prefix p => HasPrefix path p | SafeRegex rx => full_match rx path end &&
  match hr_method rt with AnyMethod => true | ExactMethod m => String.eqb method m | RegexMethod rx => full_match rx method end.

Hypothesis envoy_first_match : forall routes method path,
  envoy routes method path = hr_action <$> head (filter (fun rt => route_matches method path rt = true) routes).

(** The regexp of a marked path compiles, and anchored it means a full match. *)
Definition regexp_agrees (urlPath : string) (pr : PathRule) : Prop :=
  forall rx, strip_prefix regexPathMarker (Path pr) = Some rx ->
  compiles (anchored rx) = true /\ match_string (anchored rx) urlPath = full_match rx urlPath.

(** A rule in the common language of both enforcement points: it allows, its
    path rules carry a path and an explicit action and no methods, and a
    default of deny comes with path rules. *)
Record common_rule (r : EgressRule) : Prop := {
  cr_allow : EqualFold (Action r) "allow" = true;
  cr_paths : Forall (fun pr => Path pr <> "") (PathRules r);
  cr_actions : Forall (fun pr => PathAction pr <> "") (PathRules r);
  cr_methods : Forall (fun pr => Methods pr = []) (PathRules r);
  cr_default : PathDefault r = "" \/ EqualFold (PathDefault r) "allow" = true \/
    (EqualFold (PathDefault r) "deny" = true /\ PathRules r <> []);
}.

Lemma path_route_matches cluster ws method urlPath pr :
  Methods pr = [] -> regexp_agrees urlPath pr ->
  route_matches method urlPath (path_route cluster ws pr) = pathRuleMatches (Path pr) urlPath.
Proof.
  intros Hm Hre. unfold path_route, httpAllowRoute, httpDenyRoute, route_matches, pathRuleMatches, compilePathRegex, pathSpecifier.
  rewrite Hm. destruct (EqualFold (PathAction pr) "allow"); cbn [hr_path hr_method methodHeaderMatch]; rewrite andb_true_r;
    (destruct (strip_prefix regexPathMarker (Path pr)) as [rx|] eqn:Hs; cbn; [|done]);
    destruct (Hre rx Hs) as [-> Hmatch]; by rewrite Hmatch.
Qed.

Lemma default_agrees r :
  common_rule r -> EqualFold (EffectivePathDefault r) "allow" = negb (EqualFold (EffectivePathDefault r) "deny").
Proof.
  intros [_ _ _ _ Hd]. unfold EffectivePathDefault, EqualFold in *. destruct (String.eqb_spec (PathDefault r) "") as [He|Hne]; cbn [negb].
  - by destruct (existsb _ _).
  - destruct Hd as [?|[Ha%String.eqb_eq|[Ha%String.eqb_eq _]]]; [done|by rewrite Ha|by rewrite Ha].
Qed.

Lemma mirror_default r : effectivePathDefault (mirror_path <$> PathRules r) (PathDefault r) = EffectivePathDefault r.
Proof.
  unfold effectivePathDefault, EffectivePathDefault. destruct (negb _); [done|].
  assert (Hx : existsb (fun pr => EqualFold (hp_PathAction pr) "allow") (mirror_path <$> PathRules r) =
    existsb (fun pr => EqualFold (PathAction pr) "allow") (PathRules r)) by (induction (PathRules r) as [|x l IH]; cbn; [done|by rewrite IH]).
  by rewrite Hx.
Qed.

Lemma default_route_matches method urlPath : HasPrefix urlPath "/" = true ->
  forall rt, hr_path rt = Prefix "/" -> hr_method rt = AnyMethod -> route_matches method urlPath rt = true.
Proof. intros Hp rt H1 H2. unfold route_matches. by rewrite H1, H2, Hp. Qed.

(** C25: On the rules both understand, the host proxy and Envoy give the same
    verdict for every path and method: the proxy's longest-match scan lets a
    path through exactly when the first matching route of Envoy's sorted routes
    forwards it. *)
Theorem evaluateRule_matches_envoy (r : EgressRule) (cluster method urlPath : string) (ws : bool)
    (Hrule : common_rule r) (Hre : Forall (regexp_agrees urlPath) (PathRules r)) (Hpath : HasPrefix urlPath "/" = true) :
  envoy (httpRoutes r cluster ws) method urlPath =
  Some (if evaluateRule (mirror r) urlPath then Forward cluster ws else DirectResponse403).
Proof.
  rewrite envoy_first_match. unfold httpRoutes. set (dflt := if EqualFold (EffectivePathDefault r) "deny" then _ else _).
  assert (Hdm : route_matches method urlPath dflt = true)
    by (unfold dflt; case_match; by apply default_route_matches).
  assert (Hda : hr_action dflt = if EqualFold (EffectivePathDefault r) "allow" then Forward cluster ws else DirectResponse403)
    by (rewrite (default_agrees r Hrule); unfold dflt; by case_match).
  destruct (PathRules r) as [|pr0 prs] eqn:Hprs.
  { rewrite filter_cons, decide_True by done. cbn [head fmap option_fmap option_map]. rewrite Hda. unfold evaluateRule.
    cbn [hp_Action mirror hp_PathRules]. rewrite (cr_allow r Hrule), Hprs. cbn [negb fmap list_fmap].
    assert (EqualFold (EffectivePathDefault r) "allow" = true) as ->; [|done]. unfold EffectivePathDefault. rewrite Hprs. cbn [existsb].
    destruct (String.eqb_spec (PathDefault r) "") as [|Hne]; [done|]. by destruct (cr_default r Hrule) as [|[Ha|[_ Hn]]]. }
  rewrite <- Hprs in *. rewrite (head_filter_app _ _ _ Hdm), head_filter_fmap.
  assert (Hf : filter (fun a => route_matches method urlPath (path_route cluster ws a) = true) (sort_paths (PathRules r)) =
    filter (fun a => pathRuleMatches (Path a) urlPath = true) (sort_paths (PathRules r))).
  { apply (filter_ext_in (fun a => route_matches method urlPath (path_route cluster ws a))). intros x Hx. rewrite (sort_paths_perm (PathRules r)) in Hx.
    pose proof (cr_methods r Hrule) as Hm. rewrite Forall_forall in Hm, Hre. rewrite path_route_matches; [done|by apply Hm|by apply Hre]. }
  rewrite Hf, sort_paths_first. unfold evaluateRule. cbn [hp_Action mirror hp_PathRules hp_PathDefault].
  rewrite (cr_allow r Hrule). cbn [negb].
  assert (Hc : (match mirror_path <$> PathRules r with [] => true | l => checkPathRules l (PathDefault r) urlPath end) =
    checkPathRules (mirror_path <$> PathRules r) (PathDefault r) urlPath) by (by rewrite Hprs).
  rewrite Hc. unfold checkPathRules. rewrite (path_fold urlPath _ _ (cr_paths r Hrule)), mirror_default.
  destruct (pick _ (PathRules r)) as [pr|] eqn:Hpick; cbn [pick_state fst default fmap option_fmap option_map]; [|by rewrite Hda].
  destruct (pick_elem _ _ _ Hpick) as [Hin _]. rewrite (proj2 (Z.ltb_lt _ _)) by lia.
  pose proof (cr_actions r Hrule) as Ha. rewrite Forall_forall in Ha. rewrite (proj2 (String.eqb_neq _ _) (Ha _ Hin)).
  unfold path_route. by destruct (EqualFold (PathAction pr) "allow").
Qed.

End Envoy.

(** A default of deny without path rules closes every path in Envoy and
    none at the host proxy, which looks at the default only when there are path
    rules. *)
Theorem path_default_deny_ignored (r : EgressRule) (cluster path : string) (ws : bool)
    (Ha : EqualFold (Action r) "allow" = true) (Hp : PathRules r = []) (Hd : EqualFold (PathDefault r) "deny" = true) :
  httpRoutes r cluster ws = [httpDenyRoute "/" []] /\ evaluateRule (mirror r) path = true.
Proof.
  split.
  - unfold httpRoutes, EffectivePathDefault. rewrite Hp. destruct (String.eqb_spec (PathDefault r) "") as [He|]; [by rewrite He in Hd|].
    cbn [negb]. by rewrite Hd.
  - unfold evaluateRule. cbn [hp_Action mirror hp_PathRules]. by rewrite Ha, Hp.
Qed.

End Regexp.

(** ** Ports agree with the firewall's *)

Lemma hostParsePortNumber_lockstep s :
  hostParsePortNumber s = match parsePortNumber (TrimSpace s) with Ok p => Some p | Err _ => None end.
Proof.
  unfold hostParsePortNumber, parsePortNumber. case_bool_decide as He; [by rewrite He|].
  destruct (Atoi (TrimSpace s)) as [n|]; cbn; [|done]. unfold maxPort. by destruct (_ || _).
Qed.

(** The proxy's port specs parse exactly as the firewall's do. *)
Theorem parsePortSpec_lockstep spec :
  parsePortSpec spec = match ParsePortSpec spec with Ok o => o | Err _ => None end.
Proof.
  unfold parsePortSpec, ParsePortSpec. case_bool_decide; [done|]. destruct (Cut "-" (TrimSpace spec)) as [[l h]|].
  - rewrite !hostParsePortNumber_lockstep. destruct (parsePortNumber (TrimSpace l)); cbn; [|done].
    destruct (parsePortNumber (TrimSpace h)); cbn; [|done]. by destruct (_ <? _).
  - rewrite hostParsePortNumber_lockstep, TrimSpace_idemp. by destruct (parsePortNumber _).
Qed.

(** ** Canonical paths *)

Abbreviation noslash := (free_of "/").

(** A segment of a canonical path. *)
Definition plain_segment (x : string) : Prop :=
  x <> "" /\ x <> "." /\ x <> ".." /\ all_chars noslash x = true /\ all_chars (fun c => negb (Ascii.eqb c backslash)) x = true.

Lemma clean_plain segs out :
  Forall (fun x => all_chars (fun c => negb (Ascii.eqb c backslash)) x = true /\ all_chars noslash x = true) segs ->
  Forall plain_segment out -> Forall plain_segment (foldl (clean_step true) out segs).
Proof.
  intros Hs. revert out. induction Hs as [|x segs [H1 H2] _ IH]; intros out Ho; [done|]. cbn [foldl]. apply IH. unfold clean_step.
  destruct (String.eqb_spec x ""); [done|]. destruct (String.eqb_spec x "."); [done|]. cbn [orb].
  destruct (String.eqb_spec x ".."); [|by constructor]. destruct Ho as [|top rest Ht Ho]; [constructor|].
  destruct (String.eqb_spec top "..") as [->|]; [|done]. by destruct Ht as (_ & _ & ? & _).
Qed.

(** Cleaning a list of plain segments keeps it. *)
Lemma clean_id segs out : Forall plain_segment segs -> foldl (clean_step true) out segs = rev segs ++ out.
Proof.
  intros Hs. revert out. induction Hs as [|x segs (H1 & H2 & H3 & _) _ IH]; intros out; [done|]. cbn [foldl].
  assert (clean_step true out x = x :: out) as ->.
  { unfold clean_step. by rewrite (proj2 (String.eqb_neq _ _) H1), (proj2 (String.eqb_neq _ _) H2), (proj2 (String.eqb_neq _ _) H3). }
  rewrite IH. cbn. by rewrite <- app_assoc.
Qed.

Lemma ReplaceChar_none c s : Ascii.eqb c "/" = false -> all_chars (fun d => negb (Ascii.eqb d c)) (ReplaceChar c "/" s) = true.
Proof.
  intros Hc. induction s as [|d s IH]; [done|]. cbn [ReplaceChar]. destruct (Ascii.eqb_spec c d) as [->|Hne].
  - rewrite all_chars_append. cbn [all_chars]. rewrite (Ascii.eqb_sym "/"), Hc. exact IH.
  - cbn [all_chars]. rewrite IH. destruct (Ascii.eqb_spec d c); [congruence|done].
Qed.

Lemma ReplaceChar_id c by_ s : all_chars (fun d => negb (Ascii.eqb d c)) s = true -> ReplaceChar c by_ s = s.
Proof.
  induction s as [|d s IH]; [done|]. cbn [all_chars ReplaceChar]. intros [Hd Hs]%andb_true_iff. rewrite Ascii.eqb_sym.
  apply negb_true_iff in Hd. by rewrite Hd, IH.
Qed.


(** The canonical path of some segments, with or without the slash of a
    directory. *)
Definition canonical_path (segs : list string) (dir : bool) : string := "/" +:+ Join segs "/" +:+ (if dir then "/" else "").

Definition no_backslash (c : ascii) : bool := negb (Ascii.eqb c backslash).

Lemma rooted_clean p : HasPrefix p "/" = true ->
  Clean p = "/" +:+ Join (rev (foldl (clean_step true) [] (Split "/" p))) "/".
Proof. intros Hp. unfold Clean. destruct (String.eqb_spec p "") as [->|]; [done|]. by rewrite Hp. Qed.

Lemma canonicalizePath_form p : HasPrefix p "/" = true ->
  exists segs dir, Forall plain_segment segs /\ (segs = [] -> dir = false) /\ canonicalizePath p = canonical_path segs dir.
Proof.
  intros Hp. unfold canonicalizePath. destruct (String.eqb_spec p "") as [->|_]; [done|].
  set (q := ReplaceChar backslash "/" p).
  assert (Hq : HasPrefix q "/" = true).
  { apply HasPrefix_spec in Hp as [t ->]. unfold q. apply HasPrefix_spec. by eexists. }
  rewrite (rooted_clean q Hq). set (segs := rev _). set (dir := endsInDirectory q && _).
  exists segs, dir. split_and!.
  - apply Forall_rev, clean_plain; [|constructor]. apply (Split_chars "/" no_backslash). by apply ReplaceChar_none.
  - intros Hs. unfold dir. rewrite Hs. cbn [Join]. by rewrite (andb_comm (endsInDirectory q)).
  - unfold canonical_path. destruct dir; [by rewrite <- append_assoc|by rewrite append_nil_r].
Qed.

Lemma canonical_split segs dir :
  segs <> [] -> Forall plain_segment segs -> Split "/" (canonical_path segs dir) = "" :: segs ++ (if dir then [""] else []).
Proof.
  intros Hne Hs. unfold canonical_path.
  etransitivity; [exact (Split_app "/" "" (Join segs "/" +:+ (if dir then "/" else "")))|]. cbn [Split app]. f_equal.
  assert (Hj : Split "/" (Join segs "/") = segs).
  { apply (Split_Join "/"); [done|]. eapply Forall_impl; [exact Hs|]. by intros x (_ & _ & _ & ? & _). }
  destruct dir; [|by rewrite append_nil_r, app_nil_r]. rewrite <- Hj at 2. rewrite <- (Split_app "/" _ ""). done.
Qed.

(** What follows the last slash. *)
Lemma suffix_last r x : all_chars noslash x = true -> HasSuffix r ("/" +:+ x) = true -> last (Split "/" r) = Some x.
Proof.
  intros Hx [t ->]%HasSuffix_spec. rewrite Split_app, (Split_free "/" x Hx). apply last_snoc.
Qed.

Lemma canonicalizePath_fixed segs dir :
  Forall plain_segment segs -> (segs = [] -> dir = false) -> canonicalizePath (canonical_path segs dir) = canonical_path segs dir.
Proof.
  intros Hs Hd. destruct (decide (segs = [])) as [->|Hne]; [by rewrite Hd|].
  assert (Hp : HasPrefix (canonical_path segs dir) "/" = true) by (apply HasPrefix_spec; by eexists).
  assert (Hrep : ReplaceChar backslash "/" (canonical_path segs dir) = canonical_path segs dir).
  { apply ReplaceChar_id. unfold canonical_path. rewrite !all_chars_append, Join_chars; [by destruct dir|done|].
    eapply Forall_impl; [exact Hs|]. by intros x (_ & _ & _ & _ & ?). }
  assert (Hc : Clean (canonical_path segs dir) = canonical_path segs false).
  { rewrite (rooted_clean _ Hp), (canonical_split segs dir Hne Hs). cbn [foldl]. rewrite foldl_app.
    change (clean_step true [] "") with (@nil string). rewrite (clean_id segs [] Hs), app_nil_r.
    unfold canonical_path. rewrite append_nil_r. do 2 f_equal. destruct dir; cbn; by rewrite List.rev_involutive. }
  unfold canonicalizePath. destruct (String.eqb_spec (canonical_path segs dir) "") as [He|_]; [by rewrite He in Hp|]. rewrite Hrep, Hc.
  destruct (exists_last Hne) as (init & lst & Hlast).
  assert (Hplain : plain_segment lst) by (rewrite Hlast in Hs; apply Forall_app in Hs as [_ Hl]; by apply Forall_cons in Hl as [? _]).
  assert (Hends : forall d, last (Split "/" (canonical_path segs d)) = Some (if d then "" else lst)).
  { intros d. rewrite (canonical_split segs d Hne Hs), Hlast. destruct d; [by rewrite app_comm_cons, last_snoc|].
    rewrite app_nil_r, app_comm_cons. apply last_snoc. }
  destruct Hplain as (N1 & N2 & N3 & _).
  assert (Hno : HasSuffix (canonical_path segs false) "/" = false).
  { apply not_true_is_false. intros Hx. pose proof (suffix_last _ "" eq_refl Hx) as Hl. rewrite Hends in Hl. congruence. }
  rewrite Hno. cbn [negb]. rewrite andb_true_r. destruct dir.
  - assert (HasSuffix (canonical_path segs true) "/" = true) as Hdir.
    { apply HasSuffix_spec. exists (canonical_path segs false). unfold canonical_path. by rewrite append_nil_r, append_assoc. }
    unfold endsInDirectory. rewrite Hdir. cbn [orb]. unfold canonical_path. by rewrite append_nil_r, <- append_assoc.
  - unfold endsInDirectory. rewrite Hno.
    assert (HasSuffix (canonical_path segs false) "/." = false) as ->.
    { apply not_true_is_false. intros Hx. pose proof (suffix_last _ "." eq_refl Hx) as Hl. rewrite Hends in Hl. congruence. }
    assert (HasSuffix (canonical_path segs false) "/.." = false) as ->; [|done].
    apply not_true_is_false. intros Hx. pose proof (suffix_last _ ".." eq_refl Hx) as Hl. rewrite Hends in Hl. congruence.
Qed.

(** No traversal survives.  The path the rules are matched against is a
    slash, then segments that are neither empty nor dot nor dot-dot and contain
    no slash and no backslash, then possibly the slash of a directory; and it
    is a fixed point, so checking the canonical form is checking what will be
    fetched. *)
Theorem canonicalizePath_confined (p : string) (Hp : HasPrefix p "/" = true) :
  (exists segs dir, Forall plain_segment segs /\ canonicalizePath p = canonical_path segs dir) /\
  canonicalizePath (canonicalizePath p) = canonicalizePath p.
Proof.
  destruct (canonicalizePath_form p Hp) as (segs & dir & Hs & Hd & ->). split; [by exists segs, dir|by apply canonicalizePath_fixed].
Qed.

(** ** Where the two enforcement points differ *)

(** A path rule without an action is a deny for Envoy; the proxy takes the
    default instead, which without allow rules is allow. *)
Lemma blank_path_action_diverges compiles match_string :
  let r := mkRule "example.com" "https" "443" "allow" [mkPathRule "/admin" "" []] "" false in
  ValidateRule (fun _ => true) r = Ok tt /\
  httpRoutes r "c" false = [httpDenyRoute "/admin" []; httpAllowRoute "/" "c" false []] /\
  evaluateRule compiles match_string (mirror r) "/admin" = true.
Proof. split_and!; by vm_compute. Qed.

(** A path rule for some methods only leaves the others to the default in
    Envoy; the proxy does not see methods and lets its GET through. *)
Lemma methods_ignored compiles match_string :
  let r := mkRule "example.com" "https" "443" "allow" [mkPathRule "/v1" "allow" ["POST"]] "" false in
  ValidateRule (fun _ => true) r = Ok tt /\
  httpRoutes r "c" false = [mkHttpRoute (Prefix "/v1") (ExactMethod "POST") (clawkerActionMetadata VerdictAllowed) (Forward "c" false); httpDenyRoute "/" []] /\
  evaluateRule compiles match_string (mirror r) "/v1" = true.
Proof. split_and!; by vm_compute. Qed.

(** ** Witnesses *)

(** A regexp engine for patterns without operators. *)
Definition literal_match (re path : string) : bool := String.eqb re ("^(?:" +:+ path +:+ ")$").
Definition literal_full_match (rx path : string) : bool := String.eqb (TrimPrefix rx "^") path.
Definition demo_envoy (routes : list httpRoute) (method path : string) : option routeAction :=
  hr_action <$> head (filter (fun rt => route_matches literal_full_match method path rt = true) routes).

Definition demo_path_rule : EgressRule :=
  mkRule "example.com" "https" "443" "allow" [mkPathRule "/v1" "allow" []; mkPathRule "~/v1/secret" "deny" []] "" false.

Lemma evaluateRule_matches_envoy_witness :
  demo_envoy (httpRoutes demo_path_rule "c" false) "GET" "/v1/secret" = Some DirectResponse403.
Proof.
  apply (evaluateRule_matches_envoy (fun _ => true) literal_match literal_full_match demo_envoy
    (fun _ _ _ => eq_refl) demo_path_rule "c" "GET" "/v1/secret" false).
  - split; [reflexivity|by repeat constructor..|by left].
  - apply Forall_cons_2; [intros rx; by vm_compute|]. apply Forall_cons_2; [|apply Forall_nil_2].
    intros rx [= <-]. split; [reflexivity|by vm_compute].
  - by vm_compute.
Defined.

Definition closed_rule : EgressRule := mkRule "example.com" "https" "443" "allow" [] "deny" false.

Lemma path_default_deny_ignored_witness :
  httpRoutes closed_rule "c" false = [httpDenyRoute "/" []] /\
  evaluateRule (fun _ => true) literal_match (mirror closed_rule) "/secret" = true.
Proof. apply (path_default_deny_ignored (fun _ => true) literal_match closed_rule "c" "/secret" false); reflexivity. Defined.

Lemma canonicalizePath_confined_witness :
  canonicalizePath (canonicalizePath "/a/b/../../c/.") = "/c/".
Proof. destruct (canonicalizePath_confined "/a/b/../../c/.") as [_ ->]; [reflexivity|by vm_compute]. Defined.

End HostProxy.
