(* ===== verification/HostServer.v ===== *)
(** * The host proxy server

    internal/hostproxy: sessions that expire (session.go), the channel that catches
    an OAuth callback once (callback.go), the HTTP handlers and the listeners they
    open on callback ports (server.go), the bridge to the host's git credentials
    (git_credential.go), and the daemon around them (daemon.go).

    A session is an object a handler may still hold after it left the store's map;
    random IDs, what the kernel binds and the clock are inputs.  Times and durations
    are nanoseconds. *)

From S2P Require Import Prelude GoStrings GoPath HostProxy.
Import Go GoPath HostProxy.

Module HostServer.

(** ** Sessions (session.go) *)

(** What the handlers read of an HTTP request: how it arrived, and what one read of
    its body returns. *)
Inductive arrival := OnPort (port : Z) | OnURL (session : string).
Record Request := mkRequest { r_via : arrival; r_Method : string; r_Path : string; r_RawQuery : string; r_Header : gmap string (list string); r_Body : option string }.
Record CallbackData := mkData { d_Method : string; d_Path : string; d_Query : string; d_Headers : gmap string string; d_Body : string }.

(** Metadata is a map of values of any type. *)
Inductive value := VInt (n : Z) | VString (s : string) | VBool (b : bool) | VData (d : CallbackData).
Record Session := mkSession { s_Type : string; CreatedAt : Z; ExpiresAt : Z; Metadata : gmap string value }.

Definition GetMetadata (s : Session) (key : string) : option value := Metadata s !! key.
Definition SetMetadata (s : Session) (key : string) (v : value) : Session := mkSession (s_Type s) (CreatedAt s) (ExpiresAt s) (<[key := v]> (Metadata s)).
Definition is_true (v : option value) : bool := match v with Some (VBool b) => b | _ => false end.
Definition CaptureOnce (s : Session) (receivedKey : string) : Session * bool :=
  if is_true (Metadata s !! receivedKey) then (s, false) else (SetMetadata s receivedKey (VBool true), true).
Definition IsExpired (now : Z) (s : Session) : bool := ExpiresAt s <? now.

Definition CallbackSessionType : string := "callback".
Definition metadataPort : string := "port".
Definition metadataPath : string := "path".
Definition metadataReceived : string := "received".
Definition metadataData : string := "data".

Record Server := mkServer {
  (** every session created, and the keys of the store's map *)
  objects : gmap string Session; sessions : gset string;
  dynamicListeners : gmap Z string; portToSession : gmap Z string;
  running : bool; store_stopped : bool;
}.
Definition with_objects (s : Server) (o : gmap string Session) : Server := mkServer o (sessions s) (dynamicListeners s) (portToSession s) (running s) (store_stopped s).
Definition with_sessions (s : Server) (l : gset string) : Server := mkServer (objects s) l (dynamicListeners s) (portToSession s) (running s) (store_stopped s).
Definition with_listeners (s : Server) (d p : gmap Z string) : Server := mkServer (objects s) (sessions s) d p (running s) (store_stopped s).

(** The session of an ID while it is in the map. *)
Definition in_store (s : Server) (id : string) : option Session := if bool_decide (id ∈ sessions s) then objects s !! id else None.

(** ** Dynamic listeners (server.go) *)

(** [bound] says whether one of the loopback addresses could be bound. *)
Definition startDynamicListener (bound : bool) (port : Z) (sessionID : string) (s : Server) : Server * bool :=
  if bool_decide (is_Some (dynamicListeners s !! port)) || negb bound then (s, false)
  else (with_listeners s (<[port := sessionID]> (dynamicListeners s)) (<[port := sessionID]> (portToSession s)), true).
Definition closeDynamicListener (port : Z) (s : Server) : Server :=
  match dynamicListeners s !! port with None => s | Some _ => with_listeners s (delete port (dynamicListeners s)) (delete port (portToSession s)) end.

(** The port whose listener the deletion of a session closes. *)
Definition deletion_port (x : Session) : option Z :=
  if negb (String.eqb (s_Type x) CallbackSessionType) then None else match GetMetadata x metadataPort with Some (VInt port) => Some port | _ => None end.
Definition onDelete (x : Session) (s : Server) : Server := match deletion_port x with Some port => closeDynamicListener port s | None => s end.

(** ** The session store *)

Definition Create (id sessionType : string) (now ttl : Z) (metadata : gmap string value) (s : Server) : Server :=
  with_sessions (with_objects s (<[id := mkSession sessionType now (now + ttl) metadata]> (objects s))) ({[id]} ∪ sessions s).
(** The part of [Delete] under the store's lock. *)
Definition take_session (id : string) (s : Server) : Server * option Session := (with_sessions s (sessions s ∖ {[id]}), in_store s id).
Definition Delete (id : string) (s : Server) : Server := match take_session id s with (s, Some x) => onDelete x s | (s, None) => s end.
Definition Get (now : Z) (id : string) (s : Server) : Server * option Session :=
  match in_store s id with
  | None => (s, None)
  | Some x => if IsExpired now x then (Delete id s, None) else (s, Some x)
  end.
Definition expired_ids (now : Z) (s : Server) : list string := List.filter (fun id => match in_store s id with Some x => IsExpired now x | None => false end) (base.elements (sessions s)).
Definition cleanup (now : Z) (s : Server) : Server := foldl (fun s id => Delete id s) s (expired_ids now s).
Definition Count (s : Server) : nat := size (sessions s).

(** ** The callback channel (callback.go) *)

Inductive callback_error := InvalidPort | SessionNotFound | InvalidSessionType | ErrCallbackAlreadyReceived | RandFailed.

Definition Register (id : option string) (now port : Z) (path : string) (ttl : Z) (s : Server) : Server * result callback_error string :=
  if (port <=? 0) || (65535 <? port) then (s, Err InvalidPort)
  else
    let path := if String.eqb path "" then "/" else path in
    match id with
    | None => (s, Err RandFailed)
    | Some id => (Create id CallbackSessionType now ttl (<[metadataPort := VInt port]> (<[metadataPath := VString path]> {[metadataReceived := VBool false]})) s, Ok id)
    end.

Definition skipped_headers : list string := ["Cookie"; "Authorization"; "X-Forwarded-For"; "X-Real-Ip"].
Definition kept_headers (h : gmap string (list string)) : gmap string string := omap (fun l => head l) (filter (fun kv => kv.1 ∉ skipped_headers) h).
Definition body_limit : nat := Z.to_nat 65536.
Definition callback_data (r : Request) : CallbackData :=
  mkData (r_Method r) (r_Path r) (r_RawQuery r) (kept_headers (r_Header r)) (match r_Body r with Some b => String.substring 0 body_limit b | None => "" end).

Definition set_object (id : string) (f : Session -> Session) (s : Server) : Server := with_objects s (alter f id (objects s)).
Definition Capture (now : Z) (id : string) (r : Request) (s : Server) : Server * result callback_error unit :=
  match Get now id s with
  | (s, None) => (s, Err SessionNotFound)
  | (s, Some x) =>
      if negb (String.eqb (s_Type x) CallbackSessionType) then (s, Err InvalidSessionType)
      else
        let '(x, first) := CaptureOnce x metadataReceived in
        if negb first then (s, Err ErrCallbackAlreadyReceived)
        else (set_object id (fun _ => SetMetadata x metadataData (VData (callback_data r))) s, Ok tt)
  end.

Definition session_data (x : Session) : option CallbackData :=
  if negb (String.eqb (s_Type x) CallbackSessionType) then None
  else if negb (is_true (GetMetadata x metadataReceived)) then None
  else match GetMetadata x metadataData with Some (VData d) => Some d | _ => None end.
Definition GetData (now : Z) (id : string) (s : Server) : Server * option CallbackData :=
  match Get now id s with (s, None) => (s, None) | (s, Some x) => (s, session_data x) end.
Definition GetPort (now : Z) (id : string) (s : Server) : Server * option Z :=
  match Get now id s with (s, Some x) => (s, match GetMetadata x metadataPort with Some (VInt n) => Some n | _ => None end) | (s, None) => (s, None) end.
Definition GetPath (now : Z) (id : string) (s : Server) : Server * option string :=
  match Get now id s with (s, Some x) => (s, match GetMetadata x metadataPath with Some (VString p) => Some p | _ => None end) | (s, None) => (s, None) end.
Definition IsReceived (now : Z) (id : string) (s : Server) : Server * bool :=
  match Get now id s with (s, Some x) => (s, is_true (GetMetadata x metadataReceived)) | (s, None) => (s, false) end.

(** ** Handlers (server.go) *)

Definition StatusOK : Z := 200.
Definition StatusBadRequest : Z := 400.
Definition StatusForbidden : Z := 403.
Definition StatusNotFound : Z := 404.
Definition StatusInternalServerError : Z := 500.

Definition second : Z := 10 ^ 9.
(** A product of int64. *)
Definition Duration_mul (a b : Z) : Z := (a * b + 2 ^ 63) mod 2 ^ 64 - 2 ^ 63.
Definition DefaultCallbackTTL : Z := 5 * 60 * second.
Definition maxCallbackTTL : Z := 30 * 60 * second.
Definition callback_ttl (timeoutSeconds : Z) : Z := if 0 <? timeoutSeconds then Z.min (Duration_mul timeoutSeconds second) maxCallbackTTL else DefaultCallbackTTL.

Record callbackRegisterRequest := mkRegister { cr_Port : Z; cr_Path : string; cr_TimeoutSeconds : Z }.
(** The status and, in a successful registration, the session. *)
Definition handleCallbackRegister (id : option string) (bound : bool) (now : Z) (body : option callbackRegisterRequest) (s : Server) : Server * (Z * option string) :=
  match body with
  | None => (s, (StatusBadRequest, None))
  | Some req =>
      if (cr_Port req <=? 0) || (65535 <? cr_Port req) then (s, (StatusBadRequest, None))
      else
        let path := if String.eqb (cr_Path req) "" then "/callback" else cr_Path req in
        match Register id now (cr_Port req) path (callback_ttl (cr_TimeoutSeconds req)) s with
        | (s, Err _) => (s, (StatusInternalServerError, None))
        | (s, Ok sid) =>
            match startDynamicListener bound (cr_Port req) sid s with
            | (s, true) => (s, (StatusOK, Some sid))
            | (s, false) => (Delete sid s, (StatusInternalServerError, None))
            end
        end
  end.

Inductive data_response := BadSession | NotReceived | NotFound | Received (d : CallbackData).
Definition handleCallbackGetData (now : Z) (id : string) (s : Server) : Server * (Z * data_response) :=
  if String.eqb id "" then (s, (StatusBadRequest, BadSession))
  else
    match GetData now id s with
    | (s, Some d) => (s, (StatusOK, Received d))
    | (s, None) => match Get now id s with (s, Some _) => (s, (StatusOK, NotReceived)) | (s, None) => (s, (StatusNotFound, NotFound)) end
    end.
Definition handleCallbackDelete (id : string) (s : Server) : Server * Z := if String.eqb id "" then (s, StatusBadRequest) else (Delete id s, StatusOK).

(** The success page is shown for a repeated callback too. *)
Definition handleCallbackCapture (now : Z) (id : string) (r : Request) (s : Server) : Server * Z :=
  if String.eqb id "" then (s, StatusBadRequest)
  else
    match Capture now id r s with
    | (s, Ok _) | (s, Err ErrCallbackAlreadyReceived) => (s, StatusOK)
    | (s, Err _) => match Get now id s with (s, None) => (s, StatusNotFound) | (s, Some _) => (s, StatusInternalServerError) end
    end.
Definition handleDynamicCallback (now port : Z) (r : Request) (s : Server) : Server * Z :=
  match portToSession s !! port with
  | None => (s, StatusNotFound)
  | Some id =>
      match Capture now id r s with
      | (s, Ok _) | (s, Err ErrCallbackAlreadyReceived) => (s, StatusOK)
      | (s, Err _) => (s, StatusInternalServerError)
      end
  end.

(** [bound] says which of the two loopback addresses could be bound. *)
Definition Start (bound : bool * bool) (s : Server) : Server * bool :=
  if running s then (s, true)
  else if negb (bound.1 || bound.2) then (s, false)
  else (mkServer (objects s) (sessions s) (dynamicListeners s) (portToSession s) true (store_stopped s), true).
Definition Stop (s : Server) : Server :=
  if negb (running s) then mkServer (objects s) (sessions s) (dynamicListeners s) (portToSession s) (running s) true
  else let s := foldl (fun s p => closeDynamicListener p s) s (map_to_list (dynamicListeners s)).*1 in mkServer (objects s) (sessions s) (dynamicListeners s) (portToSession s) false true.

(** Opening a URL: [target] is the parsed URL of the body (outer [None]: the body is
    not JSON), [rules] the decoded rules file when the firewall is on.  The browser
    is called when the second component is true. *)
Section OpenURL.
Variable compiles : string -> bool.
Variable match_string : string -> string -> bool.
Definition handleOpenURL (body : option (string * option URL)) (rules : option (option (list egressRule))) (browser_ok : bool) : Z * bool :=
  match body with
  | None => (StatusBadRequest, false)
  | Some (raw, target) =>
      if String.eqb raw "" then (StatusBadRequest, false)
      else
        match target with
        | None => (StatusBadRequest, false)
        | Some u =>
            if negb (String.eqb (u_Scheme u) "http") && negb (String.eqb (u_Scheme u) "https") then (StatusBadRequest, false)
            else
              match (match rules with None => Ok tt | Some file => CheckURLAgainstEgressRules compiles match_string target file end) with
              | Err RulesInvalid => (StatusInternalServerError, false)
              | Err _ => (StatusForbidden, false)
              | Ok _ => (if browser_ok then StatusOK else StatusInternalServerError, true)
              end
        end
  end.
End OpenURL.

(** ** Git credentials (git_credential.go) *)

Record gitCredentialRequest := mkCredReq { g_Action : string; g_Protocol : string; g_Host : string; g_Path : string; g_Username : string; g_Password : string }.
Record gitCredentials := mkCreds { c_Protocol : string; c_Host : string; c_Username : string; c_Password : string }.

Definition newline : ascii := ascii_of_N 10.
Definition carriage : ascii := ascii_of_N 13.
Definition null : ascii := ascii_of_N 0.
Definition injecting (c : ascii) : bool := Ascii.eqb c newline || Ascii.eqb c carriage || Ascii.eqb c null.
Definition containsCredentialInjectionChars (s : string) : bool := negb (all_chars (fun c => negb (injecting c)) s).
Fixpoint credentialFieldSanitizer (s : string) : string :=
  match s with EmptyString => "" | String c s => if injecting c then credentialFieldSanitizer s else String c (credentialFieldSanitizer s) end.
Definition nl : string := String newline "".
Definition formatGitCredentialInput (req : gitCredentialRequest) : string :=
  let optional key v := if String.eqb v "" then "" else key +:+ v +:+ nl in
  "protocol=" +:+ credentialFieldSanitizer (g_Protocol req) +:+ nl +:+
  "host=" +:+ credentialFieldSanitizer (g_Host req) +:+ nl +:+
  optional "path=" (credentialFieldSanitizer (g_Path req)) +:+
  optional "username=" (credentialFieldSanitizer (g_Username req)) +:+
  optional "password=" (credentialFieldSanitizer (g_Password req)) +:+ nl.

(** [bufio.ScanLines]: the lines without a final carriage return; an empty last line
    is none.  A line that does not fit the scanner's buffer of 64 kilobytes ends
    the scan. *)
Definition max_line : nat := Z.to_nat 65535.
Definition drop_cr (s : string) : string := TrimSuffix s (String carriage "").
Definition ScanLines (s : string) : list string :=
  let l := Split newline s in
  let l := match last l with Some "" => removelast l | _ => l end in
  drop_cr <$> (fix upto (l : list string) := match l with [] => [] | x :: l => if (String.length x <=? max_line)%nat then x :: upto l else [] end) l.
Definition cred_line (c : gitCredentials) (line : string) : gitCredentials :=
  match Cut "=" line with
  | None => c
  | Some (key, value) =>
      if String.eqb key "protocol" then mkCreds value (c_Host c) (c_Username c) (c_Password c)
      else if String.eqb key "host" then mkCreds (c_Protocol c) value (c_Username c) (c_Password c)
      else if String.eqb key "username" then mkCreds (c_Protocol c) (c_Host c) value (c_Password c)
      else if String.eqb key "password" then mkCreds (c_Protocol c) (c_Host c) (c_Username c) value
      else c
  end.
Definition parseGitCredentialOutput (output : string) : gitCredentials := foldl cred_line (mkCreds "" "" "" "") (ScanLines output).

(** The request is refused, or git is run with a subcommand and an input and answers
    with its output, or fails. *)
Inductive cred_outcome := BadRequest | HelperFailed | Stored | Retrieved (c : gitCredentials).
Definition gitAction (action : string) : option string :=
  if String.eqb action "get" then Some "fill" else if String.eqb action "store" then Some "approve" else if String.eqb action "erase" then Some "reject" else None.
Definition handleGitCredential (body : option gitCredentialRequest) (git : string -> string -> option string) : option (string * string) * cred_outcome :=
  match body with
  | None => (None, BadRequest)
  | Some req =>
      match gitAction (g_Action req) with
      | None => (None, BadRequest)
      | Some act =>
          if String.eqb (g_Protocol req) "" || String.eqb (g_Host req) "" then (None, BadRequest)
          else if existsb containsCredentialInjectionChars [g_Protocol req; g_Host req; g_Path req; g_Username req; g_Password req] then (None, BadRequest)
          else
            let input := formatGitCredentialInput req in
            (Some (act, input),
             match git act input with
             | None => HelperFailed
             | Some stdout => if String.eqb (g_Action req) "get" then Retrieved (parseGitCredentialOutput stdout) else Stored
             end)
      end
  end.

(** ** The daemon (daemon.go) *)

(** Waiting for a condition: what each attempt finds, whether the deadline has
    passed after it, and whether the context ends in the pause. *)
Record attempt := mkAttempt { a_holds : bool; a_late : bool; a_cancelled : bool }.
Inductive wait_result := WaitOk | TimedOut | Cancelled.
(** [None] while it still waits. *)
Fixpoint waitForCondition (l : list attempt) : option wait_result :=
  match l with
  | [] => None
  | a :: l => if a_holds a then Some WaitOk else if a_late a then Some TimedOut else if a_cancelled a then Some Cancelled else waitForCondition l
  end.
Definition ensureEgressRulesReady (rulesFilePath : string) (firewall envoy rules : list attempt) : option wait_result :=
  if String.eqb rulesFilePath "" then Some WaitOk
  else
    match waitForCondition firewall with
    | Some WaitOk => match waitForCondition envoy with Some WaitOk => waitForCondition rules | r => r end
    | r => r
    end.

(** [watchContainers] on what the ticks answer, [None] for an error of Docker: the
    ticks it took until it returned, if it did. *)
Fixpoint watchContainers (maxConsecutiveErrs consecutiveErrs : nat) (ticks : list (option nat)) : option nat :=
  match ticks with
  | [] => None
  | None :: ticks =>
      if (maxConsecutiveErrs <=? S consecutiveErrs)%nat then Some 1%nat else S <$> watchContainers maxConsecutiveErrs (S consecutiveErrs) ticks
  | Some 0%nat :: _ => Some 1%nat
  | Some _ :: ticks => S <$> watchContainers maxConsecutiveErrs 0 ticks
  end.

(** The PID file and the live processes. *)
Record host := mkHost { pid_file : option string; alive : gset Z }.
Definition readPIDFile (h : host) : option Z := s ← pid_file h; Atoi s.
Definition writePIDFile (pid : Z) (h : host) : host := mkHost (Some (Itoa pid)) (alive h).
Definition removePIDFile (h : host) : host := mkHost None (alive h).
Definition isProcessAlive (h : host) (pid : Z) : bool := bool_decide (pid ∈ alive h).
Definition IsDaemonRunning (h : host) : bool := match readPIDFile h with Some pid => isProcessAlive h pid | None => false end.
Definition GetDaemonPID (h : host) : Z := match readPIDFile h with Some pid => if isProcessAlive h pid then pid else 0 | None => 0 end.
Inductive stop_result := NotRunning | BadPIDFile | Signalled (pid : Z).
Definition StopDaemon (h : host) : host * stop_result :=
  match pid_file h with
  | None => (h, NotRunning)
  | Some s =>
      match Atoi s with
      | None => (h, BadPIDFile)
      | Some pid => if negb (isProcessAlive h pid) then (removePIDFile h, NotRunning) else (h, Signalled pid)
      end
  end.
(** The life of a daemon: the PID file is written first and removed on every way
    out; a server that cannot bind ends it. *)
Definition Run_start (pid : Z) (bound : bool * bool) (s : Server) (h : host) : host * Server * bool :=
  let h := writePIDFile pid h in
  let '(s, ok) := Start bound s in
  if (ok : bool) then (h, s, true) else (removePIDFile h, s, false).
Definition Run_end (s : Server) (h : host) : host * Server := (removePIDFile h, Stop s).

End HostServer.
