(* ===== verification/HostServerSpec.v ===== *)
(** * What the host proxy server promises

    A callback is caught once, for the session it was sent to, and read back as it
    came, in any interleaving of the handlers; a URL is opened only if the egress
    check grants it; no field of a credential request can add another line to what
    git reads. *)

From S2P Require Import Prelude GoStrings GoPath HostProxy HostServer.
Import Go GoPath HostProxy HostServer.

Module HostServerSpec.

(** ** Interleavings of the handlers *)

(** The server, and the handlers under way: registrations about to listen, deletions
    about to close a port, callbacks that have found the session of their port or
    URL, that have found it alive, and that have marked it. *)
Record conc := mkConc {
  srv : Server; starting : list (Z * string); closing : list Z;
  arrived : list (string * Request); looked : list (string * Request); marked : list (string * Request);
  (** the captures completed *)
  captured : list (string * Request);
}.

Definition port_of (x : Session) : option value := GetMetadata x metadataPort.
Definition register_metadata (port : Z) (path : string) : gmap string value :=
  <[metadataPort := VInt port]> (<[metadataPath := VString path]> {[metadataReceived := VBool false]}).

Inductive step : conc -> conc -> Prop :=
  | st_register s sg cl ar lo ma ca id now port path ttl :
      objects s !! id = None -> 0 < port <= 65535 ->
      step (mkConc s sg cl ar lo ma ca) (mkConc (Create id CallbackSessionType now ttl (register_metadata port path) s) ((port, id) :: sg) cl ar lo ma ca)
  | st_listen s sg1 port id sg2 cl ar lo ma ca bound :
      step (mkConc s (sg1 ++ (port, id) :: sg2) cl ar lo ma ca) (mkConc (startDynamicListener bound port id s).1 (sg1 ++ sg2) cl ar lo ma ca)
  (** a deletion, by a client, by a failing registration or because the session expired *)
  | st_delete s sg cl ar lo ma ca id :
      step (mkConc s sg cl ar lo ma ca)
        (mkConc (take_session id s).1 sg (match (take_session id s).2 ≫= deletion_port with Some p => p :: cl | None => cl end) ar lo ma ca)
  | st_close s sg cl1 port cl2 ar lo ma ca :
      step (mkConc s sg (cl1 ++ port :: cl2) ar lo ma ca) (mkConc (closeDynamicListener port s) sg (cl1 ++ cl2) ar lo ma ca)
  | st_arrive_port s sg cl ar lo ma ca port id r :
      portToSession s !! port = Some id -> r_via r = OnPort port ->
      step (mkConc s sg cl ar lo ma ca) (mkConc s sg cl ((id, r) :: ar) lo ma ca)
  | st_arrive_url s sg cl ar lo ma ca id r :
      r_via r = OnURL id -> step (mkConc s sg cl ar lo ma ca) (mkConc s sg cl ((id, r) :: ar) lo ma ca)
  | st_get s sg cl ar1 id r ar2 lo ma ca now x :
      in_store s id = Some x -> IsExpired now x = false -> s_Type x = CallbackSessionType ->
      step (mkConc s sg cl (ar1 ++ (id, r) :: ar2) lo ma ca) (mkConc s sg cl (ar1 ++ ar2) ((id, r) :: lo) ma ca)
  | st_refuse s sg cl ar1 id r ar2 lo ma ca : step (mkConc s sg cl (ar1 ++ (id, r) :: ar2) lo ma ca) (mkConc s sg cl (ar1 ++ ar2) lo ma ca)
  | st_mark s sg cl ar lo1 id r lo2 ma ca x x' :
      objects s !! id = Some x -> CaptureOnce x metadataReceived = (x', true) ->
      step (mkConc s sg cl ar (lo1 ++ (id, r) :: lo2) ma ca) (mkConc (set_object id (fun _ => x') s) sg cl ar (lo1 ++ lo2) ((id, r) :: ma) ca)
  | st_repeated s sg cl ar lo1 id r lo2 ma ca x :
      objects s !! id = Some x -> (CaptureOnce x metadataReceived).2 = false ->
      step (mkConc s sg cl ar (lo1 ++ (id, r) :: lo2) ma ca) (mkConc s sg cl ar (lo1 ++ lo2) ma ca)
  | st_data s sg cl ar lo ma1 id r ma2 ca :
      step (mkConc s sg cl ar lo (ma1 ++ (id, r) :: ma2) ca)
        (mkConc (set_object id (fun x => SetMetadata x metadataData (VData (callback_data r))) s) sg cl ar lo (ma1 ++ ma2) ((id, r) :: ca))
  | st_stop s sg cl ar lo ma ca : step (mkConc s sg cl ar lo ma ca) (mkConc (Stop s) sg cl ar lo ma ca).

Definition NewServer : Server := mkServer ∅ ∅ ∅ ∅ false false.
Definition start : conc := mkConc NewServer [] [] [] [] [] [].

(** ** The invariant *)

(** The request was sent to the URL or to the port of the session. *)
Definition sent_to (o : gmap string Session) (id : string) (r : Request) : Prop :=
  match r_via r with OnURL i => i = id | OnPort p => port_of <$> o !! id = Some (Some (VInt p)) end.
Definition received (x : Session) : bool := is_true (GetMetadata x metadataReceived).
Record inv (c : conc) : Prop := {
  iv_ports : forall p id, portToSession (srv c) !! p = Some id -> port_of <$> objects (srv c) !! id = Some (Some (VInt p));
  iv_starting : forall p id, (p, id) ∈ starting c -> port_of <$> objects (srv c) !! id = Some (Some (VInt p));
  iv_sent : forall id r, (id, r) ∈ arrived c ++ looked c ++ marked c ++ captured c -> sent_to (objects (srv c)) id r;
  iv_marked : forall id r, (id, r) ∈ marked c ++ captured c -> exists x, objects (srv c) !! id = Some x /\ received x = true;
  iv_captured : forall id r, (id, r) ∈ captured c -> exists x, objects (srv c) !! id = Some x /\ GetMetadata x metadataData = Some (VData (callback_data r));
  iv_once : NoDup (marked c ++ captured c).*1;
  iv_data : forall id x d, objects (srv c) !! id = Some x -> GetMetadata x metadataData = Some (VData d) -> exists r, (id, r) ∈ captured c /\ d = callback_data r;
}.

(** Objects keep their port. *)
Definition grows (o o' : gmap string Session) : Prop := forall id x, o !! id = Some x -> exists x', o' !! id = Some x' /\ port_of x' = port_of x.
Lemma grows_port o o' id v : grows o o' -> port_of <$> o !! id = Some v -> port_of <$> o' !! id = Some v.
Proof. intros Hg. destruct (o !! id) as [x|] eqn:E; [|done]. destruct (Hg id x E) as (x' & -> & Hp). intros Hv. change (Some (port_of x') = Some v). by rewrite Hp. Qed.
Lemma grows_sent o o' id r : grows o o' -> sent_to o id r -> sent_to o' id r.
Proof. unfold sent_to. destruct (r_via r); [by apply grows_port|done]. Qed.
Lemma grows_refl o : grows o o.
Proof. intros id x Hx. by exists x. Qed.
Lemma grows_alter o id f : (forall x, port_of (f x) = port_of x) -> grows o (alter f id o).
Proof.
  intros Hf i x Hx. destruct (decide (i = id)) as [->|Hne]; [rewrite lookup_alter_eq, Hx; by exists (f x)|]. rewrite lookup_alter_ne by done. by exists x.
Qed.
Lemma port_of_set x k v : k <> metadataPort -> port_of (SetMetadata x k v) = port_of x.
Proof. intros Hk. unfold port_of, GetMetadata, SetMetadata. cbn. by rewrite lookup_insert_ne. Qed.
Lemma grows_fresh o id x : o !! id = None -> grows o (<[id := x]> o).
Proof. intros Hn i y Hy. exists y. split; [|done]. rewrite lookup_insert_ne; [done|]. intros ->. by rewrite Hn in Hy. Qed.

Lemma startDynamicListener_ports bound port id s p i :
  portToSession (startDynamicListener bound port id s).1 !! p = Some i -> (p = port /\ i = id) \/ portToSession s !! p = Some i.
Proof.
  unfold startDynamicListener. destruct (_ || _); cbn; [by right|]. destruct (decide (p = port)) as [->|Hne]; [rewrite lookup_insert_eq; intros [= <-]; by left|].
  rewrite lookup_insert_ne by done. by right.
Qed.
Lemma startDynamicListener_objects bound port id s : objects (startDynamicListener bound port id s).1 = objects s.
Proof. unfold startDynamicListener. by destruct (_ || _). Qed.
Lemma closeDynamicListener_ports port s p i : portToSession (closeDynamicListener port s) !! p = Some i -> portToSession s !! p = Some i.
Proof. unfold closeDynamicListener. destruct (dynamicListeners s !! port); [|done]. cbn. intros H. by apply lookup_delete_Some in H as [_ H]. Qed.
Lemma closeDynamicListener_objects port s : objects (closeDynamicListener port s) = objects s.
Proof. unfold closeDynamicListener. by destruct (dynamicListeners s !! port). Qed.
Lemma Stop_spec s : objects (Stop s) = objects s /\ forall p i, portToSession (Stop s) !! p = Some i -> portToSession s !! p = Some i.
Proof.
  unfold Stop. destruct (negb (running s)); [done|]. cbn. generalize (map_to_list (dynamicListeners s)).*1 as l. intros l. revert s.
  induction l as [|q l IH]; intros s; [done|]. cbn [foldl]. destruct (IH (closeDynamicListener q s)) as [H1 H2]. rewrite closeDynamicListener_objects in H1. split; [done|].
  intros p i Hp. eapply closeDynamicListener_ports, H2, Hp.
Qed.

(** Steps that change neither sessions nor completed captures. *)
Lemma inv_frame s s' sg sg' cl cl' ar ar' lo lo' ma ca :
  inv (mkConc s sg cl ar lo ma ca) -> objects s' = objects s -> (forall p i, portToSession s' !! p = Some i -> port_of <$> objects s !! i = Some (Some (VInt p))) ->
  (forall x, x ∈ sg' -> x ∈ sg) -> (forall id r, (id, r) ∈ ar' ++ lo' -> (id, r) ∈ ar ++ lo \/ sent_to (objects s) id r) ->
  inv (mkConc s' sg' cl' ar' lo' ma ca).
Proof.
  intros [H1 H2 H3 H4 H5 H6 H7] Ho Hp Hsg Hal. split; cbn in *; rewrite ?Ho; try done.
  - intros p id Hin. apply H2. by apply Hsg.
  - intros id r Hin. rewrite app_assoc in Hin. apply elem_of_app in Hin as [Hin|Hin]; [|apply H3; rewrite app_assoc; apply elem_of_app; by right].
    destruct (Hal id r Hin) as [H|H]; [|done]. apply H3. rewrite app_assoc. apply elem_of_app. by left.
Qed.

Lemma register_inv s sg cl ar lo ma ca id now port path ttl :
  objects s !! id = None -> inv (mkConc s sg cl ar lo ma ca) ->
  inv (mkConc (Create id CallbackSessionType now ttl (register_metadata port path) s) ((port, id) :: sg) cl ar lo ma ca).
Proof.
  intros Hn [H1 H2 H3 H4 H5 H6 H7]. set (x := mkSession CallbackSessionType now (now + ttl) (register_metadata port path)). pose proof (grows_fresh _ _ x Hn) as Hg.
  assert (Hold : forall i y, objects s !! i = Some y -> <[id := x]> (objects s) !! i = Some y) by (intros i y Hy; rewrite lookup_insert_ne; [done|]; intros ->; by rewrite Hn in Hy).
  split; cbn in *.
  - intros p i Hp. by eapply grows_port, H1.
  - intros p i [[= -> ->]|Hin]%elem_of_cons; [|by eapply grows_port, H2]. by rewrite lookup_insert_eq.
  - intros i r Hin. by eapply grows_sent, H3.
  - intros i r Hin. destruct (H4 i r Hin) as (y & Hy & Hr). exists y. by split; [apply Hold|].
  - intros i r Hin. destruct (H5 i r Hin) as (y & Hy & Hr). exists y. by split; [apply Hold|].
  - done.
  - intros i y d. destruct (decide (i = id)) as [->|Hne]; [rewrite lookup_insert_eq; by intros [= <-]|]. rewrite lookup_insert_ne by done. apply H7.
Qed.

(** The session [id] goes on as [f] of it. *)
Lemma alter_inv s sg cl ar lo ma ca lo' ma' ca' id f :
  inv (mkConc s sg cl ar lo ma ca) -> (forall x, port_of (f x) = port_of x) -> (forall x, received x = true -> received (f x) = true) ->
  (forall i r, (i, r) ∈ ar ++ lo' ++ ma' ++ ca' -> (i, r) ∈ ar ++ lo ++ ma ++ ca) ->
  (forall i r, (i, r) ∈ ma' ++ ca' -> (i, r) ∈ ma ++ ca \/ i = id /\ exists x, objects s !! id = Some x /\ received (f x) = true) ->
  (forall i r, (i, r) ∈ ca' -> exists x, alter f id (objects s) !! i = Some x /\ GetMetadata x metadataData = Some (VData (callback_data r))) ->
  NoDup (ma' ++ ca').*1 ->
  (forall i x d, alter f id (objects s) !! i = Some x -> GetMetadata x metadataData = Some (VData d) -> exists r, (i, r) ∈ ca' /\ d = callback_data r) ->
  inv (mkConc (set_object id f s) sg cl ar lo' ma' ca').
Proof.
  intros [H1 H2 H3 H4 H5 H6 H7] Hport Hrec Hsub Hm Hc Hn Hd. pose proof (grows_alter (objects s) id f Hport) as Hg. split; cbn in *; try done.
  - intros p i Hp. by eapply grows_port, H1.
  - intros p i Hp. by eapply grows_port, H2.
  - intros i r Hin. by eapply grows_sent, H3, Hsub.
  - intros i r Hin. destruct (Hm i r Hin) as [Hold|(-> & x & Hx & Hr)].
    + destruct (H4 i r Hold) as (x & Hx & Hr). destruct (decide (i = id)) as [->|Hne]; [rewrite lookup_alter_eq, Hx; exists (f x); split; [done|by apply Hrec]|].
      rewrite lookup_alter_ne by done. by exists x.
    + exists (f x). by rewrite lookup_alter_eq, Hx.
Qed.

Lemma received_set x k v : k <> metadataReceived -> received (SetMetadata x k v) = received x.
Proof. intros Hk. unfold received, GetMetadata, SetMetadata. cbn. by rewrite lookup_insert_ne. Qed.
Lemma received_marked x : received (SetMetadata x metadataReceived (VBool true)) = true.
Proof. unfold received, GetMetadata, SetMetadata. cbn. by rewrite lookup_insert_eq. Qed.
Lemma CaptureOnce_first x x' : CaptureOnce x metadataReceived = (x', true) -> received x = false /\ x' = SetMetadata x metadataReceived (VBool true).
Proof. unfold CaptureOnce, received, GetMetadata. destruct (is_true _); [done|]. by intros [= <-]. Qed.

Lemma mark_inv s sg cl ar lo1 id r lo2 ma ca x x' :
  objects s !! id = Some x -> CaptureOnce x metadataReceived = (x', true) -> inv (mkConc s sg cl ar (lo1 ++ (id, r) :: lo2) ma ca) ->
  inv (mkConc (set_object id (fun _ => x') s) sg cl ar (lo1 ++ lo2) ((id, r) :: ma) ca).
Proof.
  intros Hx Hc Hi. destruct (CaptureOnce_first _ _ Hc) as [Hr ->]. set (f := fun y => SetMetadata y metadataReceived (VBool true)).
  assert (set_object id (fun _ => SetMetadata x metadataReceived (VBool true)) s = set_object id f s) as ->.
  { unfold set_object. f_equal. apply map_eq. intros i. destruct (decide (i = id)) as [->|Hne]; [by rewrite !lookup_alter_eq, Hx|by rewrite !lookup_alter_ne]. }
  pose proof Hi as [H1 H2 H3 H4 H5 H6 H7]. cbn in *.
  assert (Hdata : forall y, GetMetadata (f y) metadataData = GetMetadata y metadataData) by (intros y; unfold f, GetMetadata, SetMetadata; cbn; by rewrite lookup_insert_ne).
  eapply alter_inv; [exact Hi|..].
  - intros y. by apply port_of_set.
  - intros y _. apply received_marked.
  - intros i q. rewrite !elem_of_app, !elem_of_cons. tauto.
  - intros i q [[= -> ->]|Hin]%elem_of_cons; [right; split; [done|]; exists x; split; [done|apply received_marked]|by left].
  - intros i q Hin. destruct (H5 i q Hin) as (y & Hy & Hd). destruct (decide (i = id)) as [->|Hne]; [rewrite lookup_alter_eq, Hy; exists (f y); by rewrite Hdata|].
    rewrite lookup_alter_ne by done. by exists y.
  - cbn. apply NoDup_cons. split; [|done]. intros ([i q] & Hi' & Hin)%list_elem_of_fmap. cbn in Hi'. subst i. destruct (H4 id q Hin) as (y & Hy & Hry). rewrite Hx in Hy. injection Hy as <-. by rewrite Hr in Hry.
  - intros i y d. destruct (decide (i = id)) as [->|Hne]; [rewrite lookup_alter_eq, Hx; intros [= <-]; rewrite Hdata; by apply H7|]. rewrite lookup_alter_ne by done. apply H7.
Qed.

Lemma data_inv s sg cl ar lo ma1 id r ma2 ca :
  inv (mkConc s sg cl ar lo (ma1 ++ (id, r) :: ma2) ca) ->
  inv (mkConc (set_object id (fun x => SetMetadata x metadataData (VData (callback_data r))) s) sg cl ar lo (ma1 ++ ma2) ((id, r) :: ca)).
Proof.
  intros Hi. pose proof Hi as [H1 H2 H3 H4 H5 H6 H7]. cbn in *. destruct (H4 id r ltac:(rewrite !elem_of_app, elem_of_cons; tauto)) as (x & Hx & Hr).
  set (f := fun x => SetMetadata x metadataData (VData (callback_data r))). assert (Hf : forall y, GetMetadata (f y) metadataData = Some (VData (callback_data r))) by (intros y; apply lookup_insert_eq).
  assert (Hperm : (ma1 ++ (id, r) :: ma2) ++ ca ≡ₚ (ma1 ++ ma2) ++ (id, r) :: ca) by solve_Permutation.
  assert (Hnd : NoDup ((ma1 ++ ma2) ++ (id, r) :: ca).*1) by (by rewrite <- Hperm).
  assert (Hnew : forall q, (id, q) ∉ ca). { intros q Hq. rewrite fmap_app, fmap_cons in Hnd. apply NoDup_app in Hnd as (_ & _ & Hnd). apply NoDup_cons in Hnd as [Hni _]. apply Hni. apply list_elem_of_fmap. by exists (id, q). }
  eapply alter_inv; [exact Hi|..].
  - intros y. by apply port_of_set.
  - intros y Hy. unfold f. by rewrite received_set.
  - intros i q. rewrite !elem_of_app, !elem_of_cons. tauto.
  - intros i q Hin. left. by rewrite Hperm.
  - intros i q [[= -> ->]|Hin]%elem_of_cons; [rewrite lookup_alter_eq, Hx; by exists (f x)|]. destruct (H5 i q Hin) as (y & Hy & Hd).
    rewrite lookup_alter_ne; [by exists y|]. intros ->. by apply (Hnew q).
  - done.
  - intros i y d. destruct (decide (i = id)) as [->|Hne].
    + rewrite lookup_alter_eq, Hx. intros [= <-]. rewrite Hf. intros [= <-]. exists r. split; [by left|done].
    + rewrite lookup_alter_ne by done. intros Hy Hd. destruct (H7 i y d Hy Hd) as (q & Hq & ->). exists q. split; [by right|done].
Qed.

Lemma step_inv_captures c c' : step c c' -> inv c -> inv c'.
Proof.
  intros Hs Hi. pose proof Hi as [H1 H2 H3 _ _ _ _]. destruct Hs; cbn in H1, H2, H3; [by apply register_inv|..|].
  - eapply inv_frame; [exact Hi|apply startDynamicListener_objects| |intros y Hy; rewrite elem_of_app, elem_of_cons; rewrite elem_of_app in Hy; tauto|by left].
    intros p i [[-> ->]|Hp]%startDynamicListener_ports; [apply H2; rewrite elem_of_app, elem_of_cons; tauto|by apply H1].
  - by eapply inv_frame; [exact Hi|done|exact H1|done|by left].
  - eapply inv_frame; [exact Hi|apply closeDynamicListener_objects| |done|by left]. intros p i Hp%closeDynamicListener_ports. by apply H1.
  - eapply inv_frame; [exact Hi|done|exact H1|done|]. intros i q. cbn. rewrite elem_of_cons. intros [[= -> ->]|Hin]; [right|by left]. unfold sent_to. rewrite H0. by apply H1.
  - eapply inv_frame; [exact Hi|done|exact H1|done|]. intros i q. cbn. rewrite elem_of_cons. intros [[= -> ->]|Hin]; [right|by left]. unfold sent_to. by rewrite H.
  - eapply inv_frame; [exact Hi|done|exact H1|done|]. intros i q. rewrite !elem_of_app, !elem_of_cons. tauto.
  - eapply inv_frame; [exact Hi|done|exact H1|done|]. intros i q. rewrite !elem_of_app, !elem_of_cons. tauto.
  - by eapply mark_inv.
  - eapply inv_frame; [exact Hi|done|exact H1|done|]. intros i q. rewrite !elem_of_app, !elem_of_cons. tauto.
  - by apply data_inv.
  - destruct (Stop_spec s) as [Ho Hp]. eapply inv_frame; [exact Hi|exact Ho| |done|by left]. intros p i Hin. by apply H1, Hp.
Qed.

Lemma start_inv : inv start.
Proof. split; cbn; try (intros ? ? H; by apply elem_of_nil in H); try done. apply NoDup_nil_2. Qed.
Lemma captures_inv c : rtc step start c -> inv c.
Proof. intros H. assert (forall c c', rtc step c c' -> inv c -> inv c') as Hr; [|by eapply Hr, start_inv]. induction 1 as [|c1 c2 c3 Hs _ IH]; [done|]. intros Hi. by eapply IH, step_inv_captures. Qed.

Lemma Get_found now id s s' x : Get now id s = (s', Some x) -> s' = s /\ objects s !! id = Some x /\ id ∈ sessions s /\ IsExpired now x = false.
Proof. unfold Get, in_store. case_bool_decide; [|done]. destruct (objects s !! id) as [y|]; [|done]. destruct (IsExpired now y) eqn:E; [done|]. by intros [= <- <-]. Qed.

(** C38: In any interleaving of registrations, deletions, expiries, callbacks and
    shutdown, a session takes at most one callback; what its owner reads is that
    callback, which was sent to the session's own port or URL, without the headers
    that carry credentials. *)
Theorem callback_once c (Hr : rtc step start c) :
  NoDup (captured c).*1 /\
  forall now id d, (GetData now id (srv c)).2 = Some d ->
    exists r, (id, r) ∈ captured c /\ d = callback_data r /\ sent_to (objects (srv c)) id r /\ forall h, h ∈ skipped_headers -> d_Headers d !! h = None.
Proof.
  destruct (captures_inv c Hr) as [_ _ H3 _ _ H6 H7]. split; [rewrite fmap_app in H6; by apply NoDup_app in H6 as (_ & _ & H6)|].
  intros now id d Hd. unfold GetData in Hd. destruct (Get now id (srv c)) as [s' [x|]] eqn:E; [|done]. apply Get_found in E as (_ & Hx & _). cbn in Hd.
  unfold session_data in Hd. destruct (negb _); [done|]. destruct (negb _); [done|]. destruct (GetMetadata x metadataData) as [[| | |d']|] eqn:Em; simplify_eq.
  destruct (H7 id x d Hx Em) as (r & Hin & ->). exists r. split; [done|]. split; [done|]. split; [apply H3; rewrite !elem_of_app; tauto|].
  intros h Hh. cbn. unfold kept_headers. rewrite lookup_omap. by rewrite map_lookup_filter_None_2 by (right; intros l _ Hn; by apply Hn).
Qed.

(** ** One callback from registration to reading *)

Lemma ttl_range n : 0 < n <= 9223372036 -> callback_ttl n = Z.min (n * second) maxCallbackTTL.
Proof. intros Hn. unfold callback_ttl. rewrite (proj2 (Z.ltb_lt 0 n)) by lia. f_equal. unfold Duration_mul, second. rewrite Z.mod_small by lia. lia. Qed.
(** The lifetime asked for is kept up to half an hour, as long as it fits in 64 bits
    of nanoseconds; beyond that the product wraps, and a session may have expired
    before it is registered. *)
Theorem callback_ttl_spec :
  (forall n, callback_ttl n <= maxCallbackTTL) /\ (forall n, 0 < n <= 9223372036 -> callback_ttl n = Z.min (n * second) maxCallbackTTL) /\ callback_ttl 9223372037 < 0.
Proof.
  split; [|split; [apply ttl_range|by vm_compute]]. intros n. unfold callback_ttl. destruct (0 <? n); [lia|]. by vm_compute.
Qed.

Section Roundtrip.
Variables (s : Server) (id : string) (now port timeout : Z) (path : string) (r : Request).
Hypothesis Hport : 0 < port <= 65535.
Hypothesis Hfree : dynamicListeners s !! port = None.
Let reg := handleCallbackRegister (Some id) true now (Some (mkRegister port path timeout)) s.

Lemma register_free : reg.2 = (StatusOK, Some id) /\ portToSession reg.1 !! port = Some id /\ id ∈ sessions reg.1 /\
  exists x, objects reg.1 !! id = Some x /\ s_Type x = CallbackSessionType /\ ExpiresAt x = now + callback_ttl timeout /\ received x = false.
Proof.
  unfold reg, handleCallbackRegister, Register. cbn [cr_Port cr_Path cr_TimeoutSeconds]. assert ((port <=? 0) || (65535 <? port) = false) as -> by lia.
  unfold startDynamicListener. cbn [dynamicListeners Create with_sessions with_objects]. rewrite Hfree. cbn. split; [done|]. split; [by rewrite lookup_insert_eq|]. split; [set_solver|].
  rewrite lookup_insert_eq. eexists. split; [done|]. cbn. split; [done|]. split; [done|]. reflexivity.
Qed.

(** A callback that reaches the registered port before the session expires is
    what its owner then reads, with the headers it may carry; any later one is
    answered with the same page and changes nothing. *)
Theorem callback_roundtrip t1 t2 r'
    (Ht1 : t1 <= now + callback_ttl timeout) (Ht2 : t2 <= now + callback_ttl timeout) (Hid : id <> "") :
  let s1 := reg.1 in let '(s2, status) := handleDynamicCallback t1 port r s1 in
  reg.2 = (StatusOK, Some id) /\ status = StatusOK /\
  (handleCallbackGetData t2 id s2).2 = (StatusOK, Received (callback_data r)) /\
  handleDynamicCallback t2 port r' s2 = (s2, StatusOK).
Proof.
  cbv zeta. destruct register_free as (Hreg & Hp & Hin & x & Hx & Hty & Hexp & Hrec). set (s1 := reg.1) in *.
  assert (Hget : forall t o y, t <= ExpiresAt y -> o !! id = Some y -> Get t id (with_objects s1 o) = (with_objects s1 o, Some y)).
  { intros t o y Ht Hy. unfold Get, in_store. cbn. rewrite bool_decide_eq_true_2, Hy by done. unfold IsExpired. by assert ((ExpiresAt y <? t) = false) as -> by lia. }
  assert (Hs1 : with_objects s1 (objects s1) = s1) by (by destruct s1). unfold handleDynamicCallback. rewrite Hp. unfold Capture. rewrite <- Hs1, (Hget t1 _ x) by (done || lia). rewrite Hs1, Hty. cbn [String.eqb negb].
  change (String.eqb CallbackSessionType CallbackSessionType) with true. cbn [negb]. unfold CaptureOnce. change (is_true (Metadata x !! metadataReceived)) with (received x). rewrite Hrec. cbn [negb].
  set (y := SetMetadata (SetMetadata x metadataReceived (VBool true)) metadataData (VData (callback_data r))). set (o := alter (fun _ => y) id (objects s1)).
  change (set_object id (fun _ => y) s1) with (with_objects s1 o). assert (Hy : o !! id = Some y) by (unfold o; by rewrite lookup_alter_eq, Hx).
  assert (Hye : ExpiresAt y = now + callback_ttl timeout) by done. assert (Hyr : is_true (GetMetadata y metadataReceived) = true).
  { unfold y, GetMetadata, SetMetadata. cbn. rewrite lookup_insert_ne, lookup_insert_eq by done. done. }
  split; [done|]. split; [done|]. split.
  - unfold handleCallbackGetData. rewrite (proj2 (String.eqb_neq id "") Hid). unfold GetData. rewrite (Hget t2 _ y) by (done || lia). unfold session_data. change (s_Type y) with (s_Type x). rewrite Hty, Hyr. cbn.
    unfold GetMetadata, y, SetMetadata. cbn. by rewrite lookup_insert_eq.
  - cbn [portToSession with_objects]. rewrite Hp, (Hget t2 _ y) by (done || lia). change (s_Type y) with (s_Type x). rewrite Hty. unfold CaptureOnce. change (Metadata y !! metadataReceived) with (GetMetadata y metadataReceived). by rewrite Hyr.
Qed.
End Roundtrip.

(** A registration for a port that another session listens on is refused, and closes
    the other session's listener: deleting the new session closes the listener of
    its port, whoever it belongs to. *)
Theorem duplicate_register_closes s id now port timeout path bound other
    (Hport : 0 < port <= 65535) (Hother : dynamicListeners s !! port = Some other) :
  let '(s', (status, _)) := handleCallbackRegister (Some id) bound now (Some (mkRegister port path timeout)) s in
  status = StatusInternalServerError /\ dynamicListeners s' !! port = None /\ portToSession s' !! port = None /\
  (other <> id -> other ∈ sessions s -> other ∈ sessions s').
Proof.
  unfold handleCallbackRegister, Register. cbn [cr_Port cr_Path cr_TimeoutSeconds]. assert ((port <=? 0) || (65535 <? port) = false) as -> by lia.
  unfold startDynamicListener. cbn [dynamicListeners Create with_sessions with_objects]. rewrite Hother, bool_decide_eq_true_2 by done. cbn [orb].
  unfold Delete, take_session, in_store. cbn [sessions objects Create with_sessions with_objects]. rewrite bool_decide_eq_true_2, lookup_insert_eq by set_solver.
  unfold onDelete, deletion_port, GetMetadata. cbn [s_Type Metadata]. rewrite String.eqb_refl, lookup_insert_eq. cbn [negb]. unfold closeDynamicListener.
  cbn [dynamicListeners portToSession sessions Create with_sessions with_objects with_listeners]. rewrite Hother.
  cbn [dynamicListeners portToSession sessions Create with_sessions with_objects with_listeners]. rewrite !lookup_delete_eq. split; [done|]. split; [done|]. split; [done|]. set_solver.
Qed.

(** ** Opening URLs *)

(** The browser is called only for http and https URLs, and with the firewall on only
    for those the egress check grants; a rules file that cannot be used grants
    nothing. *)
Theorem opened_url_granted compiles match_string body rules browser_ok :
  (handleOpenURL compiles match_string body rules browser_ok).2 = true ->
  exists raw u, body = Some (raw, Some u) /\ raw <> "" /\ (u_Scheme u = "http" \/ u_Scheme u = "https") /\
    forall file, rules = Some file -> exists l, readEgressRules compiles file = Some l /\ CheckURLAgainstEgressRules compiles match_string (Some u) file = Ok tt.
Proof.
  unfold handleOpenURL. destruct body as [[raw [u|]]|]; [|by destruct (String.eqb raw "")|done]. destruct (String.eqb raw "") eqn:Er; [done|]. apply String.eqb_neq in Er.
  destruct (_ && _) eqn:Es; [done|]. intros H. exists raw, u. split; [done|]. split; [done|]. split.
  { apply andb_false_iff in Es as [Es|Es]; apply negb_false_iff, String.eqb_eq in Es; tauto. }
  intros file ->. destruct (CheckURLAgainstEgressRules compiles match_string (Some u) file) as [[]|[]] eqn:Ec; try done.
  destruct (readEgressRules compiles file) as [l|] eqn:El; [by exists l|]. exfalso. revert Ec. unfold CheckURLAgainstEgressRules. rewrite El.
  destruct (schemeToProto _) as [[proto dp]|]; [|done]. destruct (u_hasUser u); [done|]. destruct (negb (String.eqb (u_Opaque u) "")); [done|].
  destruct (String.eqb (u_Hostname u) ""); [done|]. by destruct (if String.eqb (u_Port u) "" then _ else _).
Qed.

(** ** Credentials *)

Definition clean (s : string) : bool := all_chars (fun c => negb (injecting c)) s.
Lemma sanitizer_clean s : clean s = true -> credentialFieldSanitizer s = s.
Proof. unfold clean. induction s as [|c s IH]; [done|]. cbn. intros [Hc Hs]%andb_true_iff. apply negb_true_iff in Hc. by rewrite Hc, IH. Qed.
Lemma clean_free s : clean s = true -> all_chars (free_of newline) s = true.
Proof. apply all_chars_impl. intros c. unfold injecting, free_of. destruct (Ascii.eqb c newline); [done|]. done. Qed.

(** The lines a request stands for. *)
Definition field (key value : string) : list string := if String.eqb value "" then [] else [key +:+ value].
Definition request_lines (req : gitCredentialRequest) : list string :=
  ["protocol=" +:+ g_Protocol req; "host=" +:+ g_Host req] ++ field "path=" (g_Path req) ++ field "username=" (g_Username req) ++ field "password=" (g_Password req).
Definition clean_request (req : gitCredentialRequest) : Prop :=
  clean (g_Protocol req) = true /\ clean (g_Host req) = true /\ clean (g_Path req) = true /\ clean (g_Username req) = true /\ clean (g_Password req) = true.

Definition printed (l : list string) : string := foldr (fun x acc => x +:+ nl +:+ acc) "" l.
Lemma printed_app l l' : printed (l ++ l') = printed l +:+ printed l'.
Proof. induction l as [|x l IH]; [done|]. change (x +:+ nl +:+ printed (l ++ l') = (x +:+ nl +:+ printed l) +:+ printed l'). rewrite IH. by rewrite <- !append_assoc. Qed.
Lemma format_printed req : clean_request req -> formatGitCredentialInput req = printed (request_lines req) +:+ nl.
Proof.
  intros (H1 & H2 & H3 & H4 & H5). unfold formatGitCredentialInput, request_lines. rewrite !sanitizer_clean by done. rewrite !printed_app. unfold field.
  destruct (String.eqb (g_Path req) ""), (String.eqb (g_Username req) ""), (String.eqb (g_Password req) ""); cbn -[String.app]; rewrite <- ?append_assoc; cbn; reflexivity.
Qed.
Lemma Split_printed l t : Forall (fun x => all_chars (free_of newline) x = true) l -> Split newline (printed l +:+ t) = l ++ Split newline t.
Proof.
  induction 1 as [|x l Hx _ IH]; [done|]. cbn [printed foldr]. change (foldr (fun x acc => x +:+ nl +:+ acc) "" l) with (printed l). rewrite <- !append_assoc. change nl with (one newline).
  rewrite Split_app, (Split_free _ _ Hx), IH. done.
Qed.
Lemma key_clean key s : clean key = true -> clean s = true -> clean (key +:+ s) = true.
Proof. unfold clean. intros Hk Hs. by rewrite all_chars_append, Hk, Hs. Qed.
Lemma request_lines_clean req : clean_request req -> Forall (fun x => clean x = true) (request_lines req).
Proof.
  intros (H1 & H2 & H3 & H4 & H5). unfold request_lines, field. rewrite !Forall_app, !Forall_cons. repeat split; try (by apply key_clean); try apply Forall_nil_2;
    (destruct (String.eqb _ ""); [apply Forall_nil_2|apply Forall_cons; split; [by apply key_clean|apply Forall_nil_2]]).
Qed.

(** Whatever a container sends, git reads exactly the lines of the request's own
    fields and a blank line that ends them: no field can add another attribute. *)
Theorem credential_lines_exact body git act input
    (Hrun : (handleGitCredential body git).1 = Some (act, input)) :
  exists req, body = Some req /\ gitAction (g_Action req) = Some act /\ Split newline input = request_lines req ++ [""; ""].
Proof.
  unfold handleGitCredential in Hrun. destruct body as [req|]; [|done]. destruct (gitAction (g_Action req)) as [a|] eqn:Ea; [|done]. destruct (_ || _); [done|]. destruct (existsb _ _) eqn:Ex; [done|].
  cbn in Hrun. injection Hrun as -> <-. exists req. split; [done|]. split; [done|].
  assert (Hc : clean_request req). { unfold containsCredentialInjectionChars in Ex. cbn in Ex. rewrite !orb_false_iff, !negb_false_iff in Ex. unfold clean_request, clean. tauto. }
  rewrite format_printed by done. rewrite Split_printed; [done|]. eapply Forall_impl; [by apply request_lines_clean|]. intros x Hx. by apply clean_free.
Qed.

(** ** The daemon *)

(** Trailing errors of the ticks so far, after [e] earlier ones. *)
Definition trailing (e : nat) (ticks : list (option nat)) : nat := foldl (fun n t => match t with None => S n | Some _ => 0%nat end) e ticks.
Definition quits (max e : nat) (ticks : list (option nat)) : Prop := last ticks = Some (Some 0%nat) \/ ticks <> [] /\ last ticks = Some None /\ (max <= trailing e ticks)%nat.
Lemma quits_cons max e t ticks : ticks <> [] -> quits max e (t :: ticks) <-> quits max (match t with None => S e | Some _ => 0%nat end) ticks.
Proof. intros Hne. unfold quits, trailing. destruct ticks as [|u ticks]; [done|]. cbn [foldl]. split; (intros [H|(_ & H & Hm)]; [left|right]); done. Qed.
Lemma watch_spec max e ticks :
  match watchContainers max e ticks with
  | Some k => (0 < k)%nat /\ quits max e (take k ticks) /\ forall j, (0 < j < k)%nat -> ~ quits max e (take j ticks)
  | None => forall j, ~ quits max e (take j ticks)
  end.
Proof.
  revert e. induction ticks as [|t ticks IH]; intros e; cbn [watchContainers]; [intros [|j] [H|(H & _)]; done|].
  assert (Hgo : forall e', e' = match t with None => S e | Some _ => 0%nat end -> ~ quits max e [t] ->
    match S <$> watchContainers max e' ticks with Some k => (0 < k)%nat /\ quits max e (take k (t :: ticks)) /\ forall j, (0 < j < k)%nat -> ~ quits max e (take j (t :: ticks))
    | None => forall j, ~ quits max e (take j (t :: ticks)) end).
  { intros e' -> Hone. set (e' := match t with None => S e | Some _ => 0%nat end) in *. specialize (IH e').
    assert (Hlater : forall j, quits max e (take (S j) (t :: ticks)) -> quits max e' (take j ticks)).
    { intros j Hq. cbn in Hq. destruct (take j ticks) as [|u l] eqn:E; [by destruct Hone|]. rewrite <- E in *. by apply quits_cons in Hq; [|rewrite E]. }
    destruct (watchContainers max e' ticks) as [k|]; cbn.
    - destruct IH as (Hk & Hq & Hno). split; [lia|]. split.
      + destruct k as [|k]; [lia|]. cbn. apply quits_cons; [|done]. intros E. rewrite E in Hq. by destruct Hq as [Hq|(Hq & _)].
      + intros [|j] Hj Hx; [lia|]. destruct j as [|j]; [by apply Hone|]. apply (Hno (S j)); [lia|]. by apply Hlater.
    - intros [|j] Hq; [by destruct Hq as [Hq|(Hq & _)]|]. by apply (IH j), Hlater. }
  destruct t as [[|n]|].
  - split; [lia|]. split; [by left|]. intros j Hj. lia.
  - apply Hgo; [done|]. by intros [H|(_ & H & _)].
  - destruct (max <=? S e)%nat eqn:Em; [apply Nat.leb_le in Em|apply Nat.leb_gt in Em].
    + split; [lia|]. split; [right; split; [done|]; split; [done|]; change (max <= S e)%nat; lia|]. intros j Hj. lia.
    + apply Hgo; [done|]. intros [H|(_ & _ & H)]; [done|]. change (max <= S e)%nat in H. lia.
Qed.
(** The daemon leaves at the first tick that counts no container, or that is the last
    of as many failed ones in a row as configured, and not before. *)
Theorem watch_leaves max ticks :
  match watchContainers max 0 ticks with
  | Some k => (0 < k)%nat /\ quits max 0 (take k ticks) /\ forall j, (0 < j < k)%nat -> ~ quits max 0 (take j ticks)
  | None => forall j, ~ quits max 0 (take j ticks)
  end.
Proof. apply watch_spec. Qed.

(** A second daemon that cannot bind has overwritten the PID file of the first, and
    removes it on its way out: the first can no longer be found or stopped. *)
Theorem second_daemon_erases_pid h s p pid
    (Hp : pid_file h = Some (Itoa p)) (Halive : p ∈ alive h) (Hr : running s = false) :
  let '(h', _, ok) := Run_start pid (false, false) s h in ok = false /\ p ∈ alive h' /\ IsDaemonRunning h' = false /\ StopDaemon h' = (h', NotRunning).
Proof. unfold Run_start, Start. rewrite Hr. done. Qed.

(** ** Instances *)

Definition demo_request : Request := mkRequest (OnPort 8085) "GET" "/callback" "code=4f2a" {["Cookie" := ["session=1"]; "Accept" := ["text/html"; "image/png"]]} None.
Definition demo_register : Server := (handleCallbackRegister (Some "5e55") true 0 (Some (mkRegister 8085 "" 60)) NewServer).1.
Definition demo_read : option CallbackData := Some (mkData "GET" "/callback" "code=4f2a" {["Accept" := "text/html"]} "").
Lemma demo_run : exists c, rtc step start c /\ captured c = [("5e55", demo_request)] /\ (GetData 1000 "5e55" (srv c)).2 = demo_read.
Proof.
  eexists. split.
  - eapply rtc_l; [apply (st_register NewServer [] [] [] [] [] [] "5e55" 0 8085 "/callback" (60 * second)); [reflexivity|lia]|].
    eapply rtc_l; [apply (st_listen _ [] 8085 "5e55" [] [] [] [] [] [] true)|].
    eapply rtc_l; [eapply (st_arrive_port _ _ _ _ _ _ _ 8085 "5e55" demo_request); [vm_compute; reflexivity|reflexivity]|].
    eapply rtc_l; [eapply (st_get _ _ _ [] "5e55" demo_request [] _ _ _ 500); [vm_compute; reflexivity|reflexivity|reflexivity]|].
    eapply rtc_l; [eapply (st_mark _ _ _ _ [] "5e55" demo_request []); [vm_compute; reflexivity|vm_compute; reflexivity]|].
    eapply rtc_l; [apply (st_data _ _ _ _ _ [] "5e55" demo_request [])|]. apply rtc_refl.
  - split; vm_compute; reflexivity.
Qed.
Lemma callback_once_witness :
  exists c, rtc step start c /\ captured c = [("5e55", demo_request)] /\ NoDup (captured c).*1 /\ (GetData 1000 "5e55" (srv c)).2 = demo_read.
Proof. destruct demo_run as (c & Hr & Hc & Hd). exists c. split; [exact Hr|]. split; [exact Hc|]. split; [apply (callback_once c Hr)|exact Hd]. Defined.
Lemma callback_roundtrip_witness :
  (handleCallbackGetData 2000 "5e55" (handleDynamicCallback 1000 8085 demo_request demo_register).1).2 = (StatusOK, Received (callback_data demo_request)).
Proof.
  pose proof (callback_roundtrip NewServer "5e55" 0 8085 60 "" demo_request ltac:(lia) eq_refl 1000 2000 demo_request ltac:(vm_compute; discriminate) ltac:(vm_compute; discriminate) ltac:(discriminate)) as H.
  cbv zeta in H. fold demo_register in H. destruct (handleDynamicCallback 1000 8085 demo_request demo_register) as [s2 st]. exact (proj1 (proj2 (proj2 H))).
Defined.
Lemma credential_lines_exact_witness :
  Split newline (formatGitCredentialInput (mkCredReq "get" "https" "github.com" "" "octocat" "")) = ["protocol=https"; "host=github.com"; "username=octocat"; ""; ""].
Proof.
  destruct (credential_lines_exact (Some (mkCredReq "get" "https" "github.com" "" "octocat" "")) (fun _ _ => None) "fill" _ eq_refl) as (req & [= <-] & _ & H). exact H.
Defined.

End HostServerSpec.
