(* ===== verification/EnvoyPolicy.v ===== *)
(** * Where a generated configuration lets traffic go

    The egress policy, stated over connections and requests, and the proof that
    a configuration of [GenerateEnvoyConfig] (controlplane/firewall,
    envoy_config.go) enforces it.  Envoy is not in the repository: what its
    documentation says of listeners, virtual hosts, routes and clusters is an
    interface of operations and one of laws. *)

From S2P Require Import Prelude GoStrings GoNet IPText EgressRule Spans Rules Conflicts Canonical DstSyntax Mappings Checks HttpRoutes EnvoyTree Generator EnvoyLayers EnvoyInv HostProxy.
Import Go IPText Rule Spans Rules Conflicts Canonical Mappings Checks HttpRoutes EnvoyTree Generator EnvoyLayers EnvoyInv.

Module EnvoyPolicy.

(** ** Envoy *)

(** A connection as a listener sees it: the transport the listener detected, the
    server name of its handshake, and the destination it was opened to. *)
Record conn := mkConn { c_transport : string; c_sni : string; c_dst : GoNet.Addr; c_port : Z }.
(** The authority is in lower case, as hosts are compared. *)
Record request := mkRequest { q_authority : string; q_method : string; q_path : string }.
Inductive target := ToHost (host : string) (port : Z) | ToAddr (a : GoNet.Addr) (port : Z).

(** A host pattern: every host, a suffix, a prefix, or one host. *)
Definition domain_matches (authority pattern : string) : bool :=
  if String.eqb pattern "*" then true
  else
    match strip_prefix "*" pattern, strip_suffix "*" pattern with
    | Some suffix, _ => HasSuffix authority suffix && (String.length suffix <? String.length authority)%nat
    | None, Some prefix => HasPrefix authority prefix && (String.length prefix <? String.length authority)%nat
    | None, None => String.eqb authority pattern
    end.

Definition chain_matches (in_prefix : string * Z -> GoNet.Addr -> bool) (c : conn) (m : chainMatch) : bool :=
  match transport_protocol m with None => true | Some t => String.eqb (c_transport c) t end &&
  match server_names m with [] => true | ns => existsb (domain_matches (c_sni c)) ns end &&
  match prefix_ranges m with None => true | Some p => in_prefix p (c_dst c) end &&
  match destination_port m with None => true | Some p => c_port c =? p end.

Class Envoy := {
  (** an address in a prefix given as text *)
  in_prefix : string * Z -> GoNet.Addr -> bool;
  pick_chain : list chain -> conn -> option chain;
  pick_vhost : list vhost -> string -> option vhost;
  full_match : string -> string -> bool;
  pick_route : list httpRoute -> request -> option httpRoute;
  (** host and port of an authority, given a default port *)
  authority_target : Z -> string -> string * Z;
}.

Definition colon_free (s : string) : bool := all_chars (fun d => negb (Ascii.eqb ":" d)) s.

(** Envoy narrows the chains of a listener by port, range, server name and transport,
    each time to the most specific ones, and does not go back: a connection may fit a
    chain and get none.  The laws only say that the chain a connection gets fits it,
    and that the only chain of a listener is got when it asks for nothing. *)
Class EnvoyLaws `{Envoy} : Prop := {
  in_prefix_parsed text a n d : GoNet.ParseIP text = Some a -> 0 <= n <= GoNet.BitLen a ->
    in_prefix (text, n) d = GoNet.Contains {| GoNet.pfx_addr := a; GoNet.pfx_bits := n |} d;
  pick_chain_matches chs c ch : pick_chain chs c = Some ch -> ch ∈ chs /\ forall m, ch_match ch = Some m -> chain_matches in_prefix c m = true;
  pick_chain_only ch c : ch_match ch = None -> pick_chain [ch] c = Some ch;
  pick_vhost_matches vs a v : pick_vhost vs a = Some v -> v ∈ vs /\ existsb (domain_matches a) (vh_domains v) = true;
  pick_route_first rs q : pick_route rs q = head (filter (fun rt => HostProxy.route_matches full_match (q_method q) (q_path q) rt = true) rs);
  authority_bare d a : colon_free a = true -> authority_target d a = (a, d);
  authority_port d h p : colon_free h = true -> 0 <= p <= 65535 -> authority_target d (h +:+ ":" +:+ Itoa p) = (h, p);
}.

Section Traffic.
Context `{EnvoyLaws}.

(** The endpoint of a cluster; a forward proxy goes where the authority says. *)
Definition upstream (c : conn) (q : request) (cl : cluster) : option target :=
  match cl_discovery cl with
  | Static h p | LogicalDNS h p | StrictDNS h p => Some (ToHost h p)
  | OriginalDst => Some (ToAddr (c_dst c) (c_port c))
  | DynamicForwardProxy _ => let '(h, p) := authority_target (match cl_tls cl with None => 80 | Some _ => 443 end) (q_authority q) in Some (ToHost h p)
  | NoEndpoints => None
  end.

(** The verdict in a record of the egress log: the log's own, or what the metadata of
    the route says when the log asks for it, which is a dash when there is none. *)
Definition metadata_value (md : metadata) (space key : string) : string :=
  default "-" (kvs ← snd <$> List.find (fun p => String.eqb p.1 space) md; snd <$> List.find (fun p => String.eqb p.1 key) kvs).
Definition logged (log : accessLog) (md : metadata) : string :=
  if String.eqb (al_action log) routeActionOperator then metadata_value md "clawker" "action" else al_action log.

(** Where a connection and its request go, and the verdict in the egress log.
    A request without a virtual host or a route goes nowhere.  Datagrams have no
    request; the health listener answers by itself. *)
Definition serve_filter (cfg : EnvoyConfig) (c : conn) (q : request) (f : networkFilter) : option (option target * string) :=
  match f with
  | TcpProxy _ n log => Some (clusters cfg !! n ≫= upstream c q, logged log [])
  | HCM h =>
      match v ← pick_vhost (hcm_vhosts h) (q_authority q); pick_route (vh_routes v) q with
      | None => Some (None, logged (hcm_log h) [])
      | Some rt =>
          Some (match hr_action rt with Forward n _ => clusters cfg !! n ≫= upstream c q | DirectResponse403 => None end, logged (hcm_log h) (hr_metadata rt))
      end
  end.
Definition serve (cfg : EnvoyConfig) (listener : string) (c : conn) (q : request) : option (option target * string) :=
  l ← listeners cfg !! listener;
  match lb_kind (l_base l) with
  | KindHealth => None
  | KindUDP => match lb_filters (l_base l) with Some (UdpProxy _ n log) => Some (clusters cfg !! n ≫= upstream c q, logged log []) | _ => None end
  | KindTCP | KindQUIC =>
      ch ← match pick_chain (l_chains l) c with Some ch => Some ch | None => l_default l end;
      match ch_filters ch with [f] => serve_filter cfg c q f | _ => None end
  end.

(** ** The policy *)

Definition pr_matches (q : request) (pr : PathRule) : bool :=
  match pathSpecifier (Path pr) with Prefix p => HasPrefix (q_path q) p | SafeRegex rx => full_match rx (q_path q) end &&
  match methodHeaderMatch (Methods pr) with AnyMethod => true | ExactMethod m => String.eqb (q_method q) m | RegexMethod rx => full_match rx (q_method q) end.
(** The first of the longest matching path rules decides, else the default. *)
Definition path_allowed (r : EgressRule) (q : request) : bool :=
  match pick (pr_matches q) (PathRules r) with
  | Some pr => EqualFold (PathAction pr) "allow"
  | None => negb (EqualFold (EffectivePathDefault r) "deny")
  end.

(** An address in the range of a rule; an IPv6 range is what Envoy makes of its
    text. *)
Definition in_range (r : EgressRule) (a : GoNet.Addr) : bool :=
  match GoNet.ParseCIDR (Dst r) with
  | Some p => match GoNet.pfx_addr p with GoNet.Addr4 _ => GoNet.Contains p a | GoNet.Addr6 _ _ => in_prefix (ipPrefixRange (Dst r)) a end
  | None => false
  end.
(** A host of a wildcard: the domain or something under it. *)
Definition under (domain host : string) : Prop := host = domain \/ HasSuffix host ("." +:+ domain) = true.
Definition named_by (r : EgressRule) (q : request) : Prop :=
  existsb (domain_matches (q_authority q)) (httpDomains (Dst r) (web_port r) (bare_port r)) = true.
Definition opaque_ports (r : EgressRule) : list Z := dedicatedPorts r (if is_udp_class (family r) then udpDefaultPort else tcpDefaultPort).

Inductive grants (r : EgressRule) (c : conn) (q : request) : target -> Prop :=
  | grants_opaque port : isOpaqueProto (Proto r) = true -> port ∈ opaque_ports r -> grants r c q (ToHost (normalizeDomain (Dst r)) port)
  | grants_opaque_range : isOpaqueProto (Proto r) = true -> c_port c ∈ opaque_ports r -> in_range r (c_dst c) = true -> grants r c q (ToAddr (c_dst c) (c_port c))
  | grants_host : is_web r -> isWildcardDomain (Dst r) = false -> named_by r q -> path_allowed r q = true ->
      grants r c q (ToHost (normalizeDomain (Dst r)) (web_port r))
  | grants_wildcard h : is_web r -> isWildcardDomain (Dst r) = true -> named_by r q -> under (normalizeDomain (Dst r)) h -> path_allowed r q = true ->
      grants r c q (ToHost h (web_port r))
  | grants_range : is_web r -> c_port c = web_port r -> in_range r (c_dst c) = true -> path_allowed r q = true -> grants r c q (ToAddr (c_dst c) (c_port c)).

(** ** Routes *)

Lemma route_pr_matches n ws q pr : HostProxy.route_matches full_match (q_method q) (q_path q) (path_route n ws pr) = pr_matches q pr.
Proof. unfold path_route, httpAllowRoute, httpDenyRoute. by destruct (EqualFold (PathAction pr) "allow"). Qed.

Lemma httpRoutes_forward r n ws q rt m w :
  pick_route (httpRoutes r n ws) q = Some rt -> hr_action rt = Forward m w -> m = n /\ path_allowed r q = true.
Proof.
  rewrite pick_route_first. unfold httpRoutes. set (dflt := if EqualFold (EffectivePathDefault r) "deny" then _ else _). intros Hh Ha.
  set (P := HostProxy.route_matches full_match (q_method q) (q_path q)) in *.
  assert (head (filter (fun rt => P rt = true) ((path_route n ws <$> sort_paths (PathRules r)) ++ [dflt])) = Some rt) as Hh'.
  { by destruct (PathRules r). }
  clear Hh. rewrite filter_app in Hh'. unfold path_allowed.
  assert (head (filter (fun rt => P rt = true) (path_route n ws <$> sort_paths (PathRules r))) = path_route n ws <$> pick (pr_matches q) (PathRules r)) as Hp.
  { rewrite HostProxy.head_filter_fmap, <- sort_paths_first. do 2 f_equal. apply (HostProxy.filter_ext_in (fun a => P (path_route n ws a))). intros x _. apply route_pr_matches. }
  destruct (filter _ (path_route n ws <$> _)) as [|x l].
  - destruct (pick _ _); [done|]. rewrite app_nil_l in Hh'. rewrite filter_cons, filter_nil in Hh'. destruct (decide _); [|done]. injection Hh' as <-. unfold dflt in Ha.
    destruct (EqualFold (EffectivePathDefault r) "deny"); [done|]. by injection Ha as <- <-.
  - injection Hh' as ->. destruct (pick _ _) as [pr|]; [|done]. injection Hp as ->. unfold path_route in Ha. destruct (EqualFold (PathAction pr) "allow"); [|done].
    by injection Ha as <- <-.
Qed.

(** The metadata of a route tells what the route does. *)
Definition route_verdict (rt : httpRoute) : string := match hr_action rt with Forward _ _ => VerdictAllowed | DirectResponse403 => VerdictDenied end.
Lemma httpRoutes_metadata r n ws rt : rt ∈ httpRoutes r n ws -> hr_metadata rt = clawkerActionMetadata (route_verdict rt).
Proof.
  unfold httpRoutes. set (dflt := if EqualFold (EffectivePathDefault r) "deny" then _ else _). intros Hin.
  assert (rt ∈ (path_route n ws <$> sort_paths (PathRules r)) ++ [dflt]) as [(pr & -> & _)%list_elem_of_fmap| ->%list_elem_of_singleton]%elem_of_app by (by destruct (PathRules r)).
  - unfold path_route. by destruct (EqualFold (PathAction pr) "allow").
  - unfold dflt. by destruct (EqualFold _ _).
Qed.
Lemma picked_route rs q rt : pick_route rs q = Some rt -> rt ∈ rs.
Proof. rewrite pick_route_first. intros Hh%head_Some_elem_of. by apply list_elem_of_filter in Hh as [_ ?]. Qed.
Lemma logged_route log rt : al_action log = routeActionOperator -> hr_metadata rt = clawkerActionMetadata (route_verdict rt) -> logged log (hr_metadata rt) = route_verdict rt.
Proof. intros Hl ->. unfold logged. by rewrite Hl. Qed.

(** ** Ranges *)

Lemma range_matches r c m port :
  isCIDR (Dst r) = true -> gated m r port -> (forall mm, m = Some mm -> chain_matches in_prefix c mm = true) -> c_port c = port /\ in_range r (c_dst c) = true.
Proof.
  intros Hc (mm & -> & Hp & Hport) Hm. specialize (Hm mm eq_refl). unfold chain_matches in Hm. rewrite Hp, Hport in Hm.
  apply andb_true_iff in Hm as [Hm ->%Z.eqb_eq]. apply andb_true_iff in Hm as [_ Hm]. split; [done|]. unfold in_range.
  unfold isCIDR in Hc. case_bool_decide; [done|]. apply bool_decide_eq_true_1 in Hc as (p & Ep). rewrite Ep. destruct (GoNet.pfx_addr p) as [b|b z] eqn:Ea; [|done].
  destruct (masked_prefix (Dst r) p b _ (c_dst c) Ep Ea eq_refl) as (Hparse & Hn & <-). unfold ipPrefixRange in Hm. rewrite Ep in Hm.
  rewrite (in_prefix_parsed _ _ _ _ Hparse) in Hm; [exact Hm|]. rewrite Ea. exact Hn.
Qed.

(** ** Hosts of a wildcard *)

(** An authority is a host, or a host with a decimal port. *)
Definition wf_authority (a : string) : Prop :=
  colon_free a = true \/ exists h ds, colon_free h = true /\ all_chars is_digit ds = true /\ a = h +:+ ":" +:+ ds.

Definition plain (s : string) : bool := all_chars (fun d => negb (Ascii.eqb ":" d) && negb (Ascii.eqb "*" d)) s.
Lemma plain_colon_free s : plain s = true -> colon_free s = true.
Proof. apply all_chars_impl. intros c [? _]%andb_true_iff. done. Qed.

Lemma split_dots_chars n (p : ascii -> bool) : p "."%char = true -> Forall (fun l => all_chars p l = true) (DstSyntax.split_dots n) -> all_chars p n = true.
Proof.
  intros Hd. induction n as [|c n IH]; cbn; [done|]. destruct (Ascii.eqb_spec c "."%char) as [->|].
  - intros [_ Hn]%Forall_cons. by rewrite Hd, IH.
  - destruct (DstSyntax.split_dots_cons n) as (l & ls & Hs). rewrite Hs in *. intros [Hl Hls]%Forall_cons. cbn in Hl. apply andb_true_iff in Hl as [-> Hl]. by rewrite IH; [|constructor].
Qed.
(** The domain of a valid wildcard has no colon and no star. *)
Lemma wildcard_plain dst : ValidateDst dst = Ok tt -> isWildcardDomain dst = true -> plain (normalizeDomain dst) = true.
Proof.
  intros Hv%DstSyntax.ValidateDst_spec Hw. destruct (isIPOrCIDR (normalizeDomain dst)); [unfold isWildcardDomain in Hw; congruence|].
  destruct Hv as (_ & Hl & _). apply split_dots_chars; [done|]. eapply Forall_impl; [exact Hl|]. intros l [_ _ Hc _ _]. eapply all_chars_impl; [|exact Hc].
  intros c. destruct c as [[][][][][][][][]]; by vm_compute.
Qed.

Lemma colon_free_app s t : colon_free (s +:+ t) = colon_free s && colon_free t.
Proof. apply all_chars_append. Qed.
Lemma digits_colon_free ds : all_chars is_digit ds = true -> colon_free ds = true.
Proof. apply all_chars_impl. intros c. destruct c as [[][][][][][][][]]; by vm_compute. Qed.
Lemma no_star_matches a s : all_chars (fun d => negb (Ascii.eqb "*" d)) s = true -> domain_matches a s = true -> a = s.
Proof.
  intros Hs. unfold domain_matches. destruct (String.eqb_spec s "*") as [->|_]; [done|].
  destruct (strip_prefix "*" s) as [u|] eqn:E1; [apply strip_prefix_spec in E1 as ->; done|].
  destruct (strip_suffix "*" s) as [u|] eqn:E2; [|intros E; by apply String.eqb_eq in E].
  apply strip_suffix_spec in E2 as ->. rewrite all_chars_append in Hs. by rewrite andb_false_r in Hs.
Qed.
Lemma star_matches a s : s <> "" -> domain_matches a ("*" +:+ s) = true -> exists h, a = h +:+ s.
Proof.
  intros Hne. unfold domain_matches. destruct (String.eqb_spec ("*" +:+ s) "*") as [E|_]; [by destruct s|].
  assert (strip_prefix "*" ("*" +:+ s) = Some s) as -> by (by apply strip_prefix_spec). intros [Hs _]%andb_true_iff. by apply HasSuffix_spec.
Qed.

(** Such an authority with a suffix: the suffix is of the host or ends in the port. *)
Lemma suffix_bare a h d : wf_authority a -> colon_free d = true -> a = h +:+ "." +:+ d -> colon_free a = true.
Proof.
  intros [?|(h' & ds & Hh & Hds & ->)] Hd E; [done|]. exfalso.
  assert (all_chars (fun x => negb (Ascii.eqb "." x)) ds = true) as Hdot by (eapply all_chars_impl; [|exact Hds]; intros c; destruct c as [[][][][][][][][]]; by vm_compute).
  assert (colon_free h = true \/ colon_free h = false) as [Hc|Hc] by (destruct (colon_free h); auto).
  - assert (colon_free (h +:+ "." +:+ d) = true) as Hall by (by rewrite !colon_free_app, Hc, Hd).
    rewrite <- E, !colon_free_app, andb_comm in Hall. done.
  - assert (exists u v, h = u +:+ ":" +:+ v /\ colon_free v = true) as (u & v & -> & Hv).
    { clear E. induction h as [|c h IH]; [done|]. unfold colon_free in Hc, IH. cbn [all_chars] in Hc. destruct (all_chars _ h) eqn:Eh.
      - rewrite andb_true_r in Hc. apply negb_false_iff, Ascii.eqb_eq in Hc as <-. by exists "", h.
      - destruct (IH eq_refl) as (u & v & -> & Hv). by exists (String c u), v. }
    change (":" +:+ ds) with (String ":" ds) in E. change (":" +:+ v) with (String ":" v) in E. rewrite <- append_assoc in E. change (String ":" v +:+ "." +:+ d) with (String ":" (v +:+ "." +:+ d)) in E.
    apply last_sep_inj in E as [_ ->]; [|by apply digits_colon_free|fold (colon_free (v +:+ "." +:+ d)); by rewrite !colon_free_app, Hv, Hd].
    rewrite !all_chars_append, andb_comm in Hdot. done.
Qed.
Lemma suffix_port a h p : wf_authority a -> all_chars is_digit p = true -> a = h +:+ ":" +:+ p -> colon_free h = true.
Proof.
  intros [Ha|(h' & ds & Hh & Hds & ->)] Hp E.
  - rewrite E, !colon_free_app, andb_comm in Ha. done.
  - apply last_sep_inj in E as [-> _]; [done|by apply digits_colon_free|by apply digits_colon_free].
Qed.

Lemma wildcard_target r q dflt :
  isWildcardDomain (Dst r) = true -> plain (normalizeDomain (Dst r)) = true -> wf_authority (q_authority q) -> named_by r q -> 0 <= web_port r <= 65535 -> dflt = bare_port r ->
  exists h, authority_target dflt (q_authority q) = (h, web_port r) /\ under (normalizeDomain (Dst r)) h.
Proof.
  intros Hw Hpl Hwf Hn Hp ->. unfold named_by, httpDomains in Hn. rewrite Hw in Hn. set (dom := normalizeDomain (Dst r)) in *. set (a := q_authority q) in *.
  pose proof (Itoa_digits (web_port r) ltac:(lia)) as Hdig. pose proof (plain_colon_free _ Hpl) as Hcf.
  assert (forall s, plain s = true -> all_chars is_digit (Itoa (web_port r)) = true -> all_chars (fun d => negb (Ascii.eqb "*" d)) (s +:+ ":" +:+ Itoa (web_port r)) = true) as Hns.
  { intros s Hs Hi. rewrite !all_chars_append. assert (all_chars (fun d => negb (Ascii.eqb "*" d)) s = true) as -> by (eapply all_chars_impl; [|exact Hs]; by intros c [_ ?]%andb_true_iff).
    cbn. eapply all_chars_impl; [|exact Hi]. intros c. destruct c as [[][][][][][][][]]; by vm_compute. }
  assert (forall h, a = h -> colon_free h = true -> under dom h -> web_port r = bare_port r -> exists h, authority_target (bare_port r) a = (h, web_port r) /\ under dom h) as Hbare.
  { intros h Ea Hc Hu Hb. exists h. split; [|done]. rewrite Ea, Hb. by apply authority_bare. }
  assert (forall h, a = h +:+ ":" +:+ Itoa (web_port r) -> under dom h -> exists h, authority_target (bare_port r) a = (h, web_port r) /\ under dom h) as Hport.
  { intros h Ea Hu. exists h. split; [|done]. pose proof (suffix_port a h _ Hwf Hdig Ea) as Hc. rewrite Ea. by apply authority_port. }
  rewrite !existsb_app in Hn. apply orb_true_iff in Hn as [Hn|Hn]; [|apply orb_true_iff in Hn as [Hn|Hn]; [|apply orb_true_iff in Hn as [Hn|Hn]]].
  - destruct (Z.eqb_spec (web_port r) (bare_port r)) as [Eb|]; [|done]. cbn [existsb] in Hn. rewrite orb_false_r in Hn.
    apply (star_matches a ("." +:+ dom)) in Hn as (h & Ea); [|done]. eapply (Hbare a); [done|by eapply suffix_bare|right|done]. apply HasSuffix_spec. eauto.
  - cbn [existsb] in Hn. rewrite orb_false_r in Hn. apply (star_matches a ("." +:+ dom +:+ ":" +:+ Itoa (web_port r))) in Hn as (h & Ea); [|done].
    apply (Hport (h +:+ "." +:+ dom)); [by rewrite Ea, !append_assoc|right]. apply HasSuffix_spec. eauto.
  - destruct (Z.eqb_spec (web_port r) (bare_port r)) as [Eb|]; [|done]. cbn [existsb] in Hn. rewrite orb_false_r in Hn.
    apply no_star_matches in Hn; [|eapply all_chars_impl; [|exact Hpl]; by intros c [_ ?]%andb_true_iff]. apply (Hbare dom); [done|done|by left|done].
  - cbn [existsb] in Hn. rewrite orb_false_r in Hn. apply no_star_matches in Hn; [|by apply Hns]. apply (Hport dom); [done|by left].
Qed.

(** ** What the parts of a configuration do *)

Section Config.
Context (rules : list EgressRule) (cfg : EnvoyConfig) (Hcfg : tree_ok (origin rules) (clusters cfg) (listeners cfg))
  (Hvalid : Forall (fun r => ValidateDst (Dst r) = Ok tt) rules).

(** An outcome: forwarded as some rule grants and logged so, or not forwarded and
    not logged as allowed. *)
Definition outcome_ok (c : conn) (q : request) (o : option target) (v : string) : Prop :=
  match o with
  | Some t => v = VerdictAllowed /\ (wf_authority (q_authority q) -> exists r, allowed (origin rules) r /\ grants r c q t)
  | None => v <> VerdictAllowed
  end.

Lemma pinned_upstream c q cl h p : pinned_to cl h p -> upstream c q cl = Some (ToHost h p).
Proof. unfold upstream. by intros [-> | ->]. Qed.
Lemma blackholed_outcome c q n log : blackholed (clusters cfg) n log -> outcome_ok c q (clusters cfg !! n ≫= upstream c q) (logged log []).
Proof. intros (Ha & cl & -> & Hd). unfold logged. rewrite Ha. cbn. unfold upstream. by rewrite Hd. Qed.
Lemma logged_allowed log : al_action log = VerdictAllowed -> logged log [] = VerdictAllowed.
Proof. unfold logged. by intros ->. Qed.

Lemma tcp_family r : is_tcp_class (family r) = true -> isOpaqueProto (Proto r) = true /\ opaque_ports r = dedicatedPorts r tcpDefaultPort.
Proof. unfold opaque_ports, isOpaqueProto, is_tcp_class, is_udp_class, family. intros [H1%String.eqb_eq|H1%String.eqb_eq]%orb_true_iff; by rewrite H1. Qed.
Lemma udp_family r : is_udp_class (family r) = true -> isOpaqueProto (Proto r) = true /\ opaque_ports r = dedicatedPorts r udpDefaultPort.
Proof. unfold opaque_ports, isOpaqueProto. intros H1. rewrite H1. unfold is_udp_class, family in H1. by rewrite H1, orb_true_r. Qed.
Lemma web_port_bounds r : 0 <= web_port r <= 65535.
Proof.
  unfold web_port, httpPort, httpsPort, defaultHTTPPort, defaultDestPort. destruct (SinglePort r) as [p|] eqn:E; [|destruct (String.eqb _ _); cbn; lia].
  apply SinglePort_span, PortSpan_bounds in E. unfold maxPort in E. destruct (String.eqb _ _); cbn; lia.
Qed.

Lemma tcp_outcome c q m n log :
  tcp_ok (origin rules) (clusters cfg) m n log -> (forall mm, m = Some mm -> chain_matches in_prefix c mm = true) -> outcome_ok c q (clusters cfg !! n ≫= upstream c q) (logged log []).
Proof.
  intros [Hb|(r & port & cl & Ha & Hf & Hp & ->%logged_allowed & -> & Hk)] Hm; [by apply blackholed_outcome|]. destruct (tcp_family r Hf) as [Ho Hports]. rewrite <- Hports in Hp. cbn [mbind option_bind].
  destruct Hk as [(Hc & Hpin)|(Hc & Hd & Hg)].
  - rewrite (pinned_upstream _ _ _ _ _ Hpin). split; [done|]. intros _. exists r. split; [done|]. by constructor.
  - unfold upstream. rewrite Hd. destruct (range_matches r c m port Hc Hg Hm) as [Hcp Hr]. split; [done|]. intros _. exists r. split; [done|]. by apply grants_opaque_range; [|rewrite Hcp|].
Qed.
Lemma udp_outcome c q n log : udp_ok (origin rules) (clusters cfg) n log -> outcome_ok c q (clusters cfg !! n ≫= upstream c q) (logged log []).
Proof.
  intros [Hb|(r & port & cl & Ha & Hf & Hp & ->%logged_allowed & -> & Hpin)]; [by apply blackholed_outcome|]. destruct (udp_family r Hf) as [Ho Hports]. rewrite <- Hports in Hp. cbn [mbind option_bind].
  rewrite (pinned_upstream _ _ _ _ _ Hpin). split; [done|]. intros _. exists r. split; [done|]. by constructor.
Qed.

Lemma origin_valid r : origin rules r -> ValidateDst (Dst r) = Ok tt.
Proof. intros (r0 & Hr & _ & ->). destruct (promoted_fields r0) as (-> & _ & _). rewrite Forall_forall in Hvalid. by apply Hvalid. Qed.

(** A host that a matching rule's route forwards. *)
Lemma web_outcome c q m r domains cl :
  allowed (origin rules) r -> is_web r -> web_target m r domains cl -> (forall mm, m = Some mm -> chain_matches in_prefix c mm = true) ->
  existsb (domain_matches (q_authority q)) domains = true -> path_allowed r q = true -> outcome_ok c q (upstream c q cl) VerdictAllowed.
Proof.
  intros Ha Hw Ht Hm Hd Hp. destruct Ht as [Hc Hdisc Hg|Hc Hpin Hwild ->|cache Hc Hdisc Hwild Htls ->].
  - unfold upstream. rewrite Hdisc. destruct (range_matches r c m _ Hc Hg Hm) as [Hcp Hr]. split; [done|]. intros _. exists r. split; [done|]. by apply grants_range.
  - rewrite (pinned_upstream _ _ _ _ _ Hpin). split; [done|]. intros _. exists r. split; [done|]. by apply grants_host.
  - unfold upstream. rewrite Hdisc. set (dflt := match cl_tls cl with None => 80 | Some _ => 443 end).
    destruct (authority_target dflt (q_authority q)) as [h p] eqn:Et. split; [done|]. intros Hwf. exists r. split; [done|].
    assert (dflt = bare_port r) as Eb.
    { unfold dflt, bare_port. destruct (String.eqb_spec (family r) "http") as [Ef|Ef]; [by rewrite (proj2 Htls Ef)|]. destruct (cl_tls cl); [done|]. by destruct (Ef (proj1 Htls eq_refl)). }
    destruct (wildcard_target r q dflt Hwild) as (h' & Et' & Hu); [apply wildcard_plain; [apply origin_valid, Ha|done]|done|exact Hd|apply web_port_bounds|done|].
    rewrite Et in Et'. injection Et' as -> ->. by apply grants_wildcard.
Qed.

Lemma filter_outcome c q ch f o v :
  chain_ok (origin rules) (clusters cfg) ch -> ch_filters ch = [f] -> (forall mm, ch_match ch = Some mm -> chain_matches in_prefix c mm = true) ->
  serve_filter cfg c q f = Some (o, v) -> outcome_ok c q o v.
Proof.
  unfold chain_ok. intros Hch Hf Hm. rewrite Hf in Hch. destruct f as [h|sp n log]; cbn [serve_filter]; [|intros [= <- <-]; by eapply tcp_outcome].
  destruct Hch as [Hlog Hch]. assert (outcome_ok c q None (logged (hcm_log h) [])) as Hnone by (unfold logged; by rewrite Hlog).
  destruct (pick_vhost (hcm_vhosts h) (q_authority q)) as [vh|] eqn:Ev; [|by intros [= <- <-]]. cbn [mbind option_bind]. destruct (pick_route (vh_routes vh) q) as [rt|] eqn:Er; [|by intros [= <- <-]].
  intros [= <- <-]. apply pick_vhost_matches in Ev as [Hin Hdom]. rewrite Forall_forall in Hch. destruct (Hch vh Hin) as [Hr|(r & n & ws & cl & Ha & Hw & Hr & Hc & Ht)]; rewrite Hr in Er.
  - apply picked_route, list_elem_of_singleton in Er as ->. rewrite logged_route by done. done.
  - rewrite logged_route by (try done; by eapply httpRoutes_metadata, picked_route). unfold route_verdict. destruct (hr_action rt) as [m w|] eqn:Ea; [|done].
    destruct (httpRoutes_forward r n ws q rt m w Er Ea) as [-> Hp]. rewrite Hc. by eapply web_outcome.
Qed.

Lemma traffic_outcome l c q o v : serve cfg l c q = Some (o, v) -> outcome_ok c q o v.
Proof.
  unfold serve. destruct (listeners cfg !! l) as [lis|] eqn:El; [|done]. cbn [mbind option_bind]. destruct (Hcfg l lis El) as [H1 H2 H3].
  assert (forall r, (ch ← match pick_chain (l_chains lis) c with Some ch => Some ch | None => l_default lis end;
      match ch_filters ch with [f] => serve_filter cfg c q f | _ => None end) = r -> r = Some (o, v) -> outcome_ok c q o v) as Hchain.
  { intros r <-. destruct (pick_chain (l_chains lis) c) as [ch|] eqn:Ep; cbn [mbind option_bind].
    - apply pick_chain_matches in Ep as [Hin Hm]. rewrite Forall_forall in H1. destruct (ch_filters ch) as [|f [|]] eqn:Ef; try done. by apply filter_outcome with ch; [apply H1| |].
    - destruct (l_default lis) as [ch|] eqn:Ed; [|done]. destruct (H2 ch eq_refl) as [Hn Hch]. cbn [mbind option_bind]. destruct (ch_filters ch) as [|f [|]] eqn:Ef; try done.
      apply filter_outcome with ch; [done|done|]. by rewrite Hn. }
  destruct (lb_kind (l_base lis)); [by eapply Hchain|by eapply Hchain| |done].
  destruct (lb_filters (l_base lis)) as [[|sp n log]|] eqn:Ef; try done. intros [= <- <-]. by eapply udp_outcome, H3.
Qed.

End Config.

(** ** Theorems *)

Lemma traffic_granted validate rules ports als cfg l c q t v :
  GenerateEnvoyConfig validate rules ports als = Ok cfg -> Forall (fun r => ValidateDst (Dst r) = Ok tt) rules -> wf_authority (q_authority q) ->
  serve cfg l c q = Some (Some t, v) ->
  v = VerdictAllowed /\ exists r, r ∈ rules /\ isDenyAction (Action r) = false /\ grants (promoted_rule r) c q t.
Proof.
  intros Hg Hv Hwf Hs. apply generated_ok in Hg. destruct (traffic_outcome rules cfg Hg Hv l c q _ _ Hs) as [-> Hex]. split; [done|].
  destruct (Hex Hwf) as (r & [(r0 & Hr & _ & ->) Hd] & Hgr). exists r0. destruct (promoted_fields r0) as (_ & _ & Ea). rewrite Ea in Hd. by split_and!.
Qed.

(** C6: Egress is confined.  For destinations that pass validation and requests
    whose authority is a host or a host and a decimal port: whatever a generated
    configuration forwards, through any of its listeners, is granted by a rule of
    the input that does not deny: an opaque rule grants its host on its ports, a
    range the addresses of the range on those ports, a web rule its host on its port
    when the authority names it and the path rules let the path through, and a
    wildcard a host under its domain.  And the record in the egress log, whose
    verdict is the metadata of the route that was taken or the proxy's own, says that
    it was allowed. *)
Theorem egress_confined validate rules ports als cfg l c q t v :
  GenerateEnvoyConfig validate rules ports als = Ok cfg -> Forall (fun r => ValidateDst (Dst r) = Ok tt) rules -> wf_authority (q_authority q) ->
  serve cfg l c q = Some (Some t, v) ->
  v = VerdictAllowed /\ exists r, r ∈ rules /\ isDenyAction (Action r) = false /\ grants (promoted_rule r) c q t.
Proof. apply traffic_granted. Qed.

(** C10: The egress log tells the truth.  For destinations that pass validation and
    every connection and request a generated configuration logs, the verdict of the
    record (the proxy's own, or for HTTP what the metadata of the chosen route says,
    a dash when no route was found) is allowed exactly when the traffic went
    somewhere. *)
Theorem verdict_exact validate rules ports als cfg l c q o v :
  GenerateEnvoyConfig validate rules ports als = Ok cfg -> Forall (fun r => ValidateDst (Dst r) = Ok tt) rules ->
  serve cfg l c q = Some (o, v) -> v = VerdictAllowed <-> is_Some o.
Proof.
  intros Hg Hv Hs. apply generated_ok in Hg. pose proof (traffic_outcome rules cfg Hg Hv l c q _ _ Hs) as Ho. destruct o as [t|]; cbn in Ho; split.
  - eauto.
  - intros _. apply Ho.
  - done.
  - by intros [? ?].
Qed.

(** Ports as the rule store names them: an opaque rule its ports, a web rule one
    port. *)
Definition explicit_ports (r : EgressRule) : Prop := if isOpaqueProto (Proto r) then is_Some (PortSpan r) else is_Some (SinglePort r).

Lemma web_canonical r : is_web (promoted_rule r) -> canonicalProto (Proto r) = "http" \/ canonicalProto (Proto r) = "https".
Proof.
  unfold is_web, family, promoted_rule, is_ws, canonicalProto. destruct (String.eqb_spec (ToLower (Proto r)) "ws") as [->|]; [by left|].
  destruct (String.eqb_spec (ToLower (Proto r)) "wss") as [->|]; [by right|]. cbn [orb]. intros [-> | ->]; auto.
Qed.
Lemma opaque_canonical r : isOpaqueProto (Proto r) = true -> canonicalProto (Proto r) = ToLower (Proto r) /\ ToLower (Proto r) <> "http" /\ ToLower (Proto r) <> "https".
Proof. unfold isOpaqueProto, canonicalProto. rewrite !orb_true_iff, !String.eqb_eq. by intros [[-> | ->]| ->]. Qed.
Lemma web_port_single r p : SinglePort r = Some p -> web_port (promoted_rule r) = p /\ stack_span r = (p, p).
Proof.
  intros Hs. assert (SinglePort (promoted_rule r) = Some p) as Hs'.
  { unfold SinglePort, PortSpan in *. by destruct (promoted_fields r) as (_ & -> & _). }
  unfold web_port, httpPort, httpsPort. rewrite Hs'. split; [by destruct (String.eqb _ _)|]. unfold stack_span. by rewrite (proj1 (SinglePort_span r p) Hs).
Qed.
Lemma GeneratePlan_checks rules ports perms : GeneratePlan rules ports = Ok perms -> checkProtoCollisions rules = None /\ checkOpaquePortActionConflicts rules = None.
Proof. unfold GeneratePlan, opt_check. by repeat case_match. Qed.

(** Two rules for one host and port, the first denying an opaque protocol. *)
Lemma denied_port_excludes rules rd r p :
  checkProtoCollisions rules = None -> checkOpaquePortActionConflicts rules = None -> rd ∈ rules -> r ∈ rules ->
  isDenyAction (Action rd) = true -> isOpaqueProto (Proto rd) = true -> isDenyAction (Action r) = false -> normalizeDomain (Dst r) = normalizeDomain (Dst rd) ->
  is_Some (PortSpan rd) -> covers_span (stack_span rd) p -> covers_span (stack_span r) p -> (isOpaqueProto (Proto r) = true -> is_Some (PortSpan r)) -> False.
Proof.
  intros Hcol Hconf Hd Hr Had Hod Har Hh [spd Hspd] Hcd Hcr Hspan. destruct (opaque_canonical rd Hod) as (Ecd & _).
  assert (builds_stack rd = true /\ builds_stack r = true) as [Bd Br] by (unfold builds_stack; rewrite Hod, Har, andb_false_r; done).
  destruct (decide (canonicalProto (Proto r) = canonicalProto (Proto rd))) as [Ep|Ep].
  - assert (isOpaqueProto (Proto r) = true) as Hor.
    { rewrite Ecd in Ep. revert Ep. unfold canonicalProto. destruct (opaque_canonical rd Hod) as (_ & H1 & H2). repeat case_match; intros E; try congruence.
      unfold isOpaqueProto in *. by rewrite E. }
    destruct (Hspan Hor) as [spr Hspr]. destruct (opaque_canonical r Hor) as (Ecr & _). rewrite Ecd, Ecr in Ep. unfold stack_span in Hcd, Hcr. rewrite Hspd in Hcd. rewrite Hspr in Hcr.
    eapply (proj1 (conflicts_none rules) Hconf (normalizeDomain (Dst rd)) (ToLower (Proto rd)) p).
    + exists spr. split; [|done]. exists r. unfold opaque_span. by rewrite Hor.
    + exists spd. split; [|done]. exists rd. unfold opaque_span. by rewrite Hod.
  - apply (proj1 (collisions_none rules) Hcol r rd Hr Hd). unfold stacks_collide. split_and!; [done..|]. by exists p.
Qed.


End Traffic.

(** ** An Envoy *)

Definition first_such {A} (P : A -> bool) (l : list A) : option A := head (filter (fun x => P x = true) l).
Definition demo_in_prefix (p : string * Z) (d : GoNet.Addr) : bool :=
  match GoNet.ParseIP p.1 with Some a => GoNet.Contains {| GoNet.pfx_addr := a; GoNet.pfx_bits := p.2 |} d | None => false end.
(** Selection as documented.  A rank says how specifically something fits, if it does;
    each criterion keeps what has the highest rank. *)
Definition best {A} (rank : A -> option nat) (l : list A) : nat := foldr Nat.max 0%nat (omap rank l).
Definition narrow {A} (rank : A -> option nat) (l : list A) : list A := filter (fun x => rank x = Some (best rank l)) l.
Definition rank_of {A} (get : chainMatch -> option A) (fits : A -> option nat) (ch : chain) : option nat :=
  match ch_match ch ≫= get with None => Some 0%nat | Some x => S <$> fits x end.
Definition port_rank (c : conn) : chain -> option nat := rank_of destination_port (fun p => if c_port c =? p then Some 0%nat else None).
Definition range_rank (c : conn) : chain -> option nat := rank_of prefix_ranges (fun p => if demo_in_prefix p (c_dst c) then Some (Z.to_nat p.2) else None).
(** An exact name goes before every suffix, a longer suffix before a shorter one. *)
Definition name_fit (sni pattern : string) : option nat :=
  if domain_matches sni pattern then Some (if String.eqb sni pattern then S (String.length sni) else String.length pattern) else None.
Definition name_rank (c : conn) : chain -> option nat :=
  rank_of (fun m => match server_names m with [] => None | ns => Some ns end)
    (fun ns => if existsb (domain_matches (c_sni c)) ns then Some (best (name_fit (c_sni c)) ns) else None).
Definition transport_rank (c : conn) : chain -> option nat := rank_of transport_protocol (fun t => if String.eqb (c_transport c) t then Some 0%nat else None).
Definition most_specific (chs : list chain) (c : conn) : option chain :=
  head (narrow (transport_rank c) (narrow (name_rank c) (narrow (range_rank c) (narrow (port_rank c) chs)))).

Definition vhost_rank (a : string) (v : vhost) : option nat := if existsb (domain_matches a) (vh_domains v) then Some (best (name_fit a) (vh_domains v)) else None.

Lemma narrow_elem {A} (rank : A -> option nat) l x : x ∈ narrow rank l -> x ∈ l /\ is_Some (rank x).
Proof. intros [-> ?]%list_elem_of_filter. eauto. Qed.
Lemma narrow_only {A} (rank : A -> option nat) x : rank x = Some 0%nat -> narrow rank [x] = [x].
Proof. intros Hr. assert (best rank [x] = 0%nat) as Hb by (unfold best; cbn; by rewrite Hr). unfold narrow. by rewrite Hb, filter_cons_True. Qed.
Lemma rank_fits {A} (get : chainMatch -> option A) fits ch m x : is_Some (rank_of get fits ch) -> ch_match ch = Some m -> get m = Some x -> is_Some (fits x).
Proof. intros Hr Hm Hx. unfold rank_of in Hr. rewrite Hm in Hr. cbn in Hr. rewrite Hx in Hr. destruct (fits x); [eauto|by destruct Hr]. Qed.
Lemma most_specific_fits chs c ch : most_specific chs c = Some ch -> ch ∈ chs /\ forall m, ch_match ch = Some m -> chain_matches demo_in_prefix c m = true.
Proof.
  intros Hh%head_Some_elem_of. apply narrow_elem in Hh as [Hh Ht]. apply narrow_elem in Hh as [Hh Hn]. apply narrow_elem in Hh as [Hh Hr]. apply narrow_elem in Hh as [Hh Hp]. split; [done|].
  intros m Hm. unfold chain_matches. rewrite !andb_true_iff. split_and!.
  - destruct (transport_protocol m) eqn:E; [|done]. apply (rank_fits _ _ _ _ _ Ht Hm) in E as [? E]. by destruct (String.eqb _ _).
  - destruct (server_names m) as [|x ns] eqn:E; [done|]. assert (match server_names m with [] => None | ns => Some ns end = Some (x :: ns)) as E' by (by rewrite E).
    apply (rank_fits _ _ _ _ _ Hn Hm) in E' as [? E']. by destruct (existsb _ _).
  - destruct (prefix_ranges m) eqn:E; [|done]. apply (rank_fits _ _ _ _ _ Hr Hm) in E as [? E]. by destruct (demo_in_prefix _ _).
  - destruct (destination_port m) eqn:E; [|done]. apply (rank_fits _ _ _ _ _ Hp Hm) in E as [? E]. by destruct (c_port c =? _).
Qed.
Lemma most_specific_only ch c : ch_match ch = None -> most_specific [ch] c = Some ch.
Proof. intros Hm. unfold most_specific. rewrite !narrow_only by (unfold port_rank, range_rank, name_rank, transport_rank, rank_of; by rewrite Hm). done. Qed.

#[global] Instance demo_envoy : Envoy := {|
  in_prefix := demo_in_prefix;
  pick_chain := most_specific;
  pick_vhost vs a := head (narrow (vhost_rank a) vs);
  full_match := String.eqb;
  pick_route rs q := first_such (HostProxy.route_matches String.eqb (q_method q) (q_path q)) rs;
  authority_target d a := match Cut ":" a with Some (h, p) => (h, default d (Atoi p)) | None => (a, d) end;
|}.
#[global] Instance demo_laws : EnvoyLaws.
Proof.
  split; cbn.
  - intros text a n d Hp _. unfold demo_in_prefix. cbn. by rewrite Hp.
  - exact most_specific_fits.
  - exact most_specific_only.
  - intros vs a v Hv%head_Some_elem_of%narrow_elem. destruct Hv as [Hin [? Hr]]. unfold vhost_rank in Hr. split; [done|]. by destruct (existsb _ _).
  - done.
  - intros d a Ha. by rewrite (Cut_char_None ":" a Ha).
  - intros d h p Hh Hp. pose proof (Cut_char ":" h (Itoa p) Hh) as Hcut. change (String ":" (Itoa p)) with (":" +:+ Itoa p) in Hcut. rewrite Hcut, Atoi_Itoa; [done|].
    assert (65535 <= max_int) by (by vm_compute). lia.
Qed.

Definition demo_policy : list EgressRule :=
  [mkRule ".example.com" "https" "443" "allow" [mkPathRule "/private" "deny" []] "" false;
   mkRule "db.internal.test" "tcp" "5432" "allow" [] "" false;
   mkRule "10.20.99.0/16" "ssh" "22" "allow" [] "" false;
   mkRule "a.example.com" "tcp" "443" "deny" [] "" false].
Definition demo_als : ALSConfig := mkALS 4317 true.
Definition demo_generated : result EnvoyError EnvoyConfig := GenerateEnvoyConfig (fun _ => true) demo_policy demo_ports demo_als.
Definition demo_config : EnvoyConfig := match demo_generated with Ok cfg => cfg | Err _ => NewEnvoyConfig end.
Definition demo_tls : conn := mkConn "tls" "a.example.com" (GoNet.Addr4 [93; 184; 216; 34]) 443.
Definition demo_get : request := mkRequest "a.example.com" "GET" "/index".

Lemma demo_ok : GenerateEnvoyConfig (fun _ => true) demo_policy demo_ports demo_als = Ok demo_config.
Proof. vm_compute. reflexivity. Qed.
Lemma demo_valid : Forall (fun r => ValidateDst (Dst r) = Ok tt) demo_policy.
Proof. repeat constructor. Qed.

(** A path rule, an opaque proxy, a range and what is outside it, the denied
    listener, and a plaintext connection nobody allowed. *)
Example demo_traffic :
  let ssh ip := mkConn "raw_buffer" "" (GoNet.Addr4 ip) 22 in
  let q p := mkRequest "a.example.com" "GET" p in
  serve demo_config "egress" demo_tls (q "/index") = Some (Some (ToHost "a.example.com" 443), "allowed") /\
  serve demo_config "egress" demo_tls (q "/private/x") = Some (None, "denied") /\
  serve demo_config "tcp_db_internal_test_5432" demo_tls demo_get = Some (Some (ToHost "db.internal.test" 5432), "allowed") /\
  serve demo_config "egress" (ssh [10; 20; 1; 2]) demo_get = Some (Some (ToAddr (GoNet.Addr4 [10; 20; 1; 2]) 22), "allowed") /\
  serve demo_config "egress" (ssh [10; 21; 1; 2]) demo_get = Some (None, "denied") /\
  serve demo_config "tcp_a_example_com_443" demo_tls demo_get = Some (None, "denied").
Proof. vm_compute. done. Qed.

Lemma egress_confined_witness :
  "allowed" = VerdictAllowed /\ exists r, r ∈ demo_policy /\ isDenyAction (Action r) = false /\ grants (promoted_rule r) demo_tls demo_get (ToHost "a.example.com" 443).
Proof.
  apply (egress_confined (fun _ => true) demo_policy demo_ports demo_als demo_config "egress" demo_tls demo_get (ToHost "a.example.com" 443) "allowed").
  - exact demo_ok.
  - exact demo_valid.
  - left. reflexivity.
  - vm_compute. reflexivity.
Defined.

Lemma verdict_exact_witness : "denied" = VerdictAllowed <-> is_Some (None : option target).
Proof.
  apply (verdict_exact (fun _ => true) demo_policy demo_ports demo_als demo_config "tcp_a_example_com_443" demo_tls demo_get None "denied").
  - exact demo_ok.
  - exact demo_valid.
  - vm_compute. reflexivity.
Defined.


(** ** Where rules meet in one name *)

Definition generate (rules : list EgressRule) : result EnvoyError EnvoyConfig := GenerateEnvoyConfig (fun _ => true) rules demo_ports demo_als.
Definition generated (rules : list EgressRule) : EnvoyConfig := match generate rules with Ok cfg => cfg | Err _ => NewEnvoyConfig end.
Definition web (dst proto port : string) (prs : list PathRule) : EgressRule := mkRule dst proto port "allow" prs "" false.
Definition no_admin : PathRule := mkPathRule "/admin" "deny" [].
Definition some_addr : GoNet.Addr := GoNet.Addr4 [93; 184; 216; 34].

(** Names with dots and dashes replaced: two hosts with one name are two
    clusters with one name, and the whole configuration is refused. *)
Lemma sanitized_names_clash : generate [web "a-b.com" "http" "80" []; web "a.b.com" "http" "80" []] = Err (Tree (ConflictingCluster "http_a_b_com_80")).
Proof. vm_compute. reflexivity. Qed.

(** The virtual host of [.x.com] has the name of the one of [wildcard.x.com],
    which is dropped with its path rules. *)
Lemma vhost_name_clash :
  let q := mkRequest "wildcard.x.com" "GET" "/admin" in let c := mkConn "raw_buffer" "" some_addr 80 in
  serve (generated [web "wildcard.x.com" "http" "80" [no_admin]]) "egress" c q = Some (None, "denied") /\
  serve (generated [web ".x.com" "http" "80" []; web "wildcard.x.com" "http" "80" [no_admin]]) "egress" c q = Some (Some (ToHost "wildcard.x.com" 80), "allowed").
Proof. vm_compute. done. Qed.

(** A rule for the apex on one port takes the apex away from a wildcard on
    another port. *)
Lemma apex_port_lost :
  let q := mkRequest "x.com:8443" "GET" "/" in let c := mkConn "tls" "x.com" some_addr 8443 in
  serve (generated [web ".x.com" "https" "8443" []]) "egress" c q = Some (Some (ToHost "x.com" 8443), "allowed") /\
  serve (generated [web ".x.com" "https" "8443" []; web "x.com" "https" "443" []]) "egress" c q = Some (None, "denied").
Proof. vm_compute. done. Qed.

(** Behind a wildcard's certificate a request may name any host of the wildcard,
    and the path rules of a rule for that host do not apply to it. *)
Lemma host_not_pinned_by_sni :
  let rules := [web "b.a.com" "https" "443" [no_admin]; web ".a.com" "https" "443" []] in let q := mkRequest "b.a.com" "GET" "/admin" in
  serve (generated rules) "egress" (mkConn "tls" "b.a.com" some_addr 443) q = Some (None, "denied") /\
  serve (generated rules) "egress" (mkConn "tls" "x.a.com" some_addr 443) q = Some (Some (ToHost "b.a.com" 443), "allowed").
Proof. vm_compute. done. Qed.

(** The plaintext chain keeps the connection manager of its first rule: whether
    extended CONNECT is allowed depends on the order of the rules. *)
Definition egress_websocket (cfg : EnvoyConfig) : list bool :=
  match listeners cfg !! egressListenerName with
  | Some l => omap (fun ch => match ch_filters ch with [HCM h] => Some (hcm_websocket h) | _ => None end) (l_chains l)
  | None => []
  end.
Lemma websocket_order :
  egress_websocket (generated [web "a.com" "http" "80" []; web "b.com" "ws" "80" []]) = [false] /\
  egress_websocket (generated [web "b.com" "ws" "80" []; web "a.com" "http" "80" []]) = [true].
Proof. vm_compute. done. Qed.

(** Two udp hosts with one name share a listener, which does what the later rule
    says and is bound to the port of the earlier one. *)
Lemma udp_listener_overwritten :
  let udp dst action := mkRule dst "udp" "53" action [] "" false in let rules := [udp "a-b.com" "allow"; udp "a.b.com" "deny"] in
  UDPMappings rules demo_ports = [mkMapping "a-b.com" 53 10300; mkMapping "a.b.com" 53 10301] /\
  (fun l => lb_port (l_base l)) <$> listeners (generated rules) !! "udp_a_b_com_53" = Some 10300 /\
  serve (generated rules) "udp_a_b_com_53" demo_tls demo_get = Some (None, "denied").
Proof. vm_compute. done. Qed.

(** Two spellings of one range get one chain, with two virtual hosts for every
    host, which Envoy refuses when it loads the configuration. *)
Lemma range_spellings_clash :
  (fun l => (fun ch => vh_domains <$> default [] (hcmVHosts ch)) <$> l_chains l) <$>
    listeners (generated [web "10.0.0.0/8" "http" "80" []; web "10.1.2.3/8" "http" "80" [no_admin]]) !! "egress" = Some [[["*"]; ["*"]]] /\
  ValidateDst "10.1.2.3/8" = Ok tt.
Proof. vm_compute. done. Qed.

End EnvoyPolicy.
