(* ===== verification/EnvoyReach.v ===== *)
(** * Every opaque port is served

    The other direction of the egress policy for tcp and ssh: each permutation of
    the generator writes to one listener, a dedicated listener has the one chain
    of its rule, so every host and port an opaque rule names has a listener on the
    port of the layout that forwards there, or blackholes it. *)

From S2P Require Import Prelude GoStrings GoNet EgressRule Spans Rules Conflicts Canonical Mappings Checks HttpRoutes EnvoyTree Generator Routes EnvoyLayers EnvoyInv EnvoyPolicy.
Import Go Rule Rules Canonical Mappings Checks HttpRoutes EnvoyTree Generator EnvoyLayers EnvoyInv EnvoyPolicy.

Module EnvoyReach.

(** ** A permutation writes to one listener *)

Definition listener_of (r : EgressRule) (l : layer) : option string :=
  match l with
  | tcpEgressLayer | prefixRangeTransportLayer _ | tlsSNIChainLayer _ => Some egressListenerName
  | quicSNIChainLayer _ => Some egressQUICListenerName
  | tcpDedicatedListenerLayer _ port => Some (tcpPinnedName (normalizeDomain (Dst r)) port)
  | udpDedicatedListenerLayer _ port => Some (udpPinnedName (normalizeDomain (Dst r)) port)
  | _ => None
  end.
Definition agree_off (name : string) (c c' : EnvoyConfig) : Prop := forall nm, nm <> name -> listeners c' !! nm = listeners c !! nm.
Lemma agree_refl name c : agree_off name c c.
Proof. by intros nm _. Qed.
Lemma agree_trans name c1 c2 c3 : agree_off name c1 c2 -> agree_off name c2 c3 -> agree_off name c1 c3.
Proof. intros H1 H2 nm Hn. by rewrite H2, H1. Qed.
Lemma ensure_off kind c name a p : agree_off name c (ensure kind c name a p).
Proof. intros nm Hn. unfold ensure. destruct (listeners c !! name); [done|]. by apply lookup_insert_ne. Qed.
Lemma field_off c name f c' : tree (SetListenerField c name f) = Ok c' -> agree_off name c c'.
Proof. intros H%tree_ok_result nm Hn. unfold SetListenerField in H. destruct (listeners c !! name); [|done]. injection H as <-. by apply lookup_insert_ne. Qed.
Lemma chain_off c name ch c' : tree (addChain c name ch) = Ok c' -> agree_off name c c'.
Proof.
  intros H%tree_ok_result nm Hn. unfold addChain in H. destruct (listeners c !! name); [|done]. destruct (upsert_chain _ _); [|done]. injection H as <-. by apply lookup_insert_ne.
Qed.

Lemma layer_frame l x x' :
  run_layer l x = Ok x' ->
  x_rule x' = x_rule x /\ x_listener x' = default (x_listener x) (listener_of (x_rule x) l) /\ agree_off (x_listener x') (x_cfg x) (x_cfg x').
Proof.
  destruct l; cbn [run_layer listener_of default];
    try (intros [= <-]; cbn [set_websocket set_upstream set_terminal set_transport run_tcpEgress run_tcpDedicated run_udpDedicated run_tcpDeny x_rule x_listener x_cfg];
         split_and!; try done; first [apply ensure_off|apply agree_refl]).
  - unfold run_prefixRange. intros (cfg & H & [= <-])%result_bind_ok. split_and!; [done|done|]. eapply agree_trans; [apply ensure_off|by eapply field_off].
  - unfold run_tlsSNI. destruct (downstreamCryptoMatch _ _ _) as [[m ni] no]. intros (c1 & H1 & H)%result_bind_ok. apply result_bind_ok in H as (c2 & H2 & [= <-]). split_and!; [done|done|].
    eapply agree_trans; [apply ensure_off|]. eapply agree_trans; [destruct ni; [by eapply field_off|injection H1 as <-; apply agree_refl]|].
    destruct no; [by eapply field_off|injection H2 as <-; apply agree_refl].
  - unfold run_quicSNI. destruct (downstreamCryptoMatch _ _ _) as [[m ni] no]. destruct no; [done|]. intros [= <-]. split_and!; [done|done|apply ensure_off].
  - unfold run_httpApp. destruct (String.eqb _ _); [done|]. destruct (String.eqb _ _); [done|]. destruct (isCIDR _); intros [= <-]; split_and!; try done; apply agree_refl.
  - unfold run_tcpProxy. destruct (String.eqb _ _); [done|]. intros [= <-]. split_and!; [done|done|apply agree_refl].
  - unfold run_udpProxy. destruct (String.eqb _ _); [done|]. intros (cfg & H & [= <-])%result_bind_ok. split_and!; [done|done|by eapply field_off].
  - unfold run_udpDeny. intros (cfg & H & [= <-])%result_bind_ok. split_and!; [done|done|by eapply field_off].
Qed.

Lemma field_clusters c name f c' : tree (SetListenerField c name f) = Ok c' -> clusters c' = clusters c.
Proof. intros H%tree_ok_result. unfold SetListenerField in H. destruct (listeners c !! name); [|done]. by injection H as <-. Qed.
Lemma layer_clusters l x x' : run_layer l x = Ok x' -> clusters (x_cfg x') = clusters (x_cfg x).
Proof.
  destruct l; cbn [run_layer]; try (intros [= <-]; first [done|apply ensure_clusters]).
  - intros H. apply (prefixRange_spec (fun _ => True)) in H as (c & -> & Hc & _). exact Hc.
  - intros H. apply (tlsSNI_spec (fun _ => True)) in H as (c & h3 & -> & Hc & _). exact Hc.
  - intros H. apply (quicSNI_spec (fun _ => True)) in H as (c & -> & Hc & _). exact Hc.
  - unfold run_httpApp. destruct (String.eqb _ _); [done|]. destruct (String.eqb _ _); [done|]. destruct (isCIDR _); by intros [= <-].
  - unfold run_tcpProxy. destruct (String.eqb _ _); [done|]. by intros [= <-].
  - unfold run_udpProxy. destruct (String.eqb _ _); [done|]. intros (cfg & H & [= <-])%result_bind_ok. by eapply field_clusters.
  - unfold run_udpDeny. intros (cfg & H & [= <-])%result_bind_ok. by eapply field_clusters.
Qed.

Lemma layers_frame ls x x' :
  run_layers ls x = Ok x' -> Forall (fun l => listener_of (x_rule x) l = None) ls -> x_listener x' = x_listener x /\ agree_off (x_listener x) (x_cfg x) (x_cfg x').
Proof.
  revert x. induction ls as [|l ls IH]; intros x; cbn [run_layers]; [intros [= <-] _; split; [done|apply agree_refl]|].
  intros (x1 & H1 & H)%result_bind_ok [Hl Hls]%Forall_cons. apply layer_frame in H1 as (Hr & Hn & Ha). rewrite Hl in Hn. cbn in Hn. rewrite Hn in Ha.
  rewrite <- Hr in Hls. apply IH in H as [Hn' Ha']; [|done]. rewrite Hn in *. split; [done|]. by eapply agree_trans.
Qed.
Lemma commit_frame x cfg' : commit x = Ok cfg' -> agree_off (x_listener x) (x_cfg x) cfg'.
Proof.
  unfold commit. intros (c1 & H1 & H2)%result_bind_ok. apply add_clusters_spec in H1 as (El & _). destruct (x_filters x) as [|f fs].
  - injection H2 as <-. intros nm _. by rewrite El.
  - apply chain_off in H2. intros nm Hn. rewrite H2 by done. by rewrite El.
Qed.

Lemma core_listener r c : core r c -> exists l ls name, c = l :: ls /\ listener_of r l = Some name /\ Forall (fun l => listener_of r l = None) ls /\
  (name = egressListenerName \/ name = egressQUICListenerName \/ (exists port, name = udpPinnedName (normalizeDomain (Dst r)) port) \/
   exists e port, l = tcpDedicatedListenerLayer e port).
Proof.
  intros [Hf Hd|dfp Hf Hd|exact Hf Hd|tr exact dfp Hf Hd [-> | ->]|port Hf Hd Hp|e port Hf Hd Hp|e port Hf Hp]; eexists _, _, _; (split; [reflexivity|]); (split; [reflexivity|]);
    (split; [repeat case_match; repeat constructor|]); eauto 10.
Qed.

(** The listener of a permutation; websocket enrichment comes before its
    transport. *)
Definition perm_listener (p : permutation) : option string := head (omap (listener_of (p_rule p)) (p_layers p)).
Lemma enriched_listener r ws c l ls name :
  c = l :: ls -> listener_of r l = Some name -> head (omap (listener_of r) ((if ws : bool then [wsEnrichLayer] else []) ++ c)) = Some name.
Proof. intros -> Hl. destruct ws; cbn; by rewrite Hl. Qed.

Lemma run_perm_frame ports als gen p cfg cfg' :
  p_layers p ∈ layersFor (p_rule p) gen -> run_perm ports als cfg p = Ok cfg' -> exists name, perm_listener p = Some name /\ agree_off name cfg cfg'.
Proof.
  intros (ws & c & El & Hc)%layersFor_core H. unfold run_perm in H. rewrite El, run_start in H. apply core_listener in Hc as (l & ls & name & -> & Hl & Hls & _).
  exists name. split; [unfold perm_listener; rewrite El; by eapply enriched_listener|]. apply result_bind_ok in H as (x & Hx & Hcm). cbn [run_layers] in Hx. apply result_bind_ok in Hx as (x1 & H1 & Hx).
  apply layer_frame in H1 as (Hr & Hn & Ha). cbn [start x_rule x_cfg x_listener] in *. rewrite Hl in Hn. cbn in Hn. rewrite Hn in Ha.
  apply layers_frame in Hx as [Hn' Ha']; [|by rewrite Hr]. apply commit_frame in Hcm. rewrite Hn' in Hcm. rewrite Hn in *. eapply agree_trans; [exact Ha|]. by eapply agree_trans.
Qed.

(** ** Dedicated listeners *)

(** Once a listener has a chain without a match, no opaque chain joins it. *)
Definition taken (l : envoyListener) : Prop := Exists (fun ch => ch_match ch = None) (l_chains l).
Lemma upsert_taken chains ch : Exists (fun x => ch_match x = None) chains -> ch_match ch = None -> hcmVHosts ch = None -> upsert_chain chains ch = None.
Proof.
  intros He Hm Hh. induction chains as [|x chains IH]; [by inversion He|]. cbn. rewrite Hm. case_bool_decide as Ex.
  - unfold mergeHCMVHosts. rewrite Hh. by destruct (hcmVHosts x).
  - rewrite IH; [done|]. by inversion He.
Qed.

Definition tcp_named (name : string) : bool := HasPrefix name "tcp_".
Definition dedicated_taken (cfg : EnvoyConfig) : Prop := forall name l, listeners cfg !! name = Some l -> tcp_named name = true -> taken l.

Definition dedicated_listener (name : string) (e : Z) (n : string) (log : accessLog) : envoyListener :=
  mkListener (mkBase KindTCP name defaultBindAddress e None false) [mkChain [TcpProxy n n log] None None] None.

Lemma tcp_pinned_named host port : tcp_named (tcpPinnedName host port) = true.
Proof. apply HasPrefix_spec. eexists. reflexivity. Qed.
Lemma udp_pinned_named host port : tcp_named (udpPinnedName host port) = false.
Proof. destruct (tcp_named _) eqn:E; [|done]. apply HasPrefix_spec in E as (r & E). by injection E. Qed.

(** What a dedicated permutation leaves behind. *)
Definition proxied (r : EgressRule) (port : Z) : string := if isDenyAction (Action r) then denyClusterName else tcpPinnedName (normalizeDomain (Dst r)) port.
Definition proxy_log (r : EgressRule) (als : ALSConfig) : accessLog :=
  buildTCPAccessLog "tcp" (family r) (normalizeDomain (Dst r)) (if isDenyAction (Action r) then VerdictDenied else VerdictAllowed) als.
Definition proxied_cluster (r : EgressRule) (port : Z) : cluster :=
  if isDenyAction (Action r) then buildDenyCluster else pinnedCluster (proxied r port) (normalizeDomain (Dst r)) port.

Lemma dedicated_chain x cfg name e n log cfg' :
  dedicated_taken cfg -> tcp_named name = true -> x_cfg x = EnsureListener cfg name defaultBindAddress e -> x_listener x = name -> x_match x = None -> x_socket x = None ->
  x_filters x = [TcpProxy n n log] -> commit x = Ok cfg' ->
  listeners cfg !! name = None /\ listeners cfg' !! name = Some (dedicated_listener name e n log) /\
  Forall (fun cl => clusters cfg' !! cl_name cl = Some cl) (x_clusters x).
Proof.
  intros Ht Hn Hcfg Hl Hm Hs Hf Hc. pose proof Hc as Hcm. apply commit_ok with (served := fun _ => True) in Hcm as (_ & Hcls & _). 
  cut (listeners cfg !! name = None /\ listeners cfg' !! name = Some (dedicated_listener name e n log)); [naive_solver|]. clear Hcls.
  unfold commit in Hc. rewrite Hf in Hc. apply result_bind_ok in Hc as (c1 & H1 & H2%tree_ok_result). apply add_clusters_spec in H1 as (El & _).
  unfold addChain in H2. rewrite Hl, Hm, Hs, El, Hcfg in H2. unfold EnsureListener, ensure in H2. destruct (listeners cfg !! name) as [l|] eqn:E.
  - rewrite E in H2. rewrite upsert_taken in H2; [done|by eapply Ht|done|done].
  - unfold set_listener in H2 at 1. cbn [listeners] in H2. rewrite lookup_insert_eq in H2. cbn [l_chains upsert_chain l_base l_default] in H2. injection H2 as <-. split; [done|]. apply lookup_insert_eq.
Qed.

Lemma dedicated_perm ports als gen p cfg cfg' e port :
  dedicated_taken cfg -> p_layers p ∈ layersFor (p_rule p) gen -> tcpDedicatedListenerLayer e port ∈ p_layers p -> run_perm ports als cfg p = Ok cfg' ->
  let r := p_rule p in let name := tcpPinnedName (normalizeDomain (Dst r)) port in
  perm_listener p = Some name /\ listeners cfg !! name = None /\ listeners cfg' !! name = Some (dedicated_listener name e (proxied r port) (proxy_log r als)) /\
  clusters cfg' !! proxied r port = Some (proxied_cluster r port).
Proof.
  intros Ht (ws & c & El & Hc)%layersFor_core Hin H. cbv zeta. unfold run_perm in H. unfold perm_listener.
  set (r := p_rule p) in *. clearbody r. rewrite El, run_start in H. rewrite El in Hin. rewrite El.
  assert (tcpDedicatedListenerLayer e port ∈ c) as Hin' by (apply elem_of_app in Hin as [Hin|?]; [|done]; destruct ws; in_cases Hin). clear Hin.
  assert (exists f, c = tcpDedicatedListenerLayer e port :: (if isDenyAction (Action r) then [tcpDenyTerminalLayer f] else [tcpPinnedUpstreamLayer; tcpProxyTerminalLayer f]) /\ f = family r)
    as (f & Ec & Hf).
  { destruct Hc as [?|?|?|? ? ? ? ? Htr|? ? ? ?|e' port' ? ? ?|? ? ? ?]; try destruct Htr as [-> | ->]; repeat case_match; in_cases Hin'; injection Hin' as -> ->; by eexists. }
  subst f. rewrite Ec. split; [by eapply enriched_listener|]. rewrite Ec in H. apply first_layer in H as (x1 & [= <-] & H). unfold proxied, proxy_log, proxied_cluster, proxied.
  destruct (isDenyAction (Action r)).
  - apply first_layer in H as (x2 & [= <-] & H). rewrite layers_commit in H. eapply dedicated_chain in H; [|exact Ht|apply tcp_pinned_named|reflexivity..].
    destruct H as (Hno & Hl & Hcls). split; [exact Hno|]. split; [exact Hl|]. cbn in Hcls. by rewrite Forall_singleton in Hcls.
  - apply first_layer in H as (x2 & [= <-] & H). apply first_layer in H as (x3 & H3 & H). rewrite layers_commit in H. cbn [run_layer] in H3. unfold run_tcpProxy in H3.
    destruct (String.eqb _ _); [done|]. injection H3 as <-. eapply dedicated_chain in H; [|exact Ht|apply tcp_pinned_named|reflexivity..].
    destruct H as (Hno & Hl & Hcls). split; [exact Hno|]. split; [exact Hl|]. cbn in Hcls. by rewrite Forall_singleton in Hcls.
Qed.

(** The invariant between permutations. *)
Lemma perm_named p gen name : p_layers p ∈ layersFor (p_rule p) gen -> perm_listener p = Some name -> tcp_named name = true ->
  exists e port, tcpDedicatedListenerLayer e port ∈ p_layers p /\ name = tcpPinnedName (normalizeDomain (Dst (p_rule p))) port.
Proof.
  intros (ws & c & El & Hc)%layersFor_core Hp Hn. apply core_listener in Hc as (l & ls & name' & -> & Hl & _ & Hk). unfold perm_listener in Hp.
  rewrite El, (enriched_listener _ ws _ l ls name' eq_refl Hl) in Hp. injection Hp as ->.
  destruct Hk as [->|[->|[(port & ->)|(e & port & ->)]]]; [done|done|by rewrite udp_pinned_named in Hn|]. exists e, port. rewrite El. split; [|by injection Hl as <-].
  apply elem_of_app. right. by left.
Qed.
Lemma run_perm_taken ports als gen p cfg cfg' :
  p_layers p ∈ layersFor (p_rule p) gen -> run_perm ports als cfg p = Ok cfg' -> dedicated_taken cfg -> dedicated_taken cfg'.
Proof.
  intros Hp H Ht name l Hl Hn. destruct (run_perm_frame ports als gen p cfg cfg' Hp H) as (nm & Hpl & Ha). destruct (decide (name = nm)) as [->|Hne]; [|apply (Ht name l); [by rewrite <- Ha|done]].
  destruct (perm_named p gen nm Hp Hpl Hn) as (e & port & Hin & ->). destruct (dedicated_perm ports als gen p cfg cfg' e port Ht Hp Hin H) as (_ & _ & Hl' & _).
  rewrite Hl in Hl'. injection Hl' as ->. by constructor.
Qed.
(** A second permutation for a dedicated listener fails. *)
Lemma run_perm_twice ports als gen p cfg cfg' name l :
  p_layers p ∈ layersFor (p_rule p) gen -> run_perm ports als cfg p = Ok cfg' -> dedicated_taken cfg -> listeners cfg !! name = Some l -> tcp_named name = true ->
  perm_listener p <> Some name.
Proof.
  intros Hp H Ht Hl Hn Hpl. destruct (perm_named p gen name Hp Hpl Hn) as (e & port & Hin & ->).
  destruct (dedicated_perm ports als gen p cfg cfg' e port Ht Hp Hin H) as (_ & Hno & _). congruence.
Qed.

Lemma run_perms_frame ports als gen perms cfg cfg' name l :
  Forall (fun p => p_layers p ∈ layersFor (p_rule p) gen) perms -> run_perms ports als perms cfg = Ok cfg' -> dedicated_taken cfg -> listeners cfg !! name = Some l -> tcp_named name = true ->
  listeners cfg' !! name = Some l.
Proof.
  intros Hall. revert cfg. induction Hall as [|p perms Hp _ IH]; intros cfg; cbn [run_perms]; [by intros [= <-]|]. intros (c & H & Hrest)%result_bind_ok Ht Hl Hn.
  apply (IH c); [done|by eapply run_perm_taken| |done]. destruct (run_perm_frame ports als gen p cfg c Hp H) as (nm & Hpl & Ha). rewrite Ha; [done|]. intros <-.
  by eapply run_perm_twice in Hpl.
Qed.
Lemma layers_clusters ls x x' : run_layers ls x = Ok x' -> clusters (x_cfg x') = clusters (x_cfg x).
Proof.
  revert x. induction ls as [|l ls IH]; intros x; cbn [run_layers]; [by intros [= ->]|]. intros (y & H1%layer_clusters & H2%IH)%result_bind_ok. congruence.
Qed.
Lemma run_perm_clusters ports als p cfg cfg' : run_perm ports als cfg p = Ok cfg' -> clusters cfg ⊆ clusters cfg'.
Proof.
  intros (x & Hx%layers_clusters & Hc)%result_bind_ok. apply commit_ok with (served := fun _ => True) in Hc as (Hs & _). by rewrite Hx in Hs.
Qed.
Lemma run_perms_clusters ports als perms cfg cfg' : run_perms ports als perms cfg = Ok cfg' -> clusters cfg ⊆ clusters cfg'.
Proof.
  revert cfg. induction perms as [|p perms IH]; intros cfg; cbn [run_perms]; [by intros [= <-]|]. intros (c & H%run_perm_clusters & Hrest%IH)%result_bind_ok. by etrans.
Qed.

Lemma run_perms_dedicated ports als gen perms p cfg cfg' e port :
  Forall (fun p => p_layers p ∈ layersFor (p_rule p) gen) perms -> run_perms ports als perms cfg = Ok cfg' -> dedicated_taken cfg -> p ∈ perms -> tcpDedicatedListenerLayer e port ∈ p_layers p ->
  let r := p_rule p in let name := tcpPinnedName (normalizeDomain (Dst r)) port in
  listeners cfg' !! name = Some (dedicated_listener name e (proxied r port) (proxy_log r als)) /\ clusters cfg' !! proxied r port = Some (proxied_cluster r port).
Proof.
  intros Hall. revert cfg. induction Hall as [|q perms Hq Hall IH]; intros cfg; cbn [run_perms]; [by intros _ _ ?%elem_of_nil|].
  intros (c & H & Hrest)%result_bind_ok Ht Hin Hl. pose proof (run_perm_taken _ _ _ _ _ _ Hq H Ht) as Ht'. apply elem_of_cons in Hin as [->|Hin]; [|by apply (IH c)].
  destruct (dedicated_perm ports als gen q cfg c e port Ht Hq Hl H) as (_ & _ & Hlis & Hcl). split.
  - eapply run_perms_frame; [exact Hall|exact Hrest|exact Ht'|exact Hlis|apply tcp_pinned_named].
  - eapply lookup_weaken; [exact Hcl|by eapply run_perms_clusters].
Qed.

(** The end of the generator leaves dedicated listeners alone. *)
Lemma generated_dedicated validate rules ports als cfg p e port :
  GenerateEnvoyConfig validate rules ports als = Ok cfg -> p ∈ claim_perms (derive rules ports).1 -> tcpDedicatedListenerLayer e port ∈ p_layers p ->
  let r := p_rule p in let name := tcpPinnedName (normalizeDomain (Dst r)) port in
  listeners cfg !! name = Some (dedicated_listener name e (proxied r port) (proxy_log r als)) /\ clusters cfg !! proxied r port = Some (proxied_cluster r port).
Proof.
  unfold GenerateEnvoyConfig. destruct (GeneratePlan rules ports) as [perms|] eqn:Ep; [|done]. apply GeneratePlan_perms in Ep as ->.
  intros (c1 & H1 & H)%result_bind_ok Hp Hl. apply result_bind_ok in H as (c2 & H2 & H). apply result_bind_ok in H as (c3 & H3 & H). apply result_bind_ok in H as (c4 & H4 & H).
  destruct (_ && _); [done|]. destruct (validate c4); [|done]. injection H as <-.
  eapply (run_perms_dedicated ports als (deriveGenFacts rules ports)) in H1 as [Hlis Hcl]; [| |by intros ? ? ?|exact Hp|exact Hl].
  2: { apply Forall_forall. intros q (r0 & _ & _ & _ & Hq)%claim_perms_elem%derive_sound. exact Hq. }
  set (name := tcpPinnedName _ _) in *. assert (name <> egressListenerName /\ name <> healthListenerName) as [Hn1 Hn2].
  { pose proof (tcp_pinned_named (normalizeDomain (Dst (p_rule p))) port) as Hn. fold name in Hn. split; intros E; by rewrite E in Hn. }
  assert (listeners c2 !! name = listeners c1 !! name /\ clusters c1 ⊆ clusters c2) as [El2 Es2].
  { unfold installEgressDenyFloor in H2. destruct (negb _); [by injection H2 as <-|]. apply result_bind_ok in H2 as (c & Hc%tree_ok_result & Hd%tree_ok_result).
    apply AddCluster_spec in Hc as (Ec & Es & _). unfold SetUnmatchedDeny in Hd. destruct (listeners c !! _); [|done]. injection Hd as <-. cbn. rewrite lookup_insert_ne by done. by rewrite Ec. }
  assert (listeners c3 !! name = listeners c2 !! name /\ clusters c2 ⊆ clusters c3) as [El3 Es3].
  { unfold installOtelALSCluster in H3. destruct (negb _); [by injection H3 as <-|]. apply tree_ok_result, AddCluster_spec in H3 as (Ec & Es & _). by rewrite Ec. }
  assert (listeners c4 !! name = listeners c3 !! name /\ clusters c3 ⊆ clusters c4) as [El4 Es4].
  { unfold installHealthListener in H4. destruct (_ <=? 0); [by injection H4 as <-|]. apply tree_ok_result in H4. unfold AddListener in H4. destruct (String.eqb _ _); [done|].
    destruct (listeners c3 !! _); [destruct (_ && _); [by injection H4 as <-|done]|]. injection H4 as <-. cbn. by rewrite lookup_insert_ne. }
  cbv zeta. split; [congruence|]. eapply lookup_weaken; [exact Hcl|]. etrans; [exact Es2|]. by etrans.
Qed.

(** ** From rules to permutations *)

(** A rule whose fields the permutation key separates. *)
Definition plain_key (r : EgressRule) : Prop := plain_proto r /\ plain_port r /\ all_chars no_colon (Action r) = true.

Lemma lower_no_colon s : all_chars no_colon s = true -> all_chars no_colon (ToLower s) = true.
Proof.
  induction s as [|c s IH]; [done|]. cbn [all_chars ToLower map_string]. intros [Hc Hs]%andb_true_iff. rewrite (IH Hs), andb_true_r.
  revert Hc. destruct c as [[][][][][][][][]]; by vm_compute.
Qed.
Lemma perm_key_split r i :
  perm_key r i = (((Dst r +:+ String ":" (Port r)) +:+ String ":" (ToLower (Action r))) +:+ String ":" (ToLower (Proto r))) +:+ String "#" (Itoa (Z.of_nat i)).
Proof. unfold perm_key. by rewrite <- !append_assoc. Qed.
Lemma perm_key_inj r r' i i' :
  plain_key r -> plain_key r' -> perm_key r i = perm_key r' i' ->
  Dst r = Dst r' /\ Port r = Port r' /\ ToLower (Action r) = ToLower (Action r') /\ ToLower (Proto r) = ToLower (Proto r') /\ Itoa (Z.of_nat i) = Itoa (Z.of_nat i').
Proof.
  intros (P & Q & A) (P' & Q' & A'). rewrite !perm_key_split. intros E.
  assert (forall n, all_chars (fun d => negb (Ascii.eqb "#" d)) (Itoa (Z.of_nat n)) = true) as Hi.
  { intros n. apply Itoa_not; [|lia]. intros c. destruct c as [[][][][][][][][]]; by vm_compute. }
  apply last_sep_inj in E as [E Ei]; [|done..]. apply (last_sep_inj ":") in E as [E Ep]; [|by apply lower_no_colon..].
  apply (last_sep_inj ":") in E as [E Ea]; [|by apply lower_no_colon..]. by apply (last_sep_inj ":") in E as [-> ->].
Qed.

Lemma claim_perms_key perms p : p ∈ perms -> exists p', p' ∈ claim_perms perms /\ p_key p' = p_key p.
Proof.
  unfold claim_perms. set (step := fun '(seen, out) p => _).
  assert ((forall k, k ∈ (foldl step (∅, []) perms).1 -> exists q, q ∈ (foldl step (∅, []) perms).2 /\ p_key q = k) /\
    forall p, p ∈ perms -> p_key p ∈ (foldl step (∅, []) perms).1) as [Hall Hin]; [|intros Hp; apply Hall, Hin, Hp].
  induction perms as [|q perms [IH1 IH2]] using rev_ind; [split; [by intros k ?%not_elem_of_empty|by intros ? ?%elem_of_nil]|].
  rewrite foldl_snoc. destruct (foldl step (∅, []) perms) as [seen out]. unfold step. cbn in IH1, IH2. case_bool_decide as Hs; cbn; setoid_rewrite elem_of_app; setoid_rewrite list_elem_of_singleton.
  - split; [exact IH1|]. intros x [Hx| ->]; [by apply IH2|done].
  - split; [|set_solver]. intros k [->%elem_of_singleton|Hk]%elem_of_union; [exists q; auto|]. destruct (IH1 k Hk) as (q' & ? & ?). eauto.
Qed.

(** The layers of an opaque rule depend on what its key shows. *)
Lemma layersFor_opaque r r' gen :
  Dst r = Dst r' -> Port r = Port r' -> ToLower (Action r) = ToLower (Action r') -> ToLower (Proto r) = ToLower (Proto r') ->
  is_tcp_class (family r) = true -> layersFor r gen = layersFor r' gen.
Proof.
  intros Hd Hp Ha Hpr Ht. assert (PortSpan r = PortSpan r' /\ SinglePort r = SinglePort r') as [Hs Hs1] by (unfold SinglePort, PortSpan; by rewrite Hp).
  assert (dedicatedPorts r tcpDefaultPort = dedicatedPorts r' tcpDefaultPort) as Hdp.
  { unfold dedicatedPorts, tcpDefaultPort, EqualFold. by rewrite Hs, Hs1, Hpr. }
  unfold is_tcp_class, family in Ht. unfold layersFor. rewrite <- Hpr. unfold isDenyAction. rewrite Ha, Hd, Hdp.
  apply orb_true_iff in Ht as [Ht|Ht]; apply String.eqb_eq in Ht; rewrite Ht; reflexivity.
Qed.

Lemma promoted_plain r : plain_key r -> plain_key (promoted_rule r).
Proof.
  intros (P & Q & A). unfold promoted_rule. destruct (is_ws r) eqn:Ew; [|done]. split_and!; [|exact Q|exact A]. unfold plain_proto. cbn [Proto set_Proto].
  unfold is_ws in Ew. apply orb_true_iff in Ew as [Ew|Ew]; apply String.eqb_eq in Ew; by rewrite Ew.
Qed.

Definition keyed (gen : genFacts) (p : permutation) : Prop := exists i, layersFor (p_rule p) gen !! i = Some (p_layers p) /\ p_key p = perm_key (p_rule p) i.
Lemma derive_keyed rules ports p : p ∈ (derive rules ports).1 -> keyed (deriveGenFacts rules ports) p.
Proof.
  unfold derive. cbn. set (gen := deriveGenFacts rules ports). revert p.
  assert (forall st, (forall p, p ∈ dv_perms st -> keyed gen p) -> forall p, p ∈ dv_perms (foldl (derive_step gen) st rules) -> keyed gen p) as H; [|apply H; by intros p ?%elem_of_nil].
  clearbody gen. induction rules as [|r rules IH]; intros st Hst; [done|]. cbn [foldl]. apply IH. intros p.
  assert (forall st' x, dv_perms st' = dv_perms st -> p ∈ dv_perms (derive_rule gen st' x) -> keyed gen p) as Hd.
  { intros st' x E [Hp|(<- & i & Hi & Hk)]%derive_rule_perms; [apply Hst; by rewrite <- E|by exists i]. }
  unfold derive_step. repeat case_match; try apply Hst; by apply Hd.
Qed.

Lemma length_omap_le {A B} (f : A -> option B) l : (length (omap f l) <= length l)%nat.
Proof. induction l as [|x l IH]; cbn; [lia|]. destruct (f x); cbn; lia. Qed.
Lemma layersFor_short r gen : is_tcp_class (family r) = true -> Z.of_nat (length (layersFor r gen)) <= 65536.
Proof.
  intros Ht. assert (Z.of_nat (length (dedicatedPorts r tcpDefaultPort)) <= 65536) as Hl.
  { unfold dedicatedPorts. destruct (PortSpan r) as [[lo hi]|] eqn:E; [|cbn; lia]. apply PortSpan_bounds in E. unfold maxPort in E. rewrite length_seqZ. lia. }
  unfold is_tcp_class, family in Ht. unfold layersFor. apply orb_true_iff in Ht as [Ht|Ht]; apply String.eqb_eq in Ht; rewrite Ht; cbn [String.eqb Ascii.eqb Bool.eqb is_tcp_class orb];
    (destruct (isCIDR (Dst r)); [rewrite length_fmap; done|etrans; [apply Nat2Z.inj_le, length_omap_le|done]]).
Qed.

(** Some permutation that runs binds the listener of an opaque port. *)
Lemma opaque_perm rules ports r port :
  Forall plain_key rules -> r ∈ rules -> is_tcp_class (family r) = true -> isCIDR (Dst r) = false -> port ∈ dedicatedPorts r tcpDefaultPort ->
  exists p e, p ∈ claim_perms (derive rules ports).1 /\ tcpDedicatedListenerLayer e port ∈ p_layers p /\ mkMapping (normalizeDomain (Dst r)) port e ∈ TCPMappings rules ports /\
    listener_ports (TCPMappings rules ports) !! dedicatedPortKey (normalizeDomain (Dst r)) port = Some e /\ Dst (p_rule p) = Dst r /\ isDenyAction (Action (p_rule p)) = isDenyAction (Action r).
Proof.
  intros Hk Hr Ht Hd Hp. destruct (derive_opaque_complete rules ports r port Hr Ht Hd Hp) as (p & e & Hin & Hpr & Hl).
  destruct (claim_perms_key _ _ Hin) as (p' & Hin' & Ek). pose proof (claim_perms_elem _ _ Hin') as Hin0.
  destruct (derive_keyed rules ports p Hin) as (i & Hi & Eki). destruct (derive_keyed rules ports p' Hin0) as (i' & Hi' & Eki').
  destruct (derive_sound rules ports p' Hin0) as (r0 & Hr0 & _ & Epr & _). rewrite Forall_forall in Hk.
  assert (plain_key (p_rule p')) as Hkp' by (rewrite Epr; by apply promoted_plain, Hk). assert (plain_key (p_rule p)) as Hkp by (rewrite Hpr; by apply Hk).
  rewrite Eki, Eki' in Ek. symmetry in Ek. destruct (perm_key_inj _ _ _ _ Hkp Hkp' Ek) as (E1 & E2 & E3 & E4 & E5). rewrite Hpr in *.
  set (gen := deriveGenFacts rules ports) in *. pose proof (layersFor_opaque r (p_rule p') gen E1 E2 E3 E4 Ht) as El. rewrite <- El in Hi'.
  assert (i = i') as <-.
  { pose proof (layersFor_short r gen Ht) as Hs. apply lookup_lt_Some in Hi as Hi1. apply lookup_lt_Some in Hi' as Hi2. assert (65536 <= max_int) by (by vm_compute).
    apply Nat2Z.inj, Itoa_inj; [lia|lia|done]. }
  rewrite Hi in Hi'. injection Hi' as Ell. exists p', e. rewrite <- Ell. assert (p_layers p ∈ layersFor r gen) as Hls by (by eapply list_elem_of_lookup_2). destruct (layersFor_dedicated _ _ _ _ _ Hls Hl) as (Hlook & _ & _ & Hport).
  split_and!; [done|done| |exact Hlook|done|unfold isDenyAction; by rewrite E3].
  apply listener_ports_sound in Hlook as (m & Hm & Hkey & <-).
  apply (mapping_key_inj rules ports) in Hkey as [Ed Ep]; [|done|eapply dedicated_port_bounds; [apply (tcpDefaultPort_bounds r)|done]]. rewrite <- Ed, <- Ep. by destruct m.
Qed.

(** ** Theorem *)

Section Reach.
Context `{EnvoyLaws}.

Lemma dedicated_serve cfg name e n log c q :
  listeners cfg !! name = Some (dedicated_listener name e n log) -> serve cfg name c q = Some (clusters cfg !! n ≫= upstream c q, logged log []).
Proof.
  intros Hl. unfold serve. rewrite Hl. cbn. destruct (pick_chain _ c) as [ch|] eqn:Ep.
  - apply pick_chain_matches in Ep as [Hin _]. apply list_elem_of_singleton in Hin as ->. done.
  - by rewrite pick_chain_only in Ep.
Qed.

(** The listener of an opaque port and what it does. *)
Lemma opaque_listener validate rules ports als cfg r port :
  GenerateEnvoyConfig validate rules ports als = Ok cfg -> Forall plain_key rules -> r ∈ rules -> is_tcp_class (family r) = true -> isCIDR (Dst r) = false ->
  port ∈ dedicatedPorts r tcpDefaultPort ->
  let host := normalizeDomain (Dst r) in let name := tcpPinnedName host port in
  exists e l, mkMapping host port e ∈ TCPMappings rules ports /\ listener_ports (TCPMappings rules ports) !! dedicatedPortKey host port = Some e /\
    listeners cfg !! name = Some l /\ lb_kind (l_base l) = KindTCP /\ lb_port (l_base l) = e /\
    forall c q, serve cfg name c q = Some (if isDenyAction (Action r) then (None, VerdictDenied) else (Some (ToHost host port), VerdictAllowed)).
Proof.
  intros Hg Hk Hr Ht Hd Hp. destruct (opaque_perm rules ports r port Hk Hr Ht Hd Hp) as (p & e & Hin & Hl & Hm & Hlook & Ed & Ea). cbv zeta.
  destruct (generated_dedicated validate rules ports als cfg p e port Hg Hin Hl) as [Hlis Hcl]. rewrite Ed in Hlis. exists e. eexists. split_and!; [done|done|exact Hlis|done|done|].
  intros c q. rewrite (dedicated_serve _ _ _ _ _ _ _ Hlis), Hcl. unfold proxied_cluster, proxy_log, proxied. rewrite Ea. destruct (isDenyAction (Action r)); [done|]. rewrite Ed. cbn [mbind option_bind].
  by rewrite (pinned_upstream _ _ _ _ _ (pinned_pinned _ _ _)).
Qed.

(** Every opaque port is served.  Whenever the generator succeeds, each host
    and port a tcp or ssh rule names has its own listener, bound to the port the
    layout gives that host and port, which is also where the kernel's route sends
    it; and whatever connection arrives there is forwarded to exactly that host
    and port and logged as allowed when the rule allows it, and goes nowhere and
    is logged as denied when the rule denies it. *)
Theorem opaque_port_served validate rules ports als cfg r port :
  GenerateEnvoyConfig validate rules ports als = Ok cfg -> Forall plain_key rules -> r ∈ rules -> is_tcp_class (family r) = true -> isCIDR (Dst r) = false ->
  port ∈ dedicatedPorts r tcpDefaultPort ->
  let host := normalizeDomain (Dst r) in let name := tcpPinnedName host port in
  exists e l, mkMapping host port e ∈ TCPMappings rules ports /\ listeners cfg !! name = Some l /\ lb_port (l_base l) = e /\
    (host <> "" -> Routes.mappingRoute (mkMapping host port e) Routes.L4ProtoTCP ∈ Routes.RoutesFromRules rules ports) /\
    forall c q, serve cfg name c q = Some (if isDenyAction (Action r) then (None, VerdictDenied) else (Some (ToHost host port), VerdictAllowed)).
Proof.
  intros Hg Hk Hr Ht Hd Hp. destruct (opaque_listener validate rules ports als cfg r port Hg Hk Hr Ht Hd Hp) as (e & l & Hm & _ & Hlis & _ & He & Hs). cbv zeta.
  exists e, l. split_and!; [done|done|done| |done]. intros Hne. apply (Routes.to_keep _ _ _ _ (Routes.routes_ok rules ports)). cbn. apply elem_of_app. left. apply Routes.elem_mapping_routes. by eexists.
Qed.
End Reach.

Lemma opaque_port_served_witness :
  exists e l, mkMapping "db.internal.test" 5432 e ∈ TCPMappings demo_policy demo_ports /\ listeners demo_config !! "tcp_db_internal_test_5432" = Some l /\ lb_port (l_base l) = e /\
    ("db.internal.test" <> "" -> Routes.mappingRoute (mkMapping "db.internal.test" 5432 e) Routes.L4ProtoTCP ∈ Routes.RoutesFromRules demo_policy demo_ports) /\
    forall c q, serve demo_config "tcp_db_internal_test_5432" c q = Some (Some (ToHost "db.internal.test" 5432), VerdictAllowed).
Proof.
  apply (opaque_port_served (fun _ => true) demo_policy demo_ports demo_als demo_config (mkRule "db.internal.test" "tcp" "5432" "allow" [] "" false) 5432).
  - exact demo_ok.
  - repeat constructor.
  - right. left.
  - reflexivity.
  - vm_compute. reflexivity.
  - vm_compute. left.
Defined.

End EnvoyReach.
