(* ===== verification/YamlNode.v ===== *)
(** * YAML node trees

    internal/storage/node.go: the trees the configuration store works on, with
    the operations that read, graft and delete a field by its path.  A node
    carries its style, tag, anchor and comments; a mapping is the list of its
    entries in file order, key nodes included.  An alias is the leaf that names
    its anchor: the pointer to the anchored node is not followed.  The code
    copies a tree ([cloneNode]) before it changes it, so the operations are
    functions on trees. *)

From S2P Require Import Prelude GoStrings.
Import Go.

Module Yaml.

(** ** Nodes *)

Record Meta := mkMeta {
  Style : Z; Tag : string; Anchor : string;
  HeadComment : string; LineComment : string; FootComment : string;
}.

Inductive Node :=
  | ScalarNode (m : Meta) (value : string)
  | AliasNode (m : Meta) (value : string)
  | SequenceNode (m : Meta) (content : list Node)
  | MappingNode (m : Meta) (content : list (Node * Node)).

#[global] Instance Meta_eq_dec : EqDecision Meta.
Proof. solve_decision. Defined.

(** Induction through the contents of sequences and mappings. *)
Section Node_ind.
Variable P : Node -> Prop.
Hypothesis P_scalar : forall m v, P (ScalarNode m v).
Hypothesis P_alias : forall m v, P (AliasNode m v).
Hypothesis P_seq : forall m c, Forall P c -> P (SequenceNode m c).
Hypothesis P_map : forall m c, Forall (fun kv => P kv.1 /\ P kv.2) c -> P (MappingNode m c).

Fixpoint Node_nested_ind (n : Node) : P n :=
  match n with
  | ScalarNode m v => P_scalar m v
  | AliasNode m v => P_alias m v
  | SequenceNode m c =>
      P_seq m c ((fix go (l : list Node) : Forall P l :=
        match l with
        | [] => Forall_nil_2 P
        | x :: l' => Forall_cons_2 P x l' (Node_nested_ind x) (go l')
        end) c)
  | MappingNode m c =>
      P_map m c ((fix go (l : list (Node * Node)) : Forall (fun kv => P kv.1 /\ P kv.2) l :=
        match l with
        | [] => Forall_nil_2 _
        | (k, v) :: l' => Forall_cons_2 _ (k, v) l' (conj (Node_nested_ind k) (Node_nested_ind v)) (go l')
        end) c)
  end.
End Node_ind.

Definition meta (n : Node) : Meta :=
  match n with ScalarNode m _ | AliasNode m _ | SequenceNode m _ | MappingNode m _ => m end.

Definition with_meta (n : Node) (m : Meta) : Node :=
  match n with
  | ScalarNode _ v => ScalarNode m v
  | AliasNode _ v => AliasNode m v
  | SequenceNode _ c => SequenceNode m c
  | MappingNode _ c => MappingNode m c
  end.

(** The [Value] field: empty for collections. *)
Definition Value (n : Node) : string :=
  match n with ScalarNode _ v | AliasNode _ v => v | _ => "" end.

Definition plain_meta (tag : string) : Meta := mkMeta 0 tag "" "" "" "".

Definition newMapping : Node := MappingNode (plain_meta "!!map") [].
Definition key_node (key : string) : Node := ScalarNode (plain_meta "!!str") key.

Definition isMapping (n : Node) : bool := match n with MappingNode _ _ => true | _ => false end.

(** ** Entries of a mapping: the first entry with the key counts *)

Fixpoint entry_value (key : string) (c : list (Node * Node)) : option Node :=
  match c with
  | [] => None
  | (k, v) :: c' => if String.eqb (Value k) key then Some v else entry_value key c'
  end.

Definition mappingValue (m : Node) (key : string) : option Node :=
  match m with MappingNode _ c => entry_value key c | _ => None end.

Definition or_comment (s old : string) : string := if String.eqb s "" then old else s.

(** A value takes over the comments of the value it replaces where it has none
    of its own. *)
Definition carry_comments (old val : Node) : Node :=
  let o := meta old in let m := meta val in
  with_meta val (mkMeta (Style m) (Tag m) (Anchor m)
    (or_comment (HeadComment m) (HeadComment o))
    (or_comment (LineComment m) (LineComment o))
    (or_comment (FootComment m) (FootComment o))).

Fixpoint entry_put (key : string) (val : Node) (c : list (Node * Node)) : list (Node * Node) :=
  match c with
  | [] => [(key_node key, val)]
  | (k, old) :: c' =>
      if String.eqb (Value k) key then (k, carry_comments old val) :: c' else (k, old) :: entry_put key val c'
  end.

(** The code only puts into mappings. *)
Definition mappingPut (m : Node) (key : string) (val : Node) : Node :=
  match m with MappingNode mt c => MappingNode mt (entry_put key val c) | _ => m end.

Fixpoint entry_delete (key : string) (c : list (Node * Node)) : option (list (Node * Node)) :=
  match c with
  | [] => None
  | (k, v) :: c' => if String.eqb (Value k) key then Some c' else cons (k, v) <$> entry_delete key c'
  end.

Definition mappingDelete (m : Node) (key : string) : option Node :=
  match m with MappingNode mt c => MappingNode mt <$> entry_delete key c | _ => None end.

(** Writing through the pointer to a value: the entry stays, its value is
    replaced. *)
Fixpoint entry_update (key : string) (f : Node -> Node) (c : list (Node * Node)) : list (Node * Node) :=
  match c with
  | [] => []
  | (k, v) :: c' => if String.eqb (Value k) key then (k, f v) :: c' else (k, v) :: entry_update key f c'
  end.

Definition mappingUpdate (m : Node) (key : string) (f : Node -> Node) : Node :=
  match m with MappingNode mt c => MappingNode mt (entry_update key f c) | _ => m end.

(** ** Paths *)

Definition clear_comments (m : Meta) : Meta := mkMeta (Style m) (Tag m) (Anchor m) "" "" "".

Fixpoint stripComments (n : Node) : Node :=
  match n with
  | ScalarNode m v => ScalarNode (clear_comments m) v
  | AliasNode m v => AliasNode (clear_comments m) v
  | SequenceNode m c => SequenceNode (clear_comments m) (map stripComments c)
  | MappingNode m c => MappingNode (clear_comments m) (map (fun '(k, v) => (stripComments k, stripComments v)) c)
  end.

Fixpoint nodeValueAt (m : Node) (segments : list string) : option Node :=
  match segments with
  | [] => None
  | seg :: rest =>
      match mappingValue m seg with
      | None => None
      | Some val =>
          match rest with
          | [] => Some val
          | _ => if isMapping val then nodeValueAt val rest else None
          end
      end
  end.

Definition has_mapping (m : Node) (seg : string) : bool :=
  match mappingValue m seg with Some child => isMapping child | None => false end.

Fixpoint graft_at (target : Node) (segments : list string) (graft : Node) : Node :=
  match segments with
  | [] => target
  | [seg] => mappingPut target seg graft
  | seg :: rest =>
      let target := if has_mapping target seg then target else mappingPut target seg newMapping in
      mappingUpdate target seg (fun child => graft_at child rest graft)
  end.

Definition nodeGraftValue (target : Node) (segments : list string) (value : Node) : Node :=
  graft_at target segments (stripComments value).

(** [None]: nothing was removed. *)
Fixpoint nodeDeletePath (m : Node) (segments : list string) : option Node :=
  match segments with
  | [] => None
  | [seg] => mappingDelete m seg
  | seg :: rest =>
      match mappingValue m seg with
      | Some child =>
          if isMapping child
          then (fun child' => mappingUpdate m seg (fun _ => child')) <$> nodeDeletePath child rest
          else None
      | None => None
      end
  end.

(** ** Data: a node without its comments and style *)

Definition erase_meta (m : Meta) : Meta := mkMeta 0 (Tag m) (Anchor m) "" "" "".

Fixpoint erase (n : Node) : Node :=
  match n with
  | ScalarNode m v => ScalarNode (erase_meta m) v
  | AliasNode m v => AliasNode (erase_meta m) v
  | SequenceNode m c => SequenceNode (erase_meta m) (map erase c)
  | MappingNode m c => MappingNode (erase_meta m) (map (fun '(k, v) => (erase k, erase v)) c)
  end.

(** Equal data. *)
#[global] Instance node_equiv : Equiv Node := fun a b => erase a = erase b.
#[global] Instance node_equivalence : Equivalence (≡@{Node}).
Proof.
  unfold equiv, node_equiv. split; [done|by intros ? ?|by intros ? ? ? -> ->].
Qed.

Definition keys (c : list (Node * Node)) : list string := (fun kv => Value kv.1) <$> c.
#[global] Arguments keys : simpl never.

(** No mapping that a path of keys leads to has a key twice. *)
Fixpoint unique_keys (n : Node) : Prop :=
  match n with
  | MappingNode _ c => NoDup (keys c) /\ fold_right (fun kv Q => unique_keys kv.2 /\ Q) True c
  | _ => True
  end.

Definition own_comments (m : Meta) : list string := filter (fun s => s <> "") [HeadComment m; LineComment m; FootComment m].

Fixpoint comments (n : Node) : list string :=
  match n with
  | ScalarNode m _ | AliasNode m _ => own_comments m
  | SequenceNode m c => own_comments m ++ concat (map comments c)
  | MappingNode m c => own_comments m ++ concat (map (fun '(k, v) => comments k ++ comments v) c)
  end.

(** ** Entries *)

Lemma mappingValue_put_eq m k v :
  isMapping m = true -> exists v', mappingValue (mappingPut m k v) k = Some v' /\ (v' = v \/ exists old, v' = carry_comments old v).
Proof.
  destruct m as [| | |mt c]; try done. intros _. simpl. induction c as [|[k' old] c IH]; simpl.
  - rewrite String.eqb_refl. eauto.
  - destruct (String.eqb (Value k') k) eqn:E; simpl; rewrite E; eauto.
Qed.

Lemma mappingValue_put m k v :
  isMapping m = true ->
  mappingValue (mappingPut m k v) k = Some (match mappingValue m k with Some old => carry_comments old v | None => v end).
Proof.
  destruct m as [| | |mt c]; try done. intros _. simpl. induction c as [|[k' old] c IH]; simpl.
  - by rewrite String.eqb_refl.
  - destruct (String.eqb (Value k') k) eqn:E; simpl; by rewrite E.
Qed.

Lemma mappingValue_put_ne m k k' v : k <> k' -> mappingValue (mappingPut m k v) k' = mappingValue m k'.
Proof.
  intros Hne. destruct m as [| | |mt c]; try done. simpl. induction c as [|[k0 old] c IH]; simpl.
  - by apply String.eqb_neq in Hne as ->.
  - destruct (String.eqb_spec (Value k0) k) as [E|E]; simpl; [rewrite E; by apply String.eqb_neq in Hne as ->|].
    by destruct (String.eqb _ k').
Qed.

Lemma mappingValue_update_eq m k f : mappingValue (mappingUpdate m k f) k = f <$> mappingValue m k.
Proof.
  destruct m as [| | |mt c]; try done. simpl. induction c as [|[k0 v] c IH]; simpl; [done|].
  destruct (String.eqb (Value k0) k) eqn:E; simpl; by rewrite E.
Qed.

Lemma mappingValue_update_ne m k k' f : k <> k' -> mappingValue (mappingUpdate m k f) k' = mappingValue m k'.
Proof.
  intros Hne. destruct m as [| | |mt c]; try done. simpl. induction c as [|[k0 v] c IH]; simpl; [done|].
  destruct (String.eqb_spec (Value k0) k) as [E|E]; simpl; [rewrite E; by apply String.eqb_neq in Hne as ->|].
  by destruct (String.eqb _ k').
Qed.

Lemma keys_cons k v c : keys ((k, v) :: c) = Value k :: keys c.
Proof. done. Qed.

Lemma entry_value_None key c : entry_value key c = None <-> key ∉ keys c.
Proof.
  induction c as [|[k v] c IH]; simpl; [set_solver|]. rewrite keys_cons, not_elem_of_cons, <- IH.
  destruct (String.eqb_spec (Value k) key); naive_solver.
Qed.

Lemma entry_delete_None key c : entry_delete key c = None <-> entry_value key c = None.
Proof.
  induction c as [|[k v] c IH]; simpl; [done|]. destruct (String.eqb _ key); [done|].
  rewrite <- IH. by destruct (entry_delete key c).
Qed.

Lemma entry_delete_eq key c c' : NoDup (keys c) -> entry_delete key c = Some c' -> entry_value key c' = None.
Proof.
  revert c'. induction c as [|[k v] c IH]; intros c'; simpl; [done|]. intros [Hk Hc]%NoDup_cons.
  destruct (String.eqb_spec (Value k) key) as [<-|E].
  - intros [= <-]. by apply entry_value_None.
  - destruct (entry_delete key c) as [c''|]; simpl; [|done]. intros [= <-]. simpl.
    apply String.eqb_neq in E as ->. by apply IH.
Qed.

Lemma entry_delete_ne key key' c c' :
  key <> key' -> entry_delete key c = Some c' -> entry_value key' c' = entry_value key' c.
Proof.
  intros Hne. revert c'. induction c as [|[k v] c IH]; intros c'; simpl; [done|].
  destruct (String.eqb_spec (Value k) key) as [E|E].
  - intros [= <-]. rewrite E. by apply String.eqb_neq in Hne as ->.
  - destruct (entry_delete key c) as [c''|]; simpl; [|done]. intros [= <-]. simpl. by rewrite (IH c'').
Qed.

Lemma entry_keys_put key v c : keys (entry_put key v c) = if decide (key ∈ keys c) then keys c else keys c ++ [key].
Proof.
  induction c as [|[k0 v0] c IH]; [done|]. cbn [entry_put]. rewrite keys_cons.
  destruct (String.eqb_spec (Value k0) key) as [E|E]; rewrite keys_cons.
  - rewrite decide_True; [done|]. rewrite E. left.
  - rewrite IH. destruct (decide (key ∈ keys c)) as [H|H].
    + by rewrite decide_True by (by right).
    + rewrite decide_False; [done|]. set_solver.
Qed.

Lemma keys_update key f c : keys (entry_update key f c) = keys c.
Proof.
  induction c as [|[k0 v0] c IH]; simpl; [done|]. destruct (String.eqb _ key); [done|].
  by rewrite !keys_cons, IH.
Qed.

Lemma keys_delete key c c' : entry_delete key c = Some c' -> keys c' `sublist_of` keys c.
Proof.
  revert c'. induction c as [|[k v] c IH]; intros c'; simpl; [done|]. destruct (String.eqb _ key).
  - intros [= <-]. by constructor.
  - destruct (entry_delete key c) as [c''|]; simpl; [|done]. intros [= <-]. constructor. by apply IH.
Qed.

Lemma isMapping_put m k v : isMapping (mappingPut m k v) = isMapping m.
Proof. by destruct m. Qed.

Lemma isMapping_update m k f : isMapping (mappingUpdate m k f) = isMapping m.
Proof. by destruct m. Qed.

Lemma isMapping_carry old v : isMapping (carry_comments old v) = isMapping v.
Proof. by destruct v. Qed.

Lemma isMapping_strip v : isMapping (stripComments v) = isMapping v.
Proof. by destruct v. Qed.

Lemma isMapping_graft t segs g : isMapping (graft_at t segs g) = isMapping t.
Proof.
  destruct segs as [|seg [|seg' rest]]; simpl; [done|apply isMapping_put|].
  rewrite isMapping_update. destruct (has_mapping t seg); [done|apply isMapping_put].
Qed.

(** ** Data *)

(** Two maps over the contents of a node agree when they agree on its parts. *)
Lemma map_entries_ext {A} (f g : Node -> A) (c : list (Node * Node)) :
  Forall (fun kv => f kv.1 = g kv.1 /\ f kv.2 = g kv.2) c ->
  map (fun '(k, v) => (f k, f v)) c = map (fun '(k, v) => (g k, g v)) c.
Proof. induction 1 as [|[k v] c [Hk Hv] _ IH]; simpl in *; [done|]. by rewrite Hk, Hv, IH. Qed.

Lemma erase_meta_idemp m : erase_meta (erase_meta m) = erase_meta m.
Proof. done. Qed.

Lemma erase_idemp n : erase (erase n) = erase n.
Proof.
  induction n as [| |m c IH|m c IH] using Node_nested_ind; simpl; [done..| |]; f_equal; rewrite map_map.
  - by apply map_ext_Forall.
  - rewrite <- (map_entries_ext (fun n => erase (erase n)) erase) by done. by apply map_ext; intros [].
Qed.

Lemma erase_strip n : erase (stripComments n) = erase n.
Proof.
  induction n as [| |m c IH|m c IH] using Node_nested_ind; simpl; [done..| |]; f_equal; rewrite map_map.
  - by apply map_ext_Forall.
  - rewrite <- (map_entries_ext (fun n => erase (stripComments n)) erase) by done. by apply map_ext; intros [].
Qed.

Lemma erase_carry old v : erase (carry_comments old v) = erase v.
Proof. by destruct v. Qed.

Lemma carry_erased old v : carry_comments (erase old) (erase v) = erase v.
Proof. by destruct old, v. Qed.

Lemma Value_erase n : Value (erase n) = Value n.
Proof. by destruct n. Qed.

Lemma isMapping_erase n : isMapping (erase n) = isMapping n.
Proof. by destruct n. Qed.

Definition erase_entries (c : list (Node * Node)) : list (Node * Node) := map (fun '(k, v) => (erase k, erase v)) c.

Lemma entry_value_erase key c : entry_value key (erase_entries c) = erase <$> entry_value key c.
Proof. induction c as [|[k v] c IH]; simpl; [done|]. rewrite Value_erase. by destruct (String.eqb _ _). Qed.

Lemma mappingValue_erase m key : mappingValue (erase m) key = erase <$> mappingValue m key.
Proof. destruct m; try done. apply entry_value_erase. Qed.

Lemma nodeValueAt_erase m segs : nodeValueAt (erase m) segs = erase <$> nodeValueAt m segs.
Proof.
  revert m. induction segs as [|seg rest IH]; intros m; simpl; [done|]. rewrite mappingValue_erase.
  destruct (mappingValue m seg) as [v|]; simpl; [|done]. destruct rest; [done|]. rewrite isMapping_erase, IH.
  by destruct (isMapping v).
Qed.

Lemma erase_put m key v : erase (mappingPut m key v) = mappingPut (erase m) key (erase v).
Proof.
  destruct m as [| | |mt c]; try done. simpl. f_equal. induction c as [|[k old] c IH]; simpl; [done|].
  rewrite Value_erase. destruct (String.eqb _ key); simpl; [by rewrite erase_carry, carry_erased|by rewrite IH].
Qed.

Lemma erase_update m key f g :
  (forall v, erase (f v) = g (erase v)) -> erase (mappingUpdate m key f) = mappingUpdate (erase m) key g.
Proof.
  intros Hf. destruct m as [| | |mt c]; try done. simpl. f_equal. induction c as [|[k old] c IH]; simpl; [done|].
  rewrite Value_erase. destruct (String.eqb _ key); simpl; [by rewrite Hf|by rewrite IH].
Qed.

Lemma erase_delete m key : mappingDelete (erase m) key = erase <$> mappingDelete m key.
Proof.
  destruct m as [| | |mt c]; try done. simpl.
  enough (entry_delete key (erase_entries c) = erase_entries <$> entry_delete key c) as H.
  { unfold erase_entries in H. rewrite H. by destruct (entry_delete key c). }
  induction c as [|[k v] c IH]; simpl; [done|]. rewrite Value_erase. destruct (String.eqb _ key); [done|].
  rewrite IH. by destruct (entry_delete key c).
Qed.

Lemma has_mapping_erase m seg : has_mapping (erase m) seg = has_mapping m seg.
Proof. unfold has_mapping. rewrite mappingValue_erase. destruct (mappingValue m seg); [apply isMapping_erase|done]. Qed.

Lemma erase_graft t segs g : erase (graft_at t segs g) = graft_at (erase t) segs (erase g).
Proof.
  revert t. induction segs as [|seg rest IH]; intros t; [done|]. destruct rest as [|seg' rest]; [apply erase_put|].
  cbn [graft_at]. rewrite (erase_update _ _ _ (fun child => graft_at child (seg' :: rest) (erase g))) by (intros; apply IH).
  rewrite has_mapping_erase. destruct (has_mapping t seg); [done|]. by rewrite erase_put.
Qed.

Lemma graft_single t seg g : graft_at t [seg] g = mappingPut t seg g.
Proof. done. Qed.

Lemma delete_single t seg : nodeDeletePath t [seg] = mappingDelete t seg.
Proof. done. Qed.

Lemma graft_cons t seg seg' rest g :
  graft_at t (seg :: seg' :: rest) g =
  mappingUpdate (if has_mapping t seg then t else mappingPut t seg newMapping) seg
    (fun child => graft_at child (seg' :: rest) g).
Proof. done. Qed.

Lemma delete_cons m seg seg' rest :
  nodeDeletePath m (seg :: seg' :: rest) =
  match mappingValue m seg with
  | Some child =>
      if isMapping child
      then (fun child' => mappingUpdate m seg (fun _ => child')) <$> nodeDeletePath child (seg' :: rest)
      else None
  | None => None
  end.
Proof. done. Qed.

Lemma erase_delete_path m segs : nodeDeletePath (erase m) segs = erase <$> nodeDeletePath m segs.
Proof.
  revert m. induction segs as [|seg rest IH]; intros m; [done|]. destruct rest as [|seg' rest]; [apply erase_delete|].
  rewrite !delete_cons, mappingValue_erase. destruct (mappingValue m seg) as [child|]; [|done].
  cbn [fmap option_fmap option_map]. rewrite isMapping_erase. destruct (isMapping child); [|done]. rewrite IH.
  destruct (nodeDeletePath child _) as [c'|]; [|done]. simpl. f_equal. symmetry. by apply erase_update.
Qed.

#[global] Instance graft_proper segs : Proper ((≡) ==> (≡) ==> (≡)) (fun t g => graft_at t segs g).
Proof. intros t t' Ht g g' Hg. unfold equiv, node_equiv in *. by rewrite !erase_graft, Ht, Hg. Qed.

#[global] Instance nodeGraftValue_proper : Proper ((≡) ==> (=) ==> (≡) ==> (≡)) nodeGraftValue.
Proof.
  intros t t' Ht segs _ <- v v' Hv. unfold nodeGraftValue. apply graft_proper; [done|].
  unfold equiv, node_equiv in *. by rewrite !erase_strip.
Qed.

#[global] Instance nodeDeletePath_proper : Proper ((≡) ==> (=) ==> (≡)) nodeDeletePath.
Proof.
  intros m m' Hm segs _ <-. unfold equiv, node_equiv in Hm. pose proof (erase_delete_path m segs) as H.
  rewrite Hm, erase_delete_path in H. destruct (nodeDeletePath m segs), (nodeDeletePath m' segs); simplify_eq/=; by constructor.
Qed.

#[global] Instance nodeValueAt_proper : Proper ((≡) ==> (=) ==> (≡)) nodeValueAt.
Proof.
  intros m m' Hm segs _ <-. unfold equiv, node_equiv in Hm. pose proof (nodeValueAt_erase m segs) as H.
  rewrite Hm, nodeValueAt_erase in H. destruct (nodeValueAt m segs), (nodeValueAt m' segs); simplify_eq/=; by constructor.
Qed.

(** ** Paths *)

(** Neither path leads through the other. *)
Fixpoint diverge (a b : list string) : Prop :=
  match a, b with
  | x :: a', y :: b' => x <> y \/ diverge a' b'
  | _, _ => False
  end.

#[global] Instance diverge_dec a b : Decision (diverge a b).
Proof. revert b. induction a; intros []; simpl; apply _. Defined.

Lemma valueAt_single m seg : nodeValueAt m [seg] = mappingValue m seg.
Proof. simpl. by destruct (mappingValue m seg). Qed.

Lemma valueAt_cons m seg seg' rest :
  nodeValueAt m (seg :: seg' :: rest) = mappingValue m seg ≫= fun child => nodeValueAt child (seg' :: rest).
Proof.
  cbn [nodeValueAt]. destruct (mappingValue m seg) as [child|]; [|done]. simpl. by destruct child.
Qed.

#[global] Arguments nodeValueAt : simpl never.
#[global] Arguments graft_at : simpl never.
#[global] Arguments nodeDeletePath : simpl never.

(** [graft_at] first makes sure that the entry is a mapping. *)
Lemma graft_base t seg :
  isMapping t = true ->
  let t' := if has_mapping t seg then t else mappingPut t seg newMapping in
  (exists child, mappingValue t' seg = Some child /\ isMapping child = true /\
     forall rest, nodeValueAt child rest = mappingValue t seg ≫= fun child => nodeValueAt child rest) /\
  (forall seg', seg' <> seg -> mappingValue t' seg' = mappingValue t seg').
Proof.
  intros Ht. unfold has_mapping. destruct (mappingValue t seg) as [child|] eqn:E.
  - destruct (isMapping child) eqn:Ec; [eauto 10|]. split; [|intros; by apply mappingValue_put_ne].
    destruct (mappingValue_put_eq t seg newMapping Ht) as (v' & Ev & H). exists v'. split; [done|].
    split; [by destruct H as [->|[? ->]]|]. intros rest.
    assert (nodeValueAt child rest = None) as Hn by (destruct rest; [done|]; by destruct child).
    simpl. rewrite Hn. destruct H as [->|[? ->]]; by destruct rest.
  - split; [|intros; by apply mappingValue_put_ne].
    destruct (mappingValue_put_eq t seg newMapping Ht) as (v' & Ev & H). exists v'. split; [done|].
    split; [by destruct H as [->|[? ->]]|]. intros rest. destruct H as [->|[? ->]]; by destruct rest.
Qed.

Lemma valueAt_graft t segs g :
  isMapping t = true -> segs <> [] -> nodeValueAt (graft_at t segs g) segs ≡ Some g.
Proof.
  revert t. induction segs as [|seg rest IH]; intros t Ht Hs; [done|]. destruct rest as [|seg' rest].
  - rewrite valueAt_single. rewrite graft_single. destruct (mappingValue_put_eq t seg g Ht) as (v' & -> & H).
    constructor. destruct H as [->|[old ->]]; [done|]. apply erase_carry.
  - rewrite graft_cons, valueAt_cons, mappingValue_update_eq.
    destruct (graft_base t seg Ht) as [(child & -> & Hc & _) _]. simpl. by apply IH.
Qed.

Lemma valueAt_graft_other t segs g segs' :
  isMapping t = true -> diverge segs segs' -> nodeValueAt (graft_at t segs g) segs' = nodeValueAt t segs'.
Proof.
  revert t segs'. induction segs as [|seg rest IH]; intros t segs' Ht Hd; [done|].
  destruct segs' as [|y ys]; [done|]. destruct rest as [|seg' rest].
  - destruct Hd as [Hd|[]]. rewrite graft_single. destruct ys; [rewrite !valueAt_single|rewrite !valueAt_cons];
      by rewrite mappingValue_put_ne.
  - rewrite graft_cons. destruct (graft_base t seg Ht) as [(child & E & Hc & Hat) Hne].
    destruct (decide (y = seg)) as [->|Hy].
    + destruct Hd as [Hd|Hd]; [done|]. destruct ys as [|y' ys]; [done|].
      rewrite !valueAt_cons, mappingValue_update_eq, E. cbn [fmap option_fmap option_map mbind option_bind].
      rewrite IH by done. rewrite Hat. by destruct (mappingValue t seg).
    + destruct ys; [rewrite !valueAt_single|rewrite !valueAt_cons];
        by rewrite mappingValue_update_ne, Hne by done.
Qed.

Lemma delete_path_None t segs : nodeDeletePath t segs = None <-> nodeValueAt t segs = None.
Proof.
  revert t. induction segs as [|seg rest IH]; intros t; [done|]. destruct rest as [|seg' rest].
  - rewrite valueAt_single. destruct t; try done. rewrite delete_single. cbn [mappingDelete mappingValue].
    rewrite <- entry_delete_None. by destruct (entry_delete _ _).
  - rewrite delete_cons, valueAt_cons. destruct (mappingValue t seg) as [child|]; [|done]. simpl mbind.
    destruct (isMapping child) eqn:E; [|by destruct child].
    rewrite fmap_None. apply IH.
Qed.

Lemma delete_path_other t segs t' segs' :
  nodeDeletePath t segs = Some t' -> diverge segs segs' -> nodeValueAt t' segs' = nodeValueAt t segs'.
Proof.
  revert t t' segs'. induction segs as [|seg rest IH]; intros t t' segs' Hd Hv; [done|].
  destruct segs' as [|y ys]; [done|]. destruct rest as [|seg' rest].
  - destruct Hv as [Hv|[]]. destruct t as [| | |mt c]; try done. rewrite delete_single in Hd. cbn [mappingDelete] in Hd.
    destruct (entry_delete seg c) as [c'|] eqn:E; [|done]. injection Hd as <-.
    pose proof (entry_delete_ne _ _ _ _ Hv E) as He.
    destruct ys; [rewrite !valueAt_single|rewrite !valueAt_cons]; cbn [mappingValue]; by rewrite He.
  - rewrite delete_cons in Hd. destruct (mappingValue t seg) as [child|] eqn:E; [|done].
    destruct (isMapping child); [|done]. apply fmap_Some in Hd as (child' & Hd & ->).
    destruct (decide (y = seg)) as [->|Hy].
    + destruct Hv as [Hv|Hv]; [done|]. destruct ys as [|y' ys]; [done|].
      rewrite !valueAt_cons, mappingValue_update_eq, E. simpl mbind. by eapply IH.
    + destruct ys; [rewrite !valueAt_single|rewrite !valueAt_cons]; by rewrite mappingValue_update_ne by done.
Qed.

(** ** Unique keys *)

Lemma unique_keys_mapping m c :
  unique_keys (MappingNode m c) <-> NoDup (keys c) /\ Forall (fun kv => unique_keys kv.2) c.
Proof.
  simpl. apply and_iff_compat_l. induction c as [|kv c IH]; simpl; [by split; [constructor|]|].
  rewrite Forall_cons. by rewrite IH.
Qed.

Lemma unique_keys_erase n : unique_keys (erase n) <-> unique_keys n.
Proof.
  induction n as [| | |m c IH] using Node_nested_ind; [done..|]. cbn [erase]. rewrite !unique_keys_mapping.
  assert (keys (map (fun '(k, v) => (erase k, erase v)) c) = keys c) as ->.
  { clear IH. induction c as [|[k v] c IHc]; [done|]. cbn [map]. by rewrite !keys_cons, Value_erase, IHc. }
  apply and_iff_compat_l. induction IH as [|[k v] c [_ Hv] _ IHc]; cbn [map]; [done|].
  rewrite !Forall_cons. cbn. by rewrite Hv, IHc.
Qed.

#[global] Instance unique_keys_proper : Proper ((≡) ==> iff) unique_keys.
Proof. intros a b H. rewrite <- (unique_keys_erase a), <- (unique_keys_erase b). by rewrite H. Qed.

Lemma unique_keys_value m key v : unique_keys m -> mappingValue m key = Some v -> unique_keys v.
Proof.
  destruct m as [| | |mt c]; try done. rewrite unique_keys_mapping. intros [_ Hc] E. cbn in E.
  induction Hc as [|[k x] c Hx _ IH]; simpl in E; [done|]. destruct (String.eqb _ _); [by simplify_eq|by apply IH].
Qed.

Lemma unique_keys_put m key v : unique_keys m -> unique_keys v -> unique_keys (mappingPut m key v).
Proof.
  destruct m as [| | |mt c]; try done. cbn [mappingPut]. rewrite !unique_keys_mapping. intros [Hn Hc] Hv. split.
  - rewrite entry_keys_put. destruct (decide _) as [|H]; [done|]. apply NoDup_app. split; [done|].
    split; [set_solver|]. apply NoDup_singleton.
  - clear Hn. induction Hc as [|[k x] c Hx Hc IH]; cbn [entry_put]; [by repeat constructor|].
    destruct (String.eqb _ _); constructor; try done. cbn. by destruct v.
Qed.

Lemma unique_keys_update m key f :
  unique_keys m -> (forall v, mappingValue m key = Some v -> unique_keys (f v)) -> unique_keys (mappingUpdate m key f).
Proof.
  destruct m as [| | |mt c]; try done. cbn [mappingUpdate mappingValue]. rewrite !unique_keys_mapping, keys_update.
  intros [Hn Hc] Hf. split; [done|]. clear Hn. induction Hc as [|[k x] c Hx Hc IH]; cbn in *; [constructor|].
  destruct (String.eqb _ _); constructor; try done; cbn; [by apply Hf|]. by apply IH.
Qed.

Lemma unique_keys_graft t segs g : unique_keys t -> unique_keys g -> unique_keys (graft_at t segs g).
Proof.
  intros Ht Hg. revert t Ht. induction segs as [|seg rest IH]; intros t Ht; [done|]. destruct rest as [|seg' rest].
  - by apply unique_keys_put.
  - rewrite graft_cons. set (t' := if has_mapping t seg then t else _).
    assert (unique_keys t') as Ht'.
    { unfold t'. destruct (has_mapping t seg); [done|]. apply unique_keys_put; [done|].
      apply unique_keys_mapping. by repeat constructor. }
    apply unique_keys_update; [done|]. intros v Hv. apply IH. by eapply unique_keys_value.
Qed.

Lemma unique_keys_delete t segs t' : unique_keys t -> nodeDeletePath t segs = Some t' -> unique_keys t'.
Proof.
  revert t t'. induction segs as [|seg rest IH]; intros t t' Ht Hd; [done|]. destruct rest as [|seg' rest].
  - destruct t as [| | |mt c]; try done. rewrite delete_single in Hd. cbn [mappingDelete] in Hd.
    destruct (entry_delete seg c) as [c'|] eqn:E; [|done]. injection Hd as <-. apply unique_keys_mapping in Ht as [Hn Hc].
    rewrite unique_keys_mapping. split; [eapply sublist_NoDup; [done|by eapply keys_delete]|].
    clear Hn. revert c' E. induction Hc as [|[k x] c Hx Hc IHc]; intros c' E; simpl in E; [done|].
    destruct (String.eqb _ _); [by simplify_eq|]. destruct (entry_delete seg c) as [c''|]; simplify_eq/=.
    constructor; [done|]. by apply IHc.
  - rewrite delete_cons in Hd. destruct (mappingValue t seg) as [child|] eqn:E; [|done].
    destruct (isMapping child); [|done]. apply fmap_Some in Hd as (child' & Hd & ->).
    apply unique_keys_update; [done|]. intros v _. eapply IH; [|done]. by eapply unique_keys_value.
Qed.

Lemma valueAt_delete t segs t' : unique_keys t -> nodeDeletePath t segs = Some t' -> nodeValueAt t' segs = None.
Proof.
  revert t t'. induction segs as [|seg rest IH]; intros t t' Ht Hd; [done|]. destruct rest as [|seg' rest].
  - destruct t as [| | |mt c]; try done. rewrite delete_single in Hd. cbn [mappingDelete] in Hd.
    destruct (entry_delete seg c) as [c'|] eqn:E; [|done]. injection Hd as <-. apply unique_keys_mapping in Ht as [Hn _].
    rewrite valueAt_single. cbn [mappingValue]. by rewrite (entry_delete_eq _ _ _ Hn E).
  - rewrite delete_cons in Hd. destruct (mappingValue t seg) as [child|] eqn:E; [|done].
    destruct (isMapping child); [|done]. apply fmap_Some in Hd as (child' & Hd & ->).
    rewrite valueAt_cons, mappingValue_update_eq, E. simpl mbind. eapply IH; [|done]. by eapply unique_keys_value.
Qed.

(** ** Comments *)

Lemma comments_strip n : comments (stripComments n) = [].
Proof.
  induction n as [| |m c IH|m c IH] using Node_nested_ind; simpl; [done..| |].
  - induction IH as [|x c Hx _ IH]; simpl; [done|]. by rewrite Hx.
  - induction IH as [|[k v] c [Hk Hv] _ IH]; simpl in *; [done|]. by rewrite Hk, Hv.
Qed.

Lemma own_comments_elem x m :
  x ∈ own_comments m <-> x <> "" /\ (x = HeadComment m \/ x = LineComment m \/ x = FootComment m).
Proof. unfold own_comments. rewrite list_elem_of_filter. set_solver. Qed.

Lemma own_in_comments n : own_comments (meta n) ⊆ comments n.
Proof. destruct n; simpl; [done..| |]; apply list_subseteq_app_l; done. Qed.

Lemma own_comments_carry old v :
  own_comments (meta v) = [] -> own_comments (meta (carry_comments old v)) ⊆ own_comments (meta old).
Proof.
  intros Hv. assert (forall x, x ∈ own_comments (meta v) -> False) as Hn by (rewrite Hv; set_solver).
  setoid_rewrite own_comments_elem in Hn. intros x. rewrite !own_comments_elem.
  assert (forall s o : string, (s <> "" -> False) -> or_comment s o = o) as Hor.
  { intros s o Hs. unfold or_comment. destruct (String.eqb_spec s ""); [done|]. by destruct Hs. }
  destruct v as [m ?|m ?|m ?|m ?]; cbn in *; rewrite !Hor by (intros ?; eapply Hn; eauto); naive_solver.
Qed.

Lemma comments_carry old v : comments v = [] -> comments (carry_comments old v) ⊆ comments old.
Proof.
  intros Hv. etrans; [|apply own_in_comments].
  assert (own_comments (meta v) = []) as Ho.
  { pose proof (own_in_comments v) as H. rewrite Hv in H. by destruct (own_comments (meta v)) as [|x l]; [|set_solver]. }
  etrans; [|apply own_comments_carry, Ho].
  destruct v as [| |m c|m c]; simpl in *; [done..| |]; apply app_nil in Hv as [_ Hv]; rewrite Hv; by rewrite app_nil_r.
Qed.

Lemma comments_mapping m c x :
  x ∈ comments (MappingNode m c) <-> x ∈ own_comments m \/ exists k v, (k, v) ∈ c /\ (x ∈ comments k \/ x ∈ comments v).
Proof.
  simpl. rewrite elem_of_app. apply or_iff_compat_l. rewrite list_elem_of_In, in_concat. setoid_rewrite in_map_iff.
  setoid_rewrite <- list_elem_of_In. split.
  - intros (l & ([k v] & <- & Hin) & Hx). exists k, v. rewrite elem_of_app in Hx. naive_solver.
  - intros (k & v & Hin & Hx). exists (comments k ++ comments v). rewrite elem_of_app. split; [|done]. by exists (k, v).
Qed.

Lemma comments_put m key v : comments v = [] -> comments (mappingPut m key v) ⊆ comments m.
Proof.
  intros Hv. destruct m as [| | |mt c]; try done. cbn [mappingPut]. intros x.
  rewrite !comments_mapping. intros [Hx|(k & w & Hin & Hx)]; [by left|]. right.
  induction c as [|[k0 old] c IH]; cbn [entry_put] in Hin.
  - apply list_elem_of_singleton in Hin. simplify_eq. rewrite Hv in Hx. set_solver.
  - destruct (String.eqb _ _).
    + apply elem_of_cons in Hin as [Hin|Hin]; [|exists k, w; split; [by right|done]].
      simplify_eq. exists k0, old. split; [left|]. destruct Hx as [Hx|Hx]; [by left|right].
      by apply (comments_carry old v Hv).
    + apply elem_of_cons in Hin as [Hin|Hin]; [simplify_eq; exists k0, old; split; [left|done]|].
      destruct (IH Hin) as (k' & w' & Hin' & Hx'). exists k', w'. split; [by right|done].
Qed.

Lemma comments_update m key f :
  (forall v, mappingValue m key = Some v -> comments (f v) ⊆ comments v) ->
  comments (mappingUpdate m key f) ⊆ comments m.
Proof.
  destruct m as [| | |mt c]; try done. cbn [mappingUpdate mappingValue]. intros Hf x.
  rewrite !comments_mapping. intros [Hx|(k & w & Hin & Hx)]; [by left|]. right.
  induction c as [|[k0 old] c IH]; cbn [entry_update entry_value] in *; [set_solver|].
  destruct (String.eqb _ _).
  - apply elem_of_cons in Hin as [Hin|Hin]; [|exists k, w; split; [by right|done]].
    simplify_eq. exists k0, old. split; [left|]. destruct Hx as [Hx|Hx]; [by left|right]. by apply (Hf old).
  - apply elem_of_cons in Hin as [Hin|Hin]; [simplify_eq; exists k0, old; split; [left|done]|].
    destruct (IH Hf Hin) as (k' & w' & Hin' & Hx'). exists k', w'. split; [by right|done].
Qed.

Lemma comments_graft t segs g : comments g = [] -> comments (graft_at t segs g) ⊆ comments t.
Proof.
  intros Hg. revert t. induction segs as [|seg rest IH]; intros t; [done|]. destruct rest as [|seg' rest].
  - by apply comments_put.
  - rewrite graft_cons. etrans; [apply comments_update; intros v _; apply IH|].
    destruct (has_mapping t seg); [done|]. by apply comments_put.
Qed.

Lemma comments_value m key v : mappingValue m key = Some v -> comments v ⊆ comments m.
Proof.
  destruct m as [| | |mt c]; try done. cbn [mappingValue]. intros E x Hx. apply comments_mapping. right.
  induction c as [|[k0 old] c IH]; simpl in E; [done|]. destruct (String.eqb _ _); simplify_eq.
  - exists k0, v. split; [left|by right].
  - destruct (IH E) as (k' & w' & Hin' & Hx'). exists k', w'. split; [by right|done].
Qed.

Lemma comments_delete t segs t' : nodeDeletePath t segs = Some t' -> comments t' ⊆ comments t.
Proof.
  revert t t'. induction segs as [|seg rest IH]; intros t t' Hd; [done|]. destruct rest as [|seg' rest].
  - destruct t as [| | |mt c]; try done. rewrite delete_single in Hd. cbn [mappingDelete] in Hd.
    destruct (entry_delete seg c) as [c'|] eqn:E; [|done]. injection Hd as <-. intros x.
    rewrite !comments_mapping. intros [Hx|(k & w & Hin & Hx)]; [by left|]. right. exists k, w. split; [|done].
    clear Hx. revert c' E Hin. induction c as [|[k0 old] c IHc]; intros c' E Hin; simpl in E; [done|].
    destruct (String.eqb _ _); simplify_eq; [by right|].
    destruct (entry_delete seg c) as [c''|]; simplify_eq/=. apply elem_of_cons in Hin as [Hin|Hin]; [simplify_eq; left|].
    right. by apply (IHc c'').
  - rewrite delete_cons in Hd. destruct (mappingValue t seg) as [child|] eqn:E; [|done].
    destruct (isMapping child); [|done]. apply fmap_Some in Hd as (child' & Hd & ->).
    apply comments_update. intros v Hv. simplify_eq. by apply IH.
Qed.

End Yaml.
