(* ===== verification/YamlMerge.v ===== *)
(** * Merging configuration layers

    internal/storage/merge.go and [mergeNodes] of node.go: layers are folded
    from the lowest to the highest priority into one tree, recording for every
    path the layer that provided its value.  The schema's merge tags choose
    between replacing and uniting. *)

From S2P Require Import Prelude GoStrings GoPath YamlNode.
Import Go GoPath Yaml.

Module YamlMerge.

(** ** The schema's metadata *)

(** [KindConsumer] are the kinds a consumer defines beyond [KindLast]. *)
Inductive FieldKind :=
  | KindText | KindBool | KindSelect | KindInt | KindStringSlice | KindDuration | KindTime
  | KindMap | KindStructSlice | KindStructMap | KindLast | KindConsumer (n : nat).

#[global] Instance FieldKind_eq_dec : EqDecision FieldKind.
Proof. solve_decision. Defined.

Record fieldMeta := mkFieldMeta { mergeTag : string; kind : FieldKind }.

Abbreviation tagRegistry := (gmap string fieldMeta).
Abbreviation provenance := (gmap string nat).

Definition mergeUnion : string := "union".

Definition path_join (prefix key : string) : string :=
  if String.eqb prefix "" then key else prefix +:+ "." +:+ key.

Section Merge.
Context {Any : Type}.
(** [Node.Decode] into an untyped value, and [reflect.DeepEqual]. *)
Variable decode_any : Node -> option Any.
Variable DeepEqual : Any -> Any -> bool.
Variable tags : tagRegistry.

Definition decodedEqual (a b : Node) : bool :=
  match decode_any a, decode_any b with Some av, Some bv => DeepEqual av bv | _, _ => false end.

Definition appendUnique (content : list Node) (item : Node) : list Node :=
  if existsb (fun existing => decodedEqual existing item) content then content else content ++ [item].

(** The items of the lower layer, then those of the higher one that are new;
    the sequence keeps the comments of the higher one. *)
Definition unionSeqNodes (dst src : list Node) (srcMeta : Meta) : Node :=
  SequenceNode (mkMeta 0 "!!seq" "" (HeadComment srcMeta) (LineComment srcMeta) (FootComment srcMeta))
    (foldl appendUnique (foldl appendUnique [] dst) src).

(** A map field without the union tag is replaced as a whole. *)
Definition opaqueReplace (path : string) : bool :=
  match tags !! path with
  | Some m => bool_decide (kind m = KindMap) && negb (String.eqb (mergeTag m) mergeUnion)
  | None => false
  end.

Definition unionField (path : string) : bool :=
  match tags !! path with Some m => String.eqb (mergeTag m) mergeUnion | None => false end.

(** [recurse] is [mergeNodes] on the two values. *)
Definition mergeMappingEntry (recurse : Node -> provenance -> Node * provenance)
    (dst : Node) (key : string) (srcVal : Node) (path : string) (prov : provenance) : Node * provenance :=
  match mappingValue dst key with
  | Some dstVal =>
      if negb (opaqueReplace path) && isMapping dstVal then
        let '(dstVal', prov) := recurse dstVal prov in (mappingUpdate dst key (fun _ => dstVal'), prov)
      else (mappingPut dst key srcVal, prov)
  | None => (mappingPut dst key srcVal, prov)
  end.

Definition mergeEntry (recurse : Node -> provenance -> Node * provenance)
    (dst : Node) (key : string) (srcVal : Node) (path : string) (prov : provenance) : Node * provenance :=
  match srcVal with
  | MappingNode _ _ => mergeMappingEntry recurse dst key srcVal path prov
  | SequenceNode m src =>
      match mappingValue dst key with
      | Some (SequenceNode _ dstItems) =>
          if unionField path then (mappingPut dst key (unionSeqNodes dstItems src m), prov)
          else (mappingPut dst key srcVal, prov)
      | _ => (mappingPut dst key srcVal, prov)
      end
  | ScalarNode _ _ | AliasNode _ _ => (mappingPut dst key srcVal, prov)
  end.

Fixpoint mergeNodes (layerIdx : nat) (src : Node) (prefix : string) (dst : Node) (prov : provenance) : Node * provenance :=
  match src with
  | MappingNode _ content =>
      foldl (fun st kv =>
               let '(dst, prov) := st in
               let '(k, srcVal) := kv in
               let key := Value k in
               let path := path_join prefix key in
               let '(dst, prov) :=
                 mergeEntry (fun d p => mergeNodes layerIdx srcVal path d p) dst key srcVal path prov in
               (dst, <[path := layerIdx]> prov))
            (dst, prov) content
  | _ => (dst, prov)
  end.

(** Layer nodes, highest priority first. *)
Definition merge (layers : list Node) : Node * provenance :=
  foldr (fun '(i, n) '(tree, prov) => mergeNodes i n "" tree prov) (newMapping, ∅) (imap pair layers).

End Merge.

(** ** One layer *)

Section Facts.
Context {Any : Type}.
Variable decode_any : Node -> option Any.
Variable DeepEqual : Any -> Any -> bool.
Variable tags : tagRegistry.
Abbreviation mergeNodes := (mergeNodes decode_any DeepEqual tags).
Abbreviation mergeEntry := (mergeEntry decode_any DeepEqual tags).
Abbreviation merge := (merge decode_any DeepEqual tags).
Abbreviation opaqueReplace := (opaqueReplace tags).
Abbreviation unionField := (unionField tags).

(** The loop body of [mergeNodes]. *)
Definition merge_step (i : nat) (prefix : string) (st : Node * provenance) (kv : Node * Node) : Node * provenance :=
  let '(dst, prov) := st in
  let '(k, srcVal) := kv in
  let path := path_join prefix (Value k) in
  let '(dst, prov) := mergeEntry (fun d p => mergeNodes i srcVal path d p) dst (Value k) srcVal path prov in
  (dst, <[path := i]> prov).

Lemma mergeNodes_fold i m c prefix dst prov :
  mergeNodes i (MappingNode m c) prefix dst prov = foldl (merge_step i prefix) (dst, prov) c.
Proof. done. Qed.

(** The value an entry gets, given the one it had. *)
Definition merged_value (i : nat) (path : string) (s : Node) (old : option Node) : Node :=
  match old with
  | None => s
  | Some d =>
      match s with
      | MappingNode _ _ =>
          if negb (opaqueReplace path) && isMapping d then (mergeNodes i s path d ∅).1 else carry_comments d s
      | SequenceNode m src =>
          match d with
          | SequenceNode _ items =>
              carry_comments d (if unionField path then unionSeqNodes decode_any DeepEqual items src m else s)
          | _ => carry_comments d s
          end
      | _ => carry_comments d s
      end
  end.

Lemma merge_step_shape i prefix st kv : isMapping (merge_step i prefix st kv).1 = isMapping st.1.
Proof.
  destruct st as [dst prov], kv as [k s]. unfold merge_step, YamlMerge.mergeEntry, mergeMappingEntry.
  repeat case_match; simplify_eq/=; rewrite ?isMapping_put, ?isMapping_update; done.
Qed.

Lemma merge_fold_shape i prefix st c : isMapping (foldl (merge_step i prefix) st c).1 = isMapping st.1.
Proof. revert st. induction c as [|kv c IH]; intros st; simpl; [done|]. by rewrite IH, merge_step_shape. Qed.

Lemma mergeNodes_shape i src prefix dst prov : isMapping (mergeNodes i src prefix dst prov).1 = isMapping dst.
Proof. destruct src; try done. rewrite mergeNodes_fold. apply merge_fold_shape. Qed.

(** The tree does not depend on the provenance so far. *)
Lemma mergeNodes_tree i src prefix dst p q : (mergeNodes i src prefix dst p).1 = (mergeNodes i src prefix dst q).1.
Proof.
  revert prefix dst p q. induction src as [| | |m c IH] using Node_nested_ind; intros prefix dst p q; [done..|].
  rewrite !mergeNodes_fold. revert dst p q. induction IH as [|[k s] c [_ Hs] _ IHc]; intros dst p q; [done|].
  cbn [foldl].
  enough ((merge_step i prefix (dst, p) (k, s)).1 = (merge_step i prefix (dst, q) (k, s)).1) as E.
  { destruct (merge_step i prefix (dst, p) (k, s)) as [d1 p1], (merge_step i prefix (dst, q) (k, s)) as [d2 q1].
    simpl in E. subst. apply IHc. }
  unfold merge_step, YamlMerge.mergeEntry, mergeMappingEntry. destruct s; try done.
  - repeat case_match; simplify_eq/=; done.
  - destruct (mappingValue dst (Value k)) as [d|]; [|done]. destruct (negb _ && isMapping d); [|done].
    specialize (Hs (path_join prefix (Value k)) d p q). cbn [snd] in Hs.
    destruct (mergeNodes _ _ _ d p), (mergeNodes _ _ _ d q); simplify_eq/=. done.
Qed.

Lemma merge_step_eq i prefix dst p k s :
  isMapping dst = true ->
  mappingValue (merge_step i prefix (dst, p) (k, s)).1 (Value k) =
  Some (merged_value i (path_join prefix (Value k)) s (mappingValue dst (Value k))).
Proof.
  intros Hd. unfold merge_step, YamlMerge.mergeEntry, mergeMappingEntry, merged_value.
  destruct s as [| |m items|m c]; cbn [fst].
  1,2: rewrite mappingValue_put by done; by destruct (mappingValue dst (Value k)).
  - destruct (mappingValue dst (Value k)) as [d|] eqn:E; [|by simpl; rewrite mappingValue_put, E by done].
    destruct d; try by (simpl; rewrite mappingValue_put, E by done).
    destruct (unionField _); simpl; by rewrite mappingValue_put, E by done.
  - destruct (mappingValue dst (Value k)) as [d|] eqn:E; [|by simpl; rewrite mappingValue_put, E by done].
    destruct (negb _ && isMapping d); [|by simpl; rewrite mappingValue_put, E by done].
    rewrite (mergeNodes_tree i (MappingNode m c) (path_join prefix (Value k)) d ∅ p).
    destruct (mergeNodes _ _ _ d p) as [d' p']; simpl. by rewrite mappingValue_update_eq, E.
Qed.

Lemma merge_step_ne i prefix dst p k s key :
  key <> Value k -> mappingValue (merge_step i prefix (dst, p) (k, s)).1 key = mappingValue dst key.
Proof.
  intros Hne. unfold merge_step, YamlMerge.mergeEntry, mergeMappingEntry.
  repeat case_match; simplify_eq/=; rewrite ?mappingValue_put_ne, ?mappingValue_update_ne by done; done.
Qed.

Lemma merge_fold_ne i prefix st c key :
  key ∉ keys c -> mappingValue (foldl (merge_step i prefix) st c).1 key = mappingValue st.1 key.
Proof.
  revert st. induction c as [|[k s] c IH]; intros st; [done|]. rewrite keys_cons, not_elem_of_cons. intros [Hk Hc].
  cbn [foldl]. rewrite IH by done. destruct st. by apply merge_step_ne.
Qed.

(** What one layer does to one key. *)
Lemma mergeNodes_value i src prefix dst p key :
  unique_keys src -> isMapping dst = true ->
  mappingValue (mergeNodes i src prefix dst p).1 key =
  match mappingValue src key with
  | None => mappingValue dst key
  | Some s => Some (merged_value i (path_join prefix key) s (mappingValue dst key))
  end.
Proof.
  destruct src as [| | |m c]; try done. rewrite mergeNodes_fold, unique_keys_mapping. intros [Hn _] Hd.
  cbn [mappingValue]. revert dst p Hd. induction c as [|[k s] c IH]; intros dst p Hd; [done|].
  rewrite keys_cons in Hn. apply NoDup_cons in Hn as [Hk Hn]. cbn [foldl entry_value].
  pose proof (merge_step_shape i prefix (dst, p) (k, s)) as Hs. cbn [fst] in Hs. rewrite Hd in Hs.
  destruct (String.eqb_spec (Value k) key) as [<-|Hne].
  - rewrite merge_fold_ne by done. by apply merge_step_eq.
  - pose proof (merge_step_ne i prefix dst p k s key ltac:(done)) as He.
    destruct (merge_step i prefix (dst, p) (k, s)) as [d1 p1]. cbn [fst] in *.
    rewrite IH by done. by rewrite He.
Qed.

(** Merging makes no duplicate keys. *)
Lemma mergeNodes_unique i src prefix dst p : unique_keys src -> unique_keys dst -> unique_keys (mergeNodes i src prefix dst p).1.
Proof.
  revert prefix dst p. induction src as [| | |m c IH] using Node_nested_ind; intros prefix dst p; [done..|].
  rewrite mergeNodes_fold, unique_keys_mapping. intros [_ Hc]. revert dst p. induction IH as [|[k s] c [_ Hs] _ IHc]; intros dst p Hd; [done|].
  apply Forall_cons in Hc as [Hk Hc]. cbn [foldl]. cbn [snd] in Hk, Hs.
  enough (unique_keys (merge_step i prefix (dst, p) (k, s)).1) as E by (destruct (merge_step i prefix (dst, p) (k, s)); by apply IHc).
  unfold merge_step, YamlMerge.mergeEntry, mergeMappingEntry. destruct s as [| |ms items|ms ents]; cbn [fst]; [by apply unique_keys_put..| |].
  - destruct (mappingValue dst (Value k)) as [[]|]; cbn [fst]; try by apply unique_keys_put.
    destruct (unionField _); by apply unique_keys_put.
  - destruct (mappingValue dst (Value k)) as [d|] eqn:Ed; [|by apply unique_keys_put].
    destruct (negb _ && isMapping d); [|by apply unique_keys_put].
    specialize (Hs (path_join prefix (Value k)) d p Hk (unique_keys_value _ _ _ Hd Ed)).
    destruct (mergeNodes _ _ _ d p) as [d' p']. by apply unique_keys_update.
Qed.

(** ** Along a path *)

Definition path_of (prefix : string) (segs : list string) : string := foldl path_join prefix segs.

(** No proper prefix of the path is a leaf in the tree or a map that is
    replaced as a whole. *)
Fixpoint open_path (prefix : string) (segs : list string) (n : Node) : Prop :=
  match segs with
  | [] | [_] => True
  | seg :: rest =>
      opaqueReplace (path_join prefix seg) = false /\
      match mappingValue n seg with
      | None => True
      | Some v => isMapping v = true /\ open_path (path_join prefix seg) rest v
      end
  end.

Lemma open_path_cons prefix seg seg' rest n :
  open_path prefix (seg :: seg' :: rest) n <->
  opaqueReplace (path_join prefix seg) = false /\
  (forall v, mappingValue n seg = Some v -> isMapping v = true /\ open_path (path_join prefix seg) (seg' :: rest) v).
Proof. cbn [open_path]. destruct (mappingValue n seg); naive_solver. Qed.

Lemma mergeNodes_at i src prefix dst p segs :
  segs <> [] -> unique_keys src -> isMapping dst = true -> open_path prefix segs src -> open_path prefix segs dst ->
  nodeValueAt (mergeNodes i src prefix dst p).1 segs =
  match nodeValueAt src segs with
  | None => nodeValueAt dst segs
  | Some s => Some (merged_value i (path_of prefix segs) s (nodeValueAt dst segs))
  end.
Proof.
  revert src prefix dst p. induction segs as [|seg rest IH]; intros src prefix dst p Hne Hu Hd Ho Ho'; [done|].
  destruct rest as [|seg' rest].
  - rewrite !valueAt_single. by apply mergeNodes_value.
  - rewrite open_path_cons in Ho, Ho'. destruct Ho as [Hop Ho], Ho' as [_ Ho'].
    rewrite !valueAt_cons, mergeNodes_value by done. destruct (mappingValue src seg) as [s|] eqn:Es; [|done].
    destruct (Ho s eq_refl) as [Hs Hos]. destruct (mappingValue dst seg) as [d|] eqn:Ed.
    + destruct (Ho' d eq_refl) as [Hm Hod]. unfold merged_value at 1. destruct s as [| | |ms cs]; try done.
      rewrite Hop, Hm. simpl negb. simpl andb. cbv iota. cbn [mbind option_bind].
      rewrite IH; [done|done|by eapply unique_keys_value|done..].
    + cbn [merged_value mbind option_bind]. by destruct (nodeValueAt s _).
Qed.

Lemma mergeNodes_open i src prefix dst p segs :
  unique_keys src -> isMapping dst = true -> open_path prefix segs src -> open_path prefix segs dst ->
  open_path prefix segs (mergeNodes i src prefix dst p).1.
Proof.
  revert src prefix dst p. induction segs as [|seg rest IH]; intros src prefix dst p Hu Hd; [done|].
  destruct rest as [|seg' rest]; [done|]. rewrite !open_path_cons, mergeNodes_value by done.
  intros [Hop Ho] [_ Ho']. split; [done|]. intros v Hv.
  destruct (mappingValue src seg) as [s|] eqn:Es; [|by apply Ho']. injection Hv as <-.
  destruct (Ho s eq_refl) as [Hs Hos]. destruct (mappingValue dst seg) as [d|] eqn:Ed; [|done].
  destruct (Ho' d eq_refl) as [Hm Hod]. unfold merged_value. destruct s as [| | |ms cs]; try done.
  rewrite Hop, Hm. cbn [negb andb]. rewrite mergeNodes_shape. split; [done|].
  apply IH; [by eapply unique_keys_value|done..].
Qed.

(** ** All layers *)

Fixpoint merge_from (i : nat) (layers : list Node) : Node * provenance :=
  match layers with
  | [] => (newMapping, ∅)
  | n :: rest => let '(tree, prov) := merge_from (S i) rest in mergeNodes i n "" tree prov
  end.

Lemma merge_rec layers : merge layers = merge_from 0 layers.
Proof.
  unfold YamlMerge.merge. change (imap pair layers) with (imap (fun j n => ((0 + j)%nat, n)) layers).
  generalize 0%nat. induction layers as [|n layers IH]; intros i; [done|].
  cbn [imap foldr merge_from]. rewrite Nat.add_0_r, <- IH.
  replace (imap ((fun j n0 => ((i + j)%nat, n0)) ∘ S) layers) with (imap (fun j n0 => ((S i + j)%nat, n0)) layers); [done|].
  apply imap_ext. intros j x _. simpl. f_equal. lia.
Qed.

Lemma merge_from_cons i n rest :
  (merge_from i (n :: rest)).1 = (mergeNodes i n "" (merge_from (S i) rest).1 (merge_from (S i) rest).2).1.
Proof. cbn [merge_from]. by destruct (merge_from (S i) rest). Qed.

Lemma merge_from_shape i layers : isMapping (merge_from i layers).1 = true.
Proof.
  revert i. induction layers as [|n layers IH]; intros i; [done|]. rewrite merge_from_cons, mergeNodes_shape. apply IH.
Qed.

Lemma merge_from_unique i layers : Forall unique_keys layers -> unique_keys (merge_from i layers).1.
Proof.
  intros H. revert i. induction H as [|n layers Hn _ IH]; intros i; [apply unique_keys_mapping; by repeat constructor|].
  rewrite merge_from_cons. by apply mergeNodes_unique.
Qed.

(** A value that replaces what lower layers have at its path. *)
Definition replaces (path : string) (v : Node) : bool :=
  match v with
  | MappingNode _ _ => opaqueReplace path
  | SequenceNode _ _ => negb (unionField path)
  | ScalarNode _ _ | AliasNode _ _ => true
  end.

Lemma merged_value_replaces i path v old : replaces path v = true -> merged_value i path v old ≡ v.
Proof.
  unfold replaces, merged_value. destruct old as [d|]; [|done]. intros Hr. destruct v as [| |m c|m c].
  1,2: apply erase_carry.
  - apply negb_true_iff in Hr. rewrite Hr. destruct d; apply erase_carry.
  - rewrite Hr. apply erase_carry.
Qed.

(** The layers agree on the shape of the tree along the path. *)
Definition layers_open (segs : list string) (layers : list Node) : Prop :=
  open_path "" segs newMapping /\ Forall (fun n => unique_keys n /\ open_path "" segs n) layers.

Lemma merge_from_open i segs layers : layers_open segs layers -> open_path "" segs (merge_from i layers).1.
Proof.
  intros [H0 Hl]. revert i. induction Hl as [|n layers [Hu Ho] _ IH]; intros i; [done|].
  rewrite merge_from_cons. apply mergeNodes_open; [done|apply merge_from_shape|done|apply IH].
Qed.

Lemma merge_from_at i segs n layers :
  segs <> [] -> layers_open segs (n :: layers) ->
  nodeValueAt (merge_from i (n :: layers)).1 segs =
  match nodeValueAt n segs with
  | None => nodeValueAt (merge_from (S i) layers).1 segs
  | Some s => Some (merged_value i (path_of "" segs) s (nodeValueAt (merge_from (S i) layers).1 segs))
  end.
Proof.
  intros Hne [Hex [[Hu Ho] Hl]%Forall_cons]. rewrite merge_from_cons.
  apply mergeNodes_at; [done..|apply merge_from_shape|done|]. by apply merge_from_open.
Qed.

Lemma layers_open_tail segs n layers : layers_open segs (n :: layers) -> layers_open segs layers.
Proof. intros [? [_ ?]%Forall_cons]. by split. Qed.

(** Some layer has the field exactly when the merged tree has it. *)
Lemma merge_from_defined i segs layers :
  segs <> [] -> layers_open segs layers ->
  (is_Some (nodeValueAt (merge_from i layers).1 segs) <-> Exists (fun n => is_Some (nodeValueAt n segs)) layers).
Proof.
  intros Hne. revert i. induction layers as [|n layers IH]; intros i Hl.
  - rewrite Exists_nil. cbn [merge_from fst]. split; [|done]. intros [v Hv]. by destruct segs as [|? []].
  - rewrite merge_from_at, Exists_cons, <- (IH (S i)) by (done || by eapply layers_open_tail).
    destruct (nodeValueAt n segs); [|split; [by right|by intros [[]|]]]. split; [by left|by eexists].
Qed.

Lemma merge_from_first i segs layers :
  segs <> [] -> layers_open segs layers ->
  (forall v, head (omap (fun n => nodeValueAt n segs) layers) = Some v -> replaces (path_of "" segs) v = true) ->
  nodeValueAt (merge_from i layers).1 segs ≡ head (omap (fun n => nodeValueAt n segs) layers).
Proof.
  intros Hne. revert i. induction layers as [|n layers IH]; intros i Hl Hr.
  - cbn [merge_from fst omap list_omap head]. by destruct segs as [|? []].
  - rewrite merge_from_at by done. cbn [omap list_omap]. cbn [omap list_omap] in Hr.
    destruct (nodeValueAt n segs) as [v|] eqn:E.
    + cbn [head]. constructor. apply merged_value_replaces, Hr. done.
    + apply IH; [by eapply layers_open_tail|]. done.
Qed.

(** ** Provenance *)

(** A key that can be told apart in a dotted path. *)
Definition good_seg (k : string) : Prop := k <> "" /\ all_chars (free_of ".") k = true.

Fixpoint good_keys (n : Node) : Prop :=
  match n with
  | MappingNode _ c => fold_right (fun kv Q => (good_seg (Value kv.1) /\ good_keys kv.2) /\ Q) True c
  | _ => True
  end.

Lemma good_keys_mapping m c :
  good_keys (MappingNode m c) <-> Forall (fun kv => good_seg (Value kv.1) /\ good_keys kv.2) c.
Proof.
  simpl. induction c as [|kv c IH]; simpl; [by split; [constructor|]|]. by rewrite Forall_cons, IH.
Qed.

Lemma good_keys_value m key v : good_keys m -> mappingValue m key = Some v -> good_keys v.
Proof.
  destruct m as [| | |mt c]; try done. rewrite good_keys_mapping. intros Hc E. cbn in E.
  induction Hc as [|[k x] c [_ Hx] _ IH]; simpl in E; [done|]. destruct (String.eqb _ _); [by simplify_eq|by apply IH].
Qed.

Lemma path_of_snoc prefix segs k : path_of prefix (segs ++ [k]) = path_join (path_of prefix segs) k.
Proof. unfold path_of. by rewrite foldl_app. Qed.

Lemma Join_snoc l k : l <> [] -> Join (l ++ [k]) "." = Join l "." +:+ "." +:+ k.
Proof.
  induction l as [|x l IH]; intros Hne; [done|]. destruct l as [|y l]; [done|].
  change ((x :: y :: l) ++ [k]) with (x :: y :: (l ++ [k])). rewrite !Join_cons.
  change (y :: l ++ [k]) with ((y :: l) ++ [k]). rewrite IH by done. by rewrite !append_assoc.
Qed.

Lemma Join_nonempty l : l <> [] -> Forall good_seg l -> Join l "." <> "".
Proof.
  destruct l as [|x l]; [done|]. intros _ [[Hx _] _]%Forall_cons. destruct l as [|y l]; [done|].
  rewrite Join_cons. by destruct x.
Qed.

Lemma path_of_Join segs : Forall good_seg segs -> path_of "" segs = Join segs ".".
Proof.
  induction segs as [|k segs IH] using rev_ind; [done|]. intros [Hs Hk]%Forall_app. rewrite path_of_snoc, IH by done.
  destruct (decide (segs = [])) as [->|Hne]; [done|]. unfold path_join.
  destruct (String.eqb_spec (Join segs ".") "") as [E|_]; [by apply Join_nonempty in E|]. by rewrite Join_snoc.
Qed.

Lemma path_of_inj l l' : Forall good_seg l -> Forall good_seg l' -> path_of "" l = path_of "" l' -> l = l'.
Proof.
  intros Hl Hl'. rewrite !path_of_Join by done. intros E.
  destruct (decide (l = [])) as [->|Hn]; [destruct (decide (l' = [])) as [->|Hn']; [done|by apply eq_sym, Join_nonempty in E]|].
  destruct (decide (l' = [])) as [->|Hn']; [by apply Join_nonempty in E|].
  apply (Join_inj "."); try done; (eapply Forall_impl; [done|by intros x []]).
Qed.

Lemma merge_step_prov i prefix dst p k s :
  (merge_step i prefix (dst, p) (k, s)).2 =
  <[path_join prefix (Value k) := i]>
    (match mappingValue dst (Value k) with
     | Some d => if isMapping s && negb (opaqueReplace (path_join prefix (Value k))) && isMapping d
                 then (mergeNodes i s (path_join prefix (Value k)) d p).2 else p
     | None => p
     end).
Proof.
  unfold merge_step, YamlMerge.mergeEntry, mergeMappingEntry. destruct s as [| | |m c]; simpl isMapping; cbn [andb].
  1-3: repeat case_match; simplify_eq/=; done.
  destruct (mappingValue dst (Value k)) as [d|]; [|done]. destruct (negb _ && isMapping d); [|done].
  by destruct (mergeNodes _ _ _ d p).
Qed.

(** A layer only records paths below the one it is merged at. *)
Lemma mergeNodes_prov_frame i src pre dst p q :
  good_keys src -> Forall good_seg pre -> Forall good_seg q -> (forall segs, segs <> [] -> q <> pre ++ segs) ->
  (mergeNodes i src (path_of "" pre) dst p).2 !! path_of "" q = p !! path_of "" q.
Proof.
  intros Hg. revert pre dst p. induction src as [| | |m c IH] using Node_nested_ind; intros pre dst p Hpre Hq Hn; [done..|].
  apply good_keys_mapping in Hg. rewrite mergeNodes_fold. revert dst p.
  induction c as [|[k s] c IHc]; intros dst p; [done|]. apply Forall_cons in Hg as [[Hk Hgs] Hg], IH as [[_ IHs] IH].
  cbn [foldl]. destruct (merge_step _ _ _ _) as [d1 p1] eqn:E. rewrite IHc by done. clear IHc.
  pose proof (merge_step_prov i (path_of "" pre) dst p k s) as Ep. rewrite E in Ep. cbn [snd] in Ep. clear E. subst p1.
  rewrite <- path_of_snoc. cbn [fst snd] in *. assert (Forall good_seg (pre ++ [Value k])) by (by apply Forall_app; split; [|repeat constructor; apply Hk]).
    rewrite lookup_insert_ne; [|intros Ei; apply path_of_inj in Ei; [|done..]; by apply (Hn [Value k])].
  destruct (mappingValue dst (Value k)) as [d|]; [|done]. case_match; [|done].
  apply IHs; [done..|]. intros segs Hs ->. apply (Hn (Value k :: segs)); [done|]. by rewrite <- app_assoc.
Qed.

(** Whether merging [src] over [dst] records the path. *)
Fixpoint recorded (prefix : string) (src dst : Node) (segs : list string) : bool :=
  match segs with
  | [] => false
  | [seg] => bool_decide (is_Some (mappingValue src seg))
  | seg :: rest =>
      match mappingValue src seg, mappingValue dst seg with
      | Some s, Some d =>
          isMapping s && negb (opaqueReplace (path_join prefix seg)) && isMapping d &&
          recorded (path_join prefix seg) s d rest
      | _, _ => false
      end
  end.

Lemma fold_prov_other i pre st c seg rest :
  Forall (fun kv => good_seg (Value kv.1) /\ good_keys kv.2) c -> Forall good_seg pre -> Forall good_seg (seg :: rest) ->
  seg ∉ keys c ->
  (foldl (merge_step i (path_of "" pre)) st c).2 !! path_of "" (pre ++ seg :: rest) = st.2 !! path_of "" (pre ++ seg :: rest).
Proof.
  intros Hg Hpre Hq. revert st. induction Hg as [|[k s] c [Hk Hgs] _ IHc]; intros [dst p] Hn; [done|].
  rewrite keys_cons, not_elem_of_cons in Hn. destruct Hn as [Hk' Hn]. cbn [foldl]. rewrite IHc by done.
  cbn [fst] in *. rewrite merge_step_prov, <- path_of_snoc.
  assert (Forall good_seg (pre ++ [Value k])) by (by apply Forall_app; split; [|repeat constructor; apply Hk]).
  assert (Forall good_seg (pre ++ seg :: rest)) by (by apply Forall_app).
  rewrite lookup_insert_ne; [|intros Ei; apply path_of_inj in Ei; [|done..]; apply app_inv_head in Ei; congruence].
  destruct (mappingValue dst (Value k)) as [d|]; [|done]. case_match; [|done].
  apply mergeNodes_prov_frame; [done..|]. intros segs _ E. rewrite <- app_assoc in E. apply app_inv_head in E. by simplify_eq/=.
Qed.


Lemma recorded_cons prefix src dst seg rest :
  recorded prefix src dst (seg :: rest) =
  match mappingValue src seg with
  | None => false
  | Some s =>
      match rest with
      | [] => true
      | _ =>
          match mappingValue dst seg with
          | Some d => isMapping s && negb (opaqueReplace (path_join prefix seg)) && isMapping d &&
                      recorded (path_join prefix seg) s d rest
          | None => false
          end
      end
  end.
Proof. cbn [recorded]. destruct rest; [|done]. by destruct (mappingValue src seg). Qed.

Lemma mergeNodes_prov_lookup i src pre dst p segs :
  unique_keys src -> good_keys src -> Forall good_seg pre -> Forall good_seg segs -> segs <> [] ->
  (mergeNodes i src (path_of "" pre) dst p).2 !! path_of "" (pre ++ segs) =
  if recorded (path_of "" pre) src dst segs then Some i else p !! path_of "" (pre ++ segs).
Proof.
  revert pre src dst p. induction segs as [|seg rest IH]; intros pre src dst p Hu Hg Hpre Hs Hne; [done|].
  destruct src as [| | |m c]; [by destruct rest..|].
  rewrite mergeNodes_fold, recorded_cons. cbn [mappingValue].
  apply unique_keys_mapping in Hu as [Hn Hu]. apply good_keys_mapping in Hg.
  revert dst p. induction c as [|[k s] c IHc]; intros dst p; [done|].
  rewrite keys_cons in Hn. apply NoDup_cons in Hn as [Hk Hn]. apply Forall_cons in Hu as [Hus Hu].
  apply Forall_cons in Hg as [[Hgk Hgs] Hg]. cbn [fst snd] in *. cbn [foldl entry_value].
  destruct (String.eqb_spec (Value k) seg) as [E|E].
  - subst seg. rewrite fold_prov_other by done. rewrite merge_step_prov. rewrite <- !path_of_snoc.
    destruct rest as [|seg' rest]; [by rewrite lookup_insert_eq|].
    assert (Forall good_seg (pre ++ [Value k])) by (by apply Forall_app; split; [|repeat constructor; apply Hgk]).
    assert (Forall good_seg (pre ++ Value k :: seg' :: rest)) by (by apply Forall_app).
    rewrite lookup_insert_ne; [|intros Ei; apply path_of_inj in Ei; [|done..]; apply app_inv_head in Ei; congruence].
    destruct (mappingValue dst (Value k)) as [d|]; [|done].
    destruct (isMapping s && _ && isMapping d); [|done]. cbn [andb].
    change (pre ++ Value k :: seg' :: rest) with (pre ++ [Value k] ++ seg' :: rest). rewrite (app_assoc pre). apply IH; [done..| |done]. by apply Forall_cons in Hs as [_ ?].
  - destruct (merge_step i (path_of "" pre) (dst, p) (k, s)) as [d1 p1] eqn:Es. rewrite IHc by done.
    pose proof (merge_step_ne i (path_of "" pre) dst p k s seg ltac:(done)) as Ev. rewrite Es in Ev. cbn [fst] in Ev. rewrite Ev.
    pose proof (fold_prov_other i pre (dst, p) [(k, s)] seg rest) as Ep. cbn [foldl] in Ep. rewrite Es in Ep. cbn [snd] in Ep.
    rewrite Ep; [done|by apply Forall_singleton|done|done|]. rewrite keys_cons. set_solver.
Qed.

Lemma removelast_cons (x y : string) l : removelast (x :: y :: l) = x :: removelast (y :: l).
Proof. done. Qed.

Lemma recorded_open prefix src dst segs :
  segs <> [] -> open_path prefix segs src -> open_path prefix segs dst ->
  (recorded prefix src dst segs = true <->
   is_Some (nodeValueAt src segs) /\ (removelast segs = [] \/ is_Some (nodeValueAt dst (removelast segs)))).
Proof.
  revert prefix src dst. induction segs as [|seg rest IH]; intros prefix src dst Hne Ho Ho'; [done|].
  rewrite recorded_cons. destruct rest as [|seg' rest].
  - rewrite valueAt_single. destruct (mappingValue src seg); cbn [removelast]; split; [eauto|done..|by intros [[] _]].
  - rewrite open_path_cons in Ho, Ho'. destruct Ho as [Hop Ho], Ho' as [_ Ho'].
    rewrite removelast_cons, valueAt_cons. destruct (mappingValue src seg) as [s|]; [|split; [done|by intros [[] _]]].
    destruct (Ho s eq_refl) as [Hs Hos]. rewrite Hs, Hop. cbn [negb andb mbind option_bind].
    destruct (mappingValue dst seg) as [d|] eqn:Ed.
    + destruct (Ho' d eq_refl) as [Hm Hod]. rewrite Hm. cbn [andb]. rewrite IH by done.
      apply and_iff_compat_l. destruct rest as [|seg'' rest].
      * cbn [removelast]. rewrite valueAt_single, Ed. split; [by right; eexists|by left].
      * rewrite !removelast_cons, valueAt_cons, Ed. cbn [mbind option_bind]. naive_solver.
    + split; [done|]. intros [_ [?|Hd]]; [done|]. destruct (removelast (seg' :: rest)) as [|y l].
      * rewrite valueAt_single, Ed in Hd. by destruct Hd.
      * rewrite valueAt_cons, Ed in Hd. by destruct Hd.
Qed.

Lemma open_path_removelast prefix segs n : open_path prefix segs n -> open_path prefix (removelast segs) n.
Proof.
  revert prefix n. induction segs as [|seg rest IH]; intros prefix n; [done|]. destruct rest as [|seg' rest]; [done|].
  rewrite removelast_cons, open_path_cons. destruct (removelast (seg' :: rest)) as [|y l] eqn:E; [done|].
  rewrite open_path_cons. intros [Hop Ho]. split; [done|]. intros v Hv. destruct (Ho v Hv) as [? Ho'].
  split; [done|]. by apply IH.
Qed.

Lemma layers_open_removelast segs layers : layers_open segs layers -> layers_open (removelast segs) layers.
Proof.
  intros [H0 Hl]. split; [by apply open_path_removelast|]. eapply Forall_impl; [done|]. intros n [? ?].
  split; [done|by apply open_path_removelast].
Qed.

(** A field is below its parent. *)
Lemma valueAt_removelast n segs : removelast segs <> [] -> is_Some (nodeValueAt n segs) -> is_Some (nodeValueAt n (removelast segs)).
Proof.
  revert n. induction segs as [|seg rest IH]; intros n Hne Hs; [done|]. destruct rest as [|seg' rest]; [done|].
  rewrite removelast_cons in *. rewrite valueAt_cons in Hs. destruct (mappingValue n seg) as [v|] eqn:E; [|by destruct Hs].
  cbn [mbind option_bind] in Hs. destruct (removelast (seg' :: rest)) as [|y l] eqn:Er; [by rewrite valueAt_single, E|].
  rewrite valueAt_cons, E. cbn [mbind option_bind]. by apply IH.
Qed.

(** The layer is the first with the field, and a layer below it has the
    field's parent. *)
Definition owned_by (layers : list Node) (segs : list string) (i : nat) : Prop :=
  (exists n, layers !! i = Some n /\ is_Some (nodeValueAt n segs)) /\
  (forall j n, (j < i)%nat -> layers !! j = Some n -> nodeValueAt n segs = None) /\
  (removelast segs = [] \/ exists j n, (i < j)%nat /\ layers !! j = Some n /\ is_Some (nodeValueAt n (removelast segs))).

Lemma owned_by_shift n layers segs i :
  nodeValueAt n segs = None -> owned_by (n :: layers) segs i <-> exists j, i = S j /\ owned_by layers segs j.
Proof.
  intros Hn. split.
  - intros (Hex & Hlt & Hp). destruct i as [|j]; [destruct Hex as (? & [= <-] & Hs); rewrite Hn in Hs; by destruct Hs|].
    exists j. split; [done|]. split; [done|]. split; [intros j' m Hj; apply (Hlt (S j')); lia|].
    destruct Hp as [|(j' & m & Hj & Hm & Hs)]; [by left|right]. destruct j' as [|j']; [lia|]. exists j', m. split; [lia|done].
  - intros (j & -> & Hex & Hlt & Hp). split; [done|]. split.
    + intros [|j'] m Hj Hm; [by injection Hm as <-|]. by apply (Hlt j' m); [lia|].
    + destruct Hp as [|(j' & m & Hj & Hm & Hs)]; [by left|right]. exists (S j'), m. split; [lia|done].
Qed.

Lemma owned_by_here n layers segs i :
  is_Some (nodeValueAt n segs) ->
  owned_by (n :: layers) segs i <->
  i = 0%nat /\ (removelast segs = [] \/ Exists (fun n => is_Some (nodeValueAt n (removelast segs))) layers).
Proof.
  intros Hs. split.
  - intros (Hex & Hlt & Hp). destruct i as [|j]; [|exfalso; destruct Hs as [v Hv]; rewrite (Hlt 0%nat n) in Hv; [done|lia|done]].
    split; [done|]. destruct Hp as [|(j & m & Hj & Hm & Hp)]; [by left|right]. destruct j as [|j]; [lia|].
    apply Exists_exists. exists m. split; [by eapply list_elem_of_lookup_2|done].
  - intros [-> Hp]. split; [by exists n|]. split; [intros; lia|]. destruct Hp as [|Hp]; [by left|right].
    apply Exists_exists in Hp as (m & Hm & Hp). apply list_elem_of_lookup in Hm as [j Hj]. exists (S j), m. split; [lia|done].
Qed.

Lemma merge_from_prov k segs layers i :
  segs <> [] -> layers_open segs layers -> Forall good_keys layers -> Forall good_seg segs ->
  (merge_from k layers).2 !! path_of "" segs = Some i <-> exists j, i = (k + j)%nat /\ owned_by layers segs j.
Proof.
  intros Hne. revert k i. induction layers as [|n layers IH]; intros k i Hl Hg Hs.
  - cbn. rewrite lookup_empty. split; [done|]. intros (j & _ & (n & Hn & _) & _). done.
  - apply Forall_cons in Hg as [Hgn Hg]. pose proof (layers_open_tail _ _ _ Hl) as Hl'.
    pose proof (merge_from_open (S k) _ _ Hl') as Hot. pose proof Hl as [_ [[Hu Ho] _]%Forall_cons].
    pose proof (merge_from_defined (S k) (removelast segs) layers) as Hd.
    cbn [merge_from]. destruct (merge_from (S k) layers) as [tree prov] eqn:E. cbn [fst] in *.
    pose proof (mergeNodes_prov_lookup k n [] tree prov segs Hu Hgn ltac:(constructor) Hs Hne) as Hp.
    cbn [app] in Hp. change (path_of "" []) with "" in Hp. rewrite Hp. clear Hp.
    pose proof (recorded_open "" n tree segs Hne Ho Hot) as Hr.
    assert (Hrest : forall i, prov !! path_of "" segs = Some i <-> exists j, i = (S k + j)%nat /\ owned_by layers segs j).
    { intros i'. rewrite <- IH by done. by rewrite E. }
    destruct (nodeValueAt n segs) as [v|] eqn:Ev.
    + assert (Hev : is_Some (nodeValueAt n segs)) by (rewrite Ev; by eexists).
      setoid_rewrite (fun i => owned_by_here n layers segs i Hev).
      assert (Hpar : recorded "" n tree segs = true <->
                     removelast segs = [] \/ Exists (fun n => is_Some (nodeValueAt n (removelast segs))) layers).
      { rewrite Hr. destruct (decide (removelast segs = [])) as [->|Hn]; [split; [by left|split; [by eexists|by left]]|].
        rewrite Hd by (done || by apply layers_open_removelast). naive_solver. }
      destruct (recorded "" n tree segs).
      * split; [intros [= <-]; exists 0%nat; split; [lia|naive_solver]|]. intros (j & -> & -> & _). f_equal. lia.
      * split; [|naive_solver]. intros (j & _ & (m & Hm & Hv) & _)%Hrest. exfalso.
        assert (false = true); [|done]. apply Hpar. destruct (decide (removelast segs = [])) as [|Hn]; [by left|right].
        apply Exists_exists. exists m. split; [by eapply list_elem_of_lookup_2|]. by apply valueAt_removelast.
    + destruct (recorded "" n tree segs); [destruct Hr as [Hr _]; by destruct (Hr eq_refl) as [[? ?] _]|].
      cbv iota. rewrite Hrest. setoid_rewrite (fun i => owned_by_shift n layers segs i Ev). split.
      * intros (j & -> & Ho'). exists (S j). split; [lia|eauto].
      * intros (j & -> & j' & -> & Ho'). exists j'. split; [lia|done].
Qed.

(** ** Unions *)

(** No earlier item equals a later one. *)
Definition distinct_items (l : list Node) : Prop :=
  forall i j y x, (i < j)%nat -> l !! i = Some y -> l !! j = Some x -> decodedEqual decode_any DeepEqual y x = false.

Lemma appendUnique_fold seen acc items :
  acc `sublist_of` seen -> distinct_items acc ->
  (forall x, x ∈ seen -> x ∈ acc \/ exists y, y ∈ acc /\ decodedEqual decode_any DeepEqual y x = true) ->
  let out := foldl (appendUnique decode_any DeepEqual) acc items in
  out `sublist_of` seen ++ items /\ distinct_items out /\
  (forall x, x ∈ seen ++ items -> x ∈ out \/ exists y, y ∈ out /\ decodedEqual decode_any DeepEqual y x = true).
Proof.
  revert seen acc. induction items as [|x items IH]; intros seen acc Hsub Hd Hc; cbn [foldl].
  { by rewrite app_nil_r. }
  rewrite cons_middle, app_assoc. apply IH; unfold appendUnique; destruct (existsb _ acc) eqn:E.
  - by apply sublist_inserts_r.
  - by apply sublist_app.
  - done.
  - intros i j y z Hij Hy Hz. apply lookup_app_Some in Hz as [Hz|[Hj Hz]].
    + apply (Hd i j); [done| |done]. rewrite lookup_app_l in Hy; [done|]. apply lookup_lt_Some in Hz. lia.
    + assert (i < length acc)%nat as Hi.
      { apply list_lookup_singleton_Some in Hz as [Hz _]. lia. }
      rewrite lookup_app_l in Hy by done. apply list_lookup_singleton_Some in Hz as [_ <-].
      apply not_true_iff_false. intros Ht. enough (existsb (fun e => decodedEqual decode_any DeepEqual e x) acc = true) by congruence.
      apply existsb_elem. exists y. split; [by eapply list_elem_of_lookup_2|done].
  - apply existsb_elem in E as (y & Hy & Ey). intros z [Hz|Hz]%elem_of_app; [by apply Hc|].
    apply list_elem_of_singleton in Hz as ->. right. eauto.
  - intros z [Hz|Hz]%elem_of_app; [|left; set_solver]. destruct (Hc z Hz) as [|(y & Hy & Ey)]; [left; set_solver|].
    right. exists y. set_solver.
Qed.

(** The union of two sequences keeps their items in order, lower layer first,
    loses no value, and holds no value twice. *)
Theorem unionSeqNodes_spec dst src m :
  exists mt items, unionSeqNodes decode_any DeepEqual dst src m = SequenceNode mt items /\
    items `sublist_of` dst ++ src /\ distinct_items items /\
    (forall x, x ∈ dst ++ src -> x ∈ items \/ exists y, y ∈ items /\ decodedEqual decode_any DeepEqual y x = true).
Proof.
  unfold unionSeqNodes. eexists _, _. split; [done|].
  destruct (appendUnique_fold [] [] dst) as (H1 & H2 & H3); [done|by intros ? ? ? ? ? ?|set_solver|].
  apply appendUnique_fold; done.
Qed.

End Facts.

(** ** Theorems *)

(** C22: The highest layer wins.  When the layers agree on the shape of the tree
    along a path, and the highest layer that has the field does not unite it
    with lower ones, the merged tree has exactly that layer's value there (up
    to comments); a field no layer has is absent. *)
Theorem merge_highest_wins {Any} (decode_any : Node -> option Any) DeepEqual tags segs layers :
  segs <> [] -> layers_open tags segs layers ->
  (forall v, head (omap (fun n => nodeValueAt n segs) layers) = Some v -> replaces tags (path_of "" segs) v = true) ->
  nodeValueAt (merge decode_any DeepEqual tags layers).1 segs ≡ head (omap (fun n => nodeValueAt n segs) layers).
Proof. rewrite merge_rec. apply merge_from_first. Qed.

(** Provenance, exactly.  For layers that agree on the shape of the tree
    along a path, the merge records layer [i] for the path when [i] is the
    highest layer with the field and the field is at the top level or a layer
    below [i] also has its parent; otherwise nothing is recorded.  So a
    recorded layer is the one whose value wins, but a nested field that a single
    layer brings together with its section has no provenance. *)
Theorem merge_provenance {Any} (decode_any : Node -> option Any) DeepEqual tags segs layers i :
  segs <> [] -> layers_open tags segs layers -> Forall good_keys layers -> Forall good_seg segs ->
  (merge decode_any DeepEqual tags layers).2 !! Join segs "." = Some i <-> owned_by layers segs i.
Proof.
  intros Hne Hl Hg Hs. rewrite merge_rec, <- path_of_Join, merge_from_prov by done. split; [by intros (j & -> & ?)|by exists i].
Qed.

(** Two files: a local override and a project file with a section of its own. *)
Definition scalar (s : string) : Node := ScalarNode (plain_meta "!!str") s.
Definition obj (l : list (string * Node)) : Node := MappingNode (plain_meta "!!map") ((fun '(k, v) => (key_node k, v)) <$> l).
Definition local_file : Node := obj [("name", scalar "local"); ("build", obj [("image", scalar "alpine")])].
Definition project_file : Node :=
  obj [("name", scalar "project"); ("build", obj [("image", scalar "ubuntu"); ("target", scalar "dev")]);
       ("agent", obj [("editor", scalar "vim")])].
Definition demo_decode (n : Node) : option string := Some (Value n).

Lemma demo_open segs : segs = ["build"; "image"] \/ segs = ["agent"; "editor"] -> layers_open ∅ segs [local_file; project_file].
Proof. intros [-> | ->]; split; [done| |done|]; repeat constructor; by vm_compute; repeat (constructor || set_solver). Qed.

Lemma merge_highest_wins_witness :
  nodeValueAt (merge demo_decode String.eqb ∅ [local_file; project_file]).1 ["build"; "image"] ≡ Some (scalar "alpine").
Proof.
  apply (merge_highest_wins demo_decode String.eqb ∅ ["build"; "image"] [local_file; project_file]);
    [done|apply demo_open; by left|]. intros v E. vm_compute in E. by injection E as <-.
Defined.

Lemma demo_good : Forall good_keys [local_file; project_file].
Proof. repeat constructor; done. Qed.

(** The image is the local file's; the editor, which only the project file
    has, with its section, has no owner. *)
Lemma merge_provenance_witness :
  (merge demo_decode String.eqb ∅ [local_file; project_file]).2 !! "build.image" = Some 0%nat /\
  owned_by [local_file; project_file] ["build"; "image"] 0 /\ ~ owned_by [local_file; project_file] ["agent"; "editor"] 1.
Proof.
  assert (Hg : forall segs, segs = ["build"; "image"] \/ segs = ["agent"; "editor"] -> Forall good_seg segs).
  { intros segs [-> | ->]; by repeat constructor. }
  split; [by vm_compute|]. split.
  - apply (merge_provenance demo_decode String.eqb ∅ ["build"; "image"]); [done|apply demo_open; by left|apply demo_good|apply Hg; by left|by vm_compute].
  - rewrite <- (merge_provenance demo_decode String.eqb ∅ ["agent"; "editor"]); [by vm_compute|done|apply demo_open; by right|apply demo_good|apply Hg; by right].
Defined.

End YamlMerge.
