(* ===== verification/Discover.v ===== *)
(** * Discovery of configuration files

    internal/storage/discover.go and targets.go: which files a store reads,
    and which locations it offers to write to.  The file system is the state
    of [world]: the files with their contents and the directories. *)

From S2P Require Import Prelude GoStrings GoPath.
Import Go GoPath.

Module Discover.

(** [cwd] is [None] when the working directory cannot be determined. *)
Record world (Bytes : Type) := mkWorld { files : gmap string Bytes; dirs : gset string; cwd : option string }.
Arguments mkWorld {Bytes} files dirs cwd.
Arguments files {Bytes} w : rename.
Arguments dirs {Bytes} w : rename.
Arguments cwd {Bytes} w : rename.

Record Options := mkOptions {
  Filenames : list string; Defaults : string; WalkUpAnchor : string; Dirs : list string; Paths : list string;
  Lock : bool; DotDefault : bool; DefaultFilename : string; Header : string;
}.

Definition writeFilename (o : Options) : string :=
  if negb (String.eqb (DefaultFilename o) "") then DefaultFilename o else default "" (head (Filenames o)).

Record discoveredFile := mkDiscovered { df_path : string; df_filename : string; df_walkUp : bool }.

Inductive discover_error := GetwdFailed | ErrAnchorNotAncestor.

Definition DotClawkerDir : string := ".clawker".

Definition yamlExtensions (name : string) : list string :=
  match strip_suffix ".yaml" name with
  | Some base => [name; base +:+ ".yml"]
  | None =>
      match strip_suffix ".yml" name with
      | Some base => [name; base +:+ ".yaml"]
      | None => [name +:+ ".yaml"; name +:+ ".yml"]
      end
  end.

Section World.
Context {Bytes : Type}.
Implicit Types w : world Bytes.

Definition isDir w (path : string) : bool := bool_decide (path ∈ dirs w).
Definition isFile w (path : string) : bool := bool_decide (is_Some (files w !! path)).

(** The candidates for one filename in a directory, best first. *)
Definition candidates w (dir fname : string) : list string :=
  let clawkerDir := FileJoin [dir; DotClawkerDir] in
  (if isDir w clawkerDir
   then ((fun ext => FileJoin [clawkerDir; ext]) <$> yamlExtensions fname) ++
        ((fun ext => FileJoin [clawkerDir; ext]) <$> yamlExtensions ("." +:+ fname))
   else []) ++
  ((fun ext => FileJoin [dir; ext]) <$> yamlExtensions ("." +:+ fname)).

Definition first_file w (paths : list string) (fname : string) : list discoveredFile :=
  match find (isFile w) paths with Some path => [mkDiscovered path fname false] | None => [] end.

Definition probeDir w (dir : string) (filenames : list string) : list discoveredFile :=
  filenames ≫= fun fname => first_file w (candidates w dir fname) fname.

Definition probeExplicitDirs w (dirs filenames : list string) : list discoveredFile :=
  dirs ≫= fun dir => filenames ≫= fun fname =>
    first_file w ((fun ext => FileJoin [dir; ext]) <$> yamlExtensions fname) fname.

(** The loop of [walkUp]: the directories it probes.  [fuel] bounds the number
    of levels. *)
Fixpoint walk_dirs (fuel : nat) (dir anchor : string) : list string :=
  match fuel with
  | O => []
  | S fuel =>
      dir ::
      (if String.eqb dir anchor then []
       else
         let parent := Dir dir in
         if String.eqb parent dir then [] else walk_dirs fuel parent anchor)
  end.

Definition walk_fuel (dir : string) : nat := length (Split "/" dir).

Definition walkUp w (filenames : list string) (anchor : string) : result discover_error (list discoveredFile) :=
  match cwd w with
  | None => Err GetwdFailed
  | Some cwd =>
      let cwd := Clean cwd in
      let anchor := Clean anchor in
      match Rel anchor cwd with
      | None => Err ErrAnchorNotAncestor
      | Some rel =>
          if String.eqb rel ".." || HasPrefix rel "../" then Err ErrAnchorNotAncestor
          else Ok (walk_dirs (walk_fuel cwd) cwd anchor ≫= fun dir => probeDir w dir filenames)
      end
  end.

Definition dedup_step (st : gset string * list discoveredFile) (f : discoveredFile) : gset string * list discoveredFile :=
  let '(seen, out) := st in
  if bool_decide (df_path f ∈ seen) then st else ({[df_path f]} ∪ seen, out ++ [f]).
Definition dedup (fs : list discoveredFile) : list discoveredFile := (foldl dedup_step (∅, []) fs).2.

Definition mark_walkUp (f : discoveredFile) : discoveredFile := mkDiscovered (df_path f) (df_filename f) true.

Definition discover w (opts : Options) : result discover_error (list discoveredFile) :=
  let? walked :=
    (if negb (String.eqb (WalkUpAnchor opts) "")
     then let? fs := walkUp w (Filenames opts) (WalkUpAnchor opts) in Ok (mark_walkUp <$> fs)
     else Ok []) in
  Ok (dedup (walked ++ (Dirs opts ≫= fun dir => probeDir w dir (Filenames opts)) ++
             probeExplicitDirs w (Paths opts) (Filenames opts))).

(** ** Write targets *)

Definition dualPlacementPath w (dir filename : string) : string :=
  let clawkerDir := FileJoin [dir; DotClawkerDir] in
  if isDir w clawkerDir then FileJoin [clawkerDir; filename] else FileJoin [dir; "." +:+ filename].

Definition SiblingTarget (existingPath filename : string) : string :=
  let dir := Dir existingPath in
  if HasPrefix (Base existingPath) "." then FileJoin [dir; "." +:+ filename] else FileJoin [dir; filename].

Inductive TargetSource := TargetWalkUp | TargetDir | TargetPath | TargetLayer.
Record WriteTarget := mkTarget { t_source : TargetSource; t_path : string; t_filename : string }.

(** The layers of a store, as far as discovery is concerned; the path of the
    virtual layer is empty. *)
Definition walkUpTargetPath w (layers : list discoveredFile) (fname : string) : option string :=
  match find (fun l => df_walkUp l && String.eqb (df_filename l) fname) layers with
  | Some l => Some (df_path l)
  | None => cwd ← cwd w; Some (dualPlacementPath w cwd fname)
  end.

(** [None]: the working directory cannot be determined. *)
Definition locationCandidates w (opts : Options) (layers : list discoveredFile) : option (list WriteTarget) :=
  let fname := writeFilename opts in
  if String.eqb fname "" then Some []
  else
    walked ← (if negb (String.eqb (WalkUpAnchor opts) "")
              then path ← walkUpTargetPath w layers fname; Some [mkTarget TargetWalkUp path fname]
              else Some []);
    Some (walked ++
          ((fun dir => mkTarget TargetDir (dualPlacementPath w dir fname) fname) <$> Dirs opts) ++
          ((fun dir => mkTarget TargetPath (FileJoin [dir; fname]) fname) <$> Paths opts)).

Definition dedup_target (st : gset string * list WriteTarget) (t : WriteTarget) : gset string * list WriteTarget :=
  let '(seen, out) := st in
  if String.eqb (t_path t) "" || bool_decide (t_path t ∈ seen) then st else ({[t_path t]} ∪ seen, out ++ [t]).
Definition dedupTargets (ts : list WriteTarget) : list WriteTarget := (foldl dedup_target (∅, []) ts).2.

Definition WriteTargets w (opts : Options) (layers : list discoveredFile) : option (list WriteTarget) :=
  targets ← locationCandidates w opts layers;
  Some (dedupTargets (targets ++
    ((fun l => mkTarget TargetLayer (df_path l) (df_filename l)) <$> filter (fun l => df_path l <> "") layers))).

(** ** The walk *)

Lemma walk_dirs_abs segs more fuel :
  Forall seg_ok (segs ++ more) -> (length more < fuel)%nat ->
  walk_dirs fuel (abs (segs ++ more)) (abs segs) =
  (fun k => abs (segs ++ take (length more - k) more)) <$> seq 0 (S (length more)).
Proof.
  revert fuel. induction more as [|x more IH] using rev_ind; intros fuel Hs Hf; (destruct fuel as [|fuel]; [lia|]).
  - cbn. rewrite app_nil_r. by rewrite String.eqb_refl.
  - rewrite app_assoc in Hs. pose proof Hs as [Hsm [Hx _]%Forall_cons]%Forall_app. pose proof Hsm as [Hs' _]%Forall_app.
    rewrite length_app in Hf |- *. cbn [length] in *. rewrite Nat.add_1_r in *.
    cbn [walk_dirs]. rewrite app_assoc.
    destruct (String.eqb_spec (abs ((segs ++ more) ++ [x])) (abs segs)) as [E|_].
    { apply abs_inj in E; [|done..]. apply (f_equal length) in E. rewrite !length_app in E. simpl in E. lia. }
    rewrite (Dir_abs (segs ++ more) x Hsm Hx).
    destruct (String.eqb_spec (abs (segs ++ more)) (abs ((segs ++ more) ++ [x]))) as [E|_].
    { apply abs_inj in E; [|done..]. apply (f_equal length) in E. rewrite !length_app in E. simpl in E. lia. }
    rewrite IH by (done || lia). change (seq 0 (S (S (length more)))) with (0%nat :: seq 1 (S (length more))).
    rewrite fmap_cons, Nat.sub_0_r, take_ge by (rewrite length_app; simpl; lia). rewrite app_assoc. f_equal.
    rewrite <- fmap_S_seq, <- list_fmap_compose. apply list_fmap_ext. intros _ k Hk%list_elem_of_lookup_2%elem_of_seq. simpl.
    rewrite take_app_le by lia. done.
Qed.

Lemma length_abs_split segs : Forall seg_ok segs -> (length segs < length (Split "/" (abs segs)))%nat.
Proof.
  intros Hs. destruct (decide (segs = [])) as [->|Hne]; [vm_compute; lia|]. rewrite Split_abs by done. cbn [length]. lia.
Qed.

Lemma Rel_ancestor base more :
  Forall seg_ok (base ++ more) ->
  Rel (abs base) (abs (base ++ more)) = Some (match more with [] => "." | _ => Join more "/" end).
Proof.
  intros Hs. pose proof Hs as [Hb _]%Forall_app. unfold Rel. rewrite !Clean_abs by done.
  destruct (String.eqb_spec (abs (base ++ more)) (abs base)) as [E|Hne].
  - apply abs_inj in E; [|done..]. rewrite <- (app_nil_r base) in E at 2. by apply app_inv_head in E as ->.
  - destruct (String.eqb_spec (abs base) ".") as [|_]; [done|]. rewrite !IsAbs_abs. cbn [Bool.eqb negb].
    rewrite !elements_abs, strip_common_prefix by done. destruct more; [by rewrite app_nil_r in Hne|done].
Qed.

Lemma Rel_other base targ :
  Forall seg_ok base -> Forall seg_ok targ -> (forall more, targ <> base ++ more) ->
  exists rel, Rel (abs base) (abs targ) = Some rel /\ (rel = ".." \/ exists r, rel = "../" +:+ r).
Proof.
  intros Hb Ht Hn. unfold Rel. rewrite !Clean_abs by done.
  destruct (String.eqb_spec (abs targ) (abs base)) as [E|Hne].
  { apply abs_inj in E; [|done..]. by destruct (Hn []); rewrite app_nil_r. }
  destruct (String.eqb_spec (abs base) ".") as [|_]; [done|]. rewrite !IsAbs_abs. cbn [Bool.eqb negb].
  rewrite !elements_abs by done. pose proof (strip_common_spec base targ) as Hc.
  destruct (strip_common base targ) as [bs ts]. destruct Hc as (c & -> & ->). destruct bs as [|b bs].
  { by destruct (Hn ts); rewrite app_nil_r. }
  apply Forall_app in Hb as [_ [(_ & _ & Hb & _) _]%Forall_cons].
  destruct (String.eqb_spec b "..") as [|_]; [done|]. eexists. split; [done|]. cbn [length replicate app].
  destruct (replicate (length bs) ".." ++ ts) as [|y l]; [by left|]. right. rewrite Join_cons. by eexists.
Qed.

Lemma Join_not_up more : more <> [] -> Forall seg_ok more -> String.eqb (Join more "/") ".." || HasPrefix (Join more "/") "../" = false.
Proof.
  intros Hne Hs. pose proof (Split_Join_slash more Hne Hs) as Hsp. destruct more as [|x more]; [done|].
  apply Forall_cons in Hs as [(_ & _ & Hx & _) _]. apply orb_false_iff. split.
  - apply String.eqb_neq. intros E. rewrite E in Hsp. vm_compute in Hsp. by injection Hsp as <-.
  - apply not_true_iff_false. intros [r E]%HasPrefix_spec. rewrite E in Hsp.
    change ("../" +:+ r) with (".." +:+ "/" +:+ r) in Hsp. rewrite Split_slash in Hsp. by injection Hsp as <-.
Qed.

(** The directories from the working directory up to the anchor, and no
    further. *)
Definition ancestry (base more : list string) : list string :=
  (fun k => abs (base ++ take (length more - k) more)) <$> seq 0 (S (length more)).

Lemma walkUp_dirs w filenames base more :
  cwd w = Some (abs (base ++ more)) -> Forall seg_ok (base ++ more) ->
  walkUp w filenames (abs base) = Ok (ancestry base more ≫= fun dir => probeDir w dir filenames).
Proof.
  intros Hc Hs. pose proof Hs as [Hb Hm]%Forall_app. unfold walkUp. rewrite Hc, !Clean_abs, Rel_ancestor by done.
  assert ((String.eqb (match more with [] => "." | _ => Join more "/" end) ".." ||
          HasPrefix (match more with [] => "." | _ => Join more "/" end) "../") = false) as ->.
  { destruct more as [|x more]; [done|]. by apply Join_not_up. }
  unfold walk_fuel. rewrite walk_dirs_abs; [done|done|]. pose proof (length_abs_split _ Hs) as Hl.
  rewrite length_app in Hl. lia.
Qed.

Lemma walkUp_refuses w filenames base segs :
  cwd w = Some (abs segs) -> Forall seg_ok base -> Forall seg_ok segs -> (forall more, segs <> base ++ more) ->
  walkUp w filenames (abs base) = Err ErrAnchorNotAncestor.
Proof.
  intros Hc Hb Hs Hn. unfold walkUp. rewrite Hc, !Clean_abs by done.
  destruct (Rel_other base segs Hb Hs Hn) as (rel & -> & [-> | [r ->]]); [done|].
  assert (HasPrefix ("../" +:+ r) "../" = true) as -> by (apply HasPrefix_spec; by eexists).
  by rewrite orb_true_r.
Qed.

(** ** Rediscovery *)

(** The world after a file was written in an existing directory. *)
Definition create w (path : string) (b : Bytes) : world Bytes := mkWorld (<[path := b]> (files w)) (dirs w) (cwd w).

Definition yaml_name (fname : string) : Prop := HasSuffix fname ".yaml" = true \/ HasSuffix fname ".yml" = true.

Lemma yamlExtensions_head fname : yaml_name fname -> exists rest, yamlExtensions fname = fname :: rest.
Proof.
  unfold yaml_name, yamlExtensions, HasSuffix. rewrite !bool_decide_eq_true.
  destruct (strip_suffix ".yaml" fname); [by eexists|]. destruct (strip_suffix ".yml" fname); [by eexists|].
  by intros [[? ?]|[? ?]].
Qed.

Lemma yaml_name_dot fname : yaml_name fname -> yaml_name ("." +:+ fname).
Proof.
  unfold yaml_name. rewrite !HasSuffix_spec. intros [[r ->]|[r ->]]; [left|right]; exists ("." +:+ r); by rewrite append_assoc.
Qed.

Lemma isFile_create w path b : isFile (create w path b) path = true.
Proof. unfold isFile, create. cbn [files]. apply bool_decide_eq_true. rewrite lookup_insert_eq. by eexists. Qed.

Lemma first_file_head w path paths fname : isFile w path = true -> path ∈ df_path <$> first_file w (path :: paths) fname.
Proof. intros H. unfold first_file. cbn [find]. rewrite H. left. Qed.

Lemma candidates_dual w dir fname b : yaml_name fname ->
  exists rest, candidates (create w (dualPlacementPath w dir fname) b) dir fname = dualPlacementPath w dir fname :: rest.
Proof.
  intros Hy. unfold candidates, dualPlacementPath. change (isDir (create _ _ _)) with (isDir w).
  destruct (isDir w _).
  - destruct (yamlExtensions_head fname Hy) as [rest ->]. cbn [fmap list_fmap app]. by eexists.
  - destruct (yamlExtensions_head ("." +:+ fname) (yaml_name_dot _ Hy)) as [rest ->]. cbn [fmap list_fmap app]. by eexists.
Qed.

Lemma probeDir_dual w dir fname b filenames :
  yaml_name fname -> fname ∈ filenames ->
  dualPlacementPath w dir fname ∈ df_path <$> probeDir (create w (dualPlacementPath w dir fname) b) dir filenames.
Proof.
  intros Hy Hin. unfold probeDir. rewrite list_bind_fmap_l. apply list_elem_of_bind. exists fname. split; [|done].
  destruct (candidates_dual w dir fname b Hy) as [rest ->]. apply first_file_head, isFile_create.
Qed.

Lemma probeExplicit_path w dir fname b dirs filenames :
  yaml_name fname -> fname ∈ filenames -> dir ∈ dirs ->
  FileJoin [dir; fname] ∈ df_path <$> probeExplicitDirs (create w (FileJoin [dir; fname]) b) dirs filenames.
Proof.
  intros Hy Hin Hd. unfold probeExplicitDirs. rewrite list_bind_fmap_l. apply list_elem_of_bind. exists dir. split; [|done].
  rewrite list_bind_fmap_l. apply list_elem_of_bind. exists fname. split; [|done].
  destruct (yamlExtensions_head fname Hy) as [rest ->]. cbn [fmap list_fmap]. apply first_file_head, isFile_create.
Qed.

Lemma dedup_fold fs seen out :
  (forall p, p ∈ seen <-> p ∈ df_path <$> out) ->
  let '(seen', out') := foldl dedup_step (seen, out) fs in
  (forall p, p ∈ seen' <-> p ∈ df_path <$> out') /\ (forall p, p ∈ df_path <$> out' <-> p ∈ df_path <$> out ++ fs) /\
  (NoDup (df_path <$> out) -> NoDup (df_path <$> out')).
Proof.
  revert seen out. induction fs as [|f fs IH]; intros seen out Hi; cbn [foldl]; [by rewrite app_nil_r|].
  unfold dedup_step at 2. case_bool_decide as Hin.
  - specialize (IH seen out Hi). destruct (foldl dedup_step (seen, out) fs) as [seen' out']. destruct IH as (H1 & H2 & H3).
    split; [done|]. split; [|done]. intros p. rewrite H2, !fmap_app, !elem_of_app, fmap_cons, elem_of_cons.
    apply Hi in Hin. naive_solver.
  - specialize (IH ({[df_path f]} ∪ seen) (out ++ [f])).
    destruct (foldl dedup_step _ fs) as [seen' out']. destruct IH as (H1 & H2 & H3).
    { intros p. rewrite elem_of_union, elem_of_singleton, Hi, fmap_app, elem_of_app. cbn [fmap list_fmap].
      rewrite list_elem_of_singleton. tauto. }
    split; [done|]. split; [|intros Hn; apply H3; rewrite fmap_app; apply NoDup_app; split; [done|]].
    + intros p. rewrite H2, <- app_assoc. done.
    + split; [|apply NoDup_singleton]. intros p Hp. cbn [fmap list_fmap]. rewrite list_elem_of_singleton. intros ->. by apply Hin, Hi.
Qed.

Lemma dedup_paths fs p : p ∈ df_path <$> dedup fs <-> p ∈ df_path <$> fs.
Proof.
  unfold dedup. pose proof (dedup_fold fs ∅ []) as H. destruct (foldl dedup_step (∅, []) fs) as [seen out].
  destruct H as (_ & H & _); [set_solver|]. apply H.
Qed.

Lemma discover_NoDup w opts fs : discover w opts = Ok fs -> NoDup (df_path <$> fs).
Proof.
  unfold discover. destruct (if negb _ then _ else _) as [walked|]; [|done]. cbn [result_bind]. intros [= <-]. unfold dedup.
  set (l := _ ++ _). pose proof (dedup_fold l ∅ []) as H. destruct (foldl dedup_step (∅, []) l) as [seen out].
  destruct H as (_ & _ & H); [set_solver|]. apply H. constructor.
Qed.

Lemma dedup_target_in ts t : t ∈ dedupTargets ts -> t ∈ ts.
Proof.
  unfold dedupTargets. enough (forall st, t ∈ (foldl dedup_target st ts).2 -> t ∈ st.2 \/ t ∈ ts) as H.
  { intros Hin. destruct (H (∅, []) Hin); [set_solver|done]. }
  induction ts as [|x ts IH]; intros [seen out]; cbn [foldl]; [by left|]. intros [H|H]%IH; [|right; by right].
  unfold dedup_target in H. destruct (_ || _); [by left|]. cbn [snd] in *. set_solver.
Qed.

Lemma discover_ok w opts fs : discover w opts = Ok fs ->
  exists walked, (forall p, p ∈ df_path <$> fs <->
    p ∈ df_path <$> walked \/ p ∈ df_path <$> (Dirs opts ≫= fun dir => probeDir w dir (Filenames opts)) \/
    p ∈ df_path <$> probeExplicitDirs w (Paths opts) (Filenames opts)) /\
    (if String.eqb (WalkUpAnchor opts) "" then walked = [] else walkUp w (Filenames opts) (WalkUpAnchor opts) = Ok walked).
Proof.
  unfold discover. destruct (String.eqb (WalkUpAnchor opts) ""); cbn [negb].
  - cbn [result_bind]. intros [= <-]. exists []. split; [|done]. intros p. rewrite dedup_paths. cbn [app].
    rewrite fmap_app, elem_of_app. cbn [fmap list_fmap]. set_solver.
  - destruct (walkUp w _ _) as [walked|]; [|done]. cbn [result_bind]. intros [= <-]. exists walked. split; [|done].
    intros p. rewrite dedup_paths, !fmap_app, !elem_of_app, <- list_fmap_compose. done.
Qed.

(** The error of discovery does not depend on the files. *)
Lemma walkUp_create w path b filenames anchor walked :
  walkUp w filenames anchor = Ok walked ->
  exists dirs, hd_error dirs = Clean <$> cwd w /\
    walkUp (create w path b) filenames anchor = Ok (dirs ≫= fun dir => probeDir (create w path b) dir filenames).
Proof.
  unfold walkUp. cbn [create cwd]. destruct (cwd w) as [c|]; [|done]. destruct (Rel _ _) as [rel|]; [|done].
  destruct (_ || _); [done|]. intros _. eexists. split; [|done]. unfold walk_fuel.
  by destruct (Split_cons "/" (Clean c)) as (l & ls & ->).
Qed.

Lemma first_file_ext w w' paths fname : (forall p, isFile w p = isFile w' p) -> first_file w paths fname = first_file w' paths fname.
Proof.
  intros H. unfold first_file. assert (find (isFile w) paths = find (isFile w') paths) as ->; [|done].
  induction paths as [|p paths IH]; [done|]. cbn [find]. by rewrite H, IH.
Qed.

(** Rewriting a file that exists changes no discovery. *)
Lemma discover_rewrite w path b opts : isFile w path = true -> discover (create w path b) opts = discover w opts.
Proof.
  intros Hp. assert (forall p, isFile (create w path b) p = isFile w p) as Hf.
  { intros p. unfold isFile, create in *. cbn [files]. destruct (decide (p = path)) as [->|Hne]; [by rewrite Hp, lookup_insert_eq|].
    by rewrite lookup_insert_ne. }
  assert (forall dir filenames, probeDir (create w path b) dir filenames = probeDir w dir filenames) as Hd.
  { intros. unfold probeDir. apply list_bind_ext_in. intros f _. by apply first_file_ext. }
  assert (forall ds filenames, probeExplicitDirs (create w path b) ds filenames = probeExplicitDirs w ds filenames) as He.
  { intros. unfold probeExplicitDirs. apply list_bind_ext_in. intros d _. apply list_bind_ext_in. intros f _. by apply first_file_ext. }
  unfold discover, walkUp. cbn [create cwd]. rewrite He.
  assert (forall l filenames, l ≫= (fun dir => probeDir (create w path b) dir filenames) = l ≫= (fun dir => probeDir w dir filenames)) as Hb.
  { intros. apply list_bind_ext_in. intros; apply Hd. }
  destruct (cwd w); by rewrite ?Hb.
Qed.

Lemma first_file_exists w paths fname p : p ∈ df_path <$> first_file w paths fname -> isFile w p = true.
Proof.
  unfold first_file. destruct (find (isFile w) paths) as [q|] eqn:E; [|set_solver]. cbn. rewrite list_elem_of_singleton.
  intros ->. by apply find_some in E as [_ ?].
Qed.

Lemma probeDir_exists w dir filenames p : p ∈ df_path <$> probeDir w dir filenames -> isFile w p = true.
Proof.
  unfold probeDir. rewrite list_bind_fmap_l. intros (f & H & _)%list_elem_of_bind. by eapply first_file_exists.
Qed.

Lemma discover_exists w opts fs p : discover w opts = Ok fs -> p ∈ df_path <$> fs -> isFile w p = true.
Proof.
  intros (walked & Hp & Hw)%discover_ok. rewrite Hp. intros [H|[H|H]].
  - destruct (String.eqb _ ""); [subst; set_solver|]. unfold walkUp in Hw. destruct (cwd w); [|done].
    destruct (Rel _ _); [|done]. destruct (_ || _); [done|]. injection Hw as <-.
    rewrite list_bind_fmap_l in H. apply list_elem_of_bind in H as (d & H & _). by eapply probeDir_exists.
  - rewrite list_bind_fmap_l in H. apply list_elem_of_bind in H as (d & H & _). by eapply probeDir_exists.
  - unfold probeExplicitDirs in H. rewrite list_bind_fmap_l in H. apply list_elem_of_bind in H as (d & H & _).
    rewrite list_bind_fmap_l in H. apply list_elem_of_bind in H as (f & H & _). by eapply first_file_exists.
Qed.

(** After a write, discovery still succeeds, and what it finds in the
    configured places is found. *)
Lemma discover_create w path b opts fs :
  discover w opts = Ok fs ->
  exists fs', discover (create w path b) opts = Ok fs' /\
    (forall p dir, dir ∈ Dirs opts -> p ∈ df_path <$> probeDir (create w path b) dir (Filenames opts) -> p ∈ df_path <$> fs') /\
    (forall p, p ∈ df_path <$> probeExplicitDirs (create w path b) (Paths opts) (Filenames opts) -> p ∈ df_path <$> fs') /\
    (forall p c, String.eqb (WalkUpAnchor opts) "" = false -> cwd w = Some c ->
       p ∈ df_path <$> probeDir (create w path b) (Clean c) (Filenames opts) -> p ∈ df_path <$> fs').
Proof.
  intros Hd. assert (exists fs', discover (create w path b) opts = Ok fs') as [fs' Hfs'].
  { apply discover_ok in Hd as (walked & _ & Hw). unfold discover. destruct (String.eqb _ ""); [by eexists|].
    destruct (walkUp_create w path b _ _ _ Hw) as (ds & _ & ->). by eexists. }
  exists fs'. split; [done|]. destruct (discover_ok _ _ _ Hfs') as (walked & Hp & Hw).
  split_and!; intros p.
  - intros dir Hdir Hin. apply Hp. right. left. rewrite list_bind_fmap_l. apply list_elem_of_bind. by exists dir.
  - intros Hin. apply Hp. by right; right.
  - intros c Ha Hc Hin. apply Hp. left. rewrite Ha in Hw. apply discover_ok in Hd as (walked0 & _ & Hw0). rewrite Ha in Hw0.
    destruct (walkUp_create w path b _ _ _ Hw0) as (ds & Hds & Hw'). rewrite Hw' in Hw. injection Hw as <-.
    rewrite Hc in Hds. destruct ds as [|d ds]; [done|]. injection Hds as ->.
    rewrite list_bind_fmap_l. apply list_elem_of_bind. exists (Clean c). split; [done|left].
Qed.

Lemma target_cases w opts layers ts t :
  locationCandidates w opts layers = Some ts -> t ∈ ts ->
  (String.eqb (WalkUpAnchor opts) "" = false /\ walkUpTargetPath w layers (writeFilename opts) = Some (t_path t)) \/
  (exists dir, dir ∈ Dirs opts /\ t_path t = dualPlacementPath w dir (writeFilename opts)) \/
  (exists dir, dir ∈ Paths opts /\ t_path t = FileJoin [dir; writeFilename opts]).
Proof.
  unfold locationCandidates. destruct (String.eqb (writeFilename opts) ""); [intros [= <-]; set_solver|].
  intros H Hin. destruct (String.eqb (WalkUpAnchor opts) ""); cbn [negb] in H.
  - cbn in H. injection H as <-. right. apply elem_of_app in Hin as [H|H]; apply list_elem_of_fmap in H as (d & -> & H); eauto.
  - destruct (walkUpTargetPath w layers _) as [path|]; [|done]. cbn in H. injection H as <-.
    apply elem_of_cons in Hin as [->|Hin]; [by left|right].
    apply elem_of_app in Hin as [H|H]; apply list_elem_of_fmap in H as (d & -> & H); eauto.
Qed.

Lemma walkUp_target_cases w layers fname path :
  walkUpTargetPath w layers fname = Some path ->
  path ∈ df_path <$> layers \/ exists c, cwd w = Some c /\ path = dualPlacementPath w c fname.
Proof.
  unfold walkUpTargetPath. destruct (find _ layers) as [l|] eqn:E.
  - intros [= <-]. left. apply find_some in E as [Hl _]. apply list_elem_of_fmap_2. by apply list_elem_of_In.
  - destruct (cwd w) as [c|]; [|done]. intros [= <-]. eauto.
Qed.

End World.

(** ** Theorems *)

(** The upward walk terminates and stays inside its anchor.  From a clean
    absolute working directory, walking up to an ancestor probes exactly the
    directories from the working directory to the anchor, nearest first, and
    nothing above it; any other anchor is refused. *)
Theorem walkUp_bounded {Bytes} (w : world Bytes) filenames base segs :
  cwd w = Some (abs segs) -> Forall seg_ok base -> Forall seg_ok segs ->
  walkUp w filenames (abs base) =
  if decide (base `prefix_of` segs)
  then Ok (ancestry base (drop (length base) segs) ≫= fun dir => probeDir w dir filenames)
  else Err ErrAnchorNotAncestor.
Proof.
  intros Hc Hb Hs. destruct (decide _) as [[more ->]|Hn].
  - rewrite drop_app_length. by apply walkUp_dirs.
  - apply (walkUp_refuses w filenames base segs); [done..|]. intros more ->. apply Hn. by exists more.
Qed.

(** C40: Every offered write target is found again.  For a store whose write
    filename is one of its filenames and ends in yaml or yml, a file written to
    any location [WriteTargets] offers is among the files the same options
    discover afterwards. *)
Theorem WriteTargets_rediscoverable {Bytes} (w : world Bytes) opts fs ts t b :
  (forall c, cwd w = Some c -> Clean c = c) ->
  writeFilename opts ∈ Filenames opts -> yaml_name (writeFilename opts) ->
  discover w opts = Ok fs -> WriteTargets w opts fs = Some ts -> t ∈ ts ->
  exists fs', discover (create w (t_path t) b) opts = Ok fs' /\ t_path t ∈ df_path <$> fs'.
Proof.
  intros Hclean Hin Hy Hd Ht Hts. unfold WriteTargets in Ht.
  destruct (locationCandidates w opts fs) as [cs|] eqn:Hc; [|done]. injection Ht as <-.
  apply dedup_target_in, elem_of_app in Hts.
  assert (Hknown : t_path t ∈ df_path <$> fs -> exists fs', discover (create w (t_path t) b) opts = Ok fs' /\ t_path t ∈ df_path <$> fs').
  { intros Hk. exists fs. split; [|done]. rewrite discover_rewrite; [done|]. by eapply discover_exists. }
  destruct (discover_create w (t_path t) b opts fs Hd) as (fs' & Hfs' & Hdirs & Hpaths & Hwalk).
  destruct Hts as [Hts|Hts].
  - destruct (target_cases w opts fs cs t Hc Hts) as [[Ha Hw]|[(dir & Hdir & E)|(dir & Hdir & E)]].
    + apply walkUp_target_cases in Hw as [Hk|(c & Ec & E)]; [by apply Hknown|]. exists fs'. split; [done|].
      apply (Hwalk _ c Ha Ec). rewrite (Hclean c Ec), E. by apply probeDir_dual.
    + exists fs'. split; [done|]. apply (Hdirs _ dir Hdir). rewrite E. by apply probeDir_dual.
    + exists fs'. split; [done|]. apply Hpaths. rewrite E. by apply probeExplicit_path.
  - apply list_elem_of_fmap in Hts as (l & -> & [_ Hl]%list_elem_of_filter). apply Hknown. cbn [t_path]. by apply list_elem_of_fmap_2.
Qed.

Definition demo_world : world string :=
  mkWorld {[ "/home/u/proj/.clawker.yaml" := "a"; "/home/u/.clawker/clawker.yaml" := "b" ]}
          {[ "/home/u/.clawker"; "/home/u/proj" ]} (Some "/home/u/proj/sub").
Definition demo_options : Options := mkOptions ["clawker.yaml"] "" "/home/u" [] ["/cfg"] false true "" "".

Lemma walkUp_bounded_witness :
  walkUp demo_world ["clawker.yaml"] "/home/u" =
    Ok [mkDiscovered "/home/u/proj/.clawker.yaml" "clawker.yaml" false;
        mkDiscovered "/home/u/.clawker/clawker.yaml" "clawker.yaml" false] /\
  walkUp demo_world ["clawker.yaml"] "/home/other" = Err ErrAnchorNotAncestor.
Proof.
  assert (H : forall base, Forall seg_ok base -> walkUp demo_world ["clawker.yaml"] (abs base) = _)
    by (intros base Hb; refine (walkUp_bounded demo_world ["clawker.yaml"] base ["home"; "u"; "proj"; "sub"] eq_refl Hb _);
        by repeat constructor).
  split; [etransitivity; [refine (H ["home"; "u"] _)|]|etransitivity; [refine (H ["home"; "other"] _)|]];
    try (by repeat constructor); by vm_compute.
Defined.

Lemma WriteTargets_rediscoverable_witness :
  exists fs', discover (create demo_world "/cfg/clawker.yaml" "c") demo_options = Ok fs' /\
              "/cfg/clawker.yaml" ∈ df_path <$> fs'.
Proof.
  refine (WriteTargets_rediscoverable demo_world demo_options _ _ (mkTarget TargetPath "/cfg/clawker.yaml" "clawker.yaml") "c" _ _ _ _ _ _).
  - intros c [= <-]. by vm_compute.
  - left.
  - left. by vm_compute.
  - by vm_compute.
  - by vm_compute.
  - right. left.
Defined.

End Discover.
