(* ===== verification/LayeredStore.v ===== *)
(** * The layered configuration store

    internal/storage/store.go, write.go and load.go: a typed snapshot over a
    merged YAML tree, with staged mutations that are written back to the layer
    files they belong to.

    The YAML library, the decoding into the schema type and the encoding of Go
    values are parameters; the bytes of a file are abstract.  A store operation
    maps the store and the world to its result and the new store and world.
    Which reads, writes and locks fail during a call is an input ([io]).  The
    code iterates over Go maps in an order of its own; here it is the order of
    [map_to_list].  The mutexes make the calls of one store atomic. *)

From S2P Require Import Prelude GoStrings GoPath YamlNode YamlMerge Discover.
Import Go GoPath Yaml YamlMerge Discover.

Module LayeredStore.

(** ** Data *)

Inductive dirtyOp := dirtySet | dirtyDeleted.

#[global] Instance dirtyOp_eq_dec : EqDecision dirtyOp.
Proof. solve_decision. Defined.

(** [path] is empty for the virtual layer of defaults and seed. *)
Record layer := mkLayer { l_path : string; l_filename : string; l_node : Node; l_virtual : bool; l_walkUp : bool }.

(** What the YAML decoder finds in a file: [Documents root more] is a first
    document, its root if it has one, and whether anything follows. *)
Inductive decoded := NoDocument | Malformed | Documents (root : option Node) (more : bool).

Inductive load_error := NotExist | Unreadable | ParsingYaml | ErrMultiDocument | ErrNonMappingRoot.

(** The dynamic type of a value passed to [Set]. *)
Inductive GoKind := GoNil | GoString | GoBool | GoInt | GoTime | GoSlice | GoMap | GoOther.

Inductive store_error :=
  | EmptyPath | EmptySegment | KindMismatch | EncodingValue | ErrSchemaDecode | NotAbsolute
  | NoWritePath | CreatingDirectory | ResolvingCWD | RereadingBeforeWrite (e : load_error) | EncodingFile
  | AtomicWriteFailed | LockFailed | RereadingWritten (e : load_error) | ReadingNew (e : load_error) | RemergeFailed
  | RestagingFailed | DiscoveryFailed (e : discover_error) | LoadingFile (e : load_error) | ParsingDefaults (e : load_error)
  | ParsingSeed (e : load_error) | ApplyingMigrations.

(** Which operations on which paths fail. *)
Record io := mkIo { unreadable : string -> bool; unwritable : string -> bool; unlockable : string -> bool; nomkdir : string -> bool }.
Definition no_faults : io := mkIo (fun _ => false) (fun _ => false) (fun _ => false) (fun _ => false).

Definition sep : ascii := ".".
Definition segments (path : string) : list string := Split sep path.

(** ** Encoding a file *)

Definition nl : ascii := ascii_of_N 10.

Definition header_claims (header : string) : list string * list string :=
  foldl (fun '(prefixes, exacts) hl =>
           let hl := TrimSpace hl in
           if String.eqb hl "" then (prefixes, exacts)
           else match Cut ":" hl with
                | Some (pre, _) => (prefixes ++ [pre +:+ ":"], exacts)
                | None => (prefixes, exacts ++ [hl])
                end)
        ([], []) (Split nl header).

Definition headerClaimsLine (line : string) (prefixes exacts : list string) : bool :=
  existsb (fun p => HasPrefix line p) prefixes || existsb (String.eqb line) exacts.

Definition stripHeaderLines (n : Node) (header : string) : Node :=
  let m := meta n in
  if String.eqb (HeadComment m) "" || String.eqb header "" then n
  else
    let '(prefixes, exacts) := header_claims header in
    let kept := filter (fun ln => headerClaimsLine (TrimSpace (TrimPrefix (TrimSpace ln) "#")) prefixes exacts = false)
                       (Split nl (HeadComment m)) in
    with_meta n (mkMeta (Style m) (Tag m) (Anchor m) (Join kept (one nl)) (LineComment m) (FootComment m)).

Definition LiteralStyle : Z := 8.

Fixpoint setLiteralStyle (n : Node) : Node :=
  match n with
  | ScalarNode m v =>
      if String.eqb (Tag m) "!!str" && Contains v (one nl)
      then ScalarNode (mkMeta LiteralStyle (Tag m) (Anchor m) (HeadComment m) (LineComment m) (FootComment m)) v
      else n
  | AliasNode _ _ => n
  | SequenceNode m c => SequenceNode m (map setLiteralStyle c)
  | MappingNode m c => MappingNode m (map (fun '(k, v) => (setLiteralStyle k, setLiteralStyle v)) c)
  end.

Definition encodeCommentOnly (header : string) : string :=
  if String.eqb header "" then ""
  else foldr (fun line acc => (if String.eqb line "" then "#" else "# " +:+ line) +:+ one nl +:+ acc) "" (Split nl header).

(** The node [encodeNode] hands to the encoder; [None] when the document has no
    key and is written as a comment. *)
Definition stamped (node : Node) (header : string) : option Node :=
  let node := stripHeaderLines node header in
  let node :=
    match node with
    | MappingNode m ((k, v) :: c) => MappingNode m ((stripHeaderLines k header, v) :: c)
    | _ => node
    end in
  let node :=
    if negb (String.eqb header "") then
      let m := meta node in with_meta node (mkMeta (Style m) (Tag m) (Anchor m) header (LineComment m) (FootComment m))
    else node in
  match node with MappingNode _ [] => None | _ => Some (setLiteralStyle node) end.

(** ** Path validation *)

Definition validatePath (path : string) : result store_error unit :=
  if String.eqb path "" then Err EmptyPath
  else if existsb (fun seg => String.eqb seg "") (segments path) then Err EmptySegment
  else Ok tt.

Definition kindAccepts (k : FieldKind) (v : GoKind) : bool :=
  match v with
  | GoNil => true
  | _ =>
      match k with
      | KindText | KindSelect | KindDuration => match v with GoString => true | _ => false end
      | KindBool => match v with GoBool => true | _ => false end
      | KindInt => match v with GoInt => true | _ => false end
      | KindTime => match v with GoTime | GoString => true | _ => false end
      | KindStringSlice | KindStructSlice => match v with GoSlice => true | _ => false end
      | KindMap | KindStructMap => match v with GoMap => true | _ => false end
      | KindLast | KindConsumer _ => true
      end
  end.

Definition isOpaqueField (tags : tagRegistry) (path : string) : bool :=
  match tags !! path with
  | None => false
  | Some m =>
      if bool_decide (kind m = KindMap) && String.eqb (mergeTag m) mergeUnion then false
      else bool_decide (kind m = KindMap \/ kind m = KindStructMap \/ kind m = KindStructSlice)
  end.

Record fileOps := mkOps { sets : list string; deletes : list string }.

Section Store.
Context {Any T Bytes GoVal : Type}.
(** The YAML library: decoding a node into an untyped value and into the schema
    type (with its zero value), decoding and encoding a file, encoding a Go
    value; and the bytes of a string. *)
Variable decode_any : Node -> option Any.
Variable DeepEqual : Any -> Any -> bool.
Variable decode_T : Node -> option T.
Variable zero : T.
Variable yaml_decode : Bytes -> decoded.
Variable yaml_encode : Node -> option Bytes.
Variable bytes_of : string -> Bytes.
Variable encode_value : GoVal -> option Node.
Variable go_kind : GoVal -> GoKind.
(** The options of the store and the schema's metadata. *)
Variable opts : Options.
Variable tags : tagRegistry.

Abbreviation merge_layers ls := (merge decode_any DeepEqual tags (l_node <$> ls)).
Abbreviation world := (world Bytes).

(** [migrating] is the index of the layer whose node [tree] stands for while
    migrations run on it. *)
Record Store := mkStore {
  value : option T; tree : Node; dirtyPaths : gmap string dirtyOp; layers : list layer; prov : gmap string nat;
  migrating : option nat; notices : list (string * string);
}.

(** ** Files *)

Definition rootMapping (data : Bytes) : result load_error Node :=
  match yaml_decode data with
  | NoDocument => Ok newMapping
  | Malformed => Err ParsingYaml
  | Documents root more =>
      if more then Err ErrMultiDocument
      else match root with
           | Some n => if isMapping n then Ok n else Err ErrNonMappingRoot
           | None => Ok newMapping
           end
  end.

Definition loadNode (f : io) (w : world) (path : string) : result load_error Node :=
  match files w !! path with
  | None => Err NotExist
  | Some data => if unreadable f path then Err Unreadable else rootMapping data
  end.

(** An empty tree yields the zero value. *)
Definition decodeNode (n : Node) : option T :=
  match n with MappingNode _ [] => Some zero | _ => decode_T n end.

Definition encodeNode (node : Node) : option Bytes :=
  match stamped node (Header opts) with
  | None => Some (bytes_of (encodeCommentOnly (Header opts)))
  | Some n => yaml_encode n
  end.

Definition MkdirAll (f : io) (w : world) (dir : string) : option world :=
  if nomkdir f dir then None
  else Some (mkWorld (files w) (list_to_set (walk_dirs (walk_fuel dir) dir "/") ∪ dirs w) (cwd w)).

(** A temporary file renamed over the target: all or nothing. *)
Definition atomicWrite (f : io) (w : world) (path : string) (data : Bytes) : result store_error unit * world :=
  match MkdirAll f w (Dir path) with
  | None => (Err CreatingDirectory, w)
  | Some w =>
      if unwritable f path then (Err AtomicWriteFailed, w)
      else (Ok tt, mkWorld (<[path := data]> (files w)) (dirs w) (cwd w))
  end.

Definition withLock (f : io) (w : world) (path : string) (fn : result store_error unit * world) : result store_error unit * world :=
  if unlockable f path then (Err LockFailed, w) else fn.

Definition writeFile (f : io) (w : world) (dest : string) (data : Bytes) : result store_error unit * world :=
  if Lock opts then withLock f w dest (atomicWrite f w dest data) else atomicWrite f w dest data.

(** ** Mutations *)

Definition set_dirty (s : Store) (d : gmap string dirtyOp) : Store :=
  mkStore (value s) (tree s) d (layers s) (prov s) (migrating s) (notices s).
Definition set_layers (s : Store) (ls : list layer) : Store :=
  mkStore (value s) (tree s) (dirtyPaths s) ls (prov s) (migrating s) (notices s).
Definition set_node (n : Node) (l : layer) : layer := mkLayer (l_path l) (l_filename l) n (l_virtual l) (l_walkUp l).

Definition markDirty (s : Store) (path : string) (op : dirtyOp) : Store := set_dirty s (<[path := op]> (dirtyPaths s)).

(** A new tree and snapshot. *)
Definition commit (s : Store) (t : Node) (v : option T) : Store :=
  mkStore v t (dirtyPaths s) (layers s) (prov s) (migrating s) (notices s).

(** A change in place while layer [i] is migrated: the tree is that layer's
    node, and the snapshot follows when it decodes. *)
Definition migrate_tree (s : Store) (i : nat) (t : Node) : Store :=
  let v := match decodeNode t with Some v => Some v | None => value s end in
  mkStore v t (dirtyPaths s) (alter (set_node t) i (layers s)) (prov s) (migrating s) (notices s).

Definition validateKind (path : string) (v : GoVal) : result store_error unit :=
  match tags !! path with
  | None => Ok tt
  | Some m => if kindAccepts (kind m) (go_kind v) then Ok tt else Err KindMismatch
  end.

Definition SetValue (s : Store) (path : string) (v : GoVal) : result store_error unit * Store :=
  match validatePath path with
  | Err e => (Err e, s)
  | Ok _ =>
      match validateKind path v with
      | Err e => (Err e, s)
      | Ok _ =>
          match encode_value v with
          | None => (Err EncodingValue, s)
          | Some valNode =>
              let candidate := nodeGraftValue (tree s) (segments path) valNode in
              match migrating s with
              | Some i => (Ok tt, migrate_tree (markDirty s path dirtySet) i candidate)
              | None =>
                  match decodeNode candidate with
                  | None => (Err ErrSchemaDecode, s)
                  | Some decoded => (Ok tt, commit (markDirty s path dirtySet) candidate (Some decoded))
                  end
              end
          end
      end
  end.

Definition Remove (s : Store) (path : string) : result store_error bool * Store :=
  match validatePath path with
  | Err e => (Err e, s)
  | Ok _ =>
      match nodeDeletePath (tree s) (segments path) with
      | None => (Ok false, s)
      | Some candidate =>
          match migrating s with
          | Some i => (Ok true, migrate_tree (markDirty s path dirtyDeleted) i candidate)
          | None =>
              match decodeNode candidate with
              | None => (Err ErrSchemaDecode, s)
              | Some decoded => (Ok true, commit (markDirty s path dirtyDeleted) candidate (Some decoded))
              end
          end
      end
  end.

(** [Get] decodes into the type the caller asks for: [Ok None] when the path is
    absent. *)
Definition Get {A} (decode : Node -> option A) (s : Store) (path : string) : result unit (option A) :=
  match nodeValueAt (tree s) (segments path) with
  | None => Ok None
  | Some n => match decode n with Some a => Ok (Some a) | None => Err tt end
  end.

Definition Has (s : Store) (path : string) : bool := bool_decide (is_Some (nodeValueAt (tree s) (segments path))).

(** The layer a path's value comes from, and the file of every recorded path. *)
Definition Provenance (s : Store) (path : string) : option layer :=
  match prov s !! path with Some idx => layers s !! idx | None => None end.
Definition ProvenanceMap (s : Store) : gmap string string := omap (fun idx => l_path <$> layers s !! idx) (prov s).

Definition MigratingLayerPath (s : Store) : string :=
  match migrating s with Some i => match layers s !! i with Some l => l_path l | None => "" end | None => "" end.

Definition MarkForWrite (s : Store) (path : string) : result store_error unit * Store :=
  match validatePath path with
  | Err e => (Err e, s)
  | Ok _ => (Ok tt, markDirty s path dirtySet)
  end.

Definition MarkSeedForWrite (s : Store) : Store :=
  foldl (fun s '(path, idx) =>
           match layers s !! idx with
           | Some l => if l_virtual l then markDirty s path dirtySet else s
           | None => s
           end)
        s (map_to_list (prov s)).

(** ** Routing *)

Definition better (best : option nat) (idx : nat) : option nat :=
  match best with None => Some idx | Some b => if (idx <? b)%nat then Some idx else best end.

Definition best_match (p : gmap string nat) (key : string) : option nat :=
  foldl (fun best '(provKey, idx) =>
           if String.eqb provKey key || HasPrefix provKey (key +:+ ".") then better best idx else best)
        None (map_to_list p).

(** The ancestors of the path, nearest first, given its segments in reverse. *)
Fixpoint closest_opaque (p : gmap string nat) (rsegs : list string) : option nat :=
  match rsegs with
  | [] | [_] => None
  | _ :: rest =>
      let parent := Join (rev rest) "." in
      match p !! parent with
      | Some idx => if isOpaqueField tags parent then Some idx else closest_opaque p rest
      | None => closest_opaque p rest
      end
  end.

Definition layerPathForKey (s : Store) (key : string) : string :=
  let bestIdx :=
    match best_match (prov s) key with Some i => Some i | None => closest_opaque (prov s) (rev (segments key)) end in
  match bestIdx with
  | Some i => match layers s !! i with Some l => l_path l | None => "" end
  | None => ""
  end.

Definition defaultWritePath (f : io) (s : Store) (w : world) : result store_error string * world :=
  match find (fun l => negb (String.eqb (l_path l) "")) (layers s) with
  | Some l => (Ok (l_path l), w)
  | None =>
      match Filenames opts with
      | [] => (Err NoWritePath, w)
      | _ =>
          let fname := writeFilename opts in
          match Paths opts with
          | dir :: _ =>
              match MkdirAll f w dir with
              | None => (Err CreatingDirectory, w)
              | Some w => (Ok (FileJoin [dir; fname]), w)
              end
          | [] =>
              match cwd w with
              | None => (Err ResolvingCWD, w)
              | Some dir =>
                  match MkdirAll f w dir with
                  | None => (Err CreatingDirectory, w)
                  | Some w => (Ok (if DotDefault opts then dualPlacementPath w dir fname else FileJoin [dir; fname]), w)
                  end
              end
          end
      end
  end.

Definition route (f : io) (s : Store) (w : world) (target path : string) : result store_error string * world :=
  let dest := if String.eqb target "" then layerPathForKey s path else target in
  if String.eqb dest "" then defaultWritePath f s w else (Ok dest, w).

Definition add_op (op : dirtyOp) (path : string) (o : option fileOps) : fileOps :=
  let o := default (mkOps [] []) o in
  match op with
  | dirtySet => mkOps (sets o ++ [path]) (deletes o)
  | dirtyDeleted => mkOps (sets o) (deletes o ++ [path])
  end.

Fixpoint group_ops (f : io) (s : Store) (target : string) (ops : list (string * dirtyOp)) (grouped : gmap string fileOps) (w : world)
    : result store_error (gmap string fileOps) * world :=
  match ops with
  | [] => (Ok grouped, w)
  | (path, op) :: ops =>
      match route f s w target path with
      | (Err e, w) => (Err e, w)
      | (Ok dest, w) => group_ops f s target ops (<[dest := add_op op path (grouped !! dest)]> grouped) w
      end
  end.

Definition groupDirtyByDest (f : io) (s : Store) (target : string) (w : world) : result store_error (gmap string fileOps) * world :=
  group_ops f s target (map_to_list (dirtyPaths s)) ∅ w.

(** ** Writing *)

Definition loadDestNode (f : io) (w : world) (dest : string) : result store_error Node :=
  match loadNode f w dest with
  | Ok node => Ok node
  | Err NotExist => Ok newMapping
  | Err e => Err (RereadingBeforeWrite e)
  end.

(** A value that is no longer in the merged tree is dropped. *)
Definition apply_set (merged node : Node) (path : string) : Node :=
  let segs := segments path in
  match nodeValueAt merged segs with
  | Some val => nodeGraftValue node segs val
  | None => default node (nodeDeletePath node segs)
  end.

Definition apply_delete (node : Node) (path : string) : Node := default node (nodeDeletePath node (segments path)).

Definition apply_ops (merged node : Node) (ops : fileOps) : Node :=
  foldl apply_delete (foldl (apply_set merged) node (sets ops)) (deletes ops).

Definition writeLayerFileLocked (f : io) (s : Store) (w : world) (dest : string) (ops : fileOps) : result store_error unit * world :=
  match loadDestNode f w dest with
  | Err e => (Err e, w)
  | Ok node =>
      match encodeNode (apply_ops (tree s) node ops) with
      | None => (Err EncodingFile, w)
      | Some encoded => atomicWrite f w dest encoded
      end
  end.

Definition writeLayerFile (f : io) (s : Store) (w : world) (dest : string) (ops : fileOps) : result store_error unit * world :=
  if Lock opts then withLock f w dest (writeLayerFileLocked f s w dest ops) else writeLayerFileLocked f s w dest ops.

Fixpoint write_files (f : io) (s : Store) (grouped : list (string * fileOps)) (w : world) : result store_error unit * world :=
  match grouped with
  | [] => (Ok tt, w)
  | (dest, ops) :: grouped =>
      match writeLayerFile f s w dest ops with
      | (Err e, w) => (Err e, w)
      | (Ok _, w) => write_files f s grouped w
      end
  end.

(** Files this store just wrote must read back; a layer of another owner that
    cannot be read keeps its node.  After an error the layers before it are
    already refreshed. *)
Fixpoint refreshLayers (f : io) (w : world) (written : list string) (ls : list layer) : result store_error unit * list layer :=
  match ls with
  | [] => (Ok tt, [])
  | l :: ls =>
      let refresh l := let '(r, ls) := refreshLayers f w written ls in (r, l :: ls) in
      if l_virtual l then refresh l
      else
        match loadNode f w (l_path l) with
        | Ok node => refresh (set_node node l)
        | Err e => if bool_decide (l_path l ∈ written) then (Err (RereadingWritten e), l :: ls) else refresh l
        end
  end.

(** Before the virtual layer, or at the end. *)
Fixpoint insertFileLayer (l : layer) (ls : list layer) : list layer :=
  match ls with
  | [] => [l]
  | existing :: rest => if l_virtual existing then l :: ls else existing :: insertFileLayer l rest
  end.

Fixpoint injectNewLayers (f : io) (w : world) (known : gset string) (writtenPaths : list string) (ls : list layer)
    : result store_error unit * list layer :=
  match writtenPaths with
  | [] => (Ok tt, ls)
  | path :: rest =>
      if bool_decide (path ∈ known) then injectNewLayers f w known rest ls
      else
        match loadNode f w path with
        | Err e => (Err (ReadingNew e), ls)
        | Ok node => injectNewLayers f w known rest (insertFileLayer (mkLayer path (Base path) node false false) ls)
        end
  end.

Definition known_paths (ls : list layer) : gset string := list_to_set (filter (fun p => p <> "") (l_path <$> ls)).

Definition remerge (s : Store) : result store_error unit * Store :=
  let '(t, p) := merge_layers (layers s) in
  match decodeNode t with
  | None => (Err RemergeFailed, s)
  | Some v => (Ok tt, mkStore (Some v) t (dirtyPaths s) (layers s) p (migrating s) (notices s))
  end.

(** Re-reads the layers, adds the files that are new, and rebuilds the merged
    tree. *)
Definition reload (f : io) (s : Store) (w : world) (written : list string) : result store_error unit * Store :=
  match refreshLayers f w written (layers s) with
  | (Err e, ls) => (Err e, set_layers s ls)
  | (Ok _, ls) =>
      match injectNewLayers f w (known_paths ls) written ls with
      | (Err e, ls) => (Err e, set_layers s ls)
      | (Ok _, ls) => remerge (set_layers s ls)
      end
  end.

Definition write (f : io) (s : Store) (w : world) (target : string) : result store_error unit * Store * world :=
  if bool_decide (dirtyPaths s = ∅) then (Ok tt, s, w)
  else
    match groupDirtyByDest f s target w with
    | (Err e, w) => (Err e, s, w)
    | (Ok grouped, w) =>
        match write_files f s (map_to_list grouped) w with
        | (Err e, w) => (Err e, s, w)
        | (Ok _, w) =>
            let '(r, s) := reload f (set_dirty s ∅) w (map_to_list grouped).*1 in
            (r, s, w)
        end
    end.

Definition Write (f : io) (s : Store) (w : world) : result store_error unit * Store * world := write f s w "".

Definition WriteTo (f : io) (s : Store) (w : world) (path : string) : result store_error unit * Store * world :=
  if negb (IsAbs path) then (Err NotAbsolute, s, w) else write f s w path.

(** ** One field *)

Definition capture_step (s : Store) (exclude : string) (st : list (string * Node) * list string) (x : string * dirtyOp)
    : list (string * Node) * list string :=
  let '(sets, deletes) := st in
  let '(path, op) := x in
  if String.eqb path exclude then (sets, deletes)
  else match op with
       | dirtySet =>
           match nodeValueAt (tree s) (segments path) with
           | Some n => (sets ++ [(path, n)], deletes)
           | None => (sets, deletes)
           end
       | dirtyDeleted => (sets, deletes ++ [path])
       end.

Definition captureStaged (s : Store) (exclude : string) : list (string * Node) * list string :=
  foldl (capture_step s exclude) ([], []) (map_to_list (dirtyPaths s)).

Definition restage (s : Store) (staged : list (string * Node) * list string) : result store_error unit * Store :=
  let '(stagedSets, stagedDeletes) := staged in
  match stagedSets, stagedDeletes with
  | [], [] => (Ok tt, s)
  | _, _ =>
      let candidate := foldl (fun t '(path, n) => nodeGraftValue t (segments path) n) (tree s) stagedSets in
      let candidate := foldl apply_delete candidate stagedDeletes in
      match decodeNode candidate with
      | None => (Err RestagingFailed, s)
      | Some v => (Ok tt, commit s candidate (Some v))
      end
  end.

Definition WriteFieldTo (f : io) (s : Store) (w : world) (path fieldPath : string) : result store_error unit * Store * world :=
  if negb (IsAbs path) then (Err NotAbsolute, s, w)
  else
    match dirtyPaths s !! fieldPath with
    | None => (Ok tt, s, w)
    | Some op =>
        let staged := captureStaged s fieldPath in
        match writeLayerFile f s w path (add_op op fieldPath None) with
        | (Err e, w) => (Err e, s, w)
        | (Ok _, w) =>
            match reload f (set_dirty s (delete fieldPath (dirtyPaths s))) w [path] with
            | (Err e, s) => (Err e, s, w)
            | (Ok _, s) => let '(r, s) := restage s staged in (r, s, w)
            end
        end
    end.

(** ** Construction *)

Definition load_layer (f : io) (w : world) (df : discoveredFile) : result store_error layer :=
  match loadNode f w (df_path df) with
  | Ok node => Ok (mkLayer (df_path df) (df_filename df) node false (df_walkUp df))
  | Err e => Err (LoadingFile e)
  end.

Fixpoint load_layers (f : io) (w : world) (dfs : list discoveredFile) : result store_error (list layer) :=
  match dfs with
  | [] => Ok []
  | df :: dfs => let? l := load_layer f w df in let? ls := load_layers f w dfs in Ok (l :: ls)
  end.

Definition discover_layers (f : io) (w : world) : result store_error (list layer) :=
  match discover w opts with
  | Err e => Err (DiscoveryFailed e)
  | Ok dfs => load_layers f w dfs
  end.

(** Pending mutations are discarded. *)
Definition Refresh (f : io) (s : Store) (w : world) : result store_error unit * Store :=
  match discover_layers f w with
  | Err e => (Err e, s)
  | Ok fileLayers =>
      let virtuals := match find l_virtual (layers s) with Some l => [l] | None => [] end in
      remerge (set_dirty (set_layers s (fileLayers ++ virtuals)) ∅)
  end.

Definition buildVirtualNode (seed : string) : result store_error Node :=
  if String.eqb (Defaults opts) "" && String.eqb seed "" then Ok newMapping
  else
    match rootMapping (bytes_of (Defaults opts)) with
    | Err e => Err (ParsingDefaults e)
    | Ok base =>
        if String.eqb seed "" then Ok base
        else
          match rootMapping (bytes_of seed) with
          | Err e => Err (ParsingSeed e)
          | Ok rawNode => Ok (mergeNodes decode_any DeepEqual tags 0 rawNode "" base ∅).1
          end
    end.

Definition virtual_layers (n : Node) : list layer :=
  match n with MappingNode _ [] => [] | _ => [mkLayer "" "" n true false] end.

(** ** Migrations *)

(** A migration mutates the store through its operations and says whether it
    changed anything; [Err] aborts. *)
Definition Migration := Store -> result unit bool * Store.

Definition Noticef (s : Store) (text : string) : Store :=
  mkStore (value s) (tree s) (dirtyPaths s) (layers s) (prov s) (migrating s) (notices s ++ [(MigratingLayerPath s, text)]).

Fixpoint run_migrations (fns : list Migration) (s : Store) (changed : bool) : result unit bool * Store :=
  match fns with
  | [] => (Ok changed, s)
  | fn :: fns =>
      match fn s with
      | (Err e, s) => (Err e, s)
      | (Ok c, s) => run_migrations fns s (changed || c)
      end
  end.

Definition enter_layer (s : Store) (i : nat) (node : Node) : Store :=
  mkStore (value s) node ∅ (layers s) (prov s) (Some i) (notices s).
Definition leave_layer (merged : Node) (s : Store) : Store :=
  mkStore (value s) merged ∅ (layers s) (prov s) None (notices s).

(** [Ok (Some bytes)]: the layer changed and encodes to [bytes]. *)
Definition migrateLayer (s : Store) (i : nat) (l : layer) (fns : list Migration) : result unit (option Bytes) * Store :=
  match run_migrations fns (enter_layer s i (l_node l)) false with
  | (Err e, s') => (Err e, leave_layer (tree s) s')
  | (Ok changed, s') =>
      let changed := changed || negb (bool_decide (dirtyPaths s' = ∅)) in
      let s'' := leave_layer (tree s) s' in
      if negb changed then (Ok None, s'')
      else
        match layers s' !! i with
        | None => (Err tt, s'')
        | Some l' => match encodeNode (l_node l') with Some b => (Ok (Some b), s'') | None => (Err tt, s'') end
        end
  end.

(** The layers are visited by index: migrations may have changed their nodes. *)
Fixpoint stageMigratedLayers (idxs : list nat) (fns : list Migration) (s : Store) (pending : list (string * Bytes))
    : result store_error (list (string * Bytes)) * Store :=
  match idxs with
  | [] => (Ok pending, s)
  | i :: idxs =>
      match layers s !! i with
      | None => (Ok pending, s)
      | Some l =>
          if l_virtual l then stageMigratedLayers idxs fns s pending
          else
            match migrateLayer s i l fns with
            | (Err _, s) => (Err ApplyingMigrations, s)
            | (Ok None, s) => stageMigratedLayers idxs fns s pending
            | (Ok (Some b), s) => stageMigratedLayers idxs fns s (pending ++ [(l_path l, b)])
            end
      end
  end.

(** The paths whose rewrite failed. *)
Fixpoint commitMigratedLayers (f : io) (pending : list (string * Bytes)) (w : world) : list string * world :=
  match pending with
  | [] => ([], w)
  | (path, data) :: pending =>
      match writeFile f w path data with
      | (Ok _, w) => commitMigratedLayers f pending w
      | (Err _, w) => let '(failed, w) := commitMigratedLayers f pending w in (path :: failed, w)
      end
  end.

(** What is printed: the notices of the layers that were written, then a
    warning for each one that was not. *)
Inductive printed := Notice (text : string) | CouldNotPersist (path : string).
Definition flushNotices (ns : list (string * string)) (failed : list string) : list printed :=
  (Notice ∘ snd <$> filter (fun n => n.1 ∉ failed) ns) ++ (CouldNotPersist <$> failed).

Definition clear_notices (s : Store) : Store :=
  mkStore (value s) (tree s) (dirtyPaths s) (layers s) (prov s) (migrating s) [].

Definition applyMigrations (f : io) (fns : list Migration) (s : Store) (w : world)
    : result store_error (list printed) * Store * world :=
  match fns with
  | [] => (Ok [], s, w)
  | _ =>
      match stageMigratedLayers (seq 0 (length (layers s))) fns s [] with
      | (Err e, s) => (Err e, s, w)
      | (Ok pending, s) =>
          let '(failed, w) := commitMigratedLayers f pending w in
          match pending with
          | [] => (Ok (flushNotices (notices s) failed), clear_notices s, w)
          | _ =>
              match remerge s with
              | (Err e, s) => (Err e, s, w)
              | (Ok _, s) => (Ok (flushNotices (notices s) failed), clear_notices s, w)
              end
          end
      end
  end.

(** The store, what was printed, and the world. *)
Definition New (f : io) (fns : list Migration) (seed : string) (w : world) : result store_error (Store * list printed) * world :=
  match discover_layers f w with
  | Err e => (Err e, w)
  | Ok fileLayers =>
      match buildVirtualNode seed with
      | Err e => (Err e, w)
      | Ok virtual =>
          let allLayers := fileLayers ++ virtual_layers virtual in
          let '(t, p) := merge_layers allLayers in
          match applyMigrations f fns (mkStore None t ∅ allLayers p None []) w with
          | (Err e, _, w) => (Err e, w)
          | (Ok out, s, w) =>
              match decodeNode (tree s) with
              | None => (Err RemergeFailed, w)
              | Some v => (Ok (commit s (tree s) (Some v), out), w)
              end
          end
      end
  end.

End Store.
End LayeredStore.
