(* ===== verification/YamlPortable.v ===== *)
(** * Trees that survive a trip through the YAML library

    What the store relies on in the library (gopkg.in/yaml.v3) when it rewrites
    a file: a tree of an ordinary kind is encoded, and what was encoded reads
    back with the same data.  Not every tree is of that kind.  An alias taken
    over from another file has no anchor to name in this one, and a node that
    was made without a tag comes back with the tag its text resolves to.
    [portable] says which trees are meant, and the lemmas that every edit the
    store makes to a file keeps it of that kind. *)

From S2P Require Import Prelude GoStrings GoPath YamlNode YamlMerge Discover LayeredStore.
Import Go GoPath Yaml LayeredStore.

Module YamlPortable.

(** Printable ASCII and line feeds. *)
Definition printable (c : ascii) : bool := Ascii.eqb c nl || ((32 <=? N_of_ascii c)%N && (N_of_ascii c <=? 126)%N).
Definition plain_text (s : string) : bool := all_chars printable s.

(** Text that does not begin with a blank or an empty line. *)
Definition legible (s : string) : bool :=
  plain_text s && match s with String c _ => negb (Ascii.eqb c " ") && negb (Ascii.eqb c nl) | EmptyString => true end.

(** No anchor, and comments of ordinary text. *)
Definition portable_meta (m : Meta) : bool :=
  String.eqb (Anchor m) "" && plain_text (HeadComment m) && plain_text (LineComment m) && plain_text (FootComment m).

(** The default style, either kind of quotes, or a literal block. *)
Definition string_style (s : Z) : bool := (s =? 0) || (s =? 2) || (s =? 4) || (s =? LiteralStyle).

Definition is_scalar (n : Node) : bool := match n with ScalarNode _ _ => true | _ => false end.

Section Portable.

(** The tag the library gives to an unquoted scalar without one. *)
Variable resolves : string -> string.

(** A string, or an unquoted scalar whose tag is the one its text has. *)
Definition portable_scalar (m : Meta) (v : string) : bool :=
  legible v &&
  ((String.eqb (Tag m) "!!str" && string_style (Style m)) ||
   ((Style m =? 0) && negb (String.eqb v "") && String.eqb (Tag m) (resolves v))).

(** Scalars as above, and block collections of them with their standard tags
    and with scalar keys; no aliases. *)
Fixpoint portable (n : Node) : bool :=
  match n with
  | ScalarNode m v => portable_meta m && portable_scalar m v
  | AliasNode _ _ => false
  | SequenceNode m c => portable_meta m && String.eqb (Tag m) "!!seq" && (Style m =? 0) && forallb portable c
  | MappingNode m c =>
      portable_meta m && String.eqb (Tag m) "!!map" && (Style m =? 0) &&
      forallb (fun '(k, v) => is_scalar k && portable k && portable v) c
  end.

(** The kind of entry a portable mapping has. *)
Definition portable_entry (kv : Node * Node) : Prop := is_scalar kv.1 = true /\ portable kv.1 = true /\ portable kv.2 = true.

Lemma portable_mapping m c :
  portable (MappingNode m c) = true <->
  (portable_meta m && String.eqb (Tag m) "!!map" && (Style m =? 0) = true) /\ Forall portable_entry c.
Proof.
  cbn [portable]. rewrite andb_true_iff. apply and_iff_compat_l. rewrite forallb_forall, Forall_forall.
  setoid_rewrite list_elem_of_In. unfold portable_entry. split.
  - intros H [k v] Hin. specialize (H _ Hin). cbn in H. rewrite !andb_true_iff in H. cbn. tauto.
  - intros H [k v] Hin. specialize (H _ Hin). cbn in H. rewrite !andb_true_iff. tauto.
Qed.

Lemma portable_meta_of n : portable n = true -> portable_meta (meta n) = true.
Proof. destruct n; cbn; [|done|..]; rewrite ?andb_true_iff; tauto. Qed.

(** Comments may be exchanged for others of ordinary text. *)
Lemma portable_with_meta n m :
  portable n = true -> portable_meta m = true -> Style m = Style (meta n) -> Tag m = Tag (meta n) -> portable (with_meta n m) = true.
Proof.
  destruct n as [m0 v| |m0 c|m0 c]; cbn; [|done|..]; unfold portable_scalar; rewrite ?andb_true_iff; intros H Hm -> ->; tauto.
Qed.

Lemma or_comment_plain s old : plain_text s = true -> plain_text old = true -> plain_text (or_comment s old) = true.
Proof. unfold or_comment. by destruct (String.eqb s ""). Qed.

Lemma portable_carry old v : portable old = true -> portable v = true -> portable (carry_comments old v) = true.
Proof.
  intros Ho%portable_meta_of Hv. apply portable_with_meta; [done| |done..]. apply portable_meta_of in Hv.
  unfold portable_meta in *. rewrite !andb_true_iff in *. cbn. destruct Ho as [[[? ?] ?] ?], Hv as [[[? ?] ?] ?].
  split_and!; [done|by apply or_comment_plain..].
Qed.

Lemma portable_strip n : portable n = true -> portable (stripComments n) = true.
Proof.
  induction n as [m v| |m c IH|m c IH] using Node_nested_ind; [|done|..].
  - cbn. unfold portable_meta. rewrite !andb_true_iff. cbn. tauto.
  - cbn [stripComments portable]. unfold portable_meta. rewrite !andb_true_iff, !forallb_forall. cbn [clear_comments Anchor HeadComment LineComment FootComment Tag Style].
    intros [? H]. split; [tauto|]. intros x (y & <- & Hin)%in_map_iff.
    rewrite Forall_forall in IH. apply IH; [by apply list_elem_of_In|by apply H].
  - cbn [stripComments]. rewrite !portable_mapping. intros [Hm Hc]. split.
    + unfold portable_meta in *. rewrite !andb_true_iff in *. cbn. tauto.
    + apply Forall_map. induction IH as [|[k v] c [Hk Hv] _ IHc]; [constructor|]. apply Forall_cons in Hc as [(H1 & H2 & H3) Hc].
      constructor; [|by apply IHc]. cbn in *. split_and!; [by destruct k|by apply Hk|by apply Hv].
Qed.

(** ** What a path leads to, and the keys on the way *)

Lemma portable_value m key v :
  portable m = true -> mappingValue m key = Some v -> legible key = true /\ portable v = true.
Proof.
  destruct m as [| | |mt c]; try done. rewrite portable_mapping. intros [_ Hc] E. cbn in E.
  induction Hc as [|[k x] c (H1 & H2 & H3) _ IH]; cbn in E; [done|]. destruct (String.eqb_spec (Value k) key) as [<-|_]; [|by apply IH].
  injection E as <-. split; [|done]. destruct k; try done. cbn in *. unfold portable_scalar in H2. rewrite !andb_true_iff in H2. tauto.
Qed.

Lemma portable_at segs n v :
  portable n = true -> nodeValueAt n segs = Some v -> Forall (fun seg => legible seg = true) segs /\ portable v = true.
Proof.
  revert n. induction segs as [|seg rest IH]; intros n Hn E; [done|]. destruct rest as [|seg' rest].
  - rewrite valueAt_single in E. destruct (portable_value n seg v) as [? ?]; [done..|]. by repeat constructor.
  - rewrite valueAt_cons in E. destruct (mappingValue n seg) as [c|] eqn:Ec; [|done].
    destruct (portable_value n seg c) as [? ?]; [done..|]. destruct (IH c) as [? ?]; [done..|]. by split; [constructor|].
Qed.

(** ** The store's edits *)

Lemma portable_key key : legible key = true -> portable (key_node key) = true.
Proof. intros H. cbn. unfold portable_scalar. by rewrite H. Qed.

Lemma portable_put m key v :
  portable m = true -> legible key = true -> portable v = true -> portable (mappingPut m key v) = true.
Proof.
  destruct m as [| | |mt c]; try done. cbn [mappingPut]. rewrite !portable_mapping. intros [Hm Hc] Hk Hv. split; [done|].
  induction Hc as [|[k old] c Hx Hc IH]; cbn [entry_put].
  - constructor; [|constructor]. split_and!; [done|by apply portable_key|done].
  - destruct (String.eqb (Value k) _); constructor; try done. destruct Hx as (? & ? & ?). split_and!; [done..|]. by apply portable_carry.
Qed.

Lemma portable_update m key f :
  portable m = true -> (forall v, mappingValue m key = Some v -> portable (f v) = true) -> portable (mappingUpdate m key f) = true.
Proof.
  destruct m as [| | |mt c]; try done. cbn [mappingUpdate mappingValue]. rewrite !portable_mapping. intros [Hm Hc] Hf. split; [done|].
  induction Hc as [|[k old] c Hx Hc IH]; cbn [entry_update entry_value] in *; [constructor|].
  destruct (String.eqb (Value k) _); constructor; try done; [|by apply IH]. destruct Hx as (? & ? & ?). split_and!; [done..|by apply Hf].
Qed.

Lemma portable_graft t segs g :
  portable t = true -> Forall (fun seg => legible seg = true) segs -> portable g = true -> portable (graft_at t segs g) = true.
Proof.
  intros Ht Hs Hg. revert t Ht. induction segs as [|seg rest IH]; intros t Ht; [done|]. apply Forall_cons in Hs as [Hk Hs].
  destruct rest as [|seg' rest]; [by apply portable_put|]. rewrite graft_cons. set (t' := if has_mapping t seg then t else _).
  assert (portable t' = true) as Ht' by (unfold t'; destruct (has_mapping t seg); [done|by apply portable_put]).
  apply portable_update; [done|]. intros v Hv. apply IH; [done|]. by eapply portable_value.
Qed.

Lemma portable_delete t segs t' : portable t = true -> nodeDeletePath t segs = Some t' -> portable t' = true.
Proof.
  revert t t'. induction segs as [|seg rest IH]; intros t t' Ht Hd; [done|]. destruct rest as [|seg' rest].
  - destruct t as [| | |mt c]; try done. rewrite delete_single in Hd. cbn [mappingDelete] in Hd.
    destruct (entry_delete seg c) as [c'|] eqn:E; [|done]. injection Hd as <-. rewrite portable_mapping in *. destruct Ht as [Hm Hc].
    split; [done|]. revert c' E. induction Hc as [|[k x] c Hx Hc IHc]; intros c' E; cbn in E; [done|].
    destruct (String.eqb (Value k) _); [by simplify_eq|]. destruct (entry_delete seg c) as [c''|]; simplify_eq/=.
    constructor; [done|]. by apply IHc.
  - rewrite delete_cons in Hd. destruct (mappingValue t seg) as [child|] eqn:E; [|done].
    destruct (isMapping child); [|done]. apply fmap_Some in Hd as (child' & Hd & ->).
    apply portable_update; [done|]. intros v _. eapply IH; [|done]. by eapply portable_value.
Qed.

Lemma portable_apply_delete node path : portable node = true -> portable (apply_delete node path) = true.
Proof.
  intros Hn. unfold apply_delete. destruct (nodeDeletePath node (segments path)) as [n'|] eqn:E; [|done].
  by eapply portable_delete.
Qed.

Lemma portable_apply_set merged node path :
  portable merged = true -> portable node = true -> portable (apply_set merged node path) = true.
Proof.
  intros Hm Hn. unfold apply_set. destruct (nodeValueAt merged (segments path)) as [v|] eqn:E; [|by apply portable_apply_delete].
  destruct (portable_at _ _ _ Hm E) as [? ?]. apply portable_graft; [done..|]. by apply portable_strip.
Qed.

Lemma portable_apply_ops merged node ops :
  portable merged = true -> portable node = true -> portable (apply_ops merged node ops) = true.
Proof.
  intros Hm Hn. unfold apply_ops.
  assert (H : forall (f : Node -> string -> Node) l n, (forall n p, portable n = true -> portable (f n p) = true) -> portable n = true ->
    portable (foldl f n l) = true) by (intros f l; induction l as [|p l IH]; cbn; eauto).
  apply H; [apply portable_apply_delete|]. apply H; [by intros; apply portable_apply_set|done].
Qed.

(** ** The header *)

Lemma portable_strip_header n h : portable n = true -> portable (stripHeaderLines n h) = true.
Proof.
  intros Hn. unfold stripHeaderLines. destruct (_ || _); [done|]. destruct (header_claims h) as [ps es].
  apply portable_with_meta; [done| |done..]. apply portable_meta_of in Hn. unfold portable_meta in *.
  rewrite !andb_true_iff in *. cbn. destruct Hn as [[[? Hh] ?] ?]. split_and!; try done.
  apply Join_chars; [done|]. apply Forall_forall. intros x [_ Hx]%list_elem_of_filter.
  pose proof (Split_chars nl printable _ Hh) as Hl. rewrite Forall_forall in Hl. by apply Hl.
Qed.

Lemma is_scalar_literal n : is_scalar (setLiteralStyle n) = is_scalar n.
Proof. destruct n as [m v| | |]; [|done..]. cbn [setLiteralStyle]. by destruct (_ && _). Qed.

Lemma portable_literal n : portable n = true -> portable (setLiteralStyle n) = true.
Proof.
  induction n as [m v| |m c IH|m c IH] using Node_nested_ind; [|done|..].
  - cbn [setLiteralStyle]. destruct (_ && _) eqn:E; [|done]. apply andb_true_iff in E as [Et _].
    cbn [portable]. unfold portable_scalar, portable_meta. cbn. rewrite Et, !andb_true_iff. cbn. tauto.
  - cbn [setLiteralStyle portable]. rewrite !andb_true_iff, !forallb_forall. intros [? H]. split; [done|].
    intros x (y & <- & Hin)%in_map_iff. rewrite Forall_forall in IH. apply IH; [by apply list_elem_of_In|by apply H].
  - cbn [setLiteralStyle]. rewrite !portable_mapping. intros [Hm Hc]. split; [done|].
    apply Forall_map. induction IH as [|[k v] c [Hk Hv] _ IHc]; [constructor|]. apply Forall_cons in Hc as [(H1 & H2 & H3) Hc].
    constructor; [|by apply IHc]. cbn [fst snd] in *. unfold portable_entry. cbn [fst snd]. split_and!; [by rewrite is_scalar_literal|by apply Hk|by apply Hv].
Qed.

Lemma portable_header n h : portable n = true -> plain_text h = true ->
  portable (with_meta n (mkMeta (Style (meta n)) (Tag (meta n)) (Anchor (meta n)) h (LineComment (meta n)) (FootComment (meta n)))) = true.
Proof.
  intros Hn Hh. apply portable_with_meta; [done| |done..]. apply portable_meta_of in Hn.
  unfold portable_meta in *. rewrite !andb_true_iff in *. cbn. tauto.
Qed.

Lemma is_scalar_strip_header n h : is_scalar (stripHeaderLines n h) = is_scalar n.
Proof. unfold stripHeaderLines. destruct (_ || _); [done|]. destruct (header_claims h). by destruct n. Qed.

(** The tree handed to the encoder. *)
Lemma portable_stamped n h n' :
  portable n = true -> plain_text h = true -> stamped n h = Some n' -> portable n' = true.
Proof.
  intros Hn Hh. unfold stamped. apply (portable_strip_header n h) in Hn. set (n0 := stripHeaderLines n h) in *.
  set (n1 := match n0 with MappingNode m ((k, v) :: c) => _ | _ => _ end).
  assert (portable n1 = true) as Hn1.
  { subst n1. destruct n0 as [| | |m [|[k v] c]]; try done. rewrite portable_mapping in *.
    destruct Hn as [? [(H1 & H2 & H3) ?]%Forall_cons]. split; [done|]. constructor; [|done].
    unfold portable_entry. cbn [fst snd] in *. split_and!; [by rewrite is_scalar_strip_header|by apply portable_strip_header|done]. }
  clearbody n1. set (n2 := if negb _ then _ else _).
  assert (portable n2 = true) as Hn2 by (subst n2; destruct (negb _); [by apply portable_header|done]).
  clearbody n2. intros E. assert (n' = setLiteralStyle n2) as -> by (destruct n2 as [| | |m [|kv c]]; congruence).
  by apply portable_literal.
Qed.

End Portable.

(** ** What the store relies on in the YAML library *)

(** The encoder writes any portable mapping, what it wrote reads back as one
    document with the same data, and a text of comment lines holds no
    document. *)
Class YamlLaws {Bytes} (resolves : string -> string) (yaml_decode : Bytes -> decoded) (yaml_encode : Node -> option Bytes)
    (bytes_of : string -> Bytes) : Prop := {
  yaml_roundtrip n : isMapping n = true -> portable resolves n = true ->
    exists b n', yaml_encode n = Some b /\ yaml_decode b = Documents (Some n') false /\ n' ≡ n;
  yaml_comment_only h : plain_text h = true -> yaml_decode (bytes_of (encodeCommentOnly h)) = NoDocument;
}.

End YamlPortable.
