(* ===== verification/StoreSpec.v ===== *)
(** * What the layered store guarantees

    The theorems about the operations of [LayeredStore]: mutations, writes,
    comments, single-field flushes and migrations. *)

From S2P Require Import Prelude GoStrings GoPath YamlNode YamlMerge Discover LayeredStore YamlPortable.
Import Go GoPath Yaml YamlMerge Discover LayeredStore YamlPortable.

Module StoreSpec.

(** ** Operations on one file *)

Lemma segments_nonempty path : segments path <> [].
Proof. destruct (Split_cons sep path) as (l & ls & E). unfold segments. by rewrite E. Qed.

Lemma unique_keys_strip n : unique_keys (stripComments n) <-> unique_keys n.
Proof. apply unique_keys_proper, erase_strip. Qed.

Lemma unique_keys_at n segs v : unique_keys n -> nodeValueAt n segs = Some v -> unique_keys v.
Proof.
  revert n. induction segs as [|seg rest IH]; intros n Hn E; [done|]. destruct rest as [|seg' rest].
  - rewrite valueAt_single in E. by eapply unique_keys_value.
  - rewrite valueAt_cons in E. destruct (mappingValue n seg) as [c|] eqn:Ec; [|done]. eapply IH; [|done].
    by eapply unique_keys_value.
Qed.

(** A mapping none of whose mappings has a key twice. *)
Definition good_tree (n : Node) : Prop := isMapping n = true /\ unique_keys n.

Lemma isMapping_delete n segs n' : nodeDeletePath n segs = Some n' -> isMapping n' = isMapping n.
Proof.
  destruct segs as [|seg [|seg' rest]]; [done| |].
  - rewrite delete_single. destruct n as [| | |m c]; try done. cbn. destruct (entry_delete seg c); [|done]. by intros [= <-].
  - rewrite delete_cons. destruct (mappingValue n seg) as [c|]; [|done]. destruct (isMapping c); [|done].
    intros (c' & _ & ->)%fmap_Some. apply isMapping_update.
Qed.

(** What a step leaves at its own path and everywhere else. *)
Record stepped (node : Node) (segs : list string) (v : option Node) (node' : Node) : Prop := {
  st_good : good_tree node';
  st_here : nodeValueAt node' segs ≡ v;
  st_other : forall q, diverge segs q -> nodeValueAt node' q = nodeValueAt node q;
}.

Lemma graft_stepped node segs v : good_tree node -> unique_keys v -> segs <> [] -> stepped node segs (Some v) (nodeGraftValue node segs v).
Proof.
  intros [Hm Hu] Hv Hs. unfold nodeGraftValue. split.
  - split; [by rewrite isMapping_graft|]. apply unique_keys_graft; [done|]. by apply unique_keys_strip.
  - etrans; [by apply valueAt_graft|]. constructor. apply erase_strip.
  - intros q Hq. by apply valueAt_graft_other.
Qed.

Lemma delete_stepped node path : good_tree node -> stepped node (segments path) None (apply_delete node path).
Proof.
  intros [Hm Hu]. unfold apply_delete. destruct (nodeDeletePath node (segments path)) as [n'|] eqn:E; cbn [default from_option id].
  - split; [split; [by rewrite (isMapping_delete _ _ _ E)|by eapply unique_keys_delete]| |].
    + rewrite (valueAt_delete _ _ _ Hu E). done.
    + intros q Hq. by eapply delete_path_other.
  - split; [done| |done]. by apply delete_path_None in E as ->.
Qed.

Lemma set_stepped merged node path :
  good_tree node -> unique_keys merged ->
  stepped node (segments path) (nodeValueAt merged (segments path)) (apply_set merged node path).
Proof.
  intros Hn Hm. unfold apply_set. destruct (nodeValueAt merged (segments path)) as [v|] eqn:E.
  - apply graft_stepped; [done|by eapply unique_keys_at|apply segments_nonempty].
  - by apply delete_stepped.
Qed.

(** A sequence of steps at pairwise diverging paths. *)
Lemma foldl_stepped {A} (f : Node -> A -> Node) (segs_of : A -> list string) (val : A -> option Node) l node :
  (forall n a, a ∈ l -> good_tree n -> stepped n (segs_of a) (val a) (f n a)) ->
  good_tree node ->
  good_tree (foldl f node l) /\
  (forall q, Forall (fun a => diverge (segs_of a) q) l -> nodeValueAt (foldl f node l) q = nodeValueAt node q).
Proof.
  revert node. induction l as [|a l IH]; intros node Hf Hn; cbn [foldl]; [done|].
  destruct (Hf node a ltac:(left) Hn) as [Hg _ Ho]. destruct (IH (f node a)) as [Hg' Ho']; [by intros; apply Hf; [right|]|done|]. split; [done|].
  intros q [Ha Hl]%Forall_cons. by rewrite Ho', Ho.
Qed.

Lemma foldl_stepped_at {A} (f : Node -> A -> Node) (segs_of : A -> list string) (val : A -> option Node) l1 a l2 node :
  (forall n b, b ∈ l1 ++ a :: l2 -> good_tree n -> stepped n (segs_of b) (val b) (f n b)) ->
  good_tree node -> Forall (fun b => diverge (segs_of b) (segs_of a)) l2 ->
  nodeValueAt (foldl f node (l1 ++ a :: l2)) (segs_of a) ≡ val a.
Proof.
  intros Hf Hn Hd. rewrite foldl_app. cbn [foldl].
  destruct (foldl_stepped f segs_of val l1 node) as [Hg _]; [by intros; apply Hf; [set_solver|]|done|].
  destruct (Hf _ a ltac:(set_solver) Hg) as [Hg' Hh _].
  destruct (foldl_stepped f segs_of val l2 _ ltac:(intros; apply Hf; [set_solver|done]) Hg') as [_ Ho]. by rewrite Ho.
Qed.

(** Paths none of which leads through another. *)
Definition independent (paths : list string) : Prop :=
  forall i j p q, i <> j -> paths !! i = Some p -> paths !! j = Some q -> diverge (segments p) (segments q).

Lemma diverge_sym a b : diverge a b -> diverge b a.
Proof. revert b. induction a as [|x a IH]; intros [|y b]; simpl; try done. intros [H|H]; [by left|right; by apply IH]. Qed.

Lemma independent_split l1 p l2 : independent (l1 ++ p :: l2) -> Forall (fun q => diverge (segments q) (segments p)) (l1 ++ l2).
Proof.
  intros H. assert ((l1 ++ p :: l2) !! length l1 = Some p) as Hp by (by apply list_lookup_middle).
  apply Forall_app. split; apply Forall_forall; intros q [i Hi]%list_elem_of_lookup.
  - apply (H i (length l1)); [apply lookup_lt_Some in Hi; lia|by apply lookup_app_l_Some|done].
  - apply (H (length l1 + S i)%nat (length l1)); [lia| |done]. rewrite lookup_app_r by lia.
    by replace (length l1 + S i - length l1)%nat with (S i) by lia.
Qed.

Lemma apply_ops_good merged node ops : good_tree node -> unique_keys merged -> good_tree (apply_ops merged node ops).
Proof.
  intros Hn Hm. unfold apply_ops.
  destruct (foldl_stepped (apply_set merged) segments (fun p => nodeValueAt merged (segments p)) (sets ops) node) as [Hg _]; [|done|].
  - intros n p _ Hg. by apply set_stepped.
  - by apply (foldl_stepped apply_delete segments (fun _ => None) (deletes ops) _ (fun n p _ => delete_stepped n p) Hg).
Qed.

(** Values put at some paths, then other paths removed. *)
Lemma folds_spec {A} (f : Node -> A -> Node) (name : A -> string) (val : A -> option Node) l dels node :
  (forall n a, a ∈ l -> good_tree n -> stepped n (segments (name a)) (val a) (f n a)) ->
  good_tree node -> independent ((name <$> l) ++ dels) ->
  let node' := foldl apply_delete (foldl f node l) dels in
  good_tree node' /\
  (forall a, a ∈ l -> nodeValueAt node' (segments (name a)) ≡ val a) /\
  (forall p, p ∈ dels -> nodeValueAt node' (segments p) = None) /\
  (forall q, Forall (fun p => diverge (segments p) q) ((name <$> l) ++ dels) -> nodeValueAt node' q = nodeValueAt node q).
Proof.
  intros Hset Hn Hi.
  assert (Hdel : forall n p, p ∈ dels -> good_tree n -> stepped n (segments p) None (apply_delete n p)) by (intros; by apply delete_stepped).
  destruct (foldl_stepped _ (segments ∘ name) _ l node Hset Hn) as [Hg Hgo].
  destruct (foldl_stepped _ segments _ dels _ Hdel Hg) as [Hg' Hdo]. split_and!; [done|..].
  - intros a (l1 & l2 & E)%list_elem_of_split. subst l. rewrite fmap_app, <- app_assoc in Hi. cbn in Hi.
    apply independent_split in Hi. apply Forall_app in Hi as [_ [H2 H3]%Forall_app]. apply Forall_fmap in H2.
    rewrite Hdo by done. by apply (foldl_stepped_at _ (segments ∘ name) val).
  - intros p (l1 & l2 & ->)%list_elem_of_split. rewrite app_assoc in Hi. apply independent_split in Hi.
    apply Forall_app in Hi as [_ H2].
    pose proof (foldl_stepped_at _ segments (fun _ => None) l1 p l2 _ Hdel Hg H2) as H. by inversion H.
  - intros q [H1%Forall_fmap H2]%Forall_app. by rewrite Hdo, Hgo.
Qed.

(** [apply_ops], path by path. *)
Lemma apply_ops_spec merged node ops :
  good_tree node -> unique_keys merged -> independent (sets ops ++ deletes ops) ->
  (forall p, p ∈ sets ops -> nodeValueAt (apply_ops merged node ops) (segments p) ≡ nodeValueAt merged (segments p)) /\
  (forall p, p ∈ deletes ops -> nodeValueAt (apply_ops merged node ops) (segments p) = None) /\
  (forall q, Forall (fun p => diverge (segments p) q) (sets ops ++ deletes ops) ->
     nodeValueAt (apply_ops merged node ops) q = nodeValueAt node q).
Proof.
  intros Hn Hm Hi.
  destruct (folds_spec (apply_set merged) id (fun p => nodeValueAt merged (segments p)) (sets ops) (deletes ops) node) as (_ & H);
    [by intros; apply set_stepped|done|by rewrite list_fmap_id|]. by rewrite list_fmap_id in H.
Qed.

(** ** The header *)

Lemma erase_strip_header n h : erase (stripHeaderLines n h) = erase n.
Proof.
  unfold stripHeaderLines. destruct (_ || _); [done|]. destruct (header_claims h). by destruct n.
Qed.

Lemma erase_literal n : erase (setLiteralStyle n) = erase n.
Proof.
  induction n as [m v| |m c IH|m c IH] using Node_nested_ind; simpl; [|done| |].
  - by destruct (_ && _).
  - f_equal. rewrite map_map. by apply map_ext_Forall.
  - f_equal. rewrite map_map. rewrite <- (map_entries_ext (fun n => erase (setLiteralStyle n)) erase) by done.
    by apply map_ext; intros [].
Qed.

(** The stamped node has the data of the node. *)
Lemma stamped_data n h :
  isMapping n = true ->
  match stamped n h with Some n' => n' ≡ n /\ isMapping n' = true | None => exists m, n = MappingNode m [] end.
Proof.
  intros Hn. unfold stamped. destruct n as [| | |m c]; try done.
  assert (exists m', stripHeaderLines (MappingNode m c) h = MappingNode m' c /\ erase_meta m' = erase_meta m) as (m' & -> & Em).
  { pose proof (erase_strip_header (MappingNode m c) h) as E. unfold stripHeaderLines in *. destruct (_ || _); [by eexists|].
    destruct (header_claims h). eexists. split; [done|]. done. }
  destruct c as [|[k v] c]; [by destruct (String.eqb h ""); eexists|].
  destruct (String.eqb h ""); cbn [negb]; cbn [with_meta]; (split; [|done]); unfold equiv, node_equiv; rewrite erase_literal; cbn [erase map];
    rewrite erase_strip_header; f_equal; rewrite <- Em; done.
Qed.

(** ** The store *)

Section Store.
Context {Any T Bytes GoVal : Type}.
Variable decode_any : Node -> option Any.
Variable DeepEqual : Any -> Any -> bool.
Variable decode_T : Node -> option T.
Variable zero : T.
Variable yaml_decode : Bytes -> decoded.
Variable yaml_encode : Node -> option Bytes.
Variable bytes_of : string -> Bytes.
Variable encode_value : GoVal -> option Node.
Variable go_kind : GoVal -> GoKind.
Variable opts : Options.
Variable tags : tagRegistry.

Abbreviation Store := (@Store T).
Abbreviation world := (world Bytes).
Abbreviation decodeNode := (decodeNode decode_T zero).
Abbreviation SetValue := (SetValue decode_T zero encode_value go_kind tags).
Abbreviation Remove := (Remove decode_T zero).
Abbreviation merged ls := (merge decode_any DeepEqual tags (l_node <$> ls)).
Abbreviation remerge := (remerge decode_any DeepEqual decode_T zero tags).
Abbreviation reload := (reload decode_any DeepEqual decode_T zero yaml_decode tags).
Abbreviation write := (write decode_any DeepEqual decode_T zero yaml_decode yaml_encode bytes_of opts tags).
Abbreviation WriteTo := (WriteTo decode_any DeepEqual decode_T zero yaml_decode yaml_encode bytes_of opts tags).
Abbreviation Write := (Write decode_any DeepEqual decode_T zero yaml_decode yaml_encode bytes_of opts tags).
Abbreviation WriteFieldTo := (WriteFieldTo decode_any DeepEqual decode_T zero yaml_decode yaml_encode bytes_of opts tags).
Abbreviation Refresh := (Refresh decode_any DeepEqual decode_T zero yaml_decode opts tags).
Abbreviation New := (New decode_any DeepEqual decode_T zero yaml_decode yaml_encode bytes_of opts tags).
Abbreviation loadNode := (loadNode yaml_decode).
Abbreviation writeLayerFile := (writeLayerFile yaml_decode yaml_encode bytes_of opts).
Abbreviation encodeNode := (encodeNode yaml_encode bytes_of opts).
Implicit Types s : Store.
Implicit Types w : world.

(** *** The snapshot *)

(** Readers see the decoding of the tree. *)
Definition coherent (s : Store) : Prop := isMapping (tree s) = true /\ decodeNode (tree s) = value s /\ migrating s = None.

Lemma merge_shape ls : isMapping (merged ls).1 = true.
Proof. rewrite merge_rec. apply merge_from_shape. Qed.

Lemma remerge_coherent s : coherent s -> coherent (remerge s).2.
Proof.
  intros (H1 & H2 & H3). unfold LayeredStore.remerge. pose proof (merge_shape (layers s)) as Hs.
  destruct (merged (layers s)) as [t p]. destruct (decodeNode t) as [v|] eqn:E; by split_and!.
Qed.

Lemma set_layers_coherent s ls : coherent s -> coherent (set_layers s ls).
Proof. done. Qed.

Lemma set_dirty_coherent s d : coherent s -> coherent (set_dirty s d).
Proof. done. Qed.

Lemma reload_coherent f s w written : coherent s -> coherent (reload f s w written).2.
Proof.
  intros Hs. unfold LayeredStore.reload. destruct (refreshLayers _ _ _ _ _) as [[] ls]; [|done].
  destruct (injectNewLayers _ _ _ _ _ _) as [[] ls']; [|done]. by apply remerge_coherent, set_layers_coherent.
Qed.

Lemma write_coherent f s w target : coherent s -> coherent (write f s w target).1.2.
Proof.
  intros Hs. unfold LayeredStore.write. destruct (bool_decide _); [done|].
  destruct (groupDirtyByDest _ _ _ _ _ _) as [[g|] w1]; [|done]. destruct (write_files _ _ _ _ _ _ _ _) as [[] w2]; [|done].
  pose proof (reload_coherent f (set_dirty s ∅) w2 (map_to_list g).*1 Hs) as H. by destruct (reload _ _ _ _).
Qed.

Lemma foldl_shape {A} (g : Node -> A -> Node) l t :
  (forall t a, isMapping t = true -> isMapping (g t a) = true) -> isMapping t = true -> isMapping (foldl g t l) = true.
Proof. intros Hg. revert t. induction l as [|a l IH]; intros t Ht; cbn; [done|]. by apply IH, Hg. Qed.

Lemma apply_delete_shape t p : isMapping t = true -> isMapping (apply_delete t p) = true.
Proof.
  intros Ht. unfold apply_delete. destruct (nodeDeletePath t _) as [t'|] eqn:E; [|done]. cbn. by rewrite (isMapping_delete _ _ _ E).
Qed.

Lemma restage_coherent s staged : coherent s -> coherent (restage decode_T zero s staged).2.
Proof.
  intros (H1 & H2 & H3). unfold restage. destruct staged as [ss ds].
  set (t := foldl apply_delete (foldl _ (tree s) ss) ds).
  assert (isMapping t = true) as Ht.
  { apply foldl_shape; [apply apply_delete_shape|]. apply foldl_shape; [|done].
    intros t0 [p n] H0. unfold nodeGraftValue. by rewrite isMapping_graft. }
  destruct ss, ds; try done; destruct (decodeNode t) as [v|] eqn:E; by split_and!.
Qed.

Lemma WriteFieldTo_coherent f s w path field : coherent s -> coherent (WriteFieldTo f s w path field).1.2.
Proof.
  intros Hs. unfold LayeredStore.WriteFieldTo. destruct (negb _); [done|]. destruct (dirtyPaths s !! field) as [op|]; [|done].
  destruct (writeLayerFile _ _ _ _ _) as [[] w1]; [|done].
  pose proof (reload_coherent f (set_dirty s (delete field (dirtyPaths s))) w1 [path] Hs) as H.
  destruct (reload _ _ _ _) as [[] s1]; [|done]. pose proof (restage_coherent s1 (captureStaged s field) H) as H'.
  by destruct (restage _ _ _ _).
Qed.

Lemma SetValue_coherent s path v : coherent s -> coherent (SetValue s path v).2.
Proof.
  intros (H1 & H2 & H3). unfold LayeredStore.SetValue. destruct (validatePath path); [|done]. destruct (validateKind _ _ _ _); [|done].
  destruct (encode_value v) as [n|]; [|done]. rewrite H3. destruct (decodeNode (nodeGraftValue _ _ _)) as [d|] eqn:E; [|done].
  split_and!; [|done..]. unfold nodeGraftValue. cbn. by rewrite isMapping_graft.
Qed.

Lemma Remove_coherent s path : coherent s -> coherent (Remove s path).2.
Proof.
  intros (H1 & H2 & H3). unfold LayeredStore.Remove. destruct (validatePath path); [|done].
  destruct (nodeDeletePath _ _) as [t|] eqn:Et; [|done]. rewrite H3. destruct (decodeNode t) as [d|] eqn:E; [|done].
  split_and!; [|done..]. cbn. by rewrite (isMapping_delete _ _ _ Et).
Qed.

Lemma MarkSeed_coherent s : coherent s -> coherent (MarkSeedForWrite s).
Proof.
  unfold MarkSeedForWrite. generalize (map_to_list (prov s)). intros l. revert s.
  induction l as [|[p i] l IH]; intros s Hs; cbn [foldl]; [done|]. apply IH.
  destruct (layers s !! i) as [x|]; [|done]. by destruct (l_virtual x).
Qed.

Lemma Refresh_coherent f s w : coherent s -> coherent (Refresh f s w).2.
Proof.
  intros Hs. unfold LayeredStore.Refresh. destruct (discover_layers _ _ _ _) as [ls|]; [|done].
  by apply remerge_coherent, set_dirty_coherent, set_layers_coherent.
Qed.

(** Any call on a store, under any faults, or a change of the world by others. *)
Inductive store_step : Store * world -> Store * world -> Prop :=
  | step_set s w path v : store_step (s, w) ((SetValue s path v).2, w)
  | step_remove s w path : store_step (s, w) ((Remove s path).2, w)
  | step_mark s w path : store_step (s, w) ((MarkForWrite s path).2, w)
  | step_seed s w : store_step (s, w) (MarkSeedForWrite s, w)
  | step_write f s w target : store_step (s, w) ((write f s w target).1.2, (write f s w target).2)
  | step_field f s w path field : store_step (s, w) ((WriteFieldTo f s w path field).1.2, (WriteFieldTo f s w path field).2)
  | step_refresh f s w : store_step (s, w) ((Refresh f s w).2, w)
  | step_world s w w' : store_step (s, w) (s, w').

Lemma store_step_coherent c c' : store_step c c' -> coherent c.1 -> coherent c'.1.
Proof.
  destruct 1; cbn [fst]; intros Hs;
    auto using SetValue_coherent, Remove_coherent, MarkSeed_coherent, write_coherent, WriteFieldTo_coherent, Refresh_coherent.
  unfold MarkForWrite. by destruct (validatePath path).
Qed.

Lemma stage_not_migrating idxs fns (s : Store) pending :
  migrating s = None -> isMapping (tree s) = true ->
  let s' := (stageMigratedLayers yaml_encode bytes_of opts idxs fns s pending).2 in
  migrating s' = None /\ tree s' = tree s.
Proof.
  revert s pending. induction idxs as [|i idxs IH]; intros s pending Hm Ht; cbn [stageMigratedLayers]; [done|].
  destruct (layers s !! i) as [l|]; [|done]. destruct (l_virtual l); [by apply IH|]. unfold migrateLayer.
  destruct (run_migrations _ _ _) as [[c|] s1]; [|done].
  destruct (negb _); [exact (IH (leave_layer (tree s) s1) _ eq_refl Ht)|]. destruct (layers s1 !! i) as [l'|]; [|done].
  destruct (encodeNode (l_node l')); [|done]. exact (IH (leave_layer (tree s) s1) _ eq_refl Ht).
Qed.

Lemma New_coherent f fns seed w s out w' : New f fns seed w = (Ok (s, out), w') -> coherent s.
Proof.
  unfold LayeredStore.New. destruct (discover_layers _ _ _ _) as [ls|]; [|done]. destruct (buildVirtualNode _ _ _ _ _ _ _) as [v|]; [|done].
  pose proof (merge_shape (ls ++ virtual_layers v)) as Hs. destruct (merged _) as [t p]. cbn [fst] in Hs.
  set (s0 := mkStore None t ∅ (ls ++ virtual_layers v) p None []).
  destruct (applyMigrations _ _ _ _ _ _ _ _ f fns s0 w) as [[[o|] s1] w1] eqn:E; [|done].
  assert (migrating s1 = None /\ isMapping (tree s1) = true) as [Hm Ht].
  { unfold applyMigrations in E. destruct fns as [|fn fns]; [by simplify_eq/=|].
    pose proof (stage_not_migrating (seq 0 (length (layers s0))) (fn :: fns) s0 [] eq_refl Hs) as Hst.
    destruct (stageMigratedLayers _ _ _ _ _ _ _) as [[pending|] s2]; [|done]. cbn [snd] in Hst. destruct Hst as [Hm2 Ht2].
    destruct (commitMigratedLayers _ _ _ _) as [failed w2]. destruct pending; [injection E as <- <- <-; cbn; split; [done|by rewrite Ht2]|].
    unfold LayeredStore.remerge in E. pose proof (merge_shape (layers s2)) as Hs2. destruct (merged (layers s2)) as [t2 p2].
    destruct (decodeNode t2) as [v2|]; [|done]. by simplify_eq/=. }
  destruct (decodeNode (tree s1)) as [v1|] eqn:Ev; [|done]. intros [= <- <- <-]. by split_and!.
Qed.

(** C23: Readers always see a consistent snapshot.  From construction on, through
    any sequence of calls (sets, removals, marks, writes, single-field flushes,
    refreshes, whatever fails in them) and any changes of the files by others,
    the published snapshot is the decoding of the current tree. *)
Theorem snapshot_coherent f fns seed w s out w1 c :
  New f fns seed w = (Ok (s, out), w1) -> rtc store_step (s, w1) c -> coherent c.1.
Proof.
  intros Hnew%New_coherent Hsteps. revert Hnew. change s with (s, w1).1.
  induction Hsteps as [|c1 c2 c3 H1 _ IH]; intros Hc; [done|]. apply IH. by eapply store_step_coherent.
Qed.

(** *** Writing one file *)

Variable resolves : string -> string.
Context `{!YamlLaws resolves yaml_decode yaml_encode bytes_of}.
Hypothesis Hheader : plain_text (Header opts) = true.

Abbreviation portable := (portable resolves).

(** The value a file has at a path: none when it does not exist or parse. *)
Definition file_value (w : world) (path : string) (q : list string) : option Node :=
  match loadNode no_faults w path with Ok n => nodeValueAt n q | Err _ => None end.

Lemma loadNode_files w w' path : files w !! path = files w' !! path -> loadNode no_faults w path = loadNode no_faults w' path.
Proof. unfold LayeredStore.loadNode. by intros ->. Qed.

Lemma encode_reads n :
  good_tree n -> portable n = true ->
  exists b n', encodeNode n = Some b /\ rootMapping yaml_decode b = Ok n' /\ good_tree n' /\
               forall q, nodeValueAt n' q ≡ nodeValueAt n q.
Proof.
  intros [Hm Hu] Hp. unfold LayeredStore.encodeNode. pose proof (stamped_data n (Header opts) Hm) as Hs.
  pose proof (portable_stamped resolves n (Header opts)) as Hst. destruct (stamped n (Header opts)) as [n1|].
  - destruct Hs as [Hd Hm1]. destruct (yaml_roundtrip n1 Hm1 (Hst n1 Hp Hheader eq_refl)) as (b & n' & Eb & Ed & Hd'). exists b, n'.
    assert (Hmn : isMapping n' = true) by (rewrite <- isMapping_erase, Hd', isMapping_erase; done).
    split; [done|]. unfold rootMapping. rewrite Ed, Hmn. split; [done|]. split.
    + split; [done|]. by rewrite Hd', Hd.
    + intros q. rewrite Hd', Hd. done.
  - destruct Hs as [m ->]. eexists _, newMapping. split; [done|]. unfold rootMapping. rewrite yaml_comment_only by done.
    split; [done|]. split; [split; [done|]; apply unique_keys_mapping; by repeat constructor|].
    intros q. by destruct q as [|? []].
Qed.

Lemma writeLayerFile_ok s w dest ops base :
  loadDestNode yaml_decode no_faults w dest = Ok base -> good_tree base -> portable base = true ->
  unique_keys (tree s) -> portable (tree s) = true ->
  exists w' n', writeLayerFile no_faults s w dest ops = (Ok tt, w') /\ loadNode no_faults w' dest = Ok n' /\ good_tree n' /\
    (forall q, nodeValueAt n' q ≡ nodeValueAt (apply_ops (tree s) base ops) q) /\
    (forall p, p <> dest -> files w' !! p = files w !! p).
Proof.
  intros Hl Hb Hbp Ht Htp. destruct (encode_reads (apply_ops (tree s) base ops)) as (b & n' & Eb & Er & Hg & Hv).
  { by apply apply_ops_good. } { by apply portable_apply_ops. }
  assert (LayeredStore.writeLayerFileLocked yaml_decode yaml_encode bytes_of opts no_faults s w dest ops =
          (Ok tt, mkWorld (<[dest := b]> (files w)) (list_to_set (walk_dirs (walk_fuel (Dir dest)) (Dir dest) "/") ∪ dirs w) (cwd w))) as Ew.
  { unfold writeLayerFileLocked. rewrite Hl, Eb. done. }
  eexists _, n'. split; [unfold LayeredStore.writeLayerFile, withLock; destruct (Lock opts); cbn; exact Ew|].
  split; [|split; [done|split; [done|]]].
  - unfold LayeredStore.loadNode. cbn [files]. by rewrite lookup_insert_eq.
  - intros p Hp. cbn [files]. by rewrite lookup_insert_ne.
Qed.

Lemma loadDest_files w w' dest : files w !! dest = files w' !! dest ->
  loadDestNode yaml_decode no_faults w dest = loadDestNode yaml_decode no_faults w' dest.
Proof. intros E. unfold loadDestNode. by rewrite (loadNode_files w w' dest E). Qed.

Lemma write_files_ok s grouped w (base : string -> Node) :
  unique_keys (tree s) -> portable (tree s) = true -> NoDup grouped.*1 ->
  (forall dest, dest ∈ grouped.*1 -> loadDestNode yaml_decode no_faults w dest = Ok (base dest) /\ good_tree (base dest) /\ portable (base dest) = true) ->
  exists w', write_files yaml_decode yaml_encode bytes_of opts no_faults s grouped w = (Ok tt, w') /\
    (forall dest ops, (dest, ops) ∈ grouped -> exists n', loadNode no_faults w' dest = Ok n' /\ good_tree n' /\
       forall q, nodeValueAt n' q ≡ nodeValueAt (apply_ops (tree s) (base dest) ops) q) /\
    (forall p, p ∉ grouped.*1 -> files w' !! p = files w !! p).
Proof.
  intros Ht Htp. revert w. induction grouped as [|[dest ops] grouped IH]; intros w Hn Hb; cbn [write_files].
  { exists w. split; [done|]. split; [set_solver|done]. }
  cbn [fmap list_fmap fst] in Hn, Hb. apply NoDup_cons in Hn as [Hd Hn]. destruct (Hb dest ltac:(left)) as (Hl & Hg & Hgp).
  destruct (writeLayerFile_ok s w dest ops (base dest) Hl Hg Hgp Ht Htp) as (w1 & n1 & -> & Hl1 & Hg1 & Hv1 & Ho1).
  destruct (IH w1 Hn) as (w' & Hw' & Hin & Hout).
  { intros d Hin. destruct (Hb d ltac:(by right)) as [Hld Hgd]. split; [|done]. rewrite <- Hld. apply loadDest_files, Ho1. by intros ->. }
  exists w'. split; [done|]. split.
  - intros d o [E|H]%elem_of_cons; [injection E as -> ->|by apply Hin]. exists n1.
    rewrite <- Hl1. split; [apply loadNode_files, Hout, Hd|done].
  - intros p Hp. cbn [fmap list_fmap fst] in Hp. apply not_elem_of_cons in Hp as [H1 H2]. rewrite Hout by done. by apply Ho1.
Qed.

(** *** Routing *)

Definition file_layer (l : layer) : bool := negb (String.eqb (l_path l) "").

(** Where a dirty path goes when there is a file to go to. *)
Definition dest_of (s : Store) (target path : string) : string :=
  let dest := if String.eqb target "" then layerPathForKey tags s path else target in
  if String.eqb dest "" then match find file_layer (layers s) with Some l => l_path l | None => "" end else dest.

Definition routable (s : Store) (target : string) : Prop := target <> "" \/ is_Some (find file_layer (layers s)).

Lemma route_dest f s w target path : routable s target -> route opts tags f s w target path = (Ok (dest_of s target path), w).
Proof.
  intros Hr. unfold route, dest_of. destruct (String.eqb_spec target "") as [->|Hne].
  - destruct (String.eqb _ ""); [|done]. unfold defaultWritePath. destruct Hr as [|[l Hl]]; [done|]. unfold file_layer in *. by rewrite Hl.
  - by apply String.eqb_neq in Hne as ->.
Qed.

Definition group_step (s : Store) (target : string) (g : gmap string fileOps) (x : string * dirtyOp) : gmap string fileOps :=
  <[dest_of s target x.1 := add_op x.2 x.1 (g !! dest_of s target x.1)]> g.

Lemma group_ops_fold f s target ops g w :
  routable s target -> group_ops opts tags f s target ops g w = (Ok (foldl (group_step s target) g ops), w).
Proof.
  intros Hr. revert g. induction ops as [|[p o] ops IH]; intros g; cbn [group_ops foldl]; [done|].
  rewrite route_dest by done. apply IH.
Qed.

(** Each file gets the paths routed to it, once. *)
Record grouping (s : Store) (target : string) (ops : list (string * dirtyOp)) (g : gmap string fileOps) : Prop := {
  gr_sets d o p : g !! d = Some o -> p ∈ sets o <-> (p, dirtySet) ∈ ops /\ dest_of s target p = d;
  gr_deletes d o p : g !! d = Some o -> p ∈ deletes o <-> (p, dirtyDeleted) ∈ ops /\ dest_of s target p = d;
  gr_once d o : g !! d = Some o -> NoDup (sets o ++ deletes o);
  gr_dest d : is_Some (g !! d) <-> exists p o, (p, o) ∈ ops /\ dest_of s target p = d;
}.

Lemma add_op_elem op path o p :
  (p ∈ sets (add_op op path o) <-> p ∈ sets (default (mkOps [] []) o) \/ (p = path /\ op = dirtySet)) /\
  (p ∈ deletes (add_op op path o) <-> p ∈ deletes (default (mkOps [] []) o) \/ (p = path /\ op = dirtyDeleted)).
Proof. unfold add_op. destruct op; cbn [sets deletes]; rewrite elem_of_app, list_elem_of_singleton; naive_solver. Qed.

Lemma add_op_once op path o :
  NoDup (sets (default (mkOps [] []) o) ++ deletes (default (mkOps [] []) o)) ->
  path ∉ sets (default (mkOps [] []) o) ++ deletes (default (mkOps [] []) o) ->
  NoDup (sets (add_op op path o) ++ deletes (add_op op path o)).
Proof.
  intros Hn Hp. assert (sets (add_op op path o) ++ deletes (add_op op path o) ≡ₚ
    path :: (sets (default (mkOps [] []) o) ++ deletes (default (mkOps [] []) o))) as ->; [|by constructor].
  unfold add_op. destruct op; cbn [sets deletes].
  - rewrite <- app_assoc. cbn. by rewrite Permutation_middle.
  - rewrite app_assoc. by rewrite Permutation_app_comm.
Qed.

Lemma grouping_fold s target ops : NoDup ops.*1 -> grouping s target ops (foldl (group_step s target) ∅ ops).
Proof.
  induction ops as [|[p0 o0] ops IH] using rev_ind; intros Hn.
  { cbn [foldl]. split; [by intros d o p ?%lookup_empty_Some|by intros d o p ?%lookup_empty_Some|by intros d o ?%lookup_empty_Some|].
    intros d. rewrite lookup_empty. split; [by intros [? ?]|set_solver]. }
  rewrite fmap_app in Hn. apply NoDup_app in Hn as (Hn & Hp0 & _). specialize (IH Hn). destruct IH as [G1 G2 G3 G4].
  assert (Hfresh : forall o, (p0, o) ∉ ops).
  { intros o Hin. apply (Hp0 p0); [by apply (list_elem_of_fmap_2 fst) in Hin|left]. }
  rewrite foldl_app. cbn [foldl]. set (g := foldl (group_step s target) ∅ ops) in *. unfold group_step. cbn [fst snd].
  set (d0 := dest_of s target p0).
  assert (Hold : forall o, g !! d0 = Some o -> p0 ∉ sets o ++ deletes o).
  { intros o Eo. rewrite elem_of_app, (G1 d0 o p0 Eo), (G2 d0 o p0 Eo). intros [[H _]|[H _]]; by eapply Hfresh. }
  split.
  - intros d o p. destruct (decide (d = d0)) as [->|Hd].
    + rewrite lookup_insert_eq. intros [= <-]. rewrite (proj1 (add_op_elem _ _ _ _)), elem_of_app, list_elem_of_singleton.
      destruct (g !! d0) as [o|] eqn:Eo; cbn [default from_option id].
      * rewrite (G1 d0 o p Eo). unfold d0 in *. naive_solver.
      * assert (forall o', (p, o') ∈ ops -> dest_of s target p = d0 -> False) as Hno.
        { intros o' Hin E. destruct (G4 d0) as [_ H]. rewrite Eo in H. destruct H as [? ?]; [by exists p, o'|done]. }
        cbn [sets]. unfold d0 in *. set_solver.
    + rewrite lookup_insert_ne by done. intros Eo. rewrite (G1 d o p Eo), elem_of_app, list_elem_of_singleton. unfold d0 in *. naive_solver.
  - intros d o p. destruct (decide (d = d0)) as [->|Hd].
    + rewrite lookup_insert_eq. intros [= <-]. rewrite (proj2 (add_op_elem _ _ _ _)), elem_of_app, list_elem_of_singleton.
      destruct (g !! d0) as [o|] eqn:Eo; cbn [default from_option id].
      * rewrite (G2 d0 o p Eo). unfold d0 in *. naive_solver.
      * assert (forall o', (p, o') ∈ ops -> dest_of s target p = d0 -> False) as Hno.
        { intros o' Hin E. destruct (G4 d0) as [_ H]. rewrite Eo in H. destruct H as [? ?]; [by exists p, o'|done]. }
        cbn [deletes]. unfold d0 in *. set_solver.
    + rewrite lookup_insert_ne by done. intros Eo. rewrite (G2 d o p Eo), elem_of_app, list_elem_of_singleton. unfold d0 in *. naive_solver.
  - intros d o. destruct (decide (d = d0)) as [->|Hd]; [|by rewrite lookup_insert_ne by done; apply G3].
    rewrite lookup_insert_eq. intros [= <-]. apply add_op_once; destruct (g !! d0) as [o|] eqn:Eo; cbn; [by apply (G3 d0)|constructor|by apply Hold|set_solver].
  - intros d. destruct (decide (d = d0)) as [->|Hd].
    + rewrite lookup_insert_eq. split; [intros _; exists p0, o0; split; [set_solver|done]|by eexists].
    + rewrite lookup_insert_ne, G4 by done. setoid_rewrite elem_of_app. setoid_rewrite list_elem_of_singleton. unfold d0 in *. naive_solver.
Qed.

(** *** Reloading *)

Lemma refreshLayers_ok w written ls :
  (forall p, p ∈ written -> exists n, loadNode no_faults w p = Ok n) ->
  exists ls', refreshLayers yaml_decode no_faults w written ls = (Ok tt, ls') /\ l_path <$> ls' = l_path <$> ls /\
    Forall (fun l => l_virtual l = false -> forall n, loadNode no_faults w (l_path l) = Ok n -> l_node l = n) ls'.
Proof.
  intros Hw. induction ls as [|l ls (ls' & E & Hp & Hf)]; cbn [refreshLayers]; [by exists []|].
  rewrite E. destruct (l_virtual l) eqn:Ev.
  { eexists. split; [done|]. split; [by cbn; f_equal|]. constructor; [|done]. intros Hv. congruence. }
  destruct (loadNode no_faults w (l_path l)) as [n|e] eqn:El.
  - eexists. split; [done|]. split; [by cbn; f_equal|]. constructor; [|done]. cbn. intros _ n' Hn. congruence.
  - case_bool_decide as Hin; [destruct (Hw _ Hin); congruence|]. eexists. split; [done|]. split; [by cbn; f_equal|].
    constructor; [|done]. intros _ n' Hn. congruence.
Qed.

Lemma insertFileLayer_perm l ls : insertFileLayer l ls ≡ₚ l :: ls.
Proof.
  induction ls as [|x ls IH]; cbn; [done|]. destruct (l_virtual x); [done|]. rewrite IH. by apply perm_swap.
Qed.

Lemma injectNewLayers_ok w known written ls :
  (forall p, p ∈ written -> exists n, loadNode no_faults w p = Ok n) ->
  Forall (fun l => l_virtual l = false -> forall n, loadNode no_faults w (l_path l) = Ok n -> l_node l = n) ls ->
  (forall p, p ∈ known -> p ∈ l_path <$> ls) ->
  exists ls', injectNewLayers yaml_decode no_faults w known written ls = (Ok tt, ls') /\
    (forall p, p ∈ written -> p ∈ l_path <$> ls') /\ (forall p, p ∈ l_path <$> ls -> p ∈ l_path <$> ls') /\
    Forall (fun l => l_virtual l = false -> forall n, loadNode no_faults w (l_path l) = Ok n -> l_node l = n) ls'.
Proof.
  revert ls. induction written as [|p written IH]; intros ls Hw Hf Hk; cbn [injectNewLayers].
  { exists ls. split; [done|]. split; [set_solver|done]. }
  case_bool_decide as Hin.
  - destruct (IH ls) as (ls' & E & H1 & H2 & H3); [intros; apply Hw; by right|done|done|]. exists ls'. split; [done|].
    split; [|done]. intros q [->|Hq]%elem_of_cons; [by apply H2, Hk|by apply H1].
  - destruct (Hw p) as [n En]; [left|]. rewrite En.
    set (l := mkLayer p (Base p) n false false).
    destruct (IH (insertFileLayer l ls)) as (ls' & E & H1 & H2 & H3); [intros; apply Hw; by right| | |].
    + rewrite insertFileLayer_perm. constructor; [|done]. cbn. intros _ n'. congruence.
    + intros q Hq. rewrite insertFileLayer_perm. right. by apply Hk.
    + exists ls'. split; [done|]. split; [|split; [|done]].
      * intros q [->|Hq]%elem_of_cons; [|by apply H1]. apply H2. rewrite insertFileLayer_perm. left.
      * intros q Hq. apply H2. rewrite insertFileLayer_perm. by right.
Qed.

(** The store agrees with the files: its tree is the merge of its layers, and
    each file layer has the file's data. *)
Definition synced (s : Store) (w : world) : Prop :=
  (tree s, prov s) = merged (layers s) /\
  Forall (fun l => l_virtual l = false -> forall n, loadNode no_faults w (l_path l) = Ok n -> l_node l = n) (layers s).

Lemma reload_ok s w written :
  (forall p, p ∈ written -> exists n, loadNode no_faults w p = Ok n) ->
  exists r s', reload no_faults s w written = (r, s') /\ dirtyPaths s' = dirtyPaths s /\
    (forall p, p ∈ written -> p ∈ l_path <$> layers s') /\
    (r = Err RemergeFailed \/ (r = Ok tt /\ synced s' w)).
Proof.
  intros Hw. unfold LayeredStore.reload.
  destruct (refreshLayers_ok w written (layers s) Hw) as (ls & -> & Hp & Hf).
  destruct (injectNewLayers_ok w (known_paths ls) written ls Hw Hf) as (ls' & -> & H1 & H2 & H3).
  { intros p. unfold known_paths. rewrite elem_of_list_to_set, list_elem_of_filter. by intros [_ ?]. }
  unfold LayeredStore.remerge. cbn [layers set_layers]. destruct (merged ls') as [t p] eqn:Em.
  destruct (decodeNode t) as [v|].
  - eexists _, _. split; [done|]. split; [done|]. split; [done|]. right. split; [done|]. split; [done|done].
  - eexists _, _. split; [done|]. split; [done|]. split; [done|]. by left.
Qed.

(** *** Writing the staged changes *)

(** No staged path leads through another. *)
Definition independent_dirty (s : Store) : Prop :=
  forall p q, is_Some (dirtyPaths s !! p) -> is_Some (dirtyPaths s !! q) -> p <> q -> diverge (segments p) (segments q).

(** A file a store can write to: absent, or a portable document without
    duplicate keys. *)
Definition writable_file (w : world) (path : string) : Prop :=
  match loadNode no_faults w path with Ok n => unique_keys n /\ portable n = true | Err e => e = NotExist end.

Lemma independent_subset s l :
  independent_dirty s -> NoDup l -> (forall p, p ∈ l -> is_Some (dirtyPaths s !! p)) -> independent l.
Proof.
  intros Hi Hn Hl i j p q Hij Hp Hq. apply Hi; [by eapply Hl, list_elem_of_lookup_2..|].
  intros ->. by apply Hij, (NoDup_lookup l i j q).
Qed.

Lemma loadNode_mapping f w path n : loadNode f w path = Ok n -> isMapping n = true.
Proof.
  unfold LayeredStore.loadNode, rootMapping. destruct (files w !! path) as [b|]; [|done]. destruct (unreadable f path); [done|].
  destruct (yaml_decode b) as [| |[r|] []]; try done; try (by intros [= <-]). destruct (isMapping r) eqn:E; [|done]. by intros [= <-].
Qed.

Definition file_base (w : world) (path : string) : Node :=
  match loadNode no_faults w path with Ok n => n | Err _ => newMapping end.

Lemma newMapping_good : good_tree newMapping.
Proof. split; [done|]. apply unique_keys_mapping. by repeat constructor. Qed.

Lemma writable_base w path : writable_file w path ->
  loadDestNode yaml_decode no_faults w path = Ok (file_base w path) /\ good_tree (file_base w path) /\
  portable (file_base w path) = true /\ forall q, nodeValueAt (file_base w path) q = file_value w path q.
Proof.
  unfold writable_file, file_base, loadDestNode, file_value.
  destruct (loadNode no_faults w path) as [n|e] eqn:E.
  - intros [Hu Hp]. split; [done|]. split; [|done]. split; [by eapply loadNode_mapping|done].
  - intros ->. split; [done|]. split; [apply newMapping_good|]. split; [done|]. by intros [|? []].
Qed.

Lemma grouping_dirty s target :
  grouping s target (map_to_list (dirtyPaths s)) (foldl (group_step s target) ∅ (map_to_list (dirtyPaths s))).
Proof. apply grouping_fold, NoDup_fst_map_to_list. Qed.

(** The files after a write, each the file before with its own staged paths. *)
Lemma grouped_written s target g w :
  grouping s target (map_to_list (dirtyPaths s)) g -> unique_keys (tree s) -> portable (tree s) = true -> independent_dirty s ->
  (forall p, is_Some (dirtyPaths s !! p) -> writable_file w (dest_of s target p)) ->
  exists w', write_files yaml_decode yaml_encode bytes_of opts no_faults s (map_to_list g) w = (Ok tt, w') /\
    (forall d, d ∈ (map_to_list g).*1 -> exists n, loadNode no_faults w' d = Ok n) /\
    (forall d o, g !! d = Some o -> independent (sets o ++ deletes o) /\
       forall q, file_value w' d q ≡ nodeValueAt (apply_ops (tree s) (file_base w d) o) q) /\
    (forall d, g !! d = None -> files w' !! d = files w !! d).
Proof.
  intros [G1 G2 G3 G4] Ht Htp Hi Hw.
  assert (Hdom : forall d, d ∈ (map_to_list g).*1 <-> is_Some (g !! d)).
  { intros d. rewrite list_elem_of_fmap. split.
    - intros ([d' o] & -> & Ho%elem_of_map_to_list). by exists o.
    - intros [o Ho]. exists (d, o). split; [done|]. by apply elem_of_map_to_list. }
  destruct (write_files_ok s (map_to_list g) w (file_base w) Ht Htp) as (w' & Ew & Hin & Hout).
  { apply NoDup_fst_map_to_list. }
  { intros d (p & o & Hp%elem_of_map_to_list & <-)%Hdom%G4. by destruct (writable_base w (dest_of s target p)) as (? & ? & ? & _); [apply Hw; eexists|]. }
  exists w'. split; [done|]. split_and!.
  - intros d [o Ho]%Hdom. destruct (Hin d o) as (n & Hn & _); [by apply elem_of_map_to_list|]. by exists n.
  - intros d o Ho. split.
    + apply (independent_subset s); [done|by apply (G3 d)|]. intros p.
      rewrite elem_of_app, (G1 d o p Ho), (G2 d o p Ho), !elem_of_map_to_list. intros [[H _]|[H _]]; by eexists.
    + destruct (Hin d o) as (n & Hn & _ & Hv); [by apply elem_of_map_to_list|]. unfold file_value. by rewrite Hn.
  - intros d Hd. apply Hout. rewrite Hdom, Hd. by intros [? ?].
Qed.

(** C13: A write whose file operations all succeed flushes every staged change
    to the file it is routed to, and nothing else.  The staged paths lead
    through no other, there is a file to route to, and the merged tree and the
    destination files (absent, or documents without duplicate keys) are of the
    kind the YAML library reads back as it wrote it: ASCII text, block
    collections, standard tags, no anchors or aliases.  Then after the call each
    staged set has the value of the merged tree in its file, each staged removal
    is absent from its file, every value of every file off the staged paths is
    as before, nothing is staged any more, and the store is the merge of its
    layers as they now are on disk (unless that merge no longer fits the schema,
    which the call reports). *)
Theorem write_persists s w target :
  unique_keys (tree s) -> portable (tree s) = true -> dirtyPaths s <> ∅ -> routable s target -> independent_dirty s ->
  (forall p, is_Some (dirtyPaths s !! p) -> writable_file w (dest_of s target p)) ->
  exists r s' w', write no_faults s w target = (r, s', w') /\
    (forall p, dirtyPaths s !! p = Some dirtySet ->
       file_value w' (dest_of s target p) (segments p) ≡ nodeValueAt (tree s) (segments p)) /\
    (forall p, dirtyPaths s !! p = Some dirtyDeleted -> file_value w' (dest_of s target p) (segments p) = None) /\
    (forall d q, (forall p, is_Some (dirtyPaths s !! p) -> dest_of s target p = d -> diverge (segments p) q) ->
       file_value w' d q ≡ file_value w d q) /\
    dirtyPaths s' = ∅ /\ (r = Err RemergeFailed \/ (r = Ok tt /\ synced s' w')).
Proof.
  intros Ht Htp Hd Hr Hi Hw. set (ops := map_to_list (dirtyPaths s)).
  pose proof (grouping_dirty s target) as G. fold ops in G. set (g := foldl (group_step s target) ∅ ops) in *.
  destruct (grouped_written s target g w G Ht Htp Hi Hw) as (w' & Ew & Hread & Hval & Hout). destruct G as [G1 G2 G3 G4].
  destruct (reload_ok (set_dirty s ∅) w' (map_to_list g).*1 Hread) as (r & s' & Er & Hs' & _ & Hres).
  assert (Hbase : forall p d, is_Some (dirtyPaths s !! p) -> dest_of s target p = d -> good_tree (file_base w d)).
  { intros p d Hp <-. by destruct (writable_base w _ (Hw p Hp)) as (_ & ? & _). }
  assert (Hdest : forall p o, dirtyPaths s !! p = Some o -> exists go, g !! dest_of s target p = Some go).
  { intros p o Hp. apply G4. exists p, o. split; [by apply elem_of_map_to_list|done]. }
  exists r, s', w'. split_and!.
  - unfold LayeredStore.write, groupDirtyByDest. rewrite bool_decide_false by done. fold ops.
    rewrite group_ops_fold by done. fold g. by rewrite Ew, Er.
  - intros p Hp. destruct (Hdest p _ Hp) as [go Hgo]. destruct (Hval _ _ Hgo) as [Hgi ->].
    destruct (apply_ops_spec (tree s) (file_base w (dest_of s target p)) go) as (H & _ & _); [by eapply Hbase|done|done|].
    apply H, (G1 _ _ _ Hgo). split; [by apply elem_of_map_to_list|done].
  - intros p Hp. destruct (Hdest p _ Hp) as [go Hgo]. destruct (Hval _ _ Hgo) as [Hgi Hq].
    destruct (apply_ops_spec (tree s) (file_base w (dest_of s target p)) go) as (_ & H & _); [by eapply Hbase|done|done|].
    specialize (Hq (segments p)). rewrite H in Hq; [by inversion Hq|]. apply (G2 _ _ _ Hgo). split; [by apply elem_of_map_to_list|done].
  - intros d q Hq. destruct (g !! d) as [go|] eqn:Hgo.
    + destruct (Hval _ _ Hgo) as [Hgi ->]. destruct (proj1 (G4 d)) as (p & o & Hp%elem_of_map_to_list & Hdp); [by eexists|].
      assert (writable_file w d) as Hwd by (rewrite <- Hdp; apply Hw; by eexists).
      destruct (writable_base w d Hwd) as (_ & Hg & _ & Hfv).
      destruct (apply_ops_spec (tree s) (file_base w d) go) as (_ & _ & H); [done|done|done|]. rewrite H, Hfv; [done|].
      apply Forall_forall. intros p'. rewrite elem_of_app, (G1 _ _ _ Hgo), (G2 _ _ _ Hgo). unfold ops. rewrite !elem_of_map_to_list.
      intros [[Hp' E]|[Hp' E]]; by apply Hq; [eexists|].
    + unfold file_value. by rewrite (loadNode_files w' w d) by (by apply Hout).
  - done.
  - done.
Qed.

(** *** Staging a change *)

(** [Set] either stages the change or does nothing.  On success the value is
    at its path, values off that path are untouched, the path is recorded for
    the next write, the snapshot is the decoding of the new tree, and layers
    and provenance are unchanged.  On any error (a bad path, a kind the schema
    does not accept, a tree that no longer decodes) the store is unchanged. *)
Theorem SetValue_spec s path v :
  coherent s -> unique_keys (tree s) -> (forall n, encode_value v = Some n -> unique_keys n) ->
  match SetValue s path v with
  | (Ok _, s') =>
      exists n, encode_value v = Some n /\ nodeValueAt (tree s') (segments path) ≡ Some n /\ unique_keys (tree s') /\
        (forall q, diverge (segments path) q -> nodeValueAt (tree s') q = nodeValueAt (tree s) q) /\
        dirtyPaths s' = <[path := dirtySet]> (dirtyPaths s) /\
        value s' = decodeNode (tree s') /\ is_Some (value s') /\ layers s' = layers s /\ prov s' = prov s
  | (Err _, s') => s' = s
  end.
Proof.
  intros (Hm & Hv & Hg) Hu He. unfold LayeredStore.SetValue. destruct (validatePath path); [|done]. destruct (validateKind _ _ _ _); [|done].
  destruct (encode_value v) as [n|]; [|done]. rewrite Hg. destruct (decodeNode (nodeGraftValue _ _ _)) as [d|] eqn:E; [|done].
  destruct (graft_stepped (tree s) (segments path) n) as [[_ Hu'] Hh Ho]; [done|by apply He|apply segments_nonempty|].
  exists n. cbn. split_and!; try done.
Qed.

(** [Remove] likewise; [false] is a path that was absent. *)
Lemma Remove_spec s path :
  coherent s -> unique_keys (tree s) ->
  match Remove s path with
  | (Ok true, s') =>
      is_Some (nodeValueAt (tree s) (segments path)) /\ nodeValueAt (tree s') (segments path) = None /\ unique_keys (tree s') /\
        (forall q, diverge (segments path) q -> nodeValueAt (tree s') q = nodeValueAt (tree s) q) /\
        dirtyPaths s' = <[path := dirtyDeleted]> (dirtyPaths s) /\ value s' = decodeNode (tree s') /\ layers s' = layers s
  | (Ok false, s') => s' = s /\ nodeValueAt (tree s) (segments path) = None
  | (Err _, s') => s' = s
  end.
Proof.
  intros (Hm & Hv & Hg) Hu. unfold LayeredStore.Remove. destruct (validatePath path); [|done].
  pose proof (delete_path_None (tree s) (segments path)) as Hnone.
  pose proof (delete_stepped (tree s) path (conj Hm Hu)) as Hst. unfold apply_delete in Hst.
  destruct (nodeDeletePath _ _) as [t|]; [|by split; [|apply Hnone]]. cbn in Hst. destruct Hst as [[_ Hu'] Hh Ho].
  rewrite Hg. destruct (decodeNode t) as [d|] eqn:E; [|done]. cbn. split_and!; try done.
  - destruct (nodeValueAt (tree s) (segments path)); [done|]. destruct Hnone as [_ H]. by specialize (H eq_refl).
  - by inversion Hh.
Qed.

(** *** Comments *)

(** Writing into a file never brings in comments: whatever the merged tree
    carries from other layers, the comments of the rewritten file are among the
    comments it had. *)
Theorem apply_ops_comments (merged node : Node) ops : comments (apply_ops merged node ops) ⊆ comments node.
Proof.
  assert (Hdel : forall n p, comments (apply_delete n p) ⊆ comments n).
  { intros n p. unfold apply_delete. destruct (nodeDeletePath n _) as [n'|] eqn:E; [|done]. by apply comments_delete in E. }
  assert (Hset : forall n p, comments (apply_set merged n p) ⊆ comments n).
  { intros n p. unfold apply_set. destruct (nodeValueAt merged _); [|apply Hdel]. apply comments_graft, comments_strip. }
  assert (Hfold : forall (f : Node -> string -> Node) l n, (forall n p, comments (f n p) ⊆ comments n) -> comments (foldl f n l) ⊆ comments n).
  { intros f l. induction l as [|p l IH]; intros n Hf; cbn [foldl]; [done|]. etrans; [by apply IH|apply Hf]. }
  unfold apply_ops. etrans; by apply Hfold.
Qed.

(** *** Flushing one field *)

(** Every file that parses has no duplicate keys. *)
Definition unique_world (w : world) : Prop := forall p n, loadNode no_faults w p = Ok n -> unique_keys n.
Definition unique_layers (ls : list layer) : Prop := Forall (fun l => unique_keys (l_node l)) ls.

Lemma refreshLayers_unique w written ls r ls' :
  unique_world w -> unique_layers ls -> refreshLayers yaml_decode no_faults w written ls = (r, ls') -> unique_layers ls'.
Proof.
  intros Hw Hl. revert r ls'. induction Hl as [|l ls Hl Hls IH]; intros r ls'; cbn [refreshLayers]; [by intros [= <- <-]; constructor|].
  destruct (refreshLayers _ _ _ _ ls) as [r1 ls1] eqn:E. specialize (IH _ _ eq_refl).
  destruct (l_virtual l); [by intros [= <- <-]; constructor|].
  destruct (loadNode no_faults w (l_path l)) as [n|e] eqn:El.
  - intros [= <- <-]. constructor; [cbn; by eapply Hw|done].
  - case_bool_decide; intros [= <- <-]; by constructor.
Qed.

Lemma injectNewLayers_unique w known written ls r ls' :
  unique_world w -> unique_layers ls -> injectNewLayers yaml_decode no_faults w known written ls = (r, ls') -> unique_layers ls'.
Proof.
  intros Hw. revert ls. induction written as [|p written IH]; intros ls Hl; cbn [injectNewLayers]; [by intros [= <- <-]|].
  case_bool_decide; [by apply IH|]. destruct (loadNode no_faults w p) as [n|e] eqn:El; [|by intros [= <- <-]].
  apply IH. unfold unique_layers. rewrite insertFileLayer_perm. constructor; [cbn; by eapply Hw|done].
Qed.

Lemma reload_unique s w written r s' :
  unique_world w -> unique_layers (layers s) -> unique_keys (tree s) -> reload no_faults s w written = (r, s') -> unique_keys (tree s').
Proof.
  intros Hw Hl Ht. unfold LayeredStore.reload.
  destruct (refreshLayers _ _ _ _ _) as [[] ls] eqn:E1; [|by intros [= <- <-]]. apply refreshLayers_unique in E1; [|done..].
  destruct (injectNewLayers _ _ _ _ _ _) as [[] ls'] eqn:E2; [|by intros [= <- <-]]. apply injectNewLayers_unique in E2; [|done..].
  unfold LayeredStore.remerge. cbn [layers set_layers]. pose proof (merge_from_unique decode_any DeepEqual tags 0 (l_node <$> ls')) as Hu.
  rewrite <- merge_rec in Hu. destruct (merged ls') as [t p]. destruct (decodeNode t); [|by intros [= <- <-]].
  intros [= <- <-]. apply Hu. by apply Forall_fmap.
Qed.

Lemma capture_fold s exclude l :
  NoDup l.*1 ->
  let '(ss, ds) := foldl (capture_step s exclude) ([], []) l in
  (forall p n, (p, n) ∈ ss <-> p <> exclude /\ (p, dirtySet) ∈ l /\ nodeValueAt (tree s) (segments p) = Some n) /\
  (forall p, p ∈ ds <-> p <> exclude /\ (p, dirtyDeleted) ∈ l) /\
  NoDup (ss.*1 ++ ds).
Proof.
  induction l as [|[p0 o0] l IH] using rev_ind; intros Hn.
  { cbn. split_and!; [set_solver..|constructor]. }
  rewrite fmap_app in Hn. apply NoDup_app in Hn as (Hn & Hfresh & _). specialize (IH Hn).
  rewrite foldl_app. destruct (foldl _ _ l) as [ss ds]. destruct IH as (H1 & H2 & H3). cbn [foldl capture_step].
  assert (Hp0 : forall o, (p0, o) ∉ l).
  { intros o Hin. apply (Hfresh p0); [by apply (list_elem_of_fmap_2 fst) in Hin|left]. }
  assert (Hnew : p0 ∉ ss.*1 ++ ds).
  { rewrite elem_of_app, list_elem_of_fmap. intros [([p n] & -> & (_ & H & _)%H1)|(_ & H)%H2]; by eapply Hp0. }
  destruct (String.eqb_spec p0 exclude) as [->|Hne]; [|destruct o0; [destruct (nodeValueAt (tree s) (segments p0)) as [n0|] eqn:E0|]].
  - split_and!; [| |done]; intros; [rewrite H1|rewrite H2]; set_solver.
  - split_and!.
    + intros p n. rewrite !elem_of_app, !list_elem_of_singleton, H1. naive_solver.
    + intros p. rewrite !elem_of_app, !list_elem_of_singleton, H2. naive_solver.
    + rewrite fmap_app, <- app_assoc. cbn. by rewrite <- Permutation_middle; constructor.
  - split_and!; [| |done].
    + intros p n. rewrite !elem_of_app, !list_elem_of_singleton, H1. naive_solver.
    + intros p. rewrite !elem_of_app, !list_elem_of_singleton, H2. naive_solver.
  - split_and!.
    + intros p n. rewrite !elem_of_app, !list_elem_of_singleton, H1. naive_solver.
    + intros p. rewrite !elem_of_app, !list_elem_of_singleton, H2. naive_solver.
    + rewrite app_assoc, Permutation_app_comm. by constructor.
Qed.

Lemma captureStaged_spec s exclude ss ds :
  captureStaged s exclude = (ss, ds) ->
  (forall p n, (p, n) ∈ ss <-> p <> exclude /\ dirtyPaths s !! p = Some dirtySet /\ nodeValueAt (tree s) (segments p) = Some n) /\
  (forall p, p ∈ ds <-> p <> exclude /\ dirtyPaths s !! p = Some dirtyDeleted) /\
  NoDup (ss.*1 ++ ds).
Proof.
  intros E. pose proof (capture_fold s exclude _ (NoDup_fst_map_to_list (dirtyPaths s))) as H.
  unfold captureStaged in E. rewrite E in H. by setoid_rewrite elem_of_map_to_list in H.
Qed.

Lemma restage_spec s ss ds s' :
  good_tree (tree s) -> (forall p n, (p, n) ∈ ss -> unique_keys n) -> independent (ss.*1 ++ ds) ->
  restage decode_T zero s (ss, ds) = (Ok tt, s') ->
  (forall p n, (p, n) ∈ ss -> nodeValueAt (tree s') (segments p) ≡ Some n) /\
  (forall p, p ∈ ds -> nodeValueAt (tree s') (segments p) = None) /\
  (forall q, Forall (fun p => diverge (segments p) q) (ss.*1 ++ ds) -> nodeValueAt (tree s') q = nodeValueAt (tree s) q) /\
  dirtyPaths s' = dirtyPaths s.
Proof.
  intros Ht Hu Hi Hr. assert (tree s' = foldl apply_delete (foldl (fun t '(path, n) => nodeGraftValue t (segments path) n) (tree s) ss) ds /\
    dirtyPaths s' = dirtyPaths s) as [-> ->].
  { unfold restage in Hr. destruct ss as [|x ss], ds as [|d ds]; [by simplify_eq|..];
      destruct (decodeNode _); simplify_eq/=; done. }
  destruct (folds_spec (fun t '(path, n) => nodeGraftValue t (segments path) n) fst (Some ∘ snd) ss ds (tree s)) as (_ & H1 & H2 & H3).
  { intros n [p v] Hin Hg. apply graft_stepped; [done|by eapply Hu|apply segments_nonempty]. }
  { done. } { done. }
  split_and!; try done. intros p n Hin. apply (H1 (p, n) Hin).
Qed.

(** The world after one file is rewritten still has no duplicate keys. *)
Lemma unique_world_write w w' dest n :
  unique_world w -> loadNode no_faults w' dest = Ok n -> unique_keys n -> (forall p, p <> dest -> files w' !! p = files w !! p) -> unique_world w'.
Proof.
  intros Hw Hd Hn Ho p m Hm. destruct (decide (p = dest)) as [->|Hne]; [congruence|].
  apply (Hw p). by rewrite <- (loadNode_files w' w p (Ho p Hne)).
Qed.

Lemma single_op merged base op field :
  good_tree base -> unique_keys merged ->
  stepped base (segments field) (match op with dirtySet => nodeValueAt merged (segments field) | dirtyDeleted => None end)
    (apply_ops merged base (add_op op field None)).
Proof. intros Hb Hm. destruct op; [by apply set_stepped|by apply delete_stepped]. Qed.

(** What is staged besides [field], in the tree. *)
Definition still_staged (s s' : Store) (field : string) : Prop :=
  (forall p n, p <> field -> dirtyPaths s !! p = Some dirtySet -> nodeValueAt (tree s) (segments p) = Some n ->
     nodeValueAt (tree s') (segments p) ≡ Some n) /\
  (forall p, p <> field -> dirtyPaths s !! p = Some dirtyDeleted -> nodeValueAt (tree s') (segments p) = None).

Lemma restage_staged s s1 s' field :
  unique_keys (tree s) -> independent_dirty s -> good_tree (tree s1) ->
  restage decode_T zero s1 (captureStaged s field) = (Ok tt, s') -> still_staged s s' field /\ dirtyPaths s' = dirtyPaths s1.
Proof.
  intros Hu Hi H1 Hr. destruct (captureStaged s field) as [ss ds] eqn:E. apply captureStaged_spec in E as (Hs & Hd & Hn).
  apply restage_spec in Hr as (R1 & R2 & _ & R4); [|done| |].
  - split; [|done]. split; intros; [eapply R1|eapply R2]; [apply Hs|apply Hd]; done.
  - intros p n (_ & _ & H)%Hs. by eapply unique_keys_at.
  - apply (independent_subset s); [done|done|]. intros p. rewrite elem_of_app, list_elem_of_fmap.
    intros [([q n] & -> & (_ & H & _)%Hs)|(_ & H)%Hd]; by eexists.
Qed.

(** Flushing one field to a file writes that field and nothing else, and
    keeps the other staged changes: the file gets the field's value (or loses
    it), its other values and all other files are as before, exactly the field
    is no longer staged, and when the call succeeds every other staged value is
    still in the store's tree and every other staged removal still absent. *)
Theorem WriteFieldTo_isolates s w path field op :
  coherent s -> unique_keys (tree s) -> portable (tree s) = true -> unique_layers (layers s) -> unique_world w -> independent_dirty s ->
  IsAbs path = true -> dirtyPaths s !! field = Some op -> writable_file w path ->
  exists r s' w', WriteFieldTo no_faults s w path field = (r, s', w') /\
    file_value w' path (segments field) ≡ match op with dirtySet => nodeValueAt (tree s) (segments field) | dirtyDeleted => None end /\
    (forall q, diverge (segments field) q -> file_value w' path q ≡ file_value w path q) /\
    (forall p, p <> path -> files w' !! p = files w !! p) /\
    dirtyPaths s' = delete field (dirtyPaths s) /\
    (r = Ok tt -> still_staged s s' field).
Proof.
  intros Hc Hu Hup Hl Huw Hi Habs Hop Hw. destruct (writable_base w path Hw) as (Hb & Hg & Hgp & Hfv).
  destruct (writeLayerFile_ok s w path (add_op op field None) (file_base w path) Hb Hg Hgp Hu Hup) as (w' & n' & Ew & Hn' & [Hm' Hu'] & Hv & Ho).
  destruct (single_op (tree s) (file_base w path) op field Hg Hu) as [_ Hh Hother].
  set (s0 := set_dirty s (delete field (dirtyPaths s))).
  destruct (reload_ok s0 w' [path]) as (r & s1 & Er & Hd1 & _ & Hres); [by intros p ->%list_elem_of_singleton; exists n'|].
  assert (good_tree (tree s1)) as Hs1.
  { pose proof (reload_coherent no_faults s0 w' [path] Hc) as Hc1. rewrite Er in Hc1. destruct Hc1 as (Hm1 & _ & _).
    split; [exact Hm1|]. eapply (reload_unique s0); [by eapply unique_world_write|done..]. }
  assert (file_value w' path (segments field) ≡ match op with dirtySet => nodeValueAt (tree s) (segments field) | dirtyDeleted => None end) as Hhere.
  { unfold file_value. rewrite Hn', Hv. exact Hh. }
  assert (forall q, diverge (segments field) q -> file_value w' path q ≡ file_value w path q) as Hframe.
  { intros q Hq. rewrite <- Hfv. unfold file_value. by rewrite Hn', Hv, Hother. }
  destruct (WriteFieldTo no_faults s w path field) as [[r' s'] w''] eqn:E. unfold LayeredStore.WriteFieldTo in E.
  rewrite Habs, Hop in E. cbn [negb] in E. rewrite Ew in E. fold s0 in E. rewrite Er in E. exists r', s', w''.
  destruct r as [[]|e].
  - destruct (restage _ _ s1 _) as [r2 s2] eqn:E2. injection E as <- <- <-. split_and!; try done.
    + destruct r2 as [[]|]; [apply restage_staged in E2 as [_ ->]; by rewrite ?Hd1|].
      pose proof (f_equal (fun x => dirtyPaths x.2) E2) as Hd2. cbn in Hd2. rewrite <- Hd2. unfold restage.
      destruct (captureStaged s field) as [[|? ?] [|? ?]]; try destruct (decodeNode _); done.
    + intros ->. by apply restage_staged in E2 as [? _].
  - by injection E as <- <- <-.
Qed.

End Store.

(** ** A project with a local override *)

(** Files hold trees; a text of comments holds nothing. *)
Definition demo_bytes : Type := Node + string.
Definition demo_read (b : demo_bytes) : decoded := match b with inl n => Documents (Some n) false | inr _ => NoDocument end.
Definition demo_encode (n : Node) : option demo_bytes := Some (inl n).

Definition demo_resolves (s : string) : string := "!!str".

Instance demo_yaml : YamlLaws demo_resolves demo_read demo_encode inr.
Proof. split; [|done]. intros n _ _. by exists (inl n), n. Qed.

Definition project_only : Node := obj [("name", scalar "project"); ("agent", obj [("editor", scalar "vim"); ("shell", scalar "zsh")])].
Definition local_only : Node := obj [("name", scalar "local")].
Definition demo_files : world demo_bytes :=
  mkWorld {[ "/p/clawker.local.yaml" := inl local_only; "/p/clawker.yaml" := inl project_only ]} {[ "/p" ]} (Some "/p").
Definition demo_opts : Options := mkOptions ["clawker.local.yaml"; "clawker.yaml"] "" "" [] ["/p"] false true "" "".

Abbreviation demo_set := (SetValue (T := Node) Some newMapping (Some ∘ scalar) (fun _ => GoString) ∅).
Abbreviation demo_remove := (Remove (T := Node) Some newMapping).
Abbreviation demo_new := (New (T := Node) demo_decode String.eqb Some newMapping demo_read demo_encode inr demo_opts ∅).
Abbreviation demo_write := (Write (T := Node) demo_decode String.eqb Some newMapping demo_read demo_encode inr demo_opts ∅).

Definition demo_store : LayeredStore.Store (T := Node) :=
  match (demo_new no_faults [] "" demo_files).1 with Ok (s, _) => s | Err _ => mkStore None newMapping ∅ [] ∅ None [] end.

Example demo_store_layers : l_path <$> layers demo_store = ["/p/clawker.local.yaml"; "/p/clawker.yaml"].
Proof. vm_compute. reflexivity. Qed.

(** Removing a nested field that only a lower-priority file sets does not
    reach that file.  With a local file and a project file of which only the
    latter has an "agent" section, [Remove] of "agent.editor" succeeds and hides
    the field; [Write] succeeds and leaves nothing staged, but has deleted the
    path from the local file, where it never was: the project file is untouched
    and the field is back. *)
Theorem nested_remove_not_persisted :
  let s1 := (demo_remove demo_store "agent.editor").2 in
  let '(r, s2, w2) := demo_write no_faults s1 demo_files in
  (demo_remove demo_store "agent.editor").1 = Ok true /\ Has s1 "agent.editor" = false /\
  r = Ok tt /\ dirtyPaths s2 = ∅ /\ files w2 !! "/p/clawker.yaml" = Some (inl project_only) /\ Has s2 "agent.editor" = true.
Proof. vm_compute. split_and!; reflexivity. Qed.

(** The project file alone. *)
Definition single_opts : Options := mkOptions ["clawker.yaml"] "" "" [] ["/p"] false true "" "".
Definition single_store : LayeredStore.Store (T := Node) :=
  match (New (T := Node) demo_decode String.eqb Some newMapping demo_read demo_encode inr single_opts ∅ no_faults [] "" demo_files).1 with
  | Ok (s, _) => s
  | Err _ => mkStore None newMapping ∅ [] ∅ None []
  end.
Definition rewritten_store : LayeredStore.Store (T := Node) :=
  (demo_set (demo_remove single_store "agent").2 "agent.editor" "nano").2.

(** Removing a section and then setting a field of it loses the field when it
    is written.  Staged sets are applied before staged removals whatever the
    order of the calls, so after [Remove] of "agent" and [Set] of "agent.editor"
    the store has the new value, and after a [Write] that succeeds neither the
    store nor the file has it. *)
Theorem remove_then_set_lost :
  let '(r, s2, w2) :=
    Write (T := Node) demo_decode String.eqb Some newMapping demo_read demo_encode inr single_opts ∅ no_faults rewritten_store demo_files in
  Get (Some ∘ Value) rewritten_store "agent.editor" = Ok (Some "nano") /\ r = Ok tt /\ dirtyPaths s2 = ∅ /\
  Has s2 "agent.editor" = false /\ file_value demo_read w2 "/p/clawker.yaml" ["agent"; "editor"] = None.
Proof. vm_compute. split_and!; reflexivity. Qed.

(** *** Witnesses *)

Definition staged_store : LayeredStore.Store (T := Node) := (demo_set (demo_remove demo_store "agent").2 "name" "mine").2.

Ltac unique := vm_compute; repeat (split || constructor || set_solver).

Lemma SetValue_spec_witness :
  coherent Some newMapping demo_store /\
  nodeValueAt (tree (demo_set demo_store "name" "mine").2) ["name"] ≡ Some (scalar "mine").
Proof.
  assert (coherent Some newMapping demo_store) as Hc by (vm_compute; done). split; [done|].
  assert (unique_keys (tree demo_store)) as Hu by unique.
  pose proof (SetValue_spec Some newMapping (Some ∘ scalar) (fun _ => GoString) ∅ demo_store "name" "mine" Hc Hu
    ltac:(intros n [= <-]; done)) as H.
  destruct (demo_set demo_store "name" "mine") as [r s'] eqn:E. assert (r = Ok tt) as -> by (vm_compute in E; congruence).
  destruct H as (n & [= <-] & H & _). exact H.
Defined.

Lemma snapshot_coherent_witness : coherent Some newMapping staged_store.
Proof.
  apply (snapshot_coherent demo_decode String.eqb Some newMapping demo_read demo_encode inr (Some ∘ scalar) (fun _ => GoString) demo_opts ∅
    no_faults [] "" demo_files demo_store [] demo_files (staged_store, demo_files)); [vm_compute; reflexivity|].
  eapply rtc_l; [apply (step_remove _ _ _ _ _ _ _ _ _ _ _ _ _ "agent")|]. apply rtc_once, step_set.
Defined.

Lemma staged_dirty p : is_Some (dirtyPaths staged_store !! p) -> p = "agent" \/ p = "name".
Proof.
  assert (dirtyPaths staged_store = {[ "name" := dirtySet; "agent" := dirtyDeleted ]}) as -> by (vm_compute; reflexivity).
  intros [o [[<- _]|[_ [<- _]%lookup_singleton_Some]]%lookup_insert_Some]; auto.
Qed.

Lemma staged_independent : independent_dirty staged_store.
Proof. intros p q [-> | ->]%staged_dirty [-> | ->]%staged_dirty Hne; try done; by left. Qed.

Lemma write_persists_witness :
  exists r s' w', write demo_decode String.eqb Some newMapping demo_read demo_encode inr demo_opts ∅ no_faults staged_store demo_files "" =
    (r, s', w') /\ file_value demo_read w' "/p/clawker.local.yaml" ["name"] ≡ Some (scalar "mine") /\
    file_value demo_read w' "/p/clawker.yaml" ["agent"] = None.
Proof.
  destruct (write_persists demo_decode String.eqb Some newMapping demo_read demo_encode inr demo_opts ∅ demo_resolves eq_refl staged_store demo_files "")
    as (r & s' & w' & E & H1 & H2 & _).
  - unique.
  - vm_compute. reflexivity.
  - intros H. apply (f_equal (lookup "name")) in H. vm_compute in H. done.
  - right. vm_compute. by eexists.
  - apply staged_independent.
  - intros p [-> | ->]%staged_dirty; unique.
  - exists r, s', w'. split; [exact E|]. split; [exact (H1 "name" eq_refl)|exact (H2 "agent" eq_refl)].
Defined.

Lemma WriteFieldTo_isolates_witness :
  exists r s' w', WriteFieldTo demo_decode String.eqb Some newMapping demo_read demo_encode inr demo_opts ∅ no_faults staged_store demo_files
    "/p/clawker.local.yaml" "name" = (r, s', w') /\
    file_value demo_read w' "/p/clawker.local.yaml" ["name"] ≡ Some (scalar "mine") /\ dirtyPaths s' = {[ "agent" := dirtyDeleted ]}.
Proof.
  destruct (WriteFieldTo_isolates demo_decode String.eqb Some newMapping demo_read demo_encode inr demo_opts ∅ demo_resolves eq_refl staged_store demo_files
    "/p/clawker.local.yaml" "name" dirtySet) as (r & s' & w' & E & H1 & _ & _ & H2 & _).
  - vm_compute. done.
  - unique.
  - vm_compute. reflexivity.
  - unique.
  - intros p n. unfold LayeredStore.loadNode. cbn [files demo_files]. destruct (_ !! p) as [b|] eqn:Eb; [|done].
    apply lookup_insert_Some in Eb as [[_ <-]|[_ [_ <-]%lookup_singleton_Some]]; intros [= <-]; unique.
  - apply staged_independent.
  - done.
  - reflexivity.
  - unique.
  - exists r, s', w'. split; [exact E|]. split; [exact H1|]. rewrite H2. vm_compute. reflexivity.
Defined.

End StoreSpec.
