(* ===== verification/StoreMigrate.v ===== *)
(** * Migrations of the layered store

    [New] runs the migrations on every file layer before the store is used
    (internal/storage/store.go).  Migrations are arbitrary sequences of the
    store's own operations; what they do to layers and files is bounded here. *)

From S2P Require Import Prelude GoStrings GoPath YamlNode YamlMerge Discover LayeredStore StoreSpec.
Import Go GoPath Yaml YamlMerge Discover LayeredStore StoreSpec.

Module StoreMigrate.

Section Migrate.
Context {Any T Bytes GoVal : Type}.
Variable decode_any : Node -> option Any.
Variable DeepEqual : Any -> Any -> bool.
Variable decode_T : Node -> option T.
Variable zero : T.
Variable yaml_decode : Bytes -> decoded.
Variable yaml_encode : Node -> option Bytes.
Variable bytes_of : string -> Bytes.
Variable encode_value : GoVal -> option Node.
Variable go_kind : GoVal -> GoKind.
Variable opts : Options.
Variable tags : tagRegistry.

Abbreviation Store := (@Store T).
Abbreviation world := (world Bytes).
Abbreviation SetValue := (SetValue decode_T zero encode_value go_kind tags).
Abbreviation Remove := (Remove decode_T zero).
Abbreviation encodeNode := (encodeNode yaml_encode bytes_of opts).
Abbreviation stage := (stageMigratedLayers yaml_encode bytes_of opts).
Abbreviation New := (New decode_any DeepEqual decode_T zero yaml_decode yaml_encode bytes_of opts tags).
Implicit Types s : Store.
Implicit Types w : world.

(** ** What a migration may do *)

Inductive mig_step : Store -> Store -> Prop :=
  | mig_set s path v : mig_step s (SetValue s path v).2
  | mig_remove s path : mig_step s (Remove s path).2
  | mig_mark s path : mig_step s (MarkForWrite s path).2
  | mig_notice s text : mig_step s (Noticef s text).

(** A migration that only calls the store's operations. *)
Definition lawful (fn : Migration (T := T)) : Prop := forall s, rtc mig_step s (fn s).2.

(** What migrating layer [i] leaves of the store. *)
Record within (i : nat) (s s' : Store) : Prop := {
  wi_migrating : migrating s' = migrating s;
  wi_other : forall j, j <> i -> layers s' !! j = layers s !! j;
  wi_here : forall l, layers s !! i = Some l -> exists n, layers s' !! i = Some (set_node n l);
  wi_clean : dirtyPaths s' = ∅ -> dirtyPaths s = ∅ /\ layers s' = layers s;
}.

Lemma set_node_id l : set_node (l_node l) l = l.
Proof. by destruct l. Qed.

#[local] Instance within_preorder i : PreOrder (within i).
Proof.
  split.
  - intros s. split; try done. intros l Hl. exists (l_node l). by rewrite set_node_id.
  - intros s1 s2 s3 [A1 A2 A3 A4] [B1 B2 B3 B4]. split.
    + by rewrite B1.
    + intros j Hj. by rewrite B2, A2.
    + intros l Hl. destruct (A3 l Hl) as [n Hn]. destruct (B3 _ Hn) as [n' Hn']. by exists n'.
    + intros H. destruct (B4 H) as [H' ->]. by apply A4.
Qed.

Lemma within_dirty i s t p op : within i s (migrate_tree decode_T zero (markDirty s p op) i t).
Proof.
  split; [done|..]; cbn.
  - intros j Hj. by rewrite list_lookup_alter_ne.
  - intros l Hl. exists t. by rewrite list_lookup_alter_eq, Hl.
  - intros H. by apply insert_non_empty in H.
Qed.

Lemma within_mark i s p op : within i s (markDirty s p op).
Proof.
  split; [done|done| |].
  - intros l Hl. exists (l_node l). by rewrite set_node_id.
  - intros H. cbn in H. by apply insert_non_empty in H.
Qed.

Lemma mig_step_within i s s' : migrating s = Some i -> mig_step s s' -> within i s s'.
Proof.
  intros Hi Hs. destruct Hs as [s path v|s path|s path|s text].
  - unfold LayeredStore.SetValue. destruct (validatePath path); [|done]. destruct (validateKind _ _ _ _); [|done].
    destruct (encode_value v); [|done]. rewrite Hi. apply within_dirty.
  - unfold LayeredStore.Remove. destruct (validatePath path); [|done]. destruct (nodeDeletePath _ _); [|done].
    rewrite Hi. apply within_dirty.
  - unfold MarkForWrite. destruct (validatePath path); [|done]. apply within_mark.
  - split; try done. intros l Hl. exists (l_node l). by rewrite set_node_id.
Qed.

Lemma mig_steps_within i s s' : migrating s = Some i -> rtc mig_step s s' -> within i s s'.
Proof.
  intros Hi Hs. induction Hs as [s|s1 s2 s3 H1 _ IH]; [done|].
  pose proof (mig_step_within i s1 s2 Hi H1) as Hw. etrans; [done|]. apply IH. by rewrite (wi_migrating _ _ _ Hw).
Qed.

Lemma run_migrations_within i fns s changed :
  migrating s = Some i -> Forall lawful fns -> within i s (run_migrations fns s changed).2.
Proof.
  intros Hi Hf. revert s changed Hi. induction Hf as [|fn fns Hfn _ IH]; intros s changed Hi; cbn [run_migrations]; [done|].
  pose proof (mig_steps_within i s _ Hi (Hfn s)) as Hw. destruct (fn s) as [[c|e] s1]; cbn [snd] in *; [|done].
  etrans; [done|]. apply IH. by rewrite (wi_migrating _ _ _ Hw).
Qed.

(** ** One layer *)

(** The layer's node after the migrations, and whether it is to be written. *)
Lemma migrateLayer_spec s i l fns r s' :
  Forall lawful fns -> layers s !! i = Some l -> migrateLayer yaml_encode bytes_of opts s i l fns = (Ok r, s') ->
  (forall j, j <> i -> layers s' !! j = layers s !! j) /\
  exists n, layers s' !! i = Some (set_node n l) /\
    match r with None => n = l_node l | Some b => encodeNode n = Some b end.
Proof.
  intros Hf Hl. unfold migrateLayer. pose proof (run_migrations_within i fns (enter_layer s i (l_node l)) false eq_refl Hf) as [_ Ho Hh Hc].
  destruct (run_migrations _ _ _) as [[c|e] s1]; cbn [snd] in *; [|done]. destruct (Hh l Hl) as [n Hn].
  destruct (negb (c || _)) eqn:E.
  - intros [= <- <-]. split; [done|]. exists (l_node l). split; [|done].
    apply negb_true_iff, orb_false_iff in E as [_ E]. apply negb_false_iff, bool_decide_eq_true in E.
    destruct (Hc E) as [_ Hs]. cbn in *. by rewrite Hs, set_node_id.
  - rewrite Hn. cbn [l_node set_node]. destruct (encodeNode n) as [b|] eqn:Eb; [|done]. intros [= <- <-].
    split; [done|]. by exists n.
Qed.

(** ** All layers *)

Definition file_path (ls : list layer) (i : nat) : option string :=
  match ls !! i with Some l => if l_virtual l then None else Some (l_path l) | None => None end.

Lemma file_path_node ls ls' i l n : ls !! i = Some l -> ls' !! i = Some (set_node n l) -> file_path ls' i = file_path ls i.
Proof. unfold file_path. by intros -> ->. Qed.

(** A layer that was not rewritten is the layer as it was; one that was is
    pending with its encoding. *)
Definition staged_layer (new : list (string * Bytes)) (l : layer) (l' : layer) : Prop :=
  exists n, l' = set_node n l /\ (n = l_node l \/ exists b, encodeNode n = Some b /\ (l_path l, b) ∈ new).

(** One round of the loop. *)
Lemma stage_one i l idxs fns s pending pending' s' :
  Forall lawful fns -> layers s !! i = Some l -> stage (i :: idxs) fns s pending = (Ok pending', s') ->
  exists s1 item n, stage idxs fns s1 (pending ++ item) = (Ok pending', s') /\
    (forall j, j <> i -> layers s1 !! j = layers s !! j) /\ layers s1 !! i = Some (set_node n l) /\
    ((n = l_node l /\ item = []) \/ exists b, encodeNode n = Some b /\ item = [(l_path l, b)] /\ l_virtual l = false).
Proof.
  intros Hf Hl. cbn [stageMigratedLayers]. rewrite Hl. destruct (l_virtual l) eqn:Ev.
  { intros E. exists s, [], (l_node l). rewrite app_nil_r, set_node_id. split_and!; try done. by left. }
  destruct (migrateLayer _ _ _ _ _ _ _) as [[r|] s1] eqn:Em; [|done].
  destruct (migrateLayer_spec _ _ _ _ _ _ Hf Hl Em) as (Ho & n & Hn & Hr). destruct r as [b|]; intros E.
  - exists s1, [(l_path l, b)], n. split_and!; try done. right. by exists b.
  - exists s1, [], n. rewrite app_nil_r. split_and!; try done. by left.
Qed.

Lemma omap_file_path_ext ls ls' (idxs : list nat) : (forall j, j ∈ idxs -> ls' !! j = ls !! j) -> omap (file_path ls') idxs = omap (file_path ls) idxs.
Proof.
  intros Hj. induction idxs as [|j idxs IH]; [done|]. cbn.
  assert (file_path ls' j = file_path ls j) as -> by (unfold file_path; by rewrite Hj by left).
  rewrite IH; [done|]. intros; apply Hj; by right.
Qed.

Lemma stage_spec idxs fns s pending pending' s' :
  Forall lawful fns -> NoDup idxs -> (forall i, i ∈ idxs -> is_Some (layers s !! i)) ->
  stage idxs fns s pending = (Ok pending', s') ->
  exists new, pending' = pending ++ new /\
    new.*1 `sublist_of` omap (file_path (layers s)) idxs /\
    (forall j, j ∉ idxs -> layers s' !! j = layers s !! j) /\
    (forall j l, j ∈ idxs -> layers s !! j = Some l -> exists l', layers s' !! j = Some l' /\ staged_layer new l l') /\
    (forall p b, (p, b) ∈ new -> exists j l n, layers s !! j = Some l /\ l_virtual l = false /\ l_path l = p /\
       j ∈ idxs /\ layers s' !! j = Some (set_node n l) /\ encodeNode n = Some b).
Proof.
  intros Hf. revert s pending. induction idxs as [|i idxs IH]; intros s pending Hn Hi.
  { intros [= <- <-]. exists []. rewrite app_nil_r. split_and!; [done|constructor|done|by intros j l ?%not_elem_of_nil|by intros p b ?%not_elem_of_nil]. }
  apply NoDup_cons in Hn as [Hni Hn]. destruct (Hi i ltac:(left)) as [l Hl]. intros E.
  destruct (stage_one i l idxs fns s pending pending' s' Hf Hl E) as (s1 & item & n & E1 & Ho & Hh & Hitem).
  assert (Hj : forall j, j ∈ idxs -> layers s1 !! j = layers s !! j) by (intros j Hj; apply Ho; by intros ->).
  destruct (IH s1 (pending ++ item) Hn) as (new & -> & Hsub & Hout & Hin & Hfrom); [|done|].
  { intros j H. rewrite Hj by done. apply Hi. by right. }
  exists (item ++ new). rewrite <- app_assoc. split_and!; [done|..].
  - rewrite (omap_file_path_ext _ _ _ Hj) in Hsub. rewrite fmap_app. destruct Hitem as [[_ ->]|(b & _ & -> & Hv)]; cbn.
    + destruct (file_path (layers s) i); [by apply sublist_cons|done].
    + assert (file_path (layers s) i = Some (l_path l)) as -> by (unfold file_path; by rewrite Hl, Hv). by apply sublist_skip.
  - intros j Hji. apply not_elem_of_cons in Hji as [Hne Hji]. by rewrite Hout, Ho.
  - intros j l0 [->|Hin0]%elem_of_cons Hl0.
    + rewrite Hl in Hl0. injection Hl0 as <-. exists (set_node n l). rewrite Hout by done. split; [done|]. exists n. split; [done|].
      destruct Hitem as [[-> _]|(b & Hb & -> & _)]; [by left|right; exists b; split; [done|by left]].
    + destruct (Hin j l0 Hin0) as (l' & Hl' & m & -> & Hm); [by rewrite Hj|]. exists (set_node m l0). split; [done|]. exists m.
      split; [done|]. destruct Hm as [->|(b & Hb & Hbn)]; [by left|right; exists b]. by rewrite elem_of_app; auto.
  - intros p b [Hp|Hp]%elem_of_app.
    + destruct Hitem as [[_ ->]|(b' & Hb & -> & Hv)]; [by apply not_elem_of_nil in Hp|]. apply list_elem_of_singleton in Hp as [= -> ->].
      exists i, l, n. split_and!; try done; [left|by rewrite Hout].
    + destruct (Hfrom p b Hp) as (j & l0 & m & H1 & H2 & H3 & H4 & H5 & H6). rewrite Hj in H1 by done.
      exists j, l0, m. split_and!; try done. by right.
Qed.

(** ** The files *)

Lemma writeFile_cases f w dest data :
  match writeFile opts f w dest data with
  | (Ok _, w') => files w' = <[dest := data]> (files w)
  | (Err _, w') => files w' = files w
  end.
Proof.
  unfold writeFile, withLock, atomicWrite, MkdirAll. destruct (Lock opts), (unlockable f dest), (nomkdir f (Dir dest)), (unwritable f dest); done.
Qed.

Lemma commit_spec f pending w failed w' :
  NoDup pending.*1 -> commitMigratedLayers opts f pending w = (failed, w') ->
  (forall p b, (p, b) ∈ pending -> (p ∈ failed /\ files w' !! p = files w !! p) \/ ((p ∉ failed) /\ files w' !! p = Some b)) /\
  (forall p, p ∉ pending.*1 -> (p ∉ failed) /\ files w' !! p = files w !! p).
Proof.
  revert w failed. induction pending as [|[q d] pending IH]; intros w failed Hn; cbn [commitMigratedLayers].
  { intros [= <- <-]. split; [by intros p b ?%not_elem_of_nil|]. intros p _. split; [apply not_elem_of_nil|done]. }
  cbn [fmap list_fmap fst] in Hn. apply NoDup_cons in Hn as [Hq Hn]. pose proof (writeFile_cases f w q d) as Hw.
  assert (Hne : forall p b, (p, b) ∈ pending -> p <> q) by (intros p b Hin ->; apply Hq, list_elem_of_fmap; by exists (q, b)).
  destruct (writeFile _ f w q d) as [[[]|e] w1].
  - intros E. destruct (IH w1 failed Hn E) as [H1 H2]. split.
    + intros p b [Eq|Hin]%elem_of_cons.
      * injection Eq as -> ->. right. destruct (H2 q Hq) as [? ->]. split; [done|]. by rewrite Hw, lookup_insert_eq.
      * pose proof (Hne p b Hin). destruct (H1 p b Hin) as [[? ->]|?]; [left|by right]. split; [done|]. by rewrite Hw, lookup_insert_ne.
    + intros p [Hp Hp']%not_elem_of_cons. destruct (H2 p Hp') as [? ->]. split; [done|]. by rewrite Hw, lookup_insert_ne.
  - destruct (commitMigratedLayers _ f pending w1) as [failed1 w2] eqn:E. intros [= <- <-].
    destruct (IH w1 failed1 Hn E) as [H1 H2]. rewrite Hw in *. split.
    + intros p b [Eq|Hin]%elem_of_cons.
      * injection Eq as -> ->. left. split; [left|]. by apply H2.
      * pose proof (Hne p b Hin). destruct (H1 p b Hin) as [[? ?]|[? ?]]; [left; split; [by right|done]|right].
        split; [by apply not_elem_of_cons|done].
    + intros p [Hp Hp']%not_elem_of_cons. destruct (H2 p Hp') as [? ?]. split; [by apply not_elem_of_cons|done].
Qed.

(** ** Construction *)

Lemma load_layers_spec f w dfs ls :
  load_layers yaml_decode f w dfs = Ok ls -> l_path <$> ls = df_path <$> dfs /\ Forall (fun l => l_virtual l = false) ls.
Proof.
  revert ls. induction dfs as [|df dfs IH]; intros ls; cbn [load_layers]; [by intros [= <-]|].
  unfold load_layer. destruct (loadNode _ f w (df_path df)) as [n|]; [|done]. cbn.
  destruct (load_layers _ f w dfs) as [ls'|]; [|done]. destruct (IH ls' eq_refl) as [H1 H2]. intros [= <-]. cbn. rewrite H1. by split; [|constructor].
Qed.

Lemma discover_layers_spec f w ls :
  discover_layers yaml_decode opts f w = Ok ls -> NoDup (l_path <$> ls) /\ Forall (fun l => l_virtual l = false) ls.
Proof.
  unfold discover_layers. destruct (discover w opts) as [dfs|] eqn:E; [|done]. intros [H1 H2]%load_layers_spec. rewrite H1. split; [|done].
  by eapply discover_NoDup.
Qed.

Lemma file_paths_all ls : Forall (fun l => l_virtual l = false) ls -> forall vs k, Forall (fun l => l_virtual l = true) vs ->
  forall pre, length pre = k -> omap (file_path (pre ++ ls ++ vs)) (seq k (length (ls ++ vs))) = l_path <$> ls.
Proof.
  intros Hls vs k Hvs. revert k. induction Hls as [|l ls Hl _ IH]; intros k pre Hk.
  - cbn [app fmap list_fmap]. revert k pre Hk. induction Hvs as [|v vs Hv _ IHv]; intros k pre Hk; [done|]. cbn [length seq omap list_omap].
    unfold file_path at 1. rewrite lookup_app_r, Hk, Nat.sub_diag by lia. cbn. rewrite Hv.
    specialize (IHv (S k) (pre ++ [v])). rewrite <- app_assoc in IHv. apply IHv. rewrite length_app. cbn. lia.
  - cbn [app length seq omap list_omap fmap list_fmap]. unfold file_path at 1. rewrite lookup_app_r, Hk, Nat.sub_diag by lia. cbn. rewrite Hl.
    f_equal. specialize (IH (S k) (pre ++ [l])). rewrite <- app_assoc in IH. apply IH. rewrite length_app. cbn. lia.
Qed.

Lemma virtual_layers_virtual n : Forall (fun l => l_virtual l = true) (virtual_layers n).
Proof. unfold virtual_layers. destruct n as [| | |m [|]]; by repeat constructor. Qed.

Lemma file_unique ls vs i j l l0 :
  NoDup (l_path <$> ls) -> Forall (fun l => l_virtual l = true) vs ->
  (ls ++ vs) !! i = Some l -> (ls ++ vs) !! j = Some l0 -> l_virtual l = false -> l_virtual l0 = false -> l_path l0 = l_path l -> j = i /\ l0 = l.
Proof.
  intros Hn Hvs Hi Hj Hl Hl0 E.
  assert (forall k x, (ls ++ vs) !! k = Some x -> l_virtual x = false -> ls !! k = Some x) as Hk.
  { intros k x [H|[_ H]]%lookup_app_Some Hx; [done|]. rewrite Forall_lookup in Hvs. specialize (Hvs _ _ H). cbn in Hvs. congruence. }
  apply Hk in Hi, Hj; [|done..]. assert (j = i) as ->; [|split; [done|congruence]].
  apply (NoDup_lookup _ _ _ (l_path l) Hn); rewrite list_lookup_fmap, ?Hi, ?Hj; cbn; congruence.
Qed.

(** How a migration left one file of the store. *)
Inductive migrated_file (w w' : world) (out : list printed) (l l' : layer) : Prop :=
  | file_unchanged : l' = l -> files w' !! l_path l = files w !! l_path l -> migrated_file w w' out l l'
  | file_failed n : l' = set_node n l -> CouldNotPersist (l_path l) ∈ out -> files w' !! l_path l = files w !! l_path l ->
      migrated_file w w' out l l'
  | file_rewritten n b : l' = set_node n l -> CouldNotPersist (l_path l) ∉ out -> encodeNode n = Some b ->
      files w' !! l_path l = Some b -> migrated_file w w' out l l'.

Lemma printed_failed ns failed p : CouldNotPersist p ∈ flushNotices ns failed <-> p ∈ failed.
Proof.
  unfold flushNotices. rewrite elem_of_app, !list_elem_of_fmap. split; [|by right; exists p].
  intros [(x & E & _)|(q & E & H)]; [done|]. by injection E as ->.
Qed.

Lemma applyMigrations_spec f fns s w out s' w' ls vs :
  Forall lawful fns -> layers s = ls ++ vs -> NoDup (l_path <$> ls) ->
  Forall (fun l => l_virtual l = false) ls -> Forall (fun l => l_virtual l = true) vs ->
  applyMigrations decode_any DeepEqual decode_T zero yaml_encode bytes_of opts tags f fns s w = (Ok out, s', w') ->
  (forall i l, layers s !! i = Some l -> exists l', layers s' !! i = Some l' /\ (l_virtual l = false -> migrated_file w w' out l l')) /\
  (forall p, p ∉ l_path <$> ls -> files w' !! p = files w !! p).
Proof.
  intros Hf Hls Hn Hfile Hvirt. unfold applyMigrations. destruct fns as [|fn fns]; [|set (ms := fn :: fns) in *].
  { intros [= <- <- <-]. split; [|done]. intros i l Hl. exists l. split; [done|]. by constructor. }
  destruct (stage _ ms s []) as [[pending|] s1] eqn:Es; [|done].
  eapply stage_spec in Es as (new & Enew & Hsub & _ & Hin & Hfrom); [|done|apply NoDup_seq|].
  2: { intros i [_ Hi]%elem_of_seq. apply lookup_lt_is_Some. lia. }
  cbn in Enew. subst new. pose proof (file_paths_all ls Hfile vs 0 Hvirt [] eq_refl) as Hfp. cbn [app] in Hfp. rewrite Hls, Hfp in Hsub.
  destruct (commitMigratedLayers _ f pending w) as [failed w1] eqn:Ec.
  destruct (commit_spec _ _ _ _ _ ltac:(eapply sublist_NoDup; done) Ec) as [H1 H2].
  intros E. assert (layers s' = layers s1 /\ w' = w1 /\ forall p, CouldNotPersist p ∈ out <-> p ∈ failed) as (-> & -> & Hout).
  { destruct pending; [injection E as <- <- <-; split_and!; try done; intros; apply printed_failed|].
    unfold remerge in E. destruct (merge _ _ _ _) as [t pr]. destruct (decodeNode _ _ t); [|done]. injection E as <- <- <-.
    split_and!; try done; intros; apply printed_failed. }
  split; [|intros p Hp; apply H2; intros H; eapply Hp, elem_of_sublist; done].
  intros i l Hl. destruct (Hin i l) as (l' & Hl' & n & -> & Hcase); [|done|].
  { apply elem_of_seq. apply lookup_lt_Some in Hl. lia. }
  exists (set_node n l). split; [done|]. intros Hv. destruct (decide (l_path l ∈ pending.*1)) as [Hp|Hp].
  - apply list_elem_of_fmap in Hp as ([q b] & Eq & Hb). cbn in Eq. subst q.
    destruct (Hfrom _ _ Hb) as (j & l0 & m & Hl0 & Hv0 & Hp0 & _ & Hm & Eb).
    assert (j = i /\ l0 = l) as [-> ->] by (by eapply (file_unique ls vs); rewrite <- ?Hls).
    rewrite Hl' in Hm. injection Hm as Enm. assert (n = m) as <- by (by destruct l).
    destruct (H1 _ _ Hb) as [[Hfl Hsame]|[Hfl Hsome]].
    + eapply file_failed; [done|by apply Hout|done].
    + eapply file_rewritten; [done|by rewrite Hout|done|done].
  - destruct (H2 _ Hp) as [_ Hsame]. destruct Hcase as [->|(b & _ & Hb)]; [|by destruct Hp; apply list_elem_of_fmap; exists (l_path l, b)].
    rewrite set_node_id. by apply file_unchanged.
Qed.

(** C24: Migrations run on files, one at a time, and what they leave is what is
    reported.  When construction succeeds, every discovered file is in one of
    three states: the migrations did not touch it and its bytes are the same; it
    could not be rewritten, its bytes are the same and a warning names it; or it
    holds the encoding of the layer the store now uses.  No other file changes,
    whichever writes fail.  Migrations are any sequences of the store's own
    operations. *)
Theorem New_migrates f fns seed w s out w' :
  Forall lawful fns -> New f fns seed w = (Ok (s, out), w') ->
  exists ls, discover_layers yaml_decode opts f w = Ok ls /\
    (forall i l, ls !! i = Some l -> exists l', layers s !! i = Some l' /\ migrated_file w w' out l l') /\
    (forall p, p ∉ l_path <$> ls -> files w' !! p = files w !! p).
Proof.
  intros Hf. unfold LayeredStore.New. destruct (discover_layers _ _ _ _) as [ls|] eqn:Ed; [|done].
  destruct (buildVirtualNode _ _ _ _ _ _ _) as [v|]; [|done]. destruct (merge _ _ _ _) as [t pr].
  set (s0 := mkStore _ _ _ _ _ _ _). assert (layers s0 = ls ++ virtual_layers v) as Hs0 by done.
  destruct (applyMigrations _ _ _ _ _ _ _ _ f fns _ w) as [[[o|] s1] w1] eqn:E; [|done].
  destruct (decodeNode _ _ (tree s1)) as [v1|]; [|done]. intros [= <- <- <-].
  destruct (discover_layers_spec _ _ _ Ed) as [Hn Hfile].
  destruct (applyMigrations_spec _ _ _ _ _ _ _ ls (virtual_layers v) Hf Hs0 Hn Hfile (virtual_layers_virtual v) E) as [H1 H2].
  exists ls. split; [done|]. split; [|done]. intros i l Hl. destruct (H1 i l) as (l' & Hl' & Hm); [by apply lookup_app_l_Some|].
  exists l'. split; [done|]. apply Hm. by apply (Forall_lookup_1 _ _ _ _ Hfile Hl).
Qed.

End Migrate.
(** ** Dropping a key *)

Definition drop_editor : Migration (T := Node) := fun s =>
  match demo_remove s "agent.editor" with
  | (Ok true, s) => (Ok true, Noticef s "agent.editor is gone")
  | (Ok false, s) => (Ok false, s)
  | (Err _, s) => (Err tt, s)
  end.

Lemma drop_editor_lawful : lawful Some newMapping (Some ∘ scalar) (fun _ => GoString) ∅ drop_editor.
Proof.
  intros s. unfold drop_editor. pose proof (mig_remove Some newMapping (Some ∘ scalar) (fun _ => GoString) ∅ s "agent.editor") as H.
  destruct (demo_remove s "agent.editor") as [[[]|] s']; cbn [snd] in *; [|by apply rtc_once..].
  eapply rtc_l; [exact H|]. apply rtc_once, mig_notice.
Qed.

Definition migrated : result store_error (LayeredStore.Store (T := Node) * list printed) * world demo_bytes :=
  demo_new no_faults [drop_editor] "" demo_files.

(** The local file is untouched, the project file loses the key. *)
Lemma New_migrates_witness :
  match migrated with
  | (Ok (s, out), w') => out = [Notice "agent.editor is gone"] /\
      files w' !! "/p/clawker.local.yaml" = Some (inl local_only) /\
      exists l', layers s !! 1%nat = Some l' /\
        migrated_file demo_encode inr demo_opts demo_files w' out (mkLayer "/p/clawker.yaml" "clawker.yaml" project_only false false) l'
  | (Err _, _) => False
  end.
Proof.
  destruct migrated as [[[s out]|e] w'] eqn:E; [|vm_compute in E; done].
  destruct (New_migrates demo_decode String.eqb Some newMapping demo_read demo_encode inr (Some ∘ scalar) (fun _ => GoString) demo_opts ∅
    no_faults [drop_editor] "" demo_files s out w') as (ls & El & H & _); [constructor; [apply drop_editor_lawful|constructor]|exact E|].
  vm_compute in El. injection El as <-. split; [vm_compute in E; congruence|]. split; [vm_compute in E; injection E as _ _ <-; reflexivity|].
  apply (H 1%nat). reflexivity.
Defined.

End StoreMigrate.
