(* ===== verification/PubSub.v ===== *)
(** * The control plane's pub/sub topic

    controlplane/pubsub/engine.go: a topic with one bounded queue and one drain
    goroutine per subscriber.  Publishers hold the read lock for the whole
    fan-out, [Subscribe] and [Close] the write lock; sends, evictions and
    deliveries of different goroutines interleave freely.  [step] is one atomic
    action of one goroutine, so a list of actions is an interleaving.

    The handlers and the audit hook are user code: whether one panics is part of
    the action.  [sent], [handled] and [evicted] record the history of a queue;
    no operation reads them. *)

From S2P Require Import Prelude.

Module PubSub.

Inductive topic_error := ErrNilLogger | ErrInvalidBuffer.

Definition DefaultBuffer : Z := 256.

Section Topic.
Context {T : Type}.

Record Event := mkEvent { ID : string; Timestamp : Z; Source : string; Payload : T }.

(** [hand] is the event the drain goroutine has received and not yet handled;
    [exited] that the goroutine has returned. *)
Record subscriber := mkSub {
  queue : list Event; hand : option Event; exited : bool;
  sent : list Event; handled : list Event; evicted : Z;
}.

(** A [Publish] in progress: the subscribers still to serve, and whether it
    found the queue of the first one full. *)
Record publisher := mkPub { p_event : Event; p_rest : list nat; p_full : bool }.

(** [subs] are all subscribers ever; once the topic is closed none is
    registered, and their queues are closed. *)
Record Topic := mkTopic {
  buffer : Z; subs : list subscriber; closed : bool; publishers : gmap nat publisher;
  publishedTotal : Z; droppedTotal : Z; panicsRecovered : Z; hookPanicsRecovered : Z;
}.

Definition NewTopic (nil_logger : bool) (buf : option Z) : result topic_error Topic :=
  if nil_logger then Err ErrNilLogger
  else
    let b := default DefaultBuffer buf in
    if b <=? 0 then Err ErrInvalidBuffer else Ok (mkTopic b [] false ∅ 0 0 0 0).

(** ** Actions *)

Definition set_subs (t : Topic) (l : list subscriber) : Topic :=
  mkTopic (buffer t) l (closed t) (publishers t) (publishedTotal t) (droppedTotal t) (panicsRecovered t) (hookPanicsRecovered t).
Definition set_publishers (t : Topic) (p : gmap nat publisher) : Topic :=
  mkTopic (buffer t) (subs t) (closed t) p (publishedTotal t) (droppedTotal t) (panicsRecovered t) (hookPanicsRecovered t).
Definition count_drop (t : Topic) : Topic :=
  mkTopic (buffer t) (subs t) (closed t) (publishers t) (publishedTotal t) (droppedTotal t + 1) (panicsRecovered t) (hookPanicsRecovered t).
Definition count_panic (t : Topic) : Topic :=
  mkTopic (buffer t) (subs t) (closed t) (publishers t) (publishedTotal t) (droppedTotal t) (panicsRecovered t + 1) (hookPanicsRecovered t).
Definition count_hook_panic (t : Topic) : Topic :=
  mkTopic (buffer t) (subs t) (closed t) (publishers t) (publishedTotal t) (droppedTotal t) (panicsRecovered t) (hookPanicsRecovered t + 1).
Definition count_published (t : Topic) : Topic :=
  mkTopic (buffer t) (subs t) (closed t) (publishers t) (publishedTotal t + 1) (droppedTotal t) (panicsRecovered t) (hookPanicsRecovered t).
Definition set_closed (t : Topic) : Topic :=
  mkTopic (buffer t) (subs t) true (publishers t) (publishedTotal t) (droppedTotal t) (panicsRecovered t) (hookPanicsRecovered t).

Definition newSubscriber : subscriber := mkSub [] None false [] [] 0.
Definition push (e : Event) (s : subscriber) : subscriber :=
  mkSub (queue s ++ [e]) (hand s) (exited s) (sent s ++ [e]) (handled s) (evicted s).
Definition pop (s : subscriber) : subscriber :=
  mkSub (tail (queue s)) (hand s) (exited s) (sent s) (handled s) (evicted s + 1).
Definition pull (s : subscriber) : subscriber :=
  mkSub (tail (queue s)) (head (queue s)) (exited s) (sent s) (handled s) (evicted s).
Definition handle (e : Event) (s : subscriber) : subscriber :=
  mkSub (queue s) None (exited s) (sent s) (handled s ++ [e]) (evicted s).
Definition leave (s : subscriber) : subscriber :=
  mkSub (queue s) (hand s) true (sent s) (handled s) (evicted s).

(** The write lock is free of readers. *)
Definition Subscribe (t : Topic) : option Topic :=
  if bool_decide (publishers t = ∅)
  then Some (if closed t then t else set_subs t (subs t ++ [newSubscriber]))
  else None.

Definition Close (t : Topic) : option Topic :=
  if bool_decide (publishers t = ∅) then Some (if closed t then t else set_closed t) else None.

(** [Publish] up to the fan-out; a closed topic refuses. *)
Definition startPublish (t : Topic) (p : nat) (ev : Event) (hook_panics : bool) : option Topic :=
  match publishers t !! p with
  | Some _ => None
  | None =>
      if closed t then Some t
      else
        let t := if hook_panics then count_hook_panic t else t in
        Some (set_publishers t (<[p := mkPub ev (seq 0 (length (subs t))) false]> (publishers t)))
  end.

(** One round of the loop of [enqueue]: the outer select, then the inner one. *)
Definition trySend (t : Topic) (p : nat) : option Topic :=
  match publishers t !! p with
  | Some (mkPub ev (i :: rest) false) =>
      match subs t !! i with
      | Some s =>
          if Z.of_nat (length (queue s)) <? buffer t
          then Some (set_publishers (set_subs t (<[i := push ev s]> (subs t))) (<[p := mkPub ev rest false]> (publishers t)))
          else Some (set_publishers t (<[p := mkPub ev (i :: rest) true]> (publishers t)))
      | None => None
      end
  | _ => None
  end.

Definition evictOldest (t : Topic) (p : nat) : option Topic :=
  match publishers t !! p with
  | Some (mkPub ev (i :: rest) true) =>
      match subs t !! i with
      | Some s =>
          let t' := set_publishers t (<[p := mkPub ev (i :: rest) false]> (publishers t)) in
          match queue s with
          | [] => Some t'
          | _ => Some (count_drop (set_subs t' (<[i := pop s]> (subs t))))
          end
      | None => None
      end
  | _ => None
  end.

Definition finishPublish (t : Topic) (p : nat) : option Topic :=
  match publishers t !! p with
  | Some (mkPub _ [] _) => Some (count_published (set_publishers t (delete p (publishers t))))
  | _ => None
  end.

(** The drain goroutine: receive, handle under recover, return when the queue
    is closed and empty. *)
Definition receive (t : Topic) (i : nat) : option Topic :=
  match subs t !! i with
  | Some s =>
      match hand s, queue s with
      | None, _ :: _ => if exited s then None else Some (set_subs t (<[i := pull s]> (subs t)))
      | _, _ => None
      end
  | None => None
  end.

Definition deliver (t : Topic) (i : nat) (panics : bool) : option Topic :=
  match subs t !! i with
  | Some s =>
      match hand s with
      | Some e =>
          let t := set_subs t (<[i := handle e s]> (subs t)) in
          Some (if panics then count_panic t else t)
      | None => None
      end
  | None => None
  end.

Definition exitDrain (t : Topic) (i : nat) : option Topic :=
  match subs t !! i with
  | Some s =>
      match hand s, queue s with
      | None, [] => if closed t && negb (exited s) then Some (set_subs t (<[i := leave s]> (subs t))) else None
      | _, _ => None
      end
  | None => None
  end.

Inductive action :=
  | ASubscribe | AClose | AStart (p : nat) (ev : Event) (hook_panics : bool) | ATrySend (p : nat) | AEvict (p : nat) | AFinish (p : nat)
  | AReceive (i : nat) | ADeliver (i : nat) (panics : bool) | AExit (i : nat).

Definition step (t : Topic) (a : action) : option Topic :=
  match a with
  | ASubscribe => Subscribe t
  | AClose => Close t
  | AStart p ev h => startPublish t p ev h
  | ATrySend p => trySend t p
  | AEvict p => evictOldest t p
  | AFinish p => finishPublish t p
  | AReceive i => receive t i
  | ADeliver i b => deliver t i b
  | AExit i => exitDrain t i
  end.

Fixpoint run (t : Topic) (l : list action) : option Topic :=
  match l with [] => Some t | a :: l => t' ← step t a; run t' l end.

(** ** Publishing without interference *)

(** [enqueue] to the first subscriber left, as the code loops; [fuel] bounds
    the rounds. *)
Fixpoint enqueue (fuel : nat) (t : Topic) (p : nat) : option Topic :=
  match fuel with
  | O => None
  | S fuel =>
      t1 ← trySend t p;
      match publishers t1 !! p with
      | Some (mkPub _ _ true) => t2 ← evictOldest t1 p; enqueue fuel t2 p
      | _ => Some t1
      end
  end.

Fixpoint fan_out (n : nat) (t : Topic) (p : nat) : option Topic :=
  match n with O => Some t | S n => t' ← enqueue 2 t p; fan_out n t' p end.

Definition Publish (t : Topic) (p : nat) (ev : Event) (hook_panics : bool) : option (bool * Topic) :=
  if closed t then Some (false, t)
  else t1 ← startPublish t p ev hook_panics; t2 ← fan_out (length (subs t)) t1 p; t3 ← finishPublish t2 p; Some (true, t3).

Record Stats := mkStats { Subscribers : Z; QueueCapacity : Z; sPublished : Z; sDropped : Z; sPanics : Z; sHookPanics : Z }.
Definition StatsOf (t : Topic) : Stats :=
  mkStats (if closed t then 0 else Z.of_nat (length (subs t))) (buffer t) (publishedTotal t) (droppedTotal t) (panicsRecovered t) (hookPanicsRecovered t).

(** ** The invariant *)

Definition in_flight (s : subscriber) : list Event := option_list (hand s) ++ queue s.

Record sub_ok (b : Z) (cl : bool) (s : subscriber) : Prop := {
  so_bound : Z.of_nat (length (queue s)) <= b;
  so_order : handled s ++ in_flight s `sublist_of` sent s;
  so_count : Z.of_nat (length (sent s)) = Z.of_nat (length (handled s ++ in_flight s)) + evicted s;
  so_exit : exited s = true -> cl = true /\ in_flight s = [];
}.

Fixpoint total (l : list subscriber) : Z := match l with [] => 0 | s :: l => evicted s + total l end.

Record topic_ok (t : Topic) : Prop := {
  to_buffer : 0 < buffer t;
  to_subs : Forall (sub_ok (buffer t) (closed t)) (subs t);
  to_dropped : droppedTotal t = total (subs t);
  to_pubs : map_Forall (fun _ p => Forall (fun i => (i < length (subs t))%nat) (p_rest p)) (publishers t);
  to_closed : closed t = true -> publishers t = ∅;
}.

(** *** One queue *)

Lemma push_ok b s e : sub_ok b false s -> Z.of_nat (length (queue s)) < b -> sub_ok b false (push e s).
Proof.
  intros [H1 H2 H3 H4] Hl. assert (exited s = false) as He by (destruct (exited s) eqn:He; [by destruct (H4 eq_refl)|done]).
  unfold push. split; unfold in_flight in *; cbn in *.
  - rewrite length_app. cbn. lia.
  - rewrite !app_assoc in *. by apply sublist_app.
  - rewrite !length_app in *. cbn. lia.
  - congruence.
Qed.

Lemma pop_ok b cl s : sub_ok b cl s -> queue s <> [] -> sub_ok b cl (pop s).
Proof.
  intros [H1 H2 H3 H4] Hq. unfold pop, in_flight in *. destruct (queue s) as [|e q] eqn:E; [done|]. split; unfold in_flight in *; cbn in *.
  - lia.
  - etrans; [|exact H2]. apply sublist_app; [done|]. apply sublist_app; [done|]. by apply sublist_cons.
  - rewrite !length_app in *. cbn in *. lia.
  - intros He. destruct (H4 He) as [_ Hn]. by apply app_nil in Hn as [_ ?].
Qed.

Lemma pull_ok b cl s : sub_ok b cl s -> hand s = None -> exited s = false -> sub_ok b cl (pull s).
Proof.
  intros [H1 H2 H3 H4] Hh He. unfold pull, in_flight in *. rewrite Hh in *. destruct (queue s) as [|e q] eqn:E; split; unfold in_flight in *; cbn in *; try done; lia.
Qed.

Lemma handle_ok b cl s e : sub_ok b cl s -> hand s = Some e -> sub_ok b cl (handle e s).
Proof.
  intros [H1 H2 H3 H4] Hh. unfold handle, in_flight in *. rewrite Hh in *. split; unfold in_flight in *; cbn in *.
  - done.
  - by rewrite <- app_assoc.
  - by rewrite <- app_assoc.
  - intros He. by destruct (H4 He) as [_ ?].
Qed.

Lemma leave_ok b s : sub_ok b true s -> in_flight s = [] -> sub_ok b true (leave s).
Proof. intros [H1 H2 H3 H4] Hn. by split. Qed.

Lemma total_insert l i s s' : l !! i = Some s -> total (<[i := s']> l) = total l - evicted s + evicted s'.
Proof.
  revert i. induction l as [|x l IH]; [done|]. intros [|i] E; [injection E as ->; cbn; lia|].
  change (total (<[S i := s']> (x :: l))) with (evicted x + total (<[i := s']> l)). rewrite (IH i E). cbn. lia.
Qed.

Lemma total_snoc l s : total (l ++ [s]) = total l + evicted s.
Proof. induction l as [|x l IH]; cbn; [lia|]. rewrite IH. lia. Qed.

(** *** Every action keeps the invariant *)

Lemma set_sub_ok t i s s' :
  topic_ok t -> subs t !! i = Some s -> sub_ok (buffer t) (closed t) s' -> evicted s' = evicted s ->
  topic_ok (set_subs t (<[i := s']> (subs t))).
Proof.
  intros [H1 H2 H3 H4 H5] Hs Hs' He. split; cbn; try done.
  - by apply Forall_insert.
  - rewrite (total_insert _ _ _ _ Hs). lia.
  - by rewrite length_insert.
Qed.

Lemma set_pub_ok t p pub :
  topic_ok t -> closed t = false -> Forall (fun i => (i < length (subs t))%nat) (p_rest pub) ->
  topic_ok (set_publishers t (<[p := pub]> (publishers t))).
Proof. intros [H1 H2 H3 H4 H5] Hc Hp. split; cbn; try done; [by apply map_Forall_insert_2|congruence]. Qed.

Lemma active_open t p pub : topic_ok t -> publishers t !! p = Some pub -> closed t = false.
Proof. intros [_ _ _ _ H] Hp. destruct (closed t); [|done]. rewrite (H eq_refl) in Hp. by rewrite lookup_empty in Hp. Qed.

Lemma topic_sub t i s : topic_ok t -> subs t !! i = Some s -> sub_ok (buffer t) (closed t) s.
Proof. intros [_ H _ _ _] Hs. by apply (Forall_lookup_1 _ _ _ _ H Hs). Qed.

Lemma trySend_ok t p t' : topic_ok t -> trySend t p = Some t' -> topic_ok t'.
Proof.
  intros Ht. unfold trySend. destruct (publishers t !! p) as [[ev [|i rest] []]|] eqn:Ep; try done.
  destruct (subs t !! i) as [s|] eqn:Es; [|done]. pose proof (active_open t p _ Ht Ep) as Hc.
  pose proof (map_Forall_lookup_1 _ _ _ _ (to_pubs _ Ht) Ep) as Hr. cbn in Hr.
  destruct (Z.ltb_spec (Z.of_nat (length (queue s))) (buffer t)) as [Hl|Hl]; intros [= <-].
  - apply (set_pub_ok (set_subs t _)); [|done|].
    + pose proof (topic_sub t i s Ht Es) as Hs. apply (set_sub_ok t i s); try done. rewrite Hc in *. by apply push_ok.
    + cbn. rewrite length_insert. by apply Forall_cons in Hr as [_ ?].
  - by apply set_pub_ok.
Qed.

Lemma evict_ok t p t' : topic_ok t -> evictOldest t p = Some t' -> topic_ok t'.
Proof.
  intros Ht. unfold evictOldest. destruct (publishers t !! p) as [[ev [|i rest] []]|] eqn:Ep; try done.
  destruct (subs t !! i) as [s|] eqn:Es; [|done]. pose proof (active_open t p _ Ht Ep) as Hc.
  pose proof (map_Forall_lookup_1 _ _ _ _ (to_pubs _ Ht) Ep) as Hr. cbn in Hr.
  pose proof (set_pub_ok t p (mkPub ev (i :: rest) false) Ht Hc Hr) as Ht'.
  destruct (queue s) as [|e q] eqn:Eq; intros [= <-]; [done|].
  pose proof (pop_ok _ _ s (topic_sub t i s Ht Es) ltac:(by rewrite Eq)) as Hs. destruct Ht' as [H1 H2 H3 H4 H5].
  split; cbn in *; try done.
  - by apply Forall_insert.
  - rewrite (total_insert _ _ _ _ Es). cbn. lia.
  - by rewrite length_insert.
Qed.

Lemma step_ok t a t' : topic_ok t -> step t a = Some t' -> topic_ok t'.
Proof.
  intros Ht. destruct a as [| |p ev h|p|p|p|i|i b|i]; cbn [step].
  - unfold Subscribe. case_bool_decide as Hp; [|done]. intros [= <-]. destruct (closed t) eqn:Hc; [done|].
    destruct Ht as [H1 H2 H3 H4 H5]. split; cbn; try done.
    + apply Forall_app. split; [done|]. constructor; [|constructor]. by split; cbn; try done; lia.
    + rewrite total_snoc. cbn. lia.
    + rewrite Hp. apply map_Forall_empty.
  - unfold Close. case_bool_decide as Hp; [|done]. intros [= <-]. destruct (closed t) eqn:Hc; [done|].
    destruct Ht as [H1 H2 H3 H4 H5]. split; cbn; try done. eapply Forall_impl; [exact H2|]. rewrite Hc.
    intros s [A1 A2 A3 A4]. split; try done. intros He. by destruct (A4 He).
  - unfold startPublish. destruct (publishers t !! p) eqn:Ep; [done|]. destruct (closed t) eqn:Hc; [by intros [= <-]|].
    intros [= <-]. assert (topic_ok (if h then count_hook_panic t else t)) as Ht'.
    { destruct h; [|done]. destruct Ht as [H1 H2 H3 H4 H5]. by split. }
    assert (closed (if h then count_hook_panic t else t) = false) as Hc' by (by destruct h).
    apply (set_pub_ok _ _ _ Ht' Hc'). cbn. apply Forall_seq. lia.
  - by apply trySend_ok.
  - by apply evict_ok.
  - unfold finishPublish. destruct (publishers t !! p) as [[ev [|i rest] f]|] eqn:Ep; try done. intros [= <-].
    destruct Ht as [H1 H2 H3 H4 H5]. split; cbn; try done; [by apply map_Forall_delete|].
    intros Hc. rewrite (H5 Hc) in *. by rewrite lookup_empty in Ep.
  - unfold receive. destruct (subs t !! i) as [s|] eqn:Es; [|done]. destruct (hand s) eqn:Eh; [done|].
    destruct (queue s) eqn:Eq; [done|]. destruct (exited s) eqn:Ee; [done|]. intros [= <-].
    eapply set_sub_ok; [done|done|by apply pull_ok, Ee; [by eapply topic_sub|]|done].
  - unfold deliver. destruct (subs t !! i) as [s|] eqn:Es; [|done]. destruct (hand s) as [e|] eqn:Eh; [|done]. intros [= <-].
    assert (topic_ok (set_subs t (<[i := handle e s]> (subs t)))) as Ht'.
    { eapply set_sub_ok; [done|done|by apply handle_ok; [eapply topic_sub|]|done]. }
    destruct b; [|done]. destruct Ht' as [H1 H2 H3 H4 H5]. by split.
  - unfold exitDrain. destruct (subs t !! i) as [s|] eqn:Es; [|done]. destruct (hand s) eqn:Eh; [done|].
    destruct (queue s) eqn:Eq; [|done]. destruct (closed t) eqn:Hc; [|done]. destruct (exited s); [done|]. intros [= <-].
    eapply set_sub_ok; [done|done| |done]. pose proof (topic_sub t i s Ht Es) as Hs. rewrite Hc in *. apply leave_ok; [done|].
    unfold in_flight. by rewrite Eh, Eq.
Qed.

Lemma run_ok l t t' : topic_ok t -> run t l = Some t' -> topic_ok t'.
Proof.
  revert t. induction l as [|a l IH]; intros t Ht; cbn; [by intros [= <-]|].
  intros (t1 & E1 & E)%bind_Some. eapply IH; [|done]. by eapply step_ok.
Qed.

Lemma NewTopic_ok nil buf t : NewTopic nil buf = Ok t -> topic_ok t.
Proof.
  unfold NewTopic. destruct nil; [done|]. destruct (Z.leb_spec (default DefaultBuffer buf) 0); [done|]. intros [= <-].
  by split; cbn.
Qed.

(** Whatever the interleaving of publishers, subscribers, drain goroutines and
    [Close], no queue grows beyond the buffer, each subscriber handles and holds
    a subsequence, in order, of what was sent to it, the difference is exactly
    the evictions counted for it, the topic's drop counter is their sum, and no
    publisher is in its fan-out once the queues are closed. *)
Theorem accounting nil buf t0 l t :
  NewTopic nil buf = Ok t0 -> run t0 l = Some t ->
  Forall (fun s => Z.of_nat (length (queue s)) <= buffer t /\
                   handled s ++ in_flight s `sublist_of` sent s /\
                   Z.of_nat (length (sent s)) = Z.of_nat (length (handled s ++ in_flight s)) + evicted s) (subs t) /\
  droppedTotal t = total (subs t) /\ (closed t = true -> publishers t = ∅).
Proof.
  intros H0 Hl. pose proof (run_ok l t0 t (NewTopic_ok _ _ _ H0) Hl) as [_ H2 H3 _ H5]. split; [|done].
  eapply Forall_impl; [exact H2|]. by intros s [? ? ? _].
Qed.

(** ** Closing *)

Definition drains (a : action) : bool := match a with AReceive _ | ADeliver _ _ | AExit _ => true | _ => false end.

(** What the drain goroutines have left to do. *)
Definition sub_work (s : subscriber) : nat :=
  2 * length (queue s) + (if hand s is Some _ then 1 else 0) + (if exited s then 0 else 1).
Fixpoint work (l : list subscriber) : nat := match l with [] => 0 | s :: l => sub_work s + work l end.

Lemma work_insert l i s s' : l !! i = Some s -> (sub_work s' < sub_work s)%nat -> (work (<[i := s']> l) < work l)%nat.
Proof.
  revert i. induction l as [|x l IH]; [done|]. intros [|i] E Hw.
  { injection E as ->. change (sub_work s' + work l < sub_work s + work l)%nat. lia. }
  change (work (<[S i := s']> (x :: l))) with (sub_work x + work (<[i := s']> l))%nat. specialize (IH i E Hw). cbn [work]. lia.
Qed.

Lemma drain_decreases t a t' : step t a = Some t' -> drains a = true ->
  (work (subs t') < work (subs t))%nat /\ closed t' = closed t /\ publishers t' = publishers t.
Proof.
  destruct a as [| | | | | |i|i b|i]; try done; cbn [step]; intros E _.
  - unfold receive in E. destruct (subs t !! i) as [s|] eqn:Es; [|done]. destruct (hand s) eqn:Eh; [done|].
    destruct (queue s) as [|e q] eqn:Eq; [done|]. destruct (exited s) eqn:Ee; [done|]. injection E as <-. split; [|done].
    apply (work_insert _ _ s); [done|]. unfold pull, sub_work. rewrite Eq, Eh, Ee. cbn. lia.
  - unfold deliver in E. destruct (subs t !! i) as [s|] eqn:Es; [|done]. destruct (hand s) as [e|] eqn:Eh; [|done].
    assert (work (<[i := handle e s]> (subs t)) < work (subs t))%nat as Hw.
    { apply (work_insert _ _ s); [done|]. unfold handle, sub_work. rewrite Eh. cbn. lia. }
    destruct b; injection E as <-; (split; [exact Hw|done]).
  - unfold exitDrain in E. destruct (subs t !! i) as [s|] eqn:Es; [|done]. destruct (hand s) eqn:Eh; [done|].
    destruct (queue s) as [|e q] eqn:Eq; [|done]. destruct (closed t) eqn:Hc; [|done]. destruct (exited s) eqn:Ee; [done|]. injection E as <-.
    split; [|done]. apply (work_insert _ _ s); [done|]. unfold leave, sub_work. rewrite Eq, Eh, Ee. cbn. lia.
Qed.

Definition all_exited (t : Topic) : Prop := Forall (fun s => exited s = true) (subs t).

Lemma drain_enabled t : topic_ok t -> closed t = true -> all_exited t \/ exists a t', drains a = true /\ step t a = Some t'.
Proof.
  intros Ht Hc. destruct (decide (all_exited t)) as [|Hne]; [by left|right].
  apply not_Forall_Exists, Exists_exists in Hne as (s & (i & Hi)%list_elem_of_lookup & Hs); [|apply _].
  apply not_true_is_false in Hs. destruct (hand s) as [e|] eqn:Eh.
  - eexists (ADeliver i false), _. split; [done|]. cbn [step]. unfold deliver. by rewrite Hi, Eh.
  - destruct (queue s) as [|e q] eqn:Eq.
    + eexists (AExit i), _. split; [done|]. cbn [step]. unfold exitDrain. by rewrite Hi, Eh, Eq, Hc, Hs.
    + eexists (AReceive i), _. split; [done|]. cbn [step]. unfold receive. by rewrite Hi, Eh, Eq, Hs.
Qed.

Lemma drain_reaches t : topic_ok t -> closed t = true ->
  exists l t', Forall (fun a => drains a = true) l /\ run t l = Some t' /\ all_exited t' /\ closed t' = true.
Proof.
  remember (work (subs t)) as n eqn:En. revert t En. induction n as [n IH] using lt_wf_ind. intros t -> Ht Hc.
  destruct (drain_enabled t Ht Hc) as [He|(a & t1 & Ha & E)]; [by exists [], t|].
  destruct (drain_decreases t a t1 E Ha) as (Hw & Hc1 & _).
  destruct (IH _ Hw t1 eq_refl) as (l & t' & Hl & Hr & H'); [by eapply step_ok|congruence|].
  exists (a :: l), t'. split; [by constructor|]. split; [|done]. cbn. by rewrite E.
Qed.

(** Once closed, only drain goroutines change the topic. *)
Lemma closed_frozen t a t' : topic_ok t -> closed t = true -> step t a = Some t' -> t' = t \/ drains a = true.
Proof.
  intros Ht Hc. destruct a as [| |p ev h|p|p|p|i|i b|i]; cbn [step drains]; try (by right).
  - unfold Subscribe. rewrite Hc. case_bool_decide; [|done]. intros [= <-]. by left.
  - unfold Close. rewrite Hc. case_bool_decide; [|done]. intros [= <-]. by left.
  - unfold startPublish. rewrite Hc. destruct (publishers t !! p); [done|]. intros [= <-]. by left.
  - unfold trySend. by rewrite (to_closed t Ht Hc), lookup_empty.
  - unfold evictOldest. by rewrite (to_closed t Ht Hc), lookup_empty.
  - unfold finishPublish. by rewrite (to_closed t Ht Hc), lookup_empty.
Qed.

(** C26: [Close] returns, and loses nothing that is queued.  In a closed topic every
    further action is refused or is a step of a drain goroutine; each such step
    reduces the work left, one is possible until all have returned, so they all
    return; and then each subscriber has handled everything sent to it but what
    was evicted. *)
Theorem close_drains nil buf t0 l t :
  NewTopic nil buf = Ok t0 -> run t0 l = Some t -> closed t = true ->
  (forall a t', step t a = Some t' -> t' = t \/ (drains a = true /\ (work (subs t') < work (subs t))%nat)) /\
  (all_exited t \/ exists a t', drains a = true /\ step t a = Some t') /\
  (exists l' t', Forall (fun a => drains a = true) l' /\ run t l' = Some t' /\ all_exited t') /\
  (all_exited t -> Forall (fun s => handled s `sublist_of` sent s /\
                             Z.of_nat (length (sent s)) = Z.of_nat (length (handled s)) + evicted s) (subs t)).
Proof.
  intros H0 Hl Hc. pose proof (run_ok l t0 t (NewTopic_ok _ _ _ H0) Hl) as Ht. split_and!.
  - intros a t' E. destruct (closed_frozen t a t' Ht Hc E) as [->|Hd]; [by left|right]. split; [done|]. by eapply drain_decreases.
  - by apply drain_enabled.
  - destruct (drain_reaches t Ht Hc) as (l' & t' & H1 & H2 & H3 & _). by exists l', t'.
  - intros He. pose proof (to_subs t Ht) as Hs. apply Forall_forall. intros s Hin.
    rewrite Forall_forall in Hs. destruct (Hs s Hin) as [_ H2 H3 H4]. unfold all_exited in He. rewrite Forall_forall in He.
    destruct (H4 (He s Hin)) as [_ Hn]. rewrite Hn, app_nil_r in *. done.
Qed.

(** ** Publishing *)

Lemma Forall2_with_l {A B} (P : A -> Prop) (R : A -> B -> Prop) l k :
  Forall P l -> Forall2 R l k -> Forall2 (fun a b => P a /\ R a b) l k.
Proof. intros HP HR. revert HP. induction HR; intros HP; constructor; apply Forall_cons in HP as [? ?]; auto. Qed.

(** The last [b] of a list. *)
Definition newest {A} (b : nat) (l : list A) : list A := drop (length l - b) l.

Lemma newest_short {A} b (l : list A) : (length l <= b)%nat -> newest b l = l.
Proof. intros H. unfold newest. by replace (length l - b)%nat with 0%nat by lia. Qed.

Lemma newest_snoc {A} b (l : list A) e : (0 < b)%nat -> newest b (newest b l ++ [e]) = newest b (l ++ [e]).
Proof.
  intros Hb. unfold newest. rewrite !length_app, length_drop. cbn [length].
  destruct (decide (length l <= b)%nat) as [H|H].
  - replace (length l - b)%nat with 0%nat by lia. by rewrite Nat.sub_0_r, drop_0.
  - rewrite !drop_app_le by (rewrite ?length_drop; lia). rewrite drop_drop. f_equal. f_equal. lia.
Qed.

Lemma newest_app_l {A} b (l l' : list A) : (0 < b)%nat -> newest b (newest b l ++ l') = newest b (l ++ l').
Proof.
  intros Hb. induction l' as [|e l' IH] using rev_ind; [rewrite !app_nil_r|].
  - unfold newest at 1. unfold newest. rewrite length_drop, drop_drop. f_equal. lia.
  - rewrite !app_assoc, <- (newest_snoc b (newest b l ++ l')), IH by done. by apply newest_snoc.
Qed.

(** What a publisher alone does to one subscriber. *)
Definition offer (b : Z) (e : Event) (s : subscriber) : subscriber :=
  if Z.of_nat (length (queue s)) <? b then push e s else push e (pop s).

Lemma offer_queue b e s :
  0 < b -> Z.of_nat (length (queue s)) <= b ->
  queue (offer b e s) = newest (Z.to_nat b) (queue s ++ [e]) /\ sent (offer b e s) = sent s ++ [e] /\
  handled (offer b e s) = handled s /\ hand (offer b e s) = hand s.
Proof.
  intros Hb Hl. unfold offer. destruct (Z.ltb_spec (Z.of_nat (length (queue s))) b) as [H|H]; cbn; (split; [|done]).
  - rewrite newest_short; [done|]. rewrite length_app. cbn. lia.
  - unfold newest. rewrite length_app. cbn [length]. destruct (queue s) as [|x q] eqn:E; [cbn in *; lia|]. cbn [length tail] in *.
    by replace (S (length q) + 1 - Z.to_nat b)%nat with 1%nat by lia.
Qed.

Definition same_counters (t t' : Topic) : Prop :=
  buffer t' = buffer t /\ closed t' = closed t /\ publishedTotal t' = publishedTotal t /\ panicsRecovered t' = panicsRecovered t /\
  hookPanicsRecovered t' = hookPanicsRecovered t.

Lemma trySend_room t p ev i rest s :
  publishers t !! p = Some (mkPub ev (i :: rest) false) -> subs t !! i = Some s -> Z.of_nat (length (queue s)) < buffer t ->
  trySend t p = Some (set_publishers (set_subs t (<[i := push ev s]> (subs t))) (<[p := mkPub ev rest false]> (publishers t))).
Proof. intros Hp Hs Hl. unfold trySend. rewrite Hp, Hs. by apply Z.ltb_lt in Hl as ->. Qed.

Lemma trySend_full t p ev i rest s :
  publishers t !! p = Some (mkPub ev (i :: rest) false) -> subs t !! i = Some s -> buffer t <= Z.of_nat (length (queue s)) ->
  trySend t p = Some (set_publishers t (<[p := mkPub ev (i :: rest) true]> (publishers t))).
Proof. intros Hp Hs Hl. unfold trySend. rewrite Hp, Hs. by apply Z.ltb_ge in Hl as ->. Qed.

Lemma evict_some t p ev i rest s :
  publishers t !! p = Some (mkPub ev (i :: rest) true) -> subs t !! i = Some s -> queue s <> [] ->
  evictOldest t p = Some (count_drop (set_subs (set_publishers t (<[p := mkPub ev (i :: rest) false]> (publishers t))) (<[i := pop s]> (subs t)))).
Proof. intros Hp Hs Hl. unfold evictOldest. rewrite Hp, Hs. by destruct (queue s). Qed.

Lemma enqueue_spec t p ev i rest s :
  publishers t !! p = Some (mkPub ev (i :: rest) false) -> subs t !! i = Some s -> 0 < buffer t -> Z.of_nat (length (queue s)) <= buffer t ->
  exists t', enqueue 2 t p = Some t' /\ subs t' = <[i := offer (buffer t) ev s]> (subs t) /\
    publishers t' = <[p := mkPub ev rest false]> (publishers t) /\ same_counters t t'.
Proof.
  intros Hp Hs Hb Hl. unfold offer. cbn [enqueue].
  destruct (Z.ltb_spec (Z.of_nat (length (queue s))) (buffer t)) as [H|H].
  - rewrite (trySend_room t p ev i rest s) by done. cbn [mbind option_bind publishers set_publishers]. rewrite lookup_insert_eq.
    eexists. by split_and!.
  - rewrite (trySend_full t p ev i rest s) by done. cbn [mbind option_bind publishers set_publishers]. rewrite lookup_insert_eq.
    assert (queue s <> []) as Hne by (intros E; rewrite E in *; cbn in *; lia).
    rewrite (evict_some _ p ev i rest s) by (done || by cbn; rewrite lookup_insert_eq). cbn [mbind option_bind].
    rewrite (trySend_room _ p ev i rest (pop s)).
    + cbn [mbind option_bind publishers set_publishers subs set_subs count_drop]. rewrite lookup_insert_eq. eexists.
      split_and!; [done|by cbn; rewrite list_insert_insert_eq|by cbn; rewrite !insert_insert_eq|done].
    + cbn. by rewrite lookup_insert_eq.
    + cbn. rewrite list_lookup_insert_eq; [done|by eapply lookup_lt_Some].
    + cbn. destruct (queue s); [done|]. cbn in *. lia.
Qed.

Lemma fan_out_spec n k t p ev :
  publishers t !! p = Some (mkPub ev (seq k n) false) -> (k + n = length (subs t))%nat -> 0 < buffer t ->
  Forall (fun s => Z.of_nat (length (queue s)) <= buffer t) (drop k (subs t)) ->
  exists t', fan_out n t p = Some t' /\ subs t' = take k (subs t) ++ (offer (buffer t) ev <$> drop k (subs t)) /\
    publishers t' = <[p := mkPub ev [] false]> (publishers t) /\ same_counters t t'.
Proof.
  revert k t. induction n as [|n IH]; intros k t Hp Hk Hb Hl; cbn [fan_out].
  - exists t. rewrite drop_ge, take_ge by lia. cbn. rewrite app_nil_r. split_and!; try done. by rewrite insert_id.
  - destruct (lookup_lt_is_Some_2 (subs t) k ltac:(lia)) as [s Hs]. rewrite (drop_S _ _ _ Hs) in Hl. apply Forall_cons in Hl as [Hls Hl].
    destruct (enqueue_spec t p ev k (seq (S k) n) s Hp Hs Hb Hls) as (t1 & -> & Hs1 & Hp1 & Hc1). cbn [mbind option_bind].
    pose proof Hc1 as (Hb1 & _). assert (drop (S k) (subs t1) = drop (S k) (subs t)) as Hd by (by rewrite Hs1, drop_insert_lt by lia).
    destruct (IH (S k) t1) as (t' & -> & Hs' & Hp' & Hc').
    + by rewrite Hp1, lookup_insert_eq.
    + rewrite Hs1, length_insert. lia.
    + by rewrite Hb1.
    + by rewrite Hd, Hb1.
    + exists t'. split; [done|]. split_and!.
      * rewrite Hs', Hd, Hb1, (drop_S _ _ _ Hs). cbn [fmap list_fmap]. rewrite Hs1.
        rewrite (take_S_r _ _ (offer (buffer t) ev s)) by (rewrite list_lookup_insert_eq; [done|by eapply lookup_lt_Some]).
        by rewrite take_insert_ge, <- app_assoc by lia.
      * by rewrite Hp', Hp1, insert_insert_eq.
      * unfold same_counters in *. naive_solver congruence.
Qed.

Lemma enqueue_ok fuel t p t' : topic_ok t -> enqueue fuel t p = Some t' -> topic_ok t'.
Proof.
  revert t. induction fuel as [|fuel IH]; intros t Ht; cbn [enqueue]; [done|]. intros (t1 & E1 & E)%bind_Some.
  apply trySend_ok in E1; [|done]. destruct (publishers t1 !! p) as [[ev rest []]|]; [|by simplify_eq..].
  apply bind_Some in E as (t2 & E2 & E). eapply IH; [|done]. by eapply evict_ok.
Qed.

Lemma fan_out_ok n t p t' : topic_ok t -> fan_out n t p = Some t' -> topic_ok t'.
Proof.
  revert t. induction n as [|n IH]; intros t Ht; cbn [fan_out]; [by intros [= <-]|]. intros (t1 & E1 & E)%bind_Some.
  eapply IH; [|done]. by eapply enqueue_ok.
Qed.

Lemma Publish_alone t p ev h :
  topic_ok t -> closed t = false -> publishers t !! p = None ->
  exists t', Publish t p ev h = Some (true, t') /\ topic_ok t' /\ subs t' = offer (buffer t) ev <$> subs t /\
    publishers t' = publishers t /\ buffer t' = buffer t /\ closed t' = false /\ publishedTotal t' = publishedTotal t + 1.
Proof.
  intros Ht Hc Hp. unfold Publish, startPublish. rewrite Hc, Hp. cbn [mbind option_bind].
  set (t0 := if h then count_hook_panic t else t). set (t1 := set_publishers t0 _).
  assert (startPublish t p ev h = Some t1) as E1 by (unfold startPublish; by rewrite Hp, Hc).
  assert (topic_ok t1) as Ht1 by (by apply (step_ok t (AStart p ev h))).
  assert (subs t1 = subs t /\ buffer t1 = buffer t /\ closed t1 = false /\ publishedTotal t1 = publishedTotal t /\
          publishers t1 = <[p := mkPub ev (seq 0 (length (subs t))) false]> (publishers t)) as (H1 & H2 & H3 & H4 & H5).
  { unfold t1, t0. by destruct h. }
  destruct (fan_out_spec (length (subs t)) 0 t1 p ev) as (t2 & E2 & Hs2 & Hp2 & Hb2 & Hc2 & Hpt2 & _).
  { by rewrite H5, lookup_insert_eq. } { by rewrite H1. } { apply to_buffer, Ht1. }
  { eapply Forall_impl; [apply (to_subs t1 Ht1)|]. by intros s [? _ _ _]. }
  assert (finishPublish t2 p = Some (count_published (set_publishers t2 (delete p (publishers t2))))) as E3.
  { unfold finishPublish. by rewrite Hp2, lookup_insert_eq. }
  rewrite E2. cbn [mbind option_bind]. rewrite E3. cbn [mbind option_bind]. eexists. split; [done|].
  split_and!; cbn.
  - apply (step_ok t2 (AFinish p)); [|exact E3]. by eapply fan_out_ok.
  - rewrite Hs2, H1, H2. by rewrite drop_0.
  - by rewrite Hp2, H5, insert_insert_eq, delete_insert_id.
  - by rewrite Hb2.
  - by rewrite Hc2.
  - lia.
Qed.

Fixpoint publish_all (t : Topic) (p : nat) (evs : list Event) : option Topic :=
  match evs with
  | [] => Some t
  | ev :: evs => match Publish t p ev false with Some (true, t') => publish_all t' p evs | _ => None end
  end.

(** Newest wins.  A publisher that runs undisturbed on an open topic never
    blocks and is never refused: after it has published a list of events, every
    subscriber's queue holds the newest of the events queued before and
    published since, up to the buffer, in order; all of them were sent to it,
    its handler has seen nothing new, and the accepted events are counted. *)
Theorem publish_newest_wins t p evs :
  topic_ok t -> closed t = false -> publishers t !! p = None ->
  exists t', publish_all t p evs = Some t' /\ topic_ok t' /\ publishedTotal t' = publishedTotal t + Z.of_nat (length evs) /\
    Forall2 (fun s s' => queue s' = newest (Z.to_nat (buffer t)) (queue s ++ evs) /\ sent s' = sent s ++ evs /\
                         handled s' = handled s /\ hand s' = hand s) (subs t) (subs t').
Proof.
  revert t. induction evs as [|ev evs IH]; intros t Ht Hc Hp; cbn [publish_all].
  - exists t. split_and!; [done|done|cbn; lia|]. apply Forall_Forall2_diag. eapply Forall_impl; [apply (to_subs t Ht)|].
    intros s [Hb _ _ _]. rewrite !app_nil_r, newest_short by lia. done.
  - destruct (Publish_alone t p ev false Ht Hc Hp) as (t1 & -> & Ht1 & Hs1 & Hp1 & Hb1 & Hc1 & Hn1).
    destruct (IH t1 Ht1 Hc1 ltac:(by rewrite Hp1)) as (t' & -> & Ht' & Hn' & Hs'). exists t'. split_and!; [done|done|cbn; lia|].
    rewrite Hs1 in Hs'. apply Forall2_fmap_l in Hs'. pose proof (to_subs t Ht) as Hok. pose proof (to_buffer t Ht) as Hb.
    rewrite Hb1 in Hs'. eapply Forall2_impl; [apply (Forall2_with_l _ _ _ _ Hok Hs')|].
    intros s s' [[Hsb _ _ _] (Q1 & Q2 & Q3 & Q4)]. destruct (offer_queue (buffer t) ev s Hb Hsb) as (O1 & O2 & O3 & O4).
    rewrite Q1, Q2, Q3, Q4, O1, O2, O3, O4, <- app_assoc. split; [|done]. rewrite (newest_app_l _ _ evs) by lia. by rewrite <- app_assoc.
Qed.

End Topic.
Arguments Event : clear implicits.
Arguments Topic : clear implicits.
Arguments subscriber : clear implicits.
Arguments action : clear implicits.

(** ** A slow subscriber *)

Definition ev (n : Z) : Event Z := mkEvent "id" n "test" n.
Definition demo_run : list (action Z) :=
  [ASubscribe; AStart 0 (ev 1) false; ATrySend 0; AFinish 0; AReceive 0; AStart 0 (ev 2) false; AStart 1 (ev 3) true; ATrySend 0; ATrySend 1;
   AFinish 0; AEvict 1; ADeliver 0 true; ATrySend 1; AFinish 1; AClose].
Definition demo_start : Topic Z := mkTopic 1 [] false ∅ 0 0 0 0.
Definition demo_end : Topic Z :=
  mkTopic 1 [mkSub [ev 3] None false [ev 1; ev 2; ev 3] [ev 1] 1] true ∅ 3 1 1 1.

Lemma accounting_witness :
  run demo_start demo_run = Some demo_end /\ droppedTotal demo_end = total (subs demo_end) /\ publishers demo_end = ∅.
Proof.
  assert (run demo_start demo_run = Some demo_end) as E by (vm_compute; reflexivity). split; [exact E|].
  destruct (accounting false (Some 1) demo_start demo_run demo_end eq_refl E) as (_ & H1 & H2). split; [exact H1|exact (H2 eq_refl)].
Defined.

Lemma close_drains_witness :
  run demo_start demo_run = Some demo_end /\ exists l' t', run demo_end l' = Some t' /\ all_exited t'.
Proof.
  assert (run demo_start demo_run = Some demo_end) as E by (vm_compute; reflexivity). split; [exact E|].
  destruct (close_drains false (Some 1) demo_start demo_run demo_end eq_refl E eq_refl) as (_ & _ & (l' & t' & _ & H1 & H2) & _).
  exists l', t'. split; [exact H1|exact H2].
Defined.

Definition one_slow : Topic Z := mkTopic 2 [mkSub [ev 1] (Some (ev 0)) false [ev 0; ev 1] [] 0] false ∅ 2 0 0 0.

Lemma publish_newest_wins_witness :
  exists t', publish_all one_slow 0 [ev 2; ev 3] = Some t' /\ queue <$> subs t' = [[ev 2; ev 3]].
Proof.
  destruct (publish_newest_wins one_slow 0 [ev 2; ev 3]) as (t' & E & _ & _ & H).
  - split; [done| |done|done|done]. constructor; [|constructor]. by split.
  - done.
  - done.
  - exists t'. split; [exact E|]. apply Forall2_cons_inv_l in H as (s' & k & (Hq & _) & Hk & ->). apply Forall2_nil_inv_l in Hk as ->.
    cbn [fmap list_fmap]. rewrite Hq. reflexivity.
Defined.

End PubSub.
