(* ===== verification/AgentIdentity.v ===== *)
(** * Who an agent is

    internal/auth/identity.go and agent_cert.go (names and URI SANs), and the
    identity gate of the agent listener in controlplane/agent:
    peer_lookup_moby.go, handler.go and identity_interceptor.go.  A call is
    admitted when the peer's address belongs to exactly one agent container and
    the peer's certificate names the agent that container's labels name. *)

From S2P Require Import Prelude GoStrings GoNet.
Import Go.

Module AgentIdentity.

(** ** Names *)

(** A name is valid when it is not empty; the empty project is the global one. *)
Definition NewAgentName (s : string) : option string := if String.eqb s "" then None else Some s.
Definition NewProjectSlug (s : string) : option string := Some s.

Definition NamePrefix : string := "clawker".
Definition AgentFullName (project agent : string) : string :=
  if String.eqb project "" then NamePrefix +:+ "." +:+ agent else NamePrefix +:+ "." +:+ project +:+ "." +:+ agent.

(** ** Certificates *)

(** A leaf certificate: its subject, its URI SANs as strings ([None] is a nil
    URL) and its DER bytes. *)
Record Cert := mkCert { CommonName : string; URIs : list (option string); Raw : string }.

Inductive sanState := sanMissing | sanMalformed | sanFound (tail : string).

Definition ContainerSANScheme : string := "urn:clawker:container:".
Definition AgentSANScheme : string := "urn:clawker:agent:".

Fixpoint san_tail (uris : list (option string)) (prefix : string) : sanState :=
  match uris with
  | [] => sanMissing
  | None :: uris => san_tail uris prefix
  | Some s :: uris =>
      match strip_prefix prefix s with
      | None => san_tail uris prefix
      | Some tail => if String.eqb tail "" then sanMalformed else sanFound tail
      end
  end.
Definition sanTailFromCert (cert : option Cert) (prefix : string) : sanState :=
  match cert with None => sanMissing | Some c => san_tail (URIs c) prefix end.

Definition ContainerIDFromCert (cert : option Cert) : sanState := sanTailFromCert cert ContainerSANScheme.
Definition AgentFullNameFromCert (cert : option Cert) : sanState := sanTailFromCert cert AgentSANScheme.

Definition is_hex_lower (c : ascii) : bool := is_digit c || ((97 <=? code c) && (code c <=? 102)).
Definition isHexLower (s : string) : bool := negb (String.eqb s "") && all_chars is_hex_lower s.

(** [url.Parse] leaves a scheme with a hexadecimal opaque part as it is. *)
Definition BuildContainerSAN (containerID : string) : option string :=
  if isHexLower containerID then Some (ContainerSANScheme +:+ containerID) else None.

(** ** The container behind an address *)

Record ResolvedContainer := mkResolved { ContainerID : string; Project : string; AgentName : string }.

(** What [ContainerInspect] answers: the address on the clawker network, if the
    container has a valid one there, and the labels. *)
Record Inspected := mkInspected { in_id : string; in_addr : option GoNet.Addr; in_labels : gmap string string }.

Inductive lookup_error := ErrListContainers | ErrNoContainerForPeerIP | ErrInvalidAgentLabel | ErrAmbiguousPeerIP | ErrInspectFailed.

Definition LabelProject : string := "dev.clawker.project".
Definition LabelAgent : string := "dev.clawker.agent".

Definition Unmap (a : GoNet.Addr) : GoNet.Addr :=
  match GoNet.To4 a with Some b => GoNet.Addr4 b | None => a end.

Definition matches_ip (wanted : GoNet.Addr) (c : Inspected) : bool :=
  match in_addr c with Some a => bool_decide (Unmap a = wanted) | None => false end.

(** [listed] is the answer of [ContainerList] for the agent containers. *)
Definition LookupByIP (listed : option (list string)) (inspect : string -> option Inspected) (ip : GoNet.Addr)
    : result lookup_error ResolvedContainer :=
  match listed with
  | None => Err ErrListContainers
  | Some ids =>
      let inspected := omap inspect ids in
      match filter (fun c => matches_ip (Unmap ip) c = true) inspected with
      | _ :: _ :: _ => Err ErrAmbiguousPeerIP
      | [c] =>
          match NewProjectSlug (default "" (in_labels c !! LabelProject)) with
          | None => Err ErrInvalidAgentLabel
          | Some project =>
              match NewAgentName (default "" (in_labels c !! LabelAgent)) with
              | None => Err ErrInvalidAgentLabel
              | Some agentName => Ok (mkResolved (in_id c) project agentName)
              end
          end
      | [] =>
          match inspected, ids with
          | [], _ :: _ => Err ErrInspectFailed
          | _, _ => Err ErrNoContainerForPeerIP
          end
      end
  end.

(** ** The interceptor *)

(** The peer of a call: the first certificate of an authenticated TLS
    connection, and its address when it parses. *)
Record Peer := mkPeer { leaf : option Cert; addr : option GoNet.Addr }.

Definition ContainerClawkerd : string := "clawker-clawkerd".

(** [None] is [codes.PermissionDenied]; [Some ctx] continues with the container
    attached to the context, unless it has no ID. *)
Definition WithResolvedContainer (r : ResolvedContainer) : option ResolvedContainer :=
  if String.eqb (ContainerID r) "" then None else Some r.

Definition resolve (lookup : GoNet.Addr -> result lookup_error ResolvedContainer) (p : Peer) : option (option ResolvedContainer) :=
  match leaf p, addr p with
  | Some cert, Some a =>
      if negb (String.eqb (CommonName cert) ContainerClawkerd) then None
      else
        match AgentFullNameFromCert (Some cert) with
        | sanMissing | sanMalformed => None
        | sanFound fullName =>
            match lookup a with
            | Err _ => None
            | Ok resolved =>
                if String.eqb fullName (AgentFullName (Project resolved) (AgentName resolved))
                then Some (WithResolvedContainer resolved) else None
            end
        end
  | _, _ => None
  end.

(** ** Properties *)

Lemma san_tail_found uris prefix tail :
  san_tail uris prefix = sanFound tail -> Some (prefix +:+ tail) ∈ uris /\ tail <> "".
Proof.
  induction uris as [|[s|] uris IH]; cbn [san_tail]; [done| |intros H; destruct (IH H); split; [by right|done]].
  destruct (strip_prefix prefix s) as [t|] eqn:E; [|intros H; destruct (IH H); split; [by right|done]].
  destruct (String.eqb_spec t ""); [done|]. intros [= <-]. apply strip_prefix_spec in E as ->. split; [left|done].
Qed.

(** A minted container SAN reads back. *)
Lemma container_san_roundtrip id san cn raw before :
  BuildContainerSAN id = Some san -> Forall (fun u => forall s, u = Some s -> strip_prefix ContainerSANScheme s = None) before ->
  ContainerIDFromCert (Some (mkCert cn (before ++ [Some san]) raw)) = sanFound id.
Proof.
  unfold BuildContainerSAN. destruct (isHexLower id) eqn:Eh; [|done]. intros [= <-] Hb. unfold ContainerIDFromCert, sanTailFromCert.
  cbn [URIs]. induction Hb as [|u before Hu _ IH]; cbn [app san_tail].
  - assert (strip_prefix ContainerSANScheme (ContainerSANScheme +:+ id) = Some id) as -> by (by apply strip_prefix_spec).
    apply andb_true_iff in Eh as [Hne _]. by apply negb_true_iff in Hne as ->.
  - destruct u as [s|]; [|done]. by rewrite (Hu s eq_refl).
Qed.

Definition no_dot (s : string) : Prop := all_chars (fun d => negb (Ascii.eqb "." d)) s = true.

(** A name composed from parts without dots determines them. *)
Lemma AgentFullName_inj p a p' a' :
  no_dot p -> no_dot a -> no_dot p' -> no_dot a' -> AgentFullName p a = AgentFullName p' a' -> p = p' /\ a = a'.
Proof.
  intros Hp Ha Hp' Ha'. unfold AgentFullName. assert (Hpre : forall s t, NamePrefix +:+ "." +:+ s = NamePrefix +:+ "." +:+ t -> s = t).
  { intros s t H. by injection H. }
  assert (Hdot : forall q b c, no_dot c -> q +:+ "." +:+ b = c -> False).
  { intros q b c Hc <-. unfold no_dot in Hc. rewrite all_chars_append in Hc. cbn in Hc. by rewrite andb_false_r in Hc. }
  destruct (String.eqb_spec p "") as [->|Hne], (String.eqb_spec p' "") as [->|Hne']; intros E%Hpre.
  - done.
  - by exfalso; eapply (Hdot p' a' a).
  - by exfalso; eapply (Hdot p a a').
  - by apply last_sep_inj in E.
Qed.

(** Who the admitted caller is: the only agent container at its address. *)
Lemma LookupByIP_ok listed inspect ip r :
  LookupByIP listed inspect ip = Ok r ->
  exists ids c, listed = Some ids /\ filter (fun c => matches_ip (Unmap ip) c = true) (omap inspect ids) = [c] /\
    r = mkResolved (in_id c) (default "" (in_labels c !! LabelProject)) (default "" (in_labels c !! LabelAgent)) /\ AgentName r <> "".
Proof.
  unfold LookupByIP. destruct listed as [ids|]; [|done].
  destruct (filter _ _) as [|c [|c' l]] eqn:E; [by destruct (omap inspect ids), ids| |done].
  cbn [NewProjectSlug]. unfold NewAgentName. destruct (String.eqb_spec (default "" (in_labels c !! LabelAgent)) ""); [done|]. intros [= <-].
  by exists ids, c.
Qed.

(** A call gets through the identity gate only as the container it comes
    from.  If the gate attaches a container, the peer presented a certificate of
    the clawkerd binary whose agent SAN is the full name of the container's
    project and agent labels, and the container is the only listed agent
    container with the peer's address; in every other case (no certificate, no
    address, another common name, no or an empty SAN, no or several containers
    at the address, an empty agent label, Docker errors) the call is refused. *)
Theorem resolve_sound listed inspect p r :
  resolve (LookupByIP listed inspect) p = Some (Some r) ->
  exists cert a ids c, leaf p = Some cert /\ addr p = Some a /\ listed = Some ids /\
    CommonName cert = ContainerClawkerd /\
    Some (AgentSANScheme +:+ AgentFullName (Project r) (AgentName r)) ∈ URIs cert /\
    ContainerID r = in_id c /\ Project r = default "" (in_labels c !! LabelProject) /\ in_labels c !! LabelAgent = Some (AgentName r) /\
    filter (fun c => matches_ip (Unmap a) c = true) (omap inspect ids) = [c] /\ ContainerID r <> "".
Proof.
  unfold resolve. destruct (leaf p) as [cert|], (addr p) as [a|]; try done.
  destruct (String.eqb_spec (CommonName cert) ContainerClawkerd) as [Hcn|]; [|done]. cbn [negb].
  destruct (AgentFullNameFromCert (Some cert)) as [| |fullName] eqn:Es; try done.
  destruct (LookupByIP listed inspect a) as [r0|] eqn:El; [|done].
  destruct (String.eqb_spec fullName (AgentFullName (Project r0) (AgentName r0))) as [->|]; [|done].
  unfold WithResolvedContainer. destruct (String.eqb_spec (ContainerID r0) "") as [|Hid]; [done|]. intros [= ->].
  destruct (LookupByIP_ok _ _ _ _ El) as (ids & c & -> & Hf & -> & Hne). apply san_tail_found in Es as [Hs _].
  exists cert, a, ids, c. split_and!; try done. cbn [AgentName] in *. by destruct (in_labels c !! LabelAgent).
Qed.

(** Two agents share a full name when a dot is on either side of the boundary:
    the names are not checked, so the gate cannot tell their certificates
    apart. *)
Example full_name_ambiguous : AgentFullName "app" "web.dev" = AgentFullName "app.web" "dev".
Proof. reflexivity. Qed.

(** ** An agent on the network *)

Definition demo_cert : Cert :=
  mkCert ContainerClawkerd [Some "urn:clawker:container:abc1"; Some "urn:clawker:agent:clawker.app.dev"] "der".
Definition demo_addr : GoNet.Addr := GoNet.Addr4 [172; 18; 0; 5].
Definition demo_container : Inspected := mkInspected "abc1" (Some demo_addr) {[ LabelProject := "app"; LabelAgent := "dev" ]}.

Lemma resolve_sound_witness :
  let r := mkResolved "abc1" "app" "dev" in
  resolve (LookupByIP (Some ["abc1"]) (fun _ => Some demo_container)) (mkPeer (Some demo_cert) (Some demo_addr)) = Some (Some r) /\
  Some (AgentSANScheme +:+ AgentFullName "app" "dev") ∈ URIs demo_cert.
Proof.
  cbn zeta. split; [vm_compute; reflexivity|].
  destruct (resolve_sound (Some ["abc1"]) (fun _ => Some demo_container) (mkPeer (Some demo_cert) (Some demo_addr)) (mkResolved "abc1" "app" "dev"))
    as (cert & a & ids & c & E & _ & _ & _ & H & _); [vm_compute; reflexivity|]. injection E as <-. exact H.
Defined.

End AgentIdentity.
