(* ===== verification/AgentRegistry.v ===== *)
(** * The agent registry and the Register call

    controlplane/agent/registry.go (the contract and the in-memory registry),
    registry_sqlite.go (the registry in use), register_handler.go and the orphan
    reaper of start.go.  Both registries implement one interface; the handler is
    verified against the interface's laws, which the sqlite registry satisfies.

    A thumbprint is the 32 bytes of a SHA-256, here a string; times are
    nanoseconds.  Whether a database call fails is an argument of the call. *)

From S2P Require Import Prelude GoStrings GoNet AgentIdentity.
Import Go AgentIdentity.

Module AgentRegistry.

(** ** Entries *)

Record Entry := mkEntry {
  e_agent : string; e_project : string; e_container : string; e_thumbprint : string; e_registered : Z; e_seen : Z;
}.

#[global] Instance Entry_eq_dec : EqDecision Entry.
Proof. solve_decision. Defined.

(** The zero [time.Time]: the first of January of year 1. *)
Definition zero_time : Z := -62135596800 * 10 ^ 9.

Fixpoint repeat_char (c : ascii) (n : nat) : string := match n with O => "" | S n => String c (repeat_char c n) end.
Definition zero_thumbprint : string := repeat_char (ascii_of_N 0) 32.

Inductive entry_error := ZeroThumbprint | EmptyContainerID | ZeroAgentName | ZeroRegisteredAt.

Definition validateEntry (e : Entry) : result entry_error unit :=
  if String.eqb (e_thumbprint e) zero_thumbprint then Err ZeroThumbprint
  else if String.eqb (e_container e) "" then Err EmptyContainerID
  else if String.eqb (e_agent e) "" then Err ZeroAgentName
  else if e_registered e =? zero_time then Err ZeroRegisteredAt
  else Ok tt.

Definition default_seen (e : Entry) : Entry :=
  if e_seen e =? zero_time then mkEntry (e_agent e) (e_project e) (e_container e) (e_thumbprint e) (e_registered e) (e_registered e) else e.

(** What a lookup answers. *)
Inductive lookup := Found (e : Entry) | UnknownAgent | MalformedEntry | QueryFailed.

(** Who an entry is about. *)
Definition identity (e : Entry) : string * string * string * string := (e_agent e, e_project e, e_container e, e_thumbprint e).

(** [sortEntries]: by project, then by agent. *)
Definition entry_le (a b : Entry) : Prop :=
  if String.eqb (e_project a) (e_project b) then String.leb (e_agent a) (e_agent b) = true
  else String.ltb (e_project a) (e_project b) = true.
#[global] Instance entry_le_dec a b : Decision (entry_le a b).
Proof. unfold entry_le. destruct (String.eqb _ _); apply _. Defined.
Definition sortEntries (l : list Entry) : list Entry := merge_sort entry_le l.

(** ** The contract *)

(** [None] is an error, after which the registry is as before; the first
    argument says whether the database fails. *)
Class Registry (R : Type) := {
  Add : bool -> R -> Entry -> option R;
  LookupByContainerID : bool -> R -> string -> lookup;
  EvictByContainerID : bool -> R -> string -> option R;
  Snapshot : bool -> R -> option (list Entry);
}.

(** What the handler and the reaper rely on, for registries in [reg_ok]. *)
Class RegistryLaws (R : Type) `{Registry R} (reg_ok : R -> Prop) : Prop := {
  add_ok f r e r' : reg_ok r -> Add f r e = Some r' -> reg_ok r';
  evict_ok f r cid r' : reg_ok r -> EvictByContainerID f r cid = Some r' -> reg_ok r';
  add_here f r e r' : reg_ok r -> Add f r e = Some r' -> String.length (e_thumbprint e) = 32%nat ->
    exists e', LookupByContainerID false r' (e_container e) = Found e' /\ identity e' = identity e;
  add_other f r e r' cid : reg_ok r -> Add f r e = Some r' -> cid <> e_container e ->
    LookupByContainerID false r' cid = LookupByContainerID false r cid;
  add_taken f r e r' : reg_ok r -> Add f r e = Some r' -> LookupByContainerID false r (e_container e) = UnknownAgent;
  evict_here f r cid r' : reg_ok r -> EvictByContainerID f r cid = Some r' -> LookupByContainerID false r' cid = UnknownAgent;
  evict_other f r cid cid' r' : reg_ok r -> EvictByContainerID f r cid = Some r' -> cid' <> cid ->
    LookupByContainerID false r' cid' = LookupByContainerID false r cid';
  found_id f r cid e : LookupByContainerID f r cid = Found e -> e_container e = cid;
  lookup_fault r cid : reg_ok r -> LookupByContainerID true r cid = LookupByContainerID false r cid \/
    (cid <> "" /\ LookupByContainerID true r cid = QueryFailed);
  snapshot_spec f r l e : reg_ok r -> Snapshot f r = Some l -> e ∈ l <-> exists cid, LookupByContainerID false r cid = Found e;
}.

(** ** In memory *)

Abbreviation memRegistry := (gmap string Entry).

Definition mem_add (m : memRegistry) (e : Entry) : option memRegistry :=
  match validateEntry e with Err _ => None | Ok _ => Some (<[e_thumbprint e := default_seen e]> m) end.
Definition mem_lookup (m : memRegistry) (cid : string) : lookup :=
  if String.eqb cid "" then UnknownAgent
  else match find (fun e => String.eqb (e_container e) cid) (map_to_list m).*2 with Some e => Found e | None => UnknownAgent end.
Definition mem_evict (m : memRegistry) (cid : string) : memRegistry := filter (fun kv => e_container kv.2 <> cid) m.

#[global] Instance mem_registry : Registry memRegistry := {
  Add _ := mem_add;
  LookupByContainerID _ := mem_lookup;
  EvictByContainerID _ m cid := Some (mem_evict m cid);
  Snapshot _ m := Some (sortEntries (map_to_list m).*2);
}.

(** ** In sqlite *)

(** [hex.EncodeToString] and [hex.DecodeString]. *)
Definition hex_char (n : N) : ascii := if (n <? 10)%N then ascii_of_N (48 + n) else ascii_of_N (87 + n).
Fixpoint hex_encode (s : string) : string :=
  match s with
  | EmptyString => ""
  | String c s => String (hex_char (N.div (N_of_ascii c) 16)) (String (hex_char (N.modulo (N_of_ascii c) 16)) (hex_encode s))
  end.
Definition hex_value (c : ascii) : option N :=
  let n := N_of_ascii c in
  if (48 <=? n)%N && (n <=? 57)%N then Some (n - 48)%N
  else if (97 <=? n)%N && (n <=? 102)%N then Some (n - 87)%N
  else if (65 <=? n)%N && (n <=? 70)%N then Some (n - 55)%N
  else None.
Fixpoint hex_decode (s : string) : option string :=
  match s with
  | EmptyString => Some ""
  | String a (String b s) =>
      match hex_value a, hex_value b, hex_decode s with
      | Some x, Some y, Some r => Some (String (ascii_of_N (x * 16 + y)) r)
      | _, _, _ => None
      end
  | String _ EmptyString => None
  end.

(** A row of the table; times in whole seconds. *)
Record row := mkRow { thumbprint_hex : string; container_id : string; agent_name : string; project : string; registered_at : Z; last_seen : Z }.

Definition unix (t : Z) : Z := t / 10 ^ 9.

Definition scanEntry (r : row) : option Entry :=
  match hex_decode (thumbprint_hex r) with
  | Some tp =>
      if negb (String.length tp =? 32)%nat then None
      else
        match NewAgentName (agent_name r), NewProjectSlug (project r) with
        | Some a, Some p => Some (mkEntry a p (container_id r) tp (registered_at r * 10 ^ 9) (last_seen r * 10 ^ 9))
        | _, _ => None
        end
  | None => None
  end.

Abbreviation sqliteRegistry := (list row).

Definition row_of (e : Entry) : row :=
  let e := default_seen e in
  mkRow (hex_encode (e_thumbprint e)) (e_container e) (e_agent e) (e_project e) (unix (e_registered e)) (unix (e_seen e)).

(** The UNIQUE constraints of the schema refuse a second row of a container or
    of a certificate. *)
Definition sql_add (fault : bool) (t : sqliteRegistry) (e : Entry) : option sqliteRegistry :=
  match validateEntry e with
  | Err _ => None
  | Ok _ =>
      let r := row_of e in
      if fault || existsb (fun x => String.eqb (thumbprint_hex x) (thumbprint_hex r) || String.eqb (container_id x) (container_id r)) t
      then None else Some (t ++ [r])
  end.

Definition sql_row (t : sqliteRegistry) (cid : string) : option row := find (fun r => String.eqb (container_id r) cid) t.
Definition sql_lookup (fault : bool) (t : sqliteRegistry) (cid : string) : lookup :=
  if String.eqb cid "" then UnknownAgent
  else if fault then QueryFailed
  else match sql_row t cid with
       | None => UnknownAgent
       | Some r => match scanEntry r with Some e => Found e | None => MalformedEntry end
       end.
Definition sql_evict (fault : bool) (t : sqliteRegistry) (cid : string) : option sqliteRegistry :=
  if String.eqb cid "" then Some t
  else if fault then None else Some (filter (fun r => container_id r <> cid) t).

#[global] Instance sqlite_registry : Registry sqliteRegistry := {
  Add := sql_add;
  LookupByContainerID := sql_lookup;
  EvictByContainerID := sql_evict;
  Snapshot fault t := if fault then None else Some (sortEntries (omap scanEntry t));
}.

(** ** Register *)

Inductive code := Welcome | InvalidArgument | PermissionDenied | Internal.

(** Which database calls of one Register fail. *)
Record reg_faults := mkFaults { f_lookup : bool; f_evict : bool; f_add : bool }.

Section Handler.
Context {R : Type} `{Registry R}.
(** SHA-256 of the certificate. *)
Variable sha256 : string -> string.

(** [req] is the request's project and agent name, [None] for a nil request;
    [resolved] what the interceptor attached. *)
Definition RegisterAgent (f : reg_faults) (now : Z) (r : R) (resolved : option ResolvedContainer) (peer : option Cert)
    (req : option (string * string)) : code * R :=
  match req with
  | None => (InvalidArgument, r)
  | Some (req_project, req_agent) =>
      match NewProjectSlug req_project, NewAgentName req_agent with
      | Some project, Some agentName =>
          match resolved with
          | None => (Internal, r)
          | Some res =>
              match peer with
              | None => (PermissionDenied, r)
              | Some cert =>
                  let thumbprint := sha256 (Raw cert) in
                  if negb (String.eqb project (Project res)) || negb (String.eqb agentName (AgentName res)) then (PermissionDenied, r)
                  else
                    match ContainerIDFromCert (Some cert) with
                    | sanMissing | sanMalformed => (PermissionDenied, r)
                    | sanFound certContainerID =>
                        if negb (String.eqb certContainerID (ContainerID res)) then (PermissionDenied, r)
                        else
                          let add r :=
                            match Add (f_add f) r (mkEntry (AgentName res) (Project res) (ContainerID res) thumbprint now now) with
                            | Some r' => (Welcome, r')
                            | None => (Internal, r)
                            end in
                          match LookupByContainerID (f_lookup f) r (ContainerID res) with
                          | Found existing =>
                              if String.eqb (e_thumbprint existing) thumbprint then (Welcome, r) else (PermissionDenied, r)
                          | MalformedEntry =>
                              match EvictByContainerID (f_evict f) r (ContainerID res) with
                              | Some r => add r
                              | None => (Internal, r)
                              end
                          | QueryFailed => (Internal, r)
                          | UnknownAgent => add r
                          end
                    end
              end
          end
      | _, _ => (InvalidArgument, r)
      end
  end.

(** The call as it is served: the interceptor, then the handler. *)
Definition serveRegister (lookup_ip : GoNet.Addr -> result lookup_error ResolvedContainer) (f : reg_faults) (now : Z) (r : R) (p : Peer)
    (req : option (string * string)) : code * R :=
  match resolve lookup_ip p with
  | None => (PermissionDenied, r)
  | Some resolved => RegisterAgent f now r resolved (leaf p) req
  end.

(** ** Reaping *)

(** The first success of three attempts. *)
Fixpoint listWithRetry (attempts : nat) (answers : list (option (list string))) : option (list string) :=
  match attempts, answers with
  | S n, Some ids :: _ => Some ids
  | S n, None :: rest => listWithRetry n rest
  | _, _ => None
  end.
Definition reapListerMaxAttempts : nat := 3.

(** Evicts one by one, counting; a failure is recorded and passed over. *)
Fixpoint reap_all (fail : string -> bool) (live : gset string) (l : list Entry) (r : R) : nat * list string * R :=
  match l with
  | [] => (O, [], r)
  | e :: l =>
      if bool_decide (e_container e ∈ live) then reap_all fail live l r
      else
        match EvictByContainerID (fail (e_container e)) r (e_container e) with
        | Some r => let '(n, errs, r) := reap_all fail live l r in (S n, errs, r)
        | None => let '(n, errs, r) := reap_all fail live l r in (n, e_container e :: errs, r)
        end
  end.

Inductive reap_error := ListingContainers | SnapshotRegistry | EvictFailed (ids : list string).

Definition ReapOrphans (answers : list (option (list string))) (snapshot_fails : bool) (fail : string -> bool) (r : R)
    : nat * option reap_error * R :=
  match listWithRetry reapListerMaxAttempts answers with
  | None => (O, Some ListingContainers, r)
  | Some ids =>
      match Snapshot snapshot_fails r with
      | None => (O, Some SnapshotRegistry, r)
      | Some snap =>
          let '(n, errs, r) := reap_all fail (list_to_set ids) snap r in
          (n, match errs with [] => None | _ => Some (EvictFailed errs) end, r)
      end
  end.

End Handler.

(** ** The sqlite registry keeps the contract *)

Lemma hex_byte c : match hex_value (hex_char (N.div (N_of_ascii c) 16)), hex_value (hex_char (N.modulo (N_of_ascii c) 16)) with
                   | Some x, Some y => ascii_of_N (x * 16 + y) = c
                   | _, _ => False
                   end.
Proof. destruct c as [[] [] [] [] [] [] [] []]; reflexivity. Qed.

Lemma hex_roundtrip s : hex_decode (hex_encode s) = Some s.
Proof.
  induction s as [|c s IH]; [done|]. cbn [hex_encode hex_decode]. rewrite IH. pose proof (hex_byte c) as Hc.
  destruct (hex_value (hex_char (N_of_ascii c / 16))); [|done]. destruct (hex_value (hex_char (N_of_ascii c mod 16))); [|done].
  by rewrite Hc.
Qed.

(** No two rows share a container or a certificate. *)
Record table_ok (t : sqliteRegistry) : Prop := {
  tb_container : NoDup (container_id <$> t);
  tb_thumbprint : NoDup (thumbprint_hex <$> t);
  tb_named : Forall (fun r => container_id r <> "") t;
}.

Lemma scan_row e : String.length (e_thumbprint e) = 32%nat -> e_agent e <> "" ->
  exists e', scanEntry (row_of e) = Some e' /\ identity e' = identity e.
Proof.
  intros Hl Ha. unfold scanEntry, row_of. assert (identity (default_seen e) = identity e) as Hi by (unfold default_seen; by destruct (_ =? _)).
  injection Hi as E1 E2 E3 E4. cbn [thumbprint_hex agent_name project container_id registered_at last_seen].
  rewrite hex_roundtrip, E4, Hl. cbn. rewrite E1, E2, E3. unfold NewAgentName. destruct (String.eqb_spec (e_agent e) ""); [done|]. by eexists.
Qed.

Lemma scan_container r e : scanEntry r = Some e -> e_container e = container_id r.
Proof.
  unfold scanEntry. destruct (hex_decode _); [|done]. destruct (negb _); [done|]. destruct (NewAgentName _); [|done]. by intros [= <-].
Qed.

Lemma NoDup_fmap_filter {A K} (g : A -> K) (P : A -> Prop) `{forall x, Decision (P x)} l : NoDup (g <$> l) -> NoDup (g <$> filter P l).
Proof.
  induction l as [|x l IH]; [done|]. cbn [fmap list_fmap]. intros [Hx Hl]%NoDup_cons. rewrite filter_cons.
  destruct (decide (P x)); [|by apply IH]. cbn. constructor; [|by apply IH]. intros (y & E & [_ Hy]%list_elem_of_filter)%list_elem_of_fmap.
  apply Hx. rewrite E. by apply list_elem_of_fmap_2.
Qed.

Lemma row_of_container e : container_id (row_of e) = e_container e.
Proof. unfold row_of, default_seen. by destruct (_ =? _). Qed.

Lemma sql_row_Some t cid r : table_ok t -> sql_row t cid = Some r <-> r ∈ t /\ container_id r = cid.
Proof.
  intros [Hc _ _]. unfold sql_row. split.
  - intros [Hin E]%find_some. split; [by apply list_elem_of_In|by apply String.eqb_eq].
  - intros [Hin <-]. destruct (find _ t) as [r'|] eqn:E.
    + f_equal. apply find_some in E as [Hin' E]. apply String.eqb_eq in E.
      eapply NoDup_fmap_inj_in; [exact Hc|by apply list_elem_of_In|done|done].
    + eapply find_none in E; [|by apply list_elem_of_In]. by rewrite String.eqb_refl in E.
Qed.

Lemma sql_row_None t cid : sql_row t cid = None <-> cid ∉ container_id <$> t.
Proof.
  unfold sql_row. rewrite list_elem_of_fmap. split.
  - intros E (r & -> & Hin). eapply find_none in E; [|by apply list_elem_of_In]. by rewrite String.eqb_refl in E.
  - intros Hn. destruct (find _ t) as [r|] eqn:E; [|done]. apply find_some in E as [Hin E]. apply String.eqb_eq in E.
    destruct Hn. exists r. split; [done|]. by apply list_elem_of_In.
Qed.

Lemma sql_row_app t r cid :
  sql_row (t ++ [r]) cid = match sql_row t cid with Some x => Some x | None => if String.eqb (container_id r) cid then Some r else None end.
Proof. unfold sql_row. induction t as [|x t IH]; cbn; [done|]. by destruct (String.eqb (container_id x) cid). Qed.

Lemma sql_row_filter t cid cid' : sql_row (filter (fun r => container_id r <> cid) t) cid' = if String.eqb cid' cid then None else sql_row t cid'.
Proof.
  unfold sql_row. induction t as [|x t IH]; [by destruct (String.eqb cid' cid)|]. rewrite filter_cons.
  destruct (decide (container_id x <> cid)) as [Hx|Hx%dec_stable]; cbn [find]; rewrite IH.
  - destruct (String.eqb_spec (container_id x) cid') as [E|], (String.eqb_spec cid' cid); congruence.
  - destruct (String.eqb_spec (container_id x) cid') as [E|], (String.eqb_spec cid' cid); congruence.
Qed.

(** What a successful insert had to satisfy. *)
Lemma sql_add_Some f t e t' : sql_add f t e = Some t' ->
  t' = t ++ [row_of e] /\ e_container e <> "" /\ e_agent e <> "" /\ (container_id (row_of e) ∉ container_id <$> t) /\
  thumbprint_hex (row_of e) ∉ thumbprint_hex <$> t.
Proof.
  unfold sql_add, validateEntry. destruct (String.eqb _ zero_thumbprint); [done|]. destruct (String.eqb_spec (e_container e) ""); [done|].
  destruct (String.eqb_spec (e_agent e) ""); [done|]. destruct (_ =? _); [done|]. destruct f; [done|]. cbn [orb].
  destruct (existsb _ t) eqn:E; [done|]. intros [= <-]. split_and!; try done.
  - intros (x & Ex & Hin)%list_elem_of_fmap. apply not_true_iff_false in E. destruct E. apply existsb_elem. exists x. split; [done|].
    apply orb_true_iff. right. by apply String.eqb_eq.
  - intros (x & Ex & Hin)%list_elem_of_fmap. apply not_true_iff_false in E. destruct E. apply existsb_elem. exists x. split; [done|].
    apply orb_true_iff. left. by apply String.eqb_eq.
Qed.

#[global] Instance sqlite_laws : RegistryLaws sqliteRegistry table_ok.
Proof.
  split; cbn.
  - intros f t e t' [H1 H2 H3] (-> & Hc & _ & Hn1 & Hn2)%sql_add_Some. split.
    + rewrite fmap_app. apply NoDup_app. split; [done|]. split; [|apply NoDup_singleton]. intros x Hx ->%list_elem_of_singleton. done.
    + rewrite fmap_app. apply NoDup_app. split; [done|]. split; [|apply NoDup_singleton]. intros x Hx ->%list_elem_of_singleton. done.
    + apply Forall_app. split; [done|]. constructor; [|constructor]. by rewrite row_of_container.
  - intros f t cid t' [H1 H2 H3]. unfold sql_evict. destruct (String.eqb cid ""); [by intros [= <-]|]. destruct f; [done|]. intros [= <-].
    split; [by apply NoDup_fmap_filter..|]. apply Forall_forall. intros r [_ Hr]%list_elem_of_filter. rewrite Forall_forall in H3. by apply H3.
  - intros f t e t' Ht E Hl. pose proof (sql_add_Some _ _ _ _ E) as (-> & Hc & Ha & Hn & _). destruct (scan_row e Hl Ha) as (e' & Es & Hi).
    exists e'. split; [|done]. unfold sql_lookup. apply String.eqb_neq in Hc as ->. rewrite sql_row_app.
    rewrite row_of_container in Hn. apply sql_row_None in Hn as ->. by rewrite row_of_container, String.eqb_refl, Es.
  - intros f t e t' cid Ht (-> & _)%sql_add_Some Hne. unfold sql_lookup. destruct (String.eqb cid ""); [done|]. rewrite sql_row_app, row_of_container.
    destruct (sql_row t cid); [done|]. by destruct (String.eqb_spec (e_container e) cid).
  - intros f t e t' Ht (_ & Hc & _ & Hn & _)%sql_add_Some. unfold sql_lookup. apply String.eqb_neq in Hc as ->.
    rewrite row_of_container in Hn. by apply sql_row_None in Hn as ->.
  - intros f t cid t' Ht. unfold sql_evict, sql_lookup. destruct (String.eqb cid ""); [done|]. destruct f; [done|]. intros [= <-].
    by rewrite sql_row_filter, String.eqb_refl.
  - intros f t cid cid' t' Ht. unfold sql_evict, sql_lookup. destruct (String.eqb cid ""); [by intros [= <-]|]. destruct f; [done|]. intros [= <-] Hne.
    rewrite sql_row_filter. by apply String.eqb_neq in Hne as ->.
  - intros f t cid e. unfold sql_lookup. destruct (String.eqb cid ""); [done|]. destruct f; [done|].
    destruct (sql_row t cid) as [r|] eqn:E; [|done]. destruct (scanEntry r) as [e'|] eqn:Es; [|done]. intros [= <-].
    apply find_some in E as [_ E]. apply String.eqb_eq in E as <-. by eapply scan_container.
  - intros t cid _. unfold sql_lookup. destruct (String.eqb_spec cid ""); [by left|by right].
  - intros f t l e Ht. destruct f; [done|]. intros [= <-]. unfold sortEntries. rewrite merge_sort_Permutation, list_elem_of_omap. split.
    + intros (r & Hin & Es). exists (container_id r). unfold sql_lookup. pose proof (proj1 (Forall_forall _ _) (tb_named t Ht) r Hin) as Hne.
      apply String.eqb_neq in Hne as ->. rewrite (proj2 (sql_row_Some t _ r Ht)) by done. by rewrite Es.
    + intros [cid H]. unfold sql_lookup in H. destruct (String.eqb cid ""); [done|]. destruct (sql_row t cid) as [r|] eqn:E; [|done].
      apply sql_row_Some in E as [Hin _]; [|done]. exists r. split; [done|]. destruct (scanEntry r); [by injection H as ->|done].
Qed.

(** ** What the handler guarantees, for any lawful registry *)

(** One Register call: the peer, what Docker answers about it, the database's
    faults, the time and the request. *)
Record call := mkCall {
  c_peer : Peer; c_listed : option (list string); c_inspect : string -> option Inspected;
  c_faults : reg_faults; c_now : Z; c_req : option (string * string);
}.

Section Laws.
Context {R : Type} `{Registry R} (reg_ok : R -> Prop) `{!RegistryLaws R reg_ok}.
Variable sha256 : string -> string.
Hypothesis sha256_length : forall raw, String.length (sha256 raw) = 32%nat.

Definition serve (r : R) (c : call) : code * R :=
  serveRegister sha256 (LookupByIP (c_listed c) (c_inspect c)) (c_faults c) (c_now c) r (c_peer c) (c_req c).

Definition caller (c : call) : option (option ResolvedContainer) := resolve (LookupByIP (c_listed c) (c_inspect c)) (c_peer c).

(** How a call that passes the checks of the certificate ends. *)
Inductive outcome (r : R) (res : ResolvedContainer) (tp : string) : code * R -> Prop :=
  | already e f : LookupByContainerID f r (ContainerID res) = Found e -> e_thumbprint e = tp -> outcome r res tp (Welcome, r)
  | added f r0 e r' :
      (r0 = r /\ LookupByContainerID false r (ContainerID res) = UnknownAgent \/
       LookupByContainerID false r (ContainerID res) = MalformedEntry /\ exists f, EvictByContainerID f r (ContainerID res) = Some r0) ->
      Add f r0 e = Some r' -> identity e = (AgentName res, Project res, ContainerID res, tp) -> outcome r res tp (Welcome, r')
  | evicted f r0 : LookupByContainerID false r (ContainerID res) = MalformedEntry ->
      EvictByContainerID f r (ContainerID res) = Some r0 -> outcome r res tp (Internal, r0)
  | refused c : c <> Welcome -> outcome r res tp (c, r).

Lemma lookup_cases f r cid :
  reg_ok r -> LookupByContainerID f r cid = LookupByContainerID false r cid \/ LookupByContainerID f r cid = QueryFailed.
Proof. intros Hr. destruct f; [|by left]. destruct (lookup_fault (reg_ok := reg_ok) r cid Hr) as [|[_ ?]]; [by left|by right]. Qed.

Lemma RegisterAgent_outcome f now r res cert req :
  reg_ok r ->
  let o := RegisterAgent sha256 f now r (Some res) (Some cert) req in
  (o.1 = Welcome -> Some (ContainerSANScheme +:+ ContainerID res) ∈ URIs cert) /\ outcome r res (sha256 (Raw cert)) o.
Proof.
  intros Hr o. unfold o, RegisterAgent. destruct req as [[pr ag]|]; [|split; [done|by constructor]].
  cbn [NewProjectSlug]. destruct (NewAgentName ag); [|split; [done|by constructor]].
  destruct (_ || _); [split; [done|by constructor]|].
  destruct (ContainerIDFromCert (Some cert)) as [| |cid] eqn:Es; [split; [done|by constructor]..|].
  destruct (String.eqb_spec cid (ContainerID res)) as [->|]; [|split; [done|by constructor]]. cbn [negb].
  apply san_tail_found in Es as [Hs _]. split; [done|].
  destruct (lookup_cases (f_lookup f) r (ContainerID res) Hr) as [El| ->]; [|by constructor].
  destruct (LookupByContainerID (f_lookup f) r (ContainerID res)) as [e| | |] eqn:E.
  - destruct (String.eqb_spec (e_thumbprint e) (sha256 (Raw cert))); [by econstructor|by constructor].
  - destruct (Add _ r _) as [r'|] eqn:Ea; [|by constructor]. eapply added; [left; by rewrite <- El|done|done].
  - destruct (EvictByContainerID _ r _) as [r0|] eqn:Ee; [|by constructor].
    destruct (Add _ r0 _) as [r'|] eqn:Ea; [|by eapply evicted].
    eapply added; [right; split; [done|by eexists]|done|done].
  - by constructor.
Qed.

Lemma refusal cd (r : R) : cd <> Welcome -> exists cd', cd' <> Welcome /\ (cd, r) = (cd', r).
Proof. by exists cd. Qed.

Lemma serve_outcome r c :
  reg_ok r ->
  (exists cd, cd <> Welcome /\ serve r c = (cd, r)) \/
  exists res cert, caller c = Some (Some res) /\ leaf (c_peer c) = Some cert /\
    ((serve r c).1 = Welcome -> Some (ContainerSANScheme +:+ ContainerID res) ∈ URIs cert) /\ outcome r res (sha256 (Raw cert)) (serve r c).
Proof.
  intros Hr. unfold serve, serveRegister, caller. destruct (resolve _ _) as [[res|]|]; [| |left; by apply refusal].
  - destruct (leaf (c_peer c)) as [cert|].
    + right. exists res, cert. split_and!; [done|done|by apply RegisterAgent_outcome..].
    + left. unfold RegisterAgent. destruct (c_req c) as [[pr ag]|]; [|by apply refusal]. cbn. destruct (NewAgentName ag); by apply refusal.
  - left. unfold RegisterAgent. destruct (c_req c) as [[pr ag]|]; [|by apply refusal]. cbn. destruct (NewAgentName ag); by apply refusal.
Qed.

(** C12: A Welcome binds the certificate to the container it was issued for.  If a
    Register call is welcomed, the identity gate resolved the caller to one
    container, the certificate's container SAN is that container's ID, and the
    registry now has for that container the fingerprint of this certificate;
    the rows of all other containers are as before. *)
Theorem register_binds r c r' :
  reg_ok r -> serve r c = (Welcome, r') ->
  exists res cert e, caller c = Some (Some res) /\ leaf (c_peer c) = Some cert /\
    Some (ContainerSANScheme +:+ ContainerID res) ∈ URIs cert /\
    LookupByContainerID false r' (ContainerID res) = Found e /\ e_container e = ContainerID res /\ e_thumbprint e = sha256 (Raw cert) /\
    forall cid, cid <> ContainerID res -> LookupByContainerID false r' cid = LookupByContainerID false r cid.
Proof.
  intros Hr E. destruct (serve_outcome r c Hr) as [(cd & Hcd & E')|(res & cert & Hcaller & Hleaf & Hs & Ho)]; [congruence|].
  rewrite E in Hs, Ho. exists res, cert. inversion Ho as [e f Hl Htp|f r0 e r1 Hcase Ha Hi|f r0 Hm Hev|cd Hcd]; subst.
  - exists e. assert (LookupByContainerID false r' (ContainerID res) = Found e) as Hl'.
    { destruct (lookup_cases f r' (ContainerID res) Hr) as [H'|H']; congruence. }
    split_and!; try done; [by apply Hs|by eapply found_id].
  - injection Hi as I1 I2 I3 I4.
    assert (reg_ok r0) as Hr0 by (destruct Hcase as [[-> _]|[_ [f' Hf']]]; [done|by eapply evict_ok]).
    destruct (add_here f r0 e r' Hr0 Ha) as (e' & He' & Hid); [by rewrite I4|]. injection Hid as J1 J2 J3 J4. rewrite I3 in He'.
    exists e'. split_and!; try done; [by apply Hs|congruence|congruence|].
    intros cid Hne. rewrite (add_other f r0 e r' cid) by (congruence || done).
    destruct Hcase as [[-> _]|[_ [f' Hf']]]; [done|]. by eapply evict_other.
  - done.
Qed.

Lemma serve_ok r c : reg_ok r -> reg_ok (serve r c).2.
Proof.
  intros Hr. destruct (serve_outcome r c Hr) as [(cd & Hcd & ->)|(res & cert & _ & _ & _ & Ho)]; [done|].
  destruct Ho as [e f Hl Htp|f r0 e r1 Hcase Ha Hi|f r0 Hm Hev|cd Hcd]; cbn; try done; [|by eapply evict_ok].
  assert (reg_ok r0) as Hr0 by (destruct Hcase as [[-> _]|[_ [f' Hf']]]; [done|by eapply evict_ok]). by eapply add_ok.
Qed.

Lemma serve_keeps r c cid e : reg_ok r -> LookupByContainerID false r cid = Found e -> LookupByContainerID false (serve r c).2 cid = Found e.
Proof.
  intros Hr Hl. destruct (serve_outcome r c Hr) as [(cd & Hcd & ->)|(res & cert & _ & _ & _ & Ho)]; [done|].
  destruct Ho as [e0 f H0 Htp|f r0 e0 r1 Hcase Ha Hi|f r0 Hm Hev|cd Hcd]; cbn; try done.
  - injection Hi as I1 I2 I3 I4. assert (cid <> ContainerID res) as Hne by (intros ->; destruct Hcase as [[_ ?]|[? _]]; congruence).
    assert (reg_ok r0) as Hr0 by (destruct Hcase as [[-> _]|[_ [f' Hf']]]; [done|by eapply evict_ok]).
    rewrite (add_other f r0 e0 r1 cid Hr0 Ha) by congruence.
    destruct Hcase as [[-> _]|[_ [f' Hf']]]; [done|]. by rewrite (evict_other f' r (ContainerID res) cid r0).
  - assert (cid <> ContainerID res) as Hne by congruence. by rewrite (evict_other f r (ContainerID res) cid r0).
Qed.

(** A binding cannot be taken over.  Once a container is registered with a
    certificate, no sequence of Register calls, by whatever peers, with whatever
    certificates, requests, Docker answers and database failures, changes its
    row; only eviction does. *)
Theorem binding_stable r calls cid e :
  reg_ok r -> LookupByContainerID false r cid = Found e ->
  LookupByContainerID false (foldl (fun r c => (serve r c).2) r calls) cid = Found e.
Proof.
  revert r. induction calls as [|c calls IH]; intros r Hr Hl; cbn [foldl]; [done|].
  apply IH; [by apply serve_ok|by apply serve_keeps].
Qed.

(** *** Reaping *)

Lemma reap_all_keeps fail live l r n errs r' cid :
  reg_ok r -> reap_all fail live l r = (n, errs, r') ->
  reg_ok r' /\ (cid ∈ live -> LookupByContainerID false r' cid = LookupByContainerID false r cid) /\
  (LookupByContainerID false r' cid = LookupByContainerID false r cid \/ LookupByContainerID false r' cid = UnknownAgent).
Proof.
  revert r n errs. induction l as [|e l IH]; intros r n errs Hr; cbn [reap_all]; [intros [= <- <- <-]; auto|].
  case_bool_decide as Hlive; [by apply IH|]. destruct (EvictByContainerID _ r (e_container e)) as [r1|] eqn:Ee.
  - destruct (reap_all fail live l r1) as [[n1 errs1] r2] eqn:E2. intros [= <- <- <-].
    destruct (IH r1 _ _ (evict_ok _ _ _ _ Hr Ee) E2) as (H1 & H2 & H3).
    assert (cid <> e_container e -> LookupByContainerID false r1 cid = LookupByContainerID false r cid) as Ho by (by apply (evict_other _ _ _ _ _ Hr Ee)).
    split; [done|]. split; [intros Hc; rewrite H2 by done; apply Ho; by intros ->|].
    destruct (decide (cid = e_container e)) as [->|Hne]; [|rewrite <- Ho by done; done].
    right. pose proof (evict_here _ _ _ _ Hr Ee) as Hu. destruct H3 as [->|?]; done.
  - destruct (reap_all fail live l r) as [[n1 errs1] r2] eqn:E2. intros [= <- <- <-]. by eapply IH.
Qed.

Lemma reap_all_done fail live l r n r' e :
  reg_ok r -> reap_all fail live l r = (n, [], r') -> e ∈ l -> e_container e ∉ live -> LookupByContainerID false r' (e_container e) = UnknownAgent.
Proof.
  revert r n. induction l as [|x l IH]; intros r n Hr; cbn [reap_all]; [by intros _ ?%not_elem_of_nil|].
  case_bool_decide as Hlive.
  - intros E [->|Hin]%elem_of_cons Hx; [done|by eapply IH].
  - destruct (EvictByContainerID _ r (e_container x)) as [r1|] eqn:Ee.
    + destruct (reap_all fail live l r1) as [[n1 errs1] r2] eqn:E2. intros [= <- -> <-]. pose proof (evict_ok _ _ _ _ Hr Ee) as Hr1.
      intros [->|Hin]%elem_of_cons Hx; [|by eapply IH].
      destruct (reap_all_keeps _ _ _ _ _ _ _ (e_container x) Hr1 E2) as (_ & _ & [->|?]); [exact (evict_here _ _ _ _ Hr Ee)|done].
    + destruct (reap_all fail live l r) as [[n1 errs1] r2]. done.
Qed.

(** The reaper evicts only rows of containers that are gone, and all of them
    when it reports no error.  Rows of listed containers survive whatever fails;
    if listing or reading the registry fails nothing is evicted; without an
    error every readable row left belongs to a listed container. *)
Theorem ReapOrphans_exact answers sf fail r n err r' :
  reg_ok r -> ReapOrphans answers sf fail r = (n, err, r') ->
  match listWithRetry reapListerMaxAttempts answers with
  | None => err = Some ListingContainers /\ r' = r
  | Some ids =>
      (forall cid, cid ∈ ids -> LookupByContainerID false r' cid = LookupByContainerID false r cid) /\
      (err = Some SnapshotRegistry -> r' = r) /\
      (err = None -> forall cid e, LookupByContainerID false r' cid = Found e -> cid ∈ ids)
  end.
Proof.
  intros Hr. unfold ReapOrphans. destruct (listWithRetry _ _) as [ids|]; [|by intros [= <- <- <-]].
  destruct (Snapshot sf r) as [snap|] eqn:Es; [|by intros [= <- <- <-]].
  destruct (reap_all _ _ snap r) as [[n1 errs] r1] eqn:E. intros [= <- <- <-]. split_and!.
  - intros cid Hin. apply (reap_all_keeps _ _ _ _ _ _ _ cid Hr E). by apply elem_of_list_to_set.
  - by destruct errs.
  - destruct errs; [|done]. intros _ cid e Hf. pose proof (found_id _ _ _ _ Hf) as Hid.
    destruct (decide (cid ∈ ids)) as [|Hn]; [done|exfalso]. destruct (reap_all_keeps _ _ _ _ _ _ _ cid Hr E) as (_ & _ & [Hsame|Hu]); [|congruence].
    rewrite Hsame in Hf. assert (e ∈ snap) as Hin by (eapply snapshot_spec; [done|done|by exists cid]).
    pose proof (reap_all_done _ _ _ _ _ _ e Hr E Hin) as Hd. rewrite Hid, elem_of_list_to_set in Hd. specialize (Hd Hn). congruence.
Qed.

End Laws.

(** ** The in-memory registry is weaker *)

(** It is keyed by the certificate alone: registering a second container with a
    certificate drops the row of the first, which sqlite refuses; and it keeps two
    rows for a container registered with two certificates. *)
Definition entry_a : Entry := mkEntry "dev" "app" "abc1" (repeat_char "x" 32) 5 5.
Definition entry_b : Entry := mkEntry "ops" "app" "abc2" (repeat_char "x" 32) 5 5.

Example mem_overwrites :
  (m ← mem_add ∅ entry_a; m ← mem_add m entry_b; Some (mem_lookup m "abc1")) = Some UnknownAgent /\
  (t ← sql_add false [] entry_a; sql_add false t entry_b) = None.
Proof. vm_compute. split; reflexivity. Qed.

(** ** An agent registers *)

Definition demo_sha (raw : string) : string := repeat_char "x" 32.
Definition demo_call : call :=
  mkCall (mkPeer (Some demo_cert) (Some demo_addr)) (Some ["abc1"]) (fun _ => Some demo_container) (mkFaults false false false) 5000000000 (Some ("app", "dev")).
Definition demo_table : sqliteRegistry := [row_of (mkEntry "dev" "app" "abc1" (demo_sha "") 5000000000 5000000000)].

Lemma demo_table_ok : table_ok demo_table.
Proof. split; vm_compute; repeat constructor; set_solver. Qed.

Lemma register_binds_witness :
  exists res cert e, caller demo_call = Some (Some res) /\ leaf (c_peer demo_call) = Some cert /\
    LookupByContainerID false demo_table (ContainerID res) = Found e /\ e_thumbprint e = demo_sha (Raw cert).
Proof.
  destruct (register_binds table_ok demo_sha (fun _ => eq_refl) ([] : sqliteRegistry) demo_call demo_table)
    as (res & cert & e & H1 & H2 & _ & H3 & _ & H4 & _).
  - split; constructor.
  - vm_compute. reflexivity.
  - exists res, cert, e. split; [exact H1|]. split; [exact H2|]. split; [exact H3|exact H4].
Defined.

Lemma binding_stable_witness :
  LookupByContainerID false (foldl (fun r c => (serve demo_sha r c).2) demo_table [demo_call; demo_call]) "abc1" =
  Found (mkEntry "dev" "app" "abc1" (demo_sha "") 5000000000 5000000000).
Proof. apply (binding_stable table_ok demo_sha demo_table [demo_call; demo_call]); [apply demo_table_ok|vm_compute; reflexivity]. Defined.

(** The container is gone and Docker answers on the second attempt. *)
Lemma ReapOrphans_exact_witness :
  ReapOrphans [None; Some ["other"]] false (fun _ => false) demo_table = (1%nat, None, []) /\
  forall cid e, LookupByContainerID false ([] : sqliteRegistry) cid = Found e -> cid ∈ ["other"].
Proof.
  assert (ReapOrphans [None; Some ["other"]] false (fun _ => false) demo_table = (1%nat, None, [])) as E by (vm_compute; reflexivity).
  split; [exact E|].
  pose proof (ReapOrphans_exact table_ok [None; Some ["other"]] false (fun _ => false) demo_table 1 None [] demo_table_ok E) as (_ & _ & H).
  exact (H eq_refl).
Defined.

End AgentRegistry.
