(* ===== verification/DockerFeeder.v ===== *)
(** * The Docker events feeder

    controlplane/dockerevents: dispatch.go (one event), reconcile.go (a fresh
    listing) and feeder.go (the reconnect loop).  The feeder tracks which
    containers and networks clawker manages and republishes only their events.
    What Docker answers to a listing or an inspection is an input; the published
    messages are the result.  moby's action names are constructors; [ActionExec]
    stands for the exec_* actions. *)

From S2P Require Import Prelude GoStrings.
Import Go.

Module DockerFeeder.

Inductive EventType := ContainerEventType | NetworkEventType | OtherEventType.
Inductive Action :=
  | ActionCreate | ActionStart | ActionRestart | ActionStop | ActionDie | ActionKill | ActionOOM | ActionDestroy | ActionRemove
  | ActionPause | ActionUnPause | ActionConnect | ActionDisconnect
  | ActionAttach | ActionDetach | ActionResize | ActionCopy | ActionArchivePath | ActionExtractToDir | ActionTop | ActionCommit | ActionExport
  | ActionUpdate | ActionCheckpoint | ActionPrune | ActionPush | ActionImport | ActionSave | ActionLoad | ActionMount | ActionUnmount
  | ActionExec (name : string) | OtherAction (name : string).

#[global] Instance EventType_eq_dec : EqDecision EventType.
Proof. solve_decision. Defined.
#[global] Instance Action_eq_dec : EqDecision Action.
Proof. solve_decision. Defined.

Record Message := mkMessage { m_type : EventType; m_action : Action; actor : string; attributes : gmap string string; timeNano : Z }.

Record Options := mkOptions { ManagedLabelKey : string; ManagedLabelValue : string; ReconnectMin : Z; ReconnectMax : Z }.

(** The managed sets, and the networks whose inspection failed. *)
Record Feeder := mkFeeder { containers : gset string; networks : gset string; networksNeedRecheck : gset string }.

Inductive new_error := ClientRequired | TopicRequired | LabelKeyRequired | LabelValueRequired.

Definition second : Z := 10 ^ 9.

Definition New (nil_client nil_topic : bool) (o : Options) : result new_error (Options * Feeder) :=
  if nil_client then Err ClientRequired
  else if nil_topic then Err TopicRequired
  else if String.eqb (ManagedLabelKey o) "" then Err LabelKeyRequired
  else if String.eqb (ManagedLabelValue o) "" then Err LabelValueRequired
  else Ok (mkOptions (ManagedLabelKey o) (ManagedLabelValue o)
             (if ReconnectMin o <=? 0 then 1 * second else ReconnectMin o) (if ReconnectMax o <=? 0 then 30 * second else ReconnectMax o),
           mkFeeder ∅ ∅ ∅).

(** [ErrCanceled] is a context cancelled during shutdown. *)
Inductive inspect_answer := ErrCanceled | InspectFailed | Inspected (labels : gmap string string).

Section Dispatch.
Variable o : Options.

Definition isManaged (labels : gmap string string) : bool :=
  match labels !! ManagedLabelKey o with Some v => String.eqb v (ManagedLabelValue o) | None => false end.

Definition shouldHandleAction (ev : Message) : bool :=
  match m_action ev with
  | ActionExec _ => false
  | ActionAttach | ActionDetach | ActionResize | ActionCopy | ActionArchivePath | ActionExtractToDir | ActionTop | ActionCommit | ActionExport
  | ActionUpdate | ActionCheckpoint | ActionPrune | ActionPush | ActionImport | ActionSave | ActionLoad | ActionMount | ActionUnmount => false
  | _ => true
  end.

(** The new state and what is published. *)
Definition dispatchContainer (f : Feeder) (ev : Message) : Feeder * list Message :=
  let id := actor ev in
  if String.eqb id "" then (f, [])
  else if negb (isManaged (attributes ev)) && negb (bool_decide (id ∈ containers f)) then (f, [])
  else
    let cs := match m_action ev with ActionDestroy => containers f ∖ {[id]} | _ => {[id]} ∪ containers f end in
    (mkFeeder cs (networks f) (networksNeedRecheck f), [ev]).

Definition tryNetworkInspect (f : Feeder) (netID : string) (answer : inspect_answer) : Feeder :=
  match answer with
  | ErrCanceled => f
  | InspectFailed => mkFeeder (containers f) (networks f) ({[netID]} ∪ networksNeedRecheck f)
  | Inspected labels =>
      let recheck := networksNeedRecheck f ∖ {[netID]} in
      if isManaged labels then mkFeeder (containers f) ({[netID]} ∪ networks f) recheck
      else mkFeeder (containers f) (networks f) recheck
  end.

Definition destroys (a : Action) : bool := match a with ActionDestroy | ActionRemove => true | _ => false end.
Definition connects (a : Action) : bool := match a with ActionConnect | ActionDisconnect => true | _ => false end.

Definition dispatchNetwork (f : Feeder) (ev : Message) (answer : inspect_answer) : Feeder * list Message :=
  let netID := actor ev in
  if String.eqb netID "" then (f, [])
  else
    let f :=
      match m_action ev with
      | ActionCreate => tryNetworkInspect f netID answer
      | ActionDestroy | ActionRemove => mkFeeder (containers f) (networks f) (networksNeedRecheck f ∖ {[netID]})
      | ActionConnect | ActionDisconnect => if bool_decide (netID ∈ networksNeedRecheck f) then tryNetworkInspect f netID answer else f
      | _ => f
      end in
    if negb (bool_decide (netID ∈ networks f)) then (f, [])
    else
      let ctrID := default "" (attributes ev !! "container") in
      if connects (m_action ev) && (String.eqb ctrID "" || negb (bool_decide (ctrID ∈ containers f))) then (f, [])
      else ((if destroys (m_action ev) then mkFeeder (containers f) (networks f ∖ {[netID]}) (networksNeedRecheck f) else f), [ev]).

Definition dispatch (f : Feeder) (ev : Message) (answer : inspect_answer) : Feeder * list Message :=
  if negb (shouldHandleAction ev) then (f, [])
  else match m_type ev with
       | ContainerEventType => dispatchContainer f ev
       | NetworkEventType => dispatchNetwork f ev answer
       | OtherEventType => (f, [])
       end.

(** ** Reconciling *)

Inductive ContainerState := StateCreated | StateRunning | StatePaused | StateRestarting | StateExited | StateDead | StateRemoving.

Definition containerActionFromState (s : ContainerState) : option Action :=
  match s with
  | StateRunning => Some ActionStart
  | StatePaused => Some ActionPause
  | StateExited | StateDead => Some ActionDie
  | StateRemoving => Some ActionDestroy
  | StateCreated | StateRestarting => None
  end.

(** [c_networks] are the network IDs of the container's endpoints, nil ones
    left out. *)
Record Summary := mkSummary {
  c_id : string; c_state : ContainerState; c_names : list string; c_image : string; c_labels : gmap string string; c_networks : list string;
}.

Definition containerAttributesFromSummary (c : Summary) : gmap string string :=
  let attrs := match c_names c with n :: _ => {[ "name" := TrimPrefix n "/" ]} | [] => ∅ end in
  let attrs := if String.eqb (c_image c) "" then attrs else <["image" := c_image c]> attrs in
  c_labels c ∪ attrs.

Definition container_envelope (now : Z) (c : Summary) : list Message :=
  match containerActionFromState (c_state c) with
  | Some a => [mkMessage ContainerEventType a (c_id c) (containerAttributesFromSummary c) now]
  | None => []
  end.
Definition edge_envelopes (now : Z) (nets : gset string) (c : Summary) : list Message :=
  c_networks c ≫= fun n =>
    if String.eqb n "" || negb (bool_decide (n ∈ nets)) then []
    else [mkMessage NetworkEventType ActionConnect n {[ "container" := c_id c ]} now].

(** [None] when either listing fails. *)
Definition reconcile (f : Feeder) (now : Z) (listed : option (list Summary)) (nets : option (list string)) : option (Feeder * list Message) :=
  match listed, nets with
  | Some cs, Some ns =>
      let netset := list_to_set ns in
      Some (mkFeeder (list_to_set (c_id <$> cs)) netset (networksNeedRecheck f),
            (cs ≫= container_envelope now) ++ (cs ≫= edge_envelopes now netset))
  | _, _ => None
  end.

(** ** The reconnect loop *)

Definition nextBackoff (cur max : Z) : Z := let next := cur * 2 in if max <? next then max else next.

(** How a round of [Run] ends: the reconcile failed, the stream failed, or it
    was closed cleanly. *)
Inductive round := ReconcileFailed | StreamFailed | StreamClosed.

(** The pauses of the rounds, given the current backoff. *)
Fixpoint pauses (backoff : Z) (rounds : list round) : list Z :=
  match rounds with
  | [] => []
  | (ReconcileFailed | StreamFailed) :: rounds => backoff :: pauses (nextBackoff backoff (ReconnectMax o)) rounds
  | StreamClosed :: rounds => ReconnectMin o :: pauses (ReconnectMin o) rounds
  end.

(** ** What is published *)

Lemma list_filter_none {A} (P : A -> Prop) `{forall x, Decision (P x)} l : Forall (fun x => ~ P x) l -> filter P l = [].
Proof. induction 1; [done|]. by rewrite filter_cons_False. Qed.

Inductive input := IReconcile (now : Z) (listed : option (list Summary)) (nets : option (list string)) | IEvent (ev : Message) (answer : inspect_answer).

Definition apply (f : Feeder) (i : input) : Feeder * list Message :=
  match i with
  | IReconcile now listed nets => default (f, []) (reconcile f now listed nets)
  | IEvent ev answer => dispatch f ev answer
  end.

(** What an input tells about what is managed: Docker's listings are filtered by
    the label, an event of a container carries its labels, an inspection those
    of a network. *)
Definition vouched_containers (i : input) : gset string :=
  match i with
  | IReconcile _ (Some cs) (Some _) => list_to_set (c_id <$> cs)
  | IEvent ev _ => if bool_decide (m_type ev = ContainerEventType) && isManaged (attributes ev) then {[actor ev]} else ∅
  | _ => ∅
  end.
Definition vouched_networks (i : input) : gset string :=
  match i with
  | IReconcile _ (Some _) (Some ns) => list_to_set ns
  | IEvent ev (Inspected labels) => if bool_decide (m_type ev = NetworkEventType) && isManaged labels then {[actor ev]} else ∅
  | _ => ∅
  end.

(** The feeder tracks only what was vouched for. *)
Definition tracks (f : Feeder) (cs ns : gset string) : Prop := containers f ⊆ cs /\ networks f ⊆ ns.

Definition about_managed (cs ns : gset string) (m : Message) : Prop :=
  match m_type m with
  | ContainerEventType => actor m ∈ cs
  | NetworkEventType => actor m ∈ ns /\ (connects (m_action m) = true -> exists c, attributes m !! "container" = Some c /\ c ∈ cs)
  | OtherEventType => False
  end.

Lemma dispatchContainer_managed f ev cs ns answer :
  tracks f cs ns -> m_type ev = ContainerEventType ->
  let i := IEvent ev answer in
  tracks (dispatchContainer f ev).1 (cs ∪ vouched_containers i) (ns ∪ vouched_networks i) /\
  Forall (about_managed (cs ∪ vouched_containers i) (ns ∪ vouched_networks i)) (dispatchContainer f ev).2.
Proof.
  intros [Hc Hn] Ht. unfold dispatchContainer. destruct (String.eqb (actor ev) ""); [split; [split; set_solver|constructor]|].
  destruct (negb _ && negb _) eqn:Em; [split; [split; set_solver|constructor]|].
  assert (actor ev ∈ cs ∪ vouched_containers (IEvent ev answer)) as Hin.
  { cbn [vouched_containers]. rewrite bool_decide_true by done. cbn [andb]. destruct (isManaged (attributes ev)); [set_solver|].
    cbn in Em. apply negb_false_iff, bool_decide_eq_true in Em. set_solver. }
  split; [split; cbn [fst containers networks]|cbn [snd]].
  - destruct (m_action ev); set_solver.
  - set_solver.
  - constructor; [|constructor]. unfold about_managed. by rewrite Ht.
Qed.

Lemma tryNetworkInspect_tracks f ev answer cs ns :
  tracks f cs ns -> m_type ev = NetworkEventType ->
  tracks (tryNetworkInspect f (actor ev) answer) cs (ns ∪ vouched_networks (IEvent ev answer)).
Proof.
  intros [Hc Hn] Ht. unfold tryNetworkInspect, tracks. destruct answer as [| |labels]; cbn; [set_solver..|]. rewrite bool_decide_true by done.
  cbn [andb]. destruct (isManaged labels); cbn; set_solver.
Qed.

Lemma dispatchNetwork_managed f ev answer cs ns :
  tracks f cs ns -> m_type ev = NetworkEventType ->
  let i := IEvent ev answer in
  tracks (dispatchNetwork f ev answer).1 (cs ∪ vouched_containers i) (ns ∪ vouched_networks i) /\
  Forall (about_managed (cs ∪ vouched_containers i) (ns ∪ vouched_networks i)) (dispatchNetwork f ev answer).2.
Proof.
  intros Hf Ht i. unfold dispatchNetwork. destruct (String.eqb (actor ev) ""); [split; [destruct Hf; split; set_solver|constructor]|].
  set (f1 := match m_action ev with ActionCreate => _ | _ => _ end).
  assert (tracks f1 cs (ns ∪ vouched_networks i)) as [Hc1 Hn1].
  { pose proof (tryNetworkInspect_tracks f ev answer cs ns Hf Ht) as Hi. fold i in Hi.
    assert (tracks f cs (ns ∪ vouched_networks i)) as Hf' by (destruct Hf; split; set_solver).
    unfold f1. destruct (m_action ev); try done; destruct (bool_decide _); done. }
  clearbody f1. case_bool_decide as Hin; cbn [negb]; [|split; [split; set_solver|constructor]].
  destruct (connects (m_action ev) && _) eqn:Ec; [split; [split; set_solver|constructor]|]. split.
  - destruct (destroys (m_action ev)); split; cbn; set_solver.
  - constructor; [|constructor]. unfold about_managed. rewrite Ht. split; [set_solver|]. intros Hcon. rewrite Hcon in Ec. cbn [andb] in Ec.
    apply orb_false_iff in Ec as [E1 E2]. apply negb_false_iff, bool_decide_eq_true in E2. exists (default "" (attributes ev !! "container")).
    split; [|set_solver]. destruct (attributes ev !! "container"); [done|]. by apply String.eqb_neq in E1.
Qed.

Lemma apply_managed f i cs ns :
  tracks f cs ns ->
  tracks (apply f i).1 (cs ∪ vouched_containers i) (ns ∪ vouched_networks i) /\
  Forall (about_managed (cs ∪ vouched_containers i) (ns ∪ vouched_networks i)) (apply f i).2.
Proof.
  intros Hf. assert (tracks f (cs ∪ vouched_containers i) (ns ∪ vouched_networks i)) as Hsame by (destruct Hf; split; set_solver).
  destruct i as [now [listed|] [nets|]|ev answer]; cbn [apply reconcile default from_option id]; try (split; [done|constructor]).
  - split; [split; cbn; set_solver|]. apply Forall_app. cbn [snd vouched_containers vouched_networks]. split; apply Forall_forall; intros m Hm.
    + apply list_elem_of_bind in Hm as (c & Hm & Hc). unfold container_envelope in Hm. destruct (containerActionFromState _); [|by apply not_elem_of_nil in Hm].
      apply list_elem_of_singleton in Hm as ->. cbn. apply elem_of_union_r, elem_of_list_to_set. by apply list_elem_of_fmap_2.
    + apply list_elem_of_bind in Hm as (c & Hm & Hc). apply list_elem_of_bind in Hm as (n & Hm & Hn).
      destruct (String.eqb n ""); [by apply not_elem_of_nil in Hm|]. case_bool_decide as Hin; cbn in Hm; [|by apply not_elem_of_nil in Hm].
      apply list_elem_of_singleton in Hm as ->. split; [set_solver|]. intros _. exists (c_id c). cbn [attributes]. rewrite lookup_singleton_eq. split; [done|].
      apply elem_of_union_r, elem_of_list_to_set. by apply list_elem_of_fmap_2.
  - unfold dispatch. destruct (shouldHandleAction ev); [|split; [done|constructor]]. cbn [negb]. destruct (m_type ev) eqn:Et.
    + by apply dispatchContainer_managed.
    + by apply dispatchNetwork_managed.
    + split; [done|constructor].
Qed.

Fixpoint run (f : Feeder) (l : list input) : Feeder * list Message :=
  match l with [] => (f, []) | i :: l => let '(f, out) := apply f i in let '(f, out') := run f l in (f, out ++ out') end.

Definition seen_containers (l : list input) : gset string := ⋃ (vouched_containers <$> l).
Definition seen_networks (l : list input) : gset string := ⋃ (vouched_networks <$> l).

(** Only managed objects reach the topic.  Whatever listings, events and
    inspections arrive, every message published is about a container or network
    that a filtered listing, a labelled event or an inspection had shown to be
    managed, and a connect or disconnect also names a managed container. *)
Theorem published_managed l : Forall (about_managed (seen_containers l) (seen_networks l)) (run (mkFeeder ∅ ∅ ∅) l).2.
Proof.
  enough (forall f cs ns, tracks f cs ns -> Forall (about_managed (cs ∪ seen_containers l) (ns ∪ seen_networks l)) (run f l).2) as H.
  { specialize (H (mkFeeder ∅ ∅ ∅) ∅ ∅ ltac:(done)). by rewrite !(left_id_L ∅ (∪)) in H. }
  induction l as [|i l IH]; intros f cs ns Hf; cbn [run]; [constructor|]. destruct (apply_managed f i cs ns Hf) as [Hf' Hout].
  destruct (apply f i) as [f1 out]. specialize (IH f1 _ _ Hf'). destruct (run f1 l) as [f2 out2]. cbn [snd fst] in *.
  unfold seen_containers, seen_networks in *. cbn [fmap list_fmap union_list foldr] in *. rewrite !(assoc_L (∪)). apply Forall_app. split; [|done].
  eapply Forall_impl; [exact Hout|]. intros m. unfold about_managed. destruct (m_type m); [set_solver| |done].
  intros [H1 H2]. split; [set_solver|]. intros Hc. destruct (H2 Hc) as (c & ? & ?). exists c. split; [done|set_solver].
Qed.

(** An actionable event of a managed container is always published, and the
    container is tracked from then on, until it is destroyed. *)
Lemma managed_container_published f ev answer :
  m_type ev = ContainerEventType -> shouldHandleAction ev = true -> actor ev <> "" ->
  isManaged (attributes ev) = true \/ actor ev ∈ containers f ->
  (dispatch f ev answer).2 = [ev] /\ (actor ev ∈ containers (dispatch f ev answer).1 <-> m_action ev <> ActionDestroy).
Proof.
  intros Ht Ha Hne Hm. unfold dispatch. rewrite Ha, Ht. cbn [negb]. unfold dispatchContainer. apply String.eqb_neq in Hne as ->.
  assert (negb (isManaged (attributes ev)) && negb (bool_decide (actor ev ∈ containers f)) = false) as ->.
  { destruct Hm as [->|Hm]; [done|]. rewrite (bool_decide_true _ Hm). apply andb_false_r. }
  split; [done|]. cbn [fst containers]. destruct (m_action ev); set_solver.
Qed.

(** A reconcile replaces what the feeder tracks by what Docker lists, and
    announces each listed container whose state says how, and each of its
    edges to a listed network, exactly once. *)
Theorem reconcile_exact f now cs ns f' out :
  reconcile f now (Some cs) (Some ns) = Some (f', out) ->
  containers f' = list_to_set (c_id <$> cs) /\ networks f' = list_to_set ns /\
  filter (fun m => m_type m = ContainerEventType) out = cs ≫= container_envelope now /\
  forall n c, mkMessage NetworkEventType ActionConnect n {[ "container" := c ]} now ∈ out <->
    n <> "" /\ n ∈ ns /\ exists s, s ∈ cs /\ c_id s = c /\ n ∈ c_networks s.
Proof.
  intros [= <- <-]. cbn [containers networks]. split_and!; [done|done| |].
  - rewrite filter_app. rewrite list_filter_all.
    + assert (filter (fun m => m_type m = ContainerEventType) (cs ≫= edge_envelopes now (list_to_set ns)) = []) as ->; [|apply app_nil_r].
      apply list_filter_none, Forall_forall. intros m (c & Hm & _)%list_elem_of_bind. apply list_elem_of_bind in Hm as (n & Hm & _).
      destruct (_ || _); [by apply not_elem_of_nil in Hm|]. by apply list_elem_of_singleton in Hm as ->.
    + apply Forall_forall. intros m (c & Hm & _)%list_elem_of_bind. unfold container_envelope in Hm.
      destruct (containerActionFromState _); [|by apply not_elem_of_nil in Hm]. by apply list_elem_of_singleton in Hm as ->.
  - intros n c. rewrite elem_of_app. split.
    + intros [H|H]; apply list_elem_of_bind in H as (s & H & Hs).
      * unfold container_envelope in H. destruct (containerActionFromState _); [|by apply not_elem_of_nil in H]. by apply list_elem_of_singleton in H.
      * apply list_elem_of_bind in H as (n' & H & Hn'). destruct (String.eqb_spec n' ""); [by apply not_elem_of_nil in H|].
        case_bool_decide as Hin; cbn in H; [|by apply not_elem_of_nil in H]. apply list_elem_of_singleton in H as [= -> Hattr].
        apply elem_of_list_to_set in Hin. split_and!; try done. exists s. split_and!; try done.
    + intros (Hne & Hn & s & Hs & <- & Hin). right. apply list_elem_of_bind. exists s. split; [|done]. apply list_elem_of_bind. exists n.
      split; [|done]. apply String.eqb_neq in Hne as ->. rewrite bool_decide_true by (by apply elem_of_list_to_set). cbn. by left.
Qed.

(** The pauses between attempts stay between the floor and the ceiling. *)
Lemma pauses_bounded rounds b :
  0 < ReconnectMin o <= ReconnectMax o -> ReconnectMin o <= b <= ReconnectMax o ->
  Forall (fun p => ReconnectMin o <= p <= ReconnectMax o) (pauses b rounds).
Proof.
  intros Ho. revert b. induction rounds as [|[] rounds IH]; intros b Hb; cbn [pauses]; constructor; try lia; apply IH; [..|lia];
    unfold nextBackoff; destruct (Z.ltb_spec (ReconnectMax o) (b * 2)); lia.
Qed.

End Dispatch.

(** ** Creating a managed network *)

Definition demo_opts : Options := mkOptions "dev.clawker.managed" "true" second (30 * second).
Definition create_net : Message := mkMessage NetworkEventType ActionCreate "n1" ∅ 1.

(** The creation of a managed network is published, although the package's
    documentation says that network create and destroy events are not. *)
Theorem network_create_published :
  (dispatch demo_opts (mkFeeder ∅ ∅ ∅) create_net (Inspected {[ "dev.clawker.managed" := "true" ]})).2 = [create_net].
Proof. vm_compute. reflexivity. Qed.

Lemma reconcile_exact_witness :
  reconcile (mkFeeder ∅ ∅ ∅) 1 (Some [mkSummary "c1" StateRunning ["/app"] "img" ∅ ["n1"; "n2"]]) (Some ["n1"]) =
    Some (mkFeeder {[ "c1" ]} {[ "n1" ]} ∅,
          [mkMessage ContainerEventType ActionStart "c1" {[ "name" := "app"; "image" := "img" ]} 1;
           mkMessage NetworkEventType ActionConnect "n1" {[ "container" := "c1" ]} 1]) /\
  containers (mkFeeder {[ "c1" ]} {[ "n1" ]} ∅) = list_to_set ["c1"].
Proof.
  assert (reconcile (mkFeeder ∅ ∅ ∅) 1 (Some [mkSummary "c1" StateRunning ["/app"] "img" ∅ ["n1"; "n2"]]) (Some ["n1"]) =
    Some (mkFeeder {[ "c1" ]} {[ "n1" ]} ∅,
          [mkMessage ContainerEventType ActionStart "c1" {[ "name" := "app"; "image" := "img" ]} 1;
           mkMessage NetworkEventType ActionConnect "n1" {[ "container" := "c1" ]} 1])) as E by (vm_compute; reflexivity).
  split; [exact E|]. apply (reconcile_exact _ _ _ _ _ _ E).
Defined.

End DockerFeeder.
