(* ===== verification/AgentStore.v ===== *)
(** * What the control plane observes of its agents

    controlplane/agent: event_state.go and repository.go (the projection of
    agent events into one state per container), start.go (which Docker events
    the agent domain reacts to) and watcher.go (shutting down when no agent is
    left).  Times are nanoseconds; Docker events are those of [DockerFeeder]. *)

From S2P Require Import Prelude AgentRegistry DockerFeeder.

Module AgentStore.

(** ** Events *)

Inductive EventType := DialerEventType | ExecutorEventType | RegistryEventType | OtherEventType.
Inductive Action :=
  | ActionConnecting | ActionConnected | ActionFailed | ActionBroken
  | ActionExecStarted | ActionExecStepStarted | ActionExecStepCompleted | ActionExecStepFailed | ActionExecFailed | ActionExecCompleted
  | ActionRegistered | ActionUntrusted | ActionReap | OtherAction.
(** [StatusNone] is the empty string of a state nothing was observed for. *)
Inductive Status :=
  | StatusNone | StatusUnknown | StatusUntrusted | StatusConnecting | StatusConnected | StatusBroken | StatusFailed | StatusDegraded | StatusHealthy
  | StatusRunning | StatusCompleted.

#[global] Instance Status_eq_dec : EqDecision Status.
Proof. solve_decision. Defined.

(** A reason is its text; [ReasonNone] the empty one. *)
Definition ReasonNone : string := "".

Record Agent := mkAgent { a_container : string; a_name : string; a_project : string }.
Record Message := mkMessage {
  m_type : EventType; m_action : Action; m_reason : string; m_detail : string; m_address : string; m_attempts : Z;
  m_peerFullName : string; m_peerThumbprint : string; m_registerOk : bool; m_stepName : string; m_stepIndex : Z; m_stepCount : Z; m_exitCode : Z;
}.
Record AgentEvent := mkAgentEvent { ev_agent : Agent; ev_message : Message }.

(** ** State *)

Record ExecutorEventState := mkExec {
  x_status : Status; stepName : string; stepIndex : Z; stepCount : Z; startedAt : Z; completedAt : Z; x_lastError : string;
}.

(** The zero value of the state. *)
Definition zero_time : Z := AgentRegistry.zero_time.
Definition zero_exec : ExecutorEventState := mkExec StatusNone "" 0 0 zero_time zero_time "".

Definition ExecRunning (count at_ : Z) : ExecutorEventState :=
  mkExec StatusRunning "" 0 (if count <? 0 then 0 else count) at_ zero_time "".

Definition WithStep (i : ExecutorEventState) (name : string) (idx : Z) : ExecutorEventState :=
  let idx := if idx <? 0 then 0 else idx in
  let idx := if (0 <? stepCount i) && (stepCount i <=? idx) then stepCount i - 1 else idx in
  mkExec (x_status i) name idx (stepCount i) (startedAt i) (completedAt i) (x_lastError i).

Definition WithStepError (i : ExecutorEventState) (detail : string) : ExecutorEventState :=
  mkExec (x_status i) (stepName i) (stepIndex i) (stepCount i) (startedAt i) (completedAt i) detail.

Definition Complete (i : ExecutorEventState) (at_ : Z) : ExecutorEventState :=
  mkExec StatusCompleted (stepName i) (stepIndex i) (stepCount i) (startedAt i) (if at_ <? startedAt i then startedAt i else at_) "".

Definition Fail_ (i : ExecutorEventState) (at_ : Z) (detail : string) : ExecutorEventState :=
  mkExec StatusFailed (stepName i) (stepIndex i) (stepCount i) (startedAt i) (if at_ <? startedAt i then startedAt i else at_) detail.

Record Trust := mkTrust { untrusted : bool; t_reason : string }.
Definition trusted : Trust := mkTrust false "".
Definition Untrust (reason : string) : Trust := if String.eqb reason ReasonNone then trusted else mkTrust true reason.

Record AgentEventState := mkState {
  s_container : string; s_name : string; s_project : string; s_address : string; s_session : Status; s_registered : bool; s_trust : Trust;
  s_thumbprint : string; s_peerFullName : string; s_attempts : Z; s_lastError : string; s_updatedAt : Z; s_exec : ExecutorEventState;
}.
Definition zero_state : AgentEventState := mkState "" "" "" "" StatusNone false trusted AgentRegistry.zero_thumbprint "" 0 "" zero_time zero_exec.

Definition set_session (a : AgentEventState) (st : Status) (full tp err : string) : AgentEventState :=
  mkState (s_container a) (s_name a) (s_project a) (s_address a) st (s_registered a) (s_trust a) tp full (s_attempts a) err (s_updatedAt a) (s_exec a).
Definition set_exec (a : AgentEventState) (x : ExecutorEventState) : AgentEventState :=
  mkState (s_container a) (s_name a) (s_project a) (s_address a) (s_session a) (s_registered a) (s_trust a) (s_thumbprint a) (s_peerFullName a)
    (s_attempts a) (s_lastError a) (s_updatedAt a) x.
Definition set_registry (a : AgentEventState) (st : Status) (reg : bool) (t : Trust) (err : string) : AgentEventState :=
  mkState (s_container a) (s_name a) (s_project a) (s_address a) st reg t (s_thumbprint a) (s_peerFullName a) (s_attempts a) err (s_updatedAt a) (s_exec a).

Definition projectSession (a : AgentEventState) (m : Message) : AgentEventState :=
  let a := mkState (s_container a) (s_name a) (s_project a) (if String.eqb (m_address m) "" then s_address a else m_address m) (s_session a)
             (s_registered a) (s_trust a) (s_thumbprint a) (s_peerFullName a) (if m_attempts m =? 0 then s_attempts a else m_attempts m)
             (s_lastError a) (s_updatedAt a) (s_exec a) in
  match m_action m with
  | ActionConnecting => set_session a StatusConnecting (s_peerFullName a) (s_thumbprint a) (s_lastError a)
  | ActionConnected => set_session a StatusConnected (m_peerFullName m) (m_peerThumbprint m) ""
  | ActionFailed => set_session a StatusFailed (s_peerFullName a) (s_thumbprint a) (m_detail m)
  | ActionBroken => set_session a StatusBroken (s_peerFullName a) (s_thumbprint a) (m_detail m)
  | _ => a
  end.

Definition projectExec (a : AgentEventState) (m : Message) (ts : Z) : AgentEventState :=
  match m_action m with
  | ActionExecStarted => set_exec a (ExecRunning (m_stepCount m) ts)
  | ActionExecStepStarted | ActionExecStepCompleted => set_exec a (WithStep (s_exec a) (m_stepName m) (m_stepIndex m))
  | ActionExecStepFailed => set_exec a (WithStepError (WithStep (s_exec a) (m_stepName m) (m_stepIndex m)) (m_detail m))
  | ActionExecCompleted => set_exec a (Complete (s_exec a) ts)
  | ActionExecFailed => set_exec a (Fail_ (s_exec a) ts (m_detail m))
  | _ => a
  end.

Definition detail_or (m : Message) (old : string) : string := if String.eqb (m_detail m) "" then old else m_detail m.

Definition projectRegistry (a : AgentEventState) (m : Message) : AgentEventState :=
  match m_action m with
  | ActionRegistered => if m_registerOk m then set_registry a (s_session a) true trusted (s_lastError a) else a
  | ActionUntrusted => set_registry a (s_session a) (s_registered a) (Untrust (m_reason m)) (detail_or m (s_lastError a))
  | ActionReap => set_registry a StatusDegraded (s_registered a) (s_trust a) (detail_or m (s_lastError a))
  | _ => a
  end.

(** One event on the state of its container. *)
Definition project_state (cur : option AgentEventState) (ev : AgentEvent) (ts : Z) : AgentEventState :=
  let g := ev_agent ev in
  let cur := default zero_state cur in
  let cur := mkState (a_container g) (if String.eqb (a_name g) "" then s_name cur else a_name g)
               (if String.eqb (a_project g) "" then s_project cur else a_project g) (s_address cur) (s_session cur) (s_registered cur) (s_trust cur)
               (s_thumbprint cur) (s_peerFullName cur) (s_attempts cur) (s_lastError cur) ts (s_exec cur) in
  match m_type (ev_message ev) with
  | DialerEventType => projectSession cur (ev_message ev)
  | ExecutorEventType => projectExec cur (ev_message ev) ts
  | RegistryEventType => projectRegistry cur (ev_message ev)
  | OtherEventType => cur
  end.

Definition project (m : gmap string AgentEventState) (ev : AgentEvent) (ts : Z) : gmap string AgentEventState :=
  let cid := a_container (ev_agent ev) in
  if String.eqb cid "" then m else <[cid := project_state (m !! cid) ev ts]> m.

(** The destroy of a container drops its state; no other Docker event does. *)
Definition evict (m : gmap string AgentEventState) (cid : string) : gmap string AgentEventState := delete cid m.
Definition container_destroy (ev : DockerFeeder.Message) : bool :=
  bool_decide (DockerFeeder.m_type ev = DockerFeeder.ContainerEventType) && bool_decide (DockerFeeder.m_action ev = DockerFeeder.ActionDestroy).
Definition onDockerEvent (m : gmap string AgentEventState) (ev : DockerFeeder.Message) : gmap string AgentEventState :=
  if negb (container_destroy ev) || String.eqb (DockerFeeder.actor ev) "" then m else evict m (DockerFeeder.actor ev).

(** ** Reactions to Docker events *)

(** Which events end a session, and which start one. *)
Definition sessionCancelEvent (ev : DockerFeeder.Message) : bool :=
  bool_decide (DockerFeeder.m_type ev = DockerFeeder.ContainerEventType) &&
  match DockerFeeder.m_action ev with
  | DockerFeeder.ActionDie | DockerFeeder.ActionStop | DockerFeeder.ActionKill | DockerFeeder.ActionOOM | DockerFeeder.ActionDestroy => true
  | _ => false
  end.

Definition LabelPurpose : string := "dev.clawker.purpose".
Definition DialEvent (ev : DockerFeeder.Message) : bool :=
  bool_decide (DockerFeeder.m_type ev = DockerFeeder.ContainerEventType) &&
  match DockerFeeder.m_action ev with
  | DockerFeeder.ActionStart | DockerFeeder.ActionRestart | DockerFeeder.ActionUnPause =>
      bool_decide (DockerFeeder.attributes ev !! LabelPurpose = Some "agent")
  | _ => false
  end.

(** The eviction subscriber: the registry, the failures in a row, and whether
    they were escalated; [fails] says whether the database fails.  The result
    also says whether this event escalates. *)
Record evictor := mkEvictor { v_registry : AgentRegistry.sqliteRegistry; consecutiveFailures : Z; escalated : bool }.
Definition evictEscalationThreshold : Z := 5.
Definition onEvict (v : evictor) (ctx_done fails : bool) (ev : DockerFeeder.Message) : evictor * bool :=
  let cid := DockerFeeder.actor ev in
  if ctx_done || negb (container_destroy ev) || String.eqb cid "" then (v, false)
  else
    match AgentRegistry.sql_evict fails (v_registry v) cid with
    | Some r => (mkEvictor r 0 false, false)
    | None =>
        let n := consecutiveFailures v + 1 in
        let esc := negb (escalated v) && (evictEscalationThreshold <=? n) in
        (mkEvictor (v_registry v) n (escalated v || esc), esc)
    end.

(** ** The watcher *)

(** One tick: the context is done, or the time since the start and what
    [listAgents] answers. *)
Inductive tick := Cancelled | Polled (elapsed : Z) (count : option Z).

Record watcherOptions := mkWatcher { missedThreshold : Z; gracePeriod : Z; listErrCeiling : Z }.

Inductive verdict := Waiting | WasCancelled | TooManyErrors | DrainToZero.

Definition NewAgentWatcher (poll missed grace ceiling : Z) : option watcherOptions :=
  if (poll <? 0) || (missed <? 0) || (grace <? 0) || (ceiling <? 0) then None
  else Some (mkWatcher (if missed =? 0 then 2 else missed) (if grace =? 0 then 60 * 10 ^ 9 else grace) (if ceiling =? 0 then 20 else ceiling)).

(** The loop of [Run], on the ticks so far; [DrainToZero] is where the callback
    is invoked. *)
Fixpoint watch (o : watcherOptions) (missed errs : Z) (ticks : list tick) : verdict :=
  match ticks with
  | [] => Waiting
  | Cancelled :: _ => WasCancelled
  | Polled elapsed None :: ticks =>
      if listErrCeiling o <=? errs + 1 then TooManyErrors else watch o 0 (errs + 1) ticks
  | Polled elapsed (Some count) :: ticks =>
      if 0 <? count then watch o 0 0 ticks
      else if (elapsed <? gracePeriod o) || (missed + 1 <? missedThreshold o) then watch o (missed + 1) 0 ticks
      else DrainToZero
  end.

(** ** The projected states *)

Record exec_ok (x : ExecutorEventState) : Prop := {
  xo_count : 0 <= stepCount x;
  xo_index : 0 <= stepIndex x;
  xo_range : 0 < stepCount x -> stepIndex x < stepCount x;
  xo_times : x_status x = StatusCompleted \/ x_status x = StatusFailed -> startedAt x <= completedAt x;
}.

Record state_ok (cid : string) (a : AgentEventState) : Prop := {
  so_key : s_container a = cid /\ cid <> "";
  so_exec : exec_ok (s_exec a);
  so_trust : untrusted (s_trust a) = true -> t_reason (s_trust a) <> ReasonNone;
}.

Lemma zero_exec_ok : exec_ok zero_exec.
Proof. split; cbn; lia. Qed.

Lemma WithStep_ok x n i : exec_ok x -> exec_ok (WithStep x n i).
Proof.
  intros [H1 H2 H3 H4]. unfold WithStep. split; cbn; try done;
    destruct (Z.ltb_spec i 0), (Z.ltb_spec 0 (stepCount x)); cbn; try lia; destruct (Z.leb_spec (stepCount x) 0), (Z.leb_spec (stepCount x) i); lia.
Qed.

Lemma projectExec_ok a m ts : exec_ok (s_exec a) -> exec_ok (s_exec (projectExec a m ts)).
Proof.
  intros Hx. unfold projectExec. destruct (m_action m); try done; cbn; try by apply WithStep_ok.
  - split; cbn; [|lia|lia|by intros [|]]. destruct (Z.ltb_spec (m_stepCount m) 0); lia.
  - destruct (WithStep_ok (s_exec a) (m_stepName m) (m_stepIndex m) Hx) as [H1 H2 H3 H4]. by split.
  - destruct Hx as [H1 H2 H3 H4]. split; cbn; try done. destruct (Z.ltb_spec ts (startedAt (s_exec a))); lia.
  - destruct Hx as [H1 H2 H3 H4]. split; cbn; try done. destruct (Z.ltb_spec ts (startedAt (s_exec a))); lia.
Qed.

Lemma project_state_ok cur ev ts :
  a_container (ev_agent ev) <> "" -> (forall a, cur = Some a -> state_ok (a_container (ev_agent ev)) a) ->
  state_ok (a_container (ev_agent ev)) (project_state cur ev ts).
Proof.
  intros Hne Hcur. assert (exec_ok (s_exec (default zero_state cur)) /\
    (untrusted (s_trust (default zero_state cur)) = true -> t_reason (s_trust (default zero_state cur)) <> ReasonNone)) as [Hx Ht].
  { destruct cur as [a|]; [destruct (Hcur a eq_refl); by split|split; [apply zero_exec_ok|done]]. }
  unfold project_state. set (cur' := mkState _ _ _ _ _ _ _ _ _ _ _ _ _).
  destruct (m_type (ev_message ev)).
  - unfold projectSession. destruct (m_action _); split; cbn; done.
  - split; [|apply projectExec_ok; done|]; unfold projectExec; by destruct (m_action _).
  - unfold projectRegistry. destruct (m_action _); try (split; cbn; done); [destruct (m_registerOk _); split; cbn; done|].
    split; cbn; try done. unfold Untrust. by destruct (String.eqb_spec (m_reason (ev_message ev)) ReasonNone).
  - by split.
Qed.

(** The store after a producer's events, whenever each of them is stamped. *)
Inductive observed : gmap string AgentEventState -> list AgentEvent -> gmap string AgentEventState -> Prop :=
  | observed_nil m : observed m [] m
  | observed_cons m ev ts evs m' : observed (project m ev ts) evs m' -> observed m (ev :: evs) m'.

Lemma observed_app m evs1 evs2 m' : observed m (evs1 ++ evs2) m' <-> exists m1, observed m evs1 m1 /\ observed m1 evs2 m'.
Proof.
  split.
  - revert m. induction evs1 as [|ev evs1 IH]; intros m H; [by exists m; split; [constructor|]|].
    inversion H as [|? ? ts ? ? H1]; subst. destruct (IH _ H1) as (m1 & ? & ?). exists m1. split; [by econstructor|done].
  - intros (m1 & H1 & H2). induction H1; [done|]. econstructor. by apply IHobserved.
Qed.

(** What the store sees: agent events, and Docker events of containers. *)
Inductive entry := LAgent (ev : AgentEvent) (ts : Z) | LDocker (ev : DockerFeeder.Message).
Definition apply (m : gmap string AgentEventState) (e : entry) : gmap string AgentEventState :=
  match e with LAgent ev ts => project m ev ts | LDocker ev => onDockerEvent m ev end.

(** Each projected state is well formed. *)
Lemma states_ok log : map_Forall state_ok (foldl apply ∅ log).
Proof.
  assert (forall m, map_Forall state_ok m -> map_Forall state_ok (foldl apply m log)) as H; [|by apply H, map_Forall_empty].
  induction log as [|e log IH]; intros m Hm; cbn [foldl]; [done|]. apply IH. destruct e as [ev ts|ev]; cbn [apply].
  - unfold project. destruct (String.eqb_spec (a_container (ev_agent ev)) ""); [done|]. apply map_Forall_insert_2; [|done].
    apply project_state_ok; [done|]. intros a Ha. by apply (map_Forall_lookup_1 _ _ _ _ Hm Ha).
  - unfold onDockerEvent. destruct (_ || _); [done|]. by apply map_Forall_delete.
Qed.

(** The agent events of a container since it was last destroyed. *)
Definition relevant_step (cid : string) (acc : list (AgentEvent * Z)) (e : entry) : list (AgentEvent * Z) :=
  match e with
  | LAgent ev ts => if String.eqb (a_container (ev_agent ev)) cid then acc ++ [(ev, ts)] else acc
  | LDocker ev => if container_destroy ev && String.eqb (DockerFeeder.actor ev) cid then [] else acc
  end.
Definition relevant (cid : string) (log : list entry) : list (AgentEvent * Z) := foldl (relevant_step cid) [] log.

(** The store is exactly the projection, container by container, of the agent
    events since the container was last destroyed: events of other containers do
    not touch its state, and a destroyed container is forgotten until it is heard
    of again, so the store is bounded by the containers that exist. *)
Lemma worldview_exact log cid :
  cid <> "" ->
  foldl apply ∅ log !! cid = foldl (fun cur '(ev, ts) => Some (project_state cur ev ts)) None (relevant cid log).
Proof.
  intros Hne. unfold relevant. induction log as [|e log IH] using rev_ind; [done|]. rewrite !foldl_app. cbn [foldl].
  destruct e as [ev ts|ev]; cbn [apply relevant_step].
  - unfold project. destruct (String.eqb_spec (a_container (ev_agent ev)) cid) as [<-|Hother].
    + apply String.eqb_neq in Hne as ->. rewrite lookup_insert_eq, foldl_app. cbn [foldl]. by rewrite IH.
    + destruct (String.eqb _ ""); [done|]. by rewrite lookup_insert_ne.
  - unfold onDockerEvent, evict. destruct (container_destroy ev); cbn [negb orb andb]; [|done].
    destruct (String.eqb_spec (DockerFeeder.actor ev) ""), (String.eqb_spec (DockerFeeder.actor ev) cid); subst; try done; try congruence; [by rewrite lookup_delete_eq|by rewrite lookup_delete_ne].
Qed.

(** C28: Whatever events arrive in whatever order, the store holds exactly the
    projection, container by container, of the agent events since the container
    was last destroyed, and every state in it is well formed: it is filed under
    its own container, its step count and step index are not negative, the index
    is below the count wherever the count is positive (a step that is reported
    without a plan's start has a count of zero and is not bounded by it), a plan
    that is over ends no earlier than it starts, and the agent is untrusted only
    with a reason. *)
Theorem worldview_ok log :
  map_Forall state_ok (foldl apply ∅ log) /\
  forall cid, cid <> "" ->
    foldl apply ∅ log !! cid = foldl (fun cur '(ev, ts) => Some (project_state cur ev ts)) None (relevant cid log).
Proof. split; [apply states_ok|]. intros cid Hne. by apply worldview_exact. Qed.

(** The evictor never loses a row of a container that was not destroyed, and
    resets its alarm on success. *)
Lemma onEvict_spec v fails ev cid :
  AgentRegistry.table_ok (v_registry v) ->
  let v' := (onEvict v false fails ev).1 in
  (container_destroy ev = true -> DockerFeeder.actor ev <> "" -> fails = false ->
     AgentRegistry.sql_lookup false (v_registry v') (DockerFeeder.actor ev) = AgentRegistry.UnknownAgent /\ consecutiveFailures v' = 0) /\
  (cid <> DockerFeeder.actor ev \/ container_destroy ev = false ->
     AgentRegistry.sql_lookup false (v_registry v') cid = AgentRegistry.sql_lookup false (v_registry v) cid).
Proof.
  intros Ht. unfold onEvict. destruct (container_destroy ev); cbn [negb orb]; [|done].
  destruct (String.eqb_spec (DockerFeeder.actor ev) "") as [|Hne]; [done|].
  destruct (AgentRegistry.sql_evict fails (v_registry v) (DockerFeeder.actor ev)) as [r|] eqn:E; cbn [fst v_registry consecutiveFailures].
  - split; [intros _ _ _; split; [exact (AgentRegistry.evict_here fails _ _ _ Ht E)|done]|].
    intros [Hc|?]; [|done]. exact (AgentRegistry.evict_other fails _ _ _ _ Ht E Hc).
  - split; [|done]. intros _ _ ->. unfold AgentRegistry.sql_evict in E. apply String.eqb_neq in Hne. by rewrite Hne in E.
Qed.

(** A terminal phase is not coherent.  A step that fails after the plan was
    reported complete leaves a Completed state with an error, and a plan that
    fails without a detail leaves a Failed state without one: the constructors
    do not exclude these combinations. *)
Theorem exec_incoherent :
  let msg action detail := mkAgentEvent (mkAgent "abc1" "dev" "app") (mkMessage ExecutorEventType action "" detail "" 0 "" "" false "step" 0 1 0) in
  let run evs := foldl (fun m ev => project m ev 1) ∅ evs !! "abc1" in
  (exists a, run [msg ActionExecStarted ""; msg ActionExecCompleted ""; msg ActionExecStepFailed "boom"] = Some a /\
     x_status (s_exec a) = StatusCompleted /\ x_lastError (s_exec a) = "boom") /\
  (exists a, run [msg ActionExecStarted ""; msg ActionExecFailed ""] = Some a /\
     x_status (s_exec a) = StatusFailed /\ x_lastError (s_exec a) = "").
Proof. cbn zeta. split; eexists; (split; [vm_compute; reflexivity|split; reflexivity]). Qed.

(** ** The watcher *)

Definition zero_poll (t : tick) : Prop := match t with Polled _ (Some c) => c <= 0 | _ => False end.

(** The streaks the loop keeps. *)
Definition next_missed (m : Z) (t : tick) : Z := match t with Polled _ (Some c) => if 0 <? c then 0 else m + 1 | _ => 0 end.
Definition next_errs (n : Z) (t : tick) : Z := match t with Polled _ None => n + 1 | _ => 0 end.

Lemma watch_app o m n pre post :
  watch o m n pre = Waiting -> watch o m n (pre ++ post) = watch o (foldl next_missed m pre) (foldl next_errs n pre) post.
Proof.
  revert m n. induction pre as [|[|el [c|]] pre IH]; intros m n; cbn [watch app foldl next_missed next_errs]; [done|done| |].
  - destruct (0 <? c); [by apply IH|]. destruct (_ || _); [by apply IH|done].
  - destruct (_ <=? _); [done|]. by apply IH.
Qed.

Lemma watch_drains o m n ticks :
  watch o m n ticks = DrainToZero ->
  exists pre el c post, ticks = pre ++ Polled el (Some c) :: post /\ watch o m n pre = Waiting /\ c <= 0 /\ gracePeriod o <= el /\
    missedThreshold o <= foldl next_missed m pre + 1.
Proof.
  revert m n. induction ticks as [|[|el [c|]] ticks IH]; intros m n; cbn [watch]; [done|done| |].
  - destruct (0 <? c) eqn:Ec.
    + intros (pre & el' & c' & post & -> & H)%IH. exists (Polled el (Some c) :: pre), el', c', post. cbn [watch foldl next_missed]. by rewrite Ec.
    + destruct (_ || _) eqn:Eo.
      * intros (pre & el' & c' & post & -> & H)%IH. exists (Polled el (Some c) :: pre), el', c', post. cbn [watch foldl next_missed]. by rewrite Ec, Eo.
      * intros _. exists [], el, c, ticks. apply orb_false_iff in Eo as [E1 E2]. apply Z.ltb_ge in Ec, E1, E2. cbn. done.
  - destruct (_ <=? _) eqn:Ee; [done|]. intros (pre & el' & c' & post & -> & H)%IH.
    exists (Polled el None :: pre), el', c', post. cbn [watch foldl next_missed]. by rewrite Ee.
Qed.

(** The count of missed polls is the length of a run of empty polls. *)
Lemma missed_streak pre k :
  0 <= k <= foldl next_missed 0 pre <-> exists a b, pre = a ++ b /\ Z.of_nat (length b) = k /\ Forall zero_poll b.
Proof.
  assert (Hpos : forall l, 0 <= foldl next_missed 0 l).
  { intros l. induction l as [|t l IH] using rev_ind; [done|]. rewrite foldl_app. cbn [foldl]. destruct t as [|el [c|]]; cbn; try lia.
    destruct (0 <? c); lia. }
  revert k. induction pre as [|t pre IH] using rev_ind; intros k.
  { cbn. split; [intros; exists [], []; cbn; split_and!; [done|lia|done]|]. intros (a & b & E & Hk & _). symmetry in E. apply app_nil in E as [-> ->]. cbn in Hk. lia. }
  rewrite foldl_app. cbn [foldl]. split.
  - intros Hk. destruct (decide (k = 0)) as [->|Hk0]; [exists (pre ++ [t]), []; by rewrite app_nil_r|].
    destruct t as [|el [c|]]; cbn in Hk; [lia| |lia]. destruct (Z.ltb_spec 0 c); [lia|].
    destruct (proj1 (IH (k - 1))) as (a & b & -> & Hb & Hf); [lia|]. exists a, (b ++ [Polled el (Some c)]). rewrite app_assoc, length_app. cbn.
    split_and!; [done|lia|]. apply Forall_app. split; [done|]. by constructor.
  - intros (a & b & E & Hk & Hf). pose proof (Hpos (pre ++ [t])) as Hp. rewrite foldl_app in Hp. cbn [foldl] in Hp.
    destruct b as [|x b] using rev_ind; [cbn in Hk; lia|]. clear IHb. rewrite app_assoc in E. apply app_inj_tail in E as [-> ->].
    apply Forall_app in Hf as [Hf Hx]. apply Forall_cons in Hx as [Hx _]. destruct x as [|el [c|]]; try done. cbn in Hx.
    cbn [next_missed]. destruct (Z.ltb_spec 0 c); [lia|]. rewrite length_app in Hk. cbn in Hk.
    assert (0 <= k - 1 <= foldl next_missed 0 (a ++ b)) by (apply IH; exists a, b; split_and!; [done|lia|done]). lia.
Qed.

(** The control plane shuts itself down exactly when the agents are gone.
    The watcher invokes the drain callback if and only if it reaches a poll that
    finds no agent, past the grace period, that ends a run of at least the
    threshold of consecutive successful empty polls; an error or an agent in
    between starts the count again. *)
Theorem watcher_drains_iff o ticks :
  1 <= missedThreshold o ->
  watch o 0 0 ticks = DrainToZero <->
  exists pre run el c post, ticks = pre ++ run ++ Polled el (Some c) :: post /\ watch o 0 0 (pre ++ run) = Waiting /\
    Forall zero_poll run /\ Z.of_nat (length run) + 1 = missedThreshold o /\ c <= 0 /\ gracePeriod o <= el.
Proof.
  intros Ht. split.
  - intros (pre & el & c & post & -> & Hw & Hc & Hg & Hm)%watch_drains.
    destruct (proj1 (missed_streak pre (missedThreshold o - 1))) as (a & b & -> & Hl & Hf); [lia|].
    exists a, b, el, c, post. rewrite <- app_assoc. split_and!; try done. lia.
  - intros (pre & run & el & c & post & -> & Hw & Hf & Hl & Hc & Hg). rewrite app_assoc, watch_app by done. cbn [watch].
    destruct (Z.ltb_spec 0 c); [lia|]. destruct (Z.ltb_spec el (gracePeriod o)); [lia|].
    assert (0 <= Z.of_nat (length run) <= foldl next_missed 0 (pre ++ run)) as [_ Hm] by (apply missed_streak; by exists pre, run).
    destruct (Z.ltb_spec (foldl next_missed 0 (pre ++ run) + 1) (missedThreshold o)); [lia|done].
Qed.

Lemma watcher_drains_iff_witness :
  watch (mkWatcher 2 60 20) 0 0 [Polled 30 (Some 0); Polled 60 None; Polled 90 (Some 0); Polled 120 (Some 0)] = DrainToZero.
Proof.
  apply (watcher_drains_iff (mkWatcher 2 60 20)); [cbn; lia|].
  exists [Polled 30 (Some 0); Polled 60 None], [Polled 90 (Some 0)], 120, 0, [].
  split; [reflexivity|]. split; [vm_compute; reflexivity|]. split; [repeat constructor; cbn; lia|]. cbn. lia.
Defined.

Lemma worldview_ok_witness :
  foldl apply ∅ [LAgent (mkAgentEvent (mkAgent "abc1" "dev" "app") (mkMessage DialerEventType ActionConnecting "" "" "" 0 "" "" false "" 0 0 0)) 1;
                 LDocker (DockerFeeder.mkMessage DockerFeeder.ContainerEventType DockerFeeder.ActionDestroy "abc1" ∅ 2)] !! "abc1" = None.
Proof. rewrite (proj2 (worldview_ok _) "abc1"); [vm_compute; reflexivity|done]. Defined.

End AgentStore.
