(* ===== verification/SessionProto.v ===== *)
(** * The session between the control plane and the daemon of a container

    The commands and responses of api/clawkerd/v1/clawkerd.proto and the
    control plane's end of the stream: what was sent, what was received, and
    what is still to be received.  The peer is a state that answers each command
    with the frames it will send for it; a stream that broke, a closed stream
    and a context that is done are items to receive, and stay in front. *)

From S2P Require Import Prelude GoStrings.
Import Go.

Module SessionProto.

Record PipeStage := mkStage { Argv : list string; Uid : Z; Gid : Z; Env : gmap string string }.
Record ShellCommand := mkShell { Stages : list PipeStage; TimeoutSeconds : Z; InitialStdin : string; PrintOutput : bool; ExitOnNonZero : bool }.

Inductive command_payload :=
  | Hello | Shell (sc : ShellCommand) | Stdin (data : string) | CloseStdin | Signal (signo : Z) | RegisterRequired
  | AgentReady (default_cmd : string) | AgentInitialized | UnknownCommand.
Record Command := mkCommand { CommandId : string; CommandPayload : command_payload }.

Inductive ErrorCode := UNSPECIFIED | UNKNOWN_COMMAND_ID | INVALID_REQUEST | SPAWN_FAILED | TIMEOUT | IO_ERROR | NOT_FOUND.
Definition ErrorCode_String (c : ErrorCode) : string :=
  "ERROR_CODE_" +:+
  match c with
  | UNSPECIFIED => "UNSPECIFIED" | UNKNOWN_COMMAND_ID => "UNKNOWN_COMMAND_ID" | INVALID_REQUEST => "INVALID_REQUEST"
  | SPAWN_FAILED => "SPAWN_FAILED" | TIMEOUT => "TIMEOUT" | IO_ERROR => "IO_ERROR" | NOT_FOUND => "NOT_FOUND"
  end.

Record HelloAck := mkHelloAck { Initialized : bool; CmdRunning : bool }.
Inductive response_payload :=
  | RHelloAck (ack : HelloAck) | Started | Output (data : string) | StageExit (stage exit_code signo : Z) | Done (final_exit_code : Z)
  | Error (code : ErrorCode) (message : string) | RegisterDone (ok : bool) (error : string) | UnknownResponse.
Record Response := mkResponse { ResponseId : string; ResponsePayload : response_payload }.

#[global] Instance ErrorCode_eq_dec : EqDecision ErrorCode.
Proof. solve_decision. Defined.
#[global] Instance HelloAck_eq_dec : EqDecision HelloAck.
Proof. solve_decision. Defined.
#[global] Instance response_payload_eq_dec : EqDecision response_payload.
Proof. solve_decision. Defined.
#[global] Instance Response_eq_dec : EqDecision Response.
Proof. solve_decision. Defined.

(** What [Recv] meets: a frame, the end of the stream, a broken stream, or a
    context that is done before the call.  A list of these that runs out is a
    stream the peer closed. *)
Inductive recv := Frame (r : Response) | EOF | RecvErr (text : string) | CtxDone.

(** The control plane's calls, in program order. *)
Inductive traffic := Tx (c : Command) | Rx (r : Response).

(** [log] is the history of the stream, which the control plane does not read,
    and [cancelled] says that its context was cancelled: nothing can be sent any
    more. *)
Record Stream (P : Type) := mkStream { peer : P; inbox : list recv; log : list traffic; cancelled : bool }.
Arguments mkStream {P}.
Arguments peer {P}.
Arguments inbox {P}.
Arguments log {P}.
Arguments cancelled {P}.

Section Stream.
Context {P : Type}.
(** What the peer does with a command: the frames it will answer with, or the
    error the send returns. *)
Variable react : P -> Command -> result string (P * list recv).

Definition Send (s : Stream P) (c : Command) : result string (Stream P) :=
  if cancelled s then Err "EOF"
  else
    match react (peer s) c with
    | Err e => Err e
    | Ok (p, frames) => Ok (mkStream p (inbox s ++ frames) (log s ++ [Tx c]) false)
    end.

Lemma Send_log s c s' : Send s c = Ok s' -> log s' = log s ++ [Tx c].
Proof. unfold Send. destruct (cancelled s); [done|]. destruct (react (peer s) c) as [[p fr]|]; [|done]. by intros [= <-]. Qed.

End Stream.
End SessionProto.
