(* ===== verification/Executor.v ===== *)
(** * Plans run inside a container

    controlplane/agent/exec.go, boot_steps.go, init_steps.go, utils.go: the steps
    of the init and boot plans, the dispatch of one step over the session and
    the reading of its outcome, and the run of a plan with the events it
    publishes and the teardown of the container after a failed step.  The texts
    of the shell scripts are parameters of the plans. *)

From S2P Require Import Prelude GoStrings SessionProto AgentStore.
Import Go SessionProto.

Module Executor.

(** ** Steps and plans *)

Inductive Step :=
  | ShellStep (name : string) (shell : ShellCommand)
  | AgentReadyStep (name default_cmd : string)
  | AgentInitializedStep (name : string).

Definition StepName (st : Step) : string :=
  match st with ShellStep n _ | AgentReadyStep n _ | AgentInitializedStep n => n end.

(** The command, and whether a CloseStdin follows it. *)
Definition StepCommand (st : Step) (id : string) : Command * bool :=
  match st with
  | ShellStep _ shell => (mkCommand id (Shell shell), true)
  | AgentReadyStep _ d => (mkCommand id (AgentReady d), false)
  | AgentInitializedStep _ => (mkCommand id AgentInitialized, false)
  end.

(** The texts of the scripts, and the user of the container. *)
Record scripts := mkScripts {
  DockerSocketScript : string; ConfigSeedScript : string; GitconfigFilterScript : string; GitCredentialsScript : string;
  SshKnownHostsScript : string; PostInitScript : string; PreRunScript : string; defaultKnownHosts : string;
  HostUID : Z; HostGID : Z; ContainerHomeDir : string; ContainerUser : string;
}.

Definition execStepTimeoutDefault : Z := 30.
Definition execStepTimeoutPostInit : Z := 600.

Section Plans.
Variable t : scripts.

Definition userStage (script : string) : PipeStage :=
  mkStage ["sh"; "-c"; script] (HostUID t) (HostGID t) (<["HOME" := ContainerHomeDir t]> {["USER" := ContainerUser t]}).

Definition dockerSocketStep : Step :=
  ShellStep "docker-socket" (mkShell [mkStage ["sh"; "-c"; DockerSocketScript t] 0 0 ∅] execStepTimeoutDefault "" false true).
Definition configStep : Step :=
  ShellStep "config" (mkShell [userStage (ConfigSeedScript t)] execStepTimeoutDefault "" false true).
Definition gitStep : Step :=
  ShellStep "git" (mkShell [userStage (GitconfigFilterScript t)] execStepTimeoutDefault "" false true).
Definition gitCredentialsStep : Step :=
  ShellStep "git-credentials" (mkShell [userStage (GitCredentialsScript t)] execStepTimeoutDefault "" false true).
Definition sshStep : Step :=
  ShellStep "ssh" (mkShell [userStage (SshKnownHostsScript t)] execStepTimeoutDefault (defaultKnownHosts t) false true).
Definition postInitStep : Step :=
  ShellStep "post-init" (mkShell [userStage (PostInitScript t)] execStepTimeoutPostInit "" true true).
Definition preRunStep : Step :=
  ShellStep "pre-run" (mkShell [userStage (PreRunScript t)] execStepTimeoutPostInit "" true true).

Definition InitPlan : list Step :=
  [dockerSocketStep; configStep; gitStep; gitCredentialsStep; sshStep; postInitStep; AgentInitializedStep "agent-initialized"].

Definition bootPlanPost (defaultCmd : string) : list Step := [preRunStep; AgentReadyStep "agent-ready" defaultCmd].
Definition BootPlan (defaultCmd : string) : list Step := [dockerSocketStep] ++ bootPlanPost defaultCmd.

End Plans.

(** [None]: there is no HelloAck, an error. *)
Definition shouldAgentInit (ack : option HelloAck) : option bool :=
  match ack with
  | None => None
  | Some a => if CmdRunning a then Some false else if Initialized a then Some false else Some true
  end.
Definition shouldAgentBoot (ack : option HelloAck) : option bool :=
  match ack with None => None | Some a => if CmdRunning a then Some false else Some true end.
Definition agentInitBypassed (ack : option HelloAck) : bool :=
  match ack with None => false | Some a => CmdRunning a && negb (Initialized a) end.

(** ** The outcome of a step *)

Definition ReasonTimeout : string := "timeout".
Definition ReasonSpawnFailed : string := "spawn_failed".
Definition ReasonIOError : string := "io_error".
Definition ReasonProtocolError : string := "protocol_error".
Definition ReasonTransportError : string := "transport_error".
Definition ReasonExitCode : string := "exit_code".
Definition ReasonUnknown : string := "unknown".

Record stepOutcome := mkOutcome { ExitCode : Z; Reason : string; Detail : string }.
Definition Failed (o : stepOutcome) : bool := negb (String.eqb (Reason o) AgentStore.ReasonNone).
Definition stepSucceeded : stepOutcome := mkOutcome 0 AgentStore.ReasonNone "".
Definition stepFailedTransport (detail : string) : stepOutcome := mkOutcome (-1) ReasonTransportError detail.
Definition stepFailedExit (exit : Z) (detail : string) : stepOutcome := mkOutcome exit ReasonExitCode detail.
Definition stepFailedClassified (reason detail : string) : stepOutcome := mkOutcome (-1) reason detail.

Definition classifyErrorCode (c : ErrorCode) : string :=
  match c with
  | TIMEOUT => ReasonTimeout
  | SPAWN_FAILED => ReasonSpawnFailed
  | IO_ERROR | NOT_FOUND => ReasonIOError
  | INVALID_REQUEST | UNKNOWN_COMMAND_ID => ReasonProtocolError
  | UNSPECIFIED => ReasonUnknown
  end.

Definition maxOutputCapture : Z := 4096.

(** The output captured so far and the number of bytes left out. *)
Definition captureCapped (buf : string) (truncated : Z) (data : string) : string * Z :=
  let len s := Z.of_nat (String.length s) in
  let remaining := maxOutputCapture - len buf in
  if remaining <=? 0 then (buf, truncated + len data)
  else if remaining <? len data
       then (buf +:+ String.substring 0 (Z.to_nat remaining) data, truncated + (len data - remaining))
       else (buf +:+ data, truncated).

(** A frame of the command: the outcome it ends the step with, or the output to
    go on with. *)
Definition classifyStepResponse (p : response_payload) (buf : string) (truncated : Z) : stepOutcome + string * Z :=
  match p with
  | Output data => inr (captureCapped buf truncated data)
  | Done exit =>
      if exit =? 0 then inl stepSucceeded
      else
        let detail := "exit_code=" +:+ Itoa exit in
        let s := TrimSpace buf in
        let detail :=
          if String.eqb s "" then detail
          else detail +:+ "; output: " +:+ s +:+ (if 0 <? truncated then " ... [" +:+ Itoa truncated +:+ " bytes truncated]" else "") in
        inl (stepFailedExit exit detail)
  | Error code msg => inl (stepFailedClassified (classifyErrorCode code) (ErrorCode_String code +:+ ": " +:+ msg))
  | _ => inr (buf, truncated)
  end.

(** [fmt.Sprintf] of the four parts. *)
Definition buildCommandID (label containerID stepName : string) (idx : Z) : string :=
  label +:+ "-" +:+ String.substring 0 12 containerID +:+ "-" +:+ stepName +:+ "-" +:+ Itoa idx.

(** [%q] of a name of a step. *)
Definition quoted (name : string) : string := let q := String (ascii_of_N 34) "" in q +:+ name +:+ q.

(** ** Running a plan *)

Record ExecTarget := mkTarget { t_container : string; t_agent : string; t_project : string }.
Definition target_agent (t : ExecTarget) : AgentStore.Agent := AgentStore.mkAgent (t_container t) (t_agent t) (t_project t).

(** An event of the exec axis. *)
Definition exec_event (t : ExecTarget) (a : AgentStore.Action) (reason detail name : string) (idx count exit : Z) : AgentStore.AgentEvent :=
  AgentStore.mkAgentEvent (target_agent t) (AgentStore.mkMessage AgentStore.ExecutorEventType a reason detail "" 0 "" "" false name idx count exit).

(** What happens around a run: whether the container exits by itself within the
    grace, the error of the kill, and the panics (before the command of a step
    is sent, or after the step completed). *)
Record exec_env := mkExecEnv { self_exits : bool; kill_error : option string; panic_in : nat -> option string; panic_after : nat -> option string }.

(** Whether SIGKILL was sent, and the error. *)
Definition KillAfterGrace (e : exec_env) : bool * option string :=
  if self_exits e then (false, None)
  else (true, match kill_error e with Some k => Some ("agent: SIGKILL after fatal command failed: " +:+ k) | None => None end).

Section Run.
Context {P : Type}.
Variable react : P -> Command -> result string (P * list recv).

(** On an error the stream is as far as the sends got. *)
Definition sendStepCommand (s : Stream P) (commandID : string) (st : Step) : result string unit * Stream P :=
  let '(cmd, followCloseStdin) := StepCommand st commandID in
  match Send react s cmd with
  | Err e => (Err ("send " +:+ StepName st +:+ ": " +:+ e), s)
  | Ok s =>
      if followCloseStdin then
        match Send react s (mkCommand commandID CloseStdin) with
        | Err e => (Err ("send " +:+ StepName st +:+ " close_stdin: " +:+ e), s)
        | Ok s => (Ok tt, s)
        end
      else (Ok tt, s)
  end.

Definition eofDetail : string := "stream EOF before terminal response".
Definition ctxErr : string := "context canceled".

(** The outcome, the transport error if the stream broke, what is left to
    receive and what was received. *)
Fixpoint awaitStepResult (commandID name : string) (inb : list recv) (buf : string) (truncated : Z)
    : stepOutcome * option string * list recv * list Response :=
  match inb with
  | [] | EOF :: _ => (stepFailedTransport eofDetail, Some eofDetail, inb, [])
  | CtxDone :: _ => (stepFailedTransport ctxErr, Some ctxErr, inb, [])
  | RecvErr e :: _ => let w := "recv " +:+ name +:+ ": " +:+ e in (stepFailedTransport w, Some w, inb, [])
  | Frame r :: rest =>
      let got '(o, err, inb, frames) := (o, err, inb, r :: frames) in
      if negb (String.eqb (ResponseId r) commandID) then got (awaitStepResult commandID name rest buf truncated)
      else
        match classifyStepResponse (ResponsePayload r) buf truncated with
        | inl o => (o, None, rest, [r])
        | inr (buf, truncated) => got (awaitStepResult commandID name rest buf truncated)
        end
  end.

Definition runStep (s : Stream P) (containerID label : string) (idx : nat) (st : Step) : stepOutcome * option string * Stream P :=
  let commandID := buildCommandID label containerID (StepName st) (Z.of_nat idx) in
  match sendStepCommand s commandID st with
  | (Err e, s) => (stepFailedTransport e, Some e, s)
  | (Ok _, s) =>
      let '(o, err, inb, got) := awaitStepResult commandID (StepName st) (inbox s) "" 0 in
      (o, err, mkStream (peer s) inb (log s ++ (Rx <$> got)) (cancelled s))
  end.

Definition handleRunPanic (t : ExecTarget) (r : string) (current : option (nat * string)) : list AgentStore.AgentEvent * string :=
  let detail := "Executor.Run panicked: " +:+ r in
  (match current with
   | Some (i, name) => [exec_event t AgentStore.ActionExecStepFailed ReasonUnknown detail name (Z.of_nat i) 0 (-1)]
   | None => []
   end ++ [exec_event t AgentStore.ActionExecFailed ReasonUnknown detail (match current with Some (_, n) => n | None => "" end) 0 0 0],
   detail).

Definition reportStepFailure (env : exec_env) (t : ExecTarget) (label : string) (i : nat) (st : Step) (out : stepOutcome) (err : option string)
    : list AgentStore.AgentEvent * string * bool :=
  let evs := [exec_event t AgentStore.ActionExecStepFailed (Reason out) (Detail out) (StepName st) (Z.of_nat i) 0 (ExitCode out);
              exec_event t AgentStore.ActionExecFailed (Reason out) (Detail out) (StepName st) 0 0 0] in
  match err with
  | Some e => (evs, e, false)
  | None =>
      let '(killed, killErr) := KillAfterGrace env in
      let text := "agent." +:+ label +:+ ": step " +:+ quoted (StepName st) +:+ " failed: " +:+ Detail out in
      (evs, match killErr with Some k => text +:+ "; additionally, failed to kill container: " +:+ k | None => text end, killed)
  end.

(** What a run leaves: the events it published, its error, whether it killed the
    container, and the stream. *)
Record run_result := mkRun { r_events : list AgentStore.AgentEvent; r_err : option string; r_killed : bool; r_stream : Stream P }.

Definition published (evs : list AgentStore.AgentEvent) (r : run_result) : run_result :=
  mkRun (evs ++ r_events r) (r_err r) (r_killed r) (r_stream r).

(** The steps from index [i] on. *)
Fixpoint run_steps (env : exec_env) (t : ExecTarget) (label : string) (count : Z) (i : nat) (plan : list Step) (s : Stream P) : run_result :=
  match plan with
  | [] => mkRun [exec_event t AgentStore.ActionExecCompleted "" "" "" 0 0 0] None false s
  | st :: plan =>
      published [exec_event t AgentStore.ActionExecStepStarted "" "" (StepName st) (Z.of_nat i) count 0]
        (match panic_in env i with
         | Some p => let '(evs, err) := handleRunPanic t p (Some (i, StepName st)) in mkRun evs (Some err) false s
         | None =>
             let '(out, err, s) := runStep s (t_container t) label i st in
             if Failed out
             then let '(evs, e, killed) := reportStepFailure env t label i st out err in mkRun evs (Some e) killed s
             else
               published [exec_event t AgentStore.ActionExecStepCompleted "" "" (StepName st) (Z.of_nat i) 0 (ExitCode out)]
                 (match panic_after env i with
                  | Some p => let '(evs, err) := handleRunPanic t p None in mkRun evs (Some err) false s
                  | None => run_steps env t label count (S i) plan s
                  end)
         end)
  end.

Definition Run (env : exec_env) (s : Stream P) (t : ExecTarget) (plan : list Step) (label : string) : run_result :=
  published [exec_event t AgentStore.ActionExecStarted "" "" "" 0 (Z.of_nat (length plan)) 0]
    (run_steps env t label (Z.of_nat (length plan)) 0 plan s).

(** ** What a step sends and waits for *)

(** The commands of step [i] of a plan. *)
Definition step_id (t : ExecTarget) (label : string) (i : nat) (st : Step) : string :=
  buildCommandID label (t_container t) (StepName st) (Z.of_nat i).
Definition step_commands (t : ExecTarget) (label : string) (i : nat) (st : Step) : list Command :=
  let id := step_id t label i st in
  (StepCommand st id).1 :: (if (StepCommand st id).2 then [mkCommand id CloseStdin] else []).

Lemma sendStepCommand_log s t label i st r s' :
  sendStepCommand s (step_id t label i st) st = (r, s') ->
  exists part, part `prefix_of` step_commands t label i st /\ log s' = log s ++ (Tx <$> part) /\
  match r with Ok _ => part = step_commands t label i st | Err e => e <> "" end.
Proof.
  unfold sendStepCommand, step_commands. destruct (StepCommand st (step_id t label i st)) as [cmd follow]. cbn [fst snd].
  destruct (Send react s cmd) as [s1|e] eqn:E1.
  2:{ intros [= <- <-]. exists []. rewrite app_nil_r. split_and!; [apply prefix_nil|done|done]. }
  apply Send_log in E1. destruct follow; [|by intros [= <- <-]; exists [cmd]].
  destruct (Send react s1 _) as [s2|e] eqn:E2; intros [= <- <-].
  - apply Send_log in E2. eexists. split_and!; [reflexivity| |done]. by rewrite E2, E1, <- app_assoc.
  - exists [cmd]. split_and!; [by eexists [_]|done|done].
Qed.

(** The frame that acknowledges a command, and those that end it. *)
Definition ack (id : string) : Response := mkResponse id (Done 0).
Definition terminal (id : string) (r : Response) : Prop :=
  ResponseId r = id /\ match ResponsePayload r with Done _ | Error _ _ => True | _ => False end.

(** A step succeeds on the peer's [Done] with code 0 for its own command, the
    first frame that ends it, and fails with a reason. *)
Lemma awaitStepResult_spec id name inb buf tr o err inb' frames :
  awaitStepResult id name inb buf tr = (o, err, inb', frames) ->
  (if Failed o then Detail o <> "" /\ ack id ∉ frames
   else err = None /\ exists before, frames = before ++ [ack id] /\ Forall (fun r => ~ terminal id r) before) /\
  err <> Some "".
Proof.
  revert buf tr o err inb' frames. induction inb as [|x inb IH]; intros buf tr o err inb' frames; cbn [awaitStepResult].
  { intros [= <- <- <- <-]. split; [|done]. split; [done|apply not_elem_of_nil]. }
  destruct x as [r| |e|]; try (intros [= <- <- <- <-]; split; [split; [done|apply not_elem_of_nil]|done]).
  assert (forall b n, ~ terminal id r -> (let '(o, err, inb, frames) := awaitStepResult id name inb b n in (o, err, inb, r :: frames)) = (o, err, inb', frames) ->
    (if Failed o then Detail o <> "" /\ ack id ∉ frames
     else err = None /\ exists before, frames = before ++ [ack id] /\ Forall (fun r => ~ terminal id r) before) /\ err <> Some "") as Hgo.
  { intros b n Ht. destruct (awaitStepResult id name inb b n) as [[[o1 e1] i1] f1] eqn:E. intros [= <- <- <- <-].
    apply IH in E as [E He]. split; [|done]. destruct (Failed o1).
    - destruct E as [Hd Hn]. split; [done|]. apply not_elem_of_cons. split; [|done]. intros <-. by apply Ht.
    - destruct E as (He1 & before & -> & HF). split; [done|]. exists (r :: before). split; [done|]. by constructor. }
  destruct (String.eqb_spec (ResponseId r) id) as [Hid|Hid]; cbn [negb]; [|apply Hgo; by intros [? _]].
  destruct r as [rid pl]. cbn [ResponseId ResponsePayload] in *. subst rid.
  destruct pl; cbn [classifyStepResponse];
    try match goal with |- context [captureCapped ?b ?n ?d] => destruct (captureCapped b n d) end; try (apply Hgo; by intros [_ ?]).
  - destruct (Z.eqb_spec final_exit_code 0) as [->|Hne]; intros [= <- <- <- <-]; (split; [|done]).
    + split; [done|]. by exists [].
    + split; [cbn; by destruct (String.eqb _ _)|]. rewrite list_elem_of_singleton. unfold ack. congruence.
  - intros [= <- <- <- <-]. split; [|done]. destruct code0; (split; [done|]; rewrite list_elem_of_singleton; unfold ack; congruence).
Qed.

(** ** A plan runs in order and halts at the first failure *)

(** The traffic of steps that were all acknowledged: the commands of a step go
    out only after the frame that acknowledges the step before it. *)
Inductive acknowledged (t : ExecTarget) (label : string) : nat -> list Step -> list traffic -> Prop :=
  | acknowledged_nil i : acknowledged t label i [] []
  | acknowledged_cons i st plan before tr :
      Forall (fun r => ~ terminal (step_id t label i st) r) before ->
      acknowledged t label (S i) plan tr ->
      acknowledged t label i (st :: plan)
        ((Tx <$> step_commands t label i st) ++ (Rx <$> before ++ [ack (step_id t label i st)]) ++ tr).

(** The traffic of the step a plan stopped at. *)
Definition stopped (t : ExecTarget) (label : string) (i : nat) (st : Step) (tr : list traffic) : Prop :=
  exists part frames, tr = (Tx <$> part) ++ (Rx <$> frames) /\ part `prefix_of` step_commands t label i st /\
    (frames = [] \/ part = step_commands t label i st) /\ ack (step_id t label i st) ∉ frames.

Lemma stopped_nil t label i st : stopped t label i st [].
Proof. exists [], []. split_and!; [done|apply prefix_nil|by left|apply not_elem_of_nil]. Qed.

Lemma runStep_spec s t label i st o err s' :
  runStep s (t_container t) label i st = (o, err, s') ->
  (exists tr, log s' = log s ++ tr /\
    if Failed o then Detail o <> "" /\ stopped t label i st tr
    else exists before, tr = (Tx <$> step_commands t label i st) ++ (Rx <$> before ++ [ack (step_id t label i st)]) /\
           Forall (fun r => ~ terminal (step_id t label i st) r) before) /\
  err <> Some "".
Proof.
  unfold runStep. fold (step_id t label i st). destruct (sendStepCommand s (step_id t label i st) st) as [[[]|e] s1] eqn:E1;
    apply sendStepCommand_log in E1 as (part & Hp & Hl & Hr).
  - subst part. destruct (awaitStepResult _ _ _ _ _) as [[[o' err'] inb] frames] eqn:E2. intros [= <- <- <-]. cbn [log].
    apply awaitStepResult_spec in E2 as [E2 He]. split; [|done]. eexists. split; [by rewrite Hl, <- app_assoc|]. destruct (Failed o').
    + destruct E2 as [Hd Hn]. split; [done|]. eexists _, frames. split_and!; [done|done|by right|done].
    + destruct E2 as (_ & before & -> & HF). by exists before.
  - intros [= <- <- <-]. split; [|congruence]. eexists. split; [done|]. cbn. split; [done|].
    exists part, []. rewrite app_nil_r. split_and!; [done|done|by left|apply not_elem_of_nil].
Qed.

(** How a run left the plan [plan] from index [i] on. *)
Definition halts (t : ExecTarget) (label : string) (i : nat) (plan : list Step) (s : Stream P) (r : run_result) : Prop :=
  exists ok todo tr tail, plan = ok ++ todo /\ log (r_stream r) = log s ++ tr ++ tail /\ acknowledged t label i ok tr /\
    match todo with [] => tail = [] | st :: _ => stopped t label (i + length ok) st tail end /\
    (r_err r = None -> todo = []) /\ (r_killed r = true -> todo <> []).

Lemma run_steps_halts env t label count i plan s : halts t label i plan s (run_steps env t label count i plan s).
Proof.
  revert i s. induction plan as [|st plan IH]; intros i s; cbn [run_steps].
  { exists [], [], [], []. rewrite !app_nil_r. split_and!; try done. constructor. }
  destruct (panic_in env i) as [p|].
  { exists [], (st :: plan), [], []. rewrite !app_nil_r. split_and!; try done; [constructor|apply stopped_nil]. }
  destruct (runStep s (t_container t) label i st) as [[o err] s1] eqn:E. apply runStep_spec in E as ((tr & Hl & Ho) & _).
  destruct (Failed o).
  { destruct (reportStepFailure env t label i st o err) as [[evs e] killed]. destruct Ho as [_ Ho]. exists [], (st :: plan), [], tr.
    split_and!; try done; [constructor|]. by rewrite Nat.add_0_r. }
  destruct Ho as (before & -> & HF). destruct (panic_after env i) as [p|].
  { exists [st], plan. eexists _, []. rewrite app_nil_r. split_and!; [done| | |destruct plan; [done|apply stopped_nil]|done|done].
    - cbn. rewrite Hl. reflexivity.
    - rewrite <- (app_nil_r (Rx <$> _)). by repeat constructor. }
  destruct (IH (S i) s1) as (ok & todo & tr & tail & -> & H2 & H3 & H4 & H5 & H6). exists (st :: ok), todo. eexists _, tail.
  split_and!; [done| |by constructor; [exact HF|exact H3]| |done|done].
  - cbn [published r_stream]. by rewrite H2, Hl, <- !app_assoc.
  - cbn [length]. by rewrite Nat.add_succ_r.
Qed.

(** ** What a run reports *)

Definition exec_of (m : gmap string AgentStore.AgentEventState) (t : ExecTarget) : AgentStore.ExecutorEventState :=
  AgentStore.s_exec (default AgentStore.zero_state (m !! t_container t)).

(** An exec event changes the exec part of its own container's state only. *)
Lemma project_exec m t a reason detail name idx count exit ts :
  t_container t <> "" ->
  let ev := exec_event t a reason detail name idx count exit in
  let m' := AgentStore.project m ev ts in
  (exec_of m' t =
    match a with
    | AgentStore.ActionExecStarted => AgentStore.ExecRunning count ts
    | AgentStore.ActionExecStepStarted | AgentStore.ActionExecStepCompleted => AgentStore.WithStep (exec_of m t) name idx
    | AgentStore.ActionExecStepFailed => AgentStore.WithStepError (AgentStore.WithStep (exec_of m t) name idx) detail
    | AgentStore.ActionExecCompleted => AgentStore.Complete (exec_of m t) ts
    | AgentStore.ActionExecFailed => AgentStore.Fail_ (exec_of m t) ts detail
    | _ => exec_of m t
    end) /\
  is_Some (m' !! t_container t) /\ forall cid, cid <> t_container t -> m' !! cid = m !! cid.
Proof.
  intros Hc. cbn zeta. unfold exec_of, AgentStore.project, exec_event, target_agent. cbn [AgentStore.ev_agent AgentStore.a_container].
  destruct (String.eqb_spec (t_container t) ""); [done|]. rewrite lookup_insert_eq. split_and!; [by destruct a|done|].
  intros cid Hne. by rewrite lookup_insert_ne.
Qed.

(** While a plan runs. *)
Definition running (m : gmap string AgentStore.AgentEventState) (t : ExecTarget) (count : Z) : Prop :=
  AgentStore.x_status (exec_of m t) = AgentStore.StatusRunning /\ AgentStore.stepCount (exec_of m t) = count.

(** How it ended. *)
Definition ended (m : gmap string AgentStore.AgentEventState) (t : ExecTarget) (count : Z) (err : option string) : Prop :=
  AgentStore.stepCount (exec_of m t) = count /\
  match err with
  | None => AgentStore.x_status (exec_of m t) = AgentStore.StatusCompleted /\ AgentStore.x_lastError (exec_of m t) = ""
  | Some _ => AgentStore.x_status (exec_of m t) = AgentStore.StatusFailed /\ AgentStore.x_lastError (exec_of m t) <> ""
  end.

Lemma running_step m t count a reason detail name idx c exit ts :
  t_container t <> "" -> running m t count ->
  (a = AgentStore.ActionExecStepStarted \/ a = AgentStore.ActionExecStepCompleted \/ a = AgentStore.ActionExecStepFailed) ->
  running (AgentStore.project m (exec_event t a reason detail name idx c exit) ts) t count.
Proof.
  intros Hc [H1 H2] Ha. destruct (project_exec m t a reason detail name idx c exit ts Hc) as [E _]. unfold running. rewrite E.
  by destruct Ha as [->|[->| ->]].
Qed.

Lemma running_fail m t count reason detail name ts e :
  t_container t <> "" -> running m t count -> detail <> "" ->
  ended (AgentStore.project m (exec_event t AgentStore.ActionExecFailed reason detail name 0 0 0) ts) t count (Some e).
Proof.
  intros Hc [H1 H2] Hd. destruct (project_exec m t AgentStore.ActionExecFailed reason detail name 0 0 0 ts Hc) as [E _]. unfold ended. rewrite E.
  by split_and!.
Qed.

Lemma run_steps_ended env t label count i plan s m m' :
  t_container t <> "" -> running m t count -> AgentStore.observed m (r_events (run_steps env t label count i plan s)) m' ->
  ended m' t count (r_err (run_steps env t label count i plan s)).
Proof.
  intros Hc. revert i s m. induction plan as [|st plan IH]; intros i s m Hm; cbn [run_steps].
  { cbn [r_events r_err]. intros H. inversion H as [|? ? ts ? ? H1]; subst. inversion H1; subst.
    destruct (project_exec m t AgentStore.ActionExecCompleted "" "" "" 0 0 0 ts Hc) as [E _]. unfold ended. rewrite E. destruct Hm. by split_and!. }
  cbn [published r_events r_err app]. intros H. inversion H as [|? ? ts ? ? H1]; subst. clear H.
  assert (running (AgentStore.project m (exec_event t AgentStore.ActionExecStepStarted "" "" (StepName st) (Z.of_nat i) count 0) ts) t count) as Hm1
    by (apply running_step; auto). revert H1. generalize dependent (AgentStore.project m (exec_event t AgentStore.ActionExecStepStarted "" "" (StepName st) (Z.of_nat i) count 0) ts). intros m1 Hm1.
  destruct (panic_in env i) as [p|].
  { cbn [handleRunPanic r_events r_err app]. intros H. inversion H as [|? ? ts2 ? ? H1]; subst. inversion H1 as [|? ? ts3 ? ? H2]; subst. inversion H2; subst.
    apply running_fail; [done| |done]. apply running_step; auto. }
  destruct (runStep s (t_container t) label i st) as [[o err] s1] eqn:E. apply runStep_spec in E as ((tr & _ & Hd) & He).
  destruct (Failed o) eqn:Ef.
  { unfold reportStepFailure. destruct err as [e|]; [|destruct (KillAfterGrace env) as [killed killErr]]; cbn [r_events r_err]; intros H;
      inversion H as [|? ? ts2 ? ? H1]; subst; inversion H1 as [|? ? ts3 ? ? H2]; subst; inversion H2; subst;
      (apply running_fail; [done|apply running_step; auto|apply Hd]). }
  cbn [published r_events r_err app]. intros H. inversion H as [|? ? ts2 ? ? H1]; subst.
  assert (running (AgentStore.project m1 (exec_event t AgentStore.ActionExecStepCompleted "" "" (StepName st) (Z.of_nat i) 0 (ExitCode o)) ts2) t count) as Hm2
    by (apply running_step; auto).
  destruct (panic_after env i) as [p|]; [|by eapply IH].
  cbn [handleRunPanic r_events r_err app] in *. inversion H1 as [|? ? ts3 ? ? H2]; subst. inversion H2; subst. by apply running_fail.
Qed.

(** C29: A plan runs in order and halts at the first step that fails: the
    commands of a step are sent only after the daemon acknowledged every step
    before it with exit code 0, nothing is sent for the steps after the first
    that failed, a run without an error acknowledged the whole plan, and the
    container is killed only when a step is left. *)
Theorem plan_halts env s t plan label : halts t label 0 plan s (Run env s t plan label).
Proof.
  destruct (run_steps_halts env t label (Z.of_nat (length plan)) 0 plan s) as (ok & todo & tr & tail & H). by exists ok, todo, tr, tail.
Qed.

(** The worldview reports a run as it went: after the events of a run, with
    any timestamps, the container's exec state counts the steps of the plan and is
    completed without an error when the run returned none, and failed with an
    error when it returned one, also when the run panicked. *)
Theorem Run_reported env s t plan label m m' :
  t_container t <> "" -> AgentStore.observed m (r_events (Run env s t plan label)) m' ->
  ended m' t (Z.of_nat (length plan)) (r_err (Run env s t plan label)).
Proof.
  intros Hc H. cbn [Run published r_events r_err app] in *. inversion H as [|? ? ts ? ? H1]; subst.
  eapply run_steps_ended; [done| |done]. destruct (project_exec m t AgentStore.ActionExecStarted "" "" "" 0 (Z.of_nat (length plan)) 0 ts Hc) as [E _].
  unfold running. rewrite E. split; [done|]. cbn. destruct (Z.ltb_spec (Z.of_nat (length plan)) 0); lia.
Qed.

End Run.

(** A daemon that acknowledges what it is sent, except a step it is told to
    fail. *)
Definition obliging (fails : string) (_ : unit) (c : Command) : result string (unit * list recv) :=
  match CommandPayload c with
  | CloseStdin => Ok (tt, [])
  | _ => Ok (tt, [Frame (mkResponse (CommandId c) Started);
                  Frame (mkResponse (CommandId c) (if String.eqb (CommandId c) fails then Done 3 else Done 0))])
  end.
Definition demo_scripts : scripts := mkScripts "a" "b" "c" "d" "e" "f" "g" "hosts" 1000 1000 "/home/u" "u".
Definition demo_target : ExecTarget := mkTarget "0123456789abcdef" "dev" "web".
Definition demo_env : exec_env := mkExecEnv false None (fun _ => None) (fun _ => None).
Definition demo_run (fails : string) : run_result :=
  Run (obliging fails) demo_env (mkStream tt [] [] false) demo_target (BootPlan demo_scripts "claude") "boot".

(** The events with a clock that stands still. *)
Definition observe (m : gmap string AgentStore.AgentEventState) (evs : list AgentStore.AgentEvent) : gmap string AgentStore.AgentEventState :=
  foldl (fun m ev => AgentStore.project m ev 0) m evs.
Lemma observe_observed m evs : AgentStore.observed m evs (observe m evs).
Proof. revert m. induction evs as [|ev evs IH]; intros m; [constructor|]. apply (AgentStore.observed_cons _ _ 0), IH. Qed.

(** A failed pre-run keeps the daemon from being told that the agent is ready. *)
Example demo_prerun_fails :
  let r := demo_run "boot-0123456789ab-pre-run-1" in
  (length (r_events r), r_killed r, r_err r, length (omap (fun x => match x with Tx c => Some c | _ => None end) (log (r_stream r)))) =
  (6%nat, true, Some ("agent.boot: step " +:+ quoted "pre-run" +:+ " failed: exit_code=3"), 4%nat).
Proof. vm_compute. reflexivity. Qed.

Lemma Run_reported_witness :
  let r := demo_run "" in
  AgentStore.observed ∅ (r_events r) (observe ∅ (r_events r)) /\ ended (observe ∅ (r_events r)) demo_target 3 (r_err r).
Proof.
  split; [apply observe_observed|].
  apply (Run_reported (obliging "") demo_env (mkStream tt [] [] false) demo_target (BootPlan demo_scripts "claude") "boot" ∅); [done|apply observe_observed].
Defined.

End Executor.
