(* ===== verification/Dialer.v ===== *)
(** * The control plane's sessions with the daemons

    controlplane/agent/dialer.go: one goroutine per agent container dials the
    daemon in it, shakes hands, classifies its certificate, drives its
    registration, runs the init and boot plans, holds the session open and dials
    again when it breaks.  What Docker, TLS, the clock and the daemon answer is
    the input of a run; [P] is everything at the other end, the registry
    included, which commands change through [react] and which drifts between
    attempts. *)

From S2P Require Import Prelude GoStrings GoNet AgentIdentity AgentRegistry DockerFeeder SessionProto AgentStore Executor.
Import Go SessionProto.

Module Dialer.

(** ** Constants and backoff, in nanoseconds *)

Definition connectInitialBackoff : Z := 500 * 10 ^ 6.
Definition connectMaxBackoff : Z := 10 * 10 ^ 9.
Definition connectTotalTimeout : Z := 60 * 10 ^ 9.
Definition CloseErrCeiling : Z := 5.

(** [rand.Int64N] of a draw. *)
Definition backoffSleep (draw backoff : Z) : Z := if backoff <=? 0 then 0 else draw mod backoff.
Definition nextBackoff (backoff : Z) : Z :=
  let backoff := 2 * backoff in if connectMaxBackoff <? backoff then connectMaxBackoff else backoff.

(** ** What Docker answers *)

(** The running flag and the status of the state, the labels of the
    configuration, and the address of each network's endpoint ([None]: not
    valid). *)
Record Container := mkContainer {
  State : option (bool * string); Labels : option (gmap string string); Networks : option (gmap string (option GoNet.Addr));
}.
Inductive inspect_error := ErrNotFound | ErrContainerStopped | ErrInspect.

Definition resolveAgent (inspect : result inspect_error Container) : result inspect_error Container :=
  match inspect with
  | Err e => Err e
  | Ok c => match State c with Some (true, _) => Ok c | _ => Err ErrContainerStopped end
  end.

Definition agentLabels (c : Container) : string * string :=
  match Labels c with
  | None => ("", "")
  | Some l => (default "" (l !! AgentIdentity.LabelAgent), default "" (l !! AgentIdentity.LabelProject))
  end.

Definition JoinHostPort (host port : string) : string :=
  if Go.Contains host ":" then "[" +:+ host +:+ "]:" +:+ port else host +:+ ":" +:+ port.

Definition Network : string := "clawker-net".
Definition DefaultClawkerdPort : Z := 7700.

(** An address with a zone does not parse back. *)
Definition clawkerNetAddr (c : Container) : option string :=
  match Networks c with
  | None => None
  | Some nets =>
      match nets !! Network with
      | Some (Some a) =>
          if negb (String.eqb (GoNet.Zone a) "") then None
          else
            let ip := match GoNet.To4 a with Some b => GoNet.Addr4 b | None => a end in
            Some (JoinHostPort (GoNet.IP_String ip) (Itoa DefaultClawkerdPort))
      | _ => None
      end
  end.

(** The image of the container and the command of the image; an inspection that
    fails is [None]. *)
Definition imageDefaultCmd (container : option string) (image : string -> option (option (list string))) : string :=
  match container with
  | None => ""
  | Some img => match image img with Some (Some (c :: _)) => c | _ => "" end
  end.

(** ** The peer's certificate *)

Record PeerInfo := mkPeerInfo { PeerAgentFullName : string; PeerThumbprint : string; ChainVerified : bool; CaptureReason : string }.
Definition no_peer : PeerInfo := mkPeerInfo "" AgentRegistry.zero_thumbprint false "".

Section Peer.
Variable ParseCertificate : string -> result string AgentIdentity.Cert.
(** Verification of a leaf with intermediates against the pool. *)
Variable Verify : AgentIdentity.Cert -> list AgentIdentity.Cert -> result string unit.
Variable Sum256 : string -> string.

Definition with_reason (p : PeerInfo) (r : string) : PeerInfo :=
  mkPeerInfo (PeerAgentFullName p) (PeerThumbprint p) (ChainVerified p) (if String.eqb (CaptureReason p) "" then r else CaptureReason p).

Fixpoint parse_all (raws : list string) : result string (list AgentIdentity.Cert) :=
  match raws with
  | [] => Ok []
  | raw :: raws =>
      match ParseCertificate raw with
      | Err e => Err e
      | Ok c => match parse_all raws with Err e => Err e | Ok cs => Ok (c :: cs) end
      end
  end.

Definition CapturePeer (rawCerts : list string) (peer : PeerInfo) : PeerInfo :=
  match rawCerts with
  | [] => with_reason peer "peer presented no certs"
  | raw :: _ =>
      match parse_all rawCerts with
      | Err e => with_reason peer ("leaf parse failed: " +:+ e)
      | Ok [] => peer
      | Ok (leaf :: inter) =>
          let full := match AgentIdentity.AgentFullNameFromCert (Some leaf) with AgentIdentity.sanFound tail => tail | _ => "" end in
          let peer := mkPeerInfo full (Sum256 raw) (ChainVerified peer) (CaptureReason peer) in
          match Verify leaf inter with
          | Ok _ => mkPeerInfo (PeerAgentFullName peer) (PeerThumbprint peer) true (CaptureReason peer)
          | Err e => with_reason peer ("chain verify: " +:+ e)
          end
      end
  end.
End Peer.

(** ** Events and cancellation *)

Definition ReasonThumbprintMismatch : string := "cert_thumbprint_mismatch".
Definition ReasonCertInvalid : string := "cert_invalid".
Definition ReasonRegisterFailed : string := "register_failed".
Definition ReasonInitBypassed : string := "init_bypassed".
Definition ReasonFailed : string := "failed".

Definition session_event (g : AgentStore.Agent) (a : AgentStore.Action) (addr : string) (attempts : Z) (peer : PeerInfo) (reason detail : string)
    : AgentStore.AgentEvent :=
  AgentStore.mkAgentEvent g
    (AgentStore.mkMessage AgentStore.DialerEventType a reason detail addr attempts (PeerAgentFullName peer) (PeerThumbprint peer) false "" 0 0 0).
Definition registry_event (g : AgentStore.Agent) (a : AgentStore.Action) (reason detail : string) (ok : bool) : AgentStore.AgentEvent :=
  AgentStore.mkAgentEvent g (AgentStore.mkMessage AgentStore.RegistryEventType a reason detail "" 0 "" AgentRegistry.zero_thumbprint ok "" 0 0 0).

(** The context of a dial as the number of its checks that still find it alive
    ([None]: it is never cancelled), and the events published so far. *)
Record dial := mkDial { d_ctx : option nat; d_events : list AgentStore.AgentEvent }.

Definition ctx_Err (d : dial) : bool * dial :=
  match d_ctx d with
  | None => (false, d)
  | Some O => (true, d)
  | Some (S n) => (false, mkDial (Some n) (d_events d))
  end.
Definition Publish (d : dial) (ev : AgentStore.AgentEvent) : dial := mkDial (d_ctx d) (d_events d ++ [ev]).
Definition publish_live (d : dial) (ev : AgentStore.AgentEvent) : dial := let '(done, d) := ctx_Err d in if done then d else Publish d ev.

Section Publishers.
Variable containerID : string.
Definition publishConnecting (d : dial) (agent project addr : string) : dial :=
  publish_live d (session_event (AgentStore.mkAgent containerID agent project) AgentStore.ActionConnecting addr 0 no_peer "" "").
Definition PublishConnected (d : dial) (agent project addr : string) (attempt : Z) (peer : PeerInfo) : dial :=
  publish_live d (session_event (AgentStore.mkAgent containerID agent project) AgentStore.ActionConnected addr attempt peer "" "").
Definition publishFailed (d : dial) (agent project addr reason : string) (attempts : Z) : dial :=
  publish_live d (session_event (AgentStore.mkAgent containerID agent project) AgentStore.ActionFailed addr attempts no_peer ReasonFailed reason).
Definition publishBroken (d : dial) (agent project addr reason : string) : dial :=
  publish_live d (session_event (AgentStore.mkAgent containerID agent project) AgentStore.ActionBroken addr 0 no_peer "" reason).
End Publishers.

(** The event of a goroutine that panicked, whatever its context. *)
Definition dial_panic (containerID : string) (entry : AgentRegistry.lookup) (panic : string) (d : dial) : dial :=
  let '(agent, project) := match entry with AgentRegistry.Found e => (AgentRegistry.e_agent e, AgentRegistry.e_project e) | _ => ("", "") end in
  Publish d (session_event (AgentStore.mkAgent containerID agent project) AgentStore.ActionFailed "" 0 no_peer ReasonFailed ("dial_goroutine_panic: " +:+ panic)).

(** ** Establishing a session *)

Inductive EstablishOutcome := OutcomeSuccess | outcomeContainerGone | outcomeAddrInvalid | outcomeRetryExhausted | outcomeCtxDone.
Inductive RegistryOutcome := OutcomeRegistryNotQueried | OutcomeRegistryMatch | OutcomeRegistryMiss | OutcomeRegistryThumbprintMismatch.
Inductive drainOutcome := DrainGracefulEOF | DrainCtxCanceled | DrainStreamErr.
#[global] Instance drainOutcome_eq_dec : EqDecision drainOutcome.
Proof. solve_decision. Defined.
Record DrainResult := mkDrain { drain_outcome : drainOutcome; drain_reason : string }.

Section Dial.
Context {P : Type}.
Variable react : P -> Command -> result string (P * list recv).
(** [d.Agents.LookupByContainerID], and the text of a query that failed. *)
Variable Lookup : P -> string -> AgentRegistry.lookup.
Variable query_error : string.
Variable ParseCertificate : string -> result string AgentIdentity.Cert.
Variable Verify : AgentIdentity.Cert -> list AgentIdentity.Cert -> result string unit.
Variable Sum256 : string -> string.
Variable texts : Executor.scripts.
Variable containerID : string.

Record EstablishResult := mkEstablish {
  HelloAck_ : option HelloAck; Agent_ : string; Project_ : string; Addr_ : string; Attempt_ : Z; Outcome : EstablishOutcome; PeerInfo_ : PeerInfo;
}.
Definition no_session (agent project addr : string) (attempt : Z) (o : EstablishOutcome) : EstablishResult :=
  mkEstablish None agent project addr attempt o no_peer.
Definition dialAgent (res : EstablishResult) : AgentStore.Agent := AgentStore.mkAgent containerID (Agent_ res) (Project_ res).

(** The stream a dial opens: the certificates presented in its handshake and
    the frames that come without being asked for. *)
Inductive opened := DialErr (e : string) | SessionErr (e : string) | Opened (rawCerts : list string) (unasked : list recv).

(** The answers one attempt meets: how the other end moved since the last one,
    the inspection, the stream, the clock when an error is handled, and the
    jitter. *)
Record attempt := mkAttempt { at_drift : P -> P; at_inspect : result inspect_error Container; at_open : opened; at_now : Z; at_draw : Z }.

Definition helloHandshake (s : Stream P) : result string HelloAck * Stream P :=
  match Send react s (mkCommand "hello" Hello) with
  | Err e => (Err ("send Hello: " +:+ e), s)
  | Ok s =>
      match inbox s with
      | Frame r :: rest =>
          let s := mkStream (peer s) rest (log s ++ [Rx r]) (cancelled s) in
          match ResponsePayload r with
          | RHelloAck ack => (Ok ack, s)
          | _ => (Err "expected HelloAck", s)
          end
      | RecvErr e :: _ => (Err ("recv HelloAck: " +:+ e), s)
      | CtxDone :: _ => (Err ("recv HelloAck: " +:+ Executor.ctxErr), s)
      | EOF :: _ | [] => (Err "recv HelloAck: EOF", s)
      end
  end.

(** On an error the stream is cancelled and the connection closed. *)
Definition tryEstablish (p : P) (o : opened) : result string (HelloAck * PeerInfo * Stream P) * P :=
  match o with
  | DialErr e => (Err e, p)
  | SessionErr e => (Err ("open Session stream: " +:+ e), p)
  | Opened rawCerts unasked =>
      let peer_info := CapturePeer ParseCertificate Verify Sum256 rawCerts no_peer in
      match helloHandshake (mkStream p unasked [] false) with
      | (Err e, s) => (Err ("hello handshake: " +:+ e), peer s)
      | (Ok ack, s) => (Ok (ack, peer_info, s), peer s)
      end
  end.

(** The pause of a retry: the context may end it. *)
Definition back_off (gone : EstablishResult) (backoff : Z) (d : dial) : (EstablishResult + Z) * dial :=
  let '(done, d) := ctx_Err d in
  (if done then inl gone else inr (nextBackoff backoff), d).

(** [inl] ends the cycle without a session, [inr] retries with a backoff. *)
Definition handleResolveError (e : inspect_error) (n deadline backoff now : Z) (d : dial) : (EstablishResult + Z) * dial :=
  match e with
  | ErrNotFound | ErrContainerStopped => (inl (no_session "" "" "" n outcomeContainerGone), d)
  | ErrInspect =>
      if deadline <? now then (inl (no_session "" "" "" n outcomeRetryExhausted), d)
      else back_off (no_session "" "" "" n outcomeCtxDone) backoff d
  end.
Definition handleDialError (agent project addr : string) (n deadline backoff now : Z) (d : dial) : (EstablishResult + Z) * dial :=
  if deadline <? now then (inl (no_session agent project addr n outcomeRetryExhausted), d)
  else back_off (no_session agent project addr n outcomeCtxDone) backoff d.

(** The result of one attempt, with the stream of a session, whether the cycle
    has published that it is connecting, and the rest of the state. *)
Definition attemptEstablish (n deadline backoff : Z) (published : bool) (a : attempt) (p : P) (d : dial)
    : (EstablishResult * option (Stream P) + Z) * bool * P * dial :=
  let lift (r : (EstablishResult + Z) * dial) := (match r.1 with inl e => inl (e, None) | inr b => inr b end, r.2) in
  match resolveAgent (at_inspect a) with
  | Err e => let '(r, d) := lift (handleResolveError e n deadline backoff (at_now a) d) in (r, published, p, d)
  | Ok c =>
      let '(agent, project) := agentLabels c in
      match clawkerNetAddr c with
      | None => (inl (no_session agent project "" n outcomeAddrInvalid, None), published, p, d)
      | Some addr =>
          let d := if published then d else publishConnecting containerID d agent project addr in
          match tryEstablish p (at_open a) with
          | (Ok (ack, info, s), p) => (inl (mkEstablish (Some ack) agent project addr n OutcomeSuccess info, Some s), true, p, d)
          | (Err _, p) => let '(r, d) := lift (handleDialError agent project addr n deadline backoff (at_now a) d) in (r, true, p, d)
          end
      end
  end.

(** [None]: the answers end before the cycle does. *)
Fixpoint establish_from (attempts : list attempt) (n deadline backoff : Z) (published : bool) (p : P) (d : dial)
    : option (EstablishResult * option (Stream P)) * P * dial :=
  match attempts with
  | [] => (None, p, d)
  | a :: attempts =>
      let '(done, d) := ctx_Err d in
      if done then (Some (no_session "" "" "" n outcomeCtxDone, None), p, d)
      else
        match attemptEstablish n deadline backoff published a (at_drift a p) d with
        | (inl r, _, p, d) => (Some r, p, d)
        | (inr backoff, published, p, d) => establish_from attempts (n + 1) deadline backoff published p d
        end
  end.
Definition establishWithRetry (start : Z) (attempts : list attempt) (p : P) (d : dial) :=
  establish_from attempts 1 (start + connectTotalTimeout) connectInitialBackoff false p d.

(** ** Classification and registration *)

Definition ClassifyRegistry (p : P) (peerThumbprint : string) : RegistryOutcome * string :=
  match Lookup p containerID with
  | AgentRegistry.UnknownAgent | AgentRegistry.MalformedEntry => (OutcomeRegistryMiss, "")
  | AgentRegistry.QueryFailed => (OutcomeRegistryNotQueried, "registry lookup error: " +:+ query_error)
  | AgentRegistry.Found e =>
      if String.eqb (AgentRegistry.e_thumbprint e) peerThumbprint then (OutcomeRegistryMatch, "") else (OutcomeRegistryThumbprintMismatch, "")
  end.

Definition publishRegisterFailure (res : EstablishResult) (reason : string) (d : dial) : dial :=
  let d := Publish d (registry_event (dialAgent res) AgentStore.ActionRegistered "" reason false) in
  Publish d (registry_event (dialAgent res) AgentStore.ActionUntrusted ReasonRegisterFailed reason false).

(** The answer to a command, what is left to receive and what was received. *)
Fixpoint recvRegisterDone (commandID : string) (inb : list recv) : result string (bool * string) * list recv * list Response :=
  match inb with
  | [] | EOF :: _ => (Err "EOF", inb, [])
  | RecvErr e :: _ => (Err e, inb, [])
  | CtxDone :: _ => (Err Executor.ctxErr, inb, [])
  | Frame r :: rest =>
      let next := let '(a, inb, got) := recvRegisterDone commandID rest in (a, inb, r :: got) in
      if String.eqb (ResponseId r) commandID then
        match ResponsePayload r with
        | RegisterDone ok e => (Ok (ok, e), rest, [r])
        | Error code msg => (Err ("clawkerd rejected RegisterRequired: " +:+ ErrorCode_String code +:+ ": " +:+ msg), rest, [r])
        | _ => next
        end
      else next
  end.

Definition handleRegisterResult (res : EstablishResult) (got : result string (bool * string)) (d : dial) : bool * dial :=
  match got with
  | Err e => (false, publishRegisterFailure res ("Recv RegisterDone: " +:+ e) d)
  | Ok (false, e) => (false, publishRegisterFailure res (if String.eqb e "" then "clawkerd reported failure" else e) d)
  | Ok (true, _) => (true, d)
  end.

(** [timeout] is the number of frames received when the wait times out before
    the answer is taken. *)
Definition awaitRegisterDone (commandID : string) (res : EstablishResult) (timeout : option nat) (s : Stream P) (d : dial) : bool * Stream P * dial :=
  let '(got, rest, frames) := recvRegisterDone commandID (inbox s) in
  match timeout with
  | Some n =>
      let s := mkStream (peer s) [RecvErr Executor.ctxErr] (log s ++ (Rx <$> take n frames)) true in
      let '(done, d) := ctx_Err d in
      (false, s, publishRegisterFailure res ("RegisterDone timeout: " +:+ (if done then Executor.ctxErr else "context deadline exceeded")) d)
  | None =>
      let s := mkStream (peer s) rest (log s ++ (Rx <$> frames)) (cancelled s) in
      let '(ok, d) := handleRegisterResult res got d in (ok, s, d)
  end.

Definition confirmRegisterRow (res : EstablishResult) (p : P) (d : dial) : dial :=
  match Lookup p containerID with
  | AgentRegistry.MalformedEntry | AgentRegistry.QueryFailed =>
      publishRegisterFailure res ("registry lookup error after RegisterDone: " +:+ query_error) d
  | AgentRegistry.UnknownAgent => publishRegisterFailure res "registry row missing after RegisterDone" d
  | AgentRegistry.Found _ => Publish d (registry_event (dialAgent res) AgentStore.ActionRegistered "" "" true)
  end.

Definition DriveRegister (res : EstablishResult) (timeout : option nat) (s : Stream P) (d : dial) : Stream P * dial :=
  let commandID := "register-" +:+ containerID in
  match Send react s (mkCommand commandID RegisterRequired) with
  | Err e => (s, publishRegisterFailure res ("send RegisterRequired: " +:+ e) d)
  | Ok s =>
      match awaitRegisterDone commandID res timeout s d with
      | (true, s, d) => (s, confirmRegisterRow res (peer s) d)
      | (false, s, d) => (s, d)
      end
  end.

Definition DispatchAgentEvents (res : EstablishResult) (timeout : option nat) (s : Stream P) (d : dial) : Stream P * dial :=
  match ClassifyRegistry (peer s) (PeerThumbprint (PeerInfo_ res)) with
  | (OutcomeRegistryMatch, _) => (s, d)
  | (OutcomeRegistryMiss, _) => DriveRegister res timeout s d
  | (OutcomeRegistryThumbprintMismatch, _) => (s, Publish d (registry_event (dialAgent res) AgentStore.ActionUntrusted ReasonThumbprintMismatch "" false))
  | (OutcomeRegistryNotQueried, detail) => (s, Publish d (registry_event (dialAgent res) AgentStore.ActionUntrusted ReasonCertInvalid detail false))
  end.

(** ** The life of a dial *)

Fixpoint drain_loop (s : Stream P) (d : dial) (inb : list recv) (got : list Response) : DrainResult * Stream P * dial :=
  let left := mkStream (peer s) [] (log s ++ (Rx <$> got)) (cancelled s) in
  match inb with
  | Frame r :: rest => drain_loop s d rest (got ++ [r])
  | EOF :: _ | [] => (mkDrain DrainGracefulEOF "eof", left, d)
  | RecvErr _ :: _ | CtxDone :: _ =>
      let '(done, d) := ctx_Err d in
      let e := match inb with RecvErr e :: _ => e | _ => Executor.ctxErr end in
      (if done then mkDrain DrainCtxCanceled "ctx_done" else mkDrain DrainStreamErr e, left, d)
  end.
(** [late] arrives while the session is held. *)
Definition drainStream (s : Stream P) (late : list recv) (d : dial) : DrainResult * Stream P * dial := drain_loop s d (inbox s ++ late) [].

Definition ShouldReconnect (drain : DrainResult) (d : dial) : bool * dial :=
  let '(done, d) := ctx_Err d in
  (negb done && negb (bool_decide (drain_outcome drain = DrainCtxCanceled)), d).

(** The count of close failures in a row, and whether it reached the ceiling. *)
Definition CloseAndCheckLeak (close_fails : bool) (count : Z) : bool * Z :=
  if close_fails then (CloseErrCeiling <=? count + 1, count + 1) else (false, 0).

(** The answers one cycle meets: those of its attempts; whether and when the
    registration times out; what happens around the two plans; the images; the
    frames that arrive while the session is held; whether the close fails. *)
Record cycle := mkCycle {
  c_start : Z; c_attempts : list attempt; c_timeout : option nat; c_init : Executor.exec_env; c_boot : Executor.exec_env;
  c_container : option string; c_image : string -> option (option (list string)); c_late : list recv; c_close_fails : bool;
}.

(** [wired] says whether an executor is set. *)
Definition runPlan (wired : bool) (env : Executor.exec_env) (res : EstablishResult) (s : Stream P) (plan : list Executor.Step) (name : string) (d : dial)
    : Stream P * dial :=
  if negb wired then (s, d)
  else
    let r := Executor.Run react env s (Executor.mkTarget containerID (Agent_ res) (Project_ res)) plan name in
    (Executor.r_stream r, mkDial (d_ctx d) (d_events d ++ Executor.r_events r)).

(** A plan that is run when it should be; [None] is an error, logged. *)
Definition run_if (should : option bool) (wired : bool) (env : Executor.exec_env) (res : EstablishResult) (plan : list Executor.Step) (name : string)
    (sd : Stream P * dial) : Stream P * dial :=
  match should with Some true => runPlan wired env res sd.1 plan name sd.2 | _ => sd end.

(** A session from the moment it is up to the moment it ends. *)
Definition hold_session (wired : bool) (c : cycle) (res : EstablishResult) (s : Stream P) (d : dial) : DrainResult * Stream P * dial :=
  let d := PublishConnected containerID d (Agent_ res) (Project_ res) (Addr_ res) (Attempt_ res) (PeerInfo_ res) in
  let sd := DispatchAgentEvents res (c_timeout c) s d in
  let sd := run_if (Executor.shouldAgentInit (HelloAck_ res)) wired (c_init c) res (Executor.InitPlan texts) "init" sd in
  let default_cmd := imageDefaultCmd (c_container c) (c_image c) in
  let '(s, d) := run_if (Executor.shouldAgentBoot (HelloAck_ res)) wired (c_boot c) res (Executor.BootPlan texts default_cmd) "boot" sd in
  let d :=
    if Executor.agentInitBypassed (HelloAck_ res)
    then Publish d (registry_event (dialAgent res) AgentStore.ActionUntrusted ReasonInitBypassed "cmd_running without initialized" false) else d in
  drainStream s (c_late c) d.

Definition failure_text (o : EstablishOutcome) : string :=
  match o with
  | outcomeContainerGone => "container_not_running"
  | outcomeAddrInvalid => "clawker_net_endpoint_missing"
  | outcomeRetryExhausted => "connect_total_timeout"
  | _ => "internal_unknown_outcome"
  end.

(** How a dial is left: whether its goroutine returned, its context and events,
    the traffic of its sessions and the other end. *)
Record dial_state := mkDialState { returned : bool; ds_dial : dial; ds_logs : list (list traffic); ds_peer : P }.

(** The whole loop, from a count of close failures on; the answers may end
    before it does. *)
Fixpoint runDial (wired : bool) (cycles : list cycle) (closeErrCount : Z) (p : P) (d : dial) (logs : list (list traffic)) : dial_state :=
  match cycles with
  | [] => mkDialState false d logs p
  | c :: cycles =>
      let '(done, d) := ctx_Err d in
      if done then mkDialState true d logs p
      else
        match establishWithRetry (c_start c) (c_attempts c) p d with
        | (None, p, d) => mkDialState false d logs p
        | (Some (res, Some s), p, d) =>
            let '(drain, s, d) := hold_session wired c res s d in
            let p := peer s in
            let logs := logs ++ [log s] in
            let '(leak, closeErrCount) := CloseAndCheckLeak (c_close_fails c) closeErrCount in
            if leak
            then mkDialState true (publishFailed containerID d (Agent_ res) (Project_ res) (Addr_ res)
                   ("fd-leak-ceiling: " +:+ Itoa closeErrCount +:+ " consecutive close failures") (Attempt_ res)) logs p
            else
              let '(again, d) := ShouldReconnect drain d in
              if negb again then mkDialState true d logs p
              else runDial wired cycles closeErrCount p (publishBroken containerID d (Agent_ res) (Project_ res) (Addr_ res) (drain_reason drain)) logs
        | (Some (res, None), p, d) =>
            match Outcome res with
            | outcomeCtxDone => mkDialState true d logs p
            | o => mkDialState true (publishFailed containerID d (Agent_ res) (Project_ res) (Addr_ res) (failure_text o) (Attempt_ res)) logs p
            end
        end
  end.

End Dial.

(** ** One goroutine per container *)

(** [Dialing] maps a container to the context of its dial; [goroutines] are the
    dial goroutines that have not cleaned up, by context. *)
Record Dialer := mkDialer { Dialing : gmap string nat; goroutines : gmap nat string; done_ctxs : gset nat; next_ctx : nat }.
Definition NewDialer : Dialer := mkDialer ∅ ∅ ∅ 0.

Definition DialAgent (d : Dialer) (cid : string) : Dialer :=
  let h := next_ctx d in
  match Dialing d !! cid with
  | Some _ => mkDialer (Dialing d) (goroutines d) ({[h]} ∪ done_ctxs d) (S h)
  | None => mkDialer (<[cid := h]> (Dialing d)) (<[h := cid]> (goroutines d)) (done_ctxs d) (S h)
  end.
Definition CancelDial (d : Dialer) (cid : string) : Dialer :=
  match Dialing d !! cid with
  | None => d
  | Some h => mkDialer (Dialing d) (goroutines d) ({[h]} ∪ done_ctxs d) (next_ctx d)
  end.
(** The clean-up of the goroutine with context [h], after its dial returned or
    panicked. *)
Definition dial_cleanup (d : Dialer) (h : nat) : Dialer :=
  match goroutines d !! h with
  | None => d
  | Some cid => mkDialer (delete cid (Dialing d)) (delete h (goroutines d)) ({[h]} ∪ done_ctxs d) (next_ctx d)
  end.

Definition initialDialMaxAttempts : nat := 3.
(** The answers of the list call, and whether the context ends during the pause
    after an error; [None]: no list. *)
Fixpoint list_running (attempts : nat) (answers : list (option (list string) * bool)) : option (list string) :=
  match attempts, answers with
  | S n, (Some ids, _) :: _ => Some ids
  | S n, (None, ctx_done) :: answers => match n with O => None | _ => if (ctx_done : bool) then None else list_running n answers end
  | _, _ => None
  end.
Definition DialAllRunning (answers : list (option (list string) * bool)) (d : Dialer) : Dialer :=
  match list_running initialDialMaxAttempts answers with None => d | Some ids => foldl DialAgent d ids end.

(** The two subscribers of the Docker events. *)
Definition SubscribeSessionCancel (d : Dialer) (ctx_done : bool) (ev : DockerFeeder.Message) : Dialer :=
  if ctx_done || negb (AgentStore.sessionCancelEvent ev) || String.eqb (DockerFeeder.actor ev) "" then d else CancelDial d (DockerFeeder.actor ev).
Definition subscribeDial (d : Dialer) (ctx_done : bool) (ev : DockerFeeder.Message) : Dialer :=
  if ctx_done || negb (AgentStore.DialEvent ev) then d else DialAgent d (DockerFeeder.actor ev).

End Dialer.
