(* ===== verification/DialerSpec.v ===== *)
(** * The sessions of a dial

    Theorems on controlplane/agent/dialer.go: the lifecycle a dial publishes and
    where the worldview shows it, the verdict on an agent's identity, the
    independence of the traffic from certificates, and the uniqueness of the dial
    goroutine of a container. *)

From S2P Require Import Prelude GoStrings GoNet AgentIdentity AgentRegistry DockerFeeder SessionProto AgentStore Executor Dialer.
Import Go SessionProto Dialer.

Module DialerSpec.

(** ** The lifecycle a dial publishes *)

Definition session_action (ev : AgentStore.AgentEvent) : option AgentStore.Action :=
  match AgentStore.m_type (AgentStore.ev_message ev) with
  | AgentStore.DialerEventType => Some (AgentStore.m_action (AgentStore.ev_message ev))
  | _ => None
  end.

(** The sessions of one dial: connecting, connected, broken, and again; a
    failure ends the dial. *)
Definition session_next (st : AgentStore.Status) (a : AgentStore.Action) : option AgentStore.Status :=
  match st, a with
  | (AgentStore.StatusNone | AgentStore.StatusBroken), AgentStore.ActionConnecting => Some AgentStore.StatusConnecting
  | AgentStore.StatusConnecting, AgentStore.ActionConnected => Some AgentStore.StatusConnected
  | AgentStore.StatusConnected, AgentStore.ActionBroken => Some AgentStore.StatusBroken
  | (AgentStore.StatusNone | AgentStore.StatusBroken | AgentStore.StatusConnecting | AgentStore.StatusConnected), AgentStore.ActionFailed =>
      Some AgentStore.StatusFailed
  | _, _ => None
  end.

Definition lifecycle_step (st : option AgentStore.Status) (ev : AgentStore.AgentEvent) : option AgentStore.Status :=
  st ← st; match session_action ev with None => Some st | Some a => session_next st a end.
Definition lifecycle (evs : list AgentStore.AgentEvent) : option AgentStore.Status := foldl lifecycle_step (Some AgentStore.StatusNone) evs.

Lemma lifecycle_snoc evs ev : lifecycle (evs ++ [ev]) = lifecycle_step (lifecycle evs) ev.
Proof. unfold lifecycle. by rewrite foldl_app. Qed.

Section Lifecycle.
Context {P : Type}.
Variable react : P -> Command -> result string (P * list recv).
Variable Lookup : P -> string -> AgentRegistry.lookup.
Variable query_error : string.
Variable ParseCertificate : string -> result string AgentIdentity.Cert.
Variable Verify : AgentIdentity.Cert -> list AgentIdentity.Cert -> result string unit.
Variable Sum256 : string -> string.
Variable texts : Executor.scripts.
Variable cid : string.

Abbreviation runDial_ := (runDial react Lookup query_error ParseCertificate Verify Sum256 texts cid).
Abbreviation establish_ := (establish_from react ParseCertificate Verify Sum256 cid).
Abbreviation hold_ := (hold_session react Lookup query_error texts cid).

(** An event about the container that is not a reaping, and one of another axis
    than the session's. *)
Definition ours (ev : AgentStore.AgentEvent) : Prop :=
  AgentStore.a_container (AgentStore.ev_agent ev) = cid /\ AgentStore.m_action (AgentStore.ev_message ev) <> AgentStore.ActionReap.
Definition aside (ev : AgentStore.AgentEvent) : Prop := session_action ev = None /\ ours ev.

(** The session events among them. *)
Definition sessions (evs : list AgentStore.AgentEvent) : list AgentStore.Action := omap session_action evs.

Section Budget.

(** How often a look at the context finds it not cancelled: [None] always. *)
Variable budget : option nat.

Definition affords (n : nat) (ctx : option nat) : Prop :=
  match budget, ctx with Some k, Some j => (n + j <= k)%nat | None, None => True | _, _ => False end.
Lemma affords_le n n' ctx : (n' <= n)%nat -> affords n ctx -> affords n' ctx.
Proof. unfold affords. destruct budget, ctx; try done. lia. Qed.

(** Each session event cost a look at the context. *)
Definition paid (d : dial) : Prop := Forall ours (d_events d) /\ affords (length (sessions (d_events d))) (d_ctx d).

(** The events end in a status of [S], or were cut short by a cancelled
    context. *)
Definition stands (d : dial) (S : AgentStore.Status -> Prop) : Prop :=
  paid d /\ exists st, lifecycle (d_events d) = Some st /\ (d_ctx d = Some O \/ S st).
Definition idle (st : AgentStore.Status) : Prop := st = AgentStore.StatusNone \/ st = AgentStore.StatusBroken.
Definition live_ (st : AgentStore.Status) : Prop := idle st \/ st = AgentStore.StatusConnecting \/ st = AgentStore.StatusConnected.

Lemma stands_mono d (S S' : AgentStore.Status -> Prop) : (forall st, S st -> S' st) -> stands d S -> stands d S'.
Proof. intros HS (HF & st & H1 & H2). split; [done|]. exists st. split; [done|]. destruct H2; [by left|right; auto]. Qed.

Lemma ctx_Err_spec d done d' :
  ctx_Err d = (done, d') -> d_events d' = d_events d /\ (done = true -> d' = d /\ d_ctx d = Some O) /\ (d_ctx d = Some O -> done = true) /\
  (d_ctx d = None -> d_ctx d' = None /\ done = false).
Proof. unfold ctx_Err. destruct (d_ctx d) as [[|n]|] eqn:E; intros [= <- <-]; naive_solver. Qed.

Lemma paid_ctx d done d' : paid d -> ctx_Err d = (done, d') ->
  Forall ours (d_events d') /\ affords (if done then length (sessions (d_events d')) else S (length (sessions (d_events d')))) (d_ctx d').
Proof.
  unfold paid, ctx_Err. intros [HF H]. destruct (d_ctx d) as [[|n]|] eqn:E; intros [= <- <-]; cbn [d_events d_ctx]; rewrite ?E; (split; [done|]);
    unfold affords in *; destruct budget; try done; lia.
Qed.

Lemma stands_ctx d done d' S : stands d S -> ctx_Err d = (done, d') -> stands d' S.
Proof.
  intros (HF & st & H1 & H2) HE. pose proof (paid_ctx _ _ _ HF HE) as [HF1 HF2]. apply ctx_Err_spec in HE as (E & Hd & Hz & _).
  split; [split; [done|]; eapply affords_le; [|exact HF2]; destruct done; lia|]. rewrite E. exists st. split; [done|]. destruct H2 as [H2|H2]; [|by right].
  left. destruct (Hd (Hz H2)) as [-> _]. done.
Qed.

(** Events of the other axes leave it alone. *)
Lemma stands_other d S evs : Forall aside evs -> stands d S -> stands (mkDial (d_ctx d) (d_events d ++ evs)) S.
Proof.
  intros HF ([HO HB] & st & H1 & H2). split; cbn [d_events d_ctx].
  { split; cbn [d_events d_ctx]; [apply Forall_app; split; [done|]; eapply Forall_impl; [exact HF|by intros ev []]|]. unfold sessions in *. rewrite omap_app, length_app. assert (omap session_action evs = []) as -> by (clear -HF; induction HF as [|ev evs [He _] _ IH]; cbn; [done|by rewrite He]). eapply affords_le; [|exact HB]. cbn. lia. }
  clear HB.
  exists st. split; [|done]. clear H2 HO. revert H1. generalize (d_events d) as l. induction HF as [|ev evs [He _] HF IH]; intros l H.
  - by rewrite app_nil_r.
  - change (l ++ ev :: evs) with (l ++ [ev] ++ evs). rewrite app_assoc. apply IH. rewrite lifecycle_snoc, H. cbn. by rewrite He.
Qed.
Lemma stands_publish_other d S ev : aside ev -> stands d S -> stands (Publish d ev) S.
Proof. intros He. apply (stands_other d S [ev]). by constructor. Qed.

Lemma stands_live d (S S' : AgentStore.Status -> Prop) ev a :
  session_action ev = Some a -> ours ev -> (forall st, S st -> exists st', session_next st a = Some st' /\ S' st') ->
  stands d S -> stands (publish_live d ev) S'.
Proof.
  intros He Ho HS (HF & st & H1 & H2). unfold publish_live. destruct (ctx_Err d) as [done d1] eqn:E.
  pose proof (paid_ctx _ _ _ HF E) as [HF1 HF2]. apply ctx_Err_spec in E as (Ee & Hd & Hz & _).
  destruct done; [destruct (Hd eq_refl) as [-> Hc]; split; [done|]; exists st; by auto|].
  destruct H2 as [H2|H2]; [by apply Hz in H2|]. destruct (HS st H2) as (st' & Hn & HS').
  split; [split; cbn [Publish d_events d_ctx]; [apply Forall_app; split; [done|by apply Forall_singleton]|]|].
  { unfold sessions in *. rewrite omap_app, length_app. eapply affords_le; [|exact HF2]. cbn. rewrite He. cbn. lia. }
  exists st'. split; [|by right].
  cbn [Publish d_events]. rewrite lifecycle_snoc, Ee, H1. cbn. by rewrite He.
Qed.

(** The events of a run of a plan are on the exec axis. *)
Lemma run_steps_axis env t label count i plan (s : Stream P) :
  Executor.t_container t = cid -> Forall aside (Executor.r_events (Executor.run_steps react env t label count i plan s)).
Proof.
  intros Hc. revert i s. induction plan as [|st plan IH]; intros i s; cbn [Executor.run_steps]; [by repeat (apply Forall_cons; split; [done|]); apply Forall_nil|].
  cbn [Executor.published Executor.r_events app]. constructor; [by repeat split|]. destruct (Executor.panic_in env i); [by repeat (apply Forall_cons; split; [done|]); apply Forall_nil|].
  destruct (Executor.runStep react s _ label i st) as [[o err] s1]. destruct (Executor.Failed o).
  - unfold Executor.reportStepFailure. destruct err; [|destruct (Executor.KillAfterGrace env)]; by repeat (apply Forall_cons; split; [done|]); apply Forall_nil.
  - cbn [Executor.published Executor.r_events app]. constructor; [by repeat split|]. destruct (Executor.panic_after env i); [by repeat (apply Forall_cons; split; [done|]); apply Forall_nil|]. apply IH.
Qed.

(** A context that is never cancelled stays so. *)
Definition uncancelled (d d' : dial) : Prop := d_ctx d = None -> d_ctx d' = None.

Lemma publish_live_uncancelled d ev : uncancelled d (publish_live d ev).
Proof. intros H. unfold publish_live. destruct (ctx_Err d) as [done d1] eqn:E. apply ctx_Err_spec in E as (_ & _ & _ & Hn). by destruct (Hn H) as [? ->]. Qed.

(** The status of a cycle, before and after it said it is connecting. *)
Definition cycle_at (published : bool) (st : AgentStore.Status) : Prop := if published then st = AgentStore.StatusConnecting else idle st.
Lemma cycle_at_live published st : cycle_at published st -> live_ st.
Proof. destruct published; [intros ->; by right; left|by left]. Qed.

Lemma back_off_stands published g backoff d r d' :
  stands d (cycle_at published) -> back_off g backoff d = (r, d') ->
  stands d' (cycle_at published) /\ uncancelled d d' /\ (r = inl g -> d_ctx d <> None) /\ forall g', r = inl g' -> g' = g.
Proof.
  intros H. unfold back_off. destruct (ctx_Err d) as [done d1] eqn:E. pose proof (stands_ctx _ _ _ _ H E) as H1.
  apply ctx_Err_spec in E as (_ & _ & _ & Hn). intros [= <- <-]. split_and!; [done|intros Hc; by destruct (Hn Hc)| |by destruct done; naive_solver].
  destruct done; [|done]. intros _ Hc. by destruct (Hn Hc).
Qed.

(** One attempt: a session is connecting; a cycle that ended without one has not
    failed yet, and a context that is never cancelled did not end it. *)
Lemma attempt_stands n deadline backoff published a p d r pub p' d' :
  stands d (cycle_at published) ->
  attemptEstablish react ParseCertificate Verify Sum256 cid n deadline backoff published a p d = (r, pub, p', d') ->
  uncancelled d d' /\
  match r with
  | inl (_, Some _) => stands d' (cycle_at true)
  | inl (res, None) => stands d' live_ /\ (d_ctx d = None -> Outcome res <> outcomeCtxDone)
  | inr _ => stands d' (cycle_at pub)
  end.
Proof.
  intros H. unfold attemptEstablish. destruct (resolveAgent (at_inspect a)) as [c|e].
  - destruct (agentLabels c) as [ag pr]. destruct (clawkerNetAddr c) as [addr|].
    2:{ intros [= <- <- <- <-]. split; [by intros ?|]. split; [|done]. eapply stands_mono; [apply cycle_at_live|exact H]. }
    set (d1 := if published then d else publishConnecting cid d ag pr addr).
    assert (stands d1 (cycle_at true) /\ uncancelled d d1) as [H1 Hu].
    { unfold d1. destruct published; [by split; [|intros ?]|]. split; [|apply publish_live_uncancelled].
      eapply stands_live; [done|done| |exact H]. intros st [-> | ->]; by eexists. }
    destruct (tryEstablish react ParseCertificate Verify Sum256 p (at_open a)) as [[[[ack info] s]|e] p1]; [intros [= <- <- <- <-]; by split|].
    unfold handleDialError. destruct (deadline <? at_now a).
    + intros [= <- <- <- <-]. split; [done|]. split; [|done]. eapply stands_mono; [apply cycle_at_live|exact H1].
    + destruct (back_off _ backoff d1) as [[g|b] d2] eqn:E; cbn; intros [= <- <- <- <-];
        apply (back_off_stands true) in E as (H2 & Hu2 & Hg & Hg'); try done; (split; [by intros Hc; apply Hu2, Hu|]); try done.
      split; [by eapply stands_mono; [apply cycle_at_live|]|]. intros Hc. rewrite (Hg' _ eq_refl) in *. exfalso. by apply Hg; [|apply Hu].
  - unfold handleResolveError. destruct e; cbn; try (intros [= <- <- <- <-]; split; [by intros ?|]; split; [|done]; eapply stands_mono; [apply cycle_at_live|exact H]).
    destruct (deadline <? at_now a).
    + cbn. intros [= <- <- <- <-]. split; [by intros ?|]. split; [|done]. eapply stands_mono; [apply cycle_at_live|exact H].
    + destruct (back_off _ backoff d) as [[g|b] d2] eqn:E; cbn; intros [= <- <- <- <-];
        apply (back_off_stands published) in E as (H2 & Hu2 & Hg & Hg'); try done; (split; [done|]); try done.
      split; [by eapply stands_mono; [apply cycle_at_live|]|]. intros Hc. rewrite (Hg' _ eq_refl) in *. exfalso. by apply Hg.
Qed.

(** A cycle of attempts likewise. *)
Lemma establish_stands attempts n deadline backoff published p d r p' d' :
  stands d (cycle_at published) -> establish_ attempts n deadline backoff published p d = (r, p', d') ->
  uncancelled d d' /\ stands d' (match r with Some (_, Some _) => cycle_at true | _ => live_ end) /\
  match r with Some (res, None) => d_ctx d = None -> Outcome res <> outcomeCtxDone | _ => True end.
Proof.
  revert n backoff published p d. induction attempts as [|a attempts IH]; intros n backoff published p d H; cbn [establish_from].
  { intros [= <- <- <-]. split_and!; [by intros ?| |done]. eapply stands_mono; [apply cycle_at_live|exact H]. }
  destruct (ctx_Err d) as [done d1] eqn:E. pose proof (stands_ctx _ _ _ _ H E) as H1. apply ctx_Err_spec in E as (_ & _ & _ & Hn).
  destruct done.
  { intros [= <- <- <-]. split_and!; [intros Hc; by destruct (Hn Hc)|by eapply stands_mono; [apply cycle_at_live|]|intros Hc; by destruct (Hn Hc)]. }
  destruct (attemptEstablish react ParseCertificate Verify Sum256 cid n deadline backoff published a (at_drift a p) d1) as [[[r1 pub] p1] d2] eqn:Ea.
  apply attempt_stands in Ea as [Hu Ha]; [|done]. assert (uncancelled d d2) as Hu2 by (intros Hc; apply Hu; by destruct (Hn Hc)).
  destruct r1 as [[res [s|]]|b].
  - intros [= <- <- <-]. by split_and!.
  - intros [= <- <- <-]. destruct Ha as [Ha Ho]. split_and!; [done|done|]. intros Hc. apply Ho. by destruct (Hn Hc).
  - intros E. apply IH in E as (Hu3 & Hs & Hr); [|done]. split_and!; [by intros Hc; apply Hu3, Hu2|done|].
    destruct r as [[res [s|]]|]; [done| |done]. intros Hc. apply Hr. by apply Hu2.
Qed.

(** Steps that publish nothing on the session axis. *)
Definition quiet (d d' : dial) : Prop := (forall S, stands d S -> stands d' S) /\ uncancelled d d'.
Lemma quiet_refl d : quiet d d.
Proof. split; [done|by intros ?]. Qed.
Lemma quiet_trans d1 d2 d3 : quiet d1 d2 -> quiet d2 d3 -> quiet d1 d3.
Proof. intros [H1 U1] [H2 U2]. split; [intros S H; by apply H2, H1|intros Hc; by apply U2, U1]. Qed.
Lemma quiet_publish d ev : aside ev -> quiet d (Publish d ev).
Proof. intros He. split; [intros S; by apply stands_publish_other|by intros ?]. Qed.
Lemma quiet_ctx d done d' : ctx_Err d = (done, d') -> quiet d d'.
Proof. intros E. split; [intros S H; by eapply stands_ctx|]. apply ctx_Err_spec in E as (_ & _ & _ & Hn). intros Hc. by destruct (Hn Hc). Qed.
#[local] Hint Resolve quiet_refl quiet_publish : core.
#[local] Hint Extern 1 (aside _) => (by repeat split) : core.

Lemma register_failure_quiet res reason d : quiet d (publishRegisterFailure cid res reason d).
Proof. eapply quiet_trans; by apply quiet_publish. Qed.
#[local] Hint Resolve register_failure_quiet : core.

Lemma dispatch_quiet res timeout s d : quiet d (DispatchAgentEvents react Lookup query_error cid res timeout s d).2.
Proof.
  unfold DispatchAgentEvents. destruct (ClassifyRegistry _ _ _ _ _) as [[| | |] detail]; cbn; auto.
  unfold DriveRegister. destruct (Send react s _) as [s1|e]; [|by cbn].
  unfold awaitRegisterDone. destruct (recvRegisterDone _ (inbox s1)) as [[got rest] frames]. destruct timeout as [k|].
  - destruct (ctx_Err d) as [done d1] eqn:E. cbn. by eapply quiet_trans; [eapply quiet_ctx|].
  - destruct got as [[[|] t]|e]; cbn; auto. unfold confirmRegisterRow. destruct (Lookup _ _); auto.
Qed.

Lemma runPlan_quiet wired env res s plan name d : quiet d (runPlan react cid wired env res s plan name d).2.
Proof.
  unfold runPlan. destruct wired; [|done]. cbn [negb snd]. split; [|by intros ?]. intros S. apply stands_other.
  cbn [Executor.Run Executor.published Executor.r_events app]. constructor; [done|]. by apply run_steps_axis.
Qed.

Lemma run_if_quiet should wired env res plan name sd : quiet sd.2 (run_if react cid should wired env res plan name sd).2.
Proof. unfold run_if. destruct should as [[|]|]; [apply runPlan_quiet|apply quiet_refl|apply quiet_refl]. Qed.

Lemma drain_quiet (s : Stream P) late d drain s' d' :
  drainStream s late d = (drain, s', d') -> quiet d d' /\ (d_ctx d = None -> drain_outcome drain <> DrainCtxCanceled).
Proof.
  unfold drainStream. generalize (@nil Response) as got. induction (inbox s ++ late) as [|x inb IH]; intros got; cbn [drain_loop].
  { intros [= <- <- <-]. by split. }
  destruct x as [r| |e|]; [apply IH|intros [= <- <- <-]; by split| |];
    (destruct (ctx_Err d) as [done d1] eqn:E; intros [= <- <- <-]; split; [by eapply quiet_ctx|]; intros Hc;
     apply ctx_Err_spec in E as (_ & _ & _ & Hn); by destruct (Hn Hc) as [_ ->]).
Qed.

Lemma hold_stands wired c res s d drain s' d' :
  stands d (cycle_at true) -> hold_ wired c res s d = (drain, s', d') ->
  stands d' (eq AgentStore.StatusConnected) /\ uncancelled d d' /\ (d_ctx d = None -> drain_outcome drain <> DrainCtxCanceled).
Proof.
  intros H. unfold hold_session. set (d1 := PublishConnected _ _ _ _ _ _ _).
  assert (stands d1 (eq AgentStore.StatusConnected)) as H1 by (eapply stands_live; [done|done| |exact H]; intros st ->; by eexists).
  assert (uncancelled d d1) as U1 by apply publish_live_uncancelled. clearbody d1.
  pose proof (dispatch_quiet res (c_timeout c) s d1) as Q2. revert Q2. generalize (DispatchAgentEvents react Lookup query_error cid res (c_timeout c) s d1) as sd2. intros sd2 Q2.
  pose proof (run_if_quiet (Executor.shouldAgentInit (HelloAck_ res)) wired (c_init c) res (Executor.InitPlan texts) "init" sd2) as Q3.
  revert Q3. generalize (run_if react cid (Executor.shouldAgentInit (HelloAck_ res)) wired (c_init c) res (Executor.InitPlan texts) "init" sd2) as sd3. intros sd3 Q3.
  match goal with |- context [run_if react cid ?sh wired ?e res ?pl ?nm sd3] => pose proof (run_if_quiet sh wired e res pl nm sd3) as Q4; destruct (run_if react cid sh wired e res pl nm sd3) as [s4 d4] end.
  set (d5 := if Executor.agentInitBypassed _ then _ else _).
  assert (quiet d4 d5) as Q5 by (unfold d5; destruct (Executor.agentInitBypassed _); auto). clearbody d5.
  intros [Q6 Hd]%drain_quiet. assert (quiet d1 d5) as Q15 by (eapply quiet_trans; [exact Q2|]; eapply quiet_trans; [exact Q3|]; by eapply quiet_trans; [exact Q4|]).
  destruct (quiet_trans _ _ _ Q15 Q6) as [HS U]. split_and!; [by apply HS|intros Hc; by apply U, U1|]. intros Hc. apply Hd, Q15, U1, Hc.
Qed.

Lemma runDial_stands wired cycles count p d logs :
  stands d idle -> let r := runDial_ wired cycles count p d logs in
  stands (ds_dial r) (fun _ => True) /\ (d_ctx d = None -> d_ctx (ds_dial r) = None /\ (returned r = true -> stands (ds_dial r) (eq AgentStore.StatusFailed))).
Proof.
  revert count p d logs. induction cycles as [|c cycles IH]; intros count p d logs H; cbn [runDial].
  { split; [by eapply stands_mono; [|exact H]|]. intros Hc. by split. }
  destruct (ctx_Err d) as [done d1] eqn:E. pose proof (stands_ctx _ _ _ _ H E) as H1. apply ctx_Err_spec in E as (_ & _ & _ & Hn).
  destruct done; [split; [by eapply stands_mono; [|exact H1]|intros Hc; by destruct (Hn Hc)]|].
  destruct (establishWithRetry _ _ _ _ _ _ _ _ _) as [[r p1] d2] eqn:Ee. apply (establish_stands _ _ _ _ false) in Ee as (U & H2 & Ho); [|done].
  assert (uncancelled d d2) as U2 by (intros Hc; apply U; by destruct (Hn Hc)).
  assert (forall ag pr ad t k, stands d2 live_ -> stands (publishFailed cid d2 ag pr ad t k) (eq AgentStore.StatusFailed)) as Hfail.
  { intros ag pr ad t k Hs. eapply stands_live; [done|done| |exact Hs]. intros st [[-> | ->]|[-> | ->]]; by eexists. }
  destruct r as [[res [s|]]|].
  - destruct (hold_ wired c res s d2) as [[drain s1] d3] eqn:Eh. apply hold_stands in Eh as (H3 & U3 & Hd); [|done].
    assert (uncancelled d d3) as U03 by (intros Hc; by apply U3, U2).
    destruct (CloseAndCheckLeak (c_close_fails c) count) as [[|] count'].
    { cbn. assert (stands (publishFailed cid d3 (Agent_ res) (Project_ res) (Addr_ res) ("fd-leak-ceiling: " +:+ Itoa count' +:+ " consecutive close failures") (Attempt_ res)) (eq AgentStore.StatusFailed)) as Hf
        by (eapply stands_live; [done|done| |exact H3]; intros st <-; by eexists).
      split; [by eapply stands_mono; [|exact Hf]|]. intros Hc. split; [by apply publish_live_uncancelled, U03|done]. }
    destruct (ShouldReconnect drain d3) as [again d4] eqn:Er. unfold ShouldReconnect in Er. destruct (ctx_Err d3) as [done d4'] eqn:E4.
    pose proof (stands_ctx _ _ _ _ H3 E4) as H4. apply ctx_Err_spec in E4 as (_ & _ & _ & Hn4). injection Er as <- ->. destruct done; cbn [negb andb].
    { split; [by eapply stands_mono; [|exact H4]|]. intros Hc. by destruct (Hn4 (U03 Hc)). }
    case_bool_decide as Hdr; cbn [negb andb].
    { split; [by eapply stands_mono; [|exact H4]|]. intros Hc. by apply (Hd (U2 Hc)) in Hdr. }
    assert (stands (publishBroken cid d4 (Agent_ res) (Project_ res) (Addr_ res) (drain_reason drain)) idle) as H5
      by (eapply stands_live; [done|done| |exact H4]; intros st <-; eexists; split; [done|by right]).
    destruct (IH count' (peer s1) _ (logs ++ [log s1]) H5) as [HS1 HS2].
    split; [exact HS1|]. intros Hc. apply HS2. apply publish_live_uncancelled. by destruct (Hn4 (U03 Hc)).
  - assert (forall t, stands (publishFailed cid d2 (Agent_ res) (Project_ res) (Addr_ res) t (Attempt_ res)) (eq AgentStore.StatusFailed)) as Hf by auto.
    destruct (Outcome res) eqn:Er; cbn; try (split; [by eapply stands_mono; [|apply Hf]|]; intros Hc; split; [by apply publish_live_uncancelled, U2|done]).
    split; [by eapply stands_mono; [|exact H2]|]. intros Hc. exfalso. apply Ho; [by destruct (Hn Hc)|done].
  - split; [by eapply stands_mono; [|exact H2]|]. intros Hc. split; [by apply U2|done].
Qed.

End Budget.

Definition session_of (m : gmap string AgentStore.AgentEventState) : AgentStore.Status :=
  AgentStore.s_session (default AgentStore.zero_state (m !! cid)).

(** A session event sets the status, the others leave it. *)
Lemma project_session m ev ts cur st :
  cid <> "" -> ours ev -> lifecycle_step (Some cur) ev = Some st ->
  session_of (AgentStore.project m ev ts) = match session_action ev with Some _ => st | None => session_of m end.
Proof.
  intros Hc [Hi Hr]. unfold session_of, AgentStore.project, lifecycle_step, session_action. cbn [mbind option_bind]. rewrite Hi.
  destruct (String.eqb_spec cid ""); [done|]. rewrite lookup_insert_eq. cbn [default].
  unfold AgentStore.project_state. destruct (default AgentStore.zero_state _) as [f1 f2 f3 f4 old f6 f7 f8 f9 f10 f11 f12 f13]. cbn.
  destruct (AgentStore.m_type (AgentStore.ev_message ev)).
  - unfold AgentStore.projectSession. destruct (AgentStore.m_action (AgentStore.ev_message ev)), cur; cbn; by intros [= <-].
  - unfold AgentStore.projectExec. by destruct (AgentStore.m_action (AgentStore.ev_message ev)).
  - unfold AgentStore.projectRegistry. destruct (AgentStore.m_action (AgentStore.ev_message ev)); try done.
    by destruct (AgentStore.m_registerOk _).
  - done.
Qed.

Lemma observed_session m evs m' cur st :
  cid <> "" -> AgentStore.observed m evs m' -> Forall ours evs -> foldl lifecycle_step (Some cur) evs = Some st ->
  (cur = session_of m -> session_of m' = st) /\ (sessions evs = [] -> session_of m' = session_of m) /\ (sessions evs <> [] -> session_of m' = st).
Proof.
  intros Hc H. revert cur. induction H as [m|m ev ts evs m' _ IH]; intros cur HF; cbn [foldl]; [by intros [= <-]|].
  apply Forall_cons in HF as [He HF]. destruct (lifecycle_step (Some cur) ev) as [st'|] eqn:E.
  2: { assert (foldl lifecycle_step None evs = None) as -> by (clear; induction evs; done). done. }
  intros Hl. destruct (IH st' HF Hl) as (I1 & I2 & I3). pose proof (project_session m ev ts cur st' Hc He E) as Hp.
  unfold sessions in *. cbn [omap list_omap]. destruct (session_action ev) as [a|] eqn:Ea.
  - rewrite Hp in I1. split_and!; [|done|]; intros _; by apply I1.
  - unfold lifecycle_step in E. cbn in E. rewrite Ea in E. injection E as <-. rewrite Hp in I1, I2. by split_and!.
Qed.

(** C30: The sessions a dial publishes follow one lifecycle: connecting, connected,
    broken and connecting again, until a failure.  As long as its goroutine does not
    panic, the worldview shows where this stands once the dial has published
    anything, whatever an earlier dial of the container left there; a dial that was
    never cancelled has published its failure when its goroutine returns; and a
    cancelled dial stops: each session event is preceded by a look at the context,
    so one whose context is cancelled after [k] looks publishes at most [k]. *)
Theorem dial_lifecycle wired cycles p ctx m m' :
  let r := runDial_ wired cycles 0 p (mkDial ctx []) [] in
  cid <> "" -> AgentStore.observed m (d_events (ds_dial r)) m' ->
  exists st, lifecycle (d_events (ds_dial r)) = Some st /\
    session_of m' = (if decide (sessions (d_events (ds_dial r)) = []) then session_of m else st) /\
    (returned r = true -> ctx = None -> st = AgentStore.StatusFailed /\ sessions (d_events (ds_dial r)) <> []) /\
    (forall k, ctx = Some k -> (length (sessions (d_events (ds_dial r))) <= k)%nat).
Proof.
  intros r Hc Ho. destruct (runDial_stands ctx wired cycles 0 p (mkDial ctx []) []) as [([HF HB] & st & Hl & _) Hend].
  { split; [split; [constructor|destruct ctx; cbn; lia]|]. exists AgentStore.StatusNone. split; [done|]. right. by left. }
  fold r in HF, HB, Hl, Hend. exists st. split; [done|].
  destruct (observed_session m _ m' _ st Hc Ho HF Hl) as (_ & H2 & H3). split; [by destruct (decide _); auto|]. split.
  - intros Hr ->. destruct (Hend eq_refl) as [Hn Hf]. destruct (Hf Hr) as (_ & st' & Hl' & [Hz|Hs]); [by rewrite Hn in Hz|].
    assert (st = AgentStore.StatusFailed) as -> by congruence. split; [done|]. intros E.
    assert (lifecycle (d_events (ds_dial r)) = Some AgentStore.StatusNone) as E'; [|congruence]. clear -E. unfold lifecycle.
    induction (d_events (ds_dial r)) as [|ev evs IH]; [done|]. unfold sessions in E. cbn in E. cbn. destruct (session_action ev); [done|]. by apply IH.
  - intros k ->. unfold affords in HB. destruct (d_ctx (ds_dial r)); [lia|done].
Qed.

(** ** What a registration attempt reports *)

Definition state_of (m : gmap string AgentStore.AgentEventState) : AgentStore.AgentEventState := default AgentStore.zero_state (m !! cid).

Lemma project_registry m a reason detail ok ts res :
  cid <> "" -> (a = AgentStore.ActionRegistered \/ a = AgentStore.ActionUntrusted) ->
  let st := state_of (AgentStore.project m (registry_event (dialAgent cid res) a reason detail ok) ts) in
  (AgentStore.s_registered st, AgentStore.s_trust st) =
  match a, ok with
  | AgentStore.ActionRegistered, true => (true, AgentStore.trusted)
  | AgentStore.ActionRegistered, false => (AgentStore.s_registered (state_of m), AgentStore.s_trust (state_of m))
  | _, _ => (AgentStore.s_registered (state_of m), AgentStore.Untrust reason)
  end.
Proof.
  intros Hc Ha. cbn zeta. unfold state_of, AgentStore.project. cbn [dialAgent registry_event AgentStore.ev_agent AgentStore.a_container].
  destruct (String.eqb_spec cid ""); [done|]. rewrite lookup_insert_eq. by destruct Ha as [-> | ->], ok.
Qed.

(** The verdict of a session on the agent's identity. *)
Definition verdict (after : AgentStore.AgentEventState) (registered : bool) (trust : AgentStore.Trust) : Prop :=
  AgentStore.s_registered after = registered /\ AgentStore.s_trust after = trust.

Lemma recvRegisterDone_ok id inb e rest frames : recvRegisterDone id inb = (Ok (true, e), rest, frames) -> mkResponse id (RegisterDone true e) ∈ frames.
Proof.
  revert rest frames. induction inb as [|x inb IH]; intros rest frames; cbn [recvRegisterDone]; [done|].
  destruct x as [[rid pl]| | |]; try done. cbn [ResponseId ResponsePayload].
  assert ((let '(a, inb, got) := recvRegisterDone id inb in (a, inb, mkResponse rid pl :: got)) = (Ok (true, e), rest, frames) ->
    mkResponse id (RegisterDone true e) ∈ frames) as Hgo.
  { destruct (recvRegisterDone id inb) as [[a i] got]. intros [= -> -> <-]. apply list_elem_of_further. by eapply IH. }
  destruct (String.eqb_spec rid id) as [->|]; [|exact Hgo]. destruct pl; try exact Hgo; [done|]. intros [= -> -> <- <-]. apply list_elem_of_here.
Qed.

Lemma observed_failure m res reason m' ctx :
  cid <> "" -> AgentStore.observed m (d_events (publishRegisterFailure cid res reason (mkDial ctx []))) m' ->
  verdict (state_of m') (AgentStore.s_registered (state_of m)) (AgentStore.Untrust ReasonRegisterFailed).
Proof.
  intros Hc H. inversion H as [|? ? ts1 ? ? H1]; subst. inversion H1 as [|? ? ts2 ? ? H2]; subst. inversion H2; subst.
  match goal with |- verdict (state_of (AgentStore.project ?m1 ?ev ?ts)) _ _ =>
    pose proof (project_registry m1 AgentStore.ActionUntrusted ReasonRegisterFailed reason false ts res Hc (or_intror eq_refl)) as E end.
  pose proof (project_registry m AgentStore.ActionRegistered "" reason false ts1 res Hc (or_introl eq_refl)) as E1.
  cbn zeta in E, E1. split; congruence.
Qed.

(** The verdict of a session on the agent's identity, as the worldview shows
    it: a certificate other than the registered one, and a registry that cannot be
    read, make the agent untrusted with their reason; an agent without a readable
    row becomes registered and trusted when the daemon reported success for this
    registration and the row is there afterwards, and is untrusted otherwise; a
    certificate that matches changes nothing. *)
Theorem trust_reported res timeout s ctx m m' s' d' :
  cid <> "" -> DispatchAgentEvents react Lookup query_error cid res timeout s (mkDial ctx []) = (s', d') ->
  AgentStore.observed m (d_events d') m' ->
  match Lookup (peer s) cid with
  | AgentRegistry.Found e =>
      if String.eqb (AgentRegistry.e_thumbprint e) (PeerThumbprint (PeerInfo_ res)) then m' = m /\ s' = s
      else verdict (state_of m') (AgentStore.s_registered (state_of m)) (AgentStore.Untrust ReasonThumbprintMismatch) /\ s' = s
  | AgentRegistry.QueryFailed =>
      verdict (state_of m') (AgentStore.s_registered (state_of m)) (AgentStore.Untrust ReasonCertInvalid) /\ s' = s
  | _ =>
      (verdict (state_of m') true AgentStore.trusted /\ (exists e, Lookup (peer s') cid = AgentRegistry.Found e) /\
       exists e, Rx (mkResponse ("register-" +:+ cid) (RegisterDone true e)) ∈ log s') \/
      verdict (state_of m') (AgentStore.s_registered (state_of m)) (AgentStore.Untrust ReasonRegisterFailed)
  end.
Proof.
  intros Hc Hd Ho. unfold DispatchAgentEvents, ClassifyRegistry in Hd.
  assert (forall reason detail, AgentStore.observed m [registry_event (dialAgent cid res) AgentStore.ActionUntrusted reason detail false] m' ->
    verdict (state_of m') (AgentStore.s_registered (state_of m)) (AgentStore.Untrust reason)) as Hone.
  { intros reason detail H. inversion H as [|? ? ts ? ? H1]; subst. inversion H1; subst.
    pose proof (project_registry m AgentStore.ActionUntrusted reason detail false ts res Hc (or_intror eq_refl)) as E. cbn zeta in E. split; congruence. }
  assert (DriveRegister react Lookup query_error cid res timeout s (mkDial ctx []) = (s', d') ->
      (verdict (state_of m') true AgentStore.trusted /\ (exists e, Lookup (peer s') cid = AgentRegistry.Found e) /\
       exists e, Rx (mkResponse ("register-" +:+ cid) (RegisterDone true e)) ∈ log s') \/
      verdict (state_of m') (AgentStore.s_registered (state_of m)) (AgentStore.Untrust ReasonRegisterFailed)) as Hdrive.
  2:{ destruct (Lookup (peer s) cid) as [e| | |]; [|auto|auto|].
      - destruct (String.eqb _ _); injection Hd as <- <-; [by inversion Ho|]. split; [|done]. eapply Hone. exact Ho.
      - injection Hd as <- <-. split; [|done]. eapply Hone. exact Ho. }
  clear Hd Hone. unfold DriveRegister. destruct (Send react s _) as [s1|e]; [|intros [= <- <-]; right; by eapply observed_failure].
  unfold awaitRegisterDone. destruct (recvRegisterDone _ (inbox s1)) as [[got rest] frames] eqn:Er. destruct timeout as [k|].
  { destruct ctx as [[|n]|]; intros [= <- <-]; right; by eapply observed_failure. }
  destruct got as [[[|] t]|e]; cbn [handleRegisterResult]; [|intros [= <- <-]; right; by eapply observed_failure|intros [= <- <-]; right; by eapply observed_failure].
  intros [= <- <-]. unfold confirmRegisterRow in Ho. cbn [peer log] in *.
  destruct (Lookup (peer s1) cid) as [e| | |]; try (right; by eapply observed_failure). left. split_and!.
  - inversion Ho as [|? ? ts ? ? H1]; subst. inversion H1; subst.
    pose proof (project_registry m AgentStore.ActionRegistered "" "" true ts res Hc (or_introl eq_refl)) as E. cbn zeta in E. split; congruence.
  - by exists e.
  - exists t. apply elem_of_app. right. apply list_elem_of_fmap. eexists. split; [done|]. by eapply recvRegisterDone_ok.
Qed.
End Lifecycle.

(** ** Certificates do not decide what is said on a session *)

(** Attempts and cycles that differ in the certificates presented only. *)
Definition same_opened (o1 o2 : opened) : Prop :=
  match o1, o2 with Opened _ u1, Opened _ u2 => u1 = u2 | _, _ => o1 = o2 end.
Record same_attempt {P} (a1 a2 : attempt (P := P)) : Prop := {
  sa_drift : at_drift a1 = at_drift a2; sa_inspect : at_inspect a1 = at_inspect a2; sa_open : same_opened (at_open a1) (at_open a2);
  sa_now : at_now a1 = at_now a2;
}.
Record same_cycle {P} (c1 c2 : cycle (P := P)) : Prop := {
  sc_start : c_start c1 = c_start c2; sc_attempts : Forall2 same_attempt (c_attempts c1) (c_attempts c2); sc_timeout : c_timeout c1 = c_timeout c2;
  sc_init : c_init c1 = c_init c2; sc_boot : c_boot c1 = c_boot c2; sc_container : c_container c1 = c_container c2; sc_image : c_image c1 = c_image c2;
  sc_late : c_late c1 = c_late c2; sc_close : c_close_fails c1 = c_close_fails c2;
}.
(** What the dial learned, less the identity of the peer. *)
Definition anonymous (res : EstablishResult) : EstablishResult :=
  mkEstablish (HelloAck_ res) (Agent_ res) (Project_ res) (Addr_ res) (Attempt_ res) (Outcome res) no_peer.
Definition missing (l : AgentRegistry.lookup) : bool :=
  match l with AgentRegistry.UnknownAgent | AgentRegistry.MalformedEntry => true | _ => false end.

Section Blind.
Context {P : Type}.
Variable react : P -> Command -> result string (P * list recv).
Variables Lookup1 Lookup2 : P -> string -> AgentRegistry.lookup.
Variables query_error1 query_error2 : string.
Variables Parse1 Parse2 : string -> result string AgentIdentity.Cert.
Variables Verify1 Verify2 : AgentIdentity.Cert -> list AgentIdentity.Cert -> result string unit.
Variables Sum1 Sum2 : string -> string.
Variable texts : Executor.scripts.
Variable cid : string.
Hypothesis same_rows : forall p, missing (Lookup1 p cid) = missing (Lookup2 p cid).

(** The same context. *)
Definition along (d1 d2 : dial) : Prop := d_ctx d1 = d_ctx d2.

Lemma along_publish d1 d2 e1 e2 : along d1 d2 -> along (Publish d1 e1) (Publish d2 e2).
Proof. done. Qed.
Lemma along_ctx d1 d2 : along d1 d2 -> (ctx_Err d1).1 = (ctx_Err d2).1 /\ along (ctx_Err d1).2 (ctx_Err d2).2.
Proof. unfold along, ctx_Err. intros H. rewrite H. destruct (d_ctx d2) as [[|n]|] eqn:E; cbn; split; congruence. Qed.
Lemma along_live d1 d2 e1 e2 : along d1 d2 -> along (publish_live d1 e1) (publish_live d2 e2).
Proof.
  intros [H1 H2]%along_ctx. unfold publish_live. destruct (ctx_Err d1) as [b1 x1], (ctx_Err d2) as [b2 x2]. cbn in *. subst b2. by destruct b1.
Qed.
#[local] Hint Resolve along_publish along_live : core.

Lemma back_off_blind g backoff d1 d2 :
  along d1 d2 -> (back_off g backoff d1).1 = (back_off g backoff d2).1 /\ along (back_off g backoff d1).2 (back_off g backoff d2).2.
Proof. intros [H1 H2]%along_ctx. unfold back_off. destruct (ctx_Err d1), (ctx_Err d2). cbn in *. by subst. Qed.

(** The outcome of an attempt, of a cycle and of a dispatch. *)
Definition same_result (r1 r2 : EstablishResult * option (Stream P) + Z) : Prop :=
  match r1, r2 with
  | inl (res1, s1), inl (res2, s2) => anonymous res1 = anonymous res2 /\ s1 = s2
  | inr b1, inr b2 => b1 = b2
  | _, _ => False
  end.

Lemma tryEstablish_blind p o1 o2 :
  same_opened o1 o2 ->
  match tryEstablish react Parse1 Verify1 Sum1 p o1, tryEstablish react Parse2 Verify2 Sum2 p o2 with
  | (Ok (ack1, _, s1), p1), (Ok (ack2, _, s2), p2) => ack1 = ack2 /\ s1 = s2 /\ p1 = p2
  | (Err _, p1), (Err _, p2) => p1 = p2
  | _, _ => False
  end.
Proof.
  unfold same_opened. destruct o1, o2; try done; try (intros [= <-]; done). intros <-. cbn.
  by destruct (helloHandshake react (mkStream p unasked [] false)) as [[ack|e] s].
Qed.

Lemma attempt_blind n deadline backoff published a1 a2 p d1 d2 :
  same_attempt a1 a2 -> along d1 d2 ->
  let '(r1, pub1, p1, d1') := attemptEstablish react Parse1 Verify1 Sum1 cid n deadline backoff published a1 p d1 in
  let '(r2, pub2, p2, d2') := attemptEstablish react Parse2 Verify2 Sum2 cid n deadline backoff published a2 p d2 in
  same_result r1 r2 /\ pub1 = pub2 /\ p1 = p2 /\ along d1' d2'.
Proof.
  intros [_ Hi Ho Hn] Hd. unfold attemptEstablish. rewrite <- Hi, <- Hn. destruct (resolveAgent (at_inspect a1)) as [c|e].
  - destruct (agentLabels c) as [ag pr]. destruct (clawkerNetAddr c) as [addr|]; [|done].
    set (x1 := if published then d1 else _). set (x2 := if published then d2 else _). assert (along x1 x2) as Hx by (unfold x1, x2, publishConnecting; destruct published; auto).
    clearbody x1 x2. pose proof (tryEstablish_blind p _ _ Ho) as Ht.
    destruct (tryEstablish react Parse1 Verify1 Sum1 p (at_open a1)) as [[[[ack1 i1] s1]|e1] p1],
      (tryEstablish react Parse2 Verify2 Sum2 p (at_open a2)) as [[[[ack2 i2] s2]|e2] p2]; try done; [by destruct Ht as (-> & -> & ->)|]. subst p2.
    unfold handleDialError. destruct (deadline <? at_now a1); [done|].
    destruct (back_off_blind (no_session ag pr addr n outcomeCtxDone) backoff x1 x2 Hx) as [Hb1 Hb2].
    destruct (back_off _ _ x1) as [r1 y1], (back_off _ _ x2) as [r2 y2]. cbn in *. subst r2. by destruct r1.
  - unfold handleResolveError. destruct e; try done. destruct (deadline <? at_now a1); [done|].
    destruct (back_off_blind (no_session "" "" "" n outcomeCtxDone) backoff d1 d2 Hd) as [Hb1 Hb2].
    destruct (back_off _ _ d1) as [r1 y1], (back_off _ _ d2) as [r2 y2]. cbn in *. subst r2. by destruct r1.
Qed.

Lemma establish_blind l1 l2 n deadline backoff published p d1 d2 :
  Forall2 same_attempt l1 l2 -> along d1 d2 ->
  let '(r1, p1, d1') := establish_from react Parse1 Verify1 Sum1 cid l1 n deadline backoff published p d1 in
  let '(r2, p2, d2') := establish_from react Parse2 Verify2 Sum2 cid l2 n deadline backoff published p d2 in
  match r1, r2 with Some r1, Some r2 => same_result (inl r1) (inl r2) | None, None => True | _, _ => False end /\ p1 = p2 /\ along d1' d2'.
Proof.
  intros Hl. revert n backoff published p d1 d2. induction Hl as [|a1 a2 l1 l2 Ha Hl IH]; intros n backoff published p d1 d2 Hd; cbn [establish_from]; [done|].
  apply along_ctx in Hd as [Hb Hd]. destruct (ctx_Err d1) as [b1 x1], (ctx_Err d2) as [b2 x2]. cbn in Hb, Hd. subst b2. destruct b1; [done|].
  rewrite <- (sa_drift _ _ Ha). pose proof (attempt_blind n deadline backoff published a1 a2 (at_drift a1 p) x1 x2 Ha Hd) as Hat.
  destruct (attemptEstablish react Parse1 Verify1 Sum1 cid n deadline backoff published a1 (at_drift a1 p) x1) as [[[r1 q1] p1] y1].
  destruct (attemptEstablish react Parse2 Verify2 Sum2 cid n deadline backoff published a2 (at_drift a1 p) x2) as [[[r2 q2] p2] y2].
  destruct Hat as (Hr & -> & -> & Hy). destruct r1 as [[res1 s1]|b1], r2 as [[res2 s2]|b2]; try done. cbn in Hr. subst b2. by apply IH.
Qed.

Lemma dispatch_blind res1 res2 timeout s d1 d2 :
  along d1 d2 ->
  (DispatchAgentEvents react Lookup1 query_error1 cid res1 timeout s d1).1 = (DispatchAgentEvents react Lookup2 query_error2 cid res2 timeout s d2).1 /\
  along (DispatchAgentEvents react Lookup1 query_error1 cid res1 timeout s d1).2 (DispatchAgentEvents react Lookup2 query_error2 cid res2 timeout s d2).2.
Proof.
  intros Hd. assert (forall s, let x1 := DriveRegister react Lookup1 query_error1 cid res1 timeout s d1 in let x2 := DriveRegister react Lookup2 query_error2 cid res2 timeout s d2 in
    x1.1 = x2.1 /\ along x1.2 x2.2) as Hdrive.
  { intros s0. unfold DriveRegister. destruct (Send react s0 _) as [s1|e]; [|done]. unfold awaitRegisterDone.
    destruct (recvRegisterDone _ (inbox s1)) as [[got rest] frames]. destruct timeout as [k|].
    - apply along_ctx in Hd as [Hb Hd]. destruct (ctx_Err d1) as [b1 x1], (ctx_Err d2) as [b2 x2]. cbn in *. by subst b2.
    - destruct got as [[[|] t]|e]; cbn; try done. split; [done|]. unfold confirmRegisterRow. by destruct (Lookup1 _ _), (Lookup2 _ _). }
  specialize (Hdrive s). specialize (same_rows (peer s)). unfold DispatchAgentEvents, ClassifyRegistry.
  destruct (Lookup1 (peer s) cid) as [e1| | |], (Lookup2 (peer s) cid) as [e2| | |]; try done; try destruct (String.eqb (AgentRegistry.e_thumbprint e1) _);
    try destruct (String.eqb (AgentRegistry.e_thumbprint e2) _); done.
Qed.

Lemma runPlan_blind wired env res1 res2 s plan name d1 d2 :
  Agent_ res1 = Agent_ res2 -> Project_ res1 = Project_ res2 -> along d1 d2 ->
  (runPlan react cid wired env res1 s plan name d1).1 = (runPlan react cid wired env res2 s plan name d2).1 /\
  along (runPlan react cid wired env res1 s plan name d1).2 (runPlan react cid wired env res2 s plan name d2).2.
Proof. intros Ha Hp Hd. unfold runPlan. rewrite Ha, Hp. by destruct wired. Qed.

Lemma run_if_blind should wired env res1 res2 plan name sd1 sd2 :
  Agent_ res1 = Agent_ res2 -> Project_ res1 = Project_ res2 -> sd1.1 = sd2.1 -> along sd1.2 sd2.2 ->
  (run_if react cid should wired env res1 plan name sd1).1 = (run_if react cid should wired env res2 plan name sd2).1 /\
  along (run_if react cid should wired env res1 plan name sd1).2 (run_if react cid should wired env res2 plan name sd2).2.
Proof. intros Ha Hp Hs Hd. unfold run_if. destruct should as [[|]|]; [|by split|by split]. rewrite Hs. by apply runPlan_blind. Qed.

Lemma drain_blind (s : Stream P) late d1 d2 :
  along d1 d2 -> (drainStream s late d1).1 = (drainStream s late d2).1 /\ along (drainStream s late d1).2 (drainStream s late d2).2.
Proof.
  intros Hd. unfold drainStream. generalize (@nil Response) as got. induction (inbox s ++ late) as [|x inb IH]; intros got; cbn [drain_loop]; [done|].
  destruct (along_ctx _ _ Hd) as [Hb Hd']. destruct x as [r| |e|]; [apply IH|done| |];
    (destruct (ctx_Err d1) as [b1 x1], (ctx_Err d2) as [b2 x2]; cbn in *; by subst b2).
Qed.

Lemma hold_blind wired c1 c2 res1 res2 s d1 d2 :
  same_cycle c1 c2 -> anonymous res1 = anonymous res2 -> along d1 d2 ->
  (hold_session react Lookup1 query_error1 texts cid wired c1 res1 s d1).1 = (hold_session react Lookup2 query_error2 texts cid wired c2 res2 s d2).1 /\
  along (hold_session react Lookup1 query_error1 texts cid wired c1 res1 s d1).2 (hold_session react Lookup2 query_error2 texts cid wired c2 res2 s d2).2.
Proof.
  intros [_ _ Ht Hi Hb Hco Him Hla _] [= Ha1 Ha2 Ha3 Ha4 Ha5 Ha6] Hd. unfold hold_session. rewrite <- Ht, <- Hi, <- Hb, <- Hco, <- Him, <- Hla, <- Ha1.
  assert (along (PublishConnected cid d1 (Agent_ res1) (Project_ res1) (Addr_ res1) (Attempt_ res1) (PeerInfo_ res1))
    (PublishConnected cid d2 (Agent_ res2) (Project_ res2) (Addr_ res2) (Attempt_ res2) (PeerInfo_ res2))) as H1 by (unfold PublishConnected; auto).
  revert H1. generalize (PublishConnected cid d1 (Agent_ res1) (Project_ res1) (Addr_ res1) (Attempt_ res1) (PeerInfo_ res1)) as x1.
  generalize (PublishConnected cid d2 (Agent_ res2) (Project_ res2) (Addr_ res2) (Attempt_ res2) (PeerInfo_ res2)) as x2. intros x2 x1 Hx.
  destruct (dispatch_blind res1 res2 (c_timeout c1) s x1 x2 Hx) as [E1 E2]. revert E1 E2.
  generalize (DispatchAgentEvents react Lookup1 query_error1 cid res1 (c_timeout c1) s x1) as u1, (DispatchAgentEvents react Lookup2 query_error2 cid res2 (c_timeout c1) s x2) as u2.
  intros u1 u2 E1 E2. destruct (run_if_blind (Executor.shouldAgentInit (HelloAck_ res1)) wired (c_init c1) res1 res2 (Executor.InitPlan texts) "init" u1 u2) as [F1 F2]; [done..|].
  revert F1 F2. generalize (run_if react cid (Executor.shouldAgentInit (HelloAck_ res1)) wired (c_init c1) res1 (Executor.InitPlan texts) "init" u1) as v1,
    (run_if react cid (Executor.shouldAgentInit (HelloAck_ res1)) wired (c_init c1) res2 (Executor.InitPlan texts) "init" u2) as v2. intros v1 v2 F1 F2.
  match goal with |- context [run_if react cid ?sh wired ?e res1 ?pl ?nm v1] =>
    destruct (run_if_blind sh wired e res1 res2 pl nm v1 v2 Ha2 Ha3 F1 F2) as [G1 G2];
    destruct (run_if react cid sh wired e res1 pl nm v1) as [s4 w1], (run_if react cid sh wired e res2 pl nm v2) as [s4' w2] end.
  cbn in G1, G2. subst s4'. apply drain_blind. by destruct (Executor.agentInitBypassed _).
Qed.

Lemma runDial_blind wired l1 l2 count p d1 d2 logs :
  Forall2 same_cycle l1 l2 -> along d1 d2 ->
  let r1 := runDial react Lookup1 query_error1 Parse1 Verify1 Sum1 texts cid wired l1 count p d1 logs in
  let r2 := runDial react Lookup2 query_error2 Parse2 Verify2 Sum2 texts cid wired l2 count p d2 logs in
  returned r1 = returned r2 /\ ds_logs r1 = ds_logs r2 /\ ds_peer r1 = ds_peer r2.
Proof.
  intros Hl. revert d1 d2.
  revert count p logs. induction Hl as [|c1 c2 l1 l2 Hc Hl IH]; intros count p logs d1 d2 Hd; cbn [runDial]; [done|].
  apply along_ctx in Hd as [Hb Hd]. destruct (ctx_Err d1) as [b1 x1], (ctx_Err d2) as [b2 x2]. cbn in Hb, Hd. subst b2. destruct b1; [done|].
  unfold establishWithRetry. rewrite <- (sc_start _ _ Hc).
  pose proof (establish_blind (c_attempts c1) (c_attempts c2) 1 (c_start c1 + connectTotalTimeout) connectInitialBackoff false p x1 x2 (sc_attempts _ _ Hc) Hd) as He.
  destruct (establish_from react Parse1 _ _ _ _ _ _ _ _ _ _) as [[r1 p1] y1], (establish_from react Parse2 _ _ _ _ _ _ _ _ _ _) as [[r2 p2] y2].
  destruct He as (Hr & -> & Hy). destruct r1 as [[res1 o1]|], r2 as [[res2 o2]|]; try done. destruct Hr as [Hres <-]. destruct o1 as [s|].
  - destruct (hold_blind wired c1 c2 res1 res2 s y1 y2 Hc Hres Hy) as [H1 H2].
    destruct (hold_session react Lookup1 _ _ _ _ _ _ _ _) as [[dr1 s1] z1], (hold_session react Lookup2 _ _ _ _ _ _ _ _) as [[dr2 s2] z2].
    cbn in H1, H2. injection H1 as <- <-. rewrite <- (sc_close _ _ Hc). destruct (CloseAndCheckLeak _ _) as [[|] count']; [done|].
    unfold ShouldReconnect. apply along_ctx in H2 as [Hb H2]. destruct (ctx_Err z1) as [b1 w1], (ctx_Err z2) as [b2 w2]. cbn in Hb, H2. subst b2.
    destruct (negb b1 && _); [|done]. cbn [negb]. apply IH. unfold publishBroken. auto.
  - injection Hres as _ _ _ _ _ Ho. rewrite <- Ho. by destruct (Outcome res1).
Qed.

(** What the control plane says to a daemon does not depend on the daemon's
    certificate: with other certificates presented, other verdicts of their chains
    and other registered thumbprints, as long as the same containers have a row, a
    dial returns the same, leaves the other end the same and has the same traffic on
    every session. *)
Theorem sessions_ignore_identity wired l1 l2 count p ctx logs :
  Forall2 same_cycle l1 l2 ->
  let r1 := runDial react Lookup1 query_error1 Parse1 Verify1 Sum1 texts cid wired l1 count p (mkDial ctx []) logs in
  let r2 := runDial react Lookup2 query_error2 Parse2 Verify2 Sum2 texts cid wired l2 count p (mkDial ctx []) logs in
  returned r1 = returned r2 /\ ds_logs r1 = ds_logs r2 /\ ds_peer r1 = ds_peer r2.
Proof. intros Hl. by apply runDial_blind. Qed.

End Blind.

(** The pauses of a cycle are shorter than its backoff, which stays between the
    initial and the greatest one. *)
Lemma backoff_bounded k draw :
  let b := Nat.iter k nextBackoff connectInitialBackoff in
  connectInitialBackoff <= b <= connectMaxBackoff /\ 0 <= backoffSleep draw b < b.
Proof.
  cbn zeta. assert (connectInitialBackoff = 500000000) as Hi by reflexivity. assert (connectMaxBackoff = 10000000000) as Hm by reflexivity.
  assert (connectInitialBackoff <= Nat.iter k nextBackoff connectInitialBackoff <= connectMaxBackoff) as Hb.
  { induction k as [|k IH]; [by vm_compute|]. change (Nat.iter (S k) nextBackoff connectInitialBackoff) with (nextBackoff (Nat.iter k nextBackoff connectInitialBackoff)).
    revert IH. generalize (Nat.iter k nextBackoff connectInitialBackoff) as b. intros b IH. unfold nextBackoff. destruct (Z.ltb_spec connectMaxBackoff (2 * b)); lia. }
  split; [exact Hb|]. unfold backoffSleep. destruct (Z.leb_spec (Nat.iter k nextBackoff connectInitialBackoff) 0); [lia|apply Z.mod_pos_bound; lia].
Qed.

(** ** One goroutine per container *)

(** The calls and clean-ups in any order. *)
Inductive dialer_step : Dialer -> Dialer -> Prop :=
  | step_start d answers : dialer_step d (DialAllRunning answers d)
  | step_dial d ctx_done ev : dialer_step d (subscribeDial d ctx_done ev)
  | step_cancel d ctx_done ev : dialer_step d (SubscribeSessionCancel d ctx_done ev)
  | step_cleanup d h : dialer_step d (dial_cleanup d h).

Record dialer_ok (d : Dialer) : Prop := {
  do_match : forall cid h, Dialing d !! cid = Some h <-> goroutines d !! h = Some cid;
  do_fresh : forall h cid, goroutines d !! h = Some cid -> (h < next_ctx d)%nat;
  do_done : forall h, h ∈ done_ctxs d -> (h < next_ctx d)%nat;
}.

Lemma DialAgent_ok d cid : dialer_ok d -> dialer_ok (DialAgent d cid).
Proof.
  intros [Hm Hf Hd]. unfold DialAgent. destruct (Dialing d !! cid) as [h0|] eqn:E; split; cbn.
  - done.
  - intros h c H. specialize (Hf h c H). lia.
  - intros h [->%elem_of_singleton|H]%elem_of_union; [lia|]. specialize (Hd h H). lia.
  - intros c h. destruct (decide (c = cid)) as [->|Hc].
    + rewrite lookup_insert_eq. split; [intros [= <-]; by rewrite lookup_insert_eq|]. intros [[-> _]|[Hne H]]%lookup_insert_Some; [done|].
      apply Hm in H. congruence.
    + rewrite lookup_insert_ne by done. rewrite Hm. destruct (decide (h = next_ctx d)) as [->|Hh].
      * rewrite lookup_insert_eq. split; [intros H; specialize (Hf _ _ H); lia|congruence].
      * by rewrite lookup_insert_ne.
  - intros h c [[<- _]|[_ H]]%lookup_insert_Some; [lia|]. specialize (Hf h c H). lia.
  - intros h H. specialize (Hd h H). lia.
Qed.
Lemma CancelDial_ok d cid : dialer_ok d -> dialer_ok (CancelDial d cid).
Proof.
  intros [Hm Hf Hd]. unfold CancelDial. destruct (Dialing d !! cid) as [h0|] eqn:E; [|done]. split; cbn; [done|done|].
  intros h [->%elem_of_singleton|H]%elem_of_union; [|by apply Hd]. apply Hm in E. by eapply Hf.
Qed.
Lemma dial_cleanup_ok d h : dialer_ok d -> dialer_ok (dial_cleanup d h).
Proof.
  intros [Hm Hf Hd]. unfold dial_cleanup. destruct (goroutines d !! h) as [cid|] eqn:E; [|done]. split; cbn.
  - intros c h'. rewrite !lookup_delete_Some, Hm. split; intros [Hne H]; split; try done.
    + intros <-. congruence.
    + intros <-. apply Hm in H, E. congruence.
  - intros h' c [_ H]%lookup_delete_Some. by eapply Hf.
  - intros h' [->%elem_of_singleton|H]%elem_of_union; [by eapply Hf|by apply Hd].
Qed.

Lemma dialer_reachable_ok d : rtc dialer_step NewDialer d -> dialer_ok d.
Proof.
  assert (dialer_ok NewDialer) as H0 by (split; cbn; intros *; rewrite ?lookup_empty; set_solver).
  intros H. revert H0. induction H as [|d1 d2 d3 H _ IH]; [done|]. intros H1. apply IH. clear IH.
  inversion H as [d answers|d ctx ev|d ctx ev|d h]; subst.
  - unfold DialAllRunning. destruct (list_running _ answers) as [ids|]; [|done]. clear H. revert d1 H1. induction ids as [|i ids IH]; intros d H1; [done|].
    apply IH. by apply DialAgent_ok.
  - unfold subscribeDial. case_match; [done|by apply DialAgent_ok].
  - unfold SubscribeSessionCancel. case_match; [done|by apply CancelDial_ok].
  - by apply dial_cleanup_ok.
Qed.

(** However the boot-time poll, the Docker events and the ends of dials
    interleave, a container never has two dial goroutines; a dial of a container
    that has none starts one whose context is alive, and a cancel of one that has
    one ends the context of that goroutine and of no other. *)
Theorem one_dial d cid :
  rtc dialer_step NewDialer d ->
  (forall h1 h2, goroutines d !! h1 = Some cid -> goroutines d !! h2 = Some cid -> h1 = h2) /\
  ((forall h, goroutines d !! h <> Some cid) ->
    exists h, goroutines (DialAgent d cid) !! h = Some cid /\ h ∉ done_ctxs (DialAgent d cid)) /\
  (forall h, goroutines d !! h = Some cid -> done_ctxs (CancelDial d cid) = {[h]} ∪ done_ctxs d).
Proof.
  intros [Hm Hf Hd]%dialer_reachable_ok. split_and!.
  - intros h1 h2 H1%Hm H2%Hm. congruence.
  - intros Hn. unfold DialAgent. destruct (Dialing d !! cid) as [h|] eqn:E; [by apply Hm, Hn in E|]. exists (next_ctx d). cbn.
    rewrite lookup_insert_eq. split; [done|]. intros H%Hd. lia.
  - intros h H%Hm. unfold CancelDial. by rewrite H.
Qed.

Definition demo_docker (a : DockerFeeder.Action) : DockerFeeder.Message :=
  DockerFeeder.mkMessage DockerFeeder.ContainerEventType a "abc1" {[AgentStore.LabelPurpose := "agent"]} 0.

Lemma one_dial_witness :
  let d := subscribeDial NewDialer false (demo_docker DockerFeeder.ActionStart) in
  rtc dialer_step NewDialer d /\ (exists h, goroutines d !! h = Some "abc1") /\ done_ctxs (CancelDial d "abc1") = {[O]} ∪ ∅.
Proof.
  assert (rtc dialer_step NewDialer (subscribeDial NewDialer false (demo_docker DockerFeeder.ActionStart))) as H.
  { eapply rtc_l; [apply (step_dial _ false)|apply rtc_refl]. }
  split; [exact H|]. split; [exists O; by vm_compute|]. apply (one_dial _ "abc1" H). by vm_compute.
Defined.

(** The two subscribers of a restart run on their own goroutines: when the start is
    handled before the cancel of the old session, or before the cancelled goroutine
    cleaned up, the start is taken for a duplicate and the container is left
    without a session. *)
Lemma restart_loses_session :
  let up := subscribeDial NewDialer false (demo_docker DockerFeeder.ActionStart) in
  let die d := SubscribeSessionCancel d false (demo_docker DockerFeeder.ActionDie) in
  let start d := subscribeDial d false (demo_docker DockerFeeder.ActionStart) in
  goroutines (dial_cleanup (die (start up)) 0) = ∅ /\ goroutines (dial_cleanup (start (die up)) 0) = ∅ /\
  goroutines (start (dial_cleanup (die up) 0)) = {[1%nat := "abc1"]}.
Proof. by vm_compute. Qed.

(** A kill event cancels the session also when the signal is one the container
    survives. *)
Lemma kill_event_cancels d : SubscribeSessionCancel d false (demo_docker DockerFeeder.ActionKill) = CancelDial d "abc1".
Proof. done. Qed.

(** ** A concrete dial *)

(** An agent that registers when it is asked to and runs what it is sent. *)
Definition demo_peer (p : AgentRegistry.memRegistry) (c : Command) : result string (AgentRegistry.memRegistry * list recv) :=
  match CommandPayload c with
  | Hello => Ok (p, [Frame (mkResponse "hello" (RHelloAck (mkHelloAck false false)))])
  | RegisterRequired =>
      Ok (default p (AgentRegistry.mem_add p (AgentRegistry.mkEntry "dev" "web" "abc1" (AgentRegistry.repeat_char "x" 32) 5 5)),
          [Frame (mkResponse (CommandId c) (RegisterDone true ""))])
  | CloseStdin => Ok (p, [])
  | _ => Ok (p, [Frame (mkResponse (CommandId c) (Done 0))])
  end.
Definition demo_container : Container :=
  mkContainer (Some (true, "running")) (Some (<[AgentIdentity.LabelAgent := "dev"]> {[AgentIdentity.LabelProject := "web"]}))
    (Some {[Network := Some (GoNet.Addr4 [172; 20; 0; 7])]}).
Definition demo_attempt (certs : list string) : attempt (P := AgentRegistry.memRegistry) :=
  mkAttempt id (Ok demo_container) (Opened certs []) 0 0.
Definition gone_attempt : attempt (P := AgentRegistry.memRegistry) := mkAttempt id (Err ErrNotFound) (DialErr "") 0 0.
Definition demo_cycle (a : attempt) : cycle (P := AgentRegistry.memRegistry) := mkCycle 0 [a] None Executor.demo_env Executor.demo_env None (fun _ => None) [EOF] false.
Definition demo_parse (raw : string) : result string AgentIdentity.Cert := Ok (AgentIdentity.mkCert "" [] raw).
Definition demo_verify (c : AgentIdentity.Cert) (_ : list AgentIdentity.Cert) : result string unit :=
  if String.eqb (AgentIdentity.Raw c) "good" then Ok tt else Err "unknown authority".
Definition demo_dial (cycles : list cycle) : dial_state (P := AgentRegistry.memRegistry) :=
  runDial demo_peer AgentRegistry.mem_lookup "io" demo_parse demo_verify AgentRegistry.demo_sha Executor.demo_scripts "abc1" true cycles 0 ∅ (mkDial None []) [].

Example demo_address : clawkerNetAddr demo_container = Some "172.20.0.7:7700".
Proof. vm_compute. reflexivity. Qed.

(** The same dial, cancelled after a number of looks at its context. *)
Definition demo_cancelled (k : nat) : dial_state (P := AgentRegistry.memRegistry) :=
  runDial demo_peer AgentRegistry.mem_lookup "io" demo_parse demo_verify AgentRegistry.demo_sha Executor.demo_scripts "abc1" true
    [demo_cycle (demo_attempt ["good"]); demo_cycle gone_attempt] 0 ∅ (mkDial (Some k) []) [].

(** A session that breaks and a container that is gone at the next attempt, and the
    same cancelled after two looks at the context. *)
Lemma dial_lifecycle_witness :
  let r := demo_dial [demo_cycle (demo_attempt ["good"]); demo_cycle gone_attempt] in
  returned r = true /\ session_of "abc1" (Executor.observe ∅ (d_events (ds_dial r))) = AgentStore.StatusFailed /\
  (length (sessions (d_events (ds_dial (demo_cancelled 2)))) <= 2)%nat.
Proof.
  split; [by vm_compute|]. split.
  - destruct (dial_lifecycle demo_peer AgentRegistry.mem_lookup "io" demo_parse demo_verify AgentRegistry.demo_sha Executor.demo_scripts "abc1" true
      [demo_cycle (demo_attempt ["good"]); demo_cycle gone_attempt] ∅ None ∅ _ ltac:(done) (Executor.observe_observed _ _)) as (st & _ & H & Hf & _).
    destruct Hf as [-> Hne]; [by vm_compute|done|]. rewrite decide_False in H by exact Hne. exact H.
  - destruct (dial_lifecycle demo_peer AgentRegistry.mem_lookup "io" demo_parse demo_verify AgentRegistry.demo_sha Executor.demo_scripts "abc1" true
      [demo_cycle (demo_attempt ["good"]); demo_cycle gone_attempt] ∅ (Some 2%nat) ∅ _ ltac:(done) (Executor.observe_observed _ _)) as (st & _ & _ & _ & H).
    by apply H.
Defined.

Definition demo_session : EstablishResult := mkEstablish (Some (mkHelloAck false false)) "dev" "web" "172.20.0.7:7700" 1 OutcomeSuccess no_peer.
Definition demo_dispatch : Stream AgentRegistry.memRegistry * dial :=
  DispatchAgentEvents demo_peer AgentRegistry.mem_lookup "io" "abc1" demo_session None (mkStream ∅ [] [] false) (mkDial None []).

(** A first registration. *)
Lemma trust_reported_witness :
  let m := Executor.observe ∅ (d_events demo_dispatch.2) in
  (verdict (state_of "abc1" m) true AgentStore.trusted /\ (exists e, AgentRegistry.mem_lookup (peer demo_dispatch.1) "abc1" = AgentRegistry.Found e) /\
   exists e, Rx (mkResponse "register-abc1" (RegisterDone true e)) ∈ log demo_dispatch.1) \/
  verdict (state_of "abc1" m) false (AgentStore.Untrust ReasonRegisterFailed).
Proof.
  pose proof (trust_reported demo_peer AgentRegistry.mem_lookup "io" "abc1" demo_session None (mkStream ∅ [] [] false) None ∅
    (Executor.observe ∅ (d_events demo_dispatch.2)) demo_dispatch.1 demo_dispatch.2 ltac:(done) (surjective_pairing _) (Executor.observe_observed _ _)) as H.
  cbn [peer] in H. replace (AgentRegistry.mem_lookup ∅ "abc1") with AgentRegistry.UnknownAgent in H by reflexivity. exact H.
Defined.

(** A certificate of the pool and a foreign one. *)
Lemma sessions_ignore_identity_witness :
  let dial certs := demo_dial [demo_cycle (demo_attempt certs); demo_cycle gone_attempt] in
  d_events (ds_dial (dial ["good"])) <> [] /\ ds_logs (dial ["good"]) = ds_logs (dial ["bad"; "other"]) /\ length (ds_logs (dial ["good"])) = 1%nat.
Proof.
  split; [by vm_compute|]. split; [|by vm_compute].
  apply (sessions_ignore_identity demo_peer AgentRegistry.mem_lookup AgentRegistry.mem_lookup "io" "io" demo_parse demo_parse demo_verify demo_verify
    AgentRegistry.demo_sha AgentRegistry.demo_sha Executor.demo_scripts "abc1" (fun _ => eq_refl) true
    [demo_cycle (demo_attempt ["good"]); demo_cycle gone_attempt] [demo_cycle (demo_attempt ["bad"; "other"]); demo_cycle gone_attempt] 0 ∅ None []).
  repeat constructor.
Defined.

(** An agent marked untrusted by a registry that could not be read stays so after
    a session whose certificate matches the registered one. *)
Lemma match_keeps_distrust :
  let down _ _ := AgentRegistry.QueryFailed in
  let entry := AgentRegistry.mkEntry "dev" "web" "abc1" (AgentRegistry.repeat_char "x" 32) 5 5 in
  let res := mkEstablish None "dev" "web" "" 1 OutcomeSuccess (mkPeerInfo "" (AgentRegistry.repeat_char "x" 32) true "") in
  let dispatch lookup := d_events (DispatchAgentEvents demo_peer lookup "io" "abc1" res None (mkStream {[AgentRegistry.e_thumbprint entry := entry]} [] [] false) (mkDial None [])).2 in
  let m := Executor.observe ∅ (dispatch down ++ dispatch AgentRegistry.mem_lookup) in
  ClassifyRegistry AgentRegistry.mem_lookup "io" "abc1" {[AgentRegistry.e_thumbprint entry := entry]} (AgentRegistry.repeat_char "x" 32) = (OutcomeRegistryMatch, "") /\
  AgentStore.s_trust (state_of "abc1" m) = AgentStore.mkTrust true ReasonCertInvalid /\ AgentStore.s_registered (state_of "abc1" m) = false.
Proof. by vm_compute. Qed.

(** The boot plan is run after an init plan that failed: an agent whose init step
    fails and whose container cannot be killed is told to start its command. *)
Lemma boot_after_failed_init :
  let fails (p : unit) (c : Command) : result string (unit * list recv) :=
    match CommandPayload c with
    | CloseStdin => Ok (p, [])
    | _ => Ok (p, [Frame (mkResponse (CommandId c) (if String.eqb (CommandId c) "init-abc1-git-2" then Done 1 else Done 0))])
    end in
  let env := Executor.mkExecEnv false (Some "no such container") (fun _ => None) (fun _ => None) in
  let c := mkCycle 0 [] None env env None (fun _ => None) [EOF] false in
  let lookup _ _ := AgentRegistry.QueryFailed in
  let '(_, s, _) := hold_session fails lookup "io" Executor.demo_scripts "abc1" true c demo_session (mkStream tt [] [] false) (mkDial None []) in
  existsb (fun x => match x with Tx c => match CommandPayload c with AgentInitialized => true | _ => false end | _ => false end) (log s) = false /\
  existsb (fun x => match x with Tx c => match CommandPayload c with AgentReady _ => true | _ => false end | _ => false end) (log s) = true.
Proof. by vm_compute. Qed.

End DialerSpec.
