(* ===== verification/Supervisor.v ===== *)
(** * The supervisor of the user's command

    clawkerd/spawn.go and spawn_unix.go: the daemon is PID 1 of its container;
    it forks the user's command once, reaps it, then drains the orphans left
    behind and exits with the command's status.  What the kernel answers
    (lookups, forks, [wait4]) is an input; goroutines are steps that interleave. *)

From S2P Require Import Prelude GoStrings.
Import Go.

Module Supervisor.

(** ** Exit statuses *)

Inductive WaitStatus := Exited (status : Z) | Signaled (sig : Z) | OtherStatus.

(** [None] is a nil state; [ExitCode] of a process that neither exited nor was
    signalled is -1. *)
Definition mapExitCode (state : option WaitStatus) : Z :=
  match state with
  | None => 1
  | Some (Signaled s) => 128 + s
  | Some (Exited n) => n
  | Some OtherStatus => 1
  end.
Definition mapWaitStatus (ws : WaitStatus) : Z :=
  match ws with Signaled s => 128 + s | Exited n => n | OtherStatus => 1 end.

(** ** The command and its environment *)

Record ExecUser := mkExecUser { u_name : string; u_uid : Z; u_gid : Z; u_groups : list Z; u_home : string }.

Definition user_overrides (u : ExecUser) : gmap string string :=
  let o : gmap string string := if String.eqb (u_home u) "" then ∅ else {["HOME" := u_home u]} in
  if String.eqb (u_name u) "" then o else <["LOGNAME" := u_name u]> (<["USER" := u_name u]> o).

(** An entry whose name is overridden. *)
Definition overridden (o : gmap string string) (e : string) : bool :=
  match Cut "=" e with None => false | Some (key, _) => bool_decide (is_Some (o !! key)) end.

Definition envForUser (env : list string) (user : option ExecUser) : list string :=
  match user with
  | None => env
  | Some u =>
      let o := user_overrides u in
      if bool_decide (o = ∅) then env
      else filter (fun e => overridden o e = false) env ++ ((fun kv => kv.1 +:+ "=" +:+ kv.2) <$> map_to_list o)
  end.

(** The routed arguments, the path found without a rewrite, and whether the
    rewrite was caused by a failed lookup. *)
Definition routeArgs (argv : list string) (lookPath : string -> option string) (defaultCmd : string) : list string * string * bool :=
  match argv with
  | [] => (argv, "", false)
  | first :: _ =>
      if String.eqb defaultCmd "" then (argv, "", false)
      else if HasPrefix first "-" then (defaultCmd :: argv, "", false)
      else match lookPath first with None => (defaultCmd :: argv, "", true) | Some p => (argv, p, false) end
  end.

Record Credential := mkCredential { cr_uid : Z; cr_gid : Z; cr_groups : list Z }.
Record SysProcAttr := mkAttr { Setpgid : bool; Foreground : bool; Ctty : Z; cred : option Credential }.
Definition buildSysProcAttr (user : option ExecUser) (cttyFd : Z) : SysProcAttr :=
  mkAttr true (0 <=? cttyFd) (if 0 <=? cttyFd then cttyFd else 0)
    (match user with None => None | Some u => Some (mkCredential (u_uid u) (u_gid u) (u_groups u)) end).

(** ** The spawn *)

Record spawnConfig := mkSpawnConfig { argv : list string; cfg_env : list string; cfg_user : option ExecUser; cfg_tty : bool; cfg_log : bool; defaultCmd : string }.
Inductive spawn_error := ErrNoLogger | ErrEmptyArgv | ErrLookup (name : string) | ErrStart (path : string) | ErrGetpgid (pid : Z).

(** What is forked. *)
Record child := mkChild { ch_path : string; ch_args : list string; ch_env : list string; ch_attr : SysProcAttr }.

(** The kernel's answers: lookups, the pid of a fork, the group of a pid. *)
Record kernel := mkKernel { lookPath : string -> option string; fork : child -> option Z; getpgid : Z -> option Z }.

(** The pid and the group, or an error, and the child if one was forked; a child
    whose group cannot be read is killed and reaped. *)
Definition runOnce (k : kernel) (cfg : spawnConfig) : result spawn_error (Z * Z) * option child :=
  if negb (cfg_log cfg) then (Err ErrNoLogger, None)
  else if bool_decide (argv cfg = []) then (Err ErrEmptyArgv, None)
  else
    let '(routed, resolved, _) := routeArgs (argv cfg) (lookPath k) (defaultCmd cfg) in
    let name := default "" (head routed) in
    let resolved :=
      if negb (String.eqb resolved "") then Some resolved
      else if Go.Contains name "/" then Some name else lookPath k name in
    match resolved with
    | None => (Err (ErrLookup name), None)
    | Some path =>
        let c := mkChild path routed (envForUser (cfg_env cfg) (cfg_user cfg)) (buildSysProcAttr (cfg_user cfg) (if cfg_tty cfg then 0 else -1)) in
        match fork k c with
        | None => (Err (ErrStart path), None)
        | Some pid => match getpgid k pid with None => (Err (ErrGetpgid pid), Some c) | Some pgid => (Ok (pid, pgid), Some c) end
        end
    end.

Inductive gate := MainExited | OrphanDrain | Done_.
Inductive supervisor_error := ReaperPanicked | WatchdogPanicked | NoMainPid | AlreadyReaped (pid : Z) | WaitBudget (e : string) | DrainBudget (e : string) | Unreaped.

(** [closed] are the gates in the order they were closed; [forked] the children
    forked so far and [signalled] the signals sent, oldest first. *)
Record spawnState := mkSpawn {
  runEntered : bool; runDone : bool; spawnErr : option spawn_error; reaperErr : option supervisor_error; proc : option Z; pgid : Z;
  finalWS : option WaitStatus; closed : list gate; stopped : bool; forked : list child; signalled : list (Z * Z);
}.
Definition NewSpawnState : spawnState := mkSpawn false false None None None 0 None [] false [] [].

#[global] Instance gate_eq_dec : EqDecision gate.
Proof. solve_decision. Defined.

Definition close_gate (g : gate) (s : spawnState) : spawnState :=
  if bool_decide (g ∈ closed s) then s
  else mkSpawn (runEntered s) (runDone s) (spawnErr s) (reaperErr s) (proc s) (pgid s) (finalWS s) (closed s ++ [g]) (stopped s) (forked s) (signalled s).
Definition closeMainExitedCh : spawnState -> spawnState := close_gate MainExited.
Definition BeginOrphanDrain : spawnState -> spawnState := close_gate OrphanDrain.
Definition closeDoneCh : spawnState -> spawnState := close_gate Done_.
Definition closeAllGates (s : spawnState) : spawnState := closeDoneCh (BeginOrphanDrain (closeMainExitedCh s)).

Definition setReaperErr (e : supervisor_error) (s : spawnState) : spawnState :=
  match reaperErr s with
  | Some _ => s
  | None => mkSpawn (runEntered s) (runDone s) (spawnErr s) (Some e) (proc s) (pgid s) (finalWS s) (closed s) (stopped s) (forked s) (signalled s)
  end.
Definition set_final (ws : WaitStatus) (s : spawnState) : spawnState :=
  mkSpawn (runEntered s) (runDone s) (spawnErr s) (reaperErr s) (proc s) (pgid s) (Some ws) (closed s) (stopped s) (forked s) (signalled s).
Definition kill (target sig : Z) (s : spawnState) : spawnState :=
  mkSpawn (runEntered s) (runDone s) (spawnErr s) (reaperErr s) (proc s) (pgid s) (finalWS s) (closed s) (stopped s) (forked s) (signalled s ++ [(target, sig)]).

(** The winner of the swap runs once and publishes the outcome. *)
Definition enter (s : spawnState) : spawnState :=
  mkSpawn true (runDone s) (spawnErr s) (reaperErr s) (proc s) (pgid s) (finalWS s) (closed s) (stopped s) (forked s) (signalled s).
Definition run_winner (k : kernel) (cfg : spawnConfig) (s : spawnState) : option spawn_error * spawnState :=
  let '(r, c) := runOnce k cfg in
  let forked := forked s ++ match c with Some c => [c] | None => [] end in
  match r with
  | Ok (pid, pg) => (None, mkSpawn (runEntered s) true None (reaperErr s) (Some pid) pg (finalWS s) (closed s) (stopped s) forked (signalled s))
  | Err e => (Some e, closeAllGates (mkSpawn (runEntered s) true (Some e) (reaperErr s) (proc s) (pgid s) (finalWS s) (closed s) (stopped s) forked (signalled s)))
  end.

(** The state after a panic of the call that runs the spawn, before it forked: the
    deferred close lets the others through, with no error to tell them of. *)
Definition run_panicked (s : spawnState) : spawnState :=
  mkSpawn true true None (reaperErr s) (proc s) (pgid s) (finalWS s) (closed s) (stopped s) (forked s) (signalled s).

Inductive run_result := Spawned_ | AlreadySpawned | SpawnFailed (e : spawn_error).
(** What a caller that lost the swap returns once the winner is done. *)
Definition run_loser (s : spawnState) : run_result := match spawnErr s with Some e => SpawnFailed e | None => AlreadySpawned end.

(** A call that meets no other; [None]: it waits for the winner. *)
Definition Run (k : kernel) (cfg : spawnConfig) (s : spawnState) : option (run_result * spawnState) :=
  if runEntered s then if runDone s then Some (run_loser s, s) else None
  else let '(e, s) := run_winner k cfg (enter s) in Some (match e with None => Spawned_ | Some e => SpawnFailed e end, s).

Definition Spawned (s : spawnState) : bool := bool_decide (is_Some (proc s)).

(** [None]: it blocks. *)
Definition Wait (s : spawnState) : option Z :=
  if negb (Spawned s) then Some 1
  else if bool_decide (Done_ ∈ closed s) then Some (match finalWS s with None => 1 | Some ws => mapWaitStatus ws end)
  else None.

Definition SpawnErr (s : spawnState) : option (spawn_error + supervisor_error) :=
  match spawnErr s with Some e => Some (inl e) | None => inr <$> reaperErr s end.

Definition SIGTERM : Z := 15.
Definition SIGKILL : Z := 9.

(** The first call signals the group; a watchdog may kill it later. *)
Definition Stop (s : spawnState) : spawnState :=
  match proc s with
  | None => s
  | Some _ =>
      if stopped s then s
      else
        let s := kill (- pgid s) SIGTERM s in
        mkSpawn (runEntered s) (runDone s) (spawnErr s) (reaperErr s) (proc s) (pgid s) (finalWS s) (closed s) true (forked s) (signalled s)
  end.
Definition runStopWatchdog (s : spawnState) (panics : bool) : spawnState :=
  if panics then closeAllGates (kill (- pgid s) SIGKILL (setReaperErr WatchdogPanicked s))
  else if bool_decide (Done_ ∈ closed s) then s else kill (- pgid s) SIGKILL s.

(** ** The reaper *)

(** An answer of [wait4] with [WNOHANG]: [WNone] is pid 0. *)
Inductive wait4 := WEINTR | WECHILD | WErr (e : string) | WNone | WPid (ws : WaitStatus).

Definition reaperRetryBudget : Z := 32.
Definition orphanDrainRetryBudget : Z := 32.

(** Where the reaper is: waiting for the main child after some failures in a row;
    waiting for the gate or draining, after some failures in a row and with what
    it has signalled; or gone. *)
Inductive reaper := NotStarted | Phase1 (retries : Z) | Phase2 (drainErrs : Z) (termSent killSent : bool) | Ended.

(** The start of the reaper. *)
Definition runReaper (s : spawnState) : spawnState * reaper :=
  match proc s with
  | None => (closeAllGates (setReaperErr NoMainPid s), Ended)
  | Some _ => (s, Phase1 0)
  end.

(** One [wait4] on the main child. *)
Definition reap_round (a : wait4) (retries : Z) (s : spawnState) : spawnState * reaper :=
  match a with
  | WEINTR => (s, Phase1 retries)
  | WECHILD => (closeAllGates (setReaperErr (AlreadyReaped (default 0 (proc s))) s), Ended)
  | WErr e =>
      if reaperRetryBudget <=? retries + 1 then (closeAllGates (setReaperErr (WaitBudget e) s), Ended) else (s, Phase1 (retries + 1))
  | WPid ws => (closeMainExitedCh (set_final ws s), Phase2 0 false false)
  | WNone => (s, Phase1 0)
  end.

(** Whether no child is left, and an error; [None]: the answers end first. *)
Fixpoint drainOrphans (answers : list wait4) : option (bool * option string) :=
  match answers with
  | [] => None
  | (WEINTR | WPid _) :: answers => drainOrphans answers
  | WECHILD :: _ => Some (true, None)
  | WErr e :: _ => Some (false, Some e)
  | WNone :: _ => Some (false, None)
  end.

(** What wakes the loop. *)
Inductive wake := Tick | Escalate.
#[global] Instance wake_eq_dec : EqDecision wake.
Proof. solve_decision. Defined.

(** One round of the second phase. *)
Definition drain_round (drained : bool) (err : option string) (w : wake) (drainErrs : Z) (termSent killSent : bool) (s : spawnState) : spawnState * reaper :=
  let errs := match err with Some _ => drainErrs + 1 | None => 0 end in
  match (if orphanDrainRetryBudget <=? errs then err else None) with
  | Some e => (closeAllGates (setReaperErr (DrainBudget e) s), Ended)
  | None =>
      if drained then (closeDoneCh s, Ended)
      else
        match w with
        | Tick => (s, Phase2 errs termSent killSent)
        | Escalate =>
            if negb termSent then (kill (-1) SIGTERM s, Phase2 errs true killSent)
            else if negb killSent then (kill (-1) SIGKILL s, Phase2 errs termSent true)
            else (closeAllGates (setReaperErr Unreaped s), Ended)
        end
  end.

(** The loop, on what it meets in each round. *)
Fixpoint drain_phase (rounds : list (bool * option string * wake)) (x : spawnState * reaper) : spawnState * reaper :=
  match rounds, x.2 with
  | (drained, err, w) :: rounds, Phase2 n t k => drain_phase rounds (drain_round drained err w n t k x.1)
  | _, _ => x
  end.

(** The reaper that panics in either phase. *)
Definition reaper_panic (s : spawnState) : spawnState * reaper := (closeAllGates (setReaperErr ReaperPanicked s), Ended).

(** ** The supervisor as a system *)

(** The callers of [Run], by name, and the reaper. *)
Inductive caller := Winner | Loser | Answered (r : run_result).
Record system := mkSystem { sup : spawnState; callers : gmap nat caller; reap : reaper }.
Definition initial : system := mkSystem NewSpawnState ∅ NotStarted.
Definition with_reaper (y : system) (x : spawnState * reaper) : system := mkSystem x.1 (callers y) x.2.
Definition with_sup (y : system) (s : spawnState) : system := mkSystem s (callers y) (reap y).

Inductive step : system -> system -> Prop :=
  | step_enter y c : callers y !! c = None -> runEntered (sup y) = false -> step y (mkSystem (enter (sup y)) (<[c := Winner]> (callers y)) (reap y))
  | step_lose y c : callers y !! c = None -> runEntered (sup y) = true -> step y (mkSystem (sup y) (<[c := Loser]> (callers y)) (reap y))
  | step_run y c k cfg e s : callers y !! c = Some Winner -> run_winner k cfg (sup y) = (e, s) ->
      let x := match e with None => runReaper s | Some _ => (s, reap y) end in
      step y (mkSystem x.1 (<[c := Answered (match e with None => Spawned_ | Some e => SpawnFailed e end)]> (callers y)) x.2)
  | step_resume y c : callers y !! c = Some Loser -> runDone (sup y) = true ->
      step y (mkSystem (sup y) (<[c := Answered (run_loser (sup y))]> (callers y)) (reap y))
  | step_reap y a n : reap y = Phase1 n -> step y (with_reaper y (reap_round a n (sup y)))
  | step_drain y answers drained err w n t k : reap y = Phase2 n t k -> OrphanDrain ∈ closed (sup y) -> drainOrphans answers = Some (drained, err) ->
      step y (with_reaper y (drain_round drained err w n t k (sup y)))
  | step_reaper_panic y : reap y <> NotStarted -> reap y <> Ended -> step y (with_reaper y (reaper_panic (sup y)))
  | step_gate y : step y (with_sup y (BeginOrphanDrain (sup y)))
  | step_stop y : step y (with_sup y (Stop (sup y)))
  | step_watchdog y panics : stopped (sup y) = true -> step y (with_sup y (runStopWatchdog (sup y) panics)).

(** ** Invariants *)

(** What the gates and the signals leave alone. *)
Definition core (s : spawnState) : bool * bool * option spawn_error * option Z * option WaitStatus * list child :=
  (runEntered s, runDone s, spawnErr s, proc s, finalWS s, forked s).

Lemma core_gate g s : core (close_gate g s) = core s.
Proof. unfold close_gate. by case_bool_decide. Qed.
Lemma core_all s : core (closeAllGates s) = core s.
Proof. unfold closeAllGates, closeDoneCh, BeginOrphanDrain, closeMainExitedCh. by rewrite !core_gate. Qed.
Lemma core_err e s : core (setReaperErr e s) = core s.
Proof. unfold setReaperErr. by destruct (reaperErr s). Qed.
Lemma core_stop s : core (Stop s) = core s.
Proof. unfold Stop. destruct (proc s) eqn:E; [|done]. destruct (stopped s); [done|]. unfold core. cbn. by rewrite E. Qed.
Lemma core_watchdog s b : core (runStopWatchdog s b) = core s.
Proof. unfold runStopWatchdog. destruct b; [by rewrite core_all; apply core_err|]. by case_bool_decide. Qed.

Lemma closed_gate g g' s : g' ∈ closed (close_gate g s) <-> g' = g \/ g' ∈ closed s.
Proof. unfold close_gate. case_bool_decide; cbn; set_solver. Qed.
Lemma closed_all g s : g ∈ closed (closeAllGates s).
Proof. unfold closeAllGates, closeDoneCh, BeginOrphanDrain, closeMainExitedCh. rewrite !closed_gate. destruct g; auto. Qed.
Lemma closed_err e s : closed (setReaperErr e s) = closed s.
Proof. unfold setReaperErr. by destruct (reaperErr s). Qed.

Lemma SpawnErr_gate g s : SpawnErr (close_gate g s) = SpawnErr s.
Proof. unfold close_gate. by case_bool_decide. Qed.
Lemma SpawnErr_all s : SpawnErr (closeAllGates s) = SpawnErr s.
Proof. unfold closeAllGates, closeDoneCh, BeginOrphanDrain, closeMainExitedCh. by rewrite !SpawnErr_gate. Qed.
Lemma SpawnErr_err e s : SpawnErr (setReaperErr e s) <> None.
Proof. unfold setReaperErr, SpawnErr. destruct (reaperErr s) as [x|] eqn:E; cbn; [rewrite E|]; by destruct (spawnErr s). Qed.

(** The gates: the last one is closed after the other two, and with a status or
    an error to report. *)
Record gates_ok (s : spawnState) : Prop := {
  ok_done : Done_ ∈ closed s -> MainExited ∈ closed s /\ OrphanDrain ∈ closed s;
  ok_reported : Done_ ∈ closed s -> is_Some (finalWS s) \/ SpawnErr s <> None;
}.

Lemma gates_bail e s : gates_ok (closeAllGates (setReaperErr e s)).
Proof. split; [intros _; split; apply closed_all|]. intros _. right. rewrite SpawnErr_all. apply SpawnErr_err. Qed.
Lemma gates_open g s : g <> Done_ -> gates_ok s -> gates_ok (close_gate g s).
Proof.
  intros Hg [H1 H2]. pose proof (core_gate g s) as [= _ _ _ _ Hf _]. split; rewrite !closed_gate.
  - intros [<-|Hd]; [done|]. destruct (H1 Hd). auto.
  - intros [<-|Hd]; [done|]. rewrite Hf, SpawnErr_gate. auto.
Qed.
Lemma gates_finish s : MainExited ∈ closed s -> OrphanDrain ∈ closed s -> is_Some (finalWS s) -> gates_ok (closeDoneCh s).
Proof.
  intros Hm Ho Hf. pose proof (core_gate Done_ s) as [= _ _ _ _ Hc _]. unfold closeDoneCh. split; intros _; [rewrite !closed_gate; auto|]. rewrite Hc. by left.
Qed.
Lemma gates_same s s' : closed s' = closed s -> finalWS s' = finalWS s -> (SpawnErr s <> None -> SpawnErr s' <> None) -> gates_ok s -> gates_ok s'.
Proof. intros Hc Hf He [H1 H2]. split; rewrite Hc; [done|]. rewrite Hf. intros Hd. destruct (H2 Hd); auto. Qed.

(** The callers: one wins; the others answer as it did. *)
Record callers_ok (s : spawnState) (cs : gmap nat caller) : Prop := {
  ok_entered : runEntered s = false -> cs = ∅ /\ runDone s = false;
  ok_pending : runDone s = false -> forked s = [] /\ proc s = None /\ spawnErr s = None /\ finalWS s = None;
  ok_one : forall c1 c2, cs !! c1 = Some Winner -> cs !! c2 = Some Winner -> c1 = c2;
  ok_winner : forall c, cs !! c = Some Winner -> runDone s = false;
  ok_answer : forall c r, cs !! c = Some (Answered r) -> runDone s = true /\
    match r with Spawned_ | AlreadySpawned => spawnErr s = None | SpawnFailed e => spawnErr s = Some e end;
  ok_first : forall c1 c2, cs !! c1 = Some (Answered Spawned_) -> cs !! c2 = Some (Answered Spawned_) -> c1 = c2;
  ok_forked : (length (forked s) <= 1)%nat;
  ok_child : runDone s = true -> (spawnErr s = None <-> is_Some (proc s)) /\ (is_Some (proc s) -> forked s <> []);
}.

Lemma callers_core s s' cs : core s' = core s -> callers_ok s cs -> callers_ok s' cs.
Proof.
  intros [= E1 E2 E3 E4 E5 E6] [H1 H2 H3 H4 H5 H6 H7 H8]. split; rewrite ?E1, ?E2, ?E3, ?E4, ?E5, ?E6; auto.
Qed.

(** The reaper: it exists only once a child does, and past the first phase the
    child's status is known. *)
Record reaper_ok (s : spawnState) (r : reaper) : Prop := {
  ok_started : r <> NotStarted -> is_Some (proc s);
  ok_phase1 : r = NotStarted \/ (exists n, r = Phase1 n) -> finalWS s = None;
  ok_phase2 : forall n t k, r = Phase2 n t k -> MainExited ∈ closed s /\ is_Some (finalWS s);
}.

Record system_ok (y : system) : Prop := {
  ok_gates : gates_ok (sup y); ok_callers : callers_ok (sup y) (callers y); ok_reaper : reaper_ok (sup y) (reap y);
}.

Lemma initial_ok : system_ok initial.
Proof. split; split; cbn; intros *; rewrite ?lookup_empty; try done; try set_solver. Qed.

(** A new caller is no answer and changes no other. *)
Lemma lookup_new (cs : gmap nat caller) c x c' y : cs !! c = None -> <[c := x]> cs !! c' = Some y -> (c' = c /\ y = x) \/ (c' <> c /\ cs !! c' = Some y).
Proof. intros Hc [[<- <-]|[Hne H]]%lookup_insert_Some; auto. Qed.

Lemma callers_enter s cs c : cs !! c = None -> runEntered s = false -> callers_ok s cs -> callers_ok (enter s) (<[c := Winner]> cs).
Proof.
  intros Hc He [H1 H2 H3 H4 H5 H6 H7 H8]. destruct (H1 He) as [-> Hd]. split; cbn; try done.
  - intros c1 c2 [[<- _]|[_ ?]]%lookup_insert_Some [[<- _]|[_ ?]]%lookup_insert_Some; done.
  - intros c1 r [[_ ?]|[_ ?]]%lookup_insert_Some; done.
  - intros c1 c2 [[_ ?]|[_ ?]]%lookup_insert_Some; done.
Qed.
Lemma callers_lose s cs c : cs !! c = None -> runEntered s = true -> callers_ok s cs -> callers_ok s (<[c := Loser]> cs).
Proof.
  intros Hc He [H1 H2 H3 H4 H5 H6 H7 H8]. split; try done; try congruence.
  - intros c1 c2 [[_ ?]|[_ E1]]%lookup_insert_Some [[_ ?]|[_ E2]]%lookup_insert_Some; try done. by apply H3.
  - intros c1 [[_ ?]|[_ E1]]%lookup_insert_Some; [done|]. by eapply H4.
  - intros c1 r [[_ ?]|[_ E1]]%lookup_insert_Some; [done|]. by eapply H5.
  - intros c1 c2 [[_ ?]|[_ E1]]%lookup_insert_Some [[_ ?]|[_ E2]]%lookup_insert_Some; try done. by apply H6.
Qed.
Lemma callers_resume s cs c : cs !! c = Some Loser -> runDone s = true -> callers_ok s cs -> callers_ok s (<[c := Answered (run_loser s)]> cs).
Proof.
  intros Hc Hd [H1 H2 H3 H4 H5 H6 H7 H8]. unfold run_loser. split; try done.
  - intros He. apply H1 in He as [-> _]. by rewrite lookup_empty in Hc.
  - intros c1 c2 [[_ ?]|[_ E1]]%lookup_insert_Some [[_ ?]|[_ E2]]%lookup_insert_Some; try done. by apply H3.
  - intros c1 [[_ ?]|[_ E1]]%lookup_insert_Some; [done|]. by eapply H4.
  - intros c1 r [[_ [= <-]]|[_ E1]]%lookup_insert_Some; [|by eapply H5]. split; [done|]. by destruct (spawnErr s).
  - intros c1 c2 [[_ E]|[_ E1]]%lookup_insert_Some [[_ E']|[_ E2]]%lookup_insert_Some; try (destruct (spawnErr s); done). by apply H6.
Qed.
Lemma callers_run s cs c k cfg e s' :
  cs !! c = Some Winner -> run_winner k cfg s = (e, s') -> callers_ok s cs ->
  callers_ok s' (<[c := Answered (match e with None => Spawned_ | Some e => SpawnFailed e end)]> cs).
Proof.
  intros Hc Hr [H1 H2 H3 H4 H5 H6 H7 H8]. assert (runDone s = false) as Hd by by eapply H4. destruct (H2 Hd) as (Hf & Hp & He & Hw).
  assert (runEntered s = true) as Hen by (destruct (runEntered s) eqn:E; [done|]; destruct (H1 eq_refl) as [-> _]; by rewrite lookup_empty in Hc).
  assert (forall c' r, cs !! c' = Some (Answered r) -> False) as Hno by (intros c' r E; apply H5 in E as [? _]; congruence).
  unfold run_winner in Hr. destruct (runOnce k cfg) as [r ch] eqn:Er. rewrite Hf in Hr.
  assert (forall pid pg, r = Ok (pid, pg) -> is_Some ch) as Hch.
  { intros pid pg ->. unfold runOnce in Er. repeat (case_match; simplify_eq); eauto. }
  assert (core s' = (true, true, e, match r with Ok (pid, _) => Some pid | Err _ => None end, None, match ch with Some x => [x] | None => [] end)) as [= E1 E2 E3 E4 E5 E6].
  { destruct r as [[pid pg]|err]; injection Hr as <- <-; [|rewrite core_all]; unfold core; cbn; by rewrite ?Hen, ?Hw, ?Hp. }
  assert (match e with None => exists pid pg, r = Ok (pid, pg) | Some x => r = Err x end) as Hre.
  { destruct r as [[pid pg]|err]; injection Hr as <- <-; eauto. }
  split; rewrite ?E1, ?E2, ?E3, ?E4, ?E5, ?E6; try done.
  - intros c1 c2 [[_ ?]|[Hn1 F1]]%lookup_insert_Some [[_ ?]|[Hn2 F2]]%lookup_insert_Some; try done. by apply H3.
  - intros c1 [[_ ?]|[Hn F]]%lookup_insert_Some; [done|]. exfalso. by apply Hn, (H3 c c1).
  - intros c1 r1 [[_ [= <-]]|[_ F]]%lookup_insert_Some; [|by apply Hno in F]. split; [done|]. by destruct e.
  - intros c1 c2 [[<- _]|[_ F]]%lookup_insert_Some [[<- _]|[_ F']]%lookup_insert_Some; try done; by apply Hno in F || apply Hno in F'.
  - destruct ch; cbn; lia.
  - intros _. destruct e as [x|].
    + subst r. split; [|by intros [? ?]]. split; [done|by intros [? ?]].
    + destruct Hre as (pid & pg & ->). destruct (Hch pid pg eq_refl) as [x ->]. split; [|done]. split; [eauto|done].
Qed.

Lemma run_winner_gates s k cfg e s' : run_winner k cfg s = (e, s') -> spawnErr s = None -> gates_ok s -> gates_ok s' /\
  match e with None => is_Some (proc s') | Some _ => True end.
Proof.
  intros Hr He Hg. unfold run_winner in Hr. destruct (runOnce k cfg) as [[[pid pg]|err] ch]; injection Hr as <- <-.
  - split; [|by cbn]. eapply gates_same; [..|exact Hg]; try done. unfold SpawnErr. cbn. by rewrite He.
  - split; [|done]. split; [intros _; split; apply closed_all|]. intros _. right. rewrite SpawnErr_all. done.
Qed.

Lemma gates_all_final s : is_Some (finalWS s) -> gates_ok (closeAllGates s).
Proof. intros Hf. split; [intros _; split; apply closed_all|]. intros _. left. pose proof (core_all s) as [= _ _ _ _ Hc _]. by rewrite Hc. Qed.

(** A bail-out of the reaper. *)
Lemma bail_ok e s cs : callers_ok s cs -> is_Some (proc s) -> system_ok (mkSystem (closeAllGates (setReaperErr e s)) cs Ended).
Proof.
  intros Hc Hp. assert (core (closeAllGates (setReaperErr e s)) = core s) as E by (by rewrite core_all; apply core_err). split; cbn.
  - apply gates_bail.
  - by eapply callers_core.
  - injection E as _ _ _ E _ _. split; [by rewrite E|by intros [?|[? ?]]|done].
Qed.

Lemma reap_round_ok y a n : reap y = Phase1 n -> system_ok y -> system_ok (with_reaper y (reap_round a n (sup y))).
Proof.
  intros Hr [Hg Hc [Hs H1 H2]]. assert (is_Some (proc (sup y))) as Hp by (apply Hs; by rewrite Hr). assert (finalWS (sup y) = None) as Hf by (apply H1; eauto).
  assert (forall m, system_ok (mkSystem (sup y) (callers y) (Phase1 m))) as Hstay by (intros m; split; cbn; [done|done|by split]).
  destruct a; cbn [reap_round]; [apply Hstay|by apply bail_ok| |apply Hstay|].
  - destruct (reaperRetryBudget <=? n + 1); [by apply bail_ok|apply Hstay].
  - unfold with_reaper. cbn. pose proof (core_gate MainExited (set_final ws (sup y))) as E. unfold closeMainExitedCh. split; cbn.
    + apply gates_open; [done|]. destruct Hg as [G1 G2]. split; [done|]. intros _. left. by eexists.
    + destruct Hc as [C1 C2 C3 C4 C5 C6 C7 C8]. injection E as E1 E2 E3 E4 E5 E6. split; rewrite ?E1, ?E2, ?E3, ?E4, ?E5, ?E6; cbn; try done.
      intros Hd. destruct (C2 Hd) as (_ & Hn & _). rewrite Hn in Hp. by destruct Hp.
    + injection E as E1 E2 E3 E4 E5 E6. split; [by rewrite E4|by intros [?|[? ?]]|]. intros ? ? ? _. rewrite closed_gate, E5. split; [by left|by eexists].
Qed.

Lemma drain_round_ok y d e w n t k :
  reap y = Phase2 n t k -> OrphanDrain ∈ closed (sup y) -> system_ok y -> system_ok (with_reaper y (drain_round d e w n t k (sup y))).
Proof.
  intros Hr Ho [Hg Hc [Hs H1 H2]]. assert (is_Some (proc (sup y))) as Hp by (apply Hs; by rewrite Hr). destruct (H2 _ _ _ Hr) as [Hm Hf].
  assert (forall s m t k, core s = core (sup y) -> closed s = closed (sup y) -> reaperErr s = reaperErr (sup y) -> system_ok (mkSystem s (callers y) (Phase2 m t k))) as Hstay.
  { intros s m t' k' E1 E2 E3. injection E1 as F1 F2 F3 F4 F5 F6. split; cbn.
    - eapply gates_same; [exact E2|exact F5| |exact Hg]. unfold SpawnErr. by rewrite F3, E3.
    - eapply callers_core; [|exact Hc]. unfold core. congruence.
    - split; [by rewrite F4|by intros [?|[? ?]]|]. intros ? ? ? _. by rewrite E2, F5. }
  unfold drain_round. destruct (if orphanDrainRetryBudget <=? _ then e else None) as [e1|]; [by apply bail_ok|]. destruct d.
  { unfold with_reaper. cbn. pose proof (core_gate Done_ (sup y)) as E. split; cbn; [by apply gates_finish|by eapply callers_core|].
    injection E as _ _ _ E _ _. unfold closeDoneCh. split; [by rewrite E|by intros [?|[? ?]]|done]. }
  destruct w; [by apply Hstay|]. destruct t; cbn [negb]; [|by apply Hstay]. destruct k; cbn [negb]; [by apply bail_ok|by apply Hstay].
Qed.

(** A step that touches gates, signals and errors only. *)
Lemma spawn_side_ok y s : core s = core (sup y) -> closed (sup y) ⊆ closed s -> gates_ok s -> system_ok y -> system_ok (with_sup y s).
Proof.
  intros E Hc Hg [_ Hcs [Hs H1 H2]]. pose proof E as [= E1 E2 E3 E4 E5 E6]. split; cbn; [done|by eapply callers_core|]. split; [by rewrite E4|by rewrite E5|].
  intros n t k Hr. rewrite E5. destruct (H2 n t k Hr) as [Hm Hf]. split; [by apply Hc|done].
Qed.

Lemma closed_all_mono s : closed s ⊆ closed (closeAllGates s).
Proof. intros g _. apply closed_all. Qed.

Lemma spawn_step_ok y y' : step y y' -> system_ok y -> system_ok y'.
Proof.
  intros Hst Hy. destruct Hst as [y c Hc He|y c Hc He|y c k cfg e s Hc Hr|y c Hc Hd|y a n Hr|y answers d e w n t k Hr Ho _|y Hn He|y|y|y panics Hs].
  - destruct Hy as [Hg Hcs [H0 H1 H2]]. split; cbn; [eapply gates_same; [..|exact Hg]; done|by apply callers_enter|by split].
  - destruct Hy as [Hg Hcs Hr]. split; cbn; [done|by apply callers_lose|done].
  - destruct Hy as [Hg Hcs [H0 H1 H2]]. destruct (ok_pending _ _ Hcs (ok_winner _ _ Hcs c Hc)) as (_ & Hp & Hse & Hf).
    destruct (run_winner_gates _ _ _ _ _ Hr Hse Hg) as [Hg' Hpr]. pose proof (callers_run _ _ _ _ _ _ _ Hc Hr Hcs) as Hcs'.
    assert (reap y = NotStarted) as Hns by (destruct (reap y) eqn:E; try done; exfalso; assert (is_Some (proc (sup y))) as [? ?] by (apply H0; done); congruence).
    assert (finalWS s = None) as Hfs.
    { unfold run_winner in Hr. destruct (runOnce k cfg) as [[[pid pg]|err] ch]; injection Hr as <- <-; [done|]. pose proof (core_all (mkSpawn (runEntered (sup y)) true (Some err) (reaperErr (sup y)) (proc (sup y)) (pgid (sup y)) (finalWS (sup y)) (closed (sup y)) (stopped (sup y)) (forked (sup y) ++ match ch with Some c => [c] | None => [] end) (signalled (sup y)))) as [= _ _ _ _ E _]. by rewrite E. }
    destruct e as [e|]; cbn.
    + split; cbn; [done|exact Hcs'|]. rewrite Hns. by split.
    + unfold x, runReaper. destruct (proc s) eqn:Eps; [|by destruct Hpr]. cbn. split; cbn; [done|exact Hcs'|]. split; [by rewrite Eps|by intros _|done].
  - destruct Hy as [Hg Hcs Hr]. split; cbn; [done|by apply callers_resume|done].
  - by apply reap_round_ok.
  - by apply drain_round_ok.
  - destruct Hy as [Hg Hcs [H0 H1 H2]]. apply bail_ok; [done|by apply H0].
  - apply spawn_side_ok; [apply core_gate| |apply gates_open; [done|apply Hy]|done]. intros g Hg. apply closed_gate. by right.
  - assert (closed (Stop (sup y)) = closed (sup y)) as E by (unfold Stop; destruct (proc (sup y)); [|done]; by destruct (stopped (sup y))).
    apply spawn_side_ok; [apply core_stop|by rewrite E| |done]. pose proof (core_stop (sup y)) as [= _ _ _ _ Ef _].
    eapply gates_same; [exact E|exact Ef| |apply Hy]. unfold Stop. destruct (proc (sup y)); [|done]. by destruct (stopped (sup y)).
  - unfold runStopWatchdog. destruct panics.
    + apply spawn_side_ok; [by rewrite core_all; apply core_err| | |done].
      * intros g _. apply closed_all.
      * split; [intros _; split; apply closed_all|]. intros _. right. rewrite SpawnErr_all. apply (SpawnErr_err WatchdogPanicked (sup y)).
    + case_bool_decide; [by destruct y|]. apply spawn_side_ok; [done|done| |done]. eapply gates_same; [..|apply Hy]; done.
Qed.

Lemma spawn_reachable_ok y : rtc step initial y -> system_ok y.
Proof. intros H. assert (system_ok initial) as H0 by apply initial_ok. revert H0. induction H; eauto using spawn_step_ok. Qed.

(** The status of the command, once known, stays. *)
Lemma final_step y y' ws : step y y' -> system_ok y -> finalWS (sup y) = Some ws -> finalWS (sup y') = Some ws.
Proof.
  intros Hst [Hg Hcs [H0 H1 H2]] Hf. destruct Hst as [y c Hc He|y c Hc He|y c k cfg e s Hc Hr|y c Hc Hd|y a n Hr|y answers d e w n t k Hr Ho _|y Hn He|y|y|y panics Hs]; cbn; try done.
  - destruct (ok_pending _ _ Hcs (ok_winner _ _ Hcs c Hc)) as (_ & _ & _ & Hn). congruence.
  - rewrite H1 in Hf by eauto. done.
  - unfold drain_round. destruct (if orphanDrainRetryBudget <=? _ then e else None) as [e1|].
    { pose proof (core_all (setReaperErr (DrainBudget e1) (sup y))) as E. rewrite core_err in E. injection E as _ _ _ _ E _. rewrite <- Hf. exact E. }
    destruct d; [pose proof (core_gate Done_ (sup y)) as [= _ _ _ _ E _]; rewrite <- Hf; exact E|]. destruct w; [done|].
    destruct t; [destruct k|]; cbn; try done. pose proof (core_all (setReaperErr Unreaped (sup y))) as E. rewrite core_err in E. injection E as _ _ _ _ E _. rewrite <- Hf. exact E.
  - pose proof (core_all (setReaperErr ReaperPanicked (sup y))) as E. rewrite core_err in E. injection E as _ _ _ _ E _. rewrite <- Hf. exact E.
  - pose proof (core_gate OrphanDrain (sup y)) as [= _ _ _ _ E _]. rewrite <- Hf. exact E.
  - pose proof (core_stop (sup y)) as [= _ _ _ _ E _]. rewrite <- Hf. exact E.
  - pose proof (core_watchdog (sup y) panics) as [= _ _ _ _ E _]. rewrite <- Hf. exact E.
Qed.

Lemma final_steps y y' ws : rtc step y y' -> system_ok y -> finalWS (sup y) = Some ws -> finalWS (sup y') = Some ws.
Proof. induction 1 as [|y1 y2 y3 H _ IH]; [done|]. intros Hy Hf. apply IH; [by eapply spawn_step_ok|by eapply final_step]. Qed.

(** C34: However callers of the spawn race, and as long as the spawn itself does not
    panic, the command is forked at most once: one
    caller at most is told that it spawned it; a caller that is told it runs already
    is told so only when the fork succeeded and left a child; and after a fork that
    failed every caller gets its error. *)
Theorem spawn_once y c r :
  rtc step initial y -> callers y !! c = Some (Answered r) ->
  (length (forked (sup y)) <= 1)%nat /\
  (forall c', r = Spawned_ -> callers y !! c' = Some (Answered Spawned_) -> c' = c) /\
  match r with
  | Spawned_ | AlreadySpawned => Spawned (sup y) = true /\ length (forked (sup y)) = 1%nat
  | SpawnFailed e => Spawned (sup y) = false /\ spawnErr (sup y) = Some e
  end.
Proof.
  intros [_ [H1 H2 H3 H4 H5 H6 H7 H8] _]%spawn_reachable_ok Hc. split; [done|]. split; [intros c' -> Hc'; by apply H6|].
  destruct (H5 c r Hc) as [Hd Hr]. destruct (H8 Hd) as [Hp Hf]. unfold Spawned.
  assert (spawnErr (sup y) = None -> bool_decide (is_Some (proc (sup y))) = true /\ length (forked (sup y)) = 1%nat) as Hok.
  { intros Hn%Hp. split; [by case_bool_decide|]. specialize (Hf Hn). destruct (forked (sup y)) as [|x [|]]; cbn in *; [done|done|lia]. }
  destruct r as [| |e]; [by apply Hok|by apply Hok|]. split; [|done]. case_bool_decide as Hs; [|done]. apply Hp in Hs. congruence.
Qed.

(** The daemon reports how its command ended: once the command is reaped,
    nothing that happens later, to orphans, gates or signals, changes the exit code,
    the command's own status or 128 plus its signal; a daemon that stops waiting
    without a status reports 1 and an error. The last gate is closed only after the
    two others. *)
Theorem exit_status y y' :
  rtc step initial y -> rtc step y y' ->
  (forall ws, finalWS (sup y) = Some ws -> Wait (sup y') = None \/ Wait (sup y') = Some (mapWaitStatus ws)) /\
  (Done_ ∈ closed (sup y') -> MainExited ∈ closed (sup y') /\ OrphanDrain ∈ closed (sup y')) /\
  (Spawned (sup y') = true -> finalWS (sup y') = None -> Done_ ∈ closed (sup y') -> Wait (sup y') = Some 1 /\ SpawnErr (sup y') <> None).
Proof.
  intros Hi Hr. assert (system_ok y') as [[G1 G2] Hcs [R1 R2 _]] by (apply spawn_reachable_ok; by trans y).
  split; [|split; [done|]].
  - intros ws Hf. assert (finalWS (sup y') = Some ws) as Hf' by (eapply final_steps; [done|by apply spawn_reachable_ok|done]).
    assert (is_Some (proc (sup y'))) as Hp by (apply R1; intros Hn; rewrite R2 in Hf'; [done|by left]).
    unfold Wait, Spawned. rewrite bool_decide_eq_true_2 by done. cbn [negb]. case_bool_decide; [right|by left]. by rewrite Hf'.
  - intros Hs Hf Hd. unfold Wait. rewrite Hs. cbn [negb]. rewrite bool_decide_eq_true_2 by done. rewrite Hf. split; [done|].
    destruct (G2 Hd) as [[? ?]|?]; [congruence|done].
Qed.

Definition escalations (rounds : list (bool * option string * wake)) : nat := length (filter (fun x => x.2 = Escalate) rounds).

Lemma drain_phase_ended rounds s : drain_phase rounds (s, Ended) = (s, Ended).
Proof. by destruct rounds as [|[[] ?] ?]. Qed.

Lemma drain_phase_spec rounds n (t k : bool) s :
  (k = true -> t = true) ->
  let '(s', r) := drain_phase rounds (s, Phase2 n t k) in
  (exists sent, signalled s' = signalled s ++ sent /\ sent `prefix_of` (if t then if k then [] else [(-1, SIGKILL)] else [(-1, SIGTERM); (-1, SIGKILL)])) /\
  match r with
  | Ended => Done_ ∈ closed s'
  | _ => (escalations rounds + (if t then if k then 2 else 1 else 0) <= 2)%nat
  end.
Proof.
  assert (forall e s, signalled (closeAllGates (setReaperErr e s)) = signalled s) as Hsig.
  { intros e s0. unfold closeAllGates, closeDoneCh, BeginOrphanDrain, closeMainExitedCh, close_gate, setReaperErr. destruct (reaperErr s0); repeat case_bool_decide; done. }
  revert n t k s. induction rounds as [|[[d e] w] rounds IH]; intros n t k s Htk; cbn [drain_phase fst snd].
  { split; [exists []; rewrite app_nil_r; split; [done|apply prefix_nil]|]. destruct t, k; cbn; lia. }
  unfold drain_round. cbn zeta. destruct (if orphanDrainRetryBudget <=? _ then e else None) as [e1|].
  { rewrite drain_phase_ended. split; [|apply closed_all]. exists []. rewrite app_nil_r. split; [apply Hsig|apply prefix_nil]. }
  destruct d.
  { rewrite drain_phase_ended. split; [|apply closed_gate; by left]. exists []. rewrite app_nil_r. split; [|apply prefix_nil]. unfold closeDoneCh, close_gate. by case_bool_decide. }
  unfold escalations in *. destruct w; cbn [snd].
  { rewrite filter_cons_False by done. by apply IH. }
  rewrite filter_cons_True by done. cbn [length]. destruct t; cbn [negb].
  - destruct k; cbn [negb].
    + rewrite drain_phase_ended. split; [|apply closed_all]. exists []. rewrite app_nil_r. split; [apply Hsig|apply prefix_nil].
    + specialize (IH (match e with Some _ => n + 1 | None => 0 end) true true (kill (-1) SIGKILL s) (fun _ => eq_refl)).
      destruct (drain_phase rounds _) as [s' r]. destruct IH as [(sent & Hs & Hp) Hr]. apply prefix_nil_inv in Hp as ->. split.
      * exists [(-1, SIGKILL)]. rewrite Hs, app_nil_r. by cbn.
      * destruct r; try done; lia.
  - destruct k; [by specialize (Htk eq_refl)|].
    specialize (IH (match e with Some _ => n + 1 | None => 0 end) true false (kill (-1) SIGTERM s) (fun _ => eq_refl)).
    destruct (drain_phase rounds _) as [s' r]. destruct IH as [(sent & Hs & Hp) Hr]. split.
    + exists ((-1, SIGTERM) :: sent). rewrite Hs. cbn. rewrite <- app_assoc. split; [done|]. by apply prefix_cons.
    + destruct r; try done; lia.
Qed.

(** C35: The drain of orphans ends: after the third escalation the last gate is
    closed whatever is left, all processes were sent SIGTERM at most once and then
    SIGKILL at most once. *)
Theorem orphan_drain_bounded rounds s :
  let '(s', r) := drain_phase rounds (s, Phase2 0 false false) in
  ((3 <= escalations rounds)%nat -> r = Ended /\ Done_ ∈ closed s') /\
  exists sent, signalled s' = signalled s ++ sent /\ sent `prefix_of` [(-1, SIGTERM); (-1, SIGKILL)].
Proof.
  pose proof (drain_phase_spec rounds 0 false false s (fun H => H)) as H. destruct (drain_phase rounds _) as [s' r]. destruct H as [Hs Hr].
  split; [|done]. intros He. destruct r; try lia. done.
Qed.

(** ** The child's environment *)

Fixpoint getenv (env : list string) (key : string) : option string :=
  match env with
  | [] => None
  | e :: env => match Cut "=" e with Some (k, v) => if String.eqb k key then Some v else getenv env key | None => getenv env key end
  end.

Lemma getenv_app a b key : getenv (a ++ b) key = match getenv a key with Some v => Some v | None => getenv b key end.
Proof. induction a as [|e a IH]; [done|]. cbn. destruct (Cut "=" e) as [[k v]|]; [|done]. by destruct (String.eqb k key). Qed.

Lemma getenv_kept o env key : getenv (filter (fun e => overridden o e = false) env) key = if bool_decide (is_Some (o !! key)) then None else getenv env key.
Proof.
  induction env as [|e env IH]; [by case_bool_decide|]. rewrite filter_cons. destruct (decide (overridden o e = false)) as [Hd|Hd]; cbn [getenv];
    unfold overridden in Hd; destruct (Cut "=" e) as [[k v]|]; rewrite ?IH; try done.
  - destruct (String.eqb_spec k key) as [->|]; [by rewrite Hd|done].
  - destruct (String.eqb_spec k key) as [->|]; [|done]. case_bool_decide; [done|by destruct Hd].
Qed.

Lemma getenv_pairs (l : list (string * string)) key :
  Forall (fun kv => Cut "=" (kv.1 +:+ "=" +:+ kv.2) = Some kv) l ->
  getenv ((fun kv => kv.1 +:+ "=" +:+ kv.2) <$> l) key = (list_to_map l : gmap string string) !! key.
Proof.
  induction 1 as [|[k v] l Hkv _ IH]; [done|]. rewrite list_to_map_cons. cbn [fst snd] in Hkv. cbn [fmap list_fmap getenv fst snd]. rewrite Hkv.
  destruct (String.eqb_spec k key) as [->|Hk]; [by rewrite lookup_insert_eq|]. by rewrite lookup_insert_ne.
Qed.

Lemma overrides_keys u k v : user_overrides u !! k = Some v -> k = "HOME" \/ k = "USER" \/ k = "LOGNAME".
Proof.
  unfold user_overrides. destruct (String.eqb (u_home u) ""), (String.eqb (u_name u) ""); intros H; rewrite ?lookup_empty in H; try done;
    repeat (apply lookup_insert_Some in H as [[<- _]|[_ H]]; [by auto|]); try (apply lookup_singleton_Some in H as [<- _]; by auto); by rewrite lookup_empty in H.
Qed.

(** The command sees its own user in HOME, USER and LOGNAME and the daemon's value
    of every other variable. *)
Lemma envForUser_spec env user key :
  getenv (envForUser env user) key =
  match user with
  | None => getenv env key
  | Some u => match user_overrides u !! key with Some v => Some v | None => getenv env key end
  end.
Proof.
  unfold envForUser. destruct user as [u|]; [|done]. case_bool_decide as Ho; [by rewrite Ho, lookup_empty|].
  rewrite getenv_app, getenv_kept, getenv_pairs, list_to_map_to_list.
  - destruct (user_overrides u !! key) as [v|]; cbn; [done|]. by destruct (getenv env key).
  - apply Forall_forall. intros [k v] H%elem_of_map_to_list. cbn. by destruct (overrides_keys _ _ _ H) as [->|[->| ->]].
Qed.

(** ** A concrete run *)

Definition demo_kernel : kernel := mkKernel (fun n => if String.eqb n "claude" then Some "/usr/bin/claude" else None) (fun _ => Some 7) (fun p => Some p).
Definition demo_config : spawnConfig := mkSpawnConfig ["--help"] ["HOME=/root"; "PATH=/bin"] (Some (mkExecUser "dev" 1000 1000 [] "/home/dev")) false true "claude".
Definition demo_system : system :=
  let x := runReaper (run_winner demo_kernel demo_config (enter NewSpawnState)).2 in
  mkSystem x.1 (<[O := Answered Spawned_]> (<[O := Winner]> ∅)) x.2.
Lemma spawn_demo_reachable : rtc step initial demo_system.
Proof.
  eapply rtc_l; [by apply (step_enter initial O)|]. eapply rtc_l; [|apply rtc_refl].
  exact (step_run (mkSystem (enter NewSpawnState) (<[O := Winner]> ∅) NotStarted) O demo_kernel demo_config None (run_winner demo_kernel demo_config (enter NewSpawnState)).2 eq_refl eq_refl).
Qed.

Example demo_child :
  (fun c => (ch_path c, ch_args c, getenv (ch_env c) "HOME", cr_uid <$> cred (ch_attr c))) <$> forked (sup demo_system) =
  [("/usr/bin/claude", ["claude"; "--help"], Some "/home/dev", Some 1000)].
Proof. vm_compute. reflexivity. Qed.

Lemma spawn_once_witness : callers demo_system !! O = Some (Answered Spawned_) /\ Spawned (sup demo_system) = true /\ length (forked (sup demo_system)) = 1%nat.
Proof. split; [by vm_compute|]. apply (spawn_once demo_system O Spawned_ spawn_demo_reachable). by vm_compute. Defined.

(** The command is killed by SIGTERM, and the orphans are given up on. *)
Lemma exit_status_witness :
  let y := with_reaper demo_system (reap_round (WPid (Signaled 15)) 0 (sup demo_system)) in
  let y' := with_sup y (BeginOrphanDrain (sup y)) in
  let y'' := with_reaper y' (reaper_panic (sup y')) in
  finalWS (sup y) = Some (Signaled 15) /\ (Wait (sup y'') = None \/ Wait (sup y'') = Some 143) /\ SpawnErr (sup y'') = Some (inr ReaperPanicked).
Proof.
  split; [done|]. split; [|done].
  edestruct (exit_status (with_reaper demo_system (reap_round (WPid (Signaled 15)) 0 (sup demo_system)))) as [H _]; [| |exact (H (Signaled 15) eq_refl)].
  - eapply rtc_r; [apply spawn_demo_reachable|]. exact (step_reap demo_system (WPid (Signaled 15)) 0 eq_refl).
  - eapply rtc_l; [apply step_gate|]. eapply rtc_l; [by apply step_reaper_panic|apply rtc_refl].
Defined.

End Supervisor.
