(* ===== verification/DaemonSession.v ===== *)
(** * The daemon's end of a session

    clawkerd/session.go: the receiver dispatches the commands of the control
    plane, every shell command has a worker goroutine, and one sender writes the
    responses, which all goroutines queue on one bounded channel.  Goroutines
    are steps that interleave; processes, pipes and the spawn of the user's
    command answer as inputs. *)

From S2P Require Import Prelude GoStrings SessionProto Supervisor.
Import Go SessionProto.

Module DaemonSession.

Definition sendQueueDepth : nat := 64.
Definition errResponse (id : string) (c : ErrorCode) (msg : string) : Response := mkResponse id (Error c msg).

Inductive payloadClass := payloadClassUnknown | payloadClassChunk | payloadClassTerminal.
Definition classifyDropPayload (r : Response) : payloadClass :=
  match ResponsePayload r with
  | Done _ | Error _ _ | RegisterDone _ _ => payloadClassTerminal
  | Started | Output _ | StageExit _ _ _ => payloadClassChunk
  | _ => payloadClassUnknown
  end.

(** ** Exit codes *)

(** The status of a stage that was waited for, and whether the wait failed. *)
Definition exitCodeOf (st : option Supervisor.WaitStatus) (wait_failed : bool) : Z :=
  match st with
  | None => if wait_failed then -1 else 0
  | Some (Supervisor.Signaled _) => -1
  | Some (Supervisor.Exited n) => n
  | Some Supervisor.OtherStatus => -1
  end.
Definition stageExitResponse (id : string) (i : nat) (st : option Supervisor.WaitStatus) (wait_failed : bool) : Response :=
  let '(code, signo) :=
    match st with
    | Some (Supervisor.Signaled s) => (-1, s)
    | Some (Supervisor.Exited n) => (n, 0)
    | Some Supervisor.OtherStatus => (-1, 0)
    | None => (if wait_failed then -1 else 0, 0)
    end in
  mkResponse id (StageExit (Z.of_nat i) code signo).
Definition mirrorExitCode (finalExit : Z) : Z := if (finalExit <? 0) || (255 <? finalExit) then 1 else finalExit.

(** [nil] is the daemon's own environment. *)
Definition buildEnv (environ : list string) (m : gmap string string) : option (list string) :=
  if bool_decide (m = ∅) then None else Some (environ ++ ((fun kv => kv.1 +:+ "=" +:+ kv.2) <$> map_to_list m)).

(** ** State *)

(** What all sessions of the daemon share: the marker file of the init plan and
    the supervisor. *)
Record daemon := mkDaemon { marker : bool; spawn : Supervisor.spawnState }.

(** Where the worker of a command is: about to start its stages; waiting for some
    stages, with its output drained or not; past its final response, with the exit
    code it reported; stopping the session, to have the daemon exit. *)
Inductive worker := Starting | Running (left : list nat) (drained : bool) | Finishing (exit : option Z) | Exiting (code : Z).
(** [serial] tells the commands that used an identifier apart; [cancelled_] says
    that the command's own context is done. *)
Record runningCommand := mkRunning {
  serial : nat; shell : ShellCommand; stdinReady : bool; stdinClosed : bool; cancelled_ : bool; timedOut : bool; phase : worker;
}.

(** The goroutine a response comes from: the receiver (or a registration it
    started), the worker of a command with its drainer and reapers, or the writer of
    a command's initial input, which nothing waits for. *)
Inductive source := Receiver | Worker (n : nat) | StdinWriter (n : nat).

(** What happened, oldest first: commands accepted, responses queued, final
    responses lost, the call of [Stop] that took effect (by the receiver, or by the
    worker of a command that exited with a code) and the end of its grace. *)
Inductive event :=
  | Accepted (id : string) (n : nat) (sc : ShellCommand)
  | Queued (by_ : source) (r : Response)
  | Lost (n : nat)
  | StopCalled (by_ : option (string * nat * Z))
  | GraceExpired.

(** The sender: in its loop, flushing the queue after [Stop], and gone after the
    queue was flushed or for another reason. *)
Inductive sender := Sending | Draining | Flushed | Ceased.
(** [Stop]: not called, waiting for the sender, done. *)
Inductive stopping := NotStopped | Stopping | Stopped.

(** [writers] are the initial inputs being written, by identifier and serial
    number, [wire] is what was written to the stream, [hist] the history, which the
    code does not read. *)
Record session := mkSession {
  cmds : gmap string runningCommand; sendCh : list Response; wire : list Response; ctx_done : bool; exit_request : option Z;
  registering : list string; writers : list (string * nat); sending : sender; stop : stopping; next_serial : nat; hist : list event;
}.
Definition new_session : session := mkSession ∅ [] [] false None [] [] Sending NotStopped 0 [].

Definition set_cmds (s : session) (m : gmap string runningCommand) : session :=
  mkSession m (sendCh s) (wire s) (ctx_done s) (exit_request s) (registering s) (writers s) (sending s) (stop s) (next_serial s) (hist s).
Definition set_cmd (s : session) (id : string) (c : runningCommand) : session := set_cmds s (<[id := c]> (cmds s)).
Definition set_phase (c : runningCommand) (w : worker) : runningCommand :=
  mkRunning (serial c) (shell c) (stdinReady c) (stdinClosed c) (cancelled_ c) (timedOut c) w.
Definition set_registering (s : session) (l : list string) : session :=
  mkSession (cmds s) (sendCh s) (wire s) (ctx_done s) (exit_request s) l (writers s) (sending s) (stop s) (next_serial s) (hist s).
Definition set_writers (s : session) (l : list (string * nat)) : session :=
  mkSession (cmds s) (sendCh s) (wire s) (ctx_done s) (exit_request s) (registering s) l (sending s) (stop s) (next_serial s) (hist s).
(** The queue, the stream, the session's context and the sender. *)
Definition set_pipe (s : session) (q w : list Response) (done : bool) (snd : sender) : session :=
  mkSession (cmds s) q w done (exit_request s) (registering s) (writers s) snd (stop s) (next_serial s) (hist s).
Definition set_stop (s : session) (st : stopping) : session :=
  mkSession (cmds s) (sendCh s) (wire s) (ctx_done s) (exit_request s) (registering s) (writers s) (sending s) st (next_serial s) (hist s).
Definition note (s : session) (e : event) : session :=
  mkSession (cmds s) (sendCh s) (wire s) (ctx_done s) (exit_request s) (registering s) (writers s) (sending s) (stop s) (next_serial s) (hist s ++ [e]).

Definition push (s : session) (by_ : source) (r : Response) : session :=
  note (set_pipe s (sendCh s ++ [r]) (wire s) (ctx_done s) (sending s)) (Queued by_ r).

(** [send] with a context: the response is queued when there is room; once the
    context is done it may be dropped instead, whichever case [select] picks. *)
Inductive send (done : bool) (by_ : source) (r : Response) (s : session) : session -> Prop :=
  | send_queued : (length (sendCh s) < sendQueueDepth)%nat -> send done by_ r s (push s by_ r)
  | send_dropped : done = true -> send done by_ r s s.
(** The final response of a worker; its loss is noted. *)
Inductive send_final (done : bool) (n : nat) (r : Response) (s : session) : session -> Prop :=
  | final_queued : (length (sendCh s) < sendQueueDepth)%nat -> send_final done n r s (push s (Worker n) r)
  | final_dropped : done = true -> send_final done n r s (note s (Lost n)).

(** ** The receiver *)

Inductive panic_at := BeforeRun | InsideRun.

(** What the receiver meets: the spawn's kernel and configuration (none: not
    wired), a panic on the way to the spawn or inside it, whether the marker can be written, whether registration is
    wired, and the error of a write to a pipe. *)
Record recv_env := mkRecvEnv {
  re_kernel : Supervisor.kernel; re_config : option (string -> Supervisor.spawnConfig); re_panic : option (panic_at * string); re_marker_ok : bool;
  re_register : bool; re_write_error : option string;
}.

Definition spawn_text (e : Supervisor.spawn_error) : string :=
  match e with
  | Supervisor.ErrNoLogger => "clawkerd: spawn config missing logger"
  | Supervisor.ErrEmptyArgv => "clawkerd: empty argv; container CMD is required"
  | Supervisor.ErrLookup n => "clawkerd: lookup " +:+ n
  | Supervisor.ErrStart n => "clawkerd: spawn " +:+ n
  | Supervisor.ErrGetpgid p => "clawkerd: getpgid pid=" +:+ Itoa p
  end.

(** A panic inside [Run] is one of the call that runs the spawn, before it forked. *)
Definition spawn_panic (e : recv_env) (d : daemon) : option (daemon * string) :=
  match re_panic e with
  | Some (BeforeRun, p) => Some (d, p)
  | Some (InsideRun, p) => if Supervisor.runEntered (spawn d) then None else Some (mkDaemon (marker d) (Supervisor.run_panicked (spawn d)), p)
  | None => None
  end.

(** [None]: the spawn of another session is in progress. *)
Definition handleAgentReady (e : recv_env) (id defaultCmd : string) (d : daemon) : option (daemon * Response) :=
  match re_config e with
  | None => Some (d, errResponse id IO_ERROR "agent_ready: spawn entry not wired")
  | Some cfg =>
      match spawn_panic e d with
      | Some (d, p) => Some (d, errResponse id IO_ERROR ("agent_ready: panic: " +:+ p))
      | None =>
          match Supervisor.Run (re_kernel e) (cfg defaultCmd) (spawn d) with
          | None => None
          | Some (r, sp) =>
              Some (mkDaemon (marker d) sp,
                    match r with
                    | Supervisor.SpawnFailed err => errResponse id IO_ERROR ("agent_ready: spawn: " +:+ spawn_text err)
                    | _ => mkResponse id (Done 0)
                    end)
          end
      end
  end.
Definition handleAgentInitialized (e : recv_env) (id : string) (d : daemon) : daemon * Response :=
  (mkDaemon (marker d || re_marker_ok e) (spawn d), mkResponse id (Done 0)).
Definition handleHello (id : string) (d : daemon) : Response :=
  mkResponse id (RHelloAck (mkHelloAck (marker d) (Supervisor.Spawned (spawn d)))).

Fixpoint empty_argv (i : nat) (stages : list PipeStage) : option nat :=
  match stages with [] => None | st :: stages => if bool_decide (Argv st = []) then Some i else empty_argv (S i) stages end.

Definition startShellCommand (id : string) (sc : ShellCommand) (s : session) : session * option Response :=
  match Stages sc, empty_argv 0 (Stages sc), cmds s !! id with
  | [], _, _ => (s, Some (errResponse id INVALID_REQUEST "shell: stages must not be empty"))
  | _, Some i, _ => (s, Some (errResponse id INVALID_REQUEST ("shell: stage[" +:+ Itoa (Z.of_nat i) +:+ "] argv must not be empty")))
  | _, _, Some _ => (s, Some (errResponse id INVALID_REQUEST "shell: command_id already in use"))
  | _, None, None =>
      let n := next_serial s in
      let s := set_cmd s id (mkRunning n sc false false false false Starting) in
      (mkSession (cmds s) (sendCh s) (wire s) (ctx_done s) (exit_request s) (registering s) (writers s) (sending s) (stop s) (S n)
         (hist s ++ [Accepted id n sc]), None)
  end.

(** A frame for a running command waits until its initial input is written, unless
    the session is over. *)
Definition routeStdin (e : recv_env) (id : string) (s : session) : option (session * option Response) :=
  match cmds s !! id with
  | None => Some (s, Some (errResponse id UNKNOWN_COMMAND_ID "stdin: no running command with that id"))
  | Some c =>
      if negb (stdinReady c) then if ctx_done s then Some (s, None) else None
      else if stdinClosed c then Some (s, Some (errResponse id INVALID_REQUEST "stdin: already closed"))
      else
        match re_write_error e with
        | None => Some (s, None)
        | Some err =>
            Some (set_cmd s id (mkRunning (serial c) (shell c) (stdinReady c) true (cancelled_ c) (timedOut c) (phase c)),
                  Some (errResponse id IO_ERROR ("stdin write: " +:+ err)))
        end
  end.
Definition routeCloseStdin (id : string) (s : session) : option (session * option Response) :=
  match cmds s !! id with
  | None => Some (s, Some (errResponse id UNKNOWN_COMMAND_ID "close_stdin: no running command with that id"))
  | Some c =>
      if negb (stdinReady c) then if ctx_done s then Some (s, None) else None
      else Some (set_cmd s id (mkRunning (serial c) (shell c) (stdinReady c) true (cancelled_ c) (timedOut c) (phase c)), None)
  end.
Definition routeSignal (id : string) (signo : Z) (s : session) : option Response :=
  if signo <=? 0 then Some (errResponse id INVALID_REQUEST "signal: signo must be a positive integer")
  else match cmds s !! id with None => Some (errResponse id UNKNOWN_COMMAND_ID "signal: no running command with that id") | Some _ => None end.

Definition handleRegisterRequired (e : recv_env) (id : string) (s : session) : session * option Response :=
  if re_register e
  then (set_registering s (registering s ++ [id]), None)
  else (s, Some (mkResponse id (RegisterDone false "clawkerd has no register coordinator wired"))).

Definition needs_id (p : command_payload) : bool := match p with Hello | UnknownCommand => false | _ => true end.

(** [None]: the receiver blocks. *)
Definition dispatch (e : recv_env) (cmd : Command) (s : session) (d : daemon) : option (session * daemon * option Response) :=
  let id := CommandId cmd in
  if needs_id (CommandPayload cmd) && String.eqb id "" then Some (s, d, Some (errResponse "" INVALID_REQUEST "command_id required"))
  else
    match CommandPayload cmd with
    | Hello => Some (s, d, Some (handleHello id d))
    | Shell sc => let '(s, r) := startShellCommand id sc s in Some (s, d, r)
    | Stdin _ => '(s, r) ← routeStdin e id s; Some (s, d, r)
    | CloseStdin => '(s, r) ← routeCloseStdin id s; Some (s, d, r)
    | Signal signo => Some (s, d, routeSignal id signo s)
    | RegisterRequired => let '(s, r) := handleRegisterRequired e id s in Some (s, d, r)
    | AgentReady c => '(d, r) ← handleAgentReady e id c d; Some (s, d, Some r)
    | AgentInitialized => let '(d, r) := handleAgentInitialized e id d in Some (s, d, Some r)
    | UnknownCommand => Some (s, d, Some (errResponse id INVALID_REQUEST "unknown payload type"))
    end.

(** ** Histories *)

Definition queued (h : list event) : list Response := omap (fun e => match e with Queued _ r => Some r | _ => None end) h.

(** What a worker ends with.  An IO_ERROR, which it sends when it cannot read the
    output, is not among it: the worker goes on to one of these. *)
Definition concludes (r : Response) : bool :=
  match ResponsePayload r with Done _ | Error (SPAWN_FAILED | TIMEOUT) _ => true | _ => false end.
(** What a worker sends at all. *)
Definition worker_frame (r : Response) : bool :=
  match ResponsePayload r with Started | Output _ | StageExit _ _ _ | Done _ | Error (SPAWN_FAILED | TIMEOUT | IO_ERROR) _ => true | _ => false end.
Definition io_error (r : Response) : Prop := exists msg, ResponsePayload r = Error IO_ERROR msg.

Definition ended (n : nat) (h : list event) : Prop := Lost n ∈ h \/ exists r, Queued (Worker n) r ∈ h /\ concludes r = true.
(** Nothing of the worker of [n]. *)
Definition silent (n : nat) (e : event) : Prop := match e with Queued (Worker m) _ | Lost m => m <> n | _ => True end.
(** The command reported its exit code, or lost the report. *)
Definition reported (id : string) (n : nat) (code : Z) (h : list event) : Prop :=
  Lost n ∈ h \/ Queued (Worker n) (mkResponse id (Done code)) ∈ h.

Definition over (w : worker) : Prop := match w with Finishing _ | Exiting _ => True | _ => False end.

(** ** The workers *)

(** A command's context ends with its own or with the session's. *)
Definition cmd_done (s : session) (c : runningCommand) : bool := cancelled_ c || ctx_done s.
Definition cancel_cmd (c : runningCommand) : runningCommand :=
  mkRunning (serial c) (shell c) (stdinReady c) (stdinClosed c) true (timedOut c) (phase c).
Definition shutdownRunning (s : session) : session := set_cmds s (cancel_cmd <$> cmds s).

(** [Stop] runs once.  Its first call cancels the commands and asks the sender to
    flush the queue; every call waits until that is done. *)
Definition begin_stop (by_ : option (string * nat * Z)) (s : session) : session :=
  match stop s with NotStopped => note (set_stop (shutdownRunning s) Stopping) (StopCalled by_) | _ => s end.
(** It is done when the sender is gone or its grace has run out; the session's
    context is cancelled. *)
Definition sender_gone (s : session) : bool := match sending s with Flushed | Ceased => true | _ => false end.
Definition end_stop (s : session) : session :=
  let s := if sender_gone s then s else note s GraceExpired in
  set_stop (set_pipe s (sendCh s) (wire s) true (sending s)) Stopped.

Definition timeout_response (id : string) (sc : ShellCommand) : Response :=
  errResponse id TIMEOUT ("pipeline killed after " +:+ Itoa (TimeoutSeconds sc) +:+ "s timeout").
(** The first request counts. *)
Definition request_exit (s : session) (code : Z) : session :=
  mkSession (cmds s) (sendCh s) (wire s) (ctx_done s) (match exit_request s with Some x => Some x | None => Some code end) (registering s) (writers s)
    (sending s) (stop s) (next_serial s) (hist s).

(** The writer of an initial input holds its command, whether or not that is still
    registered; the context of one that is not has been cancelled. *)
Definition writer_done (s : session) (id : string) (n : nat) : bool :=
  match cmds s !! id with Some c => if Nat.eqb (serial c) n then cmd_done s c else true | None => true end.
Definition closeStdinReady (s : session) (id : string) (n : nat) : session :=
  match cmds s !! id with
  | Some c => if Nat.eqb (serial c) n then set_cmd s id (mkRunning (serial c) (shell c) true (stdinClosed c) (cancelled_ c) (timedOut c) (phase c)) else s
  | None => s
  end.

Inductive step : session * daemon -> session * daemon -> Prop :=
  (** The receiver. *)
  | step_recv e cmd s d s1 d1 s2 r : dispatch e cmd s d = Some (s1, d1, r) ->
      match r with None => s2 = s1 | Some r => send (ctx_done s1) Receiver r s1 s2 end -> step (s, d) (s2, d1)
  | step_registered l1 id l2 ok err s d s2 : registering s = l1 ++ id :: l2 -> send (ctx_done s) Receiver (mkResponse id (RegisterDone ok err)) s s2 ->
      step (s, d) (set_registering s2 (l1 ++ l2), d)
  (** A Stdin frame that found its command and waited for it past its removal. *)
  | step_late_stdin id n sc s d s2 : Accepted id n sc ∈ hist s -> ended n (hist s) -> send (ctx_done s) Receiver (errResponse id INVALID_REQUEST "stdin: already closed") s s2 ->
      step (s, d) (s2, d)
  (** The worker of [id]. *)
  | step_spawn_failed id c err s d s2 : cmds s !! id = Some c -> phase c = Starting ->
      send_final (cmd_done s c) (serial c) (errResponse id SPAWN_FAILED err) s s2 ->
      step (s, d) (set_cmd s2 id (cancel_cmd (set_phase (mkRunning (serial c) (shell c) true (stdinClosed c) (cancelled_ c) (timedOut c) (phase c)) (Finishing None))), d)
  | step_started id c s d s2 : cmds s !! id = Some c -> phase c = Starting -> send (cmd_done s c) (Worker (serial c)) (mkResponse id Started) s s2 ->
      let started := set_cmd s2 id (mkRunning (serial c) (shell c) (String.eqb (InitialStdin (shell c)) "") (stdinClosed c) (cancelled_ c) (timedOut c)
        (Running (seq 0 (length (Stages (shell c)))) false)) in
      step (s, d) (if String.eqb (InitialStdin (shell c)) "" then started else set_writers started (writers s ++ [(id, serial c)]), d)
  | step_output id c l data s d s2 : cmds s !! id = Some c -> phase c = Running l false -> send (cmd_done s c) (Worker (serial c)) (mkResponse id (Output data)) s s2 ->
      step (s, d) (s2, d)
  | step_drained id c l err s d s2 : cmds s !! id = Some c -> phase c = Running l false ->
      match err with None => s2 = s | Some e => send (cmd_done s c) (Worker (serial c)) (errResponse id IO_ERROR ("output drain: " +:+ e)) s s2 end ->
      step (s, d) (set_cmd s2 id (set_phase c (Running l true)), d)
  | step_stage id c l1 i l2 b st failed s d s2 : cmds s !! id = Some c -> phase c = Running (l1 ++ i :: l2) b ->
      send (cmd_done s c) (Worker (serial c)) (stageExitResponse id i st failed) s s2 ->
      step (s, d) (set_cmd s2 id (set_phase c (Running (l1 ++ l2) b)), d)
  | step_stdin_closed id c b s d : cmds s !! id = Some c -> phase c = Running [] b ->
      step (s, d) (set_cmd s id (mkRunning (serial c) (shell c) (stdinReady c) true (cancelled_ c) (timedOut c) (phase c)), d)
  | step_timeout id c l b s d : cmds s !! id = Some c -> phase c = Running l b -> 0 < TimeoutSeconds (shell c) ->
      step (s, d) (set_cmd s id (mkRunning (serial c) (shell c) (stdinReady c) (stdinClosed c) true true (phase c)), d)
  | step_timed_out id c s d s2 : cmds s !! id = Some c -> phase c = Running [] true -> stdinClosed c = true -> timedOut c = true ->
      send_final (cmd_done s c) (serial c) (timeout_response id (shell c)) s s2 -> step (s, d) (set_cmd s2 id (set_phase c (Finishing None)), d)
  (** The timer may fire between the test and the send. *)
  | step_done id c st failed late s d s2 : cmds s !! id = Some c -> phase c = Running [] true -> stdinClosed c = true -> timedOut c = false ->
      (late = true -> 0 < TimeoutSeconds (shell c)) ->
      send_final (cmd_done s c || late) (serial c) (mkResponse id (Done (exitCodeOf st failed))) s s2 ->
      step (s, d) (set_cmd s2 id (set_phase c (Finishing (Some (exitCodeOf st failed)))), d)
  (** A failure that is fatal to the daemon: [Stop], and once it is done the request. *)
  | step_exit_on_non_zero id c code s d : cmds s !! id = Some c -> phase c = Finishing (Some code) -> ExitOnNonZero (shell c) = true -> code <> 0 ->
      step (s, d) (begin_stop (Some (id, serial c, code)) (set_cmd s id (set_phase c (Exiting code))), d)
  | step_request_exit id c code s d : cmds s !! id = Some c -> phase c = Exiting code -> stop s = Stopped ->
      step (s, d) (request_exit (set_cmd s id (set_phase c (Finishing None))) (mirrorExitCode code), d)
  | step_cleanup id c x s d : cmds s !! id = Some c -> phase c = Finishing x -> step (s, d) (set_cmds s (delete id (cmds s)), d)
  (** The writer of an initial input. *)
  | step_stdin_written l1 id n l2 err s d s2 : writers s = l1 ++ (id, n) :: l2 ->
      match err with None => s2 = s | Some e => send (writer_done s id n) (StdinWriter n) (errResponse id IO_ERROR ("initial_stdin write failed: " +:+ e)) s s2 end ->
      step (s, d) (set_writers (closeStdinReady s2 id n) (l1 ++ l2), d)
  (** The sender. *)
  | step_deliver r q s d : sendCh s = r :: q -> sending s = Sending \/ sending s = Draining ->
      step (s, d) (set_pipe s q (wire s ++ [r]) (ctx_done s) (sending s), d)
  | step_broken r q s d : sendCh s = r :: q -> sending s = Sending \/ sending s = Draining -> step (s, d) (set_pipe s q (wire s) true Ceased, d)
  | step_sweep s d : ctx_done s = true -> sending s = Sending -> step (s, d) (set_pipe s [] (wire s) true Ceased, d)
  | step_drain s d : stop s <> NotStopped -> sending s = Sending -> step (s, d) (set_pipe s (sendCh s) (wire s) (ctx_done s) Draining, d)
  | step_flushed s d : sendCh s = [] -> sending s = Draining -> step (s, d) (set_pipe s [] (wire s) (ctx_done s) Flushed, d)
  (** The stream's context is cancelled, the receiver returns, and [Stop] ends. *)
  | step_cancelled s d : step (s, d) (set_pipe s (sendCh s) (wire s) true (sending s), d)
  | step_teardown s d : step (s, d) (begin_stop None s, d)
  | step_stopped s d : stop s = Stopping -> step (s, d) (end_stop s, d).

(** The rules of the histories. *)
Definition about (e : event) : option nat :=
  match e with Accepted _ n _ | Queued (Worker n | StdinWriter n) _ | Lost n => Some n | _ => None end.

Inductive legal : list event -> Prop :=
  | legal_nil : legal []
  | legal_accept h id n sc : legal h -> (forall e, e ∈ h -> about e <> Some n) -> legal (h ++ [Accepted id n sc])
  | legal_lost h id n sc : legal h -> ~ ended n h -> Accepted id n sc ∈ h -> legal (h ++ [Lost n])
  | legal_worker h id n sc r : legal h -> ~ ended n h -> Accepted id n sc ∈ h -> ResponseId r = id -> worker_frame r = true -> legal (h ++ [Queued (Worker n) r])
  | legal_writer h id n sc r : legal h -> Accepted id n sc ∈ h -> ResponseId r = id -> io_error r -> legal (h ++ [Queued (StdinWriter n) r])
  | legal_receiver h r : legal h ->
      (forall msg n sc, ResponsePayload r = Error UNKNOWN_COMMAND_ID msg -> Accepted (ResponseId r) n sc ∈ h -> ended n h) -> legal (h ++ [Queued Receiver r])
  | legal_stop h b : legal h -> (forall id n code, b = Some (id, n, code) -> reported id n code h) -> legal (h ++ [StopCalled b])
  | legal_grace h : legal h -> legal (h ++ [GraceExpired]).

(** ** The invariant *)

(** A command whose failure is fatal to the daemon. *)
Definition fatal (h : list event) (id : string) (n : nat) (sc : ShellCommand) (code : Z) : Prop :=
  Accepted id n sc ∈ h /\ ExitOnNonZero sc = true /\ code <> 0 /\ reported id n code h.

Definition cmd_ok (h : list event) (id : string) (c : runningCommand) : Prop :=
  Accepted id (serial c) (shell c) ∈ h /\ (over (phase c) <-> ended (serial c) h) /\
  match phase c with Finishing (Some x) => reported id (serial c) x h | Exiting x => fatal h id (serial c) (shell c) x | _ => True end.

(** What was queued is written or still in the queue until the sender gives up. *)
Definition pipe_ok (s : session) : Prop :=
  match sending s with Ceased => wire s `prefix_of` queued (hist s) | _ => wire s ++ sendCh s = queued (hist s) end.

Record session_ok (s : session) : Prop := {
  ok_pipe : pipe_ok s;
  ok_legal : legal (hist s);
  ok_cmds : forall id c, cmds s !! id = Some c -> cmd_ok (hist s) id c;
  ok_accounted : forall id n sc, Accepted id n sc ∈ hist s -> (exists c, cmds s !! id = Some c /\ serial c = n) \/ ended n (hist s);
  ok_fresh : forall e n, e ∈ hist s -> about e = Some n -> (n < next_serial s)%nat;
  ok_writers : forall id n, (id, n) ∈ writers s -> exists sc, Accepted id n sc ∈ hist s;
  ok_unstopped : stop s = NotStopped -> (forall b, StopCalled b ∉ hist s) /\ (sending s = Sending \/ sending s = Ceased);
  ok_flushed : sending s = Flushed -> forall h1 b h2, hist s = h1 ++ StopCalled b :: h2 -> queued h1 `prefix_of` wire s;
  ok_stopped : stop s = Stopped -> ctx_done s = true /\ (GraceExpired ∈ hist s \/ sending s = Flushed \/ sending s = Ceased);
  ok_exit : forall x, exit_request s = Some x -> stop s = Stopped /\ exists id n sc code, fatal (hist s) id n sc code /\ x = mirrorExitCode code;
}.

Lemma queued_snoc h e : queued (h ++ [e]) = queued h ++ queued [e].
Proof. apply omap_app. Qed.

Lemma ended_mono n h e : ended n h -> ended n (h ++ [e]).
Proof. intros [H|(r & H & Hf)]; [left|right; exists r]; set_solver. Qed.
Lemma reported_mono id n code h e : reported id n code h -> reported id n code (h ++ [e]).
Proof. unfold reported. set_solver. Qed.
Lemma fatal_mono h id n sc code e : fatal h id n sc code -> fatal (h ++ [e]) id n sc code.
Proof. intros (H1 & H2 & H3 & H4). split; [set_solver|]. split; [done|]. split; [done|]. by apply reported_mono. Qed.

Lemma ended_snoc n h e :
  ended n (h ++ [e]) <-> ended n h \/ match e with Lost m => m = n | Queued (Worker m) r => m = n /\ concludes r = true | _ => False end.
Proof.
  split.
  - intros [H|(r & H & Hf)]; apply elem_of_app in H as [H|H%list_elem_of_singleton]; [left; by left| |left; right; eauto|]; right; by subst e.
  - intros [H|H]; [by apply ended_mono|]. destruct e as [|[|m|] r|m| |]; try done.
    + destruct H as [-> H]. right. exists r. set_solver.
    + subst m. left. set_solver.
Qed.

Lemma accepted_snoc id n sc h e : Accepted id n sc ∈ h ++ [e] <-> Accepted id n sc ∈ h \/ e = Accepted id n sc.
Proof. rewrite elem_of_app, list_elem_of_singleton. split; intros [?|?]; auto. Qed.

(** One accepted command per serial number. *)
Lemma legal_unique h id1 sc1 id2 sc2 n : legal h -> Accepted id1 n sc1 ∈ h -> Accepted id2 n sc2 ∈ h -> id1 = id2 /\ sc1 = sc2.
Proof.
  induction 1 as [|h id m sc _ IH Hn|h id m sc _ IH|h id m sc r _ IH|h id m sc r _ IH|h r _ IH|h b _ IH|h _ IH]; rewrite ?accepted_snoc; try (intros [?|?] [?|?]; try done; by apply IH).
  - by intros ?%not_elem_of_nil.
  - intros [H1|H1] [H2|H2]; simplify_eq; [by apply IH|by apply Hn in H1|by apply Hn in H2|done].
Qed.

Lemma cmd_serial s id c id' sc : session_ok s -> cmds s !! id = Some c -> Accepted id' (serial c) sc ∈ hist s -> id' = id.
Proof. intros Hs Hc Ha. destruct (ok_cmds s Hs id c Hc) as [Hi _]. by eapply (legal_unique _ id' sc id _ _ (ok_legal s Hs)). Qed.

Lemma live_serial s id c : session_ok s -> cmds s !! id = Some c -> (serial c < next_serial s)%nat.
Proof. intros Hs Hc. destruct (ok_cmds s Hs id c Hc) as [Hi _]. by apply (ok_fresh s Hs _ _ Hi). Qed.

(** An event that ends nothing of a command keeps it in order. *)
Lemma cmd_ok_snoc h e id c : cmd_ok h id c -> (ended (serial c) (h ++ [e]) -> ended (serial c) h) -> cmd_ok (h ++ [e]) id c.
Proof.
  intros (H1 & H2 & H3) He. split; [set_solver|]. split; [rewrite H2; split; [apply ended_mono|done]|].
  destruct (phase c) as [| |[x|]|x]; try done; [by apply reported_mono|by apply fatal_mono].
Qed.

Lemma snoc_split {A} (h : list A) e h1 x h2 :
  h ++ [e] = h1 ++ x :: h2 -> (h2 = [] /\ h = h1 /\ e = x) \/ exists h', h2 = h' ++ [e] /\ h = h1 ++ x :: h'.
Proof.
  induction h2 as [|y h2 _] using rev_ind; intros H.
  - apply app_inj_tail in H as [-> ->]. by left.
  - rewrite app_comm_cons, app_assoc in H. apply app_inj_tail in H as [-> ->]. right. by exists h2.
Qed.

(** A further event, other than an acceptance and a stop. *)
Definition grown (s : session) (e : event) (m : gmap string runningCommand) : session :=
  mkSession m (sendCh s ++ queued [e]) (wire s) (ctx_done s) (exit_request s) (registering s) (writers s) (sending s) (stop s) (next_serial s) (hist s ++ [e]).

Lemma grow_ok s e m :
  session_ok s -> legal (hist s ++ [e]) -> (forall n, about e = Some n -> (n < next_serial s)%nat) ->
  (forall id n sc, e <> Accepted id n sc) -> (forall b, e <> StopCalled b) ->
  (forall id c, m !! id = Some c -> cmd_ok (hist s ++ [e]) id c) ->
  (forall id n sc, Accepted id n sc ∈ hist s -> (exists c, m !! id = Some c /\ serial c = n) \/ ended n (hist s ++ [e])) ->
  session_ok (grown s e m).
Proof.
  intros [H1 H2 H3 H4 H5 H6 H7 H8 H9 H10] Hl Hn Ha Hb Hm Hacc. split; cbn [grown cmds sendCh wire ctx_done exit_request registering writers sending stop next_serial hist].
  - unfold pipe_ok in *. cbn [grown wire sendCh sending hist]. rewrite queued_snoc. destruct (sending s); [by rewrite app_assoc, H1..|]. by apply prefix_app_r.
  - done.
  - done.
  - intros id n sc [H|H]%accepted_snoc; [by eapply Hacc|by apply Ha in H].
  - intros e' n [H|H%list_elem_of_singleton]%elem_of_app He; [by eapply H5|]. subst e'. by apply Hn.
  - intros id n H. destruct (H6 id n H) as [sc Hsc]. exists sc. set_solver.
  - intros Hst. destruct (H7 Hst) as [Hno Hsd]. split; [|done]. intros b [H|H%list_elem_of_singleton]%elem_of_app; [by eapply Hno|]. by eapply Hb.
  - intros Hf h1 b h2 [(_ & _ & E)|(h' & -> & E)]%snoc_split; [by apply Hb in E|]. by eapply H8.
  - intros Hst. destruct (H9 Hst) as [Hc Hg]. split; [done|]. destruct Hg; [left; set_solver|by right].
  - intros x Hx. destruct (H10 x Hx) as (Hst & id & n & sc & code & Hf & E). split; [done|]. exists id, n, sc, code. split; [by apply fatal_mono|done].
Qed.

(** An event that ends no command. *)
Lemma note_ok s e :
  session_ok s -> legal (hist s ++ [e]) -> (forall n, about e = Some n -> (n < next_serial s)%nat) ->
  match e with Accepted _ _ _ | StopCalled _ | Lost _ => False | Queued (Worker _) r => concludes r = false | _ => True end ->
  session_ok (grown s e (cmds s)).
Proof.
  intros Hs Hl Hn He. assert (forall n, ended n (hist s ++ [e]) -> ended n (hist s)) as Hend.
  { intros n [?|H]%ended_snoc; [done|]. destruct e as [|[|m|] r|m| |]; try done. destruct H as [_ H]. congruence. }
  apply grow_ok; [done|done|done|by intros ? ? ? ->|by intros ? ->| |].
  - intros id c Hc. apply cmd_ok_snoc; [by apply Hs|apply Hend].
  - intros id n sc Ha. destruct (ok_accounted s Hs id n sc Ha) as [?|?]; [by left|right; by apply ended_mono].
Qed.

Lemma send_receiver_ok s r done s2 :
  session_ok s -> (forall msg, ResponsePayload r = Error UNKNOWN_COMMAND_ID msg -> cmds s !! ResponseId r = None) -> send done Receiver r s s2 -> session_ok s2.
Proof.
  intros Hs Hu Hsd. destruct Hsd as [_|_]; [|done]. apply (note_ok s (Queued Receiver r)); [done| |done|done].
  apply legal_receiver; [apply Hs|]. intros msg n sc Hr Ha. destruct (ok_accounted s Hs _ _ _ Ha) as [(c & Hc & _)|?]; [|done]. by rewrite (Hu msg Hr) in Hc.
Qed.

Lemma send_writer_ok s id n sc r done s2 :
  session_ok s -> Accepted id n sc ∈ hist s -> ResponseId r = id -> io_error r -> send done (StdinWriter n) r s s2 -> session_ok s2.
Proof.
  intros Hs Ha Hi Hr Hsd. destruct Hsd as [_|_]; [|done]. apply (note_ok s (Queued (StdinWriter n) r)); [done| |intros m [= <-]; by apply (ok_fresh s Hs _ _ Ha)|done].
  eapply legal_writer; [apply Hs|done..].
Qed.

Lemma send_worker_ok s id c r done s2 :
  session_ok s -> cmds s !! id = Some c -> ~ over (phase c) -> ResponseId r = id -> worker_frame r = true -> concludes r = false ->
  send done (Worker (serial c)) r s s2 -> session_ok s2 /\ cmds s2 = cmds s /\ hist s `prefix_of` hist s2 /\ writers s2 = writers s.
Proof.
  intros Hs Hc Hp Hi Hw Hf Hsd. destruct (ok_cmds s Hs id c Hc) as (Ha & Ho & _). destruct Hsd as [_|_]; [|done].
  split; [|split; [done|split; [by apply prefix_app_r|done]]]. apply (note_ok s (Queued (Worker (serial c)) r)); [done| |intros m [= <-]; by eapply live_serial|done].
  eapply legal_worker; [apply Hs|by rewrite <- Ho|done..].
Qed.

(** The last response of a worker, queued or lost. *)
Lemma send_final_ok s id c c' r done s2 :
  session_ok s -> cmds s !! id = Some c -> ~ over (phase c) -> ResponseId r = id -> worker_frame r = true -> concludes r = true ->
  send_final done (serial c) r s s2 -> serial c' = serial c -> shell c' = shell c ->
  (phase c' = Finishing None \/ exists x, phase c' = Finishing (Some x) /\ r = mkResponse id (Done x)) -> session_ok (set_cmd s2 id c').
Proof.
  intros Hs Hc Hp Hi Hw Hf Hsd Hn Hsh Hph. destruct (ok_cmds s Hs id c Hc) as (Ha & Ho & _).
  assert (~ ended (serial c) (hist s)) as Hne by (by rewrite <- Ho).
  assert (over (phase c')) as Hov by (by destruct Hph as [-> |(x & -> & _)]).
  assert (forall e, (e = Lost (serial c) \/ e = Queued (Worker (serial c)) r) -> session_ok (grown s e (<[id := c']> (cmds s)))) as Hgo.
  { intros e He. assert (ended (serial c) (hist s ++ [e])) as Hend by (apply ended_snoc; right; by destruct He as [-> | ->]).
    assert (forall n, n <> serial c -> ended n (hist s ++ [e]) -> ended n (hist s)) as Hother.
    { intros n Hne' [?|H]%ended_snoc; [done|]. destruct He as [-> | ->]; [by subst|]. destruct H as [H _]. by destruct Hne'. }
    apply grow_ok; [done| | |by destruct He as [-> | ->]|by destruct He as [-> | ->]| |].
    - destruct He as [-> | ->]; [by eapply legal_lost; [apply Hs|..]|by eapply legal_worker; [apply Hs|..]].
    - intros n Hab. assert (n = serial c) as Hnn by (destruct He as [E|E]; subst e; cbn in Hab; congruence). rewrite Hnn. by eapply live_serial.
    - intros id' c0 [[<- <-]|[Hne' H]]%lookup_insert_Some.
      + split; [rewrite Hn, Hsh; set_solver|]. split; [by rewrite Hn|]. destruct Hph as [-> |(x & -> & ->)]; [done|]. rewrite Hn. destruct He as [-> | ->]; [left|right]; set_solver.
      + apply cmd_ok_snoc; [by apply Hs|]. apply Hother. intros E. destruct (ok_cmds s Hs id' c0 H) as (Ha' & _). rewrite E in Ha'.
        by rewrite (cmd_serial s id c id' _ Hs Hc Ha') in Hne'.
    - intros id' n sc Ha'. destruct (decide (n = serial c)) as [->|Hne']; [by right|]. destruct (ok_accounted s Hs id' n sc Ha') as [(c0 & Hc0 & Hn0)|?]; [|right; by apply ended_mono].
      left. exists c0. split; [|done]. rewrite lookup_insert_ne; [done|]. intros <-. rewrite Hc in Hc0. congruence. }
  destruct Hsd as [_|_]; [exact (Hgo _ (or_intror eq_refl))|]. pose proof (Hgo _ (or_introl eq_refl)) as H. unfold grown in H. cbn [queued omap list_omap] in H. rewrite app_nil_r in H. exact H.
Qed.

(** Changes of a command that keep what it is. *)
Lemma set_cmd_ok s id c c' :
  session_ok s -> cmds s !! id = Some c -> serial c' = serial c -> cmd_ok (hist s) id c' -> session_ok (set_cmd s id c').
Proof.
  intros Hs Hc Hn Hok. pose proof Hs as [H1 H2 H3 H4 H5 H6 H7 H8 H9 H10]. split; try done; cbn [set_cmd set_cmds cmds hist].
  - intros id' c0 [[<- <-]|[_ H]]%lookup_insert_Some; [done|]. by apply H3.
  - intros id' n sc Ha. destruct (H4 id' n sc Ha) as [(c0 & Hc0 & Hn0)|He]; [|by right]. left. destruct (decide (id' = id)) as [->|Hne].
    + exists c'. rewrite lookup_insert_eq. split; [done|]. congruence.
    + exists c0. by rewrite lookup_insert_ne.
Qed.

Lemma set_same_ok s id c c' :
  session_ok s -> cmds s !! id = Some c -> serial c' = serial c -> shell c' = shell c -> (over (phase c') <-> over (phase c)) ->
  match phase c' with Finishing (Some _) | Exiting _ => phase c' = phase c | _ => True end -> session_ok (set_cmd s id c').
Proof.
  intros Hs Hc Hn Hsh Ho Hp. eapply set_cmd_ok; [done|done|done|]. destruct (ok_cmds s Hs id c Hc) as (H1 & H2 & H3). unfold cmd_ok.
  rewrite Hn, Hsh, Ho. split; [done|]. split; [done|]. destruct (phase c') as [| |[x|]|x]; try done; by rewrite <- Hp in H3.
Qed.

Lemma accept_ok s id sc :
  session_ok s -> cmds s !! id = None ->
  session_ok (mkSession (<[id := mkRunning (next_serial s) sc false false false false Starting]> (cmds s)) (sendCh s) (wire s) (ctx_done s) (exit_request s)
    (registering s) (writers s) (sending s) (stop s) (S (next_serial s)) (hist s ++ [Accepted id (next_serial s) sc])).
Proof.
  intros Hs Hc. pose proof Hs as [H1 H2 H3 H4 H5 H6 H7 H8 H9 H10]. set (e := Accepted id (next_serial s) sc).
  assert (forall n, ended n (hist s ++ [e]) -> ended n (hist s)) as He by (intros n [?|?]%ended_snoc; done).
  assert (~ ended (next_serial s) (hist s)) as Hne by (intros [H|(r & H & _)]; apply (H5 _ (next_serial s)) in H; [lia|done|lia|done]).
  assert (forall e', e' ∈ hist s -> about e' <> Some (next_serial s)) as Hfr by (intros e' Hin Hab; apply (H5 _ _ Hin) in Hab; lia).
  split; cbn [cmds sendCh wire ctx_done exit_request registering writers sending stop next_serial hist].
  - unfold pipe_ok in *. cbn [wire sendCh sending hist]. rewrite queued_snoc. cbn [queued omap list_omap e]. by rewrite app_nil_r.
  - by apply legal_accept.
  - intros id' c [[<- <-]|[_ H]]%lookup_insert_Some; [split; [apply accepted_snoc; by right|]; split; [split; [done|by intros ?%He]|done]|].
    apply cmd_ok_snoc; [by apply H3|apply He].
  - intros id' n sc' [Ha|[= <- <- <-]]%accepted_snoc; [|left; eexists; by rewrite lookup_insert_eq].
    destruct (H4 id' n sc' Ha) as [(c & Hc' & Hn)|?]; [|right; by apply ended_mono]. left. exists c. rewrite lookup_insert_ne; [done|]. intros <-. congruence.
  - intros e' n [Hin| ->%list_elem_of_singleton]%elem_of_app Hab; [apply (H5 _ _ Hin) in Hab; lia|]. injection Hab. lia.
  - intros id' n H. destruct (H6 id' n H) as [sc' Hsc]. exists sc'. set_solver.
  - intros Hst. destruct (H7 Hst) as [Hno Hsd]. split; [|done]. intros b [H|H%list_elem_of_singleton]%elem_of_app; [by eapply Hno|done].
  - intros Hf h1 b h2 [(_ & _ & E)|(h' & -> & E)]%snoc_split; [done|]. by eapply H8.
  - intros Hst. destruct (H9 Hst) as [Hcx Hg]. split; [done|]. destruct Hg; [left; set_solver|by right].
  - intros x Hx. destruct (H10 x Hx) as (Hst & id' & n & sc' & code & Hf & E). split; [done|]. exists id', n, sc', code. split; [by apply fatal_mono|done].
Qed.

(** What touches only the queue, the stream, the contexts and the sender. *)
Lemma set_pipe_ok s q w done snd :
  session_ok s -> pipe_ok (set_pipe s q w done snd) -> (ctx_done s = true -> done = true) ->
  (sending s = Flushed \/ sending s = Ceased -> snd = sending s /\ w = wire s) -> (snd = Draining -> stop s <> NotStopped) ->
  (snd = Flushed -> sending s = Flushed \/ stop s <> NotStopped /\ w = queued (hist s)) -> session_ok (set_pipe s q w done snd).
Proof.
  intros [H1 H2 H3 H4 H5 H6 H7 H8 H9 H10] Hp Hd Hg Hdr Hf. split; cbn [set_pipe cmds sendCh wire ctx_done exit_request registering writers sending stop next_serial hist]; try done.
  - intros Hst. destruct (H7 Hst) as [? Hsd]. split; [done|]. destruct snd; auto; [by destruct Hdr|]. destruct (Hf eq_refl) as [Hf'|[? _]]; [|done]. rewrite Hf' in Hsd. by destruct Hsd.
  - intros E h1 b h2 Hh. destruct (Hf E) as [Hf'|[_ ->]].
    + destruct (Hg (or_introl Hf')) as [_ ->]. by eapply H8.
    + rewrite Hh. unfold queued. rewrite omap_app. by apply prefix_app_r.
  - intros Hst. destruct (H9 Hst) as [Hc Hgr]. split; [by apply Hd|]. destruct Hgr as [?|Hgr]; [by left|]. right. destruct (Hg Hgr) as [-> _]. done.
Qed.

Lemma shutdownRunning_ok s : session_ok s -> session_ok (shutdownRunning s).
Proof.
  intros [H1 H2 H3 H4 H5 H6 H7 H8 H9 H10]. split; try done; cbn [shutdownRunning set_cmds cmds hist].
  - intros id c. rewrite lookup_fmap. intros (c0 & Hc & ->)%fmap_Some. exact (H3 id c0 Hc).
  - intros id n sc Ha. destruct (H4 id n sc Ha) as [(c & Hc & Hn)|?]; [|by right]. left. exists (cancel_cmd c). split; [|done]. apply lookup_fmap_Some. eauto.
Qed.

Lemma begin_stop_ok b s : session_ok s -> (forall id n code, b = Some (id, n, code) -> reported id n code (hist s)) -> session_ok (begin_stop b s).
Proof.
  intros Hs Hb. unfold begin_stop. destruct (stop s) eqn:Est; [|done..]. apply shutdownRunning_ok in Hs as [H1 H2 H3 H4 H5 H6 H7 H8 H9 H10].
  destruct (H7 Est) as [Hno Hsd]. assert (forall n, ended n (hist s ++ [StopCalled b]) -> ended n (hist s)) as He by (intros n [?|?]%ended_snoc; done).
  split; cbn [note set_stop shutdownRunning set_cmds cmds sendCh wire ctx_done exit_request registering writers sending stop next_serial hist] in *; try done.
  - unfold pipe_ok in *. cbn [note set_stop shutdownRunning set_cmds wire sendCh sending hist] in *. rewrite queued_snoc. cbn [queued omap list_omap]. by rewrite app_nil_r.
  - by apply legal_stop.
  - intros id c Hc. apply cmd_ok_snoc; [by apply H3|apply He].
  - intros id n sc [Ha|?]%accepted_snoc; [|done]. destruct (H4 id n sc Ha) as [?|?]; [by left|right; by apply ended_mono].
  - intros e n [Hin| ->%list_elem_of_singleton]%elem_of_app Hab; [by eapply H5|done].
  - intros id n H. destruct (H6 id n H) as [sc Hsc]. exists sc. set_solver.
  - intros E. rewrite E in Hsd. by destruct Hsd.
  - intros x Hx. destruct (H10 x Hx) as (Hst & _). congruence.
Qed.

Lemma end_stop_ok s : session_ok s -> stop s = Stopping -> session_ok (end_stop s).
Proof.
  intros Hs Est. unfold end_stop. assert (session_ok (if sender_gone s then s else note s GraceExpired)) as Hs'.
  { destruct (sender_gone s); [done|]. pose proof (note_ok s GraceExpired Hs) as H. unfold grown in H. cbn [queued omap list_omap] in H. rewrite app_nil_r in H.
    apply H; [by apply legal_grace; apply Hs|done|done]. }
  assert (GraceExpired ∈ hist (if sender_gone s then s else note s GraceExpired) \/ sending s = Flushed \/ sending s = Ceased) as Hg.
  { unfold sender_gone. destruct (sending s); [left; cbn; set_solver..|by right; left|by right; right]. }
  assert (sending (if sender_gone s then s else note s GraceExpired) = sending s /\ stop (if sender_gone s then s else note s GraceExpired) = stop s) as [Esd Est'] by (by destruct (sender_gone s)).
  revert Hs' Hg Esd Est'. generalize (if sender_gone s then s else note s GraceExpired) as s'. intros s' [H1 H2 H3 H4 H5 H6 H7 H8 H9 H10] Hg Esd Est'.
  split; cbn [set_stop set_pipe cmds sendCh wire ctx_done exit_request registering writers sending stop next_serial hist]; try done.
  - by rewrite Esd.
  - intros x Hx. split; [done|]. by destruct (H10 x Hx).
Qed.

Lemma wire_prefix s : session_ok s -> wire s `prefix_of` queued (hist s).
Proof. intros [H1 _ _ _ _ _ _ _ _ _]. unfold pipe_ok in H1. destruct (sending s); [rewrite <- H1; by apply prefix_app_r..|done]. Qed.

Lemma set_registering_ok s l : session_ok s -> session_ok (set_registering s l).
Proof. by intros []. Qed.
Lemma set_writers_ok s l : session_ok s -> (forall id n, (id, n) ∈ l -> exists sc, Accepted id n sc ∈ hist s) -> session_ok (set_writers s l).
Proof. by intros [] Hl. Qed.

Lemma closeStdinReady_ok s id n : session_ok s -> session_ok (closeStdinReady s id n) /\ hist (closeStdinReady s id n) = hist s.
Proof.
  intros Hs. unfold closeStdinReady. destruct (cmds s !! id) as [c|] eqn:Hc; [|done]. destruct (Nat.eqb (serial c) n); [|done].
  split; [|done]. eapply set_same_ok; [done|done|done..|]. cbn [phase]. by destruct (phase c) as [| |[]|].
Qed.

Lemma dispatch_ok e cmd s d s1 d1 r :
  dispatch e cmd s d = Some (s1, d1, r) -> session_ok s ->
  session_ok s1 /\ forall x msg, r = Some x -> ResponsePayload x = Error UNKNOWN_COMMAND_ID msg -> cmds s1 !! ResponseId x = None.
Proof.
  intros Hd Hs. assert (forall x : Response, (forall msg, ResponsePayload x <> Error UNKNOWN_COMMAND_ID msg) -> forall s0 : session,
    forall y msg, Some x = Some y -> ResponsePayload y = Error UNKNOWN_COMMAND_ID msg -> cmds s0 !! ResponseId y = None) as Hno.
  { intros x Hx s0 y msg [= <-] H. by apply Hx in H. }
  assert (forall id c closed, cmds s !! id = Some c -> session_ok (set_cmd s id (mkRunning (serial c) (shell c) (stdinReady c) closed (cancelled_ c) (timedOut c) (phase c)))) as Hset.
  { intros id c closed Hc. eapply set_same_ok; [done|done|done..|]. cbn [phase]. by destruct (phase c) as [| |[]|]. }
  unfold dispatch in Hd. destruct (needs_id _ && _); [injection Hd as <- <- <-; split; [done|by apply Hno]|].
  destruct (CommandPayload cmd) as [|sc|data| |signo| |c| |].
  - injection Hd as <- <- <-. split; [done|by apply Hno].
  - unfold startShellCommand in Hd. destruct (Stages sc) as [|st sts]; [injection Hd as <- <- <-; split; [done|by apply Hno]|].
    destruct (empty_argv 0 (st :: sts)); [injection Hd as <- <- <-; split; [done|by apply Hno]|].
    destruct (cmds s !! CommandId cmd) eqn:Ec; [injection Hd as <- <- <-; split; [done|by apply Hno]|].
    injection Hd as <- <- <-. split; [exact (accept_ok s (CommandId cmd) sc Hs Ec)|done].
  - unfold routeStdin in Hd. destruct (cmds s !! CommandId cmd) as [c|] eqn:Ec; cbn in Hd; [|injection Hd as <- <- <-; split; [done|by intros x msg [= <-] _]].
    destruct (stdinReady c) eqn:Er; cbn in Hd; [|destruct (ctx_done s); cbn in Hd; [injection Hd as <- <- <-; by split|done]].
    destruct (stdinClosed c); cbn in Hd; [injection Hd as <- <- <-; split; [done|by apply Hno]|].
    destruct (re_write_error e); cbn in Hd; injection Hd as <- <- <-; [|by split]. split; [rewrite <- Er; by apply Hset|by apply Hno].
  - unfold routeCloseStdin in Hd. destruct (cmds s !! CommandId cmd) as [c|] eqn:Ec; cbn in Hd; [|injection Hd as <- <- <-; split; [done|by intros x msg [= <-] _]].
    destruct (stdinReady c) eqn:Er; cbn in Hd; [|destruct (ctx_done s); cbn in Hd; [injection Hd as <- <- <-; by split|done]].
    injection Hd as <- <- <-. split; [rewrite <- Er; by apply Hset|done].
  - injection Hd as <- <- <-. split; [done|]. unfold routeSignal. destruct (signo <=? 0); [by apply Hno|]. destruct (cmds s !! CommandId cmd) eqn:Ec; [done|]. by intros x msg [= <-] _.
  - unfold handleRegisterRequired in Hd. destruct (re_register e); injection Hd as <- <- <-; [|split; [done|by apply Hno]]. split; [by apply set_registering_ok|done].
  - unfold handleAgentReady in Hd. destruct (re_config e); cbn in Hd; [|injection Hd as <- <- <-; split; [done|by apply Hno]].
    destruct (spawn_panic e d) as [[]|]; cbn in Hd; [injection Hd as <- <- <-; split; [done|by apply Hno]|].
    destruct (Supervisor.Run _ _ _) as [[rr sp]|]; cbn in Hd; [|done]. injection Hd as <- <- <-. split; [done|]. by destruct rr; apply Hno.
  - injection Hd as <- <- <-. split; [done|by apply Hno].
  - injection Hd as <- <- <-. split; [done|by apply Hno].
Qed.

(** Whether a command is over, from its phase. *)
Ltac alive Hp := rewrite Hp; cbn; tauto.
Ltac progress_of Hs Hc Hp Hsd :=
  lazymatch type of Hsd with send ?d _ ?r ?s ?s2 => eapply (send_worker_ok s _ _ r d s2 Hs Hc); [alive Hp|reflexivity|reflexivity|reflexivity|exact Hsd] end.
Ltac finish :=
  lazymatch goal with
  | Hs : session_ok ?s, Hc : cmds ?s !! _ = Some ?c, Hp : phase ?c = _, Hsd : send_final _ _ ?r ?s _ |- _ =>
      eapply (send_final_ok s _ c _ r _ _ Hs Hc); [alive Hp|reflexivity|reflexivity|reflexivity|exact Hsd|reflexivity|reflexivity|eauto]
  end.

Lemma started_ok s id c c' : session_ok s -> cmds s !! id = Some c -> phase c = Starting -> serial c' = serial c -> shell c' = shell c ->
  ~ over (phase c') -> session_ok (set_cmd s id c').
Proof.
  intros Hs Hc Hp Hn Hsh Ho. eapply set_same_ok; [done|done|done|done| |]; [rewrite Hp; cbn; tauto|]. by destruct (phase c') as [| |[]|].
Qed.

Lemma cleanup_ok s id c x : session_ok s -> cmds s !! id = Some c -> phase c = Finishing x -> session_ok (set_cmds s (delete id (cmds s))).
Proof.
  intros Hs Hc Hp. pose proof Hs as [H1 H2 H3 H4 H5 H6 H7 H8 H9 H10]. split; try done; cbn [set_cmds cmds hist].
  - intros id' c' [_ H]%lookup_delete_Some. by apply H3.
  - intros id' n sc Ha. destruct (H4 id' n sc Ha) as [(c' & Hc' & Hn)|?]; [|by right]. destruct (decide (id' = id)) as [->|Hne].
    + right. rewrite Hc in Hc'. injection Hc' as <-. subst n. apply (H3 id c Hc). alive Hp.
    + left. exists c'. by rewrite lookup_delete_ne.
Qed.

Lemma request_exit_ok s id c code : session_ok s -> cmds s !! id = Some c -> phase c = Exiting code -> stop s = Stopped ->
  session_ok (request_exit (set_cmd s id (set_phase c (Finishing None))) (mirrorExitCode code)).
Proof.
  intros Hs Hc Hp Hst. destruct (ok_cmds s Hs id c Hc) as (_ & _ & Hf). rewrite Hp in Hf.
  assert (session_ok (set_cmd s id (set_phase c (Finishing None)))) as [H1 H2 H3 H4 H5 H6 H7 H8 H9 H10] by (eapply set_same_ok; [done|done|done|done|alive Hp|done]).
  split; try done; cbn [request_exit set_cmd set_cmds cmds exit_request stop hist] in *. intros x Hx. split; [done|].
  destruct (exit_request s) as [y|] eqn:E; [apply H10, Hx|]. injection Hx as <-. by exists id, (serial c), (shell c), code.
Qed.

Lemma session_step_ok x y : step x y -> session_ok x.1 -> session_ok y.1.
Proof.
  intros Hst Hs. destruct Hst as [e cmd s d s1 d1 s2 r Hd Hsd|l1 id l2 ok err s d s2 _ Hsd|id n sc s d s2 _ _ Hsd|id c err s d s2 Hc Hp Hsd|id c s d s2 Hc Hp Hsd started
    |id c l data s d s2 Hc Hp Hsd|id c l err s d s2 Hc Hp Hsd|id c l1 i l2 b st failed s d s2 Hc Hp Hsd|id c b s d Hc Hp|id c l b s d Hc Hp _|id c s d s2 Hc Hp _ Ht Hsd
    |id c st failed late s d s2 Hc Hp _ Ht _ Hsd|id c code s d Hc Hp Hx Hn|id c code s d Hc Hp Hx|id c x s d Hc Hp|l1 id n l2 err s d s2 Hw Hsd
    |r q s d Hq Hsd|r q s d Hq Hsd|s d Hcx Hsd|s d Hns Hsd|s d Hq Hsd|s d|s d|s d Hns]; cbn [fst] in *.
  - destruct (dispatch_ok _ _ _ _ _ _ _ Hd Hs) as [Hs1 Hu]. destruct r as [r|]; [|by subst s2]. eapply send_receiver_ok; [done| |done]. intros msg. by apply Hu.
  - apply set_registering_ok. by eapply (send_receiver_ok s); [..|exact Hsd].
  - by eapply (send_receiver_ok s); [..|exact Hsd].
  - finish.
  - assert (session_ok s2 /\ cmds s2 = cmds s /\ hist s `prefix_of` hist s2 /\ writers s2 = writers s) as (Hs2 & E & [k Ek] & Ew) by progress_of Hs Hc Hp Hsd.
    assert (session_ok started) as Hst by (eapply started_ok; [done|by rewrite E|done|done|done|cbn; tauto]). destruct (String.eqb _ _); [done|].
    apply set_writers_ok; [done|]. change (hist started) with (hist s2). rewrite <- Ew. intros id' n [H|H%list_elem_of_singleton]%elem_of_app; [by apply (ok_writers s2 Hs2)|].
    injection H as -> ->. exists (shell c). destruct (ok_cmds s Hs id c Hc) as [Ha _]. rewrite Ek. set_solver.
  - by assert (session_ok s2 /\ cmds s2 = cmds s /\ hist s `prefix_of` hist s2 /\ writers s2 = writers s) as [Hs2 _] by progress_of Hs Hc Hp Hsd.
  - assert (session_ok s2 /\ cmds s2 = cmds s) as (Hs2 & E).
    { destruct err; [|by subst s2]. assert (session_ok s2 /\ cmds s2 = cmds s /\ hist s `prefix_of` hist s2 /\ writers s2 = writers s) as (? & ? & _) by progress_of Hs Hc Hp Hsd. done. }
    eapply set_same_ok; [done|by rewrite E|done|done|alive Hp|done].
  - assert (session_ok s2 /\ cmds s2 = cmds s /\ hist s `prefix_of` hist s2 /\ writers s2 = writers s) as (Hs2 & E & _).
    { eapply send_worker_ok; [done|done|alive Hp| | | |exact Hsd]; unfold stageExitResponse; by destruct st as [[]|]. }
    eapply set_same_ok; [done|by rewrite E|done|done|alive Hp|done].
  - eapply set_same_ok; [done|done|done|done|done|]. cbn [phase]. by rewrite Hp.
  - eapply set_same_ok; [done|done|done|done|done|]. cbn [phase]. by rewrite Hp.
  - finish.
  - finish.
  - destruct (ok_cmds s Hs id c Hc) as (Ha & Ho & Hr). rewrite Hp in Hr. apply begin_stop_ok; [|by intros ? ? ? [= <- <- <-]].
    eapply set_cmd_ok; [done|done|done|]. split; [done|]. split; [cbn; rewrite Hp in Ho; exact Ho|]. by split.
  - by apply (request_exit_ok s id c code).
  - by apply (cleanup_ok s id c x).
  - assert (exists sc, Accepted id n sc ∈ hist s) as [sc Ha] by (apply (ok_writers s Hs); rewrite Hw; set_solver).
    assert (session_ok s2 /\ hist s `prefix_of` hist s2) as [Hs2 [k Ek]].
    { destruct err as [e|]; [|subst s2; by split; [|exists []; rewrite app_nil_r]]. split; [refine (send_writer_ok s id n sc _ _ s2 Hs Ha _ _ Hsd); [done|by eexists]|].
      destruct Hsd as [_|_]; [by apply prefix_app_r|by exists []; rewrite app_nil_r]. }
    destruct (closeStdinReady_ok s2 id n Hs2) as [Hs3 E]. apply set_writers_ok; [done|]. intros id' n' Hin. rewrite E, Ek.
    destruct (ok_writers s Hs id' n') as [sc' Hsc]; [rewrite Hw; set_solver|]. exists sc'. set_solver.
  - pose proof (ok_pipe s Hs) as Hp. unfold pipe_ok in Hp. apply set_pipe_ok; [done| |done|by intros [E|E]; rewrite E in Hsd; destruct Hsd|intros E; rewrite E in Hsd; destruct Hsd as [[=]|_]; intros Hn; destruct (ok_unstopped s Hs Hn) as [_ []]; congruence|intros E; rewrite E in Hsd; by destruct Hsd].
    unfold pipe_ok. cbn [set_pipe sending wire sendCh hist]. destruct Hsd as [E|E]; rewrite E in *; rewrite Hq in Hp; by rewrite <- app_assoc.
  - apply set_pipe_ok; [done|exact (wire_prefix s Hs)|done|by intros [E|E]; rewrite E in Hsd; destruct Hsd|done|done].
  - apply set_pipe_ok; [done|exact (wire_prefix s Hs)|done|by intros [E|E]; rewrite E in Hsd|done|done].
  - pose proof (ok_pipe s Hs) as Hp. unfold pipe_ok in Hp. rewrite Hsd in Hp. apply set_pipe_ok; [done|exact Hp|done|by intros [E|E]; rewrite E in Hsd|done|done].
  - pose proof (ok_pipe s Hs) as Hp. unfold pipe_ok in Hp. rewrite Hsd, Hq, app_nil_r in Hp.
    apply set_pipe_ok; [done|unfold pipe_ok; cbn; by rewrite app_nil_r|done|by intros [E|E]; rewrite E in Hsd|done|].
    intros _. right. split; [|done]. intros Hn. destruct (ok_unstopped s Hs Hn) as [_ []]; congruence.
  - apply set_pipe_ok; [done|exact (ok_pipe s Hs)|done|done| |by left]. intros E Hn. destruct (ok_unstopped s Hs Hn) as [_ []]; congruence.
  - by apply begin_stop_ok.
  - by apply end_stop_ok.
Qed.

Lemma new_session_ok : session_ok new_session.
Proof.
  split; cbn [new_session cmds sendCh wire ctx_done exit_request registering writers sending stop next_serial hist]; try done.
  - constructor.
  - by intros ? ? ? ?%not_elem_of_nil.
  - by intros ? ? ?%not_elem_of_nil.
  - by intros ? ? ?%not_elem_of_nil.
  - intros _. split; [|by left]. intros b. apply not_elem_of_nil.
Qed.

Lemma session_reachable_ok d0 s d : rtc step (new_session, d0) (s, d) -> session_ok s.
Proof.
  assert (forall x y, rtc step x y -> session_ok x.1 -> session_ok y.1) as Hr by (induction 1 as [|x y z Hxy _ IH]; [done|intros Hx; by eapply IH, session_step_ok]).
  intros H. apply (Hr _ _ H), new_session_ok.
Qed.

(** ** What histories look like *)

(** What a worker queues, and that nothing of it follows what it ends with. *)
Lemma legal_worker_frames h : legal h -> forall h1 n r h2, h = h1 ++ Queued (Worker n) r :: h2 ->
  worker_frame r = true /\ (exists sc, Accepted (ResponseId r) n sc ∈ h1) /\ (concludes r = true -> Forall (silent n) h2).
Proof.
  assert (forall h1 n r h2, concludes r = true -> ended n (h1 ++ Queued (Worker n) r :: h2)) as Hend by (intros h1 n r h2 Hf; right; exists r; set_solver).
  induction 1 as [|h id m sc _ IH Hn|h id m sc _ IH Hm|h id m sc r' _ IH Hm Ha Hi Hw|h id m sc r' _ IH|h r' _ IH|h b _ IH|h _ IH]; intros h1 n r h2 E; [by destruct h1|..];
    (apply snoc_split in E as [(-> & -> & E)|(h' & -> & ->)]; [try done|destruct (IH h1 n r h' eq_refl) as (I1 & I2 & I3); split; [done|]; split; [done|];
      intros Hf; specialize (I3 Hf); apply Forall_app; split; [done|]; apply Forall_singleton; cbn; try done; intros ->; by apply Hm, Hend]).
  injection E as -> ->. split; [done|]. split; [by exists sc; rewrite Hi|]. intros _. constructor.
Qed.

Lemma legal_writer_frames h : legal h -> forall h1 n r h2, h = h1 ++ Queued (StdinWriter n) r :: h2 ->
  io_error r /\ exists sc, Accepted (ResponseId r) n sc ∈ h1.
Proof.
  induction 1 as [|h id m sc _ IH Hn|h id m sc _ IH Hm|h id m sc r' _ IH Hm Ha Hi Hw|h id m sc r' _ IH Ha Hi Hr|h r' _ IH|h b _ IH|h _ IH]; intros h1 n r h2 E; [by destruct h1|..];
    (apply snoc_split in E as [(-> & -> & E)|(h' & -> & ->)]; [try done|by eapply IH]).
  injection E as -> ->. split; [done|]. exists sc. by rewrite Hi.
Qed.

Lemma legal_unknown_late h : legal h -> forall h1 r msg h2 n sc, h = h1 ++ Queued Receiver r :: h2 ->
  ResponsePayload r = Error UNKNOWN_COMMAND_ID msg -> Accepted (ResponseId r) n sc ∈ h1 -> ended n h1.
Proof.
  induction 1 as [|h id m sc0 _ IH Hn|h id m sc0 _ IH Hm|h id m sc0 r' _ IH Hm Ha Hi Hw|h id m sc0 r' _ IH|h r' _ IH Hu|h b _ IH|h _ IH]; intros h1 r msg h2 n sc E Hr Hac; [by destruct h1|..];
    (apply snoc_split in E as [(-> & -> & E)|(h' & -> & ->)]; [try done|by eapply IH]).
  injection E as ->. by eapply Hu.
Qed.

Lemma legal_stopper h : legal h -> forall h1 id n code h2, h = h1 ++ StopCalled (Some (id, n, code)) :: h2 -> reported id n code h1.
Proof.
  induction 1 as [|h id0 m sc _ IH Hn|h id0 m sc _ IH Hm|h id0 m sc r' _ IH Hm Ha Hi Hw|h id0 m sc r' _ IH|h r' _ IH|h b _ IH Hb|h _ IH]; intros h1 id n code h2 E; [by destruct h1|..];
    (apply snoc_split in E as [(-> & -> & E)|(h' & -> & ->)]; [try done|by eapply IH]).
  injection E as ->. by apply Hb.
Qed.

(** C32: In every interleaving of receiver, workers, the writers of initial inputs and
    the sender, none of which panics, the stream carries a prefix of the responses in
    the order in which they were queued.  What a command's worker queues bears the
    identifier the command was accepted under, which is one per command: the start,
    output, stage exits, IO_ERRORs and at most one of Done, SPAWN_FAILED and TIMEOUT,
    after which the worker queues nothing.  The writer of its initial input queues
    nothing but an IO_ERROR under that identifier, at any time.  And the receiver
    answers UNKNOWN_COMMAND_ID only after every command accepted under that identifier
    has come to its end.  (The protocol has every Error end its command, and one of
    Done and Error for each: an IO_ERROR does neither, see [io_error_not_terminal].) *)
Theorem session_frames_legal d0 s d :
  rtc step (new_session, d0) (s, d) ->
  wire s `prefix_of` queued (hist s) /\
  (forall h1 n r h2, hist s = h1 ++ Queued (Worker n) r :: h2 ->
     worker_frame r = true /\ (exists sc, Accepted (ResponseId r) n sc ∈ h1) /\ (concludes r = true -> Forall (silent n) h2)) /\
  (forall h1 n r h2, hist s = h1 ++ Queued (StdinWriter n) r :: h2 -> io_error r /\ exists sc, Accepted (ResponseId r) n sc ∈ h1) /\
  (forall id sc id' sc' n, Accepted id n sc ∈ hist s -> Accepted id' n sc' ∈ hist s -> id = id' /\ sc = sc') /\
  (forall h1 r msg h2 n sc, hist s = h1 ++ Queued Receiver r :: h2 -> ResponsePayload r = Error UNKNOWN_COMMAND_ID msg ->
     Accepted (ResponseId r) n sc ∈ h1 -> ended n h1).
Proof.
  intros H%session_reachable_ok. pose proof (ok_legal s H) as Hl. split_and!.
  - by apply wire_prefix.
  - by apply legal_worker_frames.
  - by apply legal_writer_frames.
  - intros. by eapply legal_unique.
  - intros. by eapply legal_unknown_late.
Qed.

Lemma mirror_range code : code <> 0 -> 1 <= mirrorExitCode code <= 255 /\ (1 <= code <= 255 -> mirrorExitCode code = code).
Proof. intros Hn. unfold mirrorExitCode. destruct (Z.ltb_spec code 0), (Z.ltb_spec 255 code); cbn; lia. Qed.


(** ** Runs *)

Definition idle_env : recv_env := mkRecvEnv Supervisor.demo_kernel None None true true None.
Definition boot_daemon : daemon := mkDaemon false Supervisor.NewSpawnState.
Definition demo_command : ShellCommand := mkShell [mkStage ["false"] 0 0 ∅] 60 "" false true.

(** A command of one stage after its process was reaped and its output read (with
    an error or not), with its timer fired or not. *)
Definition drain_error : Response := errResponse "init-1" IO_ERROR "output drain: input/output error".
Definition reaped (failed timed : bool) : session :=
  let frames := [mkResponse "init-1" Started; mkResponse "init-1" (StageExit 0 3 0)] ++ (if failed then [drain_error] else []) in
  mkSession {["init-1" := mkRunning 0 demo_command true true timed timed (Running [] true)]} frames [] false None [] [] Sending NotStopped 1
    (Accepted "init-1" 0 demo_command :: (Queued (Worker 0) <$> frames)).

Ltac running := cbn; first [reflexivity | done | apply Nat.ltb_lt; vm_compute; reflexivity | lia].
Lemma reaped_reachable failed timed : rtc step (new_session, boot_daemon) (reaped failed timed, boot_daemon).
Proof.
  eapply rtc_l. { eapply (step_recv idle_env (mkCommand "init-1" (Shell demo_command)) new_session boot_daemon _ boot_daemon _ None); reflexivity. }
  eapply rtc_l. { eapply (step_started "init-1"); [running|running|]. apply send_queued. running. }
  eapply rtc_l. { eapply (step_stage "init-1" _ [] 0 [] false (Some (Supervisor.Exited 3)) true); [running|running|]. apply send_queued. running. }
  eapply rtc_l. { eapply (step_drained "init-1" _ [] (if failed then Some "input/output error" else None)); [running|running|]. instantiate (1 := if failed then _ else _). destruct failed; [apply send_queued; running|reflexivity]. }
  eapply rtc_l. { eapply (step_stdin_closed "init-1" _ true); destruct failed; running. }
  destruct timed; [|by destruct failed].
  eapply rtc_l. { eapply (step_timeout "init-1" _ [] true); destruct failed; running. }
  by destruct failed.
Qed.

(** The command has reported its exit code. *)
Definition failed_step (failed : bool) : session :=
  mkSession {["init-1" := mkRunning 0 demo_command true true false false (Finishing (Some 3))]}
    (sendCh (reaped failed false) ++ [mkResponse "init-1" (Done 3)]) [] false None [] [] Sending NotStopped 1
    (hist (reaped failed false) ++ [Queued (Worker 0) (mkResponse "init-1" (Done 3))]).
Lemma failed_step_reachable failed : rtc step (new_session, boot_daemon) (failed_step failed, boot_daemon).
Proof.
  eapply rtc_r; [apply (reaped_reachable failed false)|].
  refine (step_done "init-1" _ (Some (Supervisor.Exited 3)) true false (reaped failed false) boot_daemon (push (reaped failed false) (Worker 0) (mkResponse "init-1" (Done 3))) eq_refl eq_refl eq_refl eq_refl _ _); [done|].
  apply final_queued. destruct failed; running.
Qed.

(** It stops the session, the sender flushes the queue, and the daemon is asked to
    exit. *)
Definition exited_step : session :=
  mkSession {["init-1" := mkRunning 0 demo_command true true true false (Finishing None)]} [] (sendCh (failed_step false)) true (Some 3) [] []
    Flushed Stopped 1 (hist (failed_step false) ++ [StopCalled (Some ("init-1", 0%nat, 3))]).
Lemma exited_step_reachable : rtc step (new_session, boot_daemon) (exited_step, boot_daemon).
Proof.
  etrans; [apply (failed_step_reachable false)|].
  eapply rtc_l. { eapply (step_exit_on_non_zero "init-1" _ 3); running. }
  eapply rtc_l. { eapply step_drain; running. }
  do 3 (eapply rtc_l; [eapply step_deliver; [running|by right]|]).
  eapply rtc_l. { eapply step_flushed; running. }
  eapply rtc_l. { eapply step_stopped; running. }
  eapply rtc_l. { eapply (step_request_exit "init-1" _ 3); running. }
  exact (rtc_refl step (exited_step, boot_daemon)).
Qed.

Lemma session_frames_legal_witness :
  wire exited_step `prefix_of` queued (hist exited_step) /\ worker_frame (mkResponse "init-1" (Done 3)) = true /\
  Forall (silent 0) [StopCalled (Some ("init-1", 0%nat, 3))].
Proof.
  destruct (session_frames_legal boot_daemon exited_step boot_daemon exited_step_reachable) as (Hw & Hf & _). split; [exact Hw|].
  destruct (Hf (hist (reaped false false)) 0%nat (mkResponse "init-1" (Done 3)) [StopCalled (Some ("init-1", 0%nat, 3))] eq_refl) as (H1 & _ & H3).
  split; [exact H1|exact (H3 eq_refl)].
Defined.


(** The protocol (clawkerd.proto) has every Error end its command, and each command
    end with one of Done and Error: a command whose output cannot be read answers an
    IO_ERROR and its Done after it. *)
Theorem io_error_not_terminal :
  exists s, rtc step (new_session, boot_daemon) (s, boot_daemon) /\
    queued (hist s) = [mkResponse "init-1" Started; mkResponse "init-1" (StageExit 0 3 0); drain_error; mkResponse "init-1" (Done 3)].
Proof. exists (failed_step true). split; [apply failed_step_reachable|reflexivity]. Qed.

(** A command whose timer killed it may answer nothing at all, in a session that
    goes on: its TIMEOUT response is sent with the context that the timer has
    cancelled, and [select] may take the branch that drops it. *)
Theorem timeout_lost :
  exists s, rtc step (new_session, boot_daemon) (s, boot_daemon) /\ ctx_done s = false /\ cmds s = ∅ /\ Accepted "init-1" 0 demo_command ∈ hist s /\
    Forall (fun r => classifyDropPayload r <> payloadClassTerminal) (queued (hist s)).
Proof.
  exists (mkSession ∅ (sendCh (reaped false true)) [] false None [] [] Sending NotStopped 1 (hist (reaped false true) ++ [Lost 0])).
  split_and!; [|done|done|cbn; left|by repeat constructor].
  eapply rtc_r; [eapply rtc_r; [apply (reaped_reachable false true)|]|].
  - eapply (step_timed_out "init-1"); [running|running|running|running|]. by apply final_dropped.
  - exact (step_cleanup "init-1" _ _ (set_cmd (note (reaped false true) (Lost 0)) "init-1" (mkRunning 0 demo_command true true true true (Finishing None))) boot_daemon eq_refl eq_refl).
Qed.

(** [Run] (spawn_unix.go) is documented never to mask a child that was not spawned as
    Done: after a panic inside the spawn, which is answered with an IO_ERROR, the next
    AgentReady is answered with Done although nothing was forked. *)
Definition spawn_env (p : option (panic_at * string)) : recv_env :=
  mkRecvEnv Supervisor.demo_kernel (Some (fun _ => Supervisor.demo_config)) p true true None.
Theorem panic_masks_spawn :
  exists d1 msg, handleAgentReady (spawn_env (Some (InsideRun, "nil map"))) "a" "" boot_daemon = Some (d1, errResponse "a" IO_ERROR msg) /\
    exists d2, handleAgentReady (spawn_env None) "b" "" d1 = Some (d2, mkResponse "b" (Done 0)) /\ Supervisor.forked (spawn d2) = [] /\ Supervisor.Spawned (spawn d2) = false.
Proof. eexists _, _. split; [reflexivity|]. eexists. by vm_compute. Qed.

End DaemonSession.
