(* ===== verification/OneShot.v ===== *)
(** * The init plan runs once

    controlplane/agent/dialer.go, controlplane/agent/exec.go and
    clawkerd/session.go together: the control plane decides from the HelloAck of
    each session whether to run the init plan, and the daemon remembers with a
    marker file that the plan was completed.  What the control plane relies on is
    an interface, which the daemon's handlers implement. *)

From S2P Require Import Prelude GoStrings GoNet SessionProto AgentIdentity AgentRegistry AgentStore Executor Dialer Supervisor DaemonSession.
Import Go SessionProto.

Module OneShot.

(** The command that completes the init plan. *)
Definition marks (c : Command) : Prop := CommandPayload c = AgentInitialized /\ CommandId c <> "".
Definition sent (tr : list traffic) : list Command := omap (fun t => match t with Tx c => Some c | Rx _ => None end) tr.
Lemma sent_app tr1 tr2 : sent (tr1 ++ tr2) = sent tr1 ++ sent tr2.
Proof. apply omap_app. Qed.
Lemma sent_Rx frames : sent (Rx <$> frames) = [].
Proof. by induction frames. Qed.

(** What the daemon promises: a mark that the completing command sets, that
    nothing takes away, and that the first frame after a Hello reports. *)
Class InitMark {P : Type} (react : P -> Command -> result string (P * list recv)) := {
  marked : P -> Prop;
  mark_kept p c p' frames : react p c = Ok (p', frames) -> marked p -> marked p';
  mark_set p c p' frames : react p c = Ok (p', frames) -> marks c -> marked p';
  mark_reported p p' frames r rest : react p (mkCommand "hello" Hello) = Ok (p', frames) -> marked p -> frames = Frame r :: rest ->
    forall a, ResponsePayload r = RHelloAck a -> Initialized a = true;
}.

Section Sessions.
Context {P : Type} (react : P -> Command -> result string (P * list recv)) `{!InitMark react}.

(** A stretch of a session that sends commands of [Q] only. *)
Definition moves (Q : Command -> Prop) (s s' : Stream P) : Prop :=
  (marked (peer s) -> marked (peer s')) /\
  exists tr, log s' = log s ++ tr /\ Forall Q (sent tr) /\ (Exists marks (sent tr) -> marked (peer s')).

Lemma moves_recv Q s inb frames b : moves Q s (mkStream (peer s) inb (log s ++ (Rx <$> frames)) b).
Proof. split; [done|]. eexists. split; [done|]. rewrite sent_Rx. split; [constructor|]. by intros ?%Exists_nil. Qed.
Lemma moves_refl Q s : moves Q s s.
Proof. destruct s as [p inb l b]. rewrite <- (app_nil_r l) at 2. apply (moves_recv Q (mkStream p inb l b) inb [] b). Qed.
Lemma moves_trans Q s1 s2 s3 : moves Q s1 s2 -> moves Q s2 s3 -> moves Q s1 s3.
Proof.
  intros (Hk1 & tr1 & E1 & HQ1 & Hm1) (Hk2 & tr2 & E2 & HQ2 & Hm2). split; [by auto|]. exists (tr1 ++ tr2).
  rewrite sent_app. split_and!; [by rewrite E2, E1, app_assoc|by apply Forall_app|]. intros [?|?]%Exists_app; auto.
Qed.
Lemma moves_weaken (Q Q' : Command -> Prop) s s' : (forall c, Q c -> Q' c) -> moves Q s s' -> moves Q' s s'.
Proof. intros HQ (Hk & tr & E & Ht & Hm). split; [done|]. exists tr. split_and!; [done| |done]. by eapply Forall_impl. Qed.
Lemma moves_send (Q : Command -> Prop) s c s' : Send react s c = Ok s' -> Q c -> moves Q s s'.
Proof.
  intros E HQ. pose proof (Send_log react s c s' E) as El. unfold Send in E. destruct (cancelled s); [done|].
  destruct (react (peer s) c) as [[p fr]|] eqn:Er; [|done]. injection E as <-. split; [by eapply mark_kept|].
  exists [Tx c]. split_and!; [done|by repeat constructor|]. cbn. intros [Hc| ?%Exists_nil]%Exists_cons; [|done]. by eapply mark_set.
Qed.

(** The commands of a plan. *)
Definition of_plan (label : string) (c : Command) : Prop := exists rest, CommandId c = label +:+ "-" +:+ rest.

Lemma runStep_moves s cid label i st o err s' : Executor.runStep react s cid label i st = (o, err, s') -> moves (of_plan label) s s'.
Proof.
  unfold Executor.runStep. set (id := Executor.buildCommandID _ _ _ _). assert (forall p, of_plan label (mkCommand id p)) as Hid by (intros p; by eexists).
  assert (forall r s1, Executor.sendStepCommand react s id st = (r, s1) -> moves (of_plan label) s s1) as Hsend.
  { intros r s1. unfold Executor.sendStepCommand. destruct (Executor.StepCommand st id) as [cmd follow] eqn:Ec.
    assert (of_plan label cmd) as Hcmd by (destruct st; injection Ec as <- <-; apply Hid).
    destruct (Send react s cmd) as [s2|e] eqn:E1; [|intros [= _ <-]; apply moves_refl]. pose proof (moves_send _ _ _ _ E1 Hcmd) as H1.
    destruct follow; [|by intros [= _ <-]]. destruct (Send react s2 _) as [s3|e] eqn:E2; intros [= _ <-]; [|done].
    eapply moves_trans; [exact H1|by eapply moves_send]. }
  destruct (Executor.sendStepCommand react s id st) as [[|e] s1] eqn:E; specialize (Hsend _ _ eq_refl); [|by intros [= _ _ <-]].
  destruct (Executor.awaitStepResult _ _ _ _ _) as [[[o' err'] inb] got]. intros [= _ _ <-]. eapply moves_trans; [exact Hsend|apply moves_recv].
Qed.

Lemma run_steps_moves env t label count i plan s : moves (of_plan label) s (Executor.r_stream (Executor.run_steps react env t label count i plan s)).
Proof.
  revert i s. induction plan as [|st plan IH]; intros i s; cbn; [apply moves_refl|].
  destruct (Executor.panic_in env i); [apply moves_refl|]. destruct (Executor.runStep react s _ label i st) as [[o err] s1] eqn:E. apply runStep_moves in E.
  destruct (Executor.Failed o); [by destruct (Executor.reportStepFailure _ _ _ _ _ _ _) as [[??]?]|].
  destruct (Executor.panic_after env i); [done|]. eapply moves_trans; [exact E|apply IH].
Qed.

(** ** A session *)

Context (Lookup : P -> string -> AgentRegistry.lookup) (query_error : string).
Context (ParseCertificate : string -> result string AgentIdentity.Cert) (Verify : AgentIdentity.Cert -> list AgentIdentity.Cert -> result string unit).
Context (Sum256 : string -> string) (texts : Executor.scripts) (cid : string).

Definition not_init (c : Command) : Prop := ~ of_plan "init" c.

Lemma dispatch_moves res timeout s d : moves not_init s (Dialer.DispatchAgentEvents react Lookup query_error cid res timeout s d).1.
Proof.
  unfold Dialer.DispatchAgentEvents. destruct (Dialer.ClassifyRegistry _ _ _ _) as [[] ?]; try apply moves_refl.
  unfold Dialer.DriveRegister. destruct (Send react s _) as [s1|e] eqn:E; [|apply moves_refl].
  assert (moves not_init s s1) as H1 by (eapply moves_send; [exact E|]; by intros [rest [=]]).
  eapply moves_trans; [exact H1|]. unfold Dialer.awaitRegisterDone. destruct (Dialer.recvRegisterDone _ _) as [[got rest] frames].
  destruct timeout as [n|]; [destruct (Dialer.ctx_Err d); apply moves_recv|].
  destruct (Dialer.handleRegisterResult cid res got d) as [[] d']; apply moves_recv.
Qed.

Lemma run_if_moves should wired env res plan name sd :
  moves (fun c => should = Some true /\ of_plan name c) sd.1 (Dialer.run_if react cid should wired env res plan name sd).1.
Proof.
  destruct should as [[]|]; try apply moves_refl. cbn. unfold Dialer.runPlan. destruct wired; [|apply moves_refl]. cbn.
  eapply moves_weaken; [|apply run_steps_moves]. done.
Qed.

Lemma drain_moves Q s late d : moves Q s (Dialer.drainStream s late d).1.2.
Proof.
  unfold Dialer.drainStream. generalize (@nil Response) as got. induction (inbox s ++ late) as [|[r| |e|] inb IH]; intros got; cbn; try apply moves_recv; [apply IH|..];
    destruct (Dialer.ctx_Err d); apply moves_recv.
Qed.

Lemma hold_moves wired c res s d :
  moves (fun cmd => of_plan "init" cmd -> Executor.shouldAgentInit (Dialer.HelloAck_ res) = Some true) s
    (Dialer.hold_session react Lookup query_error texts cid wired c res s d).1.2.
Proof.
  unfold Dialer.hold_session. set (sd1 := Dialer.DispatchAgentEvents _ _ _ _ _ _ _ _). set (sd2 := Dialer.run_if react cid _ _ (Dialer.c_init c) _ _ _ _).
  set (sd3 := Dialer.run_if react cid _ _ (Dialer.c_boot c) _ _ _ _).
  assert (moves not_init s sd1.1) as H1 by apply dispatch_moves. pose proof (run_if_moves _ _ _ _ _ _ _ : moves _ sd1.1 sd2.1) as H2.
  pose proof (run_if_moves _ _ _ _ _ _ _ : moves _ sd2.1 sd3.1) as H3. clearbody sd3. destruct sd3 as [s3 d3].
  eapply moves_trans; [eapply moves_weaken; [|exact H1]; by intros ? ?|]. eapply moves_trans; [eapply moves_weaken; [|exact H2]; by intros ? [? _] _|].
  eapply moves_trans; [eapply moves_weaken; [|exact H3]; by intros ? [_ [? E1]] [? E2]; rewrite E1 in E2|apply drain_moves].
Qed.

(** ** A dial *)

(** The daemon keeps its mark between sessions, and speaks when spoken to. *)
Definition keeps (a : Dialer.attempt) : Prop :=
  (forall p, marked p -> marked (Dialer.at_drift (P := P) a p)) /\ forall certs unasked, Dialer.at_open a = Dialer.Opened certs unasked -> unasked = [].

Lemma tryEstablish_mark p o r p' :
  (forall certs unasked, o = Dialer.Opened certs unasked -> unasked = []) -> Dialer.tryEstablish react ParseCertificate Verify Sum256 p o = (r, p') ->
  (marked p -> marked p') /\
  forall a info s, r = Ok (a, info, s) -> (marked p -> Initialized a = true) /\ peer s = p' /\ Forall (fun c => c = mkCommand "hello" Hello) (sent (log s)).
Proof.
  intros Ho. destruct o as [e|e|certs un]; cbn; [intros [= <- <-]; by split|intros [= <- <-]; by split|]. rewrite (Ho _ _ eq_refl). clear.
  unfold Dialer.helloHandshake, Send. cbn. destruct (react p _) as [[p1 fr]|e] eqn:E; cbn; [|intros [= <- <-]; by split].
  pose proof (fun H => mark_kept _ _ _ _ E H) as Hk. destruct fr as [|[x| |e|] rest]; cbn; try (intros [= <- <-]; by split).
  destruct (ResponsePayload x) as [a| | | | | | |] eqn:Ex; intros [= <- <-]; (split; [done|]); intros a' info s [=]; subst; cbn.
  split_and!; [|done|by repeat constructor]. intros Hm. by eapply mark_reported.
Qed.

Lemma establish_mark attempts n deadline backoff published p d r p' d' :
  Forall keeps attempts -> Dialer.establish_from react ParseCertificate Verify Sum256 cid attempts n deadline backoff published p d = (r, p', d') ->
  (marked p -> marked p') /\
  forall res s, r = Some (res, Some s) ->
    (marked p -> Executor.shouldAgentInit (Dialer.HelloAck_ res) = Some false) /\ peer s = p' /\ Forall (fun c => c = mkCommand "hello" Hello) (sent (log s)).
Proof.
  intros Hall. revert n backoff published p d. induction Hall as [|a attempts [Hdrift Hopen] _ IH]; intros n backoff published p d; cbn.
  { intros [= <- <- <-]. by split. }
  destruct (Dialer.ctx_Err d) as [[] d1]; [intros [= <- <- <-]; by split|].
  unfold Dialer.attemptEstablish. destruct (Dialer.resolveAgent (Dialer.at_inspect a)) as [c|e].
  - destruct (Dialer.agentLabels c) as [agent project]. destruct (Dialer.clawkerNetAddr c) as [addr|]; [|intros [= <- <- <-]; split; [auto|done]].
    set (d2 := if published then d1 else _). destruct (Dialer.tryEstablish _ _ _ _ _ _) as [[[[a' info] s]|e] p1] eqn:Et;
      apply tryEstablish_mark in Et as [Hk Hs]; try done.
    + intros [= <- <- <-]. split; [auto|]. intros res s' [= <- <-]. destruct (Hs a' info s eq_refl) as (Ha & Hp & Hl). split_and!; [|done|done].
      intros Hm. cbn. rewrite Ha by auto. by destruct (CmdRunning a').
    + destruct (Dialer.handleDialError _ _ _ _ _ _ _ _) as [[r0|b] d3]; cbn; [intros [= <- <- <-]; split; [auto|done]|].
      intros H. apply IH in H as [Hk' Hs']. split; [auto|]. intros res s' E. destruct (Hs' res s' E) as (? & ? & ?). auto.
  - destruct (Dialer.handleResolveError _ _ _ _ _ _) as [[r0|b] d3]; cbn; [intros [= <- <- <-]; split; [auto|done]|].
    intros H. apply IH in H as [Hk' Hs']. split; [auto|]. intros res s' E. destruct (Hs' res s' E) as (? & ? & ?). auto.
Qed.

(** A session that runs none of the init plan, and a sequence of sessions of which
    none runs any of it once one completed it. *)
Definition quiet (l : list traffic) : Prop := Forall not_init (sent l).
Fixpoint one_shot (logs : list (list traffic)) : Prop :=
  match logs with [] => True | l :: logs => (Exists marks (sent l) -> Forall quiet logs) /\ one_shot logs end.

Lemma one_shot_split logs : one_shot logs -> forall l1 l l2, logs = l1 ++ l :: l2 -> Exists marks (sent l) -> Forall quiet l2.
Proof.
  induction logs as [|l0 logs IH]; intros H l1 l l2 E Hm; [by destruct l1|]. destruct H as [H1 H2]. destruct l1 as [|x l1]; injection E as -> ->; [by apply H1|by eapply IH].
Qed.

Definition dial_keeps (c : Dialer.cycle) : Prop := Forall keeps (Dialer.c_attempts (P := P) c).

(** What the sessions of a dial leave, from a state that is marked or not. *)
Lemma runDial_one_shot wired cycles count p d logs :
  Forall dial_keeps cycles ->
  exists new, Dialer.ds_logs (Dialer.runDial react Lookup query_error ParseCertificate Verify Sum256 texts cid wired cycles count p d logs) = logs ++ new /\
    (marked p -> Forall quiet new) /\ one_shot new.
Proof.
  intros Hall. revert count p d logs. induction Hall as [|c cycles Hc _ IH]; intros count p d logs; cbn.
  { exists []. by rewrite app_nil_r. }
  assert (forall b d' (p' : P), exists new, Dialer.ds_logs (Dialer.mkDialState b d' logs p') = logs ++ new /\ (marked p -> Forall quiet new) /\ one_shot new) as Hend.
  { intros. exists []. by rewrite app_nil_r. }
  destruct (Dialer.ctx_Err d) as [[] d1]; [apply Hend|]. unfold Dialer.establishWithRetry.
  destruct (Dialer.establish_from _ _ _ _ _ _ _ _ _ _ _ _) as [[r p1] d2] eqn:Ee. apply establish_mark in Ee as [Hk Hs]; [|exact Hc].
  destruct r as [[res [s|]]|]; [|destruct (Dialer.Outcome res); apply Hend|apply Hend].
  destruct (Hs res s eq_refl) as (Ha & Hp & Hl). clear Hs Hend. pose proof (hold_moves wired c res s d2) as Hmoves.
  destruct (Dialer.hold_session _ _ _ _ _ _ _ _ _ _) as [[drain s1] d3]. destruct Hmoves as (Hk1 & tr & El & HQ & Hm1). cbn [fst snd] in *.
  assert (marked p -> quiet (log s1)) as Hq.
  { intros Hmk. unfold quiet. rewrite El, sent_app. apply Forall_app. split.
    - eapply Forall_impl; [exact Hl|]. intros x ->. by intros [rest [=]].
    - eapply Forall_impl; [exact HQ|]. intros x Hx Hi. by rewrite (Ha Hmk) in Hx; discriminate Hx. }
  assert (Exists marks (sent (log s1)) -> marked (peer s1)) as Hset.
  { rewrite El, sent_app. intros [Hx|Hx]%Exists_app; [|by apply Hm1]. exfalso. apply Exists_exists in Hx as (x & Hin & [Hx _]). rewrite Forall_forall in Hl. by rewrite (Hl x Hin) in Hx. }
  assert (marked p -> marked (peer s1)) as Hkeep by (intros; apply Hk1; rewrite Hp; auto).
  assert (forall d', exists new, Dialer.ds_logs (Dialer.mkDialState true d' (logs ++ [log s1]) (peer s1)) = logs ++ new /\ (marked p -> Forall quiet new) /\ one_shot new) as Hend.
  { intros d'. exists [log s1]. split_and!; [done|by intros; repeat constructor; auto|done]. }
  destruct (Dialer.CloseAndCheckLeak _ _) as [leak count']. destruct leak; [apply Hend|]. destruct (Dialer.ShouldReconnect drain d3) as [[] d4]; [|apply Hend].
  cbn [negb].
  match goal with |- context [Dialer.runDial _ _ _ _ _ _ _ _ _ _ ?k ?q ?dd ?ll] => destruct (IH k q dd ll) as (new & E & Hn1 & Hn2) end. rewrite E. exists (log s1 :: new). split_and!; [by rewrite <- app_assoc| |].
  - intros Hmk. constructor; auto.
  - cbn. auto.
Qed.

(** C31: against any daemon that keeps the promise, once a session of a dial has
    told the daemon that the init plan is complete, no later session of the dial,
    however often it reconnects and whatever fails in between, sends a command of
    the init plan again. *)
Theorem init_one_shot wired cycles count p d l1 l l2 :
  Forall dial_keeps cycles ->
  Dialer.ds_logs (Dialer.runDial react Lookup query_error ParseCertificate Verify Sum256 texts cid wired cycles count p d []) = l1 ++ l :: l2 ->
  (exists c, Tx c ∈ l /\ marks c) ->
  forall l' c', l' ∈ l2 -> Tx c' ∈ l' -> not_init c'.
Proof.
  intros Hall E (c & Hc & Hm) l' c' Hl' Hc'. destruct (runDial_one_shot wired cycles count p d [] Hall) as (new & En & _ & Hone). rewrite En in E. cbn in E.
  assert (forall tr x, Tx x ∈ tr -> x ∈ sent tr) as Hin by (intros tr x Hx; apply list_elem_of_omap; eauto).
  assert (Forall quiet l2) as Hq. { eapply one_shot_split; [exact Hone|exact E|]. apply Exists_exists. eauto. }
  rewrite Forall_forall in Hq. apply Hq in Hl'. unfold quiet in Hl'. rewrite Forall_forall in Hl'. by apply Hl', Hin.
Qed.

End Sessions.

(** ** The daemon *)

Import DaemonSession.

Section Daemon.
(** The world the receiver meets, and what the workers, the queue and the stream
    make of the session after a command: its next state and the frames. *)
Context (env : recv_env) (work : session -> Command -> session * list recv).

(** A receiver that blocks answers nothing. *)
Definition daemon_react (p : session * daemon) (c : Command) : result string ((session * daemon) * list recv) :=
  match dispatch env c p.1 p.2 with
  | None => Ok (p, [])
  | Some (s, d, r) =>
      let '(s, frames) := work s c in Ok ((s, d), match r with Some r => [Frame r] | None => [] end ++ frames)
  end.

Lemma dispatch_marker c s d s1 d1 r : dispatch env c s d = Some (s1, d1, r) -> marker d = true -> marker d1 = true.
Proof.
  intros H Hm. unfold dispatch in H. destruct (needs_id _ && _); [by injection H as <- <- <-|].
  destruct (CommandPayload c); try by injection H as <- <- <-.
  - destruct (startShellCommand _ _ _). by injection H as <- <- <-.
  - destruct (routeStdin _ _ _) as [[]|]; [by injection H as <- <- <-|done].
  - destruct (routeCloseStdin _ _) as [[]|]; [by injection H as <- <- <-|done].
  - destruct (handleRegisterRequired _ _ _). by injection H as <- <- <-.
  - unfold handleAgentReady in H. destruct (re_config env); [|by injection H as <- <- <-]. destruct (spawn_panic env d) as [[d' p]|] eqn:Ep.
    { assert (marker d' = marker d) as Em by (unfold spawn_panic in Ep; destruct (re_panic env) as [[[] ?]|]; [|destruct (Supervisor.runEntered _)|]; simplify_eq; done).
      injection H as <- <- <-. by rewrite Em. }
    destruct (Supervisor.Run _ _ _) as [[]|]; [by injection H as <- <- <-|done].
  - injection H as <- <- <-. cbn. by rewrite Hm.
Qed.

(** The marker file is the mark, where it can be written and read. *)
Context (Hwritable : re_marker_ok env = true).
#[export] Instance daemon_mark : InitMark daemon_react.
Proof.
  refine {| marked p := marker p.2 = true |}.
  - intros [s d] c p' frames. unfold daemon_react. cbn. destruct (dispatch env c s d) as [[[s1 d1] r]|] eqn:E; [|by intros [= <- _]].
    destruct (work s1 c). intros [= <- _]. by eapply dispatch_marker.
  - intros [s d] [id pl] p' frames H [Hp Hid]. cbn in Hp, Hid. subst pl. unfold daemon_react, dispatch in H. cbn in H.
    destruct (String.eqb_spec id ""); [done|]. cbn in H. destruct (work s _). injection H as <- _. cbn. by rewrite Hwritable, orb_true_r.
  - intros [s d] p' frames r rest H Hm -> a Ha. cbn in H, Hm. unfold daemon_react in H. cbn in H. destruct (work s _). simplify_eq. cbn in Ha. by injection Ha as <-.
Defined.

End Daemon.

(** ** Two sessions *)

(** Commands that end as soon as they start; the frame that closes their input
    finds nothing, and is answered so. *)
Definition demo_world : recv_env := mkRecvEnv Supervisor.demo_kernel (Some (fun _ => Supervisor.demo_config)) None true false None.
Definition demo_work (s : session) (c : Command) : session * list recv :=
  match CommandPayload c with
  | Shell _ => (set_cmds s ∅, [Frame (mkResponse (CommandId c) Started); Frame (mkResponse (CommandId c) (Done 0))])
  | _ => (s, [])
  end.
Definition demo_parse (raw : string) : result string AgentIdentity.Cert := Ok (AgentIdentity.mkCert "" [] raw).
Definition demo_container : Dialer.Container :=
  Dialer.mkContainer (Some (true, "running")) (Some {[AgentIdentity.LabelAgent := "dev"]}) (Some {[Dialer.Network := Some (GoNet.Addr4 [172; 20; 0; 7])]}).
(** Each connection is a new session of the same daemon. *)
Definition demo_cycle : Dialer.cycle (P := session * daemon) :=
  Dialer.mkCycle 0 [Dialer.mkAttempt (fun p => (new_session, p.2)) (Ok demo_container) (Dialer.Opened [] []) 0 0] None Executor.demo_env Executor.demo_env
    None (fun _ => None) [EOF] false.
Definition demo_logs : list (list traffic) :=
  Dialer.ds_logs (Dialer.runDial (daemon_react demo_world demo_work) (fun _ _ => AgentRegistry.QueryFailed) "io" demo_parse (fun _ _ => Ok tt)
    AgentRegistry.demo_sha Executor.demo_scripts "abc1" true [demo_cycle; demo_cycle] 0 (new_session, boot_daemon) (Dialer.mkDial None []) []).

Example demo_sessions :
  (CommandId <$> (sent <$> demo_logs) !!! 0%nat) !! 13%nat = Some "init-abc1-agent-initialized-6" /\ (sent <$> demo_logs) !! 1%nat = Some [mkCommand "hello" Hello].
Proof. by vm_compute. Qed.

(** The second session sends nothing of the plan the first one completed. *)
Lemma init_one_shot_witness : exists l', l' ∈ drop 1 demo_logs /\ forall c', Tx c' ∈ l' -> not_init c'.
Proof.
  exists (demo_logs !!! 1%nat). assert (demo_logs !!! 1%nat ∈ drop 1 demo_logs) as Hin by (vm_compute; by constructor). split; [exact Hin|]. intros c'.
  apply (init_one_shot (daemon_react demo_world demo_work) (InitMark0 := daemon_mark demo_world demo_work eq_refl) (fun _ _ => AgentRegistry.QueryFailed) "io" demo_parse
    (fun _ _ => Ok tt) AgentRegistry.demo_sha Executor.demo_scripts "abc1" true [demo_cycle; demo_cycle] 0 (new_session, boot_daemon) (Dialer.mkDial None [])
    [] (demo_logs !!! 0%nat) (drop 1 demo_logs)).
  - assert (dial_keeps (daemon_react demo_world demo_work) (InitMark0 := daemon_mark demo_world demo_work eq_refl) demo_cycle) as Hk.
    { constructor; [|constructor]. split; [done|]. by intros ? ? [= _ <-]. }
    by constructor; [|constructor; [|constructor]].
  - vm_compute. reflexivity.
  - exists (mkCommand "init-abc1-agent-initialized-6" AgentInitialized). split; [|by split]. apply list_elem_of_lookup. exists 31%nat. vm_compute. reflexivity.
  - exact Hin.
Defined.

End OneShot.
