(* ===== verification/Whail.v ===== *)
(** * The Docker engine wrapper

    pkg/whail: every operation on a container, volume, network or image first
    checks that the object carries the managed label; everything created gets
    the label; every listing and pruning is filtered by it.

    What Docker answers is an input ([Docker]); an operation yields the calls it
    makes (other than the inspections of its checks) and its result.  Options that
    are only passed on to Docker are left out of the calls. *)

From S2P Require Import Prelude GoStrings.
Import Go.

Module Whail.

Abbreviation labels := (gmap string string).

(** ** Labels *)

Record LabelConfig := mkLabelConfig { L_Default : labels; L_Container : labels; L_Volume : labels; L_Network : labels; L_Image : labels }.

(** Later maps win. *)
Definition MergeLabels (l : list labels) : labels := foldl (fun acc m => m ∪ acc) ∅ l.

Definition ContainerLabels (c : LabelConfig) (extra : list labels) : labels := MergeLabels ([L_Default c; L_Container c] ++ extra).
Definition VolumeLabels (c : LabelConfig) (extra : list labels) : labels := MergeLabels ([L_Default c; L_Volume c] ++ extra).
Definition NetworkLabels (c : LabelConfig) (extra : list labels) : labels := MergeLabels ([L_Default c; L_Network c] ++ extra).
Definition ImageLabels (c : LabelConfig) (extra : list labels) : labels := MergeLabels ([L_Default c; L_Image c] ++ extra).

(** ** Filters *)

(** A filter term has a set of values; Docker requires all labels to match. *)
Abbreviation Filters := (gmap string (gset string)).
Definition filter_add (f : Filters) (term value : string) : Filters := <[term := {[value]} ∪ default ∅ (f !! term)]> f.
Definition LabelFilter (key value : string) : Filters := filter_add ∅ "label" (key +:+ "=" +:+ value).
Definition MergeLabelFilters (f : Filters) (l : labels) : Filters :=
  foldl (fun f '(k, v) => filter_add f "label" (k +:+ "=" +:+ v)) f (map_to_list l).
Definition AddLabelFilter (f : Filters) (key value : string) : Filters := filter_add f "label" (key +:+ "=" +:+ value).
Definition LabelFilterMultiple (l : labels) : Filters := MergeLabelFilters ∅ l.

(** ** The engine *)

Record EngineOptions := mkEngineOptions { LabelPrefix : string; ManagedLabel : string; Labels : LabelConfig }.
Record Engine := mkEngine { options : EngineOptions; managedLabelKey : string; managedLabelValue : string }.

Definition DefaultManagedLabel : string := "managed".

Definition NewFromExisting (o : EngineOptions) : Engine :=
  let o := if String.eqb (ManagedLabel o) "" then mkEngineOptions (LabelPrefix o) DefaultManagedLabel (Labels o) else o in
  mkEngine o (LabelPrefix o +:+ "." +:+ ManagedLabel o) "true".

Definition injectManagedFilter (e : Engine) (existing : Filters) : Filters := AddLabelFilter existing (managedLabelKey e) (managedLabelValue e).
Definition newManagedFilter (e : Engine) : Filters := LabelFilter (managedLabelKey e) (managedLabelValue e).
Definition managedLabels (e : Engine) : labels := {[ managedLabelKey e := managedLabelValue e ]}.

Definition containerLabels (e : Engine) (extra : list labels) : labels :=
  MergeLabels ([managedLabels e; ContainerLabels (Labels (options e)) []] ++ extra).
Definition volumeLabels (e : Engine) (extra : list labels) : labels :=
  MergeLabels ([managedLabels e; VolumeLabels (Labels (options e)) []] ++ extra).
Definition networkLabels (e : Engine) (extra : list labels) : labels :=
  MergeLabels ([managedLabels e; NetworkLabels (Labels (options e)) []] ++ extra).
Definition imageLabels (e : Engine) (extra : list labels) : labels :=
  MergeLabels ([managedLabels e; ImageLabels (Labels (options e)) []] ++ extra).

Definition isManagedLabelPresent (e : Engine) (l : labels) : bool := bool_decide (l !! managedLabelKey e = Some (managedLabelValue e)).

(** ** Docker *)

(** What an inspection answers: the labels of the object, its ID and the
    networks of a container. *)
Inductive inspected := NotFound | Failed | Found (l : labels) (id : string) (nets : gset string).

Inductive container_op :=
  | OpStart | OpStop | OpRemove | OpInspect | OpAttach | OpWait | OpLogs | OpResize | OpExecCreate | OpKill (signal : string) | OpPause | OpUnpause
  | OpRestart | OpRename | OpTop | OpStats | OpStatsOneShot | OpUpdate | OpCopyTo | OpCopyFrom | OpStatPath.
Inductive network_op := OpNetworkRemove | OpNetworkInspect | OpNetworkConnect (container : string) | OpNetworkDisconnect (container : string).
Inductive volume_op := OpVolumeRemove | OpVolumeInspect.
Inductive image_op := OpImageRemove | OpImageInspect.
Inductive kind := KContainer | KVolume | KNetwork | KImage.

(** The calls made to Docker: on an object, creating one (a container may have
    no configuration), and listing or pruning with filters. *)
Inductive call :=
  | OnContainer (op : container_op) (ref : string)
  | OnNetwork (op : network_op) (ref : string)
  | OnVolume (op : volume_op) (ref : string)
  | OnImage (op : image_op) (ref : string)
  | Create (k : kind) (name : string) (l : option labels)
  | ListObjects (k : kind) (f : Filters)
  | Prune (k : kind) (f : Filters).

Inductive api_answer := Done (id : string) | ApiError | AlreadyInNetwork.

Record Docker := mkDocker {
  container_ : string -> inspected; network_ : string -> inspected; volume_ : string -> inspected; image_ : string -> inspected;
  answer : call -> api_answer;
}.

Inductive error := OperationFailed | NotManaged | ObjectNotFound | NameRequired | BuildKitNotConfigured.

Abbreviation outcome := (list call * result error string)%type.

(** One call to Docker, its error wrapped. *)
Definition issue (d : Docker) (c : call) (err : error) : outcome :=
  ([c], match answer d c with Done id => Ok id | _ => Err err end).

Section Operations.
Variable e : Engine.
Variable d : Docker.

(** [None] when the inspection fails. *)
Definition is_managed (i : inspected) : option bool :=
  match i with NotFound => Some false | Failed => None | Found l _ _ => Some (isManagedLabelPresent e l) end.
Definition IsContainerManaged (ref : string) : option bool := is_managed (container_ d ref).
Definition IsNetworkManaged (ref : string) : option bool := is_managed (network_ d ref).
Definition IsVolumeManaged (ref : string) : option bool := is_managed (volume_ d ref).
(** An image that is not found is an error too. *)
Definition isManagedImage (ref : string) : option bool :=
  match image_ d ref with Found l _ _ => Some (isManagedLabelPresent e l) | _ => None end.

(** The guard every operation on an object starts with. *)
Definition guarded (managed : option bool) (failed unmanaged : error) (k : outcome) : outcome :=
  match managed with None => ([], Err failed) | Some false => ([], Err unmanaged) | Some true => k end.

Definition on_container (op : container_op) (unmanaged : error) (ref : string) : outcome :=
  guarded (IsContainerManaged ref) OperationFailed unmanaged (issue d (OnContainer op ref) OperationFailed).

(** *** Containers *)

Definition ContainerStop (ref : string) : outcome := on_container OpStop NotManaged ref.
Definition ContainerRemove (ref : string) : outcome := on_container OpRemove NotManaged ref.
Definition ContainerInspect (ref : string) : outcome := on_container OpInspect NotManaged ref.
Definition ContainerAttach (ref : string) : outcome := on_container OpAttach NotManaged ref.
Definition ContainerWait (ref : string) : outcome := on_container OpWait NotManaged ref.
Definition ContainerLogs (ref : string) : outcome := on_container OpLogs NotManaged ref.
Definition ContainerResize (ref : string) : outcome := on_container OpResize NotManaged ref.
Definition ExecCreate (ref : string) : outcome := on_container OpExecCreate NotManaged ref.
Definition ContainerKill (ref signal : string) : outcome :=
  on_container (OpKill (if String.eqb signal "" then "SIGKILL" else signal)) ObjectNotFound ref.
Definition ContainerPause (ref : string) : outcome := on_container OpPause ObjectNotFound ref.
Definition ContainerUnpause (ref : string) : outcome := on_container OpUnpause ObjectNotFound ref.
Definition ContainerRestart (ref : string) : outcome := on_container OpRestart ObjectNotFound ref.
Definition ContainerRename (ref : string) : outcome := on_container OpRename ObjectNotFound ref.
Definition ContainerTop (ref : string) : outcome := on_container OpTop ObjectNotFound ref.
Definition ContainerStats (ref : string) : outcome := on_container OpStats ObjectNotFound ref.
Definition ContainerStatsOneShot (ref : string) : outcome := on_container OpStatsOneShot ObjectNotFound ref.
Definition ContainerUpdate (ref : string) : outcome := on_container OpUpdate ObjectNotFound ref.
Definition CopyToContainer (ref : string) : outcome := on_container OpCopyTo ObjectNotFound ref.
Definition CopyFromContainer (ref : string) : outcome := on_container OpCopyFrom ObjectNotFound ref.
Definition ContainerStatPath (ref : string) : outcome := on_container OpStatPath ObjectNotFound ref.

Definition ContainerList (f : Filters) : outcome := issue d (ListObjects KContainer (injectManagedFilter e f)) OperationFailed.
Definition ContainerListAll : outcome := ContainerList ∅.
Definition ContainerListByLabels (l : labels) : outcome :=
  issue d (ListObjects KContainer (MergeLabelFilters (newManagedFilter e) l)) OperationFailed.

(** The names of each container Docker lists; the first container that has the
    name is found. *)
Definition FindContainerByName (name : string) (items : list (string * list string)) : outcome :=
  let c := ListObjects KContainer (filter_add (newManagedFilter e) "name" name) in
  match answer d c with
  | Done _ =>
      ([c], match find (fun it => existsb (fun n => String.eqb n ("/" +:+ name) || String.eqb n name) it.2) items with
            | Some it => Ok it.1
            | None => Err ObjectNotFound
            end)
  | _ => ([c], Err OperationFailed)
  end.

(** *** Networks *)

Definition forced (l : labels) : labels := <[managedLabelKey e := managedLabelValue e]> l.

Definition NetworkCreate (name : string) (given : option labels) (extra : list labels) : outcome :=
  let l := networkLabels e extra in
  let l := match given with None => l | Some g => MergeLabels [g; l] end in
  issue d (Create KNetwork name (Some (forced l))) OperationFailed.

Definition NetworkRemove (name : string) : outcome :=
  guarded (IsNetworkManaged name) ObjectNotFound ObjectNotFound (issue d (OnNetwork OpNetworkRemove name) OperationFailed).
Definition NetworkInspect (name : string) : outcome :=
  guarded (IsNetworkManaged name) ObjectNotFound ObjectNotFound (issue d (OnNetwork OpNetworkInspect name) ObjectNotFound).
Definition NetworkList (extra : list labels) : outcome :=
  issue d (ListObjects KNetwork (foldl MergeLabelFilters (newManagedFilter e) extra)) OperationFailed.
Definition NetworksPrune : outcome := issue d (Prune KNetwork (newManagedFilter e)) OperationFailed.

Definition EnsureNetwork (name : string) (given : option labels) (extra : list labels) : outcome :=
  if String.eqb name "" then ([], Err NameRequired)
  else
    match IsNetworkManaged name with
    | None => ([], Err OperationFailed)
    | Some true =>
        match NetworkInspect name with
        | (calls, Ok _) => (calls, match network_ d name with Found _ id _ => Ok id | _ => Err OperationFailed end)
        | (calls, Err _) => (calls, Err OperationFailed)
        end
    | Some false =>
        match NetworkCreate name given extra with
        | (calls, Ok id) => (calls, Ok id)
        | (calls, Err _) => (calls, Err OperationFailed)
        end
    end.

(** The caller distinguishes the answer that the container is connected
    already. *)
Definition NetworkConnect (name container : string) : outcome :=
  guarded (IsNetworkManaged name) OperationFailed ObjectNotFound (issue d (OnNetwork (OpNetworkConnect container) name) OperationFailed).
Definition NetworkDisconnect (name container : string) : outcome :=
  guarded (IsNetworkManaged name) OperationFailed ObjectNotFound (issue d (OnNetwork (OpNetworkDisconnect container) name) OperationFailed).

(** *** Creating and starting containers *)

Definition then_ (o : outcome) (k : string -> outcome) : outcome :=
  match o with (calls, Ok id) => let '(calls', r) := k id in (calls ++ calls', r) | (calls, Err x) => (calls, Err x) end.

(** [config] are the labels of the given configuration; [ensure] the network to
    create first. *)
Definition ContainerCreate (name : string) (config : option labels) (extra : list labels) (ensure : option (string * option labels * list labels)) : outcome :=
  let create _ :=
    let l := (fun given => forced (MergeLabels [containerLabels e extra; given])) <$> config in
    issue d (Create KContainer name l) OperationFailed in
  match ensure with
  | None => create ""
  | Some (net, given, nextra) => then_ (EnsureNetwork net given nextra) create
  end.

Definition wrap (o : outcome) : outcome := match o with (calls, Err _) => (calls, Err OperationFailed) | _ => o end.

(** Connects the container to the network unless it is connected already. *)
Definition connect_if_needed (ref net : string) : outcome :=
  match container_ d ref with
  | Found _ _ nets =>
      if bool_decide (net ∈ nets) then ([], Ok "")
      else
        match NetworkConnect net ref with
        | ([], Err _) => ([], Err OperationFailed)
        | (calls, Err _) =>
            (calls, match answer d (OnNetwork (OpNetworkConnect ref) net) with AlreadyInNetwork => Ok "" | _ => Err OperationFailed end)
        | o => o
        end
  | _ => ([], Err OperationFailed)
  end.

Definition ContainerStart (ref : string) (ensure : option (string * option labels * list labels)) : outcome :=
  if String.eqb ref "" then ([], Err OperationFailed)
  else
    guarded (IsContainerManaged ref) OperationFailed ObjectNotFound
      (let start _ := issue d (OnContainer OpStart ref) OperationFailed in
       match ensure with
       | None => start ""
       | Some (net, given, nextra) =>
           then_ (wrap (EnsureNetwork net given nextra)) (fun _ => then_ (connect_if_needed ref net) start)
       end).

(** *** Volumes and images *)

Definition VolumeCreate (name : string) (given : option labels) (extra : list labels) : outcome :=
  let l := volumeLabels e extra in
  let l := match given with None => l | Some g => MergeLabels [g; l] end in
  issue d (Create KVolume name (Some (forced l))) OperationFailed.
Definition VolumeRemove (ref : string) : outcome :=
  guarded (IsVolumeManaged ref) OperationFailed ObjectNotFound (issue d (OnVolume OpVolumeRemove ref) OperationFailed).
Definition VolumeInspect (ref : string) : outcome :=
  guarded (IsVolumeManaged ref) OperationFailed ObjectNotFound (issue d (OnVolume OpVolumeInspect ref) OperationFailed).
Definition VolumeList (extra : list labels) : outcome :=
  issue d (ListObjects KVolume (foldl MergeLabelFilters (newManagedFilter e) extra)) OperationFailed.
Definition VolumesPrune (extra : list labels) : outcome :=
  issue d (Prune KVolume (foldl MergeLabelFilters (newManagedFilter e) extra)) OperationFailed.

Definition ImageBuild (given : labels) : outcome :=
  issue d (Create KImage "" (Some (forced (MergeLabels [imageLabels e []; given])))) OperationFailed.
(** [configured] says whether a BuildKit builder was set. *)
Definition ImageBuildKit (configured : bool) (given : labels) : outcome :=
  if negb configured then ([], Err BuildKitNotConfigured) else ImageBuild given.
Definition ImageRemove (ref : string) : outcome :=
  guarded (isManagedImage ref) ObjectNotFound ObjectNotFound (issue d (OnImage OpImageRemove ref) OperationFailed).
Definition ImageInspect (ref : string) : outcome :=
  guarded (isManagedImage ref) ObjectNotFound ObjectNotFound (issue d (OnImage OpImageInspect ref) ObjectNotFound).
Definition ImageList (f : Filters) : outcome := issue d (ListObjects KImage (injectManagedFilter e f)) OperationFailed.
Definition ImagesPrune (dangling : bool) : outcome :=
  issue d (Prune KImage (filter_add (newManagedFilter e) "dangling" (if dangling then "true" else "false"))) OperationFailed.

End Operations.

(** [strconv.ParseBool]; [BuildKitEnabled] on the environment variable and the
    answer to a ping: whether BuildKit is the builder, and whether the daemon
    runs on Windows. *)
Definition ParseBool (s : string) : option bool :=
  if existsb (String.eqb s) ["1"; "t"; "T"; "TRUE"; "true"; "True"] then Some true
  else if existsb (String.eqb s) ["0"; "f"; "F"; "FALSE"; "false"; "False"] then Some false
  else None.
Definition BuildKitEnabled (env : string) (ping : option (bool * bool)) : option bool :=
  if negb (String.eqb env "") then ParseBool env
  else match ping with None => None | Some (buildkit, windows) => Some (buildkit || negb windows) end.

(** ** The jail *)

Inductive request :=
  | RContainer (op : container_op) (ref : string)
  | RStart (ref : string) (ensure : option (string * option labels * list labels))
  | RCreate (name : string) (config : option labels) (extra : list labels) (ensure : option (string * option labels * list labels))
  | RContainerList (f : Filters) | RContainerListByLabels (l : labels) | RFind (name : string) (items : list (string * list string))
  | RNetworkCreate (name : string) (given : option labels) (extra : list labels) | RNetworkRemove (name : string) | RNetworkInspect (name : string)
  | RNetworkList (extra : list labels) | RNetworksPrune | REnsureNetwork (name : string) (given : option labels) (extra : list labels)
  | RNetworkConnect (name container : string) | RNetworkDisconnect (name container : string)
  | RVolumeCreate (name : string) (given : option labels) (extra : list labels) | RVolumeRemove (ref : string) | RVolumeInspect (ref : string)
  | RVolumeList (extra : list labels) | RVolumesPrune (extra : list labels)
  | RImageBuild (given : labels) | RImageBuildKit (configured : bool) (given : labels) | RImageRemove (ref : string) | RImageInspect (ref : string)
  | RImageList (f : Filters) | RImagesPrune (dangling : bool).

Definition perform (e : Engine) (d : Docker) (r : request) : outcome :=
  match r with
  | RContainer OpStart ref => ContainerStart e d ref None
  | RContainer OpStop ref => ContainerStop e d ref
  | RContainer OpRemove ref => ContainerRemove e d ref
  | RContainer OpInspect ref => ContainerInspect e d ref
  | RContainer OpAttach ref => ContainerAttach e d ref
  | RContainer OpWait ref => ContainerWait e d ref
  | RContainer OpLogs ref => ContainerLogs e d ref
  | RContainer OpResize ref => ContainerResize e d ref
  | RContainer OpExecCreate ref => ExecCreate e d ref
  | RContainer (OpKill sig) ref => ContainerKill e d ref sig
  | RContainer OpPause ref => ContainerPause e d ref
  | RContainer OpUnpause ref => ContainerUnpause e d ref
  | RContainer OpRestart ref => ContainerRestart e d ref
  | RContainer OpRename ref => ContainerRename e d ref
  | RContainer OpTop ref => ContainerTop e d ref
  | RContainer OpStats ref => ContainerStats e d ref
  | RContainer OpStatsOneShot ref => ContainerStatsOneShot e d ref
  | RContainer OpUpdate ref => ContainerUpdate e d ref
  | RContainer OpCopyTo ref => CopyToContainer e d ref
  | RContainer OpCopyFrom ref => CopyFromContainer e d ref
  | RContainer OpStatPath ref => ContainerStatPath e d ref
  | RStart ref ensure => ContainerStart e d ref ensure
  | RCreate name config extra ensure => ContainerCreate e d name config extra ensure
  | RContainerList f => ContainerList e d f
  | RContainerListByLabels l => ContainerListByLabels e d l
  | RFind name items => FindContainerByName e d name items
  | RNetworkCreate name given extra => NetworkCreate e d name given extra
  | RNetworkRemove name => NetworkRemove e d name
  | RNetworkInspect name => NetworkInspect e d name
  | RNetworkList extra => NetworkList e d extra
  | RNetworksPrune => NetworksPrune e d
  | REnsureNetwork name given extra => EnsureNetwork e d name given extra
  | RNetworkConnect name c => NetworkConnect e d name c
  | RNetworkDisconnect name c => NetworkDisconnect e d name c
  | RVolumeCreate name given extra => VolumeCreate e d name given extra
  | RVolumeRemove ref => VolumeRemove e d ref
  | RVolumeInspect ref => VolumeInspect e d ref
  | RVolumeList extra => VolumeList e d extra
  | RVolumesPrune extra => VolumesPrune e d extra
  | RImageBuild given => ImageBuild e d given
  | RImageBuildKit configured given => ImageBuildKit e d configured given
  | RImageRemove ref => ImageRemove e d ref
  | RImageInspect ref => ImageInspect e d ref
  | RImageList f => ImageList e d f
  | RImagesPrune dangling => ImagesPrune e d dangling
  end.

Definition carries (e : Engine) (i : inspected) : Prop :=
  exists l id nets, i = Found l id nets /\ l !! managedLabelKey e = Some (managedLabelValue e).
Definition filtered (e : Engine) (f : Filters) : Prop :=
  exists vs, f !! "label" = Some vs /\ managedLabelKey e +:+ "=" +:+ managedLabelValue e ∈ vs.

(** A call that stays inside: on managed objects, creating one with the label,
    or filtered by the label. *)
Definition call_ok (e : Engine) (d : Docker) (c : call) : Prop :=
  match c with
  | OnContainer _ ref => carries e (container_ d ref)
  | OnNetwork (OpNetworkConnect c) ref | OnNetwork (OpNetworkDisconnect c) ref => carries e (network_ d ref) /\ carries e (container_ d c)
  | OnNetwork _ ref => carries e (network_ d ref)
  | OnVolume _ ref => carries e (volume_ d ref)
  | OnImage _ ref => carries e (image_ d ref)
  | Create _ _ l => exists l', l = Some l' /\ l' !! managedLabelKey e = Some (managedLabelValue e)
  | ListObjects _ f | Prune _ f => filtered e f
  end.

(** Requests for which the engine's checks are enough: a container is created with a
    configuration, and the container to connect or disconnect, which is not looked at,
    is a managed one. *)
Definition sheltered (e : Engine) (d : Docker) (r : request) : Prop :=
  match r with
  | RCreate _ None _ _ => False
  | RNetworkConnect _ c | RNetworkDisconnect _ c => carries e (container_ d c)
  | _ => True
  end.

Section Jail.
Variable e : Engine.
Variable d : Docker.
Abbreviation ok := (fun o : outcome => Forall (call_ok e d) o.1).

Lemma is_managed_carries i : is_managed e i = Some true -> carries e i.
Proof. destruct i as [| |l id nets]; try done. intros [= H%bool_decide_eq_true]. by exists l, id, nets. Qed.

Lemma isManagedImage_carries ref : isManagedImage e d ref = Some true -> carries e (image_ d ref).
Proof. unfold isManagedImage. destruct (image_ d ref) as [| |l id nets]; try done. intros [= H%bool_decide_eq_true]. by exists l, id, nets. Qed.

Lemma guarded_ok m f u k : (m = Some true -> ok k) -> ok (guarded m f u k).
Proof. destruct m as [[]|]; cbn; [by intros H; apply H|constructor..]. Qed.

Lemma issue_ok c err : call_ok e d c -> ok (issue d c err).
Proof. intros H. by repeat constructor. Qed.

Lemma then_ok o k : ok o -> (forall id, ok (k id)) -> ok (then_ o k).
Proof.
  destruct o as [calls [id|x]]; cbn; [|done]. intros Ho Hk. specialize (Hk id). destruct (k id) as [calls' r]. by apply Forall_app.
Qed.

Lemma forced_ok k name l : call_ok e d (Create k name (Some (forced e l))).
Proof. exists (forced e l). split; [done|]. apply lookup_insert_eq. Qed.

Lemma filter_add_has f term v term' x :
  (exists vs, f !! term' = Some vs /\ x ∈ vs) -> exists vs, filter_add f term v !! term' = Some vs /\ x ∈ vs.
Proof.
  intros (vs & E & Hx). unfold filter_add. destruct (decide (term' = term)) as [->|Hne].
  - rewrite E. eexists. rewrite lookup_insert_eq. split; [done|]. cbn. set_solver.
  - rewrite lookup_insert_ne by done. by exists vs.
Qed.

Lemma filtered_new : filtered e (newManagedFilter e).
Proof. eexists. unfold newManagedFilter, LabelFilter, filter_add. rewrite lookup_insert_eq. split; [done|]. set_solver. Qed.

Lemma filtered_inject f : filtered e (injectManagedFilter e f).
Proof. eexists. unfold injectManagedFilter, AddLabelFilter, filter_add. rewrite lookup_insert_eq. split; [done|]. set_solver. Qed.

Lemma filtered_merge f l : filtered e f -> filtered e (MergeLabelFilters f l).
Proof.
  unfold MergeLabelFilters. generalize (map_to_list l). intros kvs. revert f.
  induction kvs as [|[k v] kvs IH]; intros f Hf; cbn [foldl]; [done|]. apply IH. by apply filter_add_has.
Qed.

Lemma filtered_merges f ls : filtered e f -> filtered e (foldl MergeLabelFilters f ls).
Proof. revert f. induction ls as [|l ls IH]; intros f Hf; cbn [foldl]; [done|]. by apply IH, filtered_merge. Qed.

Hint Resolve guarded_ok issue_ok forced_ok filtered_new filtered_inject filtered_merge filtered_merges is_managed_carries isManagedImage_carries
  filter_add_has : core.

Lemma on_container_ok op u ref : ok (on_container e d op u ref).
Proof. unfold on_container. apply guarded_ok. intros H. apply issue_ok. by apply is_managed_carries. Qed.

Lemma NetworkCreate_ok name given extra : ok (NetworkCreate e d name given extra).
Proof. apply issue_ok, forced_ok. Qed.

Lemma EnsureNetwork_ok name given extra : ok (EnsureNetwork e d name given extra).
Proof.
  unfold EnsureNetwork. destruct (String.eqb name ""); [constructor|]. destruct (IsNetworkManaged e d name) as [[]|] eqn:E; [| |constructor].
  - assert (ok (NetworkInspect e d name)) as H by (apply guarded_ok; intros; apply issue_ok; by apply is_managed_carries).
    by destruct (NetworkInspect e d name) as [calls []].
  - pose proof (NetworkCreate_ok name given extra) as H. by destruct (NetworkCreate e d name given extra) as [calls []].
Qed.

Lemma NetworkConnect_ok name c : carries e (container_ d c) -> ok (NetworkConnect e d name c).
Proof. intros Hc. apply guarded_ok. intros. apply issue_ok. split; [by apply is_managed_carries|done]. Qed.

Lemma wrap_ok o : ok o -> ok (wrap o).
Proof. by destruct o as [calls []]. Qed.

Lemma connect_if_needed_ok ref net : carries e (container_ d ref) -> ok (connect_if_needed e d ref net).
Proof.
  intros Hc. pose proof (NetworkConnect_ok net ref Hc) as H. unfold connect_if_needed. destruct (container_ d ref) as [| |l id nets]; [constructor..|]. destruct (bool_decide _); [constructor|].
  by destruct (NetworkConnect e d net ref) as [[|c calls] []].
Qed.

Lemma ContainerStart_ok ref ensure : ok (ContainerStart e d ref ensure).
Proof.
  unfold ContainerStart. destruct (String.eqb ref ""); [constructor|]. apply guarded_ok. intros Hm.
  assert (ok (issue d (OnContainer OpStart ref) OperationFailed)) as Hs by (apply issue_ok; by apply is_managed_carries).
  destruct ensure as [[[net given] extra]|]; [|done]. apply then_ok; [apply wrap_ok, EnsureNetwork_ok|]. intros _.
  apply then_ok; [by apply connect_if_needed_ok, is_managed_carries|done].
Qed.

Lemma ContainerCreate_ok name l extra ensure : ok (ContainerCreate e d name (Some l) extra ensure).
Proof.
  unfold ContainerCreate. assert (ok (issue d (Create KContainer name (Some (forced e (MergeLabels [containerLabels e extra; l])))) OperationFailed)) as Hc
    by (apply issue_ok, forced_ok).
  destruct ensure as [[[net given] nextra]|]; [|done]. apply then_ok; [apply EnsureNetwork_ok|done].
Qed.

(** C15: Nothing escapes the label jail.  Whichever of the engine's own operations is
    called (the methods of Docker's client that the engine embeds and does not
    redefine are not among them) and whatever Docker answers, every call that reaches
    Docker is on objects that carry the managed label, creates an object with it, or
    lists or prunes with it in the filter, whatever labels and filters the caller
    passes.  Two operations ask more of their caller: a container must be created
    with a configuration, and the container that is connected to or disconnected from
    a network must be a managed one, since only the network is checked. *)
Theorem jail r : sheltered e d r -> Forall (call_ok e d) (perform e d r).1.
Proof.
  intros Hcfg. destruct r as [op ref|ref ensure|name [l|] extra ensure|f|l|name items|name given extra|name|name|extra| |name given extra|name c|name c
    |name given extra|ref|ref|extra|extra|given|[] given|ref|ref|f|dangling]; cbn [perform].
  - destruct op; try apply on_container_ok. apply ContainerStart_ok.
  - apply ContainerStart_ok.
  - apply ContainerCreate_ok.
  - by destruct Hcfg.
  - apply issue_ok. cbn. auto.
  - apply issue_ok. cbn. auto.
  - assert (call_ok e d (ListObjects KContainer (filter_add (newManagedFilter e) "name" name))) as H by (apply filter_add_has, filtered_new).
    unfold FindContainerByName. destruct (answer d _); by repeat constructor.
  - apply NetworkCreate_ok.
  - apply guarded_ok. intros. apply issue_ok. by apply is_managed_carries.
  - apply guarded_ok. intros. apply issue_ok. by apply is_managed_carries.
  - apply issue_ok. cbn. auto.
  - apply issue_ok. cbn. auto.
  - apply EnsureNetwork_ok.
  - by apply NetworkConnect_ok.
  - apply guarded_ok. intros. apply issue_ok. split; [by apply is_managed_carries|done].
  - apply issue_ok, forced_ok.
  - apply guarded_ok. intros. apply issue_ok. by apply is_managed_carries.
  - apply guarded_ok. intros. apply issue_ok. by apply is_managed_carries.
  - apply issue_ok. cbn. auto.
  - apply issue_ok. cbn. auto.
  - apply issue_ok, forced_ok.
  - apply issue_ok, forced_ok.
  - constructor.
  - apply guarded_ok. intros. apply issue_ok. by apply isManagedImage_carries.
  - apply guarded_ok. intros. apply issue_ok. by apply isManagedImage_carries.
  - apply issue_ok. cbn. auto.
  - apply issue_ok. cbn. apply filter_add_has, filtered_new.
Qed.

(** An object without the label is out of reach: no call is made. *)
Lemma unmanaged_invisible op ref : ~ carries e (container_ d ref) -> exists x, perform e d (RContainer op ref) = ([], Err x).
Proof.
  intros Hn. assert (forall f u k, exists x, guarded (IsContainerManaged e d ref) f u k = ([], Err x)) as Hg.
  { intros f u k. destruct (IsContainerManaged e d ref) as [[]|] eqn:E; cbn; [|by eexists..]. by apply is_managed_carries in E. }
  destruct op; try apply Hg. cbn. unfold ContainerStart. destruct (String.eqb ref ""); [by eexists|apply Hg].
Qed.

(** The labels of a new container: the managed label is forced; any other key is
    the caller's, else the last extra map's, else the engine's. *)
Lemma MergeLabels_lookup ls k : MergeLabels ls !! k = foldl (fun acc (m : labels) => match m !! k with Some v => Some v | None => acc end) None ls.
Proof.
  unfold MergeLabels. enough (forall acc : labels, foldl (fun acc m => m ∪ acc) acc ls !! k =
    foldl (fun acc (m : labels) => match m !! k with Some v => Some v | None => acc end) (acc !! k) ls) as H by (by rewrite H, lookup_empty).
  induction ls as [|m ls IH]; intros acc; cbn [foldl]; [done|]. rewrite IH. f_equal. rewrite lookup_union. by destruct (m !! k), (acc !! k).
Qed.

End Jail.

(** The two ways around the label: a container created without a configuration
    gets no label, so the engine no longer sees it; and connecting a container to
    a managed network does not check the container. *)
Theorem jail_gaps :
  let e := NewFromExisting (mkEngineOptions "com.app" "" (mkLabelConfig ∅ ∅ ∅ ∅ ∅)) in
  let d := mkDocker (fun _ => Found ∅ "stranger" ∅) (fun _ => Found {[ "com.app.managed" := "true" ]} "net" ∅) (fun _ => NotFound) (fun _ => NotFound)
             (fun _ => Done "id") in
  perform e d (RCreate "c" None [] None) = ([Create KContainer "c" None], Ok "id") /\
  perform e d (RContainer OpStop "stranger") = ([], Err NotManaged) /\
  perform e d (RNetworkConnect "net" "stranger") = ([OnNetwork (OpNetworkConnect "stranger") "net"], Ok "id").
Proof. cbn zeta. split_and!; vm_compute; reflexivity. Qed.

Lemma jail_witness :
  let e := NewFromExisting (mkEngineOptions "com.app" "" (mkLabelConfig ∅ ∅ ∅ ∅ ∅)) in
  let d := mkDocker (fun _ => Found ∅ "stranger" ∅) (fun _ => NotFound) (fun _ => NotFound) (fun _ => NotFound) (fun _ => Done "id") in
  Forall (call_ok e d) (perform e d (RCreate "c" (Some {[ "com.app.managed" := "false" ]}) [] None)).1.
Proof. cbn zeta. apply jail. done. Defined.

End Whail.
