(* ===== verification/ActionQueue.v ===== *)
(** * The firewall action queue

    controlplane/firewall/queue.go.  One worker goroutine executes submitted
    closures in FIFO order; submitters, [Close] and the worker interleave at the
    granularity of the queue's mutex.  The operations are functions on the queue
    state; [step] is the interleaving relation between them.

    A closure is a function of the world it acts on and of whether the queue's
    context is cancelled; it returns a value and an error as in Go, or panics. *)

From S2P Require Import Prelude.

Module ActionQueue.

Inductive ActionKind :=
  | ActionUnknown | ActionBringup | ActionTeardown | ActionReconcile
  | ActionRead | ActionEnable | ActionDisable | ActionBypass.

#[global] Instance ActionKind_eq_dec : EqDecision ActionKind.
Proof. solve_decision. Defined.

Definition Coalesces (k : ActionKind) : bool := bool_decide (k = ActionReconcile).

Section Queue.
Context {W V E : Type}.

(** What a closure call can do: return [(val, err)], or panic. *)
Inductive outcome := Returned (val : V) (err : option E) | Panicked.

Definition ActionFunc : Type := W -> bool -> W * outcome.

Inductive queue_error := ErrClosed | ErrNilClosure | ErrClosurePanic | ClosureErr (e : E).

(** [Value] on success, [Err] otherwise. *)
Definition ActionResult : Type := result queue_error V.

Record actionItem := mkItem { kind : ActionKind; fn : ActionFunc; reply : nat }.

(** An execution: the head item, the replies it served, the result. *)
Record execution := mkExec { ex_head : actionItem; ex_replies : list nat; ex_result : ActionResult }.

Record queue := mkQueue {
  world : W;
  buffer : list actionItem;
  closed : bool;
  (** what the worker took and is executing, with the context's state then *)
  running : option (actionItem * list nat * bool);
  done_ : bool;
  (** reply channels created so far, and what was sent on them *)
  next_reply : nat;
  delivered : list (nat * ActionResult);
  (** history: replies enqueued, and executions, in order *)
  accepted : list nat;
  executions : list execution;
}.

Definition NewActionQueue (w : W) : queue := mkQueue w [] false None false 0 [] [] [].

(** ** Operations *)

Definition Submit (q : queue) (k : ActionKind) (f : option ActionFunc) : nat * queue :=
  let ch := next_reply q in
  match f with
  | None =>
      (ch, mkQueue (world q) (buffer q) (closed q) (running q) (done_ q) (S ch)
             (delivered q ++ [(ch, Err ErrNilClosure)]) (accepted q) (executions q))
  | Some f =>
      if closed q then
        (ch, mkQueue (world q) (buffer q) (closed q) (running q) (done_ q) (S ch)
               (delivered q ++ [(ch, Err ErrClosed)]) (accepted q) (executions q))
      else
        (ch, mkQueue (world q) (buffer q ++ [mkItem k f ch]) (closed q) (running q) (done_ q) (S ch)
               (delivered q) (accepted q ++ [ch]) (executions q))
  end.

(** The locked part of [Close]; waiting for [done] is the caller's. *)
Definition Close (q : queue) : queue :=
  mkQueue (world q) (buffer q) true (running q) (done_ q) (next_reply q) (delivered q)
          (accepted q) (executions q).

(** The peers [next] drains behind a coalescing head. *)
Fixpoint drain (k : ActionKind) (items : list actionItem) : list nat * list actionItem :=
  match items with
  | it :: rest =>
      if bool_decide (kind it = k) then let '(rs, left_) := drain k rest in (reply it :: rs, left_)
      else ([], items)
  | [] => ([], [])
  end.

(** One pass of [next]: blocked, the worker exits, or an item is taken. *)
Inductive next_result :=
  | Blocked
  | WorkerExit
  | Took (head : actionItem) (replies : list nat) (rest : list actionItem).

Definition next (q : queue) : next_result :=
  match buffer q with
  | [] => if closed q then WorkerExit else Blocked
  | head :: rest =>
      if Coalesces (kind head)
      then let '(rs, left_) := drain (kind head) rest in Took head (reply head :: rs) left_
      else Took head [reply head] rest
  end.

Definition execute (w : W) (f : ActionFunc) (cancelled : bool) : W * ActionResult :=
  match f w cancelled with
  | (w', Panicked) => (w', Err ErrClosurePanic)
  | (w', Returned _ (Some e)) => (w', Err (ClosureErr e))
  | (w', Returned v None) => (w', Ok v)
  end.

(** ** Interleaving *)

Inductive label :=
  | LSubmit (k : ActionKind) (f : option ActionFunc)
  | LClose
  | LTake
  | LFinish (saw_cancel : bool)
  | LExit.

Definition is_worker (l : label) : bool :=
  match l with LTake | LFinish _ | LExit => true | _ => false end.

Inductive step : queue -> label -> queue -> Prop :=
  | step_submit q k f : step q (LSubmit k f) (Submit q k f).2
  | step_close q : step q LClose (Close q)
  | step_take q head rs rest :
      running q = None -> done_ q = false -> next q = Took head rs rest ->
      step q LTake
        (mkQueue (world q) rest (closed q) (Some (head, rs, closed q)) (done_ q) (next_reply q)
                 (delivered q) (accepted q) (executions q))
  | step_finish q head rs c0 c w' res :
      running q = Some (head, rs, c0) -> c = c0 \/ c = closed q ->
      execute (world q) (fn head) c = (w', res) ->
      step q (LFinish c)
        (mkQueue w' (buffer q) (closed q) None (done_ q) (next_reply q)
                 (delivered q ++ ((fun ch => (ch, res)) <$> rs)) (accepted q)
                 (executions q ++ [mkExec head rs res]))
  | step_exit q :
      running q = None -> done_ q = false -> next q = WorkerExit ->
      step q LExit
        (mkQueue (world q) (buffer q) (closed q) None true (next_reply q) (delivered q)
                 (accepted q) (executions q)).

Inductive steps : queue -> list label -> queue -> Prop :=
  | steps_nil q : steps q [] q
  | steps_cons q l q' ls q'' : step q l q' -> steps q' ls q'' -> steps q (l :: ls) q''.

Definition reachable (w : W) (q : queue) : Prop := exists ls, steps (NewActionQueue w) ls q.

Lemma reachable_ind (w : W) (P : queue -> Prop) :
  P (NewActionQueue w) -> (forall q l q', reachable w q -> P q -> step q l q' -> P q') ->
  forall q, reachable w q -> P q.
Proof.
  intros H0 Hstep q [ls Hls].
  assert (G : forall q0 ls q, steps q0 ls q -> reachable w q0 -> P q0 -> P q).
  { clear -Hstep. induction 1 as [q|q l q' ls q'' Hs _ IH]; intros Hr HP; [done|]. apply IH.
    - destruct Hr as [ls0 Hls0]. exists (ls0 ++ [l]).
      clear -Hls0 Hs. induction Hls0 as [q|q0 l0 q1 ls q2 H0 _ IH]; simpl.
      + econstructor; [done|constructor].
      + econstructor; [done|]. by apply IH.
    - by eapply Hstep. }
  eapply G; [done| |done]. exists []. constructor.
Qed.

(** ** Invariants *)

Definition running_replies (q : queue) : list nat :=
  match running q with Some (_, rs, _) => rs | None => [] end.

Definition exec_replies (q : queue) : list nat := executions q ≫= ex_replies.

Lemma drain_spec k items rs rest :
  drain k items = (rs, rest) ->
  rs ++ (reply <$> rest) = reply <$> items /\
  exists taken, items = taken ++ rest /\ rs = reply <$> taken /\ Forall (fun it => kind it = k) taken.
Proof.
  revert rs rest. induction items as [|it items IH]; intros rs rest; simpl.
  - intros [= <- <-]. split; [done|]. by exists [].
  - case_bool_decide as Hk.
    + destruct (drain k items) as [rs' left_] eqn:Ed. intros [= <- <-].
      destruct (IH rs' left_ eq_refl) as (H1 & taken & -> & -> & H2). split; [simpl; by f_equal|].
      exists (it :: taken). split; [done|]. split; [done|]. by constructor.
    + intros [= <- <-]. split; [done|]. by exists [].
Qed.

Lemma next_took q head rs rest :
  next q = Took head rs rest ->
  rs ++ (reply <$> rest) = reply <$> buffer q /\
  exists peers, buffer q = (head :: peers) ++ rest /\ rs = reply <$> head :: peers /\
    Forall (fun it => kind it = kind head) peers /\ (peers <> [] -> kind head = ActionReconcile).
Proof.
  unfold next. destruct (buffer q) as [|it items]; [by destruct (closed q)|].
  unfold Coalesces. case_bool_decide as Hk.
  - destruct (drain (kind it) items) as [rs' left_] eqn:Ed. intros [= <- <- <-].
    destruct (drain_spec _ _ _ _ Ed) as (H1 & taken & -> & -> & H2). split; [simpl; by f_equal|].
    exists taken. split_and!; done.
  - intros [= <- <- <-]. split; [done|]. exists []. split_and!; done.
Qed.

(** Bookkeeping of reply channels. *)
Record book (q : queue) : Prop := {
  bk_fifo : accepted q = exec_replies q ++ running_replies q ++ (reply <$> buffer q);
  bk_once : (fst <$> delivered q) ++ running_replies q ++ (reply <$> buffer q) ≡ₚ seq 0 (next_reply q);
  bk_done : done_ q = true -> closed q = true /\ buffer q = [] /\ running q = None;
  bk_sent : forall ch res, (ch, res) ∈ delivered q ->
    (res = Err ErrNilClosure /\ ch ∉ accepted q) \/ (res = Err ErrClosed /\ ch ∉ accepted q) \/
    exists ex, ex ∈ executions q /\ ch ∈ ex_replies ex /\ res = ex_result ex;
  bk_exec : Forall (fun ex => head (ex_replies ex) = Some (reply (ex_head ex)) /\
              (kind (ex_head ex) <> ActionReconcile -> length (ex_replies ex) = 1%nat)) (executions q);
  bk_exdel : forall ex ch, ex ∈ executions q -> ch ∈ ex_replies ex -> (ch, ex_result ex) ∈ delivered q;
  bk_run : forall it rs c, running q = Some (it, rs, c) -> head rs = Some (reply it) /\
              (kind it <> ActionReconcile -> length rs = 1%nat);
}.

Ltac fields :=
  unfold running_replies, exec_replies in *;
  constructor; cbn [world buffer closed running done_ next_reply delivered accepted executions]; try done.

Lemma book_init w : book (NewActionQueue w).
Proof. constructor; try done; [intros ch res H|intros ex ch H]; by apply elem_of_nil in H. Qed.

Lemma book_lt q ch :
  book q -> ch ∈ (fst <$> delivered q) ++ running_replies q ++ (reply <$> buffer q) -> (ch < next_reply q)%nat.
Proof. intros B H. rewrite (bk_once q B) in H. apply elem_of_seq in H. lia. Qed.

Lemma book_accepted_lt q ch : book q -> ch ∈ accepted q -> (ch < next_reply q)%nat.
Proof.
  intros B H. apply book_lt; [done|]. rewrite (bk_fifo q B) in H. apply elem_of_app in H as [H|H].
  - apply elem_of_app. left. unfold exec_replies in H. apply list_elem_of_bind in H as (ex & Hch & Hex).
    apply list_elem_of_fmap. exists (ch, ex_result ex). split; [done|]. by apply (bk_exdel q B).
  - apply elem_of_app. by right.
Qed.

(** A reply that is answered at once (nil closure, closed queue). *)
Lemma book_reject q res :
  book q -> res = Err ErrNilClosure \/ res = Err ErrClosed ->
  book (mkQueue (world q) (buffer q) (closed q) (running q) (done_ q) (S (next_reply q))
          (delivered q ++ [(next_reply q, res)]) (accepted q) (executions q)).
Proof.
  intros B Hres. pose proof B as [B1 B2 B3 B4 B5 B6 B7]. fields.
  - rewrite fmap_app, seq_S, <- B2. cbn [fmap list_fmap fst]. rewrite <- !app_assoc.
    apply Permutation_app_head. rewrite Permutation_app_comm, <- app_assoc. done.
  - intros ch r [H|H]%elem_of_app; [by apply B4|]. apply list_elem_of_singleton in H. injection H as -> ->.
    assert (Hn : next_reply q ∉ accepted q) by (intros Hin; apply (book_accepted_lt q _ B) in Hin; lia).
    destruct Hres as [->| ->]; auto.
  - intros ex ch H1 H2. apply elem_of_app. left. by apply B6.
Qed.

Lemma book_accept q it :
  book q -> closed q = false -> reply it = next_reply q ->
  book (mkQueue (world q) (buffer q ++ [it]) (closed q) (running q) (done_ q) (S (next_reply q))
          (delivered q) (accepted q ++ [reply it]) (executions q)).
Proof.
  intros B Hc Hi. pose proof B as [B1 B2 B3 B4 B5 B6 B7]. fields.
  - rewrite B1, fmap_app, <- !app_assoc. done.
  - rewrite fmap_app, seq_S, <- B2, <- !app_assoc. simpl. by rewrite Hi.
  - intros Hd. destruct (B3 Hd) as [? _]. congruence.
  - intros ch res H. pose proof (B4 ch res H) as Hs.
    assert (Hlt : (ch < next_reply q)%nat).
    { apply (book_lt q); [done|]. apply elem_of_app. left. apply list_elem_of_fmap. by exists (ch, res). }
    assert (Hne : ch ∉ accepted q -> ch ∉ accepted q ++ [reply it]).
    { intros Hn [?|Ei%list_elem_of_singleton]%elem_of_app; [done|]. lia. }
    destruct Hs as [[-> Hn]|[[-> Hn]|?]]; auto.
Qed.

Lemma book_step q l q' : book q -> step q l q' -> book q'.
Proof.
  intros B Hs. pose proof B as [B1 B2 B3 B4 B5 B6 B7].
  destruct Hs as [q k f|q|q hd rs rest Hr Hd Hn|q hd rs c0 c w' res Hr Hc He|q Hr Hd Hn].
  - unfold Submit. destruct f as [f|]; [|apply book_reject; auto].
    destruct (closed q) eqn:Ec; [rewrite <- Ec; apply book_reject; auto|].
    rewrite <- Ec. by apply (book_accept q (mkItem k f (next_reply q))).
  - fields. intros Hd. by destruct (B3 Hd) as (_ & ? & ?).
  - destruct (next_took _ _ _ _ Hn) as (Hsplit & peers & Hbuf & Hrs & Hk & Hco).
    unfold running_replies in *. rewrite Hr in *. simpl in *.
    fields.
    + rewrite B1. unfold exec_replies. simpl. by rewrite <- Hsplit.
    + by rewrite <- B2, <- Hsplit.
    + intros Hd'. congruence.
    + intros it rs0 c0 [= <- <- <-]. rewrite Hrs. split; [done|]. intros Hne. simpl.
      destruct peers as [|p ps]; [done|]. exfalso. by apply Hne, Hco.
  - unfold running_replies in *. rewrite Hr in *. destruct (B7 _ _ _ eq_refl) as [H1 H2].
    fields.
    + rewrite B1. unfold exec_replies. simpl. rewrite bind_app. cbn [mbind list_bind ex_replies].
      by rewrite app_nil_r, <- app_assoc.
    + rewrite <- B2, fmap_app, <- list_fmap_compose, <- app_assoc. simpl.
      assert (fst ∘ (fun ch => (ch, res)) <$> rs = rs) as -> by (rewrite <- (list_fmap_id rs) at 2; done). done.
    + intros Hd'. destruct (B3 Hd') as (_ & _ & ?). congruence.
    + intros ch r [H|H]%elem_of_app.
      * destruct (B4 ch r H) as [?|[?|(ex & Hex & Hx)]]; [auto|auto|]. right. right. exists ex.
        split; [apply elem_of_app; by left|done].
      * apply list_elem_of_fmap in H as (ch' & [= -> ->] & Hin). right. right. exists (mkExec hd rs res).
        split; [apply elem_of_app; right; by left|done].
    + apply Forall_app. split; [done|]. by apply Forall_singleton.
    + intros ex ch [Hex|Hex]%elem_of_app Hch; apply elem_of_app; [left; by apply B6|right].
      apply list_elem_of_singleton in Hex as ->. simpl in *. apply list_elem_of_fmap. by exists ch.
  - unfold next in Hn. unfold running_replies in *. rewrite Hr in *.
    destruct (buffer q) as [|it items] eqn:Eb; [|by destruct (Coalesces (kind it)); [destruct (drain _ _)|]].
    destruct (closed q) eqn:Ec; [|done].
    fields.
Qed.

Lemma reachable_book w q : reachable w q -> book q.
Proof. apply reachable_ind; [apply book_init|]. intros q0 l q' _ B Hs. by eapply book_step. Qed.

(** ** Progress *)

Definition work_left (q : queue) : nat :=
  (2 * length (buffer q) + match running q with Some _ => 1 | None => 0 end + (if done_ q then 0 else 1))%nat.

Lemma worker_decreases q l q' : step q l q' -> is_worker l = true -> (work_left q' < work_left q)%nat.
Proof.
  intros Hs Hw. destruct Hs as [q k f|q|q hd rs rest Hr Hd Hn|q hd rs c0 c w' res Hr Hc He|q Hr Hd Hn]; try done;
    unfold work_left; simpl; rewrite ?Hr, ?Hd.
  - destruct (next_took _ _ _ _ Hn) as (_ & peers & Hbuf & _). rewrite Hbuf, length_app. simpl. lia.
  - lia.
  - lia.
Qed.

Lemma worker_enabled q :
  closed q = true -> done_ q = false -> exists l q', is_worker l = true /\ step q l q'.
Proof.
  intros Hc Hd. destruct (running q) as [[[hd rs] c0]|] eqn:Hr.
  - destruct (execute (world q) (fn hd) c0) as [w' res] eqn:He. eexists (LFinish c0), _. split; [done|].
    eapply step_finish; [done|by left|done].
  - destruct (next q) as [| |hd rs rest] eqn:Hn.
    + exfalso. unfold next in Hn. rewrite Hc in Hn. destruct (buffer q) as [|it items]; [done|].
      destruct (Coalesces (kind it)); [by destruct (drain _ _)|done].
    + eexists LExit, _. split; [done|]. by apply step_exit.
    + eexists LTake, _. split; [done|]. by apply step_take.
Qed.

Lemma worker_closed q l q' : step q l q' -> is_worker l = true -> closed q' = closed q /\ next_reply q' = next_reply q.
Proof. intros [] ?; done. Qed.

Lemma drain_to_done q :
  closed q = true -> exists ls q', Forall (fun l => is_worker l = true) ls /\ steps q ls q' /\
    done_ q' = true /\ next_reply q' = next_reply q.
Proof.
  assert (G : forall n q, (work_left q <= n)%nat -> closed q = true ->
    exists ls q', Forall (fun l => is_worker l = true) ls /\ steps q ls q' /\ done_ q' = true /\ next_reply q' = next_reply q).
  { clear. induction n as [|n IH]; intros q Hn Hc.
    - unfold work_left in Hn. destruct (done_ q) eqn:Hd; [|lia]. exists [], q. by split_and!; [constructor|constructor|..].
    - destruct (done_ q) eqn:Hd; [exists [], q; by split_and!; [constructor|constructor|..]|].
      destruct (worker_enabled q Hc Hd) as (l & q1 & Hw & Hs).
      pose proof (worker_decreases _ _ _ Hs Hw). destruct (worker_closed _ _ _ Hs Hw) as [Hc1 Hn1].
      destruct (IH q1) as (ls & q' & H1 & H2 & H3 & H4); [lia|congruence|].
      exists (l :: ls), q'. split_and!; [by constructor|by econstructor|done|congruence]. }
  intros Hc. by apply (G (work_left q)).
Qed.

Lemma steps_app q ls q1 ls' q2 : steps q ls q1 -> steps q1 ls' q2 -> steps q (ls ++ ls') q2.
Proof. induction 1; intros H2; [done|]. simpl. econstructor; [done|]. auto. Qed.

(** ** Theorems *)

(** C27: every reply channel gets at most one result, and none is lost: in
    any reachable state the channels created so far are, each exactly once,
    either answered, being executed, or still queued; once the worker is done
    all of them are answered. *)
Theorem queue_exactly_once w q :
  reachable w q ->
  NoDup (fst <$> delivered q) /\
  (fst <$> delivered q) ++ running_replies q ++ (reply <$> buffer q) ≡ₚ seq 0 (next_reply q) /\
  (done_ q = true -> fst <$> delivered q ≡ₚ seq 0 (next_reply q)).
Proof.
  intros B%reachable_book. pose proof (bk_once q B) as Ho. split_and!; [|done|].
  - pose proof (NoDup_seq 0 (next_reply q)) as Hn. rewrite <- Ho in Hn. by apply NoDup_app in Hn as (? & _ & _).
  - intros Hd. destruct (bk_done q B Hd) as (_ & Hb & Hr). unfold running_replies in Ho. rewrite Hb, Hr in Ho.
    by rewrite !app_nil_r in Ho.
Qed.

(** Strict FIFO.  The channels served by the executions, in execution
    order, then those being executed, then those queued, are exactly the
    accepted submissions in submission order. *)
Theorem queue_fifo w q :
  reachable w q -> accepted q = exec_replies q ++ running_replies q ++ (reply <$> buffer q).
Proof. intros B%reachable_book. apply (bk_fifo q B). Qed.

(** Only reconciles coalesce.  An execution that serves more than one
    submission has a reconcile at its head, and every result on a channel is
    the result of the execution that served it, or an immediate rejection
    (nil closure, queue closed) of a submission that was never queued. *)
Theorem queue_coalescing w q :
  reachable w q ->
  (forall ex, ex ∈ executions q -> (1 < length (ex_replies ex))%nat -> kind (ex_head ex) = ActionReconcile) /\
  (forall ch res, (ch, res) ∈ delivered q ->
     ((ch ∉ accepted q) /\ (res = Err ErrNilClosure \/ res = Err ErrClosed)) \/
     exists ex, ex ∈ executions q /\ ch ∈ ex_replies ex /\ res = ex_result ex).
Proof.
  intros B%reachable_book. split.
  - intros ex Hex Hlen. pose proof (bk_exec q B) as Hx. rewrite Forall_forall in Hx.
    destruct (Hx ex Hex) as [_ Hk]. destruct (decide (kind (ex_head ex) = ActionReconcile)) as [|Hne]; [done|].
    specialize (Hk Hne). lia.
  - intros ch res H. destruct (bk_sent q B ch res H) as [[? ?]|[[? ?]|?]]; auto.
Qed.

(** Shutdown drains.  Once [Close] has been called no submission is
    queued any more, the worker can always take a step until it is done, each
    of its steps reduces the work left, and so it reaches the done state with
    every channel answered, without help from anyone. *)
Theorem queue_close_drains w q :
  reachable w q -> closed q = true ->
  (forall k f, buffer (Submit q k f).2 = buffer q) /\
  (done_ q = false -> exists l q', is_worker l = true /\ step q l q') /\
  (forall l q', is_worker l = true -> step q l q' -> (work_left q' < work_left q)%nat) /\
  exists ls q', Forall (fun l => is_worker l = true) ls /\ steps q ls q' /\ done_ q' = true /\
    fst <$> delivered q' ≡ₚ seq 0 (next_reply q).
Proof.
  intros Hr Hc. split_and!.
  - intros k [f|]; unfold Submit; [|done]. by rewrite Hc.
  - intros Hd. by apply worker_enabled.
  - intros l q' Hw Hs. by eapply worker_decreases.
  - destruct (drain_to_done q Hc) as (ls & q' & H1 & H2 & H3 & H4). exists ls, q'. split_and!; try done.
    assert (B : book q').
    { apply (reachable_book w). destruct Hr as [ls0 Hls0]. exists (ls0 ++ ls). by eapply steps_app. }
    pose proof (bk_once q' B) as Ho. destruct (bk_done q' B H3) as (_ & Hb & Hrun).
    unfold running_replies in Ho. rewrite Hb, Hrun, !app_nil_r, H4 in Ho. done.
Qed.

End Queue.

(** ** Witnesses *)

Definition incr : @ActionFunc nat nat Empty_set := fun w _ => (S w, Returned w None).

Definition demo_run : list (@label nat nat Empty_set) :=
  [LSubmit ActionReconcile (Some incr); LSubmit ActionReconcile (Some incr); LSubmit ActionRead None;
   LTake; LClose; LSubmit ActionEnable (Some incr); LFinish true; LExit].

Definition demo_state : @queue nat nat Empty_set :=
  mkQueue 1%nat [] true None true 4
    [(2%nat, Err ErrNilClosure); (3%nat, Err ErrClosed); (0%nat, Ok 0%nat); (1%nat, Ok 0%nat)]
    [0%nat; 1%nat]
    [mkExec (mkItem ActionReconcile incr 0) [0%nat; 1%nat] (Ok 0%nat)].

Lemma demo_reachable : reachable 0%nat demo_state.
Proof.
  exists demo_run. unfold demo_run.
  eapply steps_cons; [apply step_submit|]. eapply steps_cons; [apply step_submit|].
  eapply steps_cons; [apply step_submit|]. cbn.
  eapply steps_cons; [by eapply step_take; [..|vm_compute]|]. cbn.
  eapply steps_cons; [apply step_close|]. cbn.
  eapply steps_cons; [apply step_submit|]. cbn.
  eapply steps_cons; [eapply step_finish; [done|by right|by vm_compute]|]. cbn.
  eapply steps_cons; [by eapply step_exit|]. constructor.
Qed.

Lemma queue_exactly_once_witness : NoDup (fst <$> delivered demo_state).
Proof. apply (queue_exactly_once 0%nat), demo_reachable. Defined.

Lemma queue_fifo_witness : accepted demo_state = exec_replies demo_state ++ [] ++ [].
Proof. apply (queue_fifo 0%nat demo_state), demo_reachable. Defined.

Lemma queue_coalescing_witness :
  Forall (fun ex => (1 < length (ex_replies ex))%nat -> kind (ex_head ex) = ActionReconcile) (executions demo_state).
Proof. apply Forall_forall. apply (queue_coalescing 0%nat), demo_reachable. Defined.

Lemma queue_close_drains_witness :
  exists ls q', Forall (fun l => is_worker l = true) ls /\ steps demo_state ls q' /\ done_ q' = true /\
    fst <$> delivered q' ≡ₚ seq 0 4.
Proof. apply (queue_close_drains 0%nat demo_state); [apply demo_reachable|done]. Defined.

End ActionQueue.
