(* ===== verification/EbpfApi.v ===== *)
(** * Types and interface of the eBPF package

    controlplane/firewall/ebpf: container configurations and route keys, the
    kernel's faults, and the interface [EBPFManager] that the handler is
    written against.  [EBPFManager] is the Go interface with what it lets one
    observe of the kernel; [EBPFManagerLaws] is what it promises.  The manager
    of [Ebpf] is its instance. *)

From S2P Require Import Prelude GoStrings GoNet Routes.
Import Go Routes.

Module EbpfApi.

Record ContainerConfig := mkConfig {
  EnvoyIp : Z; CorednsIp : Z; GatewayIp : Z; NetAddr : Z; NetMask : Z;
  HostProxyIp : Z; HostProxyPort : Z; CEgressPort : Z;
}.

#[global] Instance ContainerConfig_eq_dec : EqDecision ContainerConfig.
Proof. solve_decision. Defined.

(** (domain hash, destination port, transport) *)
Abbreviation route_key := (Z * Z * Z)%type.

Definition key_of (r : Route) : route_key := (rt_DomainHash r, rt_DstPort r, rt_L4Proto r).

(** The port the last of [routes] with key [k] names. *)
Definition route_port (routes : list Route) (k : route_key) : option Z :=
  rt_EnvoyPort <$> last (filter (fun r => key_of r = k) routes).

Lemma route_port_snoc routes r k :
  route_port (routes ++ [r]) k = if decide (key_of r = k) then Some (rt_EnvoyPort r) else route_port routes k.
Proof.
  unfold route_port. rewrite filter_app, filter_cons, filter_nil. destruct (decide (key_of r = k)).
  - by rewrite last_snoc.
  - by rewrite app_nil_r.
Qed.

Inductive bpf_map := ContainerMap | BypassMap | RouteMap | DnsCache | RatelimitState | UdpFlowMap | RatelimitDrops.

#[global] Instance bpf_map_eq_dec : EqDecision bpf_map.
Proof. solve_decision. Defined.

(** Which kernel operations fail with an error other than "no such key".  An
    iterator may break after some entries. *)
Record kfaults := mkKFaults {
  container_update_fails : Z -> bool;
  container_delete_fails : Z -> bool;
  container_lookup_fails : Z -> bool;
  bypass_update_fails : Z -> bool;
  bypass_delete_fails : Z -> bool;
  route_update_fails : route_key -> bool;
  route_delete_fails : route_key -> bool;
  dns_update_fails : Z -> bool;
  dns_delete_fails : Z -> bool;
  ratelimit_delete_fails : Z -> bool;
  udp_delete_fails : Z * Z * Z -> bool;
  drops_delete_fails : Z -> bool;
  attach_fails : string -> bool;
  pin_fails : string -> bool;
  iter_breaks : bpf_map -> option nat;
}.

Definition no_kfaults : kfaults :=
  mkKFaults (fun _ => false) (fun _ => false) (fun _ => false) (fun _ => false) (fun _ => false)
    (fun _ => false) (fun _ => false) (fun _ => false) (fun _ => false) (fun _ => false) (fun _ => false)
    (fun _ => false) (fun _ => false) (fun _ => false) (fun _ => None).

(** ** Attached programs *)

Definition cgroupAttachments : list string :=
  ["connect4"; "sendmsg4"; "recvmsg4"; "connect6"; "sendmsg6"; "recvmsg6"; "getpeername4"; "getpeername6"; "sock_create"].

(** ** Container configuration *)

Inductive config_error := BadCIDR | BadEnvoyIP | BadCorednsIP | BadGatewayIP | BadHostProxyIP.

(** A Go result that may also be a panic. *)
Inductive go_outcome (E A : Type) := GoOk (a : A) | GoErr (e : E) | GoPanic.
Arguments GoOk {E A}.
Arguments GoErr {E A}.
Arguments GoPanic {E A}.

Definition mask_bytes (bits : Z) : list Z :=
  (fun i => 256 - 2 ^ (8 - Z.max 0 (Z.min 8 (bits - 8 * i)))) <$> [0; 1; 2; 3].

(** [binary.NativeEndian.Uint32] of a nil slice panics. *)
Definition CIDRToAddrMask (cidr : string) : go_outcome config_error (Z * Z) :=
  match GoNet.ParseCIDR cidr with
  | None => GoErr BadCIDR
  | Some p =>
      match GoNet.pfx_addr p with
      | GoNet.Addr4 bytes =>
          let mask := mask_bytes (GoNet.pfx_bits p) in
          GoOk (le_value (zip_with Z.land bytes mask), le_value mask)
      | GoNet.Addr6 _ _ => GoPanic
      end
  end.

Definition parseIP (s : string) : option Z := le_value <$> parse_v4 s.

Definition NewContainerConfig (envoyIP corednsIP gatewayIP cidr hostProxyIP : string) (hostProxyPort egressPort : Z)
    : go_outcome config_error ContainerConfig :=
  match CIDRToAddrMask cidr with
  | GoPanic => GoPanic
  | GoErr e => GoErr e
  | GoOk (netAddr, netMask) =>
      match parseIP envoyIP, parseIP corednsIP, parseIP gatewayIP with
      | None, _, _ => GoErr BadEnvoyIP
      | _, None, _ => GoErr BadCorednsIP
      | _, _, None => GoErr BadGatewayIP
      | Some envoy, Some coredns, Some gateway =>
          if String.eqb hostProxyIP "" then
            GoOk (mkConfig envoy coredns gateway netAddr netMask 0 hostProxyPort egressPort)
          else
            match parseIP hostProxyIP with
            | None => GoErr BadHostProxyIP
            | Some hp => GoOk (mkConfig envoy coredns gateway netAddr netMask hp hostProxyPort egressPort)
            end
      end
  end.

(** ** Container configuration *)

(** An IPv6 network range makes the conversion panic: no error is returned. *)
Lemma CIDRToAddrMask_ipv6_panics : CIDRToAddrMask "fd00::/8" = GoPanic.
Proof. by vm_compute. Qed.

(** ** The interface *)

(** Each operation takes the kernel's faults and returns the state and whether
    the Go method returned a nil error; [SyncRoutes] also reads the clock. *)
Class EBPFManager (M : Type) := {
  Install : kfaults -> M -> Z -> ContainerConfig -> M * bool;
  Remove : kfaults -> M -> Z -> M * bool;
  Enable : kfaults -> M -> Z -> M * bool;
  Disable : kfaults -> M -> Z -> M * bool;
  SyncRoutes : kfaults -> Z -> M -> list Route -> M * bool;
  FlushAll : kfaults -> M -> M * bool;
  (** what the BPF programs look up: the bypass flag and the configuration of a
      cgroup, the programs linked to it, and the route of a key *)
  bypass_flag : M -> Z -> option Z;
  config_at : M -> Z -> option ContainerConfig;
  links_at : M -> Z -> option (list string);
  route_at : M -> route_key -> option Z;
}.

(** The part of the state that enforces one container. *)
Definition view {M} `{EBPFManager M} (m : M) (cg : Z) : option ContainerConfig * option Z * option (list string) :=
  (config_at m cg, bypass_flag m cg, links_at m cg).

(** The kernel deletes bypass flags, one by one and in a sweep. *)
Definition clears_flags (f : kfaults) : Prop :=
  (forall cg, bypass_delete_fails f cg = false) /\ iter_breaks f BypassMap = None.

Class EBPFManagerLaws (M : Type) `{EBPFManager M} := {
  install_succeeds f m cg cfg :
    container_update_fails f cg = false -> (forall a, attach_fails f a = false) -> (Install f m cg cfg).2 = true;
  install_enforces f m cg cfg :
    (Install f m cg cfg).2 = true ->
    config_at (Install f m cg cfg).1 cg = Some cfg /\ links_at (Install f m cg cfg).1 cg = Some cgroupAttachments;
  install_flag f m cg cfg cg' :
    bypass_flag (Install f m cg cfg).1 cg' =
    if bool_decide (cg' = cg /\ bypass_delete_fails f cg = false) then None else bypass_flag m cg';
  install_other f m cg cfg cg' :
    cg' <> cg -> config_at (Install f m cg cfg).1 cg' = config_at m cg' /\ links_at (Install f m cg cfg).1 cg' = links_at m cg';
  install_route f m cg cfg k : route_at (Install f m cg cfg).1 k = route_at m k;
  disable_flag f m cg cg' :
    bypass_flag (Disable f m cg).1 cg' =
    if bool_decide (cg' = cg /\ bypass_update_fails f cg = false) then Some 1 else bypass_flag m cg';
  enable_flag f m cg cg' :
    bypass_flag (Enable f m cg).1 cg' =
    if bool_decide (cg' = cg /\ bypass_delete_fails f cg = false) then None else bypass_flag m cg';
  sync_flag f now m routes cg : bypass_flag (SyncRoutes f now m routes).1 cg = bypass_flag m cg;
  sync_route f now m routes k :
    (SyncRoutes f now m routes).2 = true -> route_at (SyncRoutes f now m routes).1 k = route_port routes k;
  flush_flag f m cg : clears_flags f -> bypass_flag (FlushAll f m).1 cg = None;
}.

End EbpfApi.
