(* ===== verification/Ebpf.v ===== *)
(** * The eBPF manager

    controlplane/firewall/ebpf/manager.go and dns_gc.go: the kernel maps the
    BPF programs enforce from, and every operation of the control plane on
    them.  Kernel maps are [gmap]s; the kernel operations that can fail are
    governed by a [kfaults] record, so error paths are part of the model.  The
    order in which a kernel map is iterated is left to [map_to_list].  The
    removal of a pin file is taken to succeed. *)

From S2P Require Import Prelude GoStrings GoNet Routes EbpfApi.
Import Go Routes EbpfApi.

Module Ebpf.

Record dns_entry := mkDns { de_DomainHash : Z; de_ExpireTs : Z }.

Record Manager := mkManager {
  container_map : gmap Z ContainerConfig;
  bypass_map : gmap Z Z;
  route_map : gmap route_key Z;
  dns_cache : gmap Z dns_entry;
  (** last refill and tokens, by cgroup *)
  ratelimit_state : gmap Z (Z * Z);
  (** reverse-NAT state: the original address and port (in network order), by
      socket cookie and the address and port of the backend *)
  udp_flow_map : gmap (Z * Z * Z) (Z * Z);
  ratelimit_drops : gmap Z Z;
  (** pinned links, by program name and cgroup *)
  pins : gset (string * Z);
  (** links held in memory, by cgroup *)
  links : gmap Z (list string);
  seededIPs : gset Z;
}.

(** Functional updates of one map. *)
Definition with_bypass (m : Manager) (b : gmap Z Z) : Manager :=
  mkManager (container_map m) b (route_map m) (dns_cache m) (ratelimit_state m) (udp_flow_map m)
    (ratelimit_drops m) (pins m) (links m) (seededIPs m).
Definition with_container (m : Manager) (c : gmap Z ContainerConfig) : Manager :=
  mkManager c (bypass_map m) (route_map m) (dns_cache m) (ratelimit_state m) (udp_flow_map m)
    (ratelimit_drops m) (pins m) (links m) (seededIPs m).
Definition with_links (m : Manager) (p : gset (string * Z)) (l : gmap Z (list string)) : Manager :=
  mkManager (container_map m) (bypass_map m) (route_map m) (dns_cache m) (ratelimit_state m) (udp_flow_map m)
    (ratelimit_drops m) p l (seededIPs m).
Definition with_dns (m : Manager) (d : gmap Z dns_entry) (s : gset Z) : Manager :=
  mkManager (container_map m) (bypass_map m) (route_map m) d (ratelimit_state m) (udp_flow_map m)
    (ratelimit_drops m) (pins m) (links m) s.
Definition with_routes (m : Manager) (r : gmap route_key Z) : Manager :=
  mkManager (container_map m) (bypass_map m) r (dns_cache m) (ratelimit_state m) (udp_flow_map m)
    (ratelimit_drops m) (pins m) (links m) (seededIPs m).

(** Iterating a kernel map: the entries seen, and whether it broke. *)
Definition iterate {A} (f : kfaults) (which : bpf_map) (entries : list A) : list A * bool :=
  match iter_breaks f which with
  | Some n => if (n <? length entries)%nat then (take n entries, true) else (entries, false)
  | None => (entries, false)
  end.

(** Deleting a list of keys: the map left and the keys that could not be
    deleted.  A missing key counts as deleted. *)
Definition delete_keys {K} `{Countable K} {V} (fails : K -> bool) (ks : list K) (m : gmap K V) : gmap K V * list K :=
  foldl (fun '(m, errs) k => if fails k then (m, errs ++ [k]) else (delete k m, errs)) (m, []) ks.

(** ** Enforcement flags *)

Definition clearBypass (f : kfaults) (m : Manager) (cg : Z) : Manager * bool :=
  if bypass_delete_fails f cg then (m, false) else (with_bypass m (delete cg (bypass_map m)), true).

Definition Disable (f : kfaults) (m : Manager) (cg : Z) : Manager * bool :=
  if bypass_update_fails f cg then (m, false) else (with_bypass m (<[cg := 1]> (bypass_map m)), true).

Definition Enable (f : kfaults) (m : Manager) (cg : Z) : Manager * bool :=
  if bypass_delete_fails f cg then (m, false) else (with_bypass m (delete cg (bypass_map m)), true).

(** ** Install and Remove *)

Definition own_pins (cg : Z) : gset (string * Z) := list_to_set ((fun a => (a, cg)) <$> cgroupAttachments).

Definition cleanupLinks (m : Manager) (cg : Z) : Manager :=
  with_links m (pins m ∖ own_pins cg) (delete cg (links m)).

(** The attach loop: the pins made, the programs linked, and whether every
    program attached. *)
Fixpoint attach_loop (f : kfaults) (cg : Z) (names : list string) (p : gset (string * Z)) (linked : list string)
    : gset (string * Z) * list string * bool :=
  match names with
  | [] => (p, linked, true)
  | a :: names' =>
      if attach_fails f a then (p, linked, false)
      else
        let p := p ∖ {[(a, cg)]} in
        let p := if pin_fails f a then p else {[(a, cg)]} ∪ p in
        attach_loop f cg names' p (linked ++ [a])
  end.

Definition Install (f : kfaults) (m : Manager) (cg : Z) (cfg : ContainerConfig) : Manager * bool :=
  let m := cleanupLinks m cg in
  let m := (clearBypass f m cg).1 in
  if container_update_fails f cg then (m, false)
  else
    let m := with_container m (<[cg := cfg]> (container_map m)) in
    let '(p, linked, ok) := attach_loop f cg cgroupAttachments (pins m) [] in
    if ok then (with_links m p (<[cg := linked]> (links m)), true)
    else (with_links m p (links m), false).

Definition Remove (f : kfaults) (m : Manager) (cg : Z) : Manager * bool :=
  let m := with_links m (pins m ∖ own_pins cg) (delete cg (links m)) in
  let m := if container_delete_fails f cg then m else with_container m (delete cg (container_map m)) in
  ((clearBypass f m cg).1, true).

(** ** SyncRoutes *)

Definition update_routes (f : kfaults) (routes : list Route) (m : gmap route_key Z) : gmap route_key Z * list route_key :=
  foldl (fun '(m, errs) r =>
    if route_update_fails f (key_of r) then (m, errs ++ [key_of r]) else (<[key_of r := rt_EnvoyPort r]> m, errs))
  (m, []) routes.

Definition dnsSeedTTLSeconds : Z := 365 * 24 * 3600.

Definition seedDNSCacheIfAbsent (f : kfaults) (now : Z) (d : gmap Z dns_entry) (ip hash : Z) : gmap Z dns_entry * bool :=
  match d !! ip with
  | Some _ => (d, true)
  | None =>
      if dns_update_fails f ip then (d, false)
      else (<[ip := mkDns hash (uint32 (uint32 now + dnsSeedTTLSeconds))]> d, true)
  end.

Definition UpdateDNSCache (f : kfaults) (now : Z) (d : gmap Z dns_entry) (ip hash ttl : Z) : gmap Z dns_entry * bool :=
  if dns_update_fails f ip then (d, false) else (<[ip := mkDns hash (uint32 (uint32 now + ttl))]> d, true).

Definition seed_routes (f : kfaults) (now : Z) (routes : list Route) (d : gmap Z dns_entry) : gmap Z dns_entry * list Z :=
  foldl (fun '(d, errs) r =>
    if rt_SeedIP r =? 0 then (d, errs)
    else
      let '(d', ok) := seedDNSCacheIfAbsent f now d (rt_SeedIP r) (rt_DomainHash r) in
      if (ok : bool) then (d', errs) else (d', errs ++ [rt_SeedIP r]))
  (d, []) routes.

Definition diffSeededIPs (routes : list Route) (prev : gset Z) : gset Z * list Z :=
  let next := list_to_set (filter (fun ip => ip <> 0) (rt_SeedIP <$> routes)) : gset Z in
  (next, filter (fun ip => ip ∉ next) (elements prev)).

(** The errors of a sync: a broken iteration, and the keys that failed. *)
Record sync_errors := mkSyncErrors {
  se_iter : bool; se_delete : list route_key; se_update : list route_key; se_seed : list Z
}.
Definition no_sync_errors : sync_errors := mkSyncErrors false [] [] [].

Definition SyncRoutes (f : kfaults) (now : Z) (m : Manager) (routes : list Route) : Manager * sync_errors :=
  let '(keys, broke) := iterate f RouteMap (map_to_list (route_map m)).*1 in
  let '(rm, derrs) := delete_keys (route_delete_fails f) keys (route_map m) in
  let '(rm, uerrs) := update_routes f routes rm in
  let '(d, serrs) := seed_routes f now routes (dns_cache m) in
  let '(next, orphaned) := diffSeededIPs routes (seededIPs m) in
  let '(d, _) := delete_keys (dns_delete_fails f) orphaned d in
  (with_dns (with_routes m rm) d next, mkSyncErrors broke derrs uerrs serrs).

(** ** DNS garbage collection *)

Definition deleteExpiredDNSEntries (f : kfaults) (keys : list Z) (d : gmap Z dns_entry) : gmap Z dns_entry * nat * list Z :=
  let '(d', failed) := delete_keys (dns_delete_fails f) keys d in
  (d', (length keys - length failed)%nat, failed).

(** The sweep: the manager left, the entries cleared, and the error: a broken
    iteration and the keys whose delete failed. *)
Definition GarbageCollectDNS (f : kfaults) (now : Z) (m : Manager) : Manager * nat * option (bool * list Z) :=
  let now := uint32 now in
  let '(entries, broke) := iterate f DnsCache (map_to_list (dns_cache m)) in
  let expired :=
    fst <$> filter (fun e : Z * dns_entry => (de_ExpireTs e.2 < now)%Z /\ e.1 ∉ seededIPs m) entries in
  let '(d, cleared, failed) := deleteExpiredDNSEntries f expired (dns_cache m) in
  (with_dns m d (seededIPs m), cleared,
   if broke || negb (bool_decide (failed = [])) then Some (broke, failed) else None).

(** ** Startup and shutdown *)

Definition CleanupStaleBypass (f : kfaults) (m : Manager) : Manager * nat * (bool * list Z * list Z) :=
  let '(keys, broke) := iterate f BypassMap (map_to_list (bypass_map m)).*1 in
  let stale := filter (fun k => container_lookup_fails f k = false /\ container_map m !! k = None) keys in
  let unknown := filter (fun k => container_lookup_fails f k = true) keys in
  let '(b, failed) := delete_keys (bypass_delete_fails f) stale (bypass_map m) in
  (with_bypass m b, (length stale - length failed)%nat, (broke, unknown, failed)).

Definition CleanupAllLinks (m : Manager) : Manager := with_links m ∅ (links m).

(** [cleanupStaleLinks] at load: the pins of a cgroup without a container
    entry go.  [present] says whether a pinned container map was found. *)
Definition cleanupStaleLinks (f : kfaults) (present : bool) (m : Manager) : Manager :=
  with_links m
    (filter (fun p : string * Z => present = true /\ container_lookup_fails f p.2 = false /\ is_Some (container_map m !! p.2)) (pins m))
    (links m).

Inductive flush_error := FlushIterate (which : bpf_map) | FlushEntry (which : bpf_map).

(** One map drained: collect its keys, then delete them one by one. *)
Definition drain {K} `{Countable K} {V} (f : kfaults) (which : bpf_map) (fails : K -> bool) (m : gmap K V)
    : gmap K V * list flush_error :=
  let '(keys, broke) := iterate f which (map_to_list m).*1 in
  let '(m', failed) := delete_keys fails keys m in
  (m', (if (broke : bool) then [FlushIterate which] else []) ++ ((fun _ => FlushEntry which) <$> failed)).

(** [FlushAll] of a loaded manager, whose maps are all there. *)
Definition FlushAll (f : kfaults) (m : Manager) : Manager * list flush_error :=
  let '(c, e1) := drain f ContainerMap (container_delete_fails f) (container_map m) in
  let '(b, e2) := drain f BypassMap (bypass_delete_fails f) (bypass_map m) in
  let '(rs, e3) := drain f RatelimitState (ratelimit_delete_fails f) (ratelimit_state m) in
  let '(u, e4) := drain f UdpFlowMap (udp_delete_fails f) (udp_flow_map m) in
  let '(rd, e5) := drain f RatelimitDrops (drops_delete_fails f) (ratelimit_drops m) in
  (CleanupAllLinks (mkManager c b (route_map m) (dns_cache m) rs u rd (pins m) (links m) (seededIPs m)),
   e1 ++ e2 ++ e3 ++ e4 ++ e5).

(** ** The degraded-GC detector (dns_gc.go) *)

Inductive sweep_outcome := SweepPanicked | SweepErr | SweepOk (cleared : nat).

Definition dnsGCSweep (o : sweep_outcome) : bool :=
  match o with SweepOk _ => true | SweepErr | SweepPanicked => false end.

Record dnsGCEscalator := mkEscalator { threshold : Z; failures : Z }.

Definition record (e : dnsGCEscalator) (ok : bool) : dnsGCEscalator * bool :=
  if ok then (mkEscalator (threshold e) 0, false)
  else
    let e := mkEscalator (threshold e) (failures e + 1) in
    (e, failures e =? threshold e).

(** The ticks of the loop: which sweeps escalate. *)
Fixpoint ticks (e : dnsGCEscalator) (outcomes : list bool) : list bool :=
  match outcomes with
  | [] => []
  | ok :: rest => let '(e', esc) := record e ok in esc :: ticks e' rest
  end.

(** ** Map lemmas *)

Section Keys.
Context {K : Type} `{Countable K} {V : Type}.
Implicit Types (fails : K -> bool) (m : gmap K V) (ks : list K).

Lemma delete_keys_acc fails ks m errs :
  foldl (fun '(m, errs) k => if fails k then (m, errs ++ [k]) else (delete k m, errs)) (m, errs) ks =
  ((delete_keys fails ks m).1, errs ++ (delete_keys fails ks m).2).
Proof.
  unfold delete_keys. revert m errs. induction ks as [|k ks IH]; intros m errs; cbn; [by rewrite app_nil_r|].
  destruct (fails k).
  - rewrite IH, (IH m [k]). cbn. by rewrite <- app_assoc.
  - rewrite IH. done.
Qed.

Lemma delete_keys_cons fails k ks m :
  delete_keys fails (k :: ks) m =
  if fails k then ((delete_keys fails ks m).1, k :: (delete_keys fails ks m).2) else delete_keys fails ks (delete k m).
Proof.
  unfold delete_keys at 1. cbn. destruct (fails k); rewrite delete_keys_acc; [done|].
  by destruct (delete_keys fails ks (delete k m)).
Qed.

(** What is left after the deletes, key by key. *)
Lemma delete_keys_lookup fails ks m k :
  (delete_keys fails ks m).1 !! k = if bool_decide (k ∈ ks /\ fails k = false) then None else m !! k.
Proof.
  revert m. induction ks as [|k' ks IH]; intros m.
  - cbn. rewrite bool_decide_eq_false_2; [done|]. by intros [?%elem_of_nil _].
  - rewrite delete_keys_cons. destruct (decide (k = k')) as [->|Hne].
    + destruct (fails k') eqn:Hf; cbn; rewrite IH.
      * rewrite !bool_decide_eq_false_2; [done|naive_solver..].
      * rewrite lookup_delete_eq, (bool_decide_eq_true_2 (_ ∈ _ :: _ /\ _)); [by case_bool_decide|].
        split; [left|done].
    + assert (bool_decide (k ∈ k' :: ks /\ fails k = false) = bool_decide (k ∈ ks /\ fails k = false)) as ->.
      { apply bool_decide_ext. rewrite elem_of_cons. tauto. }
      destruct (fails k'); cbn; rewrite IH; [done|]. by rewrite lookup_delete_ne by done.
Qed.

Lemma delete_keys_failed fails ks m : (delete_keys fails ks m).2 = filter (fun k => fails k = true) ks.
Proof.
  revert m. induction ks as [|k ks IH]; intros m; [done|]. rewrite delete_keys_cons, filter_cons.
  destruct (fails k) eqn:Hf; cbn; [by rewrite IH, decide_True|]. by rewrite IH, decide_False.
Qed.

(** An iteration that did not break saw every entry. *)
Lemma iterate_whole {A} (f : kfaults) which (l : list A) : (iterate f which l).2 = false -> (iterate f which l).1 = l.
Proof. unfold iterate. destruct (iter_breaks f which) as [n|]; [|done]. by destruct (n <? length l)%nat. Qed.

Lemma iterate_sub {A} (f : kfaults) which (l : list A) x : x ∈ (iterate f which l).1 -> x ∈ l.
Proof.
  unfold iterate. destruct (iter_breaks f which) as [n|]; [|done]. destruct (n <? length l)%nat; [|done].
  cbn. intros Hx. rewrite <- (take_drop n l). apply elem_of_app. by left.
Qed.

Lemma elem_of_keys m k : k ∈ (map_to_list m).*1 <-> is_Some (m !! k).
Proof.
  rewrite list_elem_of_fmap. split.
  - intros ([k' v] & -> & Hk%elem_of_map_to_list). by exists v.
  - intros [v Hv]. exists (k, v). by rewrite elem_of_map_to_list.
Qed.

(** Draining a map without an error empties it; with errors it only removes. *)
Lemma drain_empty (f : kfaults) which fails m : (drain f which fails m).2 = [] -> (drain f which fails m).1 = ∅.
Proof.
  unfold drain. pose proof (iterate_whole f which (map_to_list m).*1) as Hw.
  destruct (iterate f which _) as [keys broke]. cbn in Hw.
  pose proof (delete_keys_lookup fails keys m) as Hl. pose proof (delete_keys_failed fails keys m) as Hf.
  destruct (delete_keys fails keys m) as [m' failed]. cbn in *. intros [Hb Hd]%app_nil.
  destruct broke; [done|]. rewrite (Hw eq_refl) in *. apply fmap_nil_inv in Hd. subst failed.
  apply map_eq. intros k. rewrite Hl, lookup_empty. case_bool_decide as Hk; [done|].
  destruct (m !! k) eqn:Hm; [|done]. exfalso. apply Hk. split; [by apply elem_of_keys|].
  destruct (fails k) eqn:Hfk; [|done]. exfalso. apply (not_elem_of_nil k). rewrite <- Hd.
  apply list_elem_of_filter. split; [done|]. by apply elem_of_keys.
Qed.
End Keys.

(** ** SyncRoutes *)

Lemma update_routes_snoc f routes r m :
  update_routes f (routes ++ [r]) m =
  let '(m', errs) := update_routes f routes m in
  if route_update_fails f (key_of r) then (m', errs ++ [key_of r]) else (<[key_of r := rt_EnvoyPort r]> m', errs).
Proof. unfold update_routes. rewrite foldl_app. by destruct (foldl _ _ routes). Qed.

Lemma update_routes_errs f routes m : (update_routes f routes m).2 = filter (fun k => route_update_fails f k = true) (key_of <$> routes).
Proof.
  induction routes as [|r routes IH] using rev_ind; [done|]. rewrite update_routes_snoc, fmap_app, filter_app, <- IH.
  destruct (update_routes f routes m) as [m' errs]. rewrite fmap_cons, fmap_nil, filter_cons, filter_nil.
  destruct (route_update_fails f (key_of r)) eqn:Hf; [by rewrite decide_True|].
  rewrite decide_False by done. by rewrite app_nil_r.
Qed.

Lemma update_routes_lookup f routes m k :
  route_update_fails f k = false \/ k ∉ key_of <$> routes ->
  (update_routes f routes m).1 !! k = match route_port routes k with Some p => Some p | None => m !! k end.
Proof.
  intros Hk. induction routes as [|r routes IH] using rev_ind; [done|].
  rewrite update_routes_snoc, route_port_snoc. rewrite fmap_app, elem_of_app in Hk.
  ospecialize (IH _); [tauto|]. destruct (update_routes f routes m) as [m' errs]. cbn in *.
  destruct (decide (key_of r = k)) as [<-|Hne].
  - destruct Hk as [->|Hk]; [cbn; by rewrite lookup_insert_eq|]. exfalso. apply Hk. right. by left.
  - destruct (route_update_fails f (key_of r)); cbn; [done|]. by rewrite lookup_insert_ne.
Qed.

Lemma seed_snoc f now routes r d :
  seed_routes f now (routes ++ [r]) d =
  let '(d', errs) := seed_routes f now routes d in
  if rt_SeedIP r =? 0 then (d', errs)
  else
    let '(d'', ok) := seedDNSCacheIfAbsent f now d' (rt_SeedIP r) (rt_DomainHash r) in
    if (ok : bool) then (d'', errs) else (d'', errs ++ [rt_SeedIP r]).
Proof. unfold seed_routes. rewrite foldl_app. by destruct (foldl _ _ routes). Qed.

(** Seeding never touches an entry that is there. *)
Lemma seed_keeps f now routes d ip e : d !! ip = Some e -> (seed_routes f now routes d).1 !! ip = Some e.
Proof.
  intros Hd. induction routes as [|r routes IH] using rev_ind; [done|]. rewrite seed_snoc.
  destruct (seed_routes f now routes d) as [d' errs]. cbn in IH. destruct (rt_SeedIP r =? 0); [done|].
  unfold seedDNSCacheIfAbsent. destruct (d' !! rt_SeedIP r) eqn:Hr; [done|].
  destruct (dns_update_fails f _); [done|]. cbn. rewrite lookup_insert_ne; [done|]. intros Heq. congruence.
Qed.

Lemma seed_errs_prefix f now routes r d : (seed_routes f now (routes ++ [r]) d).2 = [] -> (seed_routes f now routes d).2 = [].
Proof.
  rewrite seed_snoc. destruct (seed_routes f now routes d) as [d' errs]. destruct (rt_SeedIP r =? 0); [done|].
  destruct (seedDNSCacheIfAbsent f now d' _ _) as [d'' []]; cbn; [done|]. by intros [_ ?]%app_nil.
Qed.

(** Without an error every literal address has an entry. *)
Lemma seed_present f now routes d r :
  (seed_routes f now routes d).2 = [] -> r ∈ routes -> rt_SeedIP r <> 0 ->
  is_Some ((seed_routes f now routes d).1 !! rt_SeedIP r).
Proof.
  induction routes as [|r' routes IH] using rev_ind; intros He Hr Hip; [by apply elem_of_nil in Hr|].
  pose proof (seed_errs_prefix _ _ _ _ _ He) as He'. specialize (IH He').
  rewrite seed_snoc in He |- *. destruct (seed_routes f now routes d) as [d' errs]. cbn in *.
  apply elem_of_app in Hr as [Hr| ->%list_elem_of_singleton].
  - specialize (IH Hr Hip). destruct (rt_SeedIP r' =? 0); [done|]. unfold seedDNSCacheIfAbsent in *.
    destruct (d' !! rt_SeedIP r') eqn:Hd; [done|]. destruct (dns_update_fails f _); [done|]. cbn.
    apply lookup_insert_is_Some'. by right.
  - apply Z.eqb_neq in Hip. rewrite Hip in He |- *. unfold seedDNSCacheIfAbsent in *.
    destruct (d' !! rt_SeedIP r') eqn:Hd; [cbn; by rewrite Hd|].
    destruct (dns_update_fails f _); cbn in *; [by apply app_nil in He as [_ ?]|].
    rewrite lookup_insert_eq. by eexists.
Qed.

(** The entries of other addresses are as they were. *)
Lemma seed_other f now routes d ip :
  ip ∉ rt_SeedIP <$> routes \/ ip = 0 -> (seed_routes f now routes d).1 !! ip = d !! ip.
Proof.
  intros Hip. induction routes as [|r routes IH] using rev_ind; [done|]. rewrite fmap_app, elem_of_app in Hip.
  ospecialize (IH _); [tauto|]. rewrite seed_snoc. destruct (seed_routes f now routes d) as [d' errs]. cbn in *.
  destruct (Z.eqb_spec (rt_SeedIP r) 0) as [|Hr]; [done|]. unfold seedDNSCacheIfAbsent.
  destruct (d' !! rt_SeedIP r); [done|]. destruct (dns_update_fails f _); [done|]. cbn.
  rewrite lookup_insert_ne; [done|]. intros Heq. destruct Hip as [Hip| ->]; [|done]. apply Hip. right. rewrite Heq. by left.
Qed.

Lemma diffSeededIPs_next routes prev ip : ip ∈ (diffSeededIPs routes prev).1 <-> ip <> 0 /\ ip ∈ rt_SeedIP <$> routes.
Proof. unfold diffSeededIPs. cbn. by rewrite elem_of_list_to_set, list_elem_of_filter. Qed.

Lemma diffSeededIPs_orphaned routes prev ip :
  ip ∈ (diffSeededIPs routes prev).2 <-> ip ∈ prev /\ (ip ∉ (diffSeededIPs routes prev).1).
Proof. unfold diffSeededIPs. cbn. rewrite list_elem_of_filter, elem_of_elements. tauto. Qed.

(** The error of a sync is nil exactly when it collected nothing. *)
Definition sync_ok (e : sync_errors) : bool :=
  negb (se_iter e) && bool_decide (se_delete e = []) && bool_decide (se_update e = []) && bool_decide (se_seed e = []).

Lemma sync_ok_inv e : sync_ok e = true -> se_iter e = false /\ se_delete e = [] /\ se_update e = [] /\ se_seed e = [].
Proof.
  unfold sync_ok. rewrite !andb_true_iff, negb_true_iff, !bool_decide_eq_true. tauto.
Qed.

(** The three maps a sync writes, as equations on its parts. *)
Lemma SyncRoutes_parts f now m routes :
  let ks := iterate f RouteMap (map_to_list (route_map m)).*1 in
  let del := delete_keys (route_delete_fails f) ks.1 (route_map m) in
  let upd := update_routes f routes del.1 in
  let sd := seed_routes f now routes (dns_cache m) in
  let df := diffSeededIPs routes (seededIPs m) in
  SyncRoutes f now m routes =
  (with_dns (with_routes m upd.1) (delete_keys (dns_delete_fails f) df.2 sd.1).1 df.1,
   mkSyncErrors ks.2 del.2 upd.2 sd.2).
Proof.
  cbn zeta. unfold SyncRoutes. destruct (iterate _ _ _) as [keys broke]. cbn [fst snd].
  destruct (delete_keys _ keys _) as [rm derrs]. cbn [fst snd]. destruct (update_routes _ _ _) as [rm' uerrs].
  destruct (seed_routes _ _ _ _) as [d serrs]. destruct (diffSeededIPs _ _) as [next orphaned]. cbn [fst snd].
  by destruct (delete_keys _ orphaned d) as [d' x].
Qed.

Lemma SyncRoutes_route_map f now m routes k :
  sync_ok (SyncRoutes f now m routes).2 = true ->
  route_map (SyncRoutes f now m routes).1 !! k = route_port routes k.
Proof.
  rewrite SyncRoutes_parts. cbn. intros (Hi & Hd & Hu & _)%sync_ok_inv. cbn in *.
  rewrite (iterate_whole _ _ _ Hi) in Hd. rewrite (iterate_whole _ _ _ Hi). rewrite delete_keys_failed in Hd.
  rewrite update_routes_errs in Hu. rewrite update_routes_lookup.
  - destruct (route_port routes k); [done|]. rewrite delete_keys_lookup. case_bool_decide as Hk; [done|].
    destruct (route_map m !! k) eqn:Hm; [|done]. exfalso. apply Hk.
    assert (k ∈ (map_to_list (route_map m)).*1) as Hin by by apply elem_of_keys. split; [done|].
    destruct (route_delete_fails f k) eqn:Hf; [|done]. exfalso. apply (not_elem_of_nil k). rewrite <- Hd.
    by apply list_elem_of_filter.
  - destruct (decide (k ∈ key_of <$> routes)) as [Hin|]; [left|by right].
    destruct (route_update_fails f k) eqn:Hf; [|done]. exfalso. apply (not_elem_of_nil k). rewrite <- Hu.
    by apply list_elem_of_filter.
Qed.

(** What a sync does to the seeds, whatever fails. *)
Lemma SyncRoutes_seeded f now m routes ip :
  ip ∈ seededIPs (SyncRoutes f now m routes).1 <-> ip <> 0 /\ ip ∈ rt_SeedIP <$> routes.
Proof. rewrite SyncRoutes_parts. cbn [fst seededIPs with_dns]. apply diffSeededIPs_next. Qed.

Lemma SyncRoutes_dns f now m routes ip :
  dns_cache (SyncRoutes f now m routes).1 !! ip =
  if bool_decide ((ip ∈ seededIPs m /\ (ip ∉ seededIPs (SyncRoutes f now m routes).1)) /\ dns_delete_fails f ip = false)
  then None else (seed_routes f now routes (dns_cache m)).1 !! ip.
Proof.
  rewrite SyncRoutes_parts. cbn [fst dns_cache seededIPs with_dns]. rewrite delete_keys_lookup.
  assert (forall P Q : Prop, (P <-> Q) -> forall (D : Decision P) (D' : Decision Q), bool_decide P = bool_decide Q) as Hext
    by (intros; by apply bool_decide_ext).
  erewrite (Hext _ ((ip ∈ seededIPs m /\ _) /\ _)); [reflexivity|]. by rewrite diffSeededIPs_orphaned.
Qed.

Lemma SyncRoutes_seeds_present f now m routes ip :
  sync_ok (SyncRoutes f now m routes).2 = true ->
  ip ∈ seededIPs (SyncRoutes f now m routes).1 -> is_Some (dns_cache (SyncRoutes f now m routes).1 !! ip).
Proof.
  intros Hok Hin. rewrite SyncRoutes_dns, bool_decide_eq_false_2 by tauto.
  apply SyncRoutes_seeded in Hin as [Hz (r & -> & Hr)%list_elem_of_fmap].
  rewrite SyncRoutes_parts in Hok. apply sync_ok_inv in Hok as (_ & _ & _ & Hs). cbn in Hs.
  by apply seed_present.
Qed.

(** After a sync that reports no error the kernel's route map is exactly
    the route list (the last route of a key wins, and no earlier key is left),
    every literal address of the routes has a DNS cache entry and is protected,
    an entry that was there is kept as it was unless its literal rule went
    away, and the entry of a literal rule that went away is deleted. *)
Theorem SyncRoutes_spec (f : kfaults) (now : Z) (m : Manager) (routes : list Route)
    (Hok : sync_ok (SyncRoutes f now m routes).2 = true) :
  let m' := (SyncRoutes f now m routes).1 in
  (forall k, route_map m' !! k = route_port routes k) /\
  (forall ip, ip ∈ seededIPs m' <-> ip <> 0 /\ ip ∈ rt_SeedIP <$> routes) /\
  (forall ip, ip ∈ seededIPs m' -> is_Some (dns_cache m' !! ip)) /\
  (forall ip e, dns_cache m !! ip = Some e -> ip ∉ seededIPs m \/ ip ∈ seededIPs m' -> dns_cache m' !! ip = Some e) /\
  (forall ip, ip ∈ seededIPs m -> ip ∉ seededIPs m' -> dns_delete_fails f ip = false -> dns_cache m' !! ip = None).
Proof.
  split_and!; cbn zeta.
  - intros k. by apply SyncRoutes_route_map.
  - apply SyncRoutes_seeded.
  - intros ip. by apply SyncRoutes_seeds_present.
  - intros ip e He Hip. rewrite SyncRoutes_dns, bool_decide_eq_false_2 by tauto. by apply seed_keeps.
  - intros ip H1 H2 H3. by rewrite SyncRoutes_dns, bool_decide_eq_true_2.
Qed.

(** ** Garbage collection *)

Definition expired (now : Z) (m : Manager) (ip : Z) (e : dns_entry) : Prop :=
  (de_ExpireTs e < uint32 now)%Z /\ (ip ∉ seededIPs m).

Definition gc_keys (f : kfaults) (now : Z) (m : Manager) : list Z :=
  fst <$> filter (fun e : Z * dns_entry => (de_ExpireTs e.2 < uint32 now)%Z /\ (e.1 ∉ seededIPs m))
            (iterate f DnsCache (map_to_list (dns_cache m))).1.

Lemma gc_keys_elem f now m ip : ip ∈ gc_keys f now m -> exists e, dns_cache m !! ip = Some e /\ expired now m ip e.
Proof.
  unfold gc_keys. intros ([k e] & -> & [He Hin%iterate_sub]%list_elem_of_filter)%list_elem_of_fmap.
  apply elem_of_map_to_list in Hin. by exists e.
Qed.

Lemma gc_keys_complete f now m ip e :
  (iterate f DnsCache (map_to_list (dns_cache m))).2 = false ->
  dns_cache m !! ip = Some e -> expired now m ip e -> ip ∈ gc_keys f now m.
Proof.
  intros Hw He Hx. unfold gc_keys. rewrite (iterate_whole _ _ _ Hw). apply list_elem_of_fmap. exists (ip, e).
  split; [done|]. apply list_elem_of_filter. split; [done|]. by apply elem_of_map_to_list.
Qed.

Lemma gc_keys_NoDup f now m : NoDup (gc_keys f now m).
Proof.
  unfold gc_keys. apply (sublist_NoDup _ (map_to_list (dns_cache m)).*1); [apply NoDup_fst_map_to_list|].
  apply fmap_sublist. etrans; [apply sublist_filter|].
  unfold iterate. destruct (iter_breaks f DnsCache) as [n|]; [|done].
  destruct (n <? length _)%nat; [|done]. apply sublist_take.
Qed.

Lemma GarbageCollectDNS_parts f now m :
  GarbageCollectDNS f now m =
  let del := delete_keys (dns_delete_fails f) (gc_keys f now m) (dns_cache m) in
  let broke := (iterate f DnsCache (map_to_list (dns_cache m))).2 in
  (with_dns m del.1 (seededIPs m), (length (gc_keys f now m) - length del.2)%nat,
   if broke || negb (bool_decide (del.2 = [])) then Some (broke, del.2) else None).
Proof.
  unfold GarbageCollectDNS, gc_keys, deleteExpiredDNSEntries. destruct (iterate f DnsCache _) as [es broke].
  cbn [fst snd]. by destruct (delete_keys _ _ _) as [d failed].
Qed.

(** Each delete that succeeds removes one entry. *)
Lemma delete_keys_size {K} `{Countable K} {V} (fails : K -> bool) ks (m : gmap K V) :
  NoDup ks -> (forall k, k ∈ ks -> is_Some (m !! k)) ->
  (size (delete_keys fails ks m).1 + length ks = size m + length (delete_keys fails ks m).2)%nat.
Proof.
  revert m. induction ks as [|k ks IH]; intros m Hnd Hin; [cbn; lia|].
  apply NoDup_cons in Hnd as [Hk Hnd]. rewrite delete_keys_cons. destruct (fails k).
  - cbn. specialize (IH m Hnd (fun k' Hk' => Hin k' (list_elem_of_further _ _ _ Hk'))). lia.
  - destruct (Hin k (list_elem_of_here _ _)) as [v Hv]. ospecialize (IH (delete k m) Hnd _).
    + intros k' Hk'. rewrite lookup_delete_ne by (intros ->; done). apply Hin. by right.
    + rewrite map_size_delete_Some in IH by eauto. cbn [length].
      assert (size m <> 0)%nat by (apply (map_size_ne_0_lookup_2 m k); eauto). lia.
Qed.

(** A sweep, whatever the kernel fails on, evicts only entries that had
    expired and are not the seed of a live literal rule; it counts exactly the
    entries it removed; and a sweep that reports no error has removed every
    such entry. *)
Theorem GarbageCollectDNS_spec (f : kfaults) (now : Z) (m : Manager) :
  let '(m', cleared, err) := GarbageCollectDNS f now m in
  (forall ip e, dns_cache m !! ip = Some e -> ~ expired now m ip e -> dns_cache m' !! ip = Some e) /\
  (size (dns_cache m') + cleared = size (dns_cache m))%nat /\
  (err = None -> forall ip e, dns_cache m !! ip = Some e -> expired now m ip e -> dns_cache m' !! ip = None) /\
  (forall ip, dns_cache m !! ip = None -> dns_cache m' !! ip = None) /\
  m' = with_dns m (dns_cache m') (seededIPs m).
Proof.
  rewrite GarbageCollectDNS_parts. cbn zeta. cbn [dns_cache with_dns]. split_and!.
  - intros ip e He Hx. rewrite delete_keys_lookup, bool_decide_eq_false_2; [done|].
    intros [(e' & He' & Hx')%gc_keys_elem _]. naive_solver.
  - pose proof (delete_keys_size (dns_delete_fails f) (gc_keys f now m) (dns_cache m) (gc_keys_NoDup f now m)) as Hs.
    ospecialize (Hs _); [intros k (e & He & _)%gc_keys_elem; eauto|].
    assert (length (delete_keys (dns_delete_fails f) (gc_keys f now m) (dns_cache m)).2 <= length (gc_keys f now m))%nat.
    { rewrite delete_keys_failed. apply length_filter. }
    lia.
  - intros Herr ip e He Hx. destruct (_ || _) eqn:Hor; [done|]. apply orb_false_iff in Hor as [Hb Hf].
    apply negb_false_iff, bool_decide_eq_true in Hf. rewrite delete_keys_failed in Hf.
    pose proof (gc_keys_complete f now m ip e Hb He Hx) as Hin. rewrite delete_keys_lookup, bool_decide_eq_true_2; [done|].
    split; [done|]. destruct (dns_delete_fails f ip) eqn:Hd; [|done]. exfalso. apply (not_elem_of_nil ip).
    rewrite <- Hf. by apply list_elem_of_filter.
  - intros ip Hn. rewrite delete_keys_lookup. by case_bool_decide.
  - done.
Qed.

(** ** Install and Remove *)

Lemma attach_loop_linked f cg names p linked p' linked' :
  attach_loop f cg names p linked = (p', linked', true) -> linked' = linked ++ names.
Proof.
  revert p linked. induction names as [|a names IH]; intros p linked; cbn.
  - intros [= <- <-]. by rewrite app_nil_r.
  - destruct (attach_fails f a); [done|]. intros ->%IH. by rewrite <- app_assoc.
Qed.

(** The loop touches only the pins of its own cgroup. *)
Lemma attach_loop_pins_other f cg names p linked a cg' :
  cg' <> cg -> (a, cg') ∈ (attach_loop f cg names p linked).1.1 <-> (a, cg') ∈ p.
Proof.
  intros Hne. revert p linked. induction names as [|b names IH]; intros p linked; cbn; [done|].
  destruct (attach_fails f b); [done|]. rewrite IH. clear IH. destruct (pin_fails f b); set_solver.
Qed.

Lemma attach_loop_pins_own f cg names p linked a :
  (attach_loop f cg names p linked).2 = true -> NoDup names -> a ∈ names -> pin_fails f a = false ->
  (a, cg) ∈ (attach_loop f cg names p linked).1.1.
Proof.
  intros Hok Hnd Ha Hp.
  assert (forall p linked, a ∉ names \/ (attach_loop f cg names p linked).2 = true ->
    ((a, cg) ∈ p /\ (a ∉ names)) \/ (a ∈ names) -> (a, cg) ∈ (attach_loop f cg names p linked).1.1) as Hgen.
  2:{ apply Hgen; tauto. }
  clear Hok Ha p linked. induction names as [|b names IH]; intros p linked Hok Hin; cbn.
  - destruct Hin as [[Hin _]|Hin]; [done|by apply elem_of_nil in Hin].
  - apply NoDup_cons in Hnd as [Hb Hnd]. specialize (IH Hnd). cbn in Hok. rewrite elem_of_cons in Hok, Hin.
    destruct (attach_fails f b) eqn:Hf; [cbn; destruct Hin as [[Hin _]|Hin]; [done|naive_solver]|].
    apply IH; [tauto|]. destruct (decide (a = b)) as [<-|Hab].
    + left. split; [|done]. rewrite Hp. set_solver.
    + destruct Hin as [[Hin Hn]|[?|Hin]]; [|done|by right]. left. split; [|tauto]. destruct (pin_fails f b); set_solver.
Qed.

Lemma own_pins_elem cg a cg' : (a, cg') ∈ own_pins cg <-> cg' = cg /\ a ∈ cgroupAttachments.
Proof.
  unfold own_pins. rewrite elem_of_list_to_set, list_elem_of_fmap. split; [intros (? & [= -> ->] & ?)|intros [-> ?]]; eauto.
Qed.

(** The part of the state that enforces one container. *)
Definition view_of (m : Manager) (cg : Z) : option ContainerConfig * option Z * option (list string) :=
  (container_map m !! cg, bypass_map m !! cg, links m !! cg).

Lemma attach_loop_ok f cg names p linked : (forall a, attach_fails f a = false) -> (attach_loop f cg names p linked).2 = true.
Proof. intros Hat. revert p linked. induction names as [|a names IH]; intros p linked; cbn; [done|]. by rewrite Hat. Qed.

(** Without a failing update or attach an install succeeds. *)
Lemma Install_succeeds f m cg cfg :
  container_update_fails f cg = false -> (forall a, attach_fails f a = false) -> (Install f m cg cfg).2 = true.
Proof.
  intros Hup Hat. unfold Install. rewrite Hup. set (m1 := with_container _ _).
  pose proof (attach_loop_ok f cg cgroupAttachments (pins m1) [] Hat) as Hok.
  destruct (attach_loop _ _ _ _ _) as [[p linked] ok]. cbn in Hok. by subst ok.
Qed.

(** A removal leaves no trace of the container, and of no other. *)
Lemma Remove_view f m cg :
  container_delete_fails f cg = false -> bypass_delete_fails f cg = false ->
  view_of (Remove f m cg).1 cg = (None, None, None) /\
  (forall cg', cg' <> cg -> view_of (Remove f m cg).1 cg' = view_of m cg') /\
  (forall a cg', (a, cg') ∈ pins (Remove f m cg).1 <-> (a, cg') ∈ pins m /\ ~ (cg' = cg /\ a ∈ cgroupAttachments)).
Proof.
  intros Hc Hb. unfold Remove, clearBypass, view_of. rewrite Hc, Hb.
  cbn [fst container_map bypass_map links pins with_bypass with_container with_links]. split_and!.
  - by rewrite !lookup_delete_eq.
  - intros cg' Hne. by rewrite !lookup_delete_ne.
  - intros a cg'. rewrite elem_of_difference, own_pins_elem. tauto.
Qed.

(** ** Startup and shutdown *)

(** The startup pass reports no error only when no bypass flag is left
    for a cgroup without a container entry; the flags of live containers are
    kept whatever fails. *)
Theorem CleanupStaleBypass_spec (f : kfaults) (m : Manager) :
  let '(m', cleared, (broke, unknown, failed)) := CleanupStaleBypass f m in
  (broke = false -> unknown = [] -> failed = [] ->
     forall cg, is_Some (bypass_map m' !! cg) -> is_Some (container_map m' !! cg)) /\
  (forall cg, is_Some (container_map m !! cg) \/ container_lookup_fails f cg = true -> bypass_map m' !! cg = bypass_map m !! cg) /\
  m' = with_bypass m (bypass_map m').
Proof.
  unfold CleanupStaleBypass. pose proof (iterate_whole f BypassMap (map_to_list (bypass_map m)).*1) as Hw.
  destruct (iterate f BypassMap _) as [keys broke]. cbn [fst snd] in Hw.
  set (stale := filter (fun k => container_lookup_fails f k = false /\ container_map m !! k = None) keys).
  pose proof (delete_keys_lookup (bypass_delete_fails f) stale (bypass_map m)) as Hl.
  pose proof (delete_keys_failed (bypass_delete_fails f) stale (bypass_map m)) as Hf.
  destruct (delete_keys _ stale _) as [b failed]. cbn [fst snd] in *. cbn [bypass_map container_map with_bypass]. split_and!.
  - intros -> Hu -> cg Hb. destruct (container_map m !! cg) eqn:Hc; [by eexists|].
    rewrite Hl in Hb. case_bool_decide as Hk; [by destruct Hb|]. exfalso. apply Hk. apply elem_of_keys in Hb. rewrite <- (Hw eq_refl) in Hb.
    assert (cg ∈ stale) as Hs.
    { apply list_elem_of_filter. split; [|done]. split; [|done]. destruct (container_lookup_fails f cg) eqn:Hcl; [|done].
      exfalso. apply (not_elem_of_nil cg). rewrite <- Hu. by apply list_elem_of_filter. }
    split; [done|]. destruct (bypass_delete_fails f cg) eqn:Hd; [|done].
    exfalso. apply (not_elem_of_nil cg). rewrite Hf. by apply list_elem_of_filter.
  - intros cg Hcg. rewrite Hl, bool_decide_eq_false_2; [done|].
    intros [[[Hcl Hn] _]%list_elem_of_filter _]. destruct Hcg as [[? ?]|]; congruence.
  - done.
Qed.

(** A flush that reports no error leaves no per-container or per-flow
    state in the kernel and no pinned link; routes and the DNS cache stay. *)
Theorem FlushAll_empties (f : kfaults) (m : Manager) (Hok : (FlushAll f m).2 = []) :
  (FlushAll f m).1 = mkManager ∅ ∅ (route_map m) (dns_cache m) ∅ ∅ ∅ ∅ (links m) (seededIPs m).
Proof.
  revert Hok. unfold FlushAll.
  pose proof (drain_empty f ContainerMap (container_delete_fails f) (container_map m)) as H1.
  pose proof (drain_empty f BypassMap (bypass_delete_fails f) (bypass_map m)) as H2.
  pose proof (drain_empty f RatelimitState (ratelimit_delete_fails f) (ratelimit_state m)) as H3.
  pose proof (drain_empty f UdpFlowMap (udp_delete_fails f) (udp_flow_map m)) as H4.
  pose proof (drain_empty f RatelimitDrops (drops_delete_fails f) (ratelimit_drops m)) as H5.
  destruct (drain f ContainerMap _ _), (drain f BypassMap _ _), (drain f RatelimitState _ _),
    (drain f UdpFlowMap _ _), (drain f RatelimitDrops _ _). cbn in *.
  intros (? & (? & (? & (? & ?)%app_nil)%app_nil)%app_nil)%app_nil. by rewrite H1, H2, H3, H4, H5.
Qed.

(** ** Every operation keeps the seeds *)

(** The manager's life: its own operations and the writes of the DNS server to
    the cache, in any order; syncs are those that report no error. *)
Inductive manager_step : Manager -> Manager -> Prop :=
  | step_sync f now routes m : sync_ok (SyncRoutes f now m routes).2 = true -> manager_step m (SyncRoutes f now m routes).1
  | step_gc f now m : manager_step m (GarbageCollectDNS f now m).1.1
  | step_resolve f now ip hash ttl m :
      manager_step m (with_dns m (UpdateDNSCache f now (dns_cache m) ip hash ttl).1 (seededIPs m))
  | step_install f cg cfg m : manager_step m (Install f m cg cfg).1
  | step_remove f cg m : manager_step m (Remove f m cg).1
  | step_disable f cg m : manager_step m (Disable f m cg).1
  | step_enable f cg m : manager_step m (Enable f m cg).1
  | step_cleanup f m : manager_step m (CleanupStaleBypass f m).1.1
  | step_flush f m : manager_step m (FlushAll f m).1.

(** Every protected literal has its cache entry. *)
Definition seeds_live (m : Manager) : Prop := forall ip, ip ∈ seededIPs m -> is_Some (dns_cache m !! ip).

Lemma seeds_live_frame m m' : dns_cache m' = dns_cache m -> seededIPs m' = seededIPs m -> seeds_live m -> seeds_live m'.
Proof. unfold seeds_live. by intros -> ->. Qed.

Lemma clearBypass_frame f m cg : dns_cache (clearBypass f m cg).1 = dns_cache m /\ seededIPs (clearBypass f m cg).1 = seededIPs m.
Proof. unfold clearBypass. by destruct (bypass_delete_fails f cg). Qed.

Lemma Install_frame f m cg cfg : dns_cache (Install f m cg cfg).1 = dns_cache m /\ seededIPs (Install f m cg cfg).1 = seededIPs m.
Proof.
  unfold Install. destruct (clearBypass_frame f (cleanupLinks m cg) cg) as [H1 H2].
  destruct (container_update_fails f cg); [done|]. destruct (attach_loop _ _ _ _ _) as [[p l] []]; done.
Qed.

Lemma Install_routes f m cg cfg : route_map (Install f m cg cfg).1 = route_map m.
Proof.
  unfold Install, clearBypass. destruct (bypass_delete_fails f cg), (container_update_fails f cg); [done| |done|];
    cbn [fst]; by destruct (attach_loop _ _ _ _ _) as [[p l] []].
Qed.

Lemma Remove_frame f m cg : dns_cache (Remove f m cg).1 = dns_cache m /\ seededIPs (Remove f m cg).1 = seededIPs m.
Proof.
  unfold Remove. cbn [fst]. by destruct (container_delete_fails f cg), (bypass_delete_fails f cg) eqn:Hb;
    unfold clearBypass; rewrite Hb.
Qed.

Lemma FlushAll_frame f m : dns_cache (FlushAll f m).1 = dns_cache m /\ seededIPs (FlushAll f m).1 = seededIPs m.
Proof.
  unfold FlushAll. by destruct (drain f ContainerMap _ _), (drain f BypassMap _ _), (drain f RatelimitState _ _),
    (drain f UdpFlowMap _ _), (drain f RatelimitDrops _ _).
Qed.

Lemma CleanupStaleBypass_frame f m :
  dns_cache (CleanupStaleBypass f m).1.1 = dns_cache m /\ seededIPs (CleanupStaleBypass f m).1.1 = seededIPs m.
Proof. unfold CleanupStaleBypass. destruct (iterate _ _ _), (delete_keys _ _ _). done. Qed.

Lemma gc_seeds_live f now m : seeds_live m -> seeds_live (GarbageCollectDNS f now m).1.1.
Proof.
  rewrite GarbageCollectDNS_parts. unfold seeds_live. cbn. intros Hl ip Hin.
  rewrite delete_keys_lookup, bool_decide_eq_false_2; [by apply Hl|]. by intros [(e & _ & [_ Hx])%gc_keys_elem _].
Qed.

Lemma manager_step_seeds m m' : manager_step m m' -> seeds_live m -> seeds_live m'.
Proof.
  destruct 1 as [f now routes m Hok| | |f cg cfg m|f cg m|f cg m|f cg m|f m|f m]; intros Hl.
  - intros ip. by apply SyncRoutes_seeds_present.
  - by apply gc_seeds_live.
  - intros i Hi. cbn in *. unfold UpdateDNSCache. destruct (dns_update_fails f ip); [by apply Hl|]. cbn.
    apply lookup_insert_is_Some'. right. by apply Hl.
  - destruct (Install_frame f m cg cfg). by eapply seeds_live_frame.
  - destruct (Remove_frame f m cg). by eapply seeds_live_frame.
  - apply (seeds_live_frame m); [| |done]; unfold Disable; by destruct (bypass_update_fails f cg).
  - apply (seeds_live_frame m); [| |done]; unfold Enable; by destruct (bypass_delete_fails f cg).
  - destruct (CleanupStaleBypass_frame f m). by eapply seeds_live_frame.
  - destruct (FlushAll_frame f m). by eapply seeds_live_frame.
Qed.

(** Whatever the interleaving of error-free syncs with sweeps, DNS
    resolutions, installs, removals, bypasses, cleanups and flushes (failing or
    not), a literal address the rules allow keeps its DNS cache entry: no sweep
    and no overwrite makes its route fail closed. *)
Theorem seeds_never_evicted (m m' : Manager) (Hsteps : rtc manager_step m m') (Hinit : seeds_live m) : seeds_live m'.
Proof. induction Hsteps as [|m1 m2 m3 Hs _ IH]; [done|]. apply IH. by apply (manager_step_seeds m1). Qed.

(** ** The degraded-GC detector *)

(** The detector after a run of sweeps. *)
Definition after (e : dnsGCEscalator) (outcomes : list bool) : dnsGCEscalator :=
  foldl (fun e ok => (record e ok).1) e outcomes.

Lemma ticks_lookup e outcomes i :
  ticks e outcomes !! i = (fun ok => (record (after e (take i outcomes)) ok).2) <$> outcomes !! i.
Proof.
  revert e i. induction outcomes as [|ok rest IH]; intros e i; [by rewrite !lookup_nil|].
  cbn [ticks]. destruct (record e ok) as [e' esc] eqn:Hr. destruct i as [|i]; cbn; [by rewrite Hr|].
  rewrite IH. by rewrite Hr.
Qed.

(** [p] ends in exactly [n] failures. *)
Definition failing_streak (p : list bool) (n : nat) : Prop :=
  exists pre, p = pre ++ replicate n false /\ last pre <> Some false.

Lemma failing_streak_le p n n' : failing_streak p n -> failing_streak p n' -> (n <= n')%nat.
Proof.
  intros (pre & -> & _) (pre' & Heq & Hl'). destruct (decide (n <= n')%nat) as [|Hlt]; [done|].
  exfalso. apply Hl'. replace n with (S (n - n' - 1) + n')%nat in Heq by lia.
  rewrite replicate_add, app_assoc in Heq. apply app_inj_2 in Heq as [<- _]; [|done].
  rewrite replicate_S_end. by rewrite app_assoc, last_snoc.
Qed.

Lemma after_streak t p : exists n, failing_streak p n /\ after (mkEscalator t 0) p = mkEscalator t (Z.of_nat n).
Proof.
  induction p as [|ok p (n & (pre & -> & Hl) & He)] using rev_ind.
  - exists 0%nat. split; [|done]. by exists [].
  - unfold after in *. rewrite foldl_app, He. cbn. destruct ok; cbn.
    + exists 0%nat. split; [|done]. eexists. rewrite app_nil_r. split; [done|]. by rewrite last_snoc.
    + exists (S n). split; [|f_equal; lia]. exists pre. by rewrite replicate_S_end, app_assoc.
Qed.

(** The detector raises the alarm on a sweep exactly when that sweep is
    the last of a run of precisely [t] consecutive failures, so once per
    failing streak however long it lasts, and never on a success. *)
Theorem escalator_once_per_streak (t : nat) (outcomes : list bool) (i : nat) (Ht : (1 <= t)%nat) (Hi : (i < length outcomes)%nat) :
  ticks (mkEscalator (Z.of_nat t) 0) outcomes !! i = Some true <-> failing_streak (take (S i) outcomes) t.
Proof.
  rewrite ticks_lookup. destruct (lookup_lt_is_Some_2 _ _ Hi) as [ok Hok]. rewrite (take_S_r _ _ _ Hok), Hok. cbn.
  destruct (after_streak (Z.of_nat t) (take i outcomes)) as (n & Hn & ->). unfold record. destruct ok; cbn.
  - split; [done|]. intros (pre & Hp & Hl). destruct t as [|t]; [lia|]. rewrite replicate_S_end, app_assoc in Hp.
    by apply app_inj_2 in Hp as [_ [=]].
  - assert (failing_streak (take i outcomes ++ [false]) (S n)) as Hs.
    { destruct Hn as (pre & -> & Hl). exists pre. by rewrite replicate_S_end, app_assoc. }
    split.
    + intros [= Heq%Z.eqb_eq]. by replace t with (S n) by lia.
    + intros Hst. f_equal. apply Z.eqb_eq. pose proof (failing_streak_le _ _ _ Hs Hst).
      pose proof (failing_streak_le _ _ _ Hst Hs). lia.
Qed.

(** ** The manager implements the interface *)

Lemma Install_flag f m cg cfg cg' :
  bypass_map (Install f m cg cfg).1 !! cg' =
  if bool_decide (cg' = cg /\ bypass_delete_fails f cg = false) then None else bypass_map m !! cg'.
Proof.
  assert (Hm : bypass_map (Install f m cg cfg).1 = bypass_map (clearBypass f (cleanupLinks m cg) cg).1).
  { unfold Install. destruct (container_update_fails f cg); [done|]. by destruct (attach_loop _ _ _ _ _) as [[? ?] []]. }
  rewrite Hm. unfold clearBypass. destruct (bypass_delete_fails f cg); cbn; [by rewrite bool_decide_eq_false_2 by naive_solver|].
  case_bool_decide as Hc; [destruct Hc as [-> _]; by rewrite lookup_delete_eq|]. rewrite lookup_delete_ne; naive_solver.
Qed.

Lemma Install_config f m cg cfg :
  (Install f m cg cfg).2 = true ->
  container_map (Install f m cg cfg).1 !! cg = Some cfg /\ links (Install f m cg cfg).1 !! cg = Some cgroupAttachments.
Proof.
  unfold Install. destruct (container_update_fails f cg); [done|]. set (m1 := with_container _ _).
  destruct (attach_loop _ _ _ _ _) as [[p linked] []] eqn:Ha; [|done]. intros _. cbn. rewrite !lookup_insert_eq.
  by rewrite (attach_loop_linked _ _ _ _ _ _ _ Ha).
Qed.

Lemma clearBypass_rest f m cg :
  container_map (clearBypass f m cg).1 = container_map m /\ links (clearBypass f m cg).1 = links m.
Proof. unfold clearBypass. by destruct (bypass_delete_fails f cg). Qed.

Lemma Install_other f m cg cfg cg' :
  cg' <> cg ->
  container_map (Install f m cg cfg).1 !! cg' = container_map m !! cg' /\ links (Install f m cg cfg).1 !! cg' = links m !! cg'.
Proof.
  intros Hne. unfold Install. destruct (clearBypass_rest f (cleanupLinks m cg) cg) as [H1 H2].
  destruct (clearBypass f (cleanupLinks m cg) cg) as [m1 cleared]. cbn [fst] in *.
  assert (Hl : links m1 !! cg' = links m !! cg') by (rewrite H2; cbn; by rewrite lookup_delete_ne).
  destruct (container_update_fails f cg); [cbn; by rewrite H1|].
  destruct (attach_loop _ _ _ _ _) as [[p linked] []]; cbn; by rewrite ?lookup_insert_ne, ?H1 by done.
Qed.

(** Draining bypass flags a healthy kernel deletes leaves none. *)
Lemma FlushAll_flags f m : clears_flags f -> bypass_map (FlushAll f m).1 = ∅.
Proof.
  intros [Hdel Hit]. assert (Hd : (drain f BypassMap (bypass_delete_fails f) (bypass_map m)).2 = []).
  { unfold drain, iterate. rewrite Hit.
    pose proof (delete_keys_failed (bypass_delete_fails f) (map_to_list (bypass_map m)).*1 (bypass_map m)) as Hf.
    destruct (delete_keys _ _ _) as [m' failed]. cbn in *. rewrite Hf. clear Hf.
    induction ((map_to_list (bypass_map m)).*1) as [|k l IH]; [done|]. rewrite filter_cons, decide_False; [done|].
    by rewrite Hdel. }
  apply drain_empty in Hd. unfold FlushAll.
  destruct (drain _ ContainerMap _ _), (drain _ BypassMap _ _), (drain _ RatelimitState _ _),
    (drain _ UdpFlowMap _ _), (drain _ RatelimitDrops _ _). done.
Qed.

(** An install pins every program whose pinning did not fail, and touches the
    pins of its own cgroup only. *)
Lemma Install_pins f m cg cfg :
  (Install f m cg cfg).2 = true ->
  (forall a, a ∈ cgroupAttachments -> pin_fails f a = false -> (a, cg) ∈ pins (Install f m cg cfg).1) /\
  (forall a cg', cg' <> cg -> (a, cg') ∈ pins (Install f m cg cfg).1 <-> (a, cg') ∈ pins m).
Proof.
  unfold Install. destruct (container_update_fails f cg); [done|].
  assert (Hp : pins (clearBypass f (cleanupLinks m cg) cg).1 = pins m ∖ own_pins cg)
    by (unfold clearBypass; by destruct (bypass_delete_fails f cg)).
  destruct (clearBypass f (cleanupLinks m cg) cg) as [m1 cleared]. cbn [fst pins with_container] in *. rewrite Hp.
  pose proof (attach_loop_pins_own f cg cgroupAttachments (pins m ∖ own_pins cg) []) as Hown.
  pose proof (attach_loop_pins_other f cg cgroupAttachments (pins m ∖ own_pins cg) []) as Ho.
  destruct (attach_loop _ _ _ _ _) as [[p linked] []]; [|done]. intros _. cbn [fst snd pins with_links] in *. split.
  - intros a Ha Hf. apply Hown; [done| |done..]. apply (bool_decide_unpack (NoDup _)). by vm_compute.
  - intros a cg' Hne. rewrite Ho by done. rewrite elem_of_difference, own_pins_elem. tauto.
Qed.

#[global] Instance Manager_api : EBPFManager Manager := {
  EbpfApi.Install := Install;
  EbpfApi.Remove := Remove;
  EbpfApi.Enable := Enable;
  EbpfApi.Disable := Disable;
  EbpfApi.SyncRoutes f now m routes := let '(m', errs) := SyncRoutes f now m routes in (m', sync_ok errs);
  EbpfApi.FlushAll f m := let '(m', errs) := FlushAll f m in (m', match errs with [] => true | _ => false end);
  bypass_flag m cg := bypass_map m !! cg;
  config_at m cg := container_map m !! cg;
  links_at m cg := links m !! cg;
  route_at m k := route_map m !! k;
}.

#[global] Instance Manager_laws : EBPFManagerLaws Manager.
Proof.
  split; cbn.
  - apply Install_succeeds.
  - apply Install_config.
  - apply Install_flag.
  - apply Install_other.
  - intros. by rewrite Install_routes.
  - intros f m cg cg'. unfold Disable. destruct (bypass_update_fails f cg); cbn; [by rewrite bool_decide_eq_false_2 by naive_solver|].
    case_bool_decide as Hc; [destruct Hc as [-> _]; by rewrite lookup_insert_eq|]. rewrite lookup_insert_ne; naive_solver.
  - intros f m cg cg'. unfold Enable. destruct (bypass_delete_fails f cg); cbn; [by rewrite bool_decide_eq_false_2 by naive_solver|].
    case_bool_decide as Hc; [destruct Hc as [-> _]; by rewrite lookup_delete_eq|]. rewrite lookup_delete_ne; naive_solver.
  - intros f now m routes cg. by rewrite SyncRoutes_parts.
  - intros f now m routes k. pose proof (SyncRoutes_route_map f now m routes k) as Hs.
    destruct (SyncRoutes f now m routes) as [m' errs]. exact Hs.
  - intros f m cg Hf. pose proof (FlushAll_flags f m Hf) as Hb. destruct (FlushAll f m) as [m' errs]. cbn in *.
    by rewrite Hb, lookup_empty.
Qed.

(** ** Witnesses *)

Definition empty_manager : Manager := mkManager ∅ ∅ ∅ ∅ ∅ ∅ ∅ ∅ ∅ ∅.
Definition demo_cfg : ContainerConfig := mkConfig 1 2 3 4 5 6 7 8.
Definition demo_routes : list Route := [mkRoute 11 443 10000 L4ProtoTCP 0; mkRoute 12 22 10101 L4ProtoTCP 77].

(** A manager that bypasses container 5 and has just synced the routes. *)
Definition demo_manager : Manager :=
  (Disable no_kfaults (SyncRoutes no_kfaults 1000 empty_manager demo_routes).1 5).1.

Lemma SyncRoutes_spec_witness :
  route_map (SyncRoutes no_kfaults 2000 demo_manager demo_routes).1 !! (12, 22, L4ProtoTCP) = Some 10101.
Proof. destruct (SyncRoutes_spec no_kfaults 2000 demo_manager demo_routes) as [H _]; [by vm_compute|]. rewrite H. by vm_compute. Defined.

(** The kernel refuses to delete container 5's bypass flag. *)
Definition stuck_bypass : kfaults :=
  mkKFaults (fun _ => false) (fun _ => false) (fun _ => false) (fun _ => false) (fun cg => cg =? 5)
    (fun _ => false) (fun _ => false) (fun _ => false) (fun _ => false) (fun _ => false) (fun _ => false)
    (fun _ => false) (fun _ => false) (fun _ => false) (fun _ => None).

Lemma CleanupStaleBypass_spec_witness : bypass_map (CleanupStaleBypass no_kfaults demo_manager).1.1 !! 5 = None.
Proof.
  pose proof (CleanupStaleBypass_spec no_kfaults demo_manager) as H.
  assert (Hc : container_map (CleanupStaleBypass no_kfaults demo_manager).1.1 !! 5 = None) by by vm_compute.
  assert (He : (CleanupStaleBypass no_kfaults demo_manager).2 = (false, [], [])) by by vm_compute.
  destruct (CleanupStaleBypass no_kfaults demo_manager) as [[m' n] [[b u] fl]]. cbn [fst snd] in *. injection He as -> -> ->.
  destruct H as [H _]. destruct (bypass_map m' !! 5) eqn:Hb; [|done].
  destruct (H eq_refl eq_refl eq_refl 5 ltac:(by eexists)) as [c Hx]. congruence.
Defined.

Lemma FlushAll_empties_witness : bypass_map (FlushAll no_kfaults demo_manager).1 = ∅.
Proof. rewrite (FlushAll_empties no_kfaults demo_manager); [reflexivity|by vm_compute]. Defined.

Lemma seeds_never_evicted_witness : is_Some (dns_cache (GarbageCollectDNS no_kfaults 99999999 demo_manager).1.1 !! 77).
Proof.
  apply (seeds_never_evicted empty_manager (GarbageCollectDNS no_kfaults 99999999 demo_manager).1.1).
  - eapply rtc_l; [apply (step_sync no_kfaults 1000 demo_routes empty_manager); by vm_compute|].
    eapply rtc_l; [apply (step_disable no_kfaults 5)|]. apply rtc_once. apply step_gc.
  - intros ip H. by apply not_elem_of_empty in H.
  - by vm_compute.
Defined.

Lemma escalator_once_per_streak_witness :
  ticks (mkEscalator 2 0) [true; false; false; false] !! 2%nat = Some true.
Proof.
  apply (escalator_once_per_streak 2 [true; false; false; false] 2); [lia|cbn; lia|]. by exists [true].
Defined.

End Ebpf.
