(* ===== verification/Resolver.v ===== *)
(** * The resolver's plugin

    internal/dnsbpf: the CoreDNS plugin that, before it forwards an answer to the
    container, binds every address in it to the hash of its zone in the kernel's
    name cache. *)

From S2P Require Import Prelude GoStrings GoNet Routes EbpfApi Ebpf.
Import Go Routes EbpfApi Ebpf.

Module Resolver.

(** Resource records of an answer: addresses with their time to live, and others. *)
Inductive RR := A (addr : GoNet.Addr) (ttl : Z) | OtherRR.

Definition zoneToDomain (zone : string) : string := TrimSuffix zone ".".
(** A failing update is logged. *)
Definition Update (f : kfaults) (now : Z) (d : gmap Z dns_entry) (ip domainHash ttlSeconds : Z) : gmap Z dns_entry :=
  if dns_update_fails f ip then d else <[ip := mkDns domainHash (uint32 (uint32 now + ttlSeconds))]> d.

Definition write_record (f : kfaults) (now hash : Z) (d : gmap Z dns_entry) (rr : RR) : gmap Z dns_entry :=
  match rr with
  | OtherRR => d
  | A addr ttl =>
      let ip := IPToUint32 addr in
      if ip =? 0 then d else Update f now d ip hash (if ttl =? 0 then 60 else ttl)
  end.
Definition writeARecords (f : kfaults) (now : Z) (zone : string) (d : gmap Z dns_entry) (answer : list RR) : gmap Z dns_entry :=
  foldl (write_record f now (DomainHash (zoneToDomain zone))) d answer.

Definition RcodeServerFailure : Z := 2.
(** The next plugin's code, error and message; whether the map is there and whether
    the client can be written to.  The cache, what the client got, code and error. *)
Definition ServeDNS (f : kfaults) (now : Z) (zone : string) (has_map : bool) (next : Z * bool * option (list RR)) (write_ok : bool) (d : gmap Z dns_entry)
    : gmap Z dns_entry * option (list RR) * Z * bool :=
  let '(rcode, err, msg) := next in
  if err then (d, None, rcode, true)
  else
    match msg with
    | None => (d, None, rcode, false)
    | Some answer =>
        let d := if has_map then writeARecords f now zone d answer else d in
        if write_ok then (d, Some answer, rcode, false) else (d, None, RcodeServerFailure, true)
    end.

(** [setup]: no arguments, and a map that opens once. *)
Inductive setup_error := ArgErr | NoMap.
Definition setup (has_arg map_opens : bool) : option setup_error := if has_arg then Some ArgErr else if map_opens then None else Some NoMap.

(** ** Facts *)

Lemma write_record_other f now hash d rr ip : (forall addr ttl, rr = A addr ttl -> IPToUint32 addr <> ip) -> write_record f now hash d rr !! ip = d !! ip.
Proof. destruct rr as [addr ttl|]; [|done]. intros Hne. cbn. destruct (_ =? 0); [done|]. unfold Update. destruct (dns_update_fails f _); [done|]. apply lookup_insert_ne. by eapply Hne. Qed.
Lemma write_record_own f now hash d addr ttl : IPToUint32 addr <> 0 -> dns_update_fails f (IPToUint32 addr) = false ->
  exists e, write_record f now hash d (A addr ttl) !! IPToUint32 addr = Some e /\ de_DomainHash e = hash.
Proof. intros Hz Hf. cbn. rewrite (proj2 (Z.eqb_neq _ _) Hz). unfold Update. rewrite Hf, lookup_insert_eq. by eexists. Qed.
Lemma write_keeps_hash f now hash answer d ip e : d !! ip = Some e -> de_DomainHash e = hash ->
  exists e', foldl (write_record f now hash) d answer !! ip = Some e' /\ de_DomainHash e' = hash.
Proof.
  revert d e. induction answer as [|rr answer IH]; intros d e He Hh; [by exists e|]. cbn [foldl].
  assert (exists e', write_record f now hash d rr !! ip = Some e' /\ de_DomainHash e' = hash) as (e' & ? & ?); [|by eapply IH]. destruct rr as [addr ttl|]; [|by exists e].
  cbn. destruct (_ =? 0); [by exists e|]. unfold Update. destruct (dns_update_fails f _); [by exists e|]. destruct (decide (IPToUint32 addr = ip)) as [->|Hne].
  - rewrite lookup_insert_eq. by eexists.
  - rewrite lookup_insert_ne by done. by exists e.
Qed.
Lemma writeARecords_bound f now zone d answer addr ttl :
  A addr ttl ∈ answer -> IPToUint32 addr <> 0 -> dns_update_fails f (IPToUint32 addr) = false ->
  exists e, writeARecords f now zone d answer !! IPToUint32 addr = Some e /\ de_DomainHash e = DomainHash (zoneToDomain zone).
Proof.
  intros Hin Hz Hf. unfold writeARecords. revert d. induction answer as [|rr answer IH]; intros d; [by apply elem_of_nil in Hin|]. cbn [foldl]. apply elem_of_cons in Hin as [<-|Hin]; [|by apply IH].
  destruct (write_record_own f now (DomainHash (zoneToDomain zone)) d addr ttl Hz Hf) as (e & He & Hh). by eapply write_keeps_hash.
Qed.
Lemma zoneToDomain_fqdn host : zoneToDomain (host +:+ ".") = host.
Proof. unfold zoneToDomain, TrimSuffix. by rewrite (proj2 (strip_suffix_spec "." (host +:+ ".") host) eq_refl). Qed.

(** An address the client was told is bound to its zone, whatever else the answer
    holds; addresses the answer does not name keep their binding. *)
Theorem answers_bound f now zone next d d' answer rcode err :
  ServeDNS f now zone true next true d = (d', Some answer, rcode, err) ->
  (forall addr ttl, A addr ttl ∈ answer -> IPToUint32 addr <> 0 -> dns_update_fails f (IPToUint32 addr) = false ->
     exists e, d' !! IPToUint32 addr = Some e /\ de_DomainHash e = DomainHash (zoneToDomain zone)) /\
  (forall ip, (forall addr ttl, A addr ttl ∈ answer -> IPToUint32 addr <> ip) -> d' !! ip = d !! ip).
Proof.
  unfold ServeDNS. destruct next as [[rc er] [msg|]]; destruct er; try done. intros [= <- <- <- <-]. split; [intros; by eapply writeARecords_bound|].
  intros ip Hno. unfold writeARecords. revert d. induction msg as [|rr msg IH]; intros d; [done|]. cbn [foldl]. rewrite IH by (intros addr ttl Hin; apply (Hno addr ttl); by right).
  apply write_record_other. intros addr ttl ->. apply (Hno addr ttl). left.
Qed.
End Resolver.
