(* ===== verification/Bpf.v ===== *)
(** * The BPF programs

    controlplane/firewall/ebpf/bpf: the nine cgroup programs of clawker.c and the
    routing, flow and event helpers of common.h, on the kernel maps of [Ebpf].  A
    program runs as one step.  Addresses and ports are the integers the programs
    see: an address in network order read by a little-endian CPU, a port in
    network order in the socket address and in host order elsewhere. *)

From S2P Require Import Prelude GoStrings GoNet Routes EbpfApi Ebpf.
Import Go Routes EbpfApi Ebpf.

Module Bpf.

Definition SOCK_STREAM : Z := 1.
Definition SOCK_DGRAM : Z := 2.
Definition SOCK_RAW : Z := 3.
Definition DNS_PORT : Z := 53.
Definition DOCKER_EMBEDDED_DNS : Z := 0x7f00000b.
Definition IPV4_MAPPED_PREFIX : Z := 0x0000ffff.
Definition CLAWKER_MARK : Z := 0xC1A4.

(** [bpf_htons], [bpf_ntohs], [bpf_htonl] and the unsigned 64-bit wrap. *)
Definition bswap16 (n : Z) : Z := n mod 256 * 256 + n / 256 mod 256.
Definition htons : Z -> Z := bswap16.
Definition ntohs : Z -> Z := bswap16.
Definition htonl (n : Z) : Z := n mod 256 * 2 ^ 24 + n / 256 mod 256 * 2 ^ 16 + n / 2 ^ 16 mod 256 * 256 + n / 2 ^ 24 mod 256.
Definition u64 (n : Z) : Z := n mod 2 ^ 64.

(** ** State *)

Abbreviation flow_key := (Z * Z * Z)%type.
(** cgroup, domain hash, port, action *)
Abbreviation metric_key := (Z * Z * Z * Z)%type.

Definition ACTION_ALLOW : Z := 0.
Definition ACTION_DENY : Z := 1.
Definition ACTION_BYPASS : Z := 2.
Definition EGRESS_VERDICT_ALLOWED : Z := 0.
Definition EGRESS_VERDICT_DENIED : Z := 1.
Definition EGRESS_VERDICT_BYPASSED : Z := 2.
Definition EGRESS_FLAG_IPV6 : Z := 1.
Definition EGRESS_FLAG_IPV4_MAPPED : Z := 2.
Definition EGRESS_FLAG_NO_DST : Z := 4.
Definition EGRESS_EMIT_CONNECT : Z := 0.
Definition EGRESS_EMIT_SENDMSG : Z := 8.
Definition EGRESS_EMIT_SOCK_CREATE : Z := 16.

(** The sixteen bytes of the address are four words. *)
Record egress_event := mkEvent {
  ev_ts_ns : Z; ev_cgroup_id : Z; ev_dst_ip : list Z; ev_domain_hash : Z; ev_dst_port : Z; ev_verdict : Z; ev_flags : Z; ev_l4_proto : Z;
}.

Record Kernel := mkKernel {
  maps : Manager;
  metrics_map : gmap metric_key Z;
  events_ringbuf : list egress_event;
  events_drops : Z;
}.
Definition with_maps (k : Kernel) (m : Manager) : Kernel := mkKernel m (metrics_map k) (events_ringbuf k) (events_drops k).
Definition with_ratelimit (m : Manager) (r : gmap Z (Z * Z)) : Manager :=
  mkManager (container_map m) (bypass_map m) (route_map m) (dns_cache m) r (udp_flow_map m) (ratelimit_drops m) (pins m) (links m) (seededIPs m).
Definition with_flows (m : Manager) (u : gmap flow_key (Z * Z)) : Manager :=
  mkManager (container_map m) (bypass_map m) (route_map m) (dns_cache m) (ratelimit_state m) u (ratelimit_drops m) (pins m) (links m) (seededIPs m).
Definition with_drops (m : Manager) (d : gmap Z Z) : Manager :=
  mkManager (container_map m) (bypass_map m) (route_map m) (dns_cache m) (ratelimit_state m) (udp_flow_map m) d (pins m) (links m) (seededIPs m).

(** What other CPUs and the LRU map make of a bucket while a run uses it: before it is
    looked up (another value, or evicted), before a fresh one is inserted, after the
    refill, and before each compare-and-swap. *)
Record others := mkOthers { o_bucket : option (option (Z * Z)); o_insert : option (Z * Z); o_tokens : option Z; o_cas : list Z }.
Definition no_others : others := mkOthers None None None [].

(** What the kernel answers to the helpers during one run: the task's user and
    cgroup, the socket's mark and cookie, the clock, whether the ring buffer has
    room, the flows the LRU map evicts when it takes a new one, and what became of the
    container's bucket meanwhile. *)
Record task := mkTask {
  t_uid : Z; t_cgroup : Z; t_mark : Z; t_cookie : Z; t_now : Z; t_reserved : bool; t_evicted : gset flow_key; t_others : others;
}.

(** [bpf_sock_addr]. *)
Record sock_addr := mkAddr { sa_type : Z; user_ip4 : Z; user_ip6 : Z * Z * Z * Z; user_port : Z }.

(** ** Leaf helpers *)

Definition metric_inc (k : Kernel) (cgroup_id domain_hash dst_port action : Z) : Kernel :=
  let key := (cgroup_id, domain_hash, dst_port, action) in
  mkKernel (maps k) (<[key := default 0 (metrics_map k !! key) + 1]> (metrics_map k)) (events_ringbuf k) (events_drops k).

Definition is_loopback (ip : Z) : bool := Z.land ip (htonl 0xFF000000) =? htonl 0x7F000000.
Definition is_in_subnet (ip net_addr net_mask : Z) : bool := Z.land ip net_mask =? net_addr.
Definition is_ipv6_loopback (a : sock_addr) : bool := let '(w0, w1, w2, w3) := user_ip6 a in (w0 =? 0) && (w1 =? 0) && (w2 =? 0) && (w3 =? htonl 1).
Definition is_ipv4_mapped (a : sock_addr) : bool := let '(w0, w1, w2, w3) := user_ip6 a in (w0 =? 0) && (w1 =? 0) && (w2 =? htonl IPV4_MAPPED_PREFIX).

(** ** Events *)

Definition RATELIMIT_BURST : Z := 64.
Definition RATELIMIT_REFILL_NS : Z := 100000000.
Definition RATELIMIT_TOKENS_PER : Z := 64.
Definition RATELIMIT_CAS_RETRIES : nat := 4.

Definition ratelimit_drop_bump (m : Manager) (cgroup_id : Z) : Manager :=
  with_drops m (<[cgroup_id := default 0 (ratelimit_drops m !! cgroup_id) + 1]> (ratelimit_drops m)).

(** The refill, not atomic in the source. *)
Definition topup (now : Z) (st : Z * Z) : Z * Z :=
  let '(last, tokens) := st in
  if RATELIMIT_REFILL_NS <=? u64 (now - last) then
    let add := if RATELIMIT_BURST <? u64 (tokens + RATELIMIT_TOKENS_PER) then u64 (RATELIMIT_BURST - tokens) else RATELIMIT_TOKENS_PER in
    (now, u64 (tokens + add))
  else st.
(** The tokens left, and whether one was taken.  A lost compare-and-swap goes on with
    the value that made it fail. *)
Fixpoint cas_loop (retries : nat) (seen : list Z) (cur : Z) : Z * bool :=
  match retries with
  | O => (cur, false)
  | S retries =>
      if (cur =? 0) || (RATELIMIT_BURST <? cur) then (if RATELIMIT_BURST <? cur then 0 else cur, false)
      else match seen with
      | [] => (cur - 1, true)
      | v :: seen => if v =? cur then (cur - 1, true) else cas_loop retries seen v
      end
  end.
Definition ratelimit_check_and_take (t : task) (m : Manager) (cgroup_id : Z) : Manager * bool :=
  let store st := with_ratelimit m (<[cgroup_id := st]> (ratelimit_state m)) in
  match default (ratelimit_state m !! cgroup_id) (o_bucket (t_others t)) with
  | None => (store (default (t_now t, RATELIMIT_BURST - 1) (o_insert (t_others t))), true)
  | Some st =>
      let '(last, tokens) := topup (t_now t) st in
      let '(rest, ok) := cas_loop RATELIMIT_CAS_RETRIES (o_cas (t_others t)) (default tokens (o_tokens (t_others t))) in
      (if ok then store (last, rest) else ratelimit_drop_bump (store (last, rest)) cgroup_id, ok)
  end.

Definition lookup_domain_hash_for_ip (m : Manager) (dst_ip : Z) : Z :=
  if dst_ip =? 0 then 0 else match dns_cache m !! dst_ip with Some e => de_DomainHash e | None => 0 end.

(** The part the three submits share. *)
Definition submit (t : task) (k : Kernel) (cgroup_id : Z) (ev : egress_event) : Kernel :=
  let '(m, ok) := ratelimit_check_and_take t (maps k) cgroup_id in
  let k := with_maps k m in
  if negb ok then k
  else if t_reserved t then mkKernel (maps k) (metrics_map k) (events_ringbuf k ++ [ev]) (events_drops k)
  else mkKernel (maps k) (metrics_map k) (events_ringbuf k) (events_drops k + 1).
Definition submit_event_v4 (t : task) (k : Kernel) (cgroup_id dst_ip4 dst_port_host l4_proto verdict flags : Z) : Kernel :=
  submit t k cgroup_id (mkEvent (t_now t) cgroup_id [dst_ip4; 0; 0; 0] (lookup_domain_hash_for_ip (maps k) dst_ip4) dst_port_host verdict flags l4_proto).
Definition submit_event_v6 (t : task) (k : Kernel) (cgroup_id : Z) (dst_ip6 : Z * Z * Z * Z) (dst_port_host l4_proto verdict flags : Z) : Kernel :=
  let '(w0, w1, w2, w3) := dst_ip6 in
  submit t k cgroup_id (mkEvent (t_now t) cgroup_id [w0; w1; w2; w3] 0 dst_port_host verdict (Z.lor flags EGRESS_FLAG_IPV6) l4_proto).
Definition submit_event_nodst (t : task) (k : Kernel) (cgroup_id l4_proto verdict : Z) : Kernel :=
  submit t k cgroup_id (mkEvent (t_now t) cgroup_id [0; 0; 0; 0] 0 0 verdict (Z.lor EGRESS_FLAG_NO_DST EGRESS_EMIT_SOCK_CREATE) l4_proto).

(** ** The preamble *)

Inductive enter_state := ENTER_NOT_MANAGED | ENTER_BYPASSED (cfg : ContainerConfig) | ENTER_ENFORCED (cfg : ContainerConfig).
Definition enter_enforced (t : task) (k : Kernel) (check_bypass : bool) : Kernel * enter_state :=
  if t_uid t =? 0 then (k, ENTER_NOT_MANAGED)
  else
    let cid := t_cgroup t in
    if check_bypass && bool_decide (bypass_map (maps k) !! cid = Some 1) then
      match container_map (maps k) !! cid with
      | None => (k, ENTER_NOT_MANAGED)
      | Some bc => (metric_inc k cid 0 0 ACTION_BYPASS, ENTER_BYPASSED bc)
      end
    else match container_map (maps k) !! cid with None => (k, ENTER_NOT_MANAGED) | Some c => (k, ENTER_ENFORCED c) end.

(** ** Routing *)

Inductive route_verdict := V_PASSTHROUGH | V_REWRITE (new_ip new_port_nbo : Z) | V_DENY.

Definition lookup_route (m : Manager) (domain_hash dst_port l4_proto : Z) : Z := default 0 (route_map m !! (domain_hash, dst_port, l4_proto)).

(** A new flow may evict others, never itself. *)
Definition record_udp_flow (t : task) (k : Kernel) (cookie backend_ip backend_port orig_dst_ip orig_dst_port : Z) : Kernel :=
  if cookie =? 0 then k
  else
    let kept := filter (fun kv => kv.1 ∉ t_evicted t) (udp_flow_map (maps k)) in
    with_maps k (with_flows (maps k) (<[(cookie, backend_ip, backend_port) := (orig_dst_ip, htons orig_dst_port)]> kept)).

(** The end of both routines for datagrams: the route of the name behind the
    address, or none. *)
Definition route_udp (t : task) (k : Kernel) (cfg : ContainerConfig) (cgroup_id dst_ip dst_port cookie : Z) : Kernel * route_verdict :=
  let udp_hash := match dns_cache (maps k) !! dst_ip with Some e => de_DomainHash e | None => 0 end in
  let ep := match dns_cache (maps k) !! dst_ip with Some e => lookup_route (maps k) (de_DomainHash e) dst_port SOCK_DGRAM | None => 0 end in
  if negb (ep =? 0) then
    (metric_inc (record_udp_flow t k cookie (EnvoyIp cfg) ep dst_ip dst_port) cgroup_id udp_hash dst_port ACTION_ALLOW, V_REWRITE (EnvoyIp cfg) (htons ep))
  else (metric_inc k cgroup_id udp_hash dst_port ACTION_DENY, V_DENY).

Definition decide_connect (t : task) (k : Kernel) (type : Z) (cfg : ContainerConfig) (cgroup_id dst_ip dst_port : Z) : Kernel * route_verdict :=
  if t_mark t =? CLAWKER_MARK then (k, V_PASSTHROUGH)
  else if dst_port =? DNS_PORT then (metric_inc k cgroup_id 0 DNS_PORT ACTION_ALLOW, V_REWRITE (CorednsIp cfg) (htons DNS_PORT))
  else if is_loopback dst_ip then (k, V_PASSTHROUGH)
  else if is_in_subnet dst_ip (NetAddr cfg) (NetMask cfg) then (k, V_PASSTHROUGH)
  else if negb (HostProxyIp cfg =? 0) && (dst_ip =? HostProxyIp cfg) && (dst_port =? HostProxyPort cfg) then (k, V_PASSTHROUGH)
  else if dst_ip =? GatewayIp cfg then
    if negb (HostProxyPort cfg =? 0) && (dst_port =? HostProxyPort cfg) then (k, V_PASSTHROUGH)
    else (metric_inc k cgroup_id 0 dst_port ACTION_DENY, V_REWRITE (EnvoyIp cfg) (htons (CEgressPort cfg)))
  else if type =? SOCK_DGRAM then route_udp t k cfg cgroup_id dst_ip dst_port (t_cookie t)
  else
    let domain_hash := match dns_cache (maps k) !! dst_ip with Some e => de_DomainHash e | None => 0 end in
    let ep := match dns_cache (maps k) !! dst_ip with Some e => lookup_route (maps k) (de_DomainHash e) dst_port SOCK_STREAM | None => 0 end in
    (metric_inc k cgroup_id domain_hash dst_port ACTION_ALLOW, V_REWRITE (EnvoyIp cfg) (htons (if negb (ep =? 0) then ep else CEgressPort cfg))).

Definition decide_sendmsg (t : task) (k : Kernel) (cfg : ContainerConfig) (cgroup_id dst_ip dst_port cookie : Z) : Kernel * route_verdict :=
  if dst_port =? DNS_PORT then (k, V_REWRITE (CorednsIp cfg) (htons DNS_PORT))
  else if is_loopback dst_ip then (k, V_PASSTHROUGH)
  else if is_in_subnet dst_ip (NetAddr cfg) (NetMask cfg) then (k, V_PASSTHROUGH)
  else route_udp t k cfg cgroup_id dst_ip dst_port cookie.

Definition should_rewrite_dns_source (cfg : ContainerConfig) (src_ip src_port : Z) : bool := (src_ip =? CorednsIp cfg) && (src_port =? DNS_PORT).
Definition lookup_udp_flow_source (m : Manager) (cookie backend_ip backend_port : Z) : option (Z * Z) :=
  if cookie =? 0 then None else udp_flow_map m !! (cookie, backend_ip, backend_port).

(** ** Programs *)

(** The kernel, the address and the return value. *)
Definition ran : Type := Kernel * sock_addr * Z.
Definition set_v4 (a : sock_addr) (ip port : Z) : sock_addr := mkAddr (sa_type a) ip (user_ip6 a) port.
Definition set_mapped (a : sock_addr) (ip port : Z) : sock_addr := let '(w0, w1, w2, _) := user_ip6 a in mkAddr (sa_type a) (user_ip4 a) (w0, w1, w2, ip) port.
Definition mapped_ip (a : sock_addr) : Z := let '(_, _, _, w3) := user_ip6 a in w3.

Definition apply_v4 (a : sock_addr) (r : route_verdict) : sock_addr * Z :=
  match r with V_REWRITE ip port => (set_v4 a ip port, 1) | V_DENY => (a, 0) | V_PASSTHROUGH => (a, 1) end.
Definition apply_v6_mapped (a : sock_addr) (r : route_verdict) : sock_addr * Z :=
  match r with V_REWRITE ip port => (set_mapped a ip port, 1) | V_DENY => (a, 0) | V_PASSTHROUGH => (a, 1) end.
Definition event_verdict (r : route_verdict) : Z := match r with V_DENY => EGRESS_VERDICT_DENIED | _ => EGRESS_VERDICT_ALLOWED end.

Definition restore_v4_reply_source (t : task) (k : Kernel) (cfg : ContainerConfig) (a : sock_addr) : sock_addr :=
  if should_rewrite_dns_source cfg (user_ip4 a) (ntohs (user_port a)) then set_v4 a (htonl DOCKER_EMBEDDED_DNS) (htons DNS_PORT)
  else if user_ip4 a =? EnvoyIp cfg then
    match lookup_udp_flow_source (maps k) (t_cookie t) (user_ip4 a) (ntohs (user_port a)) with Some (ip, port) => set_v4 a ip port | None => a end
  else a.
Definition restore_v6_mapped_reply_source (t : task) (k : Kernel) (cfg : ContainerConfig) (a : sock_addr) : sock_addr :=
  if should_rewrite_dns_source cfg (mapped_ip a) (ntohs (user_port a)) then set_mapped a (htonl DOCKER_EMBEDDED_DNS) (htons DNS_PORT)
  else if mapped_ip a =? EnvoyIp cfg then
    match lookup_udp_flow_source (maps k) (t_cookie t) (mapped_ip a) (ntohs (user_port a)) with Some (ip, port) => set_mapped a ip port | None => a end
  else a.

Definition clawker_connect4 (t : task) (k : Kernel) (a : sock_addr) : ran :=
  if negb (sa_type a =? SOCK_STREAM) && negb (sa_type a =? SOCK_DGRAM) then (k, a, 1)
  else
    let '(k, st) := enter_enforced t k true in
    let port := ntohs (user_port a) in
    match st with
    | ENTER_NOT_MANAGED => (k, a, 1)
    | ENTER_BYPASSED _ => (submit_event_v4 t k (t_cgroup t) (user_ip4 a) port (sa_type a) EGRESS_VERDICT_BYPASSED EGRESS_EMIT_CONNECT, a, 1)
    | ENTER_ENFORCED cfg =>
        let '(k, r) := decide_connect t k (sa_type a) cfg (t_cgroup t) (user_ip4 a) port in
        let k := submit_event_v4 t k (t_cgroup t) (user_ip4 a) port (sa_type a) (event_verdict r) EGRESS_EMIT_CONNECT in
        let '(a, ret) := apply_v4 a r in (k, a, ret)
    end.

Definition clawker_sendmsg4 (t : task) (k : Kernel) (a : sock_addr) : ran :=
  let '(k, st) := enter_enforced t k true in
  let port := ntohs (user_port a) in
  match st with
  | ENTER_NOT_MANAGED => (k, a, 1)
  | ENTER_BYPASSED _ => (submit_event_v4 t k (t_cgroup t) (user_ip4 a) port (sa_type a) EGRESS_VERDICT_BYPASSED EGRESS_EMIT_SENDMSG, a, 1)
  | ENTER_ENFORCED cfg =>
      let '(k, r) := decide_sendmsg t k cfg (t_cgroup t) (user_ip4 a) port (t_cookie t) in
      let k := submit_event_v4 t k (t_cgroup t) (user_ip4 a) port (sa_type a) (event_verdict r) EGRESS_EMIT_SENDMSG in
      let '(a, ret) := apply_v4 a r in (k, a, ret)
  end.

(** [recvmsg4] and [getpeername4]. *)
Definition clawker_recvmsg4 (t : task) (k : Kernel) (a : sock_addr) : ran :=
  match enter_enforced t k false with (k, ENTER_ENFORCED cfg) => (k, restore_v4_reply_source t k cfg a, 1) | (k, _) => (k, a, 1) end.
Definition clawker_getpeername4 : task -> Kernel -> sock_addr -> ran := clawker_recvmsg4.

(** The end of both IPv6 programs for an address that is not IPv4-mapped. *)
Definition native_v6 (t : task) (k : Kernel) (st : enter_state) (a : sock_addr) (flags : Z) : ran :=
  let port := ntohs (user_port a) in
  match st with
  | ENTER_BYPASSED _ => (submit_event_v6 t k (t_cgroup t) (user_ip6 a) port (sa_type a) EGRESS_VERDICT_BYPASSED flags, a, 1)
  | _ =>
      let k := metric_inc k (t_cgroup t) 0 port ACTION_DENY in
      (submit_event_v6 t k (t_cgroup t) (user_ip6 a) port (sa_type a) EGRESS_VERDICT_DENIED flags, a, 0)
  end.
Definition mapped_flags (emit : Z) : Z := Z.lor EGRESS_FLAG_IPV4_MAPPED emit.

Definition clawker_connect6 (t : task) (k : Kernel) (a : sock_addr) : ran :=
  let '(k, st) := enter_enforced t k true in
  let port := ntohs (user_port a) in
  match st with
  | ENTER_NOT_MANAGED => (k, a, 1)
  | _ =>
      if is_ipv6_loopback a then (k, a, 1)
      else if is_ipv4_mapped a then
        if negb (sa_type a =? SOCK_STREAM) && negb (sa_type a =? SOCK_DGRAM) then (k, a, 1)
        else
          match st with
          | ENTER_ENFORCED cfg =>
              let '(k, r) := decide_connect t k (sa_type a) cfg (t_cgroup t) (mapped_ip a) port in
              let k := submit_event_v4 t k (t_cgroup t) (mapped_ip a) port (sa_type a) (event_verdict r) (mapped_flags EGRESS_EMIT_CONNECT) in
              let '(a, ret) := apply_v6_mapped a r in (k, a, ret)
          | _ => (submit_event_v4 t k (t_cgroup t) (mapped_ip a) port (sa_type a) EGRESS_VERDICT_BYPASSED (mapped_flags EGRESS_EMIT_CONNECT), a, 1)
          end
      else native_v6 t k st a EGRESS_EMIT_CONNECT
  end.

Definition clawker_sendmsg6 (t : task) (k : Kernel) (a : sock_addr) : ran :=
  let '(k, st) := enter_enforced t k true in
  let port := ntohs (user_port a) in
  match st with
  | ENTER_NOT_MANAGED => (k, a, 1)
  | _ =>
      if is_ipv6_loopback a then (k, a, 1)
      else if is_ipv4_mapped a then
        match st with
        | ENTER_ENFORCED cfg =>
            let '(k, r) := decide_sendmsg t k cfg (t_cgroup t) (mapped_ip a) port (t_cookie t) in
            let k := submit_event_v4 t k (t_cgroup t) (mapped_ip a) port (sa_type a) (event_verdict r) (mapped_flags EGRESS_EMIT_SENDMSG) in
            let '(a, ret) := apply_v6_mapped a r in (k, a, ret)
        | _ => (submit_event_v4 t k (t_cgroup t) (mapped_ip a) port (sa_type a) EGRESS_VERDICT_BYPASSED (mapped_flags EGRESS_EMIT_SENDMSG), a, 1)
        end
      else native_v6 t k st a EGRESS_EMIT_SENDMSG
  end.

(** [recvmsg6] and [getpeername6]. *)
Definition clawker_recvmsg6 (t : task) (k : Kernel) (a : sock_addr) : ran :=
  match enter_enforced t k false with
  | (k, ENTER_ENFORCED cfg) => (k, if is_ipv4_mapped a then restore_v6_mapped_reply_source t k cfg a else a, 1)
  | (k, _) => (k, a, 1)
  end.
Definition clawker_getpeername6 : task -> Kernel -> sock_addr -> ran := clawker_recvmsg6.

Definition clawker_sock_create (t : task) (k : Kernel) (type : Z) : Kernel * Z :=
  let '(k, st) := enter_enforced t k true in
  match st with
  | ENTER_NOT_MANAGED => (k, 1)
  | ENTER_BYPASSED _ => (submit_event_nodst t k (t_cgroup t) type EGRESS_VERDICT_BYPASSED, 1)
  | ENTER_ENFORCED _ =>
      if type =? SOCK_RAW then (submit_event_nodst t (metric_inc k (t_cgroup t) 0 0 ACTION_DENY) (t_cgroup t) type EGRESS_VERDICT_DENIED, 0)
      else (submit_event_nodst t k (t_cgroup t) type EGRESS_VERDICT_ALLOWED, 1)
  end.

End Bpf.
