(* ===== verification/BpfSpec.v ===== *)
(** * What the BPF programs enforce

    Confinement of an enforced container at the socket layer, the way back of
    redirected datagrams, and the budget of the event channel
    (controlplane/firewall/ebpf/bpf). *)

From S2P Require Import Prelude GoStrings GoNet Routes EbpfApi Ebpf Bpf.
Import Go Routes EbpfApi Ebpf Bpf.

Module BpfSpec.

(** ** Bytes *)

Lemma htons_ntohs p : 0 <= p < 65536 -> ntohs (htons p) = p.
Proof. intros Hp. unfold ntohs, htons, bswap16. div_lia. Qed.
Lemma ntohs_htons p : 0 <= p < 65536 -> htons (ntohs p) = p.
Proof. apply htons_ntohs. Qed.

(** ** Egress programs *)

Inductive program := Connect4 | Sendmsg4 | Connect6 | Sendmsg6.
Definition run (p : program) : task -> Kernel -> sock_addr -> ran :=
  match p with Connect4 => clawker_connect4 | Sendmsg4 => clawker_sendmsg4 | Connect6 => clawker_connect6 | Sendmsg6 => clawker_sendmsg6 end.

(** The IPv4 destination of an address, if it has one. *)
Definition dst_ip (p : program) (a : sock_addr) : option Z :=
  match p with Connect4 | Sendmsg4 => Some (user_ip4 a) | Connect6 | Sendmsg6 => if is_ipv4_mapped a then Some (mapped_ip a) else None end.
Definition set_dst (p : program) (a : sock_addr) (ip port : Z) : sock_addr :=
  match p with Connect4 | Sendmsg4 => set_v4 a ip port | Connect6 | Sendmsg6 => set_mapped a ip port end.

(** The transport a program decides for. *)
Definition l4_of (p : program) (a : sock_addr) : Z := match p with Connect4 | Connect6 => sa_type a | Sendmsg4 | Sendmsg6 => SOCK_DGRAM end.

(** A task of a container under enforcement. *)
Record enforced (t : task) (k : Kernel) (cfg : ContainerConfig) : Prop := {
  en_uid : t_uid t <> 0;
  en_container : container_map (maps k) !! t_cgroup t = Some cfg;
  en_bypass : bypass_map (maps k) !! t_cgroup t <> Some 1;
}.
Lemma enforced_enter t k cfg cb : enforced t k cfg -> enter_enforced t k cb = (k, ENTER_ENFORCED cfg).
Proof.
  intros [Hu Hc Hb]. unfold enter_enforced. rewrite (proj2 (Z.eqb_neq _ _) Hu), (bool_decide_eq_false_2 _ Hb), andb_false_r. by rewrite Hc.
Qed.

(** Connects are judged with the host proxy and the gateway in view, sends are not. *)
Definition is_connect (p : program) : bool := match p with Connect4 | Connect6 => true | Sendmsg4 | Sendmsg6 => false end.
Definition host_proxied (cfg : ContainerConfig) (ip port : Z) : Prop :=
  port = HostProxyPort cfg /\ ((ip = HostProxyIp cfg /\ HostProxyIp cfg <> 0) \/ (ip = GatewayIp cfg /\ HostProxyPort cfg <> 0)).
(** What stays on the host: loopback, the containers' network, the host proxy. *)
Definition on_host (connect : bool) (cfg : ContainerConfig) (ip port : Z) : Prop :=
  is_loopback ip = true \/ is_in_subnet ip (NetAddr cfg) (NetMask cfg) = true \/ (connect = true /\ host_proxied cfg ip port).
(** A destination that leaves the host and for which the name decides. *)
Definition away (connect : bool) (cfg : ContainerConfig) (ip port : Z) : Prop :=
  port <> DNS_PORT /\ ~ on_host connect cfg ip port /\ ~ (connect = true /\ ip = GatewayIp cfg).
Definition local (p : program) (cfg : ContainerConfig) (a : sock_addr) : Prop :=
  (dst_ip p a = None /\ is_ipv6_loopback a = true) \/
  exists ip, dst_ip p a = Some ip /\ ntohs (user_port a) <> DNS_PORT /\ on_host (is_connect p) cfg ip (ntohs (user_port a)).
(** The port of the route of the name that was resolved to an address. *)
Definition routed (k : Kernel) (ip port l4 ep : Z) : Prop :=
  exists e, dns_cache (maps k) !! ip = Some e /\ route_map (maps k) !! (de_DomainHash e, port, l4) = Some ep.

Definition unrouted (k : Kernel) (ip port l4 : Z) : Prop := forall ep, routed k ip port l4 ep -> ep = 0.

(** What becomes of an address, by exclusive cases: native IPv6 is refused, port 53 goes
    to CoreDNS, what stays on the host is let through, a connect to the gateway goes to
    the egress port, and the rest goes where the route of its name leads; without a
    route a stream goes to the egress port and a datagram is refused. *)
Inductive outcome (p : program) (k : Kernel) (cfg : ContainerConfig) (a : sock_addr) : sock_addr -> Z -> Prop :=
  | out_native : dst_ip p a = None -> is_ipv6_loopback a = false -> outcome p k cfg a a 0
  | out_local : local p cfg a -> outcome p k cfg a a 1
  | out_dns ip : dst_ip p a = Some ip -> ntohs (user_port a) = DNS_PORT -> outcome p k cfg a (set_dst p a (CorednsIp cfg) (htons DNS_PORT)) 1
  | out_gateway ip : dst_ip p a = Some ip -> ntohs (user_port a) <> DNS_PORT -> ~ on_host (is_connect p) cfg ip (ntohs (user_port a)) -> is_connect p = true -> ip = GatewayIp cfg ->
      outcome p k cfg a (set_dst p a (EnvoyIp cfg) (htons (CEgressPort cfg))) 1
  | out_routed ip ep : dst_ip p a = Some ip -> away (is_connect p) cfg ip (ntohs (user_port a)) -> ep <> 0 -> routed k ip (ntohs (user_port a)) (l4_of p a) ep ->
      outcome p k cfg a (set_dst p a (EnvoyIp cfg) (htons ep)) 1
  | out_egress ip : dst_ip p a = Some ip -> away (is_connect p) cfg ip (ntohs (user_port a)) -> l4_of p a = SOCK_STREAM -> unrouted k ip (ntohs (user_port a)) SOCK_STREAM ->
      outcome p k cfg a (set_dst p a (EnvoyIp cfg) (htons (CEgressPort cfg))) 1
  | out_denied ip : dst_ip p a = Some ip -> away (is_connect p) cfg ip (ntohs (user_port a)) -> l4_of p a = SOCK_DGRAM -> unrouted k ip (ntohs (user_port a)) SOCK_DGRAM ->
      outcome p k cfg a a 0.

(** The verdict of a decision, against the maps it was made from. *)
Inductive decided (connect : bool) (k : Kernel) (cfg : ContainerConfig) (l4 ip port : Z) : route_verdict -> Prop :=
  | dec_local : port <> DNS_PORT -> on_host connect cfg ip port -> decided connect k cfg l4 ip port V_PASSTHROUGH
  | dec_dns : port = DNS_PORT -> decided connect k cfg l4 ip port (V_REWRITE (CorednsIp cfg) (htons DNS_PORT))
  | dec_gateway : port <> DNS_PORT -> ~ on_host connect cfg ip port -> connect = true -> ip = GatewayIp cfg ->
      decided connect k cfg l4 ip port (V_REWRITE (EnvoyIp cfg) (htons (CEgressPort cfg)))
  | dec_routed ep : away connect cfg ip port -> ep <> 0 -> routed k ip port l4 ep -> decided connect k cfg l4 ip port (V_REWRITE (EnvoyIp cfg) (htons ep))
  | dec_egress : away connect cfg ip port -> l4 = SOCK_STREAM -> unrouted k ip port SOCK_STREAM -> decided connect k cfg l4 ip port (V_REWRITE (EnvoyIp cfg) (htons (CEgressPort cfg)))
  | dec_deny : away connect cfg ip port -> l4 = SOCK_DGRAM -> unrouted k ip port SOCK_DGRAM -> decided connect k cfg l4 ip port V_DENY.

Definition resolved_route (k : Kernel) (ip port l4 : Z) : Z := match dns_cache (maps k) !! ip with Some e => lookup_route (maps k) (de_DomainHash e) port l4 | None => 0 end.
Lemma resolved_routed k ip port l4 : resolved_route k ip port l4 <> 0 -> routed k ip port l4 (resolved_route k ip port l4).
Proof.
  unfold resolved_route. destruct (dns_cache (maps k) !! ip) as [e|] eqn:Ed; [|done]. unfold lookup_route. destruct (route_map (maps k) !! _) as [ep|] eqn:Er; [|done]. intros _. by exists e.
Qed.
Lemma resolved_unrouted k ip port l4 : resolved_route k ip port l4 = 0 -> unrouted k ip port l4.
Proof. unfold resolved_route, lookup_route. intros Hz ep (e & He & Hr). rewrite He, Hr in Hz. exact Hz. Qed.
Lemma route_udp_decided connect t k cfg cg ip port cookie : away connect cfg ip port -> decided connect k cfg SOCK_DGRAM ip port (route_udp t k cfg cg ip port cookie).2.
Proof.
  intros Ha. unfold route_udp. fold (resolved_route k ip port SOCK_DGRAM). destruct (Z.eqb_spec (resolved_route k ip port SOCK_DGRAM) 0) as [E|E]; cbn.
  - apply dec_deny; [done|done|by apply resolved_unrouted].
  - apply dec_routed; [done|done|by apply resolved_routed].
Qed.
Lemma connect_decided t k type cfg cg ip port :
  t_mark t <> CLAWKER_MARK -> type = SOCK_STREAM \/ type = SOCK_DGRAM -> decided true k cfg type ip port (decide_connect t k type cfg cg ip port).2.
Proof.
  intros Hm Ht. unfold decide_connect. rewrite (proj2 (Z.eqb_neq _ _) Hm).
  destruct (Z.eqb_spec port DNS_PORT) as [|Hd]; [by apply dec_dns|]. destruct (is_loopback ip) eqn:El; [apply dec_local; unfold on_host; auto|].
  destruct (is_in_subnet ip (NetAddr cfg) (NetMask cfg)) eqn:Es; [apply dec_local; unfold on_host; auto|].
  destruct (negb _ && _ && _) eqn:Eh; [apply dec_local; [done|]; bool_to_prop; unfold on_host, host_proxied; by naive_solver|].
  assert (on_host true cfg ip port -> ip = GatewayIp cfg /\ port = HostProxyPort cfg /\ HostProxyPort cfg <> 0) as Hoh.
  { intros [?|[?|(_ & Ep & [[Ei Hz]|[Ei Hz]])]]; [congruence|congruence| |done]. rewrite Ep, Ei, (proj2 (Z.eqb_neq _ _) Hz), !Z.eqb_refl in Eh. done. }
  destruct (Z.eqb_spec ip (GatewayIp cfg)) as [Eg|Hg].
  { destruct (negb (HostProxyPort cfg =? 0) && (port =? HostProxyPort cfg)) eqn:Ep; [apply dec_local; [done|]; bool_to_prop; unfold on_host, host_proxied; by naive_solver|].
    apply dec_gateway; [done| |done|done]. intros (_ & -> & Hz)%Hoh. by rewrite (proj2 (Z.eqb_neq _ _) Hz), Z.eqb_refl in Ep. }
  assert (away true cfg ip port) as Ha by (split_and!; [done|by intros [? _]%Hoh|by intros [_ ?]]).
  destruct (Z.eqb_spec type SOCK_DGRAM) as [->|Hn]; [by apply route_udp_decided|]. destruct Ht as [->|]; [|done]. cbn [snd].
  fold (resolved_route k ip port SOCK_STREAM). destruct (Z.eqb_spec (resolved_route k ip port SOCK_STREAM) 0) as [E|E]; cbn [negb].
  - apply dec_egress; [done|done|by apply resolved_unrouted].
  - apply dec_routed; [done|done|by apply resolved_routed].
Qed.
Lemma sendmsg_decided t k cfg cg ip port cookie : decided false k cfg SOCK_DGRAM ip port (decide_sendmsg t k cfg cg ip port cookie).2.
Proof.
  unfold decide_sendmsg. destruct (Z.eqb_spec port DNS_PORT); [by apply dec_dns|]. destruct (is_loopback ip) eqn:El; [apply dec_local; unfold on_host; auto|].
  destruct (is_in_subnet ip (NetAddr cfg) (NetMask cfg)) eqn:Es; [apply dec_local; unfold on_host; auto|]. apply route_udp_decided. split_and!; [done| |by intros [? _]].
  intros [?|[?|[? _]]]; congruence.
Qed.

Lemma loopback_not_mapped a : is_ipv6_loopback a = true -> is_ipv4_mapped a = false.
Proof.
  unfold is_ipv6_loopback, is_ipv4_mapped. destruct (user_ip6 a) as [[[w0 w1] w2] w3]. intros Hl. bool_to_prop. subst w2. by rewrite andb_false_r.
Qed.

(** The decision of a program about an IPv4 destination. *)
Definition decision (p : program) (t : task) (k : Kernel) (cfg : ContainerConfig) (a : sock_addr) (ip : Z) : Kernel * route_verdict :=
  match p with
  | Connect4 | Connect6 => decide_connect t k (sa_type a) cfg (t_cgroup t) ip (ntohs (user_port a))
  | Sendmsg4 | Sendmsg6 => decide_sendmsg t k cfg (t_cgroup t) ip (ntohs (user_port a)) (t_cookie t)
  end.
Definition applied (p : program) (a : sock_addr) (r : route_verdict) : sock_addr * Z :=
  match p with Connect4 | Sendmsg4 => apply_v4 a r | Connect6 | Sendmsg6 => apply_v6_mapped a r end.
Definition ip_type (p : program) (a : sock_addr) : Prop := match p with Connect4 | Connect6 => sa_type a = SOCK_STREAM \/ sa_type a = SOCK_DGRAM | _ => True end.

Lemma mapped_not_loopback a : is_ipv4_mapped a = true -> is_ipv6_loopback a = false.
Proof. intros Hm. destruct (is_ipv6_loopback a) eqn:E; [|done]. by rewrite (loopback_not_mapped a E) in Hm. Qed.
(** The event of a decision about an IPv4 destination. *)
Definition site (p : program) : Z := match p with Connect4 | Connect6 => EGRESS_EMIT_CONNECT | Sendmsg4 | Sendmsg6 => EGRESS_EMIT_SENDMSG end.
Definition v4_flags (p : program) : Z := match p with Connect4 | Sendmsg4 => site p | Connect6 | Sendmsg6 => mapped_flags (site p) end.
Definition event_of (p : program) (t : task) (k : Kernel) (a : sock_addr) (ip : Z) (r : route_verdict) : egress_event :=
  mkEvent (t_now t) (t_cgroup t) [ip; 0; 0; 0] (lookup_domain_hash_for_ip (maps k) ip) (ntohs (user_port a)) (event_verdict r) (v4_flags p) (sa_type a).
Lemma run_enforced p t k cfg a ip :
  enforced t k cfg -> dst_ip p a = Some ip -> ip_type p a ->
  exists ev, ev = event_of p t (decision p t k cfg a ip).1 a ip (decision p t k cfg a ip).2 /\ run p t k a = (submit t (decision p t k cfg a ip).1 (t_cgroup t) ev, (applied p a (decision p t k cfg a ip).2).1, (applied p a (decision p t k cfg a ip).2).2).
Proof.
  intros He Hi Ht. assert (ip_type Connect4 a -> negb (sa_type a =? SOCK_STREAM) && negb (sa_type a =? SOCK_DGRAM) = false) as Hty by (by intros [-> | ->]).
  destruct p; cbn [dst_ip] in Hi; try (destruct (is_ipv4_mapped a) eqn:Em; [|done]); injection Hi as <-; cbn [run decision applied];
    unfold clawker_connect4, clawker_sendmsg4, clawker_connect6, clawker_sendmsg6; rewrite ?(Hty Ht), (enforced_enter t k cfg true He), ?Em, ?(mapped_not_loopback a Em);
    destruct (decide_connect _ _ _ _ _ _ _) as [kd r] || destruct (decide_sendmsg _ _ _ _ _ _ _) as [kd r]; cbn [fst snd];
    match goal with |- context [apply_v4 a ?x] => destruct (apply_v4 a x) | |- context [apply_v6_mapped a ?x] => destruct (apply_v6_mapped a x) end; eexists; (split; [|reflexivity]); done.
Qed.

Lemma decision_decided p t k cfg a ip : t_mark t <> CLAWKER_MARK -> ip_type p a -> decided (is_connect p) k cfg (l4_of p a) ip (ntohs (user_port a)) (decision p t k cfg a ip).2.
Proof. intros Hm Ht. destruct p; cbn; first [by apply connect_decided|apply sendmsg_decided]. Qed.
Lemma applied_outcome p k cfg a ip r :
  dst_ip p a = Some ip -> decided (is_connect p) k cfg (l4_of p a) ip (ntohs (user_port a)) r -> outcome p k cfg a (applied p a r).1 (applied p a r).2.
Proof.
  intros Hi Hd. assert (forall ip' port, applied p a (V_REWRITE ip' port) = (set_dst p a ip' port, 1)) as Hs by (by destruct p).
  destruct Hd as [Hn Hloc|Hdns|Hn Hno Hc Hg|ep Ha Hne Hr|Ha Hl Hu|Ha Hl Hu]; rewrite ?Hs.
  - replace (applied p a V_PASSTHROUGH) with (a, 1) by (by destruct p). apply out_local. right. by exists ip.
  - by eapply out_dns.
  - by eapply out_gateway.
  - by eapply out_routed.
  - by eapply out_egress.
  - replace (applied p a V_DENY) with (a, 0) by (by destruct p). by eapply out_denied.
Qed.
Lemma run_native p t k cfg a : enforced t k cfg -> dst_ip p a = None -> (run p t k a).1.2 = a /\ (run p t k a).2 = (if is_ipv6_loopback a then 1 else 0).
Proof.
  intros He Hi. destruct p; cbn [dst_ip] in Hi; try done; (destruct (is_ipv4_mapped a) eqn:Em; [done|]); cbn [run]; unfold clawker_connect6, clawker_sendmsg6;
    rewrite (enforced_enter t k cfg true He), Em; by destruct (is_ipv6_loopback a).
Qed.

Lemma run_outcome p t k cfg a :
  enforced t k cfg -> t_mark t <> CLAWKER_MARK -> ip_type p a -> outcome p k cfg a (run p t k a).1.2 (run p t k a).2.
Proof.
  intros He Hm Ht. destruct (dst_ip p a) as [ip|] eqn:Hi.
  - destruct (run_enforced p t k cfg a ip He Hi Ht) as (ev & _ & ->). by apply (applied_outcome p k cfg a ip), decision_decided.
  - destruct (run_native p t k cfg a He Hi) as [-> ->]. destruct (is_ipv6_loopback a) eqn:El; [|by apply out_native]. apply out_local. by left.
Qed.

(** The cases exclude each other. *)
Lemma routed_unique k ip port l4 ep ep' : routed k ip port l4 ep -> routed k ip port l4 ep' -> ep = ep'.
Proof. intros (e & He & Hr) (e' & He' & Hr'). congruence. Qed.
Section Exclusive.
Context (connect : bool) (k : Kernel) (cfg : ContainerConfig) (l4 ip port : Z) (v : route_verdict) (Hv : decided connect k cfg l4 ip port v).
Lemma only_dns : port = DNS_PORT -> v = V_REWRITE (CorednsIp cfg) (htons DNS_PORT).
Proof. intros E. destruct Hv as [?|?|? ? ? ?|? [? _] ? ?|[? _] ? ?|[? _] ? ?]; done. Qed.
Lemma only_local : port <> DNS_PORT -> on_host connect cfg ip port -> v = V_PASSTHROUGH.
Proof. intros E H. destruct Hv as [?|?|? ? ? ?|? (_ & ? & _) ? ?|(_ & ? & _) ? ?|(_ & ? & _) ? ?]; done. Qed.
Lemma only_gateway : port <> DNS_PORT -> ~ on_host connect cfg ip port -> connect = true -> ip = GatewayIp cfg -> v = V_REWRITE (EnvoyIp cfg) (htons (CEgressPort cfg)).
Proof. intros E H Hc Hg. destruct Hv as [?|?|? ? ? ?|? (_ & _ & Ha) ? ?|(_ & _ & Ha) ? ?|(_ & _ & Ha) ? ?]; try done; by destruct Ha. Qed.
Lemma only_routed ep : away connect cfg ip port -> ep <> 0 -> routed k ip port l4 ep -> v = V_REWRITE (EnvoyIp cfg) (htons ep).
Proof.
  intros (A1 & A2 & A3) Hne Hr. destruct Hv as [?|?|? ? ? ?|ep' _ _ Hr'|_ El Hu|_ El Hu]; try done; [by destruct A3|by rewrite (routed_unique _ _ _ _ _ _ Hr Hr')|..]; rewrite El in Hr; by apply Hu in Hr.
Qed.
Lemma only_unrouted : away connect cfg ip port -> unrouted k ip port l4 ->
  v = (if l4 =? SOCK_STREAM then V_REWRITE (EnvoyIp cfg) (htons (CEgressPort cfg)) else V_DENY).
Proof. intros (A1 & A2 & A3) Hu. destruct Hv as [?|?|? ? ? ?|ep' _ Hne Hr'|_ El _|_ El _]; try done; [by destruct A3|by apply Hu in Hr'|by rewrite El..]. Qed.
End Exclusive.

Lemma outcome_exact p t k cfg a a' ret : enforced t k cfg -> t_mark t <> CLAWKER_MARK -> ip_type p a -> outcome p k cfg a a' ret -> (a', ret) = ((run p t k a).1.2, (run p t k a).2).
Proof.
  intros He Hm Ht Ho. assert (forall ip, dst_ip p a = Some ip -> exists v, decided (is_connect p) k cfg (l4_of p a) ip (ntohs (user_port a)) v /\ ((run p t k a).1.2, (run p t k a).2) = applied p a v) as Hd.
  { intros ip Hi. destruct (run_enforced p t k cfg a ip He Hi Ht) as (ev & _ & ->). eexists. split; [by apply decision_decided|]. cbn. by destruct (applied p a _). }
  assert (forall ip' port, applied p a (V_REWRITE ip' port) = (set_dst p a ip' port, 1)) as Hs by (by destruct p).
  destruct Ho as [Hn El|[[Hn El]|(ip & Hi & Hp & Hh)]|ip Hi Hp|ip Hi Hp Hh Hc Hg|ip ep Hi Ha Hne Hr|ip Hi Ha El Hu|ip Hi Ha El Hu].
  - destruct (run_native p t k cfg a He Hn) as [-> ->]. by rewrite El.
  - destruct (run_native p t k cfg a He Hn) as [-> ->]. by rewrite El.
  - destruct (Hd ip Hi) as (v & Hv & ->). rewrite (only_local _ _ _ _ _ _ _ Hv Hp Hh). by destruct p.
  - destruct (Hd ip Hi) as (v & Hv & ->). by rewrite (only_dns _ _ _ _ _ _ _ Hv Hp), Hs.
  - destruct (Hd ip Hi) as (v & Hv & ->). by rewrite (only_gateway _ _ _ _ _ _ _ Hv Hp Hh Hc Hg), Hs.
  - destruct (Hd ip Hi) as (v & Hv & ->). by rewrite (only_routed _ _ _ _ _ _ _ Hv ep Ha Hne Hr), Hs.
  - destruct (Hd ip Hi) as (v & Hv & ->). rewrite El in Hv. by rewrite (only_unrouted _ _ _ _ _ _ _ Hv Ha Hu), Z.eqb_refl, Hs.
  - destruct (Hd ip Hi) as (v & Hv & ->). rewrite El in Hv. rewrite (only_unrouted _ _ _ _ _ _ _ Hv Ha Hu). by destruct p.
Qed.

(** ** What a program writes *)

(** The maps the control plane and the resolver write. *)
Definition policy (k : Kernel) := (container_map (maps k), bypass_map (maps k), route_map (maps k), dns_cache (maps k)).
Definition flows (k : Kernel) : gmap flow_key (Z * Z) := udp_flow_map (maps k).

Lemma take_frame t m cg : let m' := (ratelimit_check_and_take t m cg).1 in
  (container_map m', bypass_map m', route_map m', dns_cache m') = (container_map m, bypass_map m, route_map m, dns_cache m) /\ udp_flow_map m' = udp_flow_map m.
Proof. cbn. unfold ratelimit_check_and_take. destruct (default _ _); [|done]. destruct (topup _ _), (cas_loop _ _ _) as [? []]; done. Qed.
Lemma submit_frame t k cg ev : policy (submit t k cg ev) = policy k /\ flows (submit t k cg ev) = flows k.
Proof.
  unfold submit. pose proof (take_frame t (maps k) cg) as [Hp Hf]. cbn in Hp, Hf. destruct (ratelimit_check_and_take t (maps k) cg) as [m ok]. cbn [fst] in Hp, Hf.
  unfold policy, flows. by repeat case_match.
Qed.
Lemma submit_v6_frame t k cg ip port l4 v fl : policy (submit_event_v6 t k cg ip port l4 v fl) = policy k /\ flows (submit_event_v6 t k cg ip port l4 v fl) = flows k.
Proof. unfold submit_event_v6. destruct ip as [[[w0 w1] w2] w3]. apply submit_frame. Qed.

(** A rewrite to a backend on behalf of a socket. *)
Definition flow_of (t : task) (r : route_verdict) : option flow_key := match r with V_REWRITE ip port => Some (t_cookie t, ip, ntohs port) | _ => None end.
Definition route_ports_ok (k : Kernel) : Prop := map_Forall (fun _ ep => 0 <= ep < 65536) (route_map (maps k)).
Lemma routed_port_ok k ip port l4 ep : route_ports_ok k -> routed k ip port l4 ep -> 0 <= ep < 65536.
Proof. intros Hok (e & _ & He). by apply (Hok _ _ He). Qed.

(** A decision leaves the policy alone, and every flow that is not evicted and is
    not the one it redirects. *)
Definition frames (t : task) (k k' : Kernel) (r : route_verdict) : Prop :=
  policy k' = policy k /\ forall key, key ∉ t_evicted t -> Some key <> flow_of t r -> flows k' !! key = flows k !! key.
Lemma frames_refl t k r : frames t k k r.
Proof. by split. Qed.
Lemma frames_metric t k k' r cg h p ac : frames t k k' r -> frames t k (metric_inc k' cg h p ac) r.
Proof. intros [? ?]. by split. Qed.
Lemma route_udp_frames t k cfg cg ip port : route_ports_ok k ->
  frames t k (route_udp t k cfg cg ip port (t_cookie t)).1 (route_udp t k cfg cg ip port (t_cookie t)).2.
Proof.
  intros Hok. unfold route_udp. fold (resolved_route k ip port SOCK_DGRAM). pose proof (resolved_routed k ip port SOCK_DGRAM) as Hr. set (ep := resolved_route k ip port SOCK_DGRAM) in *.
  destruct (Z.eqb_spec ep 0) as [E|E]; cbn [negb fst snd]; apply frames_metric; [apply frames_refl|]. unfold record_udp_flow. destruct (t_cookie t =? 0); [apply frames_refl|]. split; [done|].
  intros key Hev Hne. unfold flows. cbn. cbn in Hne. rewrite htons_ntohs in Hne by (eapply routed_port_ok; [done|by apply Hr]). rewrite lookup_insert_ne by congruence.
  rewrite map_lookup_filter. destruct (udp_flow_map (maps k) !! key); [|done]. cbn. by rewrite option_guard_True.
Qed.
Lemma connect_frames t k type cfg cg ip port : route_ports_ok k -> frames t k (decide_connect t k type cfg cg ip port).1 (decide_connect t k type cfg cg ip port).2.
Proof.
  intros Hok. unfold decide_connect. destruct (_ =? CLAWKER_MARK); [apply frames_refl|]. destruct (port =? DNS_PORT); [by apply frames_metric, frames_refl|].
  destruct (is_loopback ip); [apply frames_refl|]. destruct (is_in_subnet _ _ _); [apply frames_refl|]. destruct (negb _ && _ && _); [apply frames_refl|].
  destruct (ip =? GatewayIp cfg); [destruct (negb _ && _); [apply frames_refl|by apply frames_metric, frames_refl]|].
  destruct (type =? SOCK_DGRAM); [by apply route_udp_frames|]. by apply frames_metric, frames_refl.
Qed.
Lemma sendmsg_frames t k cfg cg ip port : route_ports_ok k -> frames t k (decide_sendmsg t k cfg cg ip port (t_cookie t)).1 (decide_sendmsg t k cfg cg ip port (t_cookie t)).2.
Proof.
  intros Hok. unfold decide_sendmsg. destruct (port =? DNS_PORT); [apply frames_refl|]. destruct (is_loopback ip); [apply frames_refl|].
  destruct (is_in_subnet _ _ _); [apply frames_refl|]. by apply route_udp_frames.
Qed.

(** The flow key of the address a program leaves. *)
Definition flow_at (p : program) (t : task) (a : sock_addr) : flow_key :=
  (t_cookie t, match p with Connect4 | Sendmsg4 => user_ip4 a | Connect6 | Sendmsg6 => mapped_ip a end, ntohs (user_port a)).
Lemma mapped_set a ip port : mapped_ip (set_mapped a ip port) = ip /\ user_port (set_mapped a ip port) = port.
Proof. unfold set_mapped, mapped_ip. by destruct (user_ip6 a) as [[[w0 w1] w2] w3]. Qed.

Lemma enter_frame t k cb : let k' := (enter_enforced t k cb).1 in policy k' = policy k /\ flows k' = flows k.
Proof. cbn. unfold enter_enforced. by repeat case_match. Qed.

Definition keeps (t : task) (k k' : Kernel) (own : flow_key) : Prop :=
  policy k' = policy k /\ forall key, key ∉ t_evicted t -> key <> own -> flows k' !! key = flows k !! key.
Lemma keeps_eq t k k' own : policy k' = policy k /\ flows k' = flows k -> keeps t k k' own.
Proof. intros [Hp Hf]. split; [done|]. intros key _ _. by rewrite Hf. Qed.
Lemma keeps_trans t k1 k2 k3 own : keeps t k1 k2 own -> keeps t k2 k3 own -> keeps t k1 k3 own.
Proof. intros [P1 F1] [P2 F2]. split; [by rewrite P2|]. intros key H1 H2. by rewrite F2, F1. Qed.
Lemma frames_keeps t k k' r own : frames t k k' r -> (forall key, flow_of t r = Some key -> key = own) -> keeps t k k' own.
Proof. intros [Hp Hf] Hown. split; [done|]. intros key He Hne. apply Hf; [done|]. intros E. by apply Hne, Hown. Qed.
Lemma apply_v4_flow p t a r key : p = Connect4 \/ p = Sendmsg4 -> flow_of t r = Some key -> key = flow_at p t (apply_v4 a r).1.
Proof. intros Hp. destruct r; try done. intros [= <-]. by destruct Hp as [-> | ->]. Qed.
Lemma apply_v6_flow p t a r key : p = Connect6 \/ p = Sendmsg6 -> flow_of t r = Some key -> key = flow_at p t (apply_v6_mapped a r).1.
Proof.
  intros Hp. destruct r as [|ip port|]; try done. intros [= <-]. cbn. unfold flow_at. destruct (mapped_set a ip port) as [Hi Hu]. destruct Hp as [-> | ->]; by rewrite Hi, Hu.
Qed.
Lemma decided_keeps t k kd r own cg ev : frames t k kd r -> (forall key, flow_of t r = Some key -> key = own) -> keeps t k (submit t kd cg ev) own.
Proof. intros Hf Ho. eapply keeps_trans; [by eapply frames_keeps|]. apply keeps_eq, submit_frame. Qed.

Lemma native_keeps t k st a fl own : keeps t k (native_v6 t k st a fl).1.1 own.
Proof. unfold native_v6. destruct st; apply keeps_eq; cbn [fst]; [|apply submit_v6_frame|]; apply (submit_v6_frame t (metric_inc k (t_cgroup t) 0 (ntohs (user_port a)) ACTION_DENY)). Qed.

Lemma policy_routes k k' : policy k' = policy k -> route_ports_ok k -> route_ports_ok k'.
Proof. unfold policy, route_ports_ok. intros E Hok. by injection E as _ _ -> _. Qed.

Lemma run_keeps p t k a : route_ports_ok k -> keeps t k (run p t k a).1.1 (flow_at p t (run p t k a).1.2).
Proof.
  intros Hok. pose proof (enter_frame t k true) as Hen. cbn in Hen. destruct p; cbn [run]; unfold clawker_connect4, clawker_sendmsg4, clawker_connect6, clawker_sendmsg6.
  - destruct (negb _ && negb _); [by apply keeps_eq|]. destruct (enter_enforced t k true) as [k1 st]. cbn [fst] in Hen. pose proof (policy_routes _ _ (proj1 Hen) Hok) as Hok1.
    eapply (keeps_trans _ _ k1); [by apply keeps_eq|]. destruct st; cbn [fst]; [by apply keeps_eq|apply keeps_eq, submit_frame|].
    pose proof (connect_frames t k1 (sa_type a) cfg (t_cgroup t) (user_ip4 a) (ntohs (user_port a)) Hok1) as Hf. destruct (decide_connect _ _ _ _ _ _ _) as [kd r]. cbn [fst snd] in Hf.
    pose proof (fun key => apply_v4_flow Connect4 t a r key (or_introl eq_refl)) as Ho. destruct (apply_v4 a r) as [a' ret]. by eapply decided_keeps.
  - destruct (enter_enforced t k true) as [k1 st]. cbn [fst] in Hen. pose proof (policy_routes _ _ (proj1 Hen) Hok) as Hok1.
    eapply (keeps_trans _ _ k1); [by apply keeps_eq|]. destruct st; cbn [fst]; [by apply keeps_eq|apply keeps_eq, submit_frame|].
    pose proof (sendmsg_frames t k1 cfg (t_cgroup t) (user_ip4 a) (ntohs (user_port a)) Hok1) as Hf. destruct (decide_sendmsg _ _ _ _ _ _ _) as [kd r]. cbn [fst snd] in Hf.
    pose proof (fun key => apply_v4_flow Sendmsg4 t a r key (or_intror eq_refl)) as Ho. destruct (apply_v4 a r) as [a' ret]. by eapply decided_keeps.
  - destruct (enter_enforced t k true) as [k1 st]. cbn [fst] in Hen. pose proof (policy_routes _ _ (proj1 Hen) Hok) as Hok1.
    eapply (keeps_trans _ _ k1); [by apply keeps_eq|]. destruct (is_ipv6_loopback a); [destruct st; by apply keeps_eq|].
    destruct (is_ipv4_mapped a); [|destruct st; [by apply keeps_eq|apply native_keeps..]]. destruct (negb _ && negb _); [destruct st; by apply keeps_eq|].
    destruct st; cbn [fst]; [by apply keeps_eq|apply keeps_eq, submit_frame|].
    pose proof (connect_frames t k1 (sa_type a) cfg (t_cgroup t) (mapped_ip a) (ntohs (user_port a)) Hok1) as Hf. destruct (decide_connect _ _ _ _ _ _ _) as [kd r]. cbn [fst snd] in Hf.
    pose proof (fun key => apply_v6_flow Connect6 t a r key (or_introl eq_refl)) as Ho. destruct (apply_v6_mapped a r) as [a' ret]. by eapply decided_keeps.
  - destruct (enter_enforced t k true) as [k1 st]. cbn [fst] in Hen. pose proof (policy_routes _ _ (proj1 Hen) Hok) as Hok1.
    eapply (keeps_trans _ _ k1); [by apply keeps_eq|]. destruct (is_ipv6_loopback a); [destruct st; by apply keeps_eq|].
    destruct (is_ipv4_mapped a); [|destruct st; [by apply keeps_eq|apply native_keeps..]].
    destruct st; cbn [fst]; [by apply keeps_eq|apply keeps_eq, submit_frame|].
    pose proof (sendmsg_frames t k1 cfg (t_cgroup t) (mapped_ip a) (ntohs (user_port a)) Hok1) as Hf. destruct (decide_sendmsg _ _ _ _ _ _ _) as [kd r]. cbn [fst snd] in Hf.
    pose proof (fun key => apply_v6_flow Sendmsg6 t a r key (or_intror eq_refl)) as Ho. destruct (apply_v6_mapped a r) as [a' ret]. by eapply decided_keeps.
Qed.

(** ** The way back *)

(** Later runs of any programs, by any task. *)
Definition action : Type := program * task * sock_addr.
Definition runs (k : Kernel) (l : list action) : Kernel := foldl (fun k '(p, t, a) => (run p t k a).1.1) k l.
(** None of them evicts a flow, or redirects the same socket to the same backend. *)
Fixpoint undisturbed (key : flow_key) (k : Kernel) (l : list action) : Prop :=
  match l with
  | [] => True
  | (p, t, a) :: l => (key ∉ t_evicted t) /\ flow_at p t (run p t k a).1.2 <> key /\ undisturbed key (run p t k a).1.1 l
  end.
Lemma runs_keep key k l : route_ports_ok k -> undisturbed key k l -> policy (runs k l) = policy k /\ flows (runs k l) !! key = flows k !! key.
Proof.
  revert k. induction l as [|[[p t] a] l IH]; intros k Hok; [done|]. cbn [undisturbed runs foldl]. intros (He & Hne & Hu). destruct (run_keeps p t k a Hok) as [Hp Hf].
  fold (runs (run p t k a).1.1 l). destruct (IH _ (policy_routes _ _ Hp Hok) Hu) as [Hp' Hf']. split; [congruence|]. rewrite Hf'. apply Hf; [done|]. congruence.
Qed.

Definition receive (p : program) : task -> Kernel -> sock_addr -> ran := match p with Connect4 | Sendmsg4 => clawker_recvmsg4 | Connect6 | Sendmsg6 => clawker_recvmsg6 end.

(** What a decision that redirects a datagram records. *)
Definition recorded (t : task) (k : Kernel) (cfg : ContainerConfig) (ip port : Z) (r : route_verdict) : Prop :=
  match r with
  | V_REWRITE to nport =>
      if port =? DNS_PORT then to = CorednsIp cfg /\ nport = htons DNS_PORT
      else to = EnvoyIp cfg /\ flows k !! (t_cookie t, EnvoyIp cfg, ntohs nport) = Some (ip, htons port)
  | _ => True
  end.
Lemma route_udp_recorded t k cfg cg ip port : t_cookie t <> 0 -> route_ports_ok k -> port <> DNS_PORT ->
  recorded t (route_udp t k cfg cg ip port (t_cookie t)).1 cfg ip port (route_udp t k cfg cg ip port (t_cookie t)).2.
Proof.
  intros Hc Hok Hd. unfold route_udp. fold (resolved_route k ip port SOCK_DGRAM). pose proof (resolved_routed k ip port SOCK_DGRAM) as Hr. set (ep := resolved_route k ip port SOCK_DGRAM) in *.
  destruct (Z.eqb_spec ep 0) as [E|E]; cbn [negb fst snd recorded]; [done|]. rewrite (proj2 (Z.eqb_neq _ _) Hd). split; [done|]. rewrite htons_ntohs by (eapply routed_port_ok; [done|by apply Hr]).
  unfold record_udp_flow. rewrite (proj2 (Z.eqb_neq _ _) Hc). apply lookup_insert_eq.
Qed.
Lemma decision_recorded p t k cfg a ip :
  t_mark t <> CLAWKER_MARK -> t_cookie t <> 0 -> route_ports_ok k -> l4_of p a = SOCK_DGRAM -> (is_connect p = true -> ip <> GatewayIp cfg) ->
  recorded t (decision p t k cfg a ip).1 cfg ip (ntohs (user_port a)) (decision p t k cfg a ip).2.
Proof.
  intros Hm Hc Hok Hl Hg. pose proof (route_udp_recorded t k cfg (t_cgroup t) ip (ntohs (user_port a)) Hc Hok) as Hr. destruct (Z.eqb_spec (ntohs (user_port a)) DNS_PORT) as [Ed|Ed].
  - destruct p; cbn in Hl |- *; unfold decide_connect, decide_sendmsg; rewrite ?(proj2 (Z.eqb_neq _ _) Hm), Ed; cbn; done.
  - specialize (Hr Ed). destruct p; cbn in Hl, Hg |- *; unfold decide_connect, decide_sendmsg; rewrite ?Hl, (proj2 (Z.eqb_neq _ _) Ed), ?(proj2 (Z.eqb_neq _ _) (Hg eq_refl)), ?Z.eqb_refl; by repeat case_match.
Qed.

Lemma applied_redirect p a r : (applied p a r).1 <> a -> exists ip port, r = V_REWRITE ip port.
Proof. destruct r; [by destruct p|eauto|by destruct p]. Qed.
Lemma set_dst_flow p t a ip port : flow_at p t (set_dst p a ip port) = (t_cookie t, ip, ntohs port).
Proof. destruct p; cbn; unfold flow_at; [done|done|..]; by destruct (mapped_set a ip port) as [-> ->]. Qed.
Lemma set_dst_back p a ip port ip' port' : dst_ip p a = Some ip' -> user_port a = port' -> set_dst p (set_dst p a ip port) ip' port' = a.
Proof.
  intros Hi <-. destruct p; cbn in *; destruct a as [ty i4 [[[w0 w1] w2] w3] up]; cbn in *; try (destruct (_ && _); [|done]); by simplify_eq.
Qed.
Lemma set_dst_mapped p a ip port ip' : dst_ip p a = Some ip' -> dst_ip p (set_dst p a ip port) = Some ip.
Proof.
  destruct p; cbn; [done|done|..]; (destruct (is_ipv4_mapped a) eqn:Em; [|done]); intros _; unfold set_mapped, is_ipv4_mapped, mapped_ip in *; destruct (user_ip6 a) as [[[w0 w1] w2] w3]; cbn; by rewrite Em.
Qed.

Lemma set_dst_port p a ip port : user_port (set_dst p a ip port) = port.
Proof. destruct p; [done|done|..]; apply mapped_set. Qed.
Lemma set_dst_twice p a ip port ip' port' : set_dst p (set_dst p a ip port) ip' port' = set_dst p a ip' port'.
Proof. destruct p; cbn; [done|done|..]; unfold set_mapped; by destruct (user_ip6 a) as [[[w0 w1] w2] w3]. Qed.
(** A datagram from CoreDNS, received on any socket of the container. *)
Lemma receive_dns p t k cfg a :
  t_uid t <> 0 -> container_map (maps k) !! t_cgroup t = Some cfg -> dst_ip p a = Some (CorednsIp cfg) -> ntohs (user_port a) = DNS_PORT ->
  receive p t k a = (k, set_dst p a (htonl DOCKER_EMBEDDED_DNS) (htons DNS_PORT), 1).
Proof.
  intros Hu Hc Hi Hp. assert (enter_enforced t k false = (k, ENTER_ENFORCED cfg)) as He by (unfold enter_enforced; by rewrite (proj2 (Z.eqb_neq _ _) Hu), Hc).
  destruct p; cbn in Hi |- *; unfold clawker_recvmsg4, clawker_recvmsg6; rewrite He; try (destruct (is_ipv4_mapped a) eqn:Em; [|done]); injection Hi as Hi;
    unfold restore_v4_reply_source, restore_v6_mapped_reply_source, should_rewrite_dns_source; rewrite Hi, Hp, !Z.eqb_refl; reflexivity.
Qed.
(** A datagram from Envoy, received on a socket with a flow from there. *)
Lemma receive_flow p t k cfg a port ip' port' :
  t_uid t <> 0 -> container_map (maps k) !! t_cgroup t = Some cfg -> t_cookie t <> 0 -> EnvoyIp cfg <> CorednsIp cfg ->
  dst_ip p a = Some (EnvoyIp cfg) -> ntohs (user_port a) = port -> flows k !! (t_cookie t, EnvoyIp cfg, port) = Some (ip', port') ->
  receive p t k a = (k, set_dst p a ip' port', 1).
Proof.
  intros Hu Hc Hck Hne Hi <- Hf. assert (enter_enforced t k false = (k, ENTER_ENFORCED cfg)) as He by (unfold enter_enforced; by rewrite (proj2 (Z.eqb_neq _ _) Hu), Hc).
  unfold flows in Hf. destruct p; cbn in Hi |- *; unfold clawker_recvmsg4, clawker_recvmsg6; rewrite He; try (destruct (is_ipv4_mapped a) eqn:Em; [|done]); injection Hi as Hi;
    unfold restore_v4_reply_source, restore_v6_mapped_reply_source, should_rewrite_dns_source, lookup_udp_flow_source; rewrite Hi, (proj2 (Z.eqb_neq _ _) Hne), Z.eqb_refl, (proj2 (Z.eqb_neq _ _) Hck), Hf; reflexivity.
Qed.

(** ** The event channel *)

(** A run submits at most one event, with the cgroup of its task, and touches the
    buckets and the ring buffer in no other way. *)
Definition channel (k : Kernel) := (ratelimit_state (maps k), events_ringbuf k).
Inductive submits (t : task) (k : Kernel) : Kernel -> Prop :=
  | sub_none k' : channel k' = channel k -> submits t k k'
  | sub_one k1 ev : channel k1 = channel k -> ev_cgroup_id ev = t_cgroup t -> submits t k (submit t k1 (t_cgroup t) ev).

Lemma enter_channel t k cb : channel (enter_enforced t k cb).1 = channel k.
Proof. unfold enter_enforced. by repeat case_match. Qed.
Lemma route_udp_channel t k cfg cg ip port c : channel (route_udp t k cfg cg ip port c).1 = channel k.
Proof. unfold route_udp, record_udp_flow. by repeat case_match. Qed.
Lemma connect_channel t k ty cfg cg ip port : channel (decide_connect t k ty cfg cg ip port).1 = channel k.
Proof. unfold decide_connect. repeat case_match; try done. apply route_udp_channel. Qed.
Lemma sendmsg_channel t k cfg cg ip port c : channel (decide_sendmsg t k cfg cg ip port c).1 = channel k.
Proof. unfold decide_sendmsg. repeat case_match; try done. apply route_udp_channel. Qed.
Lemma v6_submits t k k1 ip port l4 v fl : channel k1 = channel k -> submits t k (submit_event_v6 t k1 (t_cgroup t) ip port l4 v fl).
Proof. intros H. unfold submit_event_v6. destruct ip as [[[w0 w1] w2] w3]. by apply sub_one. Qed.
Lemma native_submits t k k1 st a fl : channel k1 = channel k -> submits t k (native_v6 t k1 st a fl).1.1.
Proof. intros H. unfold native_v6. destruct st; by apply v6_submits. Qed.
Lemma run_submits p t k a : submits t k (run p t k a).1.1.
Proof.
  pose proof (enter_channel t k true) as Hen. destruct p; cbn [run]; unfold clawker_connect4, clawker_sendmsg4, clawker_connect6, clawker_sendmsg6;
    try (destruct (negb _ && negb _); [by apply sub_none|]); destruct (enter_enforced t k true) as [k1 st]; cbn [fst] in Hen.
  - destruct st; [by apply sub_none|by apply sub_one|]. pose proof (connect_channel t k1 (sa_type a) cfg (t_cgroup t) (user_ip4 a) (ntohs (user_port a))) as Hd.
    destruct (decide_connect _ _ _ _ _ _ _) as [kd r]. destruct (apply_v4 a r). apply sub_one; [|done]. by rewrite <- Hen.
  - destruct st; [by apply sub_none|by apply sub_one|]. pose proof (sendmsg_channel t k1 cfg (t_cgroup t) (user_ip4 a) (ntohs (user_port a)) (t_cookie t)) as Hd.
    destruct (decide_sendmsg _ _ _ _ _ _ _) as [kd r]. destruct (apply_v4 a r). apply sub_one; [|done]. by rewrite <- Hen.
  - destruct (is_ipv6_loopback a); [destruct st; by apply sub_none|]. destruct (is_ipv4_mapped a); [|destruct st; [by apply sub_none|by apply native_submits..]].
    destruct (negb _ && negb _); [destruct st; by apply sub_none|].
    destruct st; [by apply sub_none|by apply sub_one|]. pose proof (connect_channel t k1 (sa_type a) cfg (t_cgroup t) (mapped_ip a) (ntohs (user_port a))) as Hd.
    destruct (decide_connect _ _ _ _ _ _ _) as [kd r]. destruct (apply_v6_mapped a r). apply sub_one; [|done]. by rewrite <- Hen.
  - destruct (is_ipv6_loopback a); [destruct st; by apply sub_none|]. destruct (is_ipv4_mapped a); [|destruct st; [by apply sub_none|by apply native_submits..]].
    destruct st; [by apply sub_none|by apply sub_one|]. pose proof (sendmsg_channel t k1 cfg (t_cgroup t) (mapped_ip a) (ntohs (user_port a)) (t_cookie t)) as Hd.
    destruct (decide_sendmsg _ _ _ _ _ _ _) as [kd r]. destruct (apply_v6_mapped a r). apply sub_one; [|done]. by rewrite <- Hen.
Qed.

(** The budget of a cgroup: what it spent since [since] and what its bucket is worth never
    exceed one burst, one more for every refill interval up to some moment [g], and two
    for each write of another CPU or eviction.  A bucket is worth its tokens, and another
    burst when its last refill is said to be before [g] or in the future, since then it
    may be refilled at once. *)
Definition spent (k : Kernel) (cg : Z) : Z := Z.of_nat (length (filter (fun ev => ev_cgroup_id ev = cg) (events_ringbuf k))).
Definition allowance (elapsed : Z) : Z := RATELIMIT_BURST * (1 + elapsed / RATELIMIT_REFILL_NS).
Definition one {A} (o : option A) : Z := match o with Some _ => 1 | None => 0 end.
Definition foreign (o : others) : Z := one (o_bucket o) + one (o_insert o) + one (o_tokens o) + Z.of_nat (length (o_cas o)).
Definition is_u64 (n : Z) : Prop := 0 <= n < 2 ^ 64.
Definition bucket_ok (st : Z * Z) : Prop := is_u64 st.1 /\ is_u64 st.2.
Definition others_ok (o : others) : Prop :=
  (forall st, o_bucket o = Some (Some st) -> bucket_ok st) /\ (forall st, o_insert o = Some st -> bucket_ok st) /\ (forall n, o_tokens o = Some n -> is_u64 n) /\ Forall is_u64 (o_cas o).

Definition usable (tokens : Z) : Z := if tokens <=? RATELIMIT_BURST then tokens else 0.
Definition worth (g now : Z) (st : Z * Z) : Z := usable st.2 + (if (g <=? st.1) && (st.1 <=? now) then 0 else RATELIMIT_BURST).
Definition budget (since g writes : Z) : Z := allowance (g - since) + 2 * RATELIMIT_BURST * writes.
Definition within_budget (since now writes cg : Z) (k : Kernel) : Prop :=
  match ratelimit_state (maps k) !! cg with
  | None => spent k cg = 0
  | Some st => bucket_ok st /\ exists g, since <= g <= now /\ spent k cg + worth g now st <= budget since g writes
  end.

Lemma allowance_mono a b : a <= b -> allowance a <= allowance b.
Proof. intros H. unfold allowance, RATELIMIT_BURST, RATELIMIT_REFILL_NS. pose proof (Z.div_le_mono a b 100000000 ltac:(lia) H). lia. Qed.
Lemma allowance_first n : 0 <= n -> RATELIMIT_BURST <= allowance n.
Proof. intros H. change RATELIMIT_BURST with (allowance 0). by apply allowance_mono. Qed.
Lemma usable_bounds n : 0 <= n -> 0 <= usable n <= RATELIMIT_BURST.
Proof. unfold usable, RATELIMIT_BURST. destruct (Z.leb_spec n 64); lia. Qed.
Lemma worth_bounds g now st : bucket_ok st -> 0 <= worth g now st <= 2 * RATELIMIT_BURST.
Proof. intros [_ [H _]]. pose proof (usable_bounds st.2 H). unfold worth, RATELIMIT_BURST in *. destruct (_ && _); lia. Qed.
Lemma worth_later g now now' st : now <= now' -> worth g now' st <= worth g now st.
Proof. intros H. unfold worth, RATELIMIT_BURST. destruct (Z.leb_spec g st.1), (Z.leb_spec st.1 now), (Z.leb_spec st.1 now'); cbn; lia. Qed.
Lemma within_budget_spent since now writes cg k : since <= now -> 0 <= writes -> within_budget since now writes cg k -> spent k cg <= budget since now writes.
Proof.
  intros Hs Hw. unfold within_budget, budget. destruct (ratelimit_state (maps k) !! cg) as [st|].
  - intros (Hb & g & Hg & H). pose proof (worth_bounds g now st Hb). pose proof (allowance_mono (g - since) (now - since) ltac:(lia)). unfold RATELIMIT_BURST in *. lia.
  - intros ->. pose proof (allowance_first (now - since) ltac:(lia)). unfold RATELIMIT_BURST in *. lia.
Qed.
Lemma within_budget_later since now now' writes writes' cg k : now <= now' -> writes <= writes' -> within_budget since now writes cg k -> within_budget since now' writes' cg k.
Proof.
  intros Hn Hw. unfold within_budget. destruct (ratelimit_state (maps k) !! cg) as [st|]; [|done]. intros (Hb & g & Hg & H). split; [done|]. exists g. split; [lia|].
  pose proof (worth_later g now now' st Hn). unfold budget, RATELIMIT_BURST in *. lia.
Qed.
Lemma within_budget_channel since now writes cg k k' : channel k' = channel k -> within_budget since now writes cg k -> within_budget since now writes cg k'.
Proof. intros E. injection E as E1 E2. unfold within_budget, spent. by rewrite E1, E2. Qed.

(** A refill brings the tokens to a burst at most, whatever they were. *)
Lemma topup_tokens tokens : is_u64 tokens ->
  0 <= u64 (tokens + (if RATELIMIT_BURST <? u64 (tokens + RATELIMIT_TOKENS_PER) then u64 (RATELIMIT_BURST - tokens) else RATELIMIT_TOKENS_PER)) <= RATELIMIT_BURST.
Proof.
  unfold is_u64, u64, RATELIMIT_BURST, RATELIMIT_TOKENS_PER. intros H. destruct (Z.ltb_spec 64 ((tokens + 64) mod 2 ^ 64)) as [Hb|Hb].
  - rewrite Zplus_mod_idemp_r. replace (tokens + (64 - tokens)) with 64 by lia. by vm_compute.
  - split; [apply Z.mod_pos_bound; lia|done].
Qed.
Lemma topup_budget since now st s writes :
  0 <= since <= now -> now < 2 ^ 64 -> bucket_ok st -> (exists g, since <= g <= now /\ s + worth g now st <= budget since g writes) ->
  bucket_ok (topup now st) /\ exists g, since <= g <= now /\ s + worth g now (topup now st) <= budget since g writes.
Proof.
  intros Hs Hn [Hl Ht] (g & Hg & H). destruct st as [last tokens]. cbn in Hl, Ht. unfold topup. destruct (Z.leb_spec RATELIMIT_REFILL_NS (u64 (now - last))) as [Hr|Hr]; [|split; [by split|by exists g]].
  pose proof (topup_tokens tokens Ht) as Htok. set (tokens' := u64 (tokens + _)) in *. clearbody tokens'.
  split; [split; cbn; unfold is_u64, RATELIMIT_BURST in *; lia|]. exists now. split; [lia|].
  pose proof (usable_bounds tokens ltac:(unfold is_u64 in Ht; lia)). pose proof (usable_bounds tokens' ltac:(lia)). unfold worth, budget in *. cbn [fst snd] in *. rewrite !Z.leb_refl. cbn [andb].
  destruct (Z.leb_spec g last), (Z.leb_spec last now); cbn [andb] in H; try (pose proof (allowance_mono (g - since) (now - since) ltac:(lia)); lia).
  unfold u64 in Hr. rewrite Z.mod_small in Hr by (unfold is_u64 in Hl; lia). unfold allowance, RATELIMIT_BURST, RATELIMIT_REFILL_NS in *.
  assert ((g - since) / 100000000 + 1 <= (now - since) / 100000000) by (rewrite <- Z.div_add by lia; apply Z.div_le_mono; lia). lia.
Qed.
Lemma cas_budget n seen cur rest ok : is_u64 cur -> Forall is_u64 seen -> cas_loop n seen cur = (rest, ok) ->
  is_u64 rest /\ usable rest + (if ok then 1 else 0) <= usable cur + RATELIMIT_BURST * Z.of_nat (length seen).
Proof.
  revert seen cur. induction n as [|n IH]; intros seen cur Hc Hs; cbn [cas_loop].
  - intros [= <- <-]. split; [done|]. unfold RATELIMIT_BURST. lia.
  - pose proof (usable_bounds cur ltac:(unfold is_u64 in Hc; lia)) as Hu. destruct ((cur =? 0) || (RATELIMIT_BURST <? cur)) eqn:E.
    + intros [= <- <-]. destruct (RATELIMIT_BURST <? cur); [change (usable 0) with 0|]; (split; [done || (unfold is_u64; lia)|unfold RATELIMIT_BURST in *; lia]).
    + apply orb_false_iff in E as [E1%Z.eqb_neq E2%Z.ltb_ge]. assert (is_u64 (cur - 1) /\ usable (cur - 1) + 1 = usable cur) as [Ht1 Ht2].
      { unfold is_u64, usable, RATELIMIT_BURST in *. destruct (Z.leb_spec (cur - 1) 64), (Z.leb_spec cur 64); lia. }
      destruct seen as [|v seen]; [intros [= <- <-]; split; [done|unfold RATELIMIT_BURST; lia]|]. apply Forall_cons in Hs as [Hv Hs]. destruct (v =? cur).
      * intros [= <- <-]. split; [done|]. unfold RATELIMIT_BURST. lia.
      * intros Hcas. destruct (IH seen v Hv Hs Hcas) as [H1 H2]. split; [done|]. pose proof (usable_bounds v ltac:(unfold is_u64 in Hv; lia)). cbn [length]. unfold RATELIMIT_BURST in *. lia.
Qed.
Lemma spent_snoc k m ev cg : spent (mkKernel m (metrics_map k) (events_ringbuf k ++ [ev]) (events_drops k)) cg = spent k cg + (if bool_decide (ev_cgroup_id ev = cg) then 1 else 0).
Proof. unfold spent. cbn. rewrite filter_app, length_app. cbn. case_decide; case_bool_decide; cbn; lia || done. Qed.

Lemma take_other t m cg cg' : cg' <> cg -> ratelimit_state (ratelimit_check_and_take t m cg).1 !! cg' = ratelimit_state m !! cg'.
Proof.
  intros Hne. unfold ratelimit_check_and_take. destruct (default _ _); [destruct (topup _ _), (cas_loop _ _ _) as [? []]|]; cbn; by rewrite lookup_insert_ne.
Qed.
(** What a run takes of its own bucket. *)
Definition budget_after (since now writes s : Z) (b : option (Z * Z)) : Prop :=
  match b with None => s = 0 | Some st => bucket_ok st /\ exists g, since <= g <= now /\ s + worth g now st <= budget since g writes end.
Lemma take_own since t m cg s now writes :
  0 <= since <= now -> now <= t_now t < 2 ^ 64 -> 0 <= writes -> 0 <= s -> others_ok (t_others t) -> s <= budget since now writes -> budget_after since now writes s (ratelimit_state m !! cg) ->
  let '(m', ok) := ratelimit_check_and_take t m cg in
  exists st, ratelimit_state m' !! cg = Some st /\ budget_after since (t_now t) (writes + foreign (t_others t)) (s + (if ok then 1 else 0)) (Some st).
Proof.
  intros Hs Hn Hw Hs0 (O1 & O2 & O3 & O4) Hspent Hb. unfold ratelimit_check_and_take, foreign. destruct (t_others t) as [ob oi ot oc]. cbn [o_bucket o_insert o_tokens o_cas] in *.
  set (b0 := default (ratelimit_state m !! cg) ob). set (w0 := writes + one ob).
  assert (s <= budget since (t_now t) writes) as Hsn by (pose proof (allowance_mono (now - since) (t_now t - since) ltac:(lia)); unfold budget in *; lia).
  assert (match b0 with None => s + RATELIMIT_BURST <= budget since (t_now t) w0 | Some st => bucket_ok st /\ exists g, since <= g <= t_now t /\ s + worth g (t_now t) st <= budget since g w0 end) as H0.
  { unfold b0, w0. destruct ob as [[st|]|]; cbn [from_option id one].
    - specialize (O1 st eq_refl). split; [done|]. exists (t_now t). split; [lia|]. pose proof (worth_bounds (t_now t) (t_now t) st O1). unfold budget, RATELIMIT_BURST in *. lia.
    - unfold budget, RATELIMIT_BURST in *. lia.
    - rewrite Z.add_0_r. destruct (ratelimit_state m !! cg) as [st|]; cbn in Hb |- *.
      + destruct Hb as (Hst & g & Hg & H). split; [done|]. exists g. split; [lia|]. pose proof (worth_later g now (t_now t) st ltac:(lia)). lia.
      + rewrite Hb. pose proof (allowance_first (t_now t - since) ltac:(lia)). unfold budget, RATELIMIT_BURST in *. lia. }
  clearbody b0. destruct b0 as [st|].
  - destruct H0 as [Hst Hg]. destruct (topup_budget since (t_now t) st s w0 ltac:(lia) ltac:(lia) Hst Hg) as [Hst' (g & Hg' & H)]. destruct (topup (t_now t) st) as [last tokens].
    set (cur := default tokens ot). assert (is_u64 cur /\ usable cur <= usable tokens + RATELIMIT_BURST * one ot) as [Hc1 Hc2].
    { destruct Hst' as [_ Ht]. cbn in Ht. pose proof (usable_bounds tokens ltac:(unfold is_u64 in Ht; lia)). unfold cur. destruct ot as [n|]; cbn [from_option id one]; [|split; [done|unfold RATELIMIT_BURST; lia]].
      specialize (O3 n eq_refl). pose proof (usable_bounds n ltac:(unfold is_u64 in O3; lia)). split; [done|unfold RATELIMIT_BURST in *; lia]. }
    destruct (cas_loop _ _ _) as [rest ok] eqn:Ec. destruct (cas_budget _ _ _ _ _ Hc1 O4 Ec) as [Hl1 Hl2].
    exists (last, rest). split; [destruct ok; apply lookup_insert_eq|]. split; [split; [apply Hst'|done]|]. exists g. split; [done|]. unfold worth, budget, w0 in *. cbn [fst snd] in *.
    destruct oi, ot, ob; cbn [one] in *; unfold RATELIMIT_BURST in *; destruct (_ && _), ok; lia.
  - exists (default (t_now t, RATELIMIT_BURST - 1) oi). split; [apply lookup_insert_eq|]. change (if true then 1 else 0) with 1. unfold budget, w0 in *. destruct oi as [st|]; cbn [from_option id one] in *.
    + specialize (O2 st eq_refl). split; [done|]. exists (t_now t). split; [lia|]. pose proof (worth_bounds (t_now t) (t_now t) st O2). unfold budget. destruct ot, ob; cbn [one] in *; unfold RATELIMIT_BURST in *; lia.
    + split; [split; cbn; unfold is_u64, RATELIMIT_BURST; lia|]. exists (t_now t). split; [lia|]. unfold worth. cbn [fst snd]. rewrite !Z.leb_refl. cbn [andb]. change (usable (RATELIMIT_BURST - 1)) with 63.
      unfold budget. destruct ot, ob; cbn [one] in *; unfold RATELIMIT_BURST in *; lia.
Qed.
Definition writes_of (cg : Z) (t : task) : Z := if bool_decide (t_cgroup t = cg) then foreign (t_others t) else 0.
Lemma foreign_nonneg o : 0 <= foreign o.
Proof. unfold foreign, one. destruct (o_bucket o), (o_insert o), (o_tokens o); lia. Qed.
Lemma submit_budget since now writes cg t k ev :
  0 <= since <= now -> now <= t_now t < 2 ^ 64 -> 0 <= writes -> others_ok (t_others t) -> ev_cgroup_id ev = t_cgroup t ->
  within_budget since now writes cg k -> within_budget since (t_now t) (writes + writes_of cg t) cg (submit t k (t_cgroup t) ev).
Proof.
  intros Hs Hn Hw0 Ho Hev Hw. unfold submit, writes_of. case_bool_decide as Ecg.
  - subst cg. pose proof (within_budget_spent since now writes _ k ltac:(lia) Hw0 Hw) as Hsp.
    pose proof (take_own since t (maps k) (t_cgroup t) (spent k (t_cgroup t)) now writes Hs Hn Hw0 ltac:(unfold spent; lia) Ho Hsp Hw) as H.
    destruct (ratelimit_check_and_take t (maps k) (t_cgroup t)) as [m ok]. destruct H as (st & Hl & Hb & g & Hg & Hle).
    destruct ok; cbn [negb]; [destruct (t_reserved t)|]; unfold within_budget; cbn [maps with_maps]; rewrite Hl; (split; [done|]; exists g; split; [done|]).
    + by rewrite spent_snoc, bool_decide_eq_true_2 by done.
    + unfold spent in *. cbn. lia.
    + unfold spent in *. cbn. lia.
  - pose proof (take_other t (maps k) (t_cgroup t) cg (not_eq_sym Ecg)) as H. destruct (ratelimit_check_and_take t (maps k) (t_cgroup t)) as [m ok]. cbn in H.
    apply (within_budget_later since now (t_now t) writes (writes + 0)) in Hw; [|lia..]. unfold within_budget in *. rewrite <- H in Hw.
    destruct ok; cbn [negb]; [destruct (t_reserved t)|]; cbn [maps with_maps]; [|exact Hw..]. rewrite spent_snoc, bool_decide_eq_false_2 by congruence. by rewrite Z.add_0_r.
Qed.

(** Runs whose clock readings grow from [now] up to [until]. *)
Fixpoint clocked (now until : Z) (l : list action) : Prop := match l with [] => now <= until | (_, t, _) :: l => now <= t_now t /\ clocked (t_now t) until l end.
Lemma clocked_le now until l : clocked now until l -> now <= until.
Proof. revert now. induction l as [|[[p t] a] l IH]; intros now; [done|]. cbn. intros [H1 H2%IH]. lia. Qed.
(** The writes to a container's bucket that come between its runs and them. *)
Fixpoint interference (cg : Z) (l : list action) : Z := match l with [] => 0 | (_, t, _) :: l => writes_of cg t + interference cg l end.
Lemma runs_budget since now until writes cg k l :
  0 <= since <= now -> until < 2 ^ 64 -> clocked now until l -> Forall (fun x => others_ok (t_others x.1.2)) l -> 0 <= writes ->
  within_budget since now writes cg k -> within_budget since until (writes + interference cg l) cg (runs k l).
Proof.
  intros Hs Hu. revert now writes k Hs. induction l as [|[[p t] a] l IH]; intros now writes k Hs; cbn [clocked runs foldl interference].
  { intros Hc _ Hw. apply within_budget_later; lia. }
  intros [Hn Hc] [Ho Hos]%Forall_cons Hw0 Hw. cbn in Ho. pose proof (clocked_le _ _ _ Hc). assert (0 <= writes_of cg t) by (unfold writes_of; case_bool_decide; [apply foreign_nonneg|lia]).
  rewrite Z.add_assoc. apply (IH (t_now t)); [lia|done|done|lia|]. destruct (run_submits p t k a) as [k' E|k1 ev E Hev].
  - eapply within_budget_channel; [exact E|]. eapply within_budget_later; [| |exact Hw]; lia.
  - eapply submit_budget; [exact Hs|lia|done|done|done|]. by eapply within_budget_channel.
Qed.

(** ** Theorems *)




(** ** Instances *)

Definition demo_net : ContainerConfig := mkConfig 0x0200000A 0x0300000A 0x0100000A 0x0000000A 0x0000FFFF 0 0 10000.
(** 93.184.216.34, resolved from a name with a datagram route. *)
Definition demo_dst : Z := 0x22D8B85D.
Definition demo_maps : Manager := mkManager {[5 := demo_net]} ∅ {[(7, 8125, SOCK_DGRAM) := 10200]} {[demo_dst := mkDns 7 0]} ∅ ∅ ∅ ∅ ∅ ∅.
Definition demo_kernel : Kernel := mkKernel demo_maps ∅ [] 0.
Definition demo_task : task := mkTask 1000 5 0 77 1000 true ∅ no_others.
Definition demo_addr : sock_addr := mkAddr SOCK_DGRAM demo_dst (0, 0, 0, 0) (htons 8125).
Lemma demo_enforced : enforced demo_task demo_kernel demo_net.
Proof. by split. Qed.



(** A hundred sends at one moment; before the last one the map has evicted the bucket. *)
Definition evicted_task : task := mkTask 1000 5 0 77 1000 true ∅ (mkOthers (Some None) None None []).
End BpfSpec.
