(* ===== verification/NetLogger.v ===== *)
(** * The egress logger

    controlplane/firewall/ebpf/netlogger: records of the ring buffer are read into
    a bounded queue, decoded, labelled with the container and the name behind
    them, and handed to the collector through a circuit breaker. *)

From S2P Require Import Prelude GoStrings GoNet Routes EbpfApi Ebpf Bpf.
Import Go Routes EbpfApi Ebpf Bpf.

Module NetLogger.

(** ** Records (event.go) *)

(** [struct egress_event] in memory, on a little-endian CPU. *)
Fixpoint le_bytes (n : nat) (v : Z) : list Z := match n with O => [] | S n => v mod 256 :: le_bytes n (v / 256) end.
Definition record_bytes (ev : egress_event) : list Z :=
  le_bytes 8 (ev_ts_ns ev) ++ le_bytes 8 (ev_cgroup_id ev) ++ concat (le_bytes 4 <$> ev_dst_ip ev) ++ le_bytes 4 (ev_domain_hash ev) ++ le_bytes 2 (ev_dst_port ev) ++
  le_bytes 1 (ev_verdict ev) ++ le_bytes 1 (ev_flags ev) ++ le_bytes 1 (ev_l4_proto ev) ++ replicate 7 0.
Definition record_size : Z := 48.

(** The constants of ebpf/types.go. *)
Definition EgressVerdictAllowed : Z := 0.
Definition EgressVerdictDenied : Z := 1.
Definition EgressVerdictBypassed : Z := 2.
Definition EgressFlagIPv6 : Z := 1.
Definition EgressFlagIPv4Mapped : Z := 2.
Definition EgressFlagNoDst : Z := 4.
Definition EgressEmitConnect : Z := 0.
Definition EgressEmitSendmsg : Z := 8.
Definition EgressEmitSockCreate : Z := 16.
Definition EgressEmitMask : Z := 24.

Definition Verdict_String (v : Z) : string :=
  if v =? EgressVerdictAllowed then "allowed" else if v =? EgressVerdictDenied then "denied" else if v =? EgressVerdictBypassed then "bypassed" else "unknown(" +:+ Itoa v +:+ ")".
Definition EventName (s : Z) : string :=
  if s =? Z.shiftr EgressEmitConnect 3 then "ebpf.egress.connect" else if s =? Z.shiftr EgressEmitSendmsg 3 then "ebpf.egress.sendmsg"
  else if s =? Z.shiftr EgressEmitSockCreate 3 then "ebpf.egress.sock_create" else "ebpf.egress.unknown(" +:+ Itoa s +:+ ")".

(** The zero address is [None]. *)
Record Event := mkEv {
  Timestamp : Z; BPFTsNs : Z; CgroupID : Z; ContainerID : string; Agent : string; Project : string; DstIP : option GoNet.Addr; DstPort : Z; L4Proto : Z;
  IsIPv6 : bool; IsMapped : bool; NoDst : bool; EmitSite : Z; DomainHashOf : Z; Domain : string; Verdict : Z;
}.

(** [netip.AddrFrom16(b).Unmap()]. *)
Definition AddrFrom16_Unmap (b : list Z) : GoNet.Addr := let a := GoNet.Addr6 b "" in match GoNet.To4 a with Some v4 => GoNet.Addr4 v4 | None => a end.

(** [binary.Read] fills the fields in the order of the struct. *)
Definition field (off n : nat) (raw : list Z) : Z := le_value (take n (drop off raw)).
Inductive ParseError := ShortRecord (len : Z).
Definition parseEvent (now : Z) (raw : list Z) : result ParseError Event :=
  if Z.of_nat (length raw) <? record_size then Err (ShortRecord (Z.of_nat (length raw)))
  else
    let dst := take 16 (drop 16 raw) in let flags := field 39 1 raw in
    let isIPv6 := negb (Z.land flags EgressFlagIPv6 =? 0) in let noDst := negb (Z.land flags EgressFlagNoDst =? 0) in
    Ok (mkEv now (field 0 8 raw) (field 8 8 raw) "" "" "" (if noDst then None else if isIPv6 then Some (AddrFrom16_Unmap dst) else Some (GoNet.Addr4 (take 4 dst)))
          (field 36 2 raw) (field 40 1 raw) isIPv6 (negb (Z.land flags EgressFlagIPv4Mapped =? 0)) noDst (Z.shiftr (Z.land flags EgressEmitMask) 3) (field 32 4 raw) "" (field 38 1 raw)).

(** ** Labels (cache.go) *)

Record labelEntry := mkEntry { cgroupID : Z; containerID : string; agent : string; project : string; invalid : bool }.
Definition zero_entry (inv : bool) : labelEntry := mkEntry 0 "" "" "" inv.
Record LabelCache := mkCache { entries : list labelEntry; free : list nat; byCgroup : gmap Z nat; byCont : gmap string nat }.
Definition NewLabelCache : LabelCache := mkCache [] [] ∅ ∅.

(** An index out of range panics. *)
Definition Lookup (c : LabelCache) (cg : Z) : go_outcome unit (option (string * string * string)) :=
  match byCgroup c !! cg with
  | None => GoOk None
  | Some idx =>
      match entries c !! idx with
      | None => GoPanic
      | Some e => GoOk (if invalid e then None else Some (containerID e, agent e, project e))
      end
  end.

Definition AddOrUpdate (c : LabelCache) (cg : Z) (cid ag pr : string) : go_outcome unit LabelCache :=
  if String.eqb cid "" then GoOk c
  else
    match byCont c !! cid with
    | Some idx =>
        match entries c !! idx with
        | None => GoPanic
        | Some e =>
            let byCg := if cgroupID e =? cg then byCgroup c else delete (cgroupID e) (byCgroup c) in
            GoOk (mkCache (<[idx := mkEntry cg (containerID e) ag pr false]> (entries c)) (free c) (<[cg := idx]> byCg) (byCont c))
        end
    | None =>
        let fresh := mkEntry cg cid ag pr false in
        match byCgroup c !! cg with
        | Some idx =>
            match entries c !! idx with
            | None => GoPanic
            | Some prior => GoOk (mkCache (<[idx := fresh]> (entries c)) (free c) (byCgroup c) (<[cid := idx]> (delete (containerID prior) (byCont c))))
            end
        | None =>
            match last (free c) with
            | Some idx =>
                match entries c !! idx with
                | None => GoPanic
                | Some _ => GoOk (mkCache (<[idx := fresh]> (entries c)) (take (length (free c) - 1) (free c)) (<[cg := idx]> (byCgroup c)) (<[cid := idx]> (byCont c)))
                end
            | None => let idx := length (entries c) in GoOk (mkCache (entries c ++ [fresh]) (free c) (<[cg := idx]> (byCgroup c)) (<[cid := idx]> (byCont c)))
            end
        end
    end.

Definition EvictByContainerID (c : LabelCache) (cid : string) : go_outcome unit LabelCache :=
  if String.eqb cid "" then GoOk c
  else
    match byCont c !! cid with
    | None => GoOk c
    | Some idx =>
        match entries c !! idx with
        | None => GoPanic
        | Some e => GoOk (mkCache (<[idx := zero_entry true]> (entries c)) (free c ++ [idx]) (delete (cgroupID e) (byCgroup c)) (delete cid (byCont c)))
        end
    end.
Definition Len (c : LabelCache) : Z := Z.of_nat (size (byCont c)).


(** ** Names (reverse_dns.go) *)

(** [refresh] hashes the names of its source, later ones over earlier ones.  The
    walk over the resolver's cache only counts what it cannot name. *)
Definition refresh_step (next : gmap Z string) (d : string) : gmap Z string := if String.eqb d "" then next else <[DomainHash d := d]> next.
Definition refresh (domains : option (list string)) : gmap Z string := foldl refresh_step ∅ (default [] domains).
Definition unattributed (next : gmap Z string) (hashes : list Z) : Z := Z.of_nat (length (filter (fun h => h <> 0 /\ next !! h = None) hashes)).
Definition ReverseLookup (byHash : gmap Z string) (hash : Z) : string := if hash =? 0 then "" else default "" (byHash !! hash).
(** A source that panics leaves the table of the last pass. *)
Definition refreshRecovered (byHash : gmap Z string) (domains : go_outcome unit (option (list string))) : gmap Z string :=
  match domains with GoOk ds => refresh ds | _ => byHash end.

(** ** The record for the collector (otel_sink.go) *)

(** An address attribute is kept as the address whose text is sent. *)
Inductive attr := AString (s : string) | AInt (n : Z) | ABool (b : bool) | AAddr (a : GoNet.Addr).
Record otelRecord := mkOtel { rec_event_name : string; rec_timestamp : Z; rec_attrs : list (string * attr) }.
Definition l4ProtoString (code : Z) : string :=
  if code =? 1 then "stream" else if code =? 2 then "dgram" else if code =? 3 then "raw" else "unknown(" +:+ Itoa code +:+ ")".
Definition int64_of (n : Z) : Z := if n <? 2 ^ 63 then n else n - 2 ^ 64.
Definition Emit (ev : Event) : otelRecord :=
  let name := EventName (EmitSite ev) in
  mkOtel name (Timestamp ev)
    ([("event.name", AString name); ("action", AString (Verdict_String (Verdict ev))); ("container_id", AString (ContainerID ev)); ("agent", AString (Agent ev));
      ("project", AString (Project ev)); ("cgroup_id", AString (Itoa (CgroupID ev))); ("bpf_ts_ns", AInt (int64_of (BPFTsNs ev))); ("l4_proto", AString (l4ProtoString (L4Proto ev)));
      ("l4_proto_code", AInt (L4Proto ev)); ("ipv6", ABool (IsIPv6 ev)); ("ipv4_mapped", ABool (IsMapped ev)); ("no_dst", ABool (NoDst ev)); ("domain_hash", AString (Itoa (DomainHashOf ev)))] ++
     match DstIP ev with Some a => [("dst_ip", AAddr a)] | None => [] end ++
     (if NoDst ev then [] else [("dst_port", AString (Itoa (DstPort ev)))]) ++
     (if String.eqb (Domain ev) "" then [] else [("dst_host", AString (Domain ev))])).

(** ** The pipeline (netlogger.go, reader.go, processor.go) *)

Record Metrics := mkMetrics { RingbufReceived : Z; RingbufErrors : Z; QueueDropped : Z; QueueReceived : Z; ParseErrors : Z; EmitSucceeded : Z }.
Record Service := mkService {
  queue : list (list Z); queue_closed : bool; rb_closed : bool; cancelled : bool; reader_done : bool; processor_done : bool;
  cache : LabelCache; revDNS : gmap Z string; metrics : Metrics; emitted : list Event;
}.
Definition NewService : Service := mkService [] false false false false false NewLabelCache ∅ (mkMetrics 0 0 0 0 0 0) [].

(** The collaborators [New] insists on; a zero buffer is the default. *)
Inductive NewError := NoMgr | NoEnrolledTopic | NoEvictTopic | NoDocker | NoCfg.
Definition defaultQueueBuffer : Z := 8192.
Definition New (mgr enrolledTopic evictTopic docker cfg : bool) (queueBuffer : Z) : result NewError (Service * Z) :=
  if negb mgr then Err NoMgr else if negb enrolledTopic then Err NoEnrolledTopic else if negb evictTopic then Err NoEvictTopic
  else if negb docker then Err NoDocker else if negb cfg then Err NoCfg
  else Ok (NewService, if queueBuffer =? 0 then defaultQueueBuffer else queueBuffer).

Definition set_queue (s : Service) (q : list (list Z)) (m : Metrics) : Service :=
  mkService q (queue_closed s) (rb_closed s) (cancelled s) (reader_done s) (processor_done s) (cache s) (revDNS s) m (emitted s).
Definition set_cache (s : Service) (c : LabelCache) : Service :=
  mkService (queue s) (queue_closed s) (rb_closed s) (cancelled s) (reader_done s) (processor_done s) c (revDNS s) (metrics s) (emitted s).
Definition set_names (s : Service) (n : gmap Z string) : Service :=
  mkService (queue s) (queue_closed s) (rb_closed s) (cancelled s) (reader_done s) (processor_done s) (cache s) n (metrics s) (emitted s).

(** One round of the reader: a record, kept if the queue has room. *)
Definition drain_record (buffer : nat) (s : Service) (raw : list Z) : Service :=
  let m := metrics s in
  if (length (queue s) <? buffer)%nat
  then set_queue s (queue s ++ [raw]) (mkMetrics (RingbufReceived m + 1) (RingbufErrors m) (QueueDropped m) (QueueReceived m) (ParseErrors m) (EmitSucceeded m))
  else set_queue s (queue s) (mkMetrics (RingbufReceived m + 1) (RingbufErrors m) (QueueDropped m + 1) (QueueReceived m) (ParseErrors m) (EmitSucceeded m)).
Definition drain_error (s : Service) : Service :=
  let m := metrics s in set_queue s (queue s) (mkMetrics (RingbufReceived m) (RingbufErrors m + 1) (QueueDropped m) (QueueReceived m) (ParseErrors m) (EmitSucceeded m)).
(** The reader leaves when its source is closed, and closes the queue. *)
Definition drain_exit (s : Service) : Service :=
  mkService (queue s) true (rb_closed s) (cancelled s) true (processor_done s) (cache s) (revDNS s) (metrics s) (emitted s).

Definition label (ev : Event) (cid ag pr : string) : Event :=
  mkEv (Timestamp ev) (BPFTsNs ev) (CgroupID ev) cid ag pr (DstIP ev) (DstPort ev) (L4Proto ev) (IsIPv6 ev) (IsMapped ev) (NoDst ev) (EmitSite ev) (DomainHashOf ev) (Domain ev) (Verdict ev).
Definition set_domain (ev : Event) (d : string) : Event :=
  mkEv (Timestamp ev) (BPFTsNs ev) (CgroupID ev) (ContainerID ev) (Agent ev) (Project ev) (DstIP ev) (DstPort ev) (L4Proto ev) (IsIPv6 ev) (IsMapped ev) (NoDst ev) (EmitSite ev) (DomainHashOf ev) d (Verdict ev).
Definition enrich (c : LabelCache) (names : gmap Z string) (ev : Event) : go_outcome unit Event :=
  match Lookup c (CgroupID ev) with
  | GoOk found =>
      let ev := match found with Some (cid, ag, pr) => label ev cid ag pr | None => ev end in
      GoOk (set_domain ev (ReverseLookup names (DomainHashOf ev)))
  | GoErr e => GoErr e
  | GoPanic => GoPanic
  end.

(** One round of the processor; a panic is recovered outside its loop, and ends
    it. *)
Definition process_record (s : Service) (now : Z) : Service :=
  match queue s with
  | [] => s
  | raw :: rest =>
      let m := metrics s in
      let m1 := mkMetrics (RingbufReceived m) (RingbufErrors m) (QueueDropped m) (QueueReceived m + 1) (ParseErrors m) (EmitSucceeded m) in
      match parseEvent now raw with
      | Err _ => set_queue s rest (mkMetrics (RingbufReceived m1) (RingbufErrors m1) (QueueDropped m1) (QueueReceived m1) (ParseErrors m1 + 1) (EmitSucceeded m1))
      | Ok ev =>
          match enrich (cache s) (revDNS s) ev with
          | GoOk ev =>
              mkService rest (queue_closed s) (rb_closed s) (cancelled s) (reader_done s) (processor_done s) (cache s) (revDNS s)
                (mkMetrics (RingbufReceived m1) (RingbufErrors m1) (QueueDropped m1) (QueueReceived m1) (ParseErrors m1) (EmitSucceeded m1 + 1)) (emitted s ++ [ev])
          | _ => mkService rest (queue_closed s) (rb_closed s) (cancelled s) (reader_done s) true (cache s) (revDNS s) m1 (emitted s)
          end
      end
  end.
Definition process_exit (s : Service) : Service :=
  mkService (queue s) (queue_closed s) (rb_closed s) (cancelled s) (reader_done s) true (cache s) (revDNS s) (metrics s) (emitted s).

(** The two effects of [Stop], in its order. *)
Definition stop_close (s : Service) : Service :=
  mkService (queue s) (queue_closed s) true (cancelled s) (reader_done s) (processor_done s) (cache s) (revDNS s) (metrics s) (emitted s).
Definition stop_cancel (s : Service) : Service :=
  mkService (queue s) (queue_closed s) (rb_closed s) true (reader_done s) (processor_done s) (cache s) (revDNS s) (metrics s) (emitted s).

(** The subscribers.  An inspect that fails changes nothing; a panic inside a
    delivery is recovered by the topic. *)
Definition handleEnroll (s : Service) (cg : Z) (cid : string) (inspected : option (string * string)) : Service :=
  match inspected with
  | None => s
  | Some (ag, pr) => match AddOrUpdate (cache s) cg cid ag pr with GoOk c => set_cache s c | _ => s end
  end.
Definition onDockerEvent (s : Service) (type action id : string) : Service :=
  if negb (String.eqb type "container") then s
  else if String.eqb action "die" || String.eqb action "destroy" then match EvictByContainerID (cache s) id with GoOk c => set_cache s c | _ => s end
  else s.

Inductive step (buffer : nat) (s : Service) : Service -> Prop :=
  | step_record raw : reader_done s = false -> rb_closed s = false -> step buffer s (drain_record buffer s raw)
  | step_read_error : reader_done s = false -> step buffer s (drain_error s)
  | step_reader_exit : reader_done s = false -> rb_closed s = true -> step buffer s (drain_exit s)
  | step_process now : processor_done s = false -> queue s <> [] -> step buffer s (process_record s now)
  | step_processor_exit : processor_done s = false -> cancelled s = true \/ (queue s = [] /\ queue_closed s = true) -> step buffer s (process_exit s)
  | step_stop_close : rb_closed s = false -> step buffer s (stop_close s)
  | step_stop_cancel : rb_closed s = true -> step buffer s (stop_cancel s)
  | step_enroll cg cid ins : step buffer s (handleEnroll s cg cid ins)
  | step_docker type action id : step buffer s (onDockerEvent s type action id)
  | step_refresh domains : step buffer s (set_names s (refreshRecovered (revDNS s) domains)).

(** ** The circuit breaker (circuit.go) *)

Record circuitExporter := mkCircuit { threshold : Z; consecutiveFail : Z; tripped : bool }.
Definition NewCircuitExporter (failureThreshold : Z) : circuitExporter := mkCircuit (if failureThreshold <=? 0 then 3 else failureThreshold) 0 false.
(** The part of [Export] under the lock, after the inner call: the new state, the
    error returned, and whether the loss was logged. *)
Definition export_result (c : circuitExporter) (failed : bool) : circuitExporter * bool * bool :=
  if tripped c then (c, false, false)
  else if negb failed then (mkCircuit (threshold c) 0 false, false, false)
  else
    let n := consecutiveFail c + 1 in
    if threshold c <=? n then (mkCircuit (threshold c) n true, false, true) else (mkCircuit (threshold c) n false, true, false).
(** One [Export] on its own: whether the inner exporter is called, and the rest. *)
Definition Export (c : circuitExporter) (failed : bool) : bool * (circuitExporter * bool * bool) := if tripped c then (false, (c, false, false)) else (true, export_result c failed).
Definition ForceFlush (c : circuitExporter) : bool := negb (tripped c).

(** ** Startup (start.go) *)

Inductive degraded := OtelcertsUnavailable | NoEndpoint | PlaintextEndpoint | LoadTLSConfigFailed | ProviderFailed | NewFailed | StartFailed.
(** Either the running service with its provider, or why not, and whether a
    provider was shut down. *)
Definition Start (certs : bool) (endpoint : string) (insecure tls_ok provider_ok new_ok start_ok : bool) : degraded * bool + unit :=
  if negb certs then inl (OtelcertsUnavailable, false)
  else if String.eqb endpoint "" then inl (NoEndpoint, false)
  else if insecure then inl (PlaintextEndpoint, false)
  else if negb tls_ok then inl (LoadTLSConfigFailed, false)
  else if negb provider_ok then inl (ProviderFailed, false)
  else if negb new_ok then inl (NewFailed, true)
  else if negb start_ok then inl (StartFailed, true)
  else inr tt.

End NetLogger.
