(* ===== verification/NetLoggerSpec.v ===== *)
(** * What the egress logger promises

    Every decision of the kernel is decoded to what was decided; the label cache
    refines a map from cgroups to their latest container; no record is lost
    uncounted; the breaker opens once. *)

From S2P Require Import Prelude GoStrings GoNet Routes EbpfApi Ebpf Bpf BpfSpec NetLogger.
Import Go Routes EbpfApi Ebpf Bpf BpfSpec NetLogger.

Module NetLoggerSpec.

(** ** Decoding *)

Lemma le_bytes_length n v : length (le_bytes n v) = n.
Proof. revert v. induction n as [|n IH]; intros v; cbn; [done|]. by rewrite IH. Qed.
Lemma le_value_bytes n v : 0 <= v < 256 ^ Z.of_nat n -> le_value (le_bytes n v) = v.
Proof.
  revert v. induction n as [|n IH]; intros v Hv; [cbn in *; lia|]. cbn [le_bytes le_value foldr]. rewrite Nat2Z.inj_succ, Z.pow_succ_r in Hv by lia.
  change (foldr (fun b acc => b + 256 * acc) 0 (le_bytes n (v / 256))) with (le_value (le_bytes n (v / 256))). rewrite IH; div_lia.
Qed.
Lemma field_at pre n v post off : length pre = off -> 0 <= v < 256 ^ Z.of_nat n -> field off n (pre ++ le_bytes n v ++ post) = v.
Proof. intros <- Hv. unfold field. rewrite drop_app_length, <- (le_bytes_length n v) at 1. rewrite take_app_length. by apply le_value_bytes. Qed.

(** An event as the programs build it. *)
Record wf_event (ev : egress_event) : Prop := {
  we_ts : 0 <= ev_ts_ns ev < 2 ^ 64; we_cgroup : 0 <= ev_cgroup_id ev < 2 ^ 64; we_words : length (ev_dst_ip ev) = 4%nat; we_hash : 0 <= ev_domain_hash ev < 2 ^ 32;
  we_port : 0 <= ev_dst_port ev < 2 ^ 16; we_verdict : 0 <= ev_verdict ev < 256; we_flags : 0 <= ev_flags ev < 256; we_l4 : 0 <= ev_l4_proto ev < 256;
}.
Definition dst_bytes (ev : egress_event) : list Z := concat (le_bytes 4 <$> ev_dst_ip ev).
Lemma dst_bytes_length ev : wf_event ev -> length (dst_bytes ev) = 16%nat.
Proof. intros [_ _ Hw _ _ _ _ _]. unfold dst_bytes. destruct (ev_dst_ip ev) as [|w0 [|w1 [|w2 [|w3 [|]]]]]; try done. Qed.
Definition decoded (now : Z) (ev : egress_event) : Event :=
  let flag f := negb (Z.land (ev_flags ev) f =? 0) in
  mkEv now (ev_ts_ns ev) (ev_cgroup_id ev) "" "" "" (if flag EgressFlagNoDst then None else if flag EgressFlagIPv6 then Some (AddrFrom16_Unmap (dst_bytes ev)) else Some (GoNet.Addr4 (take 4 (dst_bytes ev))))
    (ev_dst_port ev) (ev_l4_proto ev) (flag EgressFlagIPv6) (flag EgressFlagIPv4Mapped) (flag EgressFlagNoDst) (Z.shiftr (Z.land (ev_flags ev) EgressEmitMask) 3) (ev_domain_hash ev) "" (ev_verdict ev).
Lemma parse_record now ev : wf_event ev -> parseEvent now (record_bytes ev) = Ok (decoded now ev).
Proof.
  intros Hwf. pose proof (dst_bytes_length ev Hwf) as Hd. destruct Hwf as [Hts Hcg _ Hh Hp Hv Hf Hl]. unfold parseEvent, record_bytes. fold (dst_bytes ev).
  set (a := le_bytes 8 (ev_ts_ns ev)). set (b := le_bytes 8 (ev_cgroup_id ev)). set (d := dst_bytes ev) in *. set (h := le_bytes 4 (ev_domain_hash ev)). set (p := le_bytes 2 (ev_dst_port ev)).
  set (v := le_bytes 1 (ev_verdict ev)). set (f := le_bytes 1 (ev_flags ev)). set (l := le_bytes 1 (ev_l4_proto ev)).
  assert (length a = 8 /\ length b = 8 /\ length h = 4 /\ length p = 2 /\ length v = 1 /\ length f = 1 /\ length l = 1)%nat as (La & Lb & Lh & Lp & Lv & Lf & Ll) by (unfold a, b, h, p, v, f, l; by rewrite !le_bytes_length).
  rewrite !length_app, La, Lb, Hd, Lh, Lp, Lv, Lf, Ll. cbn [length replicate]. change (Z.of_nat _ <? record_size) with false. cbv iota.
  set (raw := a ++ _). assert (forall pre n x post off, raw = pre ++ le_bytes n x ++ post -> length pre = off -> 0 <= x < 256 ^ Z.of_nat n -> field off n raw = x) as Hfield.
  { intros pre n x post off -> Ho Hx. by apply field_at. }
  rewrite (Hfield [] 8%nat (ev_ts_ns ev) (b ++ d ++ h ++ p ++ v ++ f ++ l ++ replicate 7 0) 0%nat) by done.
  rewrite (Hfield a 8%nat (ev_cgroup_id ev) (d ++ h ++ p ++ v ++ f ++ l ++ replicate 7 0) 8%nat) by done.
  rewrite (Hfield (a ++ b ++ d) 4%nat (ev_domain_hash ev) (p ++ v ++ f ++ l ++ replicate 7 0) 32%nat) by (unfold raw; rewrite <- ?app_assoc, ?length_app, ?La, ?Lb, ?Hd; done).
  rewrite (Hfield (a ++ b ++ d ++ h) 2%nat (ev_dst_port ev) (v ++ f ++ l ++ replicate 7 0) 36%nat) by (unfold raw; rewrite <- ?app_assoc, ?length_app, ?La, ?Lb, ?Hd, ?Lh; done).
  rewrite (Hfield (a ++ b ++ d ++ h ++ p) 1%nat (ev_verdict ev) (f ++ l ++ replicate 7 0) 38%nat) by (unfold raw; rewrite <- ?app_assoc, ?length_app, ?La, ?Lb, ?Hd, ?Lh, ?Lp; done).
  rewrite (Hfield (a ++ b ++ d ++ h ++ p ++ v) 1%nat (ev_flags ev) (l ++ replicate 7 0) 39%nat) by (unfold raw; rewrite <- ?app_assoc, ?length_app, ?La, ?Lb, ?Hd, ?Lh, ?Lp, ?Lv; done).
  rewrite (Hfield (a ++ b ++ d ++ h ++ p ++ v ++ f) 1%nat (ev_l4_proto ev) (replicate 7 0) 40%nat) by (unfold raw; rewrite <- ?app_assoc, ?length_app, ?La, ?Lb, ?Hd, ?Lh, ?Lp, ?Lv, ?Lf; done).
  replace (take 16 (drop 16 raw)) with d; [done|]. unfold raw. rewrite (app_assoc a b), drop_app_length' by (rewrite length_app; lia). by rewrite take_app_length' by done.
Qed.

(** ** From the decision to the record *)

Definition words (a : sock_addr) : list Z := let '(w0, w1, w2, w3) := user_ip6 a in [w0; w1; w2; w3].
Definition destination (p : program) (a : sock_addr) : GoNet.Addr :=
  match dst_ip p a with Some ip => GoNet.Addr4 (Uint32ToIP ip) | None => GoNet.Addr6 (concat (Uint32ToIP <$> words a)) "" end.
Definition name_hash (p : program) (k : Kernel) (a : sock_addr) : Z := match dst_ip p a with Some ip => lookup_domain_hash_for_ip (maps k) ip | None => 0 end.
Definition reported (p : program) (t : task) (k : Kernel) (a : sock_addr) (ret : Z) : egress_event :=
  mkEvent (t_now t) (t_cgroup t) (match dst_ip p a with Some ip => [ip; 0; 0; 0] | None => words a end) (name_hash p k a) (ntohs (user_port a))
    (if ret =? 0 then EGRESS_VERDICT_DENIED else EGRESS_VERDICT_ALLOWED) (match dst_ip p a with Some _ => v4_flags p | None => Z.lor (site p) EGRESS_FLAG_IPV6 end) (sa_type a).

Lemma decision_channel p t k cfg a ip : channel (decision p t k cfg a ip).1 = channel k.
Proof. destruct p; cbn; first [apply connect_channel|apply sendmsg_channel]. Qed.
Lemma decision_dns p t k cfg a ip : dns_cache (maps (decision p t k cfg a ip).1) = dns_cache (maps k).
Proof.
  assert (forall cg port c, dns_cache (maps (route_udp t k cfg cg ip port c).1) = dns_cache (maps k)) as Hr by (intros; unfold route_udp, record_udp_flow; by repeat case_match).
  destruct p; cbn; unfold decide_connect, decide_sendmsg; repeat case_match; try done; apply Hr.
Qed.
Lemma applied_verdict p a r : (if (applied p a r).2 =? 0 then EGRESS_VERDICT_DENIED else EGRESS_VERDICT_ALLOWED) = event_verdict r.
Proof. by destruct p, r. Qed.
(** Calls that are let through without a record: IPv6 loopback, and a connect over IPv4
    on a socket that is neither a stream nor a datagram socket. *)
Definition other_type (a : sock_addr) : bool := negb (sa_type a =? SOCK_STREAM) && negb (sa_type a =? SOCK_DGRAM).
Definition silent (p : program) (a : sock_addr) : bool :=
  match p with
  | Connect4 => other_type a
  | Connect6 => is_ipv6_loopback a || (is_ipv4_mapped a && other_type a)
  | Sendmsg4 => false
  | Sendmsg6 => is_ipv6_loopback a
  end.
Lemma run_silent p t k cfg a : enforced t k cfg -> silent p a = true -> run p t k a = (k, a, 1).
Proof.
  intros He Hs. destruct p; cbn [silent run] in *; unfold clawker_connect4, clawker_connect6, clawker_sendmsg6, other_type in *.
  - by rewrite Hs.
  - done.
  - rewrite (enforced_enter t k cfg true He). destruct (is_ipv6_loopback a); [done|]. cbn in Hs. apply andb_true_iff in Hs as [-> ->]. done.
  - by rewrite (enforced_enter t k cfg true He), Hs.
Qed.
Lemma heard p a : silent p a = false -> (dst_ip p a <> None -> ip_type p a) /\ (dst_ip p a = None -> is_ipv6_loopback a = false).
Proof.
  assert (other_type a = false -> sa_type a = SOCK_STREAM \/ sa_type a = SOCK_DGRAM) as Ho.
  { unfold other_type. intros [H%negb_false_iff%Z.eqb_eq|H%negb_false_iff%Z.eqb_eq]%andb_false_iff; auto. }
  destruct p; cbn; [by split; [auto|]|done| |].
  - intros [-> H]%orb_false_iff. split; [|done]. destruct (is_ipv4_mapped a); [auto|done].
  - auto.
Qed.
Lemma run_reports p t k cfg a :
  enforced t k cfg -> silent p a = false ->
  exists k1, channel k1 = channel k /\ (run p t k a).1.1 = submit t k1 (t_cgroup t) (reported p t k a (run p t k a).2).
Proof.
  intros He [Ht Hn]%heard. destruct (dst_ip p a) as [ip|] eqn:Hi.
  - destruct (run_enforced p t k cfg a ip He Hi (Ht ltac:(done))) as (ev & -> & ->). exists (decision p t k cfg a ip).1. split; [apply decision_channel|]. cbn [fst snd].
    unfold reported, event_of, name_hash, lookup_domain_hash_for_ip. rewrite Hi, decision_dns, applied_verdict. done.
  - specialize (Hn eq_refl). exists (metric_inc k (t_cgroup t) 0 (ntohs (user_port a)) ACTION_DENY). split; [done|].
    destruct p; cbn [dst_ip] in Hi; try done; (destruct (is_ipv4_mapped a) eqn:Em; [done|]); cbn [run]; unfold clawker_connect6, clawker_sendmsg6;
      rewrite (enforced_enter t k cfg true He), Em, Hn; unfold native_v6, submit_event_v6, reported, name_hash, words; cbn [dst_ip fst snd]; rewrite Em; by destruct (user_ip6 a) as [[[w0 w1] w2] w3].
Qed.

Lemma take_ok_channel t m m' cg : ratelimit_state m' = ratelimit_state m -> (ratelimit_check_and_take t m' cg).2 = (ratelimit_check_and_take t m cg).2.
Proof. intros E. unfold ratelimit_check_and_take. rewrite E. destruct (default _ _); [destruct (topup _ _), (cas_loop _ _ _) as [? []]|]; done. Qed.
Lemma submit_granted t k cg ev : t_reserved t = true -> (ratelimit_check_and_take t (maps k) cg).2 = true -> events_ringbuf (submit t k cg ev) = events_ringbuf k ++ [ev].
Proof. intros Hr Hok. unfold submit. destruct (ratelimit_check_and_take t (maps k) cg) as [m ok]. cbn in Hok. by rewrite Hok, Hr. Qed.

Lemma le_bytes_ip v : le_bytes 4 v = Uint32ToIP v.
Proof. unfold le_bytes, Uint32ToIP. by rewrite !Z.div_div by lia. Qed.
Lemma mapped_bytes w0 w1 w2 w3 :
  Forall (fun w => 0 <= w < 2 ^ 32) [w0; w1; w2; w3] -> GoNet.To4 (GoNet.Addr6 (concat (Uint32ToIP <$> [w0; w1; w2; w3])) "") <> None -> w0 = 0 /\ w1 = 0 /\ w2 = htonl IPV4_MAPPED_PREFIX.
Proof.
  rewrite !Forall_cons. intros (H0 & H1 & H2 & _). unfold GoNet.To4. case_bool_decide as E; [|done]. intros _. unfold Uint32ToIP in E. cbn in E. injection E as E1 E2 E3 E4 E5 E6 E7 E8 E9 E10 E11 E12.
  change (htonl IPV4_MAPPED_PREFIX) with 0xffff0000. split_and!; div_lia.
Qed.

(** Integers of the widths of the kernel's structures. *)
Record wf_run (t : task) (k : Kernel) (a : sock_addr) : Prop := {
  wr_now : 0 <= t_now t < 2 ^ 64; wr_cgroup : 0 <= t_cgroup t < 2 ^ 64; wr_type : 0 <= sa_type a < 256;
  wr_words : Forall (fun w => 0 <= w < 2 ^ 32) (words a); wr_hashes : map_Forall (fun _ e => 0 <= de_DomainHash e < 2 ^ 32) (dns_cache (maps k));
}.
Lemma ntohs_bounds p : 0 <= ntohs p < 65536.
Proof. unfold ntohs, bswap16. div_lia. Qed.
Lemma name_hash_bounds p t k a : wf_run t k a -> 0 <= name_hash p k a < 2 ^ 32.
Proof.
  intros [_ _ _ _ Hh]. unfold name_hash, lookup_domain_hash_for_ip. destruct (dst_ip p a) as [ip|]; [|lia]. destruct (ip =? 0); [lia|].
  destruct (dns_cache (maps k) !! ip) as [e|] eqn:E; [|lia]. by apply (Hh ip e E).
Qed.
Lemma reported_wf p t k a ret : wf_run t k a -> wf_event (reported p t k a ret).
Proof.
  intros Hw. pose proof (name_hash_bounds p t k a Hw) as Hh. destruct Hw as [Hn Hc Ht _ _]. pose proof (ntohs_bounds (user_port a)). unfold reported. split; cbn [ev_ts_ns ev_cgroup_id ev_dst_ip ev_domain_hash ev_dst_port ev_verdict ev_flags ev_l4_proto]; try lia.
  - unfold words. destruct (dst_ip p a); [done|]. by destruct (user_ip6 a) as [[[w0 w1] w2] w3].
  - destruct (ret =? 0); done.
  - destruct (dst_ip p a), p; done.
Qed.
Lemma decoded_destination p t k a ret now : wf_run t k a -> DstIP (decoded now (reported p t k a ret)) = Some (destination p a).
Proof.
  intros [_ _ _ Hwords _]. unfold destination. destruct (dst_ip p a) as [ip|] eqn:Hi.
  - unfold decoded, reported, dst_bytes. rewrite Hi. cbn [ev_flags ev_dst_ip DstIP fmap list_fmap concat]. rewrite le_bytes_ip. by destruct p.
  - unfold decoded, reported, dst_bytes. rewrite Hi. cbn [ev_flags ev_dst_ip DstIP]. rewrite (list_fmap_ext (le_bytes 4) Uint32ToIP (words a)) by (intros; apply le_bytes_ip).
    assert (AddrFrom16_Unmap (concat (Uint32ToIP <$> words a)) = GoNet.Addr6 (concat (Uint32ToIP <$> words a)) "") as ->; [|destruct p; try done; cbn in Hi; by destruct (is_ipv4_mapped a)].
    unfold AddrFrom16_Unmap. cbv zeta. destruct (GoNet.To4 _) as [v4|] eqn:E; [|done]. exfalso. unfold words in *. destruct (user_ip6 a) as [[[w0 w1] w2] w3] eqn:Ew.
    destruct (mapped_bytes w0 w1 w2 w3 Hwords) as (-> & -> & ->); [by rewrite E|].
    assert (is_ipv4_mapped a = true) as Em by (unfold is_ipv4_mapped; rewrite Ew; done). destruct p; cbn in Hi; try done; by rewrite Em in Hi.
Qed.
Lemma decoded_site p t k a ret now : EventName (EmitSite (decoded now (reported p t k a ret))) = (match p with Connect4 | Connect6 => "ebpf.egress.connect" | Sendmsg4 | Sendmsg6 => "ebpf.egress.sendmsg" end).
Proof. unfold decoded, reported. cbn [ev_flags EmitSite]. by destruct (dst_ip p a), p. Qed.

(** ** The label cache *)

(** The promise: a cgroup has the labels of the container that was bound to it
    last, as long as that container is neither bound elsewhere nor evicted. *)
Abbreviation labels := (string * string * string)%type.
Abbreviation owners := (gmap Z labels).
Definition without (m : owners) (cid : string) : owners := filter (fun kv => kv.2.1.1 <> cid) m.
Inductive op := Bind (cg : Z) (cid ag pr : string) | Evict (cid : string).
Definition spec_op (m : owners) (o : op) : owners :=
  match o with
  | Bind cg cid ag pr => if String.eqb cid "" then m else <[cg := (cid, ag, pr)]> (without m cid)
  | Evict cid => if String.eqb cid "" then m else without m cid
  end.
Definition cache_op (c : LabelCache) (o : op) : go_outcome unit LabelCache := match o with Bind cg cid ag pr => AddOrUpdate c cg cid ag pr | Evict cid => EvictByContainerID c cid end.
Fixpoint cache_ops (c : LabelCache) (l : list op) : go_outcome unit LabelCache :=
  match l with [] => GoOk c | o :: l => match cache_op c o with GoOk c' => cache_ops c' l | r => r end end.
(** A container that is already bound moves only to a cgroup no other container
    holds. *)
Definition clean_op (m : owners) (o : op) : Prop :=
  match o with
  | Bind cg cid _ _ => forall x, m !! cg = Some x -> x.1.1 <> cid -> forall cg' y, m !! cg' = Some y -> y.1.1 <> cid
  | Evict _ => True
  end.
Fixpoint clean (m : owners) (l : list op) : Prop := match l with [] => True | o :: l => clean_op m o /\ clean (spec_op m o) l end.

Definition entry_labels (e : labelEntry) : labels := (containerID e, agent e, project e).
Record cache_ok (c : LabelCache) : Prop := {
  co_cont cid i : byCont c !! cid = Some i -> exists e, entries c !! i = Some e /\ containerID e = cid /\ invalid e = false;
  co_cgroup cg i : byCgroup c !! cg = Some i -> exists e, entries c !! i = Some e /\ cgroupID e = cg /\ invalid e = false /\ byCont c !! containerID e = Some i;
  co_free i : i ∈ free c -> is_Some (entries c !! i) /\ forall cid, byCont c !! cid <> Some i;
  co_nodup : NoDup (free c);
}.
(** Every label the cache hands out is the promised one. *)
Definition sound (c : LabelCache) (m : owners) : Prop := forall cg i e, byCgroup c !! cg = Some i -> entries c !! i = Some e -> m !! cg = Some (entry_labels e).
(** It hands out all of them. *)
Definition complete (c : LabelCache) (m : owners) : Prop :=
  (forall cid i e, byCont c !! cid = Some i -> entries c !! i = Some e -> byCgroup c !! cgroupID e = Some i) /\ forall cg x, m !! cg = Some x -> is_Some (byCgroup c !! cg).

Lemma Lookup_ok c cg : cache_ok c -> Lookup c cg = GoOk (i ← byCgroup c !! cg; e ← entries c !! i; Some (entry_labels e)).
Proof. intros Hok. unfold Lookup. destruct (byCgroup c !! cg) as [i|] eqn:E; [|done]. destruct (co_cgroup c Hok cg i E) as (e & He & _ & Hv & _). cbn. by rewrite He, Hv. Qed.
Lemma without_lookup m cid cg x : without m cid !! cg = Some x <-> m !! cg = Some x /\ x.1.1 <> cid.
Proof. unfold without. by rewrite map_lookup_filter_Some. Qed.
Lemma same_slot c cid cid' i : cache_ok c -> byCont c !! cid = Some i -> byCont c !! cid' = Some i -> cid = cid'.
Proof. intros Hok H1 H2. destruct (co_cont c Hok _ _ H1) as (e & He & <- & _). destruct (co_cont c Hok _ _ H2) as (e' & He' & <- & _). congruence. Qed.
Lemma same_cgroup c cg cg' i : cache_ok c -> byCgroup c !! cg = Some i -> byCgroup c !! cg' = Some i -> cg = cg'.
Proof. intros Hok H1 H2. destruct (co_cgroup c Hok _ _ H1) as (e & He & <- & _). destruct (co_cgroup c Hok _ _ H2) as (e' & He' & <- & _). congruence. Qed.

(** A known container takes a cgroup. *)
Section Rebind.
Context (c : LabelCache) (cg : Z) (cid ag pr : string) (idx : nat) (e : labelEntry).
Context (Hok : cache_ok c) (Hc : byCont c !! cid = Some idx) (He : entries c !! idx = Some e).
Let byCg := if cgroupID e =? cg then byCgroup c else delete (cgroupID e) (byCgroup c).
Let c' := mkCache (<[idx := mkEntry cg (containerID e) ag pr false]> (entries c)) (free c) (<[cg := idx]> byCg) (byCont c).
Lemma rebind_cid : containerID e = cid.
Proof. destruct (co_cont c Hok cid idx Hc) as (e' & He' & <- & _). congruence. Qed.
Lemma rebind_idx : (idx < length (entries c))%nat.
Proof. by eapply lookup_lt_Some. Qed.
Lemma rebind_other cg' i : cg' <> cg -> byCgroup c' !! cg' = Some i -> byCgroup c !! cg' = Some i /\ i <> idx.
Proof.
  intros Hne. cbn. rewrite lookup_insert_ne by done. intros Hi. assert (byCgroup c !! cg' = Some i /\ cgroupID e <> cg') as [H1 H2].
  { unfold byCg in Hi. destruct (Z.eqb_spec (cgroupID e) cg) as [E|E]; [split; congruence|]. apply lookup_delete_Some in Hi. tauto. }
  split; [done|]. intros ->. destruct (co_cgroup c Hok _ _ H1) as (e' & He' & Hcg & _). congruence.
Qed.
Lemma rebind_ok : cache_ok c'.
Proof.
  pose proof rebind_cid as Ecid. pose proof rebind_idx as Hlt. split; cbn.
  - intros cid' i Hi. destruct (co_cont c Hok _ _ Hi) as (e' & He' & Hcid & Hv). destruct (decide (i = idx)) as [->|Hne].
    + eexists. rewrite list_lookup_insert_eq by done. split; [done|]. cbn. split; [congruence|done].
    + exists e'. by rewrite list_lookup_insert_ne.
  - intros cg' i Hi. destruct (decide (cg' = cg)) as [->|Hne].
    + rewrite lookup_insert_eq in Hi. injection Hi as <-. eexists. rewrite list_lookup_insert_eq by done. split; [done|]. cbn. split_and!; [done|done|]. by rewrite Ecid.
    + destruct (rebind_other cg' i Hne Hi) as [H1 H2]. destruct (co_cgroup c Hok _ _ H1) as (e' & He' & ? & ? & ?). exists e'. by rewrite list_lookup_insert_ne.
  - intros i Hi. destruct (co_free c Hok i Hi) as [[x Hx] Hn]. split; [|done]. assert (i <> idx) by (intros ->; by eapply Hn). rewrite list_lookup_insert_ne by done. eauto.
  - apply (co_nodup c Hok).
Qed.
Lemma rebind_sound m : sound c m -> sound c' (<[cg := (cid, ag, pr)]> (without m cid)).
Proof.
  pose proof rebind_cid as Ecid. pose proof rebind_idx as Hlt. intros Hs cg' i e' Hi He'. destruct (decide (cg' = cg)) as [->|Hne].
  - cbn in Hi, He'. rewrite lookup_insert_eq in Hi. injection Hi as <-. rewrite list_lookup_insert_eq in He' by done. injection He' as <-. unfold entry_labels. cbn. rewrite Ecid. apply lookup_insert_eq.
  - destruct (rebind_other cg' i Hne Hi) as [H1 H2]. cbn in He'. rewrite list_lookup_insert_ne in He' by done. rewrite lookup_insert_ne by done. apply without_lookup. split; [by eapply Hs|].
    destruct (co_cgroup c Hok _ _ H1) as (e'' & He'' & _ & _ & Hcont). intros Hx. cbn in Hx. assert (e'' = e') as -> by congruence. rewrite Hx in Hcont. congruence.
Qed.
Lemma rebind_complete m : sound c m -> complete c m -> clean_op m (Bind cg cid ag pr) -> complete c' (<[cg := (cid, ag, pr)]> (without m cid)).
Proof.
  pose proof rebind_cid as Ecid. pose proof rebind_idx as Hlt. intros Hs [Hc1 Hc2] Hcl.
  assert (forall i, byCgroup c !! cg = Some i -> i = idx) as Hown.
  { intros i Hi. destruct (co_cgroup c Hok _ _ Hi) as (e' & He' & _ & _ & Hcont). destruct (decide (containerID e' = cid)) as [E|E]; [congruence|]. exfalso.
    eapply (Hcl _ (Hs _ _ _ Hi He') E (cgroupID e)); [eapply Hs; [exact (Hc1 _ _ _ Hc He)|exact He]|exact Ecid]. }
  split; cbn.
  - intros cid' i e' Hi He'. destruct (decide (i = idx)) as [->|Hne]; [rewrite list_lookup_insert_eq in He' by done; injection He' as <-; apply lookup_insert_eq|].
    rewrite list_lookup_insert_ne in He' by done. pose proof (Hc1 _ _ _ Hi He') as Hg. assert (cgroupID e' <> cg) by (intros E; rewrite E in Hg; by apply Hown in Hg). rewrite lookup_insert_ne by done.
    unfold byCg. destruct (cgroupID e =? cg); [done|]. rewrite lookup_delete_ne; [done|]. intros E. pose proof (Hc1 _ _ _ Hc He). congruence.
  - intros cg' x Hx. destruct (decide (cg' = cg)) as [->|Hne]; [rewrite lookup_insert_eq; eauto|]. rewrite (lookup_insert_ne _ cg cg') in Hx by done. rewrite lookup_insert_ne by done. apply without_lookup in Hx as [Hx Hn].
    destruct (Hc2 _ _ Hx) as [i Hi]. unfold byCg. destruct (cgroupID e =? cg); [eauto|]. rewrite lookup_delete_ne; [eauto|]. intros E. subst cg'.
    pose proof (Hc1 _ _ _ Hc He) as Hg. pose proof (Hs _ _ _ Hg He) as Hm. rewrite Hx in Hm. injection Hm as ->. by apply Hn.
Qed.
End Rebind.

(** A new container takes a slot no live container has. *)
Section Place.
Context (c : LabelCache) (cg : Z) (cid ag pr : string) (idx : nat) (es : list labelEntry) (fr : list nat) (bc : gmap string nat).
Let fresh := mkEntry cg cid ag pr false.
Let c' := mkCache es fr (<[cg := idx]> (byCgroup c)) (<[cid := idx]> bc).
Context (Hok : cache_ok c) (Hnew : byCont c !! cid = None) (Hes : es !! idx = Some fresh) (Hold : forall j x, j <> idx -> entries c !! j = Some x -> es !! j = Some x).
Context (Hsub : bc ⊆ byCont c) (Hunused : forall cid', bc !! cid' <> Some idx) (Hcg : forall cg', cg' <> cg -> byCgroup c !! cg' <> Some idx).
Context (Hkeep : forall cid' i, byCont c !! cid' = Some i -> i <> idx -> bc !! cid' = Some i) (Hfr : forall i, i ∈ fr -> i ∈ free c /\ i <> idx) (Hnd : NoDup fr).
Context (Hmine : forall i, byCgroup c !! cg = Some i -> i = idx).

Lemma place_other cg' i : cg' <> cg -> byCgroup c' !! cg' = Some i -> byCgroup c !! cg' = Some i /\ i <> idx.
Proof. intros Hne. cbn. rewrite lookup_insert_ne by done. intros Hi. split; [done|]. intros ->. by apply (Hcg cg'). Qed.
Lemma place_cont cid' i : cid' <> cid -> bc !! cid' = Some i -> exists e, entries c !! i = Some e /\ es !! i = Some e /\ containerID e = cid' /\ invalid e = false /\ i <> idx.
Proof.
  intros Hne Hi. assert (i <> idx) by (intros ->; by apply (Hunused cid')). destruct (co_cont c Hok cid' i) as (e & He & Hc & Hv); [by eapply lookup_weaken|]. exists e. split_and!; auto.
Qed.
Lemma place_ok : cache_ok c'.
Proof.
  split; cbn.
  - intros cid' i Hi. destruct (decide (cid' = cid)) as [->|Hne]; [rewrite lookup_insert_eq in Hi; injection Hi as <-; by exists fresh|]. rewrite lookup_insert_ne in Hi by done.
    destruct (place_cont cid' i Hne Hi) as (e & _ & ? & ? & ? & _). by exists e.
  - intros cg' i Hi. destruct (decide (cg' = cg)) as [->|Hne]; [rewrite lookup_insert_eq in Hi; injection Hi as <-; exists fresh; split_and!; try done; apply lookup_insert_eq|].
    destruct (place_other cg' i Hne Hi) as [H1 H2]. destruct (co_cgroup c Hok _ _ H1) as (e & He & ? & ? & Hc). exists e. split_and!; [by apply Hold|done|done|].
    rewrite lookup_insert_ne by congruence. by apply Hkeep.
  - intros i [Hi Hne]%Hfr. destruct (co_free c Hok i Hi) as [[x Hx] Hn]. split; [eexists; by apply Hold|]. intros cid'. destruct (decide (cid' = cid)) as [->|Hd]; [rewrite lookup_insert_eq; congruence|].
    rewrite lookup_insert_ne by done. intros Hb. apply (Hn cid'). by eapply lookup_weaken.
  - done.
Qed.
Lemma place_sound m : sound c m -> sound c' (<[cg := (cid, ag, pr)]> (without m cid)).
Proof.
  intros Hs cg' i e Hi He. destruct (decide (cg' = cg)) as [->|Hne].
  - cbn in Hi, He. rewrite lookup_insert_eq in Hi. injection Hi as <-. rewrite Hes in He. injection He as <-. apply lookup_insert_eq.
  - destruct (place_other cg' i Hne Hi) as [H1 H2]. destruct (co_cgroup c Hok _ _ H1) as (e' & He' & _ & _ & Hc). cbn in He. rewrite (Hold i e' H2 He') in He. injection He as <-.
    rewrite lookup_insert_ne by done. apply without_lookup. split; [by eapply Hs|]. intros Hx. cbn in Hx. congruence.
Qed.
Lemma place_complete m : complete c m -> complete c' (<[cg := (cid, ag, pr)]> (without m cid)).
Proof.
  intros [Hc1 Hc2]. split; cbn.
  - intros cid' i e Hi He. destruct (decide (cid' = cid)) as [->|Hne]; [rewrite lookup_insert_eq in Hi; injection Hi as <-; rewrite Hes in He; injection He as <-; apply lookup_insert_eq|].
    rewrite lookup_insert_ne in Hi by done. destruct (place_cont cid' i Hne Hi) as (e' & He1 & He2 & _ & _ & Hi'). rewrite He2 in He. injection He as ->.
    pose proof (Hc1 cid' i e (lookup_weaken _ _ _ _ Hi Hsub) He1) as Hg. rewrite lookup_insert_ne; [done|]. intros E. rewrite <- E in Hg. by apply Hmine in Hg.
  - intros cg' x Hx. destruct (decide (cg' = cg)) as [->|Hne]; [rewrite lookup_insert_eq; eauto|]. rewrite (lookup_insert_ne _ cg cg') in Hx by done. rewrite lookup_insert_ne by done.
    apply without_lookup in Hx as [Hx _]. by eapply Hc2.
Qed.
End Place.

Section Drop.
Context (c : LabelCache) (cid : string) (idx : nat) (e : labelEntry) (Hok : cache_ok c) (Hc : byCont c !! cid = Some idx) (He : entries c !! idx = Some e).
Let c' := mkCache (<[idx := zero_entry true]> (entries c)) (free c ++ [idx]) (delete (cgroupID e) (byCgroup c)) (delete cid (byCont c)).
Lemma drop_other cg i : byCgroup c' !! cg = Some i -> cg <> cgroupID e /\ byCgroup c !! cg = Some i /\ i <> idx.
Proof.
  cbn. intros [Hne Hi]%lookup_delete_Some. split_and!; [done|done|]. intros ->. destruct (co_cgroup c Hok _ _ Hi) as (e' & He' & Hcg & _). congruence.
Qed.
Lemma drop_cont cid' i : byCont c' !! cid' = Some i -> cid' <> cid /\ byCont c !! cid' = Some i /\ i <> idx.
Proof. cbn. intros [Hne Hi]%lookup_delete_Some. split_and!; [done|done|]. intros ->. apply Hne. by eapply same_slot. Qed.
Lemma drop_ok : cache_ok c'.
Proof.
  split.
  - intros cid' i (Hne & Hi & Hx)%drop_cont. destruct (co_cont c Hok _ _ Hi) as (e' & ? & ? & ?). exists e'. cbn. by rewrite list_lookup_insert_ne.
  - intros cg i (Hne & Hi & Hx)%drop_other. destruct (co_cgroup c Hok _ _ Hi) as (e' & ? & ? & ? & Hcont). exists e'. cbn. rewrite list_lookup_insert_ne by done. split_and!; try done.
    rewrite lookup_delete_ne; [done|]. congruence.
  - cbn. intros i [Hi| ->%list_elem_of_singleton]%elem_of_app.
    + destruct (co_free c Hok i Hi) as [[x Hx] Hn]. assert (i <> idx) by (intros ->; by apply (Hn cid)). split; [rewrite list_lookup_insert_ne by done; eauto|].
      intros cid' Hd. apply lookup_delete_Some in Hd as [_ Hd]. by apply (Hn cid').
    + split; [rewrite list_lookup_insert_eq by (by eapply lookup_lt_Some); eauto|]. intros cid' Hd. by apply (drop_cont cid' idx) in Hd as (_ & _ & ?).
  - cbn. apply NoDup_app. split; [apply (co_nodup c Hok)|]. split; [|apply NoDup_singleton]. intros i Hi ->%list_elem_of_singleton. destruct (co_free c Hok idx Hi) as [_ Hn]. by apply (Hn cid).
Qed.
Lemma drop_sound m : sound c m -> sound c' (without m cid).
Proof.
  intros Hs cg i e' (Hne & Hi & Hx)%drop_other He'. cbn in He'. rewrite list_lookup_insert_ne in He' by done. apply without_lookup. split; [by eapply Hs|].
  destruct (co_cgroup c Hok _ _ Hi) as (e'' & He'' & _ & _ & Hcont). intros E. cbn in E. congruence.
Qed.
Lemma drop_complete m : sound c m -> complete c m -> complete c' (without m cid).
Proof.
  intros Hs [Hc1 Hc2]. pose proof (Hc1 _ _ _ Hc He) as Hg. split.
  - intros cid' i e' (Hne & Hi & Hx)%drop_cont He'. cbn in *. rewrite list_lookup_insert_ne in He' by done. pose proof (Hc1 _ _ _ Hi He') as Hg'. rewrite lookup_delete_ne; [done|]. intros E. congruence.
  - intros cg x [Hx Hn]%without_lookup. destruct (Hc2 _ _ Hx) as [i Hi]. cbn. rewrite lookup_delete_ne; [eauto|]. intros E. subst cg. rewrite (Hs _ _ _ Hg He) in Hx. injection Hx as <-.
    apply Hn. destruct (co_cont c Hok _ _ Hc) as (e' & He' & ? & _). cbn. congruence.
Qed.
End Drop.

Lemma absent_sound c m cid : cache_ok c -> byCont c !! cid = None -> sound c m -> sound c (without m cid).
Proof.
  intros Hok Hn Hs cg i e Hi He. apply without_lookup. split; [by eapply Hs|]. destruct (co_cgroup c Hok _ _ Hi) as (e' & He' & _ & _ & Hc). intros E. cbn in E. congruence.
Qed.
Lemma without_complete c m cid : complete c m -> complete c (without m cid).
Proof. intros [Hc1 Hc2]. split; [done|]. intros cg x [Hx _]%without_lookup. by eapply Hc2. Qed.

Definition simulates (m : owners) (o : op) (c c' : LabelCache) : Prop :=
  cache_ok c' /\ sound c' (spec_op m o) /\ (complete c m -> clean_op m o -> complete c' (spec_op m o)).
Lemma bind_simulates c m cg cid ag pr : cache_ok c -> sound c m -> exists c', AddOrUpdate c cg cid ag pr = GoOk c' /\ simulates m (Bind cg cid ag pr) c c'.
Proof.
  intros Hok Hs. unfold AddOrUpdate, simulates. cbn [spec_op]. destruct (String.eqb cid ""); [by exists c|]. destruct (byCont c !! cid) as [idx|] eqn:Ec.
  - destruct (co_cont c Hok _ _ Ec) as (e & He & _). rewrite He. eexists. split; [reflexivity|]. split; [by eapply rebind_ok|]. split; [by eapply rebind_sound|]. intros Hcm Hcl. by eapply rebind_complete.
  - destruct (byCgroup c !! cg) as [idx|] eqn:Eg.
    + destruct (co_cgroup c Hok _ _ Eg) as (prior & Hp & _ & _ & Hcp). rewrite Hp.
      exists (mkCache (<[idx := mkEntry cg cid ag pr false]> (entries c)) (free c) (<[cg := idx]> (byCgroup c)) (<[cid := idx]> (delete (containerID prior) (byCont c)))).
      split; [by rewrite (insert_id (byCgroup c))|].
      assert (idx < length (entries c))%nat as Hlt by (by eapply lookup_lt_Some).
      assert ((forall j x, j <> idx -> entries c !! j = Some x -> <[idx := mkEntry cg cid ag pr false]> (entries c) !! j = Some x) /\ (forall cg', cg' <> cg -> byCgroup c !! cg' <> Some idx) /\
        (forall cid', delete (containerID prior) (byCont c) !! cid' <> Some idx) /\ (forall cid' i, byCont c !! cid' = Some i -> i <> idx -> delete (containerID prior) (byCont c) !! cid' = Some i) /\
        (forall i, i ∈ free c -> i ∈ free c /\ i <> idx)) as (H1 & H2 & H3 & H4 & H5).
      { split_and!.
        - intros j x Hj Hx. by rewrite list_lookup_insert_ne.
        - intros cg' Hne Hi. apply Hne. by eapply same_cgroup.
        - intros cid' [Hne Hi]%lookup_delete_Some. apply Hne. by eapply same_slot.
        - intros cid' i Hi Hne. rewrite lookup_delete_ne; [done|]. congruence.
        - intros i Hi. split; [done|]. intros ->. destruct (co_free c Hok _ Hi) as [_ Hn]. by apply (Hn (containerID prior)). }
      assert (<[idx := mkEntry cg cid ag pr false]> (entries c) !! idx = Some (mkEntry cg cid ag pr false)) as He by (by rewrite list_lookup_insert_eq).
      split; [eapply place_ok|split; [eapply place_sound|intros Hcm _; eapply place_complete]]; eauto using co_nodup; intros; first [congruence|apply delete_subseteq].
    + assert (forall idx, (forall cid', byCont c !! cid' <> Some idx) -> forall cg', byCgroup c !! cg' <> Some idx) as Hcg.
      { intros idx Hn cg' Hi. destruct (co_cgroup c Hok _ _ Hi) as (e & _ & _ & _ & Hc). by apply (Hn (containerID e)). }
      destruct (last (free c)) as [idx|] eqn:El.
      * apply last_Some in El as [fr El]. destruct (co_free c Hok idx) as [[x Hx] Hn]; [rewrite El; set_solver|]. rewrite Hx. eexists. split; [reflexivity|].
        pose proof (co_nodup c Hok) as Hnd. rewrite El in Hnd. apply NoDup_app in Hnd as (Hnd & Hdis & _). rewrite El, length_app. cbn [length]. replace (length fr + 1 - 1)%nat with (length fr) by lia. rewrite take_app_length.
        assert (<[idx := mkEntry cg cid ag pr false]> (entries c) !! idx = Some (mkEntry cg cid ag pr false)) as He by (rewrite list_lookup_insert_eq; [done|by eapply lookup_lt_Some]).
        assert (forall j y, j <> idx -> entries c !! j = Some y -> <[idx := mkEntry cg cid ag pr false]> (entries c) !! j = Some y) as H1 by (intros j y Hj Hy; by rewrite list_lookup_insert_ne).
        assert (forall i, i ∈ fr -> i ∈ free c /\ i <> idx) as H2 by (intros i Hi; rewrite El; split; [set_solver|intros ->; apply (Hdis idx Hi); set_solver]).
        split; [eapply place_ok|split; [eapply place_sound|intros Hcm _; eapply place_complete]]; eauto; congruence.
      * eexists. split; [reflexivity|]. set (idx := length (entries c)). apply last_None in El.
        assert (forall cid', byCont c !! cid' <> Some idx) as Hn by (intros cid' Hi; destruct (co_cont c Hok _ _ Hi) as (e & He%lookup_lt_Some & _); unfold idx in He; lia).
        assert ((entries c ++ [mkEntry cg cid ag pr false]) !! idx = Some (mkEntry cg cid ag pr false)) as He by (by apply list_lookup_middle).
        assert (forall j y, j <> idx -> entries c !! j = Some y -> (entries c ++ [mkEntry cg cid ag pr false]) !! j = Some y) as H1 by (intros j y _ Hy; by apply lookup_app_l_Some).
        rewrite El. split; [eapply place_ok|split; [eapply place_sound|intros Hcm _; eapply place_complete]]; eauto using NoDup_nil_2; try congruence; intros i Hi; by apply elem_of_nil in Hi.
Qed.
Lemma op_simulates c m o : cache_ok c -> sound c m -> exists c', cache_op c o = GoOk c' /\ simulates m o c c'.
Proof.
  intros Hok Hs. destruct o as [cg cid ag pr|cid]; [by apply bind_simulates|]. unfold cache_op, EvictByContainerID, simulates. cbn [spec_op]. destruct (String.eqb cid ""); [by exists c|].
  destruct (byCont c !! cid) as [idx|] eqn:Ec.
  - destruct (co_cont c Hok _ _ Ec) as (e & He & _). rewrite He. eexists. split; [reflexivity|]. split; [by eapply drop_ok|]. split; [by eapply drop_sound|]. intros Hcm _. by eapply drop_complete.
  - exists c. split; [done|]. split; [done|]. split; [by apply absent_sound|]. intros Hcm _. by apply without_complete.
Qed.

Lemma empty_ok : cache_ok NewLabelCache /\ sound NewLabelCache ∅ /\ complete NewLabelCache ∅.
Proof. split_and!; [split; cbn; try done; [by intros i ?%elem_of_nil|constructor]|by intros cg i e ?|split; by intros]. Qed.
Lemma ops_simulate l c m : cache_ok c -> sound c m ->
  exists c', cache_ops c l = GoOk c' /\ cache_ok c' /\ sound c' (foldl spec_op m l) /\ (complete c m -> clean m l -> complete c' (foldl spec_op m l)).
Proof.
  revert c m. induction l as [|o l IH]; intros c m Hok Hs; [by exists c|]. destruct (op_simulates c m o Hok Hs) as (c1 & H1 & Hok1 & Hs1 & Hc1). cbn [cache_ops foldl clean]. rewrite H1.
  destruct (IH c1 (spec_op m o) Hok1 Hs1) as (c2 & H2 & Hok2 & Hs2 & Hc2). exists c2. split_and!; [done|done|done|]. intros Hc [Ho Hl]. by apply Hc2, Hl; apply Hc1.
Qed.

(** The promise a cache keeps at least. *)
Definition owners_of (c : LabelCache) : owners := omap (fun i => entry_labels <$> entries c !! i) (byCgroup c).
Lemma own_sound c : sound c (owners_of c).
Proof. intros cg i e Hi He. unfold owners_of. rewrite lookup_omap, Hi. cbn. by rewrite He. Qed.
Lemma cache_op_total c o : cache_ok c -> exists c', cache_op c o = GoOk c' /\ cache_ok c'.
Proof. intros Hok. destruct (op_simulates c (owners_of c) o Hok (own_sound c)) as (c' & H & Hok' & _). by exists c'. Qed.

(** ** Accounting *)

Definition accounted (buffer : nat) (s : Service) : Prop :=
  let m := metrics s in
  RingbufReceived m = QueueReceived m + QueueDropped m + Z.of_nat (length (queue s)) /\ EmitSucceeded m = Z.of_nat (length (emitted s)) /\
  (processor_done s = false -> QueueReceived m = ParseErrors m + EmitSucceeded m) /\ (length (queue s) <= buffer)%nat.
Lemma step_accounted buffer s s' : cache_ok (cache s) -> step buffer s s' -> accounted buffer s -> accounted buffer s' /\ cache_ok (cache s').
Proof.
  intros Hok Hst (H1 & H2 & H3 & H4). destruct Hst as [raw|?|?|now Hp Hq|?|?|?|cg cid ins|ty act id|domains]; try (split; [done|exact Hok]).
  - split; [|unfold drain_record; by case_match]. unfold drain_record, accounted. destruct (Nat.ltb_spec (length (queue s)) buffer); cbn; rewrite ?length_app; cbn; split_and!; try lia; done || intros Hd; specialize (H3 Hd); lia.
  - split; [|unfold process_record; by repeat case_match]. unfold process_record. destruct (queue s) as [|raw rest] eqn:Eq; [done|]. specialize (H3 Hp). cbn [length] in H1, H4.
    destruct (parseEvent now raw) as [ev|]; [|unfold accounted; cbn; split_and!; lia || done]. unfold enrich. rewrite (Lookup_ok _ _ Hok). unfold accounted; cbn. rewrite length_app. cbn. split_and!; lia || done.
  - unfold handleEnroll. destruct ins as [[ag pr]|]; [|by split]. destruct (cache_op_total (cache s) (Bind cg cid ag pr) Hok) as (c' & E & Hc'). cbn in E. rewrite E. by split.
  - unfold onDockerEvent. destruct (negb _); [by split|]. destruct (_ || _); [|by split]. destruct (cache_op_total (cache s) (Evict id) Hok) as (c' & E & Hc'). cbn in E. rewrite E. by split.
Qed.
Lemma reachable_accounted buffer s : rtc (step buffer) NewService s -> accounted buffer s /\ cache_ok (cache s).
Proof.
  intros Hr. assert (accounted buffer NewService /\ cache_ok (cache NewService)) as H0 by (split; [unfold accounted; cbn; split_and!; lia || done|apply empty_ok]).
  induction Hr as [s|s1 s2 s3 Hst Hr IH]; [done|]. apply IH. destruct H0 as [Ha Hc]. by eapply step_accounted.
Qed.
(** The processor only leaves by itself: it never panics. *)
Lemma enrich_total c names ev : cache_ok c -> exists ev', enrich c names ev = GoOk ev'.
Proof. intros Hok. unfold enrich. rewrite (Lookup_ok _ _ Hok). eauto. Qed.

(** ** The breaker *)

Definition exports (c : circuitExporter) (outcomes : list bool) : circuitExporter := foldl (fun c failed => (Export c failed).2.1.1) c outcomes.
(** How many of the last exports failed in a row. *)
Definition streak (outcomes : list bool) : Z := foldl (fun n (failed : bool) => if failed then n + 1 else 0) 0 outcomes.
Lemma exports_spec th l : 1 <= th ->
  let c := exports (mkCircuit th 0 false) l in
  threshold c = th /\ if tripped c then exists k, th <= streak (take k l) else consecutiveFail c = streak l /\ forall k, streak (take k l) < th.
Proof.
  intros Hth. unfold exports. induction l as [|b l IH] using rev_ind; [cbn; split; [done|]; split; [done|]; intros [|k]; cbn; lia|].
  cbn zeta in *. rewrite foldl_snoc. set (c := foldl _ _ l) in *. destruct IH as [Ht IH]. unfold Export. destruct (tripped c) eqn:Et.
  { cbn. rewrite Et. split; [done|]. destruct IH as (k & Hk). exists (k `min` length l)%nat. rewrite take_app_le by lia. destruct (decide (k <= length l)%nat); [by rewrite Nat.min_l|].
    rewrite Nat.min_r by lia. rewrite firstn_all. by rewrite firstn_all2 in Hk by lia. }
  destruct IH as [Hf Hk]. assert (streak (l ++ [b]) = if b then streak l + 1 else 0) as Es by (unfold streak; by rewrite foldl_snoc).
  assert (forall k, streak (take k (l ++ [b])) = streak (take k l) \/ streak (take k (l ++ [b])) = streak (l ++ [b])) as Htake.
  { intros k. destruct (decide (k <= length l)%nat); [left; by rewrite take_app_le|right]. rewrite firstn_all2; [done|]. rewrite length_app. cbn. lia. }
  cbn [snd fst]. unfold export_result. rewrite Et. destruct b; cbn [negb].
  - destruct (Z.leb_spec (threshold c) (consecutiveFail c + 1)) as [Hle|Hgt]; cbn [fst snd tripped threshold consecutiveFail]; (split; [done|]).
    + exists (length (l ++ [true])). rewrite firstn_all, Es. lia.
    + split; [lia|]. intros k. destruct (Htake k) as [-> | ->]; [done|lia].
  - cbn. split; [done|]. split; [done|]. intros k. destruct (Htake k) as [-> | ->]; [done|]. rewrite Es. lia.
Qed.

(** ** Names *)

Lemma refresh_fold ds next h d : foldl refresh_step next ds !! h = Some d -> next !! h = Some d \/ (d ∈ ds /\ d <> "" /\ DomainHash d = h).
Proof.
  revert next. induction ds as [|x ds IH]; intros next; [by left|]. cbn [foldl]. intros [H|(? & ? & ?)]%IH; [|right; split_and!; [by right|done|done]]. unfold refresh_step in H.
  destruct (String.eqb_spec x ""); [by left|]. apply lookup_insert_Some in H as [[<- <-]|[_ H]]; [right; split_and!; [left|done|done]|by left].
Qed.
Lemma refresh_fold_present ds next h : is_Some (next !! h) \/ (exists d, d ∈ ds /\ d <> "" /\ DomainHash d = h) -> is_Some (foldl refresh_step next ds !! h).
Proof.
  revert next. induction ds as [|x ds IH]; intros next; [intros [H|(d & H & _)]; [done|by apply elem_of_nil in H]|]. cbn [foldl]. intros H. apply IH. unfold refresh_step.
  destruct (String.eqb_spec x "") as [Ex|Ex].
  - destruct H as [H|(d & Hd & Hne & Hh)]; [by left|]. apply elem_of_cons in Hd as [->|Hd]; [done|right; eauto].
  - destruct (decide (DomainHash x = h)) as [<-|Hh]; [left; rewrite lookup_insert_eq; eauto|]. destruct H as [H|(d & Hd & Hne & Hdh)]; [left; by rewrite lookup_insert_ne|].
    apply elem_of_cons in Hd as [->|Hd]; [done|right; eauto].
Qed.

(** A hash of a name of the source is attributed to a name of the source with that
    hash; any other hash to none. *)
Theorem name_attributed ds h :
  let d := ReverseLookup (refresh (Some ds)) h in
  (d <> "" -> d ∈ ds /\ DomainHash d = h) /\ (forall d', d' ∈ ds -> d' <> "" -> DomainHash d' = h -> h <> 0 -> d <> "").
Proof.
  cbv zeta. unfold ReverseLookup, refresh. cbn [default]. destruct (Z.eqb_spec h 0) as [->|Hz]; [by split|]. split.
  - destruct (_ !! h) as [d|] eqn:E; cbn; [|done]. intros _. apply refresh_fold in E as [E|(? & _ & ?)]; [by rewrite lookup_empty in E|done].
  - intros d' Hd Hne Hh _. destruct (refresh_fold_present ds ∅ h) as [d E]; [right; eauto|]. destruct (_ !! h) as [d0|] eqn:E0; [|by rewrite E in E0]. cbn. apply refresh_fold in E0 as [E0|(_ & ? & _)]; [by rewrite lookup_empty in E0|done].
Qed.

(** ** Theorems *)

(** C5: The log tells what the kernel decided.  When a process of an enforced
    container connects or sends, has room in the ring buffer and a token left, the
    program adds one record, and the logger decodes it to the container's cgroup, the
    destination and port the process had aimed at, its transport and system call, the
    hash of the name behind the address, and the verdict: denied exactly when the
    call was refused.  The exceptions are the calls of [silent], which are let through
    unchanged and leave no record: to the IPv6 loopback, and IPv4 connects on sockets
    other than stream and datagram ones. *)
Theorem decision_logged p t k cfg a now :
  enforced t k cfg -> wf_run t k a -> t_reserved t = true -> (ratelimit_check_and_take t (maps k) (t_cgroup t)).2 = true ->
  if silent p a then run p t k a = (k, a, 1)
  else exists ev e, events_ringbuf (run p t k a).1.1 = events_ringbuf k ++ [ev] /\ parseEvent now (record_bytes ev) = Ok e /\
    CgroupID e = t_cgroup t /\ DstIP e = Some (destination p a) /\ DstPort e = ntohs (user_port a) /\ L4Proto e = sa_type a /\ NoDst e = false /\ DomainHashOf e = name_hash p k a /\
    EventName (EmitSite e) = (match p with Connect4 | Connect6 => "ebpf.egress.connect" | Sendmsg4 | Sendmsg6 => "ebpf.egress.sendmsg" end) /\
    Verdict_String (Verdict e) = (if (run p t k a).2 =? 0 then "denied" else "allowed").
Proof.
  intros He Hw Hr Hok. destruct (silent p a) eqn:Hs; [by eapply run_silent|]. destruct (run_reports p t k cfg a He Hs) as (k1 & Hch & ->). set (ret := (run p t k a).2). injection Hch as Hrl Hring.
  exists (reported p t k a ret), (decoded now (reported p t k a ret)). rewrite submit_granted; [|done|by rewrite (take_ok_channel _ (maps k))]. rewrite Hring.
  split_and!; [done|by apply parse_record, reported_wf|done|by apply decoded_destination|done|done| |done|apply decoded_site|].
  - unfold decoded, reported. cbn [NoDst ev_flags]. by destruct (dst_ip p a), p.
  - unfold decoded, reported. cbn [Verdict ev_verdict]. by destruct (ret =? 0).
Qed.

(** C36: The label cache refines its promise.  Through any binds and evictions it
    never panics and never labels a cgroup with a container other than the one
    bound to it last, and not since evicted or bound elsewhere; and it labels every
    such cgroup, as long as no container that is already bound takes a cgroup from
    another one. *)
Theorem label_cache_refines ops :
  exists c, cache_ops NewLabelCache ops = GoOk c /\
    (forall cg x, Lookup c cg = GoOk (Some x) -> foldl spec_op ∅ ops !! cg = Some x) /\
    (clean ∅ ops -> forall cg, Lookup c cg = GoOk (foldl spec_op ∅ ops !! cg)).
Proof.
  destruct empty_ok as (H1 & H2 & H3). destruct (ops_simulate ops NewLabelCache ∅ H1 H2) as (c & Hc & Hok & Hs & Hcm). exists c.
  assert (forall cg x, Lookup c cg = GoOk (Some x) -> foldl spec_op ∅ ops !! cg = Some x) as Hsound.
  { intros cg x. rewrite (Lookup_ok c cg Hok). destruct (byCgroup c !! cg) as [i|] eqn:Ei; [|done]. cbn. destruct (entries c !! i) as [e|] eqn:Ee; [|done]. cbn. intros [= <-]. by eapply Hs. }
  split_and!; [done|done|]. intros Hcl cg. destruct (Hcm H3 Hcl) as [_ Hall]. destruct (foldl spec_op ∅ ops !! cg) as [x|] eqn:Ex.
  - destruct (Hall cg x Ex) as [i Hi]. destruct (co_cgroup c Hok _ _ Hi) as (e & He & _). pose proof (Hs cg i e Hi He) as Hm. rewrite Ex in Hm. injection Hm as ->.
    rewrite (Lookup_ok c cg Hok), Hi. cbn. by rewrite He.
  - destruct (Lookup c cg) as [[x|]| |] eqn:El; [by rewrite (Hsound _ _ El) in Ex|done|..]; by rewrite (Lookup_ok c cg Hok) in El.
Qed.

(** No record is lost uncounted: through any interleaving of reader, processor,
    subscribers and shutdown, every record read is emitted, refused by the decoder,
    dropped at a full queue, or still queued. *)
Theorem pipeline_accounts buffer s (Hr : rtc (step buffer) NewService s) : accounted buffer s.
Proof. apply (reachable_accounted buffer s Hr). Qed.

(** The breaker opens at the first streak of failures as long as the threshold, and
    stays open; closed, it calls the exporter, open, it does not. *)
Theorem breaker_opens th l failed (Hth : 1 <= th) :
  let c := exports (mkCircuit th 0 false) l in (tripped c = true <-> exists k, th <= streak (take k l)) /\ (Export c failed).1 = negb (tripped c).
Proof.
  cbv zeta. destruct (exports_spec th l Hth) as [_ H]. split; [|unfold Export; by destruct (tripped _)]. destruct (tripped _); [done|]. destruct H as [_ H]. split; [done|].
  intros (k & Hk). specialize (H k). lia.
Qed.

(** ** Instances *)

Lemma decision_logged_witness :
  exists ev e, events_ringbuf (run Sendmsg4 demo_task demo_kernel demo_addr).1.1 = [ev] /\ parseEvent 0 (record_bytes ev) = Ok e /\ DstIP e = Some (GoNet.Addr4 [93; 184; 216; 34]) /\ DstPort e = 8125 /\
    Verdict_String (Verdict e) = "allowed".
Proof.
  destruct (decision_logged Sendmsg4 demo_task demo_kernel demo_net demo_addr 0) as (ev & e & Hr & Hp & _ & Hd & Hport & _ & _ & _ & _ & Hv).
  - apply demo_enforced.
  - split; [cbn; lia|cbn; lia|cbn; unfold SOCK_DGRAM; lia|repeat constructor; lia|apply map_Forall_singleton; cbn; lia].
  - reflexivity.
  - vm_compute. reflexivity.
  - exists ev, e. split; [exact Hr|]. split; [exact Hp|]. split; [exact Hd|]. split; [exact Hport|exact Hv].
Defined.

(** A container that moves to a cgroup another one holds: the eviction of the other
    one takes its label away. *)
Lemma rebind_drops_label :
  match cache_ops NewLabelCache [Bind 1 "a" "dev" ""; Bind 2 "b" "ops" ""; Bind 1 "b" "ops" ""; Evict "a"] with
  | GoOk c => Lookup c 1 = GoOk None /\ is_Some (byCont c !! "b")
  | _ => False
  end.
Proof. vm_compute. eauto. Qed.

(** [Stop] cancels the context the processor listens to right after it closes the
    reader, so the processor may leave with records in the queue. *)
Lemma stop_abandons_queue :
  exists s, rtc (step 64) NewService s /\ reader_done s = true /\ processor_done s = true /\ length (queue s) = 1%nat.
Proof.
  exists (process_exit (drain_exit (stop_cancel (stop_close (drain_record 64 NewService []))))). split; [|done].
  eapply rtc_l; [by apply step_record|]. eapply rtc_l; [by apply step_stop_close|]. eapply rtc_l; [by apply step_stop_cancel|]. eapply rtc_l; [by apply step_reader_exit|].
  eapply rtc_l; [apply step_processor_exit; [done|by left]|]. apply rtc_refl.
Qed.
End NetLoggerSpec.
