(* ===== verification/Enforcement.v ===== *)
(** * Enforcement, end to end

    The kernel's programs, the routes of a sync and Envoy's generated configuration
    of one rule set, put together: where a connection of an agent can end up, and
    that the port the kernel picks is the listener Envoy binds for it. *)

From S2P Require Import Prelude GoStrings GoNet EgressRule Spans Rules Conflicts Mappings Checks HttpRoutes EnvoyTree Generator Routes EnvoyLayers EnvoyInv EnvoyPolicy EnvoyReach EbpfApi Ebpf Resolver Bpf BpfSpec.
Import Go Rule Spans Rules Mappings Checks HttpRoutes EnvoyTree Generator Routes EnvoyLayers EnvoyInv EnvoyPolicy EnvoyReach EbpfApi Ebpf Resolver Bpf BpfSpec.

Module Enforcement.

(** The route map holds the routes of a rule set, as a clean sync leaves it. *)
Definition in_force (rules : list EgressRule) (ports : EnvoyPorts) (k : Kernel) : Prop := forall key, route_map (maps k) !! key = route_port (RoutesFromRules rules ports) key.

Lemma synced_in_force rules ports f now k :
  sync_ok (SyncRoutes f now (maps k) (RoutesFromRules rules ports)).2 = true -> in_force rules ports (with_maps k (SyncRoutes f now (maps k) (RoutesFromRules rules ports)).1).
Proof. intros H key. by apply SyncRoutes_route_map. Qed.

(** ** Routes and listeners in lockstep *)

Lemma route_port_elem routes key ep : route_port routes key = Some ep -> exists rt, rt ∈ routes /\ key_of rt = key /\ rt_EnvoyPort rt = ep.
Proof.
  unfold route_port. rewrite fmap_Some. intros (rt & Hl & ->). exists rt. apply last_Some_elem_of in Hl. apply list_elem_of_filter in Hl as [Hk Hin]. auto.
Qed.
Lemma route_port_app_absent r1 r2 key : (forall rt, rt ∈ r2 -> key_of rt <> key) -> route_port (r1 ++ r2) key = route_port r1 key.
Proof.
  induction r2 as [|rt r2 IH] using rev_ind; [by rewrite app_nil_r|]. intros Hno. rewrite app_assoc, route_port_snoc. case_decide as E; [exfalso; eapply Hno; [|exact E]; set_solver|].
  apply IH. intros rt' Hin. apply Hno. set_solver.
Qed.

(** The last pass only appends routes of web rules. *)
Lemma tls_appends ports rules st : exists extra, ts_out (foldl (tls_step ports) st rules) = ts_out st ++ extra /\
  forall rt, rt ∈ extra -> exists r dst port proto, r ∈ rules /\ tls_target r = Some (dst, port) /\ rt = egress_route ports dst port proto.
Proof.
  revert st. induction rules as [|r rules IH]; intros st; [exists []; split; [by rewrite app_nil_r|by intros ? ?%elem_of_nil]|].
  cbn [foldl]. destruct (IH (tls_step ports st r)) as (extra & -> & Hx). assert (exists own, ts_out (tls_step ports st r) = ts_out st ++ own /\
    forall rt, rt ∈ own -> exists dst port proto, tls_target r = Some (dst, port) /\ rt = egress_route ports dst port proto) as (own & -> & Hown).
  { unfold tls_step. destruct (tls_target r) as [[dst port]|]; [|exists []; split; [by rewrite app_nil_r|by intros ? ?%elem_of_nil]].
    case_bool_decide; [exists []; split; [by rewrite app_nil_r|by intros ? ?%elem_of_nil]|]. destruct (_ && _); cbn [ts_out].
    - eexists. split; [by rewrite <- app_assoc|]. intros rt [->|[->|[]%elem_of_nil]%elem_of_cons]%elem_of_cons; eauto.
    - eexists. split; [reflexivity|]. intros rt ->%list_elem_of_singleton. eauto. }
  exists (own ++ extra). split; [by rewrite app_assoc|]. intros rt [(dst & port & proto & ? & ?)%Hown|(r' & dst & port & proto & ? & ? & ?)%Hx]%elem_of_app.
  - exists r, dst, port, proto. split; [left|done].
  - exists r', dst, port, proto. split; [by right|done].
Qed.

(** The kernel's route of a mapped host and port is the port of its listener: both
    sides keep the last mapping. *)
Lemma mapping_route_port ms host port :
  host <> "" -> 0 <= port <= 65535 -> (forall m, m ∈ ms -> DomainHash (m_Dst m) = DomainHash host -> m_Dst m = host) -> (forall m, m ∈ ms -> 1 <= m_DstPort m <= 65535) ->
  route_port (mapping_routes ms L4ProtoTCP) (DomainHash host, port, L4ProtoTCP) = uint16 <$> listener_ports ms !! dedicatedPortKey host port.
Proof.
  intros Hh Hp. induction ms as [|m ms IH] using rev_ind; intros Hinj Hb; [done|].
  assert (1 <= m_DstPort m <= 65535) as Hbm by (apply Hb; set_solver).
  assert (mapping_routes (ms ++ [m]) L4ProtoTCP = mapping_routes ms L4ProtoTCP ++ (if decide (m_Dst m <> "") then [mappingRoute m L4ProtoTCP] else [])) as ->.
  { unfold mapping_routes. rewrite filter_app, fmap_app, filter_cons, filter_nil. by case_decide. }
  assert (listener_ports (ms ++ [m]) !! dedicatedPortKey host port = if decide (m_Dst m = host /\ m_DstPort m = port) then Some (m_EnvoyPort m) else listener_ports ms !! dedicatedPortKey host port) as ->.
  { unfold listener_ports. rewrite foldl_snoc. assert (max_int >= 65535) by (by vm_compute). case_decide as Ek; [destruct Ek as [-> ->]; apply lookup_insert_eq|].
    apply lookup_insert_ne. intros E. apply Ek. apply dedicatedPortKey_inj; [lia|lia|done]. }
  assert (route_port (mapping_routes ms L4ProtoTCP) (DomainHash host, port, L4ProtoTCP) = uint16 <$> listener_ports ms !! dedicatedPortKey host port) as IH'.
  { apply IH; intros m' Hm'; [apply Hinj|apply Hb]; set_solver. }
  destruct (decide (m_Dst m <> "")) as [Hne|He].
  - rewrite route_port_snoc. unfold key_of. cbn. rewrite (uint16_id (m_DstPort m)) by lia. case_decide as Ek; case_decide as Ek'; [done| | |done].
    + exfalso. apply Ek'. injection Ek as Eh Ep. split; [|done]. apply Hinj; [set_solver|done].
    + exfalso. apply Ek. by destruct Ek' as [-> ->].
  - rewrite app_nil_r. case_decide as Ek; [|done]. exfalso. destruct Ek as [Ek _]. apply He. by rewrite Ek.
Qed.

(** No other host of the rules has the hash of this one. *)
Definition unambiguous (rules : list EgressRule) (host : string) : Prop := forall r, r ∈ rules -> DomainHash (normalizeDomain (Dst r)) = DomainHash host -> normalizeDomain (Dst r) = host.

Lemma mapping_rule rules ports m : m ∈ TCPMappings rules ports -> exists r, r ∈ rules /\ normalizeDomain (Dst r) = m_Dst m.
Proof.
  destruct m as [d q e]. intros Hm. destruct (proj1 (dedicated_loop_elem (TCPPortBase ports) 0 is_tcp_class tcpDefaultPort isCIDR rules d q) (ex_intro _ e Hm)) as (r & Hr & _ & _ & Ed & _). by exists r.
Qed.
Lemma web_opaque_differ r r' : isOpaqueProto (Proto r) = true -> isOpaqueProto (Proto r') = false -> canonicalProto (Proto r') <> canonicalProto (Proto r).
Proof.
  intros Ho Hn. destruct (opaque_canonical r Ho) as (-> & H1 & H2). unfold canonicalProto, isOpaqueProto in *. intros E. repeat case_match; congruence.
Qed.
Lemma opaque_route rules ports r port e :
  checkProtoCollisions rules = None -> r ∈ rules -> unambiguous rules (normalizeDomain (Dst r)) -> normalizeDomain (Dst r) <> "" -> is_tcp_class (family r) = true -> is_Some (PortSpan r) ->
  port ∈ dedicatedPorts r tcpDefaultPort -> listener_ports (TCPMappings rules ports) !! dedicatedPortKey (normalizeDomain (Dst r)) port = Some e ->
  route_port (RoutesFromRules rules ports) (DomainHash (normalizeDomain (Dst r)), port, L4ProtoTCP) = Some (uint16 e).
Proof.
  intros Hcol Hr Hun Hne Ht Hsp Hp Hl. pose proof (dedicatedPorts_span _ _ _ Hsp Hp) as Hc. destruct (tcp_family r Ht) as [Ho _].
  assert (0 <= port <= 65535) as Hb.
  { destruct Hsp as [[lo hi] Hs]. unfold stack_span, covers_span in Hc. rewrite Hs in Hc. apply PortSpan_bounds in Hs. unfold maxPort in Hs. cbn in Hc. lia. }
  unfold RoutesFromRules. destruct (tls_appends ports rules (mkTls ∅ (udp_seen (UDPMappings rules ports)) (mapping_routes (TCPMappings rules ports) L4ProtoTCP ++ mapping_routes (UDPMappings rules ports) L4ProtoUDP)))
    as (extra & -> & Hx). cbn [ts_out]. rewrite <- app_assoc, route_port_app_absent.
  - rewrite mapping_route_port; [by rewrite Hl|done|done| |].
    + intros m (r' & Hr' & <-)%mapping_rule. by apply Hun.
    + intros m. apply mapping_dst_port, tcpDefaultPort_pos.
  - intros rt [(m & _ & _ & ->)%elem_mapping_routes|(r' & dst & q & proto & Hr' & Htg & ->)%Hx]%elem_of_app; [done|]. intros [= Eh Eq _]. pose proof (tls_target_port _ _ _ Htg) as Hq.
    rewrite uint16_id in Eq by lia. subst q. apply tls_target_spec in Htg as (Ha & Hno & _ & -> & _ & Hs). apply (Hun r' Hr') in Eh.
    apply (proj1 (collisions_none rules) Hcol r' r Hr' Hr). unfold stacks_collide, builds_stack. split_and!.
    + assert (isDenyAction (Action r') = false) as -> by (unfold isAllowAction, isDenyAction in *; apply orb_true_iff in Ha as [Ha|Ha]; apply String.eqb_eq in Ha; by rewrite Ha). done.
    + by rewrite Ho, andb_false_r.
    + done.
    + by apply web_opaque_differ.
    + exists port. split; [|done]. rewrite (proj2 (web_port_single r' port Hs)). unfold covers_span. cbn. lia.
Qed.

(** ** The kernel's side *)

(** A destination that is not on the host. *)
Definition outside (cc : ContainerConfig) (ip : Z) : Prop :=
  is_loopback ip = false /\ is_in_subnet ip (NetAddr cc) (NetMask cc) = false /\ ip <> GatewayIp cc /\ ip <> HostProxyIp cc.

Lemma stream_routed p t k cc a ip ep :
  enforced t k cc -> t_mark t <> CLAWKER_MARK -> p = Connect4 \/ p = Connect6 -> sa_type a = SOCK_STREAM -> dst_ip p a = Some ip -> outside cc ip ->
  ntohs (user_port a) <> DNS_PORT -> routed k ip (ntohs (user_port a)) SOCK_STREAM ep -> ep <> 0 ->
  (run p t k a).1.2 = set_dst p a (EnvoyIp cc) (htons ep) /\ (run p t k a).2 = 1.
Proof.
  intros He Hm Hp Hty Hi (H1 & H2 & H3 & H4) Hd (e & Hdns & Hr) Hne. destruct (run_enforced p t k cc a ip He Hi) as (ev & _ & ->); [destruct Hp as [-> | ->]; by left|]. cbn [fst snd].
  assert ((decision p t k cc a ip).2 = V_REWRITE (EnvoyIp cc) (htons ep)) as ->; [|destruct Hp as [-> | ->]; done].
  assert (decision p t k cc a ip = decide_connect t k (sa_type a) cc (t_cgroup t) ip (ntohs (user_port a))) as -> by (destruct Hp as [-> | ->]; done).
  unfold decide_connect, lookup_route. rewrite (proj2 (Z.eqb_neq _ _) Hm), (proj2 (Z.eqb_neq _ _) Hd), H1, H2, (proj2 (Z.eqb_neq _ _) H3), (proj2 (Z.eqb_neq _ _) H4), andb_false_r, Hty, Hdns, Hr.
  cbn. by rewrite (proj2 (Z.eqb_neq _ _) Hne).
Qed.

(** The ports of Envoy a destination can be redirected to. *)
Inductive arrival (rules : list EgressRule) (ports : EnvoyPorts) (k : Kernel) (ip port : Z) : Z -> Prop :=
  | at_egress : arrival rules ports k ip port (EgressPort ports)
  | at_mapping m e : m ∈ TCPMappings rules ports ++ UDPMappings rules ports -> dns_cache (maps k) !! ip = Some e -> de_DomainHash e = DomainHash (m_Dst m) -> m_DstPort m = port ->
      arrival rules ports k ip port (m_EnvoyPort m).
Lemma routed_arrival rules ports k ip port l4 ep :
  Validate ports = Ok tt -> validateDedicatedLayout rules ports = None -> in_force rules ports k -> routed k ip port l4 ep -> arrival rules ports k ip port ep.
Proof.
  intros Hv Hl Hf (e & Hd & Hr). rewrite Hf in Hr. apply route_port_elem in Hr as (rt & Hin & [= Eh Ep _] & <-).
  destruct (RoutesFromRules_targets rules ports rt Hv Hl Hin) as [-> | (m & Hm & -> & Eh' & Ep')]; [apply at_egress|]. eapply at_mapping; [done|exact Hd|congruence|congruence].
Qed.
Lemma plan_checks validate rules ports als ec :
  GenerateEnvoyConfig validate rules ports als = Ok ec -> Validate ports = Ok tt /\ validateDedicatedLayout rules ports = None /\ checkProtoCollisions rules = None.
Proof.
  unfold GenerateEnvoyConfig, GeneratePlan, opt_check. destruct (Validate ports) as [[]|]; [|done]. destruct (checkProtoCollisions rules); [done|].
  destruct (checkOpaquePortActionConflicts rules); [done|]. by destruct (validateDedicatedLayout rules ports).
Qed.

(** ** Theorems *)

Section EndToEnd.
Context `{EnvoyLaws}.

(** C1: An agent is confined, end to end.  Let Envoy run the configuration of a
    rule set whose destinations pass validation, let the kernel hold the routes of
    that rule set and the container's egress port be Envoy's, and let an unprivileged
    process of an enforced container, without the exempting mark, connect or send on
    a stream or datagram socket.  Then the call is refused, or stays on the host, or
    goes to CoreDNS, or arrives at Envoy, at the egress port or at the dedicated port
    of a host that was resolved to that address; and whatever a listener on that port
    forwards, for a request whose authority is a host or a host and a decimal port,
    is granted by a rule that does not deny it, and logged as allowed. *)
Theorem agent_confined validate rules ports als ec p t k cc a :
  GenerateEnvoyConfig validate rules ports als = Ok ec -> Forall (fun r => ValidateDst (Dst r) = Ok tt) rules -> in_force rules ports k ->
  enforced t k cc -> CEgressPort cc = EgressPort ports -> t_mark t <> CLAWKER_MARK -> ip_type p a ->
  let a' := (run p t k a).1.2 in let ret := (run p t k a).2 in
  ret = 0 \/ (a' = a /\ local p cc a) \/ a' = set_dst p a (CorednsIp cc) (htons DNS_PORT) \/
  exists ip e, dst_ip p a = Some ip /\ a' = set_dst p a (EnvoyIp cc) (htons e) /\ arrival rules ports k ip (ntohs (user_port a)) e /\
    forall name l c q tgt v, listeners ec !! name = Some l -> lb_port (l_base l) = e -> wf_authority (q_authority q) -> serve ec name c q = Some (Some tgt, v) ->
      v = VerdictAllowed /\ exists r, r ∈ rules /\ isDenyAction (Action r) = false /\ grants (promoted_rule r) c q tgt.
Proof.
  intros Hg Hv Hf He Hp Hm Ht. cbv zeta. destruct (plan_checks _ _ _ _ _ Hg) as (Hvp & Hlay & _).
  assert (forall e name l c q tgt v, listeners ec !! name = Some l -> lb_port (l_base l) = e -> wf_authority (q_authority q) -> serve ec name c q = Some (Some tgt, v) ->
    v = VerdictAllowed /\ exists r, r ∈ rules /\ isDenyAction (Action r) = false /\ grants (promoted_rule r) c q tgt) as Hgr by (intros; by eapply traffic_granted).
  destruct (run_outcome p t k cc a He Hm Ht) as [|Hloc|ip Hi Hd|ip Hi _ _ _ _|ip ep Hi _ Hne Hr|ip Hi _ _ _|]; auto.
  - do 3 right. exists ip, (EgressPort ports). rewrite Hp. split_and!; [done|done|apply at_egress|apply Hgr].
  - do 3 right. exists ip, ep. split_and!; [done|done|by eapply routed_arrival|apply Hgr].
  - do 3 right. exists ip, (EgressPort ports). rewrite Hp. split_and!; [done|done|apply at_egress|apply Hgr].
Qed.

(** The kernel and Envoy agree on every opaque port.  When the routes and the
    configuration of one rule set are in force, a stream to an address that was
    resolved from the host of a tcp or ssh rule, on a port of the rule, is
    redirected to the port on which Envoy binds the listener of exactly that host
    and port, and that listener forwards it there when the rule allows it, and
    drops it when the rule denies it.  The host's 32-bit hash is taken not to be
    shared with another host of the rules. *)
Theorem opaque_stream_delivered validate rules ports als ec p t k cc a r ip entry :
  GenerateEnvoyConfig validate rules ports als = Ok ec -> Forall plain_key rules -> in_force rules ports k -> enforced t k cc -> t_mark t <> CLAWKER_MARK ->
  r ∈ rules -> is_tcp_class (family r) = true -> isCIDR (Dst r) = false -> is_Some (PortSpan r) -> unambiguous rules (normalizeDomain (Dst r)) -> normalizeDomain (Dst r) <> "" ->
  p = Connect4 \/ p = Connect6 -> sa_type a = SOCK_STREAM -> dst_ip p a = Some ip -> outside cc ip -> ntohs (user_port a) <> DNS_PORT -> ntohs (user_port a) ∈ dedicatedPorts r tcpDefaultPort ->
  dns_cache (maps k) !! ip = Some entry -> de_DomainHash entry = DomainHash (normalizeDomain (Dst r)) ->
  let host := normalizeDomain (Dst r) in let port := ntohs (user_port a) in
  exists e l, (run p t k a).1.2 = set_dst p a (EnvoyIp cc) (htons e) /\ (run p t k a).2 = 1 /\
    listeners ec !! tcpPinnedName host port = Some l /\ lb_kind (l_base l) = KindTCP /\ lb_port (l_base l) = e /\
    forall c q, serve ec (tcpPinnedName host port) c q = Some (if isDenyAction (Action r) then (None, VerdictDenied) else (Some (ToHost host port), VerdictAllowed)).
Proof.
  intros Hg Hk Hf He Hm Hr Ht Hd Hsp Hun Hne Hp Hty Hi Hout Hdns Hport Hent Hhash. cbv zeta. destruct (plan_checks _ _ _ _ _ Hg) as (Hvp & Hlay & Hcol).
  destruct (opaque_listener validate rules ports als ec r _ Hg Hk Hr Ht Hd Hport) as (e & l & Hmap & Hlook & Hlis & Hkind & Hpt & Hs). exists e, l.
  assert (uint16 e = e /\ e <> 0) as [Hu Hz].
  { split; [apply (layout_envoy_port rules ports (mkMapping (normalizeDomain (Dst r)) (ntohs (user_port a)) e) Hvp Hlay), elem_of_app; by left|].
    apply Validate_ok in Hvp as [Hb _]. unfold named_ports in Hb. rewrite !Forall_cons in Hb. destruct Hb as (_ & Hbt & _). cbn in Hbt.
    assert (e ∈ m_EnvoyPort <$> TCPMappings rules ports) as Hie by (apply list_elem_of_fmap; eexists; split; [|exact Hmap]; done). apply elem_of_envoy_ports in Hie. lia. }
  pose proof (opaque_route rules ports r _ e Hcol Hr Hun Hne Ht Hsp Hport Hlook) as Hroute. rewrite Hu in Hroute.
  destruct (stream_routed p t k cc a ip e He Hm Hp Hty Hi Hout Hdns) as [Hto Hret]; [|done|].
  { exists entry. split; [done|]. rewrite Hhash, Hf. exact Hroute. }
  by split_and!.
Qed.
(** C2: The whole way of an opaque rule.  Let the routes and the configuration of one
    rule set be in force, and let CoreDNS answer a query for the host of a tcp or ssh
    rule (a host, not a range, with explicit ports) with an address that is not zero
    and whose entry in the kernel's name cache could be written.  Then a stream to
    that address, from an unprivileged process of an enforced container without the
    exempting mark, on a port of the rule other than 53, is redirected to the port on
    which Envoy binds the listener of exactly that host and port, and that listener
    forwards it there when the rule allows it, and drops it when the rule denies it.
    The address is taken to be outside the host (no loopback, containers' network,
    gateway or host proxy), the protocols, ports and actions of the rules to be free of
    colons, and the host's 32-bit hash not to be shared with another host of
    the rules. *)
Theorem resolved_host_delivered validate rules ports als ec p t k cc a r addr ttl f now next d' answer rcode err :
  GenerateEnvoyConfig validate rules ports als = Ok ec -> Forall plain_key rules -> in_force rules ports k -> enforced t k cc -> t_mark t <> CLAWKER_MARK ->
  r ∈ rules -> is_tcp_class (family r) = true -> isCIDR (Dst r) = false -> is_Some (PortSpan r) -> unambiguous rules (normalizeDomain (Dst r)) -> normalizeDomain (Dst r) <> "" ->
  ServeDNS f now (normalizeDomain (Dst r) +:+ ".") true next true (dns_cache (maps k)) = (d', Some answer, rcode, err) ->
  A addr ttl ∈ answer -> IPToUint32 addr <> 0 -> dns_update_fails f (IPToUint32 addr) = false ->
  p = Connect4 \/ p = Connect6 -> sa_type a = SOCK_STREAM -> dst_ip p a = Some (IPToUint32 addr) -> outside cc (IPToUint32 addr) -> ntohs (user_port a) <> DNS_PORT ->
  ntohs (user_port a) ∈ dedicatedPorts r tcpDefaultPort ->
  let host := normalizeDomain (Dst r) in let port := ntohs (user_port a) in let k' := with_maps k (with_dns (maps k) d' (seededIPs (maps k))) in
  exists e l, (run p t k' a).1.2 = set_dst p a (EnvoyIp cc) (htons e) /\ (run p t k' a).2 = 1 /\
    listeners ec !! tcpPinnedName host port = Some l /\ lb_kind (l_base l) = KindTCP /\ lb_port (l_base l) = e /\
    forall c q, serve ec (tcpPinnedName host port) c q = Some (if isDenyAction (Action r) then (None, VerdictDenied) else (Some (ToHost host port), VerdictAllowed)).
Proof.
  intros Hg Hk Hf [He1 He2 He3] Hm Hr Ht Hd Hsp Hun Hne Hdns Hin Hz Hfail Hp Hty Hi Hout Hport Hmem. destruct (answers_bound _ _ _ _ _ _ _ _ _ Hdns) as [Hb _].
  destruct (Hb addr ttl Hin Hz Hfail) as (entry & Hentry & Hhash). rewrite zoneToDomain_fqdn in Hhash. cbv zeta.
  eapply opaque_stream_delivered; try eassumption. by split.
Qed.
End EndToEnd.

(** ** Instances *)

(** A kernel with the container of [demo_net], resolved names, and a clean sync of
    a rule set. *)
Definition resolved (names : list (Z * string)) : Kernel :=
  mkKernel (mkManager {[5 := demo_net]} ∅ ∅ (list_to_map ((fun '(ip, n) => (ip, mkDns (DomainHash n) 0)) <$> names)) ∅ ∅ ∅ ∅ ∅ ∅) ∅ [] 0.
Definition synced (rules : list EgressRule) (names : list (Z * string)) : Kernel :=
  with_maps (resolved names) (SyncRoutes no_kfaults 0 (maps (resolved names)) (RoutesFromRules rules demo_ports)).1.
Definition address (type ip port : Z) : sock_addr := mkAddr type ip (0, 0, 0, 0) (htons port).
Definition demo_synced : Kernel := synced demo_policy [(demo_dst, "db.internal.test")].
Lemma demo_in_force : in_force demo_policy demo_ports demo_synced.
Proof. apply synced_in_force. vm_compute. reflexivity. Qed.
Lemma synced_enforced : enforced demo_task demo_synced demo_net.
Proof. by split; vm_compute. Qed.

Lemma agent_confined_witness :
  exists ip e, dst_ip Connect4 (address SOCK_STREAM demo_dst 5432) = Some ip /\
    (run Connect4 demo_task demo_synced (address SOCK_STREAM demo_dst 5432)).1.2 = set_dst Connect4 (address SOCK_STREAM demo_dst 5432) (EnvoyIp demo_net) (htons e) /\
    arrival demo_policy demo_ports demo_synced ip 5432 e.
Proof.
  destruct (agent_confined (fun _ => true) demo_policy demo_ports demo_als demo_config Connect4 demo_task demo_synced demo_net (address SOCK_STREAM demo_dst 5432))
    as [E|[[E _]|[E|(ip & e & Hi & Ha & Har & _)]]].
  - exact demo_ok.
  - exact demo_valid.
  - exact demo_in_force.
  - exact synced_enforced.
  - reflexivity.
  - discriminate.
  - by left.
  - vm_compute in E. discriminate.
  - vm_compute in E. discriminate.
  - vm_compute in E. discriminate.
  - by exists ip, e.
Defined.

Definition demo_fresh : Kernel := synced demo_policy [].
Definition demo_answer : list RR := [OtherRR; A (GoNet.Addr4 [93; 184; 216; 34]) 300].
Definition demo_resolved : gmap Z dns_entry := writeARecords no_kfaults 0 "db.internal.test." (dns_cache (maps demo_fresh)) demo_answer.
Lemma fresh_in_force : in_force demo_policy demo_ports demo_fresh.
Proof. apply synced_in_force. vm_compute. reflexivity. Qed.

Lemma resolved_host_delivered_witness :
  let k' := with_maps demo_fresh (with_dns (maps demo_fresh) demo_resolved (seededIPs (maps demo_fresh))) in let a := address SOCK_STREAM demo_dst 5432 in
  exists e l, (run Connect4 demo_task k' a).1.2 = set_dst Connect4 a (EnvoyIp demo_net) (htons e) /\ (run Connect4 demo_task k' a).2 = 1 /\
    listeners demo_config !! "tcp_db_internal_test_5432" = Some l /\ lb_kind (l_base l) = KindTCP /\ lb_port (l_base l) = e /\
    forall c q, serve demo_config "tcp_db_internal_test_5432" c q = Some (Some (ToHost "db.internal.test" 5432), VerdictAllowed).
Proof.
  apply (resolved_host_delivered (fun _ => true) demo_policy demo_ports demo_als demo_config Connect4 demo_task demo_fresh demo_net (address SOCK_STREAM demo_dst 5432)
    (mkRule "db.internal.test" "tcp" "5432" "allow" [] "" false) (GoNet.Addr4 [93; 184; 216; 34]) 300 no_kfaults 0 (0, false, Some demo_answer) demo_resolved demo_answer 0 false).
  - exact demo_ok.
  - repeat constructor.
  - exact fresh_in_force.
  - split; vm_compute; done.
  - discriminate.
  - right. left.
  - reflexivity.
  - vm_compute. reflexivity.
  - vm_compute. eexists. reflexivity.
  - intros r Hr. unfold demo_policy in Hr. rewrite !elem_of_cons in Hr. destruct Hr as [->|[->|[->|[->|[]%elem_of_nil]]]]; vm_compute; try reflexivity; discriminate.
  - discriminate.
  - reflexivity.
  - right. left.
  - discriminate.
  - reflexivity.
  - by left.
  - reflexivity.
  - reflexivity.
  - vm_compute. split_and!; discriminate || reflexivity.
  - vm_compute. discriminate.
  - vm_compute. left.
Defined.

(** Every h3 host shares the egress port, and the flow map has one entry per socket
    and backend: once a socket has sent to two of them, what the first one answers
    is reported as coming from the second. *)
Lemma quic_reply_misattributed :
  let rules := [web "a.com" "https" "443" []; web "b.com" "https" "443" []] in let ip1 := demo_dst in let ip2 := demo_dst + 1 in
  let k := synced rules [(ip1, "a.com"); (ip2, "b.com")] in let a := address SOCK_DGRAM ip1 443 in let b := address SOCK_DGRAM ip2 443 in
  let k1 := (run Sendmsg4 demo_task k a).1.1 in let k2 := (run Sendmsg4 demo_task k1 b).1.1 in let from_a := (run Sendmsg4 demo_task k a).1.2 in
  from_a = set_v4 a (EnvoyIp demo_net) (htons (EgressPort demo_ports)) /\
  (receive Sendmsg4 demo_task k1 from_a).1.2 = a /\ (receive Sendmsg4 demo_task k2 from_a).1.2 = b.
Proof. vm_compute. done. Qed.

(** The gateway is in the subnet of its network, and the subnet is let through
    before the gateway is looked at: every port of the gateway is reached directly,
    the lockdown is never taken. *)
Lemma gateway_let_through t k cc a :
  enforced t k cc -> is_in_subnet (GatewayIp cc) (NetAddr cc) (NetMask cc) = true -> sa_type a = SOCK_STREAM -> user_ip4 a = GatewayIp cc -> ntohs (user_port a) <> DNS_PORT ->
  (run Connect4 t k a).1.2 = a /\ (run Connect4 t k a).2 = 1.
Proof.
  intros He Hs Hty Hip Hd. destruct (run_enforced Connect4 t k cc a _ He eq_refl (or_introl Hty)) as (ev & _ & ->). cbn [fst snd decision].
  unfold decide_connect. rewrite Hip, (proj2 (Z.eqb_neq _ _) Hd), Hs. by repeat case_match.
Qed.
Lemma gateway_reached :
  match NewContainerConfig "172.20.0.200" "172.20.0.201" "172.20.0.1" "172.20.0.0/16" "" 18374 10000 with
  | GoOk cc =>
      let k := mkKernel (mkManager {[5 := cc]} ∅ ∅ ∅ ∅ ∅ ∅ ∅ ∅ ∅) ∅ [] 0 in let a := address SOCK_STREAM (GatewayIp cc) 22 in
      (run Connect4 demo_task k a).1.2 = a /\ (run Connect4 demo_task k a).2 = 1
  | _ => False
  end.
Proof. vm_compute. done. Qed.

End Enforcement.
