(* ===== verification/Handler.v ===== *)
(** * The firewall handler

    controlplane/firewall/handler.go and drift.go: the RPCs that enrol,
    disable, bypass and tear down enforcement, the dead-man timers of a bypass,
    and the reconcile closure.  What Docker, the stack's containers and the
    network answer during a call is an [Env]; the rules are in a
    [RuleStore.store].  The kernel is reached through the interface
    [EbpfApi.EBPFManager], and every theorem rests on its laws only; the manager
    of [Ebpf] is an instance.  The handler is wired as in production: stack,
    store and configuration are there. *)

From S2P Require Import Prelude GoStrings EgressRule Wire Rules Conflicts Canonical RuleStore Mappings Routes EbpfApi Ebpf.
Import Go Rule Wire Rules Conflicts Canonical RuleStore Mappings Routes EbpfApi.

Module Handler.

Section Firewall.
(** The kernel, through the interface of package ebpf. *)
Context {M : Type} `{EBPFManagerLaws M}.

(** ** State *)

Record bypassEntry := mkEntry { containerID : string; cgroupID : Z }.

Record Handler := mkHandler {
  ebpf : M;
  rules_store : store;
  (** the entry of each container: the id of its timer *)
  bypassTimers : gmap string nat;
  (** the Go timers armed and neither stopped nor fired, by id *)
  timers : gmap nat bypassEntry;
  next_timer : nat;
  storedCgroupID : gmap string Z;
  (** the EBPFContainerEnrolled events published *)
  enrolled : list (string * Z);
}.

Definition with_ebpf (h : Handler) (m : M) : Handler :=
  mkHandler m (rules_store h) (bypassTimers h) (timers h) (next_timer h) (storedCgroupID h) (enrolled h).
Definition with_store (h : Handler) (s : store) : Handler :=
  mkHandler (ebpf h) s (bypassTimers h) (timers h) (next_timer h) (storedCgroupID h) (enrolled h).
Definition with_timers (h : Handler) (b : gmap string nat) (t : gmap nat bypassEntry) (n : nat) : Handler :=
  mkHandler (ebpf h) (rules_store h) b t n (storedCgroupID h) (enrolled h).
Definition with_stored (h : Handler) (s : gmap string Z) : Handler :=
  mkHandler (ebpf h) (rules_store h) (bypassTimers h) (timers h) (next_timer h) s (enrolled h).
Definition publishEnrolled (h : Handler) (cid : string) (cg : Z) : Handler :=
  mkHandler (ebpf h) (rules_store h) (bypassTimers h) (timers h) (next_timer h) (storedCgroupID h) (enrolled h ++ [(cid, cg)]).

(** ** What the outside answers during a call *)

(** The answer of a ContainerResolver. *)
Inductive resolution := ResolveFailed | Resolved (id cgroupPath : string) (present : bool).

Record NetworkInfo := mkNet { ni_EnvoyIP : string; ni_CoreDNSIP : string; ni_Gateway : string; ni_CIDR : string }.

Record Env := mkEnv {
  resolve : string -> resolution;
  cgroupIDFn : string -> option Z;
  (** the error of Stack.EnsureRunning and Stack.Reload, if any *)
  stack_EnsureRunning : option error;
  stack_Reload : option error;
  (** Stack.Status: the probe's failure, or whether the stack runs *)
  stack_Status : option bool;
  stack_Stop_fails : bool;
  stack_NetworkInfo : option NetworkInfo;
  host_proxy_enabled : bool;
  host_proxy_port : Z;
  (** the lookup of host.docker.internal *)
  lookup_host : option (list string);
  ports : EnvoyPorts;
  remove_configs_fails : bool;
  (** the running agents; [None] when they cannot be listed *)
  listAgents : option (list string);
  kernel : kfaults;
  clock : Z;
  storage : faults;
  queue_closed : bool;
}.

(** A gRPC status: its code and the reasons attached. *)
Abbreviation rpc_status := (code * list string)%type.

(** [toStatus] of an error that is not nil. *)
Definition status_of (e : error) : rpc_status := foldl (toStatus_step e) (Internal, []) sentinelDispatch.

Lemma status_of_toStatus e : toStatus (Some e) = Some (status_of e).
Proof. done. Qed.

(** A queued closure, and its submission: a closed queue refuses it. *)
Definition closure (A : Type) : Type := Handler -> Handler * result error A.

Definition submit {A} (env : Env) (h : Handler) (fn : closure A) : Handler * result error A :=
  if queue_closed env then (h, Err [ErrQueueClosed]) else fn h.

(** ** Timers *)

Definition stop_timer (h : Handler) (tid : nat) : Handler :=
  with_timers h (bypassTimers h) (delete tid (timers h)) (next_timer h).

Definition cancelBypassTimer (h : Handler) (cid : string) : Handler :=
  match bypassTimers h !! cid with
  | None => h
  | Some tid => with_timers h (delete cid (bypassTimers h)) (delete tid (timers h)) (next_timer h)
  end.

Definition CancelAllBypassTimers (h : Handler) : Handler :=
  let stopped := (map_to_list (bypassTimers h)).*2 in
  with_timers h ∅ (foldl (fun t tid => delete tid t) (timers h) stopped) (next_timer h).

Definition maxBypassTimeout : Z := 3600 * 10 ^ 9.
Definition defaultBypassTimeout : Z := 30 * 10 ^ 9.

(** [time.Duration] is a 64-bit count of nanoseconds. *)
Definition int64 (n : Z) : Z := (n + 2 ^ 63) mod 2 ^ 64 - 2 ^ 63.

Definition bypassTimeout (seconds : Z) : result rpc_status Z :=
  let timeout := int64 (seconds * 10 ^ 9) in
  let timeout := if timeout <=? 0 then defaultBypassTimeout else timeout in
  if timeout >? maxBypassTimeout then Err (InvalidArgument, []) else Ok timeout.

(** ** Enable *)

Definition resolveForEnable (env : Env) (h : Handler) (ref : string) : Handler * result rpc_status (string * string * Z) :=
  match resolve env ref with
  | ResolveFailed => (h, Err (Internal, []))
  | Resolved cid path present =>
      if negb present then (h, Err (status_of [ErrContainerGone]))
      else
        match cgroupIDFn env path with
        | None => (h, Err (Internal, []))
        | Some cg => (with_stored h (<[cid := cg]> (storedCgroupID h)), Ok (cid, path, cg))
        end
  end.

Definition resolveHostProxy (env : Env) : option (string * Z) :=
  if negb (host_proxy_enabled env) then Some (EmptyString, 0)
  else
    addrs ← lookup_host env;
    addr ← head addrs;
    let ip := TrimSpace addr in
    if String.eqb ip "" then None else Some (ip, uint16 (host_proxy_port env)).

Definition container_config (env : Env) (ni : NetworkInfo) (hp : string * Z) : go_outcome config_error ContainerConfig :=
  NewContainerConfig (ni_EnvoyIP ni) (ni_CoreDNSIP ni) (ni_Gateway ni) (ni_CIDR ni) hp.1 hp.2 (uint16 (EgressPort (ports env))).

Definition enable_closure (env : Env) (cid : string) (cg : Z) (cfg : ContainerConfig) : closure unit := fun h =>
  let '(m, ok) := Install (kernel env) (ebpf h) cg cfg in
  let h := with_ebpf h m in
  if (ok : bool) then (cancelBypassTimer h cid, Ok tt) else (h, Err []).

Definition FirewallEnable (env : Env) (h : Handler) (ref : string) : Handler * go_outcome rpc_status unit :=
  if String.eqb ref "" then (h, GoErr (InvalidArgument, []))
  else
    match resolveForEnable env h ref with
    | (h, Err e) => (h, GoErr e)
    | (h, Ok (cid, path, cg)) =>
        match stack_NetworkInfo env with
        | None => (h, GoErr (Internal, []))
        | Some ni =>
            match resolveHostProxy env with
            | None => (h, GoErr (Internal, []))
            | Some hp =>
                match container_config env ni hp with
                | GoPanic => (h, GoPanic)
                | GoErr _ => (h, GoErr (Internal, []))
                | GoOk cfg =>
                    match submit env h (enable_closure env cid cg cfg) with
                    | (h, Err e) => (h, GoErr (status_of e))
                    | (h, Ok _) => (publishEnrolled h cid cg, GoOk tt)
                    end
                end
            end
        end
    end.

(** ** Disable and Bypass *)

(** Both closures set the bypass flag. *)
Definition disable_closure (env : Env) (cg : Z) : closure unit := fun h =>
  let '(m, ok) := Disable (kernel env) (ebpf h) cg in
  (with_ebpf h m, if (ok : bool) then Ok tt else Err []).

Definition FirewallDisable (env : Env) (h : Handler) (ref : string) : Handler * result rpc_status unit :=
  if String.eqb ref "" then (h, Err (InvalidArgument, []))
  else
    match resolve env ref with
    | ResolveFailed => (h, Err (Internal, []))
    | Resolved cid path present =>
        let target :=
          if present then match cgroupIDFn env path with None => Err (Internal, []) | Some cg => Ok (Some cg) end
          else Ok (storedCgroupID h !! cid) in
        match target with
        | Err e => (h, Err e)
        | Ok None => (h, Ok tt)
        | Ok (Some cg) =>
            match submit env h (disable_closure env cg) with
            | (h, Err e) => (h, Err (status_of e))
            | (h, Ok _) => (h, Ok tt)
            end
        end
    end.

(** The part of FirewallBypass after the queued disable: it replaces the
    container's timer by a new one. *)
Definition arm_bypass (h : Handler) (e : bypassEntry) : Handler :=
  let h := with_stored h (<[containerID e := cgroupID e]> (storedCgroupID h)) in
  let t := match bypassTimers h !! containerID e with Some old => delete old (timers h) | None => timers h end in
  with_timers h (<[containerID e := next_timer h]> (bypassTimers h)) (<[next_timer h := e]> t) (S (next_timer h)).

(** The checks of FirewallBypass before its queued disable. *)
Definition bypass_target (env : Env) (ref : string) (seconds : Z) : result rpc_status bypassEntry :=
  if String.eqb ref "" then Err (InvalidArgument, [])
  else
    check bypassTimeout seconds then
    match resolve env ref with
    | ResolveFailed => Err (Internal, [])
    | Resolved cid path present =>
        if negb present then Err (status_of [ErrContainerGone])
        else match cgroupIDFn env path with None => Err (Internal, []) | Some cg => Ok (mkEntry cid cg) end
    end.

Definition FirewallBypass (env : Env) (h : Handler) (ref : string) (seconds : Z) : Handler * result rpc_status unit :=
  match bypass_target env ref seconds with
  | Err e => (h, Err e)
  | Ok entry =>
      match submit env h (disable_closure env (cgroupID entry)) with
      | (h, Err e) => (h, Err (status_of e))
      | (h, Ok _) => (arm_bypass h entry, Ok tt)
      end
  end.

(** ** The dead-man timer *)

(** Which cgroup to re-enforce: Docker's current answer, else the stored one. *)
Definition resolveBypassCgroupID (env : Env) (e : bypassEntry) : Z :=
  if String.eqb (containerID e) "" then cgroupID e
  else
    match resolve env (containerID e) with
    | ResolveFailed => cgroupID e
    | Resolved _ path present =>
        if negb present then cgroupID e else default (cgroupID e) (cgroupIDFn env path)
    end.

Definition restore_closure (env : Env) (cg : Z) : closure unit := fun h =>
  let '(m, ok) := Enable (kernel env) (ebpf h) cg in
  (with_ebpf h m, if (ok : bool) then Ok tt else Err []).

(** The timer's goroutine: the queued enable, then its map entry goes. *)
Definition bypassTimerFired (env : Env) (h : Handler) (e : bypassEntry) : Handler * result error unit :=
  let '(h, r) := submit env h (restore_closure env (resolveBypassCgroupID env e)) in
  (with_timers h (delete (containerID e) (bypassTimers h)) (timers h) (next_timer h), r).

(** ** Reconcile *)

(** The store of the handler is wired, as in production. *)
Definition routesFromStore (env : Env) (h : Handler) : list Route :=
  RoutesFromRules (canonical (mem (rules_store h))) (ports env).

Definition sync_routes (env : Env) (h : Handler) : Handler * bool :=
  let '(m, ok) := SyncRoutes (kernel env) (clock env) (ebpf h) (routesFromStore env h) in
  (with_ebpf h m, ok).

Definition reconcileStackClosure (env : Env) : closure bool := fun h =>
  match stack_Status env with
  | None => (h, Err [ErrStackProbe])
  | Some false => (h, Ok false)
  | Some true =>
      let reload_err := stack_Reload env in
      let '(h, synced) := sync_routes env h in
      match reload_err, synced with
      | None, true => (h, Ok true)
      | _, _ => (h, Err (default [] reload_err ++ (if (synced : bool) then [] else [ErrRouteSync])))
      end
  end.

(** The RPCs that only reconcile. *)
Definition FirewallReload (env : Env) (h : Handler) : Handler * result rpc_status bool :=
  match submit env h (reconcileStackClosure env) with
  | (h, Err e) => (h, Err (status_of e))
  | (h, Ok restarted) => (h, Ok restarted)
  end.

Definition FirewallSyncRoutes (env : Env) (h : Handler) : Handler * result rpc_status Z :=
  match submit env h (reconcileStackClosure env) with
  | (h, Err e) => (h, Err (status_of e))
  | (h, Ok _) => (h, Ok (uint32 (Z.of_nat (length (routesFromStore env h)))))
  end.

(** Certificate regeneration succeeds or not before the reconcile. *)
Definition FirewallRotateCA (env : Env) (certs_ok : bool) (h : Handler) : Handler * result rpc_status bool :=
  if negb certs_ok then (h, Err (status_of [ErrCertRegen])) else FirewallReload env h.

Definition FirewallListRules (env : Env) (h : Handler) : result rpc_status (list PbEgressRule) :=
  if queue_closed env then Err (status_of [ErrQueueClosed]) else Ok (EgressRulesToProto (canonical (mem (rules_store h)))).

(** The rule RPCs with their store half ([RuleStore]) and their queued half. *)
Section RuleRPC.
Variable regexp_compiles : string -> bool.

(** [rpc reconcile]: the store half, given what the reconcile answers. *)
Definition with_reconcile {A} (env : Env) (h : Handler) (call : result error bool -> rpc A)
    : Handler * result (option rpc_status) A :=
  let '(r, s, n) := call (Ok false) in
  let h := with_store h s in
  match n with
  | 0%nat => (h, r)
  | S _ => let '(h, rr) := submit env h (reconcileStackClosure env) in (h, (call rr).1.1)
  end.

Definition AddRules (env : Env) (h : Handler) (req : list PbEgressRule) : Handler * result (option rpc_status) AddRulesResult :=
  with_reconcile env h (fun rr => FirewallAddRules regexp_compiles rr (storage env) (rules_store h) req).

Definition RemoveRule (env : Env) (h : Handler) (dst proto port path : string)
    : Handler * result (option rpc_status) RemoveRuleResult :=
  with_reconcile env h (fun rr => FirewallRemoveRule rr (storage env) (rules_store h) dst proto port path).
End RuleRPC.

(** ** Init and Remove *)

Definition reenroll_step (env : Env) (cfg : ContainerConfig) (st : Handler * nat * nat) (cid : string) : Handler * nat * nat :=
  let '(h, done_, failed) := st in
  match resolve env cid with
  | ResolveFailed => (h, done_, S failed)
  | Resolved rid path present =>
      if negb present then st
      else
        match cgroupIDFn env path with
        | None => (h, done_, S failed)
        | Some cg =>
            let '(m, ok) := Install (kernel env) (ebpf h) cg cfg in
            let h := with_ebpf h m in
            if (ok : bool) then (publishEnrolled (with_stored h (<[rid := cg]> (storedCgroupID h))) rid cg, S done_, failed)
            else (h, done_, S failed)
        end
  end.

(** The handler left, and the agents enrolled and failed; [None] for a panic. *)
Definition reenrollAgents (env : Env) (h : Handler) : option (Handler * nat * nat) :=
  let skip := Some (h, 0%nat, 0%nat) in
  match listAgents env with
  | None | Some [] => skip
  | Some agents =>
      match stack_NetworkInfo env with
      | None => skip
      | Some ni =>
          match resolveHostProxy env with
          | None => skip
          | Some hp =>
              match container_config env ni hp with
              | GoPanic => None
              | GoErr _ => skip
              | GoOk cfg => Some (foldl (reenroll_step env cfg) (h, 0%nat, 0%nat) agents)
              end
          end
      end
  end.

(** A failed route sync is logged and passed over; the queue turns a panic of
    the closure into an error. *)
Definition init_closure (env : Env) : closure unit := fun h =>
  match stack_EnsureRunning env with
  | Some e => (h, Err e)
  | None =>
      match stack_Status env with
      | None => (h, Err [ErrStackProbe])
      | Some _ =>
          let h := (sync_routes env h).1 in
          match reenrollAgents env h with
          | None => (h, Err [])
          | Some (h, _, _) => (h, Ok tt)
          end
      end
  end.

Definition FirewallInit (env : Env) (h : Handler) : Handler * result rpc_status unit :=
  match submit env h (init_closure env) with
  | (h, Err e) => (h, Err (status_of e))
  | (h, Ok _) => (h, Ok tt)
  end.

Definition remove_closure (env : Env) : closure unit := fun h =>
  let h := CancelAllBypassTimers h in
  let '(m, flushed) := FlushAll (kernel env) (ebpf h) in
  let h := with_stored (with_ebpf h m) ∅ in
  if stack_Stop_fails env || negb flushed || remove_configs_fails env
  then (h, Err []) else (h, Ok tt).

Definition FirewallRemove (env : Env) (h : Handler) : Handler * result rpc_status unit :=
  match submit env h (remove_closure env) with
  | (h, Err e) => (h, Err (status_of e))
  | (h, Ok _) => (h, Ok tt)
  end.

(** ** Concurrency of bypasses

    The queue runs one closure at a time, but a bypass arms its timer after its
    closure, and a timer fires on its own: these are steps of their own. *)

Record Conc := mkConc {
  hs : Handler;
  (** bypasses between their queued disable and the arming of the timer *)
  pending : list bypassEntry;
  (** timers that fired and have not yet run their queued enable *)
  inflight : list bypassEntry;
  (** timers past their enable, about to drop their map entry *)
  cleaning : list bypassEntry;
  (** cgroups an operator disabled without a timer, and whose flag was not cleared since *)
  explicit : gset Z;
}.

Section Deadman.
(** The cgroup of a container, by any reference to it.  It is fixed: what
    drift does is outside this invariant. *)
Variable cg_of : string -> Z.

(** During a call the resolver answers with the container's cgroup or fails,
    the queue is open, and the kernel deletes bypass flags. *)
Record good (env : Env) : Prop := {
  good_resolve : forall ref cid path cg,
    resolve env ref = Resolved cid path true -> cgroupIDFn env path = Some cg -> cg = cg_of ref /\ cg_of cid = cg_of ref;
  good_kernel : clears_flags (kernel env);
  good_open : queue_closed env = false;
}.

(** The state after a step: a cgroup whose flag is gone is no longer disabled. *)
Definition after (h : Handler) (p i c : list bypassEntry) (x : gset Z) : Conc :=
  mkConc h p i c (filter (fun cg => is_Some (bypass_flag (ebpf h) cg)) x).

(** What the bypass of [e] does by itself: it arms its timer, which fires and runs its
    queued enable. *)
Inductive timer_step (env : Env) (e : bypassEntry) : Conc -> Conc -> Prop :=
  | t_arm p1 p2 h i c x :
      timer_step env e (mkConc h (p1 ++ e :: p2) i c x) (after (arm_bypass h e) (p1 ++ p2) i c x)
  | t_fire tid h p i c x :
      timers h !! tid = Some e ->
      timer_step env e (mkConc h p i c x) (after (stop_timer h tid) p (e :: i) c x)
  | t_restore i1 i2 h p c x :
      timer_step env e (mkConc h p (i1 ++ e :: i2) c x)
           (after (submit env h (restore_closure env (resolveBypassCgroupID env e))).1 p (i1 ++ i2) (e :: c) x).

Inductive step : Conc -> Conc -> Prop :=
  | s_bypass env ref secs e h' h p i c x : good env ->
      bypass_target env ref secs = Ok e -> submit env h (disable_closure env (cgroupID e)) = (h', Ok tt) ->
      step (mkConc h p i c x) (after h' (e :: p) i c x)
  | s_timer env e c c' : good env -> timer_step env e c c' -> step c c'
  | s_cleanup e c1 c2 h p i x :
      step (mkConc h p i (c1 ++ e :: c2) x)
           (after (with_timers h (delete (containerID e) (bypassTimers h)) (timers h) (next_timer h)) p i (c1 ++ c2) x)
  | s_enable env ref h p i c x : good env -> step (mkConc h p i c x) (after (FirewallEnable env h ref).1 p i c x)
  | s_disable env cg h p i c x : good env ->
      step (mkConc h p i c x) (after (disable_closure env cg h).1 p i c ({[cg]} ∪ x))
  | s_init env h p i c x : good env -> step (mkConc h p i c x) (after (FirewallInit env h).1 p i c x)
  | s_reload env h p i c x : good env -> step (mkConc h p i c x) (after (FirewallReload env h).1 p i c x)
  | s_remove env h p i c x : good env -> step (mkConc h p i c x) (after (FirewallRemove env h).1 p i c x).

(** Some bypass still holds the timer that will clear the flag of [cg]. *)
Definition covered (c : Conc) (cg : Z) : Prop :=
  exists e, cgroupID e = cg /\ (e ∈ pending c \/ e ∈ inflight c \/ exists tid, timers (hs c) !! tid = Some e).

Record deadman_inv (c : Conc) : Prop := {
  di_pending : forall e, e ∈ pending c -> cgroupID e = cg_of (containerID e);
  di_inflight : forall e, e ∈ inflight c -> cgroupID e = cg_of (containerID e);
  di_timers : forall tid e, timers (hs c) !! tid = Some e -> cgroupID e = cg_of (containerID e) /\ (tid < next_timer (hs c))%nat;
  di_map : forall cid tid, bypassTimers (hs c) !! cid = Some tid ->
    (tid < next_timer (hs c))%nat /\ forall e, timers (hs c) !! tid = Some e -> containerID e = cid;
  di_flags : forall cg, is_Some (bypass_flag (ebpf (hs c)) cg) -> cg ∈ explicit c \/ covered c cg;
}.

(** [h'] only lost bypass flags, map entries and timers, and no timer of a
    cgroup that is still flagged. *)
Record relaxes (h' h : Handler) : Prop := {
  rx_timers : forall tid e, timers h' !! tid = Some e -> timers h !! tid = Some e;
  rx_map : forall cid tid, bypassTimers h' !! cid = Some tid -> bypassTimers h !! cid = Some tid;
  rx_next : next_timer h' = next_timer h;
  rx_flags : forall cg, is_Some (bypass_flag (ebpf h') cg) -> is_Some (bypass_flag (ebpf h) cg);
  rx_kept : forall tid e, is_Some (bypass_flag (ebpf h') (cgroupID e)) -> timers h !! tid = Some e -> timers h' !! tid = Some e;
}.

Lemma relaxes_inv h' h p i c x : relaxes h' h -> deadman_inv (mkConc h p i c x) -> deadman_inv (mkConc h' p i c x).
Proof.
  intros [Ht Hm Hn Hf Hk] [I1 I2 I3 I4 I5]. split; cbn in *; [done|done|..].
  - intros tid e He. rewrite Hn. by apply I3, Ht.
  - intros cid tid Hc. rewrite Hn. destruct (I4 cid tid (Hm _ _ Hc)) as [Hlt Hid]. split; [done|]. intros e He. by apply Hid, Ht.
  - intros cg Hcg. destruct (I5 cg (Hf cg Hcg)) as [|(e & <- & He)]; [by left|right]. exists e. split; [done|]. cbn in *.
    destruct He as [|[|[tid He]]]; [tauto..|]. right. right. exists tid. by apply Hk.
Qed.

Lemma relaxes_refl h : relaxes h h.
Proof. by split. Qed.

(** Same timers, and flags that only shrink. *)
Lemma relaxes_flags h' h :
  timers h' = timers h -> bypassTimers h' = bypassTimers h -> next_timer h' = next_timer h ->
  (forall cg, is_Some (bypass_flag (ebpf h') cg) -> is_Some (bypass_flag (ebpf h) cg)) -> relaxes h' h.
Proof. intros H1 H2 H3 H4. split; rewrite ?H1, ?H2; done. Qed.

Lemma relaxes_trans h1 h2 h3 : relaxes h1 h2 -> relaxes h2 h3 -> relaxes h1 h3.
Proof. intros [A1 A2 A3 A4 A5] [B1 B2 B3 B4 B5]. split; [eauto..|congruence|eauto|eauto]. Qed.

Lemma Install_flags env m cg cfg cg' :
  good env -> is_Some (bypass_flag (Install (kernel env) m cg cfg).1 cg') -> cg' <> cg /\ is_Some (bypass_flag m cg').
Proof.
  intros Hg. destruct (good_kernel _ Hg) as [Hd _]. rewrite install_flag. case_bool_decide as Hc; [by intros []|].
  specialize (Hd cg). naive_solver.
Qed.

Lemma sync_routes_relaxes env h : relaxes (sync_routes env h).1 h.
Proof.
  unfold sync_routes. pose proof (sync_flag (kernel env) (clock env) (ebpf h) (routesFromStore env h)) as Hs.
  destruct (SyncRoutes _ _ _ _) as [m ok]. apply relaxes_flags; [done..|]. intros cg. cbn in *. by rewrite Hs.
Qed.

Lemma reenroll_step_relaxes env cfg h n k cid : good env -> relaxes (reenroll_step env cfg (h, n, k) cid).1.1 h.
Proof.
  intros Hg. unfold reenroll_step. destruct (resolve env cid) as [|rid path []]; [apply relaxes_refl| |apply relaxes_refl].
  cbn [negb]. destruct (cgroupIDFn env path) as [cg|]; [|apply relaxes_refl].
  pose proof (Install_flags env (ebpf h) cg cfg) as Hb. destruct (Install _ _ _ _) as [m ok]. cbn [fst] in Hb.
  destruct ok; apply relaxes_flags; [done..| |done|done|done|]; cbn; intros cg' Hx; by apply Hb.
Qed.

Lemma reenroll_fold_relaxes env cfg h l : good env -> relaxes (foldl (reenroll_step env cfg) (h, 0%nat, 0%nat) l).1.1 h.
Proof.
  intros Hg. induction l as [|x l IH] using rev_ind; [apply relaxes_refl|]. rewrite foldl_app. cbn.
  destruct (foldl _ _ l) as [[h1 n1] k1]. eapply relaxes_trans; [by apply reenroll_step_relaxes|exact IH].
Qed.

Lemma reenrollAgents_relaxes env h :
  good env -> match reenrollAgents env h with Some r => relaxes r.1.1 h | None => True end.
Proof.
  intros Hg. unfold reenrollAgents. destruct (listAgents env) as [[|a agents]|]; [apply relaxes_refl| |apply relaxes_refl].
  destruct (stack_NetworkInfo env); [|apply relaxes_refl]. destruct (resolveHostProxy env); [|apply relaxes_refl].
  destruct (container_config _ _ _); [|apply relaxes_refl|done]. by apply reenroll_fold_relaxes.
Qed.

Lemma FirewallInit_relaxes env h : good env -> relaxes (FirewallInit env h).1 h.
Proof.
  intros Hg. unfold FirewallInit, submit. rewrite (good_open _ Hg). unfold init_closure.
  destruct (stack_EnsureRunning env); [apply relaxes_refl|]. destruct (stack_Status env); [|apply relaxes_refl].
  pose proof (reenrollAgents_relaxes env (sync_routes env h).1 Hg) as Hr.
  destruct (reenrollAgents env _) as [[[h' n] k]|]; cbn [fst]; [|apply sync_routes_relaxes].
  eapply relaxes_trans; [exact Hr|apply sync_routes_relaxes].
Qed.

Lemma FirewallReload_relaxes env h : good env -> relaxes (FirewallReload env h).1 h.
Proof.
  intros Hg. unfold FirewallReload, submit. rewrite (good_open _ Hg). unfold reconcileStackClosure.
  destruct (stack_Status env) as [[]|]; [|apply relaxes_refl..].
  pose proof (sync_routes_relaxes env h) as Hs. destruct (sync_routes env h) as [h' synced].
  destruct (stack_Reload env), synced; exact Hs.
Qed.

(** Cancelling the timer of a container whose cgroup carries no flag. *)
Lemma cancel_relaxes h cid cg p i c x :
  deadman_inv (mkConc h p i c x) -> cg = cg_of cid -> bypass_flag (ebpf h) cg = None -> relaxes (cancelBypassTimer h cid) h.
Proof.
  intros [_ _ I3 I4 _] -> Hn. unfold cancelBypassTimer. destruct (bypassTimers h !! cid) as [tid|] eqn:Hc; [|apply relaxes_refl].
  cbn in *. destruct (I4 _ _ Hc) as [_ Hid]. split; cbn; [| |done|done|].
  - by intros t e [_ ?]%lookup_delete_Some.
  - by intros c' t [_ ?]%lookup_delete_Some.
  - intros t e Hf He. rewrite lookup_delete_ne; [done|]. intros <-. destruct (I3 _ _ He) as [Hcg _].
    rewrite Hcg, (Hid _ He), Hn in Hf. by destruct Hf.
Qed.

Lemma FirewallEnable_inv env ref h p i c x :
  good env -> deadman_inv (mkConc h p i c x) -> deadman_inv (mkConc (FirewallEnable env h ref).1 p i c x).
Proof.
  intros Hg HI. unfold FirewallEnable. destruct (String.eqb ref ""); [done|].
  unfold resolveForEnable. destruct (resolve env ref) as [|cid path []] eqn:Hr; [done| |done]. cbn [negb].
  destruct (cgroupIDFn env path) as [cg|] eqn:Hcg; [|done]. destruct (good_resolve _ Hg _ _ _ _ Hr Hcg) as [Hc1 Hc2].
  set (h1 := with_stored h _). assert (HI1 : deadman_inv (mkConc h1 p i c x)).
  { apply (relaxes_inv h1 h); [|done]. by apply relaxes_flags. }
  destruct (stack_NetworkInfo env); [|done]. destruct (resolveHostProxy env); [|done].
  destruct (container_config _ _ _) as [cfg| |]; [|done..]. unfold submit. rewrite (good_open _ Hg). unfold enable_closure.
  pose proof (Install_flags env (ebpf h1) cg cfg) as Hb. destruct (Install _ _ _ _) as [m ok]. cbn [fst] in Hb.
  assert (HI2 : deadman_inv (mkConc (with_ebpf h1 m) p i c x)).
  { apply (relaxes_inv _ h1); [|done]. apply relaxes_flags; [done..|]. cbn. intros cg' Hx. by apply Hb. }
  destruct ok; [|exact HI2]. cbn [fst]. apply (relaxes_inv _ (with_ebpf h1 m)); [|exact HI2].
  apply (relaxes_trans _ (cancelBypassTimer (with_ebpf h1 m) cid)); [by apply relaxes_flags|].
  apply (cancel_relaxes _ _ cg _ _ _ _ HI2); [congruence|]. cbn. apply eq_None_not_Some. intros [? _]%Hb; done.
Qed.

Lemma delete_all_lookup (l : list nat) (t : gmap nat bypassEntry) tid e :
  foldl (fun t tid => delete tid t) t l !! tid = Some e -> t !! tid = Some e.
Proof. revert t. induction l as [|k l IH]; intros t; cbn; [done|]. by intros [_ ?]%IH%lookup_delete_Some. Qed.

Lemma FirewallRemove_relaxes env h : good env -> relaxes (FirewallRemove env h).1 h.
Proof.
  intros Hg. unfold FirewallRemove, submit. rewrite (good_open _ Hg). unfold remove_closure.
  pose proof (fun cg => flush_flag (kernel env) (ebpf (CancelAllBypassTimers h)) cg (good_kernel _ Hg)) as Hb.
  destruct (FlushAll _ _) as [m flushed]. cbn [fst] in Hb.
  assert (relaxes (with_stored (with_ebpf (CancelAllBypassTimers h) m) ∅) h) as Hr.
  { split; cbn; [apply delete_all_lookup|by intros ??|done| |].
    - intros cg. rewrite Hb. by intros [].
    - intros tid e. rewrite Hb. by intros []. }
  by destruct (_ || _ || _).
Qed.

Lemma restore_target env e : good env -> cgroupID e = cg_of (containerID e) -> resolveBypassCgroupID env e = cgroupID e.
Proof.
  intros Hg He. unfold resolveBypassCgroupID. destruct (String.eqb _ _); [done|].
  destruct (resolve env (containerID e)) as [|cid path []] eqn:Hr; [done| |done]. cbn.
  destruct (cgroupIDFn env path) as [cg|] eqn:Hc; [|done]. destruct (good_resolve _ Hg _ _ _ _ Hr Hc) as [-> _]. by rewrite He.
Qed.

Lemma bypass_target_cg env ref secs e : good env -> bypass_target env ref secs = Ok e -> cgroupID e = cg_of (containerID e).
Proof.
  intros Hg. unfold bypass_target. destruct (String.eqb ref ""); [done|]. destruct (bypassTimeout secs); [cbn|done].
  destruct (resolve env ref) as [|cid path []] eqn:Hr; [done| |done]. cbn.
  destruct (cgroupIDFn env path) as [cg|] eqn:Hc; [|done]. intros [= <-]. cbn.
  destruct (good_resolve _ Hg _ _ _ _ Hr Hc) as [-> ->]. done.
Qed.

Lemma disable_flags env h cg cg' :
  is_Some (bypass_flag (ebpf (disable_closure env cg h).1) cg') -> cg' = cg \/ is_Some (bypass_flag (ebpf h) cg').
Proof.
  unfold disable_closure. pose proof (disable_flag (kernel env) (ebpf h) cg cg') as Hd.
  destruct (Disable _ _ _) as [m ok]. cbn in *. rewrite Hd. case_bool_decide; [naive_solver|tauto].
Qed.

(** Adding cover for the one cgroup that may newly carry a flag. *)
Lemma disable_inv env h p i c x p' x' cg :
  deadman_inv (mkConc h p i c x) -> (forall e, e ∈ p' -> cgroupID e = cg_of (containerID e)) ->
  (forall e, e ∈ p -> e ∈ p') -> x ⊆ x' -> (cg ∈ x' \/ exists e, e ∈ p' /\ cgroupID e = cg) ->
  deadman_inv (mkConc (disable_closure env cg h).1 p' i c x').
Proof.
  intros [I1 I2 I3 I4 I5] Hp Hsub Hx Hcg.
  assert (Ht : timers (disable_closure env cg h).1 = timers h) by (unfold disable_closure; by destruct (Disable _ _ _)).
  assert (Hm : bypassTimers (disable_closure env cg h).1 = bypassTimers h) by (unfold disable_closure; by destruct (Disable _ _ _)).
  assert (Hn : next_timer (disable_closure env cg h).1 = next_timer h) by (unfold disable_closure; by destruct (Disable _ _ _)).
  split; cbn in *; rewrite ?Ht, ?Hm, ?Hn; [done|done|done|done|].
  intros cg' [->|Hf]%disable_flags.
  - destruct Hcg as [|(e & He & <-)]; [by left|right]. exists e. cbn. tauto.
  - destruct (I5 _ Hf) as [|(e & <- & He)]; [left; by apply Hx|right]. exists e. cbn in *. rewrite Ht. naive_solver.
Qed.

Lemma arm_inv e p1 p2 h i c x : deadman_inv (mkConc h (p1 ++ e :: p2) i c x) -> deadman_inv (mkConc (arm_bypass h e) (p1 ++ p2) i c x).
Proof.
  intros [I1 I2 I3 I4 I5]. cbn in *. assert (He : cgroupID e = cg_of (containerID e)) by (apply I1; set_solver).
  set (t := match bypassTimers h !! containerID e with Some old => delete old (timers h) | None => timers h end).
  assert (Ht : forall tid e', t !! tid = Some e' -> timers h !! tid = Some e').
  { unfold t. destruct (bypassTimers h !! _); [by intros tid e' [_ ?]%lookup_delete_Some|done]. }
  assert (Hk : forall tid e', timers h !! tid = Some e' -> t !! tid = Some e' \/ cgroupID e' = cgroupID e).
  { intros tid e' H'. unfold t. destruct (bypassTimers h !! containerID e) as [old|] eqn:Hb; [|by left].
    destruct (decide (tid = old)) as [->|Hne]; [right|left; by rewrite lookup_delete_ne].
    rewrite He. destruct (I3 _ _ H') as [-> _]. destruct (I4 _ _ Hb) as [_ Hid]. by rewrite (Hid _ H'). }
  split; cbn in *; fold t; [intros e' H'; apply I1; set_solver|done|..].
  - intros tid e' [[<- <-]|[_ H']]%lookup_insert_Some; [split; [done|lia]|]. destruct (I3 _ _ (Ht _ _ H')). split; [done|lia].
  - intros cid tid [[<- <-]|[Hne H']]%lookup_insert_Some.
    + split; [lia|]. intros e'. rewrite lookup_insert_eq. by intros [= <-].
    + destruct (I4 _ _ H') as [Hlt Hid]. split; [lia|]. intros e'. rewrite lookup_insert_ne by lia. intros Hx. by apply Hid, Ht.
  - intros cg Hf. destruct (I5 _ Hf) as [|(e' & <- & H')]; [by left|right].
    destruct (decide (cgroupID e' = cgroupID e)) as [->|Hne].
    { exists e. split; [done|]. right. right. exists (next_timer h). cbn. by rewrite lookup_insert_eq. }
    exists e'. split; [done|]. cbn in *. destruct H' as [H'|[H'|[tid H']]]; [|tauto|].
    + left. apply elem_of_app in H' as [?|[-> |?]%elem_of_cons]; [set_solver|done|set_solver].
    + right. right. exists tid. fold t. rewrite lookup_insert_ne; [by destruct (Hk _ _ H')|].
      destruct (I3 _ _ H'). lia.
Qed.

Lemma fire_inv tid e h p i c x :
  timers h !! tid = Some e -> deadman_inv (mkConc h p i c x) -> deadman_inv (mkConc (stop_timer h tid) p (e :: i) c x).
Proof.
  intros Ht [I1 I2 I3 I4 I5]. cbn in *. split; cbn in *; [done|..].
  - intros e' [-> |]%elem_of_cons; [by destruct (I3 _ _ Ht)|by apply I2].
  - intros t e' [_ H']%lookup_delete_Some. by apply I3.
  - intros cid t Hc. destruct (I4 _ _ Hc) as [? Hid]. split; [done|]. intros e' [_ H']%lookup_delete_Some. by apply Hid.
  - intros cg Hf. destruct (I5 _ Hf) as [|(e' & <- & H')]; [by left|right]. exists e'. split; [done|]. cbn in *.
    destruct H' as [H'|[H'|[t H']]]; [tauto|right; left; by right|]. destruct (decide (t = tid)) as [->|Hne].
    + right. left. assert (e' = e) as -> by congruence. by left.
    + right. right. exists t. by rewrite lookup_delete_ne.
Qed.

Lemma restore_flag env h cg cg' :
  bypass_flag (ebpf (restore_closure env cg h).1) cg' =
  if bool_decide (cg' = cg /\ bypass_delete_fails (kernel env) cg = false) then None else bypass_flag (ebpf h) cg'.
Proof.
  unfold restore_closure. pose proof (enable_flag (kernel env) (ebpf h) cg cg') as He. by destruct (Enable _ _ _).
Qed.

Lemma restore_timers env h cg :
  timers (restore_closure env cg h).1 = timers h /\ bypassTimers (restore_closure env cg h).1 = bypassTimers h /\
  next_timer (restore_closure env cg h).1 = next_timer h.
Proof. unfold restore_closure. by destruct (Enable _ _ _). Qed.

Lemma restore_inv env e i1 i2 h p c x :
  good env -> deadman_inv (mkConc h p (i1 ++ e :: i2) c x) ->
  deadman_inv (mkConc (submit env h (restore_closure env (resolveBypassCgroupID env e))).1 p (i1 ++ i2) (e :: c) x).
Proof.
  intros Hg [I1 I2 I3 I4 I5]. cbn in *. rewrite (restore_target env e Hg) by (apply I2; set_solver).
  unfold submit. rewrite (good_open _ Hg). destruct (restore_timers env h (cgroupID e)) as (Ht & Hm & Hn).
  destruct (good_kernel _ Hg) as [Hd _].
  split; cbn in *; rewrite ?Ht, ?Hm, ?Hn; [done|intros e' H'; apply I2; set_solver|done|done|].
  intros cg. rewrite restore_flag. case_bool_decide as Hc; [by intros []|]. intros Hf.
  assert (Hne : cg <> cgroupID e) by (specialize (Hd (cgroupID e)); naive_solver). destruct (I5 _ Hf) as [|(e' & <- & H')]; [by left|right]. exists e'. split; [done|].
  cbn in *. rewrite Ht. destruct H' as [|[H'|]]; [tauto| |tauto]. right. left.
  apply elem_of_app in H' as [?|[-> |?]%elem_of_cons]; [set_solver|done|set_solver].
Qed.

Lemma after_inv h p i c x : deadman_inv (mkConc h p i c x) -> deadman_inv (after h p i c x).
Proof. intros [I1 I2 I3 I4 I5]. split; cbn in *; [done..|]. intros cg Hf. destruct (I5 cg Hf); [left; by apply elem_of_filter|by right]. Qed.

Lemma timer_step_inv env e c c' : good env -> timer_step env e c c' -> deadman_inv c -> deadman_inv c'.
Proof. intros Hg. destruct 1; intros HI; apply after_inv; [by apply arm_inv|by apply fire_inv|by apply restore_inv]. Qed.

Lemma step_inv c c' : step c c' -> deadman_inv c -> deadman_inv c'.
Proof.
  destruct 1 as [env ref secs e h' h p i c x Hg Hb Hs|env e c c' Hg Ht|
    e c1 c2 h p i x|env ref h p i c x Hg|env cg h p i c x Hg|env h p i c x Hg|env h p i c x Hg|env h p i c x Hg]; intros HI;
    [apply after_inv|by eapply timer_step_inv|apply after_inv..].
  - unfold submit in Hs. rewrite (good_open _ Hg) in Hs. replace h' with ((disable_closure env (cgroupID e) h).1) by (by rewrite Hs).
    apply (disable_inv env h p i c x); [done| |set_solver|done|right; exists e; set_solver].
    intros e' [-> |H']%elem_of_cons; [by eapply bypass_target_cg|]. by apply HI.
  - apply (relaxes_inv (with_timers h (delete (containerID e) (bypassTimers h)) (timers h) (next_timer h)) h) in HI;
      [|split; cbn; [done|by intros ?? [_ ?]%lookup_delete_Some|done..]]. destruct HI. by split.
  - by apply FirewallEnable_inv.
  - apply (disable_inv env h p i c x); [done|apply HI|done|set_solver|left; set_solver].
  - apply (relaxes_inv _ h); [by apply FirewallInit_relaxes|done].
  - apply (relaxes_inv _ h); [by apply FirewallReload_relaxes|done].
  - apply (relaxes_inv _ h); [by apply FirewallRemove_relaxes|done].
Qed.

Definition initial (h : Handler) : Conc := mkConc h [] [] [] ∅.

(** The handler starts without bypasses. *)
Definition fresh (h : Handler) : Prop :=
  (forall cg, bypass_flag (ebpf h) cg = None) /\ bypassTimers h = ∅ /\ timers h = ∅.

Lemma fresh_inv h : fresh h -> deadman_inv (initial h).
Proof. intros (H1 & H2 & H3). split; cbn; rewrite ?H2, ?H3; try set_solver. intros cg [v Hv]. by rewrite H1 in Hv. Qed.

Lemma reachable_inv h c : fresh h -> rtc step (initial h) c -> deadman_inv c.
Proof.
  intros Hf%fresh_inv Hs. induction Hs as [|c1 c2 c3 Hst _ IH]; [done|]. apply IH. by apply (step_inv c1).
Qed.

(** A timer in flight can always run its restore. *)
Lemma restore_clears env h p i1 e i2 c x :
  good env -> cgroupID e = cg_of (containerID e) ->
  exists c', timer_step env e (mkConc h p (i1 ++ e :: i2) c x) c' /\ bypass_flag (ebpf (hs c')) (cgroupID e) = None.
Proof.
  intros Hg He. eexists. split; [apply t_restore|]. cbn. rewrite (restore_target env e Hg He).
  unfold submit. rewrite (good_open _ Hg), restore_flag. destruct (good_kernel _ Hg) as [Hd _].
  by rewrite bool_decide_eq_true_2.
Qed.

Lemma armed_clears env h p i c x tid e :
  good env -> cgroupID e = cg_of (containerID e) -> timers h !! tid = Some e ->
  exists c', rtc (timer_step env e) (mkConc h p i c x) c' /\ bypass_flag (ebpf (hs c')) (cgroupID e) = None.
Proof.
  intros Hg He Ht. destruct (restore_clears env (stop_timer h tid) p [] e i c (explicit (after (stop_timer h tid) p (e :: i) c x)) Hg He) as (c' & Hs & Hn).
  exists c'. split; [|done]. eapply rtc_l; [by apply (t_fire env e tid)|]. by apply rtc_once.
Qed.

(** C11: The dead man's switch.  Let the handler start without bypasses, and let
    containers keep their cgroup, the queue stay open and the kernel delete bypass
    flags when it is asked to.  Then in every interleaving of bypasses, timer arming,
    firing and expiry, enables, disables, reloads, inits and removals, a bypass flag
    on a cgroup that no operator disabled without a timer since its flag was last
    clear belongs to a bypass whose timer is still to be armed, armed or in flight,
    and the steps of that bypass alone (arm, fire, queued enable) clear the flag. *)
Theorem bypass_deadman (h : Handler) (c : Conc) (env : Env) (cg : Z)
    (Hfresh : fresh h) (Hsteps : rtc step (initial h) c) (Hgood : good env)
    (Hflag : is_Some (bypass_flag (ebpf (hs c)) cg)) (Hexp : cg ∉ explicit c) :
  exists e, cgroupID e = cg /\ (e ∈ pending c \/ e ∈ inflight c \/ exists tid, timers (hs c) !! tid = Some e) /\
    exists c', rtc (timer_step env e) c c' /\ bypass_flag (ebpf (hs c')) cg = None.
Proof.
  pose proof (reachable_inv h c Hfresh Hsteps) as HI. destruct (di_flags _ HI cg Hflag) as [|Hc]; [done|].
  destruct Hc as (e & <- & He). exists e. split; [done|]. split; [done|]. destruct c as [h' p i cl x]. cbn in *.
  destruct He as [He|[He|[tid He]]].
  - pose proof (di_pending _ HI e He) as Hcg. apply list_elem_of_split in He as (p1 & p2 & ->).
    destruct (armed_clears env (arm_bypass h' e) (p1 ++ p2) i cl (explicit (after (arm_bypass h' e) (p1 ++ p2) i cl x)) (next_timer h') e Hgood Hcg) as (c' & Hs & Hn).
    { cbn. by rewrite lookup_insert_eq. }
    exists c'. split; [|done]. eapply rtc_l; [apply t_arm|done].
  - pose proof (di_inflight _ HI e He) as Hcg. apply list_elem_of_split in He as (i1 & i2 & ->).
    destruct (restore_clears env h' p i1 e i2 cl x Hgood Hcg) as (c' & Hs & Hn). exists c'. split; [by apply rtc_once|done].
  - destruct (di_timers _ HI tid e He) as [Hcg _]. by apply (armed_clears env _ _ _ _ _ tid).
Qed.

End Deadman.

(** ** The length of a bypass *)

(** The timer of a bypass runs for the seconds asked, thirty when none
    were, and never for more than an hour: a longer request is refused as an
    invalid argument.  The nanosecond arithmetic does not overflow. *)
Theorem bypassTimeout_spec (seconds : Z) (Hu : 0 <= seconds < 2 ^ 32) :
  bypassTimeout seconds =
    if seconds =? 0 then Ok defaultBypassTimeout
    else if seconds <=? 3600 then Ok (seconds * 10 ^ 9)
    else Err (InvalidArgument, []).
Proof.
  unfold bypassTimeout, maxBypassTimeout, defaultBypassTimeout.
  assert (int64 (seconds * 10 ^ 9) = seconds * 10 ^ 9) as ->.
  { unfold int64. rewrite Z.mod_small; lia. }
  destruct (Z.eqb_spec seconds 0) as [->|Hne]; [done|]. destruct (Z.leb_spec (seconds * 10 ^ 9) 0); [lia|].
  destruct (Z.leb_spec seconds 3600), (seconds * 10 ^ 9 >? 3600 * 10 ^ 9) eqn:E; try done; [apply Z.gtb_lt in E; lia|].
  rewrite Z.gtb_ltb in E. apply Z.ltb_ge in E. lia.
Qed.

(** ** Enable *)

(** What a call that reaches the kernel has resolved. *)
Definition enable_target (env : Env) (ref : string) : option (string * Z * ContainerConfig) :=
  match resolve env ref with
  | Resolved cid path true =>
      cg ← cgroupIDFn env path;
      ni ← stack_NetworkInfo env;
      hp ← resolveHostProxy env;
      match container_config env ni hp with GoOk cfg => Some (cid, cg, cfg) | _ => None end
  | _ => None
  end.

(** The call, in terms of what it resolved. *)
Lemma FirewallEnable_cases env h ref :
  let r := FirewallEnable env h ref in
  match enable_target env ref with
  | Some (cid, cg, cfg) =>
      ref <> "" -> queue_closed env = false ->
      let h1 := with_stored h (<[cid := cg]> (storedCgroupID h)) in
      let '(h', res) := enable_closure env cid cg cfg h1 in
      r = match res with Ok _ => (publishEnrolled h' cid cg, GoOk tt) | Err e => (h', GoErr (status_of e)) end
  | None => ebpf r.1 = ebpf h /\ timers r.1 = timers h /\ enrolled r.1 = enrolled h /\ r.2 <> GoOk tt
  end.
Proof.
  unfold FirewallEnable, enable_target, resolveForEnable. destruct (String.eqb_spec ref "") as [->|Hr]; cbn zeta.
  { destruct (resolve env "") as [|? ? []]; [done| |done]. destruct (cgroupIDFn env _); [|done].
    destruct (stack_NetworkInfo env); [|done]. destruct (resolveHostProxy env); [|done].
    cbn. by destruct (container_config env _ _). }
  destruct (resolve env ref) as [|cid path []]; [done| |done]. cbn [negb]. destruct (cgroupIDFn env path) as [cg|]; [|done].
  destruct (stack_NetworkInfo env) as [ni|]; [|done]. destruct (resolveHostProxy env) as [hp|]; [|done].
  cbn [mbind option_bind]. destruct (container_config env ni hp); [|done..]. intros _ Hq. unfold submit. rewrite Hq.
  by destruct (enable_closure _ _ _ _ _) as [h' []].
Qed.

Lemma cancel_no_timer h cid : bypassTimers (cancelBypassTimer h cid) !! cid = None.
Proof. unfold cancelBypassTimer. destruct (bypassTimers h !! cid) eqn:E; cbn; [by rewrite lookup_delete_eq|done]. Qed.

Lemma cancel_stops h cid tid : bypassTimers h !! cid = Some tid -> timers (cancelBypassTimer h cid) !! tid = None.
Proof. unfold cancelBypassTimer. intros ->. cbn. by rewrite lookup_delete_eq. Qed.

Lemma cancel_ebpf h cid : ebpf (cancelBypassTimer h cid) = ebpf h.
Proof. unfold cancelBypassTimer. by destruct (bypassTimers h !! cid). Qed.

Lemma cancel_stored h cid : storedCgroupID (cancelBypassTimer h cid) = storedCgroupID h.
Proof. unfold cancelBypassTimer. by destruct (bypassTimers h !! cid). Qed.

(** What a successful install leaves, flag included. *)
Lemma Install_view f (m : M) cg cfg :
  (Install f m cg cfg).2 = true -> bypass_delete_fails f cg = false ->
  view (Install f m cg cfg).1 cg = (Some cfg, None, Some cgroupAttachments) /\
  forall cg', cg' <> cg -> view (Install f m cg cfg).1 cg' = view m cg'.
Proof.
  intros Hok Hd. unfold view. destruct (install_enforces f m cg cfg Hok) as [-> ->].
  rewrite install_flag, bool_decide_eq_true_2 by done. split; [done|]. intros cg' Hne.
  destruct (install_other f m cg cfg cg' Hne) as [-> ->]. by rewrite install_flag, bool_decide_eq_false_2 by naive_solver.
Qed.

(** An enable that succeeds has enforced the container on the cgroup
    Docker reports for it now: configuration installed, bypass flag gone, all
    programs linked, no dead-man timer left, the fresh cgroup remembered; no
    other container is touched.  (The kernel's bypass delete must not fail.) *)
Theorem FirewallEnable_enforces (env : Env) (h : Handler) (ref cid : string) (cg : Z) (cfg : ContainerConfig)
    (Htarget : enable_target env ref = Some (cid, cg, cfg)) (Hclear : bypass_delete_fails (kernel env) cg = false)
    (Hq : queue_closed env = false) (Hok : (FirewallEnable env h ref).2 = GoOk tt) :
  let h' := (FirewallEnable env h ref).1 in
  view (ebpf h') cg = (Some cfg, None, Some cgroupAttachments) /\
  bypassTimers h' !! cid = None /\ (forall tid, bypassTimers h !! cid = Some tid -> timers h' !! tid = None) /\
  storedCgroupID h' !! cid = Some cg /\ enrolled h' = enrolled h ++ [(cid, cg)] /\
  (forall cg', cg' <> cg -> view (ebpf h') cg' = view (ebpf h) cg').
Proof.
  assert (Hr : ref <> "") by (intros ->; done).
  pose proof (FirewallEnable_cases env h ref) as Hc. rewrite Htarget in Hc. specialize (Hc Hr Hq). cbn zeta in Hc.
  unfold enable_closure in Hc. cbn [ebpf with_stored] in Hc.
  destruct (Install (kernel env) (ebpf h) cg cfg) as [m ok] eqn:Hi. destruct ok; rewrite Hc in Hok |- *; [|done].
  destruct (Install_view (kernel env) (ebpf h) cg cfg) as [Hv Ho]; [by rewrite Hi|done|]. rewrite Hi in Hv, Ho.
  cbn [fst publishEnrolled ebpf bypassTimers timers storedCgroupID enrolled] in *. rewrite cancel_no_timer, cancel_ebpf, cancel_stored.
  split_and!; [done|done|intros tid Ht; by apply cancel_stops|cbn; by rewrite lookup_insert_eq| |intros cg' Hne; by apply Ho].
  unfold cancelBypassTimer. by destruct (bypassTimers (with_ebpf _ m) !! cid).
Qed.

(** When the kernel refuses to delete the flag, an enable in the middle of
    a bypass still reports success, leaves the flag set, and has cancelled the
    timer that would have cleared it: nothing is left that restores
    enforcement. *)
Theorem FirewallEnable_strands_bypass (env : Env) (h : Handler) (ref cid : string) (cg v : Z) (cfg : ContainerConfig)
    (Htarget : enable_target env ref = Some (cid, cg, cfg)) (Hr : ref <> "") (Hq : queue_closed env = false)
    (Hfail : bypass_delete_fails (kernel env) cg = true) (Hflag : bypass_flag (ebpf h) cg = Some v)
    (Hup : container_update_fails (kernel env) cg = false) (Hat : forall a, attach_fails (kernel env) a = false) :
  (FirewallEnable env h ref).2 = GoOk tt /\
  bypass_flag (ebpf (FirewallEnable env h ref).1) cg = Some v /\
  (forall tid, bypassTimers h !! cid = Some tid -> timers (FirewallEnable env h ref).1 !! tid = None).
Proof.
  pose proof (FirewallEnable_cases env h ref) as Hc. rewrite Htarget in Hc. specialize (Hc Hr Hq). cbn zeta in Hc.
  unfold enable_closure in Hc. cbn [ebpf with_stored] in Hc.
  pose proof (install_succeeds (kernel env) (ebpf h) cg cfg Hup Hat) as Hok.
  pose proof (install_flag (kernel env) (ebpf h) cg cfg cg) as Hb. 
  rewrite bool_decide_eq_false_2 in Hb by (rewrite Hfail; naive_solver). rewrite Hflag in Hb.
  destruct (Install (kernel env) (ebpf h) cg cfg) as [m ok]. cbn in Hok, Hb. subst ok. rewrite Hc.
  cbn [fst snd publishEnrolled ebpf timers]. rewrite cancel_ebpf. split_and!; [done|done|]. intros tid Ht. by apply cancel_stops.
Qed.

(** ** The kernel follows the store *)

Lemma sync_routes_store env h : rules_store (sync_routes env h).1 = rules_store h.
Proof. unfold sync_routes. by destruct (SyncRoutes _ _ _ _). Qed.

(** The kernel's routes are those of the canonical rules of the store. *)
Definition routes_in_force (env : Env) (h : Handler) : Prop :=
  forall k, route_at (ebpf h) k = route_port (RoutesFromRules (canonical (mem (rules_store h))) (ports env)) k.

Lemma sync_routes_in_force env h : (sync_routes env h).2 = true -> routes_in_force env (sync_routes env h).1.
Proof.
  unfold routes_in_force. rewrite sync_routes_store. unfold sync_routes.
  pose proof (sync_route (kernel env) (clock env) (ebpf h) (routesFromStore env h)) as Hs.
  destruct (SyncRoutes _ _ _ _) as [m ok]. cbn in *. intros Hok k. by apply Hs.
Qed.

(** A reconcile that reports a restart has put the store's rules in force; one
    that finds the stack down changes nothing. *)
Lemma reconcile_spec env h h' restarted :
  reconcileStackClosure env h = (h', Ok restarted) ->
  rules_store h' = rules_store h /\ (if restarted then routes_in_force env h' else h' = h).
Proof.
  unfold reconcileStackClosure. destruct (stack_Status env) as [[]|]; [|by intros [= <- <-]|done].
  pose proof (sync_routes_in_force env h) as Hf. pose proof (sync_routes_store env h) as Hs.
  destruct (sync_routes env h) as [h1 synced]. cbn in *.
  destruct (stack_Reload env), synced; try done. intros [= <- <-]. split; [done|by apply Hf].
Qed.

Lemma submit_ok {A} env h (fn : closure A) h' a : submit env h fn = (h', Ok a) -> fn h = (h', Ok a).
Proof. unfold submit. by destruct (queue_closed env). Qed.

(** An add that reports a restart leaves the kernel enforcing exactly the
    rule set it stored: the route map is the projection of the canonical rules
    of the new store.  An add that fails after its store write (probe, reload
    or route sync) still keeps the rules, so the next reconcile applies them. *)
Theorem AddRules_in_force (regexp_compiles : string -> bool) (env : Env) (h : Handler) (req : list PbEgressRule) :
  let '(h', res) := AddRules regexp_compiles env h req in
  rules_store h' = (FirewallAddRules regexp_compiles (Ok false) (storage env) (rules_store h) req).1.2 /\
  (forall r, res = Ok r -> ar_restarted r = true -> routes_in_force env h').
Proof.
  unfold AddRules, with_reconcile, FirewallAddRules. destruct (negb (forallb _ _)); [done|].
  destruct (addRulesToStore _ _ _) as [[statuses|e] s']; [|done]. destruct (negb (anyAddChange statuses)) eqn:Ha.
  { cbn. split; [done|]. by intros r [= <-]. }
  destruct (submit env _ _) as [h' [restarted|e]] eqn:Hs.
  - apply submit_ok, reconcile_spec in Hs as [Hst Hr]. cbn in *. split; [done|]. intros r [= <-]. cbn. by intros ->.
  - split; [|done]. revert Hs. cbn. unfold submit, reconcileStackClosure. destruct (queue_closed env); [by intros [= <- _]|].
    destruct (stack_Status env) as [[]|]; [|done|by intros [= <- _]].
    pose proof (sync_routes_store env (with_store h s')) as Hst. destruct (sync_routes env _) as [h1 synced]. cbn in Hst.
    destruct (stack_Reload env), synced; by intros [= <- _].
Qed.

(** ** Init *)

(** A container enforced with [cfg] at [cg]. *)
Definition enforced (h : Handler) (cg : Z) (cfg : ContainerConfig) : Prop :=
  view (ebpf h) cg = (Some cfg, None, Some cgroupAttachments).

(** The kernel accepts installs. *)
Definition installs (f : kfaults) : Prop :=
  (forall cg, container_update_fails f cg = false) /\ (forall cg, bypass_delete_fails f cg = false) /\
  (forall a, attach_fails f a = false).

Lemma Install_installs f (m : M) cg cfg :
  installs f -> (Install f m cg cfg).2 = true /\ view (Install f m cg cfg).1 cg = (Some cfg, None, Some cgroupAttachments) /\
  forall cg', cg' <> cg -> view (Install f m cg cfg).1 cg' = view m cg'.
Proof.
  intros (Hu & Hd & Ha). pose proof (install_succeeds f m cg cfg (Hu cg) Ha) as Hok.
  destruct (Install_view f m cg cfg Hok (Hd cg)) as [Hv Ho]. done.
Qed.

Lemma reenroll_step_enforces env cfg st cid cg :
  installs (kernel env) ->
  enforced st.1.1 cg cfg \/ (exists rid path, resolve env cid = Resolved rid path true /\ cgroupIDFn env path = Some cg) ->
  enforced (reenroll_step env cfg st cid).1.1 cg cfg.
Proof.
  intros Hi. destruct st as [[h n] k]. cbn [fst]. unfold reenroll_step, enforced.
  destruct (resolve env cid) as [|rid path []]; [naive_solver| |naive_solver]. cbn [negb].
  destruct (cgroupIDFn env path) as [cg'|] eqn:Hcg; [|naive_solver].
  destruct (Install_installs (kernel env) (ebpf h) cg' cfg Hi) as (Hok & Hv & Ho).
  destruct (Install _ _ _ _) as [m ok]. cbn in Hok, Hv, Ho. subst ok. cbn [fst].
  change (ebpf (publishEnrolled _ _ _)) with m. intros Hor.
  destruct (decide (cg = cg')) as [->|Hne]; [done|]. rewrite Ho by done.
  destruct Hor as [|(rid' & path' & [= <- <-] & Hcg')]; [done|congruence].
Qed.

Lemma reenroll_fold_enforces env cfg st agents cid rid path cg :
  installs (kernel env) -> cid ∈ agents -> resolve env cid = Resolved rid path true -> cgroupIDFn env path = Some cg ->
  enforced (foldl (reenroll_step env cfg) st agents).1.1 cg cfg.
Proof.
  intros Hi Hin Hr Hc. induction agents as [|a agents IH] using rev_ind; [by apply elem_of_nil in Hin|].
  rewrite foldl_app. cbn. apply reenroll_step_enforces; [done|].
  apply elem_of_app in Hin as [Hin| ->%list_elem_of_singleton]; [left; by apply IH|right; eauto].
Qed.

(** Re-enrolment leaves the rules and the routes alone. *)
Lemma reenroll_fold_frame env cfg l st :
  rules_store (foldl (reenroll_step env cfg) st l).1.1 = rules_store st.1.1 /\
  forall key, route_at (ebpf (foldl (reenroll_step env cfg) st l).1.1) key = route_at (ebpf st.1.1) key.
Proof.
  revert st. induction l as [|x l IH]; intros st; [done|]. cbn. destruct (IH (reenroll_step env cfg st x)) as [-> Hk].
  assert (Hs : rules_store (reenroll_step env cfg st x).1.1 = rules_store st.1.1 /\
    forall key, route_at (ebpf (reenroll_step env cfg st x).1.1) key = route_at (ebpf st.1.1) key).
  { destruct st as [[h n] k]. unfold reenroll_step. destruct (resolve env x) as [|rid path []]; [done| |done]. cbn [negb].
    destruct (cgroupIDFn env path) as [cg|]; [|done]. pose proof (install_route (kernel env) (ebpf h) cg cfg) as Hr.
    by destruct (Install _ _ _ _) as [m []]. }
  destruct Hs as [Hs1 Hs2]. split; [done|]. intros key. by rewrite Hk, Hs2.
Qed.

(** After an init that succeeds, every running agent Docker lists and
    resolves is enforced again, whatever a previous control plane left behind,
    and the kernel's routes are those of the persisted rules when their sync
    did not fail. *)
Theorem FirewallInit_enforces (env : Env) (h : Handler) (agents : list string) (ni : NetworkInfo) (hp : string * Z)
    (cfg : ContainerConfig) (Hi : installs (kernel env)) (Ha : listAgents env = Some agents)
    (Hn : stack_NetworkInfo env = Some ni) (Hh : resolveHostProxy env = Some hp) (Hc : container_config env ni hp = GoOk cfg)
    (Hok : (FirewallInit env h).2 = Ok tt) :
  (forall cid rid path cg, cid ∈ agents -> resolve env cid = Resolved rid path true -> cgroupIDFn env path = Some cg ->
     enforced (FirewallInit env h).1 cg cfg) /\
  ((sync_routes env h).2 = true -> routes_in_force env (FirewallInit env h).1).
Proof.
  revert Hok. unfold FirewallInit, submit. destruct (queue_closed env); [done|]. unfold init_closure.
  destruct (stack_EnsureRunning env); [done|]. destruct (stack_Status env); [|done].
  unfold reenrollAgents. rewrite Ha, Hn, Hh, Hc.
  destruct agents as [|a agents]; cbn [fst].
  - intros _. split; [intros cid ??? Hin; by apply elem_of_nil in Hin|apply sync_routes_in_force].
  - destruct (foldl _ _ (a :: agents)) as [[h' n] k] eqn:Hf. cbn [fst]. intros _. split.
    + intros cid rid path cg Hin Hr Hcg.
      pose proof (reenroll_fold_enforces env cfg ((sync_routes env h).1, 0%nat, 0%nat) (a :: agents) cid rid path cg Hi Hin Hr Hcg) as He.
      by rewrite Hf in He.
    + intros Hs. destruct (reenroll_fold_frame env cfg (a :: agents) ((sync_routes env h).1, 0%nat, 0%nat)) as [H1 H2].
      rewrite Hf in H1, H2. cbn in H1, H2. intros key. rewrite H1, H2. by apply sync_routes_in_force.
Qed.

End Firewall.

(** ** Witnesses *)

Definition demo_handler : Handler (M := Ebpf.Manager) := mkHandler Ebpf.empty_manager (mkStore [] []) ∅ ∅ 0 ∅ [].

Definition demo_env (f : kfaults) : Env :=
  mkEnv (fun ref => Resolved "c0ffee" "/sys/fs/cgroup/c0ffee" true) (fun _ => Some 5) None None (Some true) false
    (Some (mkNet "172.30.0.2" "172.30.0.3" "172.30.0.1" "172.30.0.0/16")) false 0 None
    demo_ports false (Some ["web"]) f 1000 no_faults false.

Definition demo_config : ContainerConfig :=
  match container_config (demo_env no_kfaults) (mkNet "172.30.0.2" "172.30.0.3" "172.30.0.1" "172.30.0.0/16") ("", 0) with
  | GoOk cfg => cfg
  | _ => Ebpf.demo_cfg
  end.

(** The handler while container c0ffee is bypassed. *)
Definition bypassed_handler : Handler (M := Ebpf.Manager) := (FirewallBypass (demo_env no_kfaults) demo_handler "web" 60).1.

Lemma demo_env_good : good (fun _ => 5) (demo_env no_kfaults).
Proof. split; [|done..]. by intros ref cid path cg _ [= <-]. Qed.

Lemma bypass_deadman_witness :
  let c := after (disable_closure (demo_env no_kfaults) 5 demo_handler).1 [mkEntry "c0ffee" 5] [] [] ∅ in
  exists e, cgroupID e = 5 /\ (e ∈ pending c \/ e ∈ inflight c \/ exists tid, timers (hs c) !! tid = Some e) /\
    exists c', rtc (timer_step (demo_env no_kfaults) e) c c' /\ bypass_flag (ebpf (hs c')) 5 = None.
Proof.
  apply (bypass_deadman (fun _ => 5) demo_handler _ (demo_env no_kfaults) 5).
  - done.
  - apply rtc_once. eapply s_bypass; [apply demo_env_good|by apply (eq_refl : bypass_target (demo_env no_kfaults) "web" 60 = _)|done].
  - apply demo_env_good.
  - by eexists.
  - intros [_ H]%elem_of_filter. by apply not_elem_of_empty in H.
Defined.

Lemma bypassTimeout_spec_witness : bypassTimeout 7200 = Err (InvalidArgument, []).
Proof. rewrite (bypassTimeout_spec 7200); [reflexivity|lia]. Defined.

Lemma FirewallEnable_enforces_witness :
  view (ebpf (FirewallEnable (demo_env no_kfaults) bypassed_handler "web").1) 5 = (Some demo_config, None, Some cgroupAttachments).
Proof.
  destruct (FirewallEnable_enforces (demo_env no_kfaults) bypassed_handler "web" "c0ffee" 5 demo_config) as [H _];
    [by vm_compute..|]. exact H.
Defined.

Lemma FirewallEnable_strands_bypass_witness :
  bypass_flag (ebpf (FirewallEnable (demo_env Ebpf.stuck_bypass) bypassed_handler "web").1) 5 = Some 1.
Proof.
  destruct (FirewallEnable_strands_bypass (demo_env Ebpf.stuck_bypass) bypassed_handler "web" "c0ffee" 5 1 demo_config)
    as (_ & H & _); [by vm_compute..|done|exact H].
Defined.

Definition demo_add : list PbEgressRule := [mkPbRule "api.example.com" "https" "443" "allow" [] ""].

Lemma AddRules_in_force_witness :
  routes_in_force (demo_env no_kfaults) (AddRules (fun _ => true) (demo_env no_kfaults) demo_handler demo_add).1.
Proof.
  pose proof (AddRules_in_force (fun _ => true) (demo_env no_kfaults) demo_handler demo_add) as H.
  assert (Hr : (AddRules (fun _ => true) (demo_env no_kfaults) demo_handler demo_add).2 = Ok (mkAddResult [ADD_ADDED] true))
    by by vm_compute.
  destruct (AddRules _ _ _ _) as [h' res]. destruct H as [_ H]. exact (H _ Hr eq_refl).
Defined.

Lemma FirewallInit_enforces_witness : enforced (FirewallInit (demo_env no_kfaults) bypassed_handler).1 5 demo_config.
Proof.
  destruct (FirewallInit_enforces (demo_env no_kfaults) bypassed_handler ["web"]
    (mkNet "172.30.0.2" "172.30.0.3" "172.30.0.1" "172.30.0.0/16") ("", 0) demo_config) as [H _]; [done..|by vm_compute|by vm_compute|].
  apply (H "web" "c0ffee" "/sys/fs/cgroup/c0ffee" 5); [by left|done|done].
Defined.

End Handler.
