(* ===== verification/Stack.v ===== *)
(** * The firewall stack

    controlplane/firewall/stack.go and network.go: the pair of containers, Envoy
    and CoreDNS, that the control plane starts, reloads and stops through the
    Docker engine of [Whail], and the files they read.

    Docker is a state ([world]: its containers, images and network) that the calls
    of the engine change; each call may be refused, or find that another process
    created a container just before it ([answer]).  A container remembers the
    image it was created from, its creation-time options, and the files as they
    were when its process last started. *)

From S2P Require Import Prelude GoStrings GoPath GoNet EgressRule Wire Conflicts RuleStore Mappings CoreDNS EnvoyTree EnvoyLayers Whail.
Import Go GoPath Rule Wire Conflicts RuleStore Mappings CoreDNS EnvoyTree EnvoyLayers.

Module Stack.

Abbreviation labels := (gmap string string).

(** ** Configuration *)

Definition envoyImage : string :=
  "envoyproxy/envoy:distroless-v1.37.1@sha256:4d9226b9fd4d1449887de7cde785beb24b12e47d6e79021dec3c79e362609432".
Definition corednsImageTag : string := "clawker-coredns:latest".
Definition envoyContainerName : string := "clawker-envoy".
Definition corednsContainerName : string := "clawker-coredns".
Definition labelInfraCertsReady : string := "dev.clawker.firewall.infra_certs_ready".
Definition labelOtelInfraPort : string := "dev.clawker.firewall.otel_infra_port".
Definition labelStackBuildSHA : string := "dev.clawker.firewall.stack_build_sha".
Definition CoreDNSHealthHostPort : Z := 18902.
Definition EnvCoreDNSOtelEndpoint : string := "CLAWKER_COREDNS_OTEL_ENDPOINT".
Definition MonitoringServiceOtelCollector : string := "otel-collector".

(** What the stack reads of config.Config and of package consts. *)
Record Config := mkConfig {
  ClawkerNetwork : string; EnvoyIPLastOctet : Z; CoreDNSIPLastOctet : Z;
  EnvoyEgressPort : Z; EnvoyTCPPortBase : Z; EnvoyUDPPortBase : Z; EnvoyHealthPort : Z; EnvoyHealthHostPort : Z;
  OtelInfraPort : Z; LabelPurpose : string; PurposeFirewall : string;
  (** the hash of the control plane's binary, and the CoreDNS binary in it *)
  CPBinarySHA : string; CoreDNSClawkerBinary : string;
  HostEnvoyConfigPath : string; HostFirewallCertSubdir : string; HostFirewallOtelCertsDir : string; HostCorefilePath : string;
}.

Record mount := mkMount { m_Source : string; m_Target : string; m_ReadOnly : bool }.
Record containerSpec := mkSpec {
  s_image : string; s_staticIP : string; s_networkID : string; s_cmd : list string; s_env : list string;
  s_mounts : list mount; s_portBindings : list (Z * Z); s_capAdd : list string; s_labels : labels;
}.

(** ** Docker *)

Inductive state := StateCreated | StateRunning | StatePaused | StateRestarting | StateExited | StateDead.
#[global] Instance state_eq_dec : EqDecision state.
Proof. solve_decision. Defined.

(** A file as the stack wrote it, or cut short by a failing write. *)
Inductive file (A : Type) := Absent | Torn | Written (content : A).
Arguments Absent {A}. Arguments Torn {A}. Arguments Written {A}.
Record files := mkFiles { envoy_yaml : file EnvoyConfig; corefile : file string }.

Record image := mkImage { i_labels : labels; i_content : string }.
Record container := mkContainer {
  c_id : string; c_name : string; c_labels : labels; c_state : state; c_spec : containerSpec; c_image : image;
  (** the files when its process last started *)
  c_loaded : files;
}.
Record ipam := mkIPAM { Gateway : option GoNet.Addr; Subnet : option GoNet.Prefix }.
Record network := mkNetwork { n_id : string; n_labels : labels; n_IPAM : list ipam }.

(** How Docker takes a call of the engine: it serves it, refuses it, or serves it
    after another process created a container. *)
Inductive answer := Fine | Refused | Meanwhile (c : container).

Record world := mkWorld {
  w_store : store; infraCertsReady : bool;
  w_files : files;
  (** newest first, as Docker lists them *)
  containers : list container;
  images : gmap string image; networks : gmap string network;
  (** the address pool the next network gets, and the upstream image of Envoy *)
  pool : list ipam; upstream : option image;
  answers : list answer;
}.

Definition with_store (w : world) (s : store) : world :=
  mkWorld s (infraCertsReady w) (w_files w) (containers w) (images w) (networks w) (pool w) (upstream w) (answers w).
Definition with_ready (w : world) (b : bool) : world :=
  mkWorld (w_store w) b (w_files w) (containers w) (images w) (networks w) (pool w) (upstream w) (answers w).
Definition with_files (w : world) (f : files) : world :=
  mkWorld (w_store w) (infraCertsReady w) f (containers w) (images w) (networks w) (pool w) (upstream w) (answers w).
Definition with_containers (w : world) (l : list container) : world :=
  mkWorld (w_store w) (infraCertsReady w) (w_files w) l (images w) (networks w) (pool w) (upstream w) (answers w).
Definition with_images (w : world) (i : gmap string image) : world :=
  mkWorld (w_store w) (infraCertsReady w) (w_files w) (containers w) i (networks w) (pool w) (upstream w) (answers w).
Definition with_networks (w : world) (n : gmap string network) : world :=
  mkWorld (w_store w) (infraCertsReady w) (w_files w) (containers w) (images w) n (pool w) (upstream w) (answers w).
Definition with_answers (w : world) (a : list answer) : world :=
  mkWorld (w_store w) (infraCertsReady w) (w_files w) (containers w) (images w) (networks w) (pool w) (upstream w) a.

(** A list filter: every label and one of the names must match; a name matches
    on any part of the container's name. *)
Definition label_matches (l : labels) (kv : string) : bool :=
  match Cut "=" kv with Some (k, v) => bool_decide (l !! k = Some v) | None => bool_decide (is_Some (l !! kv)) end.
Definition filter_values (f : Whail.Filters) (term : string) : option (list string) := match f !! term with Some s => Some (base.elements s) | None => None end.
Definition filter_matches (f : Whail.Filters) (c : container) : bool :=
  forallb (label_matches (c_labels c)) (default [] (filter_values f "label")) &&
  match filter_values f "name" with None => true | Some names => existsb (Contains (c_name c)) names end.

Definition set_state (c : container) (s : state) : container := mkContainer (c_id c) (c_name c) (c_labels c) s (c_spec c) (c_image c) (c_loaded c).
(** The process of the container starts and reads its files. *)
Definition started (f : files) (c : container) : container := mkContainer (c_id c) (c_name c) (c_labels c) StateRunning (c_spec c) (c_image c) f.
Definition on_id (id : string) (g : container -> container) (l : list container) : list container :=
  (fun c => if String.eqb (c_id c) id then g c else c) <$> l.

(** Docker picks an ID no container has. *)
Definition fresh_id (w : world) : string := foldr (fun c s => c_id c +:+ s) "0" (containers w).
Definition name_in_use (w : world) (name : string) : bool := existsb (fun c => String.eqb (c_name c) name) (containers w).

(** What a creating call creates, beyond the labels in the call. *)
Inductive creation := NoCreation | NewContainer (spec : containerSpec) | NewImage (tag content : string).

Definition serves (b : creation) (w : world) (c : Whail.call) : bool :=
  match c, b with
  | Whail.Create Whail.KContainer name _, NewContainer spec => negb (name_in_use w name) && bool_decide (is_Some (images w !! s_image spec))
  | _, _ => true
  end.
Definition effect (b : creation) (w : world) (c : Whail.call) : world :=
  match c, b with
  | Whail.OnContainer Whail.OpStart id, _ =>
      with_containers w (on_id id (fun c => if bool_decide (c_state c = StateRunning) then c else started (w_files w) c) (containers w))
  | Whail.OnContainer Whail.OpRestart id, _ => with_containers w (on_id id (started (w_files w)) (containers w))
  | Whail.OnContainer Whail.OpStop id, _ => with_containers w (on_id id (fun c => set_state c StateExited) (containers w))
  | Whail.OnContainer Whail.OpRemove id, _ => with_containers w (List.filter (fun c => negb (String.eqb (c_id c) id)) (containers w))
  | Whail.Create Whail.KContainer name (Some l), NewContainer spec =>
      match images w !! s_image spec with
      | Some i => with_containers w (mkContainer (fresh_id w) name l StateCreated spec i (mkFiles Absent Absent) :: containers w)
      | None => w
      end
  | Whail.Create Whail.KImage _ (Some l), NewImage tag content => with_images w (<[tag := mkImage l content]> (images w))
  | Whail.Create Whail.KNetwork name (Some l), _ => with_networks w (<[name := mkNetwork (name +:+ "-id") l (pool w)]> (networks w))
  | _, _ => w
  end.

(** Docker as the engine sees it. *)
Definition view (b : creation) (w : world) (a : answer) : Whail.Docker :=
  Whail.mkDocker
    (fun ref => match find (fun c => String.eqb (c_id c) ref) (containers w) with Some c => Whail.Found (c_labels c) (c_id c) ∅ | None => Whail.NotFound end)
    (fun ref => match networks w !! ref with Some n => Whail.Found (n_labels n) (n_id n) ∅ | None => Whail.NotFound end)
    (fun _ => Whail.NotFound)
    (fun ref => match images w !! ref with Some i => Whail.Found (i_labels i) ref ∅ | None => Whail.NotFound end)
    (fun c => match a with Refused => Whail.ApiError | _ => if serves b w c then Whail.Done (fresh_id w) else Whail.ApiError end).

Definition next_answer (w : world) : answer := default Fine (head (answers w)).
(** The world the call meets: a container created in between has a name and an ID
    of its own. *)
Definition arrive (w : world) : world :=
  let w' := with_answers w (tail (answers w)) in
  match next_answer w with
  | Meanwhile c =>
      if name_in_use w (c_name c) || existsb (fun c' => String.eqb (c_id c') (c_id c)) (containers w) then w' else with_containers w' (c :: containers w')
  | _ => w'
  end.
(** One operation of the engine; a refused call has no effect. *)
Definition engine (op : Whail.Docker -> Whail.outcome) (b : creation) (w : world) : world * result Whail.error string :=
  let a := next_answer w in let w := arrive w in
  let '(calls, r) := op (view b w a) in
  (match r with Ok _ => foldl (effect b) w calls | Err _ => w end, r).

(** ** Fallible operations on the world *)

Inductive cause :=
  | DockerFailed | NetworkUnusable | ConfigFailed | BinaryNotEmbedded | BuildFailed | PullFailed | ContainerMissing
  | CtxDone | ErrEnvoyUnhealthy | ErrCoreDNSUnhealthy | Sentinel (s : sentinel).
(** [errors.Join] concatenates. *)
Definition StackError : Type := list cause.

Definition op (A : Type) : Type := world -> world * result StackError A.
Definition ret {A} (x : A) : op A := fun w => (w, Ok x).
Definition fail {A} (e : StackError) : op A := fun w => (w, Err e).
Definition bind {A B} (m : op A) (k : A -> op B) : op B := fun w => match m w with (w, Ok x) => k x w | (w, Err e) => (w, Err e) end.
(** Runs [m] and goes on with its result, whichever it is. *)
Definition try {A B} (m : op A) (k : result StackError A -> op B) : op B := fun w => let '(w, r) := m w in k r w.
Notation "x <- m ;; k" := (bind m (fun x => k)) (at level 100, m at next level, right associativity).
Definition docker (o : Whail.Docker -> Whail.outcome) (b : creation) : op string := fun w =>
  match engine o b w with (w, Ok id) => (w, Ok id) | (w, Err _) => (w, Err [DockerFailed]) end.
Definition gets {A} (f : world -> A) : op A := fun w => (w, Ok (f w)).

Section Stack.
Variable e : Whail.Engine.
Variable cfg : Config.

(** ** Network (network.go) *)

Record NetworkInfo := mkNetInfo {
  NetworkID : string; ni_Gateway : GoNet.Addr; ni_Subnet : option GoNet.Prefix; EnvoyIP : string; CoreDNSIP : string; CIDR : string;
}.

(** [octets[3] = lastOctet] *)
Definition ComputeStaticIP (gateway : GoNet.Addr) (lastOctet : Z) : result StackError GoNet.Addr :=
  match gateway with
  | GoNet.Addr4 octets => Ok (GoNet.Addr4 (<[3%nat := lastOctet]> octets))
  | GoNet.Addr6 _ _ => Err [NetworkUnusable]
  end.
Definition validateInSubnet (ip : GoNet.Addr) (subnet : option GoNet.Prefix) : result StackError unit :=
  match subnet with
  | None => Ok tt
  | Some p => if GoNet.Contains p ip then Ok tt else Err [NetworkUnusable]
  end.
Definition prefix_String (p : option GoNet.Prefix) : string :=
  match p with Some p => GoNet.IP_String (GoNet.pfx_addr p) +:+ "/" +:+ Itoa (GoNet.pfx_bits p) | None => "invalid Prefix" end.
Definition network_info (n : network) : result StackError NetworkInfo :=
  match n_IPAM n with
  | [] => Err [NetworkUnusable]
  | ipamCfg :: _ =>
      match Gateway ipamCfg with
      | None => Err [NetworkUnusable]
      | Some gateway =>
          let subnet := Subnet ipamCfg in
          let? envoyIP := ComputeStaticIP gateway (EnvoyIPLastOctet cfg) in
          let? _ := validateInSubnet envoyIP subnet in
          let? corednsIP := ComputeStaticIP gateway (CoreDNSIPLastOctet cfg) in
          let? _ := validateInSubnet corednsIP subnet in
          Ok (mkNetInfo (n_id n) gateway subnet (GoNet.IP_String envoyIP) (GoNet.IP_String corednsIP) (prefix_String subnet))
      end
  end.
Definition DiscoverNetwork : op NetworkInfo :=
  _ <- docker (fun d => Whail.NetworkInspect e d (ClawkerNetwork cfg)) NoCreation;;
  fun w => match networks w !! ClawkerNetwork cfg with Some n => (w, network_info n) | None => (w, Err [DockerFailed]) end.
Definition ensureNetworkAndDiscover : op NetworkInfo :=
  _ <- docker (fun d => Whail.EnsureNetwork e d (ClawkerNetwork cfg) None []) NoCreation;; DiscoverNetwork.

(** ** Container specifications *)

Definition FormatBool (b : bool) : string := if b then "true" else "false".
Definition driftLabels (ready : bool) : labels :=
  <[labelInfraCertsReady := FormatBool ready]> (<[labelOtelInfraPort := Itoa (OtelInfraPort cfg)]> {[labelStackBuildSHA := CPBinarySHA cfg]}).
Definition alsConfig (ready : bool) : ALSConfig := if negb ready then mkALS 0 false else mkALS (OtelInfraPort cfg) true.
Definition envoyPorts : EnvoyPorts := mkPorts (EnvoyEgressPort cfg) (EnvoyTCPPortBase cfg) (EnvoyUDPPortBase cfg) (EnvoyHealthPort cfg).

Definition envoyContainerSpec (ready : bool) (netInfo : NetworkInfo) : containerSpec :=
  let mounts :=
    [mkMount (HostEnvoyConfigPath cfg) "/etc/envoy/envoy.yaml" true; mkMount (HostFirewallCertSubdir cfg) "/etc/envoy/certs" true] ++
    (if ready then [mkMount (FileJoin [HostFirewallOtelCertsDir cfg; "envoy"]) "/etc/envoy/otel-tls" true] else []) in
  mkSpec envoyImage (EnvoyIP netInfo) (NetworkID netInfo) [] [] mounts [(EnvoyHealthPort cfg, EnvoyHealthHostPort cfg)] [] (driftLabels ready).
Definition corednsContainerSpec (ready : bool) (netInfo : NetworkInfo) : containerSpec :=
  let mounts :=
    [mkMount (HostCorefilePath cfg) "/etc/coredns/Corefile" true; mkMount "/sys/fs/bpf" "/sys/fs/bpf" false] ++
    (if ready then [mkMount (FileJoin [HostFirewallOtelCertsDir cfg; "coredns"]) "/etc/clawker/auth/coredns" true] else []) in
  let env := if ready then [EnvCoreDNSOtelEndpoint +:+ "=" +:+ MonitoringServiceOtelCollector +:+ ":" +:+ Itoa (OtelInfraPort cfg)] else [] in
  mkSpec corednsImageTag (CoreDNSIP netInfo) (NetworkID netInfo) ["-conf"; "/etc/coredns/Corefile"] env mounts
    [(CoreDNSHealthHostPort, CoreDNSHealthHostPort)] ["BPF"; "SYS_ADMIN"] (driftLabels ready).

(** A key the container lacks reads as the empty string. *)
Definition specMatchesContainer (actual want : labels) : bool :=
  forallb (fun '(k, v) => String.eqb (default "" (actual !! k)) v) (map_to_list want).

(** ** Containers *)

Definition findByName (name : string) : op (option container) :=
  let f := Whail.filter_add ∅ "name" name in
  _ <- docker (fun d => Whail.ContainerList e d f) NoCreation;;
  gets (fun w => head (List.filter (filter_matches (Whail.injectManagedFilter e f)) (containers w))).

Definition is_running (s : option container) : bool := match s with Some c => bool_decide (c_state c = StateRunning) | None => false end.
Definition isRunning (name : string) : op bool := s <- findByName name;; ret (is_running s).

(** A failing stop is logged. *)
Definition stopAndRemove (name : string) : op unit :=
  s <- findByName name;;
  match s with
  | None => ret tt
  | Some c =>
      let remove := _ <- docker (fun d => Whail.ContainerRemove e d (c_id c)) NoCreation;; ret tt in
      if bool_decide (c_state c = StateRunning) then try (docker (fun d => Whail.ContainerStop e d (c_id c)) NoCreation) (fun _ => remove)
      else remove
  end.

Definition start_container (id : string) : op unit := _ <- docker (fun d => Whail.ContainerStart e d id None) NoCreation;; ret tt.

(** Docker's refusal of a name in use is recognised by its text. *)
Definition create_container (name : string) (spec : containerSpec) : op unit := fun w =>
  let extraLabels := {[LabelPurpose cfg := PurposeFirewall cfg]} :: (if bool_decide (s_labels spec = ∅) then [] else [s_labels spec]) in
  match docker (fun d => Whail.ContainerCreate e d name (Some ∅) extraLabels None) (NewContainer spec) w with
  | (w, Ok id) => start_container id w
  | (w', Err err) =>
      if (match next_answer w with Refused => false | _ => name_in_use (arrive w) name end) then
        match findByName name w' with
        | (w, Ok (Some c)) => if bool_decide (c_state c = StateRunning) then (w, Ok tt) else start_container (c_id c) w
        | (w, _) => (w, Err err)
        end
      else (w', Err err)
  end.

Definition ensureContainer (name : string) (spec : containerSpec) : op unit :=
  s <- findByName name;;
  match s with
  | Some c =>
      if specMatchesContainer (c_labels c) (s_labels spec) then
        if bool_decide (c_state c = StateRunning) then ret tt else start_container (c_id c)
      else _ <- stopAndRemove name;; create_container name spec
  | None => create_container name spec
  end.

Definition reloadContainer (name : string) (spec : containerSpec) : op unit :=
  s <- findByName name;;
  match s with
  | None => fail [ContainerMissing]
  | Some c =>
      if negb (specMatchesContainer (c_labels c) (s_labels spec)) then ensureContainer name spec
      else _ <- docker (fun d => Whail.ContainerRestart e d (c_id c)) NoCreation;; ret tt
  end.

(** ** Images *)

(** A stream of status frames: the first one with an error decides. *)
Definition drainPullStream (frames : list (option string)) : bool := forallb (fun m => bool_decide (default "" m = "")) frames.

(** The check goes through the engine, which answers for managed images only; the
    pull does not.  [frames] are the frames of the pull. *)
Definition ensureEnvoyImage (frames : list (option string)) : op unit := fun w =>
  match docker (fun d => Whail.ImageInspect e d envoyImage) NoCreation w with
  | (w, Ok _) => (w, Ok tt)
  | (w, Err _) =>
      let a := next_answer w in let w := arrive w in
      match a, upstream w with
      | Refused, _ | _, None => (w, Err [PullFailed])
      | _, Some i => if drainPullStream frames then (with_images w (<[envoyImage := i]> (images w)), Ok tt) else (w, Err [PullFailed])
      end
  end.

(** [cerrdefs.IsNotFound]: Docker has no such image; an image without the managed
    label is another error. *)
Definition ensureCorednsImage (frames : list (option string)) : op unit := fun w =>
  let absent := negb (bool_decide (is_Some (images (arrive w) !! corednsImageTag))) && match next_answer w with Refused => false | _ => true end in
  match docker (fun d => Whail.ImageInspect e d corednsImageTag) NoCreation w with
  | (w, Ok _) => (w, Ok tt)
  | (w, Err err) =>
      if negb absent then (w, Err err)
      else if String.eqb (CoreDNSClawkerBinary cfg) "" then (w, Err [BinaryNotEmbedded])
      else if drainPullStream frames then
        (_ <- docker (fun d => Whail.ImageBuild e d ∅) (NewImage corednsImageTag (CoreDNSClawkerBinary cfg));; ret tt) w
      else (_ <- docker (fun d => Whail.ImageBuild e d ∅) NoCreation;; fail [BuildFailed]) w
  end.

(** ** Configuration files *)

(** What the environment of [ensureConfigs] answers: directories, the CA and domain
    certificates, the provisioner of client certificates, the writes. *)
Inductive write_result := WriteOk | WriteFails (torn : bool).
Record config_env := mkConfigEnv {
  dirs_ok : bool; EnsureCA_ok : bool; storage : faults; RegenerateDomainCerts_ok : bool;
  (** [None] is the nil provisioner; otherwise whether each service gets its material *)
  otelCerts : option (string -> bool);
  EnvoyConfigPath_ok : bool; write_envoy : write_result; CorefilePath_ok : bool; write_corefile : write_result;
  validateBootstrap : EnvoyConfig -> bool;
}.
Definition write_file {A} (r : write_result) (x : A) (old : file A) : file A := match r with WriteOk => Written x | WriteFails true => Torn | WriteFails false => old end.
Definition wrote (r : write_result) : bool := match r with WriteOk => true | WriteFails _ => false end.

Definition ensureInfraClientCerts (env : config_env) : bool :=
  match otelCerts env with None => true | Some mint => forallb mint ["envoy"; "coredns"] end.
Definition certs_ready (env : config_env) : bool := match otelCerts env with None => false | Some _ => ensureInfraClientCerts env end.

Definition guard (b : bool) : op unit := if b then ret tt else fail [ConfigFailed].
Definition heal_rules (f : faults) : op (list EgressRule) := fun w =>
  let '(r, s) := heal f (w_store w) in
  (with_store w s, match r with Ok rules => Ok rules | Err _ => Err [ConfigFailed] end).
Definition modify (f : world -> world) : op unit := fun w => (f w, Ok tt).

Definition ensureConfigs (env : config_env) : op unit :=
  _ <- guard (dirs_ok env);;
  _ <- guard (EnsureCA_ok env);;
  rules <- heal_rules (storage env);;
  _ <- guard (RegenerateDomainCerts_ok env);;
  _ <- modify (fun w => with_ready w (certs_ready env));;
  envoyYAML <- (match GenerateEnvoyConfig (validateBootstrap env) rules envoyPorts (alsConfig (certs_ready env)) with Ok c => ret c | Err _ => fail [ConfigFailed] end);;
  _ <- guard (EnvoyConfigPath_ok env);;
  _ <- modify (fun w => with_files w (mkFiles (write_file (write_envoy env) envoyYAML (envoy_yaml (w_files w))) (corefile (w_files w))));;
  _ <- guard (wrote (write_envoy env));;
  _ <- guard (CorefilePath_ok env);;
  _ <- modify (fun w => with_files w (mkFiles (envoy_yaml (w_files w)) (write_file (write_corefile env) (GenerateCorefile rules CoreDNSHealthHostPort) (corefile (w_files w)))));;
  guard (wrote (write_corefile env)).

(** ** Health *)

(** A probe: no answer, or the status of the answer. *)
Definition probeHealth (answer : option Z) : bool := bool_decide (answer = Some 200).

(** One round before the deadline: whether the context ended before it or in the
    wait after it, and what the two endpoints answer. *)
Record round := mkRound { ctx_ended : bool; envoy_answer : option Z; coredns_answer : option Z; ctx_ends_waiting : bool }.
Record health_env := mkHealthEnv { ctx_err : bool; deadline_passed : bool; rounds : list round; ctx_err_after : bool }.

Fixpoint poll (envoyReady corednsReady : bool) (rs : list round) : result StackError (bool * bool) :=
  match rs with
  | [] => Ok (envoyReady, corednsReady)
  | r :: rs =>
      if ctx_ended r then Err [CtxDone]
      else
        let envoyReady := envoyReady || probeHealth (envoy_answer r) in
        let corednsReady := corednsReady || probeHealth (coredns_answer r) in
        if envoyReady && corednsReady then Ok (true, true)
        else if ctx_ends_waiting r then Err [CtxDone] else poll envoyReady corednsReady rs
  end.
Definition WaitForHealthy (h : health_env) : op unit :=
  if ctx_err h then fail [CtxDone]
  else
    _ <- DiscoverNetwork;;
    if deadline_passed h then fail [CtxDone]
    else
      match poll false false (rounds h) with
      | Err err => fail err
      | Ok (true, true) => ret tt
      | Ok (envoyReady, corednsReady) =>
          if ctx_err_after h then fail [CtxDone]
          else fail ((if envoyReady then [] else [ErrEnvoyUnhealthy]) ++ (if corednsReady then [] else [ErrCoreDNSUnhealthy]))
      end.

(** ** The stack *)

Definition EnsureRunning (env : config_env) (build pull : list (option string)) (h : health_env) : op unit :=
  netInfo <- ensureNetworkAndDiscover;;
  _ <- ensureConfigs env;;
  _ <- ensureCorednsImage build;;
  _ <- ensureEnvoyImage pull;;
  ready <- gets infraCertsReady;;
  _ <- ensureContainer envoyContainerName (envoyContainerSpec ready netInfo);;
  _ <- ensureContainer corednsContainerName (corednsContainerSpec ready netInfo);;
  WaitForHealthy h.

Definition errs {A} (r : result StackError A) : StackError := match r with Ok _ => [] | Err l => l end.
Definition wrapped {A} (s : sentinel) (r : result StackError A) : StackError := match r with Ok _ => [] | Err _ => [Sentinel s] end.
Definition wrap {A} (s : sentinel) (m : op A) : op A := fun w => match m w with (w, Ok x) => (w, Ok x) | (w, Err _) => (w, Err [Sentinel s]) end.

Definition Stop : op unit :=
  try (stopAndRemove envoyContainerName) (fun r1 =>
  try (stopAndRemove corednsContainerName) (fun r2 =>
    match r1, r2 with Ok _, Ok _ => ret tt | _, _ => fail (errs r1 ++ errs r2) end)).

Definition Reload (env : config_env) (h : health_env) : op unit :=
  _ <- wrap ErrConfigRegen (ensureConfigs env);;
  envoyRunning <- wrap ErrStackProbe (isRunning envoyContainerName);;
  corednsRunning <- wrap ErrStackProbe (isRunning corednsContainerName);;
  if negb envoyRunning || negb corednsRunning then ret tt
  else
    netInfo <- wrap ErrStackProbe DiscoverNetwork;;
    ready <- gets infraCertsReady;;
    try (reloadContainer envoyContainerName (envoyContainerSpec ready netInfo)) (fun r1 =>
    try (reloadContainer corednsContainerName (corednsContainerSpec ready netInfo)) (fun r2 =>
      match wrapped ErrEnvoyRestart r1 ++ wrapped ErrCoreDNSRestart r2 with
      | [] => wrap ErrStackUnhealthy (WaitForHealthy h)
      | l => fail l
      end)).

Record Status := mkStatus {
  Running : bool; EnvoyHealth : bool; CoreDNSHealth : bool; RuleCount : nat; topology : option NetworkInfo;
}.
(** [Stack.Status]; the network is reported when it is found. *)
Definition StackStatus : op Status :=
  rules <- gets (fun w => canonical (mem (w_store w)));;
  envoyRunning <- isRunning envoyContainerName;;
  corednsRunning <- isRunning corednsContainerName;;
  try DiscoverNetwork (fun r =>
    ret (mkStatus (envoyRunning && corednsRunning) envoyRunning corednsRunning (length rules) (match r with Ok i => Some i | Err _ => None end))).

End Stack.
End Stack.
