(* ===== verification/StackSpec.v ===== *)
(** * What the firewall stack promises

    A bring-up or a reload that succeeds leaves both containers running with the
    options their specification asks for; a reload leaves them with the files
    generated from the stored rules, and with the handler, the kernel's routes are
    those of the same rules.  Nothing else of Docker's is touched. *)

From S2P Require Import Prelude GoStrings GoPath GoNet IPText EgressRule Wire Conflicts Canonical RuleStore Mappings CoreDNS Routes EnvoyTree EnvoyLayers Whail EbpfApi Handler Stack.
Import Go GoPath Rule Wire Conflicts Canonical RuleStore Mappings CoreDNS EnvoyTree EnvoyLayers Stack.

Module StackSpec.

(** ** Reasoning about operations *)

(** [m] started in [w] ends in a world, with a result, that satisfies [Q]. *)
Definition wp {A} (m : op A) (Q : world -> result StackError A -> Prop) (w : world) : Prop := Q (m w).1 (m w).2.

Lemma wp_mono {A} (m : op A) (Q Q' : world -> result StackError A -> Prop) w : (forall w r, Q w r -> Q' w r) -> wp m Q w -> wp m Q' w.
Proof. unfold wp. auto. Qed.
Lemma wp_ret {A} (x : A) (Q : world -> result StackError A -> Prop) w : Q w (Ok x) -> wp (ret x) Q w.
Proof. done. Qed.
Lemma wp_fail {A} err (Q : world -> result StackError A -> Prop) w : Q w (Err err) -> wp (fail err) Q w.
Proof. done. Qed.
Lemma wp_gets {A} (f : world -> A) (Q : world -> result StackError A -> Prop) w : Q w (Ok (f w)) -> wp (gets f) Q w.
Proof. done. Qed.
Lemma wp_bind {A B} (m : op A) (k : A -> op B) (Q : world -> result StackError B -> Prop) w :
  wp m (fun w r => match r with Ok x => wp (k x) Q w | Err err => Q w (Err err) end) w -> wp (bind m k) Q w.
Proof. unfold wp, bind. destruct (m w) as [w' [x|err]]; done. Qed.
Lemma wp_try {A B} (m : op A) (k : result StackError A -> op B) (Q : world -> result StackError B -> Prop) w :
  wp m (fun w r => wp (k r) Q w) w -> wp (try m k) Q w.
Proof. unfold wp, try. destruct (m w) as [w' r]; done. Qed.
Lemma wp_wrap {A} s (m : op A) (Q : world -> result StackError A -> Prop) w :
  wp m (fun w r => Q w (match r with Ok x => Ok x | Err _ => Err [Sentinel s] end)) w -> wp (wrap s m) Q w.
Proof. unfold wp, wrap. destruct (m w) as [w' [x|err]]; done. Qed.

Section Spec.
Variable e : Whail.Engine.
Variable cfg : Config.

(** ** Orderly worlds *)

Abbreviation managed := (fun c => Whail.isManagedLabelPresent e (c_labels c)).
Definition ours : list string := [envoyContainerName; corednsContainerName].

(** IDs and names are unique; no other managed container has the name of one of the
    two in its own; nobody else creates containers. *)
Record orderly (w : world) : Prop := {
  or_ids : NoDup (c_id <$> containers w);
  or_names : NoDup (c_name <$> containers w);
  or_shadow : forall c name, c ∈ containers w -> managed c = true -> name ∈ ours -> Contains (c_name c) name = true -> c_name c = name;
  or_calm : Forall (fun a => match a with Meanwhile _ => False | _ => True end) (answers w);
}.

(** What an operation on the container [name] leaves alone. *)
Definition rest (name : string) (w : world) : list container := List.filter (fun c => negb (String.eqb (c_name c) name)) (containers w).
Record frame (name : string) (w w' : world) : Prop := {
  fr_rest : rest name w' = rest name w;
  fr_files : w_files w' = w_files w; fr_store : w_store w' = w_store w; fr_ready : infraCertsReady w' = infraCertsReady w;
  fr_networks : networks w' = networks w; fr_images : images w' = images w;
}.
(** Only an answer was taken. *)
Definition same (w w' : world) : Prop := exists a, w' = with_answers w a.

(** The managed label is read back from a filter, and is none of the stack's own. *)
Definition engine_ok : Prop :=
  Cut "=" (Whail.managedLabelKey e +:+ "=" +:+ Whail.managedLabelValue e) = Some (Whail.managedLabelKey e, Whail.managedLabelValue e) /\
  Whail.managedLabelKey e ∉ [labelInfraCertsReady; labelOtelInfraPort; labelStackBuildSHA].
Hypothesis Hengine : engine_ok.

Lemma frame_refl name w : frame name w w.
Proof. by constructor. Qed.
Lemma frame_trans name w1 w2 w3 : frame name w1 w2 -> frame name w2 w3 -> frame name w1 w3.
Proof. intros [] []. constructor; congruence. Qed.
Lemma same_frame name w w' : same w w' -> frame name w w'.
Proof. by intros [a ->]. Qed.

Lemma arrive_calm w : orderly w -> same w (arrive w) /\ orderly (arrive w).
Proof.
  intros [H1 H2 H3 H4]. unfold arrive, next_answer. destruct (answers w) as [|a l] eqn:Ea; cbn; [split; [by exists []|by constructor]|].
  apply Forall_cons in H4 as [Ha Hl]. destruct a; try done; (split; [by exists l|by constructor]).
Qed.

(** A call of the engine whose effects [E] describes when it is served. *)
Lemma wp_docker o b (Q : world -> result StackError string -> Prop) w :
  orderly w ->
  (forall w', same w w' -> orderly w' -> Q w' (Err [DockerFailed])) ->
  (forall w' calls id, same w w' -> orderly w' -> o (view b w' (next_answer w)) = (calls, Ok id) -> Q (foldl (effect b) w' calls) (Ok id)) ->
  wp (docker o b) Q w.
Proof.
  intros Hw Herr Hok. destruct (arrive_calm w Hw) as [Hs Ho]. unfold wp, docker, engine.
  destruct (o (view b (arrive w) (next_answer w))) as [calls [id|err]] eqn:E; cbn; [by apply Hok|by apply Herr].
Qed.

Lemma issue_done d c err calls id : Whail.issue d c err = (calls, Ok id) -> calls = [c] /\ Whail.answer d c = Whail.Done id.
Proof. unfold Whail.issue. destruct (Whail.answer d c); intros ?; by simplify_eq. Qed.
Lemma on_container_done b w a o u ref calls id :
  Whail.on_container e (view b w a) o u ref = (calls, Ok id) -> calls = [Whail.OnContainer o ref].
Proof.
  unfold Whail.on_container, Whail.guarded. destruct (Whail.IsContainerManaged _ _ _) as [[]|]; intros Hx; simplify_eq. by apply issue_done in Hx as [-> _].
Qed.
(** An operation on the container [id]: served, it has its one effect. *)
Lemma wp_on_container o u id (Q : world -> result StackError string -> Prop) w :
  orderly w ->
  (forall w', same w w' -> orderly w' -> Q w' (Err [DockerFailed])) ->
  (forall w' id', same w w' -> orderly w' -> Q (effect NoCreation w' (Whail.OnContainer o id)) (Ok id')) ->
  wp (docker (fun d => Whail.on_container e d o u id) NoCreation) Q w.
Proof.
  intros Hw Herr Hok. apply wp_docker; [done|done|]. intros w' calls id' Hs Ho Hd. apply on_container_done in Hd as ->. by apply Hok.
Qed.
Lemma wp_start id (Q : world -> result StackError unit -> Prop) w :
  orderly w ->
  (forall w', same w w' -> orderly w' -> Q w' (Err [DockerFailed])) ->
  (forall w', same w w' -> orderly w' -> Q (effect NoCreation w' (Whail.OnContainer Whail.OpStart id)) (Ok tt)) ->
  wp (start_container e id) Q w.
Proof.
  intros Hw Herr Hok. apply wp_bind, wp_docker; [done|by apply Herr|]. intros w' calls id' Hs Ho Hd.
  assert (calls = [Whail.OnContainer Whail.OpStart id]) as ->; [|by apply wp_ret, Hok].
  unfold Whail.ContainerStart in Hd. destruct (String.eqb id ""); [done|]. unfold Whail.guarded in Hd.
  destruct (Whail.IsContainerManaged _ _ _) as [[]|]; simplify_eq. by apply issue_done in Hd as [-> _].
Qed.

(** *** Finding a container *)

Definition named (w : world) (name : string) (c : container) : Prop := c ∈ containers w /\ c_name c = name /\ managed c = true.
Lemma named_unique w name c c' : orderly w -> named w name c -> named w name c' -> c = c'.
Proof.
  intros Hw (Hc & Hn & _) (Hc' & Hn' & _). apply list_elem_of_lookup in Hc as [i Hi], Hc' as [j Hj].
  assert (i = j) as ->; [|by simplify_eq]. eapply (NoDup_lookup (c_name <$> containers w)); [apply Hw|by rewrite list_lookup_fmap, Hi|].
  rewrite list_lookup_fmap, Hj. cbn. by rewrite Hn, Hn'.
Qed.

Lemma name_filter_matches name c :
  filter_matches (Whail.injectManagedFilter e (Whail.filter_add ∅ "name" name)) c = managed c && Contains (c_name c) name.
Proof.
  destruct Hengine as [Hcut _]. unfold filter_matches, filter_values, Whail.injectManagedFilter, Whail.AddLabelFilter, Whail.filter_add.
  rewrite lookup_insert_eq, (lookup_insert_ne _ "label" "name"), lookup_insert_eq by done. rewrite (lookup_insert_ne _ "name" "label"), lookup_empty by done. cbn [default option_map id].
  change (default ∅ None) with (∅ : gset string). change (default ∅ ((∅ : Whail.Filters) !! "name")) with (∅ : gset string). rewrite !union_empty_r_L, !elements_singleton. cbn [forallb existsb].
  unfold label_matches. rewrite Hcut, andb_true_r, orb_false_r. done.
Qed.

Lemma ours_envoy : envoyContainerName ∈ ours.
Proof. by left. Qed.
Lemma ours_coredns : corednsContainerName ∈ ours.
Proof. right. by left. Qed.
Lemma ours_contained name : name ∈ ours -> Contains name name = true.
Proof. unfold ours. rewrite !elem_of_cons, elem_of_nil. intros [->|[->|[]]]; by vm_compute. Qed.

Lemma wp_findByName name (Q : world -> result StackError (option container) -> Prop) w :
  orderly w -> name ∈ ours ->
  (forall w', same w w' -> orderly w' -> Q w' (Err [DockerFailed])) ->
  (forall w' c, same w w' -> orderly w' -> named w' name c -> Q w' (Ok (Some c))) ->
  (forall w', same w w' -> orderly w' -> (forall c, ~ named w' name c) -> Q w' (Ok None)) ->
  wp (findByName e name) Q w.
Proof.
  intros Hw Hn Herr Hsome Hnone. apply wp_bind, wp_docker; [done|by apply Herr|]. intros w' calls id Hs Ho Hd. apply issue_done in Hd as [-> _]. cbn [foldl effect].
  apply wp_gets. rewrite (filter_ext _ _ (name_filter_matches name)). destruct (List.filter _ _) as [|c l] eqn:E; cbn [head].
  - apply Hnone; [done..|]. intros c (Hc & Hcn & Hm). apply list_elem_of_In in Hc.
    assert (In c []) as []. rewrite <- E. apply filter_In. split; [done|]. rewrite Hm, Hcn. by apply ours_contained.
  - assert (In c (c :: l)) as Hin by (by left). rewrite <- E in Hin. apply filter_In in Hin as [Hin [Hm Hc]%andb_true_iff]. apply list_elem_of_In in Hin.
    apply Hsome; [done..|]. split; [done|]. split; [|done]. by apply (or_shadow w' Ho).
Qed.

(** *** Changing a container *)

Lemma filter_fmap_same {A} (p : A -> bool) (f : A -> A) l : (forall x, x ∈ l -> p (f x) = p x /\ (p x = true -> f x = x)) -> List.filter p (f <$> l) = List.filter p l.
Proof.
  intros H. induction l as [|x l IH]; [done|]. destruct (H x) as [Hp Hf]; [by left|]. cbn. rewrite Hp, IH by (intros y Hy; apply H; by right).
  destruct (p x); [by rewrite Hf|done].
Qed.
Lemma filter_filter_same {A} (p q : A -> bool) l : (forall x, x ∈ l -> p x = true -> q x = true) -> List.filter p (List.filter q l) = List.filter p l.
Proof.
  intros H. induction l as [|x l IH]; [done|]. assert (IH' : List.filter p (List.filter q l) = List.filter p l) by (apply IH; intros y Hy; apply H; by right).
  cbn. destruct (q x) eqn:Eq; cbn; [by rewrite IH'|]. destruct (p x) eqn:Ep; [|done]. rewrite (H x) in Eq; [done|by left|done].
Qed.
Lemma filter_sublist {A} (p : A -> bool) l : sublist (List.filter p l) l.
Proof. induction l as [|x l IH]; cbn; [done|]. destruct (p x); by constructor. Qed.

Lemma id_unique w c c' : orderly w -> c ∈ containers w -> c' ∈ containers w -> c_id c = c_id c' -> c = c'.
Proof.
  intros Hw [i Hi]%list_elem_of_lookup [j Hj]%list_elem_of_lookup He.
  assert (i = j) as ->; [|by simplify_eq]. eapply (NoDup_lookup (c_id <$> containers w)); [apply Hw|by rewrite list_lookup_fmap, Hi|].
  rewrite list_lookup_fmap, Hj. cbn. by rewrite He.
Qed.

(** The labels a container is created with. *)
Definition spec_labels (spec : containerSpec) : labels :=
  Whail.forced e (Whail.MergeLabels [Whail.containerLabels e ({[LabelPurpose cfg := PurposeFirewall cfg]} :: (if bool_decide (s_labels spec = ∅) then [] else [s_labels spec])); ∅]).

(** Where the container [c'] called [name] comes from. *)
Definition descends (w : world) (name : string) (spec : containerSpec) (c' : container) : Prop :=
  (exists c, named w name c /\ c_spec c' = c_spec c /\ c_labels c' = c_labels c /\ c_image c' = c_image c) \/
  (c_spec c' = spec /\ c_labels c' = spec_labels spec /\ images w !! s_image spec = Some (c_image c')).
Record touches (name : string) (spec : containerSpec) (w w' : world) : Prop := {
  to_frame : frame name w w'; to_orderly : orderly w'; to_from : forall c', named w' name c' -> descends w name spec c';
}.

Lemma same_named w w' name c : same w w' -> named w' name c <-> named w name c.
Proof. by intros [a ->]. Qed.
Lemma same_touches name spec w w' : same w w' -> orderly w' -> touches name spec w w'.
Proof. intros Hs Ho. split; [by apply same_frame|done|]. intros c Hc%(same_named w). { left. by exists c. } done. Qed.
Lemma touches_trans name spec w1 w2 w3 : touches name spec w1 w2 -> touches name spec w2 w3 -> touches name spec w1 w3.
Proof.
  intros [F1 O1 D1] [F2 O2 D2]. split; [by eapply frame_trans|done|]. intros c Hc. destruct (D2 c Hc) as [(c0 & Hn & Hs & Hl & Hi)|(Hs & Hl & Hi)].
  - destruct (D1 c0 Hn) as [(c1 & Hn1 & Hs1 & Hl1 & Hi1)|(Hs1 & Hl1 & Hi1)]; [left; exists c1; split; [done|]|right; rewrite Hi]; repeat split; congruence.
  - right. split; [done|]. split; [done|]. by rewrite <- (fr_images _ _ _ F1).
Qed.

Definition keeps (g : container -> container) : Prop :=
  forall c, c_id (g c) = c_id c /\ c_name (g c) = c_name c /\ c_labels (g c) = c_labels c /\ c_spec (g c) = c_spec c /\ c_image (g c) = c_image c.
Lemma on_id_touches name spec w c g :
  orderly w -> named w name c -> keeps g ->
  let w' := with_containers w (on_id (c_id c) g (containers w)) in touches name spec w w' /\ named w' name (g c).
Proof.
  intros Hw (Hc & Hn & Hm) Hg. cbv zeta. set (f := fun x => if String.eqb (c_id x) (c_id c) then g x else x). change (on_id (c_id c) g (containers w)) with (f <$> containers w).
  assert (Hf : forall x, c_id (f x) = c_id x /\ c_name (f x) = c_name x /\ c_labels (f x) = c_labels x /\ c_spec (f x) = c_spec x /\ c_image (f x) = c_image x).
  { intros x. unfold f. destruct (String.eqb _ _); [apply Hg|done]. }
  assert (Hfc : f c = g c) by (unfold f; by rewrite String.eqb_refl).
  assert (Hnamed : named (with_containers w (f <$> containers w)) name (g c)).
  { split; [cbn; rewrite <- Hfc; by apply list_elem_of_fmap_2|]. destruct (Hg c) as (_ & -> & -> & _). done. }
  split; [|done]. split.
  - split; try done. unfold rest. cbn. apply filter_fmap_same. intros x Hx. destruct (Hf x) as (_ & -> & _). split; [done|]. unfold f. intros Hp.
    destruct (String.eqb (c_id x) (c_id c)) eqn:E; [|done]. apply String.eqb_eq in E. rewrite (id_unique w x c Hw Hx Hc E), Hn, String.eqb_refl in Hp. done.
  - destruct Hw as [H1 H2 H3 H4]. split; [..|done]; cbn.
    + erewrite <- list_fmap_compose, list_fmap_ext; [apply H1|]. intros i x _. apply Hf.
    + erewrite <- list_fmap_compose, list_fmap_ext; [apply H2|]. intros i x _. apply Hf.
    + intros x nm Hx Hmx. apply list_elem_of_fmap in Hx as (y & -> & Hy). destruct (Hf y) as (_ & Hny & Hly & _). rewrite Hny. rewrite Hly in Hmx. by apply H3.
  - intros c' (Hc' & Hn' & Hm'). cbn in Hc'. apply list_elem_of_fmap in Hc' as (y & -> & Hy). destruct (Hf y) as (_ & Hny & Hly & Hsy & Hiy). left. exists y.
    rewrite Hny in Hn'. rewrite Hly in Hm'. done.
Qed.
Lemma remove_touches name spec w c :
  orderly w -> named w name c ->
  let w' := effect NoCreation w (Whail.OnContainer Whail.OpRemove (c_id c)) in touches name spec w w' /\ forall c', ~ named w' name c'.
Proof.
  intros Hw (Hc & Hn & Hm). cbn [effect]. set (p := fun x => negb (String.eqb (c_id x) (c_id c))). cbv zeta.
  assert (Hin : forall x, x ∈ List.filter p (containers w) -> x ∈ containers w /\ p x = true).
  { intros x Hx. apply list_elem_of_In, filter_In in Hx as [Hx Hp]. by apply list_elem_of_In in Hx. }
  split.
  - split.
    + split; try done. unfold rest. cbn. apply filter_filter_same. intros x Hx Hp. unfold p. destruct (String.eqb (c_id x) (c_id c)) eqn:E; [|done].
      apply String.eqb_eq in E. rewrite (id_unique w x c Hw Hx Hc E), Hn, String.eqb_refl in Hp. done.
    + destruct Hw as [H1 H2 H3 H4]. pose proof (filter_sublist p (containers w)) as Hsub. split; [..|done]; cbn.
      * apply (sublist_NoDup _ _ H1). by apply fmap_sublist.
      * apply (sublist_NoDup _ _ H2). by apply fmap_sublist.
      * intros x nm [Hx _]%Hin. by apply H3.
    + intros c' (Hc' & Hn' & Hm'). apply Hin in Hc' as [Hc' _]. left. by exists c'.
  - intros c' (Hc' & Hn' & Hm'). apply Hin in Hc' as [Hc' Hp]. unfold p in Hp.
    rewrite (named_unique w name c' c Hw), String.eqb_refl in Hp; [done|by split|by split].
Qed.

(** *** Creating a container *)

Lemma append_length s t : String.length (s +:+ t) = (String.length s + String.length t)%nat.
Proof. induction s as [|a s IH]; [done|]. change (String a s +:+ t) with (String a (s +:+ t)). cbn. by rewrite IH. Qed.
Lemma fresh_id_new w c : c ∈ containers w -> c_id c <> fresh_id w.
Proof.
  intros Hc He. assert (forall l, c ∈ l -> (String.length (c_id c) < String.length (foldr (fun c s => c_id c +:+ s) "0" l))%nat) as Hl.
  { induction l as [|x l IH]; intros H; [by apply not_elem_of_nil in H|]. cbn. rewrite append_length.
    assert (forall l, (0 < String.length (foldr (fun c s => c_id c +:+ s) "0" l))%nat) as Hpos.
    { induction l0 as [|y l0 IH0]; cbn; [lia|]. rewrite append_length. lia. }
    specialize (Hpos l). apply elem_of_cons in H as [->|H]; [lia|]. specialize (IH H). lia. }
  specialize (Hl _ Hc). fold (fresh_id w) in Hl. rewrite He in Hl. lia.
Qed.
Lemma name_free w name : name_in_use w name = false -> forall c, c ∈ containers w -> c_name c <> name.
Proof.
  intros Hf c Hc Hn. unfold name_in_use in Hf. assert (existsb (fun c => String.eqb (c_name c) name) (containers w) = true) as He; [|by rewrite He in Hf].
  apply existsb_exists. exists c. split; [by apply list_elem_of_In|by apply String.eqb_eq].
Qed.
Lemma ours_apart name nm : name ∈ ours -> nm ∈ ours -> Contains name nm = true -> name = nm.
Proof. unfold ours. rewrite !elem_of_cons, !elem_of_nil. intros [->|[->|[]]] [->|[->|[]]] Hc; try done; by vm_compute in Hc. Qed.

Lemma MergeLabels_two a b : Whail.MergeLabels [a; b] = b ∪ a.
Proof. unfold Whail.MergeLabels. cbn. by rewrite map_union_empty. Qed.
Lemma spec_labels_managed spec : Whail.isManagedLabelPresent e (spec_labels spec) = true.
Proof. apply bool_decide_eq_true. unfold spec_labels, Whail.forced. by rewrite lookup_insert_eq. Qed.
Lemma spec_labels_lookup spec k v : s_labels spec !! k = Some v -> k <> Whail.managedLabelKey e -> spec_labels spec !! k = Some v.
Proof.
  intros Hk Hne. unfold spec_labels, Whail.forced. rewrite lookup_insert_ne, MergeLabels_two, map_empty_union by done. rewrite bool_decide_eq_false_2 by (intros H0; by rewrite H0 in Hk).
  unfold Whail.containerLabels, Whail.MergeLabels. cbn [foldl app]. by apply lookup_union_Some_l.
Qed.

Lemma new_touches name spec w i :
  orderly w -> name ∈ ours -> name_in_use w name = false -> images w !! s_image spec = Some i ->
  let c := mkContainer (fresh_id w) name (spec_labels spec) StateCreated spec i (mkFiles Absent Absent) in
  let w' := with_containers w (c :: containers w) in touches name spec w w' /\ named w' name c.
Proof.
  intros Hw Hn Hf Hi. cbv zeta. set (c := mkContainer _ _ _ _ _ _ _). pose proof (name_free w name Hf) as Hfree.
  split; [|split; [by left|split; [done|apply spec_labels_managed]]]. split.
  - split; try done. unfold rest. cbn. by rewrite String.eqb_refl.
  - destruct Hw as [H1 H2 H3 H4]. split; [..|done]; cbn.
    + apply NoDup_cons. split; [|done]. intros (x & Hx & Hin)%list_elem_of_fmap. by apply (fresh_id_new w x Hin).
    + apply NoDup_cons. split; [|done]. intros (x & Hx & Hin)%list_elem_of_fmap. by apply (Hfree x Hin).
    + intros x nm [->|Hx]%elem_of_cons; [|by apply H3]. intros _ Hnm. cbn. by apply ours_apart.
  - intros c' (Hc' & Hn' & _). apply elem_of_cons in Hc' as [->|Hc']; [by right|]. by destruct (Hfree c' Hc').
Qed.

Definition start_change (f : files) (c : container) : container := if bool_decide (c_state c = StateRunning) then c else started f c.
Lemma start_change_keeps f : keeps (start_change f).
Proof. intros c. unfold start_change. by destruct (bool_decide _). Qed.
Lemma start_change_running f c : c_state (start_change f c) = StateRunning.
Proof. unfold start_change. case_bool_decide; done. Qed.

Lemma wp_create_container name spec w :
  orderly w -> name ∈ ours -> (forall c, ~ named w name c) ->
  wp (create_container e cfg name spec) (fun w' r => touches name spec w w' /\
    (r = Ok tt -> exists c, named w' name c /\ c_state c = StateRunning /\ c_spec c = spec /\ c_labels c = spec_labels spec /\ c_loaded c = w_files w)) w.
Proof.
  intros Hw Hn Hnone. unfold wp, create_container. destruct (arrive_calm w Hw) as [Hsa Hoa].
  set (o := fun d => Whail.ContainerCreate e d name (Some ∅) _ None).
  assert (Hcreate : wp (docker o (NewContainer spec)) (fun w' r => match r with Ok id => exists wa i, same w wa /\ orderly wa /\ name_in_use wa name = false /\
      images wa !! s_image spec = Some i /\ id = fresh_id wa /\ w' = with_containers wa (mkContainer (fresh_id wa) name (spec_labels spec) StateCreated spec i (mkFiles Absent Absent) :: containers wa)
    | Err _ => same w w' /\ orderly w' end) w).
  { apply wp_docker; [done|done|]. intros wa calls id Hs Ho Hd. apply issue_done in Hd as [-> Ha]. cbn in Ha.
    destruct (next_answer w); try done; (destruct (name_in_use wa name) eqn:Eu; [done|]; case_bool_decide as Hi; [|done]; destruct Hi as [i Hi]; cbn; rewrite Hi; cbn in Ha; simplify_eq; by exists wa, i). }
  unfold wp in Hcreate. destruct (docker o (NewContainer spec) w) as [w1 [id|err]]; cbn in Hcreate.
  - destruct Hcreate as (wa & i & Hs & Ho & Hu & Hi & -> & ->). destruct (new_touches name spec wa i Ho Hn Hu Hi) as [Ht Hnew].
    set (c := mkContainer _ _ _ _ _ _ _) in *. set (w2 := with_containers wa _) in *. assert (Hw2 : touches name spec w w2) by (eapply touches_trans; [by apply same_touches|done]).
    change (wp (start_container e (c_id c)) (fun w' r => touches name spec w w' /\ (r = Ok tt -> exists c, named w' name c /\ c_state c = StateRunning /\ c_spec c = spec /\ c_labels c = spec_labels spec /\ c_loaded c = w_files w)) w2).
    apply wp_start; [apply Hw2|..]; intros w3 Hs3 Ho3.
    + split; [|done]. by eapply touches_trans; [|apply same_touches].
    + assert (Hc3 : named w3 name c) by (by apply (same_named w2)). destruct (on_id_touches name spec w3 c (start_change (w_files w3)) Ho3 Hc3 (start_change_keeps _)) as [Ht3 Hn3].
      split; [eapply touches_trans; [exact Hw2|eapply touches_trans; [by apply same_touches|exact Ht3]]|]. intros _. exists (start_change (w_files w3) c). split; [exact Hn3|].
      destruct Hs3 as [a3 ->]. destruct Hs as [a ->]. done.
  - destruct Hcreate as [Hs Ho]. destruct (match next_answer w with Refused => false | _ => _ end); [|split; [by apply same_touches|done]].
    assert (Hfind : wp (findByName e name) (fun w' r => same w w' /\ orderly w' /\ (forall c, r <> Ok (Some c))) w1).
    { assert (forall w', same w1 w' -> same w w') as Htr by (intros w' [a ->]; destruct Hs as [b ->]; by exists a).
      apply wp_findByName; [done|done|..]; [intros w' H1 H2|intros w' c H1 H2 H3|intros w' H1 H2 H3]; (split; [by apply Htr|]; split; [done|]); try done.
      exfalso. apply (Hnone c). by apply (same_named w w' name c (Htr w' H1)). }
    unfold wp in Hfind. destruct (findByName e name w1) as [w2 [[c|]|err']]; cbn in Hfind; destruct Hfind as (H1 & H2 & H3); [by destruct (H3 c)|..]; (split; [by apply same_touches|done]).
Qed.

(** ** The operations on one container *)

Lemma same_trans w1 w2 w3 : same w1 w2 -> same w2 w3 -> same w1 w3.
Proof. intros [a ->] [b ->]. by exists b. Qed.

Lemma wp_stopAndRemove name spec w :
  orderly w -> name ∈ ours -> wp (stopAndRemove e name) (fun w' r => touches name spec w w' /\ (r = Ok tt -> forall c, ~ named w' name c)) w.
Proof.
  intros Hw Hn. apply wp_bind, wp_findByName; [done|done|..].
  - intros w' Hs Ho. split; [by apply same_touches|done].
  - intros w1 c Hs Ho Hc. pose proof (same_touches name spec _ _ Hs Ho) as Ht1.
    assert (Hrm : forall w2 c2, touches name spec w w2 -> named w2 name c2 -> c_id c2 = c_id c ->
      wp (_ <- docker (fun d => Whail.ContainerRemove e d (c_id c)) NoCreation;; ret tt) (fun w' r => touches name spec w w' /\ (r = Ok tt -> forall c, ~ named w' name c)) w2).
    { intros w2 c2 Ht Hc2 Hid. apply wp_bind, wp_on_container; [apply Ht|..].
      - intros w3 Hs3 Ho3. split; [|done]. by eapply touches_trans; [|apply same_touches].
      - intros w3 id' Hs3 Ho3. apply wp_ret. assert (Hc3 : named w3 name c2) by (by apply (same_named w2)). rewrite <- Hid. destruct (remove_touches name spec w3 c2 Ho3 Hc3) as [Ht3 Hno].
        split; [eapply touches_trans; [exact Ht|eapply touches_trans; [by apply same_touches|exact Ht3]]|done]. }
    case_bool_decide; [|by eapply Hrm].
    apply wp_try, wp_on_container; [done|..].
    + intros w2 Hs2 Ho2. apply (Hrm w2 c); [|by apply (same_named w1)|done]. by eapply touches_trans; [|apply same_touches].
    + intros w2 id' Hs2 Ho2. assert (Hc2 : named w2 name c) by (by apply (same_named w1)).
      destruct (on_id_touches name spec w2 c (fun c => set_state c StateExited) Ho2 Hc2) as [Ht2 Hn2]; [by intros x|].
      apply (Hrm _ (set_state c StateExited)); [|exact Hn2|done]. eapply touches_trans; [exact Ht1|eapply touches_trans; [by apply same_touches|exact Ht2]].
  - intros w' Hs Ho Hno. apply wp_ret. split; [by apply same_touches|done].
Qed.

Lemma specMatches_spec actual want : specMatchesContainer actual want = true <-> forall k v, want !! k = Some v -> default "" (actual !! k) = v.
Proof.
  unfold specMatchesContainer. rewrite forallb_forall. split.
  - intros H k v Hk. apply elem_of_map_to_list, list_elem_of_In in Hk. specialize (H _ Hk). by apply String.eqb_eq in H.
  - intros H [k v] Hk%list_elem_of_In%elem_of_map_to_list. apply String.eqb_eq. by apply H.
Qed.
Definition unmanaged_labels (spec : containerSpec) : Prop := s_labels spec !! Whail.managedLabelKey e = None.
Lemma spec_labels_match spec : unmanaged_labels spec -> specMatchesContainer (spec_labels spec) (s_labels spec) = true.
Proof. intros Hu. apply specMatches_spec. intros k v Hk. rewrite (spec_labels_lookup spec k v Hk); [done|]. intros ->. by rewrite Hu in Hk. Qed.

(** The container [name] runs and carries the labels of the specification. *)
Definition live (name : string) (want : labels) (w : world) (c : container) : Prop :=
  named w name c /\ c_state c = StateRunning /\ specMatchesContainer (c_labels c) want = true.

Lemma wp_ensureContainer name spec w :
  orderly w -> name ∈ ours -> unmanaged_labels spec ->
  wp (ensureContainer e cfg name spec) (fun w' r => touches name spec w w' /\
    (r = Ok tt -> exists c, live name (s_labels spec) w' c /\ (live name (s_labels spec) w c \/ c_loaded c = w_files w))) w.
Proof.
  intros Hw Hn Hu. set (Q := fun (w' : world) (r : result StackError unit) => touches name spec w w' /\
    (r = Ok tt -> exists c, live name (s_labels spec) w' c /\ (live name (s_labels spec) w c \/ c_loaded c = w_files w))).
  assert (Hnew : forall w1, touches name spec w w1 -> (forall c, ~ named w1 name c) -> wp (create_container e cfg name spec) Q w1).
  { intros w1 Ht1 Hno. eapply wp_mono; [|by apply wp_create_container; [apply Ht1|..]]. intros w2 r [Ht2 Hr]. split; [by eapply touches_trans|].
    intros Hok. destruct (Hr Hok) as (c & Hc & Hst & _ & Hl & Hld). exists c. split; [split; [done|split; [done|rewrite Hl; by apply spec_labels_match]]|].
    right. rewrite Hld. apply Ht1. }
  apply wp_bind, wp_findByName; [done|done|..].
  - intros w' Hs Ho. split; [by apply same_touches|done].
  - intros w1 c Hs Ho Hc. pose proof (same_touches name spec _ _ Hs Ho) as Ht1. destruct (specMatchesContainer (c_labels c) (s_labels spec)) eqn:Em.
    + assert (Hc0 : named w name c) by (by apply (same_named w w1)). case_bool_decide as Hst.
      * apply wp_ret. split; [done|]. intros _. exists c. split; [exact (conj Hc (conj Hst Em))|]. left. exact (conj Hc0 (conj Hst Em)).
      * apply wp_start; [done|..]; intros w2 Hs2 Ho2; pose proof (same_touches name spec _ _ Hs2 Ho2) as Ht2.
        { split; [by eapply touches_trans|done]. }
        assert (Hc2 : named w2 name c) by (by apply (same_named w1)).
        destruct (on_id_touches name spec w2 c (start_change (w_files w2)) Ho2 Hc2 (start_change_keeps _)) as [Ht3 Hn3].
        split; [eapply touches_trans; [exact Ht1|by eapply touches_trans]|]. intros _. exists (start_change (w_files w2) c).
        split; [split; [exact Hn3|split; [apply start_change_running|]]|].
        { destruct (start_change_keeps (w_files w2) c) as (_ & _ & -> & _). done. }
        right. unfold start_change. rewrite bool_decide_eq_false_2 by done. destruct Hs as [a ->], Hs2 as [a2 ->]. done.
    + apply wp_bind. eapply wp_mono; [|apply (wp_stopAndRemove name spec w1 Ho Hn)]. intros w2 [[]|err] [Ht2 Hr2].
      * apply Hnew; [by eapply touches_trans|by apply Hr2].
      * split; [by eapply touches_trans|done].
  - intros w1 Hs Ho Hno. apply Hnew; [by apply same_touches|done].
Qed.

Lemma live_same name want w w' c : same w w' -> live name want w c -> live name want w' c.
Proof. intros Hs (Hn & H). split; [by apply (same_named w)|done]. Qed.

Lemma wp_reloadContainer name spec w :
  orderly w -> name ∈ ours -> unmanaged_labels spec ->
  wp (reloadContainer e cfg name spec) (fun w' r => touches name spec w w' /\
    (r = Ok tt -> exists c, live name (s_labels spec) w' c /\ c_loaded c = w_files w)) w.
Proof.
  intros Hw Hn Hu. apply wp_bind, wp_findByName; [done|done|..].
  - intros w' Hs Ho. split; [by apply same_touches|done].
  - intros w1 c Hs Ho Hc. pose proof (same_touches name spec _ _ Hs Ho) as Ht1. destruct (specMatchesContainer (c_labels c) (s_labels spec)) eqn:Em; cbn [negb].
    + apply wp_bind, wp_on_container; [done|..]; [intros w2 Hs2 Ho2|intros w2 id' Hs2 Ho2]; pose proof (same_touches name spec _ _ Hs2 Ho2) as Ht2.
      { split; [by eapply touches_trans|done]. }
      apply wp_ret. assert (Hc2 : named w2 name c) by (by apply (same_named w1)).
      destruct (on_id_touches name spec w2 c (started (w_files w2)) Ho2 Hc2) as [Ht3 Hn3]; [by intros x|].
      split; [eapply touches_trans; [exact Ht1|by eapply touches_trans]|]. intros _. exists (started (w_files w2) c). split; [split; [exact Hn3|split; [done|exact Em]]|].
      destruct Hs as [a ->], Hs2 as [a2 ->]. done.
    + eapply wp_mono; [|by apply (wp_ensureContainer name spec w1 Ho Hn)]. intros w2 r [Ht2 Hr]. split; [by eapply touches_trans|]. intros Hok.
      destruct (Hr Hok) as (c2 & Hl & [(Hn1 & _ & Hm)|Hld]); [|exists c2; split; [done|]; by destruct Hs as [a ->]].
      rewrite (named_unique w1 name c2 c) in Hm by done. by rewrite Hm in Em.
  - intros w1 Hs Ho Hno. apply wp_fail. split; [by apply same_touches|done].
Qed.

(** ** The steps that leave containers alone *)

Record aside (w w' : world) : Prop := { as_containers : containers w' = containers w; as_files : w_files w' = w_files w; as_store : w_store w' = w_store w; as_ready : infraCertsReady w' = infraCertsReady w; as_orderly : orderly w' }.
Lemma same_aside w w' : same w w' -> orderly w' -> aside w w'.
Proof. by intros [a ->]. Qed.
Lemma aside_trans w1 w2 w3 : aside w1 w2 -> aside w2 w3 -> aside w1 w3.
Proof. intros [] []. split; congruence || done. Qed.
Lemma orderly_containers w w' : containers w' = containers w -> answers w' = answers w -> orderly w -> orderly w'.
Proof. intros Hc Ha [H1 H2 H3 H4]. split; rewrite ?Hc, ?Ha; done. Qed.

Lemma network_inspect_done b w a name calls id : Whail.NetworkInspect e (view b w a) name = (calls, Ok id) -> calls = [Whail.OnNetwork Whail.OpNetworkInspect name].
Proof. unfold Whail.NetworkInspect, Whail.guarded. destruct (Whail.IsNetworkManaged _ _ _) as [[]|]; intros Hx; simplify_eq. by apply issue_done in Hx as [-> _]. Qed.
Lemma wp_DiscoverNetwork w : orderly w -> wp (DiscoverNetwork e cfg) (fun w' r => same w w' /\ orderly w' /\ forall i, r = Ok i -> exists n, networks w !! ClawkerNetwork cfg = Some n /\ network_info cfg n = Ok i) w.
Proof.
  intros Hw. apply wp_bind, wp_docker; [done|done|]. intros w' calls id Hs Ho Hd. apply network_inspect_done in Hd as ->. cbn [foldl effect]. unfold wp.
  assert (networks w' = networks w) as -> by (by destruct Hs as [a ->]). destruct (networks w !! ClawkerNetwork cfg) as [n|] eqn:En; cbn; [|done]. split; [done|]. split; [done|]. intros i Hi. by exists n.
Qed.
Lemma wp_ensureNetworkAndDiscover w : orderly w -> wp (ensureNetworkAndDiscover e cfg) (fun w' _ => aside w w') w.
Proof.
  intros Hw. apply wp_bind, wp_docker; [done|by intros; apply same_aside|]. intros w1 calls id Hs Ho Hd. pose proof (same_aside _ _ Hs Ho) as Ha1.
  assert (Ha2 : aside w (foldl (effect NoCreation) w1 calls)).
  { unfold Whail.EnsureNetwork in Hd. destruct (String.eqb _ ""); [done|]. destruct (Whail.IsNetworkManaged _ _ _) as [[]|]; [| |done].
    - destruct (Whail.NetworkInspect _ _ _) as [cs [x|x]] eqn:E; [|done]. apply network_inspect_done in E as ->. by simplify_eq/=.
    - destruct (Whail.NetworkCreate _ _ _ _ _) as [cs [x|x]] eqn:E; [|done]. apply issue_done in E as [-> _]. simplify_eq/=. eapply aside_trans; [exact Ha1|]. split; try done. by apply (orderly_containers w1). }
  eapply wp_mono; [|apply wp_DiscoverNetwork, Ha2]. intros w2 r (Hs2 & Ho2 & _). eapply aside_trans; [exact Ha2|by apply same_aside].
Qed.

Lemma wp_ImageInspect ref w : orderly w -> wp (docker (fun d => Whail.ImageInspect e d ref) NoCreation) (fun w' _ => aside w w') w.
Proof.
  intros Hw. apply wp_docker; [done|by intros; apply same_aside|]. intros w1 calls id Hs Ho Hd. unfold Whail.ImageInspect, Whail.guarded in Hd.
  destruct (Whail.isManagedImage _ _ _) as [[]|]; simplify_eq. apply issue_done in Hd as [-> _]. by apply same_aside.
Qed.
Lemma wp_ensureEnvoyImage frames w : orderly w -> wp (ensureEnvoyImage e frames) (fun w' _ => aside w w') w.
Proof.
  intros Hw. unfold wp, ensureEnvoyImage. pose proof (wp_ImageInspect envoyImage w Hw) as Hi. unfold wp in Hi. destruct (docker _ NoCreation w) as [w1 [x|x]]; cbn in Hi |- *; [done|]. destruct (arrive_calm w1 (as_orderly _ _ Hi)) as [Hs Ho].
  pose proof (same_aside _ _ Hs Ho) as Ha. destruct (next_answer w1), (upstream (arrive w1)); try (by eapply aside_trans); (destruct (drainPullStream frames); [|by eapply aside_trans]);
    (eapply aside_trans; [exact Hi|]; eapply aside_trans; [exact Ha|]; split; try done; by apply (orderly_containers (arrive w1))).
Qed.
Lemma wp_ImageBuild b (k : string -> op unit) w :
  (forall x w, exists r, k x w = (w, r)) -> orderly w -> wp (_ <- docker (fun d => Whail.ImageBuild e d ∅) b;; k "") (fun w' _ => aside w w') w.
Proof.
  intros Hk Hw. apply wp_bind, wp_docker; [done|by intros; apply same_aside|]. intros w1 calls id Hs Ho Hd. apply issue_done in Hd as [-> _]. cbn [foldl]. set (w2 := effect b w1 _).
  assert (aside w1 w2) as Ha. { unfold w2. destruct b; cbn; split; try done; by apply (orderly_containers w1). }
  unfold wp. destruct (Hk "" w2) as [r ->]. cbn. eapply aside_trans; [by apply same_aside|done].
Qed.
Lemma wp_ensureCorednsImage frames w : orderly w -> wp (ensureCorednsImage e cfg frames) (fun w' _ => aside w w') w.
Proof.
  intros Hw. unfold wp, ensureCorednsImage. pose proof (wp_ImageInspect corednsImageTag w Hw) as Hi. unfold wp in Hi. destruct (docker _ NoCreation w) as [w1 [x|x]]; cbn in Hi |- *; [done|]. destruct (negb (_ && _)); [done|]. destruct (String.eqb _ ""); [done|].
  destruct (drainPullStream frames).
  - pose proof (wp_ImageBuild (NewImage corednsImageTag (CoreDNSClawkerBinary cfg)) (fun _ => ret tt) w1 ltac:(intros; by eexists) (as_orderly _ _ Hi)) as Hb. by eapply aside_trans.
  - pose proof (wp_ImageBuild NoCreation (fun _ => fail [BuildFailed]) w1 ltac:(intros; by eexists) (as_orderly _ _ Hi)) as Hb. by eapply aside_trans.
Qed.

(** ** Configuration files *)

Lemma heal_ok f s rules s' : heal f s = (Ok rules, s') -> rules = canonical (mem s).
Proof. unfold heal, getRules. intros H. destruct (get_fails f); [done|]. destruct (if negb _ then true else _) in H; [|by simplify_eq]. destruct (writeRules _ _ _) as [[] ?] in H; by simplify_eq. Qed.

(** The files a successful [ensureConfigs] leaves. *)
Definition generated (env : config_env) (rules : list EgressRule) (f : files) : Prop :=
  exists tree, GenerateEnvoyConfig (validateBootstrap env) rules (envoyPorts cfg) (alsConfig cfg (certs_ready env)) = Ok tree /\
    f = mkFiles (Written tree) (Written (GenerateCorefile rules CoreDNSHealthHostPort)).
Record configured (env : config_env) (w w' : world) (r : result StackError unit) : Prop := {
  co_containers : containers w' = containers w;
  co_store : Forall plain_proto (mem (w_store w)) -> canonical (mem (w_store w')) = canonical (mem (w_store w));
  co_orderly : orderly w';
  co_files : r = Ok tt -> generated env (canonical (mem (w_store w))) (w_files w') /\ infraCertsReady w' = certs_ready env;
}.

Lemma wp_ensureConfigs env w : orderly w -> wp (ensureConfigs cfg env) (configured env w) w.
Proof.
  intros Hw. assert (Hfail : forall w' err, containers w' = containers w -> answers w' = answers w -> (Forall plain_proto (mem (w_store w)) -> canonical (mem (w_store w')) = canonical (mem (w_store w))) -> configured env w w' (Err err)).
  { intros w' err Hc Ha Hm. split; try done. by apply (orderly_containers w). }
  assert (Hmem : Forall plain_proto (mem (w_store w)) -> canonical (mem (heal (storage env) (w_store w)).2) = canonical (mem (w_store w))) by (intros Hp; by apply heal_preserves_readers).
  unfold ensureConfigs, guard. apply wp_bind. destruct (dirs_ok env); [|by apply Hfail]. apply wp_ret, wp_bind. destruct (EnsureCA_ok env); [|by apply Hfail]. apply wp_ret, wp_bind.
  unfold wp at 1, heal_rules. destruct (heal (storage env) (w_store w)) as [[rules|x] s'] eqn:Eh; cbn; [|by apply Hfail].
  pose proof (heal_ok _ _ _ _ Eh) as ->.
  apply wp_bind. destruct (RegenerateDomainCerts_ok env); [|by apply Hfail]. apply wp_ret, wp_bind. unfold wp at 1, modify. cbn.
  apply wp_bind. destruct (GenerateEnvoyConfig _ _ _ _) as [tree|x] eqn:Eg; [|by apply Hfail]. apply wp_ret, wp_bind. destruct (EnvoyConfigPath_ok env); [|by apply Hfail]. apply wp_ret, wp_bind.
  unfold wp at 1. cbn. apply wp_bind. destruct (write_envoy env); [|by apply Hfail]. apply wp_ret, wp_bind. destruct (CorefilePath_ok env); [|by apply Hfail]. apply wp_ret, wp_bind.
  unfold wp at 1. cbn. destruct (write_corefile env); [|by apply Hfail]. apply wp_ret. split; cbn; [done|done|by apply (orderly_containers w)|]. intros _. split; [by exists tree|done].
Qed.

(** ** Options that agree with the labels *)

(** A container that carries the labels of this build was created by it, with the
    options that go with them. *)
Definition authentic (name : string) (mk : bool -> NetworkInfo -> containerSpec) (w : world) : Prop :=
  forall c ready, named w name c -> specMatchesContainer (c_labels c) (driftLabels cfg ready) = true -> exists ni, c_spec c = mk ready ni.
Record sound (w : world) : Prop := {
  so_orderly : orderly w;
  so_envoy : authentic envoyContainerName (envoyContainerSpec cfg) w; so_coredns : authentic corednsContainerName (corednsContainerSpec cfg) w;
}.
Definition others (w : world) : list container := List.filter (fun c => negb (existsb (String.eqb (c_name c)) ours)) (containers w).

Lemma drift_unmanaged ready : driftLabels cfg ready !! Whail.managedLabelKey e = None.
Proof.
  destruct Hengine as [_ Hk]. rewrite !not_elem_of_cons in Hk. destruct Hk as (H1 & H2 & H3 & _). unfold driftLabels. by rewrite !lookup_insert_ne, lookup_singleton_ne by done.
Qed.
Lemma drift_ready spec ready ready' : s_labels spec = driftLabels cfg ready -> specMatchesContainer (spec_labels spec) (driftLabels cfg ready') = true -> ready' = ready.
Proof.
  intros Hs Hm. destruct (specMatches_spec (spec_labels spec) (driftLabels cfg ready')) as [H _]. specialize (H Hm labelInfraCertsReady (FormatBool ready') ltac:(apply lookup_insert_eq)).
  rewrite (spec_labels_lookup spec labelInfraCertsReady (FormatBool ready)) in H.
  - by destruct ready, ready'.
  - rewrite Hs. apply lookup_insert_eq.
  - intros Heq. destruct Hengine as [_ Hk]. apply Hk. rewrite <- Heq. by left.
Qed.

Lemma frame_named name other w w' c : frame name w w' -> other <> name -> named w' other c <-> named w other c.
Proof.
  intros [Hr _ _ _ _] Hne. assert (forall w c, c_name c = other -> c ∈ containers w <-> c ∈ rest name w) as Hin.
  { intros w0 x Hx. unfold rest. rewrite !list_elem_of_In, filter_In, Hx. apply String.eqb_neq in Hne. rewrite Hne. naive_solver. }
  unfold named. split; intros (Hc & Hn & Hm); (split; [|done]).
  - apply (Hin w c Hn). rewrite <- Hr. by apply Hin.
  - apply (Hin w' c Hn). rewrite Hr. by apply Hin.
Qed.
Lemma frame_others name w w' : name ∈ ours -> frame name w w' -> others w' = others w.
Proof.
  intros Hn [Hr _ _ _ _]. assert (forall w, others w = List.filter (fun c => negb (existsb (String.eqb (c_name c)) ours)) (rest name w)) as Ho.
  { intros w0. unfold rest. rewrite filter_filter_same; [done|]. intros c _ Hc. apply negb_true_iff in Hc. apply negb_true_iff, String.eqb_neq. intros Hcn.
    assert (existsb (String.eqb (c_name c)) ours = true) as He; [|by rewrite He in Hc]. apply existsb_exists. exists name. split; [by apply list_elem_of_In|by apply String.eqb_eq]. }
  by rewrite !Ho, Hr.
Qed.
Lemma authentic_touches name mk ready ni w w' :
  (forall r n, s_labels (mk r n) = driftLabels cfg r) -> authentic name mk w -> touches name (mk ready ni) w w' -> authentic name mk w'.
Proof.
  intros Hmk Ha Ht c r Hc Hm. destruct (to_from _ _ _ _ Ht c Hc) as [(c0 & Hc0 & Hs & Hl & _)|(Hs & Hl & _)].
  - rewrite Hs. apply (Ha c0 r Hc0). by rewrite <- Hl.
  - rewrite Hl in Hm. rewrite (drift_ready _ _ _ (Hmk ready ni) Hm). by exists ni.
Qed.
Lemma authentic_frame name other mk w w' : frame name w w' -> other <> name -> authentic other mk w -> authentic other mk w'.
Proof. intros Hf Hne Ha c r Hc. apply Ha. by apply (frame_named name other w w'). Qed.
Lemma sound_containers w w' : containers w' = containers w -> orderly w' -> sound w -> sound w'.
Proof. intros Hc Ho [_ He Hd]. split; [done|..]; intros c r (Hin & H); [apply He|apply Hd]; (split; [by rewrite <- Hc|done]). Qed.
Lemma touches_sound w w' ready ni :
  sound w -> touches envoyContainerName (envoyContainerSpec cfg ready ni) w w' \/ touches corednsContainerName (corednsContainerSpec cfg ready ni) w w' -> sound w' /\ others w' = others w.
Proof.
  intros [Ho He Hd] [Ht|Ht]; (split; [|eapply frame_others; [|apply Ht]; first [apply ours_envoy|apply ours_coredns]]); (split; [apply Ht|..]).
  - by eapply authentic_touches.
  - by eapply authentic_frame; [apply Ht|..].
  - by eapply authentic_frame; [apply Ht|..].
  - by eapply authentic_touches.
Qed.

(** ** The stack *)

(** Both containers run with the options of their specification; [P] says more of
    each. *)
Definition both_up (ready : bool) (P : container -> Prop) (w : world) : Prop :=
  exists ce cd, live envoyContainerName (driftLabels cfg ready) w ce /\ live corednsContainerName (driftLabels cfg ready) w cd /\
    (exists ni, c_spec ce = envoyContainerSpec cfg ready ni) /\ (exists ni, c_spec cd = corednsContainerSpec cfg ready ni) /\ P ce /\ P cd.

Lemma up_intro ready (P : container -> Prop) w1 w2 w3 ce cd :
  sound w3 -> frame corednsContainerName w2 w3 ->
  live envoyContainerName (driftLabels cfg ready) w2 ce -> live corednsContainerName (driftLabels cfg ready) w3 cd -> P ce -> P cd -> same w3 w1 -> both_up ready P w1.
Proof.
  intros [_ Ha Hb] Hf (Hn & Hst & Hm) Hd HPe HPd Hs. assert (Hn3 : named w3 envoyContainerName ce) by (by apply (frame_named corednsContainerName envoyContainerName w2 w3)).
  exists ce, cd. split; [apply (live_same _ _ w3); [done|exact (conj Hn3 (conj Hst Hm))]|]. split; [by apply (live_same _ _ w3)|].
  split; [by apply (Ha ce ready)|]. split; [|exact (conj HPe HPd)]. destruct Hd as (Hnd & _ & Hmd). by apply (Hb cd ready).
Qed.

Lemma wp_WaitForHealthy h w : orderly w -> wp (WaitForHealthy e cfg h) (fun w' r => same w w' /\ orderly w' /\ (r = Ok tt -> poll false false (rounds h) = Ok (true, true))) w.
Proof.
  intros Hw. unfold WaitForHealthy. destruct (ctx_err h); [apply wp_fail; split; [by exists (answers w); destruct w|done]|]. apply wp_bind. eapply wp_mono; [|apply (wp_DiscoverNetwork w Hw)].
  intros w' [i|err] (Hs & Ho & _); [|done]. destruct (deadline_passed h); [done|]. destruct (poll false false (rounds h)) as [[[] []]|err]; try done; by destruct (ctx_err_after h).
Qed.

Lemma quiet_sound w w' : containers w' = containers w -> orderly w' -> sound w -> sound w' /\ others w' = others w.
Proof. intros Hc Ho Hw. split; [by apply (sound_containers w)|unfold others; by rewrite Hc]. Qed.
Lemma aside_sound w w' : aside w w' -> sound w -> sound w' /\ others w' = others w.
Proof. intros [Hc _ _ _ Ho]. by apply quiet_sound. Qed.
Lemma same_sound w w' : same w w' -> orderly w' -> sound w -> sound w' /\ others w' = others w.
Proof. intros Hs Ho. by apply aside_sound, same_aside. Qed.

(** Everything of [EnsureRunning] before its containers. *)
Definition prepare (env : config_env) (build pull : list (option string)) : op NetworkInfo :=
  ni <- ensureNetworkAndDiscover e cfg;; _ <- ensureConfigs cfg env;; _ <- ensureCorednsImage e cfg build;; _ <- ensureEnvoyImage e pull;; ret ni.
Lemma EnsureRunning_prepare env build pull h w :
  EnsureRunning e cfg env build pull h w =
  (ni <- prepare env build pull;; ready <- gets infraCertsReady;; _ <- ensureContainer e cfg envoyContainerName (envoyContainerSpec cfg ready ni);;
   _ <- ensureContainer e cfg corednsContainerName (corednsContainerSpec cfg ready ni);; WaitForHealthy e cfg h) w.
Proof.
  unfold EnsureRunning, prepare, bind. destruct (ensureNetworkAndDiscover e cfg w) as [w1 [ni|]]; [|done]. destruct (ensureConfigs cfg env w1) as [w2 [[]|]]; [|done].
  destruct (ensureCorednsImage e cfg build w2) as [w3 [[]|]]; [|done]. by destruct (ensureEnvoyImage e pull w3) as [w4 [[]|]].
Qed.
Record prepared (env : config_env) (w w' : world) : Prop := {
  pr_sound : sound w'; pr_others : others w' = others w; pr_containers : containers w' = containers w;
  pr_files : generated env (canonical (mem (w_store w))) (w_files w'); pr_ready : infraCertsReady w' = certs_ready env;
}.
Lemma wp_prepare env build pull w :
  sound w -> wp (prepare env build pull) (fun w' r => sound w' /\ others w' = others w /\ forall ni, r = Ok ni -> prepared env w w') w.
Proof.
  intros Hw. apply wp_bind. eapply wp_mono; [|apply (wp_ensureNetworkAndDiscover w (so_orderly _ Hw))]. intros w1 r1 Ha1. destruct (aside_sound _ _ Ha1 Hw) as [Hw1 Ho1]. destruct r1 as [ni|err]; [|done].
  apply wp_bind. eapply wp_mono; [|apply (wp_ensureConfigs env w1 (so_orderly _ Hw1))]. intros w2 r2 Hc2. destruct (quiet_sound _ _ (co_containers _ _ _ _ Hc2) (co_orderly _ _ _ _ Hc2) Hw1) as [Hw2 Ho2].
  rewrite Ho1 in Ho2. destruct r2 as [[]|err]; [|done]. destruct (co_files _ _ _ _ Hc2 eq_refl) as [Hgen Hready]. rewrite (as_store _ _ Ha1) in Hgen.
  apply wp_bind. eapply wp_mono; [|apply (wp_ensureCorednsImage build w2 (so_orderly _ Hw2))]. intros w3 r3 Ha3. destruct (aside_sound _ _ Ha3 Hw2) as [Hw3 Ho3]. rewrite Ho2 in Ho3. destruct r3 as [[]|err]; [|done].
  apply wp_bind. eapply wp_mono; [|apply (wp_ensureEnvoyImage pull w3 (so_orderly _ Hw3))]. intros w4 r4 Ha4. destruct (aside_sound _ _ Ha4 Hw3) as [Hw4 Ho4]. rewrite Ho3 in Ho4. destruct r4 as [[]|err]; [|done].
  apply wp_ret. split; [done|]. split; [done|]. intros _ _. split; [done|done|..].
  - by rewrite (as_containers _ _ Ha4), (as_containers _ _ Ha3), (co_containers _ _ _ _ Hc2), (as_containers _ _ Ha1).
  - by rewrite (as_files _ _ Ha4), (as_files _ _ Ha3).
  - by rewrite (as_ready _ _ Ha4), (as_ready _ _ Ha3).
Qed.

Lemma wp_EnsureRunning env build pull h w :
  sound w ->
  wp (EnsureRunning e cfg env build pull h) (fun w' r => sound w' /\ others w' = others w /\
    (r = Ok tt -> generated env (canonical (mem (w_store w))) (w_files w') /\
       both_up (certs_ready env) (fun c => c ∈ containers w \/ c_loaded c = w_files w') w')) w.
Proof.
  intros Hw. unfold wp. rewrite EnsureRunning_prepare. apply wp_bind. eapply wp_mono; [|apply (wp_prepare env build pull w Hw)]. intros w4 r4 (Hw4 & Ho4 & Hp). destruct r4 as [ni|err]; [|done].
  destruct (Hp _ eq_refl) as [_ _ Hc4 Hf4 Hready]. apply wp_bind, wp_gets. rewrite Hready. set (ready := certs_ready env) in *.
  apply wp_bind. eapply wp_mono; [|apply (wp_ensureContainer envoyContainerName (envoyContainerSpec cfg ready ni) w4 (so_orderly _ Hw4) ours_envoy (drift_unmanaged ready))].
  intros w5 r5 [Ht5 Hr5]. destruct (touches_sound w4 w5 ready ni Hw4 (or_introl Ht5)) as [Hw5 Ho5]. rewrite Ho4 in Ho5. destruct r5 as [[]|err]; [|done]. destruct (Hr5 eq_refl) as (ce & Hce & Hle).
  apply wp_bind. eapply wp_mono; [|apply (wp_ensureContainer corednsContainerName (corednsContainerSpec cfg ready ni) w5 (so_orderly _ Hw5) ours_coredns (drift_unmanaged ready))].
  intros w6 r6 [Ht6 Hr6]. destruct (touches_sound w5 w6 ready ni Hw5 (or_intror Ht6)) as [Hw6 Ho6]. rewrite Ho5 in Ho6. destruct r6 as [[]|err]; [|done]. destruct (Hr6 eq_refl) as (cd & Hcd & Hld).
  eapply wp_mono; [|apply (wp_WaitForHealthy h w6 (so_orderly _ Hw6))]. intros w7 r7 (Hs7 & Ho7 & _). destruct (same_sound _ _ Hs7 Ho7 Hw6) as [Hw7 Ho7']. rewrite Ho6 in Ho7'.
  split; [done|]. split; [done|]. intros ->. pose proof (fr_files _ _ _ (to_frame _ _ _ _ Ht5)) as Hf5. pose proof (fr_files _ _ _ (to_frame _ _ _ _ Ht6)) as Hf6.
  assert (w_files w7 = w_files w4) as -> by (destruct Hs7 as [a ->]; cbn; congruence). split; [done|].
  apply (up_intro ready _ w7 w5 w6 ce cd); [done|apply Ht6|exact Hce|exact Hcd| | |done].
  - destruct Hle as [(Hn & _)|Hl]; [left; rewrite <- Hc4; apply Hn|right; congruence].
  - destruct Hld as [(Hn & _)|Hl]; [left|right; congruence].
    rewrite <- Hc4. apply (frame_named envoyContainerName corednsContainerName w4 w5); [apply Ht5|done|exact Hn].
Qed.

(** A container that runs with the labels of its specification is left as it is. *)
Lemma wp_ensure_live name spec w c :
  orderly w -> name ∈ ours -> live name (s_labels spec) w c -> wp (ensureContainer e cfg name spec) (fun w' _ => same w w' /\ orderly w') w.
Proof.
  intros Hw Hn (Hc & Hst & Hm). apply wp_bind, wp_findByName; [done|done|done| |].
  - intros w1 c1 Hs Ho Hc1%(same_named w w1 name c1 Hs). rewrite (named_unique w name c1 c Hw Hc1 Hc), Hm, bool_decide_eq_true_2 by done. by apply wp_ret.
  - intros w1 Hs Ho Hno. destruct (Hno c). by apply (same_named w).
Qed.

(** An Envoy that runs with the current labels is not restarted by a bring-up: the
    files it serves are those of its last start, while the bring-up has written
    those of the stored rules. *)
Theorem bringup_keeps_envoy env build pull h w c
    (Hw : sound w) (Hc : live envoyContainerName (driftLabels cfg (certs_ready env)) w c) :
  let '(w', r) := EnsureRunning e cfg env build pull h w in
  r = Ok tt -> named w' envoyContainerName c /\ generated env (canonical (mem (w_store w))) (w_files w').
Proof.
  assert (H : wp (EnsureRunning e cfg env build pull h) (fun w' r => r = Ok tt -> named w' envoyContainerName c /\ generated env (canonical (mem (w_store w))) (w_files w')) w);
    [|unfold wp in H; by destruct (EnsureRunning _ _ _ _ _ _ _)].
  unfold wp. rewrite EnsureRunning_prepare. apply wp_bind. eapply wp_mono; [|apply (wp_prepare env build pull w Hw)]. intros w4 r4 (Hw4 & _ & Hp). destruct r4 as [ni|err]; [|done].
  destruct (Hp _ eq_refl) as [_ _ Hc4 Hf4 Hready]. apply wp_bind, wp_gets. rewrite Hready. set (ready := certs_ready env) in *.
  assert (Hl4 : live envoyContainerName (driftLabels cfg ready) w4 c) by (unfold live, named in *; by rewrite Hc4).
  apply wp_bind. eapply wp_mono; [|apply (wp_ensure_live envoyContainerName (envoyContainerSpec cfg ready ni) w4 c (so_orderly _ Hw4) ours_envoy Hl4)]. intros w5 r5 [Hs5 Ho5]. destruct r5 as [[]|err]; [|done].
  apply wp_bind. eapply wp_mono; [|apply (wp_ensureContainer corednsContainerName (corednsContainerSpec cfg ready ni) w5 Ho5 ours_coredns (drift_unmanaged ready))]. intros w6 r6 [Ht6 _]. destruct r6 as [[]|err]; [|done].
  eapply wp_mono; [|apply (wp_WaitForHealthy h w6 (to_orderly _ _ _ _ Ht6))]. intros w7 r7 (Hs7 & _ & _) _. split.
  - apply (same_named w6 w7); [done|]. apply (frame_named corednsContainerName envoyContainerName w5 w6); [apply Ht6|done|]. apply (same_named w4 w5); [done|apply Hl4].
  - destruct Hs7 as [a ->]. cbn. rewrite (fr_files _ _ _ (to_frame _ _ _ _ Ht6)). by destruct Hs5 as [b ->].
Qed.

Lemma wp_isRunning name w :
  orderly w -> name ∈ ours -> wp (isRunning e name) (fun w' r => same w w' /\ orderly w' /\ forall b, r = Ok b -> (b = true <-> exists c, named w name c /\ c_state c = StateRunning)) w.
Proof.
  intros Hw Hn. apply wp_bind, wp_findByName; [done|done|..].
  - intros w' Hs Ho. done.
  - intros w' c Hs Ho Hc%(same_named w w' name c Hs). apply wp_ret. split; [done|]. split; [done|]. intros b [= <-]. cbn. rewrite bool_decide_eq_true. split; [by exists c|].
    intros (c' & Hc' & Hst). by rewrite (named_unique w name c c' Hw Hc Hc').
  - intros w' Hs Ho Hno. apply wp_ret. split; [done|]. split; [done|]. intros b [= <-]. split; [done|]. intros (c & Hc & _). destruct (Hno c). by apply (same_named w).
Qed.

Definition not_running (w : world) : Prop := exists name, name ∈ ours /\ forall c, named w name c -> c_state c <> StateRunning.

(** The second half of [Reload]: both containers, then their health. *)
Definition reload_both (ready : bool) (ni : NetworkInfo) (h : health_env) : op unit :=
  try (reloadContainer e cfg envoyContainerName (envoyContainerSpec cfg ready ni)) (fun r1 =>
  try (reloadContainer e cfg corednsContainerName (corednsContainerSpec cfg ready ni)) (fun r2 =>
    match wrapped ErrEnvoyRestart r1 ++ wrapped ErrCoreDNSRestart r2 with [] => wrap ErrStackUnhealthy (WaitForHealthy e cfg h) | l => fail l end)).
Lemma wp_reload_both ready ni h w :
  sound w ->
  wp (reload_both ready ni h) (fun w' r => sound w' /\ others w' = others w /\ w_files w' = w_files w /\ w_store w' = w_store w /\
    (r = Ok tt -> both_up ready (fun c => c_loaded c = w_files w) w')) w.
Proof.
  intros Hw. apply wp_try. eapply wp_mono; [|apply (wp_reloadContainer envoyContainerName (envoyContainerSpec cfg ready ni) w (so_orderly _ Hw) ours_envoy (drift_unmanaged ready))].
  intros w5 r5 [Ht5 Hr5]. destruct (touches_sound w w5 ready ni Hw (or_introl Ht5)) as [Hw5 Hot5]. destruct (to_frame _ _ _ _ Ht5) as [_ Hf5 Hst5 _ _ _].
  apply wp_try. eapply wp_mono; [|apply (wp_reloadContainer corednsContainerName (corednsContainerSpec cfg ready ni) w5 (so_orderly _ Hw5) ours_coredns (drift_unmanaged ready))].
  intros w6 r6 [Ht6 Hr6]. destruct (touches_sound w5 w6 ready ni Hw5 (or_intror Ht6)) as [Hw6 Hot6]. rewrite Hot5 in Hot6. destruct (to_frame _ _ _ _ Ht6) as [_ Hf6 Hst6 _ _ _]. rewrite Hf5 in Hf6. rewrite Hst5 in Hst6.
  destruct r5 as [[]|err5], r6 as [[]|err6]; cbn [wrapped app]; [|apply wp_fail; split; [exact Hw6|split; [exact Hot6|split; [exact Hf6|split; [exact Hst6|discriminate]]]]..].
  destruct (Hr5 eq_refl) as (ce & Hce & Hle), (Hr6 eq_refl) as (cd & Hcd & Hld). apply wp_wrap.
  eapply wp_mono; [|apply (wp_WaitForHealthy h w6 (so_orderly _ Hw6))]. intros w7 r7 (Hs7 & Ho7 & _). destruct (same_sound _ _ Hs7 Ho7 Hw6) as [Hw7 Hot7]. rewrite Hot6 in Hot7.
  split; [done|]. split; [done|]. split; [by destruct Hs7 as [a ->]|]. split; [by destruct Hs7 as [a ->]|]. intros _.
  apply (up_intro ready _ w7 w5 w6 ce cd); [done|apply Ht6|exact Hce|exact Hcd|congruence|congruence|done].
Qed.

(** Both probes of [Reload], or of [Status]. *)
Lemma wp_probes {A} (k : bool -> bool -> op A) s1 s2 (Q : world -> result StackError A -> Prop) w :
  sound w -> (forall w' err, same w w' -> orderly w' -> Q w' (Err err)) ->
  (forall w' eb db, same w w' -> orderly w' -> (eb && db = false -> not_running w) -> wp (k eb db) Q w') ->
  wp (eb <- wrap s1 (isRunning e envoyContainerName);; db <- wrap s2 (isRunning e corednsContainerName);; k eb db) Q w.
Proof.
  intros Hw Herr Hk. apply wp_bind, wp_wrap. eapply wp_mono; [|apply (wp_isRunning _ w (so_orderly _ Hw) ours_envoy)]. intros w2 r2 (Hs2 & Ho2 & Hr2).
  destruct r2 as [eb|err]; [|by apply Herr]. specialize (Hr2 _ eq_refl).
  apply wp_bind, wp_wrap. eapply wp_mono; [|apply (wp_isRunning _ w2 Ho2 ours_coredns)]. intros w3 r3 (Hs3 & Ho3 & Hr3). pose proof (same_trans _ _ _ Hs2 Hs3) as Hs13.
  destruct r3 as [db|err]; [|by apply Herr]. specialize (Hr3 _ eq_refl). apply Hk; [done|done|]. intros Hb. destruct eb.
  - exists corednsContainerName. split; [apply ours_coredns|]. intros c Hc Hst. cbn in Hb. assert (db = true); [|congruence]. apply Hr3. exists c. split; [by apply (same_named w w2)|done].
  - exists envoyContainerName. split; [apply ours_envoy|]. intros c Hc Hst. assert (false = true); [|done]. apply Hr2. by exists c.
Qed.

Lemma wp_Reload env h w :
  sound w ->
  wp (Reload e cfg env h) (fun w' r => sound w' /\ others w' = others w /\
    (r = Ok tt -> generated env (canonical (mem (w_store w))) (w_files w') /\ (Forall plain_proto (mem (w_store w)) -> canonical (mem (w_store w')) = canonical (mem (w_store w))) /\
       (both_up (certs_ready env) (fun c => c_loaded c = w_files w') w' \/ containers w' = containers w /\ not_running w))) w.
Proof.
  intros Hw. apply wp_bind, wp_wrap. eapply wp_mono; [|apply (wp_ensureConfigs env w (so_orderly _ Hw))]. intros w1 r1 Hc1. destruct (quiet_sound _ _ (co_containers _ _ _ _ Hc1) (co_orderly _ _ _ _ Hc1) Hw) as [Hw1 Ho1].
  destruct r1 as [[]|err]; [|done]. destruct (co_files _ _ _ _ Hc1 eq_refl) as [Hgen Hready]. pose proof (co_store _ _ _ _ Hc1) as Hst1. pose proof (co_containers _ _ _ _ Hc1) as Hcs1.
  apply wp_probes; [done|intros w' err Hs Ho; destruct (same_sound _ _ Hs Ho Hw1) as [H1 H2]; rewrite Ho1 in H2; done|]. intros w3 eb db Hs3 Ho3 Hnot.
  destruct (same_sound _ _ Hs3 Ho3 Hw1) as [Hw3 Hot3]. rewrite Ho1 in Hot3.
  destruct (negb eb || negb db) eqn:Eb.
  { apply wp_ret. split; [done|]. split; [done|]. intros _. destruct Hs3 as [a ->]. split; [done|]. split; [done|]. right. split; [done|].
    destruct Hnot as (name & Hn & H); [by destruct eb, db|]. exists name. split; [done|]. intros c Hc. apply H. unfold named. by rewrite Hcs1. }
  apply wp_bind, wp_wrap. eapply wp_mono; [|apply (wp_DiscoverNetwork w3 (so_orderly _ Hw3))]. intros w4 r4 (Hs4 & Ho4 & _). destruct (same_sound _ _ Hs4 Ho4 Hw3) as [Hw4 Hot4]. rewrite Hot3 in Hot4. destruct r4 as [ni|err]; [|done].
  pose proof (same_trans _ _ _ Hs3 Hs4) as Hs14. apply wp_bind, wp_gets. assert (infraCertsReady w4 = certs_ready env) as -> by (by destruct Hs14 as [a ->]).
  eapply wp_mono; [|apply (wp_reload_both (certs_ready env) ni h w4 Hw4)]. intros w7 r7 (Hw7 & Hot7 & Hf7 & Hst7 & Hup). rewrite Hot4 in Hot7.
  split; [done|]. split; [done|]. intros Hr. specialize (Hup Hr). rewrite <- Hf7 in Hup. rewrite Hf7 at 1. rewrite Hst7.
  assert (w_files w4 = w_files w1 /\ w_store w4 = w_store w1) as [-> ->] by (by destruct Hs14 as [a ->]). split; [done|]. split; [done|]. by left.
Qed.

(** C21: A bring-up.  Let Docker be orderly (unique names and IDs, nobody else acting on
    it meanwhile, and no managed container whose name contains one of the stack's two
    names without being it), let a container with the labels of this build have the
    options that go with them, and the engine's managed label be none of the stack's
    own.  Whatever the calls answer, all of this still holds afterwards, and among
    Docker's containers only the stack's two have changed (files, images, networks and
    the rule store are written too).  When it reports no error, the files are those
    generated from the canonical stored rules, and both containers run with the
    options of the current specification, each either kept from before, with what it
    had loaded then, or started since and loaded with those files. *)
Theorem stack_brought_up env build pull h w (Hw : sound w) :
  let '(w', r) := EnsureRunning e cfg env build pull h w in
  sound w' /\ others w' = others w /\
  (r = Ok tt -> generated env (canonical (mem (w_store w))) (w_files w') /\ both_up (certs_ready env) (fun c => c ∈ containers w \/ c_loaded c = w_files w') w').
Proof. pose proof (wp_EnsureRunning env build pull h w Hw) as H. unfold wp in H. by destruct (EnsureRunning _ _ _ _ _ _ _). Qed.

(** [Stop] removes both containers or reports why not, and nothing else. *)
Theorem stack_stopped w (Hw : sound w) :
  let '(w', r) := Stop e w in sound w' /\ others w' = others w /\ (r = Ok tt -> forall name c, name ∈ ours -> ~ named w' name c).
Proof.
  pose (ni := mkNetInfo "" (GoNet.Addr4 []) None "" "" "").
  assert (H : wp (Stop e) (fun w' r => sound w' /\ others w' = others w /\ (r = Ok tt -> forall name c, name ∈ ours -> ~ named w' name c)) w).
  { apply wp_try. eapply wp_mono; [|apply (wp_stopAndRemove _ (envoyContainerSpec cfg true ni) w (so_orderly _ Hw) ours_envoy)]. intros w1 r1 [Ht1 Hr1]. destruct (touches_sound w w1 true ni Hw (or_introl Ht1)) as [Hw1 Ho1].
    apply wp_try. eapply wp_mono; [|apply (wp_stopAndRemove _ (corednsContainerSpec cfg true ni) w1 (so_orderly _ Hw1) ours_coredns)]. intros w2 r2 [Ht2 Hr2]. destruct (touches_sound w1 w2 true ni Hw1 (or_intror Ht2)) as [Hw2 Ho2].
    rewrite Ho1 in Ho2. destruct r1 as [[]|err1], r2 as [[]|err2]; [|apply wp_fail; split; [exact Hw2|split; [exact Ho2|discriminate]]..].
    apply wp_ret. split; [done|]. split; [done|]. intros _ name c. unfold ours. rewrite !elem_of_cons, elem_of_nil. intros [->|[->|[]]]; [|by apply Hr2].
    intros Hc. apply (Hr1 eq_refl c). by apply (frame_named corednsContainerName envoyContainerName w1 w2); [apply Ht2|..]. }
  unfold wp in H. by destruct (Stop e w).
Qed.

Lemma no_containers_sound w : containers w = [] -> answers w = [] -> sound w.
Proof.
  intros Hc Ha. split; [split|..]; rewrite ?Hc, ?Ha; [apply NoDup_nil_2|apply NoDup_nil_2| |apply Forall_nil_2| |].
  - intros c name Hin. destruct (not_elem_of_nil _ Hin).
  - intros c r [Hin _]. rewrite Hc in Hin. destruct (not_elem_of_nil _ Hin).
  - intros c r [Hin _]. rewrite Hc in Hin. destruct (not_elem_of_nil _ Hin).
Qed.

(** ** Health and addresses *)

Lemma poll_spec eR dR rs b1 b2 :
  poll eR dR rs = Ok (b1, b2) ->
  (b1 = eR || existsb (fun r => probeHealth (envoy_answer r)) rs \/ b1 && b2 = true) /\ (b2 = dR || existsb (fun r => probeHealth (coredns_answer r)) rs \/ b1 && b2 = true) /\
  (b1 = true -> eR || existsb (fun r => probeHealth (envoy_answer r)) rs = true) /\ (b2 = true -> dR || existsb (fun r => probeHealth (coredns_answer r)) rs = true).
Proof.
  revert eR dR. induction rs as [|r rs IH]; intros eR dR; cbn [poll existsb]; [intros [= <- <-]; rewrite !orb_false_r; tauto|]. rewrite !orb_assoc. destruct (ctx_ended r); [done|].
  destruct ((eR || probeHealth (envoy_answer r)) && (dR || probeHealth (coredns_answer r))) eqn:Eb; [|destruct (ctx_ends_waiting r); [done|apply IH]]. apply andb_true_iff in Eb as [E1 E2]. rewrite E1, E2. intros [= <- <-]. cbn. tauto.
Qed.
Lemma DiscoverNetwork_err w l : (DiscoverNetwork e cfg w).2 = Err l -> l = [DockerFailed] \/ l = [NetworkUnusable].
Proof.
  unfold DiscoverNetwork, bind, docker. destruct (engine _ _ w) as [w1 [id|err]]; cbn; [|intros [= <-]; by left]. destruct (networks w1 !! _) as [n|]; cbn; [|intros [= <-]; by left].
  unfold network_info. destruct (n_IPAM n) as [|i l0]; [intros [= <-]; by right|]. destruct (Gateway i) as [[o|o z]|]; cbn; [|intros [= <-]; by right..].
  destruct (Subnet i) as [p|]; cbn; [|done]. destruct (GoNet.Contains p _); cbn; [|intros [= <-]; by right]. destruct (GoNet.Contains p _); cbn; [done|intros [= <-]; by right].
Qed.
(** The addresses of the two containers are the gateway's with their last octet, they
    print to text that is read back, and they are in the subnet. *)
Theorem addresses_in_subnet n i a b c d
    (Hn : network_info cfg n = Ok i) (Hg : ni_Gateway i = GoNet.Addr4 [a; b; c; d])
    (Hrange : Forall (fun x => 0 <= x < 256) [a; b; c; d; EnvoyIPLastOctet cfg; CoreDNSIPLastOctet cfg]) :
  GoNet.ParseIP (EnvoyIP i) = Some (GoNet.Addr4 [a; b; c; EnvoyIPLastOctet cfg]) /\ GoNet.ParseIP (CoreDNSIP i) = Some (GoNet.Addr4 [a; b; c; CoreDNSIPLastOctet cfg]) /\
  forall p, ni_Subnet i = Some p -> GoNet.Contains p (GoNet.Addr4 [a; b; c; EnvoyIPLastOctet cfg]) = true /\ GoNet.Contains p (GoNet.Addr4 [a; b; c; CoreDNSIPLastOctet cfg]) = true.
Proof.
  rewrite !Forall_cons in Hrange. destruct Hrange as (Ha & Hb & Hc & Hd & He & Hf & _). revert Hn. unfold network_info. destruct (n_IPAM n) as [|ip l]; [done|]. destruct (Gateway ip) as [[o|o z]|]; cbn; [|done..].
  unfold validateInSubnet. destruct (Subnet ip) as [p|]; [destruct (GoNet.Contains p _) eqn:E1; [|done]; cbn; destruct (GoNet.Contains p _) eqn:E2 in |- *; [|done]|]; cbn; intros [= <-]; cbn in Hg; injection Hg as ->;
    (split; [by apply IPText.parse_dotted|]; split; [by apply IPText.parse_dotted|]); [|done]. cbn. intros q [= <-]. by split.
Qed.
(** A health wait succeeds only if both endpoints answered 200 in some round, and a
    timeout names exactly the ones that never did. *)
Theorem health_reported h w :
  let envoy := existsb (fun r => probeHealth (envoy_answer r)) (rounds h) in let coredns := existsb (fun r => probeHealth (coredns_answer r)) (rounds h) in
  match (WaitForHealthy e cfg h w).2 with
  | Ok _ => envoy = true /\ coredns = true
  | Err l => (ErrEnvoyUnhealthy ∈ l -> envoy = false) /\ (ErrCoreDNSUnhealthy ∈ l -> coredns = false)
  end.
Proof.
  cbv zeta. assert (H : forall l : list cause, (forall x, x ∈ l -> x <> ErrEnvoyUnhealthy /\ x <> ErrCoreDNSUnhealthy) -> forall a b : Prop, (ErrEnvoyUnhealthy ∈ l -> a) /\ (ErrCoreDNSUnhealthy ∈ l -> b)).
  { intros l Hl a b. split; intros Hin; by destruct (Hl _ Hin). }
  assert (Hone : forall x, x <> ErrEnvoyUnhealthy -> x <> ErrCoreDNSUnhealthy -> forall a b : Prop, (ErrEnvoyUnhealthy ∈ [x] -> a) /\ (ErrCoreDNSUnhealthy ∈ [x] -> b)).
  { intros x H1 H2. apply H. intros y Hy. apply list_elem_of_singleton in Hy as ->. by split. }
  assert (Hp : forall rs eR dR err, poll eR dR rs = Err err -> err = [CtxDone]).
  { induction rs as [|r rs IH]; intros eR dR err; cbn; [done|]. destruct (ctx_ended r); [by intros [= <-]|]. destruct (_ && _); [done|]. destruct (ctx_ends_waiting r); [by intros [= <-]|apply IH]. }
  unfold WaitForHealthy. destruct (ctx_err h); [by apply Hone|]. unfold bind. pose proof (DiscoverNetwork_err w) as Hd. destruct (DiscoverNetwork e cfg w) as [w1 [i|err]]; [|destruct (Hd _ eq_refl) as [->| ->]; by apply Hone].
  destruct (deadline_passed h); [by apply Hone|]. destruct (poll false false (rounds h)) as [[b1 b2]|err] eqn:Epoll; [|cbn; rewrite (Hp _ _ _ _ Epoll); by apply Hone].
  destruct (poll_spec _ _ _ _ _ Epoll) as (H1 & H2 & H3 & H4). cbn in H1, H2, H3, H4. destruct b1, b2; cbn; [split; auto|..]; (destruct (ctx_err_after h); cbn; [by apply Hone|]).
  all: cbn in H1, H2; rewrite ?elem_of_cons, ?elem_of_nil; intuition congruence.
Qed.

(** ** Images *)

(** The CoreDNS image is built once: while Docker has a managed image of its tag, a
    bring-up keeps that image, whichever binary this build embeds. *)
Theorem coredns_image_kept frames w i
    (Ha : answers w = []) (Hi : images w !! corednsImageTag = Some i) (Hm : Whail.isManagedLabelPresent e (i_labels i) = true) :
  ensureCorednsImage e cfg frames w = (w, Ok tt).
Proof.
  assert (Hw : arrive w = w) by (destruct w; cbn in Ha |- *; by subst). unfold ensureCorednsImage, docker, engine. rewrite Hw. unfold next_answer. rewrite Ha.
  unfold Whail.ImageInspect, Whail.isManagedImage. cbn. rewrite Hi, Hm. done.
Qed.

(** The image of Envoy is pulled at every bring-up: the engine does not see it, since
    it does not carry the managed label, so without the registry a bring-up fails
    even when Docker has the image. *)
Theorem envoy_image_pulled frames w i
    (Ha : answers w = [Fine; Refused]) (Hi : images w !! envoyImage = Some i) (Hm : Whail.isManagedLabelPresent e (i_labels i) = false) :
  (ensureEnvoyImage e frames w).2 = Err [PullFailed].
Proof.
  unfold ensureEnvoyImage, docker, engine, arrive, next_answer. rewrite Ha. unfold Whail.ImageInspect, Whail.isManagedImage. cbn. rewrite Hi, Hm. done.
Qed.

End Spec.

(** ** Instances *)

Definition demo_engine : Whail.Engine := Whail.NewFromExisting (Whail.mkEngineOptions "dev.clawker" "managed" (Whail.mkLabelConfig ∅ ∅ ∅ ∅ ∅)).
Lemma demo_engine_ok : engine_ok demo_engine.
Proof. split; [by vm_compute|]. rewrite !not_elem_of_cons. split_and!; [done..|apply not_elem_of_nil]. Qed.
Definition demo_cfg : Config :=
  mkConfig "clawker-net" 2 3 10000 10001 11001 9902 18901 4319 "dev.clawker.purpose" "firewall" "sha-of-this-build" "coredns binary"
    "/data/firewall/envoy.yaml" "/data/firewall/certs" "/data/firewall/otel" "/data/firewall/Corefile".
Definition demo_pool : list ipam := [mkIPAM (Some (GoNet.Addr4 [172; 30; 0; 1])) (Some {| GoNet.pfx_addr := GoNet.Addr4 [172; 30; 0; 0]; GoNet.pfx_bits := 16 |})].
Definition tcp_rule (dst : string) : EgressRule := mkRule dst "tcp" "5432" "allow" [] "" false.
(** Docker before the first bring-up, with the stored rules [rules]. *)
Definition empty_world (rules : list EgressRule) : world :=
  mkWorld (mkStore rules rules) false (mkFiles Absent Absent) [] ∅ ∅ demo_pool (Some (mkImage ∅ "envoy")) [].
Definition calm_env : config_env := mkConfigEnv true true no_faults true (Some (fun _ => true)) true WriteOk true WriteOk (fun _ => true).
Definition healthy : health_env := mkHealthEnv false false [mkRound false (Some 200) (Some 200) false] false.
Definition bring_up (w : world) : world * result StackError unit := EnsureRunning demo_engine demo_cfg calm_env [] [] healthy w.

Lemma empty_world_sound rules : sound demo_engine demo_cfg (empty_world rules).
Proof. apply no_containers_sound; reflexivity. Qed.

Lemma stack_brought_up_witness :
  (bring_up (empty_world [tcp_rule "old.example.com"])).2 = Ok tt /\
  both_up demo_engine demo_cfg true (fun c => c ∈ [] \/ c_loaded c = w_files (bring_up (empty_world [tcp_rule "old.example.com"])).1) (bring_up (empty_world [tcp_rule "old.example.com"])).1.
Proof.
  pose proof (stack_brought_up demo_engine demo_cfg demo_engine_ok calm_env [] [] healthy (empty_world [tcp_rule "old.example.com"]) (empty_world_sound _)) as H.
  fold (bring_up (empty_world [tcp_rule "old.example.com"])) in H. destruct (bring_up _) as [w' r] eqn:E.
  assert (r = Ok tt) as -> by (apply (f_equal snd) in E; vm_compute in E; symmetry; exact E). split; [reflexivity|]. destruct H as (_ & _ & H). exact (proj2 (H eq_refl)).
Defined.

(** A container of an agent whose project is called clawker-envoy-tools. *)
Definition agent_container : container :=
  mkContainer "a1" "clawker.clawker-envoy-tools.dev" {["dev.clawker.managed" := "true"]} StateRunning
    (mkSpec "agent" "" "" [] [] [] [] [] ∅) (mkImage ∅ "agent") (mkFiles Absent Absent).
(** Docker's name filter matches part of a name: stopping the stack stops and removes
    such an agent. *)
Theorem shadowing_agent_removed : Stop demo_engine (with_containers (empty_world []) [agent_container]) = (empty_world [], Ok tt).
Proof. vm_compute. reflexivity. Qed.

End StackSpec.
