(* ===== verification/Lockstep.v ===== *)
(** * The handler and the stack together

    The reconcile and the bring-up closures of handler.go with the stack of stack.go
    in place of its answers: rules, Envoy's listeners, CoreDNS's zones and the
    kernel's routes move in step through a reload, and do not through a bring-up
    that finds Envoy running. *)

From S2P Require Import Prelude GoStrings GoPath GoNet EgressRule Wire Conflicts Canonical RuleStore Mappings CoreDNS Routes EnvoyTree EnvoyLayers Whail EbpfApi Ebpf Handler Stack StackSpec.
Import Go Rule Wire Conflicts Canonical RuleStore Mappings CoreDNS Routes EnvoyTree EnvoyLayers EbpfApi Stack StackSpec.

Module Lockstep.

Section System.
Context {M : Type} `{EBPFManagerLaws M}.
Variable e : Whail.Engine.
Variable cfg : Config.

(** What is left of a stack error in the chain the handler sees. *)
Definition sentinels_of (err : StackError) : error := omap (fun c => match c with Sentinel s => Some s | _ => None end) err.
(** The answers of the stack, in an environment of the handler. *)
Definition with_stack (env : Handler.Env) (ensured : option error) (status : option bool) (reloaded : option error) : Handler.Env :=
  Handler.mkEnv (Handler.resolve env) (Handler.cgroupIDFn env) ensured reloaded status (Handler.stack_Stop_fails env) (Handler.stack_NetworkInfo env)
    (Handler.host_proxy_enabled env) (Handler.host_proxy_port env) (Handler.lookup_host env) (Handler.ports env) (Handler.remove_configs_fails env) (Handler.listAgents env)
    (Handler.kernel env) (Handler.clock env) (Handler.storage env) (Handler.queue_closed env).
Definition failure (r : result StackError unit) : option error := match r with Ok _ => None | Err err => Some (sentinels_of err) end.

(** [reconcileStackClosure] on the stack: the handler and the stack share the store. *)
Definition reconcile (env : Handler.Env) (cenv : config_env) (hl : health_env) (h : Handler.Handler (M := M)) (w : world) : Handler.Handler (M := M) * world * result error bool :=
  match StackStatus e cfg w with
  | (w, Err _) => let '(h, r) := Handler.reconcileStackClosure (with_stack env None None None) h in (h, w, r)
  | (w, Ok st) =>
      if Running st then
        let '(w, reloaded) := Reload e cfg cenv hl w in
        let '(h, r) := Handler.reconcileStackClosure (with_stack env None (Some true) (failure reloaded)) (Handler.with_store h (w_store w)) in (h, w, r)
      else let '(h, r) := Handler.reconcileStackClosure (with_stack env None (Some false) None) h in (h, w, r)
  end.
(** The closure of [FirewallInit] on the stack. *)
Definition bringup (env : Handler.Env) (cenv : config_env) (build pull : list (option string)) (hl : health_env) (h : Handler.Handler (M := M)) (w : world)
    : Handler.Handler (M := M) * world * result error unit :=
  match EnsureRunning e cfg cenv build pull hl w with
  | (w, Err err) => let '(h, r) := Handler.init_closure (with_stack env (Some (sentinels_of err)) None None) h in (h, w, r)
  | (w, Ok _) =>
      let '(w, st) := StackStatus e cfg w in
      let '(h, r) := Handler.init_closure (with_stack env None (match st with Ok st => Some (Running st) | Err _ => None end) None) (Handler.with_store h (w_store w)) in (h, w, r)
  end.

Hypothesis Hengine : engine_ok e.

Lemma wp_StackStatus w :
  sound e cfg w -> wp (StackStatus e cfg) (fun w' r => same w w' /\ sound e cfg w' /\ forall st, r = Ok st -> Running st = true -> ~ not_running e w) w.
Proof.
  intros Hw. pose proof (so_orderly _ _ _ Hw) as Ho. apply wp_bind, wp_gets, wp_bind. eapply wp_mono; [|apply (wp_isRunning e Hengine envoyContainerName w Ho ours_envoy)].
  intros w1 r1 (Hs1 & Ho1 & Hr1). destruct (same_sound e cfg _ _ Hs1 Ho1 Hw) as [Hw1 _]. destruct r1 as [eb|]; [|done]. specialize (Hr1 _ eq_refl).
  apply wp_bind. eapply wp_mono; [|apply (wp_isRunning e Hengine corednsContainerName w1 Ho1 ours_coredns)].
  intros w2 r2 (Hs2 & Ho2 & Hr2). pose proof (same_trans _ _ _ Hs1 Hs2) as Hs02. destruct (same_sound e cfg _ _ Hs02 Ho2 Hw) as [Hw2 _]. destruct r2 as [db|]; [|done]. specialize (Hr2 _ eq_refl).
  apply wp_try. eapply wp_mono; [|apply (wp_DiscoverNetwork e cfg w2 Ho2)]. intros w3 r3 (Hs3 & Ho3 & _). pose proof (same_trans _ _ _ Hs02 Hs3) as Hs03. destruct (same_sound e cfg _ _ Hs03 Ho3 Hw) as [Hw3 _].
  apply wp_ret. split; [done|]. split; [done|]. intros st [= <-] Hrun (name & Hn & Hnot). cbn in Hrun. apply andb_true_iff in Hrun as [-> ->].
  destruct Hr1 as [Hr1 _], Hr2 as [Hr2 _]. destruct (Hr1 eq_refl) as (c1 & Hc1 & Hst1), (Hr2 eq_refl) as (c2 & Hc2%(same_named e w w1) & Hst2); [|done].
  unfold ours in Hn. rewrite !elem_of_cons, elem_of_nil in Hn. destruct Hn as [->|[->|[]]]; [by apply (Hnot c1)|by apply (Hnot c2)].
Qed.

(** C14: Rules, proxy, resolver and kernel in lockstep.  Let Docker be orderly (unique
    names and IDs, nobody else acting on it meanwhile, and no managed container whose
    name contains one of the stack's two names without being it, since Docker's name
    filter would take it for one), let a container with the labels of this build have
    the options that go with them, the engine's managed label be none of the stack's
    own, the stored protocols be free of colons, and the handler and the stack use the
    same ports.  Then when a reconcile reports a restart, Envoy and CoreDNS run, each
    since a start that read the very files generated from the canonical stored rules,
    with the certificate mounts those files refer to, and the kernel's routes are the
    projection of the same rules; no other container has changed. *)
Theorem reconcile_lockstep env cenv hl h w h' w'
    (Hw : sound e cfg w) (Hplain : Forall plain_proto (mem (w_store w))) (Hports : Handler.ports env = envoyPorts cfg)
    (Hrec : reconcile env cenv hl h w = (h', w', Ok true)) :
  let rules := canonical (mem (w_store w)) in
  (exists tree, GenerateEnvoyConfig (validateBootstrap cenv) rules (envoyPorts cfg) (alsConfig cfg (certs_ready cenv)) = Ok tree /\
     both_up e cfg (certs_ready cenv) (fun c => c_loaded c = mkFiles (Written tree) (Written (GenerateCorefile rules CoreDNSHealthHostPort))) w') /\
  (forall k, route_at (Handler.ebpf h') k = route_port (RoutesFromRules rules (envoyPorts cfg)) k) /\
  others w' = others w.
Proof.
  cbv zeta. pose proof (wp_StackStatus w Hw) as Hst. unfold wp in Hst. revert Hrec. unfold reconcile. destruct (StackStatus e cfg w) as [w1 [st|err]]; [|done].
  cbn in Hst. destruct Hst as (Hs1 & Hw1 & Hrun). destruct (Running st) eqn:Er; [|done].
  pose proof (wp_Reload e cfg Hengine cenv hl w1 Hw1) as Hrl. unfold wp in Hrl. destruct (Reload e cfg cenv hl w1) as [w2 rr]. cbn in Hrl. destruct Hrl as (Hw2 & Ho2 & Hok).
  destruct (Handler.reconcileStackClosure _ _) as [h2 r2] eqn:Ec. intros [= <- <- ->]. pose proof (Handler.reconcile_spec _ _ _ _ Ec) as [Hstore Hforce].
  assert (rr = Ok tt) as ->. { revert Ec. unfold Handler.reconcileStackClosure. cbn. destruct (Handler.sync_routes _ _) as [h3 synced]. destruct rr as [[]|err]; [done|]. by destruct synced. }
  assert (Hsame1 : w_store w1 = w_store w /\ others w1 = others w /\ (not_running e w1 -> not_running e w)).
  { destruct Hs1 as [a ->]. done. } destruct Hsame1 as (Hst1 & Hot1 & Hnr1).
  destruct (Hok eq_refl) as ((tree & Hgen & Hfiles) & Hcan & Hup). rewrite Hst1 in Hgen, Hfiles, Hcan. split; [|split].
  - exists tree. split; [done|]. destruct Hup as [Hup|[_ Hno]]; [by rewrite Hfiles in Hup|]. destruct (Hrun st eq_refl Er (Hnr1 Hno)).
  - intros k. rewrite (Hforce k), Hstore. cbn. by rewrite Hports, (Hcan Hplain).
  - by rewrite Ho2.
Qed.

(** A bring-up that succeeds although Envoy runs leaves that very container, with the
    files it read at its last start; the files written are those of the rules now
    stored. *)
Theorem bringup_leaves_envoy env cenv build pull hl h w c h' w'
    (Hw : sound e cfg w) (Hc : live e envoyContainerName (driftLabels cfg (certs_ready cenv)) w c) (Hb : bringup env cenv build pull hl h w = (h', w', Ok tt)) :
  named e w' envoyContainerName c /\ generated cfg cenv (canonical (mem (w_store w))) (w_files w').
Proof.
  pose proof (wp_EnsureRunning e cfg Hengine cenv build pull hl w Hw) as Hup. unfold wp in Hup. pose proof (bringup_keeps_envoy e cfg Hengine cenv build pull hl w c Hw Hc) as Hk. revert Hb. unfold bringup.
  destruct (EnsureRunning _ _ _ _ _ _ _) as [w1 [[]|err]]; [|unfold Handler.init_closure; cbn; by intros [= _ _ [=]]]. destruct Hup as [Hw1 _]. destruct (Hk eq_refl) as [Hn Hg].
  pose proof (wp_StackStatus w1 Hw1) as Hst. unfold wp in Hst. destruct (StackStatus e cfg w1) as [w2 st]. destruct Hst as (Hs & _ & _). cbn in Hs.
  destruct (Handler.init_closure _ _) as [h2 r2]. intros [= <- <- ->]. destruct Hs as [a ->]. done.
Qed.

End System.

(** ** Instances *)

Definition sys_env : Handler.Env :=
  Handler.mkEnv (fun _ => Handler.ResolveFailed) (fun _ => None) None None None false None false 0 None (envoyPorts demo_cfg) false (Some []) no_kfaults 1000 no_faults false.
Definition sys_handler : Handler.Handler (M := Ebpf.Manager) := Handler.mkHandler Ebpf.empty_manager (mkStore [] []) ∅ ∅ 0 ∅ [].
(** The stack brought up with one rule. *)
Definition up_world : world := (bring_up (empty_world [tcp_rule "old.example.com"])).1.
Lemma up_world_sound : sound demo_engine demo_cfg up_world.
Proof.
  pose proof (wp_EnsureRunning demo_engine demo_cfg demo_engine_ok calm_env [] [] healthy _ (empty_world_sound [tcp_rule "old.example.com"])) as [H _]. exact H.
Qed.

Lemma reconcile_lockstep_witness :
  exists h' w', reconcile demo_engine demo_cfg sys_env calm_env healthy sys_handler up_world = (h', w', Ok true) /\
    route_at (Handler.ebpf h') (DomainHash "old.example.com", 5432, L4ProtoTCP) = Some 10001 /\ others w' = others up_world.
Proof.
  destruct (reconcile demo_engine demo_cfg sys_env calm_env healthy sys_handler up_world) as [[h' w'] r] eqn:E.
  assert (r = Ok true) as -> by (apply (f_equal snd) in E; vm_compute in E; symmetry; exact E). exists h', w'. split; [done|].
  destruct (reconcile_lockstep demo_engine demo_cfg demo_engine_ok sys_env calm_env healthy sys_handler up_world h' w' up_world_sound) as (_ & Hr & Ho).
  - apply Forall_cons. split; [reflexivity|apply Forall_nil_2].
  - reflexivity.
  - exact E.
  - split; [rewrite Hr; vm_compute; reflexivity|exact Ho].
Defined.

(** CoreDNS exits, a rule is added in front of the one Envoy was started with, and the
    stack is brought up again: the kernel sends the new host's connections to the
    listener that the running Envoy still has for the old host. *)
Definition stale_world : world :=
  with_store (with_containers up_world ((fun c => if String.eqb (c_name c) corednsContainerName then set_state c StateExited else c) <$> containers up_world))
    (let l := [tcp_rule "new.example.com"; tcp_rule "old.example.com"] in mkStore l l).
Definition stale_run := bringup demo_engine demo_cfg sys_env calm_env [] [] healthy sys_handler stale_world.
Definition envoy_loaded (w : world) : option files := c_loaded <$> find (fun c => String.eqb (c_name c) envoyContainerName) (containers w).
Theorem stale_envoy_misroutes :
  stale_run.2 = Ok tt /\ envoy_loaded stale_run.1.2 = envoy_loaded up_world /\
  TCPMappings (canonical (mem (w_store up_world))) (envoyPorts demo_cfg) = [mkMapping "old.example.com" 5432 10001] /\
  route_at (Handler.ebpf stale_run.1.1) (DomainHash "new.example.com", 5432, L4ProtoTCP) = Some 10001.
Proof. split; [vm_compute; reflexivity|]. split; [vm_compute; reflexivity|]. split; vm_compute; reflexivity. Qed.

End Lockstep.
