(* ===== verification/BundleNames.v ===== *)
(** * Names, addresses and sources of bundles

    The naming rule shared by stacks, harnesses and bundles (internal/consts/name.go),
    component addresses and bundle identities (internal/bundle/address.go), component
    types and their directories (component.go), declared sources and their cache keys
    (source.go), the suggestion for a mistyped directory (warnings.go), and the
    display version of a fetched bundle (install.go).

    SHA-256 is a parameter of the cache keys, [digest]: the source hashes the
    canonical spelling of a source and keeps the first twelve hex digits. *)

From S2P Require Import Prelude GoStrings GoPath.
Import Go GoPath.

Module BundleNames.

(** ** The naming rule (name.go) *)

Definition NameMaxLength : nat := 32.
Definition name_end (c : ascii) : bool := is_lower c || is_digit c.
Definition name_inner (c : ascii) : bool := name_end c || Ascii.eqb c "-".
Definition first_char (p : ascii -> bool) (s : string) : bool := match s with EmptyString => false | String c _ => p c end.
(** [nameRe]: an end character, or two with inner characters between them. *)
Definition nameRe (s : string) : bool := first_char name_end s && first_char name_end (String.rev s) && all_chars name_inner s.

Inductive name_error := BadLength | BadShape | Reserved | BadSegments.

Definition ValidateName (name : string) : result name_error unit :=
  if (String.length name =? 0)%nat || (NameMaxLength <? String.length name)%nat then Err BadLength
  else if negb (nameRe name) then Err BadShape else Ok tt.

Definition ImageTagDefaultAlias : string := "default".
Definition ImageTagLatest : string := "latest".
Definition ImageTagBase : string := "base".
Definition reserved_tags : list string := [ImageTagDefaultAlias; ImageTagLatest; ImageTagBase].

Definition ValidateHarnessName (name : string) : result name_error unit :=
  check ValidateName name then if existsb (String.eqb name) reserved_tags then Err Reserved else Ok tt.

Record address := mkAddress { a_namespace : string; a_bundle : string; a_name : string; a_qualified : bool }.

Definition addressSeparator : ascii := ".".
Definition addressSegments : nat := 3.
Definition identitySegments : nat := 2.

(** The first segment that breaks the rule decides the error. *)
Fixpoint validate_segments (segs : list string) : result name_error unit :=
  match segs with [] => Ok tt | s :: segs' => check ValidateName s then validate_segments segs' end.

Definition parseAddress (s : string) : result name_error address :=
  if negb (Contains s (one addressSeparator)) then check ValidateName s then Ok (mkAddress "" "" s false)
  else
    match Split addressSeparator s with
    | [ns; b; n] => check validate_segments [ns; b; n] then Ok (mkAddress ns b n true)
    | _ => Err BadSegments
    end.

Definition SplitAddress : string -> result name_error address := parseAddress.
Definition JoinAddress (namespace bundle name : string) : string := namespace +:+ one addressSeparator +:+ bundle +:+ one addressSeparator +:+ name.
Definition JoinIdentity (namespace name : string) : string := namespace +:+ one addressSeparator +:+ name.

Definition SplitIdentity (s : string) : result name_error (string * string) :=
  match Split addressSeparator s with
  | [ns; n] => check validate_segments [ns; n] then Ok (ns, n)
  | _ => Err BadSegments
  end.

Definition NamePrefix : string := "clawker".
Definition ReservedNamespaceOfficial : string := "official".

Definition ValidateNamespace (ns : string) : result name_error unit :=
  check ValidateName ns then
  if String.eqb ns NamePrefix || String.eqb ns ReservedNamespaceOfficial || HasPrefix ns (NamePrefix +:+ "-") || HasSuffix ns ("-" +:+ NamePrefix) then Err Reserved
  else Ok tt.

Definition ValidateAddress (s : string) : result name_error unit :=
  let? a := parseAddress s in if a_qualified a then ValidateNamespace (a_namespace a) else Ok tt.
Definition ValidateComponentRef (ref : string) : result name_error unit := check parseAddress ref then Ok tt.
Definition ValidateHarnessRef (ref : string) : result name_error unit :=
  let? a := parseAddress ref in if a_qualified a then Ok tt else ValidateHarnessName ref.

(** ** Identities and addresses (address.go) *)

Record BundleID := mkID { Namespace : string; Name : string }.
#[export] Instance BundleID_eq : EqDecision BundleID.
Proof. solve_decision. Defined.
#[export] Instance BundleID_countable : Countable BundleID.
Proof. apply (inj_countable' (fun i => (Namespace i, Name i)) (fun p => mkID p.1 p.2)). by intros []. Defined.

Definition ID_String (id : BundleID) : string := JoinIdentity (Namespace id) (Name id).
Definition zero_id : BundleID := mkID "" "".
Definition zero (id : BundleID) : bool := String.eqb (Namespace id) "" && String.eqb (Name id) "".

Record Address := mkAddr { A_Namespace : string; A_Bundle : string; A_Name : string }.
Definition BareAddress (name : string) : Address := mkAddr "" "" name.
Definition Qualified (a : Address) : bool := negb (String.eqb (A_Namespace a) "").
Definition Address_String (a : Address) : string := if Qualified a then JoinAddress (A_Namespace a) (A_Bundle a) (A_Name a) else A_Name a.
Definition Address_ID (a : Address) : BundleID := mkID (A_Namespace a) (A_Bundle a).
Definition ParseAddress (s : string) : result name_error Address :=
  let? a := SplitAddress s in Ok (mkAddr (a_namespace a) (a_bundle a) (a_name a)).

(** ** Component types (component.go) *)

(** A value outside the enumeration is [ComponentOther]. *)
Inductive ComponentType := ComponentHarness | ComponentStack | ComponentMonitoring | ComponentOther (n : Z).
#[export] Instance ComponentType_eq : EqDecision ComponentType.
Proof. solve_decision. Defined.
Definition type_number (t : ComponentType) : Z := match t with ComponentHarness => 0 | ComponentStack => 1 | ComponentMonitoring => 2 | ComponentOther n => n end.

Definition harnessesDir : string := "harnesses".
Definition stacksDir : string := "stacks".
Definition monitoringDir : string := "monitoring".

Definition Valid (t : ComponentType) : bool := match t with ComponentOther _ => false | _ => true end.
Definition TypeDir (t : ComponentType) : string :=
  match t with ComponentHarness => harnessesDir | ComponentStack => stacksDir | ComponentMonitoring => monitoringDir | ComponentOther _ => "" end.
Definition componentTypeForDir (dir : string) : option ComponentType :=
  if String.eqb dir harnessesDir then Some ComponentHarness
  else if String.eqb dir stacksDir then Some ComponentStack
  else if String.eqb dir monitoringDir then Some ComponentMonitoring
  else None.

(** ** Sources (source.go) *)

Record BundleSource := mkBundleSource { bs_URL : string; bs_Ref : string; bs_SHA : string; bs_Path : string; bs_AutoUpdate : bool }.
Record Source := mkSource { URL : string; Ref : string; SHA : string; Path : string }.
Definition SourceFromConfig (bs : BundleSource) : Source := mkSource (bs_URL bs) (bs_Ref bs) (bs_SHA bs) (bs_Path bs).
Definition IsLocal (s : Source) : bool := String.eqb (URL s) "" && negb (String.eqb (Path s) "").
Definition pin (s : Source) : string :=
  if negb (String.eqb (SHA s) "") then "sha:" +:+ SHA s else if negb (String.eqb (Ref s) "") then "ref:" +:+ Ref s else "".
Definition Canonical (s : Source) : string :=
  if IsLocal s then "path:" +:+ Clean (Path s) else "git:" +:+ URL s +:+ "//" +:+ Path s +:+ "@" +:+ pin s.
Definition repository (s : Source) : string := if String.eqb (Path s) "" then URL s else URL s +:+ "//" +:+ Path s.
Definition sourceKeyLen : nat := 12.
Definition Key (digest : string -> string) (s : Source) : string := String.substring 0 sourceKeyLen (digest (Canonical s)).

(** ** Near misses (warnings.go) *)

(** One row of the table: [prev] is the row above, [diag] the entry above to the
    left, [left] the entry written last. *)
Fixpoint lev_row (c : ascii) (rb : list ascii) (diag left : nat) (prev : list nat) : list nat :=
  match rb, prev with
  | d :: rb', up :: prev' =>
      let cost := if Ascii.eqb c d then O else 1%nat in
      let v := Nat.min (Nat.min (up + 1) (left + 1)) (diag + cost) in
      v :: lev_row c rb' up v prev'
  | _, _ => []
  end.
Fixpoint lev_rows (i : nat) (ra rb : list ascii) (prev : list nat) : list nat :=
  match ra, prev with
  | c :: ra', p0 :: prev' => lev_rows (S i) ra' rb (i :: lev_row c rb p0 i prev')
  | _, _ => prev
  end.
Definition levenshtein (a b : string) : nat :=
  let ra := String.list_ascii_of_string a in let rb := String.list_ascii_of_string b in
  nth (length rb) (lev_rows 1 ra rb (seq 0 (S (length rb)))) 0%nat.

Definition suggestConventionDir (dir : string) : option string :=
  let try_dir (best : option (string * nat)) (candidate : string) :=
    let d := levenshtein dir candidate in
    let threshold := Nat.max (Nat.div (String.length candidate) 3) 1 in
    if (d <=? threshold)%nat && match best with None => true | Some (_, b) => (d <? b)%nat end then Some (candidate, d) else best in
  fst <$> foldl try_dir None [harnessesDir; stacksDir; monitoringDir].

(** ** Display versions (install.go) *)

(** [filepath.IsLocal]. *)
Definition IsLocalPath (p : string) : bool :=
  negb (String.eqb p "") && negb (IsAbs p) && negb (String.eqb (Clean p) "..") && negb (HasPrefix (Clean p) "../").
Definition isControlRune (c : ascii) : bool := (code c <? 32) || (code c =? 127).
Definition is_separator (c : ascii) : bool := Ascii.eqb c "/" || Ascii.eqb c "\".

Inductive version_error := NoVersion | NotSegment | HasControl.
Definition resolveVersion (manifestVersion resolvedSHA : string) : result version_error string :=
  let version := if String.eqb manifestVersion "" then resolvedSHA else manifestVersion in
  if String.eqb version "" then Err NoVersion
  else if negb (all_chars (fun c => negb (is_separator c)) version) || negb (IsLocalPath version) || HasPrefix version "." then Err NotSegment
  else if negb (all_chars (fun c => negb (isControlRune c)) version) then Err HasControl
  else Ok version.

(** ** Addresses are read back *)

Definition conforms (s : string) : Prop := ValidateName s = Ok tt.
(** A bare name, or three segments, all by the naming rule. *)
Definition wf_address (a : Address) : Prop :=
  conforms (A_Name a) /\ (a = BareAddress (A_Name a) \/ conforms (A_Namespace a) /\ conforms (A_Bundle a)).

Lemma name_inner_dot c : name_inner c = true -> free_of addressSeparator c = true.
Proof. intros H. unfold free_of. destruct (Ascii.eqb_spec c addressSeparator) as [->|]; [by vm_compute in H|done]. Qed.

Lemma conforms_chars s : conforms s -> all_chars name_inner s = true.
Proof.
  unfold conforms, ValidateName. destruct (_ || _); [done|]. destruct (nameRe s) eqn:E; [|done]. intros _.
  unfold nameRe in E. by apply andb_true_iff in E as [_ E].
Qed.

Lemma conforms_free s : conforms s -> all_chars (free_of addressSeparator) s = true.
Proof. intros H%conforms_chars. eapply all_chars_impl; [|done]. intros c. apply name_inner_dot. Qed.

Lemma conforms_nonempty s : conforms s -> s <> "".
Proof. by intros H ->. Qed.

Lemma conforms_dot x s : conforms s -> HasPrefix s (String "." x) = false.
Proof.
  intros H%conforms_free. apply not_true_iff_false. intros [r ->]%HasPrefix_spec. done.
Qed.

Lemma validate_segments_ok segs : validate_segments segs = Ok tt <-> Forall conforms segs.
Proof.
  induction segs as [|s segs IH]; cbn; [by split; [constructor|]|]. rewrite Forall_cons, <- IH. unfold conforms.
  destruct (ValidateName s) as [[]|]; cbn; split; intros H; [by split|by destruct H|done|by destruct H].
Qed.

Lemma Contains_sep s : Contains s (one addressSeparator) = negb (all_chars (free_of addressSeparator) s).
Proof.
  assert (H : forall s, Cut (one addressSeparator) s = None <-> all_chars (free_of addressSeparator) s = true).
  { clear s. intros s. induction s as [|c s IH]; [done|]. cbn [Cut all_chars one strip_prefix]. unfold free_of at 1. rewrite (Ascii.eqb_sym c).
    destruct (Ascii.eqb addressSeparator c); [done|]. cbn. rewrite <- IH. unfold one. by destruct (Cut _ s) as [[]|]. }
  unfold Contains. specialize (H s). destruct (all_chars _ s), (Cut _ s); cbn; try done; [by destruct H as [_ H]; specialize (H eq_refl)|by destruct H as [H _]; specialize (H eq_refl)].
Qed.

Lemma Split_three a b c : conforms a -> conforms b -> conforms c -> Split addressSeparator (JoinAddress a b c) = [a; b; c].
Proof.
  intros Ha Hb Hc. unfold JoinAddress. rewrite Split_app, Split_app.
  by rewrite !(Split_free addressSeparator) by (by apply conforms_free).
Qed.

Lemma Join_three s a b c : Split addressSeparator s = [a; b; c] -> s = JoinAddress a b c.
Proof. intros H. by rewrite <- (Join_Split addressSeparator s), H. Qed.

Lemma qualified_conforms a : conforms (A_Namespace a) -> Qualified a = true.
Proof. intros H%conforms_nonempty. unfold Qualified. by rewrite (proj2 (String.eqb_neq _ _) H). Qed.

(** An address parses exactly when it is the spelling of a well-formed address,
    and it parses to that address. *)
Theorem address_grammar s a : ParseAddress s = Ok a <-> wf_address a /\ Address_String a = s.
Proof.
  unfold ParseAddress, SplitAddress, parseAddress. rewrite Contains_sep, negb_involutive. split.
  - destruct (all_chars _ s) eqn:E.
    + destruct (ValidateName s) as [[]|] eqn:Hv; [|done]. cbn. intros [= <-]. split; [by split; [|left]|done].
    + destruct (Split addressSeparator s) as [|x [|y [|z [|? ?]]]] eqn:Hs; [done..| |done]. cbn [result_bind].
      destruct (validate_segments [x; y; z]) as [[]|] eqn:Hv; [|done]. cbn. intros [= <-].
      apply validate_segments_ok in Hv. inversion_clear Hv as [|? ? Hx Hv']. inversion_clear Hv' as [|? ? Hy Hv]. inversion_clear Hv as [|? ? Hz _].
      split; [by split; [|right]|]. unfold Address_String. rewrite qualified_conforms by done. symmetry. by apply Join_three.
  - destruct a as [ns b n]. intros [[Hn Hcase] <-]. cbn in Hn, Hcase. destruct Hcase as [[= -> ->]|[Hns Hb]].
    + cbn. rewrite conforms_free by done. unfold conforms in Hn. by rewrite Hn.
    + unfold Address_String. rewrite qualified_conforms by done. cbn [A_Namespace A_Bundle A_Name].
      assert (all_chars (free_of addressSeparator) (JoinAddress ns b n) = false) as ->.
      { unfold JoinAddress. rewrite !all_chars_append. cbn. by rewrite andb_false_r. }
      rewrite Split_three by done. by rewrite (proj2 (validate_segments_ok [ns; b; n])) by (by repeat constructor).
Qed.

Lemma SplitIdentity_String id : conforms (Namespace id) -> conforms (Name id) -> SplitIdentity (ID_String id) = Ok (Namespace id, Name id).
Proof.
  intros H1 H2. unfold SplitIdentity, ID_String, JoinIdentity. rewrite Split_app, !(Split_free addressSeparator) by (by apply conforms_free).
  cbn [app]. by rewrite (proj2 (validate_segments_ok [Namespace id; Name id])) by (by repeat constructor).
Qed.

(** A harness reference that is accepted is never an image tag alias. *)
Lemma harness_ref_no_alias ref : ValidateHarnessRef ref = Ok tt -> ref ∉ reserved_tags.
Proof.
  unfold ValidateHarnessRef. intros H Hin.
  assert (all_chars (free_of addressSeparator) ref = true) as E by (unfold reserved_tags in Hin; rewrite !elem_of_cons, elem_of_nil in Hin; by destruct Hin as [->|[->|[->|[]]]]).
  unfold parseAddress in H. rewrite Contains_sep, E in H. cbn in H. destruct (ValidateName ref) as [[]|] eqn:Hv; [|done]. cbn in H.
  unfold ValidateHarnessName in H. rewrite Hv in H. cbn [result_bind] in H. destruct (existsb _ _) eqn:Ex; [done|].
  apply not_true_iff_false in Ex. apply Ex. apply existsb_elem. exists ref. by rewrite String.eqb_refl.
Qed.

(** ** The distance is the length of a shortest edit script *)

(** Turning one string into the other by keeping, replacing, deleting and inserting
    characters, with the number of changes. *)
Inductive script : list ascii -> list ascii -> nat -> Prop :=
| s_nil : script [] [] 0
| s_keep c a b n : script a b n -> script (c :: a) (c :: b) n
| s_replace c d a b n : script a b n -> script (c :: a) (d :: b) (S n)
| s_delete c a b n : script a b n -> script (c :: a) b (S n)
| s_insert d a b n : script a b n -> script a (d :: b) (S n).

(** The recurrence behind the table, on the prefixes read so far, last character
    first. *)
Fixpoint edit (a b : list ascii) : nat :=
  match a with
  | [] => length b
  | c :: a' =>
      (fix inner b := match b with
        | [] => S (length a')
        | d :: b' => Nat.min (Nat.min (edit a' b + 1) (inner b' + 1)) (edit a' b' + if Ascii.eqb c d then 0 else 1)
        end) b
  end.

Lemma edit_cons c a d b :
  edit (c :: a) (d :: b) = Nat.min (Nat.min (edit a (d :: b) + 1) (edit (c :: a) b + 1)) (edit a b + if Ascii.eqb c d then 0 else 1).
Proof. done. Qed.

Lemma edit_nil_r a : edit a [] = length a.
Proof. by destruct a. Qed.

(** The prefixes of a list that extend [q], shortest first. *)
Fixpoint prefixes (q l : list ascii) : list (list ascii) :=
  match l with [] => [] | d :: l' => (d :: q) :: prefixes (d :: q) l' end.

Lemma lev_row_edit c p rb q :
  lev_row c rb (edit p q) (edit (c :: p) q) (edit p <$> prefixes q rb) = edit (c :: p) <$> prefixes q rb.
Proof.
  revert q. induction rb as [|d rb IH]; intros q; [done|]. cbn [prefixes fmap list_fmap lev_row].
  change (Nat.min _ _) with (edit (c :: p) (d :: q)). by rewrite IH.
Qed.

Lemma lev_rows_edit ra rb p :
  lev_rows (S (length p)) ra rb (edit p <$> [] :: prefixes [] rb) = edit (rev ra ++ p) <$> [] :: prefixes [] rb.
Proof.
  revert p. induction ra as [|c ra IH]; intros p; [done|]. cbn [rev]. rewrite <- app_assoc. cbn [app]. rewrite <- (IH (c :: p)), !fmap_cons.
  cbn [lev_rows length]. rewrite <- lev_row_edit. by rewrite !edit_nil_r.
Qed.

Lemma prefixes_first q l k : length q = k -> edit [] <$> prefixes q l = seq (S k) (length l).
Proof. revert q k. induction l as [|d l IH]; intros q k Hk; [done|]. cbn. rewrite Hk. f_equal. apply IH. cbn. by rewrite Hk. Qed.

Lemma prefixes_last q l : last (q :: prefixes q l) = Some (rev l ++ q).
Proof. revert q. induction l as [|d l IH]; intros q; [done|]. cbn [prefixes rev]. rewrite <- app_assoc. exact (IH (d :: q)). Qed.

Lemma prefixes_length q l : length (prefixes q l) = length l.
Proof. revert q. induction l as [|d l IH]; intros q; [done|]. cbn. by rewrite IH. Qed.

Lemma levenshtein_edit a b :
  levenshtein a b = edit (rev (String.list_ascii_of_string a)) (rev (String.list_ascii_of_string b)).
Proof.
  unfold levenshtein. set (ra := String.list_ascii_of_string a). set (rb := String.list_ascii_of_string b).
  assert (seq 0 (S (length rb)) = edit [] <$> [] :: prefixes [] rb) as ->.
  { cbn [seq]. rewrite fmap_cons. f_equal. by rewrite (prefixes_first [] rb 0). }
  change 1%nat with (S (length (@nil ascii))). rewrite (lev_rows_edit ra rb []), app_nil_r.
  apply nth_lookup_Some with (d := 0%nat). rewrite list_lookup_fmap.
  assert (([] :: prefixes [] rb) !! length rb = Some (rev rb)) as ->; [|done].
  rewrite <- (app_nil_r (rev rb)), <- (prefixes_last [] rb), last_lookup. cbn [length pred]. by rewrite prefixes_length.
Qed.

Lemma edit_least a b n : script a b n -> (edit a b <= n)%nat.
Proof.
  induction 1 as [|c a b n _ IH|c d a b n _ IH|c a b n _ IH|d a b n _ IH]; [done|..].
  - rewrite edit_cons, Ascii.eqb_refl. lia.
  - rewrite edit_cons. destruct (Ascii.eqb c d); lia.
  - destruct b as [|d b]; [rewrite edit_nil_r in IH |- *; cbn; lia|]. rewrite edit_cons. lia.
  - destruct a as [|c a]; [cbn in IH |- *; lia|]. rewrite edit_cons. lia.
Qed.

Lemma edit_script a b : script a b (edit a b).
Proof.
  revert b. induction a as [|c a IHa]; intros b.
  { cbn. induction b; by constructor. }
  induction b as [|d b IHb].
  { rewrite edit_nil_r. cbn. constructor. specialize (IHa []). by rewrite edit_nil_r in IHa. }
  rewrite edit_cons. destruct (Nat.min_spec (Nat.min (edit a (d :: b) + 1) (edit (c :: a) b + 1)) (edit a b + if Ascii.eqb c d then 0 else 1)) as [[_ ->]|[_ ->]].
  - destruct (Nat.min_spec (edit a (d :: b) + 1) (edit (c :: a) b + 1)) as [[_ ->]|[_ ->]]; rewrite Nat.add_1_r; [by apply s_delete|by apply s_insert].
  - destruct (Ascii.eqb_spec c d) as [->|]; [rewrite Nat.add_0_r; by apply s_keep|rewrite Nat.add_1_r; by apply s_replace].
Qed.

Lemma script_app a b n a' b' n' : script a b n -> script a' b' n' -> script (a ++ a') (b ++ b') (n + n').
Proof. induction 1; intros Hs; cbn; [done|by constructor; auto..]. Qed.

Lemma script_rev a b n : script a b n -> script (rev a) (rev b) n.
Proof.
  induction 1 as [|c a b n _ IH|c d a b n _ IH|c a b n _ IH|d a b n _ IH]; cbn; [constructor|..].
  - rewrite <- (Nat.add_0_r n). apply script_app; [done|]. repeat constructor.
  - rewrite <- (Nat.add_1_r n). apply script_app; [done|]. repeat constructor.
  - rewrite <- (Nat.add_1_r n), <- (app_nil_r (rev b)). apply script_app; [done|]. repeat constructor.
  - rewrite <- (Nat.add_1_r n), <- (app_nil_r (rev a)). apply script_app; [done|]. repeat constructor.
Qed.

(** The two-row table computes the least number of edits between the two names. *)
Theorem levenshtein_least a b :
  script (String.list_ascii_of_string a) (String.list_ascii_of_string b) (levenshtein a b) /\
  forall n, script (String.list_ascii_of_string a) (String.list_ascii_of_string b) n -> (levenshtein a b <= n)%nat.
Proof.
  rewrite levenshtein_edit. split; [|intros n Hn; by apply edit_least, script_rev].
  rewrite <- (List.rev_involutive (String.list_ascii_of_string a)) at 1. rewrite <- (List.rev_involutive (String.list_ascii_of_string b)) at 1.
  apply script_rev, edit_script.
Qed.

(** ** Sources and their keys *)

(** The subdirectory is a relative path without empty segments, and neither it nor the
    pin has an at sign. *)
Definition plain_source (s : Source) : Prop :=
  IsLocal s = false /\ (Path s = "" \/ Forall (fun x => x <> "") (Split "/" (Path s))) /\
  all_chars (free_of "@") (Path s) = true /\ all_chars (free_of "@") (pin s) = true.

Lemma app_sep_inj {A} (x : A) l1 k1 l2 k2 : x ∉ l1 -> x ∉ l2 -> l1 ++ x :: k1 = l2 ++ x :: k2 -> l1 = l2 /\ k1 = k2.
Proof.
  revert l2. induction l1 as [|y l1 IH]; intros [|z l2] H1 H2 E; cbn in E; simplify_eq; [done|set_solver..|].
  destruct (IH l2) as [-> ->]; [set_solver..|done|done].
Qed.

Lemma Split_double u p : Split "/" (u +:+ "//" +:+ p) = Split "/" u ++ "" :: Split "/" p.
Proof. exact (Split_app "/" u ("/" +:+ p)). Qed.

Lemma subdir_inj u1 p1 u2 p2 :
  (p1 = "" \/ Forall (fun x => x <> "") (Split "/" p1)) -> (p2 = "" \/ Forall (fun x => x <> "") (Split "/" p2)) ->
  u1 +:+ "//" +:+ p1 = u2 +:+ "//" +:+ p2 -> u1 = u2 /\ p1 = p2.
Proof.
  intros H1 H2 E. apply (f_equal (fun s => rev (Split "/" s))) in E. rewrite !Split_double, !rev_app_distr in E. cbn [rev] in E. rewrite <- !app_assoc in E. cbn in E.
  assert (Hrev : forall p, Forall (fun x => x <> "") (Split "/" p) -> "" ∉ rev (Split "/" p)).
  { intros p Hp Hin. apply list_elem_of_In, in_rev, list_elem_of_In in Hin. rewrite Forall_forall in Hp. by apply (Hp "" Hin). }
  assert (Hend : forall p, Forall (fun x => x <> "") (Split "/" p) -> exists y l, y <> "" /\ rev (Split "/" p) = y :: l).
  { intros p Hp. specialize (Hrev p Hp). destruct (rev (Split "/" p)) as [|y l] eqn:Er; [|exists y, l; set_solver].
    apply (f_equal (@rev _)) in Er. rewrite List.rev_involutive in Er. destruct (Split_cons "/" p) as (x & xs & Ex). by rewrite Ex in Er. }
  assert (Hback : forall a b, rev (Split "/" a) = rev (Split "/" b) -> a = b).
  { intros a b Hab. apply (f_equal (@rev _)) in Hab. rewrite !List.rev_involutive in Hab. by rewrite <- (Join_Split "/" a), Hab, Join_Split. }
  destruct H1 as [->|H1], H2 as [->|H2].
  - cbn in E. injection E as E. by apply Hback in E.
  - destruct (Hend p2 H2) as (y & l & Hy & Er). rewrite Er in E. cbn in E. by injection E as <- _.
  - destruct (Hend p1 H1) as (y & l & Hy & Er). rewrite Er in E. cbn in E. by injection E as -> _.
  - apply app_sep_inj in E as [Ep Eu]; [|by apply Hrev..]. by apply Hback in Ep, Eu.
Qed.

(** Two plain declarations share a canonical spelling only if they fetch the same
    subdirectory of the same repository under the same pin. *)
Lemma Canonical_inj s t : plain_source s -> plain_source t -> Canonical s = Canonical t -> URL s = URL t /\ Path s = Path t /\ pin s = pin t.
Proof.
  intros (Ls & Ps & As & Ns) (Lt & Pt & At & Nt). unfold Canonical. rewrite Ls, Lt. intros E. injection E as E. change ("@" +:+ pin s) with (String "@" (pin s)) in E. change ("@" +:+ pin t) with (String "@" (pin t)) in E. rewrite !append_assoc in E.
  assert (Hat : forall x, all_chars (free_of "@") x = true -> all_chars (fun d => negb (Ascii.eqb "@" d)) x = true).
  { intros x. apply all_chars_impl. intros c. unfold free_of. by rewrite Ascii.eqb_sym. }
  apply last_sep_inj in E as [E ->]; [|by apply Hat..]. rewrite <- !append_assoc in E. apply subdir_inj in E as [-> ->]; done.
Qed.

(** Without that, two different repositories can share a cache entry. *)
Lemma canonical_collides :
  let s := mkSource "https://h/r" "" "" "a//b" in let t := mkSource "https://h/r//a" "" "" "b" in
  URL s <> URL t /\ forall digest, Key digest s = Key digest t.
Proof. by split. Qed.

(** A version that is accepted is one visible path segment. *)
Lemma resolveVersion_plain m sha v : resolveVersion m sha = Ok v ->
  v <> "" /\ HasPrefix v "." = false /\ all_chars (fun c => negb (is_separator c) && negb (isControlRune c)) v = true.
Proof.
  unfold resolveVersion. set (w := if String.eqb m "" then sha else m). destruct (String.eqb_spec w "") as [|Hne]; [done|].
  destruct (all_chars (fun c => negb (is_separator c)) w) eqn:E1; [|done]. destruct (IsLocalPath w); [|done]. destruct (HasPrefix w ".") eqn:E2; [done|]. cbn.
  destruct (all_chars (fun c => negb (isControlRune c)) w) eqn:E3; [|done]. cbn. intros [= <-]. split; [done|]. split; [done|].
  clear -E1 E3. induction w as [|c w IH]; [done|]. cbn in *. apply andb_true_iff in E1 as [-> E1], E3 as [-> E3]. by apply IH.
Qed.

End BundleNames.
