(* ===== verification/BundleFS.v ===== *)
(** * A file system for the bundle cache

    The file system as one tree of files, symbolic links and directories; the system
    calls the bundle manager makes as actions with their answers; the code between
    two calls as a program over them.  A program can be run, against an environment
    that may make any call fail (a call that writes several files may have done part
    of its work by then), and it can be cut off after any call, which is a crash.
    [chl] reasons about both: a postcondition for the runs that return, and a
    condition on every state in which the program may be cut off.

    Paths are physical: their segments are followed through directories only.  What
    follows links, as [filepath.EvalSymlinks] and the kernel do, is [walkSymlinks].  *)

From S2P Require Import Prelude GoStrings GoPath.
Import Go GoPath.

Module BundleFS.

(** ** Trees *)

Definition path : Type := list string.
Inductive node := Reg (data : string) | Sym (target : string) | Folder (kids : gmap string node).
Inductive kind := KReg | KSym | KDir.
Definition kind_of (n : node) : kind := match n with Reg _ => KReg | Sym _ => KSym | Folder _ => KDir end.
Inductive errno := ENOENT | EEXIST | EOTHER.

Fixpoint get (p : path) (w : node) : option node :=
  match p with
  | [] => Some w
  | x :: p' => match w with Folder k => match k !! x with Some c => get p' c | None => None end | _ => None end
  end.

(** Change what a directory has under a name; nothing happens when the directory does
    not exist. *)
Fixpoint alter (p : path) (f : option node -> option node) (w : node) : node :=
  match p, w with
  | [x], Folder k => Folder (partial_alter f x k)
  | x :: p', Folder k => match k !! x with Some c => Folder (<[x := alter p' f c]> k) | None => w end
  | _, _ => w
  end.
Definition put (p : path) (n : node) (w : node) : node := alter p (fun _ => Some n) w.
Definition drop_at (p : path) (w : node) : node := alter p (fun _ => None) w.

Fixpoint mkdirs (p : path) (w : node) : option node :=
  match w with
  | Folder k =>
      match p with
      | [] => Some w
      | x :: p' => match mkdirs p' (default (Folder ∅) (k !! x)) with Some c => Some (Folder (<[x := c]> k)) | None => None end
      end
  | _ => None
  end.

Definition parent (p : path) : path := removelast p.
Definition is_folder (o : option node) : bool := match o with Some (Folder _) => true | _ => false end.

(** ** Symbolic links *)

(** The loop of [filepath.EvalSymlinks]: [dest] is resolved, [rest] the segments to
    come; a target replaces the link's last segment. *)
Fixpoint walkSymlinks (links : nat) (w : node) (dest rest : path) {struct links} : option path :=
  (fix go (dest rest : path) {struct rest} : option path :=
    match rest with
    | [] => Some dest
    | seg :: rest' =>
        if String.eqb seg "" || String.eqb seg "." then go dest rest'
        else if String.eqb seg ".." then go (parent dest) rest'
        else
          match get (dest ++ [seg]) w with
          | None => None
          | Some (Reg _) => match rest' with [] => Some (dest ++ [seg]) | _ => None end
          | Some (Folder _) => go (dest ++ [seg]) rest'
          | Some (Sym t) => match links with O => None | S l => walkSymlinks l w (if IsAbs t then [] else dest) (Split "/" t ++ rest') end
          end
    end) dest rest.

Definition maxLinks : nat := 255.
Definition kernelLinks : nat := 40.
(** What a call finds behind a path; the walk is needed only where the path itself ends
    at a link or does not lead through directories. *)
Definition follow (w : node) (p : path) : option node :=
  let walk := match walkSymlinks kernelLinks w [] p with Some q => get q w | None => None end in
  match get p w with
  | Some (Sym _) => walk
  | Some n => Some n
  | None => if is_folder (get (parent p) w) then None else walk
  end.

(** The links of a tree in the order of a walk, which visits names in order. *)
Definition key_le {A} (a b : string * A) : Prop := String.le a.1 b.1.
#[export] Instance key_le_dec {A} (a b : string * A) : Decision (key_le a b).
Proof. unfold key_le. apply _. Defined.
Fixpoint links_of (at_ : path) (n : node) : list path :=
  match n with
  | Reg _ => []
  | Sym _ => [at_]
  | Folder k => concat (snd <$> merge_sort key_le (map_fold (fun x c acc => (x, links_of (at_ ++ [x]) c) :: acc) [] k))
  end.

(** ** Calls *)

Inductive call :=
| ReadDir (p : path) | Lstat (p : path) | Stat (p : path) | ReadFile (p : path) | EvalSymlinks (p : path)
(** a whole tree, as a walk reads it, and the writing of one *)
| ReadTree (p : path) | WriteTree (p : path) (n : node)
| MkdirAll (p : path) | MkdirTemp (base : path) (prefix : string) | WriteFile (p : path) (data : string)
| Rename (p q : path) | Remove (p : path) | RemoveAll (p : path)
(** the advisory lock of an entry; releasing it changes nothing *)
| Lock (p : path)
(** whether a staging tree is younger than the sweep age *)
| Young (p : path)
(** the git fetcher and the clock *)
| Clone (url ref sha : string) (dir : path) | ResolveRef (url ref : string) | Now.

Definition answer (c : call) : Type :=
  match c with
  | ReadDir _ => result errno (list (string * kind))
  | Lstat _ | Stat _ => result errno kind
  | ReadFile _ | Clone _ _ _ _ | ResolveRef _ _ => result errno string
  | EvalSymlinks _ | MkdirTemp _ _ => result errno path
  | ReadTree _ => result errno node
  | Young _ => result errno bool
  | Now => Z
  | _ => result errno unit
  end.

(** What decides a call beside the tree: whether it fails, how far it had come by then
    ([depth] directories made, the paths [removed], the [leftover] of a write), the
    random suffix of a temporary name, the age of a tree, the remote repository and
    the clock. *)
Record env := mkEnv {
  fault : option errno; depth : nat; removed : list path; leftover : option node;
  suffix : string; young : bool; remote : result errno (string * node); clock : Z;
}.
Definition calm : env := mkEnv None 0 [] None "0" false (Err EOTHER) 0.

Definition answering {A} (e : env) (r : result errno A) : result errno A := match fault e with Some x => Err x | None => r end.
Definition found {A} (f : node -> A) (o : option node) : result errno A := match o with Some n => Ok (f n) | None => Err ENOENT end.

(** Entries in the order of their names. *)
Definition list_dir (o : option node) : result errno (list (string * kind)) :=
  match o with
  | Some (Folder k) => Ok (merge_sort key_le (prod_map id kind_of <$> map_to_list k))
  | Some _ => Err EOTHER
  | None => Err ENOENT
  end.

Definition lockSuffix : string := ".lock".
Definition lock_path (p : path) : path := parent p ++ [default "" (last p) +:+ lockSuffix].

(** Create a file if there is none. *)
Definition touch (p : path) (w : node) : result errno node :=
  if negb (is_folder (get (parent p) w)) then Err ENOENT
  else match get p w with None => Ok (put p (Reg "") w) | Some (Reg _) => Ok w | Some _ => Err EOTHER end.

Definition write_file (p : path) (n : node) (w : node) : result errno node :=
  if negb (is_folder (get (parent p) w)) then Err ENOENT
  else match get p w with None | Some (Reg _) => Ok (put p n w) | Some _ => Err EOTHER end.

(** A directory that exists is never replaced. *)
Definition rename (p q : path) (w : node) : result errno node :=
  match get p w with
  | None => Err ENOENT
  | Some n =>
      if negb (is_folder (get (parent q) w)) then Err ENOENT
      else if bool_decide (p `prefix_of` q) then Err EOTHER
      else match get q w with
           | None => Ok (put q n (drop_at p w))
           | Some (Folder _) => Err EEXIST
           | Some _ => if is_folder (Some n) then Err EOTHER else Ok (put q n (drop_at p w))
           end
  end.

(** A directory is removed only when it is empty. *)
Definition remove (p : path) (w : node) : result errno node :=
  match get p w with
  | None => Err ENOENT
  | Some (Folder k) => if bool_decide (k = ∅) then Ok (drop_at p w) else Err EEXIST
  | Some _ => Ok (drop_at p w)
  end.

(** [os.MkdirTemp] tries other suffixes while the name is taken. *)
Fixpoint fresh (tries : nat) (k : gmap string node) (name : string) : string :=
  match tries with O => name | S n => if bool_decide (is_Some (k !! name)) then fresh n k (name +:+ "0") else name end.
Definition mkdir_temp (base : path) (prefix sfx : string) (w : node) : result errno (node * path) :=
  match get base w with
  | Some (Folder k) =>
      let name := fresh (S (size k)) k (prefix +:+ sfx) in
      if bool_decide (is_Some (k !! name)) then Err EEXIST else Ok (put (base ++ [name]) (Folder ∅) w, base ++ [name])
  | _ => Err ENOENT
  end.

(** Effects that happen as a whole or not at all. *)
Definition effect (e : env) (w : node) (r : result errno node) : node * result errno unit :=
  match fault e with Some x => (w, Err x) | None => match r with Ok w' => (w', Ok tt) | Err x => (w, Err x) end end.

Definition exec (c : call) (e : env) (w : node) : node * answer c :=
  match c with
  | ReadDir p => (w, answering e (list_dir (follow w p)))
  | Lstat p => (w, answering e (found kind_of (get p w)))
  | Stat p => (w, answering e (found kind_of (follow w p)))
  | ReadFile p => (w, answering e (match follow w p with Some (Reg s) => Ok s | Some _ => Err EOTHER | None => Err ENOENT end))
  | EvalSymlinks p => (w, answering e (match walkSymlinks maxLinks w [] p with Some q => Ok q | None => Err ENOENT end))
  | ReadTree p => (w, answering e (found id (get p w)))
  | WriteTree p n =>
      match fault e with
      | Some x => (match leftover e with Some l => if is_folder (get p w) then put p l w else w | None => w end, Err x)
      | None => if is_folder (get p w) then (put p n w, Ok tt) else (w, Err ENOENT)
      end
  | MkdirAll p =>
      match fault e with
      | Some x => (default w (mkdirs (take (depth e) p) w), Err x)
      | None => match mkdirs p w with Some w' => (w', Ok tt) | None => (w, Err EOTHER) end
      end
  | MkdirTemp base prefix =>
      match fault e with
      | Some x => (w, Err x)
      | None => match mkdir_temp base prefix (suffix e) w with Ok (w', p) => (w', Ok p) | Err x => (w, Err x) end
      end
  | WriteFile p s =>
      match fault e with
      | Some x => (match leftover e with Some (Reg l) => match write_file p (Reg l) w with Ok w' => w' | Err _ => w end | _ => w end, Err x)
      | None => effect e w (write_file p (Reg s) w)
      end
  | Rename p q => effect e w (rename p q w)
  | Remove p => effect e w (remove p w)
  | RemoveAll p =>
      match fault e with
      | Some x => (foldl (fun w q => drop_at (p ++ q) w) w (filter (fun q => q <> []) (removed e)), Err x)
      | None => (drop_at p w, Ok tt)
      end
  | Lock p =>
      match fault e with
      | Some x => (match depth e with O => w | _ => match touch (lock_path p) w with Ok w' => w' | Err _ => w end end, Err x)
      | None => effect e w (touch (lock_path p) w)
      end
  | Young p => (w, answering e (found (fun _ => young e) (get p w)))
  | Clone _ _ _ dir =>
      match fault e with
      | Some x => (match leftover e with Some l => if is_folder (get dir w) then put dir l w else w | None => w end, Err x)
      | None => match remote e with
                | Ok (sha, n) => if is_folder (get dir w) && is_folder (Some n) then (put dir n w, Ok sha) else (w, Err EOTHER)
                | Err x => (w, Err x)
                end
      end
  | ResolveRef _ _ => (w, answering e (match remote e with Ok (sha, _) => Ok sha | Err x => Err x end))
  | Now => (w, clock e)
  end.

(** ** Programs *)

Inductive prog (A : Type) : Type := Ret (a : A) | Do (c : call) (k : answer c -> prog A).
Arguments Ret {A} a.
Arguments Do {A} c k.

Fixpoint bind {A B} (p : prog A) (f : A -> prog B) : prog B :=
  match p with Ret a => f a | Do c k => Do c (fun x => bind (k x) f) end.
Definition sys (c : call) : prog (answer c) := Do c Ret.

Declare Scope prog_scope.
Delimit Scope prog_scope with prog.
Notation "'do' x <- p ; k" := (bind p (fun x => k)) (at level 200, x binder, p at level 100, k at level 200, right associativity) : prog_scope.
(** Return the error of a call that failed. *)
Notation "'try' x <- p ; k" := (bind p (fun r => match r with Ok x => k | Err e => Ret (Err e) end)) (at level 200, x pattern, p at level 100, k at level 200, right associativity) : prog_scope.

(** A program runs in the environments of a list, and after them undisturbed. *)
Definition now_in (es : list env) : env := match es with e :: _ => e | [] => calm end.
Fixpoint run {A} (es : list env) (p : prog A) (w : node) : node * A :=
  match p with
  | Ret a => (w, a)
  | Do c k => let '(w', x) := exec c (now_in es) w in run (tail es) (k x) w'
  end.
(** The state in which [n] calls of the program leave the file system. *)
Fixpoint cut {A} (n : nat) (es : list env) (p : prog A) (w : node) : node :=
  match n, p with
  | S n, Do c k => let '(w', x) := exec c (now_in es) w in cut n (tail es) (k x) w'
  | _, _ => w
  end.

(** ** Reading after writing *)

(** Neither path is above the other. *)
Definition apart (p q : path) : Prop := ~ p `prefix_of` q /\ ~ q `prefix_of` p.

Lemma apart_sym p q : apart p q -> apart q p.
Proof. by intros [? ?]. Qed.

Lemma apart_app c p q : apart p q -> apart (c ++ p) (c ++ q).
Proof. intros [H1 H2]. split; intros H%prefix_app_inv; done. Qed.

Lemma apart_cons x y p q : x <> y \/ apart p q -> apart (x :: p) (y :: q).
Proof. intros [H|[H1 H2]]; split; intros Hp; try (by apply prefix_cons_inv_1 in Hp); by apply prefix_cons_inv_2 in Hp. Qed.

Lemma apart_below p q r : apart p q -> apart p (q ++ r).
Proof.
  intros [H1 H2]. split; intros H.
  - destruct (prefix_weak_total p q (q ++ r) H) as [?|?]; [by apply prefix_app_r|done..].
  - apply H2. etransitivity; [|exact H]. by apply prefix_app_r.
Qed.

Lemma get_app p q w : get (p ++ q) w = match get p w with Some n => get q n | None => None end.
Proof. revert w. induction p as [|x p IH]; intros w; [done|]. cbn. destruct w; [done..|]. by destruct (kids !! x). Qed.

Lemma get_snoc p x w : get (p ++ [x]) w = match get p w with Some (Folder k) => k !! x | _ => None end.
Proof. rewrite get_app. destruct (get p w) as [[| |k]|]; cbn; [done..| |done]. by destruct (k !! x). Qed.

Lemma get_above p q w n : p `prefix_of` q -> get q w = Some n -> is_Some (get p w).
Proof. intros [r ->]. rewrite get_app. by destruct (get p w). Qed.

Lemma alter_cons x p f k : p <> [] ->
  alter (x :: p) f (Folder k) = match k !! x with Some c => Folder (<[x := alter p f c]> k) | None => Folder k end.
Proof. by destruct p. Qed.

Lemma get_alter_apart p q f w : apart q p -> get q (alter p f w) = get q w.
Proof.
  revert q w. induction p as [|x p IH]; intros q w Ha; [done|]. destruct w as [| |k]; [by destruct p..|].
  destruct q as [|y q]; [by destruct Ha as [[] _]; apply prefix_nil|].
  assert (Hxy : x <> y \/ x = y /\ apart q p).
  { destruct (decide (x = y)) as [->|]; [right|by left]. split; [done|]. destruct Ha as [H1 H2]. split; intros H; [apply H1|apply H2]; by apply prefix_cons. }
  destruct (decide (p = [])) as [->|Hp].
  - cbn. destruct Hxy as [Hne|[-> [_ []]]]; [|apply prefix_nil]. by rewrite lookup_partial_alter_ne.
  - rewrite alter_cons by done. destruct (k !! x) as [c|] eqn:Hx; [|done]. cbn. destruct Hxy as [Hne|[-> Hap]].
    + by rewrite lookup_insert_ne.
    + rewrite lookup_insert_eq, Hx. by apply IH.
Qed.

Lemma get_alter_at p x f w : is_folder (get p w) = true -> get (p ++ [x]) (alter (p ++ [x]) f w) = f (get (p ++ [x]) w).
Proof.
  revert w. induction p as [|y p IH]; intros w Hf.
  - destruct w; [done..|]. cbn. rewrite lookup_partial_alter_eq. destruct (kids !! x); cbn; by destruct (f _).
  - destruct w as [| |k]; [done..|]. cbn [app]. rewrite alter_cons by (by destruct p). cbn in Hf |- *.
    destruct (k !! y) as [c|] eqn:Hy; [|done]. cbn. rewrite lookup_insert_eq. by apply IH.
Qed.

Lemma get_put p x n w : is_folder (get p w) = true -> get (p ++ [x]) (put (p ++ [x]) n w) = Some n.
Proof. apply (get_alter_at p x (fun _ => Some n)). Qed.

Lemma get_drop p q w : p <> [] -> p `prefix_of` q -> get q (drop_at p w) = None.
Proof.
  revert q w. induction p as [|x p IH]; intros q w Hp [r ->]; [done|]. destruct w as [| |k]; [by destruct p..|]. cbn [app].
  destruct (decide (p = [])) as [->|Hne]; [cbn; by rewrite lookup_partial_alter_eq|]. unfold drop_at. rewrite alter_cons by done.
  destruct (k !! x) as [c|] eqn:Hx; cbn; [rewrite lookup_insert_eq; apply IH; [done|by eexists]|by rewrite Hx].
Qed.

Lemma alter_folder p q f w : ~ p `prefix_of` q -> is_folder (get q (alter p f w)) = is_folder (get q w).
Proof.
  revert q w. induction p as [|x p IH]; intros q w Hn; [done|]. destruct w as [| |k]; [by destruct p..|].
  destruct q as [|y q]; [destruct p; cbn; [done|]; by destruct (k !! x)|].
  destruct (decide (x = y)) as [->|Hne]; [|rewrite get_alter_apart; [done|]; apply apart_cons; by left].
  assert (~ p `prefix_of` q) as Hn' by (intros H; by apply Hn, prefix_cons).
  destruct (decide (p = [])) as [->|Hp]; [by destruct Hn'; apply prefix_nil|]. rewrite alter_cons by done.
  destruct (k !! y) as [c|] eqn:Hy; [|done]. cbn. rewrite lookup_insert_eq, Hy. by apply IH.
Qed.

Lemma mkdirs_get p q w w' : mkdirs p w = Some w' -> ~ q `prefix_of` p -> get q w' = get q w.
Proof.
  revert q w w'. induction p as [|x p IH]; intros q w w' Hm Hq; (destruct w as [| |k]; [done..|]); cbn in Hm; [by simplify_eq|].
  destruct (mkdirs p _) as [c|] eqn:Hc; [|done]. simplify_eq. destruct q as [|y q]; [by destruct Hq; apply prefix_nil|]. cbn.
  destruct (decide (x = y)) as [->|Hne]; [|by rewrite lookup_insert_ne]. rewrite lookup_insert_eq.
  rewrite (IH q _ _ Hc) by (intros H; by apply Hq, prefix_cons). destruct (k !! y); [done|]. cbn.
  destruct q; [|done]. exfalso. apply Hq, prefix_cons, prefix_nil.
Qed.

Lemma mkdirs_folder p q w w' : mkdirs p w = Some w' -> q `prefix_of` p -> is_folder (get q w') = true.
Proof.
  revert q w w'. induction p as [|x p IH]; intros q w w' Hm Hq; (destruct w as [| |k]; [done..|]); cbn in Hm.
  - simplify_eq. by apply prefix_nil_inv in Hq as ->.
  - destruct (mkdirs p _) as [c|] eqn:Hc; [|done]. simplify_eq. destruct q as [|y q]; [done|].
    pose proof (prefix_cons_inv_1 _ _ _ _ Hq) as ->. apply prefix_cons_inv_2 in Hq. cbn. rewrite lookup_insert_eq. by eapply IH.
Qed.

Lemma mkdirs_keeps_folder p q w w' : mkdirs p w = Some w' -> is_folder (get q w) = true -> is_folder (get q w') = true.
Proof.
  intros Hm Hf. destruct (decide (q `prefix_of` p)) as [Hp|Hp]; [by eapply mkdirs_folder|]. by rewrite (mkdirs_get p q w w' Hm Hp).
Qed.

Lemma mkdirs_exists p w : is_folder (get p w) = true -> mkdirs p w = Some w.
Proof.
  revert w. induction p as [|x p IH]; intros w Hf; (destruct w as [| |k]; [done..|]); [done|]. cbn in *.
  destruct (k !! x) as [c|] eqn:Hx; [|done]. cbn. rewrite (IH c Hf). by rewrite insert_id.
Qed.

(** ** What a call leaves alone *)

Definition safe_from (w : node) (c : call) (q : path) : Prop :=
  match c with
  | WriteTree p _ | WriteFile p _ | Remove p | RemoveAll p | Clone _ _ _ p => apart q p
  | Rename p p' => apart q p /\ apart q p'
  | MkdirAll p => ~ q `prefix_of` p
  | MkdirTemp base _ => ~ q `prefix_of` base /\ (~ base `prefix_of` q \/ is_Some (get q w))
  | Lock p => apart q (lock_path p)
  | _ => True
  end.

Lemma drops_get p qs q w : apart q p -> get q (foldl (fun w q => drop_at (p ++ q) w) w qs) = get q w.
Proof.
  intros Ha. revert w. induction qs as [|r qs IH]; intros w; [done|]. cbn. rewrite IH. apply get_alter_apart. by apply apart_below.
Qed.

Lemma touch_get p q w w' : touch p w = Ok w' -> apart q p -> get q w' = get q w.
Proof. unfold touch. destruct (negb _); [done|]. destruct (get p w) as [[]|]; intros [= <-] Ha; [done|]. by apply get_alter_apart. Qed.

Lemma write_file_get p n q w w' : write_file p n w = Ok w' -> apart q p -> get q w' = get q w.
Proof. unfold write_file. destruct (negb _); [done|]. destruct (get p w) as [[]|]; intros [= <-] Ha; by apply get_alter_apart. Qed.

Lemma rename_get p p' q w w' : rename p p' w = Ok w' -> apart q p -> apart q p' -> get q w' = get q w.
Proof.
  unfold rename. destruct (get p w) as [n|]; [|done]. destruct (negb _); [done|]. destruct (bool_decide _); [done|]. intros H Hp Hp'.
  assert (w' = put p' n (drop_at p w)) as ->. { destruct (get p' w) as [[]|], (is_folder (Some n)); congruence. }
  unfold put. rewrite get_alter_apart by done. by apply get_alter_apart.
Qed.

Lemma remove_get p q w w' : remove p w = Ok w' -> apart q p -> get q w' = get q w.
Proof. unfold remove. destruct (get p w) as [[]|]; [..|destruct (bool_decide _)|]; intros [= <-] Ha; by apply get_alter_apart. Qed.

Lemma fresh_prefix n k prefix s : exists r, fresh n k (prefix +:+ s) = prefix +:+ r.
Proof.
  revert s. induction n as [|n IH]; intros s; cbn [fresh]; [by exists s|]. destruct (bool_decide _); [|by exists s]. rewrite <- append_assoc. apply IH.
Qed.

Lemma mkdir_temp_spec base prefix sfx w w' p : mkdir_temp base prefix sfx w = Ok (w', p) ->
  exists name, p = base ++ [name] /\ w' = put p (Folder ∅) w /\ get p w = None /\ is_folder (get base w) = true /\ HasPrefix name prefix = true.
Proof.
  unfold mkdir_temp. destruct (get base w) as [[| |k]|] eqn:Hb; try done. destruct (bool_decide _) eqn:E; [done|]. intros [= <- <-].
  eexists. split; [done|]. split; [done|]. apply bool_decide_eq_false, eq_None_not_Some in E. split; [by rewrite get_snoc, Hb|]. split; [done|].
  apply HasPrefix_spec. apply (fresh_prefix (S (size k))).
Qed.

Lemma exec_frame c e w q : safe_from w c q -> get q (exec c e w).1 = get q w.
Proof.
  intros H. destruct c; cbn in H |- *; try done; unfold effect; destruct (fault e); cbn; try done.
  - destruct (leftover e); [|done]. destruct (is_folder _); [|done]. by apply get_alter_apart.
  - destruct (is_folder _); [|done]. by apply get_alter_apart.
  - destruct (mkdirs _ w) as [w'|] eqn:E; [|done]. cbn. eapply mkdirs_get; [done|]. intros Hq. apply H. etransitivity; [done|]. apply prefix_take.
  - destruct (mkdirs _ w) as [w'|] eqn:E; [|done]. by eapply mkdirs_get.
  - destruct (mkdir_temp _ _ _ w) as [[w' p]|] eqn:E; [|done]. cbn. apply mkdir_temp_spec in E as (name & -> & -> & Hno & _).
    apply get_alter_apart. destruct H as [H1 H2]. split; intros Hp.
    + destruct (prefix_weak_total q base (base ++ [name]) Hp) as [?|[r Hr]]; [by apply prefix_app_r|done|]. subst q.
      apply prefix_app_inv in Hp. destruct H2 as [[]|[n Hn]]; [by apply prefix_app_r|]. destruct r as [|y r]; [apply H1; by rewrite app_nil_r|].
      pose proof (prefix_cons_inv_1 _ _ _ _ Hp) as ->. apply prefix_cons_inv_2, prefix_nil_inv in Hp as ->. congruence.
    + destruct H2 as [[]|[n Hn]]; [etransitivity; [|exact Hp]; by apply prefix_app_r|]. destruct (get_above _ _ _ _ Hp Hn) as [? ?]. congruence.
  - destruct (leftover e) as [[]|]; try done. destruct (write_file _ _ w) eqn:E; [|done]. by eapply write_file_get.
  - destruct (write_file _ _ w) eqn:E; [|done]. by eapply write_file_get.
  - destruct (rename _ _ w) eqn:E; [|done]. destruct H. by eapply rename_get.
  - destruct (remove _ w) eqn:E; [|done]. by eapply remove_get.
  - by apply drops_get.
  - by apply get_alter_apart.
  - destruct (depth e); [done|]. destruct (touch _ w) eqn:E; [|done]. by eapply touch_get.
  - destruct (touch _ w) eqn:E; [|done]. by eapply touch_get.
  - destruct (leftover e); [|done]. destruct (is_folder _); [|done]. by apply get_alter_apart.
  - destruct (remote e) as [[h n]|]; [|done]. destruct (_ && _); [|done]. by apply get_alter_apart.
Qed.

(** ** Reasoning about programs *)

(** [P] holds of the environments considered, [R] of every state the program may be
    cut off in, [Q] of the result and the state it returns in. *)
Fixpoint chl {A} (P : env -> Prop) (p : prog A) (R : node -> Prop) (Q : A -> node -> Prop) (w : node) : Prop :=
  R w /\ match p with
         | Ret a => Q a w
         | Do c k => forall e, P e -> chl P (k (exec c e w).2) R Q (exec c e w).1
         end.

Section Rules.
Context (P : env -> Prop).

Lemma chl_mono {A} (p : prog A) R R' (Q Q' : A -> node -> Prop) w :
  chl P p R Q w -> (forall w, R w -> R' w) -> (forall a w, R w -> Q a w -> Q' a w) -> chl P p R' Q' w.
Proof.
  intros H HR HQ. revert w H. induction p as [a|c k IH]; intros w [H1 H2]; split; [by apply HR|by apply HQ|by apply HR|].
  intros e He. by apply IH, H2.
Qed.

Lemma chl_ret {A} (a : A) R (Q : A -> node -> Prop) w : R w -> Q a w -> chl P (Ret a) R Q w.
Proof. by split. Qed.

Lemma chl_here {A} (p : prog A) R Q w : chl P p R Q w -> R w.
Proof. by destruct p; intros [? _]. Qed.

Lemma chl_bind {A B} (p : prog A) (f : A -> prog B) R Q w :
  chl P p R (fun a w => chl P (f a) R Q w) w -> chl P (bind p f) R Q w.
Proof.
  revert w. induction p as [a|c k IH]; intros w [H1 H2]; [done|]. split; [done|]. intros e He. by apply IH, H2.
Qed.

Lemma chl_sys (c : call) R Q w : R w -> (forall e, P e -> R (exec c e w).1 /\ Q (exec c e w).2 (exec c e w).1) -> chl P (sys c) R Q w.
Proof. intros HR H. split; [done|]. intros e He. by apply H. Qed.

Lemma chl_conj {A} (p : prog A) R R' Q Q' w : chl P p R Q w -> chl P p R' Q' w -> chl P p (fun w => R w /\ R' w) (fun a w => Q a w /\ Q' a w) w.
Proof.
  revert w. induction p as [a|c k IH]; intros w [H1 H2] [H1' H2']; [by split|]. split; [done|]. intros e He. by apply IH; [apply H2|apply H2'].
Qed.

Lemma chl_run {A} (p : prog A) R Q w es : chl P p R Q w -> Forall P es -> P calm -> Q (run es p w).2 (run es p w).1.
Proof.
  intros H Hes Hc. revert w es H Hes. induction p as [a|c k IH]; intros w es [_ H] Hes; [done|]. cbn.
  assert (P (now_in es)) as He by (destruct Hes; done). specialize (H _ He). destruct (exec c (now_in es) w) as [w' x]. apply IH; [done|]. by destruct Hes.
Qed.

Lemma chl_cut {A} (p : prog A) R Q w es n : chl P p R Q w -> Forall P es -> P calm -> R (cut n es p w).
Proof.
  intros H Hes Hc. revert n w es H Hes. induction p as [a|c k IH]; intros n w es [HR H] Hes; [by destruct n|]. destruct n as [|n]; [done|]. cbn.
  assert (P (now_in es)) as He by (destruct Hes; done). specialize (H _ He). destruct (exec c (now_in es) w) as [w' x]. apply IH; [done|]. by destruct Hes.
Qed.
End Rules.

(** All environments, and those in which no call fails. *)
Definition any (e : env) : Prop := True.
Definition quiet (e : env) : Prop := fault e = None.
End BundleFS.
