(* ===== verification/Bundle.v ===== *)
(** * Bundles: loading, caching, collecting

    internal/bundle over the file system of [BundleFS]: the bundle in a directory
    (bundle.go), fetch receipts (receipt.go), the scan of the cache (installed.go),
    the pipeline that fetches a source into it (install.go), its garbage collection
    (gc.go), the manager's operations and updates (manager.go, update.go, status.go).

    The YAML of manifests and receipts, SHA-256 and the loaders that check a component
    are parameters ([Deps]); the declarations of the configuration and of the
    registered projects are inputs ([Manager]).  Messages are dropped: a warning is the
    event it reports. *)

From S2P Require Import Prelude GoStrings GoPath BundleNames BundleFS.
Import Go GoPath BundleNames BundleFS.
Open Scope prog_scope.

Module Bundle.

(** ** Data *)

Inductive Tier := TierFloor | TierLooseProject | TierLooseUser | TierInstalled | TierInPlace.
Inductive Provenance := mkProv { P_Tier : Tier; P_Dir : path; P_Bundle : BundleID; Shadows : list Provenance }.
Definition no_provenance : Provenance := mkProv TierFloor [] zero_id [].

(** [C_FS] is where the component's files are read, [C_Dir] the directory shown. *)
Record Component := mkComponent { C_Address : Address; C_Type : ComponentType; C_FS : path; C_Dir : path; C_Provenance : Provenance }.
Record BundleManifest := mkManifest { m_Namespace : string; m_Name : string; m_Version : string }.
Record fetchReceipt := mkReceipt { r_Canonical : string; r_SHA : string; r_FetchedAt : Z; r_Version : string }.
Record BundleDeclaration := mkDecl { d_Source : BundleSource; d_File : string }.

Class Deps := {
  digest : string -> string;
  parse_manifest : string -> option BundleManifest;
  parse_receipt : string -> option fetchReceipt;
  print_receipt : fetchReceipt -> string;
  component_ok : node -> Component -> bool;
}.

Inductive manifest_error :=
| Unreadable (e : errno) | Unparsable | MissingNamespace | BadNamespace (e : name_error) | MissingName | BadName (e : name_error)
| BadComponent (t : ComponentType) (e : name_error) | BadVersion (e : version_error) | BadComponents (n : nat).
Inductive error :=
| Sys (e : errno) | SourceError (s : Source) (e : error) | ManifestError (dir : path) (e : manifest_error)
| CollisionError (id : BundleID) (a_file b_file a_source b_source : string)
| NotCached (a : Address) | ShipsNone (id : BundleID) (t : ComponentType) (name : string) | NotFound (t : ComponentType) (name : string)
| BadAddress (e : name_error) | BadType | NoRootsProvider | NothingDeclared (id : BundleID)
| Escapes (subdir : string) | NotDirectory (subdir : string) | ReservedReceipt | ReceiptUnparsable | NoDeclaringFile | Outside (e : string).

Inductive Warning :=
| UnknownDir (dir : string) (suggestion : option string) | EmptyDir (t : ComponentType)
| BrokenReceipt (id : BundleID) (key : string) | Dropped (id : BundleID) (links : list path)
| SkippedDirs (dir : string) (n : nat) | SweepSkipped | CannotStat (name : string) | LeftInPlace (p : path) | Restored (p : path)
| RemovedStale (id : BundleID) (key : string) | Incomplete (id : BundleID) | MaintenanceSkipped
| Renamed (old new : BundleID) | NotRemoved (id : BundleID) | AutoUpdated (id : BundleID) (version : string) | AutoFailed (id : BundleID).

Record Bundle := mkBundle { B_ID : BundleID; B_Manifest : BundleManifest; B_Dir : path; B_Components : list Component; B_Warnings : list Warning }.

Definition ok_or {A} (r : result errno A) : result error A := match r with Ok a => Ok a | Err e => Err (Sys e) end.
Definition lift {A} (p : prog (result errno A)) : prog (result error A) := do r <- p; Ret (ok_or r).
(** [errors.Is] of a wrapped error. *)
Fixpoint is_not_exist (e : error) : bool := match e with Sys ENOENT => true | SourceError _ e => is_not_exist e | ManifestError _ (Unreadable ENOENT) => true | _ => false end.

(** ** Loading (bundle.go) *)

Definition MarkerDir : string := ".clawker-bundle".
Definition ManifestFile : string := "bundle.yaml".

Definition BundleComponent (b : Bundle) (t : ComponentType) (name : string) : option Component :=
  List.find (fun c => bool_decide (C_Type c = t) && String.eqb (A_Name (C_Address c)) name) (B_Components b).

Definition skipTopLevelEntry (e : string * kind) : bool :=
  match e.2 with KDir => String.eqb e.1 MarkerDir || HasPrefix e.1 "." | _ => true end.
Definition is_dir_entry (e : string * kind) : bool := match e.2 with KDir => true | _ => false end.

Definition component_le (a b : Component) : Prop :=
  type_number (C_Type a) < type_number (C_Type b) \/ type_number (C_Type a) = type_number (C_Type b) /\ String.le (A_Name (C_Address a)) (A_Name (C_Address b)).
#[export] Instance component_le_dec a b : Decision (component_le a b).
Proof. unfold component_le. apply _. Defined.

(** The directories of one convention directory; the first bad name is the error. *)
Fixpoint name_components (fs display : path) (id : BundleID) (t : ComponentType) (names : list string) : result manifest_error (list Component) :=
  match names with
  | [] => Ok []
  | n :: names' =>
      match ValidateName n with
      | Err e => Err (BadComponent t e)
      | Ok _ => let? cs := name_components fs display id t names' in
          Ok (mkComponent (mkAddr (Namespace id) (Name id) n) t (fs ++ [TypeDir t; n]) (display ++ [TypeDir t; n]) no_provenance :: cs)
      end
  end.

Definition enumerateComponentType (fs display : path) (id : BundleID) (t : ComponentType) : prog (result manifest_error (list Component * list Warning)) :=
  do r <- sys (ReadDir (fs ++ [TypeDir t]));
  match r with
  | Err ENOENT => Ret (Ok ([], []))
  | Err e => Ret (Err (Unreadable e))
  | Ok entries =>
      Ret (let? cs := name_components fs display id t (filter (fun e => is_dir_entry e = true) entries).*1 in
           match cs with [] => Ok ([], [EmptyDir t]) | _ => Ok (cs, []) end)
  end.

Fixpoint enumerate_dirs (fs display : path) (id : BundleID) (dirs : list string) : prog (result manifest_error (list Component * list Warning)) :=
  match dirs with
  | [] => Ret (Ok ([], []))
  | d :: dirs' =>
      match componentTypeForDir d with
      | None =>
          try (cs, ws) <- enumerate_dirs fs display id dirs';
          Ret (Ok (cs, UnknownDir d (suggestConventionDir d) :: ws))
      | Some t =>
          try (c1, w1) <- enumerateComponentType fs display id t;
          try (cs, ws) <- enumerate_dirs fs display id dirs';
          Ret (Ok (c1 ++ cs, w1 ++ ws))
      end
  end.

Definition enumerateComponents (fs display : path) (id : BundleID) : prog (result manifest_error (list Component * list Warning)) :=
  do r <- sys (ReadDir fs);
  match r with
  | Err e => Ret (Err (Unreadable e))
  | Ok entries =>
      try (cs, ws) <- enumerate_dirs fs display id (filter (fun e => skipTopLevelEntry e = false) entries).*1;
      Ret (Ok (merge_sort component_le cs, ws))
  end.

Section WithDeps.
Context `{Deps}.

Definition check_manifest (m : BundleManifest) : result manifest_error BundleManifest :=
  if String.eqb (m_Namespace m) "" then Err MissingNamespace
  else match ValidateNamespace (m_Namespace m) with
  | Err e => Err (BadNamespace e)
  | Ok _ =>
      if String.eqb (m_Name m) "" then Err MissingName
      else match ValidateName (m_Name m) with Err e => Err (BadName e) | Ok _ => Ok m end
  end.

Definition loadBundleManifest (fs : path) : prog (result manifest_error BundleManifest) :=
  do r <- sys (ReadFile (fs ++ [MarkerDir; ManifestFile]));
  match r with
  | Err e => Ret (Err (Unreadable e))
  | Ok raw => match parse_manifest raw with None => Ret (Err Unparsable) | Some m => Ret (check_manifest m) end
  end.

Definition LoadBundleDir (fs display : path) : prog (result error Bundle) :=
  do r <- loadBundleManifest fs;
  match r with
  | Err e => Ret (Err (ManifestError display e))
  | Ok m =>
      let id := mkID (m_Namespace m) (m_Name m) in
      do r <- enumerateComponents fs display id;
      match r with
      | Err e => Ret (Err (ManifestError display e))
      | Ok (cs, ws) => Ret (Ok (mkBundle id m display cs ws))
      end
  end.

(** ** Receipts (receipt.go) *)

Definition ReceiptFile : string := ".fetch.yaml".

(** [Ok None]: no receipt; an error: one that cannot be read. *)
Definition readReceipt (entryDir : path) : prog (result error (option fetchReceipt)) :=
  do r <- sys (ReadFile (entryDir ++ [ReceiptFile]));
  match r with
  | Err ENOENT => Ret (Ok None)
  | Err e => Ret (Err (Sys e))
  | Ok raw => match parse_receipt raw with None => Ret (Err ReceiptUnparsable) | Some x => Ret (Ok (Some x)) end
  end.
Definition writeReceipt (dir : path) (r : fetchReceipt) : prog (result error unit) := lift (sys (WriteFile (dir ++ [ReceiptFile]) (print_receipt r))).

(** ** The cache (installed.go) *)

Record InstalledEntry := mkEntry { E_ID : BundleID; E_Key : string; E_Root : path }.
#[export] Instance InstalledEntry_eq : EqDecision InstalledEntry.
Proof. solve_decision. Defined.

Definition visible (l : list (string * kind)) : list string := (filter (fun e => is_dir_entry e && negb (HasPrefix e.1 ".") = true) l).*1.

Fixpoint collect {A B} (f : A -> prog (result error (list B))) (l : list A) : prog (result error (list B)) :=
  match l with
  | [] => Ret (Ok [])
  | x :: l' => try a <- f x; try b <- collect f l'; Ret (Ok (a ++ b))
  end.

Definition scanBundleName (root : path) (ns name : string) : prog (result error (list InstalledEntry)) :=
  try l <- lift (sys (ReadDir (root ++ [ns; name])));
  Ret (Ok ((fun key => mkEntry (mkID ns name) key (root ++ [ns; name; key])) <$> visible l)).
Definition scanNamespace (root : path) (ns : string) : prog (result error (list InstalledEntry)) :=
  try l <- lift (sys (ReadDir (root ++ [ns])));
  collect (scanBundleName root ns) (visible l).

Definition entry_le (a b : InstalledEntry) : Prop :=
  if decide (ID_String (E_ID a) = ID_String (E_ID b)) then String.le (E_Key a) (E_Key b) else String.le (ID_String (E_ID a)) (ID_String (E_ID b)).
#[export] Instance entry_le_dec a b : Decision (entry_le a b).
Proof. unfold entry_le. destruct (decide _); apply _. Defined.

Definition scanInstalled (root : path) : prog (result error (list InstalledEntry)) :=
  do r <- sys (ReadDir root);
  match r with
  | Err ENOENT => Ret (Ok [])
  | Err e => Ret (Err (Sys e))
  | Ok l => try installed <- collect (scanNamespace root) (visible l); Ret (Ok (merge_sort entry_le installed))
  end.

Definition readable (r : result error (option fetchReceipt)) : option fetchReceipt := match r with Ok o => o | Err _ => None end.
(** The verdict of [fresherEntry] on two receipts. *)
Definition first_wins (ra rb : option fetchReceipt) (a b : InstalledEntry) : bool :=
  let by_name := bool_decide (String.le (ID_String (E_ID a)) (ID_String (E_ID b))) in
  match ra, rb with
  | Some _, None => true
  | None, Some _ => false
  | Some x, Some y => if r_FetchedAt y <? r_FetchedAt x then true else if r_FetchedAt x <? r_FetchedAt y then false else by_name
  | None, None => by_name
  end.
Definition fresherEntry (a b : InstalledEntry) : prog InstalledEntry :=
  do ra <- readReceipt (E_Root a);
  do rb <- readReceipt (E_Root b);
  Ret (if first_wins (readable ra) (readable rb) a b then a else b).

Fixpoint entriesByKey_go (byKey : gmap string InstalledEntry) (installed : list InstalledEntry) : prog (gmap string InstalledEntry) :=
  match installed with
  | [] => Ret byKey
  | e :: l =>
      match byKey !! E_Key e with
      | None => entriesByKey_go (<[E_Key e := e]> byKey) l
      | Some prev => do w <- fresherEntry prev e; entriesByKey_go (<[E_Key e := w]> byKey) l
      end
  end.
Definition entriesByKey (installed : list InstalledEntry) : prog (gmap string InstalledEntry) := entriesByKey_go ∅ installed.

(** ** Locks and staging (install.go) *)

Definition tmpDir : string := ".tmp".
Definition cloneStagePrefix : string := "clone-".
Definition contentStagePrefix : string := "content-".
Definition retireStagePrefix : string := "retire-".
Definition retiredName : string := "entry".
Definition retiredOriginFile : string := "origin".

Definition withBundleLock {A} (entryDir : path) (fn : prog (result error A)) : prog (result error A) :=
  try _ <- lift (sys (Lock entryDir)); fn.
Definition removeStaged (dir : path) : prog unit := do _ <- sys (RemoveAll dir); Ret tt.
(** A deferred call. *)
Definition deferring {A} (cleanup : prog unit) (body : prog A) : prog A := do a <- body; do _ <- cleanup; Ret a.

(** ** Copying the content *)

Definition escapesRoot (root resolved : path) : bool :=
  if bool_decide (resolved = root) then false else negb (bool_decide (root <> []) && bool_decide (root `prefix_of` resolved)).
(** [filepath.Join] of a directory and a link's target. *)
Definition lex_join (base : path) (target : string) : path := rev (foldl (clean_step true) (rev base) (Split "/" target)).

Definition copySymlink (src rel : path) (target : string) : option node :=
  if IsAbs target || escapesRoot src (lex_join (src ++ parent rel) target) then None else Some (Sym target).

(** The receipt's name at the root, and [.git] directories. *)
Definition not_copied (rel : path) (n : node) : bool :=
  bool_decide (rel = [ReceiptFile]) || (is_folder (Some n) && bool_decide (last rel = Some ".git")).

(** The copy, and the links that were left out. *)
Fixpoint copyTree (src rel : path) (n : node) : option node * list path :=
  match n with
  | Reg s => (Some (Reg s), [])
  | Sym t => match copySymlink src rel t with Some c => (Some c, []) | None => (None, [rel]) end
  | Folder k =>
      let kids := merge_sort key_le (map_fold (fun x c acc =>
        (x, if not_copied (rel ++ [x]) c then (None, []) else copyTree src (rel ++ [x]) c) :: acc) [] k) in
      (Some (Folder (list_to_map (omap (fun '(x, (c, _)) => pair x <$> c) kids))), concat ((fun '(_, (_, dropped)) => dropped) <$> kids))
  end.

Definition stagedLinkResolvesSafely (realStage : path) (r : result errno path) : bool :=
  match r with Ok q => negb (escapesRoot realStage q) | Err _ => false end.

Fixpoint sanitize_links (stage realStage : path) (links : list path) : prog (result error (list path)) :=
  match links with
  | [] => Ret (Ok [])
  | rel :: links' =>
      do r <- sys (EvalSymlinks (stage ++ rel));
      if stagedLinkResolvesSafely realStage r then sanitize_links stage realStage links'
      else
        try _ <- lift (sys (Remove (stage ++ rel)));
        try dropped <- sanitize_links stage realStage links';
        Ret (Ok (rel :: dropped))
  end.
Definition sanitizeStagedLinks (stage : path) : prog (result error (list path)) :=
  try realStage <- lift (sys (EvalSymlinks stage));
  try t <- lift (sys (ReadTree stage));
  sanitize_links stage realStage (links_of [] t).

Definition stageReceipt (stage : path) (s : Source) (sha version : string) : prog (result error unit) :=
  do r <- sys (Lstat (stage ++ [ReceiptFile]));
  match r with
  | Err ENOENT => do now <- sys Now; writeReceipt stage (mkReceipt (Canonical s) sha now version)
  | Err e => Ret (Err (Sys e))
  | Ok _ => Ret (Err ReservedReceipt)
  end.

Definition stagedVersion (stage display : path) (sha : string) : prog (result error string) :=
  try pre <- LoadBundleDir stage display;
  match resolveVersion (m_Version (B_Manifest pre)) sha with
  | Ok v => Ret (Ok v)
  | Err e => Ret (Err (ManifestError display (BadVersion e)))
  end.

Definition validateComponents (w : node) (b : Bundle) : nat := length (filter (fun c => component_ok w c = false) (B_Components b)).
Definition validateStaged (stage display : path) : prog (result error Bundle) :=
  try b <- LoadBundleDir stage display;
  try w <- lift (sys (ReadTree []));
  match validateComponents w b with
  | O => Ret (Ok b)
  | n => Ret (Err (ManifestError display (BadComponents n)))
  end.

(** A path as written in a configuration, relative to a directory. *)
Definition segments (p : string) : path := filter (fun e => e <> "" /\ e <> ".") (Split "/" (Clean p)).

Definition subdirRoot (cloneDir : path) (subdir : string) : prog (result error path) :=
  if String.eqb subdir "" then Ret (Ok cloneDir)
  else if negb (IsLocalPath subdir) then Ret (Err (Escapes subdir))
  else
    let root := cloneDir ++ segments subdir in
    try k <- lift (sys (Stat root));
    match k with
    | KDir =>
        try resolvedRoot <- lift (sys (EvalSymlinks root));
        try resolvedClone <- lift (sys (EvalSymlinks cloneDir));
        if negb (bool_decide (resolvedRoot = resolvedClone)) && escapesRoot resolvedClone resolvedRoot then Ret (Err (Escapes subdir))
        else Ret (Ok resolvedRoot)
    | _ => Ret (Err (NotDirectory subdir))
    end.

Definition stageClone (s : Source) (cloneDir : path) : prog (result error (path * string)) :=
  do r <- lift (sys (Clone (URL s) (Ref s) (SHA s) cloneDir));
  match r with
  | Err e => Ret (Err (SourceError s e))
  | Ok sha =>
      do r <- subdirRoot cloneDir (Path s);
      match r with Err e => Ret (Err (SourceError s e)) | Ok root => Ret (Ok (root, sha)) end
  end.

(** ** The swap *)

Definition retireEntry (stageBase entryDir : path) : prog (result error (option path)) :=
  do r <- sys (Lstat entryDir);
  match r with
  | Err ENOENT => Ret (Ok None)
  | Err e => Ret (Err (Sys e))
  | Ok _ =>
      try holding <- lift (sys (MkdirTemp stageBase retireStagePrefix));
      do r <- sys (WriteFile (holding ++ [retiredOriginFile]) (abs entryDir));
      match r with
      | Err e => do _ <- removeStaged holding; Ret (Err (Sys e))
      | Ok _ =>
          do r <- sys (Rename entryDir (holding ++ [retiredName]));
          match r with
          | Err e => do _ <- removeStaged holding; Ret (Err (Sys e))
          | Ok _ => Ret (Ok (Some (holding ++ [retiredName])))
          end
      end
  end.

Definition restoreEntry (retired : option path) (entryDir : path) : prog unit :=
  match retired with
  | None => Ret tt
  | Some retired =>
      do r <- sys (Rename retired entryDir);
      match r with
      | Ok _ => removeStaged (parent retired)
      | Err _ =>
          do r <- sys (MkdirAll (parent entryDir));
          match r with
          | Err _ => Ret tt
          | Ok _ =>
              do r <- sys (Rename retired entryDir);
              match r with Err _ => Ret tt | Ok _ => removeStaged (parent retired) end
          end
      end
  end.

Definition commitContent (stageBase contentStage entryDir : path) : prog (result error unit) :=
  try retired <- retireEntry stageBase entryDir;
  do r <- sys (Rename contentStage entryDir);
  match r with
  | Err e => do _ <- restoreEntry retired entryDir; Ret (Err (Sys e))
  | Ok _ =>
      do _ <- match retired with None => Ret tt | Some p => removeStaged (parent p) end;
      Ret (Ok tt)
  end.

Definition commitAttempt (stageBase contentStage entryDir : path) : prog (result error unit) :=
  try _ <- lift (sys (MkdirAll (parent entryDir)));
  withBundleLock entryDir (commitContent stageBase contentStage entryDir).
Definition commit (stageBase contentStage entryDir : path) : prog (result error unit) :=
  do r <- commitAttempt stageBase contentStage entryDir;
  match r with
  | Err e => if is_not_exist e then commitAttempt stageBase contentStage entryDir else Ret (Err e)
  | Ok _ => Ret (Ok tt)
  end.

Definition droppedWarnings (id : BundleID) (dropped : list path) : list Warning := match dropped with [] => [] | _ => [Dropped id dropped] end.

(** ** Fetching *)

Definition entry_slot (root : path) (id : BundleID) (key : string) : path := root ++ [Namespace id; Name id; key].

(** The staged tree as it will be published, its version, and the links left out. *)
Definition stage_content (contentStage bundleRoot : path) (s : Source) (sha : string) : prog (result error (Bundle * string * list path)) :=
  try t <- lift (sys (ReadTree bundleRoot));
  let '(copied, dropped) := copyTree bundleRoot [] t in
  try _ <- lift (sys (WriteTree contentStage (default (Folder ∅) copied)));
  try unsafe <- sanitizeStagedLinks contentStage;
  try version <- stagedVersion contentStage bundleRoot sha;
  try _ <- stageReceipt contentStage s sha version;
  try b <- validateStaged contentStage bundleRoot;
  Ret (Ok (b, version, dropped ++ unsafe)).

Definition stage_and_commit (root stageBase contentStage bundleRoot : path) (s : Source) (sha : string) : prog (result error (BundleID * string * list Warning)) :=
  try x <- stage_content contentStage bundleRoot s sha;
  let '(b, version, dropped) := x in
  try _ <- commit stageBase contentStage (entry_slot root (B_ID b) (Key digest s));
  Ret (Ok (B_ID b, version, droppedWarnings (B_ID b) dropped)).

Definition fetchIntoCache (root : path) (s : Source) : prog (result error (BundleID * string * list Warning)) :=
  try _ <- lift (sys (MkdirAll root));
  let stageBase := root ++ [tmpDir] in
  try _ <- lift (sys (MkdirAll stageBase));
  try cloneDir <- lift (sys (MkdirTemp stageBase cloneStagePrefix));
  deferring (removeStaged cloneDir) (
    try (bundleRoot, sha) <- stageClone s cloneDir;
    try contentStage <- lift (sys (MkdirTemp stageBase contentStagePrefix));
    deferring (removeStaged contentStage) (stage_and_commit root stageBase contentStage bundleRoot s sha)).

(** ** Garbage collection (gc.go) *)

Record rootedSource := mkRooted { rs_src : Source; rs_files : list string }.

(** The declarations of the loaded configuration, what the registry of projects
    answers, if there is one, and the declarations found under a project root with
    the directories that could not be read. *)
Record Manager := mkManager {
  decls : list BundleDeclaration;
  registeredRoots : option (result string (list string));
  declarationsAt : string -> result string (list BundleDeclaration * list string);
  cache : path;
}.

Definition add_root (roots : gmap string rootedSource) (d : BundleDeclaration) : gmap string rootedSource :=
  let src := SourceFromConfig (d_Source d) in
  if IsLocal src then roots
  else
    let key := Key digest src in
    let r := default (mkRooted src []) (roots !! key) in
    <[key := mkRooted (rs_src r) (if bool_decide (d_File d ∈ rs_files r) then rs_files r else rs_files r ++ [d_File d])]> roots.
Definition addRootDecls (roots : gmap string rootedSource) (ds : list BundleDeclaration) : gmap string rootedSource := foldl add_root roots ds.

Fixpoint add_project_roots (m : Manager) (roots : gmap string rootedSource) (dirs : list string) : result error (gmap string rootedSource * list Warning) :=
  match dirs with
  | [] => Ok (roots, [])
  | dir :: dirs' =>
      match declarationsAt m dir with
      | Err e => Err (Outside e)
      | Ok (ds, skipped) =>
          let? r := add_project_roots m (addRootDecls roots ds) dirs' in
          Ok (r.1, match skipped with [] => r.2 | _ => SkippedDirs dir (length skipped) :: r.2 end)
      end
  end.
Definition collectRoots (m : Manager) : result error (gmap string rootedSource * list Warning) :=
  match registeredRoots m with
  | None => Err NoRootsProvider
  | Some (Err e) => Err (Outside e)
  | Some (Ok dirs) => add_project_roots m (addRootDecls ∅ (decls m)) dirs
  end.

Record PruneDrop := mkDrop { pd_ID : BundleID; pd_Key : string; pd_Source : string }.

Definition removeSupersededEntry (e : InstalledEntry) : prog (result error unit) :=
  withBundleLock (E_Root e) (lift (sys (RemoveAll (E_Root e)))).
Definition removeEntry (e : InstalledEntry) : prog (result error unit) :=
  try _ <- withBundleLock (E_Root e) (lift (sys (RemoveAll (E_Root e))));
  do _ <- sys (Remove (lock_path (E_Root e)));
  Ret (Ok tt).
Definition cleanEmptyIdentityDirs (root : path) (id : BundleID) : prog unit :=
  do r <- sys (Remove (root ++ [Namespace id; Name id]));
  match r with Err _ => Ret tt | Ok _ => do _ <- sys (Remove (root ++ [Namespace id])); Ret tt end.

(** [None]: the entry was left in place. *)
Definition collectEntry (root : path) (e : InstalledEntry) (superseded : bool) : prog (list Warning * result error (option PruneDrop)) :=
  do r <- readReceipt (E_Root e);
  match r with
  | Ok None => Ret ([], Ok None)
  | _ =>
      let broken := match r with Err _ => true | _ => false end in
      let ws := if broken then [BrokenReceipt (E_ID e) (E_Key e)] else [] in
      if broken && superseded then Ret (ws, Ok None)
      else
        do rm <- (if superseded then removeSupersededEntry e
                  else try _ <- removeEntry e; do _ <- cleanEmptyIdentityDirs root (E_ID e); Ret (Ok tt));
        match rm with
        | Err x => Ret (ws, Err x)
        | Ok _ => Ret (ws, Ok (Some (mkDrop (E_ID e) (E_Key e) (default "" (r_Canonical <$> readable r)))))
        end
  end.

Definition superseded_by (roots : gmap string rootedSource) (winners : gmap string InstalledEntry) (e : InstalledEntry) : bool :=
  bool_decide (is_Some (roots !! E_Key e)) && negb (bool_decide (winners !! E_Key e = Some e)).
Definition condemned (roots : gmap string rootedSource) (winners : gmap string InstalledEntry) (e : InstalledEntry) : bool :=
  negb (bool_decide (is_Some (roots !! E_Key e))) || superseded_by roots winners e.

Record gcResult := mkGC { gc_drops : list PruneDrop; gc_kept : list InstalledEntry; gc_warnings : list Warning; gc_error : option error }.
Fixpoint gcEntries (root : path) (roots : gmap string rootedSource) (winners : gmap string InstalledEntry) (entries : list InstalledEntry) : prog gcResult :=
  match entries with
  | [] => Ret (mkGC [] [] [] None)
  | e :: l =>
      if negb (condemned roots winners e) then
        do g <- gcEntries root roots winners l; Ret (mkGC (gc_drops g) (e :: gc_kept g) (gc_warnings g) (gc_error g))
      else
        do p <- collectEntry root e (superseded_by roots winners e);
        let '(ws, r) := p in
        match r with
        | Err x => Ret (mkGC [] [] ws (Some x))
        | Ok None => do g <- gcEntries root roots winners l; Ret (mkGC (gc_drops g) (e :: gc_kept g) (ws ++ gc_warnings g) (gc_error g))
        | Ok (Some d) => do g <- gcEntries root roots winners l; Ret (mkGC (d :: gc_drops g) (gc_kept g) (ws ++ gc_warnings g) (gc_error g))
        end
  end.

(** *** Reclaiming staging trees *)

Definition entrySlotSegments : nat := 3.
Definition entrySlotPath (root : path) (recorded : string) : option path :=
  if negb (IsAbs recorded) then None
  else match Rel (abs root) recorded with
  | None => None
  | Some rel =>
      match Split "/" rel with
      | [a; b; c] => if existsb (fun s => String.eqb s "" || HasPrefix s ".") [a; b; c] then None else Some (root ++ [a; b; c])
      | _ => None
      end
  end.

Definition restoreRetired (retired origin : path) : prog (result error bool) :=
  try _ <- lift (sys (MkdirAll (parent origin)));
  withBundleLock origin (
    do r <- sys (Lstat origin);
    match r with
    | Ok _ => Ret (Ok false)
    | Err ENOENT => try _ <- lift (sys (Rename retired origin)); Ret (Ok true)
    | Err e => Ret (Err (Sys e))
    end).

Definition sweepRetired (root holding : path) : prog (list Warning) :=
  let retired := holding ++ [retiredName] in
  do r <- sys (Lstat retired);
  match r with
  | Err ENOENT => do _ <- removeStaged holding; Ret []
  | Err _ => Ret [LeftInPlace holding]
  | Ok _ =>
      do r <- sys (ReadFile (holding ++ [retiredOriginFile]));
      match r with
      | Err _ => Ret [LeftInPlace holding]
      | Ok raw =>
          match entrySlotPath root (TrimSpace raw) with
          | None => Ret [LeftInPlace holding]
          | Some origin =>
              do r <- restoreRetired retired origin;
              match r with
              | Err _ => Ret [LeftInPlace holding]
              | Ok restored => do _ <- removeStaged holding; Ret (if restored then [Restored origin] else [])
              end
          end
      end
  end.

Fixpoint sweep_each (root stageBase : path) (staged : list (string * kind)) : prog (list Warning) :=
  match staged with
  | [] => Ret []
  | (name, k) :: l =>
      match k with
      | KDir =>
          do r <- sys (Young (stageBase ++ [name]));
          match r with
          | Err _ => do ws <- sweep_each root stageBase l; Ret (CannotStat name :: ws)
          | Ok true => sweep_each root stageBase l
          | Ok false =>
              do w1 <- (if HasPrefix name retireStagePrefix then sweepRetired root (stageBase ++ [name])
                        else if HasPrefix name cloneStagePrefix || HasPrefix name contentStagePrefix then do _ <- removeStaged (stageBase ++ [name]); Ret []
                        else Ret []);
              do ws <- sweep_each root stageBase l; Ret (w1 ++ ws)
          end
      | _ => sweep_each root stageBase l
      end
  end.
Definition sweepStaging (root : path) : prog (list Warning) :=
  let stageBase := root ++ [tmpDir] in
  do r <- sys (ReadDir stageBase);
  match r with
  | Err ENOENT => Ret []
  | Err _ => Ret [SweepSkipped]
  | Ok staged => sweep_each root stageBase staged
  end.

(** *** Identities rooted from several repositories *)

Definition add_repo (roots : gmap string rootedSource) (acc : gmap BundleID (gmap string (list string))) (e : InstalledEntry) : gmap BundleID (gmap string (list string)) :=
  match roots !! E_Key e with
  | None => acc
  | Some r =>
      let repos := default ∅ (acc !! E_ID e) in
      let repo := repository (rs_src r) in
      let files := foldl (fun fs f => if bool_decide (f ∈ fs) then fs else fs ++ [f]) (default [] (repos !! repo)) (rs_files r) in
      <[E_ID e := match files with [] => repos | _ => <[repo := files]> repos end]> acc
  end.
Definition repoFilesByIdentity (entries : list InstalledEntry) (roots : gmap string rootedSource) : gmap BundleID (gmap string (list string)) :=
  foldl (add_repo roots) ∅ entries.
Definition multiSourceThreshold : nat := 2.
Definition id_le {A} (a b : BundleID * A) : Prop := String.le (ID_String a.1) (ID_String b.1).
#[export] Instance id_le_dec {A} (a b : BundleID * A) : Decision (id_le a b).
Proof. unfold id_le. apply _. Defined.
Definition multiSourceIdentities (entries : list InstalledEntry) (roots : gmap string rootedSource) : list (BundleID * list (string * list string)) :=
  merge_sort id_le (prod_map id (fun repos => merge_sort key_le (prod_map id (merge_sort String.le) <$> map_to_list repos)) <$>
    filter (fun p => (multiSourceThreshold <= size p.2)%nat) (map_to_list (repoFilesByIdentity entries roots))).

(** *** The sweeps *)

Record PruneReport := mkReport { pr_Drops : list PruneDrop; pr_MultiSource : list (BundleID * list (string * list string)); pr_Warnings : list Warning }.
Definition Prune (m : Manager) : prog (PruneReport * option error) :=
  match collectRoots m with
  | Err e => Ret (mkReport [] [] [], Some e)
  | Ok (roots, w0) =>
      do r <- lift (sys (MkdirAll (cache m)));
      match r with
      | Err e => Ret (mkReport [] [] [], Some e)
      | Ok _ =>
          do w1 <- sweepStaging (cache m);
          do r <- scanInstalled (cache m);
          match r with
          | Err e => Ret (mkReport [] [] (w0 ++ w1), Some e)
          | Ok entries =>
              do winners <- entriesByKey entries;
              do g <- gcEntries (cache m) roots winners entries;
              match gc_error g with
              | Some e => Ret (mkReport (gc_drops g) [] (w0 ++ w1 ++ gc_warnings g), Some e)
              | None => Ret (mkReport (gc_drops g) (multiSourceIdentities (gc_kept g) roots) (w0 ++ w1 ++ gc_warnings g), None)
              end
          end
      end
  end.

Definition identityScopedEntries (all : list InstalledEntry) (id : BundleID) : list InstalledEntry :=
  let keys := (filter (fun e => E_ID e = id) all) in
  filter (fun e => E_ID e = id \/ E_Key e ∈ (E_Key <$> keys)) all.
Definition dedupIDs (ids : list BundleID) : list BundleID :=
  foldl (fun out id => if bool_decide (id ∈ out) then out else out ++ [id]) [] ids.

Fixpoint gc_identities (m : Manager) (roots : gmap string rootedSource) (winners : gmap string InstalledEntry) (all : list InstalledEntry) (ids : list BundleID) : prog (list Warning) :=
  match ids with
  | [] => Ret []
  | id :: ids' =>
      do g <- gcEntries (cache m) roots winners (identityScopedEntries all id);
      do ws <- gc_identities m roots winners all ids';
      Ret (gc_warnings g ++ ((fun d => RemovedStale (pd_ID d) (pd_Key d)) <$> gc_drops g) ++ (match gc_error g with Some _ => [Incomplete id] | None => [] end) ++ ws)
  end.
Definition AutoGC (m : Manager) (ids : list BundleID) : prog (list Warning) :=
  match registeredRoots m, ids with
  | None, _ | _, [] => Ret []
  | _, _ =>
      match collectRoots m with
      | Err _ => Ret [MaintenanceSkipped]
      | Ok (roots, w0) =>
          do r <- lift (sys (MkdirAll (cache m)));
          match r with
          | Err _ => Ret [MaintenanceSkipped]
          | Ok _ =>
              do r <- scanInstalled (cache m);
              match r with
              | Err _ => Ret [MaintenanceSkipped]
              | Ok all =>
                  do winners <- entriesByKey all;
                  do ws <- gc_identities m roots winners all (dedupIDs ids);
                  Ret (w0 ++ ws)
              end
          end
      end
  end.

(** An identity that was never cached has no entries. *)
Definition identityEntries (root : path) (id : BundleID) : prog (result error (list InstalledEntry)) :=
  do r <- sys (Stat (root ++ [Namespace id; Name id]));
  match r with
  | Err ENOENT => Ret (Ok [])
  | Err e => Ret (Err (Sys e))
  | Ok _ => scanBundleName root (Namespace id) (Name id)
  end.

(** ** The manager's own operations (manager.go) *)

Record Report := mkValidation { v_LoadErr : option error; v_Warnings : list Warning; v_ComponentErrs : nat }.
Definition Report_OK (r : Report) (strict : bool) : bool :=
  match v_LoadErr r with
  | Some _ => false
  | None => if (0 <? v_ComponentErrs r)%nat then false else negb strict || match v_Warnings r with [] => true | _ => false end
  end.
Definition Validate (dir : path) : prog (result error Report) :=
  do r <- LoadBundleDir dir dir;
  match r with
  | Err e => Ret (Ok (mkValidation (Some e) [] 0))
  | Ok b => try w <- lift (sys (ReadTree [])); Ret (Ok (mkValidation None (B_Warnings b) (validateComponents w b)))
  end.

Fixpoint remove_entries (entries : list InstalledEntry) : prog (result error unit) :=
  match entries with
  | [] => Ret (Ok tt)
  | e :: l => try _ <- withBundleLock (E_Root e) (lift (sys (RemoveAll (E_Root e)))); remove_entries l
  end.
Definition RemoveBundle (m : Manager) (id : BundleID) : prog (result error bool) :=
  try _ <- lift (sys (MkdirAll (cache m)));
  try entries <- identityEntries (cache m) id;
  match entries with
  | [] => Ret (Ok false)
  | _ => try _ <- remove_entries entries; Ret (Ok true)
  end.

Definition Install (m : Manager) (src : BundleSource) : prog (result error (BundleID * list Warning)) :=
  let s := SourceFromConfig src in
  if IsLocal s then Ret (Ok (zero_id, []))
  else try x <- fetchIntoCache (cache m) s; Ret (Ok (x.1.1, x.2)).

Definition cachedKeys (root : path) : prog (result error (gset string)) :=
  try _ <- lift (sys (MkdirAll root));
  try installed <- scanInstalled root;
  Ret (Ok (list_to_set (E_Key <$> installed))).

(** The identities installed and the warnings are reported also when a fetch fails. *)
Fixpoint install_each (root : path) (cached : gset string) (ds : list BundleDeclaration) : prog (list BundleID * list Warning * option error) :=
  match ds with
  | [] => Ret ([], [], None)
  | d :: ds' =>
      let src := SourceFromConfig (d_Source d) in
      if IsLocal src || bool_decide (Key digest src ∈ cached) then install_each root cached ds'
      else
        do r <- fetchIntoCache root src;
        match r with
        | Err e => Ret ([], [], Some e)
        | Ok (id, _, ws) => do rest <- install_each root cached ds'; Ret (id :: rest.1.1, ws ++ rest.1.2, rest.2)
        end
  end.
Definition InstallDeclared (m : Manager) : prog (list BundleID * list Warning * option error) :=
  do r <- cachedKeys (cache m);
  match r with Err e => Ret ([], [], Some e) | Ok cached => install_each (cache m) cached (decls m) end.

End WithDeps.

End Bundle.
