(* ===== verification/BundleResolver.v ===== *)
(** * Resolving components

    internal/bundle: which component a name stands for, among the user's and the
    project's loose directories (loose.go), the components shipped in the binary
    (floor.go) and the declared bundles (resolver.go); what is listed (resolver.go,
    inventory.go, status.go); and the refetching of declared sources (update.go).

    The shipped tree, the directory of the user's configuration and the project's root
    are inputs ([Setup]). *)

From S2P Require Import Prelude GoStrings GoPath BundleNames BundleFS Bundle.
Import Go GoPath BundleNames BundleFS Bundle.
Open Scope prog_scope.

Module BundleResolver.

Record Setup := mkSetup { manager : Manager; configDir : path; projectRoot : option path; floorFS : node }.

Record ResolvedBundle := mkResolved { rb_Bundle : Bundle; rb_Tier : Tier; rb_Source : string; rb_File : string; rb_Version : string }.
Definition bundle_set : Type := gmap BundleID ResolvedBundle * list Warning.
(** A resolver remembers the outcome of its only scan. *)
Definition Resolver : Type := option (result error bundle_set).
Definition NewResolver : Resolver := None.

(** ** Loose directories and the floor (loose.go, floor.go) *)

Definition DotClawkerDir : string := ".clawker".
Definition userBase (s : Setup) : option path := Some (configDir s).
Definition projectBase (s : Setup) : option path := (fun root => root ++ [DotClawkerDir]) <$> projectRoot s.

Definition looseComponentDir (base : path) (t : ComponentType) (name : string) : path := base ++ [TypeDir t; name].
Definition bare_component (tier : Tier) (dir : path) (t : ComponentType) (name : string) : Component :=
  mkComponent (BareAddress name) t dir dir (mkProv tier dir zero_id []).
Definition looseComponent (tier : Tier) (base : option path) (t : ComponentType) (name : string) : prog (option Component) :=
  match base with
  | None => Ret None
  | Some base =>
      let dir := looseComponentDir base t name in
      do r <- sys (Stat dir);
      match r with Ok KDir => Ret (Some (bare_component tier dir t name)) | _ => Ret None end
  end.
Definition sort_names (l : list string) : list string := merge_sort String.le l.
Definition looseNames (base : option path) (t : ComponentType) : prog (list string) :=
  match base with
  | None => Ret []
  | Some base =>
      do r <- sys (ReadDir (base ++ [TypeDir t]));
      match r with Err _ => Ret [] | Ok l => Ret (sort_names (filter (fun e => is_dir_entry e = true) l).*1) end
  end.

Definition floorAssetsRoot : string := "assets".
Definition floor_dir (t : ComponentType) (name : string) : path := [floorAssetsRoot; TypeDir t; name].
Definition FloorNames (s : Setup) (t : ComponentType) : list string :=
  match list_dir (get [floorAssetsRoot; TypeDir t] (floorFS s)) with Err _ => [] | Ok l => sort_names (filter (fun e => is_dir_entry e = true) l).*1 end.
Definition floorComponent (s : Setup) (t : ComponentType) (name : string) : option Component :=
  match get (floor_dir t name) (floorFS s) with
  | None => None
  | Some _ => Some (bare_component TierFloor (floor_dir t name) t name)
  end.

(** ** The declared bundles (resolver.go) *)

Section WithDeps.
Context `{Deps}.

Record remoteDecl := mkRemote { rd_src : Source; rd_file : string }.
Fixpoint remote_go (seen : gset string) (ds : list BundleDeclaration) : list remoteDecl :=
  match ds with
  | [] => []
  | d :: ds' =>
      let src := SourceFromConfig (d_Source d) in
      if IsLocal src || bool_decide (Canonical src ∈ seen) then remote_go seen ds'
      else mkRemote src (d_File d) :: remote_go ({[Canonical src]} ∪ seen) ds'
  end.
Definition remoteDeclarations (m : Manager) : list remoteDecl := remote_go ∅ (decls m).

Definition resolveLocalPath (src : Source) (declFile : string) : result error path :=
  if IsAbs (Path src) then Ok (segments (Path src))
  else if String.eqb declFile "" then Err (SourceError src NoDeclaringFile)
  else Ok (segments (FileJoin [GoPath.Dir declFile; Path src])).

(** The sources that claimed an identity, with the declaring file, are those of the
    bundles found so far. *)
Fixpoint claimInPlaceBundles (out : bundle_set) (ds : list BundleDeclaration) : prog (result error bundle_set) :=
  match ds with
  | [] => Ret (Ok out)
  | d :: ds' =>
      let src := SourceFromConfig (d_Source d) in
      if negb (IsLocal src) then claimInPlaceBundles out ds'
      else match resolveLocalPath src (d_File d) with
      | Err e => Ret (Err e)
      | Ok dir =>
          let canonical := "path:" +:+ abs dir in
          try b <- LoadBundleDir dir dir;
          match out.1 !! B_ID b with
          | Some prev =>
              if String.eqb (rb_Source prev) canonical then claimInPlaceBundles out ds'
              else Ret (Err (CollisionError (B_ID b) (rb_File prev) (d_File d) (rb_Source prev) canonical))
          | None => claimInPlaceBundles (<[B_ID b := mkResolved b TierInPlace canonical (d_File d) ""]> out.1, out.2 ++ B_Warnings b) ds'
          end
      end
  end.

Fixpoint merge_each (byKey : gmap string InstalledEntry) (out : bundle_set) (ds : list remoteDecl) : prog (result error bundle_set) :=
  match ds with
  | [] => Ret (Ok out)
  | d :: ds' =>
      match byKey !! Key digest (rd_src d) with
      | None => merge_each byKey out ds'
      | Some entry =>
          try b <- LoadBundleDir (E_Root entry) (E_Root entry);
          let canonical := Canonical (rd_src d) in
          match out.1 !! B_ID b with
          | Some prev => Ret (Err (CollisionError (B_ID b) (rb_File prev) (rd_file d) (rb_Source prev) canonical))
          | None =>
              do r <- readReceipt (E_Root entry);
              let version := default "" (r_Version <$> readable r) in
              let ws := match r with Err _ => [BrokenReceipt (B_ID b) (E_Key entry)] | _ => [] end in
              merge_each byKey (<[B_ID b := mkResolved b TierInstalled canonical (rd_file d) version]> out.1, out.2 ++ ws ++ B_Warnings b) ds'
          end
      end
  end.
Definition mergeCachedBundles (root : path) (out : bundle_set) (ds : list remoteDecl) : prog (result error bundle_set) :=
  try _ <- lift (sys (MkdirAll root));
  try installed <- scanInstalled root;
  do byKey <- entriesByKey installed;
  merge_each byKey out ds.

Definition scanBundles (m : Manager) : prog (result error bundle_set) :=
  try out <- claimInPlaceBundles (∅, []) (decls m);
  mergeCachedBundles (cache m) out (remoteDeclarations m).

Definition Bundles (m : Manager) (r : Resolver) : prog (Resolver * result error bundle_set) :=
  match r with
  | Some res => Ret (r, res)
  | None => do res <- scanBundles m; Ret (Some res, res)
  end.

(** ** Resolution *)

Definition resolveBare (s : Setup) (t : ComponentType) (name : string) : prog (result error Component) :=
  do u <- looseComponent TierLooseUser (userBase s) t name;
  match u with
  | Some c => Ret (Ok c)
  | None =>
      do p <- looseComponent TierLooseProject (projectBase s) t name;
      match p with
      | Some c => Ret (Ok c)
      | None => Ret (match floorComponent s t name with Some c => Ok c | None => Err (NotFound t name) end)
      end
  end.

Definition with_provenance (c : Component) (p : Provenance) : Component := mkComponent (C_Address c) (C_Type c) (C_FS c) (C_Dir c) p.

Definition resolveQualified (s : Setup) (r : Resolver) (t : ComponentType) (addr : Address) : prog (Resolver * result error Component) :=
  do x <- Bundles (manager s) r;
  let id := Address_ID addr in
  Ret (x.1,
    match x.2 with
    | Err e => Err e
    | Ok bundles =>
        match bundles.1 !! id with
        | None => Err (NotCached addr)
        | Some rb =>
            match BundleComponent (rb_Bundle rb) t (A_Name addr) with
            | None => Err (ShipsNone id t (A_Name addr))
            | Some c => Ok (with_provenance c (mkProv (rb_Tier rb) (C_Dir c) id []))
            end
        end
    end).

Definition Resolve (s : Setup) (r : Resolver) (t : ComponentType) (name : string) : prog (Resolver * result error Component) :=
  if negb (Valid t) then Ret (r, Err BadType)
  else match ParseAddress name with
  | Err e => Ret (r, Err (BadAddress e))
  | Ok addr => if Qualified addr then resolveQualified s r t addr else do c <- resolveBare s t (A_Name addr); Ret (r, c)
  end.

(** ** Listing *)

Fixpoint candidates_of (f : string -> prog (option Component)) (names : list string) : prog (list Component) :=
  match names with
  | [] => Ret []
  | n :: l => do o <- f n; do cs <- candidates_of f l; Ret (match o with Some c => c :: cs | None => cs end)
  end.
(** All resolutions, in precedence order. *)
Definition bareCandidates (s : Setup) (t : ComponentType) : prog (list Component) :=
  do un <- looseNames (userBase s) t;
  do us <- candidates_of (looseComponent TierLooseUser (userBase s) t) un;
  do pn <- looseNames (projectBase s) t;
  do ps <- candidates_of (looseComponent TierLooseProject (projectBase s) t) pn;
  Ret (us ++ ps ++ omap (floorComponent s t) (FloorNames s t)).
Definition bare_name (c : Component) : string := A_Name (C_Address c).
Definition first_seen (l : list string) : list string := foldl (fun acc n => if bool_decide (n ∈ acc) then acc else acc ++ [n]) [] l.
Definition merge_candidates (cs : list Component) (name : string) : option Component :=
  match filter (fun c => bare_name c = name) cs with
  | [] => None
  | w :: shadowed =>
      let p := C_Provenance w in
      Some (with_provenance w (mkProv (P_Tier p) (P_Dir p) (P_Bundle p) (Shadows p ++ (C_Provenance <$> shadowed))))
  end.
Definition listBare (s : Setup) (t : ComponentType) : prog (list Component) :=
  do cs <- bareCandidates s t;
  Ret (omap (merge_candidates cs) (sort_names (first_seen (bare_name <$> cs)))).

Definition address_le (a b : Component) : Prop := String.le (Address_String (C_Address a)) (Address_String (C_Address b)).
#[export] Instance address_le_dec a b : Decision (address_le a b).
Proof. unfold address_le. apply _. Defined.
Definition listQualified (t : ComponentType) (bundles : gmap BundleID ResolvedBundle) : list Component :=
  merge_sort address_le (map_to_list bundles ≫= fun '(id, rb) =>
    (fun c => with_provenance c (mkProv (rb_Tier rb) (C_Dir c) id [])) <$> filter (fun c => C_Type c = t) (B_Components (rb_Bundle rb))).

Definition ListComponents (s : Setup) (r : Resolver) (t : ComponentType) : prog (Resolver * result error (list Component * list Warning)) :=
  if negb (Valid t) then Ret (r, Err BadType)
  else
    do cs <- listBare s t;
    do x <- Bundles (manager s) r;
    Ret (x.1, match x.2 with Err e => Err e | Ok bundles => Ok (cs ++ listQualified t bundles.1, bundles.2) end).

Record InventoryItem := mkItem { i_Name : string; i_Version : string; i_Bundle : BundleID; i_Provenance : Provenance }.
Definition owningBundleVersion (c : Component) (bundles : gmap BundleID ResolvedBundle) : string :=
  if negb (Qualified (C_Address c)) then ""
  else match bundles !! P_Bundle (C_Provenance c) with
  | None => ""
  | Some rb => if String.eqb (m_Version (B_Manifest (rb_Bundle rb))) "" then rb_Version rb else m_Version (B_Manifest (rb_Bundle rb))
  end.
Definition Inventory (s : Setup) (r : Resolver) (t : ComponentType) : prog (Resolver * result error (list InventoryItem * list Warning)) :=
  do x <- ListComponents s r t;
  match x.2 with
  | Err e => Ret (x.1, Err e)
  | Ok (cs, ws) =>
      do y <- Bundles (manager s) x.1;
      Ret (y.1, match y.2 with
        | Err e => Err e
        | Ok bundles => Ok ((fun c => mkItem (Address_String (C_Address c)) (owningBundleVersion c bundles.1) (P_Bundle (C_Provenance c)) (C_Provenance c)) <$> cs, ws)
        end)
  end.

(** ** Declarations and cache side by side (status.go) *)

Inductive StatusState := StatusResolving | StatusNotInstalled | StatusUndeclared | StatusUnmanaged.
Record Status := mkStatus { st_ID : BundleID; st_Source : string; st_File : string; st_Tier : Tier; st_Version : string; st_State : StatusState }.

Definition resolvingStatuses (bundles : gmap BundleID ResolvedBundle) : list Status :=
  (fun '(id, rb) => mkStatus id (rb_Source rb) (rb_File rb) (rb_Tier rb)
    (if String.eqb (rb_Version rb) "" then m_Version (B_Manifest (rb_Bundle rb)) else rb_Version rb) StatusResolving) <$> map_to_list bundles.
Fixpoint unresolvableCacheStatuses (installed : list InstalledEntry) (declared : gset string) : prog (list Status * list Warning) :=
  match installed with
  | [] => Ret ([], [])
  | e :: l =>
      if bool_decide (E_Key e ∈ declared) then unresolvableCacheStatuses l declared
      else
        do r <- readReceipt (E_Root e);
        do rest <- unresolvableCacheStatuses l declared;
        let ws := match r with Err _ => [BrokenReceipt (E_ID e) (E_Key e)] | _ => [] end in
        let row := match readable r with
          | None => mkStatus (E_ID e) "" "" TierInstalled "" StatusUnmanaged
          | Some x => mkStatus (E_ID e) (r_Canonical x) "" TierInstalled (r_Version x) StatusUndeclared
          end in
        Ret (row :: rest.1, ws ++ rest.2)
  end.
Definition uninstalledSourceStatuses (remote : list remoteDecl) (cached : gset string) : list Status :=
  (fun d => mkStatus zero_id (Canonical (rd_src d)) (rd_file d) TierInstalled "" StatusNotInstalled) <$> filter (fun d => Key digest (rd_src d) ∉ cached) remote.
Definition status_le (a b : Status) : Prop :=
  if decide (ID_String (st_ID a) = ID_String (st_ID b)) then String.le (st_Source a) (st_Source b) else String.le (ID_String (st_ID a)) (ID_String (st_ID b)).
#[export] Instance status_le_dec a b : Decision (status_le a b).
Proof. unfold status_le. destruct (decide _); apply _. Defined.

Definition Statuses (s : Setup) (r : Resolver) : prog (Resolver * result error (list Status * list Warning)) :=
  do x <- Bundles (manager s) r;
  match x.2 with
  | Err e => Ret (x.1, Err e)
  | Ok bundles =>
      let root := cache (manager s) in
      do y <- lift (sys (MkdirAll root));
      match y with
      | Err e => Ret (x.1, Err e)
      | Ok _ =>
          do y <- scanInstalled root;
          match y with
          | Err e => Ret (x.1, Err e)
          | Ok installed =>
              let remote := remoteDeclarations (manager s) in
              do u <- unresolvableCacheStatuses installed (list_to_set ((fun d => Key digest (rd_src d)) <$> remote));
              Ret (x.1, Ok (merge_sort status_le (u.1 ++ resolvingStatuses bundles.1 ++ uninstalledSourceStatuses remote (list_to_set (E_Key <$> installed))), u.2))
          end
      end
  end.

(** ** Updates (update.go) *)

Inductive UpdateOutcome := UpdateSkippedPinned | UpdateSkippedNotInstalled | UpdateUnchanged | UpdateRefetched | UpdateFailed.
Record UpdateResult := mkUpdate { u_ID : BundleID; u_Source : string; u_Outcome : UpdateOutcome; u_NewVersion : string; u_Err : option error; u_Warnings : list Warning }.

Definition updateOne (root : path) (src : Source) (entry : option InstalledEntry) : prog UpdateResult :=
  let res o v e ws := mkUpdate (default zero_id (E_ID <$> entry)) (Canonical src) o v e ws in
  match entry with
  | None => Ret (res UpdateSkippedNotInstalled "" None [])
  | Some entry =>
      if negb (String.eqb (SHA src) "") then Ret (res UpdateSkippedPinned "" None [])
      else
        do r <- lift (sys (ResolveRef (URL src) (Ref src)));
        match r with
        | Err e => Ret (res UpdateFailed "" (Some (SourceError src e)) [])
        | Ok newSHA =>
            do rc <- readReceipt (E_Root entry);
            if match readable rc with Some x => String.eqb newSHA (r_SHA x) | None => false end then Ret (res UpdateUnchanged "" None [])
            else
              do r <- fetchIntoCache root src;
              match r with
              | Err e => Ret (res UpdateFailed "" (Some e) [])
              | Ok (newID, version, ws) =>
                  if bool_decide (newID = E_ID entry) then Ret (mkUpdate newID (Canonical src) UpdateRefetched version None ws)
                  else
                    do rm <- removeSupersededEntry entry;
                    Ret (mkUpdate newID (Canonical src) UpdateRefetched version None
                      (ws ++ [Renamed (E_ID entry) newID] ++ match rm with Err _ => [NotRemoved (E_ID entry)] | Ok _ => [] end))
              end
        end
  end.

Fixpoint update_each (root : path) (id : BundleID) (byKey : gmap string InstalledEntry) (ds : list remoteDecl) : prog (list UpdateResult) :=
  match ds with
  | [] => Ret []
  | d :: ds' =>
      let entry := byKey !! Key digest (rd_src d) in
      if negb (zero id) && negb (bool_decide (E_ID <$> entry = Some id)) then update_each root id byKey ds'
      else do u <- updateOne root (rd_src d) entry; do us <- update_each root id byKey ds'; Ret (u :: us)
  end.
Definition Update (m : Manager) (id : BundleID) : prog (result error (list UpdateResult)) :=
  try _ <- lift (sys (MkdirAll (cache m)));
  try installed <- scanInstalled (cache m);
  do byKey <- entriesByKey installed;
  do results <- update_each (cache m) id byKey (remoteDeclarations m);
  match results with
  | [] => if negb (zero id) then Ret (Err (NothingDeclared id)) else Ret (Ok [])
  | _ => Ret (Ok results)
  end.

Fixpoint auto_go (seen : gset string) (ds : list BundleDeclaration) : list Source :=
  match ds with
  | [] => []
  | d :: ds' =>
      let src := SourceFromConfig (d_Source d) in
      if negb (bs_AutoUpdate (d_Source d)) || IsLocal src || negb (String.eqb (SHA src) "") || bool_decide (Key digest src ∈ seen) then auto_go seen ds'
      else src :: auto_go ({[Key digest src]} ∪ seen) ds'
  end.
Definition autoUpdateSources (m : Manager) : list Source := auto_go ∅ (decls m).
Definition autoUpdateWarning (r : UpdateResult) : list Warning :=
  match u_Outcome r with UpdateRefetched => [AutoUpdated (u_ID r) (u_NewVersion r)] | UpdateFailed => [AutoFailed (u_ID r)] | _ => [] end.

(** The warnings, and the identities that were refetched. *)
Fixpoint auto_each (root : path) (byKey : gmap string InstalledEntry) (srcs : list Source) : prog (list Warning * list BundleID) :=
  match srcs with
  | [] => Ret ([], [])
  | src :: l =>
      match byKey !! Key digest src with
      | None => auto_each root byKey l
      | Some entry =>
          do u <- updateOne root src (Some entry);
          do rest <- auto_each root byKey l;
          Ret (autoUpdateWarning u ++ u_Warnings u ++ rest.1, match u_Outcome u with UpdateRefetched => u_ID u :: rest.2 | _ => rest.2 end)
      end
  end.
Definition AutoUpdateCheck (m : Manager) : prog (list Warning) :=
  do r <- lift (sys (MkdirAll (cache m)));
  match r with
  | Err _ => Ret [MaintenanceSkipped]
  | Ok _ =>
      do r <- scanInstalled (cache m);
      match r with
      | Err _ => Ret [MaintenanceSkipped]
      | Ok installed =>
          do byKey <- entriesByKey installed;
          do x <- auto_each (cache m) byKey (autoUpdateSources m);
          do gc <- AutoGC m x.2;
          Ret (x.1 ++ gc)
      end
  end.

End WithDeps.

End BundleResolver.
