(* ===== verification/BundleSwap.v ===== *)
(** * Replacing a cached bundle survives a crash

    The swap of install.go and the sweep of gc.go together: wherever an install is cut
    off, and whichever of its calls fail, the entry it was replacing is still there,
    in its slot or in a holding tree that the next sweep puts back. *)

From S2P Require Import Prelude GoStrings GoPath BundleNames BundleFS Bundle.
Import Go GoPath BundleNames BundleFS Bundle.
Open Scope prog_scope.

Module BundleSwap.

(** ** What removals leave *)

Lemma get_drop_none p q w : get q w = None -> get q (drop_at p w) = None.
Proof.
  intros Hq. destruct (decide (p = [])) as [->|Hp]; [done|]. destruct (decide (p `prefix_of` q)) as [Hpq|Hpq]; [by apply get_drop|].
  destruct (decide (q `prefix_of` p)) as [[r ->]|Hqp]; [|unfold drop_at; by rewrite get_alter_apart].
  clear Hpq. revert w Hq. induction q as [|x q IH]; intros w Hq; [done|]. unfold drop_at in *. cbn [app].
  destruct w as [| |k]; [by destruct (q ++ r)..|]. cbn in Hq. destruct (q ++ r) as [|y l] eqn:E.
  - cbn. destruct q; [|done]. by rewrite lookup_partial_alter_eq.
  - rewrite alter_cons by done. destruct (k !! x) as [c|] eqn:Hx; [|cbn; by rewrite Hx]. cbn. rewrite lookup_insert_eq. apply IH; [|done]. by destruct q.
Qed.

Lemma get_drop_reg p q s w : get q w = Some (Reg s) -> get q (drop_at p w) = None \/ get q (drop_at p w) = Some (Reg s).
Proof.
  intros Hq. destruct (decide (p = [])) as [->|Hp]; [by right|]. destruct (decide (p `prefix_of` q)) as [Hpq|Hpq]; [left; by apply get_drop|]. right.
  destruct (decide (q `prefix_of` p)) as [[r ->]|Hqp]; [|unfold drop_at; by rewrite get_alter_apart].
  destruct r as [|y r]; [destruct Hpq; by rewrite app_nil_r|]. clear Hpq Hp. revert w Hq. induction q as [|x q IH]; intros w Hq.
  - cbn in Hq. simplify_eq. unfold drop_at. by destruct r.
  - destruct w as [| |k]; [done..|]. cbn in Hq. unfold drop_at in *. cbn [app]. rewrite alter_cons by (by destruct q). destruct (k !! x) as [c|] eqn:Hx; [|done].
    cbn. rewrite lookup_insert_eq. by apply IH.
Qed.

(** A removal, complete or not, drops paths at or below the one given. *)
Lemma RemoveAll_drops p e w : exists qs, (exec (RemoveAll p) e w).1 = foldl (fun w q => drop_at (p ++ q) w) w qs.
Proof. cbn. destruct (fault e); cbn; [by eexists|]. exists [[]]. cbn. by rewrite app_nil_r. Qed.

Lemma drops_none p qs q w : get q w = None -> get q (foldl (fun w q => drop_at (p ++ q) w) w qs) = None.
Proof. revert w. induction qs as [|r qs IH]; intros w Hq; [done|]. cbn. by apply IH, get_drop_none. Qed.

Lemma drops_reg p qs q s w : get q w = Some (Reg s) ->
  get q (foldl (fun w q => drop_at (p ++ q) w) w qs) = None \/ get q (foldl (fun w q => drop_at (p ++ q) w) w qs) = Some (Reg s).
Proof.
  revert w. induction qs as [|r qs IH]; intros w Hq; [by right|]. cbn. destruct (get_drop_reg (p ++ r) q s w Hq) as [Hn|Hr]; [left; by apply drops_none|by apply IH].
Qed.

Lemma drops_folder p qs q w : ~ p `prefix_of` q -> is_folder (get q (foldl (fun w q => drop_at (p ++ q) w) w qs)) = is_folder (get q w).
Proof.
  intros Hp. revert w. induction qs as [|r qs IH]; intros w; [done|]. cbn. rewrite IH. apply alter_folder. intros Hpr. apply Hp. etransitivity; [|done]. by apply prefix_app_r.
Qed.

(** ** The places involved *)

(** Twelve hex digits of the digest. *)
Definition key_ok (key : string) : Prop := key <> "" /\ all_chars name_end key = true.

Section Places.
Context (C : path) (id : BundleID) (key : string).
Context (HC : Forall seg_ok C) (Hns : conforms (Namespace id)) (Hnm : conforms (Name id)) (Hkey : key_ok key).

Notation slot := (entry_slot C id key).
Notation stage := (C ++ [tmpDir]).
Notation lock := (lock_path slot).

Lemma slot_parent : parent slot = C ++ [Namespace id; Name id].
Proof. unfold parent, entry_slot. change [Namespace id; Name id; key] with ([Namespace id; Name id] ++ [key]). rewrite app_assoc. apply removelast_last. Qed.

Lemma lock_eq : lock = C ++ [Namespace id; Name id; key +:+ lockSuffix].
Proof.
  unfold lock_path. rewrite slot_parent. unfold entry_slot. change [Namespace id; Name id; key] with ([Namespace id; Name id] ++ [key]).
  rewrite app_assoc, last_snoc. cbn. by rewrite <- app_assoc.
Qed.

Lemma slot_snoc : slot = parent slot ++ [key].
Proof. rewrite slot_parent, <- app_assoc. done. Qed.

Lemma ns_not_tmp : Namespace id <> tmpDir.
Proof. intros E. pose proof (conforms_dot "" _ Hns) as Hd. rewrite E in Hd. by vm_compute in Hd. Qed.

Lemma slot_stage r : apart slot (stage ++ r).
Proof. unfold entry_slot. rewrite <- app_assoc. apply apart_app, apart_cons. left. apply ns_not_tmp. Qed.

Lemma lock_stage r : apart lock (stage ++ r).
Proof. rewrite lock_eq, <- app_assoc. apply apart_app, apart_cons. left. apply ns_not_tmp. Qed.

Lemma key_lock : key <> key +:+ lockSuffix.
Proof.
  intros E. destruct Hkey as [_ Hc]. rewrite E, all_chars_append in Hc. by apply andb_true_iff in Hc as [_ Hc].
Qed.

Lemma slot_lock : apart slot lock.
Proof.
  rewrite lock_eq. unfold entry_slot. apply apart_app. do 2 (apply apart_cons; right). apply apart_cons. left. apply key_lock.
Qed.

Lemma slot_not_lock : slot <> lock.
Proof. intros E. destruct slot_lock as [H _]. apply H. by rewrite <- E. Qed.

Lemma not_above_parent q : apart q slot \/ q = slot -> ~ q `prefix_of` parent slot.
Proof.
  intros Hq Hp. assert (q `prefix_of` slot) as Hs by (rewrite slot_snoc; by apply prefix_app_r).
  destruct Hq as [[Hq _]| ->]; [done|]. apply prefix_length in Hp. rewrite slot_parent in Hp. unfold entry_slot in Hp. rewrite !length_app in Hp. cbn in Hp. lia.
Qed.

Lemma parent_of_slot_apart r : ~ (stage ++ r) `prefix_of` parent slot.
Proof. apply not_above_parent. left. apply apart_sym, slot_stage. Qed.

Lemma parent_not_below r p : apart slot (stage ++ p) -> ~ (stage ++ p) `prefix_of` (parent slot ++ r).
Proof.
  intros _ Hp. rewrite slot_parent, <- !app_assoc in Hp. apply prefix_app_inv in Hp. cbn in Hp. apply prefix_cons_inv_1 in Hp. by apply ns_not_tmp.
Qed.

Lemma conforms_seg s : conforms s -> seg_ok s.
Proof.
  intros Hs. pose proof (conforms_chars _ Hs) as Hc. split; [by apply conforms_nonempty|]. split; [intros ->; by pose proof (conforms_dot "" _ Hs)|].
  split; [intros ->; by pose proof (conforms_dot "." _ Hs)|]. eapply all_chars_impl; [|done]. intros c Hin. unfold free_of.
  destruct (Ascii.eqb_spec c "/") as [->|]; [by vm_compute in Hin|done].
Qed.

Lemma key_seg : seg_ok key.
Proof.
  destruct Hkey as [Hne Hc]. assert (Hd : forall x, key <> String "." x) by (intros x ->; done). split; [done|]. split; [apply Hd|]. split; [apply Hd|].
  eapply all_chars_impl; [|done]. intros c Hin. unfold free_of. destruct (Ascii.eqb_spec c "/") as [->|]; [by vm_compute in Hin|done].
Qed.

Lemma last_segs : Forall seg_ok [Namespace id; Name id; key].
Proof. apply Forall_cons_2; [by apply conforms_seg|]. apply Forall_cons_2; [by apply conforms_seg|]. apply Forall_cons_2; [apply key_seg|apply Forall_nil_2]. Qed.

Lemma slot_segs : Forall seg_ok slot.
Proof. apply Forall_app_2; [done|apply last_segs]. Qed.

Lemma TrimSpace_ends c d s t : is_space c = false -> is_space d = false -> String c s = t +:+ String d "" -> TrimSpace (String c s) = String c s.
Proof.
  intros Hc Hd E. unfold TrimSpace. cbn [trim_left]. rewrite Hc, E. unfold trim_right. rewrite rev_append.
  change (String.rev (String d "") +:+ String.rev t) with (String d (String.rev t)). cbn [trim_left]. rewrite Hd, rev_cons. by rewrite rev_involutive.
Qed.

Lemma Join_snoc_sep l x sep : l <> [] -> Join (l ++ [x]) sep = Join l sep +:+ sep +:+ x.
Proof.
  induction l as [|y l IH]; intros Hl; [done|]. destruct l as [|z l]; [done|]. cbn [app]. rewrite !Join_cons. cbn [app] in IH. rewrite IH by done. by rewrite !append_assoc.
Qed.

Lemma TrimSpace_slot : TrimSpace (abs slot) = abs slot.
Proof.
  destruct Hkey as [Hne Hc]. destruct (String.rev key) as [|d r] eqn:Er; [by rewrite <- (rev_involutive key), Er in Hne|].
  assert (key = String.rev r +:+ String d "") as Ek by (by rewrite <- (rev_involutive key), Er, rev_cons).
  assert (Hd : is_space d = false).
  { rewrite <- all_chars_rev, Er in Hc. cbn in Hc. apply andb_true_iff in Hc as [Hd _]. destruct (is_space d) eqn:Es; [|done]. unfold name_end, is_lower, is_digit, is_space in *.
    bool_to_prop; lia. }
  assert (Join slot "/" = Join (parent slot) "/" +:+ "/" +:+ key) as Ej by (rewrite slot_snoc at 1; apply Join_snoc_sep; rewrite slot_parent; by destruct C).
  unfold abs. eapply (TrimSpace_ends "/" d _ ("/" +:+ Join (parent slot) "/" +:+ "/" +:+ String.rev r)); [done|done|].
  rewrite Ej. generalize (Join (parent slot) "/"). intros P. rewrite Ek. cbn. by rewrite !append_assoc.
Qed.

(** The record of the slot is read back. *)
Lemma entrySlotPath_slot : entrySlotPath C (TrimSpace (abs slot)) = Some slot.
Proof.
  rewrite TrimSpace_slot. unfold entrySlotPath. rewrite IsAbs_abs. cbn [negb]. unfold Rel. rewrite !Clean_abs by (done || apply slot_segs).
  destruct (String.eqb_spec (abs slot) (abs C)) as [E|_].
  { apply abs_inj in E; [|apply slot_segs|done]. apply (f_equal length) in E. unfold entry_slot in E. rewrite length_app in E. cbn in E. lia. }
  destruct (String.eqb_spec (abs C) ".") as [|_]; [done|]. rewrite !IsAbs_abs. cbn [Bool.eqb negb]. rewrite !elements_abs by (done || apply slot_segs).
  unfold entry_slot at 1. rewrite strip_common_prefix.
  rewrite Split_Join_slash; [|done|apply last_segs].
  assert (Hv : forall s, seg_ok s -> HasPrefix s "." = false -> String.eqb s "" || HasPrefix s "." = false).
  { intros s (Hs & _) ->. by rewrite (proj2 (String.eqb_neq _ _) Hs). }
  assert (HasPrefix key "." = false) as Hkd. { apply not_true_iff_false. intros [r ->]%HasPrefix_spec. by destruct Hkey. }
  cbn [existsb]. rewrite !Hv; [done|..]; try (apply conforms_seg; done); try (by apply (conforms_dot "")); [apply key_seg|done].
Qed.

(** ** The states of a replacement *)

(** [old] is what the slot held before, [new] the content staged under [cs]. *)
Context (cs : string) (Hcs : HasPrefix cs contentStagePrefix = true) (old : option node) (new : node) (Hnew : is_folder (Some new) = true).
Notation content := (stage ++ [cs]).

Definition held (w : node) (h file : string) : option node := get (stage ++ [h; file]) w.
(** A holding tree with an entry that its record sends back to the slot. *)
Definition claims (w : node) (h : string) : Prop :=
  HasPrefix h retireStagePrefix = true /\ is_Some (held w h retiredName) /\
  exists raw, held w h retiredOriginFile = Some (Reg raw) /\ entrySlotPath C (TrimSpace raw) = Some slot.

(** Records are files, and none sends an entry to the lock of the slot. *)
Definition record_ok (w : node) (h : string) (n : node) : Prop :=
  exists raw, n = Reg raw /\ (is_Some (held w h retiredName) -> entrySlotPath C (TrimSpace raw) <> Some lock).
Record tidy (w : node) : Prop := mkTidy {
  t_stage : is_folder (get stage w) = true;
  t_records : forall h n, HasPrefix h retireStagePrefix = true -> held w h retiredOriginFile = Some n -> record_ok w h n;
  t_lock : forall n, get lock w = Some n -> exists s, n = Reg s;
  t_parent : is_Some old -> is_folder (get (parent slot) w) = true;
}.
Definition in_slot (w : node) : Prop := get slot w = old /\ forall h, ~ claims w h.
Definition aside (w : node) (h : string) : Prop :=
  get slot w = None /\ HasPrefix h retireStagePrefix = true /\ is_Some old /\ held w h retiredName = old /\
  held w h retiredOriginFile = Some (Reg (abs slot)) /\ forall h', claims w h' -> h' = h.
Definition replaced (w : node) : Prop := get slot w = Some new.
(** Nothing is lost. *)
Definition intact (w : node) : Prop := tidy w /\ (in_slot w \/ (exists h, aside w h) \/ replaced w).
Definition pending (w : node) : Prop := tidy w /\ get content w = Some new /\ (in_slot w \/ exists h, aside w h).

Lemma pending_intact w : pending w -> intact w.
Proof. intros (Ht & _ & H). split; [done|]. tauto. Qed.

Lemma retire_not_content h : HasPrefix h retireStagePrefix = true -> h <> cs.
Proof. intros [r Er]%HasPrefix_spec ->. apply HasPrefix_spec in Hcs as [r' E]. by rewrite Er in E. Qed.

(** Nothing changed below the staging directory but in the tree [h]. *)
Definition agree_but (h : string) (w w' : node) : Prop := forall x r, x <> h -> get (stage ++ x :: r) w' = get (stage ++ x :: r) w.

Lemma agree_claims h w w' x : agree_but h w w' -> x <> h -> claims w' x -> claims w x.
Proof. intros Ha Hx (H1 & H2 & H3). unfold claims, held in *. rewrite !Ha in * by done. done. Qed.

Lemma agree_records h w w' : tidy w -> agree_but h w w' -> (forall n, held w' h retiredOriginFile = Some n -> record_ok w' h n) ->
  forall x n, HasPrefix x retireStagePrefix = true -> held w' x retiredOriginFile = Some n -> record_ok w' x n.
Proof.
  intros Ht Ha Hh x n Hx Hn. destruct (decide (x = h)) as [->|Hne]; [by apply Hh|]. unfold record_ok, held in *. rewrite !Ha in * by done. by eapply (t_records w Ht).
Qed.

Lemma stage_apart x y r r' : x <> y -> apart (stage ++ x :: r) (stage ++ y :: r').
Proof. intros Hne. apply apart_app, apart_cons. by left. Qed.

Lemma held_folder w h x : is_Some (held w h x) -> is_folder (get (stage ++ [h]) w) = true.
Proof. intros [n Hn]. unfold held in Hn. change [h; x] with ([h] ++ [x]) in Hn. rewrite app_assoc, get_snoc in Hn. by destruct (get _ w) as [[]|]. Qed.

Lemma frame_states w w' : (forall r, get (stage ++ r) w' = get (stage ++ r) w) -> get slot w' = get slot w ->
  (in_slot w -> in_slot w') /\ forall h, aside w h -> aside w' h.
Proof.
  intros Hst Hsl. assert (Hcl : forall h, claims w' h <-> claims w h) by (intros h; unfold claims, held; by rewrite !Hst). split.
  - intros [H1 H2]. split; [by rewrite Hsl|]. intros h. rewrite Hcl. apply H2.
  - intros h (H1 & H2 & H3 & H4 & H5 & H6). unfold aside, held in *. rewrite Hsl, !Hst. do 5 (split; [done|]). intros h'. rewrite Hcl. apply H6.
Qed.

Lemma pending_frame w w' : tidy w' -> (forall r, get (stage ++ r) w' = get (stage ++ r) w) -> get slot w' = get slot w -> pending w -> pending w'.
Proof.
  intros Ht Hst Hsl (_ & Hc & Hs). destruct (frame_states w w' Hst Hsl) as [Hin Has]. split; [done|]. split; [by rewrite Hst|].
  destruct Hs as [H|[h H]]; [left|right; exists h]; auto.
Qed.

(** *** Directories and the lock *)

Lemma mkdir_stage e w r : get (stage ++ r) (exec (MkdirAll (parent slot)) e w).1 = get (stage ++ r) w.
Proof. apply exec_frame. cbn. apply parent_of_slot_apart. Qed.
Lemma mkdir_slot e w : get slot (exec (MkdirAll (parent slot)) e w).1 = get slot w.
Proof. apply exec_frame. cbn. apply not_above_parent. by right. Qed.

Lemma mkdir_step w e : pending w -> pending (exec (MkdirAll (parent slot)) e w).1.
Proof.
  intros Hp. pose proof (proj1 Hp) as Ht. set (w' := (exec _ e w).1).
  assert (Hlk : get lock w' = get lock w) by (apply exec_frame; cbn; apply not_above_parent; left; apply apart_sym, slot_lock).
  assert (Hf : forall q, is_folder (get q w) = true -> is_folder (get q w') = true).
  { intros q Hq. subst w'. cbn. destruct (fault e); cbn; [destruct (mkdirs (take _ _) w) eqn:E; [|done]; by eapply mkdirs_keeps_folder|].
    destruct (mkdirs _ w) eqn:E; [|done]. by eapply mkdirs_keeps_folder. }
  apply (pending_frame w); [|intros r; apply mkdir_stage|apply mkdir_slot|done].
  destruct Ht as [T1 T2 T3 T4]. split; [by apply Hf|intros h n; unfold record_ok, held, w'; rewrite !mkdir_stage; apply T2|by rewrite Hlk|intros Ho; by apply Hf, T4].
Qed.

Lemma lock_stage_frame e w r : get (stage ++ r) (exec (Lock slot) e w).1 = get (stage ++ r) w.
Proof. apply exec_frame. cbn. apply apart_sym, lock_stage. Qed.
Lemma lock_slot_frame e w : get slot (exec (Lock slot) e w).1 = get slot w.
Proof. apply exec_frame. cbn. apply slot_lock. Qed.

Lemma lock_parent : parent lock = parent slot.
Proof. unfold lock_path. apply removelast_last. Qed.

Lemma touch_lock w v : touch lock w = Ok v -> v = w \/ get lock w = None /\ v = put lock (Reg "") w /\ is_folder (get (parent slot) w) = true.
Proof.
  unfold touch. rewrite lock_parent. destruct (is_folder (get (parent slot) w)); [|done]. cbn. destruct (get lock w) as [[]|]; intros [= <-]; [by left|by right].
Qed.

Lemma lock_tidy w e : tidy w -> tidy (exec (Lock slot) e w).1.
Proof.
  intros [T1 T2 T3 T4]. set (w' := (exec _ e w).1).
  assert (Hw : w' = w \/ get lock w = None /\ w' = put lock (Reg "") w /\ is_folder (get (parent slot) w) = true).
  { subst w'. cbn. unfold effect. destruct (fault e); cbn; [destruct (depth e); [by left|]|]; (destruct (touch lock w) eqn:E; [by apply touch_lock|by left]). }
  split.
  - rewrite <- (app_nil_r stage). unfold w'. rewrite lock_stage_frame, app_nil_r. done.
  - intros h n. unfold record_ok, held, w'. rewrite !lock_stage_frame. apply T2.
  - destruct Hw as [->|(Hn & -> & Hf)]; [done|]. intros n. assert (lock = parent slot ++ [key +:+ lockSuffix]) as -> by (rewrite lock_eq, slot_parent; by rewrite <- app_assoc).
    rewrite get_put by done. intros [= <-]. by eexists.
  - intros Ho. destruct Hw as [->|(Hn & -> & Hf)]; [by apply T4|]. unfold put. rewrite alter_folder; [by apply T4|].
    intros Hq%prefix_length. rewrite lock_eq, slot_parent, !length_app in Hq. cbn in Hq. lia.
Qed.

Lemma lock_step w e : pending w -> pending (exec (Lock slot) e w).1.
Proof. intros Hp. apply (pending_frame w); [apply lock_tidy, Hp|intros r; apply lock_stage_frame|apply lock_slot_frame|done]. Qed.

(** *** The holding tree *)

(** A change confined to one holding tree that ends without an entry. *)
Lemma holding_step w w' h : HasPrefix h retireStagePrefix = true -> pending w -> in_slot w ->
  agree_but h w w' -> (forall q, ~ (stage ++ [h]) `prefix_of` q -> is_folder (get q w') = is_folder (get q w)) ->
  get slot w' = get slot w -> get lock w' = get lock w -> held w' h retiredName = None ->
  (forall n, held w' h retiredOriginFile = Some n -> exists raw, n = Reg raw) -> pending w' /\ in_slot w'.
Proof.
  intros Hh (Ht & Hc & _) [H1 H2] Ha Hf Hsl Hlk He Ho.
  assert (in_slot w') as Hin.
  { split; [by rewrite Hsl|]. intros x Hx. destruct (decide (x = h)) as [->|Hne]; [|apply (H2 x); by eapply agree_claims].
    destruct Hx as (_ & [n Hn] & _). congruence. }
  split; [|done]. split; [|split; [|by left]].
  - destruct Ht as [T1 T2 T3 T4]. split; [|apply (agree_records h w); [done..|intros n Hn; destruct (Ho n Hn) as [raw ->]; exists raw; split; [done|]; by rewrite He; intros []]|by rewrite Hlk|].
    + rewrite Hf; [done|]. intros Hp%prefix_length. rewrite !length_app in Hp. cbn in Hp. lia.
    + intros Hold. rewrite Hf; [by apply T4|]. rewrite <- (app_nil_r (parent slot)). apply parent_not_below, slot_stage.
  - rewrite Ha; [done|]. by apply not_eq_sym, retire_not_content.
Qed.

Lemma put_below_agree h r n w : agree_but h w (put (stage ++ h :: r) n w).
Proof. intros x r' Hx. unfold put. apply get_alter_apart, stage_apart. done. Qed.

Lemma below_not_above h r q : ~ (stage ++ [h]) `prefix_of` q -> ~ (stage ++ h :: r) `prefix_of` q.
Proof. intros Hq Hp. apply Hq. etransitivity; [|exact Hp]. apply prefix_app, prefix_cons, prefix_nil. Qed.

(** Whatever a removal of a holding tree without an entry leaves. *)
Lemma discard_step w e h : HasPrefix h retireStagePrefix = true -> pending w -> in_slot w -> held w h retiredName = None ->
  pending (exec (RemoveAll (stage ++ [h])) e w).1 /\ in_slot (exec (RemoveAll (stage ++ [h])) e w).1.
Proof.
  intros Hh Hp Hin He. destruct (RemoveAll_drops (stage ++ [h]) e w) as [qs ->]. apply (holding_step w _ h); try done.
  - intros x r Hx. apply drops_get. by apply stage_apart.
  - intros q Hq. by apply drops_folder.
  - apply drops_get, slot_stage.
  - apply drops_get, lock_stage.
  - by apply drops_none.
  - intros n Hn. destruct (held w h retiredOriginFile) as [m|] eqn:Em; [|unfold held in Hn; by rewrite drops_none in Hn].
    destruct (t_records w (proj1 Hp) h m Hh Em) as (raw & -> & _). destruct (drops_reg (stage ++ [h]) qs _ raw w Em) as [E|E]; unfold held in Hn; rewrite E in Hn; [done|]. injection Hn as <-. by eexists.
Qed.

Ltac returns := solve [apply chl_ret; [by apply pending_intact|done]].
Ltac returns_twice := apply chl_ret; [by apply pending_intact|returns].

Lemma wp_discard w h : HasPrefix h retireStagePrefix = true -> pending w -> in_slot w -> held w h retiredName = None ->
  chl any (removeStaged (stage ++ [h])) intact (fun _ w' => pending w' /\ in_slot w') w.
Proof.
  intros Hh Hp Hin He. apply chl_bind, chl_sys; [by apply pending_intact|]. intros e _.
  destruct (discard_step w e h Hh Hp Hin He) as [Hp' Hin']. split; [by apply pending_intact|]. apply chl_ret; [by apply pending_intact|done].
Qed.

(** The record is written, then the entry moves next to it. *)
Lemma park_step w h : HasPrefix h retireStagePrefix = true -> pending w -> in_slot w -> is_folder (get (stage ++ [h]) w) = true ->
  held w h retiredName = None -> held w h retiredOriginFile = Some (Reg (abs slot)) ->
  forall w', rename slot (stage ++ [h; retiredName]) w = Ok w' -> pending w' /\ aside w' h.
Proof.
  intros Hh (Ht & Hc & _) [Hs Hno] Hf He Ho w'. unfold rename. destruct (get slot w) as [t|] eqn:Hsl; [|done].
  destruct (negb _); [done|]. destruct (bool_decide _); [done|]. unfold held in He. rewrite He. intros [= <-].
  set (w1 := drop_at slot w).
  assert (H1 : forall r, get (stage ++ r) w1 = get (stage ++ r) w) by (intros r; apply get_alter_apart, apart_sym, slot_stage).
  assert (Hent : forall n, get (stage ++ [h; retiredName]) (put (stage ++ [h; retiredName]) n w1) = Some n).
  { intros n. change [h; retiredName] with ([h] ++ [retiredName]). rewrite app_assoc. apply get_put. by rewrite H1. }
  set (w2 := put _ t w1).
  assert (H2 : agree_but h w w2) by (intros x r Hx; unfold w2; rewrite put_below_agree, H1 by done; done).
  assert (Hor : held w2 h retiredOriginFile = Some (Reg (abs slot))).
  { unfold held, w2, put. rewrite get_alter_apart, H1; [done|]. apply apart_app, apart_cons. right. apply apart_cons. by left. }
  assert (Hsl2 : get slot w2 = None). { unfold w2, put. rewrite get_alter_apart by apply slot_stage. apply get_drop; [by destruct C|done]. }
  assert (aside w2 h) as Ha.
  { split; [done|]. split; [done|]. split; [by rewrite <- Hs|]. split; [by rewrite <- Hs; apply Hent|]. split; [done|].
    intros h' Hcl. destruct (decide (h' = h)) as [|Hne]; [done|]. destruct (Hno h'). by eapply agree_claims. }
  split; [|done]. split; [|split; [|right; by exists h]].
  - destruct Ht as [T1 T2 T3 T4]. assert (Hfold : forall q, ~ slot `prefix_of` q -> ~ (stage ++ [h]) `prefix_of` q -> is_folder (get q w2) = is_folder (get q w)).
    { intros q Hq1 Hq2. unfold w2, put. rewrite alter_folder by (by apply below_not_above). by apply alter_folder. }
    split; [|apply (agree_records h w); [done|done|intros n Hn; rewrite Hor in Hn; injection Hn as <-; exists (abs slot); split; [done|]; intros _; rewrite entrySlotPath_slot; intros [= E]; by apply slot_not_lock]| |].
    + rewrite Hfold; [done|rewrite <- (app_nil_r stage); apply slot_stage|]. intros Hp%prefix_length. rewrite !length_app in Hp. cbn in Hp. lia.
    + intros n. unfold w2, put. rewrite get_alter_apart by apply lock_stage. unfold w1, drop_at. rewrite get_alter_apart by apply apart_sym, slot_lock. apply T3.
    + intros Hold. rewrite Hfold; [by apply T4|apply not_above_parent; by right|]. rewrite <- (app_nil_r (parent slot)). apply parent_not_below, slot_stage.
  - rewrite H2; [done|]. by apply not_eq_sym, retire_not_content.
Qed.

(** Writing the record, or part of it. *)
Lemma record_step w h s w' : HasPrefix h retireStagePrefix = true -> pending w -> in_slot w -> is_folder (get (stage ++ [h]) w) = true ->
  held w h retiredName = None -> write_file (stage ++ [h; retiredOriginFile]) (Reg s) w = Ok w' ->
  pending w' /\ in_slot w' /\ is_folder (get (stage ++ [h]) w') = true /\ held w' h retiredName = None /\ held w' h retiredOriginFile = Some (Reg s).
Proof.
  intros Hh Hp Hin Hf He Hw.
  assert (w' = put (stage ++ [h; retiredOriginFile]) (Reg s) w) as ->. { unfold write_file in Hw. destruct (negb _); [done|]. destruct (get (stage ++ [h; retiredOriginFile]) w) as [[]|]; congruence. }
  set (w1 := put _ _ w).
  assert (Hent : held w1 h retiredName = None).
  { unfold held, w1, put. rewrite get_alter_apart; [done|]. apply apart_app, apart_cons. right. apply apart_cons. by left. }
  assert (Hor : held w1 h retiredOriginFile = Some (Reg s)).
  { unfold held, w1. change [h; retiredOriginFile] with ([h] ++ [retiredOriginFile]). rewrite app_assoc. by apply get_put. }
  assert (Hfold : forall q, ~ (stage ++ [h]) `prefix_of` q -> is_folder (get q w1) = is_folder (get q w)).
  { intros q Hq. apply alter_folder. by apply below_not_above. }
  destruct (holding_step w w1 h) as [Hp1 Hin1]; [done..|apply put_below_agree|done|apply get_alter_apart, slot_stage|apply get_alter_apart, lock_stage|done| |].
  { intros n Hn. rewrite Hor in Hn. injection Hn as <-. by eexists. }
  do 2 (split; [done|]). split; [|done]. unfold w1, put. rewrite alter_folder; [done|]. intros Hq%prefix_length. rewrite !length_app in Hq. cbn in Hq. lia.
Qed.

Lemma wp_park w h : HasPrefix h retireStagePrefix = true -> pending w -> in_slot w -> is_folder (get (stage ++ [h]) w) = true -> held w h retiredName = None ->
  chl any (do r <- sys (WriteFile ((stage ++ [h]) ++ [retiredOriginFile]) (abs slot));
           match r with
           | Err e => do _ <- removeStaged (stage ++ [h]); Ret (Err (Sys e))
           | Ok _ =>
               do r <- sys (Rename slot ((stage ++ [h]) ++ [retiredName]));
               match r with
               | Err e => do _ <- removeStaged (stage ++ [h]); Ret (Err (Sys e))
               | Ok _ => Ret (Ok (Some ((stage ++ [h]) ++ [retiredName])))
               end
           end) intact
    (fun r w' => pending w' /\ match r with Ok (Some p) => exists h, p = stage ++ [h; retiredName] /\ aside w' h | _ => True end) w.
Proof.
  intros Hh Hp Hin Hf He. assert (forall v, pending v -> intact v) as PI by apply pending_intact. rewrite <- !(app_assoc stage). cbn [app].
  assert (Hfail : forall (x : errno) v, pending v -> in_slot v -> held v h retiredName = None ->
    chl any (do _ <- removeStaged (stage ++ [h]); Ret (Err (Sys x))) intact
      (fun (r : result error (option path)) w' => pending w' /\ match r with Ok (Some p) => exists h, p = stage ++ [h; retiredName] /\ aside w' h | _ => True end) v).
  { intros x v Hv1 Hv2 Hv3. apply chl_bind. eapply chl_mono; [by apply wp_discard|done|]. intros [] v' _ [Hv' _]. returns. }
  apply chl_bind, chl_sys; [by apply PI|]. intros e _. cbn [exec]. destruct (fault e) as [x|] eqn:Ef; cbn [fst snd].
  - assert (Hst : let v := match leftover e with Some (Reg l) => match write_file (stage ++ [h; retiredOriginFile]) (Reg l) w with Ok w' => w' | Err _ => w end | _ => w end in
      pending v /\ in_slot v /\ held v h retiredName = None).
    { cbn. destruct (leftover e) as [[l| |]|]; [|done..]. destruct (write_file _ _ w) as [v|] eqn:Ew; [|done]. destruct (record_step w h l v) as (? & ? & ? & ? & ?); done. }
    destruct Hst as (Hv1 & Hv2 & Hv3). split; [by apply PI|]. by apply Hfail.
  - unfold effect. rewrite Ef. destruct (write_file _ _ w) as [v|x] eqn:Ew; cbn [fst snd]; [|split; [by apply PI|]; by apply Hfail].
    destruct (record_step w h _ v Hh Hp Hin Hf He Ew) as (Hv1 & Hv2 & Hv3 & Hv4 & Hv5). split; [by apply PI|].
    apply chl_bind, chl_sys; [by apply PI|]. clear e Ef. intros e _. cbn [exec]. unfold effect. destruct (fault e); cbn [fst snd]; [split; [by apply PI|]; by apply Hfail|].
    destruct (rename slot _ v) as [v'|x] eqn:Er; cbn [fst snd]; [|split; [by apply PI|]; by apply Hfail].
    destruct (park_step v h Hh Hv1 Hv2 Hv3 Hv4 Hv5 v' Er) as [Hv' Ha]. split; [by apply PI|]. apply chl_ret; [by apply PI|]. split; [done|]. by exists h.
Qed.

Lemma wp_retire w : pending w ->
  chl any (retireEntry stage slot) intact
    (fun r w' => pending w' /\ match r with Ok (Some p) => exists h, p = stage ++ [h; retiredName] /\ aside w' h | _ => True end) w.
Proof.
  intros Hp. assert (forall v, pending v -> intact v) as PI by apply pending_intact. apply chl_bind, chl_sys; [by apply PI|]. intros e _. split; [by apply PI|].
  cbn [exec fst snd]. unfold answering, found. destruct (fault e) as [[]|]; [returns..|].
  destruct (get slot w) as [t|] eqn:Hsl; [|returns].
  assert (Hin : in_slot w). { destruct Hp as (_ & _ & [?|(h & Hn & _)]); [done|congruence]. }
  apply chl_bind, chl_bind, chl_sys; [by apply PI|]. clear e. intros e _. cbn [exec].
  destruct (fault e); [cbn [fst snd ok_or]; split; [by apply PI|]; returns_twice|].
  destruct (mkdir_temp stage retireStagePrefix (suffix e) w) as [[w1 p]|x] eqn:Em; [|cbn [fst snd ok_or]; split; [by apply PI|]; returns_twice].
  apply mkdir_temp_spec in Em as (h & -> & -> & Hno & Hfo & Hh). set (w1 := put _ _ w).
  assert (Hheld : forall x, held w1 h x = None).
  { intros x. unfold held. change [h; x] with ([h] ++ [x]). rewrite app_assoc, get_snoc. unfold w1. by rewrite get_put. }
  destruct (holding_step w w1 h) as [Hp1 Hin1]; [done..|apply put_below_agree| | | |apply Hheld|intros n Hn; by rewrite Hheld in Hn|].
  { intros q Hq. by apply alter_folder. } { apply get_alter_apart, slot_stage. } { apply get_alter_apart, lock_stage. }
  cbn [fst snd ok_or]. split; [by apply PI|]. apply chl_ret; [by apply PI|].
  apply wp_park; try done. unfold w1. by rewrite get_put.
Qed.

(** *** The new content moves in, or the old one back *)

(** A tree of the staging directory moves into the empty slot. *)
Lemma move_in x r n w w' : get slot w = None -> get (stage ++ x :: r) w = Some n -> tidy w -> rename (stage ++ x :: r) slot w = Ok w' ->
  tidy w' /\ get slot w' = Some n /\ held w' x retiredOriginFile = held (drop_at (stage ++ x :: r) w) x retiredOriginFile /\
  (forall q, apart q slot -> get q w' = get q (drop_at (stage ++ x :: r) w)) /\ agree_but x w w'.
Proof.
  intros Hs Hx [T1 T2 T3 T4]. unfold rename. rewrite Hx, Hs. destruct (is_folder (get (parent slot) w)) eqn:Hf; [|done]. cbn [negb]. destruct (bool_decide _); [done|]. intros [= <-].
  set (w1 := drop_at (stage ++ x :: r) w).
  assert (Hq : forall q, apart q slot -> get q (put slot n w1) = get q w1) by (intros q; apply get_alter_apart).
  assert (Hst : forall q, get (stage ++ q) (put slot n w1) = get (stage ++ q) w1) by (intros q; apply Hq, apart_sym, slot_stage).
  assert (Hfold : is_folder (get (parent slot) w1) = true).
  { unfold w1, drop_at. rewrite alter_folder; [done|]. rewrite <- (app_nil_r (parent slot)). apply parent_not_below, slot_stage. }
  assert (Hag : agree_but x w (put slot n w1)) by (intros y q Hy; rewrite Hst; by apply get_alter_apart, stage_apart).
  split; [split|split; [by rewrite slot_snoc at 1 2; apply get_put|split; [apply Hst|done]]].
  - rewrite <- (app_nil_r stage), Hst, app_nil_r. unfold w1, drop_at. rewrite alter_folder; [done|]. intros Hp%prefix_length. rewrite !length_app in Hp. cbn in Hp. lia.
  - intros h m Hh. unfold held. rewrite Hst. intros Hm. unfold w1 in Hm. destruct (get (stage ++ [h; retiredOriginFile]) w) as [m'|] eqn:E; [|by rewrite get_drop_none in Hm].
    destruct (T2 h m' Hh E) as (raw & -> & Hlk). destruct (get_drop_reg (stage ++ x :: r) _ raw w E) as [E'|E']; rewrite E' in Hm; [done|]. injection Hm as <-. exists raw. split; [done|].
    unfold held. rewrite Hst. intros [n' Hn']. apply Hlk. apply not_eq_None_Some. intros Hno. unfold w1 in Hn'. by rewrite get_drop_none in Hn'.
  - intros m. rewrite Hq by apply apart_sym, slot_lock. unfold w1, drop_at. rewrite get_alter_apart by apply lock_stage. apply T3.
  - intros _. unfold put. rewrite alter_folder; [done|]. apply not_above_parent. by right.
Qed.

Lemma return_tidy w h w' : tidy w -> aside w h -> rename (stage ++ [h; retiredName]) slot w = Ok w' ->
  tidy w' /\ in_slot w' /\ held w' h retiredName = None /\ agree_but h w w'.
Proof.
  intros Ht (Hs & Hh & [t Hold] & He & Ho & Hu) Hr. rewrite Hold in He.
  destruct (move_in h [retiredName] t w w' Hs He Ht Hr) as (Ht' & Hs' & Ho' & Hq & Hag).
  assert (held w' h retiredName = None) as Hn. { unfold held. rewrite Hq by apply apart_sym, slot_stage. apply get_drop; [by destruct C|done]. }
  split; [done|]. split; [|done]. split; [congruence|]. intros x Hx.
  destruct (decide (x = h)) as [->|Hne]; [destruct Hx as (_ & [? ?] & _); congruence|]. apply Hne, Hu. by eapply agree_claims.
Qed.

Lemma return_step w h w' : pending w -> aside w h -> rename (stage ++ [h; retiredName]) slot w = Ok w' ->
  pending w' /\ in_slot w' /\ held w' h retiredName = None.
Proof.
  intros (Ht & Hc & _) Ha Hr. destruct (return_tidy w h w' Ht Ha Hr) as (Ht' & Hin & Hn & Hag). split; [|done]. split; [done|]. split; [|by left].
  rewrite Hag; [done|]. apply not_eq_sym, retire_not_content, Ha.
Qed.

Lemma swap_step w w' : pending w -> rename content slot w = Ok w' -> tidy w' /\ replaced w'.
Proof.
  intros (Ht & Hc & _) Hr. destruct (get slot w) as [t|] eqn:Hs.
  - unfold rename in Hr. rewrite Hc, Hs, Hnew in Hr. destruct (negb _); [done|]. destruct (bool_decide _); [done|]. by destruct t.
  - by destruct (move_in cs [] new w w' Hs Hc Ht Hr) as (? & ? & _).
Qed.

Lemma wp_clear w h : HasPrefix h retireStagePrefix = true -> tidy w -> replaced w -> chl any (removeStaged (stage ++ [h])) intact (fun _ w' => tidy w' /\ replaced w') w.
Proof.
  intros Hh Ht Hr. assert (PI : forall v, tidy v -> replaced v -> intact v) by (intros v ? ?; split; [done|by right; right]).
  apply chl_bind, chl_sys; [by apply PI|]. intros e _. destruct (RemoveAll_drops (stage ++ [h]) e w) as [qs Hqs].
  assert (Hnext : tidy (exec (RemoveAll (stage ++ [h])) e w).1 /\ replaced (exec (RemoveAll (stage ++ [h])) e w).1).
  { rewrite Hqs. destruct Ht as [T1 T2 T3 T4]. split; [split|].
    - rewrite drops_folder; [done|]. intros Hp%prefix_length. rewrite !length_app in Hp. cbn in Hp. lia.
    - intros x m Hx Hm. unfold held in Hm. destruct (get (stage ++ [x; retiredOriginFile]) w) as [m'|] eqn:E; [|by rewrite drops_none in Hm].
      destruct (T2 x m' Hx E) as (raw & -> & Hlk). destruct (drops_reg (stage ++ [h]) qs _ raw w E) as [E'|E']; rewrite E' in Hm; [done|]. injection Hm as <-. exists raw. split; [done|].
      intros [n' Hn']. apply Hlk, not_eq_None_Some. intros Hno. unfold held in Hn', Hno. by rewrite drops_none in Hn'.
    - intros m. rewrite drops_get by apply lock_stage. apply T3.
    - intros Ho. rewrite drops_folder; [by apply T4|]. rewrite <- (app_nil_r (parent slot)). apply parent_not_below, slot_stage.
    - unfold replaced. rewrite drops_get; [done|apply slot_stage]. }
  destruct Hnext as [Ht' Hr']. split; [by apply PI|]. apply chl_ret; [by apply PI|done].
Qed.

Lemma retired_parent h : parent (stage ++ [h; retiredName]) = stage ++ [h].
Proof. unfold parent. change [h; retiredName] with ([h] ++ [retiredName]). rewrite app_assoc. apply removelast_last. Qed.

Lemma wp_restore w h : pending w -> aside w h -> chl any (restoreEntry (Some (stage ++ [h; retiredName])) slot) intact (fun _ w' => pending w') w.
Proof.
  intros Hp Ha. assert (forall v, pending v -> intact v) as PI by apply pending_intact. assert (Hh : HasPrefix h retireStagePrefix = true) by apply Ha.
  assert (Hback : forall v v', pending v -> aside v h -> rename (stage ++ [h; retiredName]) slot v = Ok v' -> chl any (removeStaged (parent (stage ++ [h; retiredName]))) intact (fun _ w' => pending w') v').
  { intros v v' Hv1 Hv2 Hr. destruct (return_step v h v' Hv1 Hv2 Hr) as (H1 & H2 & H3). rewrite retired_parent. eapply chl_mono; [by apply wp_discard|done|]. by intros [] ? _ []. }
  assert (Hagain : forall v, pending v -> aside v h -> chl any (do r <- sys (Rename (stage ++ [h; retiredName]) slot);
    match r with Err _ => Ret tt | Ok _ => removeStaged (parent (stage ++ [h; retiredName])) end) intact (fun _ w' => pending w') v).
  { intros v Hv1 Hv2. apply chl_bind, chl_sys; [by apply PI|]. intros e _. cbn [exec]. unfold effect. destruct (fault e); cbn [fst snd]; [split; [by apply PI|]; returns|].
    destruct (rename _ slot v) as [v'|] eqn:Er; cbn [fst snd]; [|split; [by apply PI|]; returns]. split; [|by eapply Hback]. apply PI. by destruct (return_step v h v' Hv1 Hv2 Er). }
  apply chl_bind, chl_sys; [by apply PI|]. intros e _. cbn [exec]. unfold effect.
  assert (Hslow : chl any (do r <- sys (MkdirAll (parent slot)); match r with Err _ => Ret tt | Ok _ => do r <- sys (Rename (stage ++ [h; retiredName]) slot);
      match r with Err _ => Ret tt | Ok _ => removeStaged (parent (stage ++ [h; retiredName])) end end) intact (fun _ w' => pending w') w).
  { apply chl_bind, chl_sys; [by apply PI|]. intros e' _. pose proof (mkdir_step w e' Hp) as Hp'.
    assert (aside (exec (MkdirAll (parent slot)) e' w).1 h) as Ha'. { apply (frame_states w); [intros r; apply mkdir_stage|apply mkdir_slot|done]. }
    split; [by apply PI|]. destruct (exec _ e' w).2; [by apply Hagain|returns]. }
  destruct (fault e); cbn [fst snd]; [split; [by apply PI|]; done|].
  destruct (rename _ slot w) as [v'|] eqn:Er; cbn [fst snd]; [|split; [by apply PI|]; done]. split; [|by eapply Hback]. apply PI. by destruct (return_step w h v' Hp Ha Er).
Qed.

(** *** The whole commit *)

Definition committed (r : result error unit) (w : node) : Prop := match r with Ok _ => tidy w /\ replaced w | Err _ => pending w end.

Lemma wp_commitContent w : pending w -> chl any (commitContent stage content slot) intact committed w.
Proof.
  intros Hp. assert (forall v, pending v -> intact v) as PI by apply pending_intact.
  apply chl_bind. eapply chl_mono; [by apply wp_retire|done|]. intros r v _ [Hv Hr]. destruct r as [retired|x]; [|returns].
  assert (Hfail : forall x v, pending v -> match retired with Some p => exists h, p = stage ++ [h; retiredName] /\ aside v h | None => True end ->
    chl any (do _ <- restoreEntry retired slot; Ret (Err (Sys x))) intact committed v).
  { clear v Hv Hr. intros x v Hv Hr. apply chl_bind. destruct retired as [p|]; [|apply chl_ret; [by apply PI|]; returns].
    destruct Hr as (h & -> & Ha). eapply chl_mono; [by apply wp_restore|done|]. intros [] v' _ Hv'. returns. }
  apply chl_bind, chl_sys; [by apply PI|]. intros e _. cbn [exec]. unfold effect. destruct (fault e); cbn [fst snd]; [split; [by apply PI|]; by apply Hfail|].
  destruct (rename content slot v) as [v'|] eqn:Er; cbn [fst snd]; [|split; [by apply PI|]; by apply Hfail].
  destruct (swap_step v v' Hv Er) as [Ht' Hr']. assert (PR : forall u, tidy u -> replaced u -> intact u) by (intros u ? ?; split; [done|by right; right]).
  split; [by apply PR|]. apply chl_bind. destruct retired as [p|]; [|apply chl_ret; [by apply PR|]; apply chl_ret; [by apply PR|done]].
  destruct Hr as (h & -> & Ha). rewrite retired_parent. eapply chl_mono; [apply wp_clear; [apply Ha|done..]|done|].
  intros [] u _ [Hu1 Hu2]. apply chl_ret; [by apply PR|done].
Qed.

Lemma wp_commitAttempt w : pending w -> chl any (commitAttempt stage content slot) intact committed w.
Proof.
  intros Hp. assert (forall v, pending v -> intact v) as PI by apply pending_intact.
  apply chl_bind, chl_bind, chl_sys; [by apply PI|]. intros e _. pose proof (mkdir_step w e Hp) as Hv. split; [by apply PI|].
  destruct (exec _ e w) as [v x]. cbn [fst snd] in *. apply chl_ret; [by apply PI|]. destruct x as [[]|x]; [|returns]. cbn [ok_or].
  apply chl_bind, chl_bind, chl_sys; [by apply PI|]. clear e. intros e _. pose proof (lock_step v e Hv) as Hu. split; [by apply PI|].
  destruct (exec _ e v) as [u x]. cbn [fst snd] in *. apply chl_ret; [by apply PI|]. destruct x as [[]|x]; [|returns]. by apply wp_commitContent.
Qed.

Lemma wp_commit w : pending w -> chl any (commit stage content slot) intact committed w.
Proof.
  intros Hp. apply chl_bind. eapply chl_mono; [by apply wp_commitAttempt|done|]. intros [[]|x] v Hi Hv; [by apply chl_ret|].
  destruct (is_not_exist x); [by apply wp_commitAttempt|returns].
Qed.

(** ** The sweep *)

(** No call fails and every staging tree is old. *)
Definition aged (e : env) : Prop := fault e = None /\ young e = false.
Definition settled (w : node) : Prop := in_slot w \/ replaced w \/ exists h, aside w h.

(** What one tree's turn does to the others and to the slot. *)
Definition swept (x : string) (w w' : node) : Prop := agree_but x w w' /\ get slot w' = get slot w /\ (claims w' x -> claims w x).

Lemma swept_refl x w : swept x w w.
Proof. split; [by intros y r _|]. by split. Qed.

Lemma swept_trans x w1 w2 w3 : swept x w1 w2 -> swept x w2 w3 -> swept x w1 w3.
Proof. intros (H1 & H2 & H3) (G1 & G2 & G3). split; [intros y r Hy; by rewrite G1, H1|]. split; [by rewrite G2|auto]. Qed.

Lemma swept_claims x w w' h : swept x w w' -> claims w' h -> claims w h.
Proof. intros (H1 & H2 & H3) Hc. destruct (decide (h = x)) as [->|Hne]; [auto|]. by eapply agree_claims. Qed.

Lemma swept_states x w w' : swept x w w' ->
  (in_slot w -> in_slot w') /\ (replaced w -> replaced w') /\ forall h, h <> x -> aside w h -> aside w' h.
Proof.
  intros Hs. pose proof Hs as (H1 & H2 & _). split; [|split].
  - intros [G1 G2]. split; [by rewrite H2|]. intros h Hc. apply (G2 h). by eapply swept_claims.
  - unfold replaced. by rewrite H2.
  - intros h Hne (G1 & G2 & G3 & G4 & G5 & G6). unfold aside, held in *. rewrite H2, !H1 by done. do 5 (split; [done|]). intros h' Hc. apply G6. by eapply swept_claims.
Qed.

(** The whole tree of a name goes. *)
Lemma sweep_drop x w : tidy w -> tidy (drop_at (stage ++ [x]) w) /\ swept x w (drop_at (stage ++ [x]) w).
Proof.
  intros Ht. set (w' := drop_at (stage ++ [x]) w).
  assert (Hag : agree_but x w w') by (intros y r Hy; by apply get_alter_apart, stage_apart).
  assert (Hx : forall f, held w' x f = None) by (intros f; apply get_drop; [by destruct C|apply prefix_app, prefix_cons, prefix_nil]).
  split.
  - destruct Ht as [T1 T2 T3 T4]. split.
    + unfold w', drop_at. rewrite alter_folder; [done|]. intros Hp%prefix_length. rewrite !length_app in Hp. cbn in Hp. lia.
    + apply (agree_records x w); [done|done|]. intros n Hn. by rewrite Hx in Hn.
    + intros n. unfold w', drop_at. rewrite get_alter_apart by apply lock_stage. apply T3.
    + intros Ho. unfold w', drop_at. rewrite alter_folder; [by apply T4|]. rewrite <- (app_nil_r (parent slot)). apply parent_not_below, slot_stage.
  - split; [done|]. split; [apply get_alter_apart, slot_stage|]. intros (_ & [n Hn] & _). by rewrite Hx in Hn.
Qed.

(** *** Another entry's slot *)

Section Other.
Context (a b c : string).
Notation other := (C ++ [a; b; c]).
Context (Ha : a <> tmpDir) (Hos : other <> slot) (Hol : other <> lock).

Lemma other_parent : parent other = C ++ [a; b].
Proof. unfold parent. change [a; b; c] with ([a; b] ++ [c]). rewrite app_assoc. apply removelast_last. Qed.
Lemma other_lock : lock_path other = C ++ [a; b; c +:+ lockSuffix].
Proof. unfold lock_path. rewrite other_parent. change [a; b; c] with ([a; b] ++ [c]). rewrite app_assoc, last_snoc. cbn. by rewrite <- app_assoc. Qed.

Lemma same_length_apart (p q : path) : length p = length q -> p <> q -> apart p q.
Proof.
  intros Hl Hne. split; intros Hp; apply Hne; destruct Hp as [r ->]; rewrite length_app in Hl; (destruct r; [by rewrite app_nil_r|cbn in Hl; lia]).
Qed.
Lemma other_stage r : apart other (stage ++ r).
Proof. rewrite <- app_assoc. apply apart_app, apart_cons. by left. Qed.
Lemma other_lock_stage r : apart (lock_path other) (stage ++ r).
Proof. rewrite other_lock, <- app_assoc. apply apart_app, apart_cons. by left. Qed.
Lemma slot_other : apart slot other.
Proof. apply same_length_apart; [unfold entry_slot; by rewrite !length_app|done]. Qed.
Lemma lock_other : apart lock other.
Proof. apply same_length_apart; [rewrite lock_eq; by rewrite !length_app|done]. Qed.
Lemma slot_other_lock : apart slot (lock_path other).
Proof.
  apply same_length_apart; [rewrite other_lock; unfold entry_slot; by rewrite !length_app|]. rewrite other_lock. unfold entry_slot. intros E%app_inv_head. injection E as _ _ E.
  destruct Hkey as [_ Hc]. rewrite E, all_chars_append in Hc. by apply andb_true_iff in Hc as [_ Hc].
Qed.
Lemma lock_other_lock : apart lock (lock_path other).
Proof.
  apply same_length_apart; [rewrite other_lock, lock_eq; by rewrite !length_app|]. rewrite other_lock, lock_eq. intros E%app_inv_head. injection E as E1 E2 E.
  apply append_inj_tail in E as [E _]; [|done]. apply Hos. unfold entry_slot. by rewrite E1, E2, E.
Qed.

Lemma short_not_above q : (length C + 2 < length q)%nat -> ~ q `prefix_of` C ++ [a; b].
Proof. intros Hl Hp%prefix_length. rewrite length_app in Hp. cbn in Hp. lia. Qed.
Lemma stage_not_above r : ~ (stage ++ r) `prefix_of` C ++ [a; b].
Proof. intros Hp. rewrite <- app_assoc in Hp. apply prefix_app_inv in Hp. by apply prefix_cons_inv_1 in Hp. Qed.
Lemma slot_length : length slot = (length C + 3)%nat.
Proof. unfold entry_slot. by rewrite length_app. Qed.
Lemma swap_lock_length : length lock = (length C + 3)%nat.
Proof. rewrite lock_eq. by rewrite length_app. Qed.
End Other.

Lemma entrySlotPath_shape raw o : entrySlotPath C raw = Some o -> exists a b c, o = C ++ [a; b; c] /\ a <> tmpDir.
Proof.
  unfold entrySlotPath. destruct (negb _); [done|]. destruct (Rel _ _); [|done]. destruct (Split "/" _) as [|a [|b [|c [|]]]]; try done.
  cbn [existsb]. destruct (String.eqb a "" || HasPrefix a ".") eqn:E; [done|]. cbn [orb].
  match goal with |- context [if ?x then _ else _] => destruct x; [done|] end. intros Eo. exists a, b, c. split; [congruence|].
  intros ->. by vm_compute in E.
Qed.

(** Nothing below the staging directory but in [x], nor the slot or its lock, changed. *)
Definition elsewhere (x : string) (w w' : node) : Prop :=
  agree_but x w w' /\ get slot w' = get slot w /\ get lock w' = get lock w /\
  (forall f, held w' x f = None \/ held w' x f = held w x f) /\
  (is_folder (get stage w) = true -> is_folder (get stage w') = true) /\ (is_folder (get (parent slot) w) = true -> is_folder (get (parent slot) w') = true).

Lemma elsewhere_swept x w w' : tidy w -> elsewhere x w w' -> tidy w' /\ swept x w w'.
Proof.
  intros [T1 T2 T3 T4] (H1 & H2 & H3 & H4 & H5 & H6). split; [split|].
  - auto.
  - intros h n Hh Hn. destruct (decide (h = x)) as [->|Hne].
    + destruct (H4 retiredOriginFile) as [E|E]; [congruence|]. rewrite E in Hn. destruct (T2 x n Hh Hn) as (raw & -> & Hraw). exists raw. split; [done|].
      intros [m Hm]. apply Hraw. destruct (H4 retiredName) as [E'|E']; [congruence|]. rewrite <- E'. by eexists.
    + unfold record_ok, held in *. rewrite !H1 in * by done. by eapply T2.
  - by rewrite H3.
  - auto.
  - split; [done|]. split; [done|]. intros (Hp & [m Hm] & raw & Ho & Hr). destruct (H4 retiredOriginFile) as [E|E]; [congruence|]. destruct (H4 retiredName) as [E'|E']; [congruence|].
    split; [done|]. split; [rewrite <- E'; by eexists|]. exists raw. by rewrite <- E.
Qed.

Lemma elsewhere_mkdir x w e d : (forall q, (length C + 2 < length q)%nat -> ~ q `prefix_of` d) -> (forall r, ~ (stage ++ r) `prefix_of` d) -> elsewhere x w (exec (MkdirAll d) e w).1.
Proof.
  intros Hlong Hstage. assert (Hst : forall r, get (stage ++ r) (exec (MkdirAll d) e w).1 = get (stage ++ r) w) by (intros r; apply exec_frame; apply Hstage).
  assert (Hf : forall q, is_folder (get q w) = true -> is_folder (get q (exec (MkdirAll d) e w).1) = true).
  { intros q Hq. cbn. destruct (fault e); cbn; [destruct (mkdirs (take _ _) w) eqn:E; [|done]; by eapply mkdirs_keeps_folder|]. destruct (mkdirs _ w) eqn:E; [|done]. by eapply mkdirs_keeps_folder. }
  split; [by intros y r _; apply Hst|]. split; [apply exec_frame, Hlong; rewrite slot_length; lia|]. split; [apply exec_frame, Hlong; rewrite swap_lock_length; lia|].
  split; [intros f; right; apply Hst|]. split; apply Hf.
Qed.

Lemma elsewhere_touch x w p w' : touch p w = Ok w' -> (forall r, apart p (stage ++ r)) -> apart slot p -> apart lock p -> length p = (length C + 3)%nat -> elsewhere x w w'.
Proof.
  intros Ht Hst Hsl Hlk Hlen. assert (Hs : forall r, get (stage ++ r) w' = get (stage ++ r) w) by (intros r; eapply touch_get; [done|by apply apart_sym]).
  split; [by intros y r _; apply Hs|]. split; [by eapply touch_get|]. split; [by eapply touch_get|]. split; [by intros f; right; apply Hs|].
  split; [by rewrite <- (app_nil_r stage), Hs, app_nil_r|]. unfold touch in Ht. destruct (negb _); [done|]. destruct (get p w) as [[]|]; simplify_eq; [done|].
  unfold put. rewrite alter_folder; [done|]. intros Hp%prefix_length. rewrite Hlen, slot_parent, length_app in Hp. cbn in Hp. lia.
Qed.

Lemma elsewhere_move x a b c w w' : a <> tmpDir -> C ++ [a; b; c] <> slot -> C ++ [a; b; c] <> lock ->
  rename (stage ++ [x; retiredName]) (C ++ [a; b; c]) w = Ok w' -> elsewhere x w w'.
Proof.
  intros Ha Hos Hol Hr. set (src := stage ++ [x; retiredName]) in *. set (other := C ++ [a; b; c]) in *.
  assert (Hw : exists n, w' = put other n (drop_at src w)).
  { unfold rename in Hr. destruct (get src w) as [n|]; [|done]. destruct (negb _); [done|]. destruct (bool_decide _); [done|]. exists n. destruct (get other w) as [[]|], (is_folder (Some n)); congruence. }
  destruct Hw as [n ->]. assert (Hst : forall r, get (stage ++ r) (put other n (drop_at src w)) = get (stage ++ r) (drop_at src w)) by (intros r; apply get_alter_apart, apart_sym, other_stage; done).
  assert (Hfold : forall q, ~ other `prefix_of` q -> ~ src `prefix_of` q -> is_folder (get q (put other n (drop_at src w))) = is_folder (get q w)).
  { intros q Hq1 Hq2. unfold put. rewrite alter_folder by done. by apply alter_folder. }
  split; [intros y r Hy; rewrite Hst; by apply get_alter_apart, stage_apart|].
  split; [unfold put; rewrite get_alter_apart by (by apply slot_other); apply get_alter_apart, slot_stage|].
  split; [unfold put; rewrite get_alter_apart by (by apply lock_other); apply get_alter_apart, lock_stage|].
  split; [|split; intros Hf; rewrite Hfold; try done].
  - intros f. unfold held. rewrite Hst. destruct (decide (f = retiredName)) as [->|Hf]; [left; apply get_drop; [by destruct C|done]|right].
    apply get_alter_apart, apart_app, apart_cons. right. apply apart_cons. by left.
  - rewrite <- (app_nil_r stage). by apply other_stage.
  - intros Hp%prefix_length. unfold src in Hp. rewrite !length_app in Hp. cbn in Hp. lia.
  - intros Hp%prefix_length. unfold other in Hp. rewrite slot_parent, !length_app in Hp. cbn in Hp. lia.
  - rewrite <- (app_nil_r (parent slot)). apply parent_not_below, slot_stage.
Qed.

Lemma wp_restore_other x a b c w : a <> tmpDir -> C ++ [a; b; c] <> slot -> C ++ [a; b; c] <> lock -> tidy w ->
  chl aged (restoreRetired (stage ++ [x; retiredName]) (C ++ [a; b; c])) (fun _ => True) (fun _ w' => tidy w' /\ swept x w w') w.
Proof.
  intros Ha Hos Hol Ht. apply chl_bind, chl_bind, chl_sys; [done|]. intros e [He _]. split; [done|]. rewrite other_parent.
  destruct (elsewhere_swept x w (exec (MkdirAll (C ++ [a; b])) e w).1 Ht) as [Ht1 Hs1]; [apply elsewhere_mkdir; [apply short_not_above|by apply stage_not_above]|].
  destruct (exec (MkdirAll _) e w) as [w1 r]. cbn [fst snd] in *. apply chl_ret; [done|]. destruct r as [[]|]; [|by apply chl_ret]. cbn [ok_or].
  apply chl_bind, chl_bind, chl_sys; [done|]. clear e He. intros e [He _]. split; [done|]. cbn [exec]. rewrite He. unfold effect. rewrite He.
  destruct (touch _ w1) as [w2|] eqn:Eto; cbn [fst snd]; apply chl_ret; [done| |done|by apply chl_ret]. cbn [ok_or].
  destruct (elsewhere_swept x w1 w2 Ht1) as [Ht2 Hs2].
  { eapply elsewhere_touch; [done|by apply other_lock_stage|by apply slot_other_lock|by apply lock_other_lock|rewrite other_lock; by rewrite length_app]. }
  pose proof (swept_trans _ _ _ _ Hs1 Hs2) as Hs12. apply chl_bind, chl_sys; [done|]. clear e He. intros e [He _]. split; [done|]. cbn [exec fst snd]. unfold answering, found. rewrite He.
  destruct (get (C ++ [a; b; c]) w2) eqn:Eo; [by apply chl_ret|]. apply chl_bind, chl_bind, chl_sys; [done|]. clear e He. intros e [He _]. split; [done|].
  cbn [exec]. unfold effect. rewrite He. destruct (rename _ _ w2) as [w3|] eqn:Er; cbn [fst snd]; apply chl_ret; [done| |done|by apply chl_ret]. cbn [ok_or]. apply chl_ret; [done|].
  destruct (elsewhere_swept x w2 w3 Ht2) as [Ht3 Hs3]; [by eapply elsewhere_move|]. split; [done|]. by eapply swept_trans.
Qed.

Lemma mkdir_swept x w e : tidy w -> tidy (exec (MkdirAll (parent slot)) e w).1 /\ swept x w (exec (MkdirAll (parent slot)) e w).1.
Proof.
  intros Ht. apply elsewhere_swept; [done|]. apply elsewhere_mkdir; [|apply parent_of_slot_apart].
  intros q Hq Hp%prefix_length. rewrite slot_parent, length_app in Hp. cbn in Hp. lia.
Qed.

Lemma lock_swept x w e : tidy w -> tidy (exec (Lock slot) e w).1 /\ swept x w (exec (Lock slot) e w).1.
Proof.
  intros Ht. split; [by apply lock_tidy|]. split; [intros y r _; apply lock_stage_frame|]. split; [apply lock_slot_frame|].
  unfold claims, held. by rewrite !lock_stage_frame.
Qed.

Lemma wp_restore_occupied x w : tidy w -> replaced w ->
  chl aged (restoreRetired (stage ++ [x; retiredName]) slot) (fun _ => True) (fun _ w' => tidy w' /\ swept x w w') w.
Proof.
  intros Ht Hr. apply chl_bind, chl_bind, chl_sys; [done|]. intros e _. split; [done|]. destruct (mkdir_swept x w e Ht) as [Ht1 Hs1].
  destruct (exec (MkdirAll _) e w) as [w1 r]. cbn [fst snd] in *. apply chl_ret; [done|]. destruct r as [[]|]; [|by apply chl_ret]. cbn [ok_or].
  apply chl_bind, chl_bind, chl_sys; [done|]. clear e. intros e _. split; [done|]. destruct (lock_swept x w1 e Ht1) as [Ht2 Hs2].
  destruct (exec (Lock _) e w1) as [w2 r]. cbn [fst snd] in *. pose proof (swept_trans _ _ _ _ Hs1 Hs2) as Hs. apply chl_ret; [done|]. destruct r as [[]|]; [|by apply chl_ret]. cbn [ok_or].
  apply chl_bind, chl_sys; [done|]. clear e. intros e [He _]. split; [done|]. cbn [exec fst snd]. unfold answering, found. rewrite He.
  destruct (swept_states x w w2 Hs) as (_ & Hrep & _). unfold replaced in Hrep. rewrite Hrep by done. by apply chl_ret.
Qed.

Lemma wp_restore_aside x w : tidy w -> aside w x ->
  chl aged (restoreRetired (stage ++ [x; retiredName]) slot) (fun _ => True) (fun r w' => is_ok r = true /\ tidy w' /\ in_slot w') w.
Proof.
  intros Ht Ha. pose proof Ha as (Hsl & Hh & Hold & He & Ho & _). apply chl_bind, chl_bind, chl_sys; [done|]. intros e [Hf _]. split; [done|]. cbn [exec]. rewrite Hf.
  rewrite mkdirs_exists by (by apply t_parent). cbn [fst snd]. apply chl_ret; [done|]. cbn [ok_or].
  apply chl_bind, chl_bind, chl_sys; [done|]. clear e Hf. intros e [Hf _]. split; [done|].
  pose proof (lock_tidy w e Ht) as Ht1. assert (aside (exec (Lock slot) e w).1 x) as Ha1 by (apply (frame_states w); [intros r; apply lock_stage_frame|apply lock_slot_frame|done]).
  assert (Hok : (exec (Lock slot) e w).2 = Ok tt).
  { cbn. rewrite Hf. unfold effect, touch. rewrite Hf, lock_parent, (t_parent w Ht Hold). cbn. destruct (get lock w) as [n|] eqn:En; [|done]. destruct (t_lock w Ht n En) as [s ->]. done. }
  rewrite Hok. destruct (exec (Lock slot) e w) as [w1 r]. cbn [fst snd] in *. clear Hok r. apply chl_ret; [done|]. cbn [ok_or].
  apply chl_bind, chl_sys; [done|]. clear e Hf. intros e [Hf _]. split; [done|]. cbn [exec fst snd]. unfold answering, found. rewrite Hf, (proj1 Ha1).
  apply chl_bind, chl_bind, chl_sys; [done|]. clear e Hf. intros e [Hf _]. split; [done|]. cbn [exec]. unfold effect. rewrite Hf.
  assert (Hr : exists w2, rename (stage ++ [x; retiredName]) slot w1 = Ok w2).
  { destruct Ha1 as (G1 & _ & [t Ht'] & G4 & _). unfold held in G4. unfold rename. rewrite G4, Ht', G1. rewrite (t_parent w1 Ht1) by (by eexists). cbn.
    rewrite bool_decide_eq_false_2 by exact (proj2 (slot_stage _)). by eexists. }
  destruct Hr as [w2 Hr]. rewrite Hr. cbn [fst snd]. destruct (return_tidy w1 x w2 Ht1 Ha1 Hr) as (Ht2 & Hin & _). apply chl_ret; [done|]. by apply chl_ret.
Qed.

(** One holding tree: the entry that is aside goes back, and nothing else changes. *)
Definition after_turn (x : string) (w w' : node) : Prop := tidy w' /\ (aside w x /\ in_slot w' \/ ~ aside w x /\ swept x w w').

Lemma wp_drop x w w0 : tidy w -> (forall w', tidy w' -> swept x w w' -> after_turn x w0 w') ->
  chl aged (removeStaged (stage ++ [x])) (fun _ => True) (fun _ w' => after_turn x w0 w') w.
Proof.
  intros Ht Hq. apply chl_bind, chl_sys; [done|]. intros e [He _]. split; [done|]. cbn [exec]. rewrite He. cbn [fst snd]. destruct (sweep_drop x w Ht) as [Ht' Hs'].
  apply chl_ret; [done|]. by apply Hq.
Qed.

Lemma wp_sweepRetired x w : HasPrefix x retireStagePrefix = true -> tidy w -> settled w ->
  chl aged (sweepRetired C (stage ++ [x])) (fun _ => True) (fun _ w' => after_turn x w w') w.
Proof.
  intros Hx Ht Hset. unfold sweepRetired. rewrite <- !(app_assoc stage). cbn [app].
  assert (Hstay : ~ aside w x -> after_turn x w w) by (intros Hn; split; [done|right; split; [done|apply swept_refl]]).
  apply chl_bind, chl_sys; [done|]. intros e [He _]. split; [done|]. cbn [exec fst snd]. unfold answering, found. rewrite He. fold (held w x retiredName).
  destruct (held w x retiredName) as [t|] eqn:Et.
  2: { assert (~ aside w x) as Hna by (intros (_ & _ & [? Ho] & He' & _); congruence). apply chl_bind.
       eapply chl_mono; [apply (wp_drop x w w Ht); intros w' Ht' Hs'; split; [done|by right]|done|]. intros [] w' _ Hw'. by apply chl_ret. }
  apply chl_bind, chl_sys; [done|]. clear e He. intros e [He _]. split; [done|]. cbn [exec fst snd]. unfold answering. rewrite He.
  assert (follow w (stage ++ [x; retiredOriginFile]) = held w x retiredOriginFile) as ->.
  { unfold follow. change (get (stage ++ [x; retiredOriginFile]) w) with (held w x retiredOriginFile). destruct (held w x retiredOriginFile) as [n|] eqn:En.
    - destruct (t_records w Ht x n Hx En) as (raw & -> & _). done.
    - assert (parent (stage ++ [x; retiredOriginFile]) = stage ++ [x]) as -> by (unfold parent; change [x; retiredOriginFile] with ([x] ++ [retiredOriginFile]); rewrite app_assoc; apply removelast_last).
      by rewrite (held_folder w x retiredName) by (by eexists). }
  destruct (held w x retiredOriginFile) as [n|] eqn:En; [|apply chl_ret; [done|]; apply Hstay; intros (_ & _ & _ & _ & ? & _); congruence].
  destruct (t_records w Ht x n Hx En) as (raw & -> & Hraw). cbn [fst snd].
  destruct (entrySlotPath C (TrimSpace raw)) as [o|] eqn:Eo.
  2: { apply chl_ret; [done|]. apply Hstay. intros (_ & _ & _ & _ & Hor & _). rewrite En in Hor. injection Hor as ->. by rewrite entrySlotPath_slot in Eo. }
  assert (Hfin : forall v, tidy v -> (forall v', tidy v' -> swept x v v' -> after_turn x w v') -> forall r : result error bool,
    (is_ok r = false -> after_turn x w v) ->
    chl aged (match r with Err _ => Ret [LeftInPlace (stage ++ [x])] | Ok restored => do _ <- removeStaged (stage ++ [x]); Ret (if restored then [Restored o] else []) end)
      (fun _ => True) (fun _ w' => after_turn x w w') v).
  { intros v Hv Hturn r Hr. destruct r as [b|]; [|apply chl_ret; [done|]; by apply Hr]. apply chl_bind. eapply chl_mono; [by apply wp_drop|done|]. intros [] v' _ Hv'. by apply chl_ret. }
  assert (Hna : ~ aside w x -> forall v (r : result error bool), tidy v -> swept x w v ->
    chl aged (match r with Err _ => Ret [LeftInPlace (stage ++ [x])] | Ok restored => do _ <- removeStaged (stage ++ [x]); Ret (if restored then [Restored o] else []) end)
      (fun _ => True) (fun _ w' => after_turn x w w') v).
  { intros Hn v r Hv Hs. apply Hfin; [done| |].
    - intros v' Hv' Hs'. split; [done|]. right. split; [done|]. by eapply swept_trans.
    - intros _. split; [done|]. by right. }
  apply chl_bind. destruct (decide (o = slot)) as [->|Hne].
  - assert (Hcl : claims w x) by (split; [done|]; split; [rewrite Et; by eexists|exists raw; by rewrite En]).
    destruct Hset as [[_ Hno]|[Hr|(h & Ha)]]; [by destruct (Hno x)| |].
    + assert (~ aside w x) as Hn by (intros (Hs & _); unfold replaced in Hr; congruence).
      eapply chl_mono; [by apply wp_restore_occupied|done|]. intros r v _ [Hv Hs]. by apply Hna.
    + pose proof Ha as (_ & _ & _ & _ & _ & Hu). rewrite <- (Hu x Hcl) in Ha. eapply chl_mono; [by apply wp_restore_aside|done|]. intros r v _ (Hok & Hv & Hin).
      apply Hfin; [done| |by rewrite Hok]. intros v' Hv' Hs'. split; [done|]. left. split; [done|]. by apply (swept_states x v v').
  - assert (~ aside w x) as Hn. { intros (_ & _ & _ & _ & Hor & _). rewrite En in Hor. injection Hor as ->. rewrite entrySlotPath_slot in Eo. by injection Eo. }
    assert (o <> lock) as Hlk by (intros ->; apply Hraw; [rewrite Et; by eexists|done]).
    destruct (entrySlotPath_shape _ _ Eo) as (a & b & c & -> & Ha). eapply chl_mono; [by apply wp_restore_other|done|]. intros r v _ [Hv Hs]. by apply Hna.
Qed.

Lemma aside_claims w h : aside w h -> claims w h.
Proof. intros (_ & Hh & Ho & He & Hr & _). split; [done|]. rewrite He. split; [done|]. eexists. split; [done|]. apply entrySlotPath_slot. Qed.

Lemma aside_alone w h : aside w h -> ~ in_slot w /\ ~ replaced w.
Proof. intros (Hs & _ & [t Ho] & _). split; [intros [E _]; congruence|]. unfold replaced. congruence. Qed.

(** The tree that holds the entry is still among those to come. *)
Definition to_come (l : list (string * kind)) (w : node) : Prop := tidy w /\ settled w /\ forall h, aside w h -> (h, KDir) ∈ l.

Lemma turn_to_come x l w w' : to_come ((x, KDir) :: l) w -> after_turn x w w' -> to_come l w'.
Proof.
  intros (Ht & Hset & Hin) [Ht' [[Ha Hin']|[Hn Hs]]].
  - split; [done|]. split; [by left|]. intros h Hh. by destruct (aside_alone w' h Hh) as [[] _].
  - destruct (swept_states x w w' Hs) as (S1 & S2 & S3). split; [done|]. destruct Hset as [H|[H|(h0 & H)]].
    + split; [left; auto|]. intros h Hh. by destruct (aside_alone w' h Hh) as [[] _]; auto.
    + split; [right; left; auto|]. intros h Hh. by destruct (aside_alone w' h Hh) as [_ []]; auto.
    + assert (h0 <> x) as Hne by (by intros ->). pose proof (S3 h0 Hne H) as Ha'. split; [right; right; by exists h0|].
      intros h Hh. pose proof Ha' as (_ & _ & _ & _ & _ & Hu). rewrite (Hu h (aside_claims w' h Hh)). specialize (Hin h0 H). apply elem_of_cons in Hin as [[= ->]|Hin]; done.
Qed.

(** The new content stays, and otherwise the old one is in the slot again. *)
Definition outcome (w w' : node) : Prop := (replaced w -> replaced w') /\ (in_slot w \/ (exists h, aside w h) -> in_slot w').

Lemma turn_outcome x w w1 w' : after_turn x w w1 -> outcome w1 w' -> outcome w w'.
Proof.
  intros [_ Hturn] [O1 O2]. destruct Hturn as [[Ha Hin]|[Hn Hs]].
  - split; [intros Hr; by destruct (aside_alone w x Ha)|]. intros _. apply O2. by left.
  - destruct (swept_states x w w1 Hs) as (S1 & S2 & S3). split; [auto|]. intros [H|(h & H)]; apply O2; [left; auto|right; exists h; apply S3; [by intros ->|done]].
Qed.

Lemma wp_sweep_each staged w : to_come staged w ->
  chl aged (sweep_each C stage staged) (fun _ => True) (fun _ w' => outcome w w') w.
Proof.
  revert w. induction staged as [|[x k] l IH]; intros w Hw; cbn [sweep_each].
  { apply chl_ret; [done|]. destruct Hw as (_ & _ & Hin). split; [done|]. intros [H|(h & H)]; [done|]. by specialize (Hin h H); apply elem_of_nil in Hin. }
  destruct k; [apply IH; destruct Hw as (Ht & Hs & Hin); do 2 (split; [done|]); intros h Hh; by specialize (Hin h Hh); apply elem_of_cons in Hin as [|]..|].
  apply chl_bind, chl_sys; [done|]. intros e [He Hy]. split; [done|]. cbn [exec fst snd]. unfold answering, found. rewrite He, Hy.
  destruct (get (stage ++ [x]) w) as [t|] eqn:Ex.
  2: { apply chl_bind. eapply chl_mono; [apply IH|done|by intros a w' _ Hw'; apply chl_ret]. eapply turn_to_come; [done|]. split; [apply Hw|]. right. split; [|apply swept_refl].
       intros Ha. pose proof (held_folder w x retiredName) as Hf. rewrite Ex in Hf. destruct Ha as (_ & _ & Ho & E & _). rewrite E in Hf. by specialize (Hf Ho). }
  apply chl_bind.
  assert (Hnext : forall w1, after_turn x w w1 -> forall w0 : list Warning, chl aged (do ws <- sweep_each C stage l; Ret (w0 ++ ws)) (fun _ => True) (fun _ w' => outcome w w') w1).
  { intros w1 H1 w0. apply chl_bind. eapply chl_mono; [apply IH; by eapply turn_to_come|done|]. intros ws w' _ Hw'. apply chl_ret; [done|]. by eapply turn_outcome. }
  destruct (HasPrefix x retireStagePrefix) eqn:Hret; [|assert (~ aside w x) as Hn by (intros (_ & Hp & _); congruence); destruct (_ || _)].
  - eapply chl_mono; [apply wp_sweepRetired; [done|apply Hw..]|done|]. intros w0 w1 _ H1. by apply Hnext.
  - apply chl_bind. eapply chl_mono; [apply (wp_drop x w w); [apply Hw|]; intros w' Ht' Hs'; split; [done|by right]|done|]. intros [] w1 _ H1. apply chl_ret; [done|]. by apply Hnext.
  - apply chl_ret; [done|]. apply Hnext. split; [apply Hw|]. right. split; [done|apply swept_refl].
Qed.

Lemma wp_sweepStaging w : intact w -> chl aged (sweepStaging C) (fun _ => True) (fun _ w' => outcome w w') w.
Proof.
  intros [Ht Hs]. apply chl_bind, chl_sys; [done|]. intros e [He _]. split; [done|]. cbn [exec fst snd]. unfold answering. rewrite He.
  pose proof (t_stage w Ht) as Hf. unfold follow. destruct (get stage w) as [[| |k]|] eqn:Ek; try done. cbn [list_dir]. apply wp_sweep_each. split; [done|]. split; [unfold settled; tauto|].
  intros h Ha. rewrite merge_sort_Permutation. pose proof (held_folder w h retiredName) as Hh. destruct Ha as (_ & _ & Ho & E & _). rewrite E in Hh. specialize (Hh Ho).
  rewrite get_snoc, Ek in Hh. destruct (k !! h) as [[| |k']|] eqn:Eh; try done. apply list_elem_of_fmap. exists (h, Folder k'). split; [done|]. by apply elem_of_map_to_list.
Qed.
End Places.

(** ** Install, crash, sweep *)

(** A tidy cache with the staged content [new] and no tree that claims the slot. *)
Definition ready (C : path) (id : BundleID) (key cs : string) (old : option node) (new w : node) : Prop :=
  Forall seg_ok C /\ conforms (Namespace id) /\ conforms (Name id) /\ key_ok key /\ HasPrefix cs contentStagePrefix = true /\ is_folder (Some new) = true /\
  tidy C id key old w /\ get (C ++ [tmpDir; cs]) w = Some new /\ in_slot C id key old w.

(** C16: Replacing a cached bundle is safe against failing calls and crashes.  The
    staging directory is as installs leave it: no holding tree of an earlier
    replacement still claims the slot (after two interrupted replacements the sweep may
    restore the older copy), records of origin are files and none names the slot's
    lock, the lock is a file, the entry's key is alphanumeric and its identity valid.
    Then, however the calls of a commit fail and after whichever of them it is cut off,
    a later sweep whose own calls succeed and for which the trees are old enough leaves
    in the slot either exactly what was there before or exactly the new content; a
    commit that reports success has put the new content there, and one that reports an
    error has not lost the old, which is in the slot again after the sweep. *)
Theorem interrupted_install_recovers C id key cs old new w es n es'
    (Hready : ready C id key cs old new w) (Hquiet : Forall aged es') :
  let slot := entry_slot C id key in
  let swap := commit (C ++ [tmpDir]) (C ++ [tmpDir; cs]) slot in
  let crashed := (run es' (sweepStaging C) (cut n es swap w)).1 in
  let done_ := (run es swap w).1 in
  let after := (run es' (sweepStaging C) done_).1 in
  (get slot crashed = old \/ get slot crashed = Some new) /\
  match (run es swap w).2 with
  | Ok _ => get slot done_ = Some new /\ get slot after = Some new
  | Err _ => get slot after = old
  end.
Proof.
  destruct Hready as (HC & Hns & Hnm & Hk & Hcs & Hnew & Ht & Hc & Hin). cbn zeta. set (slot := entry_slot C id key).
  assert (Hp : pending C id key cs old new w) by (split; [done|]; split; [by rewrite <- app_assoc|by left]).
  pose proof (wp_commit C id key HC Hns Hnm Hk cs Hcs old new Hnew w Hp) as Hw. rewrite <- app_assoc in Hw. cbn [app] in Hw.
  assert (Hall : forall l, Forall any l) by (intros l; by apply Forall_true).
  assert (Hsweep : forall v, intact C id key old new v -> outcome C id key old new v (run es' (sweepStaging C) v).1).
  { intros v Hv. apply (chl_run aged _ _ _ v es' (wp_sweepStaging C id key HC Hns Hnm Hk old new v Hv)); [done|by split]. }
  split.
  - pose proof (chl_cut any _ _ _ w es n Hw (Hall es) I) as Hi. destruct (Hsweep _ Hi) as [O1 O2]. destruct Hi as [_ [H|[H|H]]]; [left; apply O2; by left|left; apply O2; by right|right; by apply O1].
  - pose proof (chl_run any _ _ _ w es Hw (Hall es) I) as Hr. destruct (run es _ w) as [v [[]|x]]; cbn [fst snd committed] in *.
    + destruct Hr as [Ht' Hr']. split; [done|]. destruct (Hsweep v) as [O1 _]; [by split; [|right; right]|]. by apply O1.
    + pose proof (pending_intact C id key cs old new v Hr) as Hi. destruct (Hsweep v Hi) as [_ O2]. apply O2. apply Hr.
Qed.

(** ** An example *)

Definition ex_id : BundleID := mkID "acme" "tools".
Definition ex_key : string := "0123456789ab".
Definition ex_old : node := Folder {[ "harnesses" := Folder ∅; "v" := Reg "1" ]}.
Definition ex_new : node := Folder {[ "harnesses" := Folder ∅; "v" := Reg "2" ]}.
Definition ex_cache : path := ["data"; "bundles"].
Definition ex_slot : path := entry_slot ex_cache ex_id ex_key.
Definition ex_world : node :=
  Folder {[ "data" := Folder {[ "bundles" := Folder {[ tmpDir := Folder {[ "content-7" := ex_new ]}; "acme" := Folder {[ "tools" := Folder {[ ex_key := ex_old ]} ]} ]} ]} ]}.
Definition ex_swap : prog (result error unit) := commit (ex_cache ++ [tmpDir]) (ex_cache ++ [tmpDir; "content-7"]) ex_slot.

Lemma ex_held h f : HasPrefix h retireStagePrefix = true -> held ex_cache ex_world h f = None.
Proof.
  intros Hh. unfold held. rewrite get_app.
  assert (get (ex_cache ++ [tmpDir]) ex_world = Some (Folder {[ "content-7" := ex_new ]})) as -> by (vm_compute; reflexivity).
  cbn [get]. rewrite lookup_singleton_ne; [done|]. intros <-. by vm_compute in Hh.
Qed.

Lemma ex_ready : ready ex_cache ex_id ex_key "content-7" (Some ex_old) ex_new ex_world.
Proof.
  split; [repeat (apply Forall_cons_2; [by repeat split|]); apply Forall_nil_2|]. do 2 (split; [vm_compute; reflexivity|]). split; [by split|]. split; [vm_compute; reflexivity|]. split; [done|].
  split; [|split; [vm_compute; reflexivity|split; [vm_compute; reflexivity|intros h (Hh & [n Hn] & _); by rewrite ex_held in Hn]]].
  split; [vm_compute; reflexivity| | |intros _; vm_compute; reflexivity].
  - intros h n Hh Hn. by rewrite ex_held in Hn.
  - intros n Hn. by vm_compute in Hn.
Qed.

(** Cut off between the two renames, the slot is empty; the sweep fills it again. *)
Lemma interrupted_install_recovers_witness :
  get ex_slot (cut 6 [] ex_swap ex_world) = None /\
  (get ex_slot (run [] (sweepStaging ex_cache) (cut 6 [] ex_swap ex_world)).1 = Some ex_old \/
   get ex_slot (run [] (sweepStaging ex_cache) (cut 6 [] ex_swap ex_world)).1 = Some ex_new).
Proof.
  split; [vm_compute; reflexivity|].
  exact (proj1 (interrupted_install_recovers ex_cache ex_id ex_key "content-7" (Some ex_old) ex_new ex_world [] 6 [] ex_ready (Forall_nil_2 _))).
Defined.

(** ** What the sweep cannot tell *)

Definition broken : env := mkEnv (Some EOTHER) 0 [] None "0" false (Err EOTHER) 0.
Definition ex_manager : Manager := mkManager [] None (fun _ => Err "") ex_cache.

(** A replaced entry whose holding tree could not be discarded comes back after the
    bundle is purged: the sweep takes the empty slot for an interrupted install. *)
Lemma purged_entry_returns :
  let w1 := (run (replicate 7 calm ++ [broken]) ex_swap ex_world).1 in
  let w2 := (run [] (RemoveBundle ex_manager ex_id) w1).1 in
  get ex_slot w1 = Some ex_new /\ get ex_slot w2 = None /\
  let '(w3, ws) := run [] (sweepStaging ex_cache) w2 in get ex_slot w3 = Some ex_old /\ ws = [Restored ex_slot].
Proof. vm_compute. done. Qed.

(** After two interrupted replacements the sweep restores the tree whose random name
    comes first, which may be the older copy, and discards the other. *)
Lemma older_copy_restored :
  let older := Folder {[ "v" := Reg "0" ]} in
  let w := put (ex_cache ++ [tmpDir; "retire-1"]) (Folder {[ retiredName := older; retiredOriginFile := Reg (abs ex_slot) ]}) ex_world in
  let cutoff := cut 6 [calm; calm; calm; mkEnv None 0 [] None "2" false (Err EOTHER) 0] ex_swap w in
  get ex_slot w = Some ex_old /\ get ex_slot cutoff = None /\
  get ex_slot (run [] (sweepStaging ex_cache) cutoff).1 = Some older /\ get (ex_cache ++ [tmpDir; "retire-2"]) (run [] (sweepStaging ex_cache) cutoff).1 = None.
Proof. vm_compute. done. Qed.

End BundleSwap.
