(* ===== verification/BundleStage.v ===== *)
(** * The staged tree and its receipt

    The content of a fetched bundle is copied, its links are checked by resolving
    them, and only then the receipt is written (install.go): no link of the tree that
    is published reaches out of it or onto the receipt. *)

From S2P Require Import Prelude GoStrings GoPath BundleNames BundleFS Bundle BundleSwap.
Import Go GoPath BundleNames BundleFS Bundle BundleSwap.
Open Scope prog_scope.

Module BundleStage.

(** ** Programs that only read *)

Definition is_read (c : call) : bool :=
  match c with ReadDir _ | Lstat _ | Stat _ | ReadFile _ | EvalSymlinks _ | ReadTree _ | Young _ | ResolveRef _ _ | Now => true | _ => false end.
Inductive reads {A} : prog A -> Prop :=
| reads_ret a : reads (Ret a)
| reads_do c k : is_read c = true -> (forall x, reads (k x)) -> reads (Do c k).

Lemma is_read_exec c e w : is_read c = true -> (exec c e w).1 = w.
Proof. by destruct c. Qed.

Lemma reads_bind {A B} (p : prog A) (f : A -> prog B) : reads p -> (forall a, reads (f a)) -> reads (bind p f).
Proof. intros Hp Hf. induction Hp as [a|c k Hc _ IH]; [apply Hf|]. by constructor. Qed.

Lemma reads_sys c : is_read c = true -> reads (sys c).
Proof. intros Hc. constructor; [done|]. intros x. constructor. Qed.

Lemma reads_lift {A} (p : prog (result errno A)) : reads p -> reads (lift p).
Proof. intros Hp. apply reads_bind; [done|]. intros a. constructor. Qed.

Lemma reads_run {A} (p : prog A) es w : reads p -> (run es p w).1 = w.
Proof.
  intros Hp. revert es. induction Hp as [a|c k Hc _ IH]; intros es; [done|]. cbn. pose proof (is_read_exec c (now_in es) w Hc) as Hw.
  destruct (exec c (now_in es) w) as [w' x]. cbn in Hw. subst w'. apply IH.
Qed.

Lemma reads_chl {A} P (p : prog A) (Q : A -> node -> Prop) w : reads p -> (forall a, Q a w) -> chl P p (fun _ => True) Q w.
Proof.
  intros Hp HQ. induction Hp as [a|c k Hc _ IH]; [by split|]. split; [done|]. intros e He. rewrite (is_read_exec c e w Hc). apply IH.
Qed.

Create HintDb reads.
#[export] Hint Resolve reads_ret : reads.
#[export] Hint Extern 1 (reads (sys ?c)) => exact (reads_sys c eq_refl) : reads.
#[export] Hint Extern 1 (reads (lift _)) => apply reads_lift : reads.
#[export] Hint Extern 5 (reads (bind _ _)) => apply reads_bind; [|intros ?] : reads.
#[export] Hint Extern 4 (reads (match ?x with _ => _ end)) => destruct x : reads.

Section Loading.
Context `{Deps}.

Lemma reads_enumerateComponentType fs d id t : reads (enumerateComponentType fs d id t).
Proof. unfold enumerateComponentType. auto with reads. Qed.
#[local] Hint Resolve reads_enumerateComponentType : reads.

Lemma reads_enumerate_dirs fs d id l : reads (enumerate_dirs fs d id l).
Proof. induction l as [|x l IH]; cbn [enumerate_dirs]; auto 10 with reads. Qed.
#[local] Hint Resolve reads_enumerate_dirs : reads.

Lemma reads_LoadBundleDir fs d : reads (LoadBundleDir fs d).
Proof. unfold LoadBundleDir, loadBundleManifest, enumerateComponents. auto 15 with reads. Qed.
#[local] Hint Resolve reads_LoadBundleDir : reads.

Lemma reads_stagedVersion st d sha : reads (stagedVersion st d sha).
Proof. unfold stagedVersion. auto 10 with reads. Qed.

Lemma reads_validateStaged st d : reads (validateStaged st d).
Proof. unfold validateStaged. auto 15 with reads. Qed.

Lemma reads_readReceipt p : reads (readReceipt p).
Proof. unfold readReceipt. auto 10 with reads. Qed.
End Loading.
#[export] Hint Resolve reads_LoadBundleDir reads_stagedVersion reads_validateStaged reads_readReceipt : reads.

(** ** Trees that only lost something *)

(** What the first tree has, the second has too, with the same content. *)
Definition leq (w w' : node) : Prop :=
  forall p, match get p w with None => True | Some (Folder _) => is_folder (get p w') = true | Some n => get p w' = Some n end.

Lemma leq_refl w : leq w w.
Proof. intros p. by destruct (get p w) as [[]|]. Qed.

Lemma leq_trans w1 w2 w3 : leq w1 w2 -> leq w2 w3 -> leq w1 w3.
Proof.
  intros H1 H2 p. specialize (H1 p). specialize (H2 p). destruct (get p w1) as [[]|]; [by rewrite H1 in H2..| |done]. by destruct (get p w2) as [[]|].
Qed.

Lemma get_drop_cases p q w : p <> [] -> get q (drop_at p w) = None \/ get q (drop_at p w) = get q w \/ is_folder (get q w) = true /\ is_folder (get q (drop_at p w)) = true.
Proof.
  revert q w. induction p as [|x p IH]; intros q w Hp; [done|]. unfold drop_at in *. destruct w as [| |k]; [by right; left; destruct p..|].
  destruct q as [|y q]; [right; right; split; [done|]; destruct p; [done|]; cbn; by destruct (k !! x)|].
  destruct (decide (x = y)) as [->|Hne]; [|right; left; apply get_alter_apart, apart_cons; by left].
  destruct (decide (p = [])) as [->|Hp']; [left; cbn; by rewrite lookup_partial_alter_eq|]. rewrite alter_cons by done.
  destruct (k !! y) as [c|] eqn:Hy; [|by right; left]. cbn. rewrite lookup_insert_eq, Hy. by apply IH.
Qed.

Lemma leq_drop p w : p <> [] -> leq (drop_at p w) w.
Proof.
  intros Hp q. destruct (get_drop_cases p q w Hp) as [->|[->|[H1 H2]]]; [done|apply leq_refl|]. by destruct (get q (drop_at p w)) as [[]|].
Qed.

(** ** Links that reach the receipt are not carried *)

(** A path through directories is its own resolution. *)
Lemma walk_physical links w dest rest : Forall seg_ok rest -> is_folder (get (dest ++ rest) w) = true -> walkSymlinks links w dest rest = Some (dest ++ rest).
Proof.
  revert dest. induction rest as [|x rest IH]; intros dest Hs Hf; [destruct links; cbn; by rewrite app_nil_r|].
  inversion_clear Hs as [|? ? (H1 & H2 & H3 & _) Hs']. assert (Hx : is_folder (get (dest ++ [x]) w) = true).
  { change (x :: rest) with ([x] ++ rest) in Hf. rewrite app_assoc, get_app in Hf. destruct (get (dest ++ [x]) w) as [[]|]; [by destruct rest..|done|done]. }
  specialize (IH (dest ++ [x]) Hs'). rewrite <- app_assoc in IH. specialize (IH Hf).
  destruct links; cbn in IH |- *; rewrite (proj2 (String.eqb_neq _ _) H1), (proj2 (String.eqb_neq _ _) H2), (proj2 (String.eqb_neq _ _) H3); cbn; destruct (get (dest ++ [x]) w) as [[]|]; done.
Qed.

(** [w] is [v], or less, and the receipt at [R]. *)
Definition receipted (R : path) (w v : node) : Prop :=
  get R v = None /\ (exists d, get R w = Some (Reg d)) /\
  forall p, p <> R -> match get p w with None => True | Some (Folder _) => is_folder (get p v) = true | Some n => get p v = Some n end.

Lemma parent_prefix p : parent p `prefix_of` p.
Proof. destruct (decide (p = [])) as [->|Hp]; [done|]. rewrite (app_removelast_last "" Hp) at 2. by apply prefix_app_r. Qed.

(** A walk that succeeds with the receipt there gave the same result before it was,
    unless it ends at the receipt, and then it failed. *)
Lemma walk_receipted R w v links dest rest q : receipted R w v -> R <> [] -> ~ R `prefix_of` dest ->
  walkSymlinks links w dest rest = Some q -> (q <> R /\ walkSymlinks links v dest rest = Some q) \/ (q = R /\ walkSymlinks links v dest rest = None).
Proof.
  intros (Hv & (d & Hw) & Hp) HR. revert dest rest. induction links as [|links IHl]; intros dest rest; revert dest; induction rest as [|x rest IH]; intros dest Hd; cbn.
  1, 3: intros [= <-]; left; split; [by intros ->; apply Hd|done].
  all: destruct (String.eqb x "" || String.eqb x "."); [by apply IH|].
  all: destruct (String.eqb x ".."); [apply IH; intros Hpre; apply Hd; etransitivity; [done|apply parent_prefix]|].
  all: destruct (decide (dest ++ [x] = R)) as [->|Hne]; [rewrite Hw, Hv; destruct rest; [intros [= <-]; by right|done]|].
  all: assert (~ R `prefix_of` dest ++ [x]) as Hd' by (intros [r Hr]; destruct r as [|y r] using rev_ind; [apply Hne; by rewrite app_nil_r in Hr|]; rewrite app_assoc in Hr; apply app_inj_tail in Hr as [-> _]; apply Hd; by apply prefix_app_r).
  all: pose proof (Hp (dest ++ [x]) Hne) as Hx; destruct (get (dest ++ [x]) w) as [[s|t|k]|] eqn:Eg; [|..|done].
  1, 4: rewrite Hx; destruct rest; [intros [= <-]; by left|done].
  2, 4: destruct (get (dest ++ [x]) v) as [[| |k']|]; try done; by apply IH.
  - done.
  - rewrite Hx. apply IHl. destruct (IsAbs t); [|done]. intros Hpre%prefix_nil_inv. done.
Qed.

Lemma map_fold_cons {B} (f : string -> node -> B) (k : gmap string node) x c : k !! x = Some c -> (x, f x c) ∈ map_fold (fun x c acc => (x, f x c) :: acc) [] k.
Proof.
  intros Hx. rewrite map_fold_foldr. apply elem_of_map_to_list in Hx. induction (map_to_list k) as [|[y d] l IH]; [by apply elem_of_nil in Hx|]. cbn.
  apply elem_of_cons in Hx as [[= -> ->]|Hx]; [by left|right; auto].
Qed.

Lemma map_fold_cons_inv {B} (f : string -> node -> B) (k : gmap string node) y : y ∈ map_fold (fun x c acc => (x, f x c) :: acc) [] k -> exists x c, k !! x = Some c /\ y = (x, f x c).
Proof.
  rewrite map_fold_foldr. assert (H : forall x c, (x, c) ∈ map_to_list k -> k !! x = Some c) by (intros x c; apply elem_of_map_to_list). revert H.
  induction (map_to_list k) as [|[x d] l IH]; cbn; intros H Hy; [by apply elem_of_nil in Hy|]. apply elem_of_cons in Hy as [->|Hy]; [exists x, d; split; [apply H; by left|done]|].
  apply IH; [|done]. intros x' c' Hin. apply H. by right.
Qed.

(** The walk meets every link. *)
Lemma links_of_complete at_ rel n t : get rel n = Some (Sym t) -> at_ ++ rel ∈ links_of at_ n.
Proof.
  revert at_ n. induction rel as [|x rel IH]; intros at_ n Hg; [cbn in Hg; simplify_eq; cbn; rewrite app_nil_r; by left|].
  destruct n as [| |k]; [done..|]. cbn in Hg. destruct (k !! x) as [c|] eqn:Hx; [|done]. specialize (IH (at_ ++ [x]) c Hg). rewrite <- app_assoc in IH. cbn [app] in IH.
  cbn [links_of]. apply list_elem_of_In, in_concat. exists (links_of (at_ ++ [x]) c). split; [|by apply list_elem_of_In].
  apply list_elem_of_In, list_elem_of_fmap. exists (x, links_of (at_ ++ [x]) c). split; [done|]. rewrite merge_sort_Permutation. by apply (map_fold_cons (fun x c => links_of (at_ ++ [x]) c)).
Qed.

(** The copy has nothing under the receipt's name. *)
Lemma copyTree_no_receipt src t c d : copyTree src [] t = (Some c, d) -> get [ReceiptFile] c = None.
Proof.
  destruct t as [s|tg|k]; cbn [copyTree].
  - by intros [= <- _].
  - destruct (copySymlink _ _ _) as [c'|] eqn:E; [|done]. intros [= <- _]. unfold copySymlink in E. destruct (_ || _); [done|]. by injection E as <-.
  - intros [= <- _]. cbn [get]. rewrite not_elem_of_list_to_map_1; [done|]. intros Hin. apply list_elem_of_fmap in Hin as ((x & n) & Hxe & Hin). cbn in Hxe. subst x.
    apply list_elem_of_omap in Hin as ((x & o & dr) & Hin & Ho). rewrite merge_sort_Permutation in Hin.
    apply (map_fold_cons_inv (fun x c => if not_copied ([] ++ [x]) c then (None, []) else copyTree src ([] ++ [x]) c)) in Hin as (x' & c & _ & [= -> Eo]).
    destruct o as [o|]; [|done]. injection Ho as -> <-. cbn in Eo. done.
Qed.

(** ** The check of the links *)

Section Stage.
Context (S : path) (HS : Forall seg_ok S) (HSne : S <> []).

(** The link was seen to resolve inside the stage, when the tree still had everything
    it has now. *)
Definition checked (w : node) (rel : path) : Prop :=
  exists v q, leq w v /\ get (S ++ [ReceiptFile]) v = None /\ walkSymlinks maxLinks v [] (S ++ rel) = Some q /\ S `prefix_of` q.

Lemma checked_leq w w' rel : leq w' w -> checked w rel -> checked w' rel.
Proof. intros Hl (v & q & H1 & H2). exists v, q. split; [by eapply leq_trans|done]. Qed.

Lemma leq_none w w' p : leq w' w -> get p w = None -> get p w' = None.
Proof. intros Hl Hp. specialize (Hl p). rewrite Hp in Hl. by destruct (get p w') as [[]|]. Qed.

Lemma escapes_prefix q : escapesRoot S q = false -> S `prefix_of` q.
Proof.
  unfold escapesRoot. destruct (bool_decide_reflect (q = S)) as [->|_]; [done|]. rewrite bool_decide_eq_true_2 by done. cbn. intros H%negb_false_iff. by apply bool_decide_eq_true in H.
Qed.

Lemma wp_sanitize_links links w : get (S ++ [ReceiptFile]) w = None ->
  chl any (sanitize_links S S links) (fun _ => True)
    (fun r w' => leq w' w /\ match r with Err _ => True | Ok _ => forall rel t, rel ∈ links -> get (S ++ rel) w' = Some (Sym t) -> checked w' rel end) w.
Proof.
  revert w. induction links as [|rel links IH]; intros w Hno; cbn [sanitize_links].
  { apply chl_ret; [done|]. split; [apply leq_refl|]. intros rel t Hin. by apply elem_of_nil in Hin. }
  apply chl_bind, chl_sys; [done|]. intros e _. split; [done|]. cbn [exec fst snd]. destruct (stagedLinkResolvesSafely S _) eqn:Es.
  - unfold stagedLinkResolvesSafely, answering in Es. destruct (fault e); [done|]. destruct (walkSymlinks maxLinks w [] (S ++ rel)) as [q|] eqn:Ew; [|done]. apply negb_true_iff, escapes_prefix in Es.
    eapply chl_mono; [by apply IH|done|]. intros r w' _ [Hl Hr]. split; [done|]. destruct r as [d|]; [|done]. intros rel' t Hin Hg.
    apply elem_of_cons in Hin as [->|Hin]; [|by eapply Hr]. by exists w, q.
  - apply chl_bind, chl_bind, chl_sys; [done|]. clear e Es. intros e _. split; [done|]. cbn [exec]. unfold effect.
    destruct (fault e); cbn [fst snd]; [apply chl_ret; [done|]; apply chl_ret; [done|]; by split; [apply leq_refl|]|].
    destruct (remove (S ++ rel) w) as [w1|] eqn:Er; cbn [fst snd]; (apply chl_ret; [done|]); [|apply chl_ret; [done|]; by split; [apply leq_refl|]]. cbn [ok_or].
    assert (w1 = drop_at (S ++ rel) w) as ->. { unfold remove in Er. destruct (get (S ++ rel) w) as [[]|]; [..|destruct (bool_decide _)|]; congruence. }
    assert (S ++ rel <> []) as Hne by (by destruct S). pose proof (leq_drop (S ++ rel) w Hne) as Hl1.
    apply chl_bind. eapply chl_mono; [apply IH; by eapply leq_none|done|]. intros r w' _ [Hl Hr].
    destruct r as [d|]; (apply chl_ret; [done|]); (split; [by eapply leq_trans|]); [|done]. intros rel' t Hin Hg.
    apply elem_of_cons in Hin as [->|Hin]; [|by eapply Hr]. specialize (Hl (S ++ rel)). rewrite Hg in Hl. by rewrite get_drop in Hl.
Qed.

(** Every link left in the tree was checked. *)
Definition sanitized (w : node) : Prop := get (S ++ [ReceiptFile]) w = None /\ forall rel t, get (S ++ rel) w = Some (Sym t) -> checked w rel.

Lemma wp_sanitizeStagedLinks w : is_folder (get S w) = true -> get (S ++ [ReceiptFile]) w = None ->
  chl any (sanitizeStagedLinks S) (fun _ => True) (fun r w' => match r with Err _ => True | Ok _ => sanitized w' end) w.
Proof.
  intros Hf Hno. apply chl_bind, chl_bind, chl_sys; [done|]. intros e _. split; [done|]. cbn [exec fst snd]. rewrite (walk_physical maxLinks w [] S) by done. unfold answering.
  apply chl_ret; [done|]. destruct (fault e); cbn [ok_or]; [by apply chl_ret|].
  apply chl_bind, chl_bind, chl_sys; [done|]. clear e. intros e _. split; [done|]. cbn [exec fst snd]. unfold answering, found.
  apply chl_ret; [done|]. destruct (fault e); cbn [ok_or]; [by apply chl_ret|]. destruct (get S w) as [n|] eqn:En; [|done]. cbn [ok_or id].
  eapply chl_mono; [by apply wp_sanitize_links|done|]. intros [d|] w' _ [Hl Hr]; [|done]. split; [by eapply leq_none|]. intros rel t Hg. eapply Hr; [|done].
  specialize (Hl (S ++ rel)). rewrite Hg, get_app, En in Hl. by apply (links_of_complete [] rel n t).
Qed.

Lemma written_receipted w d v : is_folder (get S w) = true -> leq w v -> get (S ++ [ReceiptFile]) w = None -> get (S ++ [ReceiptFile]) v = None ->
  receipted (S ++ [ReceiptFile]) (put (S ++ [ReceiptFile]) (Reg d) w) v.
Proof.
  intros Hf Hl Hno Hv. set (R := S ++ [ReceiptFile]) in *. set (w3 := put R (Reg d) w). assert (HR : get R w3 = Some (Reg d)) by (by apply get_put).
  split; [done|]. split; [by eexists|]. intros p Hp.
  destruct (decide (R `prefix_of` p)) as [[r ->]|Hn1]; [rewrite get_app, HR; destruct r; [by rewrite app_nil_r in Hp|done]|].
  pose proof (alter_folder R p (fun _ => Some (Reg d)) w Hn1) as Hfold. fold (put R (Reg d) w) w3 in Hfold. specialize (Hl p).
  destruct (decide (p `prefix_of` R)) as [[r Hr]|Hn2].
  - assert (is_folder (get p w3) = true) as Hpf.
    { rewrite Hr, get_app in HR. destruct (get p w3) as [[]|] eqn:E; [|..|done|done]; (destruct r; [destruct Hp; by rewrite app_nil_r in Hr|done]). }
    rewrite Hfold in Hpf. destruct (get p w) as [[]|]; [done..| |done]. destruct (get p w3) as [[]|]; done.
  - assert (get p w3 = get p w) as -> by (apply get_alter_apart; by split). done.
Qed.

Lemma wp_stageReceipt `{Deps} src sha version w : sanitized w ->
  chl any (stageReceipt S src sha version) (fun _ => True)
    (fun r w' => match r with Err _ => True | Ok _ =>
       (exists now, get (S ++ [ReceiptFile]) w' = Some (Reg (print_receipt (mkReceipt (Canonical src) sha now version)))) /\
       forall rel t q, get (S ++ rel) w' = Some (Sym t) -> walkSymlinks maxLinks w' [] (S ++ rel) = Some q -> S `prefix_of` q /\ q <> S ++ [ReceiptFile] end) w.
Proof.
  intros [Hno Hck]. apply chl_bind, chl_sys; [done|]. intros e _. split; [done|]. cbn [exec fst snd]. destruct (answering e _) as [|[]]; [by apply chl_ret| |by apply chl_ret..].
  apply chl_bind, chl_sys; [done|]. clear e. intros e _. split; [done|]. cbn [exec fst snd]. generalize (clock e). clear e. intros now.
  apply chl_bind, chl_sys; [done|]. intros e _. split; [done|]. cbn [exec]. unfold effect. destruct (fault e) eqn:Ef; [by apply chl_ret|]. unfold write_file.
  assert (parent (S ++ [ReceiptFile]) = S) as -> by apply removelast_last. destruct (is_folder (get S w)) eqn:Hf; cbn [negb fst snd]; [|by apply chl_ret]. rewrite Hno. cbn [fst snd]. apply chl_ret; [done|]. cbn [ok_or].
  set (d := print_receipt _). set (w3 := put _ _ w). split; [exists now; by apply get_put|]. intros rel t q Hg Hwalk.
  assert (Hrel : S ++ rel <> S ++ [ReceiptFile]) by (intros E; rewrite E in Hg; unfold w3 in Hg; by rewrite get_put in Hg).
  assert (Hg' : get (S ++ rel) w = Some (Sym t)).
  { destruct (written_receipted w d w Hf (leq_refl w) Hno Hno) as (_ & _ & Hp). specialize (Hp _ Hrel). fold w3 in Hp. by rewrite Hg in Hp. }
  destruct (Hck rel t Hg') as (v & q' & Hl & Hv & Hq' & Hpre). pose proof (written_receipted w d v Hf Hl Hno Hv) as Hrec. fold w3 in Hrec.
  destruct (walk_receipted _ w3 v maxLinks [] (S ++ rel) q Hrec) as [[Hne Hq]|[-> Hq]]; [by destruct S|by intros Hp%prefix_nil_inv; destruct S|done| |]; rewrite Hq in Hq'; [|done].
  by injection Hq' as ->.
Qed.
End Stage.

(** C17: The tree that is published is self-contained and its receipt is out of reach.
    Whatever the repository ships and whichever calls fail, when staging succeeds the
    receipt in the staged tree is the one written for this source, commit and version,
    and every symbolic link of the tree that resolves, through any chain of links,
    resolves inside the tree and not to the receipt. *)
Theorem receipt_unreachable `{Deps} S root src sha es w b version dropped
    (HS : Forall seg_ok S) (HSne : S <> []) (Hf : is_folder (get S w) = true) (Hroot : is_folder (get root w) = true)
    (Hok : (run es (stage_content S root src sha) w).2 = Ok (b, version, dropped)) :
  let w' := (run es (stage_content S root src sha) w).1 in
  (exists now, get (S ++ [ReceiptFile]) w' = Some (Reg (print_receipt (mkReceipt (Canonical src) sha now version)))) /\
  forall rel t q, get (S ++ rel) w' = Some (Sym t) -> walkSymlinks maxLinks w' [] (S ++ rel) = Some q -> S `prefix_of` q /\ q <> S ++ [ReceiptFile].
Proof.
  cbn zeta. set (Q := fun (r : result error (Bundle * string * list path)) w' => match r with Err _ => True | Ok (_, v, _) =>
    (exists now, get (S ++ [ReceiptFile]) w' = Some (Reg (print_receipt (mkReceipt (Canonical src) sha now v)))) /\
    forall rel t q, get (S ++ rel) w' = Some (Sym t) -> walkSymlinks maxLinks w' [] (S ++ rel) = Some q -> S `prefix_of` q /\ q <> S ++ [ReceiptFile] end).
  assert (Hw : chl any (stage_content S root src sha) (fun _ => True) Q w); [|pose proof (chl_run any _ _ Q w es Hw) as Hr; rewrite Hok in Hr; apply Hr; [by apply Forall_true|done]].
  clear Hok. apply chl_bind, chl_bind, chl_sys; [done|]. intros e _. split; [done|]. cbn [exec fst snd]. apply chl_ret; [done|]. unfold answering.
  destruct (fault e); [by apply chl_ret|]. destruct (get root w) as [[| |k]|] eqn:Er; try done. cbn [ok_or found id].
  destruct (copyTree root [] (Folder k)) as [copied dr] eqn:Ec. assert (exists k', copied = Some (Folder k')) as [k' ->] by (cbn [copyTree] in Ec; injection Ec as <- _; by eexists).
  cbn [default]. apply copyTree_no_receipt in Ec. set (c := Folder k') in *.
  apply chl_bind, chl_bind, chl_sys; [done|]. clear e. intros e _. split; [done|]. cbn [exec]. rewrite Hf. destruct (fault e); cbn [fst snd]; (apply chl_ret; [done|]); [by apply chl_ret|]. cbn [ok_or].
  set (w1 := put S c w). assert (Hg : get S w1 = Some c).
  { destruct (exists_last HSne) as (pre & x & Ex). unfold w1. rewrite Ex. apply get_put. rewrite Ex, get_snoc in Hf. by destruct (get pre w) as [[]|]. }
  apply chl_bind. eapply chl_mono; [apply (wp_sanitizeStagedLinks S HS HSne w1); [by rewrite Hg|by rewrite get_app, Hg]|done|]. intros [un|] w2 _ Hs; [|by apply chl_ret].
  apply chl_bind, reads_chl; [auto with reads|]. intros [v|]; [|by apply chl_ret].
  apply chl_bind. eapply chl_mono; [by apply wp_stageReceipt|done|]. intros [[]|] w3 _ Hr; [|by apply chl_ret].
  apply chl_bind, reads_chl; [auto with reads|]. intros [bd|]; by apply chl_ret.
Qed.

(** ** An example *)

Definition ex_deps : Deps := {|
  digest := fun _ => "0123456789abcdef";
  parse_manifest := fun raw => if String.eqb raw "acme/tools" then Some (mkManifest "acme" "tools" "1.0") else None;
  parse_receipt := fun raw => Some (mkReceipt raw "" 0 "");
  print_receipt := r_Canonical;
  component_ok := fun _ _ => true;
|}.
Definition ex_source : Source := mkSource "https://host/repo" "main" "" "".
(** Two links that spell or reach the receipt, one of them through a link to the root. *)
Definition ex_repo : node := Folder {[
  MarkerDir := Folder {[ ManifestFile := Reg "acme/tools" ]}; "harnesses" := Folder {[ "h" := Folder {[ "f" := Reg "x" ]} ]};
  "here" := Sym "."; "kept" := Sym "here/harnesses/h/f"; "direct" := Sym ".fetch.yaml"; "indirect" := Sym "here/.fetch.yaml" ]}.
Definition ex_disk : node := Folder {[ "stage" := Folder ∅; "clone" := ex_repo ]}.
Definition ex_stage : prog (result error (Bundle * string * list path)) := @stage_content ex_deps ["stage"] ["clone"] ex_source "abc".

(** Both are dropped; the other two stay. *)
Lemma receipt_unreachable_witness :
  (exists b, (run [] ex_stage ex_disk).2 = Ok (b, "1.0", [["direct"]; ["indirect"]])) /\
  get ["stage"; "kept"] (run [] ex_stage ex_disk).1 = Some (Sym "here/harnesses/h/f") /\
  ((exists now, get ["stage"; ReceiptFile] (run [] ex_stage ex_disk).1 = Some (Reg (@print_receipt ex_deps (mkReceipt (Canonical ex_source) "abc" now "1.0")))) /\
   forall rel t q, get (["stage"] ++ rel) (run [] ex_stage ex_disk).1 = Some (Sym t) -> walkSymlinks maxLinks (run [] ex_stage ex_disk).1 [] (["stage"] ++ rel) = Some q ->
     ["stage"] `prefix_of` q /\ q <> ["stage"; ReceiptFile]).
Proof.
  split; [eexists; vm_compute; reflexivity|]. split; [vm_compute; reflexivity|].
  eapply (@receipt_unreachable ex_deps ["stage"] ["clone"] ex_source "abc" [] ex_disk);
    [apply Forall_cons_2; [by repeat split|apply Forall_nil_2]|done|vm_compute; reflexivity|vm_compute; reflexivity|vm_compute; reflexivity].
Defined.

End BundleStage.
