(* ===== verification/BundleGC.v ===== *)
(** * Collecting cache entries

    gc.go against installed.go: the entry that a declared value addresses is the same
    after a collection as before, with the same content, whichever calls of the
    collection fail and wherever it is cut off. *)

From S2P Require Import Prelude GoStrings GoPath BundleNames BundleFS Bundle BundleSwap BundleStage.
Import Go GoPath BundleNames BundleFS Bundle BundleSwap BundleStage.
Open Scope prog_scope.

Module BundleGC.

(** ** Undisturbed reading *)

Definition eval {A} (p : prog A) (w : node) : A := (run [] p w).2.

Lemma run_bind {A B} (p : prog A) (f : A -> prog B) w : run [] (bind p f) w = let '(w', a) := run [] p w in run [] (f a) w'.
Proof. revert w. induction p as [a|c k IH]; intros w; [done|]. cbn. destruct (exec c calm w) as [w' x]. apply IH. Qed.

Lemma eval_bind {A B} (p : prog A) (f : A -> prog B) w : reads p -> eval (bind p f) w = eval (f (eval p w)) w.
Proof. intros Hp. unfold eval. rewrite run_bind. pose proof (reads_run p [] w Hp) as Hw. destruct (run [] p w) as [w' a]. cbn in *. by subst w'. Qed.

Lemma follow_folder w p : is_folder (get p w) = true -> follow w p = get p w.
Proof. unfold follow. by destruct (get p w) as [[]|]. Qed.

(** ** What a scan finds *)

Definition shown (x : string) : Prop := HasPrefix x "." = false.

Lemma elem_of_visible k x :
  x ∈ visible (merge_sort key_le (prod_map id kind_of <$> map_to_list k)) <-> shown x /\ is_folder (k !! x) = true.
Proof.
  unfold visible. rewrite list_elem_of_fmap. split.
  - intros ([y kd] & -> & Hin). apply list_elem_of_filter in Hin as [Hv Hin]. rewrite merge_sort_Permutation, list_elem_of_fmap in Hin. destruct Hin as ([z n] & [= -> ->] & Hin).
    apply elem_of_map_to_list in Hin. cbn in Hv |- *. apply andb_true_iff in Hv as [Hd Hv%negb_true_iff]. split; [done|]. rewrite Hin. by destruct n.
  - intros [Hx Hf]. destruct (k !! x) as [[| |k']|] eqn:E; try done. exists (x, KDir). split; [done|]. apply list_elem_of_filter. cbn. rewrite Hx. split; [done|].
    rewrite merge_sort_Permutation. apply list_elem_of_fmap. exists (x, Folder k'). split; [done|]. by apply elem_of_map_to_list.
Qed.

Section Scan.
Context (C : path).

Lemma eval_ReadDir w p k : get p w = Some (Folder k) -> eval (lift (sys (ReadDir p))) w = Ok (merge_sort key_le (prod_map id kind_of <$> map_to_list k)).
Proof. intros Hk. unfold lift. rewrite eval_bind by auto with reads. cbn. by rewrite follow_folder, Hk by (by rewrite Hk). Qed.

Lemma reads_scanBundleName ns nm : reads (scanBundleName C ns nm).
Proof. unfold scanBundleName. auto with reads. Qed.
#[local] Hint Resolve reads_scanBundleName : reads.

Lemma reads_collect {A B} (f : A -> prog (result error (list B))) l : (forall x, reads (f x)) -> reads (collect f l).
Proof. intros Hf. induction l as [|x l IH]; cbn [collect]; auto 10 with reads. Qed.
#[local] Hint Resolve reads_collect : reads.

Lemma reads_scanNamespace ns : reads (scanNamespace C ns).
Proof. unfold scanNamespace. auto 10 with reads. Qed.
#[local] Hint Resolve reads_scanNamespace : reads.

Lemma reads_scanInstalled : reads (scanInstalled C).
Proof. unfold scanInstalled. auto 10 with reads. Qed.

Lemma eval_collect {A B} (f : A -> prog (result error (list B))) l w : (forall x, reads (f x)) -> (forall x, x ∈ l -> is_ok (eval (f x) w) = true) ->
  exists bs, eval (collect f l) w = Ok bs /\ forall b, b ∈ bs <-> exists x b', x ∈ l /\ eval (f x) w = Ok b' /\ b ∈ b'.
Proof.
  intros Hr. induction l as [|x l IH]; intros Hok; cbn [collect].
  { exists []. split; [done|]. intros b. split; [by intros H%elem_of_nil|]. by intros (y & _ & H%elem_of_nil & _). }
  rewrite eval_bind by done. pose proof (Hok x (list_elem_of_here _ _)) as Hx. destruct (eval (f x) w) as [a|] eqn:Ea; [|done].
  destruct IH as (bs & Hbs & Hin); [intros y Hy; apply Hok; by right|]. rewrite eval_bind by auto with reads. rewrite Hbs. exists (a ++ bs). split; [done|].
  intros b. rewrite elem_of_app, Hin. split.
  - intros [Hb|(y & b' & Hy & E & Hb)]; [exists x, a; split; [by left|done]|exists y, b'; split; [by right|done]].
  - intros (y & b' & Hy & E & Hb). apply elem_of_cons in Hy as [->|Hy]; [left; congruence|right; by exists y, b'].
Qed.

(** The entry of a directory. *)
Definition entry_at (ns nm key : string) : InstalledEntry := mkEntry (mkID ns nm) key (C ++ [ns; nm; key]).
Definition installed (w : node) (e : InstalledEntry) : Prop :=
  exists ns nm key, e = entry_at ns nm key /\ shown ns /\ shown nm /\ shown key /\ is_folder (get (E_Root e) w) = true.

Lemma get_three w ns nm key : get (C ++ [ns; nm; key]) w =
  match get (C ++ [ns; nm]) w with Some (Folder k) => k !! key | _ => None end.
Proof. change [ns; nm; key] with ([ns; nm] ++ [key]). by rewrite app_assoc, get_snoc. Qed.
Lemma get_two w ns nm : get (C ++ [ns; nm]) w = match get (C ++ [ns]) w with Some (Folder k) => k !! nm | _ => None end.
Proof. change [ns; nm] with ([ns] ++ [nm]). by rewrite app_assoc, get_snoc. Qed.

Lemma scanBundleName_spec w ns nm : is_folder (get (C ++ [ns; nm]) w) = true ->
  exists l, eval (scanBundleName C ns nm) w = Ok l /\ forall e, e ∈ l <-> exists key, e = entry_at ns nm key /\ shown key /\ is_folder (get (E_Root e) w) = true.
Proof.
  intros Hf. destruct (get (C ++ [ns; nm]) w) as [[| |k]|] eqn:Ek; try done. unfold scanBundleName. rewrite eval_bind by auto with reads. rewrite (eval_ReadDir w _ k Ek).
  eexists. split; [done|]. intros e. rewrite list_elem_of_fmap. setoid_rewrite elem_of_visible. split.
  - intros (key & -> & Hs & Hd). exists key. split; [done|]. split; [done|]. cbn. by rewrite get_three, Ek.
  - intros (key & -> & Hs & Hd). exists key. split; [done|]. split; [done|]. cbn in Hd. by rewrite get_three, Ek in Hd.
Qed.

Lemma scanNamespace_spec w ns : is_folder (get (C ++ [ns]) w) = true ->
  exists l, eval (scanNamespace C ns) w = Ok l /\ forall e, e ∈ l <-> exists nm key, e = entry_at ns nm key /\ shown nm /\ shown key /\ is_folder (get (E_Root e) w) = true.
Proof.
  intros Hf. destruct (get (C ++ [ns]) w) as [[| |k]|] eqn:Ek; try done. unfold scanNamespace. rewrite eval_bind by auto with reads. rewrite (eval_ReadDir w _ k Ek). cbn beta iota.
  assert (Hd : forall nm, nm ∈ visible (merge_sort key_le (prod_map id kind_of <$> map_to_list k)) <-> shown nm /\ is_folder (get (C ++ [ns; nm]) w) = true).
  { intros nm. by rewrite elem_of_visible, get_two, Ek. }
  destruct (eval_collect (scanBundleName C ns) (visible (merge_sort key_le (prod_map id kind_of <$> map_to_list k))) w) as (l & Hl & Hin); [auto with reads| |].
  { intros nm [_ Hnm]%Hd. destruct (scanBundleName_spec w ns nm Hnm) as (l & -> & _). done. }
  exists l. split; [done|]. intros e. rewrite Hin. split.
  - intros (nm & b & [Hs Hnm]%Hd & Hb & He). destruct (scanBundleName_spec w ns nm Hnm) as (b' & Hb' & Hin'). assert (b' = b) as -> by congruence.
    apply Hin' in He as (key & -> & H1 & H2). by exists nm, key.
  - intros (nm & key & -> & Hs & Hk & Hr). assert (is_folder (get (C ++ [ns; nm]) w) = true) as Hnm by (cbn in Hr; rewrite get_three in Hr; by destruct (get (C ++ [ns; nm]) w) as [[]|]).
    destruct (scanBundleName_spec w ns nm Hnm) as (b & Hb & Hin'). exists nm, b. split; [by apply Hd|]. split; [done|]. apply Hin'. by exists key.
Qed.

Lemma scanInstalled_spec w : is_folder (get C w) = true ->
  exists l, eval (scanInstalled C) w = Ok l /\ forall e, e ∈ l <-> installed w e.
Proof.
  intros Hf. destruct (get C w) as [[| |k]|] eqn:Ek; try done. unfold scanInstalled. rewrite eval_bind by auto with reads.
  assert (eval (sys (ReadDir C)) w = Ok (merge_sort key_le (prod_map id kind_of <$> map_to_list k))) as ->.
  { cbn. by rewrite follow_folder, Ek by (by rewrite Ek). }
  cbn beta iota. rewrite eval_bind by auto with reads.
  assert (Hd : forall ns, ns ∈ visible (merge_sort key_le (prod_map id kind_of <$> map_to_list k)) <-> shown ns /\ is_folder (get (C ++ [ns]) w) = true).
  { intros ns. by rewrite elem_of_visible, get_snoc, Ek. }
  destruct (eval_collect (scanNamespace C) (visible (merge_sort key_le (prod_map id kind_of <$> map_to_list k))) w) as (l & Hl & Hin); [auto with reads| |].
  { intros ns [_ Hns]%Hd. destruct (scanNamespace_spec w ns Hns) as (l & -> & _). done. }
  rewrite Hl. exists (merge_sort entry_le l). split; [done|]. intros e. rewrite merge_sort_Permutation, Hin. split.
  - intros (ns & b & [Hs Hns]%Hd & Hb & He). destruct (scanNamespace_spec w ns Hns) as (b' & Hb' & Hin'). assert (b' = b) as -> by congruence.
    apply Hin' in He as (nm & key & -> & H1 & H2 & H3). by exists ns, nm, key.
  - intros (ns & nm & key & -> & Hs & H1 & H2 & Hr). assert (is_folder (get (C ++ [ns]) w) = true) as Hns.
    { cbn in Hr. rewrite get_three, get_two in Hr. by destruct (get (C ++ [ns]) w) as [[]|]. }
    destruct (scanNamespace_spec w ns Hns) as (b & Hb & Hin'). exists ns, b. split; [by apply Hd|]. split; [done|]. apply Hin'. by exists nm, key.
Qed.
End Scan.

(** ** The entry a key addresses *)

Section Winners.
Context `{Deps}.

Definition receipt_of (w : node) (e : InstalledEntry) : option fetchReceipt := readable (eval (readReceipt (E_Root e)) w).
Definition wins (w : node) (a b : InstalledEntry) : Prop := first_wins (receipt_of w a) (receipt_of w b) a b = true.

Lemma eval_fresherEntry w a b : eval (fresherEntry a b) w = if first_wins (receipt_of w a) (receipt_of w b) a b then a else b.
Proof. unfold fresherEntry. by rewrite !eval_bind by auto with reads. Qed.

Lemma wins_refl w a : wins w a a.
Proof. unfold wins, first_wins. rewrite bool_decide_eq_true_2 by reflexivity. destruct (receipt_of w a); [|done]. by rewrite !Z.ltb_irrefl. Qed.

Lemma wins_total w a b : first_wins (receipt_of w a) (receipt_of w b) a b = false -> wins w b a.
Proof.
  unfold wins, first_wins. destruct (receipt_of w a) as [x|], (receipt_of w b) as [y|]; [|done..|].
  - destruct (Z.ltb_spec (r_FetchedAt y) (r_FetchedAt x)); [done|]. destruct (Z.ltb_spec (r_FetchedAt x) (r_FetchedAt y)); [done|]. intros Hn%bool_decide_eq_false.
    apply bool_decide_eq_true. by destruct (total String.le (ID_String (E_ID a)) (ID_String (E_ID b))).
  - intros Hn%bool_decide_eq_false. apply bool_decide_eq_true. by destruct (total String.le (ID_String (E_ID a)) (ID_String (E_ID b))).
Qed.

Lemma wins_trans w a b c : wins w a b -> wins w b c -> wins w a c.
Proof.
  unfold wins, first_wins. destruct (receipt_of w a) as [x|], (receipt_of w b) as [y|], (receipt_of w c) as [z|]; try done.
  - destruct (Z.ltb_spec (r_FetchedAt y) (r_FetchedAt x)), (Z.ltb_spec (r_FetchedAt z) (r_FetchedAt y)), (Z.ltb_spec (r_FetchedAt x) (r_FetchedAt y)), (Z.ltb_spec (r_FetchedAt y) (r_FetchedAt z)),
      (Z.ltb_spec (r_FetchedAt z) (r_FetchedAt x)), (Z.ltb_spec (r_FetchedAt x) (r_FetchedAt z)); try done; try lia.
    intros G1%bool_decide_eq_true G2%bool_decide_eq_true. apply bool_decide_eq_true. by etransitivity.
  - intros G1%bool_decide_eq_true G2%bool_decide_eq_true. apply bool_decide_eq_true. by etransitivity.
Qed.

Lemma wins_same_name w a b : wins w a b -> wins w b a -> ID_String (E_ID a) = ID_String (E_ID b).
Proof.
  unfold wins, first_wins. destruct (receipt_of w a) as [x|], (receipt_of w b) as [y|]; try done.
  - destruct (Z.ltb_spec (r_FetchedAt y) (r_FetchedAt x)), (Z.ltb_spec (r_FetchedAt x) (r_FetchedAt y)); try done; try lia.
    intros G1%bool_decide_eq_true G2%bool_decide_eq_true. by apply (anti_symm String.le).
  - intros G1%bool_decide_eq_true G2%bool_decide_eq_true. by apply (anti_symm String.le).
Qed.

Definition champion (w : node) (l : list InstalledEntry) (k : string) (o : option InstalledEntry) : Prop :=
  match o with
  | Some e => e ∈ l /\ E_Key e = k /\ forall e', e' ∈ l -> E_Key e' = k -> wins w e e'
  | None => forall e', e' ∈ l -> E_Key e' <> k
  end.

Lemma entriesByKey_go_spec w l seen acc : (forall k, champion w seen k (acc !! k)) -> forall k, champion w (seen ++ l) k (eval (entriesByKey_go acc l) w !! k).
Proof.
  revert seen acc. induction l as [|e l IH]; intros seen acc Hacc; [intros k; by rewrite app_nil_r|]. cbn [entriesByKey_go].
  assert (Hstep : forall w', (forall k, champion w (seen ++ [e]) k (w' !! k)) -> forall k, champion w (seen ++ e :: l) k (eval (entriesByKey_go w' l) w !! k)).
  { intros w' Hw k. specialize (IH _ _ Hw k). by rewrite <- app_assoc in IH. }
  assert (Hother : forall k x, k <> E_Key e -> champion w (seen ++ [e]) k (<[E_Key e := x]> acc !! k)).
  { intros k x Hk. rewrite lookup_insert_ne by done. specialize (Hacc k). unfold champion in *. destruct (acc !! k) as [c|].
    - destruct Hacc as (H1 & H2 & H3). split; [apply elem_of_app; by left|]. split; [done|]. intros e' [Hin|Hin%list_elem_of_singleton]%elem_of_app Hk'; [auto|congruence].
    - intros e' [Hin|Hin%list_elem_of_singleton]%elem_of_app; [auto|congruence]. }
  destruct (acc !! E_Key e) as [prev|] eqn:Ep.
  - rewrite eval_bind, eval_fresherEntry by (unfold fresherEntry; auto with reads). apply Hstep. intros k. destruct (decide (k = E_Key e)) as [->|Hne]; [|by apply Hother]. rewrite lookup_insert_eq.
    pose proof (Hacc (E_Key e)) as Hc. rewrite Ep in Hc. destruct Hc as (H1 & H2 & H3). destruct (first_wins _ _ prev e) eqn:Ef; (split; [apply elem_of_app; by (left + (right; left))|split; [done|]]).
    + intros e' [Hin|Hin%list_elem_of_singleton]%elem_of_app Hk; [auto|by subst].
    + intros e' [Hin|Hin%list_elem_of_singleton]%elem_of_app Hk; [|subst; apply wins_refl]. apply (wins_trans w e prev e'); [by apply wins_total|auto].
  - apply Hstep. intros k. destruct (decide (k = E_Key e)) as [->|Hne]; [|by apply Hother]. rewrite lookup_insert_eq.
    specialize (Hacc (E_Key e)). rewrite Ep in Hacc. split; [apply elem_of_app; right; by left|]. split; [done|]. intros e' [Hin|Hin%list_elem_of_singleton]%elem_of_app Hk; [by destruct (Hacc e' Hin)|subst; apply wins_refl].
Qed.

Lemma entriesByKey_spec w l k : champion w l k (eval (entriesByKey l) w !! k).
Proof. apply (entriesByKey_go_spec w l []). intros k'. rewrite lookup_empty. intros e' Hin. by apply elem_of_nil in Hin. Qed.

(** Spellings tell the identities of one key apart. *)
Definition told_apart (l : list InstalledEntry) : Prop :=
  forall e e', e ∈ l -> e' ∈ l -> E_Key e = E_Key e' -> ID_String (E_ID e) = ID_String (E_ID e') -> e = e'.

Lemma champion_unique w l k e o : told_apart l -> champion w l k (Some e) -> champion w l k o -> o = Some e.
Proof.
  intros Hd (H1 & H2 & H3) Ho. destruct o as [e'|]; [|by destruct (Ho e H1)]. destruct Ho as (G1 & G2 & G3). f_equal. apply Hd; [done|done|congruence|].
  apply (wins_same_name w); auto.
Qed.
End Winners.

(** ** What a collection leaves alone *)

(** Content that went, stayed, or was a directory and still is one. *)
Definition fades (a b : option node) : Prop := b = None \/ b = a \/ is_folder a = true /\ is_folder b = true.
Lemma fades_trans a b c : fades a b -> fades b c -> fades a c.
Proof. unfold fades. intros H1 H2. destruct H2 as [->|[->|[G1 G2]]]; [by left|done|]. destruct H1 as [->|[->|[H1 H2]]]; [done|auto..]. Qed.

Section Collect.
Context (C : path) (roots : gmap string rootedSource) (winners : gmap string InstalledEntry) (w0 : node) (entries : list InstalledEntry).
Context (Hent : forall e, e ∈ entries -> installed C w0 e) (Hroots : forall k, is_Some (roots !! k) -> key_ok k).
Notation spared e := (condemned roots winners e = false).

Record unharmed (w : node) : Prop := mkUnharmed {
  u_spared : forall e, e ∈ entries -> spared e -> get (E_Root e) w = get (E_Root e) w0;
  u_folders : forall p, is_folder (get p w) = true -> is_folder (get p w0) = true;
  u_receipts : forall e, e ∈ entries -> fades (get (E_Root e ++ [ReceiptFile]) w0) (get (E_Root e ++ [ReceiptFile]) w);
  u_cache : is_folder (get C w) = true;
}.

Lemma root_length e : e ∈ entries -> length (E_Root e) = (length C + 3)%nat.
Proof. intros (ns & nm & key & -> & _)%Hent. cbn. by rewrite length_app. Qed.

Lemma root_inj e e' : e ∈ entries -> e' ∈ entries -> E_Root e = E_Root e' -> e = e'.
Proof. intros (ns & nm & key & -> & _)%Hent (ns' & nm' & key' & -> & _)%Hent E. cbn in E. apply app_inv_head in E. by injection E as -> -> ->. Qed.

Lemma spared_rooted e : spared e -> key_ok (E_Key e).
Proof. unfold condemned. intros [Hr _]%orb_false_iff. apply Hroots. apply negb_false_iff in Hr. by apply bool_decide_eq_true in Hr. Qed.

Lemma spared_folder w e : unharmed w -> e ∈ entries -> spared e -> is_folder (get (E_Root e) w) = true.
Proof. intros Hu He Hs. rewrite (u_spared w Hu e He Hs). by destruct (Hent e He) as (ns & nm & key & -> & _ & _ & _ & Hf). Qed.

(** Dropping what no spared entry is at or below. *)
Lemma unharmed_drop p w : unharmed w -> p <> [] -> ~ p `prefix_of` C -> (forall e, e ∈ entries -> spared e -> apart (E_Root e) p) -> unharmed (drop_at p w).
Proof.
  intros [U1 U2 U3 U4] Hp HC Hap. split.
  - intros e He Hs. unfold drop_at. rewrite get_alter_apart by auto. auto.
  - intros q. destruct (get_drop_cases p q w Hp) as [->|[->|[H1 _]]]; auto. done.
  - intros e He. eapply fades_trans; [by apply U3|]. apply get_drop_cases. done.
  - unfold drop_at. by rewrite alter_folder.
Qed.

Lemma unharmed_drops e' qs w : e' ∈ entries -> condemned roots winners e' = true -> unharmed w -> unharmed (foldl (fun w q => drop_at (E_Root e' ++ q) w) w qs).
Proof.
  intros He Hc. revert w. induction qs as [|q qs IH]; intros w Hu; [done|]. cbn. apply IH. pose proof (root_length e' He) as Hl. apply unharmed_drop; [done| | |].
  - intros E. apply (f_equal length) in E. rewrite length_app, Hl in E. cbn in E. lia.
  - intros Hp%prefix_length. rewrite length_app, Hl in Hp. lia.
  - intros e Hin Hs. apply apart_below, same_length_apart; [by rewrite Hl, root_length|]. intros E. apply root_inj in E as ->; congruence.
Qed.

Lemma lock_length e : e ∈ entries -> length (lock_path (E_Root e)) = (length C + 3)%nat.
Proof.
  intros (ns & nm & key & -> & _)%Hent. cbn [E_Root entry_at]. unfold lock_path, parent. change [ns; nm; key] with ([ns; nm] ++ [key]).
  rewrite app_assoc, removelast_last, !length_app. cbn. lia.
Qed.

Lemma unharmed_touch e' w w' : e' ∈ entries -> unharmed w -> touch (lock_path (E_Root e')) w = Ok w' -> unharmed w'.
Proof.
  intros He Hu Ht. pose proof (lock_length e' He) as Hlen. set (lk := lock_path (E_Root e')) in *. unfold touch in Ht. destruct (is_folder (get (parent lk) w)) eqn:Hpf; [|done]. cbn in Ht.
  destruct (get lk w) as [[]|] eqn:El; simplify_eq; [done|]. pose proof Hu as [U1 U2 U3 U4].
  assert (Hput : get lk (put lk (Reg "") w) = Some (Reg "")).
  { assert (parent lk = parent (E_Root e')) as Epa by apply removelast_last. rewrite Epa in Hpf. unfold lk, lock_path. by apply get_put. }
  split.
  - intros e Hin Hs. unfold put. rewrite get_alter_apart; [by apply U1|]. apply same_length_apart; [by rewrite Hlen, root_length|].
    intros E. pose proof (spared_folder w e Hu Hin Hs) as Hf. rewrite E, El in Hf. done.
  - intros q. destruct (decide (lk `prefix_of` q)) as [[r ->]|Hn]; [rewrite get_app, Hput; by destruct r|]. unfold put. rewrite alter_folder by done. apply U2.
  - intros e Hin. eapply fades_trans; [by apply U3|]. destruct (decide (E_Root e = lk)) as [E|Hne]; [left; by rewrite get_app, E, Hput|].
    right. left. apply get_alter_apart, apart_sym, apart_below, same_length_apart; [by rewrite Hlen, root_length|done].
  - unfold put. rewrite alter_folder; [done|]. intros Hp%prefix_length. lia.
Qed.

(** A directory is removed only when it is empty, so no spared entry is below it. *)
Lemma unharmed_remove p w w' : unharmed w -> ~ p `prefix_of` C -> (forall e, e ∈ entries -> spared e -> p <> E_Root e) -> (length p <= length C + 3)%nat -> remove p w = Ok w' -> unharmed w'.
Proof.
  intros Hu HC Hne Hlen Hr. assert (Hp : p <> []) by (intros ->; by apply HC, prefix_nil).
  assert (w' = drop_at p w) as ->. { unfold remove in Hr. destruct (get p w) as [[]|]; [..|destruct (bool_decide _)|]; congruence. }
  apply unharmed_drop; [done..|]. intros e He Hs. split; intros Hpre.
  - assert (length (E_Root e) = length p) as Hl by (apply prefix_length in Hpre; rewrite root_length in * by done; lia). apply (Hne e He Hs). destruct Hpre as [r ->].
    rewrite length_app in Hl. destruct r; [by rewrite app_nil_r|cbn in Hl; lia].
  - pose proof (spared_folder w e Hu He Hs) as Hf. destruct Hpre as [r Er]. rewrite Er, get_app in Hf. destruct r as [|x r]; [by apply (Hne e He Hs); rewrite app_nil_r in Er|].
    unfold remove in Hr. destruct (get p w) as [[c|t|k]|]; cbn in Hf; try done. destruct (decide (k = ∅)) as [E|E]; [by rewrite E, lookup_empty in Hf|by rewrite bool_decide_eq_false_2 in Hr by done].
Qed.

(** *** The calls of one entry's collection *)

Context (Hstay : unharmed w0).

Lemma wp_lock e' w A (k : prog (result error A)) Q : e' ∈ entries -> unharmed w ->
  (forall v x, unharmed v -> Q (Err x) v) -> (forall v, unharmed v -> chl any k unharmed Q v) -> chl any (withBundleLock (E_Root e') k) unharmed Q w.
Proof.
  intros He Hu Herr Hk. apply chl_bind, chl_bind, chl_sys; [done|]. intros e _. cbn [exec]. unfold effect.
  assert (Hv : forall v, touch (lock_path (E_Root e')) w = Ok v -> unharmed v) by (intros v Hv; by eapply unharmed_touch).
  destruct (fault e); cbn [fst snd].
  - assert (unharmed (match depth e with O => w | _ => match touch (lock_path (E_Root e')) w with Ok w' => w' | Err _ => w end end)) as Hu' by (destruct (depth e); [done|]; destruct (touch _ w); auto).
    split; [done|]. apply chl_ret; [done|]. apply chl_ret; auto.
  - destruct (touch _ w) as [v|] eqn:Et; cbn [fst snd]; (split; [auto|]); (apply chl_ret; [auto|]); [auto|apply chl_ret; auto].
Qed.

Lemma wp_removeAll e' w Q : e' ∈ entries -> condemned roots winners e' = true -> unharmed w -> (forall r v, unharmed v -> Q r v) ->
  chl any (lift (sys (RemoveAll (E_Root e')))) unharmed Q w.
Proof.
  intros He Hc Hu HQ. apply chl_bind, chl_sys; [done|]. intros e _. destruct (RemoveAll_drops (E_Root e') e w) as [qs Hqs].
  assert (unharmed (exec (RemoveAll (E_Root e')) e w).1) as Hu' by (rewrite Hqs; by apply unharmed_drops). split; [done|]. apply chl_ret; auto.
Qed.

Lemma wp_remove p w (Q : result errno unit -> node -> Prop) : unharmed w -> ~ p `prefix_of` C -> (forall e, e ∈ entries -> spared e -> p <> E_Root e) -> (length p <= length C + 3)%nat ->
  (forall r v, unharmed v -> Q r v) -> chl any (sys (Remove p)) unharmed Q w.
Proof.
  intros Hu HC Hne Hl HQ. apply chl_sys; [done|]. intros e _. cbn [exec]. unfold effect. destruct (fault e); cbn [fst snd]; [auto|].
  destruct (remove p w) as [v|] eqn:Er; cbn [fst snd]; [|auto]. assert (unharmed v) by (by eapply unharmed_remove). auto.
Qed.

Lemma below_cache x r : ~ (C ++ x :: r) `prefix_of` C.
Proof. intros Hp%prefix_length. rewrite length_app in Hp. cbn in Hp. lia. Qed.

Lemma lock_not_spared e' e : e' ∈ entries -> e ∈ entries -> spared e -> lock_path (E_Root e') <> E_Root e.
Proof.
  intros (ns & nm & key & -> & _)%Hent (ns' & nm' & key' & -> & _)%Hent Hs%spared_rooted E. cbn [E_Root E_Key entry_at] in *. unfold lock_path, parent in E.
  change [ns; nm; key] with ([ns; nm] ++ [key]) in E. rewrite app_assoc, removelast_last, last_snoc, <- app_assoc in E. cbn in E. apply app_inv_head in E. injection E as _ _ E.
  destruct Hs as [_ Hc]. rewrite <- E, all_chars_append in Hc. by apply andb_true_iff in Hc as [_ Hc].
Qed.

Context `{Deps}.

Lemma wp_reads {A} (p : prog A) (Q : A -> node -> Prop) w : reads p -> unharmed w -> (forall a, Q a w) -> chl any p unharmed Q w.
Proof. intros Hp Hu HQ. induction Hp as [a|c k Hc _ IH]; [by split|]. split; [done|]. intros e He. rewrite (is_read_exec c e w Hc). apply IH. Qed.

Lemma wp_cleanEmpty e' w Q : e' ∈ entries -> unharmed w -> (forall v, unharmed v -> Q tt v) -> chl any (cleanEmptyIdentityDirs C (E_ID e')) unharmed Q w.
Proof.
  intros He Hu HQ. unfold cleanEmptyIdentityDirs.
  assert (Hshort : forall p, (0 < length p < 3)%nat -> ~ (C ++ p) `prefix_of` C /\ (forall e, e ∈ entries -> spared e -> C ++ p <> E_Root e) /\ (length (C ++ p) <= length C + 3)%nat).
  { intros p Hp. split; [destruct p; [cbn in Hp; lia|apply below_cache]|]. rewrite length_app. split; [|lia].
    intros e Hin _ E. apply (f_equal length) in E. rewrite (root_length e Hin), length_app in E. lia. }
  apply chl_bind. destruct (Hshort [Namespace (E_ID e'); Name (E_ID e')]) as (G1 & G2 & G3); [cbn; lia|]. apply wp_remove; [done..|]. intros [[]|x] v Hv; [|by apply chl_ret; auto].
  apply chl_bind. destruct (Hshort [Namespace (E_ID e')]) as (F1 & F2 & F3); [cbn; lia|]. apply wp_remove; [done..|]. intros r v' Hv'. apply chl_ret; auto.
Qed.

Lemma wp_removal e' w Q : e' ∈ entries -> condemned roots winners e' = true -> unharmed w -> (forall r v, unharmed v -> Q r v) ->
  chl any (withBundleLock (E_Root e') (lift (sys (RemoveAll (E_Root e'))))) unharmed Q w.
Proof. intros He Hc Hu HQ. apply wp_lock; [done..|auto|]. intros v Hv. by apply wp_removeAll. Qed.

Lemma wp_removeEntry e' w Q : e' ∈ entries -> condemned roots winners e' = true -> unharmed w -> (forall r v, unharmed v -> Q r v) ->
  chl any (removeEntry e') unharmed Q w.
Proof.
  intros He Hc Hu HQ. apply chl_bind, wp_removal; [done..|]. intros [[]|x] v Hv; [|by apply chl_ret; auto]. apply chl_bind, wp_remove; [done|..].
  - intros Hp%prefix_length. rewrite (lock_length e' He) in Hp. lia.
  - intros e Hin Hs. by apply lock_not_spared.
  - by rewrite (lock_length e' He).
  - intros r v' Hv'. apply chl_ret; auto.
Qed.

Lemma wp_collectEntry e' sup w Q : e' ∈ entries -> condemned roots winners e' = true -> unharmed w -> (forall r v, unharmed v -> Q r v) ->
  chl any (collectEntry C e' sup) unharmed Q w.
Proof.
  intros He Hc Hu HQ. unfold collectEntry. apply chl_bind, wp_reads; [auto with reads|done|]. intros r.
  assert (Hdone : forall v a, unharmed v -> chl any (Ret a) unharmed Q v) by (intros; apply chl_ret; auto).
  assert (Hrm : forall (Q' : result error unit -> node -> Prop), (forall r v, unharmed v -> Q' r v) -> chl any (if sup then removeSupersededEntry e' else try _ <- removeEntry e'; do _ <- cleanEmptyIdentityDirs C (E_ID e'); Ret (Ok tt)) unharmed Q' w).
  { intros Q' HQ'. destruct sup; [by apply wp_removal|]. apply chl_bind, wp_removeEntry; [done..|]. intros [[]|x] v Hv; [|by apply chl_ret; auto].
    apply chl_bind, wp_cleanEmpty; [done..|]. intros v' Hv'. apply chl_ret; auto. }
  destruct r as [[rc|]|x]; cbn [andb]; [|by auto|destruct sup; cbn [andb]; [by auto|]].
  all: apply chl_bind, Hrm; intros [[]|y] v Hv; auto.
Qed.

Lemma wp_gcEntries l w Q : (forall e, e ∈ l -> e ∈ entries) -> unharmed w -> (forall g v, unharmed v -> Q g v) -> chl any (gcEntries C roots winners l) unharmed Q w.
Proof.
  revert w Q. induction l as [|e l IH]; intros w Q Hl Hu HQ; cbn [gcEntries]; [by apply chl_ret; auto|].
  assert (Hrest : forall f v, unharmed v -> chl any (do g <- gcEntries C roots winners l; Ret (f g)) unharmed Q v).
  { intros f v Hv. apply chl_bind, IH; [intros e' He'; apply Hl; by right|done|]. intros g v' Hv'. apply chl_ret; auto. }
  destruct (condemned roots winners e) eqn:Hc; cbn [negb]; [|by apply Hrest]. apply chl_bind, wp_collectEntry; [apply Hl; by left|done..|].
  intros [ws [[d|]|x]] v Hv; [by apply Hrest..|]. apply chl_ret; auto.
Qed.

(** *** The winners afterwards *)

Lemma u_installed v e : unharmed v -> installed C v e -> installed C w0 e.
Proof. intros Hu (ns & nm & key & -> & H1 & H2 & H3 & Hf). exists ns, nm, key. split; [done|]. repeat (split; [done|]). by apply (u_folders v Hu). Qed.

(** A receipt that is no link reads as what is there. *)
Definition read_here (o : option node) : option fetchReceipt := match o with Some (Reg raw) => parse_receipt raw | _ => None end.
Lemma receipt_here w e : is_folder (get (E_Root e) w) = true -> (forall t, get (E_Root e ++ [ReceiptFile]) w <> Some (Sym t)) ->
  receipt_of w e = read_here (get (E_Root e ++ [ReceiptFile]) w).
Proof.
  intros Hf Hn. unfold receipt_of, readReceipt. rewrite eval_bind by auto with reads. cbn [eval sys]. unfold eval. cbn. unfold follow, parent. rewrite removelast_last, Hf.
  destruct (get (E_Root e ++ [ReceiptFile]) w) as [[raw|t|k]|]; [|by destruct (Hn t)|done..]. cbn. by destruct (parse_receipt raw).
Qed.

Context (Hlinks : forall e, e ∈ entries -> forall t, get (E_Root e ++ [ReceiptFile]) w0 <> Some (Sym t)).

Lemma receipt_fades v e : unharmed v -> e ∈ entries -> installed C v e -> receipt_of v e = receipt_of w0 e \/ receipt_of v e = None.
Proof.
  intros Hu He Hi. assert (is_folder (get (E_Root e) v) = true) as Hf by (by destruct Hi as (ns & nm & key & -> & _ & _ & _ & Hf)).
  pose proof (u_receipts v Hu e He) as Hr. rewrite (receipt_here w0 e); [|by apply (u_folders v Hu)|by apply Hlinks].
  rewrite (receipt_here v e); [|done|].
  - destruct Hr as [->|[->|[_ H2]]]; [by right|by left|]. right. by destruct (get (E_Root e ++ [ReceiptFile]) v) as [[]|].
  - intros t Et. rewrite Et in Hr. destruct Hr as [Hr|[Hr|[_ Hr]]]; [done| |done]. by apply (Hlinks e He t).
Qed.

Lemma receipt_spared v e : unharmed v -> e ∈ entries -> spared e -> receipt_of v e = receipt_of w0 e.
Proof.
  intros Hu He Hs. pose proof (spared_folder v e Hu He Hs) as Hf. assert (get (E_Root e ++ [ReceiptFile]) v = get (E_Root e ++ [ReceiptFile]) w0) as E by (by rewrite !get_app, (u_spared v Hu)).
  rewrite !receipt_here; [by rewrite E|by apply (u_folders v Hu)|by apply Hlinks|done|rewrite E; by apply Hlinks].
Qed.

Lemma wins_fades v e e' : receipt_of v e = receipt_of w0 e -> receipt_of v e' = receipt_of w0 e' \/ receipt_of v e' = None -> wins w0 e e' -> wins v e e'.
Proof. unfold wins. intros -> [->| ->]; [done|]. unfold first_wins. destruct (receipt_of w0 e), (receipt_of w0 e'); done. Qed.

Lemma champion_after v l' k o : unharmed v -> told_apart entries -> (forall e, e ∈ entries <-> installed C w0 e) -> (forall e, e ∈ l' <-> installed C v e) ->
  is_Some (roots !! k) -> champion w0 entries k (winners !! k) -> champion v l' k o -> o = winners !! k.
Proof.
  intros Hu Hd Hall Hl' Hk Hw Ho. destruct (winners !! k) as [e|] eqn:Ew.
  - destruct Hw as (H1 & H2 & H3). subst k. assert (Hs : spared e).
    { unfold condemned, superseded_by. rewrite Ew, (bool_decide_eq_true_2 _ Hk), (bool_decide_eq_true_2 (Some e = Some e)) by done. done. }
    assert (Hsub : forall e', e' ∈ l' -> e' ∈ entries) by (intros e' He'%Hl'; by apply Hall, (u_installed v)).
    assert (He : e ∈ l').
    { apply Hl'. pose proof (spared_folder v e Hu H1 Hs) as Hf. apply Hall in H1 as (ns & nm & key & -> & G1 & G2 & G3 & _). by exists ns, nm, key. }
    apply (champion_unique v l' (E_Key e)); [intros a b Ha Hb; apply Hd; auto| |done]. split; [done|]. split; [done|]. intros e' He' Ek.
    apply wins_fades; [by apply receipt_spared|apply receipt_fades; [done|by apply Hsub|by apply Hl']|]. apply H3; auto.
  - destruct o as [e|]; [|done]. destruct Ho as (H1 & H2 & _). exfalso. apply (Hw e); [|done]. by apply Hall, (u_installed v), Hl'.
Qed.
End Collect.

(** ** Declared values *)

Section Declared.
Context `{Deps} (m : Manager) (roots : gmap string rootedSource).
Notation C := (cache m).

(** The collections of a prune and of the maintenance after a fetch. *)
Inductive collection (winners : gmap string InstalledEntry) (all : list InstalledEntry) : prog unit -> Prop :=
| collect_all : collection winners all (do _ <- gcEntries C roots winners all; Ret tt)
| collect_ids ids : collection winners all (do _ <- gc_identities m roots winners all ids; Ret tt).

Lemma scoped_sub all id e : e ∈ identityScopedEntries all id -> e ∈ all.
Proof. unfold identityScopedEntries. by intros [_ ?]%list_elem_of_filter. Qed.

Lemma wp_gc_identities winners all w0 ids w Q : (forall e, e ∈ all -> installed C w0 e) -> (forall k, is_Some (roots !! k) -> key_ok k) ->
  unharmed C roots winners w0 all w -> (forall ws v, unharmed C roots winners w0 all v -> Q ws v) -> chl any (gc_identities m roots winners all ids) (unharmed C roots winners w0 all) Q w.
Proof.
  intros Hent Hroots. revert w Q. induction ids as [|id ids IH]; intros w Q Hu HQ; cbn [gc_identities]; [by apply chl_ret; auto|].
  apply chl_bind, wp_gcEntries; [done..|by apply scoped_sub|done|]. intros g v Hv. apply chl_bind, IH; [done|]. intros ws v' Hv'. apply chl_ret; auto.
Qed.

(** C18: A collection leaves every declared value what it addresses, whichever calls
    of the collection itself fail and wherever it is cut off.  What it is given is right:
    the listing of the cache and the winner of each key were read without a failure
    (a read that fails in that contest can cost a declared value its fresher entry),
    receipts are no symbolic links, the declared keys are alphanumeric, and no two
    entries of a key have identities that are spelled alike.  Then a scan afterwards
    gives each declared key the entry it had before, with the same content, and gives a
    declared key that had none none. *)
Theorem declared_values_kept all w p es n k
    (HC : is_folder (get C w) = true) (Hall : eval (scanInstalled C) w = Ok all)
    (Hkeys : forall k, is_Some (roots !! k) -> key_ok k) (Happ : told_apart all)
    (Hlinks : forall e, e ∈ all -> forall t, get (E_Root e ++ [ReceiptFile]) w <> Some (Sym t))
    (Hp : collection (eval (entriesByKey all) w) all p) (Hk : is_Some (roots !! k)) :
  let w' := cut n es p w in
  exists all', eval (scanInstalled C) w' = Ok all' /\
    eval (entriesByKey all') w' !! k = eval (entriesByKey all) w !! k /\
    forall e, eval (entriesByKey all) w !! k = Some e -> get (E_Root e) w' = get (E_Root e) w.
Proof.
  cbn zeta. set (winners := eval (entriesByKey all) w) in *. destruct (scanInstalled_spec C w HC) as (l & Hl & Hin). assert (l = all) as -> by congruence.
  assert (Hu : unharmed C roots winners w all (cut n es p w)).
  { assert (unharmed C roots winners w all w) as Hu by (split; try done; intros; right; by left).
    apply (chl_cut any _ _ (fun _ _ => True)); [|by apply Forall_true|done].
    destruct Hp; apply chl_bind; [apply wp_gcEntries|apply wp_gc_identities]; try done; try (intros e He; by apply Hin); intros; by apply chl_ret. }
  destruct (scanInstalled_spec C (cut n es p w) (u_cache _ _ _ _ _ _ Hu)) as (all' & Hall' & Hin'). exists all'. split; [done|].
  pose proof (entriesByKey_spec w all k) as Hw. fold winners in Hw. split.
  - eapply champion_after; try done; [by intros e He; apply Hin|apply entriesByKey_spec].
  - intros e He. rewrite He in Hw. destruct Hw as (H1 & H2 & _). apply (u_spared _ _ _ _ _ _ Hu); [done|]. subst k. unfold condemned, superseded_by.
    rewrite He, (bool_decide_eq_true_2 _ Hk), (bool_decide_eq_true_2 (Some e = Some e)) by done. done.
Qed.
End Declared.

(** ** Examples *)

(** A declared value fetched again after the repository was renamed: the twins of one
    key, and an entry nothing declares. *)
Definition gc_deps : Deps := {|
  digest := fun _ => "k1";
  parse_manifest := fun _ => None;
  parse_receipt := fun raw => Some (mkReceipt "" "" (if String.eqb raw "later" then 2 else 1) "");
  print_receipt := fun _ => "later";
  component_ok := fun _ _ => true;
|}.
Definition gc_manager : Manager := mkManager [] None (fun _ => Err "") ["cache"].
Definition gc_roots : gmap string rootedSource := {[ "k1" := mkRooted (mkSource "https://host/repo" "" "" "") ["project.yaml"] ]}.
Definition gc_entry (receipt : string) : node := Folder {[ ReceiptFile := Reg receipt; "f" := Reg receipt ]}.
Definition gc_disk : node := Folder {[ "cache" := Folder {[
  "acme" := Folder {[ "new" := Folder {[ "k1" := gc_entry "later" ]}; "old" := Folder {[ "k1" := gc_entry "earlier" ]} ]};
  "zed" := Folder {[ "gone" := Folder {[ "k2" := gc_entry "earlier" ]} ]} ]} ]}.
Definition gc_new : InstalledEntry := mkEntry (mkID "acme" "new") "k1" ["cache"; "acme"; "new"; "k1"].
Definition gc_old : InstalledEntry := mkEntry (mkID "acme" "old") "k1" ["cache"; "acme"; "old"; "k1"].
Definition gc_gone : InstalledEntry := mkEntry (mkID "zed" "gone") "k2" ["cache"; "zed"; "gone"; "k2"].
Definition gc_all : list InstalledEntry := [gc_new; gc_old; gc_gone].
Definition gc_prog : prog unit := do _ <- @gcEntries gc_deps ["cache"] gc_roots (eval (@entriesByKey gc_deps gc_all) gc_disk) gc_all; Ret tt.

(** The stale twin and the undeclared entry go; the declared value keeps its entry. *)
Lemma declared_values_kept_witness :
  let w' := cut 100 [] gc_prog gc_disk in
  get (E_Root gc_old) w' = None /\ get (E_Root gc_gone) w' = None /\ eval (@entriesByKey gc_deps gc_all) gc_disk !! "k1" = Some gc_new /\
  exists all', eval (scanInstalled ["cache"]) w' = Ok all' /\
    eval (@entriesByKey gc_deps all') w' !! "k1" = eval (@entriesByKey gc_deps gc_all) gc_disk !! "k1" /\
    forall e, eval (@entriesByKey gc_deps gc_all) gc_disk !! "k1" = Some e -> get (E_Root e) w' = get (E_Root e) gc_disk.
Proof.
  split; [vm_compute; reflexivity|]. split; [vm_compute; reflexivity|]. split; [vm_compute; reflexivity|].
  apply (@declared_values_kept gc_deps gc_manager gc_roots gc_all gc_disk gc_prog [] 100 "k1").
  - vm_compute. reflexivity.
  - vm_compute. reflexivity.
  - intros k [x Hx]. unfold gc_roots in Hx. apply lookup_singleton_Some in Hx as [<- _]. by split.
  - intros e e' He He' _ Hn. unfold gc_all in *. apply list_elem_of_In in He, He'. cbn in He, He'. destruct He as [<-|[<-|[<-|[]]]], He' as [<-|[<-|[<-|[]]]]; done.
  - intros e He t. apply list_elem_of_In in He. cbn in He. destruct He as [<-|[<-|[<-|[]]]]; vm_compute; discriminate.
  - constructor.
  - vm_compute. by eexists.
Defined.

(** The fresher twin is being replaced while the contest reads it, so the stale one
    wins; by the time the loser is collected its receipt is back, and it is deleted:
    the comment on [fresherEntry] (installed.go) has the loser only ever demoted. *)
Definition gc_missed : env := mkEnv (Some ENOENT) 0 [] None "0" false (Err EOTHER) 0.
Theorem live_twin_collected :
  let w' := (run [gc_missed] (do winners <- @entriesByKey gc_deps gc_all; @gcEntries gc_deps ["cache"] gc_roots winners gc_all) gc_disk).1 in
  get (E_Root gc_new) w' = None /\ get (E_Root gc_old) w' = get (E_Root gc_old) gc_disk.
Proof. vm_compute. split; reflexivity. Qed.

End BundleGC.
