(* ===== verification/BundleListing.v ===== *)
(** * Listing and resolving bare names

    The names of loose.go, floor.go and resolver.go: what [List] shows for the names
    without a bundle is what [Resolve] finds for them, one row per name, with the
    components of the farther tiers that the winner hides. *)

From S2P Require Import Prelude GoStrings GoPath BundleNames BundleFS Bundle BundleResolver BundleSwap BundleStage BundleGC.
Import Go GoPath BundleNames BundleFS Bundle BundleResolver BundleSwap BundleStage BundleGC.
Open Scope prog_scope.

Module BundleListing.

(** ** Paths without links *)

Definition linkless (w : node) (p : path) : Prop := Forall seg_ok p /\ forall q t, q `prefix_of` p -> get q w <> Some (Sym t).

Lemma walk_cons links w dest seg rest : seg_ok seg -> walkSymlinks links w dest (seg :: rest) =
  match get (dest ++ [seg]) w with
  | None => None
  | Some (Reg _) => match rest with [] => Some (dest ++ [seg]) | _ => None end
  | Some (Folder _) => walkSymlinks links w (dest ++ [seg]) rest
  | Some (Sym t) => match links with O => None | S l => walkSymlinks l w (if IsAbs t then [] else dest) (Split "/" t ++ rest) end
  end.
Proof. intros (H1 & H2 & H3 & _). destruct links; cbn; by rewrite (proj2 (String.eqb_neq _ _) H1), (proj2 (String.eqb_neq _ _) H2), (proj2 (String.eqb_neq _ _) H3). Qed.

Lemma walk_stuck links w dest p x r : Forall seg_ok p -> (forall q t, q `prefix_of` p -> get (dest ++ q) w <> Some (Sym t)) ->
  is_folder (get dest w) = true -> is_folder (get (dest ++ p) w) = false -> walkSymlinks links w dest (p ++ x :: r) = None.
Proof.
  intros Hp. revert dest. induction Hp as [|seg p Hs Hp IH]; intros dest Hl Hd Hf; [rewrite app_nil_r in Hf; congruence|].
  change ((seg :: p) ++ x :: r) with (seg :: (p ++ x :: r)). rewrite walk_cons by done.
  destruct (get (dest ++ [seg]) w) as [[c|t|k]|] eqn:Eg.
  - by destruct p.
  - exfalso. by apply (Hl [seg] t); [apply prefix_cons, prefix_nil|].
  - apply IH; [|by rewrite Eg|by rewrite <- app_assoc].
    intros q t Hq. rewrite <- app_assoc. apply Hl. by apply prefix_cons.
  - done.
Qed.

Lemma follow_under w p n : linkless w p -> (forall t, get (p ++ [n]) w <> Some (Sym t)) -> is_folder (Some w) = true -> follow w (p ++ [n]) = get (p ++ [n]) w.
Proof.
  intros [Hs Hl] Hn Hw. unfold follow, parent. destruct (get (p ++ [n]) w) as [[c|t|k]|] eqn:Eg; [done|by destruct (Hn t)|done|].
  rewrite removelast_last. destruct (is_folder (get p w)) eqn:Hf; [done|]. by rewrite (walk_stuck _ w [] p n []) by done.
Qed.

(** ** One tier *)

Lemma names_of_dir (k : gmap string node) :
  (filter (fun e => is_dir_entry e = true) (merge_sort key_le (prod_map id kind_of <$> map_to_list k))).*1 ≡ₚ (filter (fun p => is_folder (Some p.2) = true) (map_to_list k)).*1.
Proof.
  rewrite merge_sort_Permutation. induction (map_to_list k) as [|[x n] l IH]; [done|]. rewrite fmap_cons, !filter_cons.
  destruct n; cbn [is_dir_entry prod_map kind_of snd is_folder]; [done..|]. rewrite !decide_True by done. by rewrite !fmap_cons, IH.
Qed.

Lemma sorted_names (k : gmap string node) l : l = sort_names (filter (fun e => is_dir_entry e = true) (merge_sort key_le (prod_map id kind_of <$> map_to_list k))).*1 ->
  NoDup l /\ forall n, n ∈ l <-> is_folder (k !! n) = true.
Proof.
  intros ->. unfold sort_names. rewrite merge_sort_Permutation, names_of_dir. split.
  - apply (sublist_NoDup _ (map_to_list k).*1); [apply NoDup_fst_map_to_list|]. apply fmap_sublist, sublist_filter.
  - intros n. rewrite merge_sort_Permutation, names_of_dir, list_elem_of_fmap. split.
    + intros ([x c] & -> & [Hc Hin]%list_elem_of_filter). apply elem_of_map_to_list in Hin. cbn. by rewrite Hin.
    + intros Hf. destruct (k !! n) as [c|] eqn:E; [|done]. exists (n, c). split; [done|]. apply list_elem_of_filter. split; [done|]. by apply elem_of_map_to_list.
Qed.

Lemma filter_omap (f : string -> option Component) (names : list string) n : NoDup names -> (forall x c, f x = Some c -> bare_name c = x) -> (n ∉ names -> f n = None) ->
  filter (fun c => bare_name c = n) (omap f names) = option_list (f n).
Proof.
  intros Hn Hf. induction Hn as [|x l Hx Hl IH]; intros Hout; [by rewrite Hout by apply not_elem_of_nil|].
  assert (Hrest : n <> x -> filter (fun c => bare_name c = n) (omap f l) = option_list (f n)) by (intros Hne; apply IH; intros Hl'; apply Hout; by rewrite not_elem_of_cons).
  cbn. destruct (decide (n = x)) as [->|Hne].
  - assert (filter (fun c => bare_name c = x) (omap f l) = []) as E0.
    { apply elem_of_nil_inv. intros c [Hc (y & Hy & Ey)%list_elem_of_omap]%list_elem_of_filter. apply Hf in Ey. congruence. }
    destruct (f x) as [c|] eqn:E; [|done]. rewrite filter_cons_True by (by apply Hf). by rewrite E0.
  - destruct (f x) as [c|] eqn:E; [|auto]. rewrite filter_cons_False; [auto|]. apply Hf in E. congruence.
Qed.

Lemma names_back (f : string -> option Component) (names : list string) : (forall x c, f x = Some c -> bare_name c = x) -> (forall n, n ∈ names -> is_Some (f n)) -> bare_name <$> omap f names = names.
Proof.
  intros Hf Hall. induction names as [|n l IH]; [done|]. cbn. destruct (Hall n (list_elem_of_here _ _)) as [c E]. rewrite E. cbn. rewrite (Hf n c E). f_equal. apply IH. intros x Hx. apply Hall. by right.
Qed.

(** ** The tiers *)

Section Listing.
Context (s : Setup) (t : ComponentType) (w : node).

Definition loose_found (tier : Tier) (base : option path) (n : string) : option Component :=
  match base with
  | Some b => if is_folder (get (looseComponentDir b t n) w) then Some (bare_component tier (looseComponentDir b t n) t n) else None
  | None => None
  end.

(** Neither the directories that lead to the loose components nor these are links, and
    the shipped tree has directories only. *)
Definition direct (base : option path) : Prop :=
  match base with Some b => linkless w (b ++ [TypeDir t]) /\ forall n tg, get (looseComponentDir b t n) w <> Some (Sym tg) | None => True end.
Definition shipped_dirs : Prop := forall n c, get (floor_dir t n) (floorFS s) = Some c -> is_folder (Some c) = true.

Context (Hw : is_folder (Some w) = true) (Huser : direct (userBase s)) (Hproject : direct (projectBase s)) (Hfloor : shipped_dirs).

Lemma loose_dir_snoc b n : looseComponentDir b t n = (b ++ [TypeDir t]) ++ [n].
Proof. by rewrite <- app_assoc. Qed.

Lemma eval_looseComponent tier base n : direct base -> eval (looseComponent tier base t n) w = loose_found tier base n.
Proof.
  destruct base as [b|]; [|done]. intros [Hl Hn]. unfold looseComponent. rewrite eval_bind by auto with reads. unfold eval. cbn. rewrite loose_dir_snoc, follow_under; [|done|rewrite <- loose_dir_snoc; apply Hn|done].
  rewrite <- loose_dir_snoc. by destruct (get (looseComponentDir b t n) w) as [[]|].
Qed.

Lemma linkless_follow p : linkless w p -> follow w p = get p w.
Proof.
  intros [Hs Hl]. destruct (decide (p = [])) as [->|Hp]; [unfold follow; cbn; by destruct w|]. rewrite (app_removelast_last "" Hp) in Hs, Hl |- *. apply follow_under; [|intros tg; by apply Hl|done].
  apply Forall_app in Hs as [Hs _]. split; [done|]. intros q tg Hq. apply Hl. by apply prefix_app_r.
Qed.

Lemma eval_looseNames tier base : direct base ->
  NoDup (eval (looseNames base t) w) /\ forall n, n ∉ eval (looseNames base t) w -> loose_found tier base n = None.
Proof.
  destruct base as [b|]; [|split; [apply NoDup_nil_2|done]]. intros [Hl Hn]. unfold looseNames. rewrite eval_bind by auto with reads.
  assert (eval (sys (ReadDir (b ++ [TypeDir t]))) w = list_dir (get (b ++ [TypeDir t]) w)) as -> by (unfold eval; cbn; by rewrite linkless_follow).
  cbn [loose_found]. assert (Hget : forall n, get (looseComponentDir b t n) w = match get (b ++ [TypeDir t]) w with Some (Folder k) => k !! n | _ => None end) by (intros n; by rewrite loose_dir_snoc, get_snoc).
  destruct (get (b ++ [TypeDir t]) w) as [[| |k]|] eqn:Eg; cbn [list_dir]; unfold eval; cbn [run snd]; try (split; [apply NoDup_nil_2|intros n _; by rewrite Hget]).
  destruct (sorted_names k _ eq_refl) as [H1 H2]. split; [done|]. intros n Hout. rewrite H2 in Hout. rewrite Hget. by destruct (is_folder (k !! n)).
Qed.

Lemma floor_names : NoDup (FloorNames s t) /\ forall n, n ∉ FloorNames s t -> floorComponent s t n = None.
Proof.
  unfold FloorNames, floorComponent. assert (Hget : forall n, get (floor_dir t n) (floorFS s) = match get [floorAssetsRoot; TypeDir t] (floorFS s) with Some (Folder k) => k !! n | _ => None end).
  { intros n. change (floor_dir t n) with ([floorAssetsRoot; TypeDir t] ++ [n]). by rewrite get_snoc. }
  destruct (get [floorAssetsRoot; TypeDir t] (floorFS s)) as [[| |k]|] eqn:Eg; cbn [list_dir]; try (split; [apply NoDup_nil_2|intros n _; by rewrite Hget]).
  destruct (sorted_names k _ eq_refl) as [H1 H2]. split; [done|]. intros n Hout. rewrite H2 in Hout. rewrite Hget. pose proof (Hfloor n) as Hn. rewrite Hget in Hn.
  destruct (k !! n) as [c|]; [|done]. by rewrite (Hn c) in Hout.
Qed.

(** What a name stands for in each tier, the nearest first. *)
Definition tiers (n : string) : list Component :=
  option_list (loose_found TierLooseUser (userBase s) n) ++ option_list (loose_found TierLooseProject (projectBase s) n) ++ option_list (floorComponent s t n).

Lemma loose_named tier base n c : loose_found tier base n = Some c -> bare_name c = n.
Proof. unfold loose_found. destruct base as [b|]; [|done]. destruct (is_folder (get (looseComponentDir b t n) w)); [|done]. intros E. by injection E as <-. Qed.

Lemma floor_named n c : floorComponent s t n = Some c -> bare_name c = n.
Proof. unfold floorComponent. destruct (get (floor_dir t n) (floorFS s)); [|done]. intros E. by injection E as <-. Qed.

Lemma tiers_named n c : c ∈ tiers n -> bare_name c = n.
Proof.
  assert (Ho : forall o : option Component, c ∈ option_list o -> o = Some c) by (intros [x|]; cbn; [by intros ->%list_elem_of_singleton|by intros ?%elem_of_nil]).
  unfold tiers. rewrite !elem_of_app. by intros [Hc%Ho%loose_named|[Hc%Ho%loose_named|Hc%Ho%floor_named]].
Qed.

(** *** Resolution takes the nearest *)

Lemma eval_resolveBare n : eval (resolveBare s t n) w = match tiers n with c :: _ => Ok c | [] => Err (NotFound t n) end.
Proof.
  assert (Hr : forall tier base, reads (looseComponent tier base t n)) by (intros tier [b|]; unfold looseComponent; auto with reads).
  unfold resolveBare, tiers. rewrite eval_bind, eval_looseComponent by done. destruct (loose_found TierLooseUser (userBase s) n); [done|].
  rewrite eval_bind, eval_looseComponent by done. destruct (loose_found TierLooseProject (projectBase s) n); [done|]. cbn. by destruct (floorComponent s t n).
Qed.

(** *** The listing has them all *)

Lemma reads_candidates_of f names : (forall n, reads (f n)) -> reads (candidates_of f names).
Proof. intros Hf. induction names as [|n l IH]; cbn [candidates_of]; auto 10 with reads. Qed.

Lemma eval_candidates_of (f : string -> prog (option Component)) g names : (forall n, reads (f n)) -> (forall n, eval (f n) w = g n) -> eval (candidates_of f names) w = omap g names.
Proof.
  intros Hf Hg. induction names as [|n l IH]; [done|]. cbn [candidates_of]. rewrite eval_bind by done. rewrite eval_bind by (by apply reads_candidates_of). rewrite IH, Hg. cbn. by destruct (g n).
Qed.

Lemma eval_bareCandidates : eval (bareCandidates s t) w =
  omap (loose_found TierLooseUser (userBase s)) (eval (looseNames (userBase s) t) w) ++ omap (loose_found TierLooseProject (projectBase s)) (eval (looseNames (projectBase s) t) w) ++ omap (floorComponent s t) (FloorNames s t).
Proof.
  assert (Hn : forall base, reads (looseNames base t)) by (intros [b|]; unfold looseNames; auto with reads).
  assert (Hr : forall tier base n, reads (looseComponent tier base t n)) by (intros tier [b|] n; unfold looseComponent; auto with reads).
  unfold bareCandidates. rewrite eval_bind by done. rewrite eval_bind by (by apply reads_candidates_of). rewrite eval_bind by done. rewrite eval_bind by (by apply reads_candidates_of).
  rewrite (eval_candidates_of _ (loose_found TierLooseUser (userBase s))) by (done || by intros; apply eval_looseComponent).
  by rewrite (eval_candidates_of _ (loose_found TierLooseProject (projectBase s))) by (done || by intros; apply eval_looseComponent).
Qed.

Lemma candidates_by_name n : filter (fun c => bare_name c = n) (eval (bareCandidates s t) w) = tiers n.
Proof.
  rewrite eval_bareCandidates, !filter_app. unfold tiers. destruct floor_names as [F1 F2].
  destruct (eval_looseNames TierLooseUser (userBase s) Huser) as [U1 U2], (eval_looseNames TierLooseProject (projectBase s) Hproject) as [P1 P2].
  rewrite !filter_omap; try done; try (intros x c; apply loose_named || apply floor_named); auto.
Qed.

Definition hiding (c : Component) (shadowed : list Component) : Component :=
  let p := C_Provenance c in with_provenance c (mkProv (P_Tier p) (P_Dir p) (P_Bundle p) (Shadows p ++ (C_Provenance <$> shadowed))).

Lemma first_seen_go (l acc : list string) : NoDup acc -> let out := foldl (fun acc n => if bool_decide (n ∈ acc) then acc else acc ++ [n]) acc l in NoDup out /\ forall n, n ∈ out <-> n ∈ acc \/ n ∈ l.
Proof.
  revert acc. induction l as [|x l IH]; intros acc Hd; cbn.
  { split; [done|]. intros n. rewrite elem_of_nil. tauto. }
  destruct (decide (x ∈ acc)) as [Hx|Hx]; [rewrite bool_decide_eq_true_2 by done|rewrite bool_decide_eq_false_2 by done].
  - destruct (IH acc Hd) as [H1 H2]. split; [done|]. intros n. rewrite H2, elem_of_cons. split; [tauto|]. intros [?|[->|?]]; tauto.
  - destruct (IH (acc ++ [x])) as [H1 H2]; [apply NoDup_app; split; [done|]; split; [by intros y Hy <-%list_elem_of_singleton|apply NoDup_singleton]|].
    split; [done|]. intros n. rewrite H2, elem_of_app, list_elem_of_singleton, elem_of_cons. tauto.
Qed.

Lemma merge_candidates_tiers n : merge_candidates (eval (bareCandidates s t) w) n = match tiers n with [] => None | c :: rest => Some (hiding c rest) end.
Proof. unfold merge_candidates. by rewrite candidates_by_name. Qed.

Lemma eval_listBare : exists names, eval (listBare s t) w = omap (merge_candidates (eval (bareCandidates s t) w)) names /\ Sorted String.le names /\ NoDup names /\ forall n, n ∈ names <-> tiers n <> [].
Proof.
  assert (Hr : reads (bareCandidates s t)).
  { assert (forall base, reads (looseNames base t)) by (intros [b|]; unfold looseNames; auto with reads).
    assert (forall tier base names, reads (candidates_of (looseComponent tier base t) names)) by (intros tier [b|] names; apply reads_candidates_of; intros n; unfold looseComponent; auto with reads).
    unfold bareCandidates. auto 20 with reads. }
  set (cs := eval (bareCandidates s t) w). exists (sort_names (first_seen (bare_name <$> cs))). split; [unfold listBare; by rewrite eval_bind|].
  destruct (first_seen_go (bare_name <$> cs) []) as [H1 H2]; [apply NoDup_nil_2|]. unfold sort_names. split; [apply Sorted_merge_sort, _|]. rewrite merge_sort_Permutation. split; [done|].
  intros n. rewrite merge_sort_Permutation. unfold first_seen. rewrite H2, elem_of_nil, <- (candidates_by_name n), list_elem_of_fmap. fold cs. split.
  - intros [[]|(c & -> & Hc)] E. assert (c ∈ filter (fun c' => bare_name c' = bare_name c) cs) as Hin by (by apply list_elem_of_filter). rewrite E in Hin. by apply elem_of_nil in Hin.
  - intros Hne. right. destruct (filter (fun c => bare_name c = n) cs) as [|c l] eqn:E; [done|]. assert (c ∈ filter (fun c => bare_name c = n) cs) as [Hc Hin]%list_elem_of_filter by (rewrite E; by left). by exists c.
Qed.

(** A valid bare name is resolved in the tiers. *)
Lemma Resolve_bare `{Deps} n r : Valid t = true -> conforms n -> (eval (Resolve s r t n) w).2 = eval (resolveBare s t n) w.
Proof.
  intros Hv Hn. unfold Resolve. rewrite Hv. assert (ParseAddress n = Ok (BareAddress n)) as -> by (apply address_grammar; by split; [split; [|left]|]).
  change (Qualified (BareAddress n)) with false. change (A_Name (BareAddress n)) with n. cbn [negb]. rewrite eval_bind; [done|]. unfold resolveBare, looseComponent. destruct (userBase s), (projectBase s); auto 20 with reads.
Qed.

(** C39: The listing of bare names and their resolution agree, where no read fails,
    neither the directories of the loose tiers nor the components in them are symbolic
    links and the shipped tree has a directory per component (a linked component
    resolves and is not listed).  The rows are in the order of their names, a name has
    one row, and a name is found as a component by the lookup in the tiers exactly when
    its row is that component with the farther tiers' components of the same name,
    nearest first, as what it hides; a name without a row is not found.  For a name
    that is a valid bare address this lookup is what [Resolve] answers (a directory
    that no address can spell is listed all the same, and does not resolve). *)
Theorem listing_is_resolution `{Deps} :
  let l := eval (listBare s t) w in
  Sorted String.le (bare_name <$> l) /\ NoDup (bare_name <$> l) /\
  forall n, (forall c, eval (resolveBare s t n) w = Ok c <-> exists rest, tiers n = c :: rest /\ filter (fun c' => bare_name c' = n) l = [hiding c rest]) /\
            (eval (resolveBare s t n) w = Err (NotFound t n) <-> filter (fun c' => bare_name c' = n) l = []) /\
            (Valid t = true -> conforms n -> forall r, (eval (Resolve s r t n) w).2 = eval (resolveBare s t n) w).
Proof.
  cbn zeta. destruct eval_listBare as (names & -> & Hs & Hd & Hin).
  assert (Hf : forall n c, merge_candidates (eval (bareCandidates s t) w) n = Some c -> bare_name c = n).
  { intros n c. rewrite merge_candidates_tiers. destruct (tiers n) as [|c0 rest] eqn:E; [done|]. intros [= <-]. apply (tiers_named n c0). rewrite E. by left. }
  assert (Hsome : forall n, n ∈ names -> is_Some (merge_candidates (eval (bareCandidates s t) w) n)).
  { intros n Hn%Hin. rewrite merge_candidates_tiers. by destruct (tiers n). }
  rewrite (names_back _ names) by done. split; [done|]. split; [done|]. intros n.
  rewrite (filter_omap (merge_candidates _) names n Hd Hf).
  - rewrite eval_resolveBare, merge_candidates_tiers. split; [|split; [destruct (tiers n); by split|]].
    2: { intros Hv Hn r. rewrite (Resolve_bare n r) by done. by rewrite eval_resolveBare. }
    intros c. destruct (tiers n) as [|c0 rest]; cbn; split; [done|by intros (r & ? & _)|intros [= ->]; by exists rest|by intros (r & [= -> ->] & _)].
  - intros Hn. rewrite merge_candidates_tiers. destruct (tiers n) eqn:E; [done|]. destruct Hn. apply Hin. by rewrite E.
Qed.
End Listing.

(** ** Examples *)

Definition ls_home : node := Folder {[ "harnesses" := Folder {[ "alpha" := Folder ∅; "not a name" := Folder ∅ ]} ]}.
Definition ls_repo : node := Folder {[ DotClawkerDir := Folder {[ "harnesses" := Folder {[ "alpha" := Folder ∅; "beta" := Folder ∅; "notes" := Reg "" ]} ]} ]}.
Definition ls_floor : node := Folder {[ floorAssetsRoot := Folder {[ "harnesses" := Folder {[ "alpha" := Folder ∅; "gamma" := Folder ∅ ]} ]} ]}.
Definition ls_disk : node := Folder {[ "home" := ls_home; "repo" := ls_repo ]}.
Definition ls_setup : Setup := mkSetup (mkManager [] None (fun _ => Err "") ["cache"]) ["home"] (Some ["repo"]) ls_floor.

Lemma lookup_no_sym (k : gmap string node) n tg : map_fold (fun _ c b => match c with Sym _ => false | _ => b end) true k = true -> k !! n <> Some (Sym tg).
Proof.
  intros Hk. revert Hk n tg. apply (map_fold_weak_ind (fun b k => b = true -> forall n tg, k !! n <> Some (Sym tg))).
  - intros _ n tg. by rewrite lookup_empty.
  - intros i x m b Hi IH Hb n tg. destruct (decide (n = i)) as [->|Hne]; [rewrite lookup_insert_eq; by destruct x|]. rewrite lookup_insert_ne by done. apply IH. by destruct x.
Qed.

Lemma listing_is_resolution_witness :
  let l := eval (listBare ls_setup ComponentHarness) ls_disk in
  bare_name <$> l = ["alpha"; "beta"; "gamma"; "not a name"] /\
  Sorted String.le (bare_name <$> l) /\ NoDup (bare_name <$> l) /\
  forall n, (forall c, eval (resolveBare ls_setup ComponentHarness n) ls_disk = Ok c <->
               exists rest, tiers ls_setup ComponentHarness ls_disk n = c :: rest /\ filter (fun c' => bare_name c' = n) l = [hiding c rest]) /\
            (eval (resolveBare ls_setup ComponentHarness n) ls_disk = Err (NotFound ComponentHarness n) <-> filter (fun c' => bare_name c' = n) l = []) /\
            (Valid ComponentHarness = true -> conforms n -> forall r,
               (eval (@Resolve gc_deps ls_setup r ComponentHarness n) ls_disk).2 = eval (resolveBare ls_setup ComponentHarness n) ls_disk).
Proof.
  split; [vm_compute; reflexivity|]. apply (listing_is_resolution ls_setup ComponentHarness ls_disk).
  - reflexivity.
  - split; [split|].
    + repeat constructor; vm_compute; done.
    + intros q tg [r Hr]. destruct q as [|a [|b [|c q]]]; simplify_eq/=; vm_compute; done.
    + intros n tg. rewrite loose_dir_snoc, get_snoc. apply lookup_no_sym. vm_compute. reflexivity.
  - split; [split|].
    + repeat constructor; vm_compute; done.
    + intros q tg [r Hr]. destruct q as [|a [|b [|c [|d q]]]]; simplify_eq/=; vm_compute; done.
    + intros n tg. rewrite loose_dir_snoc, get_snoc. apply lookup_no_sym. vm_compute. reflexivity.
  - intros n c. change (floor_dir ComponentHarness n) with ([floorAssetsRoot; TypeDir ComponentHarness] ++ [n]). rewrite get_snoc. intros Hn.
    assert (n = "alpha" \/ n = "gamma") as [->| ->]; [|vm_compute in Hn; by injection Hn as <-..].
    apply (elem_of_map_to_list _ n c) in Hn. vm_compute in Hn. apply list_elem_of_In in Hn. cbn in Hn. destruct Hn as [Hn|[Hn|[]]]; injection Hn; auto.
Defined.

(** [List] (resolver.go) is said to enumerate every resolvable component.  A loose
    component whose directory is a link resolves and is not listed; a directory that
    no name can spell is listed and does not resolve. *)
Definition ls_linked : node := Folder {[ "home" := Folder {[ "harnesses" := Folder {[ "alpha" := Sym "../../alpha" ]} ]}; "alpha" := Folder ∅; "repo" := Folder ∅ ]}.
Theorem linked_component_unlisted :
  (exists c, eval (resolveBare (mkSetup (manager ls_setup) ["home"] None (Folder ∅)) ComponentHarness "alpha") ls_linked = Ok c) /\
  eval (listBare (mkSetup (manager ls_setup) ["home"] None (Folder ∅)) ComponentHarness) ls_linked = [].
Proof. split; [eexists|]; vm_compute; reflexivity. Qed.

Theorem unspellable_component_listed :
  "not a name" ∈ bare_name <$> eval (listBare ls_setup ComponentHarness) ls_disk /\
  exists e, (eval (@Resolve gc_deps ls_setup NewResolver ComponentHarness "not a name") ls_disk).2 = Err (BadAddress e).
Proof. split; [apply list_elem_of_In; vm_compute; auto 10|eexists; vm_compute; reflexivity]. Qed.

End BundleListing.
