(* ===== verification/Bridge.v ===== *)
(** * The socket bridge

    Forwarding of the host's ssh and gpg agents into a container over the pipes of
    [docker exec]: the host's end (internal/socketbridge/bridge.go), the container's
    end (internal/hostproxy/internals/cmd/clawker-socket-server) and the manager of
    the bridge daemons (internal/socketbridge/manager.go, internal/cmd/bridge).

    A byte is an [ascii].  Both ends run goroutines: one reader per connection, the
    accept loops of the container, and the loop that reads messages; what such a
    goroutine does between two calls that may block, or under a lock, is one step.
    [step] is the joint state's transition for each action of a goroutine or of the
    outside (a connection made, bytes sent, a call that fails). *)

From S2P Require Import Prelude GoStrings GoPath Routes.
Import Go GoPath.

Module Bridge.

(** ** Messages on the wire *)

Definition MsgData : Z := 1.
Definition MsgOpen : Z := 2.
Definition MsgClose : Z := 3.
Definition MsgPubkey : Z := 4.
Definition MsgReady : Z := 5.
Definition MsgError : Z := 6.
Definition readBufSize : Z := 64 * 1024.
Definition maxMessageSize : Z := 2 ^ 20.
(** The least length: a type and a stream. *)
Definition headLen : Z := 5.

Definition bytes : Type := list ascii.
Record Message := mkMsg { m_Type : Z; StreamID : Z; Payload : bytes }.

Definition byte_of (n : Z) : ascii := ascii_of_N (Z.to_N n).
Definition of_byte (c : ascii) : Z := Z.of_N (N_of_ascii c).
Definition PutUint32 (n : Z) : bytes := [byte_of (n / 2 ^ 24 mod 256); byte_of (n / 2 ^ 16 mod 256); byte_of (n / 2 ^ 8 mod 256); byte_of (n mod 256)].
Definition Uint32 (a b c d : ascii) : Z := of_byte a * 2 ^ 24 + of_byte b * 2 ^ 16 + of_byte c * 2 ^ 8 + of_byte d.

Definition writeMessage (m : Message) : bytes :=
  PutUint32 (Routes.uint32 (headLen + Z.of_nat (length (Payload m)))) ++ [byte_of (m_Type m)] ++ PutUint32 (StreamID m) ++ Payload m.

(** [Short]: the bytes end inside the message; the reader blocks for more, or fails at
    the end of the stream. *)
Inductive reading := Got (m : Message) (rest : bytes) | Short | TooShort (length : Z) | TooLarge (length : Z).
Definition readMessage (s : bytes) : reading :=
  match s with
  | a :: b :: c :: d :: s1 =>
      let len := Uint32 a b c d in
      if len <? headLen then TooShort len
      else if maxMessageSize <? len then TooLarge len
      else match s1 with
      | t :: e :: f :: g :: h :: s2 =>
          let n := Z.to_nat (len - headLen) in
          if bool_decide (n <= length s2)%nat then Got (mkMsg (of_byte t) (Uint32 e f g h) (take n s2)) (drop n s2) else Short
      | _ => Short
      end
  | _ => Short
  end.

(** A pipe; once a write of it has failed, every later one fails. *)
Record Pipe := mkPipe { p_bytes : bytes; broken : bool }.
(** [fault]: how much of the message was written when the write failed. *)
Definition sendMessage (fault : option nat) (m : Message) (p : Pipe) : Pipe * bool :=
  if broken p then (p, false)
  else match fault with
  | None => (mkPipe (p_bytes p ++ writeMessage m) false, true)
  | Some k => (mkPipe (p_bytes p ++ take (Nat.min k (pred (length (writeMessage m)))) (writeMessage m)) true, false)
  end.

(** ** One end *)

(** [c_in] is what was read from the connection and [c_out] what was written to it. *)
Record Conn := mkConn { c_id : Z; c_type : string; c_in : bytes; c_out : bytes; c_open : bool }.
(** A reader about to read, about to send what it read, or about to send the close of
    the stream it has dropped. *)
Inductive reader := Reading | Sending (chunk : bytes) | Closing (id : Z).
Inductive loop := Receiving | LoopClosing (id : Z) | Ended.
Record End := mkEnd { conns : gmap nat Conn; streams : gmap Z nat; readers : gmap nat reader; main : loop }.

Definition set_conn (n : nat) (c : Conn) (e : End) : End := mkEnd (<[n := c]> (conns e)) (streams e) (readers e) (main e).
Definition set_reader (n : nat) (r : option reader) (e : End) : End := mkEnd (conns e) (streams e) (partial_alter (fun _ => r) n (readers e)) (main e).
Definition set_main (l : loop) (e : End) : End := mkEnd (conns e) (streams e) (readers e) l.
Definition close_conn (n : nat) (e : End) : End :=
  match conns e !! n with None => e | Some c => set_conn n (mkConn (c_id c) (c_type c) (c_in c) (c_out c) false) e end.
Definition fresh_conn (e : End) : nat := S (size (conns e)).

(** The part of [closeStream] before its message: whether there was a stream to drop. *)
Definition dropStream (id : Z) (e : End) : End * bool :=
  match streams e !! id with
  | None => (e, false)
  | Some n => (close_conn n (mkEnd (conns e) (delete id (streams e)) (readers e) (main e)), true)
  end.

(** A new connection of a stream. *)
Definition add_stream (id : Z) (ty : string) (e : End) : End :=
  let n := fresh_conn e in mkEnd (<[n := mkConn id ty [] [] true]> (conns e)) (<[id := n]> (streams e)) (readers e) (main e).

(** [wfault]: how much of the payload was written when the write failed. *)
Definition handleData (wfault : option nat) (m : Message) (e : End) : End :=
  match streams e !! StreamID m with
  | None => e
  | Some n =>
      match conns e !! n with
      | None => e
      | Some c =>
          if negb (c_open c) then let '(e', found) := dropStream (StreamID m) e in if found then set_main (LoopClosing (StreamID m)) e' else e'
          else match wfault with
          | None => set_conn n (mkConn (c_id c) (c_type c) (c_in c) (c_out c ++ Payload m) true) e
          | Some k =>
              let '(e', found) := dropStream (StreamID m) (set_conn n (mkConn (c_id c) (c_type c) (c_in c) (c_out c ++ take k (Payload m)) true) e) in
              if found then set_main (LoopClosing (StreamID m)) e' else e'
          end
      end
  end.

Definition handleClose (m : Message) (e : End) : End :=
  let '(e', found) := dropStream (StreamID m) e in if found then set_main (LoopClosing (StreamID m)) e' else e'.

(** ** The host's sockets (bridge.go) *)

Definition SocketTypeSSHAgent : string := "ssh-agent".
Definition SocketTypeGPGAgent : string := "gpg-agent".

(** What [gpgconf] printed and whether that path exists; [SSH_AUTH_SOCK]; whether a
    socket can be connected to. *)
Record HostEnv := mkHost { gpgconf : option string; path_exists : string -> bool; ssh_auth_sock : string; dial : string -> bool }.
Definition getGPGExtraSocket (h : HostEnv) : option string :=
  match gpgconf h with
  | None => None
  | Some out => let path := TrimSpace out in if String.eqb path "" then None else if path_exists h path then Some path else None
  end.
Definition resolveHostSocket (h : HostEnv) (socketType : string) : option string :=
  if String.eqb socketType SocketTypeGPGAgent then getGPGExtraSocket h
  else if String.eqb socketType SocketTypeSSHAgent then (if String.eqb (ssh_auth_sock h) "" then None else Some (ssh_auth_sock h))
  else None.

Definition string_of (b : bytes) : string := String.string_of_list_ascii b.
Definition handleOpen (h : HostEnv) (m : Message) (e : End) : End :=
  match resolveHostSocket h (string_of (Payload m)) with
  | None => set_main (LoopClosing (StreamID m)) e
  | Some path =>
      if dial h path then let n := fresh_conn e in set_reader n (Some Reading) (add_stream (StreamID m) (string_of (Payload m)) e)
      else set_main (LoopClosing (StreamID m)) e
  end.

(** ** Both ends *)

Inductive side := Container | Host.
Record State := mkState {
  container : End; host : End;
  (** from the container's end to the host's, and back *)
  up : Pipe; down : Pipe;
  nextID : Z;
  (** the connection each accept loop has taken and not yet announced *)
  accepted : gmap string nat;
}.
Definition idle : End := mkEnd ∅ ∅ ∅ Receiving.
Definition initial : State := mkState idle idle (mkPipe [] false) (mkPipe [] false) 0 ∅.

Definition end_of (sd : side) (s : State) : End := match sd with Container => container s | Host => host s end.
Definition set_end (sd : side) (e : End) (s : State) : State :=
  match sd with
  | Container => mkState e (host s) (up s) (down s) (nextID s) (accepted s)
  | Host => mkState (container s) e (up s) (down s) (nextID s) (accepted s)
  end.
Definition out_pipe (sd : side) (s : State) : Pipe := match sd with Container => up s | Host => down s end.
Definition in_pipe (sd : side) (s : State) : Pipe := match sd with Container => down s | Host => up s end.
Definition set_out (sd : side) (p : Pipe) (s : State) : State :=
  match sd with
  | Container => mkState (container s) (host s) p (down s) (nextID s) (accepted s)
  | Host => mkState (container s) (host s) (up s) p (nextID s) (accepted s)
  end.
Definition set_in (sd : side) (p : Pipe) (s : State) : State :=
  match sd with
  | Container => mkState (container s) (host s) (up s) p (nextID s) (accepted s)
  | Host => mkState (container s) (host s) p (down s) (nextID s) (accepted s)
  end.
Definition send (sd : side) (fault : option nat) (m : Message) (s : State) : State * bool :=
  let '(p, ok) := sendMessage fault m (out_pipe sd s) in (set_out sd p s, ok).

Inductive action :=
(** the accept loop of a socket takes a connection, and announces it *)
| Accept (ty : string) | SendOpen (ty : string) (fault : option nat)
(** the reader of a connection: bytes arrive, they are sent, the connection ends or
    fails, the close is sent *)
| Read (sd : side) (n : nat) (chunk : bytes) | SendData (sd : side) (n : nat) (fault : option nat)
| ReadFailed (sd : side) (n : nat) | SendClose (sd : side) (n : nat) (fault : option nat)
(** the loop that reads messages *)
| Receive (sd : side) (h : HostEnv) (wfault : option nat) | LoopSendClose (sd : side) (fault : option nat) | LoopEnd (sd : side)
(** the host's [Stop] *)
| StopBridge.

(** The reader's [closeStream]; a reader that finds no stream is done. *)
Definition reader_close (n : nat) (id : Z) (e : End) : End :=
  let '(e', found) := dropStream id e in set_reader n (if found then Some (Closing id) else None) e'.

Definition receive (sd : side) (h : HostEnv) (wfault : option nat) (m : Message) (e : End) : End :=
  if m_Type m =? MsgData then handleData wfault m e
  else if m_Type m =? MsgClose then handleClose m e
  else match sd with
  | Host => if m_Type m =? MsgOpen then handleOpen h m e else e
  | Container => e
  end.

Definition Stop (s : State) : State :=
  let h := host s in
  mkState (container s) (mkEnd (map_imap (fun n c => Some (if bool_decide (streams h !! c_id c = Some n) then mkConn (c_id c) (c_type c) (c_in c) (c_out c) false else c)) (conns h)) ∅ (readers h) (main h))
    (up s) (mkPipe (p_bytes (down s)) true) (nextID s) (accepted s).

Definition step (a : action) (s : State) : option State :=
  match a with
  | Accept ty =>
      match accepted s !! ty with
      | Some _ => None
      | None =>
          let id := Routes.uint32 (nextID s + 1) in let n := fresh_conn (container s) in
          Some (mkState (add_stream id ty (container s)) (host s) (up s) (down s) id (<[ty := n]> (accepted s)))
      end
  | SendOpen ty fault =>
      match accepted s !! ty with
      | None => None
      | Some n =>
          match conns (container s) !! n with
          | None => None
          | Some c =>
              let '(s', ok) := send Container fault (mkMsg MsgOpen (c_id c) (String.list_ascii_of_string ty)) s in
              let e := container s' in
              Some (mkState (if ok then set_reader n (Some Reading) e else close_conn n e) (host s') (up s') (down s') (nextID s') (delete ty (accepted s')))
          end
      end
  | Read sd n chunk =>
      match readers (end_of sd s) !! n, conns (end_of sd s) !! n with
      | Some Reading, Some c =>
          if c_open c && bool_decide (chunk <> []) && (Z.of_nat (length chunk) <=? readBufSize)
          then Some (set_end sd (set_reader n (Some (Sending chunk)) (set_conn n (mkConn (c_id c) (c_type c) (c_in c ++ chunk) (c_out c) true) (end_of sd s))) s)
          else None
      | _, _ => None
      end
  | SendData sd n fault =>
      match readers (end_of sd s) !! n, conns (end_of sd s) !! n with
      | Some (Sending chunk), Some c =>
          let '(s', ok) := send sd fault (mkMsg MsgData (c_id c) chunk) s in
          Some (set_end sd (if ok then set_reader n (Some Reading) (end_of sd s') else reader_close n (c_id c) (end_of sd s')) s')
      | _, _ => None
      end
  | ReadFailed sd n =>
      match readers (end_of sd s) !! n, conns (end_of sd s) !! n with
      | Some Reading, Some c => Some (set_end sd (reader_close n (c_id c) (end_of sd s)) s)
      | _, _ => None
      end
  | SendClose sd n fault =>
      match readers (end_of sd s) !! n with
      | Some (Closing id) =>
          let '(s', _) := send sd fault (mkMsg MsgClose id []) s in
          Some (set_end sd (set_reader n None (end_of sd s')) s')
      | _ => None
      end
  | Receive sd h wfault =>
      match main (end_of sd s) with
      | Receiving =>
          match readMessage (p_bytes (in_pipe sd s)) with
          | Got m rest => Some (set_in sd (mkPipe rest (broken (in_pipe sd s))) (set_end sd (receive sd h wfault m (end_of sd s)) s))
          | Short => None
          | TooShort _ | TooLarge _ => Some (set_end sd (set_main Ended (end_of sd s)) s)
          end
      | _ => None
      end
  | LoopSendClose sd fault =>
      match main (end_of sd s) with
      | LoopClosing id =>
          let '(s', _) := send sd fault (mkMsg MsgClose id []) s in
          Some (set_end sd (set_main Receiving (end_of sd s')) s')
      | _ => None
      end
  | LoopEnd sd => match main (end_of sd s) with Receiving => Some (set_end sd (set_main Ended (end_of sd s)) s) | _ => None end
  | StopBridge => Some (Stop s)
  end.

Fixpoint run (as_ : list action) (s : State) : option State :=
  match as_ with [] => Some s | a :: l => match step a s with Some s' => run l s' | None => None end end.

(** ** Start-up *)

Record SocketConfig := mkSocket { sc_Path : string; sc_Type : string }.
Inductive start_error := NoPubkey | SpawnFailed | PubkeyNotSent | ForwarderError (msg : bytes) | Exited | Cancelled.

(** The first value that [readLoop] puts into [errCh]; [None] while it waits. *)
Fixpoint ready_signal (ms : list Message) (ended : bool) : option (result start_error unit) :=
  match ms with
  | [] => if ended then Some (Err Exited) else None
  | m :: ms' =>
      if m_Type m =? MsgReady then Some (Ok tt)
      else if m_Type m =? MsgError then Some (Err (ForwarderError (Payload m)))
      else ready_signal ms' ended
  end.

(** [export]: what [gpg --export] printed; [ms]: the messages that come back before the
    stream has [ended].  What was sent, and the answer once there is one. *)
Definition Start (gpgEnabled : bool) (gpgPubkey : bytes) (export : option bytes) (spawned sent : bool) (ms : list Message) (ended cancelled : bool) : list Message * option (result start_error unit) :=
  let wait := match ready_signal ms ended with Some r => Some r | None => if cancelled then Some (Err Cancelled) else None end in
  let go key :=
    if negb spawned then ([], Some (Err SpawnFailed))
    else if gpgEnabled then (if sent then ([mkMsg MsgPubkey 0 key], wait) else ([], Some (Err PubkeyNotSent)))
    else ([], wait) in
  if gpgEnabled && bool_decide (gpgPubkey = []) then
    match export with
    | None | Some [] => ([], Some (Err NoPubkey))
    | Some key => go key
    end
  else go gpgPubkey.

Inductive served := Exits (code : Z) | WaitsForKey | Serves.
Definition hasGPG (sockets : list SocketConfig) : bool := existsb (fun s => String.eqb (sc_Type s) SocketTypeGPGAgent) sockets.
Definition sendError (text : string) : Message := mkMsg MsgError 0 (String.list_ascii_of_string text).

(** The error's text when the message on standard input cannot be read: a stream that
    ends at the edge of a field is at its end, elsewhere it is cut. *)
Definition read_error (input : bytes) (r : reading) : string :=
  match r with
  | TooShort n => "message too short: " +:+ Itoa n
  | TooLarge n => "message too large: " +:+ Itoa n
  | Got _ _ | Short => if bool_decide (length input ∈ [0; 4; 5; 9]%nat) then "EOF" else "unexpected EOF"
  end.

(** The inputs of the container's end: the sockets of its environment's JSON, what is on
    standard input, which has [closed] or may still bring more, the errors of the key's
    set-up and of each listener, and whether READY could be written. *)
Record Forwarder := mkForwarder {
  remote_sockets : string; parse : string -> option (list SocketConfig);
  input : bytes; closed : bool;
  setupGPGPubkey : bytes -> option string; createSocketListener : SocketConfig -> option string;
  ready_written : bool;
}.

(** Listeners are created in order; the first failure ends the server. *)
Fixpoint listen_all (f : Forwarder) (sockets : list SocketConfig) : list Message * served :=
  match sockets with
  | [] => if ready_written f then ([mkMsg MsgReady 0 []], Serves) else ([], Exits 1)
  | s :: l =>
      match createSocketListener f s with
      | Some err => ([sendError ("failed to create socket " +:+ sc_Path s +:+ ": " +:+ err)], Exits 1)
      | None => listen_all f l
      end
  end.

(** The container's end up to its main loop. *)
Definition serve (f : Forwarder) : list Message * served :=
  if String.eqb (remote_sockets f) "" then ([], Exits 1)
  else match parse f (remote_sockets f) with
  | None | Some [] => ([], Exits 1)
  | Some sockets =>
      if hasGPG sockets then
        match readMessage (input f) with
        | Got m _ =>
            if negb (m_Type m =? MsgPubkey) then ([sendError "expected PUBKEY message"], Exits 1)
            else match setupGPGPubkey f (Payload m) with
            | Some err => ([sendError ("failed to setup GPG pubkey: " +:+ err)], Exits 1)
            | None => listen_all f sockets
            end
        | Short => if closed f then ([sendError ("failed to read pubkey: " +:+ read_error (input f) Short)], Exits 1) else ([], WaitsForKey)
        | r => ([sendError ("failed to read pubkey: " +:+ read_error (input f) r)], Exits 1)
        end
      else listen_all f sockets
  end.

(** ** The bridge daemons (manager.go) *)

(** The files by path, the processes alive and those sent SIGTERM, and the manager's
    own record of the daemon and PID file of each container. *)
Record World := mkWorld { files : gmap string string; alive_pids : gset Z; terminated : gset Z; bridges : gmap string (Z * string) }.
Definition with_files (f : gmap string string) (w : World) : World := mkWorld f (alive_pids w) (terminated w) (bridges w).
Definition with_bridges (b : gmap string (Z * string)) (w : World) : World := mkWorld (files w) (alive_pids w) (terminated w) b.

Definition readPIDFile (path : string) (w : World) : Z :=
  match files w !! path with None => 0 | Some data => default 0 (Atoi (TrimSpace data)) end.
Definition isProcessAlive (pid : Z) (w : World) : bool := (0 <? pid) && bool_decide (pid ∈ alive_pids w).
Definition killProcess (pid : Z) (w : World) : World := mkWorld (files w) (alive_pids w) (if bool_decide (pid ∈ alive_pids w) then {[pid]} ∪ terminated w else terminated w) (bridges w).

Definition cleanupBridgeLocked (containerID : string) (bp : Z * string) (w : World) : World :=
  let w := if isProcessAlive bp.1 w then killProcess bp.1 w else w in
  with_bridges (delete containerID (bridges w)) (with_files (delete bp.2 (files w)) w).

(** [spawned]: the new daemon's PID; [wrote]: it wrote its PID file before the wait was
    over. *)
Definition startBridge (containerID pidFile : string) (spawned : option Z) (wrote : bool) (w : World) : World * bool :=
  match spawned with
  | None => (w, false)
  | Some pid =>
      let f := if wrote then <[pidFile := Itoa pid]> (files w) else files w in
      let w := mkWorld f ({[pid]} ∪ alive_pids w) (terminated w) (bridges w) in
      if bool_decide (is_Some (f !! pidFile)) then (with_bridges (<[containerID := (pid, pidFile)]> (bridges w)) w, true) else (w, false)
  end.

Section Manager.
(** [None]: the path cannot be had. *)
Context (pidPath : string -> option string).

Definition EnsureBridge (containerID : string) (spawned : option Z) (wrote : bool) (w : World) : World * bool :=
  let fromFile w :=
    match pidPath containerID with
    | None => (w, false)
    | Some pidFile =>
        let pid := readPIDFile pidFile w in
        if (0 <? pid) && isProcessAlive pid w then (with_bridges (<[containerID := (pid, pidFile)]> (bridges w)) w, true)
        else startBridge containerID pidFile spawned wrote w
    end in
  match bridges w !! containerID with
  | Some bp => if isProcessAlive bp.1 w then (w, true) else fromFile (cleanupBridgeLocked containerID bp w)
  | None => fromFile w
  end.

Definition kill_recorded (pidFile : string) (w : World) : World :=
  let w := if 0 <? readPIDFile pidFile w then killProcess (readPIDFile pidFile w) w else w in
  with_files (delete pidFile (files w)) w.
Definition StopBridgeOf (containerID : string) (w : World) : World * bool :=
  match pidPath containerID with
  | None => (w, false)
  | Some pidFile =>
      let w := match bridges w !! containerID with Some bp => cleanupBridgeLocked containerID bp w | None => w end in
      (kill_recorded pidFile w, true)
  end.
(** [entries]: the names in the directory of the PID files, when it can be read. *)
Definition StopAll (bridgesDir : string) (entries : option (list string)) (w : World) : World :=
  let w := foldl (fun w p => cleanupBridgeLocked p.1 p.2 w) w (map_to_list (bridges w)) in
  match entries with
  | None => w
  | Some l => foldl (fun w name => if HasSuffix name ".pid" then kill_recorded (FileJoin [bridgesDir; name]) w else w) w l
  end.
Definition IsRunning (containerID : string) (w : World) : bool :=
  match bridges w !! containerID with
  | Some bp => isProcessAlive bp.1 w
  | None =>
      match pidPath containerID with
      | None => false
      | Some pidFile => let pid := readPIDFile pidFile w in (0 <? pid) && isProcessAlive pid w
      end
  end.
End Manager.

(** A daemon leaves: its deferred removal of the PID file runs whatever the file holds
    (internal/cmd/bridge). *)
Definition daemon_exits (pid : Z) (pidFile : string) (w : World) : World := mkWorld (delete pidFile (files w)) (alive_pids w ∖ {[pid]}) (terminated w) (bridges w).
(** Another invocation of the command line has no record of its own. *)
Definition new_invocation (w : World) : World := with_bridges ∅ w.

End Bridge.
