(* ===== verification/BridgeSpec.v ===== *)
(** * What the socket bridge promises

    [Bridge] against the two ends as one system: messages read back as they were
    written; through any interleaving of both ends' goroutines and any failures, what
    comes out of a stream at one end is what went into it at the other, in order, and
    a stream leads to the agent its socket stands for. *)

From S2P Require Import Prelude GoStrings GoPath Routes EgressRule Bridge.
Import Go GoPath Bridge.

Module BridgeSpec.

(** ** The wire *)

Definition valid (m : Message) : Prop :=
  0 <= m_Type m < 256 /\ 0 <= StreamID m < 2 ^ 32 /\ headLen + Z.of_nat (length (Payload m)) <= maxMessageSize.

Lemma of_byte_of n : 0 <= n < 256 -> of_byte (byte_of n) = n.
Proof. intros Hn. unfold of_byte, byte_of. rewrite N_ascii_embedding by lia. lia. Qed.

Lemma Uint32_PutUint32 n : 0 <= n < 2 ^ 32 ->
  Uint32 (byte_of (n / 2 ^ 24 mod 256)) (byte_of (n / 2 ^ 16 mod 256)) (byte_of (n / 2 ^ 8 mod 256)) (byte_of (n mod 256)) = n.
Proof.
  intros Hn. unfold Uint32. rewrite !of_byte_of by (apply Z.mod_pos_bound; lia).
  change (2 ^ 24) with (256 * (256 * 256)). change (2 ^ 16) with (256 * 256). change (2 ^ 8) with 256. change (2 ^ 32) with 4294967296 in Hn.
  rewrite <- !Z.div_div by lia. pose proof (Z.div_mod n 256). pose proof (Z.div_mod (n / 256) 256). pose proof (Z.div_mod (n / 256 / 256) 256).
  rewrite (Z.mod_small (n / 256 / 256 / 256)) by (split; [by repeat apply Z.div_pos; lia|repeat apply Z.div_lt_upper_bound; lia]). lia.
Qed.

Lemma headed_length m : valid m -> Routes.uint32 (headLen + Z.of_nat (length (Payload m))) = headLen + Z.of_nat (length (Payload m)).
Proof. intros (_ & _ & H). unfold Routes.uint32. apply Z.mod_small. unfold headLen, maxMessageSize in *. lia. Qed.

Lemma length_writeMessage m : length (writeMessage m) = (9 + length (Payload m))%nat.
Proof. done. Qed.

(** A message reads back as it was written, and leaves what follows it. *)
Lemma read_write m rest : valid m -> readMessage (writeMessage m ++ rest) = Got m rest.
Proof.
  intros Hv. pose proof Hv as (H1 & H2 & H3). unfold writeMessage. rewrite headed_length by done. set (len := headLen + _). unfold PutUint32. cbn [app readMessage].
  rewrite !Uint32_PutUint32 by (unfold len, headLen, maxMessageSize in *; lia). rewrite of_byte_of by done.
  destruct (Z.ltb_spec len headLen); [unfold len in *; lia|]. destruct (Z.ltb_spec maxMessageSize len); [unfold len in *; lia|].
  assert (Z.to_nat (len - headLen) = length (Payload m)) as -> by (unfold len; lia). rewrite bool_decide_eq_true_2 by (rewrite length_app; lia).
  rewrite take_app_length, drop_app_length. by destruct m.
Qed.

(** Of a message that was cut off nothing is read. *)
Lemma read_partial m k : valid m -> (k < length (writeMessage m))%nat -> readMessage (take k (writeMessage m)) = Short.
Proof.
  intros Hv Hk. pose proof Hv as (H1 & H2 & H3). rewrite length_writeMessage in Hk. unfold writeMessage. rewrite headed_length by done. set (len := headLen + _). unfold PutUint32.
  do 4 (destruct k as [|k]; [done|]). cbn [app take readMessage]. rewrite Uint32_PutUint32 by (unfold len, headLen, maxMessageSize in *; lia).
  destruct (Z.ltb_spec len headLen); [unfold len in *; lia|]. destruct (Z.ltb_spec maxMessageSize len); [unfold len in *; lia|].
  do 5 (destruct k as [|k]; [done|]). cbn [app take]. rewrite bool_decide_eq_false_2; [done|]. rewrite length_take. unfold len. lia.
Qed.

(** ** Pipes as queues of messages *)

Definition wire (ms : list Message) : bytes := concat (writeMessage <$> ms).

(** The messages in a pipe, before a last one that may have been cut off. *)
Definition holds (p : Pipe) (ms : list Message) : Prop :=
  Forall valid ms /\ exists tl, p_bytes p = wire ms ++ tl /\ readMessage tl = Short /\ (broken p = false -> tl = []).

Lemma wire_snoc ms m : wire (ms ++ [m]) = wire ms ++ writeMessage m.
Proof. unfold wire. rewrite fmap_app, concat_app. cbn. by rewrite app_nil_r. Qed.

Lemma holds_read p ms : holds p ms ->
  match ms with
  | [] => readMessage (p_bytes p) = Short
  | m :: ms' => exists rest, readMessage (p_bytes p) = Got m rest /\ holds (mkPipe rest (broken p)) ms'
  end.
Proof.
  intros (Hv & tl & Hb & Hs & Hn). rewrite Hb. destruct ms as [|m ms']; [done|]. apply Forall_cons in Hv as [Hm Hv].
  exists (wire ms' ++ tl). change (wire (m :: ms')) with (writeMessage m ++ wire ms'). rewrite <- app_assoc, read_write by done. split; [done|]. split; [done|]. by exists tl.
Qed.

Lemma holds_send p ms m fault : holds p ms -> valid m ->
  let '(p', ok) := sendMessage fault m p in
  if ok then holds p' (ms ++ [m]) /\ broken p = false /\ broken p' = false else holds p' ms /\ broken p' = true.
Proof.
  intros (Hv & tl & Hb & Hs & Hn) Hm. unfold sendMessage. destruct (broken p) eqn:Eb; [split; [|done]; split; [done|]; exists tl; by rewrite Eb|].
  rewrite (Hn eq_refl), app_nil_r in Hb. destruct fault as [k|]; cbn [broken p_bytes].
  - split; [|done]. split; [done|]. rewrite Hb. eexists. split; [done|]. split; [|done]. apply read_partial; [done|]. rewrite length_writeMessage. lia.
  - split; [|done]. split; [by apply Forall_app; split; [|apply Forall_singleton]|]. exists []. cbn. by rewrite wire_snoc, Hb, app_nil_r.
Qed.

(** ** One direction of a stream *)

Definition inflight (i : Z) (ms : list Message) : bytes := concat (Payload <$> filter (fun m => m_Type m = MsgData /\ StreamID m = i) ms).
Definition announced (i : Z) (ms : list Message) : Prop := exists m, m ∈ ms /\ m_Type m = MsgOpen /\ StreamID m = i.
(** What a reader has taken from its connection and not yet sent. *)
Definition held (e : End) (n : nat) : bytes := match readers e !! n with Some (Sending c) => c | _ => [] end.
Definition alive (e : End) (n : nat) : bool := match readers e !! n with Some Reading | Some (Sending _) => true | _ => false end.
(** Something may be missing of what was read from a connection: the pipe broke and the
    reader has given up. *)
Definition lossy (e : End) (n : nat) (b : bool) : bool := b && negb (alive e n).
Definition exact (b : bool) (x y : bytes) : Prop := if b then x `prefix_of` y else x = y.

Lemma inflight_app i l l' : inflight i (l ++ l') = inflight i l ++ inflight i l'.
Proof. unfold inflight. by rewrite filter_app, fmap_app, concat_app. Qed.
Lemma inflight_cons i m l : inflight i (m :: l) = inflight i [m] ++ inflight i l.
Proof. apply (inflight_app i [m] l). Qed.
Lemma inflight_data i m : m_Type m = MsgData -> StreamID m = i -> inflight i [m] = Payload m.
Proof. intros H1 H2. unfold inflight. rewrite filter_cons_True by done. cbn. by rewrite app_nil_r. Qed.
Lemma inflight_other i m : m_Type m <> MsgData \/ StreamID m <> i -> inflight i [m] = [].
Proof. intros H. unfold inflight. rewrite filter_cons_False; [done|]. intros [? ?]. destruct H; done. Qed.

Lemma announced_app i l l' : announced i (l ++ l') <-> announced i l \/ announced i l'.
Proof. unfold announced. setoid_rewrite elem_of_app. naive_solver. Qed.
Lemma announced_one i m : announced i [m] <-> m_Type m = MsgOpen /\ StreamID m = i.
Proof. unfold announced. setoid_rewrite list_elem_of_singleton. naive_solver. Qed.

Lemma exact_weaken (b b' : bool) x y : (b = true -> b' = true) -> exact b x y -> exact b' x y.
Proof. intros Hb Hx. destruct b, b'; try done; [by specialize (Hb eq_refl)|]. cbn in *. by subst. Qed.
Lemma exact_snoc (b : bool) x y z : b = false -> exact b x y -> exact b (x ++ z) (y ++ z).
Proof. intros -> Hx. cbn in *. by subst. Qed.
Lemma exact_prefix b x y z : exact b (x ++ z) y -> x `prefix_of` y.
Proof. destruct b; cbn; [intros [k ->]; exists (z ++ k); by rewrite app_assoc|intros <-; by eexists]. Qed.

Definition flow (S D : End) (ms : list Message) (b : bool) : Prop :=
  forall n sc m dc, conns S !! n = Some sc -> conns D !! m = Some dc -> c_id sc = c_id dc ->
    c_out dc `prefix_of` c_in sc /\ (streams D !! c_id dc = Some m -> exact (lossy S n b) (c_out dc ++ inflight (c_id dc) ms ++ held S n) (c_in sc)).

(** ** Changes that touch no data *)

Definition alike (c c' : Conn) : Prop := c_id c' = c_id c /\ c_type c' = c_type c /\ c_in c' = c_in c /\ c_out c' = c_out c.
Record quiet (e e' : End) : Prop := mkQuiet {
  q_conns : forall n, option_Forall2 alike (conns e !! n) (conns e' !! n);
  q_held : forall n, held e' n = held e n;
  q_streams : forall i n, streams e' !! i = Some n -> streams e !! i = Some n;
  q_readers : forall n, is_Some (readers e' !! n) -> is_Some (readers e !! n);
  q_alive : forall n, alive e' n = true -> alive e n = true;
}.

Lemma alike_refl c : alike c c.
Proof. done. Qed.
Lemma quiet_end_refl e : quiet e e.
Proof. split; auto. intros n. destruct (conns e !! n); by constructor. Qed.
Lemma quiet_end_trans e e' e'' : quiet e e' -> quiet e' e'' -> quiet e e''.
Proof.
  intros [A1 A2 A3 A4 A5] [B1 B2 B3 B4 B5]. split; [|intros n; by rewrite B2|auto..].
  intros n. specialize (A1 n). specialize (B1 n). destruct A1 as [c c' Hc|]; inversion B1; subst; constructor. unfold alike in *. naive_solver congruence.
Qed.
Lemma quiet_back e e' n c' : quiet e e' -> conns e' !! n = Some c' -> exists c, conns e !! n = Some c /\ alike c c'.
Proof. intros Hq E. pose proof (q_conns e e' Hq n) as Hn. rewrite E in Hn. inversion Hn; subst. eauto. Qed.
Lemma quiet_forth e e' n c : quiet e e' -> conns e !! n = Some c -> exists c', conns e' !! n = Some c' /\ alike c c'.
Proof. intros Hq E. pose proof (q_conns e e' Hq n) as Hn. rewrite E in Hn. inversion Hn; subst. eauto. Qed.
Lemma quiet_main l e : quiet e (set_main l e).
Proof. destruct (quiet_end_refl e) as [H1 H2 H3 H4 H5]. by split. Qed.
Lemma quiet_close n e : quiet e (close_conn n e).
Proof.
  unfold close_conn. destruct (conns e !! n) as [c|] eqn:E; [|apply quiet_end_refl]. split; auto. intros k. cbn. destruct (decide (k = n)) as [->|Hne].
  - rewrite E, lookup_insert_eq. by constructor.
  - rewrite lookup_insert_ne by done. destruct (conns e !! k); by constructor.
Qed.
Lemma quiet_drop id e : quiet e (dropStream id e).1.
Proof.
  unfold dropStream. destruct (streams e !! id) as [n|]; [|apply quiet_end_refl]. eapply quiet_end_trans; [|apply quiet_close]. split; auto.
  - intros k. cbn. destruct (conns e !! k); by constructor.
  - intros i k. cbn. by intros [_ ?]%lookup_delete_Some.
Qed.
Lemma quiet_reader n r e : (forall c, r <> Some (Sending c)) -> is_Some (readers e !! n) -> held e n = [] -> r <> Some Reading \/ alive e n = true -> quiet e (set_reader n r e).
Proof.
  intros Hr Hs Hh Ha. split; auto.
  - intros k. cbn. destruct (conns e !! k); by constructor.
  - intros k. destruct (decide (k = n)) as [->|Hne]; [|unfold held; cbn; by rewrite lookup_partial_alter_ne].
    rewrite Hh. unfold held. cbn. rewrite lookup_partial_alter_eq. destruct r as [[|c|]|]; [done|by destruct (Hr c)|done..].
  - intros k. cbn. destruct (decide (k = n)) as [->|Hne]; [done|by rewrite lookup_partial_alter_ne].
  - intros k. unfold alive at 1. cbn. destruct (decide (k = n)) as [->|Hne]; [|by rewrite lookup_partial_alter_ne]. rewrite lookup_partial_alter_eq. destruct r as [[|c|]|]; try done; [by destruct Ha|by destruct (Hr c)].
Qed.

Lemma lossy_quiet e e' n (b b' : bool) : (b = true -> b' = true) -> quiet e e' -> lossy e n b = true -> lossy e' n b' = true.
Proof.
  intros Hb Hq. unfold lossy. rewrite !andb_true_iff, !negb_true_iff. intros [H1 H2]. split; [auto|]. destruct (alive e' n) eqn:E; [|done]. apply (q_alive e e' Hq) in E. congruence.
Qed.

Lemma flow_quiet S S' D D' ms (b b' : bool) : (b = true -> b' = true) -> quiet S S' -> quiet D D' -> flow S D ms b -> flow S' D' ms b'.
Proof.
  intros Hb HS HD Hf n sc' m dc' Hn Hm Hid. destruct (quiet_back _ _ _ _ HS Hn) as (sc & Hsc & Hs1 & _ & Hs3 & _). destruct (quiet_back _ _ _ _ HD Hm) as (dc & Hdc & Hd1 & _ & _ & Hd4).
  destruct (Hf n sc m dc Hsc Hdc) as [F1 F2]; [congruence|]. rewrite Hs3, Hd4, Hd1, (q_held _ _ HS). split; [done|]. intros Hst. apply (exact_weaken (lossy S n b)); [by apply lossy_quiet|]. apply F2. by apply (q_streams _ _ HD).
Qed.

(** ** The invariant *)

Definition lonely (H : End) (i : Z) : Prop := forall m hc, conns H !! m = Some hc -> c_id hc <> i.
Definition in_map (e : End) : Prop := forall i n, streams e !! i = Some n -> exists c, conns e !! n = Some c /\ c_id c = i.
Definition small (e : End) : Prop := forall n, Z.of_nat (length (held e n)) <= readBufSize.

Definition known (C : End) (ms : list Message) : Prop := forall m, m ∈ ms -> m_Type m = MsgData -> exists n cc, conns C !! n = Some cc /\ c_id cc = StreamID m.

Record Inv (C H : End) (ups : list Message) (bu : bool) (downs : list Message) (bd : bool) (acc : gmap string nat) (next : Z) : Prop := mkInv {
  i_next : next = Z.of_nat (size (conns C));
  i_cids : forall n c, conns C !! n = Some c -> c_id c = Z.of_nat n /\ (0 < n <= size (conns C))%nat;
  i_hkeys : forall m c, conns H !! m = Some c -> (m <= size (conns H))%nat;
  i_huniq : forall m m' c c', conns H !! m = Some c -> conns H !! m' = Some c' -> c_id c = c_id c' -> m = m';
  i_pair : forall m hc, conns H !! m = Some hc -> exists n cc, conns C !! n = Some cc /\ c_id cc = c_id hc /\ c_type cc = c_type hc;
  i_creaders : forall n, is_Some (readers C !! n) -> is_Some (conns C !! n) /\ forall ty, acc !! ty <> Some n;
  i_hreaders : forall m, is_Some (readers H !! m) -> is_Some (conns H !! m);
  i_csmall : small C;
  i_hsmall : small H;
  i_cmap : in_map C;
  i_hmap : in_map H;
  i_acc : forall ty n, acc !! ty = Some n -> exists c, conns C !! n = Some c /\ c_type c = ty /\ c_in c = [] /\
            ~ announced (c_id c) ups /\ inflight (c_id c) ups = [] /\ lonely H (c_id c) /\ headLen + Z.of_nat (String.length ty) <= maxMessageSize;
  i_ann : forall pre m post, ups = pre ++ m :: post -> m_Type m = MsgOpen ->
            (exists n cc, conns C !! n = Some cc /\ c_id cc = StreamID m /\ c_type cc = string_of (Payload m)) /\
            lonely H (StreamID m) /\ ~ announced (StreamID m) (pre ++ post) /\ inflight (StreamID m) pre = [];
  i_up : flow C H ups bu;
  i_down : flow H C downs bd;
  i_new : forall n cc, conns C !! n = Some cc -> lonely H (c_id cc) ->
            c_out cc = [] /\ inflight (c_id cc) downs = [] /\ (announced (c_id cc) ups -> exact (lossy C n bu) (inflight (c_id cc) ups ++ held C n) (c_in cc));
  i_uknown : known C ups;
  i_dknown : known C downs;
}.

(** Changes that keep which connections there are and what they are for. *)
Record like (e e' : End) : Prop := mkLike {
  k_conns : forall n, option_Forall2 (fun c c' => c_id c' = c_id c /\ c_type c' = c_type c) (conns e !! n) (conns e' !! n);
  k_streams : forall i n, streams e' !! i = Some n -> streams e !! i = Some n;
  k_readers : forall n, is_Some (readers e' !! n) -> is_Some (readers e !! n);
}.

Lemma quiet_like e e' : quiet e e' -> like e e'.
Proof. intros [Q1 _ Q3 Q4 _]. split; [|done..]. intros n. specialize (Q1 n). destruct Q1 as [c c' (H1 & H2 & _)|]; by constructor. Qed.
Lemma like_refl e : like e e.
Proof. apply quiet_like, quiet_end_refl. Qed.
Lemma like_back e e' n c' : like e e' -> conns e' !! n = Some c' -> exists c, conns e !! n = Some c /\ c_id c' = c_id c /\ c_type c' = c_type c.
Proof. intros Hq E. pose proof (k_conns e e' Hq n) as Hn. rewrite E in Hn. inversion Hn; subst. eauto. Qed.
Lemma like_forth e e' n c : like e e' -> conns e !! n = Some c -> exists c', conns e' !! n = Some c' /\ c_id c' = c_id c /\ c_type c' = c_type c.
Proof. intros Hq E. pose proof (k_conns e e' Hq n) as Hn. rewrite E in Hn. inversion Hn; subst. eauto. Qed.
Lemma like_size e e' : like e e' -> size (conns e') = size (conns e).
Proof.
  intros Hq. rewrite <- !size_dom. f_equal. apply set_eq. intros n. rewrite !elem_of_dom. pose proof (k_conns e e' Hq n) as Hn. inversion Hn; subst; split; intros [? ?]; try done; by eexists.
Qed.
Lemma lonely_like H H' i : like H H' -> lonely H' i <-> lonely H i.
Proof.
  intros Hq. split; intros Hl m hc Hm.
  - destruct (like_forth _ _ _ _ Hq Hm) as (hc' & Hm' & E & _). rewrite <- E. by apply (Hl m).
  - destruct (like_back _ _ _ _ Hq Hm) as (hc' & Hm' & E & _). rewrite E. by apply (Hl m).
Qed.
Lemma in_map_like e e' : like e e' -> in_map e -> in_map e'.
Proof. intros Hq Hm i n Hs. destruct (Hm i n (k_streams _ _ Hq _ _ Hs)) as (c & Hc & <-). destruct (like_forth _ _ _ _ Hq Hc) as (c' & Hc' & E & _). by exists c'. Qed.

Lemma known_like C C' ms : like C C' -> known C ms -> known C' ms.
Proof. intros Hq Hk m Hm Hd. destruct (Hk m Hm Hd) as (n & cc & Hc & E). destruct (like_forth _ _ _ _ Hq Hc) as (cc' & Hc' & E' & _). exists n, cc'. split; [done|congruence]. Qed.
Lemma known_snoc C ms m : known C ms -> (m_Type m = MsgData -> exists n cc, conns C !! n = Some cc /\ c_id cc = StreamID m) -> known C (ms ++ [m]).
Proof. intros Hk Hm x [Hx|Hx%list_elem_of_singleton]%elem_of_app; [by apply Hk|by subst]. Qed.
Lemma known_pop C ms m : known C (m :: ms) -> known C ms.
Proof. intros Hk x Hx. apply Hk. by right. Qed.

Lemma inv_like_ups C H C' H' ups ups' (bu bu' : bool) downs downs' (bd bd' : bool) acc next : like C C' -> like H H' -> Inv C H ups bu downs bd acc next ->
  small C' -> small H' -> (forall ty n c', acc !! ty = Some n -> conns C' !! n = Some c' -> c_in c' = []) -> flow C' H' ups' bu' -> flow H' C' downs' bd' ->
  (forall n cc, conns C' !! n = Some cc -> lonely H (c_id cc) ->
     c_out cc = [] /\ inflight (c_id cc) downs' = [] /\ (announced (c_id cc) ups' -> exact (lossy C' n bu') (inflight (c_id cc) ups' ++ held C' n) (c_in cc))) ->
  known C downs' -> known C ups' -> (forall i, announced i ups' -> announced i ups) -> (forall i, inflight i ups = [] -> inflight i ups' = []) ->
  (forall pre m post, ups' = pre ++ m :: post -> m_Type m = MsgOpen -> exists pre', ups = pre' ++ m :: post /\ (announced (StreamID m) pre -> announced (StreamID m) pre') /\ (inflight (StreamID m) pre' = [] -> inflight (StreamID m) pre = [])) ->
  Inv C' H' ups' bu' downs' bd' acc next.
Proof.
  intros HC HH [I1 I2 I3 I4 I5 I6 I7 I8 I9 I10 I11 I12 I13 I14 I15 I16 I17 I18] S1 S2 Sa Fu Fd Fn Kd Ku Ua Ui Us. split; [..|done|done| | |].
  - by rewrite (like_size C).
  - intros n c' Hn. rewrite (like_size C C' HC). destruct (like_back _ _ _ _ HC Hn) as (c & Hc & E & _). rewrite E. by apply I2.
  - intros m c' Hm. rewrite (like_size H H' HH). destruct (like_back _ _ _ _ HH Hm) as (c & Hc & _). by eapply I3.
  - intros m m' c c' Hm Hm' E. destruct (like_back _ _ _ _ HH Hm) as (d & Hd1 & E1 & _), (like_back _ _ _ _ HH Hm') as (d' & Hd' & E' & _). apply (I4 m m' d d'); congruence.
  - intros m hc Hm. destruct (like_back _ _ _ _ HH Hm) as (d & Hd1 & E1 & E2). destruct (I5 m d Hd1) as (n & cc & Hn & F1 & F2). destruct (like_forth _ _ _ _ HC Hn) as (cc' & Hn' & G1 & G2).
    exists n, cc'. split; [done|]. split; congruence.
  - intros n Hn. destruct (I6 n (k_readers _ _ HC _ Hn)) as [[c Hc] Ha]. split; [|done]. destruct (like_forth _ _ _ _ HC Hc) as (c' & Hc' & _). by eexists.
  - intros n Hn. destruct (I7 n (k_readers _ _ HH _ Hn)) as [c Hc]. destruct (like_forth _ _ _ _ HH Hc) as (c' & Hc' & _). by eexists.
  - done.
  - done.
  - by apply (in_map_like C).
  - by apply (in_map_like H).
  - intros ty n Hn. destruct (I12 ty n Hn) as (c & Hc & A1 & A2 & A3 & A4 & A5 & A6). destruct (like_forth _ _ _ _ HC Hc) as (c' & Hc' & G1 & G2).
    exists c'. rewrite G1, G2, (lonely_like H H') by done. split; [done|]. split; [done|]. split; [by eapply Sa|]. split; [by intros ?%Ua|]. split; [by apply Ui|done].
  - intros pre m post E Ho. destruct (Us pre m post E Ho) as (pre' & E' & U1 & U2). destruct (I13 pre' m post E' Ho) as ((n & cc & Hn & F1 & F2) & F3 & F4 & F5). rewrite (lonely_like H H') by done. split; [|split; [done|]; split; [|auto]].
    2: { rewrite announced_app in *. naive_solver. }
    destruct (like_forth _ _ _ _ HC Hn) as (cc' & Hn' & G1 & G2). exists n, cc'. split; [done|]. split; congruence.
  - intros n cc Hn Hl. apply Fn; [done|]. by apply (lonely_like H H').
  - by apply (known_like C).
  - by apply (known_like C).
Qed.

Lemma inv_like C H C' H' ups (bu bu' : bool) downs downs' (bd bd' : bool) acc next : like C C' -> like H H' -> Inv C H ups bu downs bd acc next ->
  small C' -> small H' -> (forall ty n c', acc !! ty = Some n -> conns C' !! n = Some c' -> c_in c' = []) -> flow C' H' ups bu' -> flow H' C' downs' bd' ->
  (forall n cc, conns C' !! n = Some cc -> lonely H (c_id cc) ->
     c_out cc = [] /\ inflight (c_id cc) downs' = [] /\ (announced (c_id cc) ups -> exact (lossy C' n bu') (inflight (c_id cc) ups ++ held C' n) (c_in cc))) ->
  known C downs' -> Inv C' H' ups bu' downs' bd' acc next.
Proof.
  intros HC HH I S1 S2 Sa Fu Fd Fn Kd. eapply inv_like_ups; try done; [apply I|]. intros pre m post E _. by exists pre.
Qed.

Lemma inv_quiet C H C' H' ups (bu bu' : bool) downs (bd bd' : bool) acc next : quiet C C' -> quiet H H' -> (bu = true -> bu' = true) -> (bd = true -> bd' = true) ->
  Inv C H ups bu downs bd acc next -> Inv C' H' ups bu' downs bd' acc next.
Proof.
  intros HC HH Hu Hd I. eapply inv_like; [by apply quiet_like|by apply quiet_like|done|..]; destruct I.
  - intros n. rewrite (q_held _ _ HC). apply i_csmall0.
  - intros n. rewrite (q_held _ _ HH). apply i_hsmall0.
  - intros ty n c' Ha Hn. destruct (i_acc0 ty n Ha) as (c & Hc & _ & A2 & _). destruct (quiet_back _ _ _ _ HC Hn) as (d & Hd1 & _ & _ & E & _). congruence.
  - by eapply flow_quiet.
  - by eapply flow_quiet.
  - intros n cc' Hn Hl. destruct (quiet_back _ _ _ _ HC Hn) as (cc & Hc & G1 & _ & G3 & G4). rewrite G1 in *. rewrite G3, G4, (q_held _ _ HC).
    destruct (i_new0 n cc Hc Hl) as (A1 & A2 & A3). split; [done|]. split; [done|]. intros Ha. apply (exact_weaken (lossy C n bu)); [by apply lossy_quiet|auto].
  - done.
Qed.

(** ** Messages without data *)

Lemma flow_inflight S D ms ms' b : (forall i, inflight i ms' = inflight i ms) -> flow S D ms b -> flow S D ms' b.
Proof. intros E Hf n sc m dc Hn Hm Hid. rewrite E. by apply Hf. Qed.

Lemma inflight_snoc_other i ms m : m_Type m <> MsgData -> inflight i (ms ++ [m]) = inflight i ms.
Proof. intros Hm. rewrite inflight_app, (inflight_other i m), app_nil_r; auto. Qed.
Lemma inflight_pop_other i ms m : m_Type m <> MsgData -> inflight i ms = inflight i (m :: ms).
Proof. intros Hm. rewrite inflight_cons, (inflight_other i m); auto. Qed.

(** Where a message stands in a longer list. *)
Lemma split_snoc (ms pre post : list Message) m x : ms ++ [m] = pre ++ x :: post -> (post = [] /\ pre = ms /\ x = m) \/ exists post', post = post' ++ [m] /\ ms = pre ++ x :: post'.
Proof.
  destruct post as [|y post] using rev_ind; [intros [-> [= ->]]%app_inj_tail; by left|]. clear IHpost. change (pre ++ x :: post ++ [y]) with (pre ++ (x :: post) ++ [y]). rewrite app_assoc. intros [-> [= ->]]%app_inj_tail. right. by exists post.
Qed.

Lemma inv_down_snoc C H ups bu downs bd acc next m : m_Type m <> MsgData -> Inv C H ups bu downs bd acc next -> Inv C H ups bu (downs ++ [m]) bd acc next.
Proof.
  intros Hm I. destruct I. split; try done.
  - by eapply flow_inflight; [intros i; by apply inflight_snoc_other|].
  - intros n cc Hn Hl. rewrite inflight_snoc_other by done. by apply i_new0.
  - by apply known_snoc.
Qed.

Lemma inv_down_pop C H ups bu downs bd acc next m : m_Type m <> MsgData -> Inv C H ups bu (m :: downs) bd acc next -> Inv C H ups bu downs bd acc next.
Proof.
  intros Hm I. destruct I. split; try done.
  - by eapply flow_inflight; [intros i; by apply inflight_pop_other|].
  - intros n cc Hn Hl. rewrite (inflight_pop_other _ _ m) by done. by apply i_new0.
  - by eapply known_pop.
Qed.

Lemma announced_snoc_other i ms m : m_Type m <> MsgOpen -> announced i (ms ++ [m]) <-> announced i ms.
Proof. intros Hm. rewrite announced_app, announced_one. naive_solver. Qed.

Lemma inv_up_snoc C H ups bu downs bd acc next m : m_Type m <> MsgData -> m_Type m <> MsgOpen -> Inv C H ups bu downs bd acc next -> Inv C H (ups ++ [m]) bu downs bd acc next.
Proof.
  intros Hm Ho I. destruct I. split; try done.
  - intros ty n Hn. destruct (i_acc0 ty n Hn) as (c & A1 & A2 & A3 & A4 & A5 & A6). exists c. by rewrite announced_snoc_other, inflight_snoc_other.
  - intros pre x post E Hx. apply split_snoc in E as [(-> & -> & ->)|(post' & -> & E)]; [done|]. destruct (i_ann0 pre x post' E Hx) as (A1 & A2 & A3 & A4). split; [done|]. split; [done|]. split; [|done].
    by rewrite app_assoc, announced_snoc_other.
  - by eapply flow_inflight; [intros i; by apply inflight_snoc_other|].
  - intros n cc Hn Hl. rewrite announced_snoc_other, inflight_snoc_other by done. by apply i_new0.
  - by apply known_snoc.
Qed.

Lemma inv_up_pop C H ups bu downs bd acc next m : m_Type m <> MsgData -> Inv C H (m :: ups) bu downs bd acc next -> Inv C H ups bu downs bd acc next.
Proof.
  intros Hm I. destruct I.
  assert (Ha : forall i ms, announced i ms -> announced i (m :: ms)) by (intros i ms Ha; change (m :: ms) with ([m] ++ ms); rewrite announced_app; by right).
  split; try done.
  - intros ty n Hn. destruct (i_acc0 ty n Hn) as (c & A1 & A2 & A3 & A4 & A5 & A6). exists c. rewrite (inflight_pop_other _ _ m) by done. split; [done|]. split; [done|]. split; [done|]. split; [by intros ?%Ha|done].
  - intros pre x post -> Hx. destruct (i_ann0 (m :: pre) x post eq_refl Hx) as (A1 & A2 & A3 & A4). split; [done|]. split; [done|]. split; [by intros ?%Ha|]. by rewrite (inflight_pop_other _ _ m).
  - by eapply flow_inflight; [intros i; by apply inflight_pop_other|].
  - intros n cc Hn Hl. rewrite (inflight_pop_other _ ups m) by done. destruct (i_new0 n cc Hn Hl) as (A1 & A2 & A3). split; [done|]. split; [done|]. intros Hx. by apply A3, Ha.
  - by eapply known_pop.
Qed.

(** ** Reading and sending data *)

(** A reader takes bytes from its connection. *)
Definition took (n : nat) (c : Conn) (chunk : bytes) (e : End) : End :=
  set_reader n (Some (Sending chunk)) (set_conn n (mkConn (c_id c) (c_type c) (c_in c ++ chunk) (c_out c) true) e).

Lemma took_conns n c chunk e k c' : conns e !! n = Some c -> conns (took n c chunk e) !! k = Some c' ->
  exists d, conns e !! k = Some d /\ c_id c' = c_id d /\ c_type c' = c_type d /\ c_out c' = c_out d /\ c_in c' = c_in d ++ (if decide (k = n) then chunk else []).
Proof.
  intros Hc Hk. cbn in Hk. destruct (decide (k = n)) as [->|Hne].
  - rewrite lookup_insert_eq in Hk. injection Hk as <-. by exists c.
  - rewrite lookup_insert_ne in Hk by done. exists c'. by rewrite app_nil_r.
Qed.
Lemma took_held n c chunk e k : readers e !! n = Some Reading -> held (took n c chunk e) k = held e k ++ (if decide (k = n) then chunk else []).
Proof.
  intros Hr. unfold held. cbn. destruct (decide (k = n)) as [->|Hne]; [by rewrite lookup_partial_alter_eq, Hr|]. rewrite lookup_partial_alter_ne by done. by rewrite app_nil_r.
Qed.
Lemma took_lossy n c chunk e k b : readers e !! n = Some Reading -> lossy (took n c chunk e) k b = lossy e k b.
Proof.
  intros Hr. unfold lossy, alive. cbn. destruct (decide (k = n)) as [->|Hne]; [by rewrite lookup_partial_alter_eq, Hr|]. by rewrite lookup_partial_alter_ne.
Qed.
Lemma lossy_reading e n b : readers e !! n = Some Reading -> lossy e n b = false.
Proof. intros Hr. unfold lossy, alive. rewrite Hr. apply andb_false_r. Qed.

Lemma exact_took e n k b x y chunk : readers e !! n = Some Reading -> exact (lossy e k b) x y -> exact (lossy e k b) (x ++ if decide (k = n) then chunk else []) (y ++ if decide (k = n) then chunk else []).
Proof. intros Hr. destruct (decide (k = n)) as [->|]; [|by rewrite !app_nil_r]. rewrite lossy_reading by done. by apply exact_snoc. Qed.

Lemma flow_took_source S D ms b n c chunk : conns S !! n = Some c -> readers S !! n = Some Reading -> flow S D ms b -> flow (took n c chunk S) D ms b.
Proof.
  intros Hc Hr Hf k sc' m dc Hk Hm Hid. destruct (took_conns _ _ _ _ _ _ Hc Hk) as (sc & Hsc & E1 & _ & _ & E4). destruct (Hf k sc m dc Hsc Hm) as [F1 F2]; [congruence|].
  rewrite E4, took_held, took_lossy by done. split; [by apply prefix_app_r|]. intros Hs. rewrite !app_assoc. apply exact_took; [done|]. rewrite <- app_assoc. auto.
Qed.
Lemma flow_took_target S D ms b n c chunk : conns D !! n = Some c -> flow S D ms b -> flow S (took n c chunk D) ms b.
Proof.
  intros Hc Hf k sc m dc' Hk Hm Hid. destruct (took_conns _ _ _ _ _ _ Hc Hm) as (dc & Hdc & E1 & _ & E3 & _). destruct (Hf k sc m dc Hk Hdc) as [F1 F2]; [congruence|]. rewrite E1, E3. split; [done|]. exact F2.
Qed.

Lemma like_insert n c c' e : conns e !! n = Some c -> c_id c' = c_id c -> c_type c' = c_type c -> like e (set_conn n c' e).
Proof.
  intros Hc H1 H2. split; auto. intros k. cbn. destruct (decide (k = n)) as [->|Hne]; [rewrite Hc, lookup_insert_eq; by constructor|]. rewrite lookup_insert_ne by done. destruct (conns e !! k); by constructor.
Qed.
Lemma like_reader n r e : is_Some (readers e !! n) -> like e (set_reader n r e).
Proof.
  intros Hs. split; auto; [intros k; cbn; destruct (conns e !! k); by constructor|]. intros k. cbn. destruct (decide (k = n)) as [->|Hne]; [done|by rewrite lookup_partial_alter_ne].
Qed.
Lemma like_trans e e' e'' : like e e' -> like e' e'' -> like e e''.
Proof. intros [A1 A2 A3] [B1 B2 B3]. split; [|auto..]. intros n. specialize (A1 n). specialize (B1 n). destruct A1 as [c c' Hc|]; inversion B1; subst; constructor. naive_solver congruence. Qed.
Lemma like_took n c chunk e : conns e !! n = Some c -> is_Some (readers e !! n) -> like e (took n c chunk e).
Proof. intros Hc Hr. eapply like_trans; [by apply (like_insert n c (mkConn (c_id c) (c_type c) (c_in c ++ chunk) (c_out c) true))|]. by apply like_reader. Qed.

Lemma small_took n c chunk e : readers e !! n = Some Reading -> Z.of_nat (length chunk) <= readBufSize -> small e -> small (took n c chunk e).
Proof.
  intros Hr Hl Hs k. rewrite took_held by done. destruct (decide (k = n)) as [->|]; [|rewrite app_nil_r; apply Hs]. unfold held. by rewrite Hr.
Qed.

Lemma inv_took_c C H ups bu downs bd acc next n c chunk : conns C !! n = Some c -> readers C !! n = Some Reading -> Z.of_nat (length chunk) <= readBufSize ->
  Inv C H ups bu downs bd acc next -> Inv (took n c chunk C) H ups bu downs bd acc next.
Proof.
  intros Hc Hr Hl I. eapply inv_like; [by apply like_took|apply like_refl|done|..]; destruct I.
  - by apply small_took.
  - done.
  - intros ty k c' Ha Hk. destruct (took_conns _ _ _ _ _ _ Hc Hk) as (d & Hd & _ & _ & _ & ->). destruct (i_acc0 ty k Ha) as (d' & Hd' & _ & A2 & _). assert (d' = d) as -> by congruence. rewrite A2.
    rewrite decide_False; [done|]. intros ->. destruct (i_creaders0 n) as [_ Hno]; [by rewrite Hr|]. by apply (Hno ty).
  - by apply flow_took_source.
  - by apply flow_took_target.
  - intros k cc' Hk Hlon. destruct (took_conns _ _ _ _ _ _ Hc Hk) as (cc & Hcc & E1 & _ & E3 & E4). rewrite E1 in *. destruct (i_new0 k cc Hcc Hlon) as (A1 & A2 & A3). rewrite E3, E4, took_held, took_lossy by done.
    split; [done|]. split; [done|]. intros Ha. rewrite app_assoc. by apply exact_took, A3.
  - done.
Qed.

Lemma inv_took_h C H ups bu downs bd acc next n c chunk : conns H !! n = Some c -> readers H !! n = Some Reading -> Z.of_nat (length chunk) <= readBufSize ->
  Inv C H ups bu downs bd acc next -> Inv C (took n c chunk H) ups bu downs bd acc next.
Proof.
  intros Hc Hr Hl I. eapply inv_like; [apply like_refl|by apply like_took|done|..]; destruct I.
  - done.
  - by apply small_took.
  - intros ty k c' Ha Hk. destruct (i_acc0 ty k Ha) as (d' & Hd' & _ & A2 & _). congruence.
  - by apply flow_took_target.
  - by apply flow_took_source.
  - done.
  - done.
Qed.

(** The chunk of a reader is sent, or is lost with the pipe. *)
Definition apart_ids (e : End) : Prop := forall n n' c c', conns e !! n = Some c -> conns e !! n' = Some c' -> c_id c = c_id c' -> n = n'.
Definition data (i : Z) (chunk : bytes) : Message := mkMsg MsgData i chunk.

Lemma held_reader n r e k : held (set_reader n r e) k = if decide (k = n) then match r with Some (Sending c) => c | _ => [] end else held e k.
Proof. unfold held. cbn. destruct (decide (k = n)) as [->|Hne]; [by rewrite lookup_partial_alter_eq|by rewrite lookup_partial_alter_ne]. Qed.
Lemma alive_reader n r e k : alive (set_reader n r e) k = if decide (k = n) then match r with Some Reading | Some (Sending _) => true | _ => false end else alive e k.
Proof. unfold alive. cbn. destruct (decide (k = n)) as [->|Hne]; [by rewrite lookup_partial_alter_eq|by rewrite lookup_partial_alter_ne]. Qed.
Lemma small_reader n r e : (forall c, r <> Some (Sending c)) -> small e -> small (set_reader n r e).
Proof. intros Hr Hs k. rewrite held_reader. destruct (decide (k = n)); [destruct r as [[|c|]|]; [done|by destruct (Hr c)|done..]|apply Hs]. Qed.

Lemma flow_target S D D' ms b : conns D' = conns D -> streams D' = streams D -> flow S D ms b -> flow S D' ms b.
Proof. intros E1 E2 Hf n sc m dc. rewrite E1, E2. apply Hf. Qed.

Lemma exact_sent e n k chunk x y : readers e !! n = Some (Sending chunk) -> exact (lossy e k false) (x ++ held e k) y ->
  exact (lossy (set_reader n (Some Reading) e) k false) ((x ++ if decide (k = n) then chunk else []) ++ held (set_reader n (Some Reading) e) k) y.
Proof.
  intros Hr. unfold lossy. cbn. rewrite held_reader. destruct (decide (k = n)) as [->|]; [|by rewrite app_nil_r]. unfold held. by rewrite Hr, app_nil_r.
Qed.
Lemma exact_gave_up e n k chunk r b x y : readers e !! n = Some (Sending chunk) -> r <> Some Reading -> (forall c, r <> Some (Sending c)) -> exact (lossy e k b) (x ++ held e k) y ->
  exact (lossy (set_reader n r e) k true) (x ++ held (set_reader n r e) k) y.
Proof.
  intros Hr H1 H2. unfold lossy. rewrite held_reader, alive_reader. destruct (decide (k = n)) as [->|].
  - intros Hx%exact_prefix. destruct r as [[|c|]|]; [done|by destruct (H2 c)|..]; cbn; by rewrite app_nil_r.
  - apply exact_weaken. destruct b; [done|]. by destruct (alive e k).
Qed.

Lemma inflight_sent i n k c d chunk ms e : apart_ids e -> conns e !! n = Some c -> conns e !! k = Some d -> i = c_id d ->
  inflight i (ms ++ [data (c_id c) chunk]) = inflight i ms ++ if decide (k = n) then chunk else [].
Proof.
  intros Ha Hc Hd ->. rewrite inflight_app. f_equal. destruct (decide (k = n)) as [->|Hne]; [assert (d = c) as -> by congruence; by apply inflight_data|].
  apply inflight_other. right. intros E. apply Hne. by eapply Ha.
Qed.

Lemma flow_sent S D ms n c chunk : apart_ids S -> conns S !! n = Some c -> readers S !! n = Some (Sending chunk) -> flow S D ms false ->
  flow (set_reader n (Some Reading) S) D (ms ++ [data (c_id c) chunk]) false.
Proof.
  intros Ha Hc Hr Hf k sc m dc Hk Hm Hid. destruct (Hf k sc m dc Hk Hm Hid) as [F1 F2]. split; [done|]. intros Hs. specialize (F2 Hs).
  rewrite (inflight_sent _ n k c sc chunk ms S) by done. rewrite app_assoc in F2 |- *. rewrite app_assoc. by apply exact_sent.
Qed.
Lemma flow_gave_up S D ms b n chunk r : readers S !! n = Some (Sending chunk) -> r <> Some Reading -> (forall c, r <> Some (Sending c)) -> flow S D ms b -> flow (set_reader n r S) D ms true.
Proof.
  intros Hr H1 H2 Hf k sc m dc Hk Hm Hid. destruct (Hf k sc m dc Hk Hm Hid) as [F1 F2]. split; [done|]. intros Hs. specialize (F2 Hs). rewrite app_assoc in F2 |- *. by eapply exact_gave_up.
Qed.

Lemma inv_apart_c C H ups bu downs bd acc next : Inv C H ups bu downs bd acc next -> apart_ids C.
Proof. intros I n n' c c' Hn Hn' E. apply (i_cids _ _ _ _ _ _ _ _ I) in Hn as [Hn _], Hn' as [Hn' _]. lia. Qed.
Lemma inv_apart_h C H ups bu downs bd acc next : Inv C H ups bu downs bd acc next -> apart_ids H.
Proof. intros I n n' c c'. apply (i_huniq _ _ _ _ _ _ _ _ I). Qed.

Lemma inv_gave_up_c C H ups bu downs bd acc next n chunk r : readers C !! n = Some (Sending chunk) -> r <> Some Reading -> (forall c, r <> Some (Sending c)) ->
  Inv C H ups bu downs bd acc next -> Inv (set_reader n r C) H ups true downs bd acc next.
Proof.
  intros Hr H1 H2 I. eapply inv_like; [by apply like_reader|apply like_refl|done|..]; destruct I; try done.
  - by apply small_reader.
  - intros ty k c' Ha Hk. cbn in Hk. destruct (i_acc0 ty k Ha) as (d' & Hd' & _ & A2 & _). congruence.
  - by eapply flow_gave_up.
  - intros k cc Hk Hl. destruct (i_new0 k cc Hk Hl) as (A1 & A2 & A3). split; [done|]. split; [done|]. intros Ha. by eapply exact_gave_up, A3.
Qed.
Lemma inv_gave_up_h C H ups bu downs bd acc next n chunk r : readers H !! n = Some (Sending chunk) -> r <> Some Reading -> (forall c, r <> Some (Sending c)) ->
  Inv C H ups bu downs bd acc next -> Inv C (set_reader n r H) ups bu downs true acc next.
Proof.
  intros Hr H1 H2 I. eapply inv_like; [apply like_refl|by apply like_reader|done|..]; destruct I; try done.
  - by apply small_reader.
  - intros ty k c' Ha Hk. destruct (i_acc0 ty k Ha) as (d' & Hd' & _ & A2 & _). congruence.
  - by eapply flow_gave_up.
Qed.

Lemma inv_sent_h C H ups bu downs acc next n c chunk : conns H !! n = Some c -> readers H !! n = Some (Sending chunk) ->
  Inv C H ups bu downs false acc next -> Inv C (set_reader n (Some Reading) H) ups bu (downs ++ [data (c_id c) chunk]) false acc next.
Proof.
  intros Hc Hr I. eapply inv_like; [apply like_refl|by apply like_reader|done|..]; pose proof (inv_apart_h _ _ _ _ _ _ _ _ I) as Hap; destruct I; try done.
  - by apply small_reader.
  - intros ty k c' Ha Hk. destruct (i_acc0 ty k Ha) as (d' & Hd' & _ & A2 & _). congruence.
  - by apply flow_sent.
  - intros k cc Hk Hl. destruct (i_new0 k cc Hk Hl) as (A1 & A2 & A3). split; [done|]. split; [|done]. rewrite inflight_app, A2. apply inflight_other. right. cbn. by apply (Hl n).
  - apply known_snoc; [done|]. intros _. destruct (i_pair0 n c Hc) as (k & cc & Hk & E & _). by exists k, cc.
Qed.

Lemma inv_sent_c C H ups downs bd acc next n c chunk : conns C !! n = Some c -> readers C !! n = Some (Sending chunk) ->
  Inv C H ups false downs bd acc next -> Inv (set_reader n (Some Reading) C) H (ups ++ [data (c_id c) chunk]) false downs bd acc next.
Proof.
  intros Hc Hr I. pose proof (inv_apart_c _ _ _ _ _ _ _ _ I) as Hap. destruct I. split; try done.
  - intros k Hk. apply i_creaders0. by apply (k_readers C (set_reader n (Some Reading) C)); [apply like_reader; by rewrite Hr|].
  - by apply small_reader.
  - intros ty k Ha. destruct (i_acc0 ty k Ha) as (d & Hd & A1 & A2 & A3 & A4 & A5 & A6). exists d. rewrite announced_snoc_other by done. split; [done|]. split; [done|]. split; [done|]. split; [done|]. split; [|done].
    rewrite (inflight_sent _ n k c d chunk ups C) by done. rewrite A4. rewrite decide_False; [done|]. intros ->. destruct (i_creaders0 n) as [_ Hno]; [by rewrite Hr|]. by apply (Hno ty).
  - intros pre x post E Hx. apply split_snoc in E as [(-> & -> & ->)|(post' & -> & E)]; [done|]. destruct (i_ann0 pre x post' E Hx) as (A1 & A2 & A3 & A4). split; [done|]. split; [done|]. split; [|done].
    by rewrite app_assoc, announced_snoc_other.
  - by apply flow_sent.
  - intros k cc Hk Hl. destruct (i_new0 k cc Hk Hl) as (A1 & A2 & A3). split; [done|]. split; [done|]. rewrite announced_snoc_other by done. intros Ha. rewrite (inflight_sent _ n k c cc chunk ups C) by done.
    apply exact_sent; auto.
  - apply known_snoc; [done|]. intros _. by exists n, c.
Qed.

(** ** Accepting and announcing *)

Lemma add_conns id ty e k c : conns (add_stream id ty e) !! k = Some c -> (k = fresh_conn e /\ c = mkConn id ty [] [] true) \/ (k <> fresh_conn e /\ conns e !! k = Some c).
Proof. cbn. destruct (decide (k = fresh_conn e)) as [->|Hne]; [rewrite lookup_insert_eq; intros [= <-]; by left|]. rewrite lookup_insert_ne by done. by right. Qed.
Lemma add_old id ty e k c : k <> fresh_conn e -> conns e !! k = Some c -> conns (add_stream id ty e) !! k = Some c.
Proof. intros Hne Hk. cbn. by rewrite lookup_insert_ne. Qed.
Lemma add_size id ty e : conns e !! fresh_conn e = None -> size (conns (add_stream id ty e)) = S (size (conns e)).
Proof. apply map_size_insert_None. Qed.

Lemma inv_accept C H ups bu downs bd acc next ty (id := next + 1) : Inv C H ups bu downs bd acc next -> acc !! ty = None -> headLen + Z.of_nat (String.length ty) <= maxMessageSize ->
  Inv (add_stream id ty C) H ups bu downs bd (<[ty := fresh_conn C]> acc) id.
Proof.
  intros I Hty Hlen. pose proof I as I'. destruct I. set (f := fresh_conn C). assert (Hold : forall k c, conns C !! k = Some c -> k <> f /\ c_id c <> id).
  { intros k c Hk. apply i_cids0 in Hk as [E Hk]. unfold f, fresh_conn, id. split; lia. }
  assert (Hf : conns C !! f = None) by (destruct (conns C !! f) eqn:E; [|done]; apply Hold in E as [E _]; done).
  assert (Hlon : lonely H id). { intros m hc Hm E. destruct (i_pair0 m hc Hm) as (n & cc & Hn & E' & _). apply Hold in Hn as [_ Hn]. congruence. }
  assert (Hrf : readers C !! f = None). { destruct (readers C !! f) eqn:E; [|done]. destruct (i_creaders0 f) as [[c Hc] _]; [by rewrite E|]. congruence. }
  assert (Hinf : forall ms, known C ms -> inflight id ms = []).
  { intros ms Hk. unfold inflight. assert (filter (fun m => m_Type m = MsgData /\ StreamID m = id) ms = []) as ->; [|done]. apply elem_of_nil_inv. intros m [[Hd E] Hm]%list_elem_of_filter.
    destruct (Hk m Hm Hd) as (n & cc & Hn & E'). apply Hold in Hn as [_ Hn]. congruence. }
  assert (Hnan : ~ announced id ups).
  { intros (m & Hm & Ho & E). apply list_elem_of_split in Hm as (pre & post & Hm). destruct (i_ann0 pre m post Hm Ho) as ((n & cc & Hn & E' & _) & _). apply Hold in Hn as [_ Hn]. congruence. }
  split; try done.
  - rewrite add_size by done. unfold id. lia.
  - intros n c Hn. rewrite add_size by done. apply add_conns in Hn as [[-> ->]|[Hne Hn]]; [cbn; unfold f, fresh_conn, id; split; lia|]. apply i_cids0 in Hn as [E Hn]. split; [done|lia].
  - intros m hc Hm. destruct (i_pair0 m hc Hm) as (n & cc & Hn & E). exists n, cc. split; [|done]. apply add_old; [|done]. by apply Hold in Hn as [? _].
  - intros n Hn. cbn in Hn. destruct (i_creaders0 n Hn) as [[c Hc] Hno]. pose proof (Hold n c Hc) as [Hne _]. split; [exists c; by apply add_old|].
    intros ty'. destruct (decide (ty' = ty)) as [->|Hty']; [rewrite lookup_insert_eq; congruence|]. rewrite lookup_insert_ne by done. apply Hno.
  - intros i n. cbn. destruct (decide (i = id)) as [->|Hne]; [rewrite lookup_insert_eq; intros [= <-]; eexists; split; [apply lookup_insert_eq|done]|].
    rewrite lookup_insert_ne by done. intros Hs. destruct (i_cmap0 i n Hs) as (c & Hc & E). exists c. split; [|done]. rewrite lookup_insert_ne; [done|]. intros En. pose proof (Hold n c Hc) as [Hx _]. by apply Hx.
  - intros ty' n. destruct (decide (ty' = ty)) as [->|Hne].
    + rewrite lookup_insert_eq. intros [= <-]. eexists. split; [apply lookup_insert_eq|]. cbn. rewrite Hinf by done. done.
    + rewrite lookup_insert_ne by done. intros Ha. destruct (i_acc0 ty' n Ha) as (c & Hc & A). exists c. split; [|done]. apply add_old; [|done]. by apply Hold in Hc as [? _].
  - intros pre m post E Ho. destruct (i_ann0 pre m post E Ho) as ((n & cc & Hn & E') & A). split; [|done]. exists n, cc. split; [|done]. apply add_old; [|done]. by apply Hold in Hn as [? _].
  - intros n sc m dc Hn Hm Hid. apply add_conns in Hn as [[-> ->]|[Hne Hn]]; [cbn in Hid; by destruct (Hlon m dc Hm)|]. by apply (i_up0 n sc m dc).
  - intros n sc m dc Hn Hm Hid. apply add_conns in Hm as [[-> ->]|[Hne Hm]]; [cbn in Hid; by destruct (Hlon n sc Hn)|]. destruct (i_down0 n sc m dc Hn Hm Hid) as [F1 F2]. split; [done|].
    cbn. rewrite lookup_insert_ne; [done|]. apply Hold in Hm as [_ Hm]. congruence.
  - intros n cc Hn Hl. apply add_conns in Hn as [[-> ->]|[Hne Hn]]; [cbn; rewrite !Hinf by done; done|]. by apply i_new0.
  - intros m Hm Hd. destruct (i_uknown0 m Hm Hd) as (n & cc & Hn & E). exists n, cc. split; [|done]. apply add_old; [|done]. by apply Hold in Hn as [? _].
  - intros m Hm Hd. destruct (i_dknown0 m Hm Hd) as (n & cc & Hn & E). exists n, cc. split; [|done]. apply add_old; [|done]. by apply Hold in Hn as [? _].
Qed.

(** ** Receiving data *)

Lemma flow_dropped S D m ms b : streams D !! StreamID m = None -> flow S D (m :: ms) b -> flow S D ms b.
Proof.
  intros Hn Hf n sc k dc Hs Hd Hid. destruct (Hf n sc k dc Hs Hd Hid) as [F1 F2]. split; [done|]. intros Hst. specialize (F2 Hst). rewrite inflight_cons, inflight_other in F2; [done|]. right. intros E. congruence.
Qed.

(** Bytes written to a connection. *)
Definition wrote (c : Conn) (p : bytes) (o : bool) : Conn := mkConn (c_id c) (c_type c) (c_in c) (c_out c ++ p) o.

Lemma flow_wrote S D D' m ms b n c p o : m_Type m = MsgData -> in_map D -> streams D !! StreamID m = Some n -> conns D !! n = Some c -> p `prefix_of` Payload m ->
  conns D' = <[n := wrote c p o]> (conns D) -> (p = Payload m /\ streams D' = streams D \/ streams D' = delete (StreamID m) (streams D)) ->
  flow S D (m :: ms) b -> flow S D' ms b.
Proof.
  intros Hm Hmap Hst Hc [r Hp] Ec Es Hf k sc l dc' Hk Hl Hid. assert (Hi : c_id c = StreamID m) by (destruct (Hmap _ _ Hst) as (c' & Hc' & E); congruence).
  rewrite Ec in Hl. destruct (decide (l = n)) as [->|Hne].
  - rewrite lookup_insert_eq in Hl. injection Hl as <-. cbn in Hid |- *. destruct (Hf k sc n c Hk Hc Hid) as [_ F]. rewrite Hi in F |- *. specialize (F Hst). rewrite inflight_cons, inflight_data in F by done. split.
    + rewrite Hp in F. rewrite <- !app_assoc in F. rewrite app_assoc in F. by eapply exact_prefix.
    + intros Hs. destruct Es as [[-> _]|Es]; [by rewrite <- !app_assoc in *|]. rewrite Es, lookup_delete_eq in Hs. done.
  - rewrite lookup_insert_ne in Hl by done. destruct (Hf k sc l dc' Hk Hl Hid) as [F1 F2]. split; [done|]. intros Hs.
    assert (streams D !! c_id dc' = Some l) as Hs' by (destruct Es as [[_ Es]|Es]; rewrite Es in Hs; [done|by apply lookup_delete_Some in Hs as [_ ?]]).
    specialize (F2 Hs'). rewrite inflight_cons, inflight_other in F2; [done|]. right. congruence.
Qed.

Lemma flow_wrote_source S S' D ms b n c p o : conns S !! n = Some c -> conns S' = <[n := wrote c p o]> (conns S) -> readers S' = readers S -> flow S D ms b -> flow S' D ms b.
Proof.
  intros Hc Ec Er Hf k sc' m dc Hk Hm Hid. assert (exists sc, conns S !! k = Some sc /\ c_id sc' = c_id sc /\ c_in sc' = c_in sc) as (sc & Hsc & E1 & E2).
  { rewrite Ec in Hk. destruct (decide (k = n)) as [->|Hne]; [rewrite lookup_insert_eq in Hk; injection Hk as <-; by exists c|]. rewrite lookup_insert_ne in Hk by done. by exists sc'. }
  destruct (Hf k sc m dc Hsc Hm) as [F1 F2]; [congruence|]. unfold lossy, alive, held in *. by rewrite E2, Er.
Qed.

Lemma like_wrote e e' n c p o : conns e !! n = Some c -> conns e' = <[n := wrote c p o]> (conns e) -> readers e' = readers e -> (forall i k, streams e' !! i = Some k -> streams e !! i = Some k) -> like e e'.
Proof.
  intros Hc Ec Er Es. split; [|done|by rewrite Er]. intros k. rewrite Ec. destruct (decide (k = n)) as [->|Hne]; [rewrite Hc, lookup_insert_eq; by constructor|]. rewrite lookup_insert_ne by done. destruct (conns e !! k); by constructor.
Qed.

(** The outcomes of [handleData]: the message concerns no stream, or bytes were written
    and either all of them or the stream is gone. *)
Lemma handleData_cases wfault m e : in_map e ->
  let e' := handleData wfault m e in
  (quiet e e' /\ streams e' !! StreamID m = None) \/
  exists n c p o, streams e !! StreamID m = Some n /\ conns e !! n = Some c /\ p `prefix_of` Payload m /\ conns e' = <[n := wrote c p o]> (conns e) /\ readers e' = readers e /\
    (p = Payload m /\ streams e' = streams e \/ streams e' = delete (StreamID m) (streams e)).
Proof.
  intros Hmap. cbn zeta. unfold handleData. destruct (streams e !! StreamID m) as [n|] eqn:Es; [|left; split; [apply quiet_end_refl|done]].
  destruct (Hmap _ _ Es) as (c & Hc & _). rewrite Hc. destruct (c_open c) eqn:Ho; cbn [negb].
  - right. destruct wfault as [k|].
    + unfold dropStream. cbn. rewrite Es. unfold close_conn. cbn. rewrite lookup_insert_eq. exists n, c, (take k (Payload m)), false. repeat (split; [done|]).
      split; [exists (drop k (Payload m)); by rewrite take_drop|]. cbn. rewrite insert_insert_eq. split; [done|]. split; [done|]. by right.
    + exists n, c, (Payload m), true. repeat (split; [done|]). by left.
  - left. pose proof (quiet_drop (StreamID m) e) as Hq. unfold dropStream in *. rewrite Es in *. split.
    + eapply quiet_end_trans; [exact Hq|]. apply quiet_main.
    + unfold close_conn. cbn. rewrite Hc. apply lookup_delete_eq.
Qed.

Lemma data_pop_new i m pre : inflight i (m :: pre) = [] -> inflight i [m] = [] /\ inflight i pre = [].
Proof. rewrite inflight_cons. apply app_eq_nil. Qed.

Lemma inv_data_h C H ups bu downs bd acc next m wfault : m_Type m = MsgData -> Inv C H (m :: ups) bu downs bd acc next -> Inv C (handleData wfault m H) ups bu downs bd acc next.
Proof.
  intros Hm I. set (H' := handleData wfault m H).
  assert (Hann : forall i, announced i ups <-> announced i (m :: ups)) by (intros i; change (m :: ups) with ([m] ++ ups); rewrite announced_app, announced_one, Hm; naive_solver).
  assert (Hkeep : forall H1 H2, Inv C H1 (m :: ups) bu downs bd acc next -> like H1 H2 -> small H2 -> flow C H2 ups bu -> flow H2 C downs bd -> Inv C H2 ups bu downs bd acc next).
  { intros H1 H2 J HH S F1 F2. eapply inv_like_ups; [apply like_refl|done|done|apply J|done| |done|done|..].
    - intros ty n c' Ha Hn. destruct (i_acc _ _ _ _ _ _ _ _ J ty n Ha) as (c & Hc & _ & A & _). congruence.
    - intros n cc Hn Hl. destruct (i_new _ _ _ _ _ _ _ _ J n cc Hn Hl) as (A1 & A2 & A3). split; [done|]. split; [done|]. intros Ha. pose proof (A3 (proj1 (Hann _) Ha)) as Hx.
      destruct Ha as (x & Hx1 & Hx2 & Hx3). apply list_elem_of_split in Hx1 as (pre & post & Hups). destruct (i_ann _ _ _ _ _ _ _ _ J (m :: pre) x post) as (_ & _ & _ & Hi); [by rewrite Hups|done|].
      rewrite Hx3 in Hi. apply data_pop_new in Hi as [Hi _]. by rewrite inflight_cons, Hi in Hx.
    - apply J.
    - by eapply known_pop, J.
    - intros i. apply Hann.
    - intros i. by intros [_ ?]%data_pop_new.
    - intros pre x post -> Hx. exists (m :: pre). split; [done|]. split; [intros Hp; change (m :: pre) with ([m] ++ pre); rewrite announced_app; by right|]. by intros [_ ?]%data_pop_new. }
  pose proof (handleData_cases wfault m H (i_hmap _ _ _ _ _ _ _ _ I)) as Hcases. cbn zeta in Hcases. fold H' in Hcases. destruct Hcases as [[Hq Hs]|(n & c & p & o & Hs & Hc & Hp & Ec & Er & Es)].
  - assert (Inv C H' (m :: ups) bu downs bd acc next) as J by (eapply inv_quiet; [apply quiet_end_refl|exact Hq|done|done|exact I]).
    apply (Hkeep H'); [done|apply like_refl|apply J|by eapply flow_dropped, J|apply J].
  - assert (Hsub : forall i k, streams H' !! i = Some k -> streams H !! i = Some k) by (intros i k; destruct Es as [[_ ->]| ->]; [done|by intros [_ ?]%lookup_delete_Some]).
    apply (Hkeep H); [done|by eapply like_wrote|intros k; unfold held; rewrite Er; apply I|apply (flow_wrote C H H' m ups bu n c p o); [done|apply I|done..|apply I]|apply (flow_wrote_source H H' C downs bd n c p o); [done..|apply I]].
Qed.

Lemma inv_data_c C H ups bu downs bd acc next m wfault : m_Type m = MsgData -> Inv C H ups bu (m :: downs) bd acc next -> Inv (handleData wfault m C) H ups bu downs bd acc next.
Proof.
  intros Hm I. set (C' := handleData wfault m C).
  pose proof (handleData_cases wfault m C (i_cmap _ _ _ _ _ _ _ _ I)) as Hcases. cbn zeta in Hcases. fold C' in Hcases. destruct Hcases as [[Hq Hs]|(n & c & p & o & Hs & Hc & Hp & Ec & Er & Es)].
  - assert (Inv C' H ups bu (m :: downs) bd acc next) as J by (eapply inv_quiet; [exact Hq|apply quiet_end_refl|done|done|exact I]). eapply inv_like; [apply like_refl|apply like_refl|exact J|..]; destruct J; try done.
    + intros ty k c' Ha Hn. destruct (i_acc0 ty k Ha) as (d & Hd & _ & A & _). congruence.
    + by eapply flow_dropped.
    + intros k cc Hk Hl. destruct (i_new0 k cc Hk Hl) as (A1 & [_ A2]%data_pop_new & A3). done.
    + by eapply known_pop.
  - assert (Hsub : forall i k, streams C' !! i = Some k -> streams C !! i = Some k) by (intros i k; destruct Es as [[_ ->]| ->]; [done|by intros [_ ?]%lookup_delete_Some]).
    assert (Hback : forall k d', conns C' !! k = Some d' -> exists d, conns C !! k = Some d /\ c_id d' = c_id d /\ c_in d' = c_in d /\ c_out d' = c_out d ++ if decide (k = n) then p else []).
    { intros k d' Hk. rewrite Ec in Hk. destruct (decide (k = n)) as [->|Hne]; [rewrite lookup_insert_eq in Hk; injection Hk as <-; by exists c|]. rewrite lookup_insert_ne in Hk by done. exists d'. by rewrite app_nil_r. }
    eapply inv_like; [by eapply like_wrote|apply like_refl|exact I|..]; destruct I.
    + intros k. unfold held. rewrite Er. apply i_csmall0.
    + done.
    + intros ty k c' Ha Hn. destruct (Hback _ _ Hn) as (d & Hd & _ & E & _). destruct (i_acc0 ty k Ha) as (d' & Hd' & _ & A & _). congruence.
    + by apply (flow_wrote_source C C' H ups bu n c p o).
    + by apply (flow_wrote H C C' m downs bd n c p o).
    + intros k cc' Hk Hl. destruct (Hback _ _ Hk) as (cc & Hcc & E1 & E2 & E3). rewrite E1 in *. destruct (i_new0 k cc Hcc Hl) as (A1 & [Ap A2]%data_pop_new & A3). rewrite E2, E3, A1. split; [|split; [done|unfold lossy, alive, held in *; by rewrite Er]].
      destruct (decide (k = n)) as [->|]; [|done]. assert (cc = c) as -> by congruence. destruct (i_cmap0 _ _ Hs) as (c0 & Hc0 & E0). assert (c0 = c) as -> by congruence. rewrite inflight_data in Ap by done. rewrite Ap in Hp. by apply prefix_nil_inv in Hp.
    + by eapply known_pop.
Qed.

(** ** Opening a stream *)

Lemma length_chars ty : length (String.list_ascii_of_string ty) = String.length ty.
Proof. induction ty as [|c ty IH]; [done|]. cbn. by rewrite IH. Qed.

Definition opening (i : Z) (ty : string) : Message := mkMsg MsgOpen i (String.list_ascii_of_string ty).

Lemma inv_forget C H ups bu downs bd acc next ty : Inv C H ups bu downs bd acc next -> Inv C H ups bu downs bd (delete ty acc) next.
Proof.
  intros I. destruct I. split; try done.
  - intros n Hn. destruct (i_creaders0 n Hn) as [A B]. split; [done|]. intros ty' [_ E]%lookup_delete_Some. by apply (B ty').
  - intros ty' n [_ E]%lookup_delete_Some. by apply i_acc0.
Qed.

Lemma inv_announce C H ups downs bd acc next ty n c : acc !! ty = Some n -> conns C !! n = Some c -> Inv C H ups false downs bd acc next ->
  Inv (set_reader n (Some Reading) C) H (ups ++ [opening (c_id c) ty]) false downs bd (delete ty acc) next.
Proof.
  intros Ha Hc I. pose proof (inv_apart_c _ _ _ _ _ _ _ _ I) as Hap. destruct I. destruct (i_acc0 ty n Ha) as (c0 & Hc0 & A1 & A2 & A3 & A4 & A5 & A6). assert (c0 = c) as -> by congruence.
  assert (Hnr : readers C !! n = None). { destruct (readers C !! n) eqn:E; [|done]. destruct (i_creaders0 n) as [_ Hno]; [by rewrite E|]. by destruct (Hno ty). }
  assert (Hheld : forall k, held (set_reader n (Some Reading) C) k = held C k) by (intros k; rewrite held_reader; destruct (decide (k = n)) as [->|]; [unfold held; by rewrite Hnr|done]).
  assert (Han : forall i, announced i (ups ++ [opening (c_id c) ty]) <-> announced i ups \/ i = c_id c) by (intros i; rewrite announced_app, announced_one; cbn; naive_solver).
  assert (Hty : forall ty' k c', acc !! ty' = Some k -> conns C !! k = Some c' -> ty' <> ty -> c_id c' <> c_id c).
  { intros ty' k c' Ha' Hk Hne E. assert (k = n) as -> by (by eapply Hap). destruct (i_acc0 ty' n Ha') as (d & Hd & E' & _). congruence. }
  split; try done.
  - intros k Hk. assert (is_Some (conns C !! k) /\ (k = n \/ is_Some (readers C !! k))) as [Hck Hk'].
    { destruct (decide (k = n)) as [->|Hne]; [split; [by rewrite Hc|by left]|]. cbn in Hk. rewrite lookup_partial_alter_ne in Hk by done. split; [by apply i_creaders0|by right]. }
    split; [done|]. intros ty' [Hne E]%lookup_delete_Some. destruct Hk' as [->|Hk']; [by apply (Hty ty' n c)|]. by apply (proj2 (i_creaders0 k Hk') ty').
  - by apply small_reader.
  - intros ty' k [Hne E]%lookup_delete_Some. destruct (i_acc0 ty' k E) as (d & Hd & B1 & B2 & B3 & B4 & B5 & B6). exists d. rewrite Han, inflight_snoc_other by done. split; [done|]. split; [done|]. split; [done|]. split; [|done].
    intros [?|E']; [done|]. by apply (Hty ty' k d).
  - intros pre x post E Hx. apply split_snoc in E as [(-> & -> & ->)|(post' & -> & E)].
    + cbn. split; [exists n, c; split; [done|]; split; [done|]; unfold string_of; by rewrite String.string_of_list_ascii_of_string|]. rewrite app_nil_r. done.
    + destruct (i_ann0 pre x post' E Hx) as (B1 & B2 & B3 & B4). split; [done|]. split; [done|]. split; [|done]. rewrite app_assoc, announced_app, announced_one. cbn. intros [?|[_ E']]; [done|]. apply A3. exists x. split; [|done]. rewrite E. apply elem_of_app. right. by left.
  - intros k sc m dc Hk Hm Hid. destruct (i_up0 k sc m dc Hk Hm Hid) as [F1 F2]. split; [done|]. rewrite Hheld, inflight_snoc_other by done. exact F2.
  - intros k cc Hk Hl. destruct (i_new0 k cc Hk Hl) as (B1 & B2 & B3). split; [done|]. split; [done|]. rewrite Han, inflight_snoc_other, Hheld by done. intros [Hx|E]; [by apply B3|].
    change (conns C !! k = Some cc) in Hk. assert (k = n) as -> by (by eapply Hap). assert (cc = c) as -> by congruence. unfold lossy, held. cbn. by rewrite A4, A2, Hnr.
  - by apply known_snoc.
Qed.

Lemma inv_open C H ups bu downs bd acc next m (f := fresh_conn H) : m_Type m = MsgOpen -> Inv C H (m :: ups) bu downs bd acc next ->
  Inv C (set_reader f (Some Reading) (add_stream (StreamID m) (string_of (Payload m)) H)) ups bu downs bd acc next.
Proof.
  intros Hm I. pose proof (inv_apart_c _ _ _ _ _ _ _ _ I) as Hap. assert (Hnd : m_Type m <> MsgData) by (by rewrite Hm). pose proof (inv_up_pop _ _ _ _ _ _ _ _ _ Hnd I) as J.
  set (i := StreamID m). set (H' := set_reader _ _ _). destruct (i_ann _ _ _ _ _ _ _ _ I [] m ups eq_refl Hm) as ((n & cc & Hn & E1 & E2) & Hlon & Hnan & _). fold i in E1, Hlon, Hnan.
  destruct (i_new _ _ _ _ _ _ _ _ I n cc Hn) as (N1 & N2 & N3); [by rewrite E1|]. rewrite E1, <- (inflight_pop_other i ups m Hnd) in *.
  assert (N3' : exact (lossy C n bu) (inflight i ups ++ held C n) (c_in cc)) by (apply N3; exists m; split; [by left|done]). clear N3.
  assert (Hacc : forall ty k c, acc !! ty = Some k -> conns C !! k = Some c -> c_id c <> i).
  { intros ty k c Ha Hk E. destruct (i_acc _ _ _ _ _ _ _ _ I ty k Ha) as (c' & Hc' & _ & _ & B & _). assert (c' = c) as -> by congruence. apply B. exists m. split; [by left|done]. }
  destruct J. assert (Hf : forall k c, conns H !! k = Some c -> k <> f) by (intros k c Hk; apply i_hkeys0 in Hk; unfold f, fresh_conn; lia).
  assert (Hfn : conns H !! f = None) by (destruct (conns H !! f) eqn:E; [by apply Hf in E|done]).
  assert (Hconns : forall k c, conns H' !! k = Some c -> (k = f /\ c = mkConn i (string_of (Payload m)) [] [] true) \/ (k <> f /\ conns H !! k = Some c)) by (intros k c; apply add_conns).
  assert (Hlon' : forall j, j <> i -> lonely H j -> lonely H' j) by (intros j Hj Hl k c [[_ ->]|[_ Hk]]%Hconns; [by apply not_eq_sym|by apply (Hl k)]).
  assert (Hlon2 : forall j, lonely H' j -> lonely H j) by (intros j Hl k c Hk; apply (Hl k); by apply add_old; [eapply Hf|]).
  split; try done.
  - intros k c Hk. change (conns H') with (conns (add_stream i (string_of (Payload m)) H)). rewrite add_size by done. apply Hconns in Hk as [[-> _]|[_ Hk]]; [unfold f, fresh_conn; lia|]. apply i_hkeys0 in Hk. lia.
  - intros k k' c c' [[-> ->]|[Hk1 Hk]]%Hconns [[-> ->]|[Hk1' Hk']]%Hconns; cbn; [done|intros E; by destruct (Hlon k' c' Hk')|intros E; by destruct (Hlon k c Hk)|by apply (i_huniq0 k k' c c')].
  - intros k c [[_ ->]|[_ Hk]]%Hconns; [by exists n, cc|by apply (i_pair0 k)].
  - intros k Hk. destruct (decide (k = f)) as [->|Hne]; [eexists; apply lookup_insert_eq|]. cbn in Hk. rewrite lookup_partial_alter_ne in Hk by done. destruct (i_hreaders0 k Hk) as [c Hc]. exists c. by apply add_old.
  - by apply small_reader.
  - intros j k. cbn. destruct (decide (j = i)) as [->|Hne]; [rewrite lookup_insert_eq; intros [= <-]; eexists; split; [apply lookup_insert_eq|done]|]. rewrite lookup_insert_ne by done. intros Hs.
    destruct (i_hmap0 j k Hs) as (c & Hc & E). exists c. split; [|done]. apply add_old; [by eapply Hf|done].
  - intros ty k Ha. destruct (i_acc0 ty k Ha) as (c & Hc & B1 & B2 & B3 & B4 & B5 & B6). exists c. repeat (split; [done|]). split; [|done]. apply Hlon'; [by eapply Hacc|done].
  - intros pre x post E Hx. destruct (i_ann0 pre x post E Hx) as (B1 & B2 & B3 & B4). split; [done|]. split; [|done]. apply Hlon'; [|done]. intros Ex. apply Hnan. exists x. split; [|done]. cbn. rewrite E. apply elem_of_app. right. by left.
  - intros k sc l dc Hk [[-> ->]|[Hl1 Hl]]%Hconns Hid; cbn in Hid |- *.
    + split; [apply prefix_nil|]. intros _. assert (k = n) as -> by (eapply Hap; [done..|congruence]). by assert (sc = cc) as -> by congruence.
    + destruct (i_up0 k sc l dc Hk Hl Hid) as [F1 F2]. split; [done|]. rewrite lookup_insert_ne; [done|]. by apply not_eq_sym, (Hlon l).
  - intros k sc l dc [[-> ->]|[Hk1 Hk]]%Hconns Hl Hid; cbn in Hid |- *.
    + assert (l = n) as -> by (eapply Hap; [done..|congruence]). assert (dc = cc) as -> by congruence. rewrite N1. split; [done|]. intros _. rewrite <- Hid, N2. unfold lossy, alive, held. cbn. rewrite lookup_partial_alter_eq. cbn. by rewrite andb_false_r.
    + destruct (i_down0 k sc l dc Hk Hl Hid) as [F1 F2]. split; [done|]. unfold lossy, H'. rewrite held_reader, alive_reader, !decide_False by done. exact F2.
  - intros k c Hk Hl. apply i_new0; auto.
Qed.

(** ** Every step *)

Definition id_ok (i : Z) : Prop := 0 <= i < 2 ^ 32.
(** The streams that are about to be closed have proper IDs. *)
Definition closing_ok (e : End) : Prop := (forall n i, readers e !! n = Some (Closing i) -> id_ok i) /\ (forall i, main e = LoopClosing i -> id_ok i).

Record good (s : State) (ups downs : list Message) : Prop := mkGood {
  g_up : holds (up s) ups;
  g_down : holds (down s) downs;
  g_inv : Inv (container s) (host s) ups (broken (up s)) downs (broken (down s)) (accepted s) (nextID s);
  g_cclosing : closing_ok (container s);
  g_hclosing : closing_ok (host s);
  g_count : Z.of_nat (size (conns (container s))) < 2 ^ 32;
}.

Lemma drop_readers id e : readers (dropStream id e).1 = readers e /\ main (dropStream id e).1 = main e.
Proof. unfold dropStream. destruct (streams e !! id) as [n|]; [|done]. cbn. unfold close_conn. cbn. by destruct (conns e !! n). Qed.
Lemma drop_conns_some id e n c : conns e !! n = Some c -> is_Some (conns (dropStream id e).1 !! n).
Proof. intros Hc. destruct (quiet_forth _ _ _ _ (quiet_drop id e) Hc) as (c' & Hc' & _). by eexists. Qed.

Lemma closing_reader n r e : closing_ok e -> (forall i, r = Some (Closing i) -> id_ok i) -> closing_ok (set_reader n r e).
Proof.
  intros [H1 H2] Hr. split; [|done]. intros k i. cbn. destruct (decide (k = n)) as [->|Hne]; [rewrite lookup_partial_alter_eq; apply Hr|rewrite lookup_partial_alter_ne by done; apply H1].
Qed.
Lemma closing_main l e : closing_ok e -> (forall i, l = LoopClosing i -> id_ok i) -> closing_ok (set_main l e).
Proof. intros [H1 H2] Hl. by split. Qed.
Lemma closing_same e e' : readers e' = readers e -> main e' = main e -> closing_ok e -> closing_ok e'.
Proof. unfold closing_ok. by intros -> ->. Qed.
Lemma closing_drop id e : closing_ok e -> closing_ok (dropStream id e).1.
Proof. destruct (drop_readers id e). by apply closing_same. Qed.

Lemma reader_close_eq n id e : exists r, reader_close n id e = set_reader n r (dropStream id e).1 /\ (forall c, r <> Some (Sending c)) /\ r <> Some Reading /\ (forall i, r = Some (Closing i) -> i = id).
Proof.
  unfold reader_close. destruct (dropStream id e) as [e' []]; [exists (Some (Closing id))|exists None]; (split; [done|]); (split; [done|]); (split; [done|]); [by intros i [= ->]|done].
Qed.
Lemma drop_reader_comm n r id e : set_reader n r (dropStream id e).1 = (dropStream id (set_reader n r e)).1.
Proof. unfold dropStream. cbn. destruct (streams e !! id) as [k|]; [|done]. cbn. unfold close_conn. cbn. by destruct (conns e !! k). Qed.

Lemma quiet_reader_close n id e : readers e !! n = Some Reading -> quiet e (reader_close n id e).
Proof.
  intros Hr. destruct (reader_close_eq n id e) as (r & -> & R1 & R2 & _). eapply quiet_end_trans; [apply quiet_drop|]. apply quiet_reader; [done|rewrite (proj1 (drop_readers id e)); by rewrite Hr| |by left].
  unfold held. by rewrite (proj1 (drop_readers id e)), Hr.
Qed.
Lemma closing_reader_close n id e : id_ok id -> closing_ok e -> closing_ok (reader_close n id e).
Proof. intros Hid He. destruct (reader_close_eq n id e) as (r & -> & _ & _ & R). apply closing_reader; [by apply closing_drop|]. by intros i ->%R. Qed.

Lemma valid_close i : id_ok i -> valid (mkMsg MsgClose i []).
Proof. intros Hi. by repeat split; try apply Hi. Qed.
Lemma valid_data i chunk : id_ok i -> Z.of_nat (length chunk) <= readBufSize -> valid (data i chunk).
Proof. intros Hi Hl. split; [done|]. split; [done|]. cbn. unfold readBufSize, headLen, maxMessageSize in *. lia. Qed.
Lemma good_cid s ups downs n c : good s ups downs -> conns (container s) !! n = Some c -> id_ok (c_id c).
Proof. intros G Hc. pose proof (g_count _ _ _ G). apply (i_cids _ _ _ _ _ _ _ _ (g_inv _ _ _ G)) in Hc as [E Hc]. unfold id_ok. lia. Qed.
Lemma good_hid s ups downs n c : good s ups downs -> conns (host s) !! n = Some c -> id_ok (c_id c).
Proof. intros G Hc. apply (i_pair _ _ _ _ _ _ _ _ (g_inv _ _ _ G)) in Hc as (k & cc & Hk & <- & _). by eapply good_cid. Qed.

(** A step of the container's end that leaves the host's alone, and the other way. *)
Lemma good_container s ups ups' downs C' p' : good s ups downs -> holds p' ups' -> Inv C' (host s) ups' (broken p') downs (broken (down s)) (accepted s) (nextID s) -> closing_ok C' ->
  size (conns C') = size (conns (container s)) -> good (mkState C' (host s) p' (down s) (nextID s) (accepted s)) ups' downs.
Proof. intros [G1 G2 G3 G4 G5 G6] Hp Hi Hc Hs. split; try done. cbn. by rewrite Hs. Qed.
Lemma good_host s ups downs downs' H' p' : good s ups downs -> holds p' downs' -> Inv (container s) H' ups (broken (up s)) downs' (broken p') (accepted s) (nextID s) -> closing_ok H' ->
  good (mkState (container s) H' (up s) p' (nextID s) (accepted s)) ups downs'.
Proof. intros [G1 G2 G3 G4 G5 G6] Hp Hi Hc. by split. Qed.

Lemma like_good_size e e' : quiet e e' -> size (conns e') = size (conns e).
Proof. intros Hq. by apply like_size, quiet_like. Qed.

Lemma good_quiet_c s ups downs C' : good s ups downs -> quiet (container s) C' -> closing_ok C' -> good (set_end Container C' s) ups downs.
Proof.
  intros G Hq Hc. apply (good_container s ups ups downs C' (up s)); [done|apply G| |done|by apply like_good_size]. eapply inv_quiet; [exact Hq|apply quiet_end_refl|done|done|apply G].
Qed.
Lemma good_quiet_h s ups downs H' : good s ups downs -> quiet (host s) H' -> closing_ok H' -> good (set_end Host H' s) ups downs.
Proof. intros G Hq Hc. apply (good_host s ups downs downs H' (down s)); [done|apply G| |done]. eapply inv_quiet; [apply quiet_end_refl|exact Hq|done|done|apply G]. Qed.
Lemma good_quiet sd s ups downs e' : good s ups downs -> quiet (end_of sd s) e' -> closing_ok e' -> good (set_end sd e' s) ups downs.
Proof. destruct sd; [apply good_quiet_c|apply good_quiet_h]. Qed.
Lemma good_closing sd s ups downs : good s ups downs -> closing_ok (end_of sd s).
Proof. intros G. destruct sd; apply G. Qed.
Lemma good_id sd s ups downs n c : good s ups downs -> conns (end_of sd s) !! n = Some c -> id_ok (c_id c).
Proof. destruct sd; [apply good_cid|apply good_hid]. Qed.

(** A message that carries no data goes into the pipe, or breaks it. *)
Lemma good_send_close sd s ups downs i fault : good s ups downs -> id_ok i ->
  let s' := (send sd fault (mkMsg MsgClose i []) s).1 in end_of sd s' = end_of sd s /\ exists ups' downs', good s' ups' downs'.
Proof.
  intros G Hi. cbn zeta. unfold send. pose proof (valid_close i Hi) as Hv. destruct sd; cbn [out_pipe].
  - pose proof (holds_send (up s) ups _ fault (g_up _ _ _ G) Hv) as Hs. destruct (sendMessage fault _ (up s)) as [p' ok]. split; [done|]. destruct ok.
    + destruct Hs as (Hh & Hb & Hb'). exists (ups ++ [mkMsg MsgClose i []]), downs. apply (good_container s ups); [done|done| |apply G|done]. rewrite Hb'. apply inv_up_snoc; [done|done|]. rewrite <- Hb. apply G.
    + destruct Hs as (Hh & Hb). exists ups, downs. apply (good_container s ups); [done|done| |apply G|done]. apply (inv_quiet _ _ _ _ ups (broken (up s)) _ downs (broken (down s)) _ _ _ (quiet_end_refl _) (quiet_end_refl _)); [by rewrite Hb|done|apply G].
  - pose proof (holds_send (down s) downs _ fault (g_down _ _ _ G) Hv) as Hs. destruct (sendMessage fault _ (down s)) as [p' ok]. split; [done|]. destruct ok.
    + destruct Hs as (Hh & Hb & Hb'). exists ups, (downs ++ [mkMsg MsgClose i []]). apply (good_host s ups downs); [done|done| |apply G]. rewrite Hb'. apply inv_down_snoc; [done|]. rewrite <- Hb. apply G.
    + destruct Hs as (Hh & Hb). exists ups, downs. apply (good_host s ups downs); [done|done| |apply G]. apply (inv_quiet _ _ _ _ ups (broken (up s)) _ downs (broken (down s)) _ _ _ (quiet_end_refl _) (quiet_end_refl _)); [done|by rewrite Hb|apply G].
Qed.

Definition legal (a : action) : Prop := match a with Accept ty => headLen + Z.of_nat (String.length ty) <= maxMessageSize | _ => True end.

Lemma step_accept s ups downs ty s' : good s ups downs -> legal (Accept ty) -> Z.of_nat (size (conns (container s))) + 1 < 2 ^ 32 -> step (Accept ty) s = Some s' -> good s' ups downs.
Proof.
  intros G Hl Hn Hs. cbn in Hs. destruct (accepted s !! ty) eqn:Ea; [done|]. injection Hs as <-. pose proof (g_inv _ _ _ G) as I. pose proof (i_next _ _ _ _ _ _ _ _ I) as En.
  assert (Routes.uint32 (nextID s + 1) = nextID s + 1) as -> by (unfold Routes.uint32; apply Z.mod_small; lia). pose proof (inv_accept _ _ _ _ _ _ _ _ ty I Ea Hl) as J. split; [apply G|apply G|exact J| |apply G|]; cbn.
  - apply (closing_same (container s)); [done|done|apply G].
  - pose proof (i_next _ _ _ _ _ _ _ _ J) as E. cbn in E. lia.
Qed.

Lemma step_open s ups downs ty fault s' : good s ups downs -> step (SendOpen ty fault) s = Some s' -> exists ups' downs', good s' ups' downs'.
Proof.
  intros G Hs. cbn in Hs. destruct (accepted s !! ty) as [n|] eqn:Ea; [|done]. destruct (conns (container s) !! n) as [c|] eqn:Ec; [|done]. pose proof (g_inv _ _ _ G) as I.
  assert (Hv : valid (opening (c_id c) ty)).
  { split; [done|]. split; [by eapply good_cid|]. cbn. rewrite length_chars. by destruct (i_acc _ _ _ _ _ _ _ _ I ty n Ea) as (_ & _ & _ & _ & _ & _ & _ & ?). }
  unfold send in Hs. cbn [out_pipe] in Hs. pose proof (holds_send (up s) ups _ fault (g_up _ _ _ G) Hv) as Hh. unfold opening in Hh. destruct (sendMessage fault _ (up s)) as [p' ok]. injection Hs as <-. destruct ok; cbn.
  - destruct Hh as (Hh & Hb & Hb'). eexists _, downs. split; [exact Hh|apply G| |by apply closing_reader; [apply G|]|apply G|apply (g_count _ _ _ G)]. cbn. rewrite Hb'. apply inv_announce; [done|done|]. by rewrite <- Hb.
  - destruct Hh as (Hh & Hb). exists ups, downs. split; [done|apply G| | |apply G|]; cbn.
    + apply inv_forget. apply (inv_quiet _ _ _ _ ups (broken (up s)) _ downs (broken (down s)) _ _ _ (quiet_close _ _) (quiet_end_refl _)); [by rewrite Hb|done|done].
    + apply (closing_same (container s)); [by unfold close_conn; destruct (conns _ !! n)..|apply G].
    + rewrite (like_good_size (container s)) by apply quiet_close. apply (g_count _ _ _ G).
Qed.

Lemma step_read sd s ups downs n chunk s' : good s ups downs -> step (Read sd n chunk) s = Some s' -> good s' ups downs.
Proof.
  intros G Hs. cbn in Hs. destruct (readers (end_of sd s) !! n) as [[| |]|] eqn:Er; try done. destruct (conns (end_of sd s) !! n) as [c|] eqn:Ec; [|done].
  destruct (c_open c && bool_decide (chunk <> []) && (Z.of_nat (length chunk) <=? readBufSize)) eqn:Eg; [|done]. injection Hs as <-. apply andb_true_iff in Eg as [_ Hl%Z.leb_le]. pose proof (good_closing sd _ _ _ G) as Hcl.
  assert (closing_ok (took n c chunk (end_of sd s))) as Hc' by (by apply closing_reader).
  destruct sd; cbn [end_of set_end] in *.
  - apply (good_container s ups); [done|apply G|by apply inv_took_c, G|done|]. by apply like_size, like_took; [|rewrite Er].
  - apply (good_host s ups downs); [done|apply G|by apply inv_took_h, G|done].
Qed.

Lemma step_data sd s ups downs n fault s' : good s ups downs -> step (SendData sd n fault) s = Some s' -> exists ups' downs', good s' ups' downs'.
Proof.
  intros G Hs. cbn in Hs. destruct (readers (end_of sd s) !! n) as [[|chunk|]|] eqn:Er; try done. destruct (conns (end_of sd s) !! n) as [c|] eqn:Ec; [|done]. pose proof (g_inv _ _ _ G) as I.
  pose proof (good_id sd _ _ _ _ _ G Ec) as Hid. pose proof (good_closing sd _ _ _ G) as Hcl.
  assert (Hv : valid (data (c_id c) chunk)). { apply valid_data; [done|]. assert (held (end_of sd s) n = chunk) as <- by (unfold held; by rewrite Er). destruct sd; apply I. }
  destruct (reader_close_eq n (c_id c) (end_of sd s)) as (r & Erc & R1 & R2 & _). rewrite drop_reader_comm in Erc. unfold send in Hs. destruct sd; cbn [out_pipe end_of set_end set_out] in *.
  - pose proof (holds_send (up s) ups _ fault (g_up _ _ _ G) Hv) as Hh. unfold data in Hh. destruct (sendMessage fault _ (up s)) as [p' ok]. injection Hs as <-. destruct ok; cbn.
    + destruct Hh as (Hh & Hb & Hb'). eexists _, downs. apply (good_container s ups); [done|exact Hh| |by apply closing_reader|done]. rewrite Hb'. apply inv_sent_c; [done|done|]. by rewrite <- Hb.
    + destruct Hh as (Hh & Hb). exists ups, downs. apply (good_container s ups); [done|done| |by apply closing_reader_close|].
      * rewrite Erc, Hb. apply (inv_quiet _ _ _ _ ups true _ downs (broken (down s)) _ _ _ (quiet_drop _ _) (quiet_end_refl _)); [done|done|]. by eapply inv_gave_up_c.
      * rewrite Erc. rewrite (like_good_size _ _ (quiet_drop _ _)). done.
  - pose proof (holds_send (down s) downs _ fault (g_down _ _ _ G) Hv) as Hh. unfold data in Hh. destruct (sendMessage fault _ (down s)) as [p' ok]. injection Hs as <-. destruct ok; cbn.
    + destruct Hh as (Hh & Hb & Hb'). eexists ups, _. apply (good_host s ups downs); [done|exact Hh| |by apply closing_reader]. rewrite Hb'. apply inv_sent_h; [done|done|]. by rewrite <- Hb.
    + destruct Hh as (Hh & Hb). exists ups, downs. apply (good_host s ups downs); [done|done| |by apply closing_reader_close].
      rewrite Erc, Hb. apply (inv_quiet _ _ _ _ ups (broken (up s)) _ downs true _ _ _ (quiet_end_refl _) (quiet_drop _ _)); [done|done|]. by eapply inv_gave_up_h.
Qed.

Lemma step_read_failed sd s ups downs n s' : good s ups downs -> step (ReadFailed sd n) s = Some s' -> good s' ups downs.
Proof.
  intros G Hs. cbn in Hs. destruct (readers (end_of sd s) !! n) as [[| |]|] eqn:Er; try done. destruct (conns (end_of sd s) !! n) as [c|] eqn:Ec; [|done]. injection Hs as <-.
  apply good_quiet; [done|by apply quiet_reader_close|]. apply closing_reader_close; [by eapply good_id|by eapply good_closing].
Qed.

Lemma step_send_close sd s ups downs n fault s' : good s ups downs -> step (SendClose sd n fault) s = Some s' -> exists ups' downs', good s' ups' downs'.
Proof.
  intros G Hs. cbn in Hs. destruct (readers (end_of sd s) !! n) as [[| |i]|] eqn:Er; try done. pose proof (good_closing sd _ _ _ G) as [Hcl _].
  destruct (good_send_close sd s ups downs i fault G (Hcl n i Er)) as (Ee & ups' & downs' & G'). destruct (send sd fault _ s) as [s1 ok]. injection Hs as <-. cbn [fst] in *. exists ups', downs'.
  apply good_quiet; [done| |by apply closing_reader; [eapply good_closing|]]. rewrite Ee. apply quiet_reader; [done|by rewrite Er|unfold held; by rewrite Er|by left].
Qed.

Lemma step_loop_close sd s ups downs fault s' : good s ups downs -> step (LoopSendClose sd fault) s = Some s' -> exists ups' downs', good s' ups' downs'.
Proof.
  intros G Hs. cbn in Hs. destruct (main (end_of sd s)) as [|i|] eqn:Em; try done. pose proof (good_closing sd _ _ _ G) as [_ Hcl].
  destruct (good_send_close sd s ups downs i fault G (Hcl i Em)) as (Ee & ups' & downs' & G'). destruct (send sd fault _ s) as [s1 ok]. injection Hs as <-. cbn [fst] in *. exists ups', downs'.
  apply good_quiet; [done|apply quiet_main|by apply closing_main; [eapply good_closing|]].
Qed.

Lemma quiet_handleClose m e : quiet e (handleClose m e).
Proof. unfold handleClose. pose proof (quiet_drop (StreamID m) e) as Hq. destruct (dropStream (StreamID m) e) as [e' []]; [|done]. eapply quiet_end_trans; [exact Hq|apply quiet_main]. Qed.
Lemma closing_handleClose m e : id_ok (StreamID m) -> closing_ok e -> closing_ok (handleClose m e).
Proof.
  intros Hi Hc. unfold handleClose. pose proof (closing_drop (StreamID m) e Hc) as Hd. destruct (dropStream (StreamID m) e) as [e' []]; [|done]. apply closing_main; [done|]. by intros i [= <-].
Qed.
Lemma closing_handleData wfault m e : id_ok (StreamID m) -> closing_ok e -> closing_ok (handleData wfault m e).
Proof.
  intros Hi Hc. unfold handleData. destruct (streams e !! StreamID m) as [n|]; [|done]. destruct (conns e !! n) as [c|]; [|done].
  assert (Hd : forall e0, closing_ok e0 -> closing_ok (let '(e', found) := dropStream (StreamID m) e0 in if found then set_main (LoopClosing (StreamID m)) e' else e')) by (intros e0; apply (closing_handleClose m e0 Hi)).
  destruct (c_open c); cbn [negb]; [destruct wfault as [k|]|]; [by apply Hd, (closing_same e)|by apply (closing_same e)|by apply Hd].
Qed.
Lemma closing_handleOpen h m e : id_ok (StreamID m) -> closing_ok e -> closing_ok (handleOpen h m e).
Proof.
  intros Hi Hc. assert (closing_ok (set_main (LoopClosing (StreamID m)) e)) as Hm by (apply closing_main; [done|]; by intros i [= <-]). unfold handleOpen. destruct (resolveHostSocket _ _); [|done]. destruct (dial _ _); [|done].
  apply closing_reader; [|done]. by apply (closing_same e).
Qed.

Lemma handleData_size wfault m e : in_map e -> size (conns (handleData wfault m e)) = size (conns e).
Proof.
  intros Hm. pose proof (handleData_cases wfault m e Hm) as Hc. cbn zeta in Hc. destruct Hc as [[Hq _]|(n & c & p & o & _ & Hc & _ & -> & _)]; [by apply like_good_size|]. apply map_size_insert_Some. by eexists.
Qed.

Lemma inv_receive_h C H ups bu downs bd acc next m h wfault : Inv C H (m :: ups) bu downs bd acc next -> Inv C (receive Host h wfault m H) ups bu downs bd acc next.
Proof.
  intros I. unfold receive. destruct (Z.eqb_spec (m_Type m) MsgData) as [E|E]; [by apply inv_data_h|]. pose proof (inv_up_pop _ _ _ _ _ _ _ _ _ E I) as J.
  assert (Hq : forall H', quiet H H' -> Inv C H' ups bu downs bd acc next) by (intros H' Hq; by apply (inv_quiet _ _ _ _ ups bu _ downs bd _ _ _ (quiet_end_refl _) Hq)).
  destruct (Z.eqb_spec (m_Type m) MsgClose); [by apply Hq, quiet_handleClose|]. destruct (Z.eqb_spec (m_Type m) MsgOpen) as [Eo|]; [|done].
  unfold handleOpen. destruct (resolveHostSocket _ _); [|by apply Hq, quiet_main]. destruct (dial _ _); [by apply inv_open|by apply Hq, quiet_main].
Qed.
Lemma inv_receive_c C H ups bu downs bd acc next m h wfault : Inv C H ups bu (m :: downs) bd acc next -> Inv (receive Container h wfault m C) H ups bu downs bd acc next.
Proof.
  intros I. unfold receive. destruct (Z.eqb_spec (m_Type m) MsgData) as [E|E]; [by apply inv_data_c|]. pose proof (inv_down_pop _ _ _ _ _ _ _ _ _ E I) as J.
  destruct (Z.eqb_spec (m_Type m) MsgClose); [|done]. by apply (inv_quiet _ _ _ _ ups bu _ downs bd _ _ _ (quiet_handleClose m C) (quiet_end_refl _)).
Qed.
Lemma closing_receive sd h wfault m e : id_ok (StreamID m) -> closing_ok e -> closing_ok (receive sd h wfault m e).
Proof.
  intros Hi Hc. unfold receive. destruct (m_Type m =? MsgData); [by apply closing_handleData|]. destruct (m_Type m =? MsgClose); [by apply closing_handleClose|]. destruct sd; [done|]. destruct (m_Type m =? MsgOpen); [by apply closing_handleOpen|done].
Qed.

Lemma step_receive sd s ups downs h wfault s' : good s ups downs -> step (Receive sd h wfault) s = Some s' -> exists ups' downs', good s' ups' downs'.
Proof.
  intros G Hs. cbn in Hs. destruct (main (end_of sd s)); try done. pose proof (g_inv _ _ _ G) as I. destruct sd; cbn [in_pipe set_in set_end end_of] in *.
  - pose proof (g_down _ _ _ G) as Hh. pose proof (holds_read _ _ Hh) as Hr. destruct downs as [|m downs]; [by rewrite Hr in Hs|]. destruct Hr as (rest & Er & Hh'). rewrite Er in Hs. injection Hs as <-. exists ups, downs.
    destruct Hh as [Hv _]. apply Forall_cons in Hv as [(_ & Hi & _) _]. split; [apply G|done|by apply inv_receive_c|apply closing_receive; [done|apply G]|apply G|]. cbn.
    assert (size (conns (receive Container h wfault m (container s))) = size (conns (container s))) as ->; [|apply (g_count _ _ _ G)].
    unfold receive. destruct (_ =? _); [apply handleData_size, I|]. destruct (_ =? _); [apply like_good_size, quiet_handleClose|done].
  - pose proof (g_up _ _ _ G) as Hh. pose proof (holds_read _ _ Hh) as Hr. destruct ups as [|m ups]; [by rewrite Hr in Hs|]. destruct Hr as (rest & Er & Hh'). rewrite Er in Hs. injection Hs as <-. exists ups, downs.
    destruct Hh as [Hv _]. apply Forall_cons in Hv as [(_ & Hi & _) _]. split; [done|apply G|by apply inv_receive_h|apply G|apply closing_receive; [done|apply G]|apply (g_count _ _ _ G)].
Qed.

Lemma step_stop s ups downs : good s ups downs -> good (Stop s) ups downs.
Proof.
  intros G. pose proof G as [G1 G2 G3 G4 G5 G6]. unfold Stop. split; try done; cbn.
  - destruct G2 as (Hv & tl & Hb & Hr & _). split; [done|]. by exists tl.
  - apply (inv_quiet (container s) (host s) _ _ ups (broken (up s)) _ downs (broken (down s)) _ _ _ (quiet_end_refl _)); try done. split; try done; cbn.
    intros n. rewrite map_lookup_imap. destruct (conns (host s) !! n) as [c|]; [|constructor]. cbn. constructor. by destruct (bool_decide _).
Qed.

Lemma step_good a s s' ups downs : good s ups downs -> legal a -> (forall ty, a = Accept ty -> Z.of_nat (size (conns (container s))) + 1 < 2 ^ 32) -> step a s = Some s' -> exists ups' downs', good s' ups' downs'.
Proof.
  intros G Hl Hn Hs. destruct a.
  - exists ups, downs. eapply step_accept; eauto.
  - by eapply step_open.
  - exists ups, downs. by eapply step_read.
  - by eapply step_data.
  - exists ups, downs. by eapply step_read_failed.
  - by eapply step_send_close.
  - by eapply step_receive.
  - by eapply step_loop_close.
  - exists ups, downs. cbn in Hs. destruct (main (end_of sd s)); try done. injection Hs as <-. apply good_quiet; [done|apply quiet_main|by apply closing_main; [eapply good_closing|]].
  - exists ups, downs. injection Hs as <-. by apply step_stop.
Qed.

(** ** Runs *)

Definition is_accept (a : action) : bool := match a with Accept _ => true | _ => false end.
Definition accepts (l : list action) : nat := length (filter (fun a => is_accept a = true) l).

Lemma send_next sd fault m s : nextID (send sd fault m s).1 = nextID s.
Proof. unfold send. destruct (sendMessage fault m (out_pipe sd s)). by destruct sd. Qed.
Lemma set_end_next sd e s : nextID (set_end sd e s) = nextID s.
Proof. by destruct sd. Qed.

Lemma step_next a s s' : step a s = Some s' -> nextID s' = if is_accept a then Routes.uint32 (nextID s + 1) else nextID s.
Proof.
  intros Hs. destruct a; cbn in Hs |- *.
  all: repeat match type of Hs with context [match ?x with _ => _ end] => match x with send _ _ _ _ => fail 1 | _ => destruct x; try done end end.
  all: try (match type of Hs with context [send ?a ?b ?c ?d] => pose proof (send_next a b c d) as Hn; destruct (send a b c d) as [s1 ok] end).
  all: try (injection Hs as <-; cbn in *; rewrite ?set_end_next; by try destruct sd).
Qed.

Lemma good_initial : good initial [] [].
Proof.
  assert (forall b, holds (mkPipe [] b) []) as Hh by (intros b; split; [constructor|]; by exists []). split; [apply Hh|apply Hh| |split; [by intros n i|done]|split; [by intros n i|done]|done].
  split; try done; try (intros ? ? Hx; by cbn in Hx; rewrite lookup_empty in Hx); try (intros n Hx; by cbn in Hx; rewrite lookup_empty in Hx; destruct Hx).
  all: try (intros ? ? ? ? Hx; by cbn in Hx; rewrite lookup_empty in Hx).
  - intros [|? ?] ? ? ?; done.
  - intros m Hm. by apply elem_of_nil in Hm.
  - intros m Hm. by apply elem_of_nil in Hm.
Qed.

Lemma run_good l s s' ups downs : good s ups downs -> Forall legal l -> Z.of_nat (size (conns (container s))) + Z.of_nat (accepts l) < 2 ^ 32 -> run l s = Some s' -> exists ups' downs', good s' ups' downs'.
Proof.
  revert s ups downs. induction l as [|a l IH]; intros s ups downs G Hl Hn Hr; [injection Hr as <-; by exists ups, downs|]. cbn in Hr. destruct (step a s) as [s1|] eqn:Es; [|done]. apply Forall_cons in Hl as [Ha Hl].
  assert (Hacc : accepts (a :: l) = ((if is_accept a then 1 else 0) + accepts l)%nat) by (unfold accepts; rewrite filter_cons; by destruct (is_accept a)).
  destruct (step_good a s s1 ups downs G Ha) as (ups1 & downs1 & G1); [intros ty ->; rewrite Hacc in Hn; cbn [is_accept] in Hn; lia|done|]. eapply IH; [exact G1|done| |done].
  pose proof (step_next a s s1 Es) as En. pose proof (i_next _ _ _ _ _ _ _ _ (g_inv _ _ _ G)) as E0. pose proof (i_next _ _ _ _ _ _ _ _ (g_inv _ _ _ G1)) as E1. rewrite Hacc in Hn.
  destruct (is_accept a); [|lia]. unfold Routes.uint32 in En. rewrite Z.mod_small in En by lia. lia.
Qed.

Lemma holds_empty p ms : holds p ms -> p_bytes p = [] -> ms = [].
Proof. intros (_ & tl & Hb & _) E. destruct ms as [|m ms]; [done|]. rewrite E in Hb. done. Qed.

(** C19: In every interleaving of the bridge's two ends, with any call failing at any
    point, a stream at the host belongs to one connection in the container, made to the
    socket of the same agent; what reached the agent is a prefix of what the client
    sent and what reached the client a prefix of what the agent sent.  While the stream
    is open and its reader has not given up on a broken pipe, nothing is missing: with
    the pipe empty and no chunk in hand the two are equal.  (Stream IDs are 32 bits and
    messages are bounded: a bridge is assumed to accept fewer than 2^32 connections, on
    sockets whose type fits a message.) *)
Theorem streams_faithful l s (Hrun : run l initial = Some s) (Hlegal : Forall legal l) (Hcount : Z.of_nat (accepts l) < 2 ^ 32) :
  forall m hc, conns (host s) !! m = Some hc ->
  exists n cc, conns (container s) !! n = Some cc /\ c_id cc = c_id hc /\ c_type cc = c_type hc /\
    (forall n' cc', conns (container s) !! n' = Some cc' -> c_id cc' = c_id hc -> n' = n) /\ (forall m' hc', conns (host s) !! m' = Some hc' -> c_id hc' = c_id hc -> m' = m) /\
    c_out hc `prefix_of` c_in cc /\ c_out cc `prefix_of` c_in hc /\
    (streams (host s) !! c_id hc = Some m -> p_bytes (up s) = [] -> held (container s) n = [] -> lossy (container s) n (broken (up s)) = false -> c_out hc = c_in cc) /\
    (streams (container s) !! c_id hc = Some n -> p_bytes (down s) = [] -> held (host s) m = [] -> lossy (host s) m (broken (down s)) = false -> c_out cc = c_in hc).
Proof.
  intros m hc Hm. destruct (run_good l initial s [] [] good_initial Hlegal) as (ups & downs & G); [by assert (size (conns (container initial)) = 0%nat) as -> by done; lia|done|]. pose proof (g_inv _ _ _ G) as I.
  destruct (i_pair _ _ _ _ _ _ _ _ I m hc Hm) as (n & cc & Hn & E1 & E2). exists n, cc. split; [done|]. split; [done|]. split; [done|].
  destruct (i_up _ _ _ _ _ _ _ _ I n cc m hc Hn Hm E1) as [U1 U2]. destruct (i_down _ _ _ _ _ _ _ _ I m hc n cc Hm Hn (eq_sym E1)) as [D1 D2].
  split; [intros n' cc' Hn' E; eapply (inv_apart_c _ _ _ _ _ _ _ _ I); [done..|congruence]|]. split; [intros m' hc' Hm' E; eapply (inv_apart_h _ _ _ _ _ _ _ _ I); [done..|congruence]|].
  split; [done|]. split; [done|]. split.
  - intros Hs Hp Hh Hl. specialize (U2 Hs). rewrite (holds_empty _ _ (g_up _ _ _ G) Hp), Hh, Hl in U2. cbn in U2. by rewrite app_nil_r in U2.
  - intros Hs Hp Hh Hl. rewrite E1 in D2. specialize (D2 Hs). rewrite (holds_empty _ _ (g_down _ _ _ G) Hp), Hh, Hl in D2. cbn in D2. by rewrite app_nil_r in D2.
Qed.

(** ** An example *)

Definition ex_host : HostEnv := mkHost None (fun _ => false) "/run/agent" (fun _ => true).
Definition ex_ask : bytes := String.list_ascii_of_string "list".
Definition ex_reply : bytes := String.list_ascii_of_string "keys".
(** A client of the ssh socket asks, the agent answers; then the client leaves and both
    ends close the stream. *)
Definition ex_actions : list action :=
  [Accept "ssh-agent"; SendOpen "ssh-agent" None; Receive Host ex_host None; Read Container 1 ex_ask; SendData Container 1 None; Receive Host ex_host None;
   Read Host 1 ex_reply; SendData Host 1 None; Receive Container ex_host None].
Definition ex_state : State := default initial (run ex_actions initial).

Lemma streams_faithful_witness :
  exists hc, conns (host ex_state) !! 1%nat = Some hc /\ c_type hc = "ssh-agent" /\ c_out hc = ex_ask /\ c_in hc = ex_reply /\
  exists n cc, conns (container ex_state) !! n = Some cc /\ c_id cc = c_id hc /\ c_type cc = c_type hc /\
    (forall n' cc', conns (container ex_state) !! n' = Some cc' -> c_id cc' = c_id hc -> n' = n) /\ (forall m' hc', conns (host ex_state) !! m' = Some hc' -> c_id hc' = c_id hc -> m' = 1%nat) /\
    c_out hc `prefix_of` c_in cc /\ c_out cc `prefix_of` c_in hc /\
    (streams (host ex_state) !! c_id hc = Some 1%nat -> p_bytes (up ex_state) = [] -> held (container ex_state) n = [] -> lossy (container ex_state) n (broken (up ex_state)) = false -> c_out hc = c_in cc) /\
    (streams (container ex_state) !! c_id hc = Some n -> p_bytes (down ex_state) = [] -> held (host ex_state) 1 = [] -> lossy (host ex_state) 1 (broken (down ex_state)) = false -> c_out cc = c_in hc).
Proof.
  eexists. split; [vm_compute; reflexivity|]. split; [reflexivity|]. split; [reflexivity|]. split; [reflexivity|].
  apply (streams_faithful ex_actions ex_state); [vm_compute; reflexivity|repeat constructor; vm_compute; discriminate|vm_compute; reflexivity|vm_compute; reflexivity].
Defined.

(** The limit counts the type and the stream too: the largest payload that is accepted
    is five bytes short of the documented 1 MiB. *)
Lemma payload_limit t i p : 0 <= t < 256 -> id_ok i -> Z.of_nat (length p) <= 2 ^ 20 -> maxMessageSize < headLen + Z.of_nat (length p) ->
  readMessage (writeMessage (mkMsg t i p)) = TooLarge (headLen + Z.of_nat (length p)).
Proof.
  intros Ht Hi Hp Hm. unfold writeMessage. cbn [Payload]. assert (Routes.uint32 (headLen + Z.of_nat (length p)) = headLen + Z.of_nat (length p)) as -> by (unfold Routes.uint32, headLen; apply Z.mod_small; lia).
  unfold PutUint32 at 1. cbn [app readMessage]. rewrite Uint32_PutUint32 by (unfold headLen; lia). destruct (Z.ltb_spec (headLen + Z.of_nat (length p)) headLen); [lia|]. by destruct (Z.ltb_spec maxMessageSize (headLen + Z.of_nat (length p))); [|lia].
Qed.

(** ** Start-up of both ends *)

Definition exited (st : served) : bool := match st with Exits _ => true | _ => false end.
(** The host waits for what the container's end has written, which reads what the host
    has sent. *)
Definition handshake_result (gpgEnabled : bool) (key : bytes) (f : Forwarder) : option (result start_error unit) :=
  let '(ms, st) := serve f in (Start gpgEnabled key None true true ms (exited st) false).2.
Definition hello (gpgEnabled : bool) (key : bytes) : bytes := wire (Start gpgEnabled key None true true [] false false).1.

Lemma hello_gpg key : key <> [] -> hello true key = writeMessage (mkMsg MsgPubkey 0 key).
Proof. intros Hk. unfold hello, Start. rewrite (bool_decide_eq_false_2 (key = [])) by done. cbn. by rewrite app_nil_r. Qed.

Lemma Start_waits gpg key ms ended : (gpg = true -> key <> []) -> (Start gpg key None true true ms ended false).2 = ready_signal ms ended.
Proof.
  intros Hk. unfold Start. destruct gpg; cbn [andb].
  - rewrite (bool_decide_eq_false_2 (key = [])) by (by apply Hk). cbn. by destruct (ready_signal ms ended).
  - cbn. by destruct (ready_signal ms ended).
Qed.

Lemma listen_all_shape f l :
  match (listen_all f l).2 with
  | Serves => ready_signal (listen_all f l).1 false = Some (Ok tt)
  | Exits _ => exists e, ready_signal (listen_all f l).1 true = Some (Err e)
  | WaitsForKey => False
  end.
Proof.
  induction l as [|s l IH]; cbn [listen_all]; [destruct (ready_written f); cbn; eauto|]. destruct (createSocketListener f s); [cbn; eauto|done].
Qed.

Lemma listen_all_ok f l : (forall s, s ∈ l -> createSocketListener f s = None) -> ready_written f = true -> listen_all f l = ([mkMsg MsgReady 0 []], Serves).
Proof. intros Hl Hr. induction l as [|s l IH]; cbn [listen_all]; [by rewrite Hr|]. rewrite Hl by (by left). apply IH. intros s' Hs. apply Hl. by right. Qed.

Section Handshake.
Context (f : Forwarder) (gpg : bool) (key : bytes) (sockets : list SocketConfig).
Context (Hsock : parse f (remote_sockets f) = Some sockets) (Hne : sockets <> []) (Hset : remote_sockets f <> "").
Context (Hin : input f = hello gpg key) (Hopen : closed f = false).
Context (Hkey : gpg = true -> key <> [] /\ headLen + Z.of_nat (length key) <= maxMessageSize).

Lemma serve_cases : serve f =
  if hasGPG sockets then
    if gpg then match setupGPGPubkey f key with Some err => ([sendError ("failed to setup GPG pubkey: " +:+ err)], Exits 1) | None => listen_all f sockets end
    else ([], WaitsForKey)
  else listen_all f sockets.
Proof.
  unfold serve. destruct (String.eqb_spec (remote_sockets f) ""); [done|]. rewrite Hsock. destruct sockets as [|s l]; [done|]. destruct (hasGPG (s :: l)); [|done].
  rewrite Hin. destruct gpg.
  - destruct (Hkey eq_refl) as [H1 H2]. rewrite hello_gpg by done. rewrite <- (app_nil_r (writeMessage _)), read_write; [done|]. split; [done|]. split; [done|]. cbn. lia.
  - cbn. by rewrite Hopen.
Qed.

(** Start-up ends the same at both ends: the host is ready when the container serves,
    fails when it exits, and waits as long as it waits for the key. *)
Lemma handshake_agrees :
  match (serve f).2 with
  | Serves => handshake_result gpg key f = Some (Ok tt)
  | Exits _ => exists e, handshake_result gpg key f = Some (Err e)
  | WaitsForKey => handshake_result gpg key f = None
  end.
Proof.
  unfold handshake_result. destruct (serve f) as [ms st] eqn:E. rewrite Start_waits by (intros Hg; by apply Hkey). cbn [snd]. rewrite serve_cases in E.
  assert (Hl : listen_all f sockets = (ms, st) -> match st with Serves => ready_signal ms (exited st) = Some (Ok tt) | Exits _ => exists e, ready_signal ms (exited st) = Some (Err e) | WaitsForKey => ready_signal ms (exited st) = None end).
  { intros El. pose proof (listen_all_shape f sockets) as H. rewrite El in H. by destruct st. }
  destruct (hasGPG sockets); [|by apply Hl]. destruct gpg; [|by injection E as <- <-]. destruct (setupGPGPubkey f key); [|by apply Hl].
  injection E as <- <-. cbn. eauto.
Qed.

(** It succeeds when the container's sockets ask for a key only if the host sends one
    and nothing fails in the container. *)
Lemma handshake_ready : (hasGPG sockets = true -> gpg = true) -> setupGPGPubkey f key = None -> (forall s, s ∈ sockets -> createSocketListener f s = None) -> ready_written f = true ->
  handshake_result gpg key f = Some (Ok tt).
Proof.
  intros Hg Hs Hl Hr. pose proof handshake_agrees as Ha. rewrite serve_cases, (listen_all_ok f sockets Hl Hr), Hs in Ha. destruct (hasGPG sockets); [|done]. pose proof (Hg eq_refl) as E. by destruct gpg.
Qed.

(** The container's sockets are those of the configuration it was created with, the
    host's flag is read when the bridge is started: once gpg forwarding has been turned
    off in between, both ends wait for each other and no socket is served, the ssh
    agent's neither. *)
Lemma mismatched_gpg_waits : hasGPG sockets = true -> gpg = false -> (serve f).2 = WaitsForKey /\ handshake_result gpg key f = None.
Proof. intros Hg E. pose proof handshake_agrees as Ha. rewrite serve_cases, Hg, E in *. done. Qed.
End Handshake.

(** A keyring that does not fit a message is sent all the same, and refused. *)
Lemma large_keyring_refused f key sockets : parse f (remote_sockets f) = Some sockets -> remote_sockets f <> "" -> hasGPG sockets = true -> input f = hello true key -> key <> [] ->
  Z.of_nat (length key) <= 2 ^ 20 -> maxMessageSize < headLen + Z.of_nat (length key) -> exists e, handshake_result true key f = Some (Err (ForwarderError e)).
Proof.
  intros Hp Hr Hg Hin Hk Hl Hm. unfold handshake_result. rewrite hello_gpg in Hin by done. unfold serve. destruct (String.eqb_spec (remote_sockets f) ""); [done|]. rewrite Hp, Hg. destruct sockets as [|s l]; [done|].
  rewrite Hin, payload_limit; [|done|done|done|done]. rewrite Start_waits by done. cbn. eauto.
Qed.

(** ** The bridge daemons *)

Lemma alive_spec pid w : isProcessAlive pid w = true <-> 0 < pid /\ pid ∈ alive_pids w.
Proof. unfold isProcessAlive. rewrite andb_true_iff, Z.ltb_lt, bool_decide_eq_true. done. Qed.

Section Daemons.
Context (pidPath : string -> option string).

(** A container whose bridge runs keeps it: no daemon is spawned, no file or process is
    touched, and the bridge still runs. *)
Lemma ensure_keeps c spawned wrote w : IsRunning pidPath c w = true ->
  let '(w', ok) := EnsureBridge pidPath c spawned wrote w in ok = true /\ IsRunning pidPath c w' = true /\ files w' = files w /\ alive_pids w' = alive_pids w /\ terminated w' = terminated w.
Proof.
  unfold IsRunning at 1, EnsureBridge. intros Hr. destruct (bridges w !! c) as [bp|] eqn:Eb.
  - rewrite Hr. split; [done|]. unfold IsRunning. by rewrite Eb, Hr.
  - destruct (pidPath c) as [pf|] eqn:Ep; [|done]. rewrite Hr. split; [done|]. apply andb_true_iff in Hr as [_ Hr]. unfold IsRunning. cbn. rewrite lookup_insert. by case_decide.
Qed.

(** A bridge that could be ensured runs. *)
Lemma ensure_runs c spawned wrote w w' : (forall pid, spawned = Some pid -> 0 < pid) -> EnsureBridge pidPath c spawned wrote w = (w', true) -> IsRunning pidPath c w' = true.
Proof.
  intros Hs He. destruct (IsRunning pidPath c w) eqn:Er; [pose proof (ensure_keeps c spawned wrote w Er) as H; rewrite He in H; apply H|].
  assert (Hst : forall pf v, startBridge c pf spawned wrote v = (w', true) -> IsRunning pidPath c w' = true).
  { intros pf v. unfold startBridge. destruct spawned as [pid|]; [|done]. case_bool_decide; [|done]. intros [= <-]. unfold IsRunning. cbn. rewrite lookup_insert_eq.
    apply alive_spec. cbn. split; [by apply Hs|set_solver]. }
  assert (Hff : forall v, (match pidPath c with None => (v, false) | Some pf => let pid := readPIDFile pf v in if (0 <? pid) && isProcessAlive pid v then (with_bridges (<[c := (pid, pf)]> (bridges v)) v, true) else startBridge c pf spawned wrote v end) = (w', true) -> IsRunning pidPath c w' = true).
  { intros v. destruct (pidPath c) as [pf|]; [|done]. cbn zeta. destruct ((0 <? readPIDFile pf v) && isProcessAlive (readPIDFile pf v) v) eqn:E; [|by apply Hst]. intros [= <-]. apply andb_true_iff in E as [_ E]. unfold IsRunning. cbn. by rewrite lookup_insert_eq. }
  unfold EnsureBridge, IsRunning in He, Er. destruct (bridges w !! c) as [bp|]; [rewrite Er in He|]; by apply Hff in He.
Qed.

Lemma killed pid w : pid ∈ alive_pids w -> pid ∈ terminated (killProcess pid w).
Proof. intros H. unfold killProcess. cbn. rewrite bool_decide_eq_true_2 by done. set_solver. Qed.
Lemma kill_grows pid w : terminated w ⊆ terminated (killProcess pid w).
Proof. unfold killProcess. cbn. case_bool_decide; set_solver. Qed.
Lemma kill_recorded_grows pf w : terminated w ⊆ terminated (kill_recorded pf w).
Proof. unfold kill_recorded. destruct (0 <? _); [apply kill_grows|done]. Qed.

(** Stopping a bridge signals the daemon on record, and the one whose PID the file
    holds, and leaves neither record nor file: the bridge does not run. *)
Lemma stop_stops c pf w : pidPath c = Some pf -> let '(w', ok) := StopBridgeOf pidPath c w in
  ok = true /\ files w' !! pf = None /\ bridges w' !! c = None /\ IsRunning pidPath c w' = false /\ alive_pids w' = alive_pids w /\
  (forall bp, bridges w !! c = Some bp -> isProcessAlive bp.1 w = true -> bp.1 ∈ terminated w') /\
  (bridges w !! c = None -> isProcessAlive (readPIDFile pf w) w = true -> readPIDFile pf w ∈ terminated w').
Proof.
  intros Hp. unfold StopBridgeOf. rewrite Hp. split; [done|]. set (w1 := match bridges w !! c with Some bp => _ | None => w end).
  assert (Hf : files (kill_recorded pf w1) !! pf = None) by (cbn; by rewrite lookup_delete_eq).
  assert (Hb : bridges (kill_recorded pf w1) !! c = None).
  { unfold kill_recorded. assert (bridges w1 !! c = None) by (unfold w1; destruct (bridges w !! c) eqn:E; [cbn; by rewrite lookup_delete_eq|done]). by destruct (0 <? _). }
  assert (Ha : alive_pids w1 = alive_pids w) by (unfold w1, cleanupBridgeLocked; destruct (bridges w !! c); [by destruct (isProcessAlive _ _)|done]).
  split; [done|]. split; [done|]. split; [unfold IsRunning; rewrite Hb, Hp; unfold readPIDFile; by rewrite Hf|].
  split; [unfold kill_recorded; destruct (0 <? _); exact Ha|]. split.
  - intros bp Eb Hl. apply kill_recorded_grows. unfold w1, cleanupBridgeLocked. rewrite Eb, Hl. apply killed. by apply alive_spec in Hl as [_ Hl].
  - intros Eb Hl. unfold w1. rewrite Eb. unfold kill_recorded. apply alive_spec in Hl as [H1 H2]. apply Z.ltb_lt in H1 as ->. by apply killed.
Qed.

(** The wait for the PID file is meant to confirm that the new daemon has started: the
    file a dead daemon left behind confirms it too, whatever became of the new one. *)
Lemma stale_pid_confirms c pf pid data w : pidPath c = Some pf -> bridges w !! c = None -> files w !! pf = Some data -> isProcessAlive (readPIDFile pf w) w = false ->
  exists w', EnsureBridge pidPath c (Some pid) false w = (w', true) /\ files w' !! pf = Some data.
Proof.
  intros Hp Hb Hf Ha. unfold EnsureBridge. rewrite Hb, Hp. cbn zeta. rewrite Ha, andb_false_r. unfold startBridge. rewrite Hf, (bool_decide_eq_true_2 (is_Some (Some data))) by done. by eexists.
Qed.

(** A daemon told to stop removes the PID file when it leaves, though it may hold its
    successor's PID by then: the next invocation finds no bridge and spawns a second one
    beside the first. *)
Lemma old_daemon_erases c pf old new third w w1 ok : pidPath c = Some pf -> bridges w !! c = Some (old, pf) -> old ∈ alive_pids w -> 0 < new -> new <> old ->
  StopBridgeOf pidPath c w = (w1, ok) -> exists w2 w4, EnsureBridge pidPath c (Some new) true w1 = (w2, true) /\ IsRunning pidPath c w2 = true /\
    let w3 := new_invocation (daemon_exits old pf w2) in IsRunning pidPath c w3 = false /\ EnsureBridge pidPath c (Some third) true w3 = (w4, true) /\
    new ∈ alive_pids w4 /\ terminated w4 = terminated w1 /\ third ∈ alive_pids w4.
Proof.
  intros Hp Hb Hal Hn Hne E1. pose proof (stop_stops c pf w Hp) as Hst. rewrite E1 in Hst. destruct Hst as (-> & Hf1 & Hb1 & _).
  assert (Hsp : forall pid v, bridges v !! c = None -> files v !! pf = None -> EnsureBridge pidPath c (Some pid) true v = (mkWorld (<[pf := Itoa pid]> (files v)) ({[pid]} ∪ alive_pids v) (terminated v) (<[c := (pid, pf)]> (bridges v)), true)).
  { intros pid v Hbv Hfv. unfold EnsureBridge. rewrite Hbv, Hp. cbn zeta. unfold readPIDFile. rewrite Hfv. cbn. by rewrite lookup_insert_eq. }
  eexists _, _. split; [by apply Hsp|]. split; [unfold IsRunning; cbn; rewrite lookup_insert_eq; apply alive_spec; cbn; split; [done|set_solver]|]. cbn zeta.
  split; [unfold IsRunning; cbn; rewrite lookup_empty, Hp; unfold readPIDFile; cbn; by rewrite lookup_delete_eq|]. split; [apply Hsp; [done|cbn; by rewrite lookup_delete_eq]|].
  cbn. split; [set_solver|]. split; [done|set_solver].
Qed.
End Daemons.

End BridgeSpec.
